(* ===== verification/_CoqProject ===== *)
-Q . S2P
Prelude.v
PyNum.v
PyDict.v
Uuids.v
Interleave.v
Budgets.v
BudgetsFacts.v
BudgetTheorems.v
ExecutionBus.v
SampleCodec.v
BusTheorems.v
Backpressure.v
Sessions.v
AgentGateway.v
AgentWorker.v
PipelineFacts.v
Pipeline.v
PipelineTheorems.v
AuditChain.v
AuditTheorems.v
ToolRegistry.v
RegistryTheorems.v
ToolState.v
Approvals.v
ToolExecutor.v
ToolSafety.v
ToolTheorems.v
Storage.v
StorageFacts.v
StorageTheorems.v
StorageMigration.v
MigrationFacts.v
AdminAccess.v
StorageControl.v
ControlFacts.v
MigrationTheorems.v
ClaimTheorems.v
Failover.v
Degradation.v
AdaptiveReply.v
Delivery.v
DeliveryFacts.v
DeliveryTheorems.v
Inbound.v
InboundTheorems.v
ContentLifecycle.v
ContentErasure.v
RetentionSweep.v
LifecycleFacts.v
LifecycleTheorems.v
ErasureTheorems.v
PyRegex.v
Governance.v
GovernanceTheorems.v
PolicyBundles.v
PolicyTheorems.v
LlmGateway.v
GatewayFacts.v
GatewayCalls.v
GatewayTheorems.v
GatewayAdapters.v
AdapterTheorems.v
GatewayScenario.v
Pagination.v
AgentDrafts.v
ModelProfiles.v
Evaluations.v
AgentReleases.v
EvalSuites.v
ReleaseProcess.v
ReleaseFacts.v
ReleaseTheorems.v
Projections.v
ProjectionTheorems.v
Knowledge.v
KnowledgeTheorems.v
Artifacts.v
ArtifactTheorems.v
Identity.v
IdentityTheorems.v
