(* ===== verification/Prelude.v ===== *)
(** * A verification of the tRPC agent platform (src/trpc_service)

    The service runs AI agents for many tenants.  A gateway accepts an execution
    and writes it, with an outbox row, to the tenant's database; a dispatcher
    publishes the outbox on a bus; a worker takes a lease on the session, reserves
    budget, calls the model and tools, and commits the events of the session under
    the fencing token of its lease.  Tools with side effects pass an approval gate.
    Everything that administrators and workers decide is written to a hash-chained
    audit log.  Messages of chat channels enter through an inbound ledger and their
    replies leave as tracked deliveries.  Runtime data lives in per-tenant storage
    profiles, between which an online migration moves a tenant; content expires under
    approved retention policies and is erased on request, unless a Legal Hold keeps
    it.  Model calls leave through one gateway, which scans, classifies, routes and
    pays for them under the tenant's signed policies.  One region at a time is primary.

    This library models those parts as Rocq functions over records of table rows and
    proves what makes them correct.  Definitions keep the names of the source; every
    handler is modelled whole, with its guards, its error paths and its writes.

    ** How the code is modelled

    - A handler is a computation of the monad [ST S E A] below: it reads and writes
      the state [S], returns an [A] or raises an [E].  [transaction] undoes the writes
      of a body that raises; it also takes a fault, since a connection can be lost
      before or after the commit took effect.
    - A program of several transactions is a [proc] ([Interleave]): any number of
      them run interleaved, and the rely-guarantee rules of that file carry their
      invariants.  Where every operation is one transaction, a step relation and its
      reflexive transitive closure give the reachable states.
    - Unique indexes, primary keys and checks of the SQL migrations are conditions of
      the statements, which raise when a row would violate them.  Row locks and
      advisory locks held to the end of a transaction make it one atomic step.
    - Integers are [Z] (Python integers are unbounded; SQL columns have their checks);
      a binary64 float is a pair of mantissa and exponent ([PyNum]); a date is a
      number of microseconds; a UUID is its 128-bit integer; a [dict] is a [gmap], or
      the list of its items where the order of iteration matters ([PyDict]).
    - Code that is not in the repository is a parameter: SHA-256 and HMAC, the JSON
      printer and parser, the clock and random identifiers, the model provider, tool
      backends, object storage, and the factory of migration adapters.  Where a
      theorem needs a law of such a parameter it is a hypothesis of the theorem, and a
      witness instantiates it ([SampleCodec] is a JSON codec with its round trip).
    - Ghost annotations: [ts_grants], [bc_operation] and [bc_grant] of the tool state
      record which operation consumed which approval, [dd_log] of a delivery system
      what its channel was asked and answered, [gs_log] of the model gateway what each
      call did.  No operation reads them.

    ** Files

    - [Prelude] (this file): the monad, transactions, triples and their automation,
      ordered queries and row selection.  [PyNum], [PyDict], [Uuids], [Interleave]:
      Python arithmetic, dictionaries, identifiers (ids.py), interleaving.
    - [Budgets], [BudgetsFacts], [BudgetTheorems]: budgets.py.  No run overdraws a hard
      limit, the counters agree with the ledger, a reservation is secured on every
      level or on none, releases undo reservations, settlements are idempotent.
    - [ExecutionBus], [SampleCodec], [BusTheorems]: execution_bus.py.  Envelopes
      survive the wire, offsets are committed only for records handled or parked,
      published rows are on the bus, draining terminates and keeps the order.
    - [Backpressure]: backpressure.py and the admission function of migration 0032;
      the number of admissions in any window is bounded.
    - [Sessions], [AgentGateway], [AgentWorker], [PipelineFacts], [Pipeline],
      [PipelineTheorems]: sessions.py, agent_gateway.py and agent_worker.py composed
      with the bus.  Executions commit exactly once, histories are gap-free and final,
      stale workers are fenced, resubmission is idempotent, an undisturbed delivery
      commits.
    - [AuditChain], [AuditTheorems]: audit_chain/ and admin_api/audit.py.  Chains stay
      verifiable; a rewritten history with the same head needs a hash collision.
    - [ToolRegistry], [RegistryTheorems], [ToolState], [Approvals], [ToolExecutor],
      [ToolSafety], [ToolTheorems]: tool/.  Versions are
      immutable, accepted parameters are typed, one approval is worth one execution,
      high-risk calls need a second person, retries follow the side-effect contract,
      reconciliations are final.
    - [Storage], [StorageFacts], [StorageTheorems]: storage.py.  The cache refines one
      finite map, erasure of a tenant is complete, routers keep tenants apart.
    - [StorageMigration], [MigrationFacts], [AdminAccess], [StorageControl],
      [ControlFacts], [MigrationTheorems], [ClaimTheorems]: storage_migration.py, storage_migration_worker.py and
      admin_api/storage_migrations.py, storage_profiles.py, tenant_access.py and
      idempotency.py.  Backfill and catch-up copy everything, valid evidence means
      equal contents, migrations stay governed, resolution follows the state machine,
      dedicated resources are never shared, replayed commands change nothing.
    - [AdaptiveReply]: channels/adaptive_reply.py.  Replies are cut into bounded
      messages without loss and, where the text allows, without splitting Markdown.
    - [Delivery], [DeliveryFacts], [DeliveryTheorems]: channels/delivery.py with its store.  The protocol is the
      abstract specification; the service refines it in every history with crashes,
      so numbers are sent once, settled deliveries are not resent and records are
      true; runs end, and transient failures are retried to delivery.
    - [Inbound], [InboundTheorems]: channels/inbound.py and
      channels/bindings.py with their stores, composed with the pipeline.  A message
      gets one execution however often and concurrently it arrives; a conflicting
      payload is isolated.
    - [ContentLifecycle], [ContentErasure], [RetentionSweep], [LifecycleFacts],
      [LifecycleTheorems], [ErasureTheorems]: content_lifecycle.py
      and admin_api/content_lifecycle.py.  Policies and holds take two people under
      every interleaving, a completed deletion has a verified proof per backend,
      [process] is described on every branch, due requests complete over planes that
      work, and the sweep removes exactly the expired content of tenants not held.
    - [PyRegex], [Governance], [GovernanceTheorems]: governance.py, with regular
      expressions and their meaning.  The scan finds what occurs, outbound decisions
      are exactly those of the rules, a signature binds rules and version.
    - [PolicyBundles], [PolicyTheorems]: policy_bundles.py and
      admin_api/policies.py.  Resolved policies are signed under every interleaving;
      an activation switches exactly the versions it should.
    - [LlmGateway], [GatewayFacts], [GatewayCalls], [GatewayTheorems],
      [GatewayAdapters], [AdapterTheorems], [GatewayScenario]:
      llm_gateway.py.  Calls of one gateway interleave; provider calls are cleared, the
      budget follows the outcome, rate limit and circuit breaker hold, candidates are
      the reachable profiles; secrets stay with their tenant, the policy fails closed.
    - [Pagination]: admin_api/pagination.py and preconditions.py.  Cursors in URL-safe
      base64, pages, If-Match headers.
    - [AgentDrafts], [ModelProfiles], [Evaluations], [AgentReleases], [EvalSuites],
      [ReleaseProcess], [ReleaseFacts], [ReleaseTheorems]:
      admin_api/agents.py, model_profiles.py, evals.py, draft_validation.py and evals.py.
      [ReleaseProcess] is an abstract machine of guarded events that every endpoint
      refines; from it, production serves only releases that two people and stored
      evidence stand behind, deployments only advance, releases are immutable and
      numbered, evaluations are exact, the model gateway can serve what was published,
      paging is complete.
    - [Projections], [ProjectionTheorems]: job_worker.py and
      memory_access.py.  Summaries are exact, projections only advance, acknowledged ones
      are stored, every announcement is settled, memories stay private, under every
      interleaving of workers, corrections, reads and retention.
    - [Knowledge], [KnowledgeTheorems]: knowledge.py and admin_api/knowledge.py.  Splitting
      loses nothing, builds end, ready revisions are complete and final, deployed ones
      are ready, retrieval keeps to the access lists.
    - [Artifacts], [ArtifactTheorems]: artifacts.py.  A download needs the owner and a
      signed grant, grants open exactly what they were issued for, whatever is stored was
      screened under every interleaving, and the worker deletes exactly what expired.
    - [Identity], [IdentityTheorems]: admin_api/app.py, auth.py, roles.py,
      tenant_members.py and im_subjects.py.  Privileges trace back to the emergency
      administrator under every interleaving, the tables agree, grants compare versions,
      associations have no direction.
    - [Failover], [Degradation]: failover.py and degradation.py.  One primary at a
      time under growing tokens; the audit trail of degradations is complete.

    ** Interfaces

    [ApprovalStore] with [ApprovalStoreLaws] (a memory and a database instance) and
    [StorageAdapter] with [StorageAdapterLaws] and [OnlineMigrationLaws] (the memory
    adapter, and the cache over any lawful adapter) are classes: the services are
    proved against the laws and the implementations discharge them.  [ContentPlanes]
    with [ErasingPlanes] is the interface of the content backends, which are outside
    the repository; [ErasureTheorems] has an instance.  [Collaborators] with
    [LawfulCollaborators] is what the model gateway awaits: [GatewayAdapters] builds the
    services of the deployed gateway over [Outside], its HTTP services and clocks, and
    [AdapterTheorems] discharges the laws.

    ** Bounds and fuel

    Draining the in-memory bus takes the number of pending records plus one as fuel,
    and [BusTheorems] shows that it is enough; the retry loop of a tool call recurses
    on the attempts that remain; removing a text from a text takes the length of the
    text as fuel, and each round shortens it, as does each round of splitting a reply;
    the loop of a delivery run takes 1027 rounds, and [DeliveryTheorems] shows that it
    never needs more; the walk over fallback models looks up each wanted alias at most
    once, so their number is its fuel ([GatewayTheorems]); matching a regular
    expression takes the length of the text, splitting a document as many rounds as it
    has characters, and [KnowledgeTheorems] shows that they are enough.  All other recursion is structural.

    ** Not modelled

    HTTP transport, response schemas and authentication tokens; the provider protocols
    of the channel connectors and of the model providers; container sandboxes; metrics
    and tracing; the endpoints and services listed as not modelled in the manifest of
    the development.  Texts in release documents hold no NUL character, and the reads of
    draft and profiles in [publish_release] are one step with its insert.  The gateway's clock is exact where the code has floats of seconds.
    The rounding of the float token bucket in backpressure.py is
    not modelled (its unit is the millionth of a token), nor are the URL and pattern
    checks of storage profile fields.  Faults other than lost connections, such as a
    crash inside a transaction, are those of [txn_fault]: a transaction is atomic. *)

From stdpp Require Export base tactics option list gmap strings pretty numbers.
From stdpp Require Export relations.
From Stdlib Require Export Sorted.
#[export] Set Default Goal Selector "!".
#[export] Set Warnings "-clear-no-such-hyp".

(** ** Identifiers and instants

    A [uuid] is the 128-bit integer of a Python [uuid.UUID]; the code moves
    between [UUID] and its canonical text freely, and that text is injective,
    so one type stands for both.  An [instant] is a number of microseconds
    since the Unix epoch. *)
Abbreviation uuid := Z (only parsing).
Abbreviation instant := Z (only parsing).

Declare Scope platform_scope.
Delimit Scope platform_scope with platform.
Open Scope platform_scope.

(** ** Results and the state-and-exception monad

    A handler reads and writes the component's state and either returns or
    raises.  [ST S E A] is that shape: the state is threaded through, also when
    the computation raises (what a Python mutation leaves behind when an
    exception propagates); [transaction] below is what rolls a database back. *)
Inductive outcome (E A : Type) :=
  | Ok (a : A)
  | Raise (e : E).
Arguments Ok {_ _} _.
Arguments Raise {_ _} _.

Definition ST (S E A : Type) : Type := S → outcome E A * S.

#[export] Instance ST_mret S E : MRet (ST S E) := λ A a s, (Ok a, s).
#[export] Instance ST_mbind S E : MBind (ST S E) := λ A B f m s,
  match m s with
  | (Ok a, s') => f a s'
  | (Raise e, s') => (Raise e, s')
  end.

Definition raise {S E A} (e : E) : ST S E A := λ s, (Raise e, s).
Definition get {S E} : ST S E S := λ s, (Ok s, s).
Definition gets {S E A} (f : S → A) : ST S E A := λ s, (Ok (f s), s).
Definition put {S E} (s' : S) : ST S E unit := λ _, (Ok tt, s').
Definition modify {S E} (f : S → S) : ST S E unit := λ s, (Ok tt, f s).

(** [ensure b e]: a guard, [if not b: raise e]. *)
Definition ensure {S E} (b : bool) (e : E) : ST S E unit :=
  if b then mret tt else raise e.

(** [from_option o e]: the value of a lookup, or the exception for [None]. *)
Definition get_or_raise {S E A} (o : option A) (e : E) : ST S E A :=
  match o with Some a => mret a | None => raise e end.

(** [try m handler]: Python's [try: m except ...: handler], where the handler
    picks the exceptions it catches and re-raises the others; the state the
    body left behind is kept. *)
Definition try_catch {S E A} (m : ST S E A) (h : E → ST S E A) : ST S E A := λ s,
  match m s with
  | (Ok a, s') => (Ok a, s')
  | (Raise e, s') => h e s'
  end.

(** A [for] loop over a list. *)
Fixpoint for_each {S E A} (f : A → ST S E unit) (l : list A) : ST S E unit :=
  match l with
  | [] => mret tt
  | x :: l' => _ ← f x; for_each f l'
  end.

(** A list comprehension whose element expression has effects. *)
Fixpoint map_each {S E A B} (f : A → ST S E B) (l : list A) : ST S E (list B) :=
  match l with
  | [] => mret []
  | x :: l' => y ← f x; ys ← map_each f l'; mret (y :: ys)
  end.

(** ** Transactions

    [Database.transaction] commits when its body returns and rolls back when
    the body raises.  The connection can also be lost: before the commit took
    effect (the work is undone) or after it (the work is durable, yet the
    caller still sees an error).  A [txn_fault] says which of the three
    happens. *)
Inductive txn_fault := NoFault | LostBeforeCommit | LostAfterCommit.

#[export] Instance txn_fault_eq_dec : EqDecision txn_fault.
Proof. solve_decision. Defined.

Definition transaction {S E A} (fault : txn_fault) (lost : E) (m : ST S E A) : ST S E A := λ s,
  match m s with
  | (Ok a, s') =>
      match fault with
      | NoFault => (Ok a, s')
      | LostBeforeCommit => (Raise lost, s)
      | LostAfterCommit => (Raise lost, s')
      end
  | (Raise e, _) => (Raise e, s)
  end.

(** ** Triples

    [triple P m Q X]: from a state satisfying [P], [m] returns a value and a
    state satisfying [Q], or raises an exception and leaves a state satisfying
    [X].  [m] is a total function, so the triple is one of total correctness. *)
Definition triple {S E A} (P : S → Prop) (m : ST S E A)
    (Q : A → S → Prop) (X : E → S → Prop) : Prop :=
  ∀ s, P s →
    match m s with
    | (Ok a, s') => Q a s'
    | (Raise e, s') => X e s'
    end.

(** [maintains X I m]: started in [I], [m] returns in [I] and raises in [X].
    [preserves I m] asks for [I] on every path; [keeps I m] only on the paths
    that return, which is what a transaction needs, since it undoes the others. *)
Definition maintains {S E A} (X : E → S → Prop) (I : S → Prop) (m : ST S E A) : Prop :=
  triple I m (λ _, I) X.
Abbreviation preserves I m := (maintains (λ _, I%function) I%function m).
Abbreviation keeps I m := (maintains (λ _ _, True) I%function m).

Create HintDb platform discriminated.
#[export] Hint Constants Opaque : platform.
#[export] Hint Variables Opaque : platform.

Section Triples.
Context {S E : Type}.
Implicit Types (I P : S → Prop) (X : E → S → Prop).

Lemma triple_ret {A} P X (a : A) (Q : A → S → Prop) :
  (∀ s, P s → Q a s) → triple P (mret a : ST S E A) Q X.
Proof. intros H s Hs. by apply H. Qed.

Lemma triple_raise {A} P X (e : E) (Q : A → S → Prop) :
  (∀ s, P s → X e s) → triple P (raise e : ST S E A) Q X.
Proof. intros H s Hs. by apply H. Qed.

Lemma triple_bind {A B} P (R : A → S → Prop) Q X (m : ST S E A) (k : A → ST S E B) :
  triple P m R X → (∀ a, triple (R a) (k a) Q X) → triple P (m ≫= k) Q X.
Proof.
  intros Hm Hk s Hs. unfold mbind, ST_mbind. specialize (Hm s Hs).
  destruct (m s) as [[a|e] s']; [by apply Hk|done].
Qed.

Lemma triple_consequence {A} P P' (Q Q' : A → S → Prop) X X' (m : ST S E A) :
  triple P' m Q' X' → (∀ s, P s → P' s) → (∀ a s, Q' a s → Q a s) →
  (∀ e s, X' e s → X e s) → triple P m Q X.
Proof.
  intros Hm HP HQ HX s Hs. specialize (Hm s (HP s Hs)).
  destruct (m s) as [[a|e] s']; auto.
Qed.

Lemma maintains_ret {A} X I (a : A) : maintains X I (mret a : ST S E A).
Proof. by apply triple_ret. Qed.

Lemma maintains_raise {A} X I (e : E) :
  (∀ s, I s → X e s) → maintains X I (raise e : ST S E A).
Proof. by apply triple_raise. Qed.

Lemma maintains_get X I : maintains X I (get : ST S E S).
Proof. by intros s. Qed.

Lemma maintains_gets {A} X I (f : S → A) : maintains X I (gets f : ST S E A).
Proof. by intros s. Qed.

Lemma maintains_modify X I (f : S → S) :
  (∀ s, I s → I (f s)) → maintains X I (modify f : ST S E unit).
Proof. intros H s Hs. by apply H. Qed.

Lemma maintains_ensure X I b (e : E) :
  (∀ s, I s → X e s) → maintains X I (ensure b e : ST S E unit).
Proof. intros. destruct b; [apply maintains_ret|by apply maintains_raise]. Qed.

Lemma maintains_get_or_raise {A} X I (o : option A) (e : E) :
  (∀ s, I s → X e s) → maintains X I (get_or_raise o e : ST S E A).
Proof. intros. destruct o; [apply maintains_ret|by apply maintains_raise]. Qed.

Lemma maintains_bind {A B} X I (m : ST S E A) (k : A → ST S E B) :
  maintains X I m → (∀ a, maintains X I (k a)) → maintains X I (m ≫= k).
Proof. intros Hm Hk. by eapply triple_bind. Qed.

Lemma maintains_for_each {A} X I (f : A → ST S E unit) l :
  (∀ x, x ∈ l → maintains X I (f x)) → maintains X I (for_each f l).
Proof.
  induction l as [|x l IH]; intros Hf; simpl; [apply maintains_ret|].
  apply maintains_bind; [apply Hf; set_solver|]. intros _. apply IH. set_solver.
Qed.

Lemma maintains_map_each {A B} X I (f : A → ST S E B) l :
  (∀ x, x ∈ l → maintains X I (f x)) → maintains X I (map_each f l).
Proof.
  induction l as [|x l IH]; intros Hf; simpl; [apply maintains_ret|].
  apply maintains_bind; [apply Hf; set_solver|]. intros y.
  apply maintains_bind; [apply IH; set_solver|]. intros. apply maintains_ret.
Qed.

Lemma preserves_try_catch {A} I (m : ST S E A) h :
  preserves I m → (∀ e, preserves I (h e)) → preserves I (try_catch m h).
Proof.
  intros Hm Hh s Hs. unfold try_catch. specialize (Hm s Hs).
  destruct (m s) as [[a|e] s']; [done|by apply Hh].
Qed.

(** A transaction preserves what its body keeps when it returns. *)
Lemma preserves_transaction {A} I fault (lost : E) (m : ST S E A) :
  keeps I m → preserves I (transaction fault lost m).
Proof.
  intros Hm s Hs. unfold transaction. specialize (Hm s Hs).
  destruct (m s) as [[a|e] s']; [by destruct fault|done].
Qed.

(** [keeps] and [preserves] in terms of runs. *)
Lemma keeps_intro {A} I (m : ST S E A) :
  (∀ s a s', I s → m s = (Ok a, s') → I s') → keeps I m.
Proof. intros H s Hs. destruct (m s) as [[a|e] s'] eqn:Hm; [by eapply H|done]. Qed.

Lemma keeps_elim {A} I (m : ST S E A) s a s' : keeps I m → m s = (Ok a, s') → I s → I s'.
Proof. intros Hk Hm Hs. specialize (Hk s Hs). by rewrite Hm in Hk. Qed.

Lemma triple_pure {A} P (φ : Prop) Q X (m : ST S E A) :
  (φ → triple P m Q X) → triple (λ s, P s ∧ φ) m Q X.
Proof. intros H s [Hs Hφ]. by apply H. Qed.

Lemma preserves_result {A} I (m : ST S E A) s r s' :
  m s = (r, s') → preserves I m → I s → I s'.
Proof. intros Hm Hp Hs. specialize (Hp s Hs). rewrite Hm in Hp. by destruct r. Qed.

(** A transaction whose body raises leaves the state it found. *)
Lemma transaction_rollback {A} fault (lost : E) (m : ST S E A) s e s' :
  fault ≠ LostAfterCommit → transaction fault lost m s = (Raise e, s') → s' = s.
Proof.
  unfold transaction. destruct (m s) as [[a|e'] s1]; destruct fault; congruence.
Qed.

(** Inversion of the sequencing operators on a successful run. *)
Lemma bind_Ok {A B} (m : ST S E A) (k : A → ST S E B) s b s' :
  (m ≫= k) s = (Ok b, s') ↔ ∃ a s1, m s = (Ok a, s1) ∧ k a s1 = (Ok b, s').
Proof.
  unfold mbind, ST_mbind. destruct (m s) as [[a|e] s1]; naive_solver.
Qed.

Lemma bind_run {A B} (m : ST S E A) (k : A → ST S E B) s a s1 :
  m s = (Ok a, s1) → (m ≫= k) s = k a s1.
Proof. intros Hm. unfold mbind, ST_mbind. by rewrite Hm. Qed.

Lemma transaction_Ok {A} fault (lost : E) (m : ST S E A) s a s' :
  transaction fault lost m s = (Ok a, s') ↔ fault = NoFault ∧ m s = (Ok a, s').
Proof.
  unfold transaction. destruct (m s) as [[a'|e'] s1]; destruct fault; naive_solver.
Qed.

Lemma ensure_Ok b (e : E) s a s' :
  (ensure b e : ST S E unit) s = (Ok a, s') ↔ b = true ∧ s' = s ∧ a = tt.
Proof. unfold ensure, mret, ST_mret, raise. destruct b, a; naive_solver. Qed.

Lemma get_or_raise_Ok {A} (o : option A) (e : E) s a s' :
  (get_or_raise o e : ST S E A) s = (Ok a, s') ↔ o = Some a ∧ s' = s.
Proof. unfold get_or_raise, mret, ST_mret, raise. destruct o; naive_solver. Qed.

Lemma gets_Ok {A} (f : S → A) s a s' :
  (gets f : ST S E A) s = (Ok a, s') ↔ a = f s ∧ s' = s.
Proof. unfold gets. naive_solver. Qed.

Lemma get_Ok s a s' : (get : ST S E S) s = (Ok a, s') ↔ a = s ∧ s' = s.
Proof. unfold get. naive_solver. Qed.

Lemma modify_Ok f s a s' : (modify f : ST S E unit) s = (Ok a, s') ↔ s' = f s ∧ a = tt.
Proof. unfold modify. destruct a. naive_solver. Qed.

Lemma mret_Ok {A} (x : A) s a s' : (mret x : ST S E A) s = (Ok a, s') ↔ a = x ∧ s' = s.
Proof. unfold mret, ST_mret. naive_solver. Qed.
End Triples.

(** [run_inv] decomposes the hypothesis that a computation returned into the facts
    its guards and reads establish. *)
Ltac run_inv_step :=
  match goal with
  | H : (_ ≫= _) _ = (Ok _, _) |- _ => apply bind_Ok in H as (? & ? & ? & H)
  | H : gets _ _ = (Ok _, _) |- _ => apply gets_Ok in H as [-> ->]
  | H : get _ = (Ok _, _) |- _ => apply get_Ok in H as [-> ->]
  | H : modify _ _ = (Ok _, _) |- _ => apply modify_Ok in H as [-> ->]
  | H : mret _ _ = (Ok _, _) |- _ => apply mret_Ok in H as [-> ->]
  | H : ensure _ _ _ = (Ok _, _) |- _ => apply ensure_Ok in H as (? & -> & ->)
  | H : get_or_raise _ _ _ = (Ok _, _) |- _ => apply get_or_raise_Ok in H as [? ->]
  | H : raise _ _ = (Ok _, _) |- _ => discriminate H
  end.
Ltac run_inv := repeat run_inv_step.

(** [preserve] closes the structural part of a preservation goal and leaves the
    writes (and the lemmas of the [platform] database for the operations that
    already have one). *)
Ltac preserve_step :=
  lazymatch goal with
  | |- maintains _ _ (mret _) => apply maintains_ret
  | |- maintains _ _ (raise _) => apply maintains_raise; by intros
  | |- maintains _ _ get => apply maintains_get
  | |- maintains _ _ (gets _) => apply maintains_gets
  | |- maintains _ _ (ensure _ _) => apply maintains_ensure; by intros
  | |- maintains _ _ (get_or_raise _ _) => apply maintains_get_or_raise; by intros
  | |- maintains _ _ (_ ≫= _) => apply maintains_bind; [|intros ?]
  | |- maintains _ _ (transaction _ _ _) => apply preserves_transaction
  | |- maintains _ _ (try_catch _ _) => apply preserves_try_catch; [|intros ?]
  | |- maintains _ _ (for_each _ _) => apply maintains_for_each; intros ? ?
  | |- maintains _ _ (map_each _ _) => apply maintains_map_each; intros ? ?
  | |- maintains _ _ (let '(_, _) := ?x in _) => destruct x eqn:?
  | |- maintains _ _ (match ?x with _ => _ end) => destruct x eqn:?
  | |- maintains _ _ _ => solve [eauto with platform]
  end.
Ltac preserve := repeat preserve_step.

(** ** Sums over lists *)
Definition Zsum {A} (f : A → Z) (l : list A) : Z := foldr (λ x acc, (f x + acc)%Z) 0%Z l.

Lemma Zsum_app {A} (f : A → Z) l1 l2 : Zsum f (l1 ++ l2) = (Zsum f l1 + Zsum f l2)%Z.
Proof. induction l1 as [|x l1 IH]; simpl; [done|]. rewrite IH. lia. Qed.

Lemma Zsum_snoc {A} (f : A → Z) l x : Zsum f (l ++ [x]) = (Zsum f l + f x)%Z.
Proof. rewrite Zsum_app. simpl. lia. Qed.

Lemma Zsum_nonneg {A} (f : A → Z) l : (∀ x, x ∈ l → 0 ≤ f x)%Z → (0 ≤ Zsum f l)%Z.
Proof.
  induction l as [|x l IH]; intros Hf; simpl; [done|].
  pose proof (Hf x ltac:(set_solver)). specialize (IH ltac:(set_solver)). lia.
Qed.

(** ** Lists keyed by an injective projection *)
Lemma NoDup_fmap_elem_inj {A B} (f : A → B) (l : list A) x y :
  NoDup (f <$> l) → x ∈ l → y ∈ l → f x = f y → x = y.
Proof.
  intros Hnd [i Hi]%list_elem_of_lookup [j Hj]%list_elem_of_lookup Hf.
  assert (i = j) as ->; [|congruence].
  eapply (NoDup_lookup _ _ _ (f y)); [done| |]; rewrite list_lookup_fmap;
    [by rewrite Hi; simpl; f_equal|by rewrite Hj].
Qed.

Lemma omap_NoDup_inj {A B} (f : A → option B) (l : list A) n m x y k :
  NoDup (omap f l) → l !! n = Some x → l !! m = Some y → f x = Some k → f y = Some k → n = m.
Proof.
  revert n m. induction l as [|z l IH]; intros n m Hnd Hn Hm Hx Hy; [done|].
  assert (∀ j w, l !! j = Some w → f w = Some k → k ∈ omap f l) as Hin.
  { intros j w Hj Hw. apply list_elem_of_omap. exists w. split; [by eapply list_elem_of_lookup_2|done]. }
  simpl in Hnd. destruct n as [|n], m as [|m]; simplify_eq/=; [done|..].
  - rewrite Hx in Hnd. apply NoDup_cons in Hnd as [Hnot _]. by destruct Hnot; eauto.
  - rewrite Hy in Hnd. apply NoDup_cons in Hnd as [Hnot _]. by destruct Hnot; eauto.
  - f_equal. destruct (f z); [apply NoDup_cons in Hnd as [_ Hnd]|]; eauto.
Qed.

(** ** [ORDER BY]: a stable insertion sort on an integer key *)
Fixpoint insert_on {A} (f : A → Z) (x : A) (l : list A) : list A :=
  match l with
  | [] => [x]
  | y :: l' => if (f x <=? f y)%Z then x :: l else y :: insert_on f x l'
  end.
Definition sort_on {A} (f : A → Z) (l : list A) : list A := foldr (insert_on f) [] l.

Lemma sort_on_sorted {A} (f : A → Z) l :
  (∀ i j x y, l !! i = Some x → l !! j = Some y → (i < j)%nat → (f x ≤ f y)%Z) → sort_on f l = l.
Proof.
  unfold sort_on. induction l as [|x l IH]; intros Hl; [done|]. simpl. rewrite IH.
  - destruct l as [|y l]; [done|]. simpl. rewrite (proj2 (Z.leb_le _ _)); [done|].
    apply (Hl 0%nat 1%nat); [done..|lia].
  - intros i j a b Hi Hj Hij. apply (Hl (S i) (S j)); [done..|lia].
Qed.

Lemma sort_on_perm {A} (f : A → Z) l : sort_on f l ≡ₚ l.
Proof.
  assert (∀ x l, insert_on f x l ≡ₚ x :: l) as Hins.
  { intros x l'. induction l' as [|y l' IH]; simpl; [done|]. case_match; [done|]. rewrite IH. by constructor. }
  unfold sort_on. induction l as [|x l IH]; simpl; [done|]. by rewrite Hins, IH.
Qed.

(** The first row of an ordered result. *)
Lemma sort_on_least {A} (f : A → Z) l :
  match head (sort_on f l) with
  | Some x => x ∈ l ∧ ∀ y, y ∈ l → (f x ≤ f y)%Z
  | None => l = []
  end.
Proof.
  induction l as [|x l IH]; [done|]. unfold sort_on in *. simpl.
  destruct (foldr (insert_on f) [] l) as [|y l'] eqn:Hl; simpl in *.
  - subst l. split; [by left|]. intros y ->%list_elem_of_singleton. done.
  - destruct IH as [Hy Hmin]. destruct (Z.leb_spec (f x) (f y)); simpl.
    + split; [by left|]. intros z [->|Hz]%elem_of_cons; [done|]. specialize (Hmin z Hz). lia.
    + split; [by right|]. intros z [->|Hz]%elem_of_cons; [lia|]. by apply Hmin.
Qed.

(** Inversion of sequencing on a run that raised. *)
Lemma bind_Raise {S E A B} (m : ST S E A) (k : A → ST S E B) s e s' :
  (m ≫= k) s = (Raise e, s') →
  m s = (Raise e, s') ∨ ∃ a s1, m s = (Ok a, s1) ∧ k a s1 = (Raise e, s').
Proof. unfold mbind, ST_mbind. destruct (m s) as [[a|e'] s1]; naive_solver. Qed.

(** ** Selecting rows *)
Section Filter.
  Context {A : Type} (P : A → Prop) `{∀ x, Decision (P x)}.

Lemma filter_all (l : list A) : (∀ x, x ∈ l → P x) → filter P l = l.
Proof.
  induction l as [|x l IH]; intros HP; [done|].
  rewrite filter_cons_True by (apply HP; by left). f_equal. apply IH. intros y Hy. apply HP. by right.
Qed.

Lemma filter_none (l : list A) : (∀ x, x ∈ l → ¬ P x) → filter P l = [].
Proof.
  induction l as [|x l IH]; intros HP; [done|].
  rewrite filter_cons_False by (apply HP; by left). apply IH. intros y Hy. apply HP. by right.
Qed.

(** The row a query selects, when only one can be selected. *)
Lemma head_filter_only (l : list A) x :
  x ∈ l → P x → (∀ y, y ∈ l → P y → y = x) → head (filter P l) = Some x.
Proof.
  intros Hx HP Honly. destruct (filter P l) as [|y f] eqn:Hf.
  - assert (x ∈ filter P l) as Hin by by apply list_elem_of_filter.
    rewrite Hf in Hin. by apply not_elem_of_nil in Hin.
  - assert (y ∈ filter P l) as Hy by (rewrite Hf; by left).
    apply list_elem_of_filter in Hy as [HPy Hy]. simpl. f_equal. by apply Honly.
Qed.

Lemma head_filter_Some (l : list A) x : head (filter P l) = Some x → x ∈ l ∧ P x.
Proof. intros Hh%head_Some_elem_of. by apply list_elem_of_filter in Hh as [? ?]. Qed.

Lemma head_filter_None (l : list A) : head (filter P l) = None → ∀ x, x ∈ l → ¬ P x.
Proof.
  intros Hh x Hx HP. destruct (filter P l) as [|y f] eqn:Hf; [|done].
  assert (x ∈ filter P l) as Hin by by apply list_elem_of_filter.
  rewrite Hf in Hin. by apply not_elem_of_nil in Hin.
Qed.
End Filter.

Lemma sort_on_ordered {A} (f : A → Z) l : StronglySorted (λ x y, (f x ≤ f y)%Z) (sort_on f l).
Proof.
  assert (∀ x l, StronglySorted (λ x y, (f x ≤ f y)%Z) l →
    StronglySorted (λ x y, (f x ≤ f y)%Z) (insert_on f x l)) as Hins.
  { intros x l'. induction l' as [|y l' IH]; intros Hs; simpl; [repeat constructor|].
    apply StronglySorted_inv in Hs as [Hs Hy]. destruct (Z.leb_spec (f x) (f y)).
    - constructor; [by constructor|]. constructor; [done|]. eapply Forall_impl; [exact Hy|]. simpl. lia.
    - constructor; [by apply IH|]. clear IH Hs. induction l' as [|z l' IH]; simpl.
      + constructor; [lia|constructor].
      + apply Forall_cons in Hy as [Hz Hy]. case_match.
        * constructor; [lia|by constructor].
        * constructor; [done|by apply IH]. }
  unfold sort_on. induction l as [|x l IH]; simpl; [constructor|by apply Hins].
Qed.
