(* ===== verification/PyNum.v ===== *)
(** * Python numbers and dates

    What the service uses of Python's arithmetic that is not exact: true
    division of integers (a correctly rounded IEEE-754 binary64 quotient),
    [math.ceil] and comparison of such a quotient, and the UTC calendar fields
    that [strftime] prints.  The operands are non-negative and below [2^1000],
    so that neither overflow nor a subnormal result arises. *)

From S2P Require Import Prelude.
Open Scope Z_scope.

(** ** Rounding to nearest, ties to even *)
Definition rne (n d : Z) : Z :=
  let f := n / d in
  let r := n mod d in
  if 2 * r <? d then f
  else if d <? 2 * r then f + 1
  else if Z.even f then f else f + 1.

(** The rounded value is within half a unit of the exact quotient. *)
Lemma rne_close n d : 0 < d → - d ≤ 2 * (d * rne n d - n) ≤ d.
Proof.
  intros Hd. unfold rne.
  pose proof (Z.div_mod n d ltac:(lia)). pose proof (Z.mod_pos_bound n d Hd).
  destruct (2 * (n mod d) <? d) eqn:E1; [lia|].
  destruct (d <? 2 * (n mod d)) eqn:E2; [nia|].
  destruct (Z.even (n / d)); nia.
Qed.

Lemma rne_1 n : rne n 1 = n.
Proof. unfold rne. rewrite Z.div_1_r, Z.mod_1_r. reflexivity. Qed.

(** ** True division

    [py_truediv p q] is the pair [(m, e)] of the binary64 number [m * 2^e]
    nearest to [p / q]; [2^52 <= m <= 2^53] unless [p = 0]. *)
Definition quotient_exponent (p q : Z) : Z :=
  let k := Z.log2 p - Z.log2 q in
  if (if k <? 0 then q <=? p * 2 ^ (- k) else q * 2 ^ k <=? p) then k else k - 1.

Definition py_truediv (p q : Z) : Z * Z :=
  if p =? 0 then (0, 0) else
  let e := quotient_exponent p q - 52 in
  (if e <? 0 then rne (p * 2 ^ (- e)) q else rne p (q * 2 ^ e), e).

Definition py_ceil (x : Z * Z) : Z :=
  let '(m, e) := x in
  if e <? 0 then (m + 2 ^ (- e) - 1) / 2 ^ (- e) else m * 2 ^ e.

(** [float_geb x y]: comparison of two non-negative floats given as pairs. *)
Definition float_geb (x y : Z * Z) : bool :=
  let '(m, e) := x in
  let '(n, g) := y in
  let lo := Z.min e g in
  n * 2 ^ (g - lo) <=? m * 2 ^ (e - lo).

(** The literals [0.9] and [0.7]. *)
Definition float_0_9 : Z * Z := (8106479329266893, -53).
Definition float_0_7 : Z * Z := (6305039478318694, -53).

Lemma pow2_split a b : 0 ≤ a → 0 ≤ b → 2 ^ (a + b) = 2 ^ a * 2 ^ b.
Proof. intros. by apply Z.pow_add_r. Qed.

Lemma log2_bounds p : 0 < p → 2 ^ Z.log2 p ≤ p < 2 * 2 ^ Z.log2 p.
Proof.
  intros Hp. destruct (Z.log2_spec p Hp) as [H1 H2].
  rewrite Z.pow_succ_r in H2 by apply Z.log2_nonneg. lia.
Qed.

(** The chosen exponent [k] brackets the quotient: [2^k <= p/q < 2^(k+1)],
    written without division. *)
Lemma quotient_exponent_spec p q :
  0 < p → 0 < q →
  let k := quotient_exponent p q in
  (0 ≤ k → q * 2 ^ k ≤ p < 2 * (q * 2 ^ k)) ∧
  (k < 0 → q ≤ p * 2 ^ (- k) < 2 * q).
Proof.
  intros Hp Hq. unfold quotient_exponent.
  pose proof (log2_bounds p Hp) as [Hp1 Hp2]. pose proof (log2_bounds q Hq) as [Hq1 Hq2].
  pose proof (Z.log2_nonneg p). pose proof (Z.log2_nonneg q).
  set (a := Z.log2 p) in *. set (b := Z.log2 q) in *.
  destruct (a - b <? 0) eqn:Hk; [apply Z.ltb_lt in Hk|apply Z.ltb_ge in Hk].
  - assert (2 ^ b = 2 ^ a * 2 ^ (- (a - b))) as Hab.
    { rewrite <- pow2_split by lia. f_equal. lia. }
    assert (0 < 2 ^ a) by (apply Z.pow_pos_nonneg; lia).
    assert (0 < 2 ^ (- (a - b))) by (apply Z.pow_pos_nonneg; lia).
    destruct (q <=? p * 2 ^ (- (a - b))) eqn:Hc;
      [apply Z.leb_le in Hc|apply Z.leb_gt in Hc]; simpl; split; intros; try lia.
    + nia.
    + replace (- (a - b - 1)) with (- (a - b) + 1) by lia.
      rewrite pow2_split by lia. nia.
  - assert (2 ^ a = 2 ^ b * 2 ^ (a - b)) as Hab.
    { rewrite <- pow2_split by lia. f_equal. lia. }
    assert (0 < 2 ^ b) by (apply Z.pow_pos_nonneg; lia).
    assert (0 < 2 ^ (a - b)) by (apply Z.pow_pos_nonneg; lia).
    destruct (q * 2 ^ (a - b) <=? p) eqn:Hc;
      [apply Z.leb_le in Hc|apply Z.leb_gt in Hc]; simpl; split; intros; try lia.
    + nia.
    + assert (2 ^ (a - b) = 2 * 2 ^ (a - b - 1)) as Hs.
      { rewrite <- Z.pow_succ_r by lia. f_equal. lia. }
      nia.
    + assert (a - b = 0) as Hz by lia. rewrite Hz in *. simpl in *. nia.
Qed.

(** ** [math.ceil(p / q)] is the exact ceiling while [p < 2^53] *)
Lemma py_ceil_truediv p q :
  0 ≤ p < 2 ^ 53 → 0 < q → py_ceil (py_truediv p q) = (p + q - 1) / q.
Proof.
  intros Hp Hq. unfold py_truediv, py_ceil. destruct (p =? 0) eqn:Hz.
  { apply Z.eqb_eq in Hz as ->. symmetry. apply Z.div_small. lia. }
  apply Z.eqb_neq in Hz.
  pose proof (quotient_exponent_spec p q ltac:(lia) Hq) as [Hge Hlt].
  set (k := quotient_exponent p q) in *.
  set (n := (p + q - 1) / q).
  assert (q * (n - 1) < p ≤ q * n) as Hn.
  { unfold n. pose proof (Z.div_mod (p + q - 1) q ltac:(lia)).
    pose proof (Z.mod_pos_bound (p + q - 1) q Hq). nia. }
  destruct (k - 52 <? 0) eqn:Hk; [apply Z.ltb_lt in Hk|apply Z.ltb_ge in Hk].
  - set (E := - (k - 52)) in *.
    assert (0 < 2 ^ E) as HE by (apply Z.pow_pos_nonneg; lia).
    pose proof (rne_close (p * 2 ^ E) q Hq) as Hr.
    set (m := rne (p * 2 ^ E) q) in *.
    assert (q < 2 * 2 ^ E) as HqE.
    { destruct (Z_lt_le_dec k 0) as [Hk0|Hk0].
      - specialize (Hlt Hk0).
        assert (2 ^ E = 2 ^ 52 * 2 ^ (- k)) as ->.
        { rewrite <- pow2_split by lia. f_equal. lia. }
        assert (0 < 2 ^ (- k)) by (apply Z.pow_pos_nonneg; lia). nia.
      - specialize (Hge Hk0).
        assert (2 ^ 52 = 2 ^ E * 2 ^ k) as Hs.
        { rewrite <- pow2_split by lia. f_equal. lia. }
        assert (0 < 2 ^ k) by (apply Z.pow_pos_nonneg; lia). nia. }
    assert ((n - 1) * 2 ^ E < m ≤ n * 2 ^ E) as Hm.
    { split.
      - destruct (Z_lt_le_dec ((n - 1) * 2 ^ E) m); [done|].
        assert (q * m ≤ q * ((n - 1) * 2 ^ E)) by nia. nia.
      - destruct (Z_le_gt_dec m (n * 2 ^ E)); [done|].
        assert (q * (n * 2 ^ E + 1) ≤ q * m) by nia. nia. }
    symmetry. apply Z.div_unique with (m + 2 ^ E - 1 - 2 ^ E * n); [|ring].
    left. nia.
  - specialize (Hge ltac:(lia)).
    assert (2 ^ 52 ≤ 2 ^ k) by (apply Z.pow_le_mono_r; lia).
    assert (q = 1) as -> by nia.
    assert (k - 52 = 0) as ->.
    { destruct (Z_le_gt_dec k 52); [lia|].
      assert (2 ^ 53 ≤ 2 ^ k) by (apply Z.pow_le_mono_r; lia). lia. }
    simpl. rewrite rne_1. unfold n. rewrite Z.div_1_r. lia.
Qed.

(** ** The threshold tests are exact for limits below [2^49] *)
Section Threshold.
Context (num t : Z).
(** [t / 2^53] is the float nearest to [num / 10], with
    [1/2 < num/10 < 1]. *)
Hypothesis Ht_close : -4 ≤ 10 * t - num * 2 ^ 53 ≤ 2.
Hypothesis Hnum : 5 < num < 10.

Lemma ratio_geb_exact u l :
  0 ≤ u ≤ l → 0 < l < 2 ^ 49 →
  float_geb (py_truediv u l) (t, -53) = (num * l <=? 10 * u).
Proof.
  intros Hu Hl. apply Bool.eq_iff_eq_true. unfold py_truediv, float_geb.
  rewrite Z.leb_le.
  destruct (u =? 0) eqn:Hz.
  { apply Z.eqb_eq in Hz as ->. rewrite Z.leb_le. simpl. lia. }
  apply Z.eqb_neq in Hz.
  pose proof (quotient_exponent_spec u l ltac:(lia) ltac:(lia)) as [Hge Hlt].
  set (k := quotient_exponent u l) in *.
  assert (k ≤ 0) as Hk.
  { destruct (Z_le_gt_dec k 0) as [|Hk]; [done|]. specialize (Hge ltac:(lia)).
    assert (2 ^ 1 ≤ 2 ^ k) by (apply Z.pow_le_mono_r; lia). nia. }
  replace (k - 52 <? 0) with true by (symmetry; apply Z.ltb_lt; lia).
  pose proof (rne_close (u * 2 ^ (- (k - 52))) l ltac:(lia)) as Hr.
  rewrite Z.leb_le.
  destruct (decide (k = 0)) as [Hk0|Hk0].
  - rewrite Hk0 in *. specialize (Hge ltac:(lia)).
    assert (u = l) as -> by lia.
    replace (Z.min (0 - 52) (-53)) with (-53) by lia. simpl in *. nia.
  - specialize (Hlt ltac:(lia)).
    destruct (decide (k = -1)) as [Hk1|Hk1].
    + rewrite Hk1 in *. simpl in *.
      set (m := rne _ _) in *. rewrite !Z.mul_1_r. split; intros Hc.
      * destruct (Z_le_gt_dec (num * l) (10 * u)) as [|Hn]; [done|].
        assert (l * t ≤ l * m) by nia. nia.
      * destruct (Z_le_gt_dec t m) as [|Hn]; [done|].
        assert (l * (m + 1) ≤ l * t) by nia. nia.
    + replace (Z.min (k - 52) (-53)) with (k - 52) by lia.
      rewrite Z.sub_diag, Z.pow_0_r, Z.mul_1_r.
      replace (-53 - (k - 52)) with (- k - 1) by lia.
      set (m := rne _ _) in *.
      assert (2 ^ (- k) = 2 * 2 ^ (- k - 1)) as Hs.
      { rewrite <- Z.pow_succ_r by lia. f_equal. lia. }
      assert (2 ^ 1 ≤ 2 ^ (- k - 1)) by (apply Z.pow_le_mono_r; lia).
      assert (2 ^ (- (k - 52)) = 2 ^ 52 * 2 ^ (- k)) as Hs2.
      { rewrite <- pow2_split by lia. f_equal. lia. }
      rewrite Hs2 in Hr.
      assert (m ≤ 2 ^ 53).
      { destruct (Z_le_gt_dec m (2 ^ 53)) as [|Hn]; [done|].
        assert (l * (2 ^ 53 + 1) ≤ l * m) by nia. nia. }
      split; intros Hc; [nia|].
      assert (2 * u < l) by nia. nia.
Qed.
End Threshold.

Lemma ratio_geb_0_9 u l :
  0 ≤ u ≤ l → 0 < l < 2 ^ 49 →
  float_geb (py_truediv u l) float_0_9 = (9 * l <=? 10 * u).
Proof. apply ratio_geb_exact; lia. Qed.

Lemma ratio_geb_0_7 u l :
  0 ≤ u ≤ l → 0 < l < 2 ^ 49 →
  float_geb (py_truediv u l) float_0_7 = (7 * l <=? 10 * u).
Proof. apply ratio_geb_exact; lia. Qed.

(** ** UTC calendar fields of an instant

    The proleptic Gregorian calendar [datetime] uses: the civil date of a day
    number counted from 1970-01-01. *)
Definition micros_per_day : Z := 86400000000.

Definition civil_from_days (days : Z) : Z * Z * Z :=
  let z := days + 719468 in
  let era := z / 146097 in
  let doe := z mod 146097 in
  let yoe := (doe - doe / 1460 + doe / 36524 - doe / 146096) / 365 in
  let doy := doe - (365 * yoe + yoe / 4 - yoe / 100) in
  let mp := (5 * doy + 2) / 153 in
  let d := doy - (153 * mp + 2) / 5 + 1 in
  let m := if mp <? 10 then mp + 3 else mp - 9 in
  let y := yoe + era * 400 + (if m <=? 2 then 1 else 0) in
  (y, m, d).

Definition utc_date (moment : instant) : Z * Z * Z :=
  civil_from_days (moment / micros_per_day).

(** Zero padding of [strftime]'s [%m] and [%d]. *)
Definition pad2 (n : Z) : string :=
  if n <? 10 then ("0" +:+ pretty n)%string else pretty n.

Example civil_epoch : civil_from_days 0 = (1970, 1, 1).
Proof. reflexivity. Qed.
Example civil_leap : civil_from_days 19782 = (2024, 2, 29).
Proof. reflexivity. Qed.

(** ** [datetime.isoformat] of an aware UTC instant *)
Definition zpad (width : nat) (n : Z) : string :=
  let s := pretty n in
  (String.concat "" (replicate (width - String.length s) "0"%string) +:+ s)%string.

Definition isoformat (moment : instant) : string :=
  let '(y, m, d) := utc_date moment in
  let t := moment mod micros_per_day in
  let us := t mod 1000000 in
  let s := t / 1000000 in
  (zpad 4 y +:+ "-" +:+ zpad 2 m +:+ "-" +:+ zpad 2 d +:+ "T" +:+
   zpad 2 (s / 3600)%Z +:+ ":" +:+ zpad 2 (s / 60 mod 60)%Z +:+ ":" +:+ zpad 2 (s mod 60)%Z +:+
   (if (us =? 0)%Z then "" else "." +:+ zpad 6 us) +:+ "+00:00")%string.

Example isoformat_epoch : isoformat 1500000 = "1970-01-01T00:00:01.500000+00:00"%string.
Proof. reflexivity. Qed.

(** ** The canonical text of a UUID *)
Definition hex_digit (d : Z) : Ascii.ascii :=
  Ascii.ascii_of_nat (Z.to_nat (if d <? 10 then 48 + d else 87 + d)).

(** [n] hexadecimal digits of [z], most significant first. *)
Fixpoint hex_text (n : nat) (z : Z) : string :=
  match n with
  | O => EmptyString
  | S n' => String (hex_digit (Z.land (Z.shiftr z (4 * Z.of_nat n')) 15)) (hex_text n' z)
  end.

Definition uuid_text (z : uuid) : string :=
  (hex_text 8 (Z.shiftr z 96) +:+ "-" +:+ hex_text 4 (Z.shiftr z 80) +:+ "-" +:+
   hex_text 4 (Z.shiftr z 64) +:+ "-" +:+ hex_text 4 (Z.shiftr z 48) +:+ "-" +:+
   hex_text 12 z)%string.

Example uuid_text_one :
  uuid_text 0x0123456789abcdef0123456789abcdef = "01234567-89ab-cdef-0123-456789abcdef"%string.
Proof. reflexivity. Qed.
