(* ===== verification/PyDict.v ===== *)
(** * Python dictionaries

    A [dict] keeps its keys in the order of their first insertion; assigning to
    a key that is present leaves it in place, deleting one closes the gap.  A
    dictionary is the list of its items, and [contents] forgets the order. *)

From stdpp Require Import sorting.
From S2P Require Import Prelude.

Section Dict.
  Context {K V : Type} `{Countable K}.
  Implicit Types (d : list (K * V)) (k : K) (v : V).

(** [d.get(k)] *)
Fixpoint dict_get (k : K) (d : list (K * V)) : option V :=
  match d with
  | [] => None
  | (k', v) :: d' => if decide (k = k') then Some v else dict_get k d'
  end.

(** [d[k] = v] *)
Fixpoint dict_set (k : K) (v : V) (d : list (K * V)) : list (K * V) :=
  match d with
  | [] => [(k, v)]
  | (k', v') :: d' => if decide (k = k') then (k', v) :: d' else (k', v') :: dict_set k v d'
  end.

(** [d.pop(k, None)], and [del d[k]] for a key that is present. *)
Definition dict_del (k : K) (d : list (K * V)) : list (K * V) := filter (λ kv, kv.1 ≠ k) d.

Definition contents (d : list (K * V)) : gmap K V := list_to_map d.

Lemma contents_lookup d k : contents d !! k = dict_get k d.
Proof.
  unfold contents. induction d as [|[k' v] d IH]; simpl; [done|].
  destruct (decide (k = k')) as [->|Hk]; [by rewrite lookup_insert_eq|].
  by rewrite lookup_insert_ne by congruence.
Qed.

Lemma dict_get_set d k k' v :
  dict_get k' (dict_set k v d) = if decide (k' = k) then Some v else dict_get k' d.
Proof.
  induction d as [|[k0 v0] d IH]; simpl; [done|]. destruct (decide (k = k0)) as [->|]; simpl.
  - by destruct (decide (k' = k0)).
  - rewrite IH. repeat case_decide; congruence.
Qed.

Lemma dict_get_filter (P : K → Prop) `{∀ k, Decision (P k)} d k :
  dict_get k (filter (λ kv, P kv.1) d) = if decide (P k) then dict_get k d else None.
Proof.
  induction d as [|[k0 v0] d IH]; simpl; [by case_decide|].
  rewrite filter_cons. simpl. destruct (decide (P k0)); simpl; rewrite IH;
    repeat case_decide; congruence.
Qed.

Lemma dict_get_del d k k' : dict_get k' (dict_del k d) = if decide (k' = k) then None else dict_get k' d.
Proof.
  unfold dict_del. induction d as [|[k0 v0] d IH]; simpl; [by case_decide|].
  rewrite filter_cons. simpl. destruct (decide (k0 ≠ k)); simpl; rewrite IH;
    repeat case_decide; naive_solver.
Qed.

Lemma dict_set_elem d k v k' : k' ∈ (dict_set k v d).*1 → k' = k ∨ k' ∈ d.*1.
Proof. induction d as [|[k0 v0] d IH]; simpl; [set_solver|]. case_decide; set_solver. Qed.

Lemma dict_set_NoDup d k v : NoDup d.*1 → NoDup (dict_set k v d).*1.
Proof.
  induction d as [|[k0 v0] d IH]; simpl; [intros _; apply NoDup_singleton|].
  intros [Hn Hd]%NoDup_cons. case_decide; simpl; apply NoDup_cons; split; auto.
  intros [->|?]%dict_set_elem; done.
Qed.

Lemma dict_filter_NoDup (P : K * V → Prop) `{∀ kv, Decision (P kv)} d :
  NoDup d.*1 → NoDup (filter P d).*1.
Proof.
  intros Hd. eapply sublist_NoDup; [exact Hd|]. apply fmap_sublist, sublist_filter.
Qed.

Lemma dict_get_elem d k : is_Some (dict_get k d) ↔ k ∈ d.*1.
Proof.
  induction d as [|[k0 v0] d IH]; simpl; [split; [by intros []|set_solver]|].
  case_decide; [subst|rewrite IH]; rewrite elem_of_cons; naive_solver.
Qed.

Lemma dict_get_pair d k v : NoDup d.*1 → dict_get k d = Some v ↔ (k, v) ∈ d.
Proof.
  intros Hd. rewrite <- contents_lookup. unfold contents. by rewrite <- elem_of_list_to_map.
Qed.

(** Dictionaries with the same items are the same up to order. *)
Lemma contents_perm d1 d2 :
  NoDup d1.*1 → NoDup d2.*1 → contents d1 = contents d2 → d1 ≡ₚ d2.
Proof.
  intros H1 H2 Heq. rewrite <- (map_to_list_to_map d1), <- (map_to_list_to_map d2) by done.
  by unfold contents in Heq; rewrite Heq.
Qed.

Lemma perm_contents d1 d2 : NoDup d1.*1 → d1 ≡ₚ d2 → contents d1 = contents d2.
Proof. apply list_to_map_proper. Qed.
End Dict.
