(* ===== verification/Uuids.v ===== *)
(** * Identifiers (trpc_service/ids.py, and [uuid.UUID] of the standard library)

    [uuid7] packs a millisecond clock and 74 random bits; [UUID(text)] parses the
    canonical text that [str] printed. *)

From Stdlib Require Import Ascii.
From S2P Require Import Prelude PyNum.
Open Scope string_scope.
Open Scope list_scope.
Open Scope Z_scope.

(** ** [ids.uuid7] *)
Definition uuid7 (time_ns rand12 rand62 : Z) : uuid :=
  let timestamp_ms := time_ns / 1000000 in
  let value := Z.shiftl timestamp_ms 80 in
  let value := Z.lor value (Z.shiftl 7 76) in
  let value := Z.lor value (Z.shiftl rand12 64) in
  let value := Z.lor value (Z.shiftl 2 62) in
  Z.lor value rand62.

(** ** Parsing *)

(** One hexadecimal digit, of either case. *)
Definition hex_value (c : Ascii.ascii) : option Z :=
  let n := Z.of_nat (Ascii.nat_of_ascii c) in
  if (48 <=? n) && (n <=? 57) then Some (n - 48)
  else if (97 <=? n) && (n <=? 102) then Some (n - 87)
  else if (65 <=? n) && (n <=? 70) then Some (n - 55)
  else None.

(** [int(text, 16)] on a text of digits, from the accumulator. *)
Fixpoint int_hex (acc : Z) (s : string) : option Z :=
  match s with
  | EmptyString => Some acc
  | String c s' => d ← hex_value c; int_hex (acc * 16 + d) s'
  end.

(** [text.replace(pattern, "")]; the fuel is the length of the text, and each
    round consumes at least one character. *)
Fixpoint remove_all_fuel (fuel : nat) (pat s : string) : string :=
  match fuel, s with
  | S fuel', String c s' =>
      if String.prefix pat s
      then remove_all_fuel fuel' pat (String.substring (String.length pat) (String.length s) s)
      else String c (remove_all_fuel fuel' pat s')
  | _, _ => s
  end.
Definition remove_all (pat s : string) : string := remove_all_fuel (String.length s) pat s.

Definition is_brace (c : Ascii.ascii) : bool :=
  bool_decide (c = "{"%char) || bool_decide (c = "}"%char).
Fixpoint lstrip_braces (s : string) : string :=
  match s with
  | String c s' => if is_brace c then lstrip_braces s' else s
  | EmptyString => s
  end.
Fixpoint rstrip_braces (s : string) : string :=
  match s with
  | EmptyString => s
  | String c s' =>
      match rstrip_braces s' with
      | EmptyString => if is_brace c then EmptyString else String c EmptyString
      | r => String c r
      end
  end.
Fixpoint remove_hyphens (s : string) : string :=
  match s with
  | EmptyString => s
  | String c s' =>
      if bool_decide (c = "-"%char) then remove_hyphens s' else String c (remove_hyphens s')
  end.

(** [UUID(text)]: [None] stands for the [ValueError] of a malformed text. *)
Definition parse_uuid (text : string) : option uuid :=
  let hex := remove_hyphens (rstrip_braces (lstrip_braces (remove_all "uuid:" (remove_all "urn:" text)))) in
  if (String.length hex =? 32)%nat then int_hex 0 hex else None.

Example parse_uuid_urn :
  parse_uuid "urn:uuid:{01234567-89AB-cdef-0123-456789abcdef}" = Some 0x0123456789abcdef0123456789abcdef.
Proof. vm_compute. reflexivity. Qed.

(** ** Texts of hexadecimal digits and hyphens *)
Fixpoint all_chars (P : Ascii.ascii → bool) (s : string) : bool :=
  match s with EmptyString => true | String c s' => P c && all_chars P s' end.

Definition hex_or_hyphen (c : Ascii.ascii) : bool :=
  bool_decide (c = "-"%char) || match hex_value c with Some _ => true | None => false end.

Lemma all_chars_app P s1 s2 : all_chars P (s1 +:+ s2) = all_chars P s1 && all_chars P s2.
Proof. induction s1 as [|c s1 IH]; simpl; [done|]. by rewrite IH, andb_assoc. Qed.

Lemma hex_digit_spec d : 0 ≤ d < 16 →
  hex_value (hex_digit d) = Some d ∧ hex_digit d ≠ "-"%char.
Proof.
  intros Hd. assert (∃ n : nat, (n < 16)%nat ∧ d = Z.of_nat n) as (n & Hn & ->).
  { exists (Z.to_nat d). lia. }
  do 16 (destruct n as [|n]; [split; [reflexivity|discriminate]|]). lia.
Qed.

Lemma nibble_range z : 0 ≤ Z.land z 15 < 16.
Proof. change 15 with (Z.ones 4). rewrite Z.land_ones by lia. apply Z.mod_pos_bound. lia. Qed.

Lemma hex_text_chars n z : all_chars hex_or_hyphen (hex_text n z) = true.
Proof.
  induction n as [|n IH]; simpl; [done|]. rewrite IH, andb_true_r. unfold hex_or_hyphen.
  destruct (hex_digit_spec _ (nibble_range (Z.shiftr z (4 * Z.of_nat n)))) as [-> _].
  by rewrite orb_true_r.
Qed.

Lemma hex_text_length n z : String.length (hex_text n z) = n.
Proof. induction n; simpl; congruence. Qed.

Lemma remove_hyphens_app s1 s2 :
  remove_hyphens (s1 +:+ s2) = remove_hyphens s1 +:+ remove_hyphens s2.
Proof. induction s1 as [|c s1 IH]; simpl; [done|]. rewrite IH. by case_bool_decide. Qed.

Lemma remove_hyphens_hex n z : remove_hyphens (hex_text n z) = hex_text n z.
Proof.
  induction n as [|n IH]; simpl; [done|].
  destruct (hex_digit_spec _ (nibble_range (Z.shiftr z (4 * Z.of_nat n)))) as [_ Hne].
  rewrite bool_decide_eq_false_2 by done. congruence.
Qed.

Lemma not_prefix_head a c p s : c ≠ a → String.prefix (String a p) (String c s) = false.
Proof. intros. cbn [String.prefix]. destruct (Ascii.ascii_dec a c) as [<-|]; done. Qed.

Lemma plain_text_untouched s :
  all_chars hex_or_hyphen s = true →
  rstrip_braces (lstrip_braces (remove_all "uuid:" (remove_all "urn:" s))) = s.
Proof.
  intros Hs.
  assert (∀ p fuel s, all_chars hex_or_hyphen s = true →
            remove_all_fuel fuel (String "u"%char p) s = s) as Hrem.
  { clear. intros p fuel s. revert fuel. induction s as [|c s IH]; intros [|fuel]; try done.
    cbn [all_chars remove_all_fuel]. intros [Hc Hs]%andb_true_iff. rewrite IH by done.
    rewrite (not_prefix_head "u"%char) by (intros ->; discriminate Hc). done. }
  unfold remove_all. rewrite (Hrem "rn:") by done. rewrite (Hrem "uid:") by done.
  assert (∀ c, hex_or_hyphen c = true → is_brace c = false) as Hb.
  { intros c Hc. unfold is_brace. apply orb_false_iff.
    split; apply bool_decide_eq_false_2; intros ->; done. }
  assert (lstrip_braces s = s) as ->.
  { destruct s as [|c s]; [done|]. simpl in *. apply andb_true_iff in Hs as [Hc _].
    by rewrite Hb. }
  induction s as [|c s IH]; [done|]. simpl in *. apply andb_true_iff in Hs as [Hc Hs].
  rewrite IH by done. destruct s; [|done]. by rewrite Hb.
Qed.

(** Appending the digits of the low part to those of the high part. *)
Lemma hex_text_split m n z :
  hex_text (m + n) z = hex_text m (Z.shiftr z (4 * Z.of_nat n)) +:+ hex_text n z.
Proof.
  induction m as [|m IH]; simpl; [done|]. rewrite IH, Z.shiftr_shiftr by lia.
  replace (4 * Z.of_nat (m + n)) with (4 * Z.of_nat n + 4 * Z.of_nat m) by lia. done.
Qed.

Lemma int_hex_text n z acc :
  int_hex acc (hex_text n z) = Some (acc * 16 ^ Z.of_nat n + z mod 16 ^ Z.of_nat n).
Proof.
  revert acc. induction n as [|n IH]; intros acc.
  { simpl. f_equal. rewrite Z.mod_1_r. lia. }
  cbn [hex_text int_hex].
  destruct (hex_digit_spec _ (nibble_range (Z.shiftr z (4 * Z.of_nat n)))) as [-> _].
  cbn. rewrite IH. f_equal.
  change 15 with (Z.ones 4). rewrite Z.land_ones, Z.shiftr_div_pow2, Z.pow_mul_r by lia.
  change (2 ^ 4) with 16. rewrite Nat2Z.inj_succ, Z.pow_succ_r by lia.
  rewrite (Z.mul_comm 16 (16 ^ _)), Z.rem_mul_r by lia. lia.
Qed.

Lemma uuid_text_hex z : remove_hyphens (uuid_text z) = hex_text 32 z.
Proof.
  unfold uuid_text. rewrite !remove_hyphens_app, !remove_hyphens_hex.
  change (remove_hyphens "-") with "". cbn [String.append].
  rewrite (hex_text_split 8 24), (hex_text_split 4 20), (hex_text_split 4 16),
    (hex_text_split 4 12). done.
Qed.

(** Printing an identifier and parsing the text gives the identifier back. *)
Lemma parse_uuid_text (z : uuid) : 0 ≤ z < 2 ^ 128 → parse_uuid (uuid_text z) = Some z.
Proof.
  intros Hz. unfold parse_uuid. rewrite plain_text_untouched.
  2: { unfold uuid_text. by rewrite !all_chars_app, !hex_text_chars. }
  rewrite uuid_text_hex, hex_text_length. cbn [Nat.eqb]. rewrite int_hex_text.
  f_equal. rewrite Z.mod_small; [lia|]. change (16 ^ Z.of_nat 32) with (2 ^ 128). lia.
Qed.

(** ** The layout of [uuid7] *)
Lemma lor_low k a b : 0 ≤ k → a mod 2 ^ k = 0 → 0 ≤ b < 2 ^ k → Z.lor a b = a + b.
Proof.
  intros Hk Ha Hb.
  assert (Z.land a b = 0) as Hland.
  { apply Z.bits_inj'. intros n Hn. rewrite Z.land_spec, Z.bits_0.
    destruct (Z.lt_ge_cases n k).
    - rewrite <- (Z.mod_pow2_bits_low a k n) by lia. by rewrite Ha, Z.bits_0.
    - rewrite <- (Z.mod_small b (2 ^ k)), Z.mod_pow2_bits_high by lia. apply andb_false_r. }
  by rewrite Z.add_nocarry_lxor, Z.lxor_lor by done.
Qed.

Lemma uuid7_sum t r s : 0 ≤ t / 1000000 < 2 ^ 48 → 0 ≤ r < 2 ^ 12 → 0 ≤ s < 2 ^ 62 →
  uuid7 t r s = (t / 1000000) * 2 ^ 80 + 7 * 2 ^ 76 + r * 2 ^ 64 + 2 * 2 ^ 62 + s.
Proof.
  intros Ht Hr Hs. unfold uuid7. set (m := t / 1000000) in *. clearbody m.
  rewrite !Z.shiftl_mul_pow2 by lia.
  rewrite (lor_low 80 (m * 2 ^ 80)) by (try apply Z.mod_mul; lia).
  rewrite (lor_low 76 (m * 2 ^ 80 + 7 * 2 ^ 76) (r * 2 ^ 64)); [|lia| |lia].
  2: { replace (m * 2 ^ 80 + 7 * 2 ^ 76) with ((m * 16 + 7) * 2 ^ 76) by lia.
       apply Z.mod_mul. lia. }
  rewrite (lor_low 64 (m * 2 ^ 80 + 7 * 2 ^ 76 + r * 2 ^ 64) (2 * 2 ^ 62)); [|lia| |lia].
  2: { replace (m * 2 ^ 80 + 7 * 2 ^ 76 + r * 2 ^ 64) with ((m * 65536 + 7 * 4096 + r) * 2 ^ 64) by lia.
       apply Z.mod_mul. lia. }
  rewrite (lor_low 62); [lia|lia| |lia].
  replace (m * 2 ^ 80 + 7 * 2 ^ 76 + r * 2 ^ 64 + 2 * 2 ^ 62) with (((m * 65536 + 7 * 4096 + r) * 4 + 2) * 2 ^ 62) by lia.
  apply Z.mod_mul. lia.
Qed.

(** Application identifiers are RFC 9562 version-7 UUIDs.  For any clock
    before the year 10889 and any random bits, [uuid7] fits in 128 bits, carries
    version 7 and variant 2 in their places, exposes the millisecond clock in its
    top bits, survives printing and parsing, and an identifier drawn in a later
    millisecond is larger. *)
Theorem uuid7_well_formed t r s t' r' s' :
  0 ≤ t → t / 1000000 < t' / 1000000 < 2 ^ 48 → 0 ≤ r < 2 ^ 12 → 0 ≤ s < 2 ^ 62 →
  0 ≤ r' < 2 ^ 12 → 0 ≤ s' < 2 ^ 62 →
  0 ≤ uuid7 t r s < 2 ^ 128 ∧
  (uuid7 t r s / 2 ^ 76) mod 16 = 7 ∧ (uuid7 t r s / 2 ^ 62) mod 4 = 2 ∧
  uuid7 t r s / 2 ^ 80 = t / 1000000 ∧
  parse_uuid (uuid_text (uuid7 t r s)) = Some (uuid7 t r s) ∧
  uuid7 t r s < uuid7 t' r' s'.
Proof.
  intros Ht Htt Hr Hs Hr' Hs'. assert (0 ≤ t / 1000000) by (apply Z.div_pos; lia).
  assert (0 ≤ uuid7 t r s < 2 ^ 128) as Hrange by (rewrite uuid7_sum by lia; lia).
  split; [done|]. cut ((uuid7 t r s / 2 ^ 76) mod 16 = 7 ∧ (uuid7 t r s / 2 ^ 62) mod 4 = 2 ∧
       uuid7 t r s / 2 ^ 80 = t / 1000000).
  { intros (? & ? & ?). split_and!; [done..|by apply parse_uuid_text|].
    rewrite !uuid7_sum by lia. lia. }
  rewrite uuid7_sum by lia. set (m := t / 1000000) in *. clearbody m. split_and!.
  - rewrite <- (Z.div_unique _ (2 ^ 76) (m * 16 + 7) (r * 2 ^ 64 + 2 * 2 ^ 62 + s)) by lia.
    rewrite Z.add_comm, Z.mod_add by lia. done.
  - rewrite <- (Z.div_unique _ (2 ^ 62) ((m * 65536 + 7 * 4096 + r) * 4 + 2) s) by lia.
    rewrite Z.add_comm, Z.mod_add by lia. done.
  - symmetry. apply (Z.div_unique _ (2 ^ 80) m (7 * 2 ^ 76 + r * 2 ^ 64 + 2 * 2 ^ 62 + s)); lia.
Qed.

Lemma uuid7_well_formed_witness :
  uuid7 1700000000000000000 5 6 < uuid7 1700000000001000000 0 0.
Proof.
  apply (uuid7_well_formed 1700000000000000000 5 6 1700000000001000000 0 0); vm_compute;
    intuition congruence.
Defined.
