(* ===== verification/Interleave.v ===== *)
(** * Concurrent workers over one database

    A worker is a sequence of database transactions with computation in between;
    other workers run between any two of them.  [proc S R] is such a program: it
    is done, or it is about to run one atomic step on the shared state and
    continue.  The same program is run alone by [run_proc] and interleaved with
    others by the step relations of the components. *)

From S2P Require Import Prelude.

Inductive proc (S R : Type) :=
  | Done (r : R)
  | Step (next : S → proc S R) (effect : S → S).
Arguments Done {_ _} _.
Arguments Step {_ _} _ _.

(** Programs that may raise. *)
Abbreviation PM S E A := (proc S (outcome E A)).

Fixpoint proc_bind {S R T} (p : proc S R) (k : R → proc S T) : proc S T :=
  match p with
  | Done r => k r
  | Step next effect => Step (λ s, proc_bind (next s) k) effect
  end.

(** Sequencing: an exception skips the rest. *)
Definition pm_bind {S E A B} (p : PM S E A) (k : A → PM S E B) : PM S E B :=
  proc_bind p (λ r, match r with Ok a => k a | Raise e => Done (Raise e) end).

(** [try: p except e: handler(e)] *)
Definition pm_catch {S E A} (p : PM S E A) (h : E → PM S E A) : PM S E A :=
  proc_bind p (λ r, match r with Ok a => Done (Ok a) | Raise e => h e end).

Definition pm_ret {S E A} (a : A) : PM S E A := Done (Ok a).
Definition pm_raise {S E A} (e : E) : PM S E A := Done (Raise e).

(** One transaction, run without interruption. *)
Definition atomically {S E A} (m : ST S E A) : PM S E A :=
  Step (λ s, Done (m s).1) (λ s, (m s).2).

Notation "x <-- p ; k" := (pm_bind p (λ x, k))
  (at level 100, p at next level, right associativity) : platform_scope.

(** The program run to its end with nothing in between. *)
Fixpoint run_proc {S R} (p : proc S R) (s : S) : R * S :=
  match p with
  | Done r => (r, s)
  | Step next effect => run_proc (next s) (effect s)
  end.

Lemma run_proc_bind {S R T} (p : proc S R) (k : R → proc S T) s :
  run_proc (proc_bind p k) s = run_proc (k (run_proc p s).1) (run_proc p s).2.
Proof. revert s. induction p as [r|next IH effect]; intros s; simpl; [done|]. apply IH. Qed.

Lemma run_pm_bind {S E A B} (p : PM S E A) (k : A → PM S E B) s :
  run_proc (pm_bind p k) s =
    match run_proc p s with (Ok a, s') => run_proc (k a) s' | (Raise e, s') => (Raise e, s') end.
Proof. unfold pm_bind. rewrite run_proc_bind. by destruct (run_proc p s) as [[a|e] s']. Qed.

Lemma run_atomically {S E A B} (m : ST S E A) (k : A → PM S E B) s :
  run_proc (pm_bind (atomically m) k) s =
    match m s with (Ok a, s') => run_proc (k a) s' | (Raise e, s') => (Raise e, s') end.
Proof. unfold pm_bind. rewrite run_proc_bind. simpl. by destruct (m s) as [[a|e] s']. Qed.

(** ** Safety under interference

    A rely-guarantee logic: [I] is the invariant of the shared state, [R s s'] what
    a participant may rely on about a step of the others, [G s s'] what each of its
    own steps guarantees.  [proc_safe Q J p]: started while the fact [J] holds,
    every step of [p] keeps [I] and [G], whatever the others do in between, and
    when [p] ends with [r] the fact [Q r] holds.  Facts that have to survive the
    steps of the others are stable under [R]. *)
Definition stable {S} (I : S → Prop) (R : S → S → Prop) (J : S → Prop) : Prop :=
  ∀ s s', I s → I s' → R s s' → J s → J s'.

(** A transaction that keeps the invariant and the guarantee. *)
Definition good_step {S} (I : S → Prop) (G : S → S → Prop) {E A} (J : S → Prop) (m : ST S E A)
    : Prop :=
  ∀ s, I s → J s → I (m s).2 ∧ G s (m s).2.

(** It is enough to look at the runs whose body returns: the others are undone. *)
Lemma good_transaction {S} (I : S → Prop) (G : S → S → Prop) {E A} J fault (lost : E)
    (m : ST S E A) :
  (∀ s, G s s) →
  (∀ s a s', I s → J s → m s = (Ok a, s') → I s' ∧ G s s') →
  good_step I G J (transaction fault lost m).
Proof.
  intros Hrefl Hm s Hi Hj. unfold transaction. destruct (m s) as [[a|e] s'] eqn:Hrun; [|by auto].
  destruct fault; [|by auto|]; by eapply Hm.
Qed.

Section Safety.
Context {S : Type} (I : S → Prop) (R G : S → S → Prop).

Inductive proc_safe {T} (Q : T → S → Prop) : (S → Prop) → proc S T → Prop :=
  | safe_done (J : S → Prop) r :
      (∀ s, I s → J s → Q r s) → proc_safe Q J (Done r)
  | safe_step (J : S → Prop) (J' : S → S → Prop) next effect :
      (∀ s, I s → J s → I (effect s) ∧ G s (effect s) ∧ J' s (effect s)) →
      (∀ s, I s → J s → stable I R (J' s)) →
      (∀ s, I s → J s → proc_safe Q (J' s) (next s)) →
      proc_safe Q J (Step next effect).

Lemma safe_weaken {T} (Q : T → S → Prop) (J J0 : S → Prop) p :
  proc_safe Q J p → (∀ s, I s → J0 s → J s) → proc_safe Q J0 p.
Proof.
  intros Hp HJ. destruct Hp as [J r Hr|J J' next effect Hstep Hst Hnext].
  - constructor. eauto.
  - apply (safe_step Q J0 J'); eauto.
Qed.

Lemma safe_post {T} (Q Q' : T → S → Prop) J p :
  proc_safe Q J p → (∀ r s, I s → Q r s → Q' r s) → proc_safe Q' J p.
Proof.
  intros Hp HQ. induction Hp as [J r Hr|J J' next effect Hstep Hst _ IH].
  - constructor. eauto.
  - by apply (safe_step Q' J J').
Qed.

(** Nothing has to be shown of a program that never starts. *)
Lemma safe_false {T} (Q : T → S → Prop) p : proc_safe Q (λ _, False) p.
Proof. destruct p; [by constructor|]. by apply (safe_step Q _ (λ _ _, True)). Qed.

Lemma safe_bind {T U} (Q : T → S → Prop) (Q' : U → S → Prop) J (p : proc S T) (k : T → proc S U) :
  proc_safe Q J p → (∀ r, proc_safe Q' (Q r) (k r)) → proc_safe Q' J (proc_bind p k).
Proof.
  intros Hp Hk. induction Hp as [J r Hr|J J' next effect Hstep Hst _ IH]; simpl.
  - eapply safe_weaken; [apply Hk|]. eauto.
  - by apply (safe_step Q' J J').
Qed.

(** A transaction establishes what follows from its outcome. *)
Lemma safe_atomically_post {E A} (J : S → Prop) (m : ST S E A) (Q : outcome E A → S → Prop) :
  good_step I G J m → (∀ s, I s → J s → Q (m s).1 (m s).2) → (∀ r, stable I R (Q r)) →
  proc_safe Q J (atomically m).
Proof.
  intros Hm HQ Hst. apply (safe_step Q J (λ s, Q (m s).1)).
  - intros s Hi Hj. destruct (Hm s Hi Hj). auto.
  - auto.
  - intros. by constructor.
Qed.

(** The common case of one fact that is relied on throughout. *)
Section Fixed.
Context (J : S → Prop) (HJ : stable I R J) (HJ' : stable I G J).

Abbreviation keeps_fact p := (proc_safe (λ _, J) J p).

Lemma safe_pm_done {T} (r : T) : keeps_fact (Done r).
Proof. by constructor. Qed.

Lemma safe_pm_bind {E A B} (p : PM S E A) (k : A → PM S E B) :
  keeps_fact p → (∀ a, keeps_fact (k a)) → keeps_fact (pm_bind p k).
Proof. intros Hp Hk. eapply safe_bind; [exact Hp|]. intros [a|e]; [apply Hk|apply safe_pm_done]. Qed.

Lemma safe_pm_catch {E A} (p : PM S E A) (h : E → PM S E A) :
  keeps_fact p → (∀ e, keeps_fact (h e)) → keeps_fact (pm_catch p h).
Proof. intros Hp Hh. eapply safe_bind; [exact Hp|]. intros [a|e]; [apply safe_pm_done|apply Hh]. Qed.

Lemma safe_atomically {E A} (m : ST S E A) : good_step I G J m → keeps_fact (atomically m).
Proof.
  intros Hm. apply safe_atomically_post; [exact Hm| |intros _; exact HJ]. intros s Hi Hj.
  destruct (Hm s Hi Hj). by apply (HJ' s).
Qed.
End Fixed.

(** Programs that establish a fact about the value they return; nothing is claimed
    when they raise. *)
Definition returns {E A} (Φ : A → S → Prop) (r : outcome E A) (s : S) : Prop :=
  match r with Ok a => Φ a s | Raise _ => True end.

Lemma returns_step {E A} (J : S → Prop) (m : ST S E A) (Φ : A → S → Prop) :
  good_step I G J m → (∀ s a s', I s → J s → m s = (Ok a, s') → Φ a s') →
  (∀ a, stable I R (Φ a)) → proc_safe (returns Φ) J (atomically m).
Proof.
  intros Hm HΦ Hst. apply safe_atomically_post; [done| |].
  - intros s Hi Hj. destruct (m s) as [[a|e] s'] eqn:Hrun; [by eapply HΦ|done].
  - intros [a|e]; [apply Hst|done].
Qed.

Lemma returns_ret {E A} (J : S → Prop) (a : A) (Φ : A → S → Prop) :
  (∀ s, I s → J s → Φ a s) → proc_safe (T := outcome E A) (returns Φ) J (pm_ret a).
Proof. intros H. by constructor. Qed.

Lemma returns_raise {E A} (J : S → Prop) (e : E) (Φ : A → S → Prop) :
  proc_safe (returns Φ) J (pm_raise e).
Proof. by constructor. Qed.

Lemma returns_bind {E A B} (J : S → Prop) (p : PM S E A) (k : A → PM S E B) (Φ : A → S → Prop)
    (Ψ : B → S → Prop) :
  proc_safe (returns Φ) J p → (∀ a, proc_safe (returns Ψ) (Φ a) (k a)) →
  proc_safe (returns Ψ) J (pm_bind p k).
Proof. intros Hp Hk. eapply safe_bind; [exact Hp|]. intros [a|e]; [apply Hk|by constructor]. Qed.

Lemma returns_catch {E A} (J : S → Prop) (p : PM S E A) (h : E → PM S E A) (Φ : A → S → Prop) :
  proc_safe (returns Φ) J p → (∀ e, proc_safe (returns Φ) (λ _, True) (h e)) →
  proc_safe (returns Φ) J (pm_catch p h).
Proof. intros Hp Hh. eapply safe_bind; [exact Hp|]. intros [a|e]; [by constructor|apply Hh]. Qed.

(** ** A pool of programs

    Each program of the pool is safe for what it relies on now. *)
Definition runs_safely {T} (s : S) (p : proc S T) : Prop :=
  ∃ (J : S → Prop) (Q : T → S → Prop), J s ∧ stable I R J ∧ proc_safe Q J p.

Lemma runs_safely_interference {T} s s' (p : proc S T) :
  I s → I s' → R s s' → runs_safely s p → runs_safely s' p.
Proof. intros ??? (J & Q & HJs & HJ & Hp). exists J, Q. split; [by apply (HJ s s')|by split]. Qed.

Lemma runs_safely_step {T} s (next : S → proc S T) effect :
  I s → runs_safely s (Step next effect) →
  I (effect s) ∧ G s (effect s) ∧ runs_safely (effect s) (next s).
Proof.
  intros Hi (J & Q & HJs & HJ & Hp). inversion Hp as [|? J' ? ? Hstep Hst Hnext]; subst.
  destruct (Hstep s Hi HJs) as (? & ? & ?). split; [done|]. split; [done|].
  exists (J' s), Q. auto.
Qed.
End Safety.

Arguments proc_safe {S} I R G {T} Q J p.
Arguments returns {S E A} Φ r s /.

(** ** Crashes

    The state a worker leaves behind when it runs alone and stops after [n] steps,
    or at its end if it has fewer.  A transaction that fails is a crash before or
    after that step. *)
Fixpoint run_steps {S R} (n : nat) (p : proc S R) (s : S) : S :=
  match n, p with
  | Datatypes.S n', Step next effect => run_steps n' (next s) (effect s)
  | _, _ => s
  end.

Lemma safe_run_steps {S T} (I : S → Prop) (G : S → S → Prop) (Q : T → S → Prop) J p n s :
  proc_safe I eq G Q J p → I s → J s → I (run_steps n p s) ∧ rtc G s (run_steps n p s).
Proof.
  intros Hp. revert n s. induction Hp as [J r Hr|J J' next effect Hstep Hst _ IH]; intros [|n] s Hi Hj;
    simpl; try by split; [|constructor].
  destruct (Hstep s Hi Hj) as (Hi' & Hg & Hj'). destruct (IH s Hi Hj n (effect s) Hi' Hj') as [? ?].
  split; [done|by econstructor].
Qed.

(** Alone, every fact is stable. *)
Lemma stable_alone {S} (I : S → Prop) (J : S → Prop) : stable I eq J.
Proof. by intros s s' _ _ <-. Qed.

(** A fact that does not depend on the state is known from the start. *)
Lemma safe_pure {S T} (I : S → Prop) (R G : S → S → Prop) (Q : T → S → Prop) (J J0 : S → Prop)
    (φ : Prop) `{!Decision φ} p :
  (∀ s, J0 s → φ ∧ J s) → (φ → proc_safe I R G Q J p) → proc_safe I R G Q J0 p.
Proof.
  intros HJ Hp. destruct (decide φ) as [Hφ|Hφ].
  - eapply safe_weaken; [by apply Hp|]. intros s _ Hj. by apply HJ.
  - eapply safe_weaken; [apply safe_false|]. intros s _ Hj. by destruct (HJ s Hj).
Qed.

(** ** Requests served concurrently

    Each request [a] is served by a program that has to end in [Q a]; what one
    program guarantees is what the others rely on. *)
Section Requests.
Context {S T A : Type} (I : S → Prop) (G : S → S → Prop) (Q : A → T → S → Prop).

Definition request_ok (s : S) (e : A * proc S T) : Prop :=
  ∃ J : S → Prop, J s ∧ stable I G J ∧ proc_safe I G G (Q e.1) J e.2.

Lemma request_start s a p : proc_safe I G G (Q a) (λ _, True) p → request_ok s (a, p).
Proof. intros Hp. by exists (λ _, True). Qed.

Lemma requests_interference s s' l :
  I s → I s' → G s s' → Forall (request_ok s) l → Forall (request_ok s') l.
Proof.
  intros Hi Hi' Hg Hl. eapply Forall_impl; [exact Hl|]. intros e (J & Hj & Hst & Hp).
  exists J. split; [by apply (Hst s)|done].
Qed.

Lemma request_step s a next effect :
  I s → request_ok s (a, Step next effect) →
  I (effect s) ∧ G s (effect s) ∧ request_ok (effect s) (a, next s).
Proof.
  intros Hi (J & Hj & Hst & Hp). inversion Hp as [|? J' ? ? Hstep Hst' Hnext]; subst.
  destruct (Hstep s Hi Hj) as (? & ? & ?). split_and!; [done|done|]. exists (J' s). auto.
Qed.

(** A request that was answered keeps what its answer promised. *)
Lemma request_done s a r : I s → request_ok s (a, Done r) → Q a r s.
Proof. intros Hi (J & Hj & _ & Hp). inversion Hp; subst. auto. Qed.
End Requests.
