(* ===== verification/Budgets.v ===== *)
(** * Hard budget enforcement and the cost ledger (trpc_service/budgets.py)

    The tables [tenant.budget], [tenant.budget_period_state],
    [tenant.budget_alert], [tenant.cost_ledger] and [tenant.model_price] are
    the state; every method of [BudgetService] is an operation of the
    state-and-exception monad, its SQL statements translated one by one with the
    CHECK constraints and the unique index of migration 0011.  A violated
    constraint, a value outside [bigint] and a lost connection all surface as
    [ESql], the [SQLAlchemyError] that [reserve] catches.

    [uuid7()] is a draw from a stream [uuid_at] of identifiers; where a theorem
    needs identifiers to be distinct it assumes the stream injective. *)

From S2P Require Import Prelude PyNum.
Open Scope Z_scope.

(** ** Constants *)
Definition CHARS_PER_TOKEN : Z := 4.
Definition DEFAULT_OUTPUT_TOKENS : Z := 512.
Definition TENANT_MONTHLY : string := "TENANT_MONTHLY".
Definition AGENT_DAILY : string := "AGENT_DAILY".
Definition EXECUTION : string := "EXECUTION".
Definition FAIL_CLOSED : string := "FAIL_CLOSED".
Definition CONTINGENCY : string := "CONTINGENCY".

(** ** Exceptions *)
Inductive BudgetError :=
  | BudgetExceeded
  | BudgetStateUnknown (code : string)
  | ESql
  | EValue (message : string)
  | ELookup (message : string)
  | EIndex.

(** ** Pure helpers *)
Definition monthly_period_key (moment : instant) : string :=
  let '(y, m, _) := utc_date moment in (pretty y +:+ "-" +:+ pad2 m)%string.

Definition daily_period_key (moment : instant) : string :=
  let '(y, m, d) := utc_date moment in
  (pretty y +:+ "-" +:+ pad2 m +:+ "-" +:+ pad2 d)%string.

Definition period_key_for (scope : string) (moment : instant) (execution_id : option string)
    : outcome BudgetError string :=
  if bool_decide (scope = TENANT_MONTHLY) then Ok (monthly_period_key moment)
  else if bool_decide (scope = AGENT_DAILY) then Ok (daily_period_key moment)
  else if bool_decide (scope = EXECUTION) then
    match execution_id with
    | None | Some ""%string => Raise (EValue "execution budgets require an execution id")
    | Some e => Ok e
    end
  else Raise (EValue ("unknown budget scope: " +:+ scope)%string).

(** A message is a dictionary of texts; a missing [content] counts as [""]. *)
Definition estimate_tokens (messages : list (gmap string string)) (max_output_tokens : Z)
    : Z * Z :=
  let input_chars :=
    foldr Z.add 0 ((λ m : gmap string string,
      Z.of_nat (String.length (default ""%string (m !! "content"%string)))) <$> messages) in
  let input_tokens := py_ceil (py_truediv input_chars CHARS_PER_TOKEN) in
  (input_tokens, max_output_tokens).

Definition estimate_cost_micros (input_tokens output_tokens : Z)
    (input_micros_per_1k output_micros_per_1k : Z) : Z :=
  let input_cost := py_ceil (py_truediv (input_tokens * input_micros_per_1k) 1000) in
  let output_cost := py_ceil (py_truediv (output_tokens * output_micros_per_1k) 1000) in
  input_cost + output_cost.

Inductive alert_level := WARNING_70 | CRITICAL_90.
#[export] Instance alert_level_eq_dec : EqDecision alert_level.
Proof. solve_decision. Defined.
#[export] Instance alert_level_countable : Countable alert_level.
Proof.
  apply (inj_countable' (λ l, match l with WARNING_70 => false | CRITICAL_90 => true end)
           (λ b : bool, if b then CRITICAL_90 else WARNING_70)).
  by intros [].
Defined.

Definition alert_name (a : alert_level) : string :=
  match a with WARNING_70 => "WARNING_70" | CRITICAL_90 => "CRITICAL_90" end.

Inductive level_decision := REJECT | Admit (crossed : option alert_level).

Definition evaluate_level (used_after_micros limit_micros : Z) : level_decision :=
  if limit_micros <? used_after_micros then REJECT
  else if limit_micros <=? 0 then Admit None
  else
    let ratio := py_truediv used_after_micros limit_micros in
    if float_geb ratio float_0_9 then Admit (Some CRITICAL_90)
    else if float_geb ratio float_0_7 then Admit (Some WARNING_70)
    else Admit None.

(** ** Commands, reservations and rows *)
Record BudgetCommand := {
  bc_tenant_id : uuid;
  bc_application_id : option uuid;
  bc_execution_id : option string;
  bc_estimated_micros : Z;
  bc_price_version : option Z;
}.

Record ModelPrice := {
  mp_model_alias : string;
  mp_input_micros_per_1k : Z;
  mp_output_micros_per_1k : Z;
}.

Record BudgetReservation := {
  br_budget_id : uuid;
  br_scope : string;
  br_period_key : string;
  br_amount_micros : Z;
  br_ledger_entry_id : uuid;
  br_contingency : bool;
}.

Record BudgetReservationBundle := {
  bb_command : BudgetCommand;
  bb_entries : list BudgetReservation;
  bb_alerts : list string;
}.

Record Level := {
  lv_budget_id : uuid;
  lv_scope : string;
  lv_period_key : string;
  lv_limit_micros : Z;
  lv_contingency_micros : Z;
  lv_unknown_policy : string;
}.

Record BudgetRow := {
  bg_tenant_id : uuid;
  bg_id : uuid;
  bg_scope : string;
  bg_application_id : option uuid;
  bg_limit_micros : Z;
  bg_contingency_micros : Z;
  bg_unknown_policy : string;
}.

Record PeriodState := {
  ps_reserved : Z;
  ps_consumed : Z;
  ps_allowance : Z;
  ps_contingency_reserved : Z;
  ps_version : Z;
}.

Inductive entry_type := RESERVE | SETTLE | RELEASE | REJECTED | ADJUST.
#[export] Instance entry_type_eq_dec : EqDecision entry_type.
Proof. solve_decision. Defined.

Record LedgerRow := {
  lr_tenant_id : uuid;
  lr_id : uuid;
  lr_budget_id : uuid;
  lr_period_key : string;
  lr_application_id : option uuid;
  lr_execution_id : option string;
  lr_entry_type : entry_type;
  lr_amount_micros : Z;
  lr_reserve_id : uuid;
  lr_contingency : bool;
  lr_reason : string;
  lr_actor : string;
  lr_price_version : option Z;
}.

Record PriceRow := {
  pr_tenant_id : uuid;
  pr_version : Z;
  pr_price : ModelPrice;
}.

(** A period row is addressed by [(tenant_id, budget_id, period_key)]. *)
Abbreviation period_id := (Z * Z * string)%type.

(** [budgets] lists the rows in the order [ORDER BY created_at, id] of the code's
    query; [ledger] is the append-only table, oldest row first; [drawn] counts
    the identifiers handed out so far. *)
Record BudgetDb := {
  budgets : list BudgetRow;
  periods : gmap period_id PeriodState;
  alerts : gmap (period_id * alert_level) (Z * Z);
  ledger : list LedgerRow;
  prices : list PriceRow;
  drawn : nat;
}.

Definition set_periods (f : gmap period_id PeriodState → gmap period_id PeriodState)
    (db : BudgetDb) : BudgetDb :=
  {| budgets := budgets db; periods := f (periods db); alerts := alerts db;
     ledger := ledger db; prices := prices db; drawn := drawn db |}.
Definition set_alerts (f : gmap (period_id * alert_level) (Z * Z) → gmap _ _)
    (db : BudgetDb) : BudgetDb :=
  {| budgets := budgets db; periods := periods db; alerts := f (alerts db);
     ledger := ledger db; prices := prices db; drawn := drawn db |}.
Definition set_ledger (f : list LedgerRow → list LedgerRow) (db : BudgetDb) : BudgetDb :=
  {| budgets := budgets db; periods := periods db; alerts := alerts db;
     ledger := f (ledger db); prices := prices db; drawn := drawn db |}.
Definition set_drawn (n : nat) (db : BudgetDb) : BudgetDb :=
  {| budgets := budgets db; periods := periods db; alerts := alerts db;
     ledger := ledger db; prices := prices db; drawn := n |}.

(** ** Column constraints of migration 0011 *)
Definition bigint (z : Z) : bool := (- 2 ^ 63 <=? z) && (z <? 2 ^ 63).

Definition period_check (ps : PeriodState) : bool :=
  (0 <=? ps_reserved ps) && bigint (ps_reserved ps)
  && (0 <=? ps_consumed ps) && bigint (ps_consumed ps)
  && bigint (ps_allowance ps)
  && (0 <=? ps_contingency_reserved ps) && bigint (ps_contingency_reserved ps).

Definition period_key_check (key : string) : bool :=
  (1 <=? String.length key)%nat && (String.length key <=? 64)%nat.

Definition ledger_check (r : LedgerRow) : bool :=
  (0 <=? lr_amount_micros r) && bigint (lr_amount_micros r)
  && (String.length (lr_reason r) <=? 500)%nat
  && (1 <=? String.length (lr_actor r))%nat && (String.length (lr_actor r) <=? 256)%nat.

Definition alert_check (used limit : Z) : bool :=
  (0 <=? used) && bigint used && (0 <? limit) && bigint limit.

(** A new row of [budget_period_state]: every counter at its default. *)
Definition period_default : PeriodState :=
  {| ps_reserved := 0; ps_consumed := 0; ps_allowance := 0;
     ps_contingency_reserved := 0; ps_version := 1 |}.

(** The columns the UPDATE statements change. *)
Definition add_reserved (d : Z) (ps : PeriodState) : PeriodState :=
  {| ps_reserved := ps_reserved ps + d; ps_consumed := ps_consumed ps;
     ps_allowance := ps_allowance ps;
     ps_contingency_reserved := ps_contingency_reserved ps;
     ps_version := ps_version ps + 1 |}.
Definition settle_columns (amount charged : Z) (ps : PeriodState) : PeriodState :=
  {| ps_reserved := ps_reserved ps - amount; ps_consumed := ps_consumed ps + charged;
     ps_allowance := ps_allowance ps;
     ps_contingency_reserved := ps_contingency_reserved ps;
     ps_version := ps_version ps + 1 |}.
Definition add_allowance (d : Z) (ps : PeriodState) : PeriodState :=
  {| ps_reserved := ps_reserved ps; ps_consumed := ps_consumed ps;
     ps_allowance := ps_allowance ps + d;
     ps_contingency_reserved := ps_contingency_reserved ps;
     ps_version := ps_version ps + 1 |}.
Definition add_contingency (d : Z) (ps : PeriodState) : PeriodState :=
  {| ps_reserved := ps_reserved ps; ps_consumed := ps_consumed ps;
     ps_allowance := ps_allowance ps;
     ps_contingency_reserved := ps_contingency_reserved ps + d;
     ps_version := ps_version ps + 1 |}.

Abbreviation BST := (ST BudgetDb BudgetError).

(** [UPDATE budget_period_state SET ... WHERE key AND cond]: no row, or a row that
    fails [cond], is left alone and reported as not updated. *)
Definition update_period (k : period_id) (cond : PeriodState → bool)
    (f : PeriodState → PeriodState) : BST bool :=
  ps ← gets (λ db, periods db !! k);
  match ps with
  | None => mret false
  | Some ps =>
      if cond ps then
        if period_check (f ps) then
          _ ← modify (set_periods <[k := f ps]>); mret true
        else raise ESql
      else mret false
  end.

(** The unique index [(tenant_id,budget_id,period_key,reserve_id,entry_type)]. *)
Definition same_entry (r1 r2 : LedgerRow) : bool :=
  bool_decide (lr_tenant_id r1 = lr_tenant_id r2)
  && bool_decide (lr_budget_id r1 = lr_budget_id r2)
  && bool_decide (lr_period_key r1 = lr_period_key r2)
  && bool_decide (lr_reserve_id r1 = lr_reserve_id r2)
  && bool_decide (lr_entry_type r1 = lr_entry_type r2).

Section Service.
  Context (uuid_at : nat → uuid).

Definition uuid7 : BST uuid :=
  n ← gets drawn; _ ← modify (set_drawn (S n)); mret (uuid_at n).

(** [_ensure_state_row] *)
Definition ensure_state_row (tenant_id budget_id : uuid) (period_key : string) : BST unit :=
  let k := (tenant_id, budget_id, period_key) in
  if period_key_check period_key then
    modify (set_periods (λ m, match m !! k with
                              | Some _ => m
                              | None => <[k := period_default]> m
                              end))
  else raise ESql.

(** [_append_ledger]: true when the row is new. *)
Definition append_ledger (command : BudgetCommand) (budget_id : uuid) (period_key : string)
    (entry : entry_type) (amount_micros : Z) (reserve_id : uuid)
    (contingency : bool) (reason actor : string) : BST bool :=
  id ← uuid7;
  let row := {| lr_tenant_id := bc_tenant_id command; lr_id := id;
                lr_budget_id := budget_id; lr_period_key := period_key;
                lr_application_id := bc_application_id command;
                lr_execution_id := bc_execution_id command;
                lr_entry_type := entry; lr_amount_micros := amount_micros;
                lr_reserve_id := reserve_id; lr_contingency := contingency;
                lr_reason := reason; lr_actor := actor;
                lr_price_version := bc_price_version command |} in
  if ledger_check row then
    rows ← gets ledger;
    if existsb (same_entry row) rows then mret false
    else _ ← modify (set_ledger (λ l, l ++ [row])); mret true
  else raise ESql.

(** [latest_prices]: the rows of the newest version, keyed by model alias. *)
Definition latest_prices (tenant_id : uuid) : BST (gmap string ModelPrice * option Z) :=
  rows ← gets (λ db, filter (λ r, pr_tenant_id r = tenant_id) (prices db));
  let version := foldr (λ r acc, Some (match acc with
                                       | None => pr_version r
                                       | Some v => Z.max (pr_version r) v
                                       end)) None rows in
  let current := filter (λ r, Some (pr_version r) = version) rows in
  mret (foldl (λ m r, <[mp_model_alias (pr_price r) := pr_price r]> m) ∅ current, version).

Definition has_active_budgets (tenant_id : uuid) : BST bool :=
  gets (λ db, existsb (λ b, bool_decide (bg_tenant_id b = tenant_id)) (budgets db)).

(** [_applicable_levels] *)
Fixpoint levels_of (command : BudgetCommand) (moment : instant) (rows : list BudgetRow)
    : outcome BudgetError (list Level) :=
  match rows with
  | [] => Ok []
  | row :: rows' =>
      let level :=
        match period_key_for (bg_scope row) moment (bc_execution_id command) with
        | Raise e => Raise e
        | Ok key =>
            match levels_of command moment rows' with
            | Raise e => Raise e
            | Ok rest => Ok ({| lv_budget_id := bg_id row; lv_scope := bg_scope row;
                                lv_period_key := key;
                                lv_limit_micros := bg_limit_micros row;
                                lv_contingency_micros := bg_contingency_micros row;
                                lv_unknown_policy := bg_unknown_policy row |} :: rest)
            end
        end in
      if bool_decide (bg_scope row = AGENT_DAILY)
         && negb (bool_decide (bg_application_id row = bc_application_id command))
      then levels_of command moment rows'
      else if bool_decide (bg_scope row = EXECUTION) then
        match bc_execution_id command with
        | None => Raise (BudgetStateUnknown "EXECUTION_BUDGET_UNEVALUABLE")
        | Some _ =>
            match bg_application_id row with
            | Some a => if bool_decide (Some a = bc_application_id command) then level
                        else levels_of command moment rows'
            | None => level
            end
        end
      else level
  end.

Definition applicable_levels (moment : instant) (command : BudgetCommand) : BST (list Level) :=
  rows ← gets (λ db, filter (λ b, bg_tenant_id b = bc_tenant_id command) (budgets db));
  match levels_of command moment rows with
  | Ok levels => mret levels
  | Raise e => raise e
  end.

(** [_reserve_level] *)
Definition reserve_level (level : Level) (command : BudgetCommand)
    : BST (option BudgetReservation * list string) :=
  let k := (bc_tenant_id command, lv_budget_id level, lv_period_key level) in
  let est := bc_estimated_micros command in
  _ ← ensure_state_row (bc_tenant_id command) (lv_budget_id level) (lv_period_key level);
  state ← gets (λ db, periods db !! k);
  match state with
  | None => raise EIndex
  | Some state =>
      let effective_limit := lv_limit_micros level + ps_allowance state in
      let used_after := ps_reserved state + ps_consumed state + est in
      match evaluate_level used_after effective_limit with
      | REJECT => mret (None, [])
      | Admit decision =>
          if bigint effective_limit then
            updated ← update_period k
              (λ ps, ps_reserved ps + ps_consumed ps + est <=? effective_limit)
              (add_reserved est);
            if updated : bool then
              entry_id ← uuid7;
              _ ← append_ledger command (lv_budget_id level) (lv_period_key level)
                    RESERVE est entry_id false "" "system";
              new_alerts ←
                match decision with
                | None => mret []
                | Some a =>
                    if alert_check used_after (lv_limit_micros level) then
                      seen ← gets (λ db, alerts db !! (k, a));
                      match seen with
                      | Some _ => mret []
                      | None =>
                          _ ← modify (set_alerts
                                <[(k, a) := (used_after, lv_limit_micros level)]>);
                          mret [(lv_scope level +:+ ":" +:+ alert_name a)%string]
                      end
                    else raise ESql
                end;
              mret (Some {| br_budget_id := lv_budget_id level; br_scope := lv_scope level;
                            br_period_key := lv_period_key level;
                            br_amount_micros := est; br_ledger_entry_id := entry_id;
                            br_contingency := false |}, new_alerts)
            else mret (None, [])
          else raise ESql
      end
  end.

(** The loop of [reserve] over the levels: it stops at the first level that
    cannot cover the estimate. *)
Fixpoint reserve_loop (command : BudgetCommand) (levels : list Level)
    (secured : list BudgetReservation) (new_alerts : list string)
    : BST (list BudgetReservation * list string * bool) :=
  match levels with
  | [] => mret (secured, new_alerts, false)
  | level :: levels' =>
      r ← reserve_level level command;
      match r.1 with
      | None => mret (secured, new_alerts, true)
      | Some reservation =>
          reserve_loop command levels' (secured ++ [reservation]) (new_alerts ++ r.2)
      end
  end.

(** [_compensate_level] *)
Definition compensate_level (command : BudgetCommand) (reason : string)
    (entry : BudgetReservation) : BST unit :=
  _ ← update_period (bc_tenant_id command, br_budget_id entry, br_period_key entry)
        (λ _, true) (add_reserved (- br_amount_micros entry));
  _ ← append_ledger command (br_budget_id entry) (br_period_key entry) RELEASE
        (br_amount_micros entry) (br_ledger_entry_id entry) (br_contingency entry)
        reason "system";
  mret tt.

(** The body of [reserve]'s transaction: the flag says that a level rejected. *)
Definition reserve_body (moment : instant) (command : BudgetCommand)
    : BST (bool * BudgetReservationBundle) :=
  levels ← applicable_levels moment command;
  '(secured, new_alerts, rejected) ← reserve_loop command levels [] [];
  if rejected : bool then
    _ ← for_each (compensate_level command "rejected downstream") secured;
    match levels !! length secured with
    | None => raise EIndex
    | Some level =>
        reserve_id ← uuid7;
        _ ← append_ledger command (lv_budget_id level) (lv_period_key level) REJECTED
              (bc_estimated_micros command) reserve_id false "limit exhausted" "system";
        mret (true, {| bb_command := command; bb_entries := []; bb_alerts := [] |})
    end
  else mret (false, {| bb_command := command; bb_entries := secured;
                       bb_alerts := new_alerts |}).

(** [_apply_unknown_policy] *)
Fixpoint contingency_loop (command : BudgetCommand) (levels : list Level)
    (entries : list BudgetReservation) : BST (option (list BudgetReservation)) :=
  match levels with
  | [] => mret (Some entries)
  | level :: levels' =>
      let amount := Z.min (bc_estimated_micros command) (lv_contingency_micros level) in
      reserved ← update_period
        (bc_tenant_id command, lv_budget_id level, lv_period_key level)
        (λ ps, ps_contingency_reserved ps + amount <=? lv_contingency_micros level)
        (add_contingency amount);
      if reserved : bool then
        entry_id ← uuid7;
        _ ← append_ledger command (lv_budget_id level) (lv_period_key level) RESERVE
              amount entry_id true "contingency allowance after unknown budget state" "system";
        contingency_loop command levels' (entries ++
          [{| br_budget_id := lv_budget_id level; br_scope := lv_scope level;
              br_period_key := lv_period_key level; br_amount_micros := amount;
              br_ledger_entry_id := entry_id; br_contingency := true |}])
      else mret None
  end.

Definition apply_unknown_policy (fault : txn_fault) (moment : instant)
    (command : BudgetCommand) : BST (option BudgetReservationBundle) :=
  try_catch
    (transaction fault ESql
      (levels ← applicable_levels moment command;
       let contingent :=
         filter (λ l, lv_unknown_policy l = CONTINGENCY ∧ 0 < lv_contingency_micros l) levels in
       match contingent with
       | [] => mret None
       | _ =>
           entries ← contingency_loop command contingent [];
           mret ((λ es, {| bb_command := command; bb_entries := es; bb_alerts := [] |})
                   <$> entries)
       end))
    (λ e, match e with ESql => mret None | _ => raise e end).

(** [reserve]: [fault] and [fault'] are what happens to the connection of the
    reservation and of the recovery transaction, [moment] and [moment'] what the
    clock shows in each. *)
Definition reserve (fault fault' : txn_fault) (moment moment' : instant)
    (command : BudgetCommand) : BST BudgetReservationBundle :=
  r ← try_catch
        (transaction fault ESql (reserve_body moment command))
        (λ e, match e with
              | ESql =>
                  recovery ← apply_unknown_policy fault' moment' command;
                  match recovery with
                  | Some bundle => mret (false, bundle)
                  | None => raise (BudgetStateUnknown "BUDGET_STATE_UNKNOWN")
                  end
              | _ => raise e
              end);
  if (r.1 : bool) then raise BudgetExceeded else mret r.2.

(** [settle] *)
Definition settle_entry (command : BudgetCommand) (actual_micros : option Z)
    (entry : BudgetReservation) : BST unit :=
  let charged := default (br_amount_micros entry) actual_micros in
  inserted ← append_ledger command (br_budget_id entry) (br_period_key entry) SETTLE
    charged (br_ledger_entry_id entry) (br_contingency entry) "" "system";
  if inserted : bool then
    _ ← update_period (bc_tenant_id command, br_budget_id entry, br_period_key entry)
          (λ _, true) (settle_columns (br_amount_micros entry) charged);
    mret tt
  else mret tt.

Definition settle (fault : txn_fault) (bundle : BudgetReservationBundle)
    (actual_micros : option Z) : BST unit :=
  transaction fault ESql
    (for_each (settle_entry (bb_command bundle) actual_micros) (bb_entries bundle)).

(** [release] *)
Definition release_entry (command : BudgetCommand) (reason : string)
    (entry : BudgetReservation) : BST unit :=
  inserted ← append_ledger command (br_budget_id entry) (br_period_key entry) RELEASE
    (br_amount_micros entry) (br_ledger_entry_id entry) (br_contingency entry) reason "system";
  if inserted : bool then
    _ ← update_period (bc_tenant_id command, br_budget_id entry, br_period_key entry)
          (λ _, true) (add_reserved (- br_amount_micros entry));
    mret tt
  else mret tt.

Definition release (fault : txn_fault) (bundle : BudgetReservationBundle) (reason : string)
    : BST unit :=
  transaction fault ESql
    (for_each (release_entry (bb_command bundle) reason) (bb_entries bundle)).

(** [adjust] *)
Definition adjust (fault : txn_fault) (moment : instant) (tenant_id budget_id : uuid)
    (delta_micros : Z) (reason actor : string) : BST unit :=
  transaction fault ESql
    (found ← gets (λ db, head (filter (λ b, bg_tenant_id b = tenant_id ∧ bg_id b = budget_id)
                                (budgets db)));
     budget ← get_or_raise found (ELookup "budget not found");
     if bool_decide (bg_scope budget = EXECUTION) then
       raise (EValue "execution budgets are adjusted by reconfiguring the limit")
     else
       match period_key_for (bg_scope budget) moment None with
       | Raise e => raise e
       | Ok period_key =>
           _ ← ensure_state_row tenant_id budget_id period_key;
           _ ← update_period (tenant_id, budget_id, period_key) (λ _, true)
                 (add_allowance delta_micros);
           reserve_id ← uuid7;
           _ ← append_ledger
                 {| bc_tenant_id := tenant_id;
                    bc_application_id := bg_application_id budget;
                    bc_execution_id := None; bc_estimated_micros := 0;
                    bc_price_version := None |}
                 budget_id period_key ADJUST (Z.max delta_micros 0) reserve_id false
                 (reason +:+ " (delta " +:+ pretty delta_micros +:+ ")")%string actor;
           mret tt
       end).
End Service.
