(* ===== verification/BudgetsFacts.v ===== *)
(** * Correctness of the budget service

    Facts about [Budgets.v]: what each statement of the service does to the
    period counters and to the ledger, the invariants every operation keeps,
    and the contracts of [reserve], [settle], [release] and [adjust]. *)

From S2P Require Import Prelude PyNum Budgets.
Open Scope Z_scope.

(** ** The counters of a period, whether or not its row exists yet *)
Definition period_of (db : BudgetDb) (k : period_id) : PeriodState :=
  default period_default (periods db !! k).

(** The four counters without the row version. *)
Definition counters (ps : PeriodState) : Z * Z * Z * Z :=
  (ps_reserved ps, ps_consumed ps, ps_allowance ps, ps_contingency_reserved ps).

Lemma period_of_insert db k ps k' :
  period_of (set_periods <[k := ps]> db) k' = if decide (k = k') then ps else period_of db k'.
Proof. unfold period_of. simpl. rewrite lookup_insert. by case_decide. Qed.

(** ** Running the primitive statements *)
Section Statements.
Context (uuid_at : nat → uuid).

(** What [update_period] can do. *)
Lemma update_period_run k cond f db :
  update_period k cond f db =
    match periods db !! k with
    | None => (Ok false, db)
    | Some ps =>
        if cond ps then
          if period_check (f ps) then (Ok true, set_periods <[k := f ps]> db)
          else (Raise ESql, db)
        else (Ok false, db)
    end.
Proof.
  unfold update_period, gets, modify, raise, mbind, ST_mbind, mret, ST_mret.
  destruct (periods db !! k) as [ps|]; [|done].
  by destruct (cond ps); [destruct (period_check (f ps))|].
Qed.

(** A ledger append, when it returns, either found its entry present or added
    exactly one row that passes the table's checks. *)
Lemma append_ledger_run cmd bid pk t amt rid cont reason actor db r db' :
  append_ledger uuid_at cmd bid pk t amt rid cont reason actor db = (Ok r, db') →
  let row := {| lr_tenant_id := bc_tenant_id cmd; lr_id := uuid_at (drawn db);
                lr_budget_id := bid; lr_period_key := pk;
                lr_application_id := bc_application_id cmd;
                lr_execution_id := bc_execution_id cmd;
                lr_entry_type := t; lr_amount_micros := amt;
                lr_reserve_id := rid; lr_contingency := cont;
                lr_reason := reason; lr_actor := actor;
                lr_price_version := bc_price_version cmd |} in
  ledger_check row = true ∧
  ((r = false ∧ existsb (same_entry row) (ledger db) = true ∧
      db' = set_drawn (S (drawn db)) db) ∨
   (r = true ∧ existsb (same_entry row) (ledger db) = false ∧
      db' = set_ledger (λ l, l ++ [row]) (set_drawn (S (drawn db)) db))).
Proof.
  unfold append_ledger, uuid7, gets, modify, raise, mbind, ST_mbind, mret, ST_mret. simpl.
  destruct (ledger_check _) eqn:Hc; simpl; [|congruence].
  destruct (existsb _ (ledger db)) eqn:He; intros [= <- <-]; split; auto.
Qed.

Lemma append_ledger_raise cmd bid pk t amt rid cont reason actor db e db' :
  append_ledger uuid_at cmd bid pk t amt rid cont reason actor db = (Raise e, db') → e = ESql.
Proof.
  unfold append_ledger, uuid7, gets, modify, raise, mbind, ST_mbind, mret, ST_mret. simpl.
  destruct (ledger_check _); simpl; [|congruence]. by destruct (existsb _ _).
Qed.
End Statements.

(** ** Reservation of one level

    The exact effect of [_reserve_level]: it secures the estimate only when the
    usage after it stays within [limit + allowance], and it writes the period
    row it claims and nothing else of the counters. *)
Section ReserveLevel.
Context (uuid_at : nat → uuid).
Context (level : Level) (command : BudgetCommand) (db : BudgetDb).
Let k : period_id := (bc_tenant_id command, lv_budget_id level, lv_period_key level).
Let est := bc_estimated_micros command.
Let ps := period_of db k.

Definition reservation_at (n : nat) : BudgetReservation :=
  {| br_budget_id := lv_budget_id level; br_scope := lv_scope level;
     br_period_key := lv_period_key level; br_amount_micros := est;
     br_ledger_entry_id := uuid_at n; br_contingency := false |}.

Definition reserve_row (n : nat) : LedgerRow :=
  {| lr_tenant_id := bc_tenant_id command; lr_id := uuid_at (S n);
     lr_budget_id := lv_budget_id level; lr_period_key := lv_period_key level;
     lr_application_id := bc_application_id command;
     lr_execution_id := bc_execution_id command;
     lr_entry_type := RESERVE; lr_amount_micros := est;
     lr_reserve_id := uuid_at n; lr_contingency := false;
     lr_reason := ""; lr_actor := "system";
     lr_price_version := bc_price_version command |}.

Lemma evaluate_level_admits used limit d :
  evaluate_level used limit = Admit d → used ≤ limit.
Proof. unfold evaluate_level. destruct (limit <? used) eqn:H; [done|]. lia. Qed.

Lemma evaluate_level_rejects used limit :
  evaluate_level used limit = REJECT ↔ limit < used.
Proof.
  unfold evaluate_level. destruct (limit <? used) eqn:H; [split; [lia|done]|].
  split; [|lia]. destruct (limit <=? 0); [done|].
  destruct (float_geb _ _); [done|]. by destruct (float_geb _ _).
Qed.

Lemma reserve_level_run r al db' :
  reserve_level uuid_at level command db = (Ok (r, al), db') →
  match r with
  | Some res =>
      res = reservation_at (drawn db) ∧
      ps_reserved ps + ps_consumed ps + est ≤ lv_limit_micros level + ps_allowance ps ∧
      0 ≤ est ∧ period_check (add_reserved est ps) = true ∧
      periods db' = <[k := add_reserved est ps]> (periods db) ∧
      ledger db' = (if existsb (same_entry (reserve_row (drawn db))) (ledger db)
                    then ledger db else ledger db ++ [reserve_row (drawn db)]) ∧
      budgets db' = budgets db ∧ drawn db' = S (S (drawn db))
  | None =>
      al = [] ∧
      lv_limit_micros level + ps_allowance ps < ps_reserved ps + ps_consumed ps + est ∧
      periods db' = <[k := ps]> (periods db) ∧
      ledger db' = ledger db ∧ alerts db' = alerts db ∧
      budgets db' = budgets db ∧ drawn db' = drawn db
  end.
Proof.
  unfold reserve_level. fold k. fold est. intros H.
  apply bind_Ok in H as ([] & db1 & Hens & H).
  assert (db1 = set_periods <[k := ps]> db) as ->.
  { unfold ensure_state_row, modify, raise in Hens. destruct (period_key_check _); [|done].
    injection Hens as <-. unfold set_periods. f_equal. unfold ps, period_of. fold k.
    destruct (periods db !! k) eqn:Hk; simpl; [|done]. by rewrite insert_id. }
  apply bind_Ok in H as (st & db2 & Hst & H). unfold gets in Hst.
  injection Hst as <- <-. simpl in H. rewrite lookup_insert_eq in H.
  destruct (evaluate_level _ _) as [|d] eqn:Hev.
  { injection H as <- <- <-. apply evaluate_level_rejects in Hev. simpl. repeat split; done. }
  pose proof (evaluate_level_admits _ _ _ Hev) as Hle.
  destruct (bigint _) eqn:Hbig; [|done].
  apply bind_Ok in H as (upd & db3 & Hupd & H).
  rewrite update_period_run in Hupd. simpl in Hupd. rewrite lookup_insert_eq in Hupd.
  replace (_ <=? _) with true in Hupd by (symmetry; apply Z.leb_le; lia).
  destruct (period_check _) eqn:Hpc; [|done]. injection Hupd as <- <-.
  apply bind_Ok in H as (eid & db4 & Heid & H). unfold uuid7 in Heid.
  injection Heid as <- <-.
  apply bind_Ok in H as (ins & db5 & Happ & H).
  apply append_ledger_run in Happ as [Hchk Happ]. simpl in Happ.
  assert (0 ≤ est) as Hest.
  { unfold ledger_check in Hchk. simpl in Hchk. fold est in Hchk. lia. }
  apply bind_Ok in H as (nal & db6 & Hal & H). injection H as <- <- <-.
  assert (periods db6 = periods db5 ∧ ledger db6 = ledger db5 ∧
          budgets db6 = budgets db5 ∧ drawn db6 = drawn db5) as (-> & -> & -> & ->).
  { destruct d as [a|]; [|by injection Hal as <- <-].
    destruct (alert_check _ _); [|done]. apply bind_Ok in Hal as (o & ? & Ho & Hal).
    injection Ho as <- <-. destruct (alerts db5 !! (k, a)); by injection Hal as <- <-. }
  fold (reserve_row (drawn db)) in Happ.
  destruct Happ as [(_ & He & ->)|(_ & He & ->)]; simpl; rewrite He, insert_insert_eq;
    repeat split; done.
Qed.

Lemma reserve_level_raise e db' :
  reserve_level uuid_at level command db = (Raise e, db') → e = ESql.
Proof.
  unfold reserve_level, ensure_state_row, gets, modify, raise. fold k.
  unfold mbind at 1, ST_mbind at 1. destruct (period_key_check _); [|congruence].
  unfold mbind at 1, ST_mbind at 1. simpl.
  assert (is_Some ((match periods db !! k with
                    | Some _ => periods db | None => <[k := period_default]> (periods db)
                    end) !! k)) as [st ->].
  { destruct (periods db !! k) eqn:Hk; [by rewrite Hk|]. rewrite lookup_insert_eq. eauto. }
  destruct (evaluate_level _ _) as [|d]; [done|]. destruct (bigint _); [|congruence].
  unfold mbind at 1, ST_mbind at 1. rewrite update_period_run.
  destruct (periods _ !! k) as [p|]; [|done]. destruct (_ <=? _); [|done].
  destruct (period_check _); [|congruence].
  unfold mbind, ST_mbind, uuid7, gets, modify, mret, ST_mret; simpl.
  match goal with |- context [append_ledger ?a ?b ?c ?d ?e ?f ?g ?h ?i ?j ?l] =>
    destruct (append_ledger a b c d e f g h i j l) as [[]?] eqn:Happ end; simpl.
  { destruct d; [|done]. destruct (alert_check _ _); [|congruence].
    by destruct (alerts _ !! _). }
  apply append_ledger_raise in Happ. congruence.
Qed.
End ReserveLevel.

(** ** Invariants *)

(** The column constraints hold in every row, budget ids are unique per tenant
    and limits are not negative. *)
Record db_wf (db : BudgetDb) : Prop := {
  wf_periods : map_Forall (λ _ ps, period_check ps = true) (periods db);
  wf_ids : NoDup ((λ b, (bg_tenant_id b, bg_id b)) <$> budgets db);
  wf_limits : ∀ b, b ∈ budgets db → 0 ≤ bg_limit_micros b;
  wf_ledger : ∀ r, r ∈ ledger db → ledger_check r = true;
}.

(** No budget is overdrawn: what is reserved and consumed in a period stays
    within the limit and the period's allowance. *)
Definition within_limit (db : BudgetDb) : Prop :=
  ∀ b pk ps, b ∈ budgets db →
    periods db !! (bg_tenant_id b, bg_id b, pk) = Some ps →
    ps_reserved ps + ps_consumed ps ≤ bg_limit_micros b + ps_allowance ps.

(** What the ledger says was settled in a period. *)
Definition settled_in (k : period_id) (r : LedgerRow) : Z :=
  if bool_decide (lr_entry_type r = SETTLE ∧
                  (lr_tenant_id r, lr_budget_id r, lr_period_key r) = k)
  then lr_amount_micros r else 0.

Definition ledger_settled (db : BudgetDb) (k : period_id) : Z :=
  Zsum (settled_in k) (ledger db).

(** The consumed counter of every period is the sum of its SETTLE entries. *)
Definition consumption_conserved (db : BudgetDb) : Prop :=
  ∀ k, ps_consumed (period_of db k) = ledger_settled db k.

(** A level of the code's list comes from a row of the table. *)
Definition level_from (bs : list BudgetRow) (tenant : uuid) (l : Level) : Prop :=
  ∃ b, b ∈ bs ∧ bg_tenant_id b = tenant ∧ lv_budget_id l = bg_id b ∧
       lv_scope l = bg_scope b ∧ lv_limit_micros l = bg_limit_micros b ∧
       lv_contingency_micros l = bg_contingency_micros b.

Lemma levels_of_sound cmd moment rows ls :
  levels_of cmd moment rows = Ok ls →
  ∀ l, l ∈ ls → ∃ b, b ∈ rows ∧ lv_budget_id l = bg_id b ∧ lv_scope l = bg_scope b ∧
    lv_limit_micros l = bg_limit_micros b ∧
    lv_contingency_micros l = bg_contingency_micros b ∧
    period_key_for (bg_scope b) moment (bc_execution_id cmd) = Ok (lv_period_key l).
Proof.
  revert ls. induction rows as [|b rows IH]; simpl; intros ls Hls l Hl.
  { injection Hls as <-. by apply elem_of_nil in Hl. }
  assert (∀ ls', levels_of cmd moment rows = Ok ls' → l ∈ ls' →
    ∃ b0, b0 ∈ b :: rows ∧ lv_budget_id l = bg_id b0 ∧ lv_scope l = bg_scope b0 ∧
      lv_limit_micros l = bg_limit_micros b0 ∧
      lv_contingency_micros l = bg_contingency_micros b0 ∧
      period_key_for (bg_scope b0) moment (bc_execution_id cmd) = Ok (lv_period_key l))
    as Hskip.
  { intros ls' H1 H2. destruct (IH ls' H1 l H2) as (b0 & ? & ?). exists b0.
    split; [by apply elem_of_cons; right|done]. }
  assert (∀ ls', match period_key_for (bg_scope b) moment (bc_execution_id cmd) with
      | Raise e => Raise e
      | Ok key => match levels_of cmd moment rows with
                  | Raise e => Raise e
                  | Ok rest => Ok ({| lv_budget_id := bg_id b; lv_scope := bg_scope b;
                                lv_period_key := key;
                                lv_limit_micros := bg_limit_micros b;
                                lv_contingency_micros := bg_contingency_micros b;
                                lv_unknown_policy := bg_unknown_policy b |} :: rest)
                  end
      end = Ok ls' → l ∈ ls' →
    ∃ b0, b0 ∈ b :: rows ∧ lv_budget_id l = bg_id b0 ∧ lv_scope l = bg_scope b0 ∧
      lv_limit_micros l = bg_limit_micros b0 ∧
      lv_contingency_micros l = bg_contingency_micros b0 ∧
      period_key_for (bg_scope b0) moment (bc_execution_id cmd) = Ok (lv_period_key l))
    as Htake.
  { intros ls' H1 H2. destruct (period_key_for _ _ _) eqn:Hk; [|done].
    destruct (levels_of _ _ _) as [rest|] eqn:Hr; [|done]. injection H1 as <-.
    apply elem_of_cons in H2 as [->|H2]; [|by eapply Hskip].
    exists b. simpl. split; [by apply elem_of_cons; left|done]. }
  repeat case_match; try done; eauto.
Qed.

Lemma applicable_levels_run moment cmd db levels db' :
  applicable_levels moment cmd db = (Ok levels, db') →
  db' = db ∧
  levels_of cmd moment (filter (λ b, bg_tenant_id b = bc_tenant_id cmd) (budgets db)) = Ok levels ∧
  ∀ l, l ∈ levels → level_from (budgets db) (bc_tenant_id cmd) l.
Proof.
  unfold applicable_levels, gets, mbind, ST_mbind, mret, ST_mret, raise. simpl.
  destruct (levels_of _ _ _) as [ls|] eqn:Hls; intros [= <- <-].
  split; [done|]. split; [done|]. intros l Hl.
  destruct (levels_of_sound _ _ _ _ Hls l Hl) as (b & Hb & ? & ? & ? & ? & _).
  apply list_elem_of_filter in Hb as [? ?]. exists b. repeat split; done.
Qed.

(** Two rows of one tenant with the same id are the same row. *)
Lemma budget_id_unique db b1 b2 :
  db_wf db → b1 ∈ budgets db → b2 ∈ budgets db →
  bg_tenant_id b1 = bg_tenant_id b2 → bg_id b1 = bg_id b2 → b1 = b2.
Proof.
  intros Hwf H1 H2 Ht Hi.
  apply list_elem_of_lookup in H1 as [i1 H1]. apply list_elem_of_lookup in H2 as [i2 H2].
  assert (i1 = i2) as ->; [|congruence].
  eapply (NoDup_lookup _ _ _ _ (wf_ids _ Hwf)); rewrite list_lookup_fmap.
  - by rewrite H1.
  - rewrite H2. simpl. by rewrite Ht, Hi.
Qed.

(** ** Writes and the invariants *)
Section Writes.
Context (uuid_at : nat → uuid).

(** Replacing one period row by a row that passes the checks. *)
Lemma wf_set_period db k ps :
  db_wf db → period_check ps = true → db_wf (set_periods <[k := ps]> db).
Proof. intros [] ?. split; simpl; try done. by apply map_Forall_insert_2. Qed.

Lemma within_set_period db k ps :
  within_limit db →
  (∀ b, b ∈ budgets db → k.1 = (bg_tenant_id b, bg_id b) →
     ps_reserved ps + ps_consumed ps ≤ bg_limit_micros b + ps_allowance ps) →
  within_limit (set_periods <[k := ps]> db).
Proof.
  intros Hw Hk b pk ps' Hb. simpl. rewrite lookup_insert. case_decide as Heq.
  - intros [= <-]. apply Hk; [done|]. by rewrite Heq.
  - by apply Hw.
Qed.

Definition tracked (bs : list BudgetRow) (db : BudgetDb) : Prop :=
  budgets db = bs ∧ db_wf db ∧ within_limit db.

Lemma keeps_uuid7 bs : keeps (tracked bs) (uuid7 uuid_at).
Proof.
  apply keeps_intro. intros db n db' (Hb & [] & Hw) [= <- <-].
  split; [done|]. split; [by split|]. exact Hw.
Qed.

Lemma keeps_append_ledger bs cmd bid pk t amt rid cont reason actor :
  keeps (tracked bs) (append_ledger uuid_at cmd bid pk t amt rid cont reason actor).
Proof.
  apply keeps_intro. intros db r db' (Hb & [] & Hw) H.
  apply append_ledger_run in H as [Hc [(_ & _ & ->)|(_ & _ & ->)]];
    (split; [done|split; [split|exact Hw]]); simpl; try done.
  intros r' Hr'. apply elem_of_app in Hr' as [?|Hr']; [by auto|]. by apply list_elem_of_singleton in Hr' as ->.
Qed.

(** An update that does not raise [reserved + consumed - allowance]. *)
Definition shrinking (f : PeriodState → PeriodState) : Prop :=
  ∀ ps, ps_reserved (f ps) + ps_consumed (f ps) - ps_allowance (f ps)
        ≤ ps_reserved ps + ps_consumed ps - ps_allowance ps.

Lemma keeps_update_shrinking bs k cond f :
  shrinking f → keeps (tracked bs) (update_period k cond f).
Proof.
  intros Hf. apply keeps_intro. intros db r db' (Hb & Hwf & Hw).
  rewrite update_period_run. destruct (periods db !! k) as [ps|] eqn:Hk; [|by intros [= <- <-]].
  destruct (cond ps); [|by intros [= <- <-]].
  destruct (period_check (f ps)) eqn:Hc; [|done]. intros [= <- <-].
  split; [done|]. split; [by apply wf_set_period|]. apply within_set_period; [done|].
  intros b Hbin Hk1. specialize (Hf ps).
  destruct k as [k1 pk]. simpl in Hk1. subst k1. specialize (Hw b pk ps Hbin Hk). lia.
Qed.

Lemma shrinking_add_contingency d : shrinking (add_contingency d).
Proof. intros ps. simpl. lia. Qed.
Lemma shrinking_add_allowance d : 0 ≤ d → shrinking (add_allowance d).
Proof. intros ? ps. simpl. lia. Qed.
Lemma shrinking_release d : 0 ≤ d → shrinking (add_reserved (- d)).
Proof. intros ? ps. simpl. lia. Qed.
Lemma shrinking_settle a c : c ≤ a → shrinking (settle_columns a c).
Proof. intros ? ps. simpl. lia. Qed.

Lemma period_default_check : period_check period_default = true.
Proof. reflexivity. Qed.

Lemma keeps_ensure_state_row bs t bid pk :
  keeps (tracked bs) (ensure_state_row t bid pk).
Proof.
  unfold ensure_state_row. destruct (period_key_check pk); [|by apply maintains_raise].
  apply maintains_modify. intros db (Hb & Hwf & Hw).
  set (k := (t, bid, pk)). destruct (periods db !! k) as [ps|] eqn:Hk.
  - replace (set_periods _ db) with db; [done|]. destruct db; simpl in *.
    unfold set_periods; simpl. by rewrite Hk.
  - replace (set_periods _ db) with (set_periods <[k := period_default]> db).
    2:{ unfold set_periods. by rewrite Hk. }
    split; [done|]. split; [by apply wf_set_period|].
    apply within_set_period; [done|]. intros b Hbin _.
    pose proof (wf_limits _ Hwf b Hbin). simpl. lia.
Qed.

Lemma keeps_reserve_level bs level cmd :
  level_from bs (bc_tenant_id cmd) level →
  keeps (tracked bs) (reserve_level uuid_at level cmd).
Proof.
  intros (b & Hb & Hbt & Hbid & _ & Hlim & _). apply keeps_intro.
  intros db [r al] db' (Hbs & Hwf & Hw) H. apply reserve_level_run in H.
  set (k := (bc_tenant_id cmd, lv_budget_id level, lv_period_key level)) in *.
  set (ps := period_of db k) in *.
  assert (period_check ps = true) as Hps.
  { unfold ps, period_of. destruct (periods db !! k) as [p|] eqn:Hk; [|done].
    exact (wf_periods _ Hwf k p Hk). }
  assert (∀ b', b' ∈ budgets db → k.1 = (bg_tenant_id b', bg_id b') → b' = b) as Huniq.
  { intros b' Hb' [= ? ?]. subst bs. eapply budget_id_unique; eauto; congruence. }
  destruct r as [res|].
  - destruct H as (-> & Hle & Hest & Hpc & Hper & Hled & Hbud & _).
    split; [congruence|].
    assert (db_wf (set_periods <[k := add_reserved (bc_estimated_micros cmd) ps]> db)) as Hwf'
      by by apply wf_set_period.
    assert (within_limit (set_periods <[k := add_reserved (bc_estimated_micros cmd) ps]> db))
      as Hw'.
    { apply within_set_period; [done|]. intros b' Hb' Hk. apply Huniq in Hk as ->; [|done].
      simpl. rewrite <- Hlim. lia. }
    split.
    + destruct Hwf' as [H1 H2 H3 H4]. simpl in *. split; rewrite ?Hper, ?Hbud; try done.
      rewrite Hled. intros r. destruct (existsb _ _); [by apply H4|].
      intros Hr. apply elem_of_app in Hr as [?|Hr]; [by apply H4|]. apply list_elem_of_singleton in Hr as ->.
      unfold ledger_check, reserve_row. simpl.
      unfold period_check in Hpc, Hps. simpl in Hpc. unfold bigint in *. lia.
    + intros b' pk p Hb'. rewrite Hper. rewrite Hbud in Hb'. apply (Hw' b' pk p Hb').
  - destruct H as (_ & _ & Hper & Hled & _ & Hbud & _). split; [congruence|].
    assert (db_wf (set_periods <[k := ps]> db)) as [] by by apply wf_set_period.
    split; [split; rewrite ?Hper, ?Hbud, ?Hled; done|].
    intros b' pk p Hb'. rewrite Hper, lookup_insert. rewrite Hbud in Hb'.
    case_decide as Heq; [|by apply Hw]. intros [= <-].
    unfold ps, period_of. rewrite Heq.
    destruct (periods db !! _) as [p'|] eqn:Hp; simpl; [by eapply Hw|].
    pose proof (wf_limits _ Hwf b' Hb'). lia.
Qed.

Lemma keeps_reserve_loop bs cmd levels secured al :
  (∀ l, l ∈ levels → level_from bs (bc_tenant_id cmd) l) →
  keeps (tracked bs) (reserve_loop uuid_at cmd levels secured al).
Proof.
  revert secured al. induction levels as [|l levels IH]; intros secured al Hl; simpl; preserve.
  - apply keeps_reserve_level, Hl. set_solver.
  - apply IH. set_solver.
Qed.

Lemma keeps_compensate_level bs cmd reason entry :
  keeps (tracked bs) (compensate_level uuid_at cmd reason entry).
Proof.
  apply keeps_intro. intros db [] db' Hdb H. unfold compensate_level in H.
  apply bind_Ok in H as (u & db1 & Hu & H). apply bind_Ok in H as (i & db2 & Hi & [= <-]).
  assert (0 ≤ br_amount_micros entry).
  { apply append_ledger_run in Hi as [Hc _]. unfold ledger_check in Hc. simpl in Hc. lia. }
  eapply keeps_elim; [apply keeps_append_ledger|exact Hi|].
  eapply keeps_elim; [by apply keeps_update_shrinking, shrinking_release|exact Hu|done].
Qed.

Lemma keeps_contingency_loop bs cmd levels entries :
  keeps (tracked bs) (contingency_loop uuid_at cmd levels entries).
Proof.
  revert entries. induction levels as [|l levels IH]; intros entries; simpl; preserve.
  - apply keeps_update_shrinking, shrinking_add_contingency.
  - apply keeps_uuid7.
  - apply keeps_append_ledger.
Qed.

Lemma keeps_reserve_body bs moment cmd :
  keeps (tracked bs) (reserve_body uuid_at moment cmd).
Proof.
  unfold reserve_body.
  eapply (triple_bind _ (λ levels db, tracked bs db ∧
    ∀ l, l ∈ levels → level_from bs (bc_tenant_id cmd) l)).
  { intros db Hdb. destruct (applicable_levels _ _ _) as [[levels|] db'] eqn:H; [|done].
    apply applicable_levels_run in H as (-> & _ & Hl). split; [done|].
    by destruct Hdb as [<- _]. }
  intros levels. apply triple_pure. intros Hl.
  change (keeps (tracked bs) ('(secured, new_alerts, rejected) ←
    reserve_loop uuid_at cmd levels [] [];
    if rejected : bool then
      _ ← for_each (compensate_level uuid_at cmd "rejected downstream") secured;
      match levels !! length secured with
      | None => raise EIndex
      | Some level =>
          reserve_id ← uuid7 uuid_at;
          _ ← append_ledger uuid_at cmd (lv_budget_id level) (lv_period_key level) REJECTED
                (bc_estimated_micros cmd) reserve_id false "limit exhausted" "system";
          mret (true, {| bb_command := cmd; bb_entries := []; bb_alerts := [] |})
      end
    else mret (false, {| bb_command := cmd; bb_entries := secured;
                         bb_alerts := new_alerts |}))).
  preserve.
  - by apply keeps_reserve_loop.
  - apply keeps_compensate_level.
  - apply keeps_uuid7.
  - apply keeps_append_ledger.
Qed.

Lemma preserves_apply_unknown_policy bs fault moment cmd :
  preserves (tracked bs) (apply_unknown_policy uuid_at fault moment cmd).
Proof.
  unfold apply_unknown_policy. preserve.
  - unfold applicable_levels. preserve.
  - apply keeps_contingency_loop.
Qed.

(** Every operation of the service keeps the table constraints and never
    overdraws a budget, whatever the connection does. *)
Lemma preserves_reserve bs fault fault' moment moment' cmd :
  preserves (tracked bs) (reserve uuid_at fault fault' moment moment' cmd).
Proof.
  unfold reserve. preserve.
  - apply keeps_reserve_body.
  - apply preserves_apply_unknown_policy.
Qed.

Lemma preserves_settle bs fault bundle actual :
  (∀ e, e ∈ bb_entries bundle → default (br_amount_micros e) actual ≤ br_amount_micros e) →
  preserves (tracked bs) (settle uuid_at fault bundle actual).
Proof.
  intros Hle. unfold settle, settle_entry. preserve.
  - apply keeps_append_ledger.
  - apply keeps_update_shrinking, shrinking_settle. auto.
Qed.

Lemma keeps_release_entry bs cmd reason entry :
  keeps (tracked bs) (release_entry uuid_at cmd reason entry).
Proof.
  apply keeps_intro. intros db [] db' Hdb H. unfold release_entry in H.
  apply bind_Ok in H as (i & db1 & Hi & H).
  assert (0 ≤ br_amount_micros entry).
  { apply append_ledger_run in Hi as [Hc _]. unfold ledger_check in Hc. simpl in Hc. lia. }
  assert (tracked bs db1) as Hdb1
    by (eapply keeps_elim; [apply keeps_append_ledger|exact Hi|done]).
  destruct i; [|by injection H as <-]. apply bind_Ok in H as (u & db2 & Hu & [= <-]).
  eapply keeps_elim; [by apply keeps_update_shrinking, shrinking_release|exact Hu|done].
Qed.

Lemma preserves_release bs fault bundle reason :
  preserves (tracked bs) (release uuid_at fault bundle reason).
Proof. unfold release. preserve. apply keeps_release_entry. Qed.

Lemma preserves_adjust bs fault moment t bid delta reason actor :
  0 ≤ delta → preserves (tracked bs) (adjust uuid_at fault moment t bid delta reason actor).
Proof.
  intros Hd. unfold adjust. preserve.
  - apply keeps_ensure_state_row.
  - by apply keeps_update_shrinking, shrinking_add_allowance.
  - apply keeps_uuid7.
  - apply keeps_append_ledger.
Qed.
End Writes.

(** ** Consumption and the ledger *)
Section Conservation.
Context (uuid_at : nat → uuid).

Definition entry_key (tenant : uuid) (e : BudgetReservation) : period_id :=
  (tenant, br_budget_id e, br_period_key e).
Definition bundle_keys (b : BudgetReservationBundle) : list period_id :=
  entry_key (bc_tenant_id (bb_command b)) <$> bb_entries b.

(** Consumption agrees with the ledger, and the rows [ks] exist. *)
Definition ledgered (ks : list period_id) (db : BudgetDb) : Prop :=
  consumption_conserved db ∧ ∀ k, k ∈ ks → is_Some (periods db !! k).

Lemma conserved_append db row :
  lr_entry_type row ≠ SETTLE →
  consumption_conserved db → consumption_conserved (set_ledger (λ l, l ++ [row]) db).
Proof.
  intros Ht Hc k. unfold ledger_settled. simpl. rewrite Zsum_snoc.
  specialize (Hc k). unfold ledger_settled in Hc.
  unfold settled_in at 2. rewrite bool_decide_eq_false_2 by naive_solver.
  change (period_of _ k) with (period_of db k). lia.
Qed.

Lemma conserved_set_period db k ps :
  ps_consumed ps = ps_consumed (period_of db k) →
  consumption_conserved db → consumption_conserved (set_periods <[k := ps]> db).
Proof.
  intros Hps Hc k'. rewrite period_of_insert. change (ledger_settled _ k')
    with (ledger_settled db k'). case_decide as Hk; [subst k'|]; rewrite ?Hps; apply Hc.
Qed.

Lemma lookup_set_period_Some db k ps k' :
  is_Some (periods db !! k') → is_Some (periods (set_periods <[k := ps]> db) !! k').
Proof. simpl. rewrite lookup_insert. case_decide; [eauto|done]. Qed.

Lemma ledgered_uuid7 ks : keeps (ledgered ks) (uuid7 uuid_at).
Proof. apply keeps_intro. by intros db n db' ? [= <- <-]. Qed.

Lemma ledgered_append ks cmd bid pk t amt rid cont reason actor :
  t ≠ SETTLE →
  keeps (ledgered ks) (append_ledger uuid_at cmd bid pk t amt rid cont reason actor).
Proof.
  intros Ht. apply keeps_intro. intros db r db' [Hc Hr] H.
  apply append_ledger_run in H as [_ [(_ & _ & ->)|(_ & _ & ->)]]; [done|].
  split; [|exact Hr]. by apply conserved_append.
Qed.

Lemma ledgered_update ks k cond f :
  (∀ ps, ps_consumed (f ps) = ps_consumed ps) →
  triple (ledgered ks) (update_period k cond f)
    (λ r, ledgered (if r : bool then k :: ks else ks)) (λ _ _, True).
Proof.
  intros Hf db [Hc Hr]. rewrite update_period_run.
  destruct (periods db !! k) as [ps|] eqn:Hk; [|done].
  destruct (cond ps); [|done]. destruct (period_check (f ps)); [|done]. split.
  - apply conserved_set_period; [|done]. unfold period_of. by rewrite Hk, Hf.
  - intros k' [->|Hk']%elem_of_cons; [simpl; rewrite lookup_insert_eq; eauto|].
    apply lookup_set_period_Some. auto.
Qed.

Lemma ledgered_weaken ks ks' db :
  (∀ k, k ∈ ks' → k ∈ ks) → ledgered ks db → ledgered ks' db.
Proof. intros Hk [Hc Hr]. split; [done|]. auto. Qed.

Lemma ledgered_update_keeps ks k cond f :
  (∀ ps, ps_consumed (f ps) = ps_consumed ps) →
  keeps (ledgered ks) (update_period k cond f).
Proof.
  intros Hf. eapply triple_consequence; [by apply ledgered_update|done| |done].
  intros [] db; [|done]. apply ledgered_weaken. set_solver.
Qed.

Lemma ledgered_ensure ks t bid pk : keeps (ledgered ks) (ensure_state_row t bid pk).
Proof.
  unfold ensure_state_row. destruct (period_key_check pk); [|by apply maintains_raise].
  apply maintains_modify. intros db Hdb. set (k := (t, bid, pk)).
  destruct (periods db !! k) as [ps|] eqn:Hk.
  - replace (set_periods _ db) with db; [done|]. destruct db; simpl in *.
    unfold set_periods; simpl. by rewrite Hk.
  - replace (set_periods _ db) with (set_periods <[k := period_default]> db).
    2:{ unfold set_periods. by rewrite Hk. }
    destruct Hdb as [Hc Hr]. split.
    + apply conserved_set_period; [|done]. unfold period_of. by rewrite Hk.
    + intros k' Hk'. apply lookup_set_period_Some. auto.
Qed.

Lemma ledgered_reserve_level ks level cmd :
  triple (ledgered ks) (reserve_level uuid_at level cmd)
    (λ r, ledgered (match r.1 with
                    | Some res => ks ++ [entry_key (bc_tenant_id cmd) res]
                    | None => ks end)) (λ _ _, True).
Proof.
  intros db [Hc Hr]. destruct (reserve_level _ _ _ _) as [[[r al]|] db'] eqn:H; [|done].
  apply reserve_level_run in H. simpl.
  set (k := (bc_tenant_id cmd, lv_budget_id level, lv_period_key level)) in *.
  destruct r as [res|].
  - destruct H as (-> & _ & _ & _ & Hper & Hled & _). split.
    + assert (consumption_conserved (set_periods <[k := add_reserved
          (bc_estimated_micros cmd) (period_of db k)]> db)) as Hc'
        by by apply conserved_set_period.
      intros k'. specialize (Hc' k'). unfold period_of, ledger_settled in *. simpl in Hc'.
      rewrite Hper, Hc', Hled. destruct (existsb _ _); [done|]. rewrite Zsum_snoc.
      unfold settled_in at 3. rewrite bool_decide_eq_false_2 by naive_solver. lia.
    + intros k' Hk'. rewrite Hper, lookup_insert. case_decide as Hkk; [eauto|].
      apply elem_of_app in Hk' as [Hk'|Hk']; [auto|]. apply list_elem_of_singleton in Hk' as ->. by destruct Hkk.
  - destruct H as (_ & _ & Hper & Hled & _). split.
    + assert (consumption_conserved (set_periods <[k := period_of db k]> db)) as Hc'
        by by apply conserved_set_period.
      intros k'. specialize (Hc' k'). unfold period_of, ledger_settled in *.
      simpl in Hc'. by rewrite Hper, Hled.
    + intros k' Hk'. rewrite Hper, lookup_insert. case_decide; eauto.
Qed.

Lemma ledgered_reserve_loop ks cmd levels secured al :
  triple (ledgered (ks ++ (entry_key (bc_tenant_id cmd) <$> secured)))
    (reserve_loop uuid_at cmd levels secured al)
    (λ r, ledgered (ks ++ (entry_key (bc_tenant_id cmd) <$> r.1.1))) (λ _ _, True).
Proof.
  revert secured al. induction levels as [|l levels IH]; intros secured al; simpl.
  { by apply triple_ret. }
  eapply triple_bind; [apply ledgered_reserve_level|]. intros [[res|] al']; simpl.
  - eapply triple_consequence; [apply IH| |done|done]. intros db Hdb.
    by rewrite fmap_app, app_assoc.
  - by apply triple_ret.
Qed.

Lemma ledgered_compensate ks cmd reason entry :
  keeps (ledgered ks) (compensate_level uuid_at cmd reason entry).
Proof.
  unfold compensate_level. preserve.
  - by apply ledgered_update_keeps.
  - by apply ledgered_append.
Qed.

Lemma ledgered_reserve_body ks moment cmd :
  triple (ledgered ks) (reserve_body uuid_at moment cmd)
    (λ r, ledgered (ks ++ bundle_keys r.2)) (λ _ _, True).
Proof.
  unfold reserve_body. eapply triple_bind.
  { instantiate (1 := λ _, ledgered ks).
    change (keeps (ledgered ks) (applicable_levels moment cmd)).
    unfold applicable_levels. preserve. }
  intros levels. apply (triple_bind _
    (λ r, ledgered (ks ++ (entry_key (bc_tenant_id cmd) <$> r.1.1)))).
  { eapply triple_consequence; [apply (ledgered_reserve_loop ks cmd levels [] [])| |done|done].
    intros db. simpl. by rewrite app_nil_r. }
  intros [[secured al] [|]]; simpl.
  - eapply (triple_consequence (ledgered _) (ledgered ks) _ (λ r db, ledgered ks db ∧
      bb_entries r.2 = []));
      [|intros db; apply ledgered_weaken; set_solver| |done].
    2:{ intros [? b] db [? Hb]. unfold bundle_keys. simpl in *. by rewrite Hb, app_nil_r. }
    eapply triple_bind; [apply maintains_for_each; intros; apply ledgered_compensate|].
    intros ?. destruct (levels !! _); [|by apply triple_raise].
    eapply triple_bind; [apply ledgered_uuid7|]. intros rid.
    eapply triple_bind; [by apply ledgered_append|]. intros ?. by apply triple_ret.
  - apply triple_ret. by unfold bundle_keys.
Qed.

Lemma ledgered_contingency_loop ks cmd levels entries :
  triple (ledgered (ks ++ (entry_key (bc_tenant_id cmd) <$> entries)))
    (contingency_loop uuid_at cmd levels entries)
    (λ r, ledgered (ks ++ (entry_key (bc_tenant_id cmd) <$> default [] r))) (λ _ _, True).
Proof.
  revert entries. induction levels as [|l levels IH]; intros entries; simpl.
  { by apply triple_ret. }
  eapply triple_bind; [by apply ledgered_update|]. intros [|].
  - eapply triple_bind; [apply ledgered_uuid7|]. intros rid.
    eapply triple_bind; [by apply ledgered_append|]. intros ?.
    eapply triple_consequence; [apply IH| |done|done]. intros db.
    apply ledgered_weaken. rewrite fmap_app. simpl. set_solver.
  - apply triple_ret. intros db. apply ledgered_weaken. simpl. set_solver.
Qed.

(** A transaction body's postcondition survives when it commits; otherwise the
    precondition does. *)
Lemma triple_transaction {S E A} (P : S → Prop) (Q : A → S → Prop) fault (lost : E)
    (m : ST S E A) :
  triple P m Q (λ _ _, True) → (∀ a s, Q a s → P s) →
  triple P (transaction fault lost m) Q (λ _, P).
Proof.
  intros Hm HQ s Hs. unfold transaction. specialize (Hm s Hs).
  destruct (m s) as [[a|e] s']; [|done]. destruct fault; [done|done|by eapply HQ].
Qed.

Lemma ledgered_unknown_policy ks fault moment cmd :
  triple (ledgered ks) (apply_unknown_policy uuid_at fault moment cmd)
    (λ r, ledgered (ks ++ default [] (bundle_keys <$> r))) (λ _, ledgered ks).
Proof.
  unfold apply_unknown_policy. intros db Hdb. unfold try_catch.
  assert (∀ r : option BudgetReservationBundle, ∀ db', ledgered
    (ks ++ default [] (bundle_keys <$> r)) db' → ledgered ks db') as Hw.
  { intros r db'. apply ledgered_weaken. set_solver. }
  match goal with |- context [transaction fault ESql ?m] =>
    assert (triple (ledgered ks) (transaction fault ESql m)
      (λ r, ledgered (ks ++ default [] (bundle_keys <$> r))) (λ _, ledgered ks)) as Ht end.
  { apply triple_transaction; [|done]. eapply triple_bind.
    { instantiate (1 := λ _, ledgered ks).
      change (keeps (ledgered ks) (applicable_levels moment cmd)).
      unfold applicable_levels. preserve. }
    intros levels. destruct (filter _ levels) as [|l ls].
    { apply triple_ret. intros ?. simpl. by rewrite app_nil_r. }
    eapply triple_bind.
    { eapply triple_consequence; [apply (ledgered_contingency_loop ks cmd (l :: ls) [])|
        |intros a s Ha; exact Ha|done]. intros ?. simpl. by rewrite app_nil_r. }
    intros [es|]; apply triple_ret; done. }
  specialize (Ht db Hdb). destruct (transaction _ _ _ _) as [[r|e] db']; [done|].
  destruct e; try done. simpl. by rewrite app_nil_r.
Qed.

(** [reserve] keeps the ledger and the counters in step and returns only
    reservations whose period rows exist. *)
Lemma ledgered_reserve ks fault fault' moment moment' cmd :
  triple (ledgered ks) (reserve uuid_at fault fault' moment moment' cmd)
    (λ b, ledgered (ks ++ bundle_keys b)) (λ _, ledgered ks).
Proof.
  unfold reserve. apply (triple_bind _ (λ r, ledgered (ks ++ bundle_keys r.2))).
  - intros db Hdb. unfold try_catch.
    pose proof (triple_transaction (ledgered ks) _ fault ESql _
      (ledgered_reserve_body ks moment cmd)
      ltac:(intros ? ?; apply ledgered_weaken; set_solver) db Hdb) as Ht.
    destruct (transaction _ _ _ _) as [[r|e] db']; [done|]. destruct e; try done.
    pose proof (ledgered_unknown_policy ks fault' moment' cmd db' Ht) as Hu.
    unfold mbind, ST_mbind. destruct (apply_unknown_policy _ _ _ _ db') as [[[b|]|e] db2];
      simpl in *; rewrite ?app_nil_r in Hu; done.
  - intros [[|] b]; simpl; [apply triple_raise|by apply triple_ret].
    intros db. apply ledgered_weaken. set_solver.
Qed.
End Conservation.
