(* ===== verification/BudgetTheorems.v ===== *)
(** * Contracts of the budget service

    The theorems about [reserve], [settle], [release] and [adjust]: no run of
    the service overdraws a budget, the consumed counters agree with the
    ledger, a rejected attempt leaves no trace in the counters, a release undoes
    its reservation, a replayed settlement changes nothing, and the pure
    pricing and alert functions are exact on the ranges the tables allow. *)

From S2P Require Import Prelude PyNum Budgets BudgetsFacts.
Open Scope Z_scope.

(** ** Runs of the service *)
Section Runs.
Context (uuid_at : nat → uuid).

(** What a client can ask for; a settlement or a release names a bundle that
    [reserve] returned earlier. *)
Inductive budget_op :=
  | OpReserve (fault fault' : txn_fault) (moment moment' : instant) (cmd : BudgetCommand)
  | OpSettle (fault : txn_fault) (b : BudgetReservationBundle) (actual : option Z)
  | OpRelease (fault : txn_fault) (b : BudgetReservationBundle) (reason : string)
  | OpAdjust (fault : txn_fault) (moment : instant) (tenant budget : uuid) (delta : Z)
      (reason actor : string).

(** The database and the bundles handed out so far. *)
Definition budget_state : Type := BudgetDb * list BudgetReservationBundle.

Inductive budget_step : budget_state → budget_op → budget_state → Prop :=
  | step_reserve fault fault' m m' cmd db issued b db' :
      reserve uuid_at fault fault' m m' cmd db = (Ok b, db') →
      budget_step (db, issued) (OpReserve fault fault' m m' cmd) (db', b :: issued)
  | step_reserve_raise fault fault' m m' cmd db issued e db' :
      reserve uuid_at fault fault' m m' cmd db = (Raise e, db') →
      budget_step (db, issued) (OpReserve fault fault' m m' cmd) (db', issued)
  | step_settle fault b actual db issued r db' :
      b ∈ issued → settle uuid_at fault b actual db = (r, db') →
      budget_step (db, issued) (OpSettle fault b actual) (db', issued)
  | step_release fault b reason db issued r db' :
      b ∈ issued → release uuid_at fault b reason db = (r, db') →
      budget_step (db, issued) (OpRelease fault b reason) (db', issued)
  | step_adjust fault m t bid delta reason actor db issued r db' :
      adjust uuid_at fault m t bid delta reason actor db = (r, db') →
      budget_step (db, issued) (OpAdjust fault m t bid delta reason actor) (db', issued).

(** Operations that do not charge more than was reserved nor take allowance
    away; an administrator who does either lowers the limit below the usage. *)
Definition op_prudent (o : budget_op) : Prop :=
  match o with
  | OpSettle _ b (Some a) => ∀ e, e ∈ bb_entries b → a ≤ br_amount_micros e
  | OpAdjust _ _ _ _ delta _ _ => 0 ≤ delta
  | _ => True
  end.

Definition any_step (s s' : budget_state) : Prop := ∃ o, budget_step s o s'.
Definition prudent_step (s s' : budget_state) : Prop :=
  ∃ o, op_prudent o ∧ budget_step s o s'.

Lemma prudent_step_tracked bs s s' :
  prudent_step s s' → tracked bs s.1 → tracked bs s'.1.
Proof.
  intros (o & Ho & Hs) Hi. destruct Hs as
    [? ? ? ? ? ? ? ? ? H|? ? ? ? ? ? ? ? ? H|? b actual ? ? ? ? Hb H|? ? ? ? ? ? ? _ H|
     ? ? ? ? delta ? ? ? ? ? ? H]; simpl in *.
  1,2: by eapply preserves_result; [exact H|apply preserves_reserve|].
  - eapply preserves_result; [exact H|apply preserves_settle|done].
    intros e He. destruct actual; simpl; [by apply Ho|lia].
  - by eapply preserves_result; [exact H|apply preserves_release|].
  - by eapply preserves_result; [exact H|apply preserves_adjust|].
Qed.

(** A settlement of a reservation whose period row exists charges the ledger
    and the counter alike. *)
Lemma ledgered_settle_entry ks cmd actual e :
  entry_key (bc_tenant_id cmd) e ∈ ks →
  keeps (ledgered ks) (settle_entry uuid_at cmd actual e).
Proof.
  intros Hk. apply keeps_intro. intros db [] db' [Hc Hr] H. unfold settle_entry in H.
  apply bind_Ok in H as (i & db1 & Hi & H).
  apply append_ledger_run in Hi as [_ [(-> & _ & ->)|(-> & _ & ->)]].
  { by injection H as <-. }
  apply bind_Ok in H as (u & db2 & Hu & [= <-]). rewrite update_period_run in Hu. simpl in Hu.
  destruct (Hr _ Hk) as [ps Hps]. unfold entry_key in Hps. rewrite Hps in Hu.
  destruct (period_check _); [|done]. injection Hu as <- <-. split.
  - intros k'. rewrite period_of_insert. unfold ledger_settled. simpl. rewrite Zsum_snoc.
    specialize (Hc k'). unfold ledger_settled in Hc. unfold settled_in at 2. simpl.
    case_decide as Hkk.
    + rewrite bool_decide_eq_true_2 by done. subst k'. unfold period_of in Hc.
      rewrite Hps in Hc. simpl in *. lia.
    + rewrite bool_decide_eq_false_2 by naive_solver.
      change (period_of _ k') with (period_of db k'). lia.
  - intros k' Hk'. apply lookup_set_period_Some. by apply Hr.
Qed.

Lemma ledgered_release ks fault b reason :
  preserves (ledgered ks) (release uuid_at fault b reason).
Proof.
  unfold release, release_entry. preserve.
  - by apply ledgered_append.
  - by apply ledgered_update_keeps.
Qed.

Lemma ledgered_adjust ks fault m t bid delta reason actor :
  preserves (ledgered ks) (adjust uuid_at fault m t bid delta reason actor).
Proof.
  unfold adjust. preserve.
  - apply ledgered_ensure.
  - by apply ledgered_update_keeps.
  - apply ledgered_uuid7.
  - by apply ledgered_append.
Qed.

(** The keys of the bundles handed out. *)
Definition issued_keys (issued : list BudgetReservationBundle) : list period_id :=
  issued ≫= bundle_keys.

Lemma any_step_ledgered s s' :
  any_step s s' → ledgered (issued_keys s.2) s.1 → ledgered (issued_keys s'.2) s'.1.
Proof.
  intros (o & Hs) Hi. destruct Hs as
    [fault fault' m m' cmd ? issued b ? H|fault fault' m m' cmd ? ? ? ? H|? b actual ? issued ? ? Hb H|
     ? ? ? ? ? ? ? _ H|? ? ? ? delta ? ? ? ? ? ? H]; simpl in *.
  - pose proof (ledgered_reserve uuid_at _ fault fault' m m' cmd _ Hi) as Hr. rewrite H in Hr.
    revert Hr. apply ledgered_weaken. set_solver.
  - pose proof (ledgered_reserve uuid_at _ fault fault' m m' cmd _ Hi) as Hr. by rewrite H in Hr.
  - eapply preserves_result; [exact H| |done].
    unfold settle. preserve. apply ledgered_settle_entry.
    apply list_elem_of_bind. exists b. split; [|done]. apply list_elem_of_fmap. eauto.
  - by eapply preserves_result; [exact H|apply ledgered_release|].
  - by eapply preserves_result; [exact H|apply ledgered_adjust|].
Qed.
End Runs.

(** ** What the reservation loop holds *)

(** The amount that the entries hold in one period. *)
Definition held (tenant : uuid) (es : list BudgetReservation) (k : period_id) : Z :=
  Zsum (λ e, if bool_decide (entry_key tenant e = k) then br_amount_micros e else 0) es.

#[local] Arguments held : simpl never.

(** The counters of a period with [d] added to what is reserved. *)
Definition bump (d : Z) (c : Z * Z * Z * Z) : Z * Z * Z * Z :=
  let '(r, u, a, q) := c in (r + d, u, a, q).

#[local] Arguments bump : simpl never.

Lemma bump_0 c : bump 0 c = c.
Proof. destruct c as [[[r u] a] q]. unfold bump. by rewrite Z.add_0_r. Qed.

Lemma bump_bump d1 d2 c : bump d1 (bump d2 c) = bump (d2 + d1) c.
Proof. destruct c as [[[r u] a] q]. unfold bump. by rewrite Z.add_assoc. Qed.

Lemma held_nil t k : held t [] k = 0.
Proof. done. Qed.

Lemma held_cons t e es k :
  held t (e :: es) k = (if bool_decide (entry_key t e = k) then br_amount_micros e else 0)
                       + held t es k.
Proof. done. Qed.

Lemma held_nonneg t es k : (∀ e, e ∈ es → 0 ≤ br_amount_micros e) → 0 ≤ held t es k.
Proof. intros He. apply Zsum_nonneg. intros e Hin. case_bool_decide; [by apply He|done]. Qed.

(** Adding to the reserved counter of one row, seen from every period. *)
Lemma counters_add_reserved db k d ps :
  periods db !! k = Some ps ∨ ps = period_of db k →
  ∀ k', counters (period_of (set_periods <[k := add_reserved d ps]> db) k') =
        bump (if bool_decide (k = k') then d else 0) (counters (period_of db k')).
Proof.
  intros Hps k'. assert (ps = period_of db k) as ->.
  { destruct Hps as [H|H]; [|done]. unfold period_of. by rewrite H. }
  rewrite period_of_insert. case_decide as Hk; case_bool_decide; try done.
  - by subst k'.
  - by rewrite bump_0.
Qed.

Section Loop.
Context (uuid_at : nat → uuid) (cmd : BudgetCommand).
Let t := bc_tenant_id cmd.
Let est := bc_estimated_micros cmd.

(** The entry the loop builds for a level from the [n]-th identifier drawn. *)
Definition secures (level : Level) (e : BudgetReservation) : Prop :=
  br_budget_id e = lv_budget_id level ∧ br_scope e = lv_scope level ∧
  br_period_key e = lv_period_key level ∧ br_amount_micros e = est ∧
  br_contingency e = false.

(** The effect of the loop on levels [levels] started with [secured]: it adds
    one entry per level it secures; the counters of every period move by what
    the new entries hold; nothing else of the counters changes. *)
Record loop_effect (levels : list Level) (added : list BudgetReservation) (rej : bool)
    (db db' : BudgetDb) : Prop := {
  le_secures : Forall2 secures (take (length added) levels) added;
  le_counters : ∀ k, counters (period_of db' k) =
                     bump (held t added k) (counters (period_of db k));
  le_rows : ∀ k, is_Some (periods db !! k) → is_Some (periods db' !! k);
  le_rows_added : ∀ e, e ∈ added → is_Some (periods db' !! entry_key t e);
  le_budgets : budgets db' = budgets db;
  le_ledger : ∃ rows, ledger db' = ledger db ++ rows ∧
                ∀ r, r ∈ rows → lr_entry_type r = RESERVE ∧
                  ∃ i, (drawn db ≤ i < drawn db')%nat ∧ lr_reserve_id r = uuid_at i;
  le_drawn : (drawn db ≤ drawn db')%nat;
  le_ids : ∃ ixs, br_ledger_entry_id <$> added = uuid_at <$> ixs ∧ NoDup ixs ∧
             ∀ i, i ∈ ixs → (drawn db ≤ i < drawn db')%nat;
  le_est : added ≠ [] → 0 ≤ est;
  le_stop : if rej then ∃ level, levels !! length added = Some level ∧
              let ps := period_of db' (t, lv_budget_id level, lv_period_key level) in
              lv_limit_micros level + ps_allowance ps < ps_reserved ps + ps_consumed ps + est
            else length added = length levels;
}.

Lemma reserve_loop_effect levels secured al db secured' al' rej db' :
  reserve_loop uuid_at cmd levels secured al db = (Ok (secured', al', rej), db') →
  ∃ added, secured' = secured ++ added ∧ loop_effect levels added rej db db'.
Proof.
  revert secured al db. induction levels as [|l levels IH]; intros secured al db H; simpl in H.
  { injection H as <- <- <- <-. exists []. split; [by rewrite app_nil_r|].
    split; simpl; try done.
    - intros k. by rewrite held_nil, bump_0.
    - intros e He. by apply elem_of_nil in He.
    - exists []. rewrite app_nil_r. split; [done|]. by intros r ?%elem_of_nil.
    - exists []. split; [done|]. split; [constructor|]. intros i Hi.
      by apply elem_of_nil in Hi. }
  apply bind_Ok in H as ([r al1] & db1 & Hr & H). apply reserve_level_run in Hr.
  set (k := (bc_tenant_id cmd, lv_budget_id l, lv_period_key l)) in *. simpl in H.
  destruct r as [res|].
  - destruct Hr as (-> & Hle & Hest & Hpc & Hper & Hled & Hbud & Hdr).
    apply IH in H as (added & -> & He).
    set (e := reservation_at uuid_at l cmd (drawn db)) in *.
    exists (e :: added). split; [by rewrite <- app_assoc|].
    assert (∀ k', counters (period_of db1 k') =
              bump (if bool_decide (k = k') then est else 0) (counters (period_of db k')))
      as Hc1.
    { intros k'. rewrite <- (counters_add_reserved db k est (period_of db k)) by auto.
      unfold period_of at 1. by rewrite Hper. }
    destruct He. split; simpl; try done.
    + constructor; [|done]. repeat split.
    + intros k'. rewrite le_counters0, Hc1, bump_bump, held_cons. done.
    + intros k' Hk'. apply le_rows0. rewrite Hper, lookup_insert. by case_decide; eauto.
    + intros e' [->|He']%elem_of_cons; [|by apply le_rows_added0].
      apply le_rows0. rewrite Hper. unfold entry_key. simpl.
      rewrite lookup_insert_eq. eauto.
    + by rewrite le_budgets0.
    + destruct le_ledger0 as (rows & -> & Hrows). rewrite Hled.
      destruct (existsb _ _).
      * exists rows. split; [done|]. intros r Hr. destruct (Hrows r Hr) as (? & i & ? & ?).
        split; [done|]. exists i. split; [lia|done].
      * exists (reserve_row uuid_at l cmd (drawn db) :: rows).
        split; [by rewrite <- app_assoc|]. intros r [->|Hr]%elem_of_cons.
        -- split; [done|]. exists (drawn db). split; [lia|done].
        -- destruct (Hrows r Hr) as (? & i & ? & ?). split; [done|]. exists i. split; [lia|done].
    + lia.
    + destruct le_ids0 as (ixs & His & Hnd & Hb). exists (drawn db :: ixs).
      split; [by rewrite fmap_cons, <- His|]. split.
      * constructor; [|done]. intros Hin%Hb. lia.
      * intros i [->|Hi]%elem_of_cons; [lia|]. apply Hb in Hi. lia.
    + destruct rej; [done|]. by f_equal.
  - injection H as <- <- <- <-. destruct Hr as (_ & Hlt & Hper & Hled & _ & Hbud & Hdr).
    exists []. split; [by rewrite app_nil_r|].
    assert (∀ k', period_of db1 k' = period_of db k') as Hp.
    { intros k'. unfold period_of at 1. rewrite Hper, lookup_insert. case_decide; [|done].
      by subst k'. }
    split; simpl; try done.
    + intros k'. by rewrite held_nil, bump_0, Hp.
    + intros k' Hk'. rewrite Hper, lookup_insert. by case_decide; eauto.
    + intros e He. by apply elem_of_nil in He.
    + exists []. rewrite app_nil_r. split; [done|]. by intros r ?%elem_of_nil.
    + lia.
    + exists []. split; [done|]. split; [constructor|]. intros i Hi. by apply elem_of_nil in Hi.
    + exists l. split; [done|]. fold t in k. change (t, lv_budget_id l, lv_period_key l) with k.
      by rewrite Hp.
Qed.

(** Compensating entries whose rows exist takes exactly what they hold. *)
Lemma compensate_effect reason es db db' :
  for_each (compensate_level uuid_at cmd reason) es db = (Ok tt, db') →
  (∀ e, e ∈ es → is_Some (periods db !! entry_key t e)) →
  (∀ k, counters (period_of db' k) = bump (- held t es k) (counters (period_of db k))) ∧
  budgets db' = budgets db.
Proof.
  revert db. induction es as [|e es IH]; intros db H Hrows; simpl in H.
  { injection H as <-. split; [|done]. intros k. by rewrite held_nil, bump_0. }
  apply bind_Ok in H as ([] & db1 & He & H). unfold compensate_level in He.
  apply bind_Ok in He as (u & db2 & Hu & He). apply bind_Ok in He as (i & db3 & Hi & [= <-]).
  rewrite update_period_run in Hu. destruct (Hrows e) as [ps Hps]; [set_solver|].
  unfold entry_key in Hps. fold t in Hu. rewrite Hps in Hu.
  destruct (period_check _); [|done]. injection Hu as <- <-.
  apply append_ledger_run in Hi as [_ Hi].
  assert (periods db3 = <[entry_key t e := add_reserved (- br_amount_micros e) ps]> (periods db)
          ∧ budgets db3 = budgets db) as [Hp Hb].
  { by destruct Hi as [(_ & _ & ->)|(_ & _ & ->)]. }
  apply IH in H as [Hc Hb'].
  - split; [|congruence]. intros k. rewrite Hc, held_cons.
    unfold period_of at 1. rewrite Hp.
    change (default period_default _) with
      (period_of (set_periods <[entry_key t e := add_reserved (- br_amount_micros e) ps]> db) k).
    rewrite counters_add_reserved by auto. rewrite bump_bump. f_equal.
    case_bool_decide; lia.
  - intros e' He'. rewrite Hp, lookup_insert. case_decide; [eauto|]. apply Hrows. set_solver.
Qed.
End Loop.

(** ** The exceptions of [reserve] *)
Definition raises {S E A} (P : E → Prop) (m : ST S E A) : Prop :=
  maintains (λ e _, P e) (λ _, True) m.

Section Exceptions.
Context (uuid_at : nat → uuid).

Lemma raises_update_period k cond f : raises (λ e, e ≠ BudgetExceeded) (update_period k cond f).
Proof. unfold raises, update_period. preserve. by apply maintains_modify. Qed.

Lemma raises_append_ledger cmd bid pk t amt rid cont reason actor :
  raises (λ e, e ≠ BudgetExceeded)
    (append_ledger uuid_at cmd bid pk t amt rid cont reason actor).
Proof. unfold raises, append_ledger, uuid7. preserve; by apply maintains_modify. Qed.

Lemma levels_of_raises cmd m rows e : levels_of cmd m rows = Raise e → e ≠ BudgetExceeded.
Proof.
  induction rows as [|b rows IH]; simpl; [done|].
  assert (∀ e', period_key_for (bg_scope b) m (bc_execution_id cmd) = Raise e' →
            e' ≠ BudgetExceeded) as Hk
    by (intros e'; unfold period_key_for; repeat case_match; congruence).
  repeat case_match; intros ?; simplify_eq; eauto.
Qed.

Lemma raises_applicable_levels m cmd :
  raises (λ e, e ≠ BudgetExceeded) (applicable_levels m cmd).
Proof.
  unfold raises, applicable_levels. apply maintains_bind; [preserve|]. intros rows.
  destruct (levels_of _ _ _) eqn:H; [preserve|]. apply maintains_raise. intros _ _.
  by eapply levels_of_raises.
Qed.

Lemma raises_reserve_level level cmd :
  raises (λ e, e ≠ BudgetExceeded) (reserve_level uuid_at level cmd).
Proof.
  intros db _. destruct (reserve_level _ _ _ _) as [[|e] db'] eqn:H; [done|].
  apply reserve_level_raise in H as ->. done.
Qed.

Lemma raises_reserve_body m cmd :
  raises (λ e, e ≠ BudgetExceeded) (reserve_body uuid_at m cmd).
Proof.
  unfold raises, reserve_body, compensate_level, uuid7. preserve.
  - apply raises_applicable_levels.
  - generalize (@nil BudgetReservation) (@nil string). rename a into levels.
    induction levels as [|l levels IH]; intros es al; simpl; preserve.
    apply raises_reserve_level.
  - apply raises_update_period.
  - apply raises_append_ledger.
  - by apply maintains_modify.
  - apply raises_append_ledger.
Qed.

Lemma raises_contingency_loop cmd levels entries :
  raises (λ e, e ≠ BudgetExceeded) (contingency_loop uuid_at cmd levels entries).
Proof.
  unfold raises. revert entries. induction levels as [|l levels IH]; intros es; simpl;
    unfold uuid7; preserve.
  - apply raises_update_period.
  - by apply maintains_modify.
  - apply raises_append_ledger.
Qed.

Lemma unknown_policy_not_exceeded fault m cmd db e db' :
  apply_unknown_policy uuid_at fault m cmd db = (Raise e, db') → e ≠ BudgetExceeded.
Proof.
  unfold apply_unknown_policy, try_catch.
  destruct (transaction _ _ _ _) as [[r|e'] db1] eqn:H; [congruence|].
  intros He. assert (e' ≠ BudgetExceeded) as Hne; [|destruct e'; naive_solver].
  unfold transaction in H.
  match type of H with match ?m db with _ => _ end = _ =>
    assert (raises (λ e, e ≠ BudgetExceeded) m) as Hm end.
  { unfold raises. preserve.
    - apply raises_applicable_levels.
    - apply raises_contingency_loop. }
  specialize (Hm db I).
  match type of H with match ?m with _ => _ end = _ => destruct m as [[]?] end.
  - destruct fault; congruence.
  - congruence.
Qed.

(** A run of [reserve] that raises [BudgetExceeded] ran its transaction to the
    end with the rejection flag set. *)
Lemma reserve_exceeded_inv fault fault' m m' cmd db db' :
  reserve uuid_at fault fault' m m' cmd db = (Raise BudgetExceeded, db') →
  ∃ b, reserve_body uuid_at m cmd db = (Ok (true, b), db') ∧ fault = NoFault.
Proof.
  unfold reserve, mbind at 1, ST_mbind at 1, try_catch.
  pose proof (raises_reserve_body m cmd db I) as Hne.
  destruct (transaction _ _ _ _) as [[[rej b]|e] db1] eqn:Ht.
  - apply transaction_Ok in Ht as [-> Ht]. destruct rej; simpl; intros [= <-]; eauto.
  - assert (e ≠ BudgetExceeded).
    { unfold transaction in Ht. destruct (reserve_body uuid_at m cmd db) as [[]?];
        [destruct fault|]; congruence. }
    unfold mbind, ST_mbind, raise, mret, ST_mret. destruct e; try congruence.
    destruct (apply_unknown_policy _ _ _ _ _) as [[[b|]|e] db2] eqn:Hu; simpl; try congruence.
    apply unknown_policy_not_exceeded in Hu. congruence.
Qed.

(** A run that returns either committed its transaction without a rejection or
    came back from the recovery path. *)
Lemma reserve_ok_inv fault fault' m m' cmd db b db' :
  reserve uuid_at fault fault' m m' cmd db = (Ok b, db') →
  (fault = NoFault ∧ reserve_body uuid_at m cmd db = (Ok (false, b), db')) ∨
  (∃ db1, apply_unknown_policy uuid_at fault' m' cmd db1 = (Ok (Some b), db')).
Proof.
  unfold reserve, mbind at 1, ST_mbind at 1, try_catch.
  destruct (transaction _ _ _ _) as [[[rej b']|e] db1] eqn:Ht.
  - apply transaction_Ok in Ht as [-> Ht]. destruct rej; simpl; intros [= <- <-]; auto.
  - unfold mbind, ST_mbind, raise, mret, ST_mret. destruct e; try congruence.
    destruct (apply_unknown_policy _ _ _ _ _) as [[[b'|]|e] db2] eqn:Hu; simpl; try congruence.
    intros [= <- <-]. eauto.
Qed.
End Exceptions.

(** ** Levels are distinct budgets *)
Lemma levels_of_ids cmd m rows ls :
  levels_of cmd m rows = Ok ls → sublist (lv_budget_id <$> ls) (bg_id <$> rows).
Proof.
  revert ls. induction rows as [|b rows IH]; simpl; intros ls H.
  { by injection H as <-. }
  destruct (levels_of cmd m rows) as [rest|] eqn:Hr.
  - specialize (IH rest eq_refl).
    repeat case_match; simplify_eq; simpl; by constructor.
  - repeat case_match; simplify_eq.
Qed.

Lemma applicable_levels_NoDup m cmd db levels db' :
  db_wf db → applicable_levels m cmd db = (Ok levels, db') → NoDup (lv_budget_id <$> levels).
Proof.
  intros Hwf H. apply applicable_levels_run in H as (_ & H & _).
  eapply sublist_NoDup; [|by eapply levels_of_ids]. pose proof (wf_ids _ Hwf) as Hnd. clear -Hnd.
  induction (budgets db) as [|b bs IH]; [constructor|]. simpl in Hnd.
  apply NoDup_cons in Hnd as [Hb Hnd]. rewrite filter_cons. case_decide as Ht; [|by apply IH].
  simpl. constructor; [|by apply IH]. intros (b' & Hid & Hb')%list_elem_of_fmap. apply Hb.
  apply list_elem_of_filter in Hb' as [Ht' Hb']. apply list_elem_of_fmap. exists b'.
  split; [|done]. by rewrite Hid, Ht, Ht'.
Qed.

(** Usage within the limit, seen through the counters. *)
Definition usage_within (limit : Z) (c : Z * Z * Z * Z) : Prop :=
  let '(r, u, a, _) := c in r + u ≤ limit + a.

Lemma held_other t es k : (∀ e, e ∈ es → entry_key t e ≠ k) → held t es k = 0.
Proof.
  induction es as [|e es IH]; intros He; [done|]. rewrite held_cons, IH by set_solver.
  rewrite bool_decide_eq_false_2 by (apply He; set_solver). done.
Qed.

Lemma secures_keys cmd levels es e :
  Forall2 (secures cmd) levels es → e ∈ es → br_budget_id e ∈ lv_budget_id <$> levels.
Proof.
  intros H. induction H as [|l e' ls es' Hs _ IH]; [set_solver|].
  intros [->|He]%elem_of_cons; [|set_solver]. destruct Hs as [-> _]. set_solver.
Qed.

Lemma reserve_loop_within uuid_at cmd levels secured al db secured' al' db' :
  NoDup (lv_budget_id <$> levels) →
  reserve_loop uuid_at cmd levels secured al db = (Ok (secured', al', false), db') →
  ∀ l, l ∈ levels → usage_within (lv_limit_micros l)
    (counters (period_of db' (bc_tenant_id cmd, lv_budget_id l, lv_period_key l))).
Proof.
  revert secured al db. induction levels as [|l levels IH]; intros secured al db Hnd H l' Hl'.
  { by apply elem_of_nil in Hl'. }
  simpl in H. apply bind_Ok in H as ([r al1] & db1 & Hr & H). apply reserve_level_run in Hr.
  simpl in H. destruct r as [res|]; [|done].
  simpl in Hnd. apply NoDup_cons in Hnd as [Hl Hnd].
  apply elem_of_cons in Hl' as [->|Hl']; [|by eapply IH].
  apply reserve_loop_effect in H as (added & -> & He). destruct He.
  rewrite le_counters0, held_other.
  - destruct Hr as (_ & Hle & _ & _ & Hper & _). rewrite bump_0. unfold period_of at 1.
    rewrite Hper, lookup_insert_eq. simpl. lia.
  - intros e He Hk. apply Hl.
    assert (br_budget_id e = lv_budget_id l) as <- by by injection Hk.
    apply (secures_keys cmd levels added); [|done].
    rewrite le_stop0, firstn_all in le_secures0. done.
Qed.

(** Every entry of a recovered bundle is flagged as a contingency draw. *)
Lemma recovery_is_contingency uuid_at fault m cmd db b db' :
  apply_unknown_policy uuid_at fault m cmd db = (Ok (Some b), db') →
  ∀ e, e ∈ bb_entries b → br_contingency e = true.
Proof.
  unfold apply_unknown_policy, try_catch. intros H.
  destruct (transaction _ _ _ _) as [[r|[]] db2] eqn:Ht; try done.
  injection H as -> <-. apply transaction_Ok in Ht as [_ Ht].
  apply bind_Ok in Ht as (levels & db3 & _ & Ht). destruct (filter _ levels) as [|l ls]; [done|].
  apply bind_Ok in Ht as (es & db4 & Hes & Ht). destruct es as [es|]; [|done].
  injection Ht as <- <-. simpl. revert Hes.
  assert (∀ e, e ∈ @nil BudgetReservation → br_contingency e = true) as Hnil
    by by intros e ?%elem_of_nil.
  revert Hnil. generalize (@nil BudgetReservation) (l :: ls). intros acc ls' Hacc.
  revert acc Hacc db3. induction ls' as [|l' ls' IH]; intros acc Hacc db3 Hes; simpl in Hes.
  { by injection Hes as <- <-. }
  apply bind_Ok in Hes as ([|] & ? & _ & Hes); [|done].
  apply bind_Ok in Hes as (? & ? & _ & Hes). apply bind_Ok in Hes as (? & ? & _ & Hes).
  eapply IH; [|exact Hes]. intros e [?| ->%list_elem_of_singleton]%elem_of_app; auto.
Qed.

(** ** The contracts *)


(** Consumption is what the ledger says.  Along every run of the service in
    which settlements and releases name bundles that were handed out, the
    consumed counter of every period equals the sum of the SETTLE entries of
    that period in the append-only ledger. *)
Theorem consumed_matches_ledger uuid_at db db' issued' :
  consumption_conserved db →
  rtc (any_step uuid_at) (db, []) (db', issued') →
  ∀ k, ps_consumed (period_of db' k) = ledger_settled db' k.
Proof.
  intros Hc Hrun.
  assert (ledgered (issued_keys (db', issued').2) (db', issued').1) as [? _]; [|done].
  remember (db, @nil BudgetReservationBundle) as s eqn:Hs0.
  assert (ledgered (issued_keys s.2) s.1) as Hl
    by (subst s; split; [done|]; by intros k ?%elem_of_nil).
  clear Hs0 Hc.
  induction Hrun as [|s1 s2 s3 Hs _ IH]; [done|]. apply IH. by eapply any_step_ledgered.
Qed.

(** What a successful reservation promises.  A bundle that [reserve] returns
    either comes from the contingency recovery, with every entry flagged so, or
    has exactly one entry per applicable level, each for the full estimate;
    then every one of those levels is within its limit, and the counters of each
    period moved by exactly what the bundle holds there. *)
Theorem reserve_secures_every_level uuid_at fault fault' m m' cmd db b db' :
  db_wf db →
  reserve uuid_at fault fault' m m' cmd db = (Ok b, db') →
  (∀ e, e ∈ bb_entries b → br_contingency e = true) ∨
  (∃ levels, applicable_levels m cmd db = (Ok levels, db) ∧
     Forall2 (secures cmd) levels (bb_entries b) ∧
     (∀ l, l ∈ levels → usage_within (lv_limit_micros l)
        (counters (period_of db' (bc_tenant_id cmd, lv_budget_id l, lv_period_key l)))) ∧
     ∀ k, counters (period_of db' k) =
          bump (held (bc_tenant_id cmd) (bb_entries b) k) (counters (period_of db k))).
Proof.
  intros Hwf [[-> H]|[db1 H]]%reserve_ok_inv.
  - right. unfold reserve_body in H. apply bind_Ok in H as (levels & db1 & Hl & H).
    pose proof (applicable_levels_NoDup _ _ _ _ _ Hwf Hl) as Hnd.
    pose proof (applicable_levels_run _ _ _ _ _ Hl) as (-> & _ & _).
    apply bind_Ok in H as ([[secured al] rej] & db2 & Hloop & H). destruct rej.
    { apply bind_Ok in H as (? & ? & _ & H). destruct (levels !! _); [|done].
      apply bind_Ok in H as (? & ? & _ & H). by apply bind_Ok in H as (? & ? & _ & [=]). }
    injection H as <- <-. simpl. exists levels. split; [done|].
    pose proof (reserve_loop_within _ _ _ _ _ _ _ _ _ Hnd Hloop) as Hw.
    apply reserve_loop_effect in Hloop as (added & -> & []).
    rewrite le_stop0, firstn_all in le_secures0. done.
  - left. by eapply recovery_is_contingency.
Qed.

(** A rejected reservation holds nothing.  When [reserve] raises
    [BudgetExceeded], its transaction has committed the evidence (a REJECT
    entry of the ledger for the level that refused) and every counter of every
    period is what it was before the attempt. *)
Theorem rejected_reserve_holds_nothing uuid_at fault fault' m m' cmd db db' :
  reserve uuid_at fault fault' m m' cmd db = (Raise BudgetExceeded, db') →
  (∀ k, counters (period_of db' k) = counters (period_of db k)) ∧
  ∃ r, r ∈ ledger db' ∧ lr_entry_type r = REJECTED ∧ lr_tenant_id r = bc_tenant_id cmd.
Proof.
  intros (b & H & _)%reserve_exceeded_inv. unfold reserve_body in H.
  apply bind_Ok in H as (levels & db1 & Hl & H).
  apply applicable_levels_run in Hl as (-> & _ & _).
  apply bind_Ok in H as ([[secured al] rej] & db2 & Hloop & H). destruct rej; [|done].
  apply bind_Ok in H as ([] & db3 & Hcomp & H). destruct (levels !! _) as [l|]; [|done].
  apply bind_Ok in H as (rid & db4 & Hrid & H). apply bind_Ok in H as (i & db5 & Happ & [= _ <-]).
  apply reserve_loop_effect in Hloop as (added & -> & []). simpl in *.
  apply compensate_effect in Hcomp as [Hc _]; [|done]. injection Hrid as <- <-.
  apply append_ledger_run in Happ as [_ Happ]. split.
  - intros k.
    assert (period_of db5 k = period_of db3 k) as ->
      by by destruct Happ as [(_ & _ & ->)|(_ & _ & ->)].
    rewrite Hc, le_counters0, bump_bump. rewrite Z.add_opp_diag_r. apply bump_0.
  - destruct Happ as [(_ & He & ->)|(_ & _ & ->)].
    + apply existsb_exists in He as (r & Hr & Hs). exists r. apply list_elem_of_In in Hr.
      unfold same_entry in Hs. simpl in *. split; [done|].
      repeat (apply andb_true_iff in Hs as [Hs ?]). by repeat case_bool_decide.
    + eexists. simpl. split; [apply elem_of_app; right; by apply list_elem_of_singleton|done].
Qed.

(** ** Replays *)
Lemma ledger_check_intro r :
  0 ≤ lr_amount_micros r < 2 ^ 63 → (String.length (lr_reason r) ≤ 500)%nat →
  (1 ≤ String.length (lr_actor r) ≤ 256)%nat → ledger_check r = true.
Proof.
  intros. unfold ledger_check, bigint. rewrite !andb_true_iff, !Nat.leb_le, !Z.leb_le, Z.ltb_lt.
  lia.
Qed.

Section Replay.
Context (uuid_at : nat → uuid).

(** The entry of type [t] for the reservation [e] is in the ledger. *)
Definition has_entry (cmd : BudgetCommand) (t : entry_type) (e : BudgetReservation)
    (db : BudgetDb) : Prop :=
  ∃ r, r ∈ ledger db ∧ lr_tenant_id r = bc_tenant_id cmd ∧ lr_budget_id r = br_budget_id e ∧
       lr_period_key r = br_period_key e ∧ lr_reserve_id r = br_ledger_entry_id e ∧
       lr_entry_type r = t.

Lemma same_entry_spec r1 r2 :
  same_entry r1 r2 = true ↔
  lr_tenant_id r1 = lr_tenant_id r2 ∧ lr_budget_id r1 = lr_budget_id r2 ∧
  lr_period_key r1 = lr_period_key r2 ∧ lr_reserve_id r1 = lr_reserve_id r2 ∧
  lr_entry_type r1 = lr_entry_type r2.
Proof. unfold same_entry. rewrite !andb_true_iff, !bool_decide_eq_true. tauto. Qed.

Lemma existsb_same_entry row db :
  existsb (same_entry row) (ledger db) = true ↔
  ∃ r, r ∈ ledger db ∧ same_entry row r = true.
Proof. rewrite existsb_exists. by setoid_rewrite list_elem_of_In. Qed.

(** After an append the entry is there, and a second append with the same
    amount finds it. *)
Lemma append_ledger_has cmd e t amt cont reason actor db r db' :
  append_ledger uuid_at cmd (br_budget_id e) (br_period_key e) t amt (br_ledger_entry_id e)
    cont reason actor db = (Ok r, db') → has_entry cmd t e db'.
Proof.
  intros [_ [(_ & He & ->)|(_ & _ & ->)]]%append_ledger_run.
  - apply existsb_same_entry in He as (r' & Hr' & Hs). apply same_entry_spec in Hs.
    exists r'. simpl in *. naive_solver.
  - eexists. split; [simpl; apply elem_of_app; right; by apply list_elem_of_singleton|done].
Qed.

Lemma append_ledger_again cmd e t amt cont reason actor db :
  has_entry cmd t e db → 0 ≤ amt < 2 ^ 63 → (String.length reason ≤ 500)%nat →
  (1 ≤ String.length actor ≤ 256)%nat →
  append_ledger uuid_at cmd (br_budget_id e) (br_period_key e) t amt (br_ledger_entry_id e)
    cont reason actor db = (Ok false, set_drawn (S (drawn db)) db).
Proof.
  intros (r & Hr & Ht & Hb & Hp & Hi & Hty) Hamt Hrs Hac.
  unfold append_ledger, uuid7, gets, modify, raise, mbind, ST_mbind, mret, ST_mret. simpl.
  rewrite ledger_check_intro by done.
  replace (existsb _ _) with true; [done|]. symmetry. apply existsb_same_entry.
  exists r. split; [done|]. apply same_entry_spec. simpl. naive_solver.
Qed.

Lemma settle_entry_grows cmd actual e db db' :
  settle_entry uuid_at cmd actual e db = (Ok tt, db') →
  has_entry cmd SETTLE e db' ∧ 0 ≤ default (br_amount_micros e) actual < 2 ^ 63 ∧
  ∀ t e', has_entry cmd t e' db → has_entry cmd t e' db'.
Proof.
  intros H. unfold settle_entry in H. apply bind_Ok in H as (i & db1 & Hi & H).
  pose proof (append_ledger_has _ _ _ _ _ _ _ _ _ _ Hi) as Hhas.
  pose proof Hi as Hrun. apply append_ledger_run in Hrun as [Hchk Hrun].
  assert (ledger db' = ledger db1) as Hl.
  { destruct i; [|by injection H as <-]. apply bind_Ok in H as (u & db2 & Hu & [= <-]).
    rewrite update_period_run in Hu. by repeat case_match; simplify_eq. }
  assert (∃ rows, ledger db1 = ledger db ++ rows) as [rows Hrows].
  { destruct Hrun as [(_ & _ & ->)|(_ & _ & ->)]; simpl; eauto.
    exists []. by rewrite app_nil_r. }
  split; [destruct Hhas as (r & Hr & ?); exists r; by rewrite Hl|]. split.
  - unfold ledger_check, bigint in Hchk. simpl in Hchk. lia.
  - intros t e' (r & Hr & ?). exists r. split; [|done]. rewrite Hl, Hrows.
    apply elem_of_app. by left.
Qed.

Lemma settle_loop_has cmd actual es db db' :
  for_each (settle_entry uuid_at cmd actual) es db = (Ok tt, db') →
  (∀ e, e ∈ es → has_entry cmd SETTLE e db' ∧
                 0 ≤ default (br_amount_micros e) actual < 2 ^ 63) ∧
  ∀ t e', has_entry cmd t e' db → has_entry cmd t e' db'.
Proof.
  revert db. induction es as [|e es IH]; intros db H; simpl in H.
  { injection H as <-. split; [by intros ? ?%elem_of_nil|done]. }
  apply bind_Ok in H as ([] & db1 & He & H).
  apply settle_entry_grows in He as (Hhas & Hamt & Hmono). apply IH in H as [Hes Hmono'].
  split; [|by auto]. intros e' [->|He']%elem_of_cons; auto.
Qed.

Lemma settle_loop_again cmd actual es db :
  (∀ e, e ∈ es → has_entry cmd SETTLE e db ∧
                 0 ≤ default (br_amount_micros e) actual < 2 ^ 63) →
  ∃ n, for_each (settle_entry uuid_at cmd actual) es db = (Ok tt, set_drawn n db).
Proof.
  revert db. induction es as [|e es IH]; intros db Hes; simpl.
  { exists (drawn db). by destruct db. }
  destruct (Hes e) as [Hhas Hamt]; [set_solver|].
  unfold mbind, ST_mbind, settle_entry at 1, mbind, ST_mbind.
  rewrite append_ledger_again by (done || simpl; lia). unfold mret, ST_mret.
  destruct (IH (set_drawn (S (drawn db)) db)) as [n Hn].
  { intros e' He'. destruct (Hes e') as [(r & ?) ?]; [set_solver|]. split; [by exists r|done]. }
  exists n. rewrite Hn. done.
Qed.

(** Settling is idempotent.  Once a settlement has committed, repeating it
    with the same bundle and the same amount, however its connection fares,
    leaves the period counters, the alerts and the ledger exactly as they
    are; with a healthy connection the replay returns normally. *)
Theorem settle_replay_changes_nothing bundle actual db db1 fault r db2 :
  settle uuid_at NoFault bundle actual db = (Ok tt, db1) →
  settle uuid_at fault bundle actual db1 = (r, db2) →
  periods db2 = periods db1 ∧ alerts db2 = alerts db1 ∧ ledger db2 = ledger db1 ∧
  (fault = NoFault → r = Ok tt).
Proof.
  unfold settle at 1. intros [_ H]%transaction_Ok H2.
  apply settle_loop_has in H as [Hes _].
  apply settle_loop_again in Hes as [n Hn]. unfold settle, transaction in H2.
  rewrite Hn in H2. destruct fault; simplify_eq; done.
Qed.
End Replay.

(** ** Release *)
Section Release.
Context (uuid_at : nat → uuid) `{!Inj (=) (=) uuid_at}.

(** Every reservation id of the ledger has been drawn. *)
Definition ids_drawn (db : BudgetDb) : Prop :=
  ∀ r, r ∈ ledger db → ∃ i, (i < drawn db)%nat ∧ lr_reserve_id r = uuid_at i.

(** What a release needs of the tables: the rows exist, hold what is released
    and the ledger has no release of these reservations yet. *)
Record releasable (cmd : BudgetCommand) (es : list BudgetReservation) (db : BudgetDb) : Prop := {
  rl_wf : map_Forall (λ _ ps, period_check ps = true) (periods db);
  rl_rows : ∀ e, e ∈ es → is_Some (periods db !! entry_key (bc_tenant_id cmd) e);
  rl_held : ∀ k, held (bc_tenant_id cmd) es k ≤ ps_reserved (period_of db k);
  rl_amounts : ∀ e, e ∈ es → 0 ≤ br_amount_micros e < 2 ^ 63;
  rl_ids : NoDup (br_ledger_entry_id <$> es);
  rl_new : ∀ r, r ∈ ledger db → lr_entry_type r = RELEASE →
             lr_reserve_id r ∉ br_ledger_entry_id <$> es;
}.

Lemma release_entry_run cmd reason e es db :
  releasable cmd (e :: es) db → (String.length reason ≤ 500)%nat →
  ∃ db', release_entry uuid_at cmd reason e db = (Ok tt, db') ∧
    releasable cmd es db' ∧
    ∀ k, counters (period_of db' k) =
         bump (- (if bool_decide (entry_key (bc_tenant_id cmd) e = k)
                  then br_amount_micros e else 0)) (counters (period_of db k)).
Proof.
  intros Hrl Hreason. destruct (rl_rows _ _ _ Hrl e) as [ps Hps]; [set_solver|].
  destruct (rl_amounts _ _ _ Hrl e) as [Ha1 Ha2]; [set_solver|].
  pose proof (rl_wf _ _ _ Hrl _ _ Hps) as Hchk. simpl in Hchk.
  assert (br_amount_micros e ≤ ps_reserved ps) as Hle.
  { pose proof (rl_held _ _ _ Hrl (entry_key (bc_tenant_id cmd) e)) as Hh.
    rewrite held_cons, bool_decide_eq_true_2 in Hh by done.
    unfold period_of in Hh. rewrite Hps in Hh. simpl in Hh.
    assert (0 ≤ held (bc_tenant_id cmd) es (entry_key (bc_tenant_id cmd) e)); [|lia].
    apply held_nonneg. intros e' He'. apply (rl_amounts _ _ _ Hrl). set_solver. }
  unfold release_entry, append_ledger, uuid7, gets, modify, raise, mbind, ST_mbind, mret, ST_mret.
  simpl. rewrite ledger_check_intro by (simpl; lia). simpl.
  match goal with |- context [same_entry ?x] => set (row := x) end.
  assert (existsb (same_entry row) (ledger db) = false) as Hno.
  { apply not_true_iff_false. intros (r & Hr & Hs)%existsb_same_entry.
    apply same_entry_spec in Hs as (_ & _ & _ & Hid & Hty). simpl in *.
    apply (rl_new _ _ _ Hrl r Hr); [done|]. rewrite <- Hid. set_solver. }
  rewrite Hno, update_period_run. simpl. unfold entry_key in Hps. rewrite Hps.
  replace (period_check _) with true
    by (unfold period_check, bigint in *; simpl in *; lia).
  eexists. split; [reflexivity|]. split.
  2:{ intros k. etransitivity;
        [exact (counters_add_reserved db (entry_key (bc_tenant_id cmd) e)
                  (- br_amount_micros e) ps (or_introl Hps) k)|].
      f_equal. by case_bool_decide. }
  destruct Hrl as [H1 H2 H3 H4 H5 H6]. simpl in H5. apply NoDup_cons in H5 as [H5 H5'].
  split; simpl.
  - apply map_Forall_insert_2; [|done]. unfold period_check, bigint in *. simpl in *. lia.
  - intros e' He'. rewrite lookup_insert. case_decide; [eauto|]. apply H2. set_solver.
  - intros k. specialize (H3 k). rewrite held_cons in H3.
    unfold period_of in *. simpl. rewrite lookup_insert.
    destruct (decide (entry_key (bc_tenant_id cmd) e = k)) as [Hk|Hk].
    + rewrite bool_decide_eq_true_2 in H3 by done. rewrite decide_True by done.
      subst k. change (periods db !! entry_key (bc_tenant_id cmd) e = Some ps) in Hps.
      rewrite Hps in H3. simpl in *. lia.
    + rewrite bool_decide_eq_false_2 in H3 by done. rewrite decide_False by done. lia.
  - intros e' He'. apply H4. set_solver.
  - done.
  - intros r [Hr| ->%list_elem_of_singleton]%elem_of_app Hty; [|done].
    specialize (H6 r Hr Hty). simpl in H6. set_solver.
Qed.

Lemma release_loop_run cmd reason es db :
  releasable cmd es db → (String.length reason ≤ 500)%nat →
  ∃ db', for_each (release_entry uuid_at cmd reason) es db = (Ok tt, db') ∧
    ∀ k, counters (period_of db' k) =
         bump (- held (bc_tenant_id cmd) es k) (counters (period_of db k)).
Proof.
  revert db. induction es as [|e es IH]; intros db Hrl Hreason; simpl.
  { exists db. split; [done|]. intros k. by rewrite held_nil, bump_0. }
  destruct (release_entry_run cmd reason e es db Hrl Hreason) as (db1 & He & Hrl1 & Hc1).
  destruct (IH db1 Hrl1 Hreason) as (db2 & Hes & Hc2).
  exists db2. split; [unfold mbind, ST_mbind; by rewrite He|].
  intros k. rewrite Hc2, Hc1, bump_bump, held_cons. f_equal. lia.
Qed.

(** After a reservation the bundle is releasable. *)
Lemma reserve_releasable m cmd db b db1 :
  db_wf db → db_wf db1 → ids_drawn db →
  reserve_body uuid_at m cmd db = (Ok (false, b), db1) →
  bb_command b = cmd ∧ releasable cmd (bb_entries b) db1 ∧
  ∀ k, counters (period_of db1 k) =
       bump (held (bc_tenant_id cmd) (bb_entries b) k) (counters (period_of db k)).
Proof.
  intros Hwf Hwf1 Hids H. unfold reserve_body in H.
  apply bind_Ok in H as (levels & db0 & Hl & H).
  apply applicable_levels_run in Hl as (-> & _ & _).
  apply bind_Ok in H as ([[secured al] rej] & db2 & Hloop & H). destruct rej.
  { apply bind_Ok in H as (? & ? & _ & H). destruct (levels !! _); [|done].
    apply bind_Ok in H as (? & ? & _ & H). by apply bind_Ok in H as (? & ? & _ & [=]). }
  injection H as <- <-. apply reserve_loop_effect in Hloop as (added & -> & He). simpl.
  split; [done|]. split; [|by destruct He]. destruct He.
  assert (∀ e, e ∈ added → br_amount_micros e = bc_estimated_micros cmd) as Hamt.
  { intros e He. apply list_elem_of_lookup in He as [i Hi].
    destruct (Forall2_lookup_r _ _ _ _ _ le_secures0 Hi) as (l & _ & Hs).
    by destruct Hs as (_ & _ & _ & -> & _). }
  assert (∀ k, ps_reserved (period_of db2 k) = ps_reserved (period_of db k)
                 + held (bc_tenant_id cmd) added k) as Hres.
  { intros k. specialize (le_counters0 k). unfold counters, bump in le_counters0. congruence. }
  assert (∀ k, 0 ≤ ps_reserved (period_of db k)) as Hnn.
  { intros k. unfold period_of. destruct (periods db !! k) as [p|] eqn:Hp; simpl; [|done].
    pose proof (wf_periods _ Hwf k p Hp) as Hc. unfold period_check in Hc. simpl in Hc. lia. }
  split.
  - apply (wf_periods _ Hwf1).
  - done.
  - intros k. rewrite Hres. specialize (Hnn k). lia.
  - intros e He. rewrite Hamt by done.
    assert (0 ≤ bc_estimated_micros cmd) as He0
      by (apply le_est0; intros ->; by apply elem_of_nil in He).
    split; [done|]. pose proof (Hres (entry_key (bc_tenant_id cmd) e)) as Hr.
    destruct (le_rows_added0 e He) as [p Hp].
    pose proof (wf_periods _ Hwf1 _ _ Hp) as Hc. simpl in Hc. unfold period_of at 1 in Hr.
    rewrite Hp in Hr. simpl in Hr. specialize (Hnn (entry_key (bc_tenant_id cmd) e)).
    assert (bc_estimated_micros cmd ≤ held (bc_tenant_id cmd) added
              (entry_key (bc_tenant_id cmd) e)) as Hge.
    { apply list_elem_of_split in He as (l1 & l2 & ->). unfold held. rewrite Zsum_app.
      fold (held (bc_tenant_id cmd) l1 (entry_key (bc_tenant_id cmd) e)).
      fold (held (bc_tenant_id cmd) (e :: l2) (entry_key (bc_tenant_id cmd) e)).
      rewrite held_cons, bool_decide_eq_true_2 by done. rewrite Hamt by set_solver.
      pose proof (held_nonneg (bc_tenant_id cmd) l1 (entry_key (bc_tenant_id cmd) e)
        ltac:(intros x Hx; rewrite Hamt by set_solver; done)).
      pose proof (held_nonneg (bc_tenant_id cmd) l2 (entry_key (bc_tenant_id cmd) e)
        ltac:(intros x Hx; rewrite Hamt by set_solver; done)). lia. }
    unfold period_check, bigint in Hc. lia.
  - destruct le_ids0 as (ixs & -> & Hnd & _). by apply NoDup_fmap_2.
  - intros r Hr Hty. destruct le_ids0 as (ixs & -> & _ & Hb).
    destruct le_ledger0 as (rows & Hled & Hrows). rewrite Hled in Hr.
    apply elem_of_app in Hr as [Hr|Hr].
    + destruct (Hids r Hr) as (i & Hi & ->). intros (j & Hj & Hin)%list_elem_of_fmap.
      apply (inj uuid_at) in Hj as <-. apply Hb in Hin. lia.
    + destruct (Hrows r Hr) as (Hty' & _). congruence.
Qed.

(** A release undoes its reservation.  When a reservation went through
    (and did not fall back to contingency) and the caller releases the bundle
    before anything else happens, the release succeeds and every counter of
    every period is back at its value before the reservation. *)
Theorem release_undoes_reserve fault fault' m m' cmd db b db1 reason :
  db_wf db → within_limit db → ids_drawn db →
  reserve uuid_at fault fault' m m' cmd db = (Ok b, db1) →
  (∃ e, e ∈ bb_entries b ∧ br_contingency e = false) →
  (String.length reason ≤ 500)%nat →
  ∃ db2, release uuid_at NoFault b reason db1 = (Ok tt, db2) ∧
    ∀ k, counters (period_of db2 k) = counters (period_of db k).
Proof.
  intros Hwf Hw Hids H (e0 & He0 & Hcont) Hreason.
  assert (db_wf db1) as Hwf1.
  { eapply (preserves_result (tracked (budgets db))); [exact H|apply preserves_reserve|done]. }
  destruct (reserve_ok_inv _ _ _ _ _ _ _ _ _ H) as [[-> Hb]|Hrec].
  2:{ exfalso. destruct Hrec as [db0 Hrec].
      rewrite (recovery_is_contingency _ _ _ _ _ _ _ Hrec e0 He0) in Hcont. done. }
  destruct (reserve_releasable _ _ _ _ _ Hwf Hwf1 Hids Hb) as (Hcmd & Hrl & Hc).
  destruct (release_loop_run cmd reason _ _ Hrl Hreason) as (db2 & Hrun & Hc2).
  exists db2. split; [unfold release, transaction; by rewrite Hcmd, Hrun|].
  intros k. rewrite Hc2, Hc, bump_bump, Z.add_opp_diag_r. apply bump_0.
Qed.
End Release.

(** ** Pricing and alert thresholds *)

(** The alert decision is exact.  For a limit below [2^49] micros (a bound
    far above any configured budget) the floating-point ratio test of
    [evaluate_level] agrees with exact arithmetic: the reserve is rejected
    exactly above 100%, critical from 90% and a warning from 70% on. *)
Theorem evaluate_level_exact used limit :
  0 ≤ used → limit < 2 ^ 49 →
  evaluate_level used limit =
    if limit <? used then REJECT
    else if limit <=? 0 then Admit None
    else if 9 * limit <=? 10 * used then Admit (Some CRITICAL_90)
    else if 7 * limit <=? 10 * used then Admit (Some WARNING_70)
    else Admit None.
Proof.
  intros Hu Hl. unfold evaluate_level.
  destruct (limit <? used) eqn:H1; [done|]. destruct (limit <=? 0) eqn:H2; [done|].
  rewrite ratio_geb_0_9, ratio_geb_0_7 by lia. done.
Qed.

Lemma evaluate_level_exact_witness :
  0 ≤ 900 ∧ evaluate_level 900 1000 = Admit (Some CRITICAL_90).
Proof.
  split; [lia|]. rewrite (evaluate_level_exact 900 1000) by lia. reflexivity.
Defined.

(** Prices are never rounded in the tenant's favour.  While tokens times
    price stay below [2^53] the floating-point computation of
    [estimate_cost_micros] is the exact sum of the two ceilings. *)
Theorem estimate_cost_exact it ot ip op :
  0 ≤ it * ip < 2 ^ 53 → 0 ≤ ot * op < 2 ^ 53 →
  estimate_cost_micros it ot ip op = (it * ip + 999) / 1000 + (ot * op + 999) / 1000.
Proof.
  intros Hi Ho. unfold estimate_cost_micros. rewrite !py_ceil_truediv by lia.
  do 2 f_equal; lia.
Qed.

Lemma estimate_cost_exact_witness :
  0 ≤ 1200 * 2500 < 2 ^ 53 ∧ estimate_cost_micros 1200 512 2500 10000 = 8120.
Proof. split; [lia|]. rewrite (estimate_cost_exact 1200 512 2500 10000) by lia. reflexivity. Defined.

(** ** The contingency allowance *)

(** A contingency draw is never given back.  Settling or releasing a bundle,
    contingency entries included, leaves the contingency counter of every
    period untouched: both statements subtract the entry's amount from the
    ordinary reserved counter instead. *)
Theorem contingency_draw_not_returned uuid_at fault bundle actual reason db r db' :
  settle uuid_at fault bundle actual db = (r, db') ∨
  release uuid_at fault bundle reason db = (r, db') →
  ∀ k, ps_contingency_reserved (period_of db' k) = ps_contingency_reserved (period_of db k).
Proof.
  intros H k. set (q := ps_contingency_reserved (period_of db k)).
  assert (∀ k' f, (∀ ps, ps_contingency_reserved (f ps) = ps_contingency_reserved ps) →
    keeps (λ d, ps_contingency_reserved (period_of d k) = q) (update_period k' (λ _, true) f))
    as Hupd.
  { intros k' f Hf. apply keeps_intro. intros d u d' Hd. rewrite update_period_run.
    destruct (periods d !! k') as [ps|] eqn:Hps; [|by intros [= <- <-]].
    destruct (period_check _); [|done]. intros [= <- <-]. rewrite period_of_insert.
    case_decide as Hk; [|done]. subst k'. rewrite Hf, <- Hd. unfold period_of. by rewrite Hps. }
  assert (∀ cmd bid pk t amt rid cont rs ac,
    keeps (λ d, ps_contingency_reserved (period_of d k) = q)
      (append_ledger uuid_at cmd bid pk t amt rid cont rs ac)) as Happ.
  { intros. apply keeps_intro. intros d u d' Hd Hr.
    by apply append_ledger_run in Hr as [_ [(_ & _ & ->)|(_ & _ & ->)]]. }
  destruct H as [H|H];
    (eapply (preserves_result (λ d, ps_contingency_reserved (period_of d k) = q));
       [exact H| |done]);
    [unfold settle, settle_entry|unfold release, release_entry]; preserve.
Qed.

(** A tenant with one monthly budget, for the concrete runs below. *)
Definition demo_budget (limit contingency : Z) : BudgetRow :=
  {| bg_tenant_id := 1; bg_id := 10; bg_scope := TENANT_MONTHLY; bg_application_id := None;
     bg_limit_micros := limit; bg_contingency_micros := contingency;
     bg_unknown_policy := CONTINGENCY |}.
Definition demo_db (limit contingency : Z) : BudgetDb :=
  {| budgets := [demo_budget limit contingency]; periods := ∅; alerts := ∅; ledger := [];
     prices := []; drawn := 0 |}.
Definition demo_cmd (amount : Z) : BudgetCommand :=
  {| bc_tenant_id := 1; bc_application_id := None; bc_execution_id := None;
     bc_estimated_micros := amount; bc_price_version := None |}.
Definition demo_reserve (amount : Z) (db : BudgetDb) :=
  reserve Z.of_nat NoFault NoFault 0 0 (demo_cmd amount) db.

Lemma demo_wf limit contingency : 0 ≤ limit → db_wf (demo_db limit contingency).
Proof.
  intros. split; simpl.
  - apply map_Forall_empty.
  - apply NoDup_singleton.
  - by intros b ->%list_elem_of_singleton.
  - by intros r ?%elem_of_nil.
Qed.
Lemma demo_within limit contingency : within_limit (demo_db limit contingency).
Proof. intros b pk ps _. simpl. by rewrite lookup_empty. Qed.

(** The state after reserving 700 of 1000 and settling 650 of it. *)
Definition demo_reserved : BudgetDb := (demo_reserve 700 (demo_db 1000 0)).2.
Definition demo_bundle : BudgetReservationBundle :=
  match (demo_reserve 700 (demo_db 1000 0)).1 with
  | Ok b => b
  | Raise _ => {| bb_command := demo_cmd 700; bb_entries := []; bb_alerts := [] |}
  end.
Definition demo_settled : BudgetDb :=
  (settle Z.of_nat NoFault demo_bundle (Some 650) demo_reserved).2.

Lemma demo_reserve_step :
  budget_step Z.of_nat (demo_db 1000 0, []) (OpReserve NoFault NoFault 0 0 (demo_cmd 700))
    (demo_reserved, [demo_bundle]).
Proof. apply step_reserve. vm_compute. reflexivity. Defined.

Lemma demo_settle_step :
  budget_step Z.of_nat (demo_reserved, [demo_bundle]) (OpSettle NoFault demo_bundle (Some 650))
    (demo_settled, [demo_bundle]).
Proof.
  apply (step_settle _ _ _ _ _ _ (Ok tt)); [by apply list_elem_of_singleton|].
  vm_compute. reflexivity.
Defined.


Lemma consumed_matches_ledger_witness :
  ps_consumed (period_of demo_settled (1, 10, "1970-01"%string)) = 650.
Proof.
  rewrite (consumed_matches_ledger Z.of_nat (demo_db 1000 0) demo_settled [demo_bundle]).
  - vm_compute. reflexivity.
  - intros k. reflexivity.
  - eapply rtc_l; [eexists; exact demo_reserve_step|].
    eapply rtc_l; [eexists; exact demo_settle_step|apply rtc_refl].
Defined.

Lemma reserve_secures_every_level_witness :
  length (bb_entries demo_bundle) = 1%nat ∧
  ((∀ e, e ∈ bb_entries demo_bundle → br_contingency e = true) ∨
   (∃ levels, applicable_levels 0 (demo_cmd 700) (demo_db 1000 0) = (Ok levels, demo_db 1000 0) ∧
      Forall2 (secures (demo_cmd 700)) levels (bb_entries demo_bundle) ∧
      (∀ l, l ∈ levels → usage_within (lv_limit_micros l)
         (counters (period_of demo_reserved (1, lv_budget_id l, lv_period_key l)))) ∧
      ∀ k, counters (period_of demo_reserved k) =
           bump (held 1 (bb_entries demo_bundle) k) (counters (period_of (demo_db 1000 0) k)))).
Proof.
  split; [vm_compute; reflexivity|].
  apply (reserve_secures_every_level Z.of_nat NoFault NoFault 0 0 (demo_cmd 700)).
  - by apply demo_wf.
  - vm_compute. reflexivity.
Defined.

(** A second reservation of 700 does not fit. *)
Lemma rejected_reserve_holds_nothing_witness :
  (∀ k, counters (period_of (demo_reserve 700 demo_reserved).2 k)
        = counters (period_of demo_reserved k)) ∧
  ∃ r, r ∈ ledger (demo_reserve 700 demo_reserved).2 ∧ lr_entry_type r = REJECTED ∧
       lr_tenant_id r = 1.
Proof.
  apply (rejected_reserve_holds_nothing Z.of_nat NoFault NoFault 0 0 (demo_cmd 700)).
  vm_compute. reflexivity.
Defined.

Lemma settle_replay_changes_nothing_witness :
  periods (settle Z.of_nat NoFault demo_bundle (Some 650) demo_settled).2 = periods demo_settled.
Proof.
  apply (settle_replay_changes_nothing Z.of_nat demo_bundle (Some 650) demo_reserved demo_settled
    NoFault (Ok tt)); vm_compute; reflexivity.
Defined.

Lemma release_undoes_reserve_witness :
  ∃ db2, release Z.of_nat NoFault demo_bundle "model failed" demo_reserved = (Ok tt, db2) ∧
    ∀ k, counters (period_of db2 k) = counters (period_of (demo_db 1000 0) k).
Proof.
  apply (release_undoes_reserve Z.of_nat NoFault NoFault 0 0 (demo_cmd 700)).
  - by apply demo_wf.
  - apply demo_within.
  - by intros r ?%elem_of_nil.
  - vm_compute. reflexivity.
  - eexists. split; [|shelve]. vm_compute. by apply list_elem_of_here.
    Unshelve. vm_compute. reflexivity.
  - simpl. lia.
Defined.

(** Releasing a contingency draw fails.  A reservation whose connection is
    lost falls back to the contingency allowance of a period whose row exists;
    releasing that bundle then violates the non-negativity check of the
    ordinary reserved counter, so the draw stays booked. *)
Theorem contingency_release_fails :
  let db := (reserve Z.of_nat NoFault NoFault 0 0 (demo_cmd 0) (demo_db 1000 300)).2 in
  let '(r, db1) := reserve Z.of_nat LostBeforeCommit NoFault 0 0 (demo_cmd 200) db in
  match r with
  | Ok b => br_contingency <$> bb_entries b = [true] ∧
            release Z.of_nat NoFault b "model failed" db1 = (Raise ESql, db1) ∧
            ps_contingency_reserved (period_of db1 (1, 10, "1970-01"%string)) = 200
  | Raise _ => False
  end.
Proof. vm_compute. repeat split; reflexivity. Qed.

(** A budget that lives on its allowance cannot warn.  With a zero limit and
    an allowance granted by an administrator, a reservation that crosses an
    alert threshold writes the alert with the configured limit, the table's
    positivity check fails, and the reservation is refused as unknowable
    although the allowance covers it. *)
Theorem zero_limit_alert_refuses :
  let db := (adjust Z.of_nat NoFault 0 1 10 1000 "grant" "admin" (demo_db 0 0)).2 in
  (demo_reserve 600 db).1 ≠ Raise (BudgetStateUnknown "BUDGET_STATE_UNKNOWN") ∧
  (demo_reserve 700 db).1 = Raise (BudgetStateUnknown "BUDGET_STATE_UNKNOWN").
Proof. vm_compute. split; [discriminate|reflexivity]. Qed.

Lemma contingency_draw_not_returned_witness :
  ps_contingency_reserved (period_of demo_settled (1, 10, "1970-01"%string)) =
  ps_contingency_reserved (period_of demo_reserved (1, 10, "1970-01"%string)).
Proof.
  apply (contingency_draw_not_returned Z.of_nat NoFault demo_bundle (Some 650) "" demo_reserved
    (Ok tt)). left. vm_compute. reflexivity.
Defined.
