(* ===== verification/ExecutionBus.v ===== *)
(** * The execution bus (trpc_service/execution_bus.py)

    Envelopes and their dictionary form, partition routing, the in-memory
    transport, the manual-commit Kafka consumer with its dead-letter path, and
    the transactional outbox with its dispatcher.

    Kafka's client objects, SHA-256 and the JSON codec are libraries the module
    calls: the client is seen through the calls the code makes on it, the hash
    and the codec are section variables with the documented facts the code
    relies on (a 32-byte digest, parsing what was printed). *)

From stdpp Require Import sorting.
From S2P Require Import Prelude PyNum.
Set Warnings "-register-all".
Open Scope string_scope.
Open Scope list_scope.
Open Scope Z_scope.

(** ** JSON values

    [json.loads] yields these.  The envelopes carry integers only; a float,
    given by its 64-bit pattern, may occur in the parameters of tool calls. *)
Inductive json :=
  | JNull
  | JBool (b : bool)
  | JNum (n : Z)
  | JFloat (bits : Z)
  | JStr (s : string)
  | JArr (l : list json)
  | JObj (m : gmap string json).

Abbreviation jobject := (gmap string json).

Abbreviation bytes := (list Byte.byte).

(** ** Exceptions *)
Inductive BusError :=
  | BValue (message : string)
  | BCancelled
  | BHandler (error_type : string)
  | BPublish
  | BCommit
  | BSql.

(** ** Constants *)
Definition ENVELOPE_SPECVERSION : string := "1.0".
Definition GATEWAY_SOURCE : string := "trpc-agent-platform://agent-gateway".
Definition WORKER_SOURCE : string := "trpc-agent-platform://agent-worker".
Definition JOB_WORKER_SOURCE : string := "trpc-agent-platform://job-worker".
Definition EXECUTION_REQUESTED_EVENT : string := "platform.agent-execution.requested.v1".
Definition EXECUTION_COMPLETED_EVENT : string := "platform.agent-execution.completed.v1".
Definition SESSION_EVENTS_COMMITTED_EVENT : string := "platform.session.events.committed.v1".
Definition MEMORY_INVALIDATED_EVENT : string := "platform.memory.invalidated.v1".

Definition REQUIRED_ENVELOPE_FIELDS : list string :=
  ["id"; "source"; "type"; "time"; "partitionkey"; "tenantid"; "dataschema"; "data"]%string.

(** ** Envelopes *)
Record ExecutionEnvelope := {
  ee_message_id : string;
  ee_source : string;
  ee_event_type : string;
  ee_partition_key : string;
  ee_time : string;
  ee_tenant_id : string;
  ee_data_schema : string;
  ee_data : jobject;
  ee_causation_id : option string;
  ee_correlation_id : option string;
  ee_data_classification : option string;
  ee_trace_parent : option string;
}.

(** [if v is not None: payload[field] = v] *)
Definition put_optional (field : string) (v : option string) (payload : jobject) : jobject :=
  match v with Some s => <[field := JStr s]> payload | None => payload end.

(** [ExecutionEnvelope.to_dict] *)
Definition to_dict (e : ExecutionEnvelope) : jobject :=
  put_optional "traceparent" (ee_trace_parent e)
   (put_optional "dataclassification" (ee_data_classification e)
     (put_optional "correlationid" (ee_correlation_id e)
       (put_optional "causationid" (ee_causation_id e)
         (<["data" := JObj (ee_data e)]>
          (<["datacontenttype" := JStr "application/json"]>
           (<["dataschema" := JStr (ee_data_schema e)]>
            (<["tenantid" := JStr (ee_tenant_id e)]>
             (<["partitionkey" := JStr (ee_partition_key e)]>
              (<["time" := JStr (ee_time e)]>
               (<["type" := JStr (ee_event_type e)]>
                (<["source" := JStr (ee_source e)]>
                 (<["id" := JStr (ee_message_id e)]>
                  {["specversion" := JStr ENVELOPE_SPECVERSION]})))))))))))).

Section Decode.
  (** Python's [str()] of a decoded value that is not a text. *)
  Context (py_repr : json → string).

Definition py_str (j : json) : string := match j with JStr s => s | _ => py_repr j end.

(** [_optional_str]: an explicit JSON null counts as absent. *)
Definition optional_str (payload : jobject) (field : string) : option string :=
  match payload !! field with
  | None | Some JNull => None
  | Some v => Some (py_str v)
  end.

Definition join (sep : string) (l : list string) : string :=
  match l with
  | [] => ""
  | x :: l' => foldl (λ acc s, acc +:+ sep +:+ s) x l'
  end.

(** [ExecutionEnvelope.from_dict] *)
Definition from_dict (payload : jobject) : outcome BusError ExecutionEnvelope :=
  match payload !! "specversion" with
  | Some (JStr "1.0") =>
      let missing := filter (λ f, payload !! f = None) REQUIRED_ENVELOPE_FIELDS in
      match missing with
      | _ :: _ => Raise (BValue ("envelope is missing required fields: " +:+ join ", " missing))
      | [] =>
          match payload !! "data" with
          | Some (JObj data) =>
              let field f := default "" (py_str <$> (payload !! f)) in
              Ok {| ee_message_id := field "id"; ee_source := field "source";
                    ee_event_type := field "type"; ee_partition_key := field "partitionkey";
                    ee_time := field "time"; ee_tenant_id := field "tenantid";
                    ee_data_schema := field "dataschema"; ee_data := data;
                    ee_causation_id := optional_str payload "causationid";
                    ee_correlation_id := optional_str payload "correlationid";
                    ee_data_classification := optional_str payload "dataclassification";
                    ee_trace_parent := optional_str payload "traceparent" |}
          | _ => Raise (BValue "envelope data must be a JSON object")
          end
      end
  | _ => Raise (BValue "envelope specversion must be 1.0")
  end.

(** [KafkaExecutionConsumer._decode]; [loads] is [json.loads] (which raises on
    malformed input). *)
Definition decode (loads : bytes → option json) (value : option bytes)
    : outcome BusError ExecutionEnvelope :=
  match value with
  | None => Raise (BValue "execution bus record value must not be null")
  | Some v =>
      match loads v with
      | None => Raise (BValue "JSONDecodeError")
      | Some (JObj payload) => from_dict payload
      | Some _ => Raise (BValue "execution bus record must be a JSON object")
      end
  end.
End Decode.

(** ** Partition routing *)
Definition session_partition_key (tenant_id session_id : string) : string :=
  tenant_id +:+ ":" +:+ session_id.

(** [int.from_bytes(b, "big")] *)
Definition from_bytes_big (b : bytes) : Z :=
  foldl (λ acc x, (acc * 256 + Z.of_N (Byte.to_N x))%Z) 0%Z b.

Section Partitions.
  Context (sha256 : bytes → bytes).

(** [_stable_bucket] *)
Definition stable_bucket (key : string) (partition_count : Z) : outcome BusError Z :=
  if (partition_count <? 0)%Z then Raise (BValue "partition_count must not be negative")
  else
    let digest := sha256 (String.list_byte_of_string key) in
    Ok (from_bytes_big (take 8 digest) mod Z.max partition_count 1)%Z.

Definition unit_separator : string := String (Ascii.ascii_of_nat 31) "".

Definition partition_for (tenant_id session_id : string) (partition_count : Z)
    : outcome BusError Z :=
  stable_bucket (tenant_id +:+ unit_separator +:+ session_id) partition_count.

Definition partition_of (e : ExecutionEnvelope) (partition_count : Z) : outcome BusError Z :=
  match ee_data e !! "tenant_id", ee_data e !! "session_id" with
  | Some (JStr t), Some (JStr s) => partition_for t s partition_count
  | _, _ => stable_bucket (ee_partition_key e) partition_count
  end.

(** ** The in-memory transport *)
Record InMemoryBus := {
  mb_partitions : list (list ExecutionEnvelope);
  mb_deliveries : gmap string nat;
  mb_published : list ExecutionEnvelope;
}.

(** [InMemoryExecutionBus.__init__] *)
Definition new_memory_bus (partition_count : Z) : InMemoryBus :=
  {| mb_partitions := replicate (Z.to_nat (Z.max partition_count 1)) [];
     mb_deliveries := ∅; mb_published := [] |}.

(** [InMemoryExecutionBus.publish] *)
Definition memory_publish (e : ExecutionEnvelope) : ST InMemoryBus BusError unit := λ bus,
  let published := mb_published bus ++ [e] in
  match partition_of e (Z.of_nat (length (mb_partitions bus))) with
  | Raise err => (Raise err, {| mb_partitions := mb_partitions bus;
                                mb_deliveries := mb_deliveries bus;
                                mb_published := published |})
  | Ok p => (Ok tt, {| mb_partitions := alter (λ q, q ++ [e]) (Z.to_nat p) (mb_partitions bus);
                       mb_deliveries := mb_deliveries bus; mb_published := published |})
  end.

Definition pending_count (bus : InMemoryBus) : nat := sum_list (length <$> mb_partitions bus).

(** The head of the first non-empty partition, the partitions before it and the
    rest: the scan of [deliver_once]. *)
Fixpoint first_pending (ps : list (list ExecutionEnvelope))
    : option (list (list ExecutionEnvelope) * ExecutionEnvelope * list ExecutionEnvelope
              * list (list ExecutionEnvelope)) :=
  match ps with
  | [] => None
  | [] :: ps' =>
      match first_pending ps' with
      | Some (before, e, rest, after) => Some ([] :: before, e, rest, after)
      | None => None
      end
  | (e :: rest) :: ps' => Some ([], e, rest, ps')
  end.

(** [InMemoryExecutionBus.deliver_once]; [consumer e = false] when it raises. *)
Definition deliver_once (consumer : ExecutionEnvelope → bool) (bus : InMemoryBus)
    : bool * InMemoryBus :=
  match first_pending (mb_partitions bus) with
  | None => (false, bus)
  | Some (before, e, rest, after) =>
      let deliveries :=
        <[ee_message_id e := S (default 0%nat (mb_deliveries bus !! ee_message_id e))]>
          (mb_deliveries bus) in
      if consumer e then
        (true, {| mb_partitions := before ++ rest :: after; mb_deliveries := deliveries;
                  mb_published := mb_published bus |})
      else
        (false, {| mb_partitions := mb_partitions bus; mb_deliveries := deliveries;
                   mb_published := mb_published bus |})
  end.

(** [InMemoryExecutionBus.drain]: at most [fuel] deliveries; the loop ends by
    itself within [pending_count + 1] rounds. *)
Fixpoint drain_fuel (fuel : nat) (consumer : ExecutionEnvelope → bool) (bus : InMemoryBus)
    : option (nat * InMemoryBus) :=
  match fuel with
  | O => None
  | S fuel' =>
      let '(more, bus') := deliver_once consumer bus in
      if more then
        match drain_fuel fuel' consumer bus' with
        | Some (n, bus'') => Some (S n, bus'')
        | None => None
        end
      else Some (0%nat, bus')
  end.

Definition drain (consumer : ExecutionEnvelope → bool) (bus : InMemoryBus)
    : option (nat * InMemoryBus) :=
  drain_fuel (S (pending_count bus)) consumer bus.
End Partitions.

(** ** The Kafka publisher *)

(** The topic map of [KafkaExecutionBus.__init__]: the overrides win over the
    default route of execution requests. *)
Definition new_kafka_bus (bootstrap_servers topic : string) (event_topics : gmap string string)
    : outcome BusError (gmap string string) :=
  if bool_decide (bootstrap_servers = "") then
    Raise (BValue "bootstrap_servers must not be empty")
  else if bool_decide (topic = "") then Raise (BValue "topic must not be empty")
  else Ok (event_topics ∪ {[EXECUTION_REQUESTED_EVENT := topic]}).

(** [KafkaExecutionBus.publish]: the topic, value and key handed to
    [send_and_wait]; [dumps] is [json.dumps(...).encode()]. *)
Definition kafka_publish (dumps : json → bytes) (event_topics : gmap string string)
    (e : ExecutionEnvelope) : string * bytes * bytes :=
  (default (ee_event_type e) (event_topics !! ee_event_type e),
   dumps (JObj (to_dict e)),
   String.list_byte_of_string (ee_partition_key e)).

(** ** The Kafka consumer *)

(** A partition of a topic. *)
Abbreviation topic_partition := (string * Z)%type.

Record KafkaRecord := { kr_offset : Z; kr_value : option bytes }.

(** What is published to the dead-letter topic: the source coordinates and the
    original bytes (carried in base64 on the wire). *)
Record DeadLetter := {
  dl_source_topic : string;
  dl_source_partition : Z;
  dl_source_offset : Z;
  dl_attempts : Z;
  dl_error_type : string;
  dl_payload : bytes;
}.

(** The client's fetch position and committed offset per partition, the failure
    counters the consumer keeps, and what reached the dead-letter topic. *)
Record ConsumerState := {
  cs_position : gmap topic_partition Z;
  cs_committed : gmap topic_partition Z;
  cs_failure_attempts : gmap (string * Z * Z) Z;
  cs_dead_letters : list DeadLetter;
}.

Abbreviation CST := (ST ConsumerState BusError).

Record ConsumerConfig := {
  cc_topic : string;
  cc_dead_letter_topic : string;
  cc_max_delivery_attempts : Z;
  cc_has_dead_letter_producer : bool;
}.

(** [KafkaExecutionConsumer.__init__]: [given_producer] says that the caller
    passed a dead-letter producer. *)
Definition new_consumer (bootstrap_servers topic group_id dead_letter_topic : string)
    (max_delivery_attempts : Z) (given_producer : bool) : outcome BusError ConsumerConfig :=
  if bool_decide (bootstrap_servers = "") then
    Raise (BValue "bootstrap_servers must not be empty")
  else if bool_decide (topic = "") then Raise (BValue "topic must not be empty")
  else if bool_decide (group_id = "") then Raise (BValue "group_id must not be empty")
  else if max_delivery_attempts <? 1 then
    Raise (BValue "max_delivery_attempts must be positive")
  else if given_producer && bool_decide (dead_letter_topic = "") then
    Raise (BValue "dead_letter_topic is required with a dead-letter producer")
  else Ok {| cc_topic := topic; cc_dead_letter_topic := dead_letter_topic;
             cc_max_delivery_attempts := max_delivery_attempts;
             cc_has_dead_letter_producer :=
               given_producer || negb (bool_decide (dead_letter_topic = "")) |}.

Definition set_position (tp : topic_partition) (o : Z) (s : ConsumerState) : ConsumerState :=
  {| cs_position := <[tp := o]> (cs_position s); cs_committed := cs_committed s;
     cs_failure_attempts := cs_failure_attempts s; cs_dead_letters := cs_dead_letters s |}.
Definition set_committed (tp : topic_partition) (o : Z) (s : ConsumerState) : ConsumerState :=
  {| cs_position := cs_position s; cs_committed := <[tp := o]> (cs_committed s);
     cs_failure_attempts := cs_failure_attempts s; cs_dead_letters := cs_dead_letters s |}.
Definition set_failure_attempts (f : gmap (string * Z * Z) Z → gmap (string * Z * Z) Z)
    (s : ConsumerState) : ConsumerState :=
  {| cs_position := cs_position s; cs_committed := cs_committed s;
     cs_failure_attempts := f (cs_failure_attempts s);
     cs_dead_letters := cs_dead_letters s |}.
Definition add_dead_letter (d : DeadLetter) (s : ConsumerState) : ConsumerState :=
  {| cs_position := cs_position s; cs_committed := cs_committed s;
     cs_failure_attempts := cs_failure_attempts s;
     cs_dead_letters := cs_dead_letters s ++ [d] |}.

Definition error_type_name (e : BusError) : string :=
  match e with
  | BValue _ => "ValueError"
  | BHandler t => t
  | BCancelled => "CancelledError"
  | BPublish | BCommit => "KafkaError"
  | BSql => "SQLAlchemyError"
  end.

Section Consumer.
  Context (py_repr : json → string) (loads : bytes → option json).
  (** The handler, and whether the dead-letter send and the offset commit go
      through in this call. *)
  Context (handler : ExecutionEnvelope → outcome BusError unit).
  Context (dead_letter_ok commit_ok : bool).
  Context (cfg : ConsumerConfig).

Definition failure_key (tp : topic_partition) (offset : Z) : string * Z * Z :=
  (tp.1, tp.2, offset).

Definition seek (tp : topic_partition) (offset : Z) : CST unit := modify (set_position tp offset).

(** [_commit]: the committed offset is the next one to read. *)
Definition commit_offset (tp : topic_partition) (offset : Z) : CST unit :=
  if commit_ok then modify (set_committed tp (offset + 1)) else raise BCommit.

(** [_publish_dead_letter] *)
Definition publish_dead_letter (tp : topic_partition) (record : KafkaRecord) (attempts : Z)
    (error : BusError) : CST unit :=
  if dead_letter_ok then
    modify (add_dead_letter
      {| dl_source_topic := tp.1; dl_source_partition := tp.2;
         dl_source_offset := kr_offset record; dl_attempts := attempts;
         dl_error_type := error_type_name error;
         dl_payload := default [] (kr_value record) |})
  else raise BPublish.

(** The record branch of [process_once]. *)
Definition process_record (tp : topic_partition) (record : KafkaRecord) : CST bool :=
  let handled :=
    match decode py_repr loads (kr_value record) with
    | Raise e => Raise e
    | Ok envelope => handler envelope
    end in
  match handled with
  | Ok _ =>
      _ ← commit_offset tp (kr_offset record);
      _ ← modify (set_failure_attempts (delete (failure_key tp (kr_offset record))));
      mret true
  | Raise BCancelled =>
      _ ← seek tp (kr_offset record); raise BCancelled
  | Raise error =>
      let key := failure_key tp (kr_offset record) in
      seen ← gets (λ s, default 0 (cs_failure_attempts s !! key));
      let attempts := seen + 1 in
      _ ← modify (set_failure_attempts <[key := attempts]>);
      if cc_has_dead_letter_producer cfg && (cc_max_delivery_attempts cfg <=? attempts) then
        _ ← try_catch (publish_dead_letter tp record attempts error)
              (λ e, _ ← seek tp (kr_offset record); raise e);
        _ ← commit_offset tp (kr_offset record);
        _ ← modify (set_failure_attempts (delete key));
        mret true
      else
        _ ← seek tp (kr_offset record); raise error
  end.

(** [process_once] over the batches [getmany] returned; fetching has already
    moved the position of each partition past the records handed out. *)
Fixpoint process_batches (batches : list (topic_partition * list KafkaRecord)) : CST bool :=
  match batches with
  | [] => mret false
  | (_, []) :: batches' => process_batches batches'
  | (tp, record :: _) :: _ => process_record tp record
  end.

Definition fetch (batches : list (topic_partition * list KafkaRecord)) : CST unit :=
  for_each (λ b : topic_partition * list KafkaRecord,
    match last b.2 with
    | Some r => modify (set_position b.1 (kr_offset r + 1))
    | None => mret tt
    end) batches.

Definition process_once (batches : list (topic_partition * list KafkaRecord)) : CST bool :=
  _ ← fetch batches; process_batches batches.
End Consumer.

(** One round of the consumer loop: how the handler, the dead-letter producer and
    the commit behave in it, and what [getmany] returned. *)
Record Round := {
  rd_handler : ExecutionEnvelope → outcome BusError unit;
  rd_dead_letter_ok : bool;
  rd_commit_ok : bool;
  rd_batches : list (topic_partition * list KafkaRecord);
}.

(** [run_forever]: the rounds are run one after the other; a cancellation ends
    the loop, every other failure is logged and the loop goes on. *)
Fixpoint run_forever (py_repr : json → string) (loads : bytes → option json)
    (cfg : ConsumerConfig) (rounds : list Round) : CST unit :=
  match rounds with
  | [] => mret tt
  | r :: rounds' =>
      _ ← try_catch
            (_ ← process_once py_repr loads (rd_handler r) (rd_dead_letter_ok r)
                   (rd_commit_ok r) cfg (rd_batches r);
             mret tt)
            (λ e, match e with BCancelled => raise BCancelled | _ => mret tt end);
      run_forever py_repr loads cfg rounds'
  end.

(** ** The transactional outbox *)
Inductive outbox_status := PENDING | PUBLISHED.
#[export] Instance outbox_status_eq_dec : EqDecision outbox_status.
Proof. solve_decision. Defined.

Record OutboxRecord := {
  ob_id : uuid;
  ob_tenant_id : uuid;
  ob_message_id : string;
  ob_source : string;
  ob_event_type : string;
  ob_partition_key : string;
  ob_causation_id : option string;
  ob_correlation_id : option string;
  ob_data_classification : option string;
  ob_payload : jobject;
  ob_status : outbox_status;
  ob_attempts : Z;
  ob_created_at : instant;
}.

(** A component state that holds the outbox table and hands out identifiers. *)
Class HasOutbox (S : Type) := {
  outbox : S → list OutboxRecord;
  add_outbox : OutboxRecord → S → S;
  outbox_add : ∀ r s, outbox (add_outbox r s) = outbox s ++ [r];
}.
Class HasIds (S : Type) := { next_id : S → nat; set_next_id : nat → S → S }.
Class SqlError (E : Type) := sql_error : E.

Definition length_between (lo hi : nat) (s : string) : bool :=
  (lo <=? String.length s)%nat && (String.length s <=? hi)%nat.
Definition option_check (f : string → bool) (o : option string) : bool :=
  match o with Some s => f s | None => true end.

(** The CHECK constraints of [platform.outbox_record] that a caller can violate
    (sources and event types are the constants above). *)
Definition outbox_check (r : OutboxRecord) : bool :=
  length_between 1 256 (ob_message_id r) && length_between 1 600 (ob_partition_key r)
  && option_check (length_between 1 256) (ob_causation_id r)
  && option_check (length_between 1 256) (ob_correlation_id r)
  && option_check (λ c, bool_decide (c ∈ ["PUBLIC"; "INTERNAL"; "CONFIDENTIAL"; "RESTRICTED"]))
       (ob_data_classification r).

Section Outbox.
  Context {S E : Type} `{!HasOutbox S, !HasIds S, !SqlError E} (uuid_at : nat → uuid).

(** [ids.uuid7] *)
Definition draw_id : ST S E uuid :=
  n ← gets next_id; _ ← modify (set_next_id (Datatypes.S n)); mret (uuid_at n).

(** [insert_outbox_record], in the caller's transaction; the message id is
    unique per tenant. *)
Definition insert_outbox_record (now : instant) (tenant_id : uuid)
    (message_id source event_type partition_key : string) (payload : jobject)
    (causation_id correlation_id data_classification : option string) : ST S E unit :=
  id ← draw_id;
  let r := {| ob_id := id; ob_tenant_id := tenant_id; ob_message_id := message_id;
              ob_source := source; ob_event_type := event_type;
              ob_partition_key := partition_key; ob_causation_id := causation_id;
              ob_correlation_id := correlation_id;
              ob_data_classification := data_classification; ob_payload := payload;
              ob_status := PENDING; ob_attempts := 0; ob_created_at := now |} in
  present ← gets (λ s, existsb (λ o, bool_decide (ob_tenant_id o = tenant_id)
                                     && bool_decide (ob_message_id o = message_id)) (outbox s));
  if outbox_check r && negb present then modify (add_outbox r) else raise sql_error.
End Outbox.

(** ** The dispatcher *)

(** The outbox table and everything the bus has accepted, oldest first: the bus
    is not part of the database transaction. *)
Record DispatchState := {
  ds_outbox : list OutboxRecord;
  ds_bus : list ExecutionEnvelope;
}.

Definition set_status (id : uuid) (o : OutboxRecord) : OutboxRecord :=
  if bool_decide (ob_id o = id) && bool_decide (ob_status o = PENDING) then
    {| ob_id := ob_id o; ob_tenant_id := ob_tenant_id o; ob_message_id := ob_message_id o;
       ob_source := ob_source o; ob_event_type := ob_event_type o;
       ob_partition_key := ob_partition_key o; ob_causation_id := ob_causation_id o;
       ob_correlation_id := ob_correlation_id o;
       ob_data_classification := ob_data_classification o; ob_payload := ob_payload o;
       ob_status := PUBLISHED; ob_attempts := ob_attempts o + 1;
       ob_created_at := ob_created_at o |}
  else o.

(** The envelope of an outbox row. *)
Definition envelope_of (row : OutboxRecord) : ExecutionEnvelope :=
  {| ee_message_id := ob_message_id row; ee_source := ob_source row;
     ee_event_type := ob_event_type row; ee_partition_key := ob_partition_key row;
     ee_time := isoformat (ob_created_at row); ee_tenant_id := uuid_text (ob_tenant_id row);
     ee_data_schema := ob_event_type row +:+ ".schema.json"; ee_data := ob_payload row;
     ee_causation_id := ob_causation_id row; ee_correlation_id := ob_correlation_id row;
     ee_data_classification := ob_data_classification row;
     ee_trace_parent := match ob_payload row !! "trace_parent" with
                        | Some (JStr t) => Some t
                        | _ => None
                        end |}.

(** [ORDER BY created_at, id] *)
Definition row_le (a b : OutboxRecord) : Prop :=
  ob_created_at a < ob_created_at b ∨ (ob_created_at a = ob_created_at b ∧ ob_id a ≤ ob_id b).
#[export] Instance row_le_dec : RelDecision row_le.
Proof. intros a b. unfold row_le. solve_decision. Defined.

(** The rows one dispatch works on: pending, not locked by another dispatcher,
    in creation order, at most [batch_size] of them. *)
Definition select_pending (locked : uuid → bool) (batch_size : nat) (rows : list OutboxRecord)
    : list OutboxRecord :=
  take batch_size (merge_sort row_le
    (filter (λ r, ob_status r = PENDING ∧ locked (ob_id r) = false) rows)).

(** The loop of [dispatch_pending]: publish, then mark. *)
Fixpoint dispatch_rows (publish_ok : ExecutionEnvelope → bool) (rows : list OutboxRecord)
    : ST DispatchState BusError Z :=
  match rows with
  | [] => mret 0
  | row :: rows' =>
      _ ← (if publish_ok (envelope_of row) then
             modify (λ s, {| ds_outbox := ds_outbox s; ds_bus := ds_bus s ++ [envelope_of row] |})
           else raise BPublish);
      _ ← modify (λ s, {| ds_outbox := set_status (ob_id row) <$> ds_outbox s;
                          ds_bus := ds_bus s |});
      n ← dispatch_rows publish_ok rows';
      mret (n + 1)
  end.

(** A failed or lost transaction restores the table; what reached the bus stays. *)
Definition outbox_transaction {A} (fault : txn_fault) (m : ST DispatchState BusError A)
    : ST DispatchState BusError A := λ s,
  let undone s' := {| ds_outbox := ds_outbox s; ds_bus := ds_bus s' |} in
  match m s with
  | (Ok a, s') =>
      match fault with
      | NoFault => (Ok a, s')
      | LostBeforeCommit => (Raise BSql, undone s')
      | LostAfterCommit => (Raise BSql, s')
      end
  | (Raise e, s') => (Raise e, undone s')
  end.

(** [OutboxDispatcher.dispatch_pending] *)
Definition dispatch_pending (fault : txn_fault) (locked : uuid → bool) (batch_size : nat)
    (publish_ok : ExecutionEnvelope → bool) : ST DispatchState BusError Z :=
  outbox_transaction fault
    (rows ← gets (λ s, select_pending locked batch_size (ds_outbox s));
     dispatch_rows publish_ok rows).
