(* ===== verification/SampleCodec.v ===== *)
(** * A concrete JSON codec

    The wire format of the platform is JSON, printed and parsed by Python's
    [json] module.  The theorems about the wire hold for every codec whose parser
    reads back what its printer wrote; this file gives one such codec over the
    values of the model, through stdpp's generic trees, so that the hypothesis is
    known to be satisfiable. *)

From stdpp Require Import countable.
From S2P Require Import Prelude PyNum ExecutionBus.

Abbreviation leaf := (bool + Z + string)%type.
Fixpoint json_tree (j : json) : gen_tree leaf :=
  match j with
  | JNull => GenNode 0 []
  | JBool b => GenLeaf (inl (inl b))
  | JNum n => GenLeaf (inl (inr n))
  | JFloat bits => GenNode 4 [GenLeaf (inl (inr bits))]
  | JStr s => GenLeaf (inr s)
  | JArr l => GenNode 1 (json_tree <$> l)
  | JObj m => GenNode 2 (map_fold (λ k v acc, GenNode 3 [GenLeaf (inr k); json_tree v] :: acc) [] m)
  end.
Fixpoint tree_json (t : gen_tree leaf) : json :=
  match t with
  | GenLeaf (inl (inl b)) => JBool b
  | GenLeaf (inl (inr n)) => JNum n
  | GenLeaf (inr s) => JStr s
  | GenNode 4 [GenLeaf (inl (inr bits))] => JFloat bits
  | GenNode 1 l => JArr (tree_json <$> l)
  | GenNode 2 l => JObj (list_to_map ((λ t, match t with
       | GenNode _ [GenLeaf (inr k); v] => (k, tree_json v) | _ => (""%string, JNull) end) <$> l))
  | GenNode _ _ => JNull
  end.

Fixpoint json_size (j : json) : nat :=
  match j with
  | JArr l => S (sum_list (json_size <$> l))
  | JObj m => S (map_fold (λ _ v acc, json_size v + acc)%nat 0%nat m)
  | _ => 0%nat
  end.

Lemma json_size_obj m k v : m !! k = Some v → (json_size v < json_size (JObj m))%nat.
Proof.
  intros Hk. simpl. rewrite (map_fold_delete_L _ _ k v m); [lia| |done]. intros; lia.
Qed.
Lemma json_size_arr l v : v ∈ l → (json_size v < json_size (JArr l))%nat.
Proof.
  intros Hv. simpl. apply list_elem_of_split in Hv as (l1 & l2 & ->).
  rewrite fmap_app. simpl. induction (json_size <$> l1); simpl; lia.
Qed.

Lemma tree_json_tree j : tree_json (json_tree j) = j.
Proof.
  induction j as [j IH] using (induction_ltof1 _ json_size). unfold ltof in IH.
  destruct j as [| b|n|bits|s|l|m]; try reflexivity; simpl; f_equal.
  - rewrite <- list_fmap_compose. transitivity (id <$> l); [|apply list_fmap_id].
    apply list_fmap_ext. intros i x Hx. apply IH, json_size_arr. by eapply list_elem_of_lookup_2.
  - rewrite map_fold_foldr. transitivity (list_to_map (map_to_list m) : gmap string json);
      [|apply list_to_map_to_list]. f_equal.
    assert (∀ k v, (k, v) ∈ map_to_list m → tree_json (json_tree v) = v) as H.
    { intros k v Hkv%elem_of_map_to_list. by eapply IH, json_size_obj. }
    clear IH. induction (map_to_list m) as [|[k v] kvs IH]; [done|]. cbn. f_equal.
    + f_equal. eapply H. apply list_elem_of_here.
    + apply IH. intros k' v' ?. eapply H. by apply list_elem_of_further.
Qed.

#[export] Instance json_eq_dec : EqDecision json.
Proof.
  intros j1 j2. destruct (decide (json_tree j1 = json_tree j2)) as [H|H].
  - left. by rewrite <- (tree_json_tree j1), H, tree_json_tree.
  - right. congruence.
Defined.

Fixpoint pos_bytes (p : positive) : bytes :=
  match p with
  | xH => []
  | xO p => Byte.x30 :: pos_bytes p
  | xI p => Byte.x31 :: pos_bytes p
  end.
Fixpoint bytes_pos (b : bytes) : positive :=
  match b with
  | [] => xH
  | Byte.x31 :: b => xI (bytes_pos b)
  | _ :: b => xO (bytes_pos b)
  end.
Lemma bytes_pos_bytes p : bytes_pos (pos_bytes p) = p.
Proof. induction p; simpl; congruence. Qed.

Definition sample_dumps (j : json) : bytes := pos_bytes (encode (json_tree j)).
Definition sample_loads (b : bytes) : option json := tree_json <$> countable.decode (bytes_pos b).

Lemma sample_codec j : sample_loads (sample_dumps j) = Some j.
Proof.
  unfold sample_loads, sample_dumps. rewrite bytes_pos_bytes, decode_encode. simpl.
  by rewrite tree_json_tree.
Qed.
