(* ===== verification/BusTheorems.v ===== *)
(** * Contracts of the execution bus

    Envelopes survive their wire form; a session always maps to one partition
    in range; draining the in-memory transport terminates, drops nothing and
    keeps the order of each partition; the Kafka consumer acknowledges a record
    only once it is handled or parked as a dead letter and parks a poison record
    after a bounded number of attempts; the outbox dispatcher never marks a row
    published that the bus has not accepted. *)

From stdpp Require Import sorting.
From S2P Require Import Prelude PyNum ExecutionBus SampleCodec.
Open Scope string_scope.
Open Scope list_scope.
Open Scope Z_scope.

(** ** Envelopes *)
Lemma lookup_put_optional f v m g :
  put_optional f v m !! g =
    if decide (f = g) then match v with Some s => Some (JStr s) | None => m !! g end else m !! g.
Proof.
  destruct v as [s|]; simpl; [|by case_decide]. rewrite lookup_insert. done.
Qed.

(** Looking a literal field up in [to_dict e]. *)
Ltac look_field :=
  unfold to_dict;
  repeat first
    [ rewrite lookup_put_optional; rewrite decide_False by done
    | rewrite lookup_put_optional; rewrite decide_True by done
    | rewrite lookup_insert_ne by done
    | rewrite lookup_insert_eq
    | rewrite lookup_singleton_ne by done
    | rewrite lookup_singleton_eq ].

Section Envelope.
  Context (py_repr : json → string).

Lemma optional_str_to_dict e :
  optional_str py_repr (to_dict e) "causationid" = ee_causation_id e ∧
  optional_str py_repr (to_dict e) "correlationid" = ee_correlation_id e ∧
  optional_str py_repr (to_dict e) "dataclassification" = ee_data_classification e ∧
  optional_str py_repr (to_dict e) "traceparent" = ee_trace_parent e.
Proof.
  unfold optional_str. repeat split; look_field;
    [destruct (ee_causation_id e)|destruct (ee_correlation_id e)
    |destruct (ee_data_classification e)|destruct (ee_trace_parent e)]; done.
Qed.

Lemma required_fields_present e :
  filter (λ f, to_dict e !! f = None) REQUIRED_ENVELOPE_FIELDS = [].
Proof.
  assert (∀ f, f ∈ REQUIRED_ENVELOPE_FIELDS → to_dict e !! f ≠ None) as H.
  { intros f. unfold REQUIRED_ENVELOPE_FIELDS. rewrite !elem_of_cons.
    intros Hf. destruct_or!; subst; try (look_field; done). by apply elem_of_nil in Hf. }
  destruct (filter _ _) as [|f l] eqn:Hf; [done|].
  assert (f ∈ f :: l) as Hin by apply list_elem_of_here. rewrite <- Hf in Hin.
  apply list_elem_of_filter in Hin as [? ?]. exfalso. by eapply H.
Qed.

Lemma from_to_dict e : from_dict py_repr (to_dict e) = Ok e.
Proof.
  unfold from_dict.
  assert (to_dict e !! "specversion" = Some (JStr "1.0")) as -> by by look_field.
  rewrite required_fields_present.
  assert (to_dict e !! "data" = Some (JObj (ee_data e))) as -> by by look_field.
  destruct (optional_str_to_dict e) as (-> & -> & -> & ->).
  assert (to_dict e !! "id" = Some (JStr (ee_message_id e))) as -> by by look_field.
  assert (to_dict e !! "source" = Some (JStr (ee_source e))) as -> by by look_field.
  assert (to_dict e !! "type" = Some (JStr (ee_event_type e))) as -> by by look_field.
  assert (to_dict e !! "partitionkey" = Some (JStr (ee_partition_key e))) as -> by by look_field.
  assert (to_dict e !! "time" = Some (JStr (ee_time e))) as -> by by look_field.
  assert (to_dict e !! "tenantid" = Some (JStr (ee_tenant_id e))) as -> by by look_field.
  assert (to_dict e !! "dataschema" = Some (JStr (ee_data_schema e))) as -> by by look_field.
  by destruct e.
Qed.
End Envelope.

(** Envelopes survive the wire.  Whatever the producer hands to Kafka, the
    consumer decodes back to the same envelope: the dictionary form followed by
    the JSON codec loses nothing, optional metadata included, for any codec
    whose parser reads what its printer wrote; and a record of an event type
    without an override of its own goes to the topic named after the type, or
    to the configured topic for execution requests. *)
Theorem envelope_wire_roundtrip (py_repr : json → string) (dumps : json → bytes)
    (loads : bytes → option json) (e : ExecutionEnvelope) servers topic overrides topics :
  (∀ j, loads (dumps j) = Some j) →
  new_kafka_bus servers topic overrides = Ok topics →
  let '(t, value, key) := kafka_publish dumps topics e in
  decode py_repr loads (Some value) = Ok e ∧
  (overrides !! ee_event_type e = None →
   t = if bool_decide (ee_event_type e = EXECUTION_REQUESTED_EVENT) then topic
       else ee_event_type e).
Proof.
  intros Hcodec Hbus. unfold kafka_publish, decode. rewrite Hcodec.
  split; [apply from_to_dict|]. intros Ho. revert Hbus. unfold new_kafka_bus.
  do 2 (case_bool_decide; [done|]). intros [= <-]. rewrite lookup_union_r by done.
  case_bool_decide as He; [by rewrite He, lookup_singleton_eq|].
  by rewrite lookup_singleton_ne.
Qed.

(** ** Partitions *)
Section Routing.
  Context (sha256 : bytes → bytes).

Lemma stable_bucket_range key n :
  0 ≤ n → ∃ p, stable_bucket sha256 key n = Ok p ∧ 0 ≤ p < Z.max n 1.
Proof.
  intros Hn. unfold stable_bucket. replace (n <? 0) with false by lia.
  eexists. split; [done|]. apply Z.mod_pos_bound. lia.
Qed.

(** The Session an envelope's payload names. *)
Definition names_session (e : ExecutionEnvelope) (t s : string) : Prop :=
  ee_data e !! "tenant_id" = Some (JStr t) ∧ ee_data e !! "session_id" = Some (JStr s).

Lemma partition_of_range e n :
  0 ≤ n → ∃ p, partition_of sha256 e n = Ok p ∧ 0 ≤ p < Z.max n 1.
Proof.
  intros Hn. unfold partition_of, partition_for.
  destruct (ee_data e !! "tenant_id") as [[]|]; try by apply stable_bucket_range.
  destruct (ee_data e !! "session_id") as [[]|]; by apply stable_bucket_range.
Qed.
End Routing.

(** One Session, one partition.  Every envelope is routed to a partition in
    range, and two envelopes whose payloads name the same tenant Session are
    routed to the same one, whatever else they carry. *)
Theorem session_stays_on_partition sha256 e1 e2 n t s :
  0 ≤ n → names_session e1 t s → names_session e2 t s →
  ∃ p, partition_of sha256 e1 n = Ok p ∧ partition_of sha256 e2 n = Ok p ∧
       0 ≤ p < Z.max n 1.
Proof.
  intros Hn [Ht1 Hs1] [Ht2 Hs2]. destruct (partition_of_range sha256 e1 n Hn) as (p & Hp & Hr).
  exists p. split; [done|]. split; [|done]. revert Hp. unfold partition_of.
  by rewrite Ht1, Hs1, Ht2, Hs2.
Qed.

(** ** The in-memory transport *)
Lemma first_pending_spec ps :
  match first_pending ps with
  | None => Forall (λ q, q = []) ps
  | Some (before, e, rest, after) =>
      ps = before ++ (e :: rest) :: after ∧ Forall (λ q, q = []) before
  end.
Proof.
  induction ps as [|[|e q] ps IH]; simpl; [constructor| |done].
  destruct (first_pending ps) as [[[[before e] rest] after]|]; [|by constructor].
  destruct IH as [-> ?]. split; [done|]. by constructor.
Qed.

(** Each partition of [bus'] is what is left at the end of the same partition of
    [bus]. *)
Definition suffix_of_bus (bus' bus : InMemoryBus) : Prop :=
  Forall2 (λ q' q, q' `suffix_of` q) (mb_partitions bus') (mb_partitions bus).

Lemma suffixes_refl {A} (l : list (list A)) : Forall2 (λ q' q, q' `suffix_of` q) l l.
Proof. induction l; by constructor. Qed.

Lemma suffix_of_bus_refl bus : suffix_of_bus bus bus.
Proof. apply suffixes_refl. Qed.

Lemma sum_list_app l1 l2 : sum_list (l1 ++ l2) = (sum_list l1 + sum_list l2)%nat.
Proof. induction l1 as [|x l1 IH]; simpl; [done|]. rewrite IH. lia. Qed.

Lemma suffix_of_bus_trans a b c : suffix_of_bus a b → suffix_of_bus b c → suffix_of_bus a c.
Proof.
  unfold suffix_of_bus. apply Forall2_trans. intros ???. apply transitivity.
Qed.

Lemma deliver_once_spec consumer bus more bus' :
  deliver_once consumer bus = (more, bus') →
  suffix_of_bus bus' bus ∧ mb_published bus' = mb_published bus ∧
  (if more then pending_count bus = S (pending_count bus')
   else pending_count bus' = pending_count bus ∧
        (pending_count bus = 0%nat ∨ ∃ e, consumer e = false)).
Proof.
  unfold deliver_once. pose proof (first_pending_spec (mb_partitions bus)) as Hf.
  destruct (first_pending _) as [[[[before e] rest] after]|].
  - destruct Hf as [Hps Hb]. destruct (consumer e) eqn:He; intros [= <- <-].
    + unfold suffix_of_bus, pending_count. simpl. rewrite Hps. split; [|split; [done|]].
      * apply Forall2_app; [apply suffixes_refl|].
        constructor; [by apply suffix_cons_r|apply suffixes_refl].
      * rewrite !fmap_app, !sum_list_app. simpl. lia.
    + split; [apply suffixes_refl|]. split; [done|]. split; [done|]. right. eauto.
  - intros [= <- <-]. split; [apply suffix_of_bus_refl|]. split; [done|]. split; [done|].
    left. unfold pending_count. induction Hf as [|q ps -> _ IH]; [done|]. done.
Qed.

Lemma drain_fuel_spec fuel consumer bus :
  (pending_count bus < fuel)%nat →
  ∃ n bus', drain_fuel fuel consumer bus = Some (n, bus') ∧ suffix_of_bus bus' bus ∧
    (n + pending_count bus' = pending_count bus)%nat ∧
    ((∀ e, consumer e = true) → pending_count bus' = 0%nat).
Proof.
  revert bus. induction fuel as [|fuel IH]; intros bus Hf; [lia|]. simpl.
  destruct (deliver_once consumer bus) as [more bus1] eqn:Hd.
  apply deliver_once_spec in Hd as (Hs & _ & Hm). destruct more.
  - destruct (IH bus1) as (n & bus' & -> & Hs' & Hn & Hall); [lia|].
    exists (S n), bus'. split; [done|]. split; [by eapply suffix_of_bus_trans|].
    split; [lia|done].
  - destruct Hm as [Hp Hor]. exists 0%nat, bus1. split; [done|]. split; [done|]. split; [lia|].
    intros Hall. destruct Hor as [?|[e He]]; [lia|]. by rewrite Hall in He.
Qed.

(** Draining terminates and loses nothing.  The loop of [drain] always ends;
    the number of acknowledged envelopes plus what is still queued is what was
    queued before; what is left of each partition is the tail of that partition,
    so envelopes leave in publication order; and a consumer that never fails
    empties the bus. *)
Theorem drain_terminates_in_order consumer bus :
  ∃ n bus', drain consumer bus = Some (n, bus') ∧ suffix_of_bus bus' bus ∧
    (n + pending_count bus' = pending_count bus)%nat ∧
    ((∀ e, consumer e = true) → pending_count bus' = 0%nat).
Proof. apply drain_fuel_spec. lia. Qed.

(** ** The Kafka consumer *)
Section Kafka.
  Context (py_repr : json → string) (loads : bytes → option json).
  Context (handler : ExecutionEnvelope → outcome BusError unit) (cfg : ConsumerConfig).

(** The record was decoded and its handler completed. *)
Definition handled (r : KafkaRecord) : Prop :=
  ∃ e, decode py_repr loads (kr_value r) = Ok e ∧ handler e = Ok tt.

(** A dead letter for exactly this record, with its original bytes. *)
Definition parked (tp : topic_partition) (r : KafkaRecord) (d : DeadLetter) : Prop :=
  dl_source_topic d = tp.1 ∧ dl_source_partition d = tp.2 ∧ dl_source_offset d = kr_offset r ∧
  dl_payload d = default [] (kr_value r) ∧ cc_max_delivery_attempts cfg ≤ dl_attempts d.

Lemma process_record_commits dlq_ok commit_ok tp r s res s' :
  process_record py_repr loads handler dlq_ok commit_ok cfg tp r s = (res, s') →
  (cs_committed s' = cs_committed s ∧ cs_dead_letters s `prefix_of` cs_dead_letters s'
     ∧ res ≠ Ok true) ∨
  (cs_committed s' = <[tp := kr_offset r + 1]> (cs_committed s) ∧ res = Ok true ∧
   ((handled r ∧ cs_dead_letters s' = cs_dead_letters s) ∨
    ∃ d, parked tp r d ∧ cs_dead_letters s' = cs_dead_letters s ++ [d])).
Proof.
  unfold process_record, commit_offset, publish_dead_letter, seek, try_catch, gets, modify, raise,
    mbind, ST_mbind, mret, ST_mret.
  destruct (match decode py_repr loads (kr_value r) with
            | Ok envelope => handler envelope | Raise e => Raise e end) as [[]|err] eqn:Hh.
  - assert (handled r) as Hhd.
    { unfold handled. destruct (decode _ _ _) as [e|]; [|done]. by exists e. }
    destruct commit_ok; intros [= <- <-]; [right|left]; simpl; auto.
  - clear Hh.
    destruct err; intros H; try (injection H as <- <-; left; simpl; by auto);
      simpl in H; destruct (_ && _) eqn:Hc; simpl in H;
      try (injection H as <- <-; left; simpl; by auto);
      apply andb_true_iff in Hc as [_ Hc]; apply Z.leb_le in Hc;
      destruct dlq_ok; simpl in H; try (injection H as <- <-; left; simpl; by auto);
      destruct commit_ok; simpl in H; injection H as <- <-; simpl.
    all: first [left; split; [done|]; split; [by eexists|done]
               |right; split; [done|]; split; [done|]; right; eexists; split; [|done];
                repeat split; done].
Qed.

Lemma fetch_frame batches s :
  ∃ s1, fetch batches s = (Ok tt, s1) ∧ cs_committed s1 = cs_committed s ∧
    cs_dead_letters s1 = cs_dead_letters s ∧ cs_failure_attempts s1 = cs_failure_attempts s.
Proof.
  set (frame s1 := cs_committed s1 = cs_committed s ∧ cs_dead_letters s1 = cs_dead_letters s ∧
                   cs_failure_attempts s1 = cs_failure_attempts s).
  assert (maintains (λ _ _, False) frame (fetch batches)) as H.
  { unfold fetch. preserve. by apply maintains_modify. }
  specialize (H s ltac:(done)). destruct (fetch batches s) as [[[]|] s1]; [|done].
  exists s1. by destruct H as (? & ? & ?).
Qed.
End Kafka.

(** A record is acknowledged only when it is safe.  After one round of the
    consumer the committed offsets are unchanged, or exactly one partition
    advanced to just past a record of the fetched batch, and then either that
    record's handler completed, or the dead-letter topic has received the
    record's original bytes and coordinates after at least the configured
    number of attempts. *)
Theorem commit_only_handled_or_parked py_repr loads handler cfg dlq_ok commit_ok batches
    s res s' :
  process_once py_repr loads handler dlq_ok commit_ok cfg batches s = (res, s') →
  (cs_committed s' = cs_committed s ∧ res ≠ Ok true) ∨
  (∃ tp r rs, (tp, r :: rs) ∈ batches ∧
     cs_committed s' = <[tp := kr_offset r + 1]> (cs_committed s) ∧ res = Ok true ∧
     ((handled py_repr loads handler r ∧ cs_dead_letters s' = cs_dead_letters s) ∨
      ∃ d, parked cfg tp r d ∧ cs_dead_letters s' = cs_dead_letters s ++ [d])).
Proof.
  unfold process_once, mbind, ST_mbind. destruct (fetch_frame batches s) as (s1 & -> & <- & <- & _).
  induction batches as [|[tp [|r rs]] batches IH]; simpl.
  - intros [= <- <-]. left. done.
  - intros H. destruct (IH H) as [?|(tp' & r & rs & Hin & ?)]; [by left|right].
    exists tp', r, rs. split; [by apply elem_of_cons; right|done].
  - intros H. apply process_record_commits in H as [(? & _ & ?)|(? & ? & ?)]; [by left|right].
    exists tp, r, rs. split; [apply list_elem_of_here|done].
Qed.

(** ** Poison records *)
Lemma run_forever_app py_repr loads cfg rs1 rs2 s s1 :
  run_forever py_repr loads cfg rs1 s = (Ok tt, s1) →
  run_forever py_repr loads cfg (rs1 ++ rs2) s = run_forever py_repr loads cfg rs2 s1.
Proof.
  revert s. induction rs1 as [|r rs1 IH]; intros s; simpl; [by intros [= ->]|].
  intros (u & s' & Hr & Hrest)%bind_Ok. unfold mbind at 1, ST_mbind at 1. rewrite Hr. by apply IH.
Qed.

Section Poison.
  Context (py_repr : json → string) (loads : bytes → option json).
  Context (handler : ExecutionEnvelope → outcome BusError unit) (cfg : ConsumerConfig).
  Context (tp : topic_partition) (r : KafkaRecord) (err : BusError).

(** The record fails whenever it is delivered, with an error that is not a
    cancellation. *)
Definition poisonous : Prop :=
  match decode py_repr loads (kr_value r) with
  | Raise e => e = err
  | Ok e => handler e = Raise err
  end ∧ err ≠ BCancelled.

Lemma poison_round s :
  poisonous → cc_has_dead_letter_producer cfg = true →
  let key := failure_key tp (kr_offset r) in
  let attempts := default 0 (cs_failure_attempts s !! key) + 1 in
  let '(res, s') := process_once py_repr loads handler true true cfg [(tp, [r])] s in
  if cc_max_delivery_attempts cfg <=? attempts then
    res = Ok true ∧ cs_committed s' = <[tp := kr_offset r + 1]> (cs_committed s) ∧
    (∃ d, parked cfg tp r d ∧ cs_dead_letters s' = cs_dead_letters s ++ [d]) ∧
    cs_failure_attempts s' !! key = None
  else
    res = Raise err ∧ cs_committed s' = cs_committed s ∧
    cs_dead_letters s' = cs_dead_letters s ∧ cs_failure_attempts s' !! key = Some attempts ∧
    cs_position s' !! tp = Some (kr_offset r).
Proof.
  intros [Hp Hc] Hdlq. unfold process_once, mbind at 1, ST_mbind at 1.
  destruct (fetch_frame [(tp, [r])] s) as (s1 & -> & <- & <- & <-).
  simpl. unfold process_record.
  replace (match decode py_repr loads (kr_value r) with
           | Ok envelope => handler envelope | Raise e => Raise e end) with (Raise err : outcome BusError unit)
    by (destruct (decode _ _ _); congruence).
  unfold commit_offset, publish_dead_letter, seek, try_catch, gets, modify, raise, mbind, ST_mbind,
    mret, ST_mret. rewrite Hdlq. simpl.
  destruct err; try done; (destruct (_ <=? _) eqn:Hle; simpl;
    [repeat split; [by apply Z.leb_le in Hle; eexists; split; [|done]; repeat split|
                    by rewrite lookup_delete_eq]
    |repeat split; by rewrite lookup_insert_eq]).
Qed.

(** One delivery of the record to a working dead-letter producer and broker. *)
Definition poison_delivery : Round :=
  {| rd_handler := handler; rd_dead_letter_ok := true; rd_commit_ok := true;
     rd_batches := [(tp, [r])] |}.

Definition failures (s : ConsumerState) : Z :=
  default 0 (cs_failure_attempts s !! failure_key tp (kr_offset r)).

Lemma poison_rounds n s :
  poisonous → cc_has_dead_letter_producer cfg = true →
  failures s + Z.of_nat n < cc_max_delivery_attempts cfg →
  ∃ s', run_forever py_repr loads cfg (replicate n poison_delivery) s = (Ok tt, s') ∧
    cs_committed s' = cs_committed s ∧ cs_dead_letters s' = cs_dead_letters s ∧
    failures s' = failures s + Z.of_nat n.
Proof.
  intros Hp Hd. revert s. induction n as [|n IH]; intros s Hn.
  - exists s. repeat split; try done. lia.
  - pose proof (poison_round s Hp Hd) as Hr. cbv zeta in Hr. destruct Hp as [_ Hc]. simpl.
    unfold mbind at 1, ST_mbind at 1, try_catch, mbind at 1, ST_mbind at 1.
    destruct (process_once _ _ _ _ _ _ _ s) as [res s1].
    change (default 0 (cs_failure_attempts s !! failure_key tp (kr_offset r)))
      with (failures s) in Hr.
    rewrite (proj2 (Z.leb_gt _ _)) in Hr by lia.
    destruct Hr as (-> & Hc1 & Hd1 & Hf & _).
    assert (failures s1 = failures s + 1) as Hf1 by (unfold failures; by rewrite Hf).
    destruct (IH s1) as (s' & Hrun & ? & ? & ?); [lia|]. exists s'.
    destruct err; try done; (split; [exact Hrun|]; repeat split; [congruence..|lia]).
Qed.
End Poison.

(** Retries are bounded.  A record that fails on every delivery is retried
    with nothing acknowledged for its first [max_delivery_attempts - 1]
    deliveries; the next one parks exactly one dead letter with its original
    bytes, moves the committed offset past it and forgets its failure count. *)
Theorem poison_record_parked_at_limit py_repr loads handler cfg tp r err s :
  poisonous py_repr loads handler r err → cc_has_dead_letter_producer cfg = true →
  1 ≤ cc_max_delivery_attempts cfg → failures tp r s = 0 →
  let run n := run_forever py_repr loads cfg (replicate n (poison_delivery handler tp r)) s in
  let last := Z.to_nat (cc_max_delivery_attempts cfg) in
  (∀ n, (n < last)%nat → (run n).1 = Ok tt ∧ cs_committed (run n).2 = cs_committed s ∧
     cs_dead_letters (run n).2 = cs_dead_letters s) ∧
  (run last).1 = Ok tt ∧ failures tp r (run last).2 = 0 ∧
  cs_committed (run last).2 = <[tp := kr_offset r + 1]> (cs_committed s) ∧
  ∃ d, parked cfg tp r d ∧ cs_dead_letters (run last).2 = cs_dead_letters s ++ [d].
Proof.
  intros Hp Hd Hmax H0 run last. split.
  - intros n Hn. subst run. simpl.
    edestruct (poison_rounds py_repr loads handler cfg tp r err n s)
      as (s' & -> & ? & ? & _); [done..|lia|done].
  - subst run. simpl. assert (last = (last - 1) + 1)%nat as -> by lia.
    rewrite replicate_add.
    edestruct (poison_rounds py_repr loads handler cfg tp r err (last - 1) s)
      as (s1 & Hrun & Hc & Hdl & Hf); [done..|lia|].
    rewrite (run_forever_app _ _ _ _ _ _ _ Hrun). simpl.
    pose proof (poison_round py_repr loads handler cfg tp r err s1 Hp Hd) as Hr. cbv zeta in Hr.
    unfold mbind, ST_mbind, try_catch.
    destruct (process_once _ _ _ _ _ _ _ s1) as [res s2].
    change (default 0 (cs_failure_attempts s1 !! failure_key tp (kr_offset r)))
      with (failures tp r s1) in Hr.
    rewrite (proj2 (Z.leb_le _ _)) in Hr by lia.
    destruct Hr as (-> & Hc2 & (d & Hpk & Hd2) & Hk). simpl. rewrite Hc2, Hd2, Hc, Hdl.
    split; [done|]. split; [unfold failures; by rewrite Hk|]. split; [done|]. by exists d.
Qed.

(** ** The outbox dispatcher *)

(** The rows before the first one the bus refuses. *)
Fixpoint accepted (publish_ok : ExecutionEnvelope → bool) (rows : list OutboxRecord)
    : list OutboxRecord :=
  match rows with
  | [] => []
  | row :: rows' => if publish_ok (envelope_of row) then row :: accepted publish_ok rows' else []
  end.

Definition mark_all (rows table : list OutboxRecord) : list OutboxRecord :=
  foldl (λ t row, set_status (ob_id row) <$> t) table rows.

Lemma dispatch_rows_run ok rows s :
  let '(res, s') := dispatch_rows ok rows s in
  ds_bus s' = ds_bus s ++ (envelope_of <$> accepted ok rows) ∧
  ds_outbox s' = mark_all (accepted ok rows) (ds_outbox s) ∧
  res = if (length (accepted ok rows) =? length rows)%nat then Ok (Z.of_nat (length rows))
        else Raise BPublish.
Proof.
  revert s. induction rows as [|row rows IH]; intros s; simpl.
  { unfold mret, ST_mret. by rewrite app_nil_r. }
  unfold mbind, ST_mbind. destruct (ok (envelope_of row)); simpl.
  - set (s1 := {| ds_outbox := set_status (ob_id row) <$> ds_outbox s;
                  ds_bus := ds_bus s ++ [envelope_of row] |}).
    specialize (IH s1). destruct (dispatch_rows ok rows s1) as [res s'].
    destruct IH as (Hb & Ho & ->).
    destruct (_ =? _)%nat; simpl; rewrite Hb, Ho;
      (split; [subst s1; simpl; by rewrite <- app_assoc|split; [done|]]); [|done].
    f_equal. lia.
  - by rewrite app_nil_r.
Qed.

Lemma set_status_id id r : ob_id (set_status id r) = ob_id r.
Proof. unfold set_status. by case_match. Qed.
Lemma set_status_envelope id r : envelope_of (set_status id r) = envelope_of r.
Proof. unfold set_status. by case_match. Qed.
Lemma set_status_published id r :
  ob_status (set_status id r) = PUBLISHED ↔ ob_status r = PUBLISHED ∨ ob_id r = id.
Proof.
  unfold set_status. destruct (decide (ob_id r = id)) as [Hid|Hid].
  - rewrite (bool_decide_eq_true_2 _ Hid). destruct (ob_status r) eqn:Hs; simpl; [tauto|].
    rewrite Hs. tauto.
  - rewrite (bool_decide_eq_false_2 _ Hid). simpl. tauto.
Qed.

Lemma mark_all_ids rows t : ob_id <$> mark_all rows t = ob_id <$> t.
Proof.
  unfold mark_all. revert t. induction rows as [|row rows IH]; intros t; simpl; [done|].
  rewrite IH, <- list_fmap_compose. apply list_fmap_ext. intros ? x _. apply set_status_id.
Qed.

(** Every row of the marked table comes from a row with its identity and
    envelope, and is published only if that row was or is among the marked. *)
Lemma mark_all_elem rows t r :
  r ∈ mark_all rows t →
  ∃ r0, r0 ∈ t ∧ ob_id r = ob_id r0 ∧ envelope_of r = envelope_of r0 ∧
    (ob_status r = PUBLISHED ↔ ob_status r0 = PUBLISHED ∨ ob_id r0 ∈ ob_id <$> rows).
Proof.
  unfold mark_all. revert t. induction rows as [|row rows IH]; intros t Hr; simpl in *.
  { exists r. repeat split; [done..|by left|]. intros [?|[]%elem_of_nil]; done. }
  destruct (IH _ Hr) as (r1 & (r0 & -> & Hr0)%list_elem_of_fmap & Hid & He & Hst).
  exists r0. rewrite set_status_id in Hid. rewrite set_status_envelope in He.
  split; [done|]. split; [done|]. split; [done|].
  rewrite Hst, set_status_published, set_status_id, elem_of_cons. tauto.
Qed.

Lemma accepted_prefix ok rows : accepted ok rows `prefix_of` rows.
Proof.
  induction rows as [|row rows IH]; simpl; [done|].
  case_match; [by apply prefix_cons|apply prefix_nil].
Qed.

Lemma select_pending_elem locked n t r :
  r ∈ select_pending locked n t → r ∈ t ∧ ob_status r = PENDING.
Proof.
  intros Hr. apply subseteq_take in Hr.
  rewrite merge_sort_Permutation in Hr.
  by apply list_elem_of_filter in Hr as [[??] ?].
Qed.

(** What the outbox promises: rows are identified by their id, and a row that is
    marked published has an envelope the bus accepted. *)
Definition outbox_sound (s : DispatchState) : Prop :=
  NoDup (ob_id <$> ds_outbox s) ∧
  ∀ r, r ∈ ds_outbox s → ob_status r = PUBLISHED → envelope_of r ∈ ds_bus s.

(** The steps of the system: a business transaction appends a pending row with a
    fresh id, or a dispatcher runs, under any fault of its connection, with any
    rows locked by others and any refusals of the bus. *)
Inductive outbox_step (s : DispatchState) : DispatchState → Prop :=
  | step_insert r :
      ob_status r = PENDING → ob_id r ∉ ob_id <$> ds_outbox s →
      outbox_step s {| ds_outbox := ds_outbox s ++ [r]; ds_bus := ds_bus s |}
  | step_dispatch fault locked n ok :
      outbox_step s (dispatch_pending fault locked n ok s).2.

Lemma dispatch_pending_run fault locked n ok s :
  let sent := accepted ok (select_pending locked n (ds_outbox s)) in
  let s' := (dispatch_pending fault locked n ok s).2 in
  ds_bus s' = ds_bus s ++ (envelope_of <$> sent) ∧
  (ds_outbox s' = ds_outbox s ∨ ds_outbox s' = mark_all sent (ds_outbox s)).
Proof.
  unfold dispatch_pending, outbox_transaction, mbind, ST_mbind, gets.
  pose proof (dispatch_rows_run ok (select_pending locked n (ds_outbox s)) s) as H.
  destruct (dispatch_rows _ _ _) as [[k|e] s']; destruct H as (Hb & Ho & _); [destruct fault|];
    simpl; auto.
Qed.

Lemma outbox_step_sound s s' : outbox_step s s' → outbox_sound s → outbox_sound s'.
Proof.
  intros Hstep [Hnd Hpub]. destruct Hstep as [r Hst Hfresh|fault locked n ok].
  - split; simpl.
    + rewrite fmap_app. apply NoDup_app. repeat split; [done| |apply NoDup_singleton].
      intros x Hx ->%list_elem_of_singleton. done.
    + intros r' [?| ->%list_elem_of_singleton]%elem_of_app; [auto|congruence].
  - pose proof (dispatch_pending_run fault locked n ok s) as Hrun. cbv zeta in Hrun.
    set (sent := accepted ok _) in Hrun. destruct Hrun as [Hb Ho].
    assert (∀ r, r ∈ sent → r ∈ ds_outbox s) as Hsent.
    { intros r Hr. eapply select_pending_elem, elem_of_prefix; [|apply accepted_prefix]; done. }
    destruct Ho as [Ho|Ho]; split; rewrite Ho; [done| |by rewrite mark_all_ids|].
    + intros r Hr Hp. rewrite Hb. apply elem_of_app. left. auto.
    + intros r (r0 & Hr0 & _ & -> & Hst)%mark_all_elem Hp. rewrite Hb. apply elem_of_app.
      destruct (proj1 Hst Hp) as [?|(r1 & Hid & Hr1)%list_elem_of_fmap]; [left; auto|right].
      assert (r0 = r1) as <-; [|by apply list_elem_of_fmap_2].
      eapply NoDup_fmap_elem_inj; eauto.
Qed.

(** Nothing is marked published that was not sent.  Along any interleaving of
    business transactions that append pending rows and of dispatcher runs, with
    connections lost before or after their commit, rows locked by concurrent
    dispatchers and a bus that refuses any envelope, every row marked PUBLISHED
    has its envelope on the bus. *)
Theorem published_rows_are_on_the_bus s s' :
  outbox_sound s → rtc outbox_step s s' → outbox_sound s'.
Proof.
  intros H0 Hsteps. induction Hsteps as [|s s1 s' Hstep _ IH]; [done|].
  apply IH. by eapply outbox_step_sound.
Qed.

Lemma accepted_all rows : accepted (λ _, true) rows = rows.
Proof. induction rows; simpl; congruence. Qed.

Lemma Sorted_take {A} (R : relation A) n l : Sorted R l → Sorted R (take n l).
Proof.
  intros Hl. revert n. induction Hl as [|x l Hl IH Hx]; intros [|n]; simpl; constructor; [done|].
  destruct Hx; [by rewrite take_nil; constructor|]. destruct n; by constructor.
Qed.

#[local] Instance row_le_total : Total row_le.
Proof. intros a b. unfold row_le. lia. Qed.
#[local] Instance row_le_trans : Transitive row_le.
Proof. intros a b c. unfold row_le. lia. Qed.

(** A clean dispatch drains in order.  With the bus and the database up and no
    competing dispatcher, one run sends the oldest pending rows, in creation
    order and at most [batch_size] of them, leaves those already sent alone, and
    when the batch is large enough for all pending rows none is left pending. *)
Theorem clean_dispatch_publishes_in_order n s :
  let batch := select_pending (λ _, false) n (ds_outbox s) in
  ∃ s', dispatch_pending NoFault (λ _, false) n (λ _, true) s
          = (Ok (Z.of_nat (length batch)), s') ∧
    ds_bus s' = ds_bus s ++ (envelope_of <$> batch) ∧
    Sorted row_le batch ∧ (length batch ≤ n)%nat ∧
    (∀ r, r ∈ batch → ob_status r = PENDING) ∧
    ((length (filter (λ r, ob_status r = PENDING) (ds_outbox s)) ≤ n)%nat →
     ∀ r, r ∈ ds_outbox s' → ob_status r = PUBLISHED).
Proof.
  intros batch. unfold dispatch_pending, outbox_transaction, mbind, ST_mbind, gets.
  fold batch. pose proof (dispatch_rows_run (λ _, true) batch s) as H.
  destruct (dispatch_rows _ _ _) as [res s']. rewrite accepted_all, Nat.eqb_refl in H.
  destruct H as (Hb & Ho & ->). exists s'. split; [done|]. split; [done|].
  split; [apply Sorted_take, Sorted_merge_sort, _|].
  split; [unfold batch, select_pending; rewrite length_take; lia|]. split; [intros r Hr; by eapply select_pending_elem|].
  intros Hn r Hr. rewrite Ho in Hr.
  destruct (mark_all_elem _ _ _ Hr) as (r0 & Hr0 & _ & _ & Hst).
  apply Hst. destruct (ob_status r0) eqn:Hp; [right|by left].
  apply list_elem_of_fmap_2. unfold batch, select_pending.
  rewrite take_ge; rewrite merge_sort_Permutation; [by apply list_elem_of_filter|].
  etrans; [|exact Hn]. apply Nat.eq_le_incl. f_equal. apply list_filter_iff. naive_solver.
Qed.

(** ** Concrete instances *)
Definition sample_row (n : Z) : OutboxRecord :=
  {| ob_id := n; ob_tenant_id := 7; ob_message_id := "m1"; ob_source := GATEWAY_SOURCE;
     ob_event_type := EXECUTION_REQUESTED_EVENT; ob_partition_key := "7:9";
     ob_causation_id := None; ob_correlation_id := Some "c"; ob_data_classification := None;
     ob_payload := <["tenant_id" := JStr "7"]> {["session_id" := JStr "9"]};
     ob_status := PENDING; ob_attempts := 0; ob_created_at := 1000 * n |}.
Definition sample_envelope (n : Z) : ExecutionEnvelope := envelope_of (sample_row n).

Definition sample_consumer : ConsumerConfig :=
  {| cc_topic := "exec"; cc_dead_letter_topic := "dlq"; cc_max_delivery_attempts := 3;
     cc_has_dead_letter_producer := true |}.
Definition fresh_consumer : ConsumerState :=
  {| cs_position := ∅; cs_committed := ∅; cs_failure_attempts := ∅; cs_dead_letters := [] |}.
Definition null_record : KafkaRecord := {| kr_offset := 4; kr_value := None |}.

(** Two Sessions' worth of state: a row that was sent earlier and one to come. *)
Definition sample_dispatch : DispatchState :=
  {| ds_outbox := [set_status 1 (sample_row 1); sample_row 2]; ds_bus := [sample_envelope 1] |}.

Lemma envelope_wire_roundtrip_witness :
  let '(t, value, key) := kafka_publish sample_dumps {[EXECUTION_REQUESTED_EVENT := "exec"]}
                            (sample_envelope 1) in
  decode (λ _, "") sample_loads (Some value) = Ok (sample_envelope 1) ∧ t = "exec".
Proof.
  pose proof (envelope_wire_roundtrip (λ _, "") sample_dumps sample_loads (sample_envelope 1)
    "broker:9092" "exec" ∅ {[EXECUTION_REQUESTED_EVENT := "exec"]} sample_codec eq_refl) as H.
  destruct (kafka_publish _ _ _) as [[t v] k]. destruct H as [Hd Ht]. split; [exact Hd|].
  exact (Ht eq_refl).
Defined.

Lemma session_stays_on_partition_witness :
  ∃ p, partition_of (λ b, b) (sample_envelope 1) 8 = Ok p ∧
       partition_of (λ b, b) (sample_envelope 2) 8 = Ok p ∧ 0 ≤ p < Z.max 8 1.
Proof.
  apply (session_stays_on_partition (λ b, b) (sample_envelope 1) (sample_envelope 2) 8 "7" "9");
    [lia|by split..].
Defined.

Lemma drain_terminates_in_order_witness :
  ∃ n bus', drain (λ _, true) {| mb_partitions := [[sample_envelope 1]; [sample_envelope 2]];
                                 mb_deliveries := ∅; mb_published := [] |} = Some (n, bus') ∧
    (n + pending_count bus' = 2)%nat ∧ pending_count bus' = 0%nat.
Proof.
  destruct (drain_terminates_in_order (λ _, true)
    {| mb_partitions := [[sample_envelope 1]; [sample_envelope 2]];
       mb_deliveries := ∅; mb_published := [] |}) as (n & bus' & Hd & _ & Hn & Hall).
  exists n, bus'. split; [exact Hd|]. split; [exact Hn|]. apply Hall. intros; reflexivity.
Defined.

Lemma commit_only_handled_or_parked_witness :
  let out := process_once (λ _, "") (λ _, None) (λ _, Ok tt) true true sample_consumer
               [(("exec", 0), [null_record])] fresh_consumer in
  cs_committed out.2 = ∅ ∧ out.1 ≠ Ok true.
Proof.
  destruct (commit_only_handled_or_parked (λ _, "") (λ _, None) (λ _, Ok tt) sample_consumer
    true true [(("exec", 0), [null_record])] fresh_consumer
    (Raise (BValue "execution bus record value must not be null")) _ eq_refl)
    as [H|(tp & r & rs & _ & _ & H & _)]; [exact H|discriminate H].
Defined.

Lemma poison_record_parked_at_limit_witness :
  ∃ d, parked sample_consumer ("exec", 0) null_record d ∧
    cs_dead_letters (run_forever (λ _, "") (λ _, None) sample_consumer
      (replicate 3 (poison_delivery (λ _, Ok tt) ("exec", 0) null_record)) fresh_consumer).2 = [d].
Proof.
  destruct (poison_record_parked_at_limit (λ _, "") (λ _, None) (λ _, Ok tt) sample_consumer
    ("exec", 0) null_record (BValue "execution bus record value must not be null")
    fresh_consumer) as (_ & _ & _ & _ & H); [split; done|done|done|done|exact H].
Defined.

Lemma published_rows_are_on_the_bus_witness :
  outbox_sound (dispatch_pending LostAfterCommit (λ _, false) 10 (λ _, true) sample_dispatch).2.
Proof.
  apply (published_rows_are_on_the_bus sample_dispatch).
  - split; [by apply (bool_decide_unpack _)|]. intros r Hr.
    apply elem_of_cons in Hr as [->|[->|[]%elem_of_nil]%elem_of_cons]; [|discriminate].
    intros _. apply list_elem_of_here.
  - apply rtc_once, step_dispatch.
Defined.

Lemma clean_dispatch_publishes_in_order_witness :
  Forall (λ r, ob_status r = PUBLISHED)
    (ds_outbox (dispatch_pending NoFault (λ _, false) 10 (λ _, true) sample_dispatch).2).
Proof.
  destruct (clean_dispatch_publishes_in_order 10 sample_dispatch)
    as (s' & -> & _ & _ & _ & _ & H). apply Forall_forall. apply H. vm_compute. lia.
Defined.
