(* ===== verification/Backpressure.v ===== *)
(** * Admission control (trpc_service/backpressure.py and migration 0032)

    The token bucket of one gateway replica, the platform-wide bucket and
    in-flight limit of [platform.try_admit_execution], and the saturation level.

    Clocks are in microseconds and token counts in millionths of a token, so
    that the refill [elapsed * sustained_per_second] is exact; the rounding of
    Python's floats, below one part in 2^52 of the bucket, is not modelled. *)

From Stdlib Require Import Sorted.
From S2P Require Import Prelude.
Open Scope Z_scope.

Record CapacityPolicy := {
  sustained_per_second : Z;
  burst_per_second : Z;
  burst_seconds : Z;
  max_in_flight : Z;
}.

(** The defaults of the dataclass. *)
Definition default_policy : CapacityPolicy :=
  {| sustained_per_second := 1000; burst_per_second := 3000; burst_seconds := 60;
     max_in_flight := 10000 |}.

Definition micro : Z := 1000000.

(** Bucket capacity in millionths of a token. *)
Definition bucket_capacity (p : CapacityPolicy) : Z :=
  burst_per_second p * burst_seconds p * micro.

(** ** The gateway replica's bucket *)
Inductive AdmissionDenied := RATE_EXCEEDED | INFLIGHT_SATURATED.

Record AdmissionController := {
  ac_policy : CapacityPolicy;
  ac_bucket : option (Z * instant);   (** [_tokens] and [_last_refill] *)
}.

(** [_refill] *)
Definition refill (now : instant) (c : AdmissionController) : Z * AdmissionController :=
  let capacity := bucket_capacity (ac_policy c) in
  let tokens :=
    match ac_bucket c with
    | None => capacity
    | Some (tokens, last_refill) =>
        let elapsed := Z.max 0 (now - last_refill) in
        Z.min capacity (tokens + elapsed * sustained_per_second (ac_policy c))
    end in
  (tokens, {| ac_policy := ac_policy c; ac_bucket := Some (tokens, now) |}).

(** [AdmissionController.admit] *)
Definition admit_request (now : instant) : ST AdmissionController AdmissionDenied unit := λ c,
  let '(tokens, c') := refill now c in
  if tokens <? micro then (Raise RATE_EXCEEDED, c')
  else (Ok tt, {| ac_policy := ac_policy c'; ac_bucket := Some (tokens - micro, now) |}).

(** ** Saturation *)
Inductive ShedLevel := GREEN | YELLOW | RED.

Definition shed_level (in_flight pending : Z) (p : CapacityPolicy) : ShedLevel :=
  if (max_in_flight p <=? in_flight) || (burst_per_second p <=? pending) then RED
  else if (max_in_flight p / 2 <=? in_flight) || (burst_per_second p / 2 <=? pending) then YELLOW
  else GREEN.

(** ** [platform.try_admit_execution] *)
Record AdmissionBucket := { bk_tokens : Z; bk_last_refill : instant }.

(** [None]: the function raises because a setting is not positive. *)
Definition try_admit_execution (p : CapacityPolicy) (clock : instant) (pending_count : Z)
    (b : AdmissionBucket) : option (outcome AdmissionDenied unit * AdmissionBucket) :=
  if (max_in_flight p <? 1) || (sustained_per_second p <? 1) || (burst_per_second p <? 1)
     || (burst_seconds p <? 1) then None
  else
    let tokens := Z.min (bucket_capacity p)
                    (bk_tokens b + Z.max 0 ((clock - bk_last_refill b) * sustained_per_second p)) in
    if max_in_flight p <=? pending_count then
      Some (Raise INFLIGHT_SATURATED, {| bk_tokens := tokens; bk_last_refill := clock |})
    else if tokens <? micro then
      Some (Raise RATE_EXCEEDED, {| bk_tokens := tokens; bk_last_refill := clock |})
    else Some (Ok tt, {| bk_tokens := tokens - micro; bk_last_refill := clock |}).

(** ** Rate bounds *)

(** The requests arriving at these instants; how many are admitted. *)
Fixpoint admit_all (times : list instant) (c : AdmissionController) : Z * AdmissionController :=
  match times with
  | [] => (0, c)
  | t :: times' =>
      let '(r, c') := admit_request t c in
      let '(n, c'') := admit_all times' c' in
      ((match r with Ok _ => 1 | Raise _ => 0 end) + n, c'')
  end.

Definition policy_ok (p : CapacityPolicy) : Prop :=
  0 ≤ sustained_per_second p ∧ 0 ≤ burst_per_second p ∧ 0 ≤ burst_seconds p.

Lemma admit_step t c r c' :
  admit_request t c = (r, c') →
  ac_policy c' = ac_policy c ∧
  ∃ tokens, ac_bucket c' = Some (tokens, t) ∧
    tokens + (match r with Ok _ => micro | Raise _ => 0 end) = (refill t c).1 ∧
    (match r with Ok _ => 0 ≤ tokens | Raise _ => (refill t c).1 < micro end).
Proof.
  unfold admit_request. simpl. case_match eqn:Hlt; intros [= <- <-]; (split; [done|]); eexists;
    (split; [done|]); lia.
Qed.

Lemma admit_all_bound times c tokens last until :
  policy_ok (ac_policy c) → ac_bucket c = Some (tokens, last) → 0 ≤ tokens →
  Sorted Z.le (last :: times) → last ≤ until → Forall (λ t, t ≤ until) times →
  (admit_all times c).1 * micro
    ≤ tokens + (until - last) * sustained_per_second (ac_policy c).
Proof.
  intros Hp. revert c tokens last Hp.
  induction times as [|t times IH]; intros c tokens l Hp Hb Ht Hs Hu Hall.
  { simpl. unfold policy_ok in Hp. nia. }
  simpl. destruct (admit_request t c) as [r c1] eqn:Ha.
  apply admit_step in Ha as (Hpol & tok & Hb1 & Htok & Hpos).
  apply Sorted_inv in Hs as [Hs Hlt]. apply HdRel_inv in Hlt.
  apply Forall_cons in Hall as [Htu Hall].
  assert (0 ≤ (refill t c).1 ≤ tokens + (t - l) * sustained_per_second (ac_policy c)) as Href.
  { unfold refill. rewrite Hb. simpl. unfold policy_ok, bucket_capacity, micro in *.
    rewrite Z.max_r by lia.
    assert (0 ≤ (t - l) * sustained_per_second (ac_policy c)) by (apply Z.mul_nonneg_nonneg; lia).
    assert (0 ≤ burst_per_second (ac_policy c) * burst_seconds (ac_policy c))
      by (apply Z.mul_nonneg_nonneg; lia).
    lia. }
  assert (0 ≤ tok) as Htok0 by (destruct r; lia).
  specialize (IH c1 tok t). rewrite Hpol in IH. specialize (IH Hp Hb1 Htok0 Hs Htu Hall).
  destruct (admit_all times c1) as [n c2]. simpl in *. destruct r; unfold micro in *; lia.
Qed.

(** The admission rate is bounded.  From a fresh controller, and for requests
    arriving at any non-decreasing instants between [t0] and [t1], the number of
    admitted requests is at most the burst allowance plus the sustained rate
    times the elapsed time. *)
Theorem admission_rate_bounded p t0 t1 times :
  policy_ok p → Sorted Z.le (t0 :: times) → Forall (λ t, t ≤ t1) times → t0 ≤ t1 →
  (admit_all times {| ac_policy := p; ac_bucket := None |}).1 * micro
    ≤ bucket_capacity p + (t1 - t0) * sustained_per_second p.
Proof.
  intros Hp Hs Hall Ht. destruct Hp as (Hr & Hb & Hbs).
  assert (0 ≤ bucket_capacity p) as Hcap
    by (unfold bucket_capacity, micro; apply Z.mul_nonneg_nonneg; [apply Z.mul_nonneg_nonneg|]; lia).
  destruct times as [|t times]; simpl.
  { unfold micro. nia. }
  apply Sorted_inv in Hs as [Hs Hlt]. apply HdRel_inv in Hlt.
  apply Forall_cons in Hall as [Htu Hall].
  assert (0 ≤ (t - t0) * sustained_per_second p) by (apply Z.mul_nonneg_nonneg; lia).
  unfold admit_request. simpl. destruct (_ <? micro) eqn:Hlt'; simpl.
  - pose proof (admit_all_bound times {| ac_policy := p; ac_bucket := Some (bucket_capacity p, t) |}
      (bucket_capacity p) t t1) as H'. simpl in H'.
    destruct (admit_all _ _) as [n c]. simpl in *.
    specialize (H' ltac:(done) eq_refl Hcap Hs Htu Hall). unfold micro in *. lia.
  - pose proof (admit_all_bound times
      {| ac_policy := p; ac_bucket := Some (bucket_capacity p - micro, t) |}
      (bucket_capacity p - micro) t t1) as H'. simpl in H'.
    destruct (admit_all _ _) as [n c]. simpl in *.
    specialize (H' ltac:(done) eq_refl ltac:(lia) Hs Htu Hall). unfold micro in *. lia.
Qed.

Lemma admission_rate_bounded_witness :
  (admit_all [0; 10; 20] {| ac_policy := default_policy; ac_bucket := None |}).1 * micro
    ≤ bucket_capacity default_policy + (20 - 0) * sustained_per_second default_policy.
Proof.
  apply (admission_rate_bounded default_policy 0 20 [0; 10; 20]);
    [by split|repeat constructor; lia|repeat constructor; lia|lia].
Defined.

(** A bucket holding [k] tokens admits the next [k] requests, whenever they come. *)
Lemma burst_admits times c tokens last :
  policy_ok (ac_policy c) → ac_bucket c = Some (tokens, last) →
  tokens ≤ bucket_capacity (ac_policy c) → Z.of_nat (length times) * micro ≤ tokens →
  (admit_all times c).1 = Z.of_nat (length times).
Proof.
  revert c tokens last. induction times as [|t times IH]; intros c tokens l Hp Hb Hcap Hn; [done|].
  cbn [length] in Hn. simpl. unfold admit_request, refill. rewrite Hb. simpl.
  set (tok := Z.min _ _). assert (tokens ≤ tok ≤ bucket_capacity (ac_policy c)) as Htok.
  { subst tok. unfold policy_ok in Hp. nia. }
  rewrite (proj2 (Z.ltb_ge _ _)) by (unfold micro in *; lia). simpl.
  specialize (IH {| ac_policy := ac_policy c; ac_bucket := Some (tok - micro, t) |}
                (tok - micro) t Hp eq_refl).
  simpl in IH. destruct (admit_all _ _) as [n c2]. simpl in *. rewrite IH; unfold micro in *; lia.
Qed.

(** The full burst is absorbed.  A fresh controller admits the first
    [burst_per_second * burst_seconds] requests without a single refusal, at
    whatever instants they arrive. *)
Theorem full_burst_admitted p times :
  policy_ok p → Z.of_nat (length times) ≤ burst_per_second p * burst_seconds p →
  (admit_all times {| ac_policy := p; ac_bucket := None |}).1 = Z.of_nat (length times).
Proof.
  intros Hp Hn. destruct times as [|t times]; [done|]. cbn [length] in *. simpl. unfold admit_request. simpl.
  rewrite (proj2 (Z.ltb_ge _ _)) by (unfold bucket_capacity, micro; lia). simpl.
  pose proof (burst_admits times {| ac_policy := p; ac_bucket := Some (bucket_capacity p - micro, t) |}
     (bucket_capacity p - micro) t Hp eq_refl) as H. simpl in H.
  destruct (admit_all _ _) as [n c]. simpl in *. rewrite H; unfold bucket_capacity, micro in *; lia.
Qed.

Lemma full_burst_admitted_witness :
  (admit_all [5; 3; 9] {| ac_policy := default_policy; ac_bucket := None |}).1 = 3.
Proof. apply (full_burst_admitted default_policy [5; 3; 9]); [by split|vm_compute; done]. Defined.
