(* ===== verification/Sessions.v ===== *)
(** * Session leases and the authoritative commit (trpc_service/sessions.py)

    The tables of migration 0010 that the data plane shares (sessions, leases,
    events, executions, outbox), the lease manager with its fencing tokens and
    [commit_session_events].  The database clock [now()] is a field of the state
    that only the environment moves. *)

From Stdlib Require Import Ascii.
From S2P Require Import Prelude PyNum Uuids ExecutionBus Backpressure.
Open Scope string_scope.
Open Scope list_scope.
Open Scope Z_scope.

(** ** Constants *)
Definition DEFAULT_LEASE_TTL : Z := 30 * 1000000.   (** microseconds *)
Definition MAX_SESSION_ID_LENGTH : nat := 512.
Definition MAX_OWNER_ID_LENGTH : nat := 256.

(** ** Exceptions of the data plane *)
Inductive ExecError :=
  | EValue (message : string)
  | SessionLeaseError (code : string)
  | SessionVersionConflictError (code : string)
  | ModelGatewayError (code : string)
  | AgentGatewayError (code : string)
  | ESql.

#[export] Instance exec_sql_error : SqlError ExecError := ESql.

(** ** Tables *)
Abbreviation session_key := (uuid * string)%type.

Record SessionRow := { sn_application_id : uuid; sn_version : Z }.
Record Lease := { le_owner_id : string; le_fencing_token : Z; le_expires_at : instant }.
Record EventRow := { ev_execution_id : uuid; ev_kind : string; ev_payload : jobject }.

Inductive exec_status := EX_PENDING | EX_SUCCEEDED | EX_FAILED.
#[export] Instance exec_status_eq_dec : EqDecision exec_status.
Proof. solve_decision. Defined.

Record Execution := {
  ex_application_id : uuid;
  ex_release_id : uuid;
  ex_environment : string;
  ex_session_id : string;
  ex_message_id : string;
  ex_payload_hash : string;
  ex_status : exec_status;
  ex_knowledge_revision_ids : list string;
}.

Record ExecState := {
  es_sessions : gmap session_key SessionRow;
  es_leases : gmap session_key Lease;
  es_events : gmap (session_key * Z) EventRow;
  es_executions : gmap (uuid * uuid) Execution;
  es_outbox : list OutboxRecord;
  es_bus : list ExecutionEnvelope;
  es_bucket : AdmissionBucket;
  es_next_id : nat;
  es_now : instant;
}.

Abbreviation ES := (ST ExecState ExecError).

Definition set_sessions (f : gmap session_key SessionRow → gmap session_key SessionRow)
    (s : ExecState) : ExecState :=
  {| es_sessions := f (es_sessions s); es_leases := es_leases s; es_events := es_events s;
     es_executions := es_executions s; es_outbox := es_outbox s; es_bus := es_bus s;
     es_bucket := es_bucket s; es_next_id := es_next_id s; es_now := es_now s |}.
Definition set_leases (f : gmap session_key Lease → gmap session_key Lease)
    (s : ExecState) : ExecState :=
  {| es_sessions := es_sessions s; es_leases := f (es_leases s); es_events := es_events s;
     es_executions := es_executions s; es_outbox := es_outbox s; es_bus := es_bus s;
     es_bucket := es_bucket s; es_next_id := es_next_id s; es_now := es_now s |}.
Definition set_events (f : gmap (session_key * Z) EventRow → gmap (session_key * Z) EventRow)
    (s : ExecState) : ExecState :=
  {| es_sessions := es_sessions s; es_leases := es_leases s; es_events := f (es_events s);
     es_executions := es_executions s; es_outbox := es_outbox s; es_bus := es_bus s;
     es_bucket := es_bucket s; es_next_id := es_next_id s; es_now := es_now s |}.
Definition set_executions (f : gmap (uuid * uuid) Execution → gmap (uuid * uuid) Execution)
    (s : ExecState) : ExecState :=
  {| es_sessions := es_sessions s; es_leases := es_leases s; es_events := es_events s;
     es_executions := f (es_executions s); es_outbox := es_outbox s; es_bus := es_bus s;
     es_bucket := es_bucket s; es_next_id := es_next_id s; es_now := es_now s |}.
Definition set_outbox (o : list OutboxRecord) (b : list ExecutionEnvelope)
    (s : ExecState) : ExecState :=
  {| es_sessions := es_sessions s; es_leases := es_leases s; es_events := es_events s;
     es_executions := es_executions s; es_outbox := o; es_bus := b;
     es_bucket := es_bucket s; es_next_id := es_next_id s; es_now := es_now s |}.
Definition set_bucket (b : AdmissionBucket) (s : ExecState) : ExecState :=
  {| es_sessions := es_sessions s; es_leases := es_leases s; es_events := es_events s;
     es_executions := es_executions s; es_outbox := es_outbox s; es_bus := es_bus s;
     es_bucket := b; es_next_id := es_next_id s; es_now := es_now s |}.
Definition set_ids (n : nat) (s : ExecState) : ExecState :=
  {| es_sessions := es_sessions s; es_leases := es_leases s; es_events := es_events s;
     es_executions := es_executions s; es_outbox := es_outbox s; es_bus := es_bus s;
     es_bucket := es_bucket s; es_next_id := n; es_now := es_now s |}.
Definition set_now (t : instant) (s : ExecState) : ExecState :=
  {| es_sessions := es_sessions s; es_leases := es_leases s; es_events := es_events s;
     es_executions := es_executions s; es_outbox := es_outbox s; es_bus := es_bus s;
     es_bucket := es_bucket s; es_next_id := es_next_id s; es_now := t |}.

#[export] Instance exec_outbox : HasOutbox ExecState.
Proof.
  refine {| outbox := es_outbox; add_outbox r s := set_outbox (es_outbox s ++ [r]) (es_bus s) s |}.
  done.
Defined.
#[export] Instance exec_ids : HasIds ExecState :=
  {| next_id := es_next_id; set_next_id := set_ids |}.

(** ** Sessions *)

(** [create_session_if_missing]; [application_exists] is the foreign key to the
    tenant's applications. *)
Definition create_session_if_missing (application_exists : uuid → uuid → bool)
    (tenant_id application_id : uuid) (session_id : string) : ES unit :=
  _ ← ensure (length_between 1 MAX_SESSION_ID_LENGTH session_id)
        (EValue "session_id length is out of range");
  existing ← gets (λ s, es_sessions s !! (tenant_id, session_id));
  match existing with
  | Some _ => mret tt
  | None =>
      _ ← ensure (application_exists tenant_id application_id) ESql;
      modify (set_sessions (<[(tenant_id, session_id) :=
        {| sn_application_id := application_id; sn_version := 0 |}]>))
  end.

Definition lock_session_version (tenant_id : uuid) (session_id : string) : ES (option Z) :=
  gets (λ s, sn_version <$> es_sessions s !! (tenant_id, session_id)).

(** ** Leases *)
Record LeaseGrant := { gr_fencing_token : Z; gr_session_version : Z }.

(** The [INSERT ... ON CONFLICT DO UPDATE ... WHERE] of [acquire]: the new token,
    or [None] when another owner holds an unexpired lease. *)
Definition upsert_lease (ttl : Z) (tenant_id : uuid) (session_id owner_id : string)
    : ES (option Z) :=
  now ← gets es_now;
  existing ← gets (λ s, es_leases s !! (tenant_id, session_id));
  match existing with
  | None =>
      known ← gets (λ s, bool_decide (is_Some (es_sessions s !! (tenant_id, session_id))));
      _ ← ensure known ESql;
      _ ← modify (set_leases (<[(tenant_id, session_id) :=
            {| le_owner_id := owner_id; le_fencing_token := 1; le_expires_at := now + ttl |}]>));
      mret (Some 1)
  | Some l =>
      if (le_expires_at l <=? now) || bool_decide (le_owner_id l = owner_id) then
        let token := le_fencing_token l + 1 in
        _ ← modify (set_leases (<[(tenant_id, session_id) :=
              {| le_owner_id := owner_id; le_fencing_token := token;
                 le_expires_at := now + ttl |}]>));
        mret (Some token)
      else mret None
  end.

(** [SessionLeaseManager.acquire] *)
Definition acquire (fault : txn_fault) (ttl : Z) (tenant_id : uuid) (session_id owner_id : string)
    : ES LeaseGrant :=
  _ ← ensure (length_between 1 MAX_OWNER_ID_LENGTH owner_id)
        (EValue "owner_id length is out of range");
  transaction fault ESql
    (token ← upsert_lease ttl tenant_id session_id owner_id;
     match token with
     | None =>
         holder ← gets (λ s, default "None"
                     (le_owner_id <$> es_leases s !! (tenant_id, session_id)));
         raise (SessionLeaseError ("SESSION_LEASE_HELD:" +:+ holder))
     | Some token =>
         version ← lock_session_version tenant_id session_id;
         version ← get_or_raise version (SessionLeaseError "SESSION_NOT_FOUND");
         mret {| gr_fencing_token := token; gr_session_version := version |}
     end).

(** [SessionLeaseManager.renew].  The statement reads its interval from
    parameter 4, which is the fencing token; the configured lifetime is passed as
    parameter 5, which the statement does not use. *)
Definition renew (fault : txn_fault) (ttl : Z) (tenant_id : uuid) (session_id owner_id : string)
    (fencing_token : Z) : ES unit :=
  token ← transaction fault ESql
    (now ← gets es_now;
     existing ← gets (λ s, es_leases s !! (tenant_id, session_id));
     match existing with
     | Some l =>
         if bool_decide (le_owner_id l = owner_id) && (le_fencing_token l =? fencing_token)
            && (now <? le_expires_at l) then
           _ ← modify (set_leases (<[(tenant_id, session_id) :=
                 {| le_owner_id := owner_id; le_fencing_token := fencing_token;
                    le_expires_at := now + fencing_token * 1000000 |}]>));
           mret (Some fencing_token)
         else mret None
     | None => mret None
     end);
  match token with
  | None => raise (SessionLeaseError "SESSION_LEASE_INVALID")
  | Some _ => mret tt
  end.

(** [SessionLeaseManager.release] *)
Definition release_lease (fault : txn_fault) (tenant_id : uuid) (session_id owner_id : string)
    : ES unit :=
  transaction fault ESql
    (now ← gets es_now;
     existing ← gets (λ s, es_leases s !! (tenant_id, session_id));
     match existing with
     | Some l =>
         if bool_decide (le_owner_id l = owner_id) then
           modify (set_leases (<[(tenant_id, session_id) :=
             {| le_owner_id := le_owner_id l; le_fencing_token := le_fencing_token l;
                le_expires_at := now |}]>))
         else mret tt
     | None => mret tt
     end).

(** ** The commit *)
Record SessionEvent := { se_kind : string; se_payload : jobject }.

(** [CHECK (kind ~ '^[A-Z][A-Z0-9_]{0,63}$')] *)
Definition upper_char (c : ascii) : bool :=
  (65 <=? Ascii.nat_of_ascii c)%nat && (Ascii.nat_of_ascii c <=? 90)%nat.
Definition kind_char (c : ascii) : bool :=
  upper_char c || (48 <=? Ascii.nat_of_ascii c)%nat && (Ascii.nat_of_ascii c <=? 57)%nat
  || bool_decide (c = "_"%char).
Definition kind_check (k : string) : bool :=
  match k with
  | EmptyString => false
  | String c k' => upper_char c && all_chars kind_char k' && (String.length k' <=? 63)%nat
  end.

(** The first execution of the tenant with this message id: the pair is unique. *)
Definition execution_with_message (tenant_id : uuid) (message_id : string)
    (m : gmap (uuid * uuid) Execution) : option (uuid * Execution) :=
  head (omap (λ kx : (uuid * uuid) * Execution,
    if bool_decide (kx.1.1 = tenant_id) && bool_decide (ex_message_id kx.2 = message_id)
    then Some (kx.1.2, kx.2) else None) (map_to_list m)).

(** One row of the [executemany]: the key (tenant, session, sequence) is unique and
    the session must exist. *)
Definition insert_event (tenant_id : uuid) (session_id : string) (execution_id : uuid)
    (sequence : Z) (event : SessionEvent) : ES unit :=
  known ← gets (λ s, bool_decide (is_Some (es_sessions s !! (tenant_id, session_id))));
  free ← gets (λ s, bool_decide (es_events s !! ((tenant_id, session_id), sequence) = None));
  _ ← ensure (known && free && (1 <=? sequence) && kind_check (se_kind event)) ESql;
  modify (set_events (<[((tenant_id, session_id), sequence) :=
    {| ev_execution_id := execution_id; ev_kind := se_kind event;
       ev_payload := se_payload event |}]>)).

(** The loop over [enumerate(events, start=1)]. *)
Fixpoint insert_events (tenant_id : uuid) (session_id : string) (execution_id : uuid)
    (sequence : Z) (events : list SessionEvent) : ES unit :=
  match events with
  | [] => mret tt
  | event :: events' =>
      _ ← insert_event tenant_id session_id execution_id sequence event;
      insert_events tenant_id session_id execution_id (sequence + 1) events'
  end.

Definition committed_payload (tenant_id : uuid) (session_id : string) (execution_id : uuid)
    (from_version to_version : Z) (events : list SessionEvent) : jobject :=
  <["tenant_id" := JStr (uuid_text tenant_id)]>
  (<["session_id" := JStr session_id]>
  (<["execution_id" := JStr (uuid_text execution_id)]>
  (<["from_version" := JNum from_version]>
  (<["to_version" := JNum to_version]>
  {["event_kinds" := JArr (JStr ∘ se_kind <$> events)]})))).

Section Commit.
  Context (uuid_at : nat → uuid).

(** [commit_session_events], in the caller's transaction. *)
Definition commit_session_events (tenant_id : uuid) (session_id owner_id : string)
    (fencing_token expected_version : Z) (execution_id : uuid) (idempotency_key : string)
    (events : list SessionEvent) (data_classification : option string) : ES (option Z) :=
  _ ← ensure (negb (bool_decide (events = []))) (EValue "a session commit requires at least one event");
  row ← gets (λ s, execution_with_message tenant_id idempotency_key (es_executions s));
  match row with
  | None => raise (SessionLeaseError "EXECUTION_NOT_FOUND")
  | Some (_, x) =>
      if bool_decide (ex_status x = EX_SUCCEEDED) then mret None
      else
        now ← gets es_now;
        lease ← gets (λ s, es_leases s !! (tenant_id, session_id));
        _ ← ensure
              (match lease with
               | None => false
               | Some l => bool_decide (le_owner_id l = owner_id)
                           && (le_fencing_token l =? fencing_token)
                           && negb (le_expires_at l <=? now)
               end)
              (SessionLeaseError "SESSION_LEASE_INVALID");
        version ← lock_session_version tenant_id session_id;
        version ← get_or_raise version (SessionLeaseError "SESSION_NOT_FOUND");
        _ ← ensure (version =? expected_version)
              (SessionVersionConflictError "SESSION_VERSION_CONFLICT");
        _ ← insert_events tenant_id session_id execution_id (expected_version + 1) events;
        let new_version := expected_version + Z.of_nat (length events) in
        _ ← modify (set_sessions (alter
              (λ row, {| sn_application_id := sn_application_id row; sn_version := new_version |})
              (tenant_id, session_id)));
        message_id ← draw_id uuid_at;
        _ ← insert_outbox_record uuid_at now tenant_id (uuid_text message_id) WORKER_SOURCE
              SESSION_EVENTS_COMMITTED_EVENT
              (session_partition_key (uuid_text tenant_id) session_id)
              (committed_payload tenant_id session_id execution_id expected_version new_version events)
              (Some idempotency_key) (Some (uuid_text execution_id)) data_classification;
        mret (Some new_version)
  end.
End Commit.
