(* ===== verification/AgentGateway.v ===== *)
(** * The agent gateway (trpc_service/agent_gateway.py)

    Accepting an execution: one transaction that deduplicates on the message id,
    passes the platform-wide admission check, creates the session, inserts the
    execution and writes the request to the outbox.  The payload contracts of
    the bus events ([ExecutionRequestedData], [ExecutionCompletedData]) and their
    validation are here too, because the gateway writes the one and the worker
    reads it. *)

From S2P Require Import Prelude PyNum Uuids ExecutionBus Backpressure Sessions.
Open Scope string_scope.
Open Scope list_scope.
Open Scope Z_scope.

(** ** Event payloads *)
Abbreviation str_dict := (gmap string string).

Record ExecutionRequestedData := {
  rq_tenant_id : string;
  rq_application_id : string;
  rq_execution_id : string;
  rq_release_id : string;
  rq_environment : string;
  rq_session_id : string;
  rq_messages : list str_dict;
  rq_channel_context : option str_dict;
  rq_trace_parent : option string;
}.

(** [Field(min_length=1, max_length=200)] on the messages and the length bounds on
    the trace parent. *)
Definition requested_valid (d : ExecutionRequestedData) : bool :=
  (1 <=? length (rq_messages d))%nat && (length (rq_messages d) <=? 200)%nat
  && option_check (length_between 1 128) (rq_trace_parent d).

Definition json_of_dict (m : str_dict) : json := JObj (JStr <$> m).
Definition json_of_option {A} (f : A → json) (o : option A) : json :=
  match o with Some a => f a | None => JNull end.

(** [model_dump]: absent optionals are explicit nulls. *)
Definition requested_dump (d : ExecutionRequestedData) : jobject :=
  <["tenant_id" := JStr (rq_tenant_id d)]>
  (<["application_id" := JStr (rq_application_id d)]>
  (<["execution_id" := JStr (rq_execution_id d)]>
  (<["release_id" := JStr (rq_release_id d)]>
  (<["environment" := JStr (rq_environment d)]>
  (<["session_id" := JStr (rq_session_id d)]>
  (<["messages" := JArr (json_of_dict <$> rq_messages d)]>
  (<["channel_context" := json_of_option json_of_dict (rq_channel_context d)]>
  {["trace_parent" := json_of_option JStr (rq_trace_parent d)]}))))))).

Definition REQUESTED_FIELDS : list string :=
  ["tenant_id"; "application_id"; "execution_id"; "release_id"; "environment"; "session_id";
   "messages"; "channel_context"; "trace_parent"].

Definition as_str (j : json) : option string := match j with JStr s => Some s | _ => None end.

(** [dict[str, str]] *)
Definition as_dict (j : json) : option str_dict :=
  match j with
  | JObj m =>
      if bool_decide (map_Forall (λ _ v, is_Some (as_str v)) m) then Some (omap as_str m) else None
  | _ => None
  end.

Definition as_optional {A} (f : json → option A) (o : option json) : option (option A) :=
  match o with
  | None | Some JNull => Some None
  | Some j => Some <$> f j
  end.

(** [ExecutionRequestedData.model_validate] with [extra="forbid"]. *)
Definition requested_validate (p : jobject) : option ExecutionRequestedData :=
  if bool_decide (map_Forall (λ k _, k ∈ REQUESTED_FIELDS) p) then
    tenant_id ← p !! "tenant_id" ≫= as_str;
    application_id ← p !! "application_id" ≫= as_str;
    execution_id ← p !! "execution_id" ≫= as_str;
    release_id ← p !! "release_id" ≫= as_str;
    environment ← p !! "environment" ≫= as_str;
    session_id ← p !! "session_id" ≫= as_str;
    messages ← match p !! "messages" with Some (JArr l) => mapM as_dict l | _ => None end;
    channel_context ← as_optional as_dict (p !! "channel_context");
    trace_parent ← as_optional as_str (p !! "trace_parent");
    let d := {| rq_tenant_id := tenant_id; rq_application_id := application_id;
                rq_execution_id := execution_id; rq_release_id := release_id;
                rq_environment := environment; rq_session_id := session_id;
                rq_messages := messages; rq_channel_context := channel_context;
                rq_trace_parent := trace_parent |} in
    if requested_valid d then Some d else None
  else None.

Record ExecutionCompletedData := {
  cp_tenant_id : string;
  cp_execution_id : string;
  cp_release_id : string;
  cp_session_id : string;
  cp_completion : jobject;
  cp_channel_context : option str_dict;
  cp_trace_parent : option string;
}.

Definition completed_dump (d : ExecutionCompletedData) : jobject :=
  <["tenant_id" := JStr (cp_tenant_id d)]>
  (<["execution_id" := JStr (cp_execution_id d)]>
  (<["release_id" := JStr (cp_release_id d)]>
  (<["session_id" := JStr (cp_session_id d)]>
  (<["completion" := JObj (cp_completion d)]>
  (<["channel_context" := json_of_option json_of_dict (cp_channel_context d)]>
  {["trace_parent" := json_of_option JStr (cp_trace_parent d)]}))))).

(** ** Submissions *)
Record AgentExecutionSubmission := {
  sb_tenant_id : uuid;
  sb_application_id : uuid;
  sb_environment : string;
  sb_session_id : string;
  sb_subject_id : option string;
  sb_memory_policy_version : string;
  sb_messages : list str_dict;
  sb_message_id : option string;
  sb_channel_context : option str_dict;
  sb_trace_parent : option string;
}.

(** The field constraints of the submission model; a [UUID] has 128 bits. *)
Definition submission_valid (sb : AgentExecutionSubmission) : bool :=
  (0 <=? sb_tenant_id sb) && (sb_tenant_id sb <? 2 ^ 128)
  && (0 <=? sb_application_id sb) && (sb_application_id sb <? 2 ^ 128)
  && bool_decide (sb_environment sb ∈ ["DEVELOPMENT"; "STAGING"; "PRODUCTION"])
  && length_between 1 512 (sb_session_id sb)
  && option_check (length_between 1 256) (sb_subject_id sb)
  && length_between 1 128 (sb_memory_policy_version sb)
  && (1 <=? length (sb_messages sb))%nat && (length (sb_messages sb) <=? 200)%nat
  && option_check (length_between 1 256) (sb_message_id sb)
  && option_check (length_between 1 128) (sb_trace_parent sb).

Record AgentExecutionAccepted := {
  ac_execution_id : uuid;
  ac_release_id : uuid;
  ac_session_id : string;
  ac_deduplicated : bool;
}.

(** The dictionary [_payload_hash] serialises. *)
Definition hash_payload (sb : AgentExecutionSubmission) : json :=
  JObj
  (<["tenant_id" := JStr (uuid_text (sb_tenant_id sb))]>
  (<["application_id" := JStr (uuid_text (sb_application_id sb))]>
  (<["environment" := JStr (sb_environment sb)]>
  (<["session_id" := JStr (sb_session_id sb)]>
  (<["subject_id" := json_of_option JStr (sb_subject_id sb)]>
  (<["memory_policy_version" := JStr (sb_memory_policy_version sb)]>
  (<["messages" := JArr (json_of_dict <$> sb_messages sb)]>
  {["channel_context" := json_of_option json_of_dict (sb_channel_context sb)]}))))))).

Section Gateway.
  Context (uuid_at : nat → uuid).
  (** [hashlib.sha256(json.dumps(payload).encode()).hexdigest()] *)
  Context (payload_digest : json → string).
  (** Tables of other components: applications and releases with their
      classification. *)
  Context (application_exists : uuid → uuid → bool).
  Context (release_classification : uuid → uuid → option string).

Definition payload_hash (sb : AgentExecutionSubmission) : string := payload_digest (hash_payload sb).

(** [_deduplicated_submission] *)
Definition deduplicated_submission (sb : AgentExecutionSubmission) (message_id hash : string)
    (release_id : uuid) : ES (option AgentExecutionAccepted) :=
  existing ← gets (λ s, execution_with_message (sb_tenant_id sb) message_id (es_executions s));
  match existing with
  | None => mret None
  | Some (id, x) =>
      _ ← ensure (bool_decide (ex_payload_hash x = hash))
            (AgentGatewayError "MESSAGE_PAYLOAD_CONFLICT");
      mret (Some {| ac_execution_id := id; ac_release_id := release_id;
                    ac_session_id := sb_session_id sb; ac_deduplicated := true |})
  end.

(** [SELECT count( * ) ... WHERE status = 'PENDING'] *)
Definition pending_executions (s : ExecState) : Z :=
  Z.of_nat (size (filter (λ kx : (uuid * uuid) * Execution, ex_status kx.2 = EX_PENDING)
                    (es_executions s))).

(** The call of [platform.try_admit_execution] inside the transaction. *)
Definition admit_execution (policy : CapacityPolicy) : ES (outcome AdmissionDenied unit) :=
  s ← get;
  match try_admit_execution policy (es_now s) (pending_executions s) (es_bucket s) with
  | None => raise ESql
  | Some (decision, bucket) => _ ← modify (set_bucket bucket); mret decision
  end.

(** [INSERT INTO tenant.agent_execution ... ON CONFLICT (tenant_id,message_id) DO
    NOTHING RETURNING id]: the new id, or [None] on conflict. *)
Definition insert_execution (sb : AgentExecutionSubmission) (message_id hash : string)
    (release_id : uuid) : ES (option uuid) :=
  id ← draw_id uuid_at;
  conflict ← gets (λ s, execution_with_message (sb_tenant_id sb) message_id (es_executions s));
  match conflict with
  | Some _ => mret None
  | None =>
      taken ← gets (λ s, bool_decide (is_Some (es_executions s !! (sb_tenant_id sb, id))));
      _ ← ensure (negb taken && length_between 1 256 message_id) ESql;
      _ ← modify (set_executions (<[(sb_tenant_id sb, id) :=
            {| ex_application_id := sb_application_id sb; ex_release_id := release_id;
               ex_environment := sb_environment sb; ex_session_id := sb_session_id sb;
               ex_message_id := message_id; ex_payload_hash := hash;
               ex_status := EX_PENDING; ex_knowledge_revision_ids := [] |}]>));
      mret (Some id)
  end.

Definition requested_data (sb : AgentExecutionSubmission) (execution_id release_id : uuid)
    : ExecutionRequestedData :=
  {| rq_tenant_id := uuid_text (sb_tenant_id sb);
     rq_application_id := uuid_text (sb_application_id sb);
     rq_execution_id := uuid_text execution_id; rq_release_id := uuid_text release_id;
     rq_environment := sb_environment sb; rq_session_id := sb_session_id sb;
     rq_messages := sb_messages sb; rq_channel_context := sb_channel_context sb;
     rq_trace_parent := sb_trace_parent sb |}.

(** The transaction of [submit], for the release the deployment resolved to. *)
Definition submit_body (policy : CapacityPolicy) (sb : AgentExecutionSubmission)
    (message_id : string) (release_id : uuid) : ES AgentExecutionAccepted :=
  let hash := payload_hash sb in
  let tenant_id := sb_tenant_id sb in
  classification ← get_or_raise (release_classification tenant_id release_id)
                     (AgentGatewayError "DEPLOYMENT_NOT_FOUND");
  duplicate ← deduplicated_submission sb message_id hash release_id;
  match duplicate with
  | Some accepted => mret accepted
  | None =>
      decision ← admit_execution policy;
      match decision with
      | Raise denied =>
          duplicate ← deduplicated_submission sb message_id hash release_id;
          match duplicate with
          | Some accepted => mret accepted
          | None => raise (AgentGatewayError
                      (match denied with
                       | RATE_EXCEEDED => "RATE_EXCEEDED"
                       | INFLIGHT_SATURATED => "INFLIGHT_SATURATED"
                       end))
          end
      | Ok _ =>
          _ ← create_session_if_missing application_exists tenant_id (sb_application_id sb)
                (sb_session_id sb);
          inserted ← insert_execution sb message_id hash release_id;
          match inserted with
          | None =>
              duplicate ← deduplicated_submission sb message_id hash release_id;
              get_or_raise duplicate (AgentGatewayError "MESSAGE_PAYLOAD_CONFLICT")
          | Some execution_id =>
              let data := requested_data sb execution_id release_id in
              _ ← ensure (requested_valid data) (EValue "ValidationError");
              now ← gets es_now;
              _ ← insert_outbox_record uuid_at now tenant_id message_id GATEWAY_SOURCE
                    EXECUTION_REQUESTED_EVENT
                    (session_partition_key (uuid_text tenant_id) (sb_session_id sb))
                    (requested_dump data) None (Some (uuid_text execution_id))
                    (Some classification);
              mret {| ac_execution_id := execution_id; ac_release_id := release_id;
                      ac_session_id := sb_session_id sb; ac_deduplicated := false |}
          end
      end
  end.

(** [AgentExecutionSubmitter.submit]; [resolved] is what the deployment resolver
    returned.  An empty message id counts as absent. *)
Definition submit (fault : txn_fault) (policy : CapacityPolicy) (resolved : option uuid)
    (sb : AgentExecutionSubmission) : ES AgentExecutionAccepted :=
  release_id ← get_or_raise resolved (AgentGatewayError "DEPLOYMENT_NOT_FOUND");
  message_id ← match sb_message_id sb with
               | Some (String _ _ as m) => mret m
               | _ => id ← draw_id uuid_at; mret (uuid_text id)
               end;
  transaction fault ESql (submit_body policy sb message_id release_id).
End Gateway.
