(* ===== verification/AgentWorker.v ===== *)
(** * The agent worker (trpc_service/agent_worker.py)

    Deployment routing with its stable rollout buckets, and
    [AgentExecutionProcessor], the bus consumer that runs one execution and
    commits its result.  The processor is a program of atomic transactions
    ([Interleave.proc]): other workers run between any two of them. *)

From S2P Require Import Prelude PyNum Uuids Interleave ExecutionBus Backpressure Sessions AgentGateway.
Open Scope string_scope.
Open Scope list_scope.
Open Scope Z_scope.

(** ** Deployment routing *)
Record DeploymentRoute := {
  dr_release_id : string;
  dr_previous_release_id : option string;
  dr_rollout_percentage : Z;
}.

Section Routing.
  Context (sha256 : bytes → bytes).

(** [_session_rollout_bucket] *)
Definition session_rollout_bucket (session_id : string) : Z :=
  from_bytes_big (take 8 (sha256 (String.list_byte_of_string session_id))) mod 100.

(** The choice at the end of [DatabaseDeploymentRouteResolver.resolve]. *)
Definition choose_release (d : DeploymentRoute) (session_id : string) : string :=
  match dr_previous_release_id d with
  | Some previous =>
      if (dr_rollout_percentage d <? 100)
         && (dr_rollout_percentage d <=? session_rollout_bucket session_id)
      then previous else dr_release_id d
  | None => dr_release_id d
  end.

Abbreviation route_key := (string * string * string)%type.

(** [DatabaseDeploymentRouteResolver.resolve]: the state is its cache; [query] is
    the outcome of the database query: [None] when the database is down,
    otherwise the active deployment if there is one. *)
Definition resolve_deployment (query : option (option DeploymentRoute))
    (tenant_id application_id environment session_id : string)
    (routes : gmap route_key DeploymentRoute)
    : option string * gmap route_key DeploymentRoute :=
  match parse_uuid tenant_id, parse_uuid application_id with
  | Some _, Some _ =>
      let key := (tenant_id, application_id, environment) in
      match query with
      | None => (flip choose_release session_id <$> routes !! key, routes)
      | Some None => (None, routes)
      | Some (Some d) => (Some (choose_release d session_id), <[key := d]> routes)
      end
  | _, _ => (None, routes)
  end.
End Routing.

(** ** One execution *)

(** What the worker uses of a resolved release. *)
Record ReleaseRoute := {
  rr_data_classification : string;
  rr_knowledge_refs : list string;
}.

(** What it uses of the gateway's answer. *)
Record GatewayResult := {
  gw_model_alias : string;
  gw_fallback_used : bool;
  gw_completion : jobject;
}.

(** The answers one delivery gets from the components it calls: the worker pool of
    the tenant's storage profile, the release, the knowledge deployments, the
    model, the trace context; and what happens to the connection of each of its
    transactions. *)
Record Delivery := {
  dv_storage_pool : outcome ExecError (option string);
  dv_route : outcome ExecError (option ReleaseRoute);
  dv_knowledge : string → outcome ExecError (option string);
  dv_completion : outcome ExecError GatewayResult;
  dv_trace_parent : option string;
  dv_status_fault : txn_fault;
  dv_acquire_fault : txn_fault;
  dv_knowledge_fault : txn_fault;
  dv_renew_fault : txn_fault;
  dv_commit_fault : txn_fault;
  dv_failed_fault : txn_fault;
}.

Section Processor.
  Context (uuid_at : nat → uuid) (lease_ttl : Z) (owner_id worker_pool : string).

(** [_execution_status] *)
Definition execution_status (fault : txn_fault) (tenant_id : uuid) (message_id : string)
    : ES (option exec_status) :=
  transaction fault ESql
    (gets (λ s, ex_status ∘ snd <$> execution_with_message tenant_id message_id (es_executions s))).

Definition set_ex_status (st : exec_status) (x : Execution) : Execution :=
  {| ex_application_id := ex_application_id x; ex_release_id := ex_release_id x;
     ex_environment := ex_environment x; ex_session_id := ex_session_id x;
     ex_message_id := ex_message_id x; ex_payload_hash := ex_payload_hash x;
     ex_status := st; ex_knowledge_revision_ids := ex_knowledge_revision_ids x |}.
Definition set_ex_knowledge (ids : list string) (x : Execution) : Execution :=
  {| ex_application_id := ex_application_id x; ex_release_id := ex_release_id x;
     ex_environment := ex_environment x; ex_session_id := ex_session_id x;
     ex_message_id := ex_message_id x; ex_payload_hash := ex_payload_hash x;
     ex_status := ex_status x; ex_knowledge_revision_ids := ids |}.

(** [_mark_failed] *)
Definition mark_failed (fault : txn_fault) (tenant_id execution_id : uuid) : ES unit :=
  transaction fault ESql
    (modify (set_executions (alter
       (λ x, if bool_decide (ex_status x = EX_PENDING) then set_ex_status EX_FAILED x else x)
       (tenant_id, execution_id)))).

(** The [UPDATE] that pins the knowledge revisions. *)
Definition pin_knowledge (fault : txn_fault) (tenant_id execution_id : uuid) (ids : list string)
    : ES unit :=
  transaction fault ESql
    (modify (set_executions (alter (set_ex_knowledge ids) (tenant_id, execution_id)))).

(** The loop over [route.knowledge_refs]. *)
Fixpoint resolve_knowledge (resolve : string → outcome ExecError (option string))
    (refs : list string) : outcome ExecError (list string) :=
  match refs with
  | [] => Ok []
  | base_id :: refs' =>
      match resolve base_id with
      | Raise e => Raise e
      | Ok None => Raise (ModelGatewayError "KNOWLEDGE_DEPLOYMENT_NOT_FOUND")
      | Ok (Some revision_id) =>
          match resolve_knowledge resolve refs' with
          | Raise e => Raise e
          | Ok ids => Ok (revision_id :: ids)
          end
      end
  end.

(** An outcome of a call outside the database. *)
Definition external {A} (o : outcome ExecError A) : PM ExecState ExecError A := Done o.

(** [UUID(text)] *)
Definition uuid_of (text : string) : PM ExecState ExecError uuid :=
  match parse_uuid text with
  | Some id => pm_ret id
  | None => pm_raise (EValue "badly formed hexadecimal UUID string")
  end.

(** The two events of an execution. *)
Definition user_message_event (data : ExecutionRequestedData) : SessionEvent :=
  {| se_kind := "USER_MESSAGE";
     se_payload := {["content" := JStr (default ""
       (last (rq_messages data) ≫= λ m, m !! "content"))]} |}.
Definition agent_reply_event (result : GatewayResult) (knowledge_revision_ids : list string)
    : SessionEvent :=
  {| se_kind := "AGENT_REPLY";
     se_payload :=
       <["model_alias" := JStr (gw_model_alias result)]>
       (<["fallback_used" := JBool (gw_fallback_used result)]>
       (<["completion" := JObj (gw_completion result)]>
       {["knowledge_revision_ids" := JArr (JStr <$> knowledge_revision_ids)]})) |}.
Definition execution_events (data : ExecutionRequestedData) (result : GatewayResult)
    (knowledge_revision_ids : list string) : list SessionEvent :=
  [user_message_event data; agent_reply_event result knowledge_revision_ids].

(** The last transaction of [_handle]. *)
Definition commit_result (data : ExecutionRequestedData) (message_id : string)
    (tenant_id execution_id : uuid) (grant : LeaseGrant) (route : ReleaseRoute)
    (result : GatewayResult) (knowledge_revision_ids : list string)
    (trace_parent : option string) : ES unit :=
  new_version ← commit_session_events uuid_at tenant_id (rq_session_id data) owner_id
    (gr_fencing_token grant) (gr_session_version grant) execution_id message_id
    (execution_events data result knowledge_revision_ids) (Some (rr_data_classification route));
  match new_version with
  | None => mret tt
  | Some _ =>
      _ ← modify (set_executions (alter (set_ex_status EX_SUCCEEDED) (tenant_id, execution_id)));
      _ ← ensure (option_check (length_between 1 128) trace_parent) (EValue "ValidationError");
      now ← gets es_now;
      completed_id ← draw_id uuid_at;
      insert_outbox_record uuid_at now tenant_id (uuid_text completed_id) WORKER_SOURCE
        EXECUTION_COMPLETED_EVENT
        (session_partition_key (rq_tenant_id data) (rq_session_id data))
        (completed_dump {| cp_tenant_id := rq_tenant_id data;
           cp_execution_id := rq_execution_id data; cp_release_id := rq_release_id data;
           cp_session_id := rq_session_id data; cp_completion := gw_completion result;
           cp_channel_context := rq_channel_context data; cp_trace_parent := trace_parent |})
        (Some message_id) (Some (rq_execution_id data)) (Some (rr_data_classification route))
  end.

(** [_handle] *)
Definition handle_execution (dv : Delivery) (data : ExecutionRequestedData) (message_id : string)
    : PM ExecState ExecError unit :=
  let session_id := rq_session_id data in
  tenant_id <-- uuid_of (rq_tenant_id data);
  storage <-- external (dv_storage_pool dv);
  if match storage with
     | Some pool => negb (bool_decide (pool = worker_pool))
     | None => false
     end then pm_raise (ModelGatewayError "STORAGE_WORKER_POOL_MISMATCH")
  else
    status <-- atomically (execution_status (dv_status_fault dv) tenant_id message_id);
    match status with
    | Some EX_SUCCEEDED | Some EX_FAILED => pm_ret tt
    | _ =>
        grant <-- atomically (acquire (dv_acquire_fault dv) lease_ttl tenant_id session_id owner_id);
        route <-- external (dv_route dv);
        match route with
        | None => pm_raise (ModelGatewayError "RELEASE_NOT_FOUND")
        | Some route =>
            ids <-- external (resolve_knowledge (dv_knowledge dv) (rr_knowledge_refs route));
            _ <-- match rr_knowledge_refs route with
                  | [] => pm_ret tt
                  | _ => execution_id <-- uuid_of (rq_execution_id data);
                         atomically (pin_knowledge (dv_knowledge_fault dv) tenant_id
                                       execution_id ids)
                  end;
            result <-- external (dv_completion dv);
            _ <-- atomically (renew (dv_renew_fault dv) lease_ttl tenant_id session_id owner_id
                                (gr_fencing_token grant));
            execution_id <-- uuid_of (rq_execution_id data);
            atomically (transaction (dv_commit_fault dv) ESql
              (commit_result data message_id tenant_id execution_id grant route result ids
                 (dv_trace_parent dv)))
        end
    end.

(** [AgentExecutionProcessor.handle] *)
Definition handle (dv : Delivery) (envelope : ExecutionEnvelope) : PM ExecState ExecError unit :=
  if negb (bool_decide (ee_event_type envelope = EXECUTION_REQUESTED_EVENT)) then
    pm_raise (EValue "unexpected agent worker event type")
  else
    match requested_validate (ee_data envelope) with
    | None => pm_raise (EValue "ValidationError")
    | Some data =>
        pm_catch (handle_execution dv data (ee_message_id envelope))
          (λ e, match e with
                | ModelGatewayError _ =>
                    tenant_id <-- uuid_of (rq_tenant_id data);
                    execution_id <-- uuid_of (rq_execution_id data);
                    _ <-- atomically (mark_failed (dv_failed_fault dv) tenant_id execution_id);
                    pm_raise e
                | _ => pm_raise e
                end)
    end.
End Processor.
