(* ===== verification/PipelineFacts.v ===== *)
(** * Facts about the data-plane operations

    What the leases, the gateway's submission and the worker's commit leave
    behind when they return, and the round trip of the request payload.  The
    theorems of [Pipeline] are built from these. *)

From S2P Require Import Prelude PyNum Uuids Interleave ExecutionBus Backpressure Sessions AgentGateway AgentWorker.
Open Scope string_scope.
Open Scope list_scope.
Open Scope Z_scope.

(** ** Payload round trip *)
Lemma as_dict_json m : as_dict (json_of_dict m) = Some m.
Proof.
  unfold as_dict, json_of_dict. rewrite bool_decide_eq_true_2.
  - f_equal. apply map_eq. intros k. rewrite lookup_omap, lookup_fmap. by destruct (m !! k).
  - intros k v Hv. rewrite lookup_fmap in Hv. destruct (m !! k); simplify_eq/=. by eexists.
Qed.

#[local] Arguments json_of_dict : simpl never.
#[local] Arguments as_dict : simpl never.
#[local] Arguments json_of_option : simpl never.
#[local] Arguments as_optional : simpl never.

Lemma mapM_as_dict l : mapM as_dict (json_of_dict <$> l) = Some l.
Proof. induction l as [|m l IH]; [done|]. cbn. by rewrite as_dict_json, IH. Qed.

Lemma requested_roundtrip d :
  requested_valid d = true → requested_validate (requested_dump d) = Some d.
Proof.
  intros Hv. unfold requested_validate. rewrite bool_decide_eq_true_2.
  2: { unfold requested_dump, REQUESTED_FIELDS.
       repeat (apply map_Forall_insert_2; [set_solver|]). apply map_Forall_empty. }
  unfold requested_dump.
  repeat first [rewrite lookup_insert_eq | rewrite lookup_insert_ne by done
               | rewrite lookup_singleton_eq]. cbn.
  rewrite mapM_as_dict. cbn.
  assert (as_optional as_dict (Some (json_of_option json_of_dict (rq_channel_context d)))
          = Some (rq_channel_context d)) as ->.
  { destruct (rq_channel_context d) as [m|]; [|done]. cbn [json_of_option].
    change (Some <$> as_dict (json_of_dict m) = Some (Some m)). by rewrite as_dict_json. }
  cbn. assert (as_optional as_str (Some (json_of_option JStr (rq_trace_parent d)))
          = Some (rq_trace_parent d)) as -> by by destruct (rq_trace_parent d).
  cbn. destruct d. cbn in *. by rewrite Hv.
Qed.

(** ** Executions by message id *)
Lemma execution_with_message_Some t m ex x r :
  execution_with_message t m ex = Some (x, r) → ex !! (t, x) = Some r ∧ ex_message_id r = m.
Proof.
  unfold execution_with_message. intros Hh.
  assert ((x, r) ∈ omap (λ kx : (uuid * uuid) * Execution,
    if bool_decide (kx.1.1 = t) && bool_decide (ex_message_id kx.2 = m)
    then Some (kx.1.2, kx.2) else None) (map_to_list ex)) as Hin.
  { destruct (omap _ _); [done|]. injection Hh as ->. apply list_elem_of_here. }
  apply list_elem_of_omap in Hin as ([[t' x'] r'] & Hin & Heq).
  apply elem_of_map_to_list in Hin. simpl in Heq.
  do 2 case_bool_decide; simplify_eq/=. done.
Qed.

Lemma execution_with_message_None t m ex :
  execution_with_message t m ex = None → ∀ x r, ex !! (t, x) = Some r → ex_message_id r ≠ m.
Proof.
  unfold execution_with_message. intros Hh x r Hx Hm.
  assert ((x, r) ∈ omap (λ kx : (uuid * uuid) * Execution,
    if bool_decide (kx.1.1 = t) && bool_decide (ex_message_id kx.2 = m)
    then Some (kx.1.2, kx.2) else None) (map_to_list ex)) as Hin.
  { apply list_elem_of_omap. exists ((t, x), r). split; [by apply elem_of_map_to_list|].
    simpl. by rewrite !bool_decide_eq_true_2. }
  destruct (omap _ _); [by apply elem_of_nil in Hin|done].
Qed.

(** ** Outbox inserts *)
Section Runs.
  Context (uuid_at : nat → uuid).

Lemma draw_id_run (s : ExecState) a s' :
  (draw_id uuid_at : ES uuid) s = (Ok a, s') →
  a = uuid_at (es_next_id s) ∧ s' = set_ids (S (es_next_id s)) s.
Proof. unfold draw_id. intros H. run_inv. done. Qed.

Lemma insert_outbox_run now t m src ty pk payload ca co cl (s s' : ExecState) u :
  (insert_outbox_record uuid_at now t m src ty pk payload ca co cl : ES unit) s = (Ok u, s') →
  ∃ r n, s' = set_outbox (es_outbox s ++ [r]) (es_bus s) (set_ids n s) ∧
    ob_tenant_id r = t ∧ ob_message_id r = m ∧ ob_event_type r = ty ∧ ob_payload r = payload ∧
    ob_status r = PENDING.
Proof.
  unfold insert_outbox_record. intros H. run_inv.
  rename select (draw_id _ _ = _) into Hd. apply draw_id_run in Hd as [-> ->].
  destruct (_ && _); [|discriminate H]. run_inv. simpl. eexists _, _. split; [done|]. done.
Qed.

Lemma insert_event_run t sid x n e (s s' : ExecState) u :
  insert_event t sid x n e s = (Ok u, s') →
  s' = set_events (<[((t, sid), n) := {| ev_execution_id := x; ev_kind := se_kind e;
                                         ev_payload := se_payload e |}]>) s.
Proof. unfold insert_event. intros H. run_inv. done. Qed.

Definition set_version (v : Z) (row : SessionRow) : SessionRow :=
  {| sn_application_id := sn_application_id row; sn_version := v |}.

(** What a step leaves alone. *)
Definition same_tables (s s' : ExecState) : Prop :=
  es_leases s' = es_leases s ∧ es_executions s' = es_executions s ∧ es_bus s' = es_bus s ∧
  es_now s' = es_now s.

(** The state a successful [commit_session_events] of two events leaves. *)
Lemma commit_events_run t sid owner token expected x m ev1 ev2 cl (s s' : ExecState) nv :
  commit_session_events uuid_at t sid owner token expected x m [ev1; ev2] cl s = (Ok nv, s') →
  ∃ x0 r0, execution_with_message t m (es_executions s) = Some (x0, r0) ∧
  ((nv = None ∧ s' = s ∧ ex_status r0 = EX_SUCCEEDED) ∨
   (∃ row e1 e2 o, ex_status r0 ≠ EX_SUCCEEDED ∧ is_Some nv ∧
     es_sessions s !! (t, sid) = Some row ∧ sn_version row = expected ∧
     (∃ l, es_leases s !! (t, sid) = Some l ∧ le_owner_id l = owner ∧
           le_fencing_token l = token ∧ es_now s < le_expires_at l) ∧
     ev_execution_id e1 = x ∧ ev_execution_id e2 = x ∧
     ev_kind e1 = se_kind ev1 ∧ ev_kind e2 = se_kind ev2 ∧
     ob_event_type o = SESSION_EVENTS_COMMITTED_EVENT ∧ same_tables s s' ∧
     es_sessions s' = alter (set_version (expected + 2)) (t, sid) (es_sessions s) ∧
     es_events s' = <[((t, sid), expected + 2) := e2]>
                      (<[((t, sid), expected + 1) := e1]> (es_events s)) ∧
     es_outbox s' = es_outbox s ++ [o])).
Proof.
  unfold commit_session_events. intros (? & ? & (_ & -> & ->)%ensure_Ok & H)%bind_Ok.
  apply bind_Ok in H as (? & ? & [-> ->]%gets_Ok & H).
  destruct (execution_with_message t m (es_executions s)) as [[x0 r0]|]; [|discriminate].
  exists x0, r0. split; [done|]. case_bool_decide as Hst; [left; by run_inv|right].
  apply bind_Ok in H as (? & ? & [-> ->]%gets_Ok & H).
  apply bind_Ok in H as (? & ? & [-> ->]%gets_Ok & H).
  apply bind_Ok in H as (? & ? & (Hlease & -> & ->)%ensure_Ok & H).
  apply bind_Ok in H as (? & ? & [-> ->]%gets_Ok & H).
  apply bind_Ok in H as (? & ? & [Hv ->]%get_or_raise_Ok & H).
  apply fmap_Some in Hv as (row & Hrow & ->).
  apply bind_Ok in H as (? & ? & (Heq%Z.eqb_eq & -> & ->)%ensure_Ok & H).
  apply bind_Ok in H as (? & s1 & Hev & H). cbn [insert_events] in Hev.
  apply bind_Ok in Hev as (? & s0 & ->%insert_event_run & Hev).
  apply bind_Ok in Hev as (? & s2 & ->%insert_event_run & Hev).
  apply mret_Ok in Hev as [_ ->].
  apply bind_Ok in H as (? & ? & [-> ->]%modify_Ok & H).
  apply bind_Ok in H as (? & ? & [-> ->]%draw_id_run & H).
  apply bind_Ok in H as (? & ? & (o & n & -> & _ & _ & Hty & _ & _)%insert_outbox_run & H).
  apply mret_Ok in H as [-> ->].
  destruct (es_leases s !! (t, sid)) as [l|] eqn:Hl; [|discriminate].
  apply andb_true_iff in Hlease as [[Ho%bool_decide_eq_true Ht%Z.eqb_eq]%andb_true_iff He].
  apply negb_true_iff, Z.leb_gt in He.
  exists row, {| ev_execution_id := x; ev_kind := se_kind ev1; ev_payload := se_payload ev1 |},
    {| ev_execution_id := x; ev_kind := se_kind ev2; ev_payload := se_payload ev2 |}, o. do 2 (split; [by eauto|]). do 2 (split; [done|]). split; [by exists l|].
  replace (expected + 1 + 1) with (expected + 2) by lia.
  do 4 (split; [reflexivity|]). split; [done|]. split; [repeat split|].
  do 2 (split; [reflexivity|]). reflexivity.
Qed.

(** The state a successful last transaction of a worker leaves. *)
Lemma commit_result_run owner data m t x grant route result ids tp (s s' : ExecState) u :
  commit_result uuid_at owner data m t x grant route result ids tp s = (Ok u, s') →
  ∃ x0 r0, execution_with_message t m (es_executions s) = Some (x0, r0) ∧
  ((s' = s ∧ ex_status r0 = EX_SUCCEEDED) ∨
   (∃ row v e1 e2 o1 o2,
     let sid := rq_session_id data in
     ex_status r0 ≠ EX_SUCCEEDED ∧ es_sessions s !! (t, sid) = Some row ∧ sn_version row = v ∧
     ev_execution_id e1 = x ∧ ev_execution_id e2 = x ∧
     ev_kind e1 = "USER_MESSAGE" ∧ ev_kind e2 = "AGENT_REPLY" ∧
     ob_event_type o1 = SESSION_EVENTS_COMMITTED_EVENT ∧
     ob_event_type o2 = EXECUTION_COMPLETED_EVENT ∧
     es_sessions s' = alter (set_version (v + 2)) (t, sid) (es_sessions s) ∧
     es_leases s' = es_leases s ∧
     es_events s' = <[((t, sid), v + 2) := e2]> (<[((t, sid), v + 1) := e1]> (es_events s)) ∧
     es_executions s' = alter (set_ex_status EX_SUCCEEDED) (t, x) (es_executions s) ∧
     es_outbox s' = (es_outbox s ++ [o1]) ++ [o2] ∧ es_bus s' = es_bus s)).
Proof.
  unfold commit_result. intros (nv & s1 & Hc & H)%bind_Ok.
  apply commit_events_run in Hc as (x0 & r0 & Hx & Hc). exists x0, r0. split; [done|].
  destruct Hc as [(-> & -> & Hst)|Hc]; [left; by run_inv|right].
  destruct Hc as (row & e1 & e2 & o1 & Hst & [v ->] & Hrow & Hv & _ & Hx1 & Hx2 & Hk1 & Hk2 & Ho1
                  & (Hle & Hex & Hbus & _) & Hse & Hev & Hob).
  apply bind_Ok in H as (? & ? & [-> ->]%modify_Ok & H).
  apply bind_Ok in H as (? & ? & (_ & -> & ->)%ensure_Ok & H).
  apply bind_Ok in H as (? & ? & [-> ->]%gets_Ok & H).
  apply bind_Ok in H as (? & ? & [-> ->]%draw_id_run & H).
  apply insert_outbox_run in H as (o2 & n & -> & _ & _ & Hty & _ & _).
  exists row, (sn_version row), e1, e2, o1, o2. simpl. rewrite Hv, Hse, Hle, Hev, Hex, Hob, Hbus.
  done.
Qed.

(** ** Submissions *)
Context (payload_digest : json → string) (application_exists : uuid → uuid → bool).
Context (release_classification : uuid → uuid → option string).

Lemma deduplicated_run sb m hash rel (s s' : ExecState) o :
  deduplicated_submission sb m hash rel s = (Ok o, s') →
  s' = s ∧
  match o with
  | None => execution_with_message (sb_tenant_id sb) m (es_executions s) = None
  | Some a => ac_deduplicated a = true ∧ ac_release_id a = rel ∧
      ∃ r, execution_with_message (sb_tenant_id sb) m (es_executions s)
             = Some (ac_execution_id a, r) ∧ ex_payload_hash r = hash
  end.
Proof.
  unfold deduplicated_submission. intros H. run_inv.
  destruct (execution_with_message _ _ _) as [[x r]|] eqn:Hx; run_inv; [|done].
  rename select (bool_decide _ = true) into Hh. apply bool_decide_eq_true in Hh.
  split; [done|]. split; [done|]. split; [done|]. by exists r.
Qed.

Lemma admit_execution_run policy (s s' : ExecState) d :
  admit_execution policy s = (Ok d, s') →
  ∃ b, s' = set_bucket b s ∧
    (d = Ok tt → pending_executions s < max_in_flight policy).
Proof.
  unfold admit_execution. intros H. run_inv.
  destruct (try_admit_execution _ _ _ _) as [[d' b]|] eqn:Ht; [|discriminate]. run_inv.
  exists b. split; [done|]. intros ->. revert Ht. unfold try_admit_execution.
  do 2 (case_match; [done|]). intros _. lia.
Qed.

Lemma create_session_run t app sid (s s' : ExecState) u :
  create_session_if_missing application_exists t app sid s = (Ok u, s') →
  (s' = s ∧ is_Some (es_sessions s !! (t, sid))) ∨
  (es_sessions s !! (t, sid) = None ∧
   s' = set_sessions (<[(t, sid) := {| sn_application_id := app; sn_version := 0 |}]>) s).
Proof.
  unfold create_session_if_missing. intros H. run_inv.
  destruct (es_sessions s !! (t, sid)) as [row|] eqn:Hs; run_inv; [left|right]; done.
Qed.

Lemma insert_execution_run sb m hash rel (s s' : ExecState) o :
  insert_execution uuid_at sb m hash rel s = (Ok o, s') →
  match o with
  | None => is_Some (execution_with_message (sb_tenant_id sb) m (es_executions s))
  | Some x =>
      x = uuid_at (es_next_id s) ∧ es_executions s !! (sb_tenant_id sb, x) = None ∧
      execution_with_message (sb_tenant_id sb) m (es_executions s) = None ∧
      ∃ r, s' = set_executions (<[(sb_tenant_id sb, x) := r]>) (set_ids (S (es_next_id s)) s) ∧
        ex_message_id r = m ∧ ex_session_id r = sb_session_id sb ∧ ex_status r = EX_PENDING ∧
        ex_payload_hash r = hash ∧ ex_release_id r = rel
  end.
Proof.
  unfold insert_execution. intros H. run_inv.
  rename select (draw_id _ _ = _) into Hd. apply draw_id_run in Hd as [-> ->]. simpl in *.
  destruct (execution_with_message _ _ _) eqn:Hx; run_inv; [done|].
  rename select (_ && _ = true) into Hc. apply andb_true_iff in Hc as [Hc _].
  apply negb_true_iff, bool_decide_eq_false in Hc. simpl in *.
  split; [done|]. split; [by apply eq_None_not_Some|]. split; [done|]. by eexists.
Qed.

(** What a returned submission leaves: the execution that already carried this
    message, or a fresh pending one together with its outbox request. *)
Lemma submit_body_run policy sb m rel (s s' : ExecState) a :
  submit_body uuid_at payload_digest application_exists release_classification policy sb m rel s
    = (Ok a, s') →
  (ac_deduplicated a = true ∧ (∃ b, s' = set_bucket b s) ∧ ac_release_id a = rel ∧
   ∃ r, execution_with_message (sb_tenant_id sb) m (es_executions s) = Some (ac_execution_id a, r) ∧
        ex_payload_hash r = payload_hash payload_digest sb) ∨
  (ac_deduplicated a = false ∧
   let t := sb_tenant_id sb in let x := ac_execution_id a in let sid := sb_session_id sb in
   pending_executions s < max_in_flight policy ∧
   execution_with_message t m (es_executions s) = None ∧ es_executions s !! (t, x) = None ∧
   x = uuid_at (es_next_id s) ∧ requested_valid (requested_data sb x rel) = true ∧
   ∃ sessions r o b n,
     ((sessions = es_sessions s ∧ is_Some (es_sessions s !! (t, sid))) ∨
      (es_sessions s !! (t, sid) = None ∧ ∃ app,
       sessions = <[(t, sid) := {| sn_application_id := app; sn_version := 0 |}]> (es_sessions s))) ∧
     ex_message_id r = m ∧ ex_session_id r = sid ∧ ex_status r = EX_PENDING ∧
     ex_payload_hash r = payload_hash payload_digest sb ∧ ex_release_id r = rel ∧
     ob_tenant_id o = t ∧ ob_message_id o = m ∧ ob_event_type o = EXECUTION_REQUESTED_EVENT ∧
     ob_payload o = requested_dump (requested_data sb x rel) ∧ ob_status o = PENDING ∧
     s' = {| es_sessions := sessions; es_leases := es_leases s; es_events := es_events s;
             es_executions := <[(t, x) := r]> (es_executions s);
             es_outbox := es_outbox s ++ [o]; es_bus := es_bus s; es_bucket := b;
             es_next_id := n; es_now := es_now s |}).
Proof.
  unfold submit_body. intros (cl & s0 & [_ ->]%get_or_raise_Ok & H)%bind_Ok.
  apply bind_Ok in H as (dup & s0 & [-> Hdup]%deduplicated_run & H).
  destruct dup as [a0|].
  { run_inv. left. destruct Hdup as (? & ? & ?). split; [done|].
    split; [exists (es_bucket s); by destruct s|]. done. }
  apply bind_Ok in H as (d & s1 & (b & -> & Hpend)%admit_execution_run & H).
  destruct d as [[]|denied].
  - apply bind_Ok in H as (u & s2 & Hs%create_session_run & H).
    apply bind_Ok in H as (o & s3 & Hx%insert_execution_run & H).
    assert (es_executions s2 = es_executions s ∧ es_outbox s2 = es_outbox s ∧
            es_next_id s2 = es_next_id s) as (Hex & Hob & Hid)
      by (destruct Hs as [[-> _]|[_ ->]]; done).
    rewrite Hex, Hid in Hx. destruct o as [x|]; [|by rewrite Hdup in Hx; destruct Hx].
    destruct Hx as (-> & Hfree & Hm & r & -> & Hrm & Hrs & Hst & Hrh & Hrr).
    apply bind_Ok in H as (? & ? & (Hval & -> & ->)%ensure_Ok & H). run_inv.
    rename select (insert_outbox_record _ _ _ _ _ _ _ _ _ _ _ _ = _) into Ho.
    apply insert_outbox_run in Ho as (o & n & -> & Hot & Hom & Hoty & Hop & Host).
    right. split; [done|]. cbn [ac_execution_id]. split; [by apply Hpend|].
    do 4 (split; [done|]). exists (es_sessions s2), r, o, b, n.
    split; [|repeat (split; [done|]); destruct Hs as [[-> _]|[_ ->]]; done].
    destruct Hs as [[-> Hs]|[Hnone ->]]; [by left|right]. split; [done|]. by eexists.
  - apply bind_Ok in H as (dup & s2 & [-> Hdup']%deduplicated_run & H).
    destruct dup as [a0|]; [|discriminate]. simpl in Hdup'.
    destruct Hdup' as (_ & _ & r & Hr & _). by rewrite Hdup in Hr.
Qed.
End Runs.
