(* ===== verification/Pipeline.v ===== *)
(** * The execution pipeline end to end

    Gateways submit, dispatchers publish, workers consume and commit, leases are
    taken, renewed and released, the clock moves and connections fail, in any
    interleaving.  The invariant of the shared database and the guarantee of
    every step are stated here and shown to hold along every run: an accepted
    message becomes exactly one execution and one outbox request, an execution
    commits at most once, session histories have no gaps, committed events never
    change and fencing tokens never go down. *)

From S2P Require Import Prelude PyNum Uuids Interleave ExecutionBus SampleCodec BusTheorems Backpressure Sessions AgentGateway AgentWorker PipelineFacts.
Open Scope string_scope.
Open Scope list_scope.
Open Scope Z_scope.

(** ** The invariant *)
Definition count_type (ty : string) (l : list OutboxRecord) : nat :=
  length (filter (λ ty', ty' = ty) (ob_event_type <$> l)).

Definition succeeded (m : gmap (uuid * uuid) Execution) : nat :=
  size (filter (λ kx : (uuid * uuid) * Execution, ex_status kx.2 = EX_SUCCEEDED) m).

(** The events of the tenant that belong to execution [x] are exactly the user
    message and the reply, next to each other in the session [sid]. *)
Definition committed_once (events : gmap (session_key * Z) EventRow) (t x : uuid) (sid : string)
    : Prop :=
  ∃ n, (∃ e, events !! ((t, sid), n + 1) = Some e ∧ ev_execution_id e = x ∧
             ev_kind e = "USER_MESSAGE") ∧
       (∃ e, events !! ((t, sid), n + 2) = Some e ∧ ev_execution_id e = x ∧
             ev_kind e = "AGENT_REPLY") ∧
       ∀ sid' k e, events !! ((t, sid'), k) = Some e → ev_execution_id e = x →
         sid' = sid ∧ (k = n + 1 ∨ k = n + 2).

Definition not_committed (events : gmap (session_key * Z) EventRow) (t x : uuid) : Prop :=
  ∀ sid k e, events !! ((t, sid), k) = Some e → ev_execution_id e ≠ x.

(** The outbox row is the request of a stored execution. *)
Definition request_of (s : ExecState) (o : OutboxRecord) : Prop :=
  ∃ d x r, ob_payload o = requested_dump d ∧ requested_valid d = true ∧
    parse_uuid (rq_tenant_id d) = Some (ob_tenant_id o) ∧
    parse_uuid (rq_execution_id d) = Some x ∧
    es_executions s !! (ob_tenant_id o, x) = Some r ∧
    ex_message_id r = ob_message_id o ∧ ex_session_id r = rq_session_id d.

Record Inv (s : ExecState) : Prop := {
  (** Session histories are gap free: the sequence numbers in use are 1..version. *)
  inv_sequence : ∀ t sid k, is_Some (es_events s !! ((t, sid), k)) ↔
    ∃ row, es_sessions s !! (t, sid) = Some row ∧ 1 ≤ k ≤ sn_version row;
  inv_version : ∀ k row, es_sessions s !! k = Some row → 0 ≤ sn_version row;
  (** One execution per message. *)
  inv_message : ∀ t x1 r1 x2 r2, es_executions s !! (t, x1) = Some r1 →
    es_executions s !! (t, x2) = Some r2 → ex_message_id r1 = ex_message_id r2 → x1 = x2;
  (** Succeeded executions committed once, the others not at all. *)
  inv_commit : ∀ t x r, es_executions s !! (t, x) = Some r →
    if bool_decide (ex_status r = EX_SUCCEEDED) then committed_once (es_events s) t x (ex_session_id r)
    else not_committed (es_events s) t x;
  inv_owner : ∀ t sid k e, es_events s !! ((t, sid), k) = Some e →
    is_Some (es_executions s !! (t, ev_execution_id e));
  (** Every request in the outbox belongs to its execution, and the bus carries
      nothing but outbox rows. *)
  inv_request : ∀ o, o ∈ es_outbox s → ob_event_type o = EXECUTION_REQUESTED_EVENT → request_of s o;
  inv_bus : ∀ e, e ∈ es_bus s → ∃ o, o ∈ es_outbox s ∧ e = envelope_of o;
  (** As many requests as executions, as many completions as successes. *)
  inv_requests : count_type EXECUTION_REQUESTED_EVENT (es_outbox s) = size (es_executions s);
  inv_completions : count_type EXECUTION_COMPLETED_EVENT (es_outbox s) = succeeded (es_executions s);
}.

(** ** The guarantee of every step *)
Record Guar (s s' : ExecState) : Prop := {
  g_executions : ∀ k r, es_executions s !! k = Some r →
    ∃ r', es_executions s' !! k = Some r' ∧ ex_message_id r' = ex_message_id r ∧
      ex_session_id r' = ex_session_id r ∧
      (ex_status r = EX_SUCCEEDED → ex_status r' = EX_SUCCEEDED);
  g_events : es_events s ⊆ es_events s';
  g_tokens : ∀ k l, es_leases s !! k = Some l →
    ∃ l', es_leases s' !! k = Some l' ∧ le_fencing_token l ≤ le_fencing_token l';
}.

#[export] Instance Guar_preorder : PreOrder Guar.
Proof.
  split.
  - intros s. split; [naive_solver|done|]. intros k l ?. exists l. split; [done|lia].
  - intros s1 s2 s3 [e1 v1 t1] [e2 v2 t2]. split.
    + intros k r (r2 & Hr2 & ? & ? & ?)%e1. destruct (e2 _ _ Hr2) as (r3 & ? & ? & ? & ?).
      exists r3. split; [done|]. split; [congruence|]. split; [congruence|auto].
    + by etrans.
    + intros k l (l2 & Hl2 & ?)%t1. destruct (t2 _ _ Hl2) as (l3 & ? & ?). exists l3.
      split; [done|lia].
Qed.

(** What a worker relies on about the message it handles. *)
Definition delivered (d : ExecutionRequestedData) (m : string) (s : ExecState) : Prop :=
  ∃ t x r, parse_uuid (rq_tenant_id d) = Some t ∧ parse_uuid (rq_execution_id d) = Some x ∧
    es_executions s !! (t, x) = Some r ∧ ex_message_id r = m ∧ ex_session_id r = rq_session_id d.

Lemma delivered_stable d m s s' : delivered d m s → Guar s s' → delivered d m s'.
Proof.
  intros (t & x & r & ? & ? & Hr & ? & ?) [He _ _]. destruct (He _ _ Hr) as (r' & ? & ? & ? & _).
  exists t, x, r'. naive_solver congruence.
Qed.

(** ** Steps that touch only leases, the clock, the bucket or the identifiers *)
Lemma inv_frame s s' :
  es_sessions s' = es_sessions s → es_events s' = es_events s →
  es_executions s' = es_executions s → es_outbox s' = es_outbox s → es_bus s' = es_bus s →
  Inv s → Inv s'.
Proof.
  intros H1 H2 H3 H4 H5 []. split; rewrite ?H1, ?H2, ?H3, ?H4, ?H5; try done.
  intros o Ho Hty. destruct (inv_request0 o Ho Hty) as (d & x & r & ?).
  exists d, x, r. by rewrite H3.
Qed.

Lemma guar_frame s s' :
  es_events s' = es_events s → es_executions s' = es_executions s → es_leases s' = es_leases s →
  Guar s s'.
Proof.
  intros H1 H2 H3. split; rewrite ?H1, ?H2, ?H3; [naive_solver|done|].
  intros k l ?. exists l. split; [done|lia].
Qed.

(** Replacing a lease by one with a token at least as large. *)
Lemma lease_update_safe s0 k l :
  (∀ l0, es_leases s0 !! k = Some l0 → le_fencing_token l0 ≤ le_fencing_token l) →
  Inv s0 → Inv (set_leases (<[k := l]>) s0) ∧ Guar s0 (set_leases (<[k := l]>) s0).
Proof.
  intros Htok Hi. split; [by apply (inv_frame s0)|]. split; simpl; [naive_solver|done|].
  intros k' l' Hl'. destruct (decide (k = k')) as [<-|].
  - exists l. rewrite lookup_insert_eq. auto.
  - exists l'. rewrite lookup_insert_ne by done. split; [done|lia].
Qed.

(** ** Leases *)
Section Leases.
  Context (J : ExecState → Prop).

Lemma good_acquire fault ttl t sid owner :
  good_step Inv Guar J (acquire fault ttl t sid owner).
Proof.
  unfold acquire. intros s Hi Hj. unfold mbind at 1 2, ST_mbind at 1 2.
  unfold ensure at 1 2. destruct (length_between _ _ _); [|simpl; by split].
  revert s Hi Hj. change (good_step Inv Guar J (transaction fault ESql
    (token ← upsert_lease ttl t sid owner;
     match token with
     | None =>
         holder ← gets (λ s, default "None" (le_owner_id <$> es_leases s !! (t, sid)));
         raise (SessionLeaseError ("SESSION_LEASE_HELD:" +:+ holder))
     | Some token =>
         version ← lock_session_version t sid;
         version ← get_or_raise version (SessionLeaseError "SESSION_NOT_FOUND");
         mret {| gr_fencing_token := token; gr_session_version := version |}
     end))).
  apply good_transaction; [done|]. intros s a s' Hi _ (token & s1 & Hup & H)%bind_Ok.
  assert (s' = s1) as ->.
  { destruct token; unfold lock_session_version in *; run_inv. done. }
  clear H. unfold upsert_lease in Hup. run_inv.
  destruct (es_leases s !! (t, sid)) as [l|] eqn:Hl.
  - destruct (_ || _); run_inv; [|by split]. apply lease_update_safe; [|done].
    intros l0 Hl0. simplify_eq. simpl. lia.
  - run_inv. apply lease_update_safe; [|done]. intros l0 Hl0. congruence.
Qed.

Lemma good_renew fault ttl t sid owner token :
  good_step Inv Guar J (renew fault ttl t sid owner token).
Proof.
  unfold renew. set (body := transaction _ _ _).
  assert (good_step Inv Guar J body) as Hb.
  { apply good_transaction; [done|]. intros s a s' Hi _ H. run_inv.
    destruct (es_leases s !! (t, sid)) as [l|] eqn:Hl; [|run_inv; by split].
    destruct (_ && _) eqn:Hc; run_inv; [|by split].
    apply lease_update_safe; [|done]. intros l0 Hl0. simplify_eq. simpl.
    apply andb_true_iff in Hc as [[_ Ht]%andb_true_iff _]. lia. }
  intros s Hi Hj. specialize (Hb s Hi Hj). unfold mbind, ST_mbind.
  destruct (body s) as [[[]|] s']; done.
Qed.

Lemma good_release_lease fault t sid owner :
  good_step Inv Guar J (release_lease fault t sid owner).
Proof.
  apply good_transaction; [done|]. intros s a s' Hi _ H. run_inv.
  destruct (es_leases s !! (t, sid)) as [l|] eqn:Hl; [|run_inv; by split].
  case_bool_decide; run_inv; [|by split].
  apply lease_update_safe; [|done]. intros l0 Hl0. simplify_eq. done.
Qed.
End Leases.

(** ** Updates of executions *)
Definition one_if_succeeded (r : Execution) : nat :=
  if bool_decide (ex_status r = EX_SUCCEEDED) then 1%nat else 0%nat.

Lemma succeeded_insert_new m k r :
  m !! k = None → succeeded (<[k := r]> m) = (succeeded m + one_if_succeeded r)%nat.
Proof.
  intros Hk. unfold succeeded, one_if_succeeded. case_bool_decide as Hs.
  - rewrite map_filter_insert_True by done. rewrite map_size_insert_None; [lia|].
    apply map_lookup_filter_None. by left.
  - rewrite map_filter_insert_not' by naive_solver. lia.
Qed.

Lemma succeeded_update m k r r' :
  m !! k = Some r →
  (succeeded (<[k := r']> m) + one_if_succeeded r = succeeded m + one_if_succeeded r')%nat.
Proof.
  intros Hk. pose proof (lookup_delete_eq m k) as Hd.
  pose proof (succeeded_insert_new _ _ r Hd) as H1. pose proof (succeeded_insert_new _ _ r' Hd) as H2.
  rewrite insert_delete_eq in H1, H2. rewrite insert_id in H1 by done. lia.
Qed.

Lemma alter_as_insert {A} (f : A → A) (k : uuid * uuid) (m : gmap (uuid * uuid) A) r :
  m !! k = Some r → alter f k m = <[k := f r]> m.
Proof.
  intros Hk. apply map_eq. intros k'. destruct (decide (k = k')) as [<-|].
  - by rewrite lookup_alter_eq, lookup_insert_eq, Hk.
  - by rewrite lookup_alter_ne, lookup_insert_ne.
Qed.

(** An update that keeps the message, the session and whether the execution
    succeeded. *)
Definition neutral (f : Execution → Execution) : Prop :=
  ∀ r, ex_message_id (f r) = ex_message_id r ∧ ex_session_id (f r) = ex_session_id r ∧
    (ex_status (f r) = EX_SUCCEEDED ↔ ex_status r = EX_SUCCEEDED).

Lemma lookup_alter_inv {A} (f : A → A) (k k' : uuid * uuid) (m : gmap (uuid * uuid) A) r' :
  alter f k m !! k' = Some r' → ∃ r, m !! k' = Some r ∧ (r' = r ∨ r' = f r).
Proof.
  destruct (decide (k = k')) as [<-|]; [rewrite lookup_alter_eq|rewrite lookup_alter_ne by done].
  - destruct (m !! k); naive_solver.
  - naive_solver.
Qed.

Lemma neutral_lookup (f : Execution → Execution) (k k' : uuid * uuid) (m : gmap (uuid * uuid) Execution) r' :
  neutral f → alter f k m !! k' = Some r' →
  ∃ r, m !! k' = Some r ∧ ex_message_id r' = ex_message_id r ∧ ex_session_id r' = ex_session_id r ∧
    (ex_status r' = EX_SUCCEEDED ↔ ex_status r = EX_SUCCEEDED).
Proof.
  intros Hf (r & Hr & [->| ->])%lookup_alter_inv; exists r; [by auto|]. split; [done|apply Hf].
Qed.

Lemma neutral_lookup_2 (f : Execution → Execution) (k k' : uuid * uuid) (m : gmap (uuid * uuid) Execution) r :
  neutral f → m !! k' = Some r →
  ∃ r', alter f k m !! k' = Some r' ∧ ex_message_id r' = ex_message_id r ∧
    ex_session_id r' = ex_session_id r ∧
    (ex_status r' = EX_SUCCEEDED ↔ ex_status r = EX_SUCCEEDED).
Proof.
  intros Hf Hr. destruct (decide (k = k')) as [<-|].
  - exists (f r). rewrite lookup_alter_eq, Hr. split; [done|apply Hf].
  - exists r. by rewrite lookup_alter_ne.
Qed.

Lemma neutral_counts (f : Execution → Execution) (k : uuid * uuid) (m : gmap (uuid * uuid) Execution) :
  neutral f → size (alter f k m) = size m ∧ succeeded (alter f k m) = succeeded m.
Proof.
  intros Hf. destruct (m !! k) as [r|] eqn:Hk.
  - rewrite (alter_as_insert f k m r Hk). split; [by rewrite map_size_insert, Hk|].
    pose proof (succeeded_update m k r (f r) Hk) as H. unfold one_if_succeeded in H.
    destruct (Hf r) as (_ & _ & Hst). rewrite (bool_decide_ext _ _ Hst) in H. lia.
  - by rewrite alter_id by naive_solver.
Qed.

Lemma neutral_safe f k s :
  neutral f → Inv s → Inv (set_executions (alter f k) s) ∧ Guar s (set_executions (alter f k) s).
Proof.
  intros Hf []. split.
  - split; simpl; try done.
    + intros t x1 r1 x2 r2 (r1' & H1 & -> & _)%neutral_lookup (r2' & H2 & -> & _)%neutral_lookup;
        eauto.
    + intros t x r (r' & Hr & _ & -> & Hst)%neutral_lookup; [|done].
      rewrite (bool_decide_ext _ _ Hst). by apply inv_commit0.
    + intros t sid n e (r & Hr)%inv_owner0.
      destruct (neutral_lookup_2 f k _ _ _ Hf Hr) as (r' & ? & _). eauto.
    + intros o Ho Hty. destruct (inv_request0 o Ho Hty) as (d & x & r & ? & ? & ? & ? & Hr & ? & ?).
      destruct (neutral_lookup_2 f k _ _ _ Hf Hr) as (r' & ? & ? & ? & _).
      exists d, x, r'. simpl. naive_solver congruence.
    + by rewrite (proj1 (neutral_counts f k _ Hf)).
    + by rewrite (proj2 (neutral_counts f k _ Hf)).
  - split; simpl; [|done|].
    + intros k' r Hr. destruct (neutral_lookup_2 f k _ _ _ Hf Hr) as (r' & ? & ? & ? & Hst).
      exists r'. naive_solver.
    + intros k' l ?. exists l. split; [done|lia].
Qed.

Lemma good_mark_failed J fault t x : good_step Inv Guar J (mark_failed fault t x).
Proof.
  apply good_transaction; [done|]. intros s a s' Hi _ H. run_inv. apply neutral_safe; [|done].
  intros r. case_bool_decide as Hp; simpl; [|done]. rewrite Hp. naive_solver.
Qed.

Lemma good_pin_knowledge J fault t x ids : good_step Inv Guar J (pin_knowledge fault t x ids).
Proof. apply good_transaction; [done|]. intros s a s' Hi _ H. run_inv. by apply neutral_safe. Qed.

Lemma good_execution_status J fault t m : good_step Inv Guar J (execution_status fault t m).
Proof. apply good_transaction; [done|]. intros s a s' Hi _ H. run_inv. by split. Qed.

(** ** The commit *)
Lemma count_type_snoc ty l o :
  count_type ty (l ++ [o]) =
    (count_type ty l + (if bool_decide (ob_event_type o = ty) then 1 else 0))%nat.
Proof.
  unfold count_type. rewrite fmap_app, filter_app, length_app. simpl. rewrite filter_cons, filter_nil.
  case_decide; [rewrite bool_decide_eq_true_2 by done|rewrite bool_decide_eq_false_2 by done]; done.
Qed.

(** Appending the two events of a commit to a session at version [v]. *)
Section Append.
  Context (events : gmap (session_key * Z) EventRow) (t x : uuid) (sid : string) (v : Z).
  Context (e1 e2 : EventRow).
  Context (Hx1 : ev_execution_id e1 = x) (Hx2 : ev_execution_id e2 = x).

Definition appended : gmap (session_key * Z) EventRow :=
  <[((t, sid), v + 2) := e2]> (<[((t, sid), v + 1) := e1]> events).

Lemma appended_inv t' sid' k e :
  appended !! ((t', sid'), k) = Some e →
  (t' = t ∧ sid' = sid ∧ (k = v + 1 ∨ k = v + 2) ∧ ev_execution_id e = x) ∨
  events !! ((t', sid'), k) = Some e.
Proof.
  unfold appended. rewrite !lookup_insert_Some. intros [[? <-]|[_ [[? <-]|[_ ?]]]]; simplify_eq; eauto 8.
Qed.

Lemma appended_first : appended !! ((t, sid), v + 1) = Some e1.
Proof.
  unfold appended. rewrite lookup_insert_ne by (intros [=]; lia). apply lookup_insert_eq.
Qed.
Lemma appended_second : appended !! ((t, sid), v + 2) = Some e2.
Proof. apply lookup_insert_eq. Qed.

Lemma appended_old t' sid' k e :
  events !! ((t', sid'), k) = Some e → (t' = t → sid' = sid → k ≤ v) →
  appended !! ((t', sid'), k) = Some e.
Proof.
  intros He Hk. unfold appended. rewrite !lookup_insert_ne; [done|intros [= <- <- <-]; specialize (Hk eq_refl eq_refl); lia..].
Qed.

Lemma appended_committed :
  ev_kind e1 = "USER_MESSAGE" → ev_kind e2 = "AGENT_REPLY" → not_committed events t x →
  committed_once appended t x sid.
Proof.
  intros Hk1 Hk2 Hno. exists v. split; [exists e1; split; [apply appended_first|done]|].
  split; [exists e2; split; [apply appended_second|done]|].
  intros sid' k e [(_ & -> & ? & _)|He]%appended_inv Hx; [done|]. by destruct (Hno _ _ _ He).
Qed.

Lemma appended_committed_other t' x' sid' :
  (∀ k, is_Some (events !! ((t, sid), k)) → k ≤ v) → (t', x') ≠ (t, x) →
  committed_once events t' x' sid' → committed_once appended t' x' sid'.
Proof.
  intros Hmax Hne (n & (a & Ha & ? & ?) & (b & Hb & ? & ?) & Hall). exists n.
  assert (∀ k e, events !! ((t', sid'), k) = Some e → appended !! ((t', sid'), k) = Some e) as Hold.
  { intros k e He. apply appended_old; [done|]. intros -> ->. eauto. }
  split; [by eauto|]. split; [by eauto|].
  intros sid2 k e [(-> & _ & _ & ?)|He]%appended_inv Hx'; [congruence|]. by eapply Hall.
Qed.

Lemma appended_not_committed_other t' x' :
  (t', x') ≠ (t, x) → not_committed events t' x' → not_committed appended t' x'.
Proof.
  intros Hne Hno sid' k e [(-> & _ & _ & ?)|He]%appended_inv; [congruence|]. by eapply Hno.
Qed.

Lemma appended_sequence (sessions : gmap session_key SessionRow) row :
  (∀ t sid k, is_Some (events !! ((t, sid), k)) ↔
     ∃ row, sessions !! (t, sid) = Some row ∧ 1 ≤ k ≤ sn_version row) →
  sessions !! (t, sid) = Some row → sn_version row = v → 0 ≤ v →
  ∀ t' sid' k, is_Some (appended !! ((t', sid'), k)) ↔
    ∃ row, alter (set_version (v + 2)) (t, sid) sessions !! (t', sid') = Some row ∧
           1 ≤ k ≤ sn_version row.
Proof.
  intros Hseq Hrow Hv Hv0 t' sid' k.
  destruct (decide ((t, sid) = (t', sid'))) as [[= <- <-]|Hne].
  - rewrite lookup_alter_eq, Hrow. split.
    + intros [e [(_ & _ & Hk & _)|He]%appended_inv]; (eexists; split; [done|]); simpl; [lia|].
      destruct (proj1 (Hseq t sid k) ltac:(by eexists)) as (row' & ? & ?). simplify_eq. lia.
    + intros (row' & [= <-] & Hk). simpl in Hk.
      destruct (decide (k = v + 1)) as [->|]; [rewrite appended_first; by eexists|].
      destruct (decide (k = v + 2)) as [->|]; [rewrite appended_second; by eexists|].
      destruct (proj2 (Hseq t sid k)) as [e He]; [exists row; split; [done|lia]|].
      exists e. apply appended_old; [done|]. lia.
  - rewrite lookup_alter_ne by done. rewrite <- Hseq. split; intros [e He].
    + apply appended_inv in He as [(-> & -> & _)|He]; [done|by eexists].
    + exists e. apply appended_old; [done|]. intros -> ->. done.
Qed.
End Append.

Lemma version_set_nonneg (sessions : gmap session_key SessionRow) k v :
  0 ≤ v → (∀ k row, sessions !! k = Some row → 0 ≤ sn_version row) →
  ∀ k' row, alter (set_version v) k sessions !! k' = Some row → 0 ≤ sn_version row.
Proof.
  intros Hv Hall k' row. destruct (decide (k = k')) as [<-|].
  - rewrite lookup_alter_eq. destruct (sessions !! k); intros [= <-]. done.
  - rewrite lookup_alter_ne by done. apply Hall.
Qed.

Section Commit.
  Context (uuid_at : nat → uuid) (owner : string).
  Context (d : ExecutionRequestedData) (m : string).

Lemma commit_result_safe t x grant route result ids tp s u s' :
  parse_uuid (rq_tenant_id d) = Some t → parse_uuid (rq_execution_id d) = Some x →
  Inv s → delivered d m s →
  commit_result uuid_at owner d m t x grant route result ids tp s = (Ok u, s') →
  Inv s' ∧ Guar s s'.
Proof.
  intros Ht Hx Hi (t' & x' & r & Ht' & Hx' & Hr & Hm & Hsid) H.
  rewrite Ht in Ht'. rewrite Hx in Hx'. injection Ht' as <-. injection Hx' as <-.
  apply commit_result_run in H as (x0 & r0 & Hx0 & [[-> _]|H]); [by split|].
  destruct H as (row & v & e1 & e2 & o1 & o2 & H). cbv zeta in H.
  destruct H as (Hst & Hrow & Hv & Hx1 & Hx2 & Hk1 & Hk2 & Ho1 & Ho2 & Hse & Hle & Hev & Hex & Hob & Hbu).
  apply execution_with_message_Some in Hx0 as [Hr0 Hm0].
  set (sid := rq_session_id d) in *.
  destruct Hi. assert (x0 = x) as ->.
  { eapply inv_message0; [exact Hr0|exact Hr|congruence]. }
  assert (r0 = r) as -> by congruence. clear Hr0 Hm0.
  assert (∀ k, is_Some (es_events s !! ((t, sid), k)) → k ≤ v) as Hmax.
  { intros k (row' & Hrow' & ?)%inv_sequence0. simplify_eq. lia. }
  assert (not_committed (es_events s) t x) as Hno.
  { pose proof (inv_commit0 t x r Hr) as H. by rewrite bool_decide_eq_false_2 in H. }
  pose proof (inv_version0 _ _ Hrow) as Hv0. rewrite Hv in Hv0.
  fold (appended (es_events s) t sid v e1 e2) in Hev.
  split; split; rewrite ?Hse, ?Hev, ?Hex, ?Hob, ?Hbu, ?Hle.
  - by eapply appended_sequence.
  - apply version_set_nonneg; [lia|done].
  - intros t' x1 r1 x2 r2 (r1' & H1 & Hr1)%lookup_alter_inv (r2' & H2 & Hr2)%lookup_alter_inv Hmm.
    eapply inv_message0; [exact H1|exact H2|]. destruct Hr1 as [->| ->], Hr2 as [->| ->]; done.
  - intros t' x' r'. destruct (decide ((t, x) = (t', x'))) as [[= <- <-]|Hne].
    + rewrite lookup_alter_eq, Hr. intros [= <-]. rewrite bool_decide_eq_true_2 by done. simpl.
      rewrite Hsid. by apply appended_committed.
    + rewrite lookup_alter_ne by done. intros Hr'. specialize (inv_commit0 t' x' r' Hr').
      case_bool_decide; [by apply (appended_committed_other _ _ x)|].
      by apply (appended_not_committed_other _ _ x).
  - intros t' sid' k e He. apply (appended_inv _ _ x) in He; [|done..].
    apply lookup_alter_is_Some. destruct He as [(-> & _ & _ & ->)|He]; [by eexists|].
    by eapply inv_owner0.
  - intros o Ho Hty. rewrite !elem_of_app, !list_elem_of_singleton in Ho.
    destruct Ho as [[Ho| ->]| ->]; [|by rewrite Ho1 in Hty|by rewrite Ho2 in Hty].
    destruct (inv_request0 o Ho Hty) as (d' & x' & r' & ? & ? & ? & ? & Hr' & ? & ?).
    exists d', x'. rewrite Hex.
    destruct (decide ((t, x) = (ob_tenant_id o, x'))) as [Heq|].
    + rewrite <- Heq, lookup_alter_eq, Hr. rewrite <- Heq in Hr'. simplify_eq. by eexists.
    + rewrite lookup_alter_ne by done. by exists r'.
  - intros e (o & Ho & ->)%inv_bus0. exists o. rewrite !elem_of_app. eauto.
  - rewrite !count_type_snoc, Ho1, Ho2, !bool_decide_eq_false_2 by done.
    rewrite (alter_as_insert _ _ _ r Hr), map_size_insert, Hr. simpl. lia.
  - rewrite !count_type_snoc, Ho1, Ho2, bool_decide_eq_false_2, bool_decide_eq_true_2 by done.
    rewrite (alter_as_insert _ _ _ r Hr).
    pose proof (succeeded_update _ _ _ (set_ex_status EX_SUCCEEDED r) Hr) as Hs.
    unfold one_if_succeeded in Hs. rewrite (bool_decide_eq_false_2 _ Hst) in Hs. simpl in *. lia.
  - intros k r' Hr'. destruct (decide ((t, x) = k)) as [<-|].
    + rewrite lookup_alter_eq, Hr'. eexists. split; [done|]. done.
    + rewrite lookup_alter_ne by done. eauto.
  - apply map_subseteq_spec. intros [[t' sid'] k] e He. apply appended_old; [done|].
    intros -> ->. eauto.
  - intros k l ?. exists l. split; [done|lia].
Qed.
End Commit.

(** ** Submissions *)
Section Submit.
  Context (uuid_at : nat → uuid) (payload_digest : json → string).
  Context (application_exists : uuid → uuid → bool).
  Context (release_classification : uuid → uuid → option string).
  Context (Hids : ∀ n, 0 ≤ uuid_at n < 2 ^ 128).

Lemma session_added_sequence (s : ExecState) (k : session_key) (row : SessionRow) (sessions : gmap session_key SessionRow) :
  Inv s → sessions = <[k := row]> (es_sessions s) → es_sessions s !! k = None → sn_version row = 0 →
  (∀ t sid n, is_Some (es_events s !! ((t, sid), n)) ↔
     ∃ row, sessions !! (t, sid) = Some row ∧ 1 ≤ n ≤ sn_version row) ∧
  (∀ k row, sessions !! k = Some row → 0 ≤ sn_version row).
Proof.
  intros [] -> Hk Hv. split.
  - intros t sid n. rewrite inv_sequence0. destruct (decide (k = (t, sid))) as [->|].
    + rewrite lookup_insert_eq, Hk. split; [by intros (? & ? & ?)|].
      intros (row' & [= <-] & ?). lia.
    + by rewrite lookup_insert_ne.
  - intros k' row' [[<- <-]|[_ ?]]%lookup_insert_Some; [lia|eauto].
Qed.

Lemma request_of_insert s s' o t x r :
  es_executions s !! (t, x) = None → es_executions s' = <[(t, x) := r]> (es_executions s) →
  request_of s o → request_of s' o.
Proof.
  intros Hfree He (d & x' & r' & ? & ? & ? & ? & Hr' & ? & ?). exists d, x', r'. rewrite He.
  rewrite lookup_insert_ne by congruence. done.
Qed.

Lemma submit_body_safe policy sb m rel s a s' :
  0 ≤ sb_tenant_id sb < 2 ^ 128 → Inv s →
  submit_body uuid_at payload_digest application_exists release_classification policy sb m rel s
    = (Ok a, s') →
  Inv s' ∧ Guar s s'.
Proof.
  intros Htr Hi [(_ & [b ->] & _)|[_ H]]%submit_body_run.
  { split; [by apply (inv_frame s)|by apply guar_frame]. }
  cbv zeta in H. set (t := sb_tenant_id sb) in *. set (x := ac_execution_id a) in *.
  destruct H as (_ & Hm & Hfree & Hxid & Hval & sessions & r & o & b & n & Hsess & H).
  destruct H as (Hrm & Hrs & Hst & _ & _ & Hot & Hom & Hoty & Hop & _ & ->).
  assert ((∀ t sid n, is_Some (es_events s !! ((t, sid), n)) ↔
             ∃ row, sessions !! (t, sid) = Some row ∧ 1 ≤ n ≤ sn_version row) ∧
          (∀ k row, sessions !! k = Some row → 0 ≤ sn_version row)) as [Hseq Hver].
  { destruct Hsess as [[-> _]|[Hnone [app Heq]]]; [by destruct Hi|].
    by eapply session_added_sequence. }
  destruct Hi. split; split; simpl; try done.
  - intros t' x1 r1 x2 r2 [[[= <- <-] <-]|[_ H1]]%lookup_insert_Some
      [[[= Heq] <-]|[_ H2]]%lookup_insert_Some Hmm; try subst; try done; [| |by eauto].
    + exfalso. eapply execution_with_message_None; [exact Hm|exact H2|congruence].
    + exfalso. eapply execution_with_message_None; [exact Hm|exact H1|congruence].
  - intros t' x' r' [[[= <- <-] <-]|[_ Hr']]%lookup_insert_Some; [|by apply inv_commit0].
    rewrite bool_decide_eq_false_2 by congruence. intros sid k e He Hx.
    destruct (inv_owner0 _ _ _ _ He) as [r0 Hr0]. congruence.
  - intros t' sid k e He. apply lookup_insert_is_Some'. right. by eapply inv_owner0.
  - intros o' [Ho'| ->%list_elem_of_singleton]%elem_of_app Hty.
    + eapply request_of_insert; [exact Hfree|done|]. by apply inv_request0.
    + exists (requested_data sb x rel), x, r. rewrite Hot, Hom. simpl.
      rewrite lookup_insert_eq. rewrite !parse_uuid_text; [done|subst x; rewrite Hxid; apply Hids|done].
  - intros e (o' & ? & ->)%inv_bus0. exists o'. rewrite elem_of_app. eauto.
  - rewrite count_type_snoc, Hoty, bool_decide_eq_true_2, map_size_insert, Hfree by done. lia.
  - rewrite count_type_snoc, Hoty, bool_decide_eq_false_2 by done.
    rewrite succeeded_insert_new by done. unfold one_if_succeeded.
    rewrite bool_decide_eq_false_2 by congruence. lia.
  - intros k r' Hr'. exists r'. rewrite lookup_insert_ne by congruence. done.
  - intros k l ?. exists l. split; [done|lia].
Qed.

Lemma good_submit J fault policy resolved sb :
  0 ≤ sb_tenant_id sb < 2 ^ 128 →
  good_step Inv Guar J
    (submit uuid_at payload_digest application_exists release_classification fault policy resolved sb).
Proof.
  intros Htr. destruct resolved as [rel|]; [|by intros s Hi _].
  assert (∀ m s, Inv s →
    let s' := (transaction fault ESql (submit_body uuid_at payload_digest application_exists
                 release_classification policy sb m rel) s).2 in Inv s' ∧ Guar s s') as Hb.
  { intros m s Hi. apply (good_transaction Inv Guar (λ _, True)); [done| |done|done].
    intros s0 a s1 ? _. by apply submit_body_safe. }
  intros s Hi _. unfold submit. cbn.
  destruct (sb_message_id sb) as [[|c m]|]; cbn; [|by apply Hb|].
  all: destruct (Hb (uuid_text (uuid_at (es_next_id s))) (set_ids (S (es_next_id s)) s))
         as [Hi' Hg']; [by apply (inv_frame s)|]; split; [done|];
       etrans; [|exact Hg']; by apply guar_frame.
Qed.
End Submit.

(** ** Dispatching *)
Definition dispatch (fault : txn_fault) (locked : uuid → bool) (batch_size : nat)
    (publish_ok : ExecutionEnvelope → bool) (s : ExecState) : ExecState :=
  let d := (dispatch_pending fault locked batch_size publish_ok
              {| ds_outbox := es_outbox s; ds_bus := es_bus s |}).2 in
  set_outbox (ds_outbox d) (ds_bus d) s.

Definition content (o : OutboxRecord) : uuid * string * string * jobject * ExecutionEnvelope :=
  (ob_tenant_id o, ob_message_id o, ob_event_type o, ob_payload o, envelope_of o).

Lemma mark_all_content rows t : content <$> mark_all rows t = content <$> t.
Proof.
  unfold mark_all. revert t. induction rows as [|row rows IH]; intros t; simpl; [done|].
  rewrite IH, <- list_fmap_compose. apply list_fmap_ext. intros ? o _. simpl.
  unfold set_status. by case_match.
Qed.

Lemma same_content_elem (l l' : list OutboxRecord) o :
  content <$> l' = content <$> l → o ∈ l' → ∃ o0, o0 ∈ l ∧ content o = content o0.
Proof.
  intros Heq Ho. apply (list_elem_of_fmap_2 content) in Ho. rewrite Heq in Ho.
  apply list_elem_of_fmap in Ho as (o0 & ? & ?). eauto.
Qed.

Lemma dispatch_safe fault locked n ok s :
  Inv s → Inv (dispatch fault locked n ok s) ∧ Guar s (dispatch fault locked n ok s).
Proof.
  intros []. split; [|by apply guar_frame].
  pose proof (dispatch_pending_run fault locked n ok
    {| ds_outbox := es_outbox s; ds_bus := es_bus s |}) as Hrun. simpl in Hrun.
  unfold dispatch. set (d := (dispatch_pending _ _ _ _ _).2) in *. clearbody d.
  destruct Hrun as [Hb Ho].
  assert (content <$> ds_outbox d = content <$> es_outbox s) as Hc.
  { destruct Ho as [->| ->]; [done|apply mark_all_content]. }
  assert (∀ ty, count_type ty (ds_outbox d) = count_type ty (es_outbox s)) as Hcount.
  { intros ty. unfold count_type. do 2 f_equal.
    apply (f_equal (fmap (λ c : uuid * string * string * jobject * ExecutionEnvelope, c.1.1.2))) in Hc.
    by rewrite <- !list_fmap_compose in Hc. }
  split; simpl; rewrite ?Hcount; try done.
  - intros o [o0 [Ho0 Heq]]%(same_content_elem _ _ _ Hc) Hty. unfold content in Heq.
    injection Heq as H1 H2 H3 H4 _. destruct (inv_request0 o0 Ho0) as (d' & x & r & ?); [congruence|].
    exists d', x, r. simpl. rewrite H1, H2, H4. done.
  - intros e. rewrite Hb, elem_of_app. intros [(o & Hin & ->)%inv_bus0|(o & -> & Hin)%list_elem_of_fmap].
    + symmetry in Hc. destruct (same_content_elem _ _ _ Hc Hin) as (o0 & ? & Heq).
      exists o0. split; [done|]. exact (f_equal snd Heq).
    + eapply elem_of_prefix in Hin; [|apply accepted_prefix].
      apply select_pending_elem in Hin as [Hin _]. symmetry in Hc.
      destruct (same_content_elem _ _ _ Hc Hin) as (o0 & ? & Heq).
      exists o0. split; [done|]. exact (f_equal snd Heq).
Qed.

(** ** Workers *)
Definition delivery_fact (e : ExecutionEnvelope) (s : ExecState) : Prop :=
  ee_event_type e = EXECUTION_REQUESTED_EVENT →
  match requested_validate (ee_data e) with
  | Some d => delivered d (ee_message_id e) s
  | None => True
  end.

Lemma delivery_fact_stable e s s' : delivery_fact e s → Guar s s' → delivery_fact e s'.
Proof.
  intros Hd Hg Hty. specialize (Hd Hty). destruct (requested_validate _); [|done].
  by eapply delivered_stable.
Qed.

(** Everything on the bus is a request a worker may rely on. *)
Lemma bus_delivery s e :
  Inv s → e ∈ es_bus s → delivery_fact e s.
Proof.
  intros [] (o & Ho & ->)%inv_bus0 Hty. simpl in Hty.
  destruct (inv_request0 o Ho Hty) as (d & x & r & Hp & Hval & Ht & Hx & Hr & Hm & Hs).
  unfold delivery_fact. simpl. rewrite Hp, requested_roundtrip by done.
  by exists (ob_tenant_id o), x, r.
Qed.

Create HintDb safety discriminated.
#[local] Hint Resolve good_acquire good_renew good_mark_failed good_pin_knowledge
  good_execution_status : safety.

Lemma delivery_stable e : stable Inv Guar (delivery_fact e).
Proof. intros s s' _ _ Hg Hd. by eapply delivery_fact_stable. Qed.

(** Programs that rely on the delivered message throughout. *)
Abbreviation worker_safe e p := (proc_safe Inv Guar Guar (λ _, delivery_fact e) (delivery_fact e) p).

Lemma safe_uuid_of {A} e text (k : uuid → PM ExecState ExecError A) :
  (∀ id, parse_uuid text = Some id → worker_safe e (k id)) →
  worker_safe e (pm_bind (uuid_of text) k).
Proof.
  intros Hk. unfold uuid_of. destruct (parse_uuid text); [|by constructor].
  unfold pm_bind. simpl. auto.
Qed.

Lemma safe_external {A B} e (o : outcome ExecError A) (k : A → PM ExecState ExecError B) :
  (∀ a, worker_safe e (k a)) → worker_safe e (pm_bind (external o) k).
Proof. intros Hk. destruct o; [apply Hk|by constructor]. Qed.

(** Walk through a worker program, leaving the transactions without a lemma. *)
Ltac safe_walk :=
  repeat match goal with
  | |- proc_safe _ _ _ _ _ (Done _) => apply safe_pm_done
  | |- proc_safe _ _ _ _ _ (pm_ret _) => apply safe_pm_done
  | |- proc_safe _ _ _ _ _ (pm_raise _) => apply safe_pm_done
  | |- proc_safe _ _ _ _ _ (pm_bind (uuid_of _) _) => apply safe_uuid_of; intros ? ?
  | |- proc_safe _ _ _ _ _ (pm_bind (external _) _) => apply safe_external; intros ?
  | |- proc_safe _ _ _ _ _ (pm_bind _ _) => apply safe_pm_bind; [|intros ?]
  | |- proc_safe _ _ _ _ _ (match ?x with _ => _ end) => destruct x
  | |- proc_safe _ _ _ _ _ (atomically _) =>
      solve [apply safe_atomically; [apply delivery_stable..|auto with safety]]
  end.

Lemma handle_safe uuid_at ttl owner pool dv e :
  worker_safe e (handle uuid_at ttl owner pool dv e).
Proof.
  unfold handle. case_bool_decide as Hty; [|by constructor]. cbn [negb].
  destruct (requested_validate (ee_data e)) as [d|] eqn:Hd; [|by constructor].
  apply safe_pm_catch; [|intros []; safe_walk].
  unfold handle_execution. safe_walk.
  all: apply safe_atomically; [apply delivery_stable..|];
    apply good_transaction; [done|]; intros s u s' Hi Hj Hrun;
    eapply commit_result_safe; [done..| |exact Hrun];
    specialize (Hj Hty); by rewrite Hd in Hj.
Qed.

(** ** The system *)
Record System := {
  sys_db : ExecState;
  sys_workers : list (ExecutionEnvelope * PM ExecState ExecError unit);
}.

Section System.
  Context (uuid_at : nat → uuid) (payload_digest : json → string).
  Context (application_exists : uuid → uuid → bool).
  Context (release_classification : uuid → uuid → option string).

Inductive pipeline_step : System → System → Prop :=
  (** A gateway handles a valid submission. *)
  | pipe_submit db ws fault policy resolved sb :
      submission_valid sb = true →
      pipeline_step {| sys_db := db; sys_workers := ws |}
        {| sys_db := (submit uuid_at payload_digest application_exists release_classification
                        fault policy resolved sb db).2; sys_workers := ws |}
  (** A dispatcher runs. *)
  | pipe_dispatch db ws fault locked n ok :
      pipeline_step {| sys_db := db; sys_workers := ws |}
        {| sys_db := dispatch fault locked n ok db; sys_workers := ws |}
  (** The bus delivers an envelope it carries, possibly again, to some worker. *)
  | pipe_deliver db ws ttl owner pool dv e :
      e ∈ es_bus db →
      pipeline_step {| sys_db := db; sys_workers := ws |}
        {| sys_db := db; sys_workers := (e, handle uuid_at ttl owner pool dv e) :: ws |}
  (** A worker runs its next transaction. *)
  | pipe_run db ws1 ws2 e next effect :
      pipeline_step {| sys_db := db; sys_workers := ws1 ++ (e, Step next effect) :: ws2 |}
        {| sys_db := effect db; sys_workers := ws1 ++ (e, next db) :: ws2 |}
  (** A worker ends or crashes. *)
  | pipe_drop db ws1 ws2 w :
      pipeline_step {| sys_db := db; sys_workers := ws1 ++ w :: ws2 |}
        {| sys_db := db; sys_workers := ws1 ++ ws2 |}
  (** Lease traffic of other components: renewals and releases. *)
  | pipe_renew db ws fault ttl t sid owner token :
      pipeline_step {| sys_db := db; sys_workers := ws |}
        {| sys_db := (renew fault ttl t sid owner token db).2; sys_workers := ws |}
  | pipe_release db ws fault t sid owner :
      pipeline_step {| sys_db := db; sys_workers := ws |}
        {| sys_db := (release_lease fault t sid owner db).2; sys_workers := ws |}
  (** The clock moves. *)
  | pipe_tick db ws now :
      pipeline_step {| sys_db := db; sys_workers := ws |}
        {| sys_db := set_now now db; sys_workers := ws |}.

Definition worker_ok (s : ExecState) (w : ExecutionEnvelope * PM ExecState ExecError unit) : Prop :=
  runs_safely Inv Guar Guar s w.2.

Definition system_ok (c : System) : Prop :=
  Inv (sys_db c) ∧ Forall (worker_ok (sys_db c)) (sys_workers c).

Lemma workers_ok_stable s s' ws :
  Inv s → Inv s' → Guar s s' → Forall (worker_ok s) ws → Forall (worker_ok s') ws.
Proof.
  intros Hi Hi' Hg Hw. eapply Forall_impl; [exact Hw|]. intros w.
  by apply runs_safely_interference.
Qed.

Lemma system_ok_db db db' ws :
  Inv db → Inv db' → Guar db db' → Forall (worker_ok db) ws →
  system_ok {| sys_db := db'; sys_workers := ws |}.
Proof. intros. split; [done|]. by apply (workers_ok_stable db). Qed.

Context (Hids : ∀ n, 0 ≤ uuid_at n < 2 ^ 128).

Lemma pipeline_step_ok c c' :
  pipeline_step c c' → system_ok c → system_ok c' ∧ Guar (sys_db c) (sys_db c').
Proof.
  intros Hstep [Hi Hws]. destruct Hstep as [db ws fault policy resolved sb Hsb| | | | | | |]; simpl in *.
  - unfold submission_valid in Hsb. rewrite !andb_true_iff in Hsb.
    edestruct (good_submit uuid_at payload_digest application_exists release_classification Hids
      (λ _, True) fault policy resolved sb) as [Hi' Hg]; [lia|exact Hi|done|].
    split; [by apply (system_ok_db db)|done].
  - destruct (dispatch_safe fault locked n ok db Hi). split; [by apply (system_ok_db db)|done].
  - split; [|done]. split; [done|]. simpl. constructor; [|done].
    exists (delivery_fact e), (λ _, delivery_fact e).
    split; [by apply bus_delivery|]. split; [apply delivery_stable|apply handle_safe].
  - apply Forall_app in Hws as [Hw1 [Hs Hw2]%Forall_cons].
    destruct (runs_safely_step _ _ _ _ _ _ Hi Hs) as (Hi' & Hg & Hn).
    split; [|done]. split; [done|]. simpl. apply Forall_app.
    split; [by apply (workers_ok_stable db)|]. constructor; [done|by apply (workers_ok_stable db)].
  - apply Forall_app in Hws as [Hw1 [_ Hw2]%Forall_cons]. split; [|done].
    split; [done|]. simpl. apply Forall_app. done.
  - destruct (good_renew (λ _, True) fault ttl t sid owner token db) as [? ?]; [done..|].
    split; [by apply (system_ok_db db)|done].
  - destruct (good_release_lease (λ _, True) fault t sid owner db) as [? ?]; [done..|].
    split; [by apply (system_ok_db db)|done].
  - split; [|by apply guar_frame]. apply (system_ok_db db); [done|by apply (inv_frame db)|by apply guar_frame|done].
Qed.

Lemma pipeline_reachable c c' :
  rtc pipeline_step c c' → system_ok c → system_ok c' ∧ Guar (sys_db c) (sys_db c').
Proof.
  induction 1 as [c|c c1 c' Hstep _ IH]; intros Hok; [by split|].
  destruct (pipeline_step_ok _ _ Hstep Hok) as [Hok1 Hg1]. destruct (IH Hok1) as [? Hg].
  split; [done|]. by etrans.
Qed.
End System.
