(* ===== verification/PipelineTheorems.v ===== *)
(** * Contracts of the execution pipeline

    Exactly-once commits, gap-free and immutable session histories, fencing of
    stale lease holders, exclusive leases, harmless redelivery, and what a lease
    renewal really extends. *)

From S2P Require Import Prelude PyNum Uuids Interleave ExecutionBus SampleCodec BusTheorems Backpressure Sessions AgentGateway AgentWorker PipelineFacts Pipeline.
Open Scope string_scope.
Open Scope list_scope.
Open Scope Z_scope.

(** An empty database. *)
Definition empty_db (bucket : AdmissionBucket) (now : instant) : ExecState :=
  {| es_sessions := ∅; es_leases := ∅; es_events := ∅; es_executions := ∅; es_outbox := [];
     es_bus := []; es_bucket := bucket; es_next_id := 0; es_now := now |}.

Definition initial (bucket : AdmissionBucket) (now : instant) : System :=
  {| sys_db := empty_db bucket now; sys_workers := [] |}.

Lemma initial_ok bucket now : system_ok (initial bucket now).
Proof.
  split; [|constructor]. split; simpl; try done.
  - intros t sid k. rewrite lookup_empty. split; [by intros []|].
    intros (row & Hrow & _). by rewrite lookup_empty in Hrow.
  - intros o Ho. by apply elem_of_nil in Ho.
  - intros e He. by apply elem_of_nil in He.
Qed.

(** ** Exactly once *)

(** C1: Exactly-once execution.  From an empty platform, along every interleaving
    of submissions, dispatches, redeliveries, workers, lease traffic, clock
    movements and lost connections: a tenant's message id belongs to at most one
    execution; a succeeded execution has exactly one user message and one reply,
    adjacent in its own session, and no other event anywhere; an execution that
    has not succeeded has no event at all; the outbox holds exactly one request
    per execution and one completion per success. *)
Theorem exactly_once_commit uuid_at payload_digest application_exists release_classification
    bucket now c :
  (∀ n, 0 ≤ uuid_at n < 2 ^ 128) →
  rtc (pipeline_step uuid_at payload_digest application_exists release_classification)
    (initial bucket now) c →
  let s := sys_db c in
  (∀ t x1 r1 x2 r2, es_executions s !! (t, x1) = Some r1 → es_executions s !! (t, x2) = Some r2 →
     ex_message_id r1 = ex_message_id r2 → x1 = x2) ∧
  (∀ t x r, es_executions s !! (t, x) = Some r →
     if bool_decide (ex_status r = EX_SUCCEEDED)
     then committed_once (es_events s) t x (ex_session_id r)
     else not_committed (es_events s) t x) ∧
  count_type EXECUTION_REQUESTED_EVENT (es_outbox s) = size (es_executions s) ∧
  count_type EXECUTION_COMPLETED_EVENT (es_outbox s) = succeeded (es_executions s).
Proof.
  intros Hids Hsteps. eapply pipeline_reachable in Hsteps as [[[] _] _]; [|done|apply initial_ok].
  done.
Qed.

(** C7: Session histories have no gaps.  In every reachable state the sequence
    numbers of a session's events are exactly 1 to the session's version, and no
    events exist for a session that does not. *)
Theorem session_history_gap_free uuid_at payload_digest application_exists release_classification
    bucket now c :
  (∀ n, 0 ≤ uuid_at n < 2 ^ 128) →
  rtc (pipeline_step uuid_at payload_digest application_exists release_classification)
    (initial bucket now) c →
  ∀ t sid k, is_Some (es_events (sys_db c) !! ((t, sid), k)) ↔
    ∃ row, es_sessions (sys_db c) !! (t, sid) = Some row ∧ 1 ≤ k ≤ sn_version row.
Proof.
  intros Hids Hsteps. eapply pipeline_reachable in Hsteps as [[[] _] _]; [|done|apply initial_ok].
  done.
Qed.

(** What is committed stays.  Between any two states of a run, no event is
    changed or removed, a succeeded execution stays succeeded under the same
    message and session, and no session's fencing token goes down. *)
Theorem committed_history_is_final uuid_at payload_digest application_exists release_classification
    bucket now c1 c2 :
  (∀ n, 0 ≤ uuid_at n < 2 ^ 128) →
  rtc (pipeline_step uuid_at payload_digest application_exists release_classification)
    (initial bucket now) c1 →
  rtc (pipeline_step uuid_at payload_digest application_exists release_classification) c1 c2 →
  es_events (sys_db c1) ⊆ es_events (sys_db c2) ∧
  (∀ k r, es_executions (sys_db c1) !! k = Some r → ex_status r = EX_SUCCEEDED →
     ∃ r', es_executions (sys_db c2) !! k = Some r' ∧ ex_status r' = EX_SUCCEEDED ∧
       ex_message_id r' = ex_message_id r ∧ ex_session_id r' = ex_session_id r) ∧
  (∀ k l, es_leases (sys_db c1) !! k = Some l →
     ∃ l', es_leases (sys_db c2) !! k = Some l' ∧ le_fencing_token l ≤ le_fencing_token l').
Proof.
  intros Hids Hsteps Hsteps'.
  eapply pipeline_reachable in Hsteps as [Hok _]; [|done|apply initial_ok].
  eapply pipeline_reachable in Hsteps' as [_ []]; [|done|done].
  split; [done|]. split; [|done].
  intros k r Hr Hst. destruct (g_executions k r Hr) as (r' & ? & ? & ? & ?). exists r'. auto.
Qed.

(** ** Fencing *)

(** The caller is the holder of the unexpired lease with this token. *)
Definition holds_lease (s : ExecState) (t : uuid) (sid owner : string) (token : Z) : bool :=
  match es_leases s !! (t, sid) with
  | None => false
  | Some l => bool_decide (le_owner_id l = owner) && (le_fencing_token l =? token)
              && negb (le_expires_at l <=? es_now s)
  end.

(** Stale workers are fenced.  A worker whose lease is gone, expired, owned by
    another worker or of another epoch than its grant gets SESSION_LEASE_INVALID
    at commit, and the database is left as it was: no events, no version, no
    outbox rows, no status. *)
Theorem stale_worker_is_fenced uuid_at owner d m t x grant route result ids tp fault s x0 r0 :
  execution_with_message t m (es_executions s) = Some (x0, r0) → ex_status r0 ≠ EX_SUCCEEDED →
  holds_lease s t (rq_session_id d) owner (gr_fencing_token grant) = false →
  transaction fault ESql (commit_result uuid_at owner d m t x grant route result ids tp) s
    = (Raise (SessionLeaseError "SESSION_LEASE_INVALID"), s).
Proof.
  intros Hx Hst Hl. unfold transaction.
  assert ((commit_result uuid_at owner d m t x grant route result ids tp s).1
          = Raise (SessionLeaseError "SESSION_LEASE_INVALID")) as H.
  { unfold commit_result, commit_session_events, mbind, ST_mbind, gets. simpl.
    rewrite Hx, bool_decide_eq_false_2 by done. unfold holds_lease in Hl. simpl. by rewrite Hl. }
  destruct (commit_result _ _ _ _ _ _ _ _ _ _ _ s) as [[]]; simpl in H; [done|congruence].
Qed.

(** A lease has one holder.  While a lease is unexpired, an acquisition by any
    other owner is refused with the holder's name and changes nothing; the holder
    itself, or anyone once it has expired, gets the next token and the version the
    session has now. *)
Theorem lease_is_exclusive ttl t sid owner s l row :
  es_leases s !! (t, sid) = Some l → es_sessions s !! (t, sid) = Some row →
  length_between 1 MAX_OWNER_ID_LENGTH owner = true →
  acquire NoFault ttl t sid owner s =
    if (le_expires_at l <=? es_now s) || bool_decide (le_owner_id l = owner) then
      (Ok {| gr_fencing_token := le_fencing_token l + 1; gr_session_version := sn_version row |},
       set_leases (<[(t, sid) := {| le_owner_id := owner;
                                    le_fencing_token := le_fencing_token l + 1;
                                    le_expires_at := es_now s + ttl |}]>) s)
    else (Raise (SessionLeaseError ("SESSION_LEASE_HELD:" +:+ le_owner_id l)), s).
Proof.
  intros Hl Hrow Hown. unfold acquire, upsert_lease, lock_session_version, transaction, mbind,
    ST_mbind, gets, ensure, mret, ST_mret. rewrite Hown, Hl. simpl.
  destruct (_ || _); simpl; [by rewrite Hrow|by rewrite Hl].
Qed.

(** ** Renewal *)

Lemma renew_run ttl t sid owner token s l :
  es_leases s !! (t, sid) = Some l → le_owner_id l = owner → le_fencing_token l = token →
  es_now s < le_expires_at l →
  renew NoFault ttl t sid owner token s =
    (Ok tt, set_leases (<[(t, sid) := {| le_owner_id := owner; le_fencing_token := token;
                                         le_expires_at := es_now s + token * 1000000 |}]>) s).
Proof.
  intros Hl <- <- Hexp. unfold renew, transaction, mbind, ST_mbind, gets, mret, ST_mret.
  rewrite Hl, bool_decide_eq_true_2, Z.eqb_refl, (proj2 (Z.ltb_lt _ _)) by done. done.
Qed.

(** Renewal extends the lease by its token, not by its lifetime.  A successful
    renewal sets the expiry to as many seconds from now as the fencing token's
    value, whatever lifetime the manager was configured with: the first epoch of
    a session is renewed for one second, the thousandth for a quarter of an
    hour. *)
Theorem renew_extends_by_token ttl t sid owner token s l :
  es_leases s !! (t, sid) = Some l → le_owner_id l = owner → le_fencing_token l = token →
  es_now s < le_expires_at l →
  renew NoFault ttl t sid owner token s =
    (Ok tt, set_leases (<[(t, sid) := {| le_owner_id := owner; le_fencing_token := token;
                                         le_expires_at := es_now s + token * 1000000 |}]>) s).
Proof. apply renew_run. Qed.

(** ** Redelivery *)

(** Redelivery of a finished message is free.  Delivering again a message whose
    execution has succeeded or failed returns without taking a lease and leaves
    the database exactly as it was, whatever the other components would have
    answered. *)
Theorem redelivery_changes_nothing uuid_at ttl owner pool dv e d t x r s :
  ee_event_type e = EXECUTION_REQUESTED_EVENT → requested_validate (ee_data e) = Some d →
  parse_uuid (rq_tenant_id d) = Some t → dv_storage_pool dv = Ok (Some pool) →
  dv_status_fault dv = NoFault →
  execution_with_message t (ee_message_id e) (es_executions s) = Some (x, r) →
  ex_status r ≠ EX_PENDING →
  run_proc (handle uuid_at ttl owner pool dv e) s = (Ok tt, s).
Proof.
  intros Hty Hd Ht Hpool Hf Hx Hst. unfold handle. rewrite Hty, bool_decide_eq_true_2 by done.
  cbn [negb]. rewrite Hd. unfold pm_catch. rewrite run_proc_bind.
  assert (run_proc (handle_execution uuid_at ttl owner pool dv d (ee_message_id e)) s = (Ok tt, s))
    as ->; [|done].
  unfold handle_execution, uuid_of, external. rewrite Ht, Hpool. unfold pm_bind at 1 2. simpl.
  rewrite bool_decide_eq_true_2 by done. cbn [negb].
  rewrite run_atomically. unfold execution_status, transaction, gets. rewrite Hf, Hx. simpl.
  by destruct (ex_status r).
Qed.

(** ** A delivery that goes through *)
Definition message_fresh (s : ExecState) (t : uuid) (m : string) : Prop :=
  ∀ o, o ∈ es_outbox s → ob_tenant_id o = t → ob_message_id o ≠ m.

Lemma insert_outbox_ok uuid_at now t m src ty pk payload ca co cl (s : ExecState) :
  outbox_check {| ob_id := uuid_at (es_next_id s); ob_tenant_id := t; ob_message_id := m;
    ob_source := src; ob_event_type := ty; ob_partition_key := pk; ob_causation_id := ca;
    ob_correlation_id := co; ob_data_classification := cl; ob_payload := payload;
    ob_status := PENDING; ob_attempts := 0; ob_created_at := now |} = true →
  message_fresh s t m →
  ∃ o, (insert_outbox_record uuid_at now t m src ty pk payload ca co cl : ES unit) s
    = (Ok tt, set_outbox (es_outbox s ++ [o]) (es_bus s) (set_ids (S (es_next_id s)) s)) ∧
    ob_message_id o = m.
Proof.
  intros Hc Hf. unfold insert_outbox_record, draw_id, mbind, ST_mbind, gets, modify, mret, ST_mret.
  simpl. rewrite Hc.
  assert (existsb (λ o, bool_decide (ob_tenant_id o = t) && bool_decide (ob_message_id o = m))
            (es_outbox s) = false) as ->.
  { apply not_true_is_false. intros (o & Ho & Hb)%existsb_exists.
    apply andb_true_iff in Hb as [Ht%bool_decide_eq_true Hm%bool_decide_eq_true].
    apply (Hf o); [by apply list_elem_of_In|done..]. }
  simpl. by eexists.
Qed.

Lemma string_length_app s1 s2 :
  String.length (s1 +:+ s2) = (String.length s1 + String.length s2)%nat.
Proof. induction s1 as [|c s1 IH]; simpl; [done|]. by rewrite IH. Qed.

Lemma uuid_text_length z : String.length (uuid_text z) = 36%nat.
Proof. unfold uuid_text. rewrite !string_length_app, !hex_text_length. done. Qed.

Lemma length_between_uuid z : length_between 1 256 (uuid_text z) = true.
Proof. unfold length_between. rewrite uuid_text_length. done. Qed.

Lemma partition_key_length t sid :
  (String.length sid <= 512)%nat →
  length_between 1 600 (session_partition_key (uuid_text t) sid) = true.
Proof.
  intros H. unfold length_between, session_partition_key.
  rewrite !string_length_app, uuid_text_length. simpl String.length.
  apply andb_true_iff. split; apply Nat.leb_le; lia.
Qed.

(** The identifiers the commit draws are new to the tenant's outbox. *)
Definition ids_fresh (uuid_at : nat → uuid) (s : ExecState) (t : uuid) : Prop :=
  let m1 := uuid_text (uuid_at (es_next_id s)) in
  let m2 := uuid_text (uuid_at (S (S (es_next_id s)))) in
  message_fresh s t m1 ∧ message_fresh s t m2 ∧ m1 ≠ m2.

Definition classifications : list string := ["PUBLIC"; "INTERNAL"; "CONFIDENTIAL"; "RESTRICTED"].

(** Run the next operation of a sequence whose result computes. *)
Ltac next_step := erewrite bind_run; [|reflexivity]; cbn beta.

(** The sequence numbers past the version are free, so an event goes in. *)
Lemma insert_event_ok t sid x sq ev (s : ExecState) row :
  es_sessions s !! (t, sid) = Some row → es_events s !! ((t, sid), sq) = None → 1 ≤ sq →
  kind_check (se_kind ev) = true →
  insert_event t sid x sq ev s = (Ok tt, set_events (<[((t, sid), sq) :=
    {| ev_execution_id := x; ev_kind := se_kind ev; ev_payload := se_payload ev |}]>) s).
Proof.
  intros Hrow Hno H1 Hk. unfold insert_event, mbind, ST_mbind, gets.
  rewrite Hrow, Hno, Hk, (proj2 (Z.leb_le _ _)) by done. done.
Qed.

Lemma commit_events_ok uuid_at t sid owner token x m ev1 ev2 cl s x0 r row :
  Inv s → execution_with_message t m (es_executions s) = Some (x0, r) → ex_status r ≠ EX_SUCCEEDED →
  holds_lease s t sid owner token = true → es_sessions s !! (t, sid) = Some row →
  kind_check (se_kind ev1) = true → kind_check (se_kind ev2) = true →
  (String.length sid <= 512)%nat → length_between 1 256 m = true → cl ∈ classifications →
  message_fresh s t (uuid_text (uuid_at (es_next_id s))) →
  ∃ s1 o, commit_session_events uuid_at t sid owner token (sn_version row) x m [ev1; ev2] (Some cl) s
      = (Ok (Some (sn_version row + 2)), s1) ∧
    es_executions s1 = es_executions s ∧
    es_sessions s1 = alter (set_version (sn_version row + 2)) (t, sid) (es_sessions s) ∧
    ev_payload <$> es_events s1 !! ((t, sid), sn_version row + 2) = Some (se_payload ev2) ∧
    es_outbox s1 = es_outbox s ++ [o] ∧
    ob_message_id o = uuid_text (uuid_at (es_next_id s)) ∧ es_next_id s1 = S (S (es_next_id s)).
Proof.
  intros Hi Hx Hst Hl Hrow Hk1 Hk2 Hsid Hm Hcl Hf.
  assert (∀ k, sn_version row < k → es_events s !! ((t, sid), k) = None) as Hfree.
  { intros k Hk. apply eq_None_not_Some. intros (row' & Hrow' & ?)%(inv_sequence _ Hi).
    simplify_eq. lia. }
  pose proof (inv_version _ Hi _ _ Hrow) as Hv0. unfold commit_session_events.
  next_step. next_step. rewrite Hx, bool_decide_eq_false_2 by done.
  next_step. next_step.
  erewrite bind_run; [|unfold holds_lease in Hl; rewrite Hl; reflexivity].
  next_step. rewrite Hrow. next_step.
  erewrite bind_run; [|by rewrite Z.eqb_refl].
  erewrite bind_run.
  2: { cbn [insert_events]. erewrite bind_run by (eapply insert_event_ok; [done|apply Hfree|..]; [lia..|done]).
       erewrite bind_run; [reflexivity|]. eapply insert_event_ok; [done| |lia|done]. simpl.
       rewrite lookup_insert_ne by (intros [=]; lia). apply Hfree. lia. }
  next_step. next_step.
  edestruct (insert_outbox_ok uuid_at) as (o & Ho & Hom).
  3: { erewrite bind_run by exact Ho. eexists _, o. split; [reflexivity|]. simpl.
       split; [done|]. split; [done|]. replace (sn_version row + 1 + 1) with (sn_version row + 2) by lia.
       by rewrite lookup_insert_eq. }
  - unfold outbox_check. simpl. rewrite length_between_uuid, partition_key_length, Hm by done.
    simpl. by apply bool_decide_eq_true_2.
  - exact Hf.
Qed.

Lemma commit_result_ok uuid_at owner d m t x grant route result ids tp s x0 r row :
  let sid := rq_session_id d in
  Inv s → execution_with_message t m (es_executions s) = Some (x0, r) → ex_status r ≠ EX_SUCCEEDED →
  holds_lease s t sid owner (gr_fencing_token grant) = true →
  es_sessions s !! (t, sid) = Some row → sn_version row = gr_session_version grant →
  rq_tenant_id d = uuid_text t → rq_execution_id d = uuid_text x →
  (String.length sid <= 512)%nat → length_between 1 256 m = true →
  rr_data_classification route ∈ classifications → option_check (length_between 1 128) tp = true →
  ids_fresh uuid_at s t →
  ∃ s', commit_result uuid_at owner d m t x grant route result ids tp s = (Ok tt, s') ∧
    es_executions s' = alter (set_ex_status EX_SUCCEEDED) (t, x) (es_executions s) ∧
    sn_version <$> es_sessions s' !! (t, sid) = Some (sn_version row + 2) ∧
    ev_payload <$> es_events s' !! ((t, sid), sn_version row + 2)
      = Some (se_payload (agent_reply_event result ids)).
Proof.
  intros sid Hi Hx Hst Hl Hrow Hv Htt Hxt Hsid Hm Hcl Htp (Hf1 & Hf2 & Hne). unfold commit_result.
  edestruct (commit_events_ok uuid_at t sid owner (gr_fencing_token grant) x m
      (user_message_event d) (agent_reply_event result ids) (rr_data_classification route) s x0 r row)
    as (s1 & o & Hc & He1 & Hs1 & Hp1 & Ho1 & Hom & Hid1); [done..|].
  rewrite Hv in Hc. erewrite bind_run; [|exact Hc]. cbn beta iota. next_step.
  erewrite bind_run; [|unfold ensure; rewrite Htp; reflexivity]. next_step. next_step.
  edestruct (insert_outbox_ok uuid_at) as (o2 & Ho2 & _).
  3: { rewrite Ho2. eexists. split; [reflexivity|]. simpl. rewrite He1, Hs1, lookup_alter_eq, Hrow.
       rewrite Hp1. done. }
  - unfold outbox_check. simpl. rewrite Htt, Hxt, length_between_uuid, partition_key_length, Hm by done.
    simpl. by apply bool_decide_eq_true_2.
  - intros o' Ho' Hto'. simpl in Ho'. rewrite Ho1 in Ho'. simpl. rewrite Hid1.
    apply elem_of_app in Ho' as [Ho'| ->%list_elem_of_singleton]; [by apply Hf2|]. by rewrite Hom.
Qed.

(** The lease of the session is free for this owner. *)
Definition lease_free (s : ExecState) (t : uuid) (sid owner : string) : Prop :=
  match es_leases s !! (t, sid) with
  | None => True
  | Some l => (le_expires_at l ≤ es_now s ∨ le_owner_id l = owner) ∧ 1 ≤ le_fencing_token l
  end.

Lemma acquire_ok ttl t sid owner s row :
  es_sessions s !! (t, sid) = Some row → length_between 1 MAX_OWNER_ID_LENGTH owner = true →
  lease_free s t sid owner →
  ∃ token, 1 ≤ token ∧ acquire NoFault ttl t sid owner s =
    (Ok {| gr_fencing_token := token; gr_session_version := sn_version row |},
     set_leases (<[(t, sid) := {| le_owner_id := owner; le_fencing_token := token;
                                  le_expires_at := es_now s + ttl |}]>) s).
Proof.
  intros Hrow Hown Hl. unfold lease_free in Hl.
  destruct (es_leases s !! (t, sid)) as [l|] eqn:Hlease.
  - exists (le_fencing_token l + 1). split; [lia|].
    unfold acquire, upsert_lease, lock_session_version, transaction, mbind, ST_mbind, gets, ensure,
      mret, ST_mret. rewrite Hown, Hlease. simpl. destruct Hl as [Hl _].
    replace ((le_expires_at l <=? es_now s) || bool_decide (le_owner_id l = owner)) with true.
    + simpl. by rewrite Hrow.
    + symmetry. apply orb_true_iff.
      destruct Hl; [left; by apply Z.leb_le|right; by apply bool_decide_eq_true].
  - exists 1. split; [lia|].
    unfold acquire, upsert_lease, lock_session_version, transaction, mbind, ST_mbind, gets, ensure,
      mret, ST_mret. rewrite Hown, Hlease, Hrow. simpl. by rewrite Hrow.
Qed.

(** What the deliveries of the next theorem are given by the other components. *)
Record smooth (dv : Delivery) (pool : string) (route : ReleaseRoute) (result : GatewayResult) : Prop := {
  sm_storage : dv_storage_pool dv = Ok None ∨ dv_storage_pool dv = Ok (Some pool);
  sm_route : dv_route dv = Ok (Some route);
  sm_refs : rr_knowledge_refs route = [];
  sm_class : rr_data_classification route ∈ classifications;
  sm_completion : dv_completion dv = Ok result;
  sm_trace : option_check (length_between 1 128) (dv_trace_parent dv) = true;
  sm_faults : dv_status_fault dv = NoFault ∧ dv_acquire_fault dv = NoFault ∧
              dv_renew_fault dv = NoFault ∧ dv_commit_fault dv = NoFault;
}.

(** The transactions of a smooth delivery, one after the other. *)
Lemma handle_execution_run uuid_at ttl owner pool dv d m t x route result s token v s1 s2 s' :
  smooth dv pool route result → 0 ≤ t < 2 ^ 128 → rq_tenant_id d = uuid_text t →
  0 ≤ x < 2 ^ 128 → rq_execution_id d = uuid_text x →
  execution_status NoFault t m s = (Ok (Some EX_PENDING), s) →
  acquire NoFault ttl t (rq_session_id d) owner s
    = (Ok {| gr_fencing_token := token; gr_session_version := v |}, s1) →
  renew NoFault ttl t (rq_session_id d) owner token s1 = (Ok tt, s2) →
  commit_result uuid_at owner d m t x {| gr_fencing_token := token; gr_session_version := v |}
    route result [] (dv_trace_parent dv) s2 = (Ok tt, s') →
  run_proc (handle_execution uuid_at ttl owner pool dv d m) s = (Ok tt, s').
Proof.
  intros [] Ht Htt Hx Hxt Hstatus Hacq Hren Hc. destruct sm_faults0 as (Hf1 & Hf2 & Hf3 & Hf4).
  unfold handle_execution, uuid_of, external.
  rewrite Htt, Hxt, !parse_uuid_text by done. rewrite sm_route0, sm_completion0.
  replace (dv_storage_pool dv) with (Ok (match dv_storage_pool dv with Ok o => o | _ => None end)
      : outcome ExecError (option string)) by (destruct sm_storage0 as [-> | ->]; done).
  unfold pm_bind at 1 2. cbn [proc_bind pm_ret].
  replace (match match dv_storage_pool dv with Ok o => o | _ => None end with
           | Some p => negb (bool_decide (p = pool)) | None => false end) with false
    by (destruct sm_storage0 as [-> | ->]; [done|by rewrite bool_decide_eq_true_2]).
  rewrite run_atomically, Hf1, Hstatus. cbn beta iota.
  rewrite run_atomically, Hf2, Hacq. cbn beta iota.
  unfold pm_bind at 1. cbn [proc_bind]. rewrite sm_refs0. cbn [resolve_knowledge].
  unfold pm_bind at 1 2 3. cbn [proc_bind pm_ret].
  rewrite run_atomically, Hf3. cbn [gr_fencing_token]. rewrite Hren. cbn beta iota.
  unfold pm_bind. cbn [proc_bind pm_ret atomically run_proc]. unfold transaction. rewrite Hc, Hf4. done.
Qed.


(** ** The gateway's contract *)

(** Submissions are idempotent.  Submitting a message id that already has an
    execution creates nothing: with the same business payload the stored
    execution's id comes back marked as deduplicated, with a different payload the
    submission is refused as MESSAGE_PAYLOAD_CONFLICT, and in both cases the
    database is unchanged, even when the platform is saturated.  The release
    reported is the one the deployment resolves to now, which is not always the
    one the stored execution runs. *)
Theorem resubmission_is_idempotent uuid_at payload_digest application_exists
    release_classification policy rel sb m cl x r s :
  sb_message_id sb = Some m → m ≠ "" → release_classification (sb_tenant_id sb) rel = Some cl →
  execution_with_message (sb_tenant_id sb) m (es_executions s) = Some (x, r) →
  submit uuid_at payload_digest application_exists release_classification NoFault policy (Some rel)
    sb s =
  (if bool_decide (ex_payload_hash r = payload_hash payload_digest sb) then
     Ok {| ac_execution_id := x; ac_release_id := rel; ac_session_id := sb_session_id sb;
           ac_deduplicated := true |}
   else Raise (AgentGatewayError "MESSAGE_PAYLOAD_CONFLICT"), s).
Proof.
  intros Hm Hne Hcl Hx. destruct m as [|c m]; [done|].
  unfold submit, submit_body, deduplicated_submission, transaction, mbind, ST_mbind, gets, ensure,
    mret, ST_mret. rewrite Hm. simpl. rewrite Hcl. simpl. rewrite Hx. simpl.
  by case_bool_decide.
Qed.

Lemma pending_insert (m : gmap (uuid * uuid) Execution) k r :
  m !! k = None → ex_status r = EX_PENDING →
  size (filter (λ kx : (uuid * uuid) * Execution, ex_status kx.2 = EX_PENDING) (<[k := r]> m))
  = S (size (filter (λ kx : (uuid * uuid) * Execution, ex_status kx.2 = EX_PENDING) m)).
Proof.
  intros Hk Hr. rewrite map_filter_insert_True by done.
  rewrite map_size_insert_None; [done|]. apply map_lookup_filter_None. by left.
Qed.

(** The in-flight limit holds at every acceptance.  A submission that creates an
    execution found fewer pending executions on the whole platform than the limit,
    and leaves at most the limit; it adds exactly one pending execution and one
    pending outbox request for it, in the same transaction. *)
Theorem acceptance_respects_inflight_cap uuid_at payload_digest application_exists
    release_classification fault policy rel sb s a s' :
  submit uuid_at payload_digest application_exists release_classification fault policy (Some rel)
    sb s = (Ok a, s') →
  ac_deduplicated a = false →
  pending_executions s' = pending_executions s + 1 ∧
  pending_executions s' ≤ max_in_flight policy ∧
  es_executions s !! (sb_tenant_id sb, ac_execution_id a) = None ∧
  ∃ r o, es_executions s' = <[(sb_tenant_id sb, ac_execution_id a) := r]> (es_executions s) ∧
    ex_status r = EX_PENDING ∧ ex_release_id r = rel ∧
    es_outbox s' = es_outbox s ++ [o] ∧ ob_status o = PENDING ∧
    ob_payload o = requested_dump (requested_data sb (ac_execution_id a) rel).
Proof.
  unfold submit. intros H Hd. apply bind_Ok in H as (rel' & s0 & [[= ->] ->]%get_or_raise_Ok & H).
  apply bind_Ok in H as (m & s1 & Hm & [-> H]%transaction_Ok).
  assert (es_executions s1 = es_executions s ∧ es_outbox s1 = es_outbox s) as [He Ho].
  { destruct (sb_message_id sb) as [[|]|]; run_inv;
      repeat match goal with H : draw_id _ _ = _ |- _ => apply draw_id_run in H as [-> ->] end; done. }
  apply submit_body_run in H as [(Hd' & _)|[_ H]]; [congruence|]. cbv zeta in H.
  destruct H as (Hpend & _ & Hfree & _ & _ & sessions & r & o & b & n & _ & H).
  destruct H as (_ & _ & Hst & _ & Hrel & _ & _ & _ & Hp & Hos & ->).
  unfold pending_executions in *. rewrite He in *. simpl.
  rewrite pending_insert by done. split; [lia|]. split; [lia|]. split; [done|].
  exists r, o. by rewrite Ho.
Qed.

(** ** Deployment routing *)

(** Rollouts are stable per session.  A session's bucket is between 0 and 99, so
    a 100% rollout serves everyone the new release and a 0% rollout the previous
    one; raising the percentage never moves a session back from the new release
    to the previous one; and without a database the cached deployment gives the
    session the same release as before. *)
Theorem rollout_is_sticky sha256 rel prev p q sid :
  let at_pct p := {| dr_release_id := rel; dr_previous_release_id := Some prev;
                     dr_rollout_percentage := p |} in
  0 ≤ session_rollout_bucket sha256 sid < 100 ∧
  choose_release sha256 (at_pct 100) sid = rel ∧ choose_release sha256 (at_pct 0) sid = prev ∧
  (p ≤ q → choose_release sha256 (at_pct p) sid = rel → choose_release sha256 (at_pct q) sid = rel
     ∨ rel = prev) ∧
  (∀ t a env routes d sid',
     is_Some (parse_uuid t) → is_Some (parse_uuid a) →
     let routes' := (resolve_deployment sha256 (Some (Some d)) t a env sid' routes).2 in
     (resolve_deployment sha256 None t a env sid routes').1
       = (resolve_deployment sha256 (Some (Some d)) t a env sid routes).1).
Proof.
  intros at_pct. pose proof (Z.mod_pos_bound
    (from_bytes_big (take 8 (sha256 (String.list_byte_of_string sid)))) 100 ltac:(lia)) as Hb.
  fold (session_rollout_bucket sha256 sid) in Hb. split; [done|]. split; [done|].
  split; [unfold choose_release; simpl; by rewrite (proj2 (Z.leb_le _ _)) by lia|].
  split.
  - intros Hpq. unfold choose_release. simpl.
    destruct (_ && _) eqn:H1, ((q <? 100) && _) eqn:H2; auto.
    rewrite andb_true_iff in H2. rewrite andb_false_iff in H1. lia.
  - intros t a env routes d sid' [t' Ht] [a' Ha]. unfold resolve_deployment. rewrite Ht, Ha. simpl.
    by rewrite lookup_insert_eq.
Qed.

(** ** Concrete instances *)
Definition sample_ids (n : nat) : uuid := Z.of_nat n mod 2 ^ 128.
Lemma sample_ids_range n : 0 ≤ sample_ids n < 2 ^ 128.
Proof. apply Z.mod_pos_bound. lia. Qed.

Definition sample_submission : AgentExecutionSubmission :=
  {| sb_tenant_id := 7; sb_application_id := 8; sb_environment := "PRODUCTION";
     sb_session_id := "s1"; sb_subject_id := None; sb_memory_policy_version := "policy:none";
     sb_messages := [{["content" := "hello"]}]; sb_message_id := Some "m1";
     sb_channel_context := None; sb_trace_parent := None |}.

Definition sample_submit := submit sample_ids (λ _, "h") (λ _ _, true) (λ _ _, Some "INTERNAL").
Definition sample_step :=
  pipeline_step sample_ids (λ _, "h") (λ _ _, true) (λ _ _, Some "INTERNAL").
Definition full_bucket : AdmissionBucket := {| bk_tokens := 180000000000; bk_last_refill := 0 |}.

(** The platform after one accepted submission, and after its dispatch. *)
Definition submitted_db : ExecState :=
  (sample_submit NoFault default_policy (Some 9) sample_submission (empty_db full_bucket 0)).2.
Definition dispatched_db : ExecState := dispatch NoFault (λ _, false) 100 (λ _, true) submitted_db.

Lemma submitted_reachable :
  rtc sample_step (initial full_bucket 0) {| sys_db := submitted_db; sys_workers := [] |}.
Proof. apply rtc_once. apply pipe_submit. vm_compute. done. Qed.

Lemma dispatched_reachable :
  rtc sample_step (initial full_bucket 0) {| sys_db := dispatched_db; sys_workers := [] |}.
Proof. eapply rtc_r; [apply submitted_reachable|]. apply pipe_dispatch. Qed.

Lemma exactly_once_commit_witness :
  count_type EXECUTION_REQUESTED_EVENT (es_outbox dispatched_db) = 1%nat ∧
  count_type EXECUTION_COMPLETED_EVENT (es_outbox dispatched_db) = 0%nat.
Proof.
  destruct (exactly_once_commit sample_ids (λ _, "h") (λ _ _, true) (λ _ _, Some "INTERNAL")
    full_bucket 0 {| sys_db := dispatched_db; sys_workers := [] |} sample_ids_range
    dispatched_reachable) as (_ & _ & Hr & Hc).
  split; [etransitivity; [exact Hr|vm_compute; reflexivity]
         |etransitivity; [exact Hc|vm_compute; reflexivity]].
Defined.

Lemma session_history_gap_free_witness :
  is_Some (es_events dispatched_db !! ((7, "s1"), 1)) ↔
    ∃ row, es_sessions dispatched_db !! (7, "s1") = Some row ∧ 1 ≤ 1 ≤ sn_version row.
Proof.
  apply (session_history_gap_free sample_ids (λ _, "h") (λ _ _, true) (λ _ _, Some "INTERNAL")
    full_bucket 0 {| sys_db := dispatched_db; sys_workers := [] |} sample_ids_range
    dispatched_reachable 7 "s1" 1).
Defined.

Lemma committed_history_is_final_witness : es_events submitted_db ⊆ es_events dispatched_db.
Proof.
  apply (committed_history_is_final sample_ids (λ _, "h") (λ _ _, true) (λ _ _, Some "INTERNAL")
    full_bucket 0 {| sys_db := submitted_db; sys_workers := [] |}
    {| sys_db := dispatched_db; sys_workers := [] |} sample_ids_range submitted_reachable).
  apply rtc_once, pipe_dispatch.
Defined.

Definition sample_request : ExecutionRequestedData := requested_data sample_submission 0 9.
Definition sample_delivery : Delivery :=
  {| dv_storage_pool := Ok None;
     dv_route := Ok (Some {| rr_data_classification := "INTERNAL"; rr_knowledge_refs := [] |});
     dv_knowledge := λ _, Ok None;
     dv_completion := Ok {| gw_model_alias := "m"; gw_fallback_used := false; gw_completion := ∅ |};
     dv_trace_parent := None; dv_status_fault := NoFault; dv_acquire_fault := NoFault;
     dv_knowledge_fault := NoFault; dv_renew_fault := NoFault; dv_commit_fault := NoFault;
     dv_failed_fault := NoFault |}.
Definition sample_execution : Execution :=
  {| ex_application_id := 8; ex_release_id := 9; ex_environment := "PRODUCTION";
     ex_session_id := "s1"; ex_message_id := "m1"; ex_payload_hash := "h";
     ex_status := EX_PENDING; ex_knowledge_revision_ids := [] |}.

Lemma stale_worker_is_fenced_witness :
  transaction NoFault ESql
    (commit_result sample_ids "w1" sample_request "m1" 7 0
       {| gr_fencing_token := 1; gr_session_version := 0 |}
       {| rr_data_classification := "INTERNAL"; rr_knowledge_refs := [] |}
       {| gw_model_alias := "m"; gw_fallback_used := false; gw_completion := ∅ |} [] None) submitted_db
  = (Raise (SessionLeaseError "SESSION_LEASE_INVALID"), submitted_db).
Proof.
  apply (stale_worker_is_fenced sample_ids "w1" sample_request "m1" 7 0
    {| gr_fencing_token := 1; gr_session_version := 0 |} _ _ [] None NoFault submitted_db 0
    sample_execution); [vm_compute; reflexivity|discriminate|vm_compute; reflexivity].
Defined.

(** A session whose lease was taken by worker [w1] at time 0 for 30 seconds. *)
Definition leased_db : ExecState := (acquire NoFault DEFAULT_LEASE_TTL 7 "s1" "w1" submitted_db).2.
Definition sample_lease : Lease :=
  {| le_owner_id := "w1"; le_fencing_token := 1; le_expires_at := DEFAULT_LEASE_TTL |}.

Lemma lease_is_exclusive_witness :
  acquire NoFault DEFAULT_LEASE_TTL 7 "s1" "w2" leased_db
  = (Raise (SessionLeaseError "SESSION_LEASE_HELD:w1"), leased_db).
Proof.
  pose proof (lease_is_exclusive DEFAULT_LEASE_TTL 7 "s1" "w2" leased_db sample_lease
    {| sn_application_id := 8; sn_version := 0 |}) as H.
  rewrite H; [reflexivity|vm_compute; reflexivity|vm_compute; reflexivity|reflexivity].
Defined.

Lemma renew_extends_by_token_witness :
  le_expires_at <$> es_leases (renew NoFault DEFAULT_LEASE_TTL 7 "s1" "w1" 1 leased_db).2 !! (7, "s1")
  = Some 1000000.
Proof.
  rewrite (renew_extends_by_token DEFAULT_LEASE_TTL 7 "s1" "w1" 1 leased_db sample_lease);
    [vm_compute; reflexivity|vm_compute; reflexivity|reflexivity|reflexivity|vm_compute; reflexivity].
Defined.

Definition sample_request_envelope : ExecutionEnvelope :=
  {| ee_message_id := "m1"; ee_source := GATEWAY_SOURCE; ee_event_type := EXECUTION_REQUESTED_EVENT;
     ee_partition_key := "k"; ee_time := ""; ee_tenant_id := ""; ee_data_schema := "";
     ee_data := requested_dump sample_request; ee_causation_id := None; ee_correlation_id := None;
     ee_data_classification := None; ee_trace_parent := None |}.

Lemma sample_request_valid :
  requested_validate (ee_data sample_request_envelope) = Some sample_request.
Proof. apply requested_roundtrip. reflexivity. Qed.


(** The same platform once that delivery has been handled. *)
Definition finished_db : ExecState :=
  set_executions (<[(7, 0) := set_ex_status EX_SUCCEEDED sample_execution]>) submitted_db.
Lemma redelivery_changes_nothing_witness :
  run_proc (handle sample_ids DEFAULT_LEASE_TTL "w2" "pool"
    {| dv_storage_pool := Ok (Some "pool"); dv_route := Ok None; dv_knowledge := λ _, Ok None;
       dv_completion := Raise ESql; dv_trace_parent := None; dv_status_fault := NoFault;
       dv_acquire_fault := NoFault; dv_knowledge_fault := NoFault; dv_renew_fault := NoFault;
       dv_commit_fault := NoFault; dv_failed_fault := NoFault |} sample_request_envelope) finished_db
  = (Ok tt, finished_db).
Proof.
  apply (redelivery_changes_nothing sample_ids DEFAULT_LEASE_TTL "w2" "pool" _
    sample_request_envelope sample_request 7 0 (set_ex_status EX_SUCCEEDED sample_execution));
    [reflexivity|apply sample_request_valid|vm_compute; reflexivity|reflexivity|reflexivity
    |vm_compute; reflexivity|discriminate].
Defined.

Lemma resubmission_is_idempotent_witness :
  sample_submit NoFault default_policy (Some 10) sample_submission submitted_db
  = (Ok {| ac_execution_id := 0; ac_release_id := 10; ac_session_id := "s1";
           ac_deduplicated := true |}, submitted_db).
Proof.
  unfold sample_submit.
  rewrite (resubmission_is_idempotent sample_ids (λ _, "h") (λ _ _, true) (λ _ _, Some "INTERNAL")
    default_policy 10 sample_submission "m1" "INTERNAL" 0 sample_execution submitted_db);
    [reflexivity|reflexivity|discriminate|reflexivity|vm_compute; reflexivity].
Defined.

Lemma acceptance_respects_inflight_cap_witness :
  pending_executions submitted_db = pending_executions (empty_db full_bucket 0) + 1.
Proof.
  apply (acceptance_respects_inflight_cap sample_ids (λ _, "h") (λ _ _, true)
    (λ _ _, Some "INTERNAL") NoFault default_policy 9 sample_submission (empty_db full_bucket 0)
    {| ac_execution_id := 0; ac_release_id := 9; ac_session_id := "s1"; ac_deduplicated := false |});
    [vm_compute; reflexivity|reflexivity].
Defined.
