(* ===== verification/AuditChain.v ===== *)
(** * The audit hash chain (trpc_service/audit_chain/ and admin_api/audit.py)

    Appending events to a tenant's chain, the audit outbox and its dispatcher,
    verification of the chain, and signed manifests archived to write-once
    storage.  SHA-256, HMAC and the JSON printer are parameters. *)

From Stdlib Require Import Ascii.
From S2P Require Import Prelude PyNum Uuids ExecutionBus.
Open Scope string_scope.
Open Scope list_scope.
Open Scope Z_scope.

(** ** Timestamps *)

(** The product of a float, given as mantissa and exponent, with an integer,
    rounded to binary64; and [int] of a non-negative float. *)
Definition float_mul_int (x : Z * Z) (k : Z) : Z * Z :=
  let '(m, e) := x in let '(m', e') := py_truediv (m * k) 1 in (m', e' + e).
Definition float_trunc (x : Z * Z) : Z :=
  let '(m, e) := x in if e <? 0 then m / 2 ^ (- e) else m * 2 ^ e.

(** [occurred_epoch_micros]: [int(occurred_at.timestamp() * 1_000_000)]. *)
Definition occurred_epoch_micros (occurred_at : instant) : Z :=
  float_trunc (float_mul_int (py_truediv occurred_at 1000000) 1000000).

(** ** Rows *)
Record ChainColumns := {
  cc_chain_index : Z;
  cc_event_hash : string;
  cc_prev_event_hash : string;
}.

Record AuditEvent := {
  ae_id : uuid;
  ae_tenant_id : option uuid;
  ae_occurred_at : instant;
  ae_actor : string;
  ae_auth_method : string;
  ae_action : string;
  ae_decision : string;
  ae_target_type : option string;
  ae_target_id : option string;
  ae_details : jobject;
  ae_trace_id : option string;
  ae_chain : option ChainColumns;
}.

Inductive intent_status := INTENT_PENDING | INTENT_DISPATCHED.
#[export] Instance intent_status_eq_dec : EqDecision intent_status.
Proof. solve_decision. Defined.

Record AuditIntent := {
  ai_id : uuid;
  ai_tenant_id : uuid;
  ai_actor : string;
  ai_auth_method : string;
  ai_action : string;
  ai_decision : string;
  ai_target_type : option string;
  ai_target_id : option string;
  ai_details : jobject;
  ai_trace_id : option string;
  ai_occurred_at : instant;
  ai_status : intent_status;
}.

Record AuditManifest := {
  am_tenant_id : uuid;
  am_manifest_index : Z;
  am_first_chain_index : Z;
  am_last_chain_index : Z;
  am_event_count : Z;
  am_chain_head_hash : string;
  am_signature : string;
  am_worm_location : string;
  am_created_at : instant;
}.

Record AuditState := {
  au_events : list AuditEvent;
  au_chain : gmap uuid (Z * string);        (** last_index, last_hash *)
  au_outbox : list AuditIntent;
  au_manifests : list AuditManifest;
  au_worm : list (string * json);           (** archived objects, oldest first *)
  au_next_id : nat;
}.

Inductive AuditError := ASql | AWorm | AAssert.
Abbreviation AUD := (ST AuditState AuditError).

Definition set_au_events (l : list AuditEvent) (s : AuditState) : AuditState :=
  {| au_events := l; au_chain := au_chain s; au_outbox := au_outbox s;
     au_manifests := au_manifests s; au_worm := au_worm s; au_next_id := au_next_id s |}.
Definition set_au_chain (m : gmap uuid (Z * string)) (s : AuditState) : AuditState :=
  {| au_events := au_events s; au_chain := m; au_outbox := au_outbox s;
     au_manifests := au_manifests s; au_worm := au_worm s; au_next_id := au_next_id s |}.
Definition set_au_outbox (l : list AuditIntent) (s : AuditState) : AuditState :=
  {| au_events := au_events s; au_chain := au_chain s; au_outbox := l;
     au_manifests := au_manifests s; au_worm := au_worm s; au_next_id := au_next_id s |}.
Definition set_au_manifests (l : list AuditManifest) (s : AuditState) : AuditState :=
  {| au_events := au_events s; au_chain := au_chain s; au_outbox := au_outbox s;
     au_manifests := l; au_worm := au_worm s; au_next_id := au_next_id s |}.
Definition set_au_worm (l : list (string * json)) (s : AuditState) : AuditState :=
  {| au_events := au_events s; au_chain := au_chain s; au_outbox := au_outbox s;
     au_manifests := au_manifests s; au_worm := l; au_next_id := au_next_id s |}.
Definition set_au_next_id (n : nat) (s : AuditState) : AuditState :=
  {| au_events := au_events s; au_chain := au_chain s; au_outbox := au_outbox s;
     au_manifests := au_manifests s; au_worm := au_worm s; au_next_id := n |}.
#[export] Instance audit_ids : HasIds AuditState :=
  {| next_id := au_next_id; set_next_id := set_au_next_id |}.

(** ** Hashing *)
Fixpoint repeat_char (n : nat) (c : Ascii.ascii) : string :=
  match n with O => "" | S n' => String c (repeat_char n' c) end.
Definition GENESIS_HASH : string := repeat_char 64 "0"%char.

Section Chain.
  (** [sha256_hex text] is [hashlib.sha256(text.encode()).hexdigest()], [dumps] the
      key-ordered JSON printer, [hmac_hex key text] the HMAC-SHA256 hex digest. *)
  Context (sha256_hex : string → string) (dumps : json → string).
  Context (hmac_hex : string → string → string).
  Context (uuid_at : nat → uuid) (tenant_exists : uuid → bool).

Definition json_of_text (o : option string) : json :=
  match o with Some s => JStr s | None => JNull end.

(** [fingerprint] *)
Definition fingerprint (event_id : uuid) (occurred_at : Z)
    (actor auth_method action decision : string) (target_type target_id : option string)
    (details : jobject) : json :=
  JObj (<["id" := JStr (uuid_text event_id)]>
       (<["occurred_at" := JNum occurred_at]>
       (<["actor" := JStr actor]>
       (<["auth_method" := JStr auth_method]>
       (<["action" := JStr action]>
       (<["decision" := JStr decision]>
       (<["target_type" := json_of_text target_type]>
       (<["target_id" := json_of_text target_id]>
       {["details" := JObj details]})))))))).

Definition event_hash (event : json) : string := sha256_hex (dumps event).

Definition chain_hash (previous_hash current_event_hash : string) : string :=
  sha256_hex (previous_hash +:+ ":" +:+ current_event_hash).

(** ** Appending *)

(** [append_to_chain]: the chain slot and the hashes for the event row. *)
Definition append_to_chain (tenant_id : uuid) (event : json) : AUD ChainColumns :=
  existing ← gets (λ s, au_chain s !! tenant_id);
  _ ← match existing with
      | Some _ => mret tt
      | None =>
          _ ← ensure (tenant_exists tenant_id) ASql;
          modify (λ s, set_au_chain (<[tenant_id := (0, GENESIS_HASH)]> (au_chain s)) s)
      end;
  state ← gets (λ s, au_chain s !! tenant_id);
  state ← get_or_raise state AAssert;
  let current := event_hash event in
  let new_index := state.1 + 1 in
  let new_chain_head := chain_hash state.2 current in
  _ ← modify (λ s, set_au_chain (<[tenant_id := (new_index, new_chain_head)]> (au_chain s)) s);
  mret {| cc_chain_index := new_index; cc_event_hash := current;
          cc_prev_event_hash := state.2 |}.

(** The constraints of [platform.audit_event] a caller can violate: the checks on
    the method and the decision, the primary key, and one row per chain slot. *)
Definition audit_check (r : AuditEvent) : bool :=
  bool_decide (ae_auth_method r ∈ ["oidc"; "emergency"; "anonymous"])
  && bool_decide (ae_decision r ∈ ["ALLOW"; "DENY"]).
Definition same_slot (r o : AuditEvent) : bool :=
  bool_decide (ae_id o = ae_id r)
  || match ae_chain r, ae_chain o with
     | Some c, Some c' => bool_decide (ae_tenant_id o = ae_tenant_id r)
                          && (cc_chain_index c' =? cc_chain_index c)
     | _, _ => false
     end.

Definition insert_event_row (r : AuditEvent) : AUD unit :=
  clash ← gets (λ s, existsb (same_slot r) (au_events s));
  _ ← ensure (audit_check r && negb clash) ASql;
  modify (λ s, set_au_events (au_events s ++ [r]) s).

(** A caller of the admin API, when there is one. *)
Record Principal := { pr_subject : string; pr_auth_method : string }.

(** [insert_audit], in the caller's transaction. *)
Definition insert_audit (now : instant) (principal : option Principal) (action decision : string)
    (target_type target_id : option string) (tenant_id : option uuid) (details : jobject)
    (trace_id : option string) : AUD unit :=
  event_id ← draw_id uuid_at;
  let actor := default "anonymous" (pr_subject <$> principal) in
  let auth_method := default "anonymous" (pr_auth_method <$> principal) in
  chain ← match tenant_id with
          | None => mret None
          | Some t =>
              c ← append_to_chain t (fingerprint event_id (occurred_epoch_micros now) actor
                     auth_method action decision target_type target_id details);
              mret (Some c)
          end;
  insert_event_row
    {| ae_id := event_id; ae_tenant_id := tenant_id; ae_occurred_at := now; ae_actor := actor;
       ae_auth_method := auth_method; ae_action := action; ae_decision := decision;
       ae_target_type := target_type; ae_target_id := target_id; ae_details := details;
       ae_trace_id := trace_id; ae_chain := chain |}.

(** [write_audit] *)
Definition write_audit (fault : txn_fault) (now : instant) (principal : option Principal)
    (action decision : string) (target_type target_id : option string) (tenant_id : option uuid)
    (details : jobject) (trace_id : option string) : AUD unit :=
  transaction fault ASql
    (insert_audit now principal action decision target_type target_id tenant_id details trace_id).

(** ** The audit outbox *)

(** [enqueue_audit], in the caller's transaction; [outbox_id] is the random
    [uuid4] it draws. *)
Definition enqueue_audit (now : instant) (outbox_id tenant_id : uuid)
    (actor auth_method action decision : string) (target_type target_id : option string)
    (details : jobject) (trace_id : option string) : AUD uuid :=
  taken ← gets (λ s, existsb (λ i, bool_decide (ai_id i = outbox_id)) (au_outbox s));
  _ ← ensure (negb taken && tenant_exists tenant_id
              && bool_decide (auth_method ∈ ["oidc"; "emergency"; "anonymous"])
              && bool_decide (decision ∈ ["ALLOW"; "DENY"])) ASql;
  _ ← modify (λ s, set_au_outbox (au_outbox s ++
        [{| ai_id := outbox_id; ai_tenant_id := tenant_id; ai_actor := actor;
            ai_auth_method := auth_method; ai_action := action; ai_decision := decision;
            ai_target_type := target_type; ai_target_id := target_id; ai_details := details;
            ai_trace_id := trace_id; ai_occurred_at := now; ai_status := INTENT_PENDING |}]) s);
  mret outbox_id.

Definition set_dispatched (id : uuid) (i : AuditIntent) : AuditIntent :=
  if bool_decide (ai_id i = id) then
    {| ai_id := ai_id i; ai_tenant_id := ai_tenant_id i; ai_actor := ai_actor i;
       ai_auth_method := ai_auth_method i; ai_action := ai_action i; ai_decision := ai_decision i;
       ai_target_type := ai_target_type i; ai_target_id := ai_target_id i;
       ai_details := ai_details i; ai_trace_id := ai_trace_id i;
       ai_occurred_at := ai_occurred_at i; ai_status := INTENT_DISPATCHED |}
  else i.

(** The body of the dispatcher's loop. *)
Definition materialize (tenant_id : uuid) (row : AuditIntent) : AUD unit :=
  event_id ← draw_id uuid_at;
  c ← append_to_chain tenant_id
        (fingerprint event_id (occurred_epoch_micros (ai_occurred_at row)) (ai_actor row)
           (ai_auth_method row) (ai_action row) (ai_decision row) (ai_target_type row)
           (ai_target_id row) (ai_details row));
  _ ← insert_event_row
        {| ae_id := event_id; ae_tenant_id := Some tenant_id; ae_occurred_at := ai_occurred_at row;
           ae_actor := ai_actor row; ae_auth_method := ai_auth_method row;
           ae_action := ai_action row; ae_decision := ai_decision row;
           ae_target_type := ai_target_type row; ae_target_id := ai_target_id row;
           ae_details := ai_details row; ae_trace_id := ai_trace_id row; ae_chain := Some c |};
  modify (λ s, set_au_outbox (set_dispatched (ai_id row) <$> au_outbox s) s).

Definition pending_intents (tenant_id : uuid) (batch_size : nat) (s : AuditState) : list AuditIntent :=
  take batch_size (sort_on ai_id
    (filter (λ i, ai_tenant_id i = tenant_id ∧ ai_status i = INTENT_PENDING) (au_outbox s))).

(** [AuditOutboxDispatcher.dispatch_pending] *)
Definition dispatch_intents (fault : txn_fault) (tenant_id : uuid) (batch_size : nat) : AUD Z :=
  transaction fault ASql
    (rows ← gets (pending_intents tenant_id batch_size);
     _ ← for_each (materialize tenant_id) rows;
     mret (Z.of_nat (length rows))).

(** ** Verification *)
Inductive ChainReport :=
  | ChainValid (events : Z) (chain_head : string)
  | ChainBroken (at_index : Z) (expected_prev stored_prev : string).

Definition stored_fingerprint (r : AuditEvent) : json :=
  fingerprint (ae_id r) (occurred_epoch_micros (ae_occurred_at r)) (ae_actor r) (ae_auth_method r)
    (ae_action r) (ae_decision r) (ae_target_type r) (ae_target_id r) (ae_details r).

(** The rows of a tenant that are on its chain, by chain index. *)
Definition chain_rows (tenant_id : uuid) (events : list AuditEvent) : list (AuditEvent * ChainColumns) :=
  sort_on (cc_chain_index ∘ snd)
    (omap (λ r, match ae_chain r with
                | Some c => if bool_decide (ae_tenant_id r = Some tenant_id) then Some (r, c) else None
                | None => None
                end) events).

Fixpoint verify_rows (previous : string) (count : Z) (rows : list (AuditEvent * ChainColumns))
    : ChainReport :=
  match rows with
  | [] => ChainValid count previous
  | (r, c) :: rows' =>
      let recomputed := event_hash (stored_fingerprint r) in
      if negb (bool_decide (recomputed = cc_event_hash c))
         || negb (bool_decide (previous = cc_prev_event_hash c))
      then ChainBroken (cc_chain_index c) previous (cc_prev_event_hash c)
      else verify_rows (chain_hash previous recomputed) (count + 1) rows'
  end.

(** [verify_tenant_chain] *)
Definition verify_tenant_chain (tenant_id : uuid) (s : AuditState) : ChainReport :=
  verify_rows GENESIS_HASH 0 (chain_rows tenant_id (au_events s)).

(** ** Manifests *)
Definition manifest_document (tenant_id : uuid) (index first last count : Z) (head : string)
    (created_at : instant) : jobject :=
  <["tenant_id" := JStr (uuid_text tenant_id)]>
  (<["manifest_index" := JNum index]>
  (<["first_chain_index" := JNum first]>
  (<["last_chain_index" := JNum last]>
  (<["event_count" := JNum count]>
  (<["chain_head" := JStr head]>
  {["created_at" := JStr (isoformat created_at)]}))))).

Definition sign_manifest (document : jobject) (signing_key : string) : string :=
  hmac_hex signing_key (dumps (JObj document)).

Definition verify_manifest_signature (document : jobject) (signature signing_key : string) : bool :=
  bool_decide (sign_manifest document signing_key = signature).

Definition max_of (l : list Z) : Z := foldr Z.max 0 l.

Definition tenant_manifests (tenant_id : uuid) (s : AuditState) : list AuditManifest :=
  filter (λ m, am_tenant_id m = tenant_id) (au_manifests s).

Definition segment_head (rows : list (AuditEvent * ChainColumns)) (start : string) : string :=
  foldl (λ h row, chain_hash h (cc_event_hash row.2)) start rows.

(** The not yet archived rows of the tenant. *)
Definition unarchived (tenant_id : uuid) (s : AuditState) : list (AuditEvent * ChainColumns) :=
  filter (λ rc, max_of (am_last_chain_index <$> tenant_manifests tenant_id s)
                < cc_chain_index rc.2) (chain_rows tenant_id (au_events s)).

(** The body of [build_and_archive]; [worm_put] says whether the archive accepts
    the object.  The archive is outside the database. *)
Definition build_manifest (worm_put : bool) (signing_key bucket : string) (created_at : instant)
    (tenant_id : uuid) : AUD (option AuditManifest) :=
  rows ← gets (unarchived tenant_id);
  match rows, last rows with
  | first :: _, Some final =>
      let head := segment_head rows (cc_prev_event_hash first.2) in
      index ← gets (λ s, max_of (am_manifest_index <$> tenant_manifests tenant_id s) + 1);
      let document := manifest_document tenant_id index (cc_chain_index first.2)
                        (cc_chain_index final.2) (Z.of_nat (length rows)) head created_at in
      let signature := sign_manifest document signing_key in
      let key := uuid_text tenant_id +:+ "/manifest-" +:+ zpad 12 index +:+ ".json" in
      _ ← (if worm_put then
             modify (λ s, set_au_worm (au_worm s ++
               [(bucket +:+ "/" +:+ key, JObj (<["signature" := JStr signature]> document))]) s)
           else raise AWorm);
      let m := {| am_tenant_id := tenant_id; am_manifest_index := index;
                  am_first_chain_index := cc_chain_index first.2;
                  am_last_chain_index := cc_chain_index final.2;
                  am_event_count := Z.of_nat (length rows); am_chain_head_hash := head;
                  am_signature := signature;
                  am_worm_location := "s3://" +:+ bucket +:+ "/" +:+ key;
                  am_created_at := created_at |} in
      _ ← modify (λ s, set_au_manifests (au_manifests s ++ [m]) s);
      mret (Some m)
  | _, _ => mret None
  end.

(** A rolled back manifest row leaves its archived object behind. *)
Definition build_and_archive (fault : txn_fault) (worm_put : bool) (signing_key bucket : string)
    (created_at : instant) (tenant_id : uuid) : AUD (option AuditManifest) := λ s,
  let '(r, s') := build_manifest worm_put signing_key bucket created_at tenant_id s in
  match r, fault with
  | Ok m, NoFault => (Ok m, s')
  | Ok _, LostBeforeCommit => (Raise ASql, set_au_worm (au_worm s') s)
  | Ok _, LostAfterCommit => (Raise ASql, s')
  | Raise e, _ => (Raise e, set_au_worm (au_worm s') s)
  end.

Definition stored_document (m : AuditManifest) : jobject :=
  manifest_document (am_tenant_id m) (am_manifest_index m) (am_first_chain_index m)
    (am_last_chain_index m) (am_event_count m) (am_chain_head_hash m) (am_created_at m).

Record EvidenceReport := {
  er_chain : ChainReport;
  er_manifests : Z;
  er_signatures_valid : bool;
  er_tamper_detected : bool;
}.

(** [verify_tenant_evidence] *)
Definition verify_tenant_evidence (signing_key : string) (tenant_id : uuid) (s : AuditState)
    : EvidenceReport :=
  let chain := verify_tenant_chain tenant_id s in
  let manifests := sort_on am_manifest_index (tenant_manifests tenant_id s) in
  let valid := forallb (λ m, verify_manifest_signature (stored_document m) (am_signature m) signing_key)
                 manifests in
  {| er_chain := chain; er_manifests := Z.of_nat (length manifests); er_signatures_valid := valid;
     er_tamper_detected :=
       negb (match chain with ChainValid _ _ => true | ChainBroken _ _ _ => false end) || negb valid |}.
End Chain.
