(* ===== verification/AuditTheorems.v ===== *)
(** * Contracts of the audit chain

    Appends keep every tenant's chain verifiable, a rewritten history that still
    verifies to the same head exposes a hash collision, manifests seal exactly
    what was not sealed before, and what verification does not see: a history
    cut at its end. *)

From Stdlib Require Import Ascii.
From S2P Require Import Prelude PyNum Uuids ExecutionBus SampleCodec AuditChain.
Open Scope string_scope.
Open Scope list_scope.
Open Scope Z_scope.

#[local] Opaque occurred_epoch_micros uuid_text GENESIS_HASH.

Section Facts.
  Context (sha256_hex : string → string) (dumps : json → string).
  Context (hmac_hex : string → string → string).
  Context (uuid_at : nat → uuid) (tenant_exists : uuid → bool).
Abbreviation event_hash := (event_hash sha256_hex dumps).
Abbreviation chain_hash := (chain_hash sha256_hex).
Abbreviation verify_rows := (verify_rows sha256_hex dumps).

(** The tenant's rows in the order they were inserted. *)
Definition tenant_rows (t : uuid) (events : list AuditEvent) : list (AuditEvent * ChainColumns) :=
  omap (λ r, match ae_chain r with
             | Some c => if bool_decide (ae_tenant_id r = Some t) then Some (r, c) else None
             | None => None
             end) events.

(** Row [i] sits in chain slot [i + 1]. *)
Definition slots_in_order (rows : list (AuditEvent * ChainColumns)) : Prop :=
  ∀ i rc, rows !! i = Some rc → cc_chain_index rc.2 = Z.of_nat i + 1.

Lemma chain_rows_sorted t events :
  slots_in_order (tenant_rows t events) → chain_rows t events = tenant_rows t events.
Proof.
  intros Hs. apply sort_on_sorted. intros i j x y Hi Hj Hij. simpl.
  rewrite (Hs _ _ Hi), (Hs _ _ Hj). lia.
Qed.

(** The tenant's chain is in order, verifies, and its head is the stored one. *)
Definition chain_ok (t : uuid) (s : AuditState) : Prop :=
  let rows := tenant_rows t (au_events s) in
  let head := default (0, GENESIS_HASH) (au_chain s !! t) in
  slots_in_order rows ∧ verify_rows GENESIS_HASH 0 rows = ChainValid head.1 head.2.

Definition audit_ok (s : AuditState) : Prop := ∀ t, chain_ok t s.

(** Verification, as a statement about the recomputed hashes. *)
Lemma verify_rows_valid p n rows m h :
  verify_rows p n rows = ChainValid m h ↔
  m = n + Z.of_nat (length rows) ∧ h = segment_head sha256_hex rows p ∧
  ∀ i r c, rows !! i = Some (r, c) → cc_event_hash c = event_hash (stored_fingerprint r) ∧
    cc_prev_event_hash c = segment_head sha256_hex (take i rows) p.
Proof.
  revert p n. induction rows as [|[r c] rows IH]; intros p n; cbn [AuditChain.verify_rows length].
  { split; [intros [= <- <-]; split_and!; [lia|done|by intros []]|].
    intros (-> & -> & _). f_equal. lia. }
  destruct (decide (event_hash (stored_fingerprint r) = cc_event_hash c)) as [He|He];
    [rewrite bool_decide_eq_true_2 by done|rewrite bool_decide_eq_false_2 by done]; cbn [negb orb].
  2: { split; [done|]. intros (_ & _ & H). destruct (H 0%nat r c eq_refl). congruence. }
  destruct (decide (p = cc_prev_event_hash c)) as [Hp|Hp];
    [rewrite bool_decide_eq_true_2 by done|rewrite bool_decide_eq_false_2 by done]; cbn [negb].
  2: { split; [done|]. intros (_ & _ & H). destruct (H 0%nat r c eq_refl) as [_ H']. simpl in H'.
       congruence. }
  rewrite IH, He. unfold segment_head. simpl. split.
  - intros (-> & -> & H). split_and!; [lia|done|]. intros [|i] r' c' Hi; simpl in *; [|by apply H].
    by simplify_eq.
  - intros (-> & -> & H). split_and!; [lia|done|]. intros i r' c' Hi.
    by apply (H (S i)).
Qed.

Lemma tenant_rows_snoc t events r :
  tenant_rows t (events ++ [r]) =
    tenant_rows t events ++
      match ae_chain r with
      | Some c => if bool_decide (ae_tenant_id r = Some t) then [(r, c)] else []
      | None => []
      end.
Proof.
  unfold tenant_rows. rewrite omap_app. f_equal. simpl.
  destruct (ae_chain r); [|done]. by case_bool_decide.
Qed.

(** ** Appending *)
Lemma append_to_chain_run t e s c s' :
  append_to_chain sha256_hex dumps tenant_exists t e s = (Ok c, s') →
  let head := default (0, GENESIS_HASH) (au_chain s !! t) in
  c = {| cc_chain_index := head.1 + 1; cc_event_hash := event_hash e; cc_prev_event_hash := head.2 |} ∧
  s' = set_au_chain (<[t := (head.1 + 1, chain_hash head.2 (event_hash e))]> (au_chain s)) s.
Proof.
  unfold append_to_chain. intros (o & s0 & [-> ->]%gets_Ok & H)%bind_Ok.
  destruct (au_chain s !! t) as [[i h]|] eqn:Hc; run_inv; simpl in *.
  - rewrite Hc in *. simplify_eq/=. done.
  - rewrite lookup_insert_eq in *. simplify_eq/=. by rewrite insert_insert_eq.
Qed.

(** An event row that carries the next slot of its tenant's chain. *)
Lemma extend_ok t r s :
  let head := default (0, GENESIS_HASH) (au_chain s !! t) in
  let h := event_hash (stored_fingerprint r) in
  audit_ok s → ae_tenant_id r = Some t →
  ae_chain r = Some {| cc_chain_index := head.1 + 1; cc_event_hash := h;
                       cc_prev_event_hash := head.2 |} →
  audit_ok (set_au_events (au_events s ++ [r])
    (set_au_chain (<[t := (head.1 + 1, chain_hash head.2 h)]> (au_chain s)) s)).
Proof.
  intros head h Hok Ht Hc t'. unfold chain_ok. simpl. rewrite tenant_rows_snoc, Hc.
  destruct (Hok t') as [Hs Hv]. destruct (decide (t = t')) as [<-|Hne].
  - rewrite bool_decide_eq_true_2, lookup_insert_eq by done. simpl.
    fold head in Hv. apply verify_rows_valid in Hv as (Hn & Hh & Hrows). split.
    + intros i rc [Hi|[Hi Hi']]%lookup_app_Some; [by apply Hs|].
      apply list_lookup_singleton_Some in Hi' as [Hi' <-]. simpl. rewrite Hn. lia.
    + apply verify_rows_valid. rewrite length_app. simpl. split_and!; [lia| |].
      * unfold segment_head in *. rewrite foldl_snoc, <- Hh. done.
      * intros i r' c' [Hi|[Hi Hi']]%lookup_app_Some.
        -- destruct (Hrows _ _ _ Hi) as [? ->]. split; [done|].
           rewrite take_app_le; [done|]. apply lookup_lt_Some in Hi. lia.
        -- apply list_lookup_singleton_Some in Hi' as [Hi' [= <- <-]]. simpl.
           split; [done|]. rewrite take_app_length' by lia. done.
  - rewrite bool_decide_eq_false_2 by congruence. rewrite app_nil_r, lookup_insert_ne by done. done.
Qed.

(** A row that is on no chain. *)
Lemma unchained_ok r s :
  audit_ok s → ae_chain r = None → audit_ok (set_au_events (au_events s ++ [r]) s).
Proof.
  intros Hok Hc t. unfold chain_ok. simpl. rewrite tenant_rows_snoc, Hc, app_nil_r. apply Hok.
Qed.

Lemma audit_ok_frame s s' :
  au_events s' = au_events s → au_chain s' = au_chain s → audit_ok s → audit_ok s'.
Proof. intros He Hc Hok t. unfold chain_ok. rewrite He, Hc. apply Hok. Qed.

Lemma insert_event_row_run r s u s' :
  insert_event_row r s = (Ok u, s') → s' = set_au_events (au_events s ++ [r]) s.
Proof. unfold insert_event_row. intros H. run_inv. done. Qed.

Lemma append_insert_ok t e r s c s1 u s2 :
  audit_ok s → append_to_chain sha256_hex dumps tenant_exists t e s = (Ok c, s1) →
  insert_event_row r s1 = (Ok u, s2) →
  ae_tenant_id r = Some t → ae_chain r = Some c → stored_fingerprint r = e → audit_ok s2.
Proof.
  intros Hok Ha Hi Ht Hc <-. apply append_to_chain_run in Ha as [-> ->].
  apply insert_event_row_run in Hi as ->. exact (extend_ok t r s Hok Ht Hc).
Qed.

Lemma audit_draw_run (s : AuditState) a s' :
  (draw_id uuid_at : AUD uuid) s = (Ok a, s') → s' = set_au_next_id (S (au_next_id s)) s.
Proof. unfold draw_id. intros H. run_inv. done. Qed.

Lemma keeps_insert_audit now p action decision tt ti t d tr :
  keeps audit_ok
    (insert_audit sha256_hex dumps uuid_at tenant_exists now p action decision tt ti t d tr).
Proof.
  apply keeps_intro. intros s u s' Hok H. unfold insert_audit in H.
  apply bind_Ok in H as (id & s1 & ->%audit_draw_run & H).
  assert (audit_ok (set_au_next_id (S (au_next_id s)) s)) as Hok1 by by apply (audit_ok_frame s).
  apply bind_Ok in H as (chain & s2 & Hc & Hi). destruct t as [t|].
  - apply bind_Ok in Hc as (c & s3 & Ha & [-> ->]%mret_Ok).
    by eapply append_insert_ok; [exact Hok1|exact Ha|exact Hi| | |].
  - apply mret_Ok in Hc as [-> ->]. apply insert_event_row_run in Hi as ->.
    by apply unchained_ok.
Qed.

Lemma keeps_materialize t row :
  keeps audit_ok (materialize sha256_hex dumps uuid_at tenant_exists t row).
Proof.
  apply keeps_intro. intros s u s' Hok H. unfold materialize in H.
  apply bind_Ok in H as (id & s1 & ->%audit_draw_run & H).
  apply bind_Ok in H as (c & s2 & Ha & H).
  apply bind_Ok in H as (u' & s3 & Hi & [-> ->]%modify_Ok).
  apply (audit_ok_frame s3); [done..|].
  eapply append_insert_ok; [|exact Ha|exact Hi|done..]. by apply (audit_ok_frame s).
Qed.

Lemma preserves_dispatch_intents fault t n :
  preserves audit_ok (dispatch_intents sha256_hex dumps uuid_at tenant_exists fault t n).
Proof.
  unfold dispatch_intents. preserve. apply keeps_materialize.
Qed.

Lemma build_manifest_frame ok key bucket at_ t s r s' :
  build_manifest sha256_hex dumps hmac_hex ok key bucket at_ t s = (r, s') →
  au_events s' = au_events s ∧ au_chain s' = au_chain s.
Proof.
  unfold build_manifest, mbind, ST_mbind, gets, mret, ST_mret, modify, raise.
  destruct (unarchived t s) as [|first rows]; [by intros [= <- <-]|].
  destruct (last (first :: rows)); [|by intros [= <- <-]].
  destruct ok; by intros [= <- <-].
Qed.

(** ** The system *)
Inductive audit_step : AuditState → AuditState → Prop :=
  | audit_write s fault now p action decision tt ti t d tr :
      audit_step s (write_audit sha256_hex dumps uuid_at tenant_exists fault now p action decision
                      tt ti t d tr s).2
  | audit_enqueue s fault now id t actor auth action decision tt ti d tr :
      audit_step s (transaction fault ASql (enqueue_audit tenant_exists now id t actor auth action
                      decision tt ti d tr) s).2
  | audit_dispatch s fault t n :
      audit_step s (dispatch_intents sha256_hex dumps uuid_at tenant_exists fault t n s).2
  | audit_seal s fault ok key bucket at_ t :
      audit_step s (build_and_archive sha256_hex dumps hmac_hex fault ok key bucket at_ t s).2.

Lemma audit_step_ok s s' : audit_step s s' → audit_ok s → audit_ok s'.
Proof.
  intros Hstep Hok. destruct Hstep.
  - assert (preserves audit_ok (write_audit sha256_hex dumps uuid_at tenant_exists fault now p action
      decision tt ti t d tr)) as H by (apply preserves_transaction, keeps_insert_audit).
    specialize (H s Hok). by destruct (write_audit _ _ _ _ _ _ _ _ _ _ _ _ _ _ s) as [[] ?].
  - assert (preserves audit_ok (transaction fault ASql (enqueue_audit tenant_exists now id t actor auth
      action decision tt ti d tr))) as H.
    { unfold enqueue_audit. preserve. apply maintains_modify. intros s0. by apply audit_ok_frame. }
    specialize (H s Hok). by destruct (transaction _ _ _ s) as [[] ?].
  - pose proof (preserves_dispatch_intents fault t n s Hok) as H.
    by destruct (dispatch_intents _ _ _ _ _ _ _ s) as [[] ?].
  - unfold build_and_archive. destruct (build_manifest _ _ _ _ _ _ _ _ s) as [r s'] eqn:Hb.
    apply build_manifest_frame in Hb as [He Hc].
    destruct r, fault; simpl; apply (audit_ok_frame s); done.
Qed.

Lemma audit_ok_empty s : au_events s = [] → au_chain s = ∅ → audit_ok s.
Proof. intros He Hc t. unfold chain_ok. rewrite He, Hc, lookup_empty. split; [by intros []|done]. Qed.

(** ** Comparing two histories *)
Lemma chain_hash_inj p q x y :
  String.length p = String.length q → chain_hash p x = chain_hash q y →
  (p = q ∧ x = y) ∨ ∃ a b, a ≠ b ∧ sha256_hex a = sha256_hex b.
Proof.
  intros Hlen Hh. destruct (decide (p +:+ ":" +:+ x = q +:+ ":" +:+ y)) as [Heq|Hne].
  2: { right. eauto. }
  left. clear Hh. revert q Hlen Heq. induction p as [|c p IH]; intros [|c' q] Hlen Heq; simpl in *;
    [by simplify_eq|done|done|].
  injection Hlen as Hlen. injection Heq as -> Heq. by destruct (IH q Hlen Heq) as [-> ->].
Qed.

Lemma event_hash_inj f g :
  (∀ i j, dumps i = dumps j → i = j) → event_hash f = event_hash g →
  f = g ∨ ∃ a b, a ≠ b ∧ sha256_hex a = sha256_hex b.
Proof.
  intros Hd He. destruct (decide (dumps f = dumps g)) as [?|?]; [left; auto|right; eauto].
Qed.

Lemma segment_head_length rows p :
  (∀ x, String.length (sha256_hex x) = 64%nat) → String.length p = 64%nat →
  String.length (segment_head sha256_hex rows p) = 64%nat.
Proof.
  intros Hsha Hp. induction rows as [|rc rows IH] using rev_ind; [done|].
  unfold segment_head. rewrite foldl_snoc. apply Hsha.
Qed.

Lemma same_head_same_hashes (rows1 rows2 : list (AuditEvent * ChainColumns)) p :
  (∀ x, String.length (sha256_hex x) = 64%nat) → String.length p = 64%nat →
  length rows1 = length rows2 → segment_head sha256_hex rows1 p = segment_head sha256_hex rows2 p →
  (cc_event_hash ∘ snd <$> rows1) = (cc_event_hash ∘ snd <$> rows2) ∨
  ∃ a b, a ≠ b ∧ sha256_hex a = sha256_hex b.
Proof.
  intros Hsha Hp. revert rows2.
  induction rows1 as [|rc1 rows1 IH] using rev_ind; intros rows2 Hlen Hh.
  { left. by destruct rows2. }
  destruct rows2 as [|rc2 rows2 _] using rev_ind; [rewrite length_app in Hlen; simpl in Hlen; lia|].
  rewrite !length_app in Hlen. simpl in Hlen. unfold segment_head in Hh. rewrite !foldl_snoc in Hh.
  apply chain_hash_inj in Hh as [[Hh Hx]|?]; [|by right|].
  - destruct (IH rows2) as [Heq|?]; [lia|done| |by right].
    left. rewrite !fmap_app. simpl. by rewrite Heq, Hx.
  - transitivity 64%nat; [|symmetry]; by apply segment_head_length.
Qed.

(** Every row's stored hash is that of its fields. *)
Definition hashes_match (rows : list (AuditEvent * ChainColumns)) : Prop :=
  ∀ r c, (r, c) ∈ rows → cc_event_hash c = event_hash (stored_fingerprint r).

Lemma same_hashes_same_events (rows rows' : list (AuditEvent * ChainColumns)) :
  (∀ i j, dumps i = dumps j → i = j) →
  (cc_event_hash ∘ snd <$> rows) = (cc_event_hash ∘ snd <$> rows') →
  hashes_match rows → hashes_match rows' →
  (stored_fingerprint ∘ fst <$> rows) = (stored_fingerprint ∘ fst <$> rows') ∨
  ∃ a b, a ≠ b ∧ sha256_hex a = sha256_hex b.
Proof.
  intros Hd. revert rows'.
  induction rows as [|[r c] rows IH]; intros [|[r' c'] rows'] Heq H1 H2; try discriminate; [by left|].
  injection Heq as Hc Heq. destruct (IH rows') as [Htail|?]; [done| | | |by right].
  - intros ???. apply H1. by apply list_elem_of_further.
  - intros ???. apply H2. by apply list_elem_of_further.
  - rewrite (H1 r c), (H2 r' c') in Hc by apply list_elem_of_here.
    apply event_hash_inj in Hc as [Hf|?]; [|by right|done]. left. rewrite !fmap_cons, Htail. by simpl; rewrite Hf.
Qed.
End Facts.

(** C29: The audit chain always verifies.  Starting without events, after any
    sequence of audit writes, outbox inserts, dispatcher runs and manifest builds,
    whatever the connections and the archive do, verification of every tenant's
    chain succeeds, its count is the stored index and its head the stored head. *)
Theorem audit_chain_always_valid sha256_hex dumps hmac_hex uuid_at tenant_exists s0 s t :
  au_events s0 = [] → au_chain s0 = ∅ →
  rtc (audit_step sha256_hex dumps hmac_hex uuid_at tenant_exists) s0 s →
  let head := default (0, GENESIS_HASH) (au_chain s !! t) in
  verify_tenant_chain sha256_hex dumps t s = ChainValid head.1 head.2.
Proof.
  intros He Hc Hsteps. assert (audit_ok sha256_hex dumps s) as Hok.
  { pose proof (audit_ok_empty sha256_hex dumps s0 He Hc) as Hok. clear He Hc.
    induction Hsteps as [|s0 s1 s Hstep _ IH]; [done|]. apply IH. by eapply audit_step_ok. }
  destruct (Hok t) as [Hs Hv]. unfold verify_tenant_chain. by rewrite chain_rows_sorted.
Qed.


(** ** What verification does not see *)

Lemma tenant_rows_take t events k :
  ∃ n, tenant_rows t (take k events) = take n (tenant_rows t events).
Proof.
  revert k. induction events as [|r events IH]; intros [|k]; simpl; try (by exists 0%nat).
  destruct (IH k) as [n Hn]. unfold tenant_rows in *. simpl.
  destruct (ae_chain r) as [c|]; [|by exists n]. case_bool_decide; [|by exists n].
  exists (S n). simpl. by rewrite <- Hn.
Qed.

(** Verification does not see a truncated end.  Deleting the last events of an
    intact audit table, however many and even when manifests already cover them,
    leaves the evidence report without any sign of tampering: neither the stored
    chain head nor the sealed segments are compared with the recomputed chain. *)
Theorem truncated_tail_goes_undetected sha256_hex dumps hmac_hex key t s k :
  audit_ok sha256_hex dumps s →
  er_tamper_detected
    (verify_tenant_evidence sha256_hex dumps hmac_hex key t (set_au_events (take k (au_events s)) s))
  = er_tamper_detected (verify_tenant_evidence sha256_hex dumps hmac_hex key t s).
Proof.
  intros Hok. destruct (Hok t) as [Hs Hv]. unfold verify_tenant_evidence. simpl. f_equal.
  unfold verify_tenant_chain. simpl. rewrite (chain_rows_sorted _ _ Hs), Hv.
  destruct (tenant_rows_take t (au_events s) k) as [n Hn].
  assert (slots_in_order (tenant_rows t (take k (au_events s)))) as Hs'.
  { rewrite Hn. intros i rc [Hi _]%lookup_take_Some. by apply Hs. }
  rewrite (chain_rows_sorted _ _ Hs'), Hn.
  apply verify_rows_valid in Hv as (_ & _ & Hr).
  set (rows := tenant_rows t (au_events s)) in *.
  assert (verify_rows sha256_hex dumps GENESIS_HASH 0 (take n rows)
    = ChainValid (0 + Z.of_nat (length (take n rows))) (segment_head sha256_hex (take n rows) GENESIS_HASH))
    as ->; [|done].
  apply verify_rows_valid. split_and!; [done..|]. intros i r c Hi.
  pose proof (proj1 (lookup_take_Some _ _ _ _) Hi) as [Hi' Hlt].
  rewrite take_take, Nat.min_l by lia. by apply Hr.
Qed.

(** ** Manifests *)
Lemma max_of_snoc l x : max_of (l ++ [x]) = Z.max (max_of l) (Z.max x 0).
Proof. unfold max_of. induction l as [|y l IH]; simpl; [lia|]. rewrite IH. lia. Qed.

Lemma max_of_nonneg l : 0 ≤ max_of l.
Proof. unfold max_of. induction l as [|y l IH]; simpl; lia. Qed.

(** The rows past slot [n] of a chain in order are its tail. *)
Lemma filter_slots_from rows n k :
  (∀ i rc, rows !! i = Some rc → cc_chain_index rc.2 = k + Z.of_nat i + 1) →
  filter (λ rc : AuditEvent * ChainColumns, n < cc_chain_index rc.2) rows
  = drop (Z.to_nat (n - k)) rows.
Proof.
  revert k. induction rows as [|rc rows IH]; intros k Hs; [by rewrite drop_nil|].
  rewrite filter_cons. pose proof (Hs 0%nat rc eq_refl) as H0. rewrite (IH (k + 1)).
  2: { intros i rc' Hi. rewrite (Hs (S i) rc' Hi). lia. }
  case_decide as Hlt.
  - replace (Z.to_nat (n - k)) with 0%nat by lia. by replace (Z.to_nat (n - (k + 1))) with 0%nat by lia.
  - replace (Z.to_nat (n - k)) with (S (Z.to_nat (n - (k + 1)))) by lia. done.
Qed.

Definition archived_up_to (t : uuid) (s : AuditState) : Z :=
  max_of (am_last_chain_index <$> tenant_manifests t s).

Lemma unarchived_tail sha256_hex dumps t s :
  chain_ok sha256_hex dumps t s →
  unarchived t s = drop (Z.to_nat (archived_up_to t s)) (tenant_rows t (au_events s)).
Proof.
  intros [Hs _]. unfold unarchived. rewrite chain_rows_sorted by done.
  rewrite (filter_slots_from _ _ 0) by (intros i rc Hi; rewrite (Hs i rc Hi); lia).
  by rewrite Z.sub_0_r.
Qed.

(** The last row of the chain and the head after it. *)
Lemma drop_head_tail sha256_hex dumps t s k first rows :
  chain_ok sha256_hex dumps t s →
  drop k (tenant_rows t (au_events s)) = first :: rows →
  let head := default (0, GENESIS_HASH) (au_chain s !! t) in
  cc_chain_index first.2 = Z.of_nat k + 1 ∧ head.1 = Z.of_nat k + Z.of_nat (length (first :: rows)) ∧
  segment_head sha256_hex (first :: rows) (cc_prev_event_hash first.2) = head.2 ∧
  ∃ final, last (first :: rows) = Some final ∧ cc_chain_index final.2 = head.1.
Proof.
  intros [Hs Hv] Hd head. apply verify_rows_valid in Hv as (Hn & Hh & Hr). fold head in Hn, Hh.
  set (all := tenant_rows t (au_events s)) in *.
  assert (length all = k + length (first :: rows))%nat as Hlen.
  { rewrite <- Hd, length_drop. assert (k < length all)%nat; [|lia].
    destruct (decide (length all ≤ k)%nat); [|lia]. by rewrite drop_ge in Hd. }
  assert (all !! k = Some first) as Hk by by rewrite <- (Nat.add_0_r k), <- lookup_drop, Hd.
  destruct first as [r c]. split; [apply (Hs _ _ Hk)|]. split; [rewrite Hn; lia|]. split.
  - rewrite <- Hd, Hh. simpl. destruct (Hr _ _ _ Hk) as [_ ->].
    rewrite <- (take_drop k all) at 3. unfold segment_head. by rewrite foldl_app.
  - destruct (last ((r, c) :: rows)) as [final|] eqn:Hl; [|by apply last_None in Hl].
    exists final. split; [done|]. rewrite last_lookup, <- Hd, lookup_drop, Hd in Hl.
    rewrite (Hs _ _ Hl), Hn. simpl in *. lia.
Qed.

(** A manifest seals exactly what was not sealed.  On an intact chain a manifest
    starts right after the last archived index, ends at the tenant's current
    index, counts every event in between, carries the tenant's current chain head
    and a signature that verifies; sealing again right away finds nothing to
    seal. *)
Theorem manifest_seals_the_rest sha256_hex dumps hmac_hex key bucket at_ at' t s m s' :
  audit_ok sha256_hex dumps s →
  build_and_archive sha256_hex dumps hmac_hex NoFault true key bucket at_ t s = (Ok (Some m), s') →
  let head := default (0, GENESIS_HASH) (au_chain s !! t) in
  am_first_chain_index m = archived_up_to t s + 1 ∧ am_last_chain_index m = head.1 ∧
  am_event_count m = head.1 - archived_up_to t s ∧ am_chain_head_hash m = head.2 ∧
  verify_manifest_signature dumps hmac_hex (stored_document m) (am_signature m) key = true ∧
  build_and_archive sha256_hex dumps hmac_hex NoFault true key bucket at' t s' = (Ok None, s').
Proof.
  intros Hok Hb head. pose proof (unarchived_tail _ _ _ _ (Hok t)) as Hu.
  assert (0 ≤ archived_up_to t s) as HL by apply max_of_nonneg.
  unfold build_and_archive, build_manifest, mbind, ST_mbind, gets, mret, ST_mret, modify in Hb.
  destruct (unarchived t s) as [|first rows] eqn:Hrows; [discriminate|]. symmetry in Hu.
  destruct (drop_head_tail _ _ _ _ _ _ _ (Hok t) Hu) as (Hf & Hn & Hh & final & Hl & Hfin).
  fold head in Hn, Hh, Hfin. rewrite Hl, Hh, Hf, Hfin in Hb. injection Hb as <- <-. simpl.
  simpl in Hn. split; [lia|]. split; [done|]. split; [lia|]. split; [done|]. split.
  { unfold verify_manifest_signature. by apply bool_decide_eq_true_2. }
  unfold build_and_archive, build_manifest, mbind, ST_mbind, gets.
  set (s1 := set_au_manifests _ _).
  assert (unarchived t s1 = []) as ->; [|done].
  rewrite (unarchived_tail sha256_hex dumps) by apply (Hok t). apply drop_ge.
  assert (archived_up_to t s1 = Z.max (archived_up_to t s) (Z.max head.1 0)) as ->.
  { unfold archived_up_to, tenant_manifests. simpl. rewrite filter_app, fmap_app.
    rewrite filter_cons_True by done. apply max_of_snoc. }
  destruct (Hok t) as [_ Hv]. apply verify_rows_valid in Hv as (Hlen & _ & _). fold head in Hlen.
  simpl. lia.
Qed.

(** ** Concrete instances *)
Definition empty_audit : AuditState :=
  {| au_events := []; au_chain := ∅; au_outbox := []; au_manifests := []; au_worm := [];
     au_next_id := 0 |}.
(** A stand-in digest: 64 characters whatever the text. *)
Definition sample_sha (text : string) : string := GENESIS_HASH.
Definition sample_print (j : json) : string := String.string_of_list_byte (sample_dumps j).
Definition sample_hmac (key text : string) : string := key.

Lemma sample_print_inj i j : sample_print i = sample_print j → i = j.
Proof.
  unfold sample_print. intros H%(f_equal String.list_byte_of_string).
  rewrite !String.list_byte_of_string_of_list_byte in H.
  apply (f_equal sample_loads) in H. rewrite !sample_codec in H. by injection H.
Qed.

(** The audit table after one tenant event. *)
Definition one_event : AuditState :=
  (write_audit sample_sha (λ _, "") Z.of_nat (λ _, true) NoFault 1700000000000000 None "login" "ALLOW"
     None None (Some 7) ∅ None empty_audit).2.

Lemma one_event_reachable :
  rtc (audit_step sample_sha (λ _, "") sample_hmac Z.of_nat (λ _, true)) empty_audit one_event.
Proof. apply rtc_once, audit_write. Qed.

Lemma one_event_ok : audit_ok sample_sha (λ _, "") one_event.
Proof.
  eapply audit_step_ok; [apply (audit_write _ _ sample_hmac)|]. by apply audit_ok_empty.
Qed.

Lemma audit_chain_always_valid_witness :
  verify_tenant_chain sample_sha (λ _, "") 7 one_event = ChainValid 1 GENESIS_HASH.
Proof.
  rewrite (audit_chain_always_valid sample_sha (λ _, "") sample_hmac Z.of_nat (λ _, true)
    empty_audit one_event 7 eq_refl eq_refl one_event_reachable).
  vm_compute. reflexivity.
Defined.


Lemma truncated_tail_goes_undetected_witness :
  er_tamper_detected (verify_tenant_evidence sample_sha (λ _, "") sample_hmac "k" 7
    (set_au_events (take 0 (au_events one_event)) one_event)) = false.
Proof.
  rewrite (truncated_tail_goes_undetected sample_sha (λ _, "") sample_hmac "k" 7 one_event 0
    one_event_ok). vm_compute. reflexivity.
Defined.

Lemma manifest_seals_the_rest_witness :
  let out := build_and_archive sample_sha (λ _, "") sample_hmac NoFault true "k" "b" 0 7 one_event in
  build_and_archive sample_sha (λ _, "") sample_hmac NoFault true "k" "b" 1 7 out.2 = (Ok None, out.2).
Proof.
  apply (manifest_seals_the_rest sample_sha (λ _, "") sample_hmac "k" "b" 0 1 7 one_event
    {| am_tenant_id := 7; am_manifest_index := 1; am_first_chain_index := 1;
       am_last_chain_index := 1; am_event_count := 1; am_chain_head_hash := GENESIS_HASH;
       am_signature := "k";
       am_worm_location :=
         "s3://b/00000000-0000-0000-0000-000000000007/manifest-000000000001.json";
       am_created_at := 0 |} _ one_event_ok). vm_compute. reflexivity.
Defined.
