(* ===== verification/ToolRegistry.v ===== *)
(** * The tool registry (trpc_service/tool/registry.py, tool/store.py)

    Versioned tool definitions, the check of call parameters against the declared
    schema, and the two registries: the in-memory one and the one over the table
    [tenant.tool_definition] of migration 0013. *)

From Stdlib Require Import Ascii.
From S2P Require Import Prelude PyNum Uuids ExecutionBus SampleCodec Sessions.
Open Scope string_scope.
Open Scope list_scope.
Open Scope Z_scope.

(** ** Exceptions of the tool subsystem *)
Inductive ToolError :=
  | TValue (message : string)
  | TTypeError
  | TAttributeError
  | ToolDefinitionConflict (message : string)
  | ToolInvocationError (code : string) (details : option uuid)
  | ApprovalError (code : string)
  | CheckpointError (code : string)
  | ReconciliationError (code : string)
  | TExec (e : ExecError)
  | TSql.

#[export] Instance tool_sql_error : SqlError ToolError := TSql.

(** ** Enumerations *)
Inductive ToolSideEffect := READ_ONLY | IDEMPOTENT_WRITE | NON_IDEMPOTENT_WRITE | HIGH_RISK.
Inductive ToolSource := DECLARED | MCP.
Inductive DataClassification := PUBLIC | INTERNAL | CONFIDENTIAL | RESTRICTED.

#[export] Instance ToolSideEffect_eq_dec : EqDecision ToolSideEffect.
Proof. solve_decision. Defined.
#[export] Instance ToolSource_eq_dec : EqDecision ToolSource.
Proof. solve_decision. Defined.
#[export] Instance DataClassification_eq_dec : EqDecision DataClassification.
Proof. solve_decision. Defined.

Definition AUTO_EXECUTABLE_SIDE_EFFECTS : list ToolSideEffect := [READ_ONLY; IDEMPOTENT_WRITE].

Definition side_effect_text (e : ToolSideEffect) : string :=
  match e with
  | READ_ONLY => "READ_ONLY"
  | IDEMPOTENT_WRITE => "IDEMPOTENT_WRITE"
  | NON_IDEMPOTENT_WRITE => "NON_IDEMPOTENT_WRITE"
  | HIGH_RISK => "HIGH_RISK"
  end.

(** ** Definitions *)
Record ToolDefinition := {
  td_tenant_id : uuid;
  td_name : string;
  td_version : Z;
  td_description : string;
  td_side_effect : ToolSideEffect;
  td_input_schema : jobject;
  td_output_schema : jobject;
  td_scopes : list string;
  td_timeout_seconds : Z;
  td_cost_per_call_micros : Z;
  td_data_classification : DataClassification;
  td_supports_idempotency : bool;
  td_source : ToolSource;
  td_mcp_server : option string;
}.

(** ** Equality of definitions

    Python's [==] on JSON values takes [True], [1] and [1.0] for the same. *)
Definition float_value (bits : Z) : Z * Z :=
  let exponent := Z.land (Z.shiftr bits 52) 2047 in
  let fraction := Z.land bits (2 ^ 52 - 1) in
  let magnitude := if exponent =? 0 then fraction else fraction + 2 ^ 52 in
  (if Z.testbit bits 63 then - magnitude else magnitude, Z.max exponent 1 - 1075).

(** A float [m * 2^e] that is an integer equals it. *)
Definition py_norm_float (bits : Z) : json :=
  let '(m, e) := float_value bits in
  if 0 <=? e then JNum (m * 2 ^ e)
  else if m mod 2 ^ (- e) =? 0 then JNum (m / 2 ^ (- e)) else JFloat bits.

Fixpoint py_norm (j : json) : json :=
  match j with
  | JBool b => JNum (if b then 1 else 0)
  | JFloat bits => py_norm_float bits
  | JArr l => JArr (py_norm <$> l)
  | JObj m => JObj (py_norm <$> m)
  | _ => j
  end.

Definition norm_definition (d : ToolDefinition) : ToolDefinition :=
  {| td_tenant_id := td_tenant_id d; td_name := td_name d; td_version := td_version d;
     td_description := td_description d; td_side_effect := td_side_effect d;
     td_input_schema := py_norm <$> td_input_schema d;
     td_output_schema := py_norm <$> td_output_schema d; td_scopes := td_scopes d;
     td_timeout_seconds := td_timeout_seconds d;
     td_cost_per_call_micros := td_cost_per_call_micros d;
     td_data_classification := td_data_classification d;
     td_supports_idempotency := td_supports_idempotency d; td_source := td_source d;
     td_mcp_server := td_mcp_server d |}.

#[export] Instance ToolDefinition_eq_dec : EqDecision ToolDefinition.
Proof. solve_decision. Defined.

Definition definition_eqb (d1 d2 : ToolDefinition) : bool :=
  bool_decide (norm_definition d1 = norm_definition d2).

(** ** Schemas *)

(** [check_schema_shape] *)
Definition schema_shape_ok (schema : jobject) : bool :=
  bool_decide (schema !! "type" = Some (JStr "object")) &&
  match schema !! "properties" with
  | None | Some (JObj _) => true
  | Some _ => false
  end.

Definition check_schema_shape {S} (schema : jobject) : ST S ToolError unit :=
  ensure (schema_shape_ok schema) (TValue "tool schemas must describe a top-level object").

(** The elements [for key in value] yields, or a [TypeError]. *)
Fixpoint chars (s : string) : list json :=
  match s with EmptyString => [] | String c s' => JStr (String c EmptyString) :: chars s' end.
Definition iterate (value : json) : option (list json) :=
  match value with
  | JArr l => Some l
  | JStr s => Some (chars s)
  | JObj m => Some (JStr <$> (map_to_list m).*1)
  | _ => None
  end.

Definition invalid {A} : outcome ToolError A := Raise (ToolInvocationError "TOOL_PARAMS_INVALID" None).

(** [for key in required: if key not in params: raise]; a key that cannot be hashed
    is a [TypeError]. *)
Fixpoint check_required (params : jobject) (keys : list json) : outcome ToolError unit :=
  match keys with
  | [] => Ok tt
  | JStr k :: keys' =>
      if bool_decide (is_Some (params !! k)) then check_required params keys' else invalid
  | (JArr _ | JObj _) :: _ => Raise TTypeError
  | _ :: _ => invalid
  end.

(** [isinstance(value, _JSON_TYPES.get(expected, (object,)))] *)
Definition instance_of (value : json) (expected : string) : bool :=
  match expected, value with
  | "string", JStr _ => true
  | "string", _ => false
  | "number", (JNum _ | JFloat _ | JBool _) => true
  | "number", _ => false
  | "integer", (JNum _ | JBool _) => true
  | "integer", _ => false
  | "boolean", JBool _ => true
  | "boolean", _ => false
  | "array", JArr _ => true
  | "array", _ => false
  | "object", JObj _ => true
  | "object", _ => false
  | _, _ => true
  end.

Definition is_bool (j : json) : bool := match j with JBool _ => true | _ => false end.

(** The loop body over [params.items()]. *)
Definition check_value (properties : jobject) (key : string) (value : json)
    : outcome ToolError unit :=
  match default (JObj ∅) (properties !! key) with
  | JObj property =>
      match property !! "type" with
      | None | Some JNull => Ok tt
      | Some expected =>
          if is_bool value && negb (bool_decide (expected = JStr "boolean")) then invalid
          else
            match expected with
            | JStr ty => if instance_of value ty then Ok tt else invalid
            | JArr _ | JObj _ => Raise TTypeError
            | _ => Ok tt
            end
      end
  | _ => Raise TAttributeError
  end.

Fixpoint check_values (properties : jobject) (items : list (string * json))
    : outcome ToolError unit :=
  match items with
  | [] => Ok tt
  | (k, v) :: items' =>
      match check_value properties k v with
      | Ok _ => check_values properties items'
      | Raise e => Raise e
      end
  end.

(** [validate_params]; the parameters are a dictionary by their type here. *)
Definition validate_params (definition : ToolDefinition) (params : jobject)
    : outcome ToolError jobject :=
  let schema := td_input_schema definition in
  match default (JObj ∅) (schema !! "properties") with
  | JObj properties =>
      if bool_decide (dom params ⊆ dom properties) then
        match iterate (default (JArr []) (schema !! "required")) with
        | None => Raise TTypeError
        | Some required =>
            match check_required params required with
            | Raise e => Raise e
            | Ok _ =>
                match check_values properties (map_to_list params) with
                | Raise e => Raise e
                | Ok _ => Ok params
                end
            end
        end
      else invalid
  | _ => Raise TAttributeError
  end.

(** ** Canonical parameters *)
Section Hash.
  Context (canonical_json : json → string) (sha256 : string → string).

Definition canonical_params_hash (params : jobject) : string := sha256 (canonical_json (JObj params)).
End Hash.

(** ** The in-memory registry *)
Abbreviation tool_key := (uuid * string * Z)%type.
Abbreviation definitions := (gmap tool_key ToolDefinition).

Definition key_of (d : ToolDefinition) : tool_key := (td_tenant_id d, td_name d, td_version d).

Definition mcp_replacement (tenant_id : uuid) (server_name : string) (server_version : Z)
    (tool : ToolDefinition) : ToolDefinition :=
  {| td_tenant_id := tenant_id; td_name := td_name tool; td_version := server_version;
     td_description := td_description tool; td_side_effect := td_side_effect tool;
     td_input_schema := td_input_schema tool; td_output_schema := td_output_schema tool;
     td_scopes := td_scopes tool; td_timeout_seconds := td_timeout_seconds tool;
     td_cost_per_call_micros := td_cost_per_call_micros tool;
     td_data_classification := td_data_classification tool;
     td_supports_idempotency := td_supports_idempotency tool; td_source := MCP;
     td_mcp_server := Some server_name |}.

Module MemoryRegistry.
Section Ops.
  (** Whether pydantic's [model_validate] accepts a definition it is given. *)
  Context (model_valid : ToolDefinition → bool).

Definition register (definition : ToolDefinition) : ST definitions ToolError ToolDefinition :=
  _ ← ensure (model_valid definition) (TValue "invalid tool definition");
  _ ← check_schema_shape (td_input_schema definition);
  _ ← check_schema_shape (td_output_schema definition);
  existing ← gets (λ s, s !! key_of definition);
  match existing with
  | Some existing =>
      _ ← ensure (definition_eqb existing definition) (ToolDefinitionConflict "tool version conflict");
      mret existing
  | None =>
      _ ← modify <[key_of definition := definition]>;
      mret definition
  end.

(** [register_mcp_server]: the tools before a conflicting one stay registered. *)
Definition register_mcp_server (tenant_id : uuid) (server_name : string) (server_version : Z)
    (tools : list ToolDefinition) : ST definitions ToolError nat :=
  _ ← ensure (bool_decide (NoDup (td_name <$> tools))) (TValue "duplicate tool names in MCP server");
  _ ← for_each (λ tool,
        _ ← register (mcp_replacement tenant_id server_name server_version tool); mret tt) tools;
  mret (length tools).
End Ops.

Definition has_name (s : definitions) (name : string) : bool :=
  existsb (λ k : tool_key, bool_decide (k.1.2 = name)) (map_to_list s).*1.

(** [max(candidates, key=version)]: the first of the largest. *)
Definition newer (best : option ToolDefinition) (d : ToolDefinition) : option ToolDefinition :=
  match best with
  | Some b => if td_version b <? td_version d then Some d else Some b
  | None => Some d
  end.
Definition newest (candidates : list ToolDefinition) : option ToolDefinition :=
  foldl newer None candidates.

Definition candidates (s : definitions) (tenant_id : uuid) (name : string) : list ToolDefinition :=
  omap (λ kd : tool_key * ToolDefinition,
    if bool_decide (kd.1.1.1 = tenant_id) && bool_decide (kd.1.1.2 = name) then Some kd.2 else None)
    (map_to_list s).

Definition resolve (s : definitions) (tenant_id : uuid) (name : string) (version : option Z)
    : option ToolDefinition :=
  match version with
  | Some v => s !! (tenant_id, name, v)
  | None => newest (candidates s tenant_id name)
  end.

(** [latest_definitions]: the loop fills [latest], then the names are sorted. *)
Definition latest_step (tenant_id : uuid) (latest : gmap string ToolDefinition)
    (kd : tool_key * ToolDefinition) : gmap string ToolDefinition :=
  let '((candidate_tenant, candidate_name, _), definition) := kd in
  if bool_decide (candidate_tenant = tenant_id) then
    match latest !! candidate_name with
    | Some current =>
        if td_version current <? td_version definition
        then <[candidate_name := definition]> latest else latest
    | None => <[candidate_name := definition]> latest
    end
  else latest.

Fixpoint insert_name (n : string) (l : list string) : list string :=
  match l with
  | [] => [n]
  | m :: l' => if String.leb n m then n :: l else m :: insert_name n l'
  end.
Definition sorted_names (l : list string) : list string := foldr insert_name [] l.

Definition latest_definitions (s : definitions) (tenant_id : uuid) : list ToolDefinition :=
  let latest := foldl (latest_step tenant_id) ∅ (map_to_list s) in
  omap (λ n, latest !! n) (sorted_names (map_to_list latest).*1).
End MemoryRegistry.

(** ** The registry over [tenant.tool_definition] *)
Module DatabaseRegistry.

(** The CHECK constraints of migration 0013. *)
Definition name_char (c : ascii) : bool :=
  (97 <=? nat_of_ascii c)%nat && (nat_of_ascii c <=? 122)%nat.
Definition name_tail_char (c : ascii) : bool :=
  name_char c || (48 <=? nat_of_ascii c)%nat && (nat_of_ascii c <=? 57)%nat
  || bool_decide (c = "_"%char).
Definition name_check (n : string) : bool :=
  match n with
  | EmptyString => false
  | String c n' => name_char c && all_chars name_tail_char n' && length_between 1 63 n'
  end.

Definition row_check (d : ToolDefinition) (created_by : string) : bool :=
  name_check (td_name d) && (1 <=? td_version d) && length_between 1 512 (td_description d)
  && (1 <=? td_timeout_seconds d) && (td_timeout_seconds d <=? 600)
  && (0 <=? td_cost_per_call_micros d) && length_between 1 256 created_by.

(** [_insert_definition]: [ON CONFLICT DO NOTHING]. *)
Definition insert_definition (d : ToolDefinition) (created_by : string)
    : ST definitions ToolError unit :=
  _ ← ensure (row_check d created_by) TSql;
  existing ← gets (λ s, s !! key_of d);
  match existing with
  | Some _ => mret tt
  | None => modify <[key_of d := d]>
  end.

Definition register (fault : txn_fault) (definition : ToolDefinition) (created_by : string)
    : ST definitions ToolError ToolDefinition :=
  _ ← check_schema_shape (td_input_schema definition);
  _ ← check_schema_shape (td_output_schema definition);
  stored ← transaction fault TSql
    (_ ← insert_definition definition created_by;
     gets (λ s, s !! key_of definition));
  stored ← get_or_raise stored TTypeError;
  _ ← ensure (definition_eqb stored definition) (ToolDefinitionConflict "tool version conflict");
  mret stored.

(** [register_mcp_server]: one transaction; a version that is already stored is
    left as it is, without a comparison. *)
Definition register_mcp_server (fault : txn_fault) (tenant_id : uuid) (server_name : string)
    (server_version : Z) (tools : list ToolDefinition) (created_by : string)
    : ST definitions ToolError nat :=
  transaction fault TSql
    (_ ← for_each (λ tool,
        let replacement := mcp_replacement tenant_id server_name server_version tool in
        _ ← check_schema_shape (td_input_schema replacement);
        _ ← check_schema_shape (td_output_schema replacement);
        insert_definition replacement created_by) tools;
     mret (length tools)).

(** [ORDER BY version DESC LIMIT 1] over the tenant's rows. *)
Definition resolve (s : definitions) (tenant_id : uuid) (name : string) (version : option Z)
    : option ToolDefinition :=
  match version with
  | Some v => s !! (tenant_id, name, v)
  | None => head (sort_on (λ d, - td_version d) (MemoryRegistry.candidates s tenant_id name))
  end.
End DatabaseRegistry.
