(* ===== verification/RegistryTheorems.v ===== *)
(** * Theorems about the tool registries

    A stored version never changes and both registries resolve to the newest
    version; the bulk registration of the database
    registry does not notice a conflict; accepted call parameters are typed. *)

From S2P Require Import Prelude PyNum Uuids ExecutionBus SampleCodec Sessions ToolRegistry.
Open Scope string_scope.
Open Scope list_scope.
Open Scope Z_scope.

(** Every definition is stored under its own tenant, name and version. *)
Definition well_keyed (s : definitions) : Prop := map_Forall (λ k d, k = key_of d) s.

(** The step every registration consists of: nothing, or a new key. *)
Definition extends (s s' : definitions) : Prop := s ⊆ s' ∧ (well_keyed s → well_keyed s').

#[export] Instance extends_preorder : PreOrder extends.
Proof. split; [by split|]. intros s1 s2 s3 [? ?] [? ?]. split; [by etrans|auto]. Qed.

Lemma extends_insert (s : definitions) (d : ToolDefinition) : s !! key_of d = None → extends s (<[key_of d := d]> s).
Proof.
  intros Hnone. split; [by apply insert_subseteq|]. intros Hs. by apply map_Forall_insert_2.
Qed.

(** [grows m]: however it ends, [m] only adds versions. *)
Definition grows {B : Type} (m : ST definitions ToolError B) : Prop := ∀ s, extends s (m s).2.

Lemma grows_ret {B : Type} (b : B) : grows (mret b).
Proof. by intros s. Qed.
Lemma grows_raise {B : Type} (e : ToolError) : grows (raise e : ST definitions ToolError B).
Proof. by intros s. Qed.
Lemma grows_ensure (b : bool) (e : ToolError) : grows (ensure b e).
Proof. by destruct b; intros s. Qed.
Lemma grows_gets {B : Type} (f : definitions → B) : grows (gets f).
Proof. by intros s. Qed.
Lemma grows_bind {B C : Type} (m : ST definitions ToolError B) (k : B → ST definitions ToolError C) :
  grows m → (∀ b, grows (k b)) → grows (m ≫= k).
Proof.
  intros Hm Hk s. unfold mbind, ST_mbind. specialize (Hm s). destruct (m s) as [[b|e] s']; [|done].
  by etrans; [exact Hm|apply Hk].
Qed.
Lemma grows_for_each {B : Type} (f : B → ST definitions ToolError unit) l :
  (∀ x, grows (f x)) → grows (for_each f l).
Proof. intros Hf. induction l; simpl; [apply grows_ret|]. by apply grows_bind. Qed.
Lemma grows_transaction {B : Type} (fault : txn_fault) (e : ToolError) (m : ST definitions ToolError B) :
  grows m → grows (transaction fault e m).
Proof.
  intros Hm s. unfold transaction. specialize (Hm s).
  destruct (m s) as [[b|err] s']; [by destruct fault|done].
Qed.

Lemma grows_memory_register (valid : ToolDefinition → bool) (d : ToolDefinition) : grows (MemoryRegistry.register valid d).
Proof.
  unfold MemoryRegistry.register, check_schema_shape. do 3 (apply grows_bind; [apply grows_ensure|intros _]).
  intros s. unfold mbind, ST_mbind, gets. destruct (s !! key_of d) as [d0|] eqn:Hd.
  - unfold ensure. by destruct (definition_eqb d0 d).
  - by apply extends_insert.
Qed.

Lemma grows_insert_definition (d : ToolDefinition) by' : grows (DatabaseRegistry.insert_definition d by').
Proof.
  unfold DatabaseRegistry.insert_definition. apply grows_bind; [apply grows_ensure|intros _].
  intros s. unfold mbind, ST_mbind, gets.
  destruct (s !! key_of d) eqn:Hd; [done|by apply extends_insert].
Qed.

Lemma grows_database_register fault d by' : grows (DatabaseRegistry.register fault d by').
Proof.
  unfold DatabaseRegistry.register, check_schema_shape.
  do 2 (apply grows_bind; [apply grows_ensure|intros _]). apply grows_bind.
  - apply grows_transaction, grows_bind; [apply grows_insert_definition|intros _; apply grows_gets].
  - intros [d'|]; [|apply grows_raise].
    apply (grows_bind (mret d')); [apply grows_ret|]. intros d1.
    apply grows_bind; [apply grows_ensure|intros _; apply grows_ret].
Qed.

Lemma grows_memory_mcp valid t name v tools :
  grows (MemoryRegistry.register_mcp_server valid t name v tools).
Proof.
  unfold MemoryRegistry.register_mcp_server. apply grows_bind; [apply grows_ensure|intros _].
  apply grows_bind; [|intros _; apply grows_ret]. apply grows_for_each. intros tool.
  apply grows_bind; [apply grows_memory_register|intros _; apply grows_ret].
Qed.

Lemma grows_database_mcp fault t name v tools by' :
  grows (DatabaseRegistry.register_mcp_server fault t name v tools by').
Proof.
  apply grows_transaction, grows_bind; [|intros _; apply grows_ret]. apply grows_for_each. intros tool.
  unfold check_schema_shape. do 2 (apply grows_bind; [apply grows_ensure|intros _]).
  apply grows_insert_definition.
Qed.

(** Registrations of either registry, in any order, with any outcome. *)
Inductive registration : definitions → definitions → Prop :=
  | reg_memory valid d s : registration s (MemoryRegistry.register valid d s).2
  | reg_memory_mcp valid t name v tools s :
      registration s (MemoryRegistry.register_mcp_server valid t name v tools s).2
  | reg_database fault d by' s : registration s (DatabaseRegistry.register fault d by' s).2
  | reg_database_mcp fault t name v tools by' s :
      registration s (DatabaseRegistry.register_mcp_server fault t name v tools by' s).2.

Lemma registrations_extend (s s' : definitions) : rtc registration s s' → extends s s'.
Proof.
  induction 1 as [s|s s1 s' Hstep _ IH]; [done|]. etrans; [|exact IH].
  destruct Hstep; [apply grows_memory_register|apply grows_memory_mcp
    |apply grows_database_register|apply grows_database_mcp].
Qed.

(** a registered version is immutable: no sequence of registrations, of single tools
    or MCP servers, successful or failed, changes the definition stored for a tenant,
    name and version, and every definition stays under its own key. *)
Theorem registered_version_immutable (s s' : definitions) (k : tool_key) (d : ToolDefinition) :
  rtc registration ∅ s → rtc registration s s' → s !! k = Some d →
  s' !! k = Some d ∧ k = key_of d.
Proof.
  intros [_ Hk]%registrations_extend [Hsub _]%registrations_extend Hd.
  split; [by eapply lookup_weaken|]. by apply (Hk (map_Forall_empty _)).
Qed.

(** ** Resolution *)
Lemma newer_spec (l : list ToolDefinition) (best : option ToolDefinition) :
  match foldl MemoryRegistry.newer best l with
  | Some d => (best = Some d ∨ d ∈ l) ∧ (∀ d', best = Some d' ∨ d' ∈ l → td_version d' ≤ td_version d)
  | None => best = None ∧ l = []
  end.
Proof.
  revert best. induction l as [|x l IH]; intros best; simpl.
  - destruct best as [b|]; [|done]. split; [by left|]. intros d' [[= ->]|H]; [done|].
    by apply not_elem_of_nil in H.
  - specialize (IH (MemoryRegistry.newer best x)).
    destruct (foldl _ _ _) as [d|]; [|destruct IH as [H _]; unfold MemoryRegistry.newer in H;
      destruct best; [by destruct (_ <? _)|done]].
    destruct IH as [Hd Hmax]. unfold MemoryRegistry.newer in *.
    destruct best as [b|]; [destruct (Z.ltb_spec (td_version b) (td_version x))|].
    + split; [destruct Hd as [[= ->]|]; right; [by left|by right]|].
      intros d' [[= <-]|[->|?]%elem_of_cons]; [|by apply Hmax; left|by apply Hmax; right].
      specialize (Hmax x (or_introl eq_refl)). lia.
    + split; [destruct Hd as [[= ->]|]; [by left|right; by right]|].
      intros d' [[= <-]|[->|?]%elem_of_cons]; [by apply Hmax; left| |by apply Hmax; right].
      specialize (Hmax b (or_introl eq_refl)). lia.
    + split; [destruct Hd as [[= ->]|]; right; [by left|by right]|].
      intros d' [[=]|[->|?]%elem_of_cons]; [by apply Hmax; left|by apply Hmax; right].
Qed.

Lemma newest_spec l :
  match MemoryRegistry.newest l with
  | Some d => d ∈ l ∧ ∀ d', d' ∈ l → td_version d' ≤ td_version d
  | None => l = []
  end.
Proof.
  pose proof (newer_spec l None) as H. unfold MemoryRegistry.newest.
  destruct (foldl _ _ _) as [d|]; [|tauto]. destruct H as [[[=]|?] H]. auto.
Qed.

Lemma candidates_spec (s : definitions) (t : uuid) (n : string) (d : ToolDefinition) :
  d ∈ MemoryRegistry.candidates s t n ↔ ∃ v, s !! (t, n, v) = Some d.
Proof.
  unfold MemoryRegistry.candidates. rewrite list_elem_of_omap. split.
  - intros ([[[t' n'] v] d'] & Hin%elem_of_map_to_list & H). simpl in H.
    do 2 (case_bool_decide; [|done]). simpl in H. simplify_eq. eauto.
  - intros [v Hv]. exists ((t, n, v), d). rewrite elem_of_map_to_list. split; [done|]. simpl.
    by rewrite !bool_decide_eq_true_2.
Qed.

(** The newest version of a name, in a well-keyed registry. *)
Definition latest_version (s : definitions) (t : uuid) (n : string) (d : ToolDefinition) : Prop :=
  s !! (t, n, td_version d) = Some d ∧ ∀ v d', s !! (t, n, v) = Some d' → v ≤ td_version d.

Lemma latest_version_unique (s : definitions) (t : uuid) (n : string) (d d' : ToolDefinition) :
  latest_version s t n d → latest_version s t n d' → d = d'.
Proof.
  intros [H1 M1] [H2 M2]. pose proof (M1 _ _ H2). pose proof (M2 _ _ H1).
  assert (td_version d = td_version d') as Hv by lia. rewrite Hv in H1. congruence.
Qed.

Lemma candidate_max (s : definitions) (t : uuid) (n : string) (d : ToolDefinition) :
  well_keyed s → d ∈ MemoryRegistry.candidates s t n →
  (∀ d', d' ∈ MemoryRegistry.candidates s t n → td_version d' ≤ td_version d) →
  latest_version s t n d.
Proof.
  intros Hk [v Hv]%candidates_spec Hmax. pose proof (Hk _ _ Hv) as [= -> -> ->]. split; [done|].
  intros v' d' Hd'. pose proof (Hk _ _ Hd') as [= Ht Hn ->]. apply Hmax, candidates_spec. eauto.
Qed.

(** without a pinned version both registries resolve a name to its newest version,
    and to nothing exactly when the tenant has none; with one, to exactly that version. *)
Theorem resolve_is_latest (s : definitions) (t : uuid) (n : string) :
  rtc registration ∅ s →
  (∀ d, MemoryRegistry.resolve s t n None = Some d ↔ latest_version s t n d) ∧
  (∀ version, DatabaseRegistry.resolve s t n version = MemoryRegistry.resolve s t n version) ∧
  (MemoryRegistry.resolve s t n None = None ↔ ∀ v, s !! (t, n, v) = None).
Proof.
  intros [_ Hk]%registrations_extend. specialize (Hk (map_Forall_empty _)).
  pose proof (newest_spec (MemoryRegistry.candidates s t n)) as Hnew.
  pose proof (sort_on_least (λ d, - td_version d) (MemoryRegistry.candidates s t n)) as Hsort.
  simpl. destruct (MemoryRegistry.newest _) as [d|] eqn:Hd.
  - destruct Hnew as [Hin Hmax]. pose proof (candidate_max _ _ _ _ Hk Hin Hmax) as Hlat.
    split; [|split].
    + intros d'. split; [by intros [= <-]|]. intros Hlat'. f_equal. by eapply latest_version_unique.
    + intros [v|]; [done|]. simpl. rewrite Hd. destruct (head _) as [d'|].
      * destruct Hsort as [Hin' Hmin]. f_equal. eapply latest_version_unique; [|exact Hlat].
        apply candidate_max; [done|done|]. intros d1 H1. specialize (Hmin d1 H1). simpl in Hmin. lia.
      * rewrite Hsort in Hin. by apply not_elem_of_nil in Hin.
    + split; [done|]. intros Hnone. apply candidates_spec in Hin as [v Hv]. by rewrite Hnone in Hv.
  - assert (∀ v, s !! (t, n, v) = None) as Hnone.
    { intros v. destruct (s !! (t, n, v)) as [d|] eqn:Hv; [|done]. exfalso.
      apply (not_elem_of_nil d). rewrite <- Hnew. apply candidates_spec. eauto. }
    split; [|split; [|done]].
    + intros d. split; [done|]. intros [Hv _]. by rewrite Hnone in Hv.
    + intros [v|]; [done|]. simpl. by rewrite Hd, Hnew.
Qed.

(** ** Bulk registration *)

(** re-registering an MCP server whose tool diverges from the stored version is a
    conflict for the in-memory registry, while the database registry reports it as
    registered and keeps the old definition. *)
Theorem database_mcp_ignores_conflicts (model_valid : ToolDefinition → bool) (t : uuid)
    (name created_by : string) (v : Z) (tool stored : ToolDefinition) (s : definitions) :
  let replacement := mcp_replacement t name v tool in
  s !! key_of replacement = Some stored → definition_eqb stored replacement = false →
  schema_shape_ok (td_input_schema tool) = true → schema_shape_ok (td_output_schema tool) = true →
  DatabaseRegistry.row_check replacement created_by = true → model_valid replacement = true →
  DatabaseRegistry.register_mcp_server NoFault t name v [tool] created_by s = (Ok 1%nat, s) ∧
  MemoryRegistry.register_mcp_server model_valid t name v [tool] s =
    (Raise (ToolDefinitionConflict "tool version conflict"), s).
Proof.
  intros replacement Hs Heq Hin Hout Hrow Hvalid. split.
  - unfold DatabaseRegistry.register_mcp_server, transaction, DatabaseRegistry.insert_definition,
      check_schema_shape, ensure, mbind, ST_mbind, gets. cbn [for_each].
    fold replacement. cbn [td_input_schema td_output_schema replacement mcp_replacement].
    unfold mbind, ST_mbind. cbn. rewrite Hin. cbn. rewrite Hout. cbn. rewrite Hrow. cbn.
    by rewrite Hs.
  - unfold MemoryRegistry.register_mcp_server, MemoryRegistry.register, check_schema_shape, ensure, mbind, ST_mbind, gets.
    rewrite bool_decide_eq_true_2 by apply NoDup_singleton. cbn [for_each].
    unfold mbind, ST_mbind. cbn. fold replacement. rewrite Hvalid. cbn. rewrite Hin. cbn.
    rewrite Hout. cbn. rewrite Hs. cbn. by rewrite Heq.
Qed.

(** ** Samples *)
Definition sample_schema : jobject := {["type" := JStr "object"]}.
Definition sample_tool (version : Z) (description : string) : ToolDefinition :=
  {| td_tenant_id := 1; td_name := "search"; td_version := version; td_description := description;
     td_side_effect := READ_ONLY; td_input_schema := sample_schema;
     td_output_schema := sample_schema; td_scopes := []; td_timeout_seconds := 30;
     td_cost_per_call_micros := 0; td_data_classification := PUBLIC;
     td_supports_idempotency := false; td_source := DECLARED; td_mcp_server := None |}.

Definition one_version : definitions :=
  (DatabaseRegistry.register NoFault (sample_tool 1 "old") "ops" ∅).2.
Definition two_versions : definitions :=
  (DatabaseRegistry.register NoFault (sample_tool 2 "new") "ops" one_version).2.

Lemma one_version_reached : rtc registration ∅ one_version.
Proof. apply rtc_once, reg_database. Qed.
Lemma two_versions_reached : rtc registration one_version two_versions.
Proof. apply rtc_once, reg_database. Qed.

Lemma registered_version_immutable_witness :
  two_versions !! (1, "search", 1) = Some (sample_tool 1 "old") ∧
  (1, "search", 1) = key_of (sample_tool 1 "old").
Proof.
  apply (registered_version_immutable one_version two_versions);
    [exact one_version_reached|exact two_versions_reached|vm_compute; reflexivity].
Defined.

Lemma resolve_is_latest_witness :
  DatabaseRegistry.resolve two_versions 1 "search" None = Some (sample_tool 2 "new") ∧
  latest_version two_versions 1 "search" (sample_tool 2 "new").
Proof.
  destruct (resolve_is_latest two_versions 1 "search"
    (rtc_r _ _ _ one_version_reached (reg_database NoFault (sample_tool 2 "new") "ops" one_version))) as (Hmem & Hdb & _).
  rewrite Hdb. split; [vm_compute; reflexivity|]. apply Hmem. vm_compute. reflexivity.
Defined.

Definition mcp_tools : definitions :=
  {[(1, "search", 3) := mcp_replacement 1 "crawler" 3 (sample_tool 1 "old")]}.

Lemma database_mcp_ignores_conflicts_witness :
  DatabaseRegistry.register_mcp_server NoFault 1 "crawler" 3 [sample_tool 1 "new"] "ops" mcp_tools =
    (Ok 1%nat, mcp_tools) ∧
  MemoryRegistry.register_mcp_server (λ _, true) 1 "crawler" 3 [sample_tool 1 "new"] mcp_tools =
    (Raise (ToolDefinitionConflict "tool version conflict"), mcp_tools).
Proof.
  apply (database_mcp_ignores_conflicts (λ _, true) 1 "crawler" "ops" 3 (sample_tool 1 "new")
    (mcp_replacement 1 "crawler" 3 (sample_tool 1 "old")) mcp_tools); vm_compute; reflexivity.
Defined.

(** ** Typed parameters

    The types of the schema subset, as a judgement: a boolean is no number, an
    unknown type name admits every value but a boolean. *)
Inductive has_type : json → string → Prop :=
  | type_string s : has_type (JStr s) "string"
  | type_integer n : has_type (JNum n) "integer"
  | type_number_int n : has_type (JNum n) "number"
  | type_number_float b : has_type (JFloat b) "number"
  | type_boolean b : has_type (JBool b) "boolean"
  | type_array l : has_type (JArr l) "array"
  | type_object m : has_type (JObj m) "object"
  | type_unknown v ty :
      ty ∉ ["string"; "integer"; "number"; "boolean"; "array"; "object"] → is_bool v = false →
      has_type v ty.

(** A schema of the subset: every property is an object whose type, if any, is a text,
    and the required keys are a list of texts. *)
Record schema_wf (properties : jobject) (required : list string) (schema : jobject) : Prop := {
  sw_properties : default (JObj ∅) (schema !! "properties") = JObj properties;
  sw_required : default (JArr []) (schema !! "required") = JArr (JStr <$> required);
  sw_types : ∀ k v, properties !! k = Some v →
    ∃ property, v = JObj property ∧
      (property !! "type" = None ∨ ∃ ty, property !! "type" = Some (JStr ty));
}.

(** Parameters that fit a schema. *)
Definition conforms (properties : jobject) (required : list string) (params : jobject) : Prop :=
  dom params ⊆ dom properties ∧ (∀ k, k ∈ required → is_Some (params !! k)) ∧
  ∀ k v property ty, params !! k = Some v → properties !! k = Some (JObj property) →
    property !! "type" = Some (JStr ty) → has_type v ty.

(** A name of the list is not an unknown type. *)
Ltac known_type :=
  exfalso; match goal with Hn : ?x ∉ _ |- _ => apply Hn; rewrite !elem_of_cons; naive_solver end.

Lemma instance_of_spec v ty :
  (is_bool v && negb (bool_decide (JStr ty = JStr "boolean"))) = false ∧ instance_of v ty = true ↔
  has_type v ty.
Proof.
  destruct (decide (ty = "boolean")) as [->|Hb].
  { rewrite bool_decide_true by done. rewrite andb_false_r. destruct v; simpl; split.
    all: try (intros [? ?]; try done; by constructor).
    all: intros Ht; inversion Ht; subst; try known_type; by split. }
  rewrite bool_decide_false by congruence. rewrite andb_true_r.
  destruct (decide (ty ∈ ["string"; "integer"; "number"; "array"; "object"])) as [Hk|Hk].
  - rewrite !elem_of_cons, elem_of_nil in Hk.
    destruct Hk as [->|[->|[->|[->|[->|[]]]]]]; destruct v; simpl; split.
    all: try (intros [? ?]; try done; by constructor).
    all: intros Ht; inversion Ht; subst; try known_type; by split.
  - assert (instance_of v ty = true) as ->.
    { unfold instance_of. repeat case_match; try done; exfalso; apply Hk; rewrite !elem_of_cons; naive_solver. }
    split.
    + intros [? _]. constructor; [rewrite !elem_of_cons in *; naive_solver|done].
    + intros Ht. split; [|done]. inversion Ht; subst; try done; exfalso; apply Hk; rewrite !elem_of_cons; naive_solver.
Qed.

Lemma check_value_spec properties required schema k v :
  schema_wf properties required schema → k ∈ dom properties →
  (check_value properties k v = Ok tt ∧
     (∀ property ty, properties !! k = Some (JObj property) → property !! "type" = Some (JStr ty) →
        has_type v ty)) ∨
  (check_value properties k v = invalid ∧
     ∃ property ty, properties !! k = Some (JObj property) ∧ property !! "type" = Some (JStr ty) ∧
       ¬ has_type v ty).
Proof.
  intros Hwf [p Hp]%elem_of_dom. destruct (sw_types _ _ _ Hwf k p Hp) as (property & -> & Hty).
  unfold check_value. rewrite Hp. simpl. destruct Hty as [Hty|[ty Hty]]; rewrite Hty.
  { left. split; [done|]. intros. congruence. }
  pose proof (instance_of_spec v ty) as Hspec.
  destruct (is_bool v && negb (bool_decide (JStr ty = JStr "boolean"))) eqn:Hb; simpl.
  - right. split; [done|]. eexists property, ty. split_and!; [done..|]. intros Ht. by apply Hspec in Ht as [? _].
  - destruct (instance_of v ty) eqn:Hi.
    + left. split; [done|]. intros pr ty' Hpr Hty'. simplify_eq. by apply Hspec.
    + right. split; [done|]. eexists property, ty. split_and!; [done..|]. intros Ht.
      by apply Hspec in Ht as [_ ?].
Qed.

Lemma check_required_spec params (required : list string) :
  (check_required params (JStr <$> required) = Ok tt ∧ ∀ k, k ∈ required → is_Some (params !! k)) ∨
  (check_required params (JStr <$> required) = invalid ∧ ∃ k, k ∈ required ∧ params !! k = None).
Proof.
  induction required as [|k required IH]; [left; split; [done|set_solver]|]. rewrite fmap_cons. simpl.
  destruct (params !! k) as [v|] eqn:Hk.
  - rewrite bool_decide_true by (by eexists). destruct IH as [[-> IH]|[-> (k' & ? & ?)]].
    + left. split; [done|]. intros k' [->|?]%elem_of_cons; [by eexists|by apply IH].
    + right. split; [done|]. exists k'. split; [by right|done].
  - rewrite bool_decide_false by (by intros []). right. split; [done|]. exists k. split; [by left|done].
Qed.

Lemma check_values_spec properties required schema items :
  schema_wf properties required schema → (∀ k v, (k, v) ∈ items → k ∈ dom properties) →
  (check_values properties items = Ok tt ∧
     ∀ k v property ty, (k, v) ∈ items → properties !! k = Some (JObj property) →
       property !! "type" = Some (JStr ty) → has_type v ty) ∨
  (check_values properties items = invalid ∧
     ∃ k v property ty, (k, v) ∈ items ∧ properties !! k = Some (JObj property) ∧
       property !! "type" = Some (JStr ty) ∧ ¬ has_type v ty).
Proof.
  intros Hwf. induction items as [|[k v] items IH]; intros Hin; [left; split; [done|set_solver]|]. simpl.
  destruct (check_value_spec properties required schema k v Hwf) as [[-> Hv]|[-> (pr & ty & ?)]];
    [by apply (Hin k v); left|..].
  - destruct IH as [[-> IH]|[-> (k' & v' & pr & ty & ?)]]; [set_solver|..].
    + left. split; [done|]. intros k' v' pr ty [?|?]%elem_of_cons; simplify_eq; [by apply Hv|by eapply IH].
    + right. split; [done|]. exists k', v', pr, ty. set_solver.
  - right. split; [done|]. exists k, v, pr, ty. set_solver.
Qed.

(** C40: Accepted parameters are typed: against a schema of the subset, validation accepts
    exactly the parameters that use declared keys only, have every required key and give
    every value its declared type; it returns them unchanged and rejects all others with
    the one code for invalid parameters. *)
Theorem validated_params_typed (d : ToolDefinition) properties required params :
  schema_wf properties required (td_input_schema d) →
  (conforms properties required params ∧ validate_params d params = Ok params) ∨
  (¬ conforms properties required params ∧ validate_params d params = invalid).
Proof.
  intros Hwf. unfold validate_params. rewrite (sw_properties _ _ _ Hwf), (sw_required _ _ _ Hwf).
  destruct (bool_decide_reflect (dom params ⊆ dom properties)) as [Hdom|Hdom]; simpl.
  2: { right. split; [by intros [? _]|done]. }
  destruct (check_required_spec params required) as [[-> Hreq]|[-> (k & Hk & Hn)]].
  2: { right. split; [|done]. intros (_ & Hr & _). destruct (Hr k Hk). congruence. }
  destruct (check_values_spec properties required (td_input_schema d) (map_to_list params) Hwf)
    as [[-> Hv]|[-> (k & v & pr & ty & Hin & Hp & Ht & Hno)]].
  { intros k v Hin%elem_of_map_to_list. apply Hdom, elem_of_dom. by eexists. }
  - left. split; [|done]. split_and!; [done|done|]. intros k v pr ty Hk. apply Hv.
    by apply elem_of_map_to_list.
  - right. split; [|done]. intros (_ & _ & Hc). apply Hno. eapply Hc; [|done..].
    by apply elem_of_map_to_list.
Qed.

Definition typed_schema : jobject :=
  <["properties" := JObj {["n" := JObj {["type" := JStr "integer"]}]}]>
  {["required" := JArr [JStr "n"]]}.
Definition typed_tool : ToolDefinition :=
  {| td_tenant_id := 1; td_name := "count"; td_version := 1; td_description := "d";
     td_side_effect := READ_ONLY; td_input_schema := typed_schema; td_output_schema := ∅;
     td_scopes := []; td_timeout_seconds := 30; td_cost_per_call_micros := 0;
     td_data_classification := PUBLIC; td_supports_idempotency := false; td_source := DECLARED;
     td_mcp_server := None |}.

Lemma validated_params_typed_witness :
  validate_params typed_tool {["n" := JBool true]} = invalid.
Proof.
  destruct (validated_params_typed typed_tool {["n" := JObj {["type" := JStr "integer"]}]} ["n"]
    {["n" := JBool true]}) as [[Hc _]|[_ Hv]]; [| |exact Hv].
  - split; [reflexivity|reflexivity|].
    intros k v Hk. apply lookup_singleton_Some in Hk as [_ <-]. eexists. split; [reflexivity|].
    right. eexists. reflexivity.
  - exfalso. destruct Hc as (_ & _ & Hc).
    specialize (Hc "n" (JBool true) {["type" := JStr "integer"]} "integer" eq_refl eq_refl eq_refl).
    inversion Hc; subst. known_type.
Defined.
