(* ===== verification/ToolState.v ===== *)
(** * Tables and shared state of the tool subsystem

    The rows of migrations 0013 and 0014 (tool calls, approvals, checkpoints,
    reconciliations), the interface of an approval store with its two
    implementations, and the state the concurrent operations share. *)

From Stdlib Require Import Ascii.
From S2P Require Import Prelude PyNum Uuids Interleave ExecutionBus SampleCodec Sessions ToolRegistry.
Open Scope string_scope.
Open Scope list_scope.
Open Scope Z_scope.

(** ** Approval requests *)
Inductive ApprovalStatus := AP_PENDING | AP_APPROVED | AP_DENIED | AP_EXPIRED | AP_CONSUMED.
Inductive ApprovalDecision := APPROVE | DENY.

#[export] Instance ApprovalStatus_eq_dec : EqDecision ApprovalStatus.
Proof. solve_decision. Defined.
#[export] Instance ApprovalDecision_eq_dec : EqDecision ApprovalDecision.
Proof. solve_decision. Defined.

Record ApprovalRequest := {
  ar_approval_id : uuid;
  ar_tenant_id : uuid;
  ar_release_id : string;
  ar_tool_name : string;
  ar_tool_version : Z;
  ar_params_hash : string;
  ar_params : jobject;
  ar_side_effect : ToolSideEffect;
  ar_requested_by : string;
  ar_requester_role : string;
  ar_policy_version : string;
  ar_status : ApprovalStatus;
  ar_requested_at : instant;
  ar_expires_at : instant;
  ar_decided_by : option string;
  ar_decided_at : option instant;
}.

(** What a request is bound to; [find_open] and [consume] compare these. *)
Record Intent := {
  in_tool_name : string;
  in_tool_version : Z;
  in_params_hash : string;
  in_requested_by : string;
}.

#[export] Instance Intent_eq_dec : EqDecision Intent.
Proof. solve_decision. Defined.

Definition intent_of (r : ApprovalRequest) : Intent :=
  {| in_tool_name := ar_tool_name r; in_tool_version := ar_tool_version r;
     in_params_hash := ar_params_hash r; in_requested_by := ar_requested_by r |}.

(** [request.model_copy(update=...)] of the columns an update may touch. *)
Definition with_status (status : ApprovalStatus) (decided_by : option string)
    (decided_at : option instant) (r : ApprovalRequest) : ApprovalRequest :=
  {| ar_approval_id := ar_approval_id r; ar_tenant_id := ar_tenant_id r;
     ar_release_id := ar_release_id r; ar_tool_name := ar_tool_name r;
     ar_tool_version := ar_tool_version r; ar_params_hash := ar_params_hash r;
     ar_params := ar_params r; ar_side_effect := ar_side_effect r;
     ar_requested_by := ar_requested_by r; ar_requester_role := ar_requester_role r;
     ar_policy_version := ar_policy_version r; ar_status := status;
     ar_requested_at := ar_requested_at r; ar_expires_at := ar_expires_at r;
     ar_decided_by := decided_by; ar_decided_at := decided_at |}.

(** The update of [transition]: a missing decider or instant keeps the old one. *)
Definition moved (to_status : ApprovalStatus) (decided_by : option string)
    (decided_at : option instant) (r : ApprovalRequest) : ApprovalRequest :=
  with_status to_status
    (match decided_by with Some d => Some d | None => ar_decided_by r end)
    (match decided_at with Some t => Some t | None => ar_decided_at r end) r.

(** Two versions of one request: everything but the status and the decision agrees. *)
Definition same_request (r r' : ApprovalRequest) : Prop :=
  with_status AP_PENDING None None r = with_status AP_PENDING None None r'.

#[export] Instance same_request_equivalence : Equivalence same_request.
Proof. split; unfold same_request; repeat intro; congruence. Qed.

Lemma same_request_with_status r st d t : same_request r (with_status st d t r).
Proof. done. Qed.
Lemma same_request_moved r st d t : same_request r (moved st d t r).
Proof. done. Qed.

(** ** The interface of an approval store ([ApprovalStore])

    [approval s t i] is the request of tenant [t] with id [i] in the store;
    [store_ok] is what holds of every state the store can be in. *)
Class ApprovalStore (A : Type) := {
  store_upsert : txn_fault → ApprovalRequest → ST A ToolError unit;
  store_transition : txn_fault → uuid → uuid → list ApprovalStatus → ApprovalStatus →
    option string → option instant → ST A ToolError (option ApprovalRequest);
  store_get : txn_fault → uuid → uuid → ST A ToolError (option ApprovalRequest);
  store_find_open : txn_fault → uuid → Intent → list ApprovalStatus →
    ST A ToolError (option ApprovalRequest);
  approval : A → uuid → uuid → option ApprovalRequest;
  store_ok : A → Prop;
}.

Definition unchanged `{ApprovalStore A} (s s' : A) : Prop :=
  ∀ t i, approval s' t i = approval s t i.
Definition updated `{ApprovalStore A} (t i : uuid) (r : ApprovalRequest) (s s' : A) : Prop :=
  approval s' t i = Some r ∧ ∀ t' i', (t', i') ≠ (t, i) → approval s' t' i' = approval s t' i'.

Lemma nothing_stored `{ApprovalStore A} (s : A) (res : outcome ToolError (option ApprovalRequest)) (ok P : Prop) :
  ok → (∀ r', res ≠ Ok (Some r')) → ok ∧ (unchanged s s ∧ (∀ r', res ≠ Ok (Some r')) ∨ P).
Proof. intros. split; [done|]. left. split; [by intros ??|done]. Qed.

(** What a store promises to the service.  An update that a fault interrupts has
    taken effect or has not; a read never changes anything. *)
Class ApprovalStoreLaws (A : Type) `{!ApprovalStore A} := {
  approval_key (s : A) t i r :
    store_ok s → approval s t i = Some r → ar_tenant_id r = t ∧ ar_approval_id r = i;
  upsert_law fault r (s : A) res s' :
    store_upsert fault r s = (res, s') → store_ok s →
    (∀ t', t' ≠ ar_tenant_id r → approval s t' (ar_approval_id r) = None) →
    (∀ r0, approval s (ar_tenant_id r) (ar_approval_id r) = Some r0 → same_request r0 r) →
    store_ok s' ∧
    (unchanged s s' ∧ (∃ e, res = Raise e) ∨
     updated (ar_tenant_id r) (ar_approval_id r) r s s');
  transition_law fault t i from to d at' (s : A) res s' :
    store_transition fault t i from to d at' s = (res, s') → store_ok s →
    store_ok s' ∧
    (unchanged s s' ∧ (∀ r', res ≠ Ok (Some r')) ∨
     ∃ r, approval s t i = Some r ∧ ar_status r ∈ from ∧
       updated t i (moved to d at' r) s s' ∧ ∀ a, res = Ok a → a = Some (moved to d at' r));
  get_law fault t i (s : A) res s' :
    store_get fault t i s = (res, s') → store_ok s →
    s' = s ∧ ∀ a, res = Ok a → a = approval s t i;
  find_open_law fault t intent statuses (s : A) res s' :
    store_find_open fault t intent statuses s = (res, s') → store_ok s →
    s' = s ∧
    (∀ r, res = Ok (Some r) →
       approval s t (ar_approval_id r) = Some r ∧ intent_of r = intent ∧ ar_status r ∈ statuses) ∧
    (res = Ok None → ∀ i r, approval s t i = Some r → intent_of r = intent → ar_status r ∉ statuses);
}.

(** ** The in-memory store ([MemoryApprovalStore])

    A dictionary by approval id, in insertion order; an update keeps the place. *)
Module MemoryApprovals.
Abbreviation requests := (list ApprovalRequest).

Definition dict_get (i : uuid) (s : requests) : option ApprovalRequest :=
  head (filter (λ r, ar_approval_id r = i) s).
Fixpoint dict_set (r : ApprovalRequest) (s : requests) : requests :=
  match s with
  | [] => [r]
  | r0 :: s' => if bool_decide (ar_approval_id r0 = ar_approval_id r) then r :: s' else r0 :: dict_set r s'
  end.

Definition upsert (r : ApprovalRequest) : ST requests ToolError unit := modify (dict_set r).

Definition transition (tenant_id approval_id : uuid) (from_statuses : list ApprovalStatus)
    (to_status : ApprovalStatus) (decided_by : option string) (decided_at : option instant)
    : ST requests ToolError (option ApprovalRequest) :=
  request ← gets (dict_get approval_id);
  match request with
  | None => mret None
  | Some request =>
      if bool_decide (ar_tenant_id request = tenant_id) then
        if bool_decide (ar_status request ∈ from_statuses) then
          let transitioned := moved to_status decided_by decided_at request in
          _ ← modify (dict_set transitioned);
          mret (Some transitioned)
        else mret None
      else mret None
  end.

Definition get (tenant_id approval_id : uuid) : ST requests ToolError (option ApprovalRequest) :=
  request ← gets (dict_get approval_id);
  match request with
  | None => mret None
  | Some request => if bool_decide (ar_tenant_id request = tenant_id) then mret (Some request) else mret None
  end.

Definition matches (tenant_id : uuid) (intent : Intent) (statuses : list ApprovalStatus)
    (r : ApprovalRequest) : bool :=
  bool_decide (ar_tenant_id r = tenant_id) && bool_decide (intent_of r = intent)
  && bool_decide (ar_status r ∈ statuses).

(** The first match in dictionary order. *)
Definition find_open (tenant_id : uuid) (intent : Intent) (statuses : list ApprovalStatus)
    : ST requests ToolError (option ApprovalRequest) :=
  gets (λ s, head (filter (λ r, matches tenant_id intent statuses r = true) s)).
End MemoryApprovals.

(** ** The store over [tenant.tool_approval] ([DatabaseApprovalStore]) *)
Module DatabaseApprovals.
Abbreviation table := (gmap (uuid * uuid) ApprovalRequest).

(** [CHECK (params_hash ~ '^[0-9a-f]{64}$')] *)
Definition hex_char (c : ascii) : bool :=
  (48 <=? nat_of_ascii c)%nat && (nat_of_ascii c <=? 57)%nat
  || (97 <=? nat_of_ascii c)%nat && (nat_of_ascii c <=? 102)%nat.
Definition hash_check (h : string) : bool := all_chars hex_char h && (String.length h =? 64)%nat.

Definition row_check (r : ApprovalRequest) : bool :=
  (1 <=? ar_tool_version r) && hash_check (ar_params_hash r)
  && length_between 1 256 (ar_requested_by r) && length_between 1 64 (ar_requester_role r).

(** [INSERT ... ON CONFLICT (tenant_id, approval_id) DO UPDATE SET status, decided_by,
    decided_at]. *)
Definition upsert (fault : txn_fault) (r : ApprovalRequest) : ST table ToolError unit :=
  transaction fault TSql
    (_ ← ensure (row_check r) TSql;
     existing ← gets (λ s : table, s !! (ar_tenant_id r, ar_approval_id r));
     let stored :=
       match existing with
       | None => r
       | Some r0 => with_status (ar_status r) (ar_decided_by r) (ar_decided_at r) r0
       end in
     modify <[(ar_tenant_id r, ar_approval_id r) := stored]>).

(** [UPDATE ... WHERE approval_id=$2 AND status=ANY($1) RETURNING *] *)
Definition transition (fault : txn_fault) (tenant_id approval_id : uuid)
    (from_statuses : list ApprovalStatus) (to_status : ApprovalStatus)
    (decided_by : option string) (decided_at : option instant)
    : ST table ToolError (option ApprovalRequest) :=
  transaction fault TSql
    (row ← gets (λ s : table, s !! (tenant_id, approval_id));
     match row with
     | Some r =>
         if bool_decide (ar_status r ∈ from_statuses) then
           let r' := moved to_status decided_by decided_at r in
           _ ← modify <[(tenant_id, approval_id) := r']>;
           mret (Some r')
         else mret None
     | None => mret None
     end).

Definition get (fault : txn_fault) (tenant_id approval_id : uuid)
    : ST table ToolError (option ApprovalRequest) :=
  transaction fault TSql (gets (λ s : table, s !! (tenant_id, approval_id))).

(** [ORDER BY requested_at DESC LIMIT 1] *)
Definition find_open (fault : txn_fault) (tenant_id : uuid) (intent : Intent)
    (statuses : list ApprovalStatus) : ST table ToolError (option ApprovalRequest) :=
  transaction fault TSql (gets (λ s : table,
    head (sort_on (λ r, - ar_requested_at r)
      (filter (λ r, MemoryApprovals.matches tenant_id intent statuses r = true) (map_to_list s).*2)))).

(** [list]: newest first, optionally of one status. *)
Definition list_approvals (fault : txn_fault) (tenant_id : uuid) (status : option ApprovalStatus)
    (limit : nat) : ST table ToolError (list ApprovalRequest) :=
  transaction fault TSql (gets (λ s : table,
    take limit (sort_on (λ r, - ar_requested_at r)
      (filter (λ r, bool_decide (ar_tenant_id r = tenant_id) &&
                    match status with Some st => bool_decide (ar_status r = st) | None => true end = true)
        (map_to_list s).*2)))).
End DatabaseApprovals.

(** ** The two stores implement the interface *)
Definition memory_approval (s : MemoryApprovals.requests) (t i : uuid) : option ApprovalRequest :=
  match MemoryApprovals.dict_get i s with
  | Some r => if bool_decide (ar_tenant_id r = t) then Some r else None
  | None => None
  end.

#[export] Instance memory_store : ApprovalStore MemoryApprovals.requests := {|
  store_upsert _ := MemoryApprovals.upsert;
  store_transition _ := MemoryApprovals.transition;
  store_get _ := MemoryApprovals.get;
  store_find_open _ := MemoryApprovals.find_open;
  approval := memory_approval;
  store_ok s := NoDup (ar_approval_id <$> s);
|}.

#[export] Instance database_store : ApprovalStore DatabaseApprovals.table := {|
  store_upsert := DatabaseApprovals.upsert;
  store_transition := DatabaseApprovals.transition;
  store_get := DatabaseApprovals.get;
  store_find_open := DatabaseApprovals.find_open;
  approval s t i := s !! (t, i);
  store_ok s := map_Forall (λ k r, k = (ar_tenant_id r, ar_approval_id r)) s;
|}.

Lemma head_select_Some {A} (f : A → bool) l x :
  head (filter (λ y, f y = true) l) = Some x → x ∈ l ∧ f x = true.
Proof.
  intros H. assert (x ∈ filter (λ y, f y = true) l) as [? ?]%list_elem_of_filter; [|done].
  destruct (filter _ l) as [|y l']; [done|]. simplify_eq/=. by left.
Qed.

Lemma head_select_None {A} (f : A → bool) l x :
  head (filter (λ y, f y = true) l) = None → x ∈ l → f x = false.
Proof.
  intros H Hx. destruct (f x) eqn:Hf; [|done]. exfalso.
  assert (x ∈ filter (λ y, f y = true) l) as Hin by by apply list_elem_of_filter.
  apply head_None in H. rewrite H in Hin. by apply not_elem_of_nil in Hin.
Qed.

Lemma matches_true t intent statuses r :
  MemoryApprovals.matches t intent statuses r = true ↔
  ar_tenant_id r = t ∧ intent_of r = intent ∧ ar_status r ∈ statuses.
Proof. unfold MemoryApprovals.matches. rewrite !andb_true_iff, !bool_decide_eq_true. tauto. Qed.

Section MemoryLaws.
Import MemoryApprovals.

Lemma request_get_elem i s r : dict_get i s = Some r → r ∈ s ∧ ar_approval_id r = i.
Proof.
  unfold dict_get. intros H. assert (r ∈ filter (λ r, ar_approval_id r = i) s) as Hin.
  { destruct (filter _ s); [done|]. simplify_eq/=. by left. }
  apply list_elem_of_filter in Hin. tauto.
Qed.

Lemma dict_get_unique i s r :
  NoDup (ar_approval_id <$> s) → r ∈ s → ar_approval_id r = i → dict_get i s = Some r.
Proof.
  intros Hnd Hr Hi. destruct (dict_get i s) as [r'|] eqn:H.
  - apply request_get_elem in H as [Hr' Hi']. f_equal.
    eapply NoDup_fmap_elem_inj; [exact Hnd|done..|congruence].
  - apply head_None in H. exfalso. apply (not_elem_of_nil r). rewrite <- H.
    by apply list_elem_of_filter.
Qed.

Lemma request_get_set i r s :
  dict_get i (dict_set r s) = if bool_decide (ar_approval_id r = i) then Some r else dict_get i s.
Proof.
  unfold dict_get. induction s as [|r0 s IH]; cbn [dict_set].
  - rewrite filter_cons, filter_nil. by case_decide; case_bool_decide.
  - destruct (bool_decide (ar_approval_id r0 = ar_approval_id r)) eqn:H0; rewrite !filter_cons.
    + apply bool_decide_eq_true in H0. rewrite H0. repeat case_decide; case_bool_decide; done.
    + apply bool_decide_eq_false in H0. destruct (decide (ar_approval_id r0 = i)); [|exact IH].
      by rewrite bool_decide_eq_false_2 by congruence.
Qed.

Lemma dict_set_ids r s :
  ar_approval_id <$> dict_set r s =
    if bool_decide (ar_approval_id r ∈ (ar_approval_id <$> s)) then ar_approval_id <$> s
    else (ar_approval_id <$> s) ++ [ar_approval_id r].
Proof.
  induction s as [|r0 s IH]; [done|]. cbn [dict_set].
  destruct (decide (ar_approval_id r0 = ar_approval_id r)) as [H|H].
  - rewrite !bool_decide_eq_true_2; [simpl; by rewrite H|simpl; rewrite H; by left|done].
  - rewrite (bool_decide_eq_false_2 _ H), !fmap_cons, IH.
    rewrite (bool_decide_ext (_ ∈ _ :: _) (ar_approval_id r ∈ (ar_approval_id <$> s)));
      [by case_bool_decide|]. rewrite elem_of_cons. naive_solver.
Qed.

Lemma dict_set_ok r s : NoDup (ar_approval_id <$> s) → NoDup (ar_approval_id <$> dict_set r s).
Proof.
  intros Hnd. rewrite dict_set_ids. case_bool_decide; [done|]. apply NoDup_app.
  split; [done|]. split; [set_solver|apply NoDup_singleton].
Qed.

Lemma memory_approval_set t i r s :
  memory_approval (dict_set r s) t i =
    if bool_decide (ar_approval_id r = i)
    then (if bool_decide (ar_tenant_id r = t) then Some r else None) else memory_approval s t i.
Proof. unfold memory_approval. rewrite request_get_set. by case_bool_decide. Qed.

(** Storing a request whose id no other tenant uses updates its entry only. *)
Lemma memory_updated r s :
  (∀ t', t' ≠ ar_tenant_id r → memory_approval s t' (ar_approval_id r) = None) →
  updated (A := requests) (ar_tenant_id r) (ar_approval_id r) r s (dict_set r s).
Proof.
  intros Hother. split; [simpl; by rewrite memory_approval_set, !bool_decide_eq_true_2|].
  intros t i Hne. simpl. rewrite memory_approval_set. case_bool_decide as Hi; [|done]. subst i.
  case_bool_decide; [congruence|]. by rewrite Hother.
Qed.

Lemma memory_approval_Some s t i r :
  memory_approval s t i = Some r ↔ dict_get i s = Some r ∧ ar_tenant_id r = t.
Proof.
  unfold memory_approval. destruct (dict_get i s) as [r'|]; [case_bool_decide|]; naive_solver.
Qed.

#[export] Instance memory_store_laws : ApprovalStoreLaws requests.
Proof.
  split; simpl.
  - intros s t i r _ [[_ ?]%request_get_elem ?]%memory_approval_Some. done.
  - intros _ r s res s' [= <- <-] Hok Hother _. split; [by apply dict_set_ok|]. right.
    by apply memory_updated.
  - intros _ t i from to d at' s res s' Hrun Hok. unfold transition, mbind, ST_mbind, mret, ST_mret, gets, modify in Hrun.
    destruct (dict_get i s) as [r|] eqn:Hget; [|simplify_eq; by apply (nothing_stored (A := requests))].
    destruct (decide (ar_tenant_id r = t)) as [Ht|Ht];
      [rewrite bool_decide_eq_true_2 in Hrun by done|rewrite bool_decide_eq_false_2 in Hrun by done;
       simplify_eq; by apply (nothing_stored (A := requests))].
    case_bool_decide as Hst; simplify_eq; [|by apply (nothing_stored (A := requests))].
    split; [by apply dict_set_ok|]. right. exists r.
    pose proof (request_get_elem _ _ _ Hget) as [_ Hi].
    split; [by apply memory_approval_Some|]. split; [done|]. split; [|naive_solver].
    rewrite <- Hi at 1. apply (memory_updated (moved to d at' r)). simpl. intros t' Ht'. unfold memory_approval.
    rewrite Hi, Hget. by rewrite bool_decide_eq_false_2.
  - intros _ t i s res s' Hrun Hok. unfold get, mbind, ST_mbind, mret, ST_mret, gets in Hrun. unfold memory_approval.
    destruct (dict_get i s); [case_bool_decide|]; simplify_eq; naive_solver.
  - intros _ t intent statuses s res s' [= <- <-] Hok. split; [done|]. split.
    + intros r [= [Hin (Ht & ? & ?)%matches_true]%head_select_Some].
      split; [|done]. apply memory_approval_Some. split; [by apply dict_get_unique|done].
    + intros [= Hnone] i r [[Hin _]%request_get_elem Ht]%memory_approval_Some Hint Hst.
      apply (head_select_None _ _ _ Hnone) in Hin.
      assert (matches t intent statuses r = true) by by apply matches_true. congruence.
Qed.
End MemoryLaws.

Section DatabaseLaws.
Import DatabaseApprovals.

Lemma table_insert_ok (s : table) k r :
  store_ok s → k = (ar_tenant_id r, ar_approval_id r) → store_ok (<[k := r]> s).
Proof. intros Hok ->. by apply map_Forall_insert_2. Qed.

Lemma table_updated (s : table) t i r : updated t i r s (<[(t, i) := r]> s).
Proof. split; simpl; [by rewrite lookup_insert_eq|]. intros. by rewrite lookup_insert_ne. Qed.

Lemma transaction_cases {S E A} fault (lost : E) (m : ST S E A) s res s' :
  transaction fault lost m s = (res, s') →
  s' = s ∧ (∃ e, res = Raise e) ∨ ∃ a, m s = (Ok a, s') ∧ (res = Ok a ∨ res = Raise lost).
Proof.
  unfold transaction. destruct (m s) as [[a|e] s1]; [destruct fault|]; intros [= <- <-]; eauto 6.
Qed.

Lemma same_request_restored r0 r :
  same_request r0 r → with_status (ar_status r) (ar_decided_by r) (ar_decided_at r) r0 = r.
Proof. unfold same_request, with_status. destruct r, r0; simpl. intros [=]. by subst. Qed.

#[export] Instance database_store_laws : ApprovalStoreLaws table.
Proof.
  split; simpl.
  - intros s t i r Hok H. apply Hok in H. naive_solver.
  - intros fault r s res s' [[-> ?]|(a & Hrun & _)]%transaction_cases Hok _ Hsame;
      [by split; [|left]|]. run_inv. cbv zeta in Hrun. run_inv.
    destruct (s !! _) as [r0|] eqn:Hr0; simpl; [rewrite (same_request_restored r0 r) by eauto|];
      (split; [by apply table_insert_ok|right; apply table_updated]).
  - intros fault t i from to d at' s res s' [[-> [e ->]]|(a & Hrun & Hres)]%transaction_cases Hok;
      [by apply (nothing_stored (A := table))|]. run_inv.
    destruct (s !! (t, i)) as [r|] eqn:Hr.
    + case_bool_decide; cbv zeta in Hrun; run_inv; [|apply (nothing_stored (A := table)); [done|naive_solver]].
      split; [apply table_insert_ok; [done|apply (Hok _ _ Hr)]|]. right. exists r.
      split; [done|]. split; [done|]. split; [apply table_updated|naive_solver].
    + run_inv. apply (nothing_stored (A := table)); [done|naive_solver].
  - intros fault t i s res s' [[-> [e ->]]|(a & Hrun & Hres)]%transaction_cases Hok; [done|].
    run_inv. naive_solver.
  - intros fault t intent statuses s res s' [[-> [e ->]]|(a & Hrun & Hres)]%transaction_cases Hok; [done|].
    run_inv. split; [done|]. set (l := filter _ _) in Hres.
    assert (∀ r, r ∈ l ↔ ar_tenant_id r = t ∧ intent_of r = intent ∧ ar_status r ∈ statuses ∧
              s !! (t, ar_approval_id r) = Some r) as Hl.
    { intros r. subst l. rewrite list_elem_of_filter, matches_true, list_elem_of_fmap. split.
      - intros [(? & ? & ?) ([k r'] & -> & Hin%elem_of_map_to_list)]. simpl in *.
        pose proof (Hok _ _ Hin) as ->. naive_solver.
      - intros (? & ? & ? & Hin). split; [done|]. eexists (_, r). by rewrite elem_of_map_to_list. }
    split.
    + intros r ->. destruct Hres as [[= Hres]|]; [|done]. symmetry in Hres.
      assert (r ∈ l) as Hin%Hl; [|naive_solver]. rewrite <- (sort_on_perm (λ r, - ar_requested_at r)).
      destruct (sort_on _ l); simplify_eq/=. by left.
    + intros ->. destruct Hres as [[= Hres]|]; [|done]. symmetry in Hres. apply head_None in Hres.
      intros i r Hr Hint Hst. pose proof (Hok _ _ Hr) as [= -> ->].
      assert (r ∈ l) as Hin by by apply Hl. rewrite <- (sort_on_perm (λ r, - ar_requested_at r)) in Hin.
      rewrite Hres in Hin. by apply not_elem_of_nil in Hin.
Qed.
End DatabaseLaws.
