(* ===== verification/Approvals.v ===== *)
(** * The approval service (trpc_service/tool/approvals.py)

    The state the operations of the tool subsystem share, and [ApprovalService]
    over any approval store.  An operation is a program of atomic steps, one per
    transaction of the store and one per look at the clock; other operations run
    in between. *)

From S2P Require Import Prelude PyNum Uuids Interleave ExecutionBus SampleCodec Sessions ToolRegistry ToolState.
Open Scope string_scope.
Open Scope list_scope.
Open Scope Z_scope.

(** ** Tool calls, checkpoints and reconciliations *)
Inductive ToolInvocationStatus := TI_SUCCEEDED | TI_FAILED | TI_OUTCOME_UNKNOWN | TI_BLOCKED.
#[export] Instance ToolInvocationStatus_eq_dec : EqDecision ToolInvocationStatus.
Proof. solve_decision. Defined.

Record ToolInvocationRecord := {
  tr_call_id : uuid;
  tr_tenant_id : uuid;
  tr_tool_name : string;
  tr_tool_version : option Z;
  tr_side_effect : option string;
  tr_params : jobject;
  tr_params_hash : string;
  tr_idempotency_key : option string;
  tr_status : ToolInvocationStatus;
  tr_attempts : nat;
  tr_cost_micros : Z;
  tr_requested_by : string;
  tr_execution_id : option string;
  tr_session_id : option string;
  tr_release_id : option string;
  tr_error_code : option string;
  tr_result : option jobject;
  tr_data_classification : option DataClassification;
}.

Inductive CheckpointStatus := WAITING_APPROVAL | RESUMED | ABANDONED.
#[export] Instance CheckpointStatus_eq_dec : EqDecision CheckpointStatus.
Proof. solve_decision. Defined.

Record ExecutionCheckpoint := {
  cp_checkpoint_id : uuid;
  cp_tenant_id : uuid;
  cp_execution_id : string;
  cp_session_id : string;
  cp_release_id : string;
  cp_approval_id : uuid;
  cp_tool_name : string;
  cp_tool_version : Z;
  cp_params_hash : string;
  cp_requested_by : string;
  cp_parked_by : string;
  cp_status : CheckpointStatus;
  cp_created_at : option instant;
  cp_resumed_by : option string;
  cp_resumed_at : option instant;
}.

Inductive ReconciliationDecision := CONFIRMED_EXECUTED | CONFIRMED_NOT_EXECUTED.

Record Reconciliation := {
  rc_call_id : uuid;
  rc_tenant_id : uuid;
  rc_decision : ReconciliationDecision;
  rc_resolved_by : string;
  rc_resolved_at : instant;
  rc_note : option string;
}.

(** ** The shared state

    [ts_backend] is what the tool backends have received, in order; [ts_grants]
    lists the consumptions of approvals.  Both are annotated with the operation
    that caused them ([nat], one number per operation in flight) for the sake of
    the theorems; no operation reads them. *)
Record BackendCall := {
  bc_operation : nat;
  bc_definition : ToolDefinition;
  bc_params : jobject;
  bc_requested_by : string;
  bc_grant : option (uuid * uuid);
}.

Record Grant := { gt_operation : nat; gt_approval : uuid * uuid }.

Record ToolState (A : Type) := {
  ts_definitions : definitions;
  ts_approvals : A;
  ts_calls : list ToolInvocationRecord;
  ts_checkpoints : gmap (uuid * uuid) ExecutionCheckpoint;
  ts_reconciliations : gmap (uuid * uuid) Reconciliation;
  ts_exec : ExecState;
  ts_backend : list BackendCall;
  ts_grants : list Grant;
  ts_next_id : nat;
  ts_now : instant;
}.
Arguments ts_definitions {_} _.
Arguments ts_approvals {_} _.
Arguments ts_calls {_} _.
Arguments ts_checkpoints {_} _.
Arguments ts_reconciliations {_} _.
Arguments ts_exec {_} _.
Arguments ts_backend {_} _.
Arguments ts_grants {_} _.
Arguments ts_next_id {_} _.
Arguments ts_now {_} _.

Section Setters.
Context {A : Type}.
Implicit Types s : ToolState A.

Definition set_definitions (d : definitions) s : ToolState A :=
  {| ts_definitions := d; ts_approvals := ts_approvals s; ts_calls := ts_calls s;
     ts_checkpoints := ts_checkpoints s; ts_reconciliations := ts_reconciliations s;
     ts_exec := ts_exec s; ts_backend := ts_backend s; ts_grants := ts_grants s;
     ts_next_id := ts_next_id s; ts_now := ts_now s |}.
Definition set_approvals (a : A) s : ToolState A :=
  {| ts_definitions := ts_definitions s; ts_approvals := a; ts_calls := ts_calls s;
     ts_checkpoints := ts_checkpoints s; ts_reconciliations := ts_reconciliations s;
     ts_exec := ts_exec s; ts_backend := ts_backend s; ts_grants := ts_grants s;
     ts_next_id := ts_next_id s; ts_now := ts_now s |}.
Definition set_calls (c : list ToolInvocationRecord) s : ToolState A :=
  {| ts_definitions := ts_definitions s; ts_approvals := ts_approvals s; ts_calls := c;
     ts_checkpoints := ts_checkpoints s; ts_reconciliations := ts_reconciliations s;
     ts_exec := ts_exec s; ts_backend := ts_backend s; ts_grants := ts_grants s;
     ts_next_id := ts_next_id s; ts_now := ts_now s |}.
Definition set_checkpoints (f : gmap (uuid * uuid) ExecutionCheckpoint → gmap (uuid * uuid) ExecutionCheckpoint)
    s : ToolState A :=
  {| ts_definitions := ts_definitions s; ts_approvals := ts_approvals s; ts_calls := ts_calls s;
     ts_checkpoints := f (ts_checkpoints s); ts_reconciliations := ts_reconciliations s;
     ts_exec := ts_exec s; ts_backend := ts_backend s; ts_grants := ts_grants s;
     ts_next_id := ts_next_id s; ts_now := ts_now s |}.
Definition set_reconciliations (f : gmap (uuid * uuid) Reconciliation → gmap (uuid * uuid) Reconciliation)
    s : ToolState A :=
  {| ts_definitions := ts_definitions s; ts_approvals := ts_approvals s; ts_calls := ts_calls s;
     ts_checkpoints := ts_checkpoints s; ts_reconciliations := f (ts_reconciliations s);
     ts_exec := ts_exec s; ts_backend := ts_backend s; ts_grants := ts_grants s;
     ts_next_id := ts_next_id s; ts_now := ts_now s |}.
Definition set_exec (e : ExecState) s : ToolState A :=
  {| ts_definitions := ts_definitions s; ts_approvals := ts_approvals s; ts_calls := ts_calls s;
     ts_checkpoints := ts_checkpoints s; ts_reconciliations := ts_reconciliations s;
     ts_exec := e; ts_backend := ts_backend s; ts_grants := ts_grants s;
     ts_next_id := ts_next_id s; ts_now := ts_now s |}.
Definition add_backend (b : BackendCall) s : ToolState A :=
  {| ts_definitions := ts_definitions s; ts_approvals := ts_approvals s; ts_calls := ts_calls s;
     ts_checkpoints := ts_checkpoints s; ts_reconciliations := ts_reconciliations s;
     ts_exec := ts_exec s; ts_backend := ts_backend s ++ [b]; ts_grants := ts_grants s;
     ts_next_id := ts_next_id s; ts_now := ts_now s |}.
Definition add_grants (g : list Grant) s : ToolState A :=
  {| ts_definitions := ts_definitions s; ts_approvals := ts_approvals s; ts_calls := ts_calls s;
     ts_checkpoints := ts_checkpoints s; ts_reconciliations := ts_reconciliations s;
     ts_exec := ts_exec s; ts_backend := ts_backend s; ts_grants := ts_grants s ++ g;
     ts_next_id := ts_next_id s; ts_now := ts_now s |}.
Definition set_tool_ids (n : nat) s : ToolState A :=
  {| ts_definitions := ts_definitions s; ts_approvals := ts_approvals s; ts_calls := ts_calls s;
     ts_checkpoints := ts_checkpoints s; ts_reconciliations := ts_reconciliations s;
     ts_exec := ts_exec s; ts_backend := ts_backend s; ts_grants := ts_grants s;
     ts_next_id := n; ts_now := ts_now s |}.
Definition set_tool_now (t : instant) s : ToolState A :=
  {| ts_definitions := ts_definitions s; ts_approvals := ts_approvals s; ts_calls := ts_calls s;
     ts_checkpoints := ts_checkpoints s; ts_reconciliations := ts_reconciliations s;
     ts_exec := ts_exec s; ts_backend := ts_backend s; ts_grants := ts_grants s;
     ts_next_id := ts_next_id s; ts_now := t |}.

(** An operation of the store, and one of the session lease manager, on the shared
    state. *)
Definition on_approvals {B} (m : ST A ToolError B) : ST (ToolState A) ToolError B := λ s,
  let '(res, a) := m (ts_approvals s) in (res, set_approvals a s).
Definition on_exec {B} (m : ES B) : ST (ToolState A) ToolError B := λ s,
  let '(res, e) := m (ts_exec s) in
  (match res with Ok b => Ok b | Raise err => Raise (TExec err) end, set_exec e s).
End Setters.

#[export] Instance tool_ids {A} : HasIds (ToolState A) :=
  {| next_id := ts_next_id; set_next_id := set_tool_ids |}.

Abbreviation TP A B := (PM (ToolState A) ToolError B).

(** [datetime.now(UTC)] *)
Definition clock {A} : TP A instant := atomically (gets ts_now).

(** ** Constants *)
Definition DEFAULT_APPROVAL_TTL_SECONDS : Z := 900.
Definition APPROVER_ROLES : list string := ["TENANT_ADMIN"].
Definition SELF_SERVICE_ROLES : list string := ["TENANT_ADMIN"; "AGENT_DEVELOPER"].

(** ** The service *)
Section Service.
  Context {A : Type} `{!ApprovalStore A} (uuid_at : nat → uuid).
  (** The operation in flight and the faults its transactions meet. *)
  Context (operation : nat) (fault : nat → txn_fault).

(** [store.transition], with the consumption it causes noted. *)
Definition service_transition (f : txn_fault) (tenant_id approval_id : uuid)
    (from_statuses : list ApprovalStatus) (to_status : ApprovalStatus)
    (decided_by : option string) (decided_at : option instant)
    : ST (ToolState A) ToolError (option ApprovalRequest) := λ s,
  let '(res, a) := store_transition f tenant_id approval_id from_statuses to_status
                     decided_by decided_at (ts_approvals s) in
  let granted :=
    match approval (ts_approvals s) tenant_id approval_id, approval a tenant_id approval_id with
    | Some r, Some r' =>
        if bool_decide (ar_status r ≠ AP_CONSUMED) && bool_decide (ar_status r' = AP_CONSUMED)
        then [{| gt_operation := operation; gt_approval := (tenant_id, approval_id) |}] else []
    | _, _ => []
    end in
  (res, add_grants granted (set_approvals a s)).

(** [create]: the identifier is drawn in the step that stores it; nothing depends on
    it before. *)
Definition create (ttl_seconds : Z) (tenant_id : uuid) (release_id : string) (intent : Intent)
    (params : jobject) (side_effect : ToolSideEffect) (requester_role policy_version : string)
    : TP A ApprovalRequest :=
  now <-- clock;
  atomically (
    approval_id ← draw_id uuid_at;
    let request :=
      {| ar_approval_id := approval_id; ar_tenant_id := tenant_id; ar_release_id := release_id;
         ar_tool_name := in_tool_name intent; ar_tool_version := in_tool_version intent;
         ar_params_hash := in_params_hash intent; ar_params := params;
         ar_side_effect := side_effect; ar_requested_by := in_requested_by intent;
         ar_requester_role := requester_role; ar_policy_version := policy_version;
         ar_status := AP_PENDING; ar_requested_at := now;
         ar_expires_at := now + ttl_seconds * 1000000;
         ar_decided_by := None; ar_decided_at := None |} in
    _ ← on_approvals (store_upsert (fault 0%nat) request);
    mret request).

(** [get]: an open request past its deadline is moved to EXPIRED first. *)
Definition get_request (tenant_id approval_id : uuid) : TP A ApprovalRequest :=
  found <-- atomically (on_approvals (store_get (fault 1%nat) tenant_id approval_id));
  match found with
  | None => pm_raise (ApprovalError "APPROVAL_NOT_FOUND")
  | Some request =>
      if bool_decide (ar_status request ∈ [AP_PENDING; AP_APPROVED]) then
        now <-- clock;
        if ar_expires_at request <=? now then
          expired <-- atomically (service_transition (fault 2%nat) tenant_id approval_id
                        [AP_PENDING; AP_APPROVED] AP_EXPIRED None None);
          match expired with
          | Some expired => pm_ret expired
          | None => pm_ret request
          end
        else pm_ret request
      else pm_ret request
  end.

(** The separation of duties of [decide]: the error code, if any. *)
Definition decision_refused (request : ApprovalRequest) (decided_by decided_by_role : string)
    : option string :=
  if bool_decide (ar_side_effect request = HIGH_RISK) then
    if bool_decide (decided_by = ar_requested_by request) then Some "APPROVAL_SELF_DENIED"
    else if bool_decide (decided_by_role ∈ APPROVER_ROLES) then None
    else Some "APPROVER_ROLE_REQUIRED"
  else if bool_decide (decided_by_role ∈ SELF_SERVICE_ROLES ++ APPROVER_ROLES) then None
  else Some "APPROVER_ROLE_REQUIRED".

Definition decide_request (tenant_id approval_id : uuid) (decision : ApprovalDecision)
    (decided_by decided_by_role : string) : TP A ApprovalRequest :=
  request <-- get_request tenant_id approval_id;
  if bool_decide (ar_status request = AP_EXPIRED) then pm_raise (ApprovalError "APPROVAL_EXPIRED")
  else if bool_decide (ar_status request ≠ AP_PENDING) then
    pm_raise (ApprovalError "APPROVAL_ALREADY_DECIDED")
  else
    match decision_refused request decided_by decided_by_role with
    | Some code => pm_raise (ApprovalError code)
    | None =>
        now <-- clock;
        decided <-- atomically (service_transition (fault 3%nat) tenant_id approval_id [AP_PENDING]
                      (match decision with APPROVE => AP_APPROVED | DENY => AP_DENIED end)
                      (Some decided_by) (Some now));
        match decided with
        | Some decided => pm_ret decided
        | None => pm_raise (ApprovalError "APPROVAL_ALREADY_DECIDED")
        end
    end.

Definition consume (tenant_id approval_id : uuid) (intent : Intent) (release_id : string)
    : TP A ApprovalRequest :=
  request <-- get_request tenant_id approval_id;
  if bool_decide (ar_status request = AP_EXPIRED) then pm_raise (ApprovalError "APPROVAL_EXPIRED")
  else if bool_decide (ar_status request ≠ AP_APPROVED) then
    pm_raise (ApprovalError "APPROVAL_NOT_APPROVED")
  else if bool_decide (intent_of request = intent) && bool_decide (ar_release_id request = release_id)
  then
    consumed <-- atomically (service_transition (fault 4%nat) tenant_id approval_id [AP_APPROVED]
                   AP_CONSUMED None None);
    match consumed with
    | Some consumed => pm_ret consumed
    | None => pm_raise (ApprovalError "APPROVAL_NOT_APPROVED")
    end
  else pm_raise (ApprovalError "APPROVAL_BINDING_MISMATCH").

(** The shared body of [find_approved] and [find_pending]: an expired match is
    overwritten with an EXPIRED copy of what was read. *)
Definition find_unexpired (status : ApprovalStatus) (site : nat) (tenant_id : uuid)
    (intent : Intent) : TP A (option ApprovalRequest) :=
  found <-- atomically (on_approvals (store_find_open (fault site) tenant_id intent [status]));
  match found with
  | None => pm_ret None
  | Some request =>
      now <-- clock;
      if ar_expires_at request <=? now then
        _ <-- atomically (on_approvals (store_upsert (fault (site + 1)%nat)
                (with_status AP_EXPIRED (ar_decided_by request) (ar_decided_at request) request)));
        pm_ret None
      else pm_ret (Some request)
  end.

Definition find_approved (tenant_id : uuid) (intent : Intent) : TP A (option ApprovalRequest) :=
  find_unexpired AP_APPROVED 5%nat tenant_id intent.
Definition find_pending (tenant_id : uuid) (intent : Intent) : TP A (option ApprovalRequest) :=
  find_unexpired AP_PENDING 7%nat tenant_id intent.
End Service.
