(* ===== verification/ToolExecutor.v ===== *)
(** * Governed tool invocation (trpc_service/tool/executor.py, tool/sdk_bridge.py)

    [ToolInvocationService.invoke] with the approval gate, the idempotent replay,
    the retry contract per side effect and the append-only call records of
    [DatabaseToolCallStore]; and the bridge that the agent runtime calls. *)

From S2P Require Import Prelude PyNum Uuids Interleave ExecutionBus SampleCodec Sessions ToolRegistry ToolState Approvals.
Open Scope string_scope.
Open Scope list_scope.
Open Scope Z_scope.

(** ** The backend *)
Record ToolBackendResult := {
  br_ok : bool;
  br_result : option jobject;
  br_error_code : option string;
  br_transient : bool;
}.

(** What awaiting [backend.execute] under its timeout comes to; [uncertain] is
    [_is_uncertain] of the exception. *)
Inductive BackendOutcome :=
  | Returned (r : ToolBackendResult)
  | TimedOut
  | Crashed (uncertain : bool).

(** ** Which registry the service is given *)
Record RegistryOps := {
  ro_resolve : definitions → uuid → string → option Z → option ToolDefinition;
  ro_has_name : option (definitions → string → bool);
}.
Definition memory_registry : RegistryOps :=
  {| ro_resolve := MemoryRegistry.resolve; ro_has_name := Some MemoryRegistry.has_name |}.
Definition database_registry : RegistryOps :=
  {| ro_resolve := DatabaseRegistry.resolve; ro_has_name := None |}.

(** ** Call records ([DatabaseToolCallStore]) *)
Module ToolCalls.
Section Ops.
Context {A : Type}.
Abbreviation TS B := (ST (ToolState A) ToolError B).

(** The partial unique index [tool_call_idempotent_replay]. *)
Definition pins_key (tenant_id : uuid) (key : string) (r : ToolInvocationRecord) : bool :=
  bool_decide (tr_tenant_id r = tenant_id) && bool_decide (tr_idempotency_key r = Some key)
  && bool_decide (tr_status r = TI_SUCCEEDED).

Definition find_replay (fault : txn_fault) (tenant_id : uuid) (idempotency_key : string)
    : TS (option ToolInvocationRecord) :=
  transaction fault TSql (gets (λ s,
    head (filter (λ r, pins_key tenant_id idempotency_key r = true) (ts_calls s)))).

Definition list_unknown (fault : txn_fault) (tenant_id : uuid) : TS (list ToolInvocationRecord) :=
  transaction fault TSql (gets (λ s,
    filter (λ r, bool_decide (tr_tenant_id r = tenant_id)
                 && bool_decide (tr_status r = TI_OUTCOME_UNKNOWN) = true) (ts_calls s))).

Definition same_call (tenant_id call_id : uuid) (r : ToolInvocationRecord) : bool :=
  bool_decide (tr_tenant_id r = tenant_id) && bool_decide (tr_call_id r = call_id).

Definition get_call (fault : txn_fault) (tenant_id call_id : uuid)
    : TS (option ToolInvocationRecord) :=
  transaction fault TSql (gets (λ s,
    head (filter (λ r, same_call tenant_id call_id r = true) (ts_calls s)))).

(** The result column: [json.dumps(record.result) if record.result else None]. *)
Definition stored_result (r : ToolInvocationRecord) : option jobject :=
  match tr_result r with
  | Some m => if bool_decide (m = ∅) then None else Some m
  | None => None
  end.

Definition stored_record (r : ToolInvocationRecord) : ToolInvocationRecord :=
  {| tr_call_id := tr_call_id r; tr_tenant_id := tr_tenant_id r; tr_tool_name := tr_tool_name r;
     tr_tool_version := tr_tool_version r; tr_side_effect := tr_side_effect r;
     tr_params := tr_params r; tr_params_hash := tr_params_hash r;
     tr_idempotency_key := tr_idempotency_key r; tr_status := tr_status r;
     tr_attempts := tr_attempts r; tr_cost_micros := tr_cost_micros r;
     tr_requested_by := tr_requested_by r; tr_execution_id := tr_execution_id r;
     tr_session_id := tr_session_id r; tr_release_id := tr_release_id r;
     tr_error_code := tr_error_code r; tr_result := stored_result r;
     tr_data_classification := tr_data_classification r |}.

(** The constraints of migration 0013 on a new row, the unique index included. *)
Definition row_check (r : ToolInvocationRecord) (calls : list ToolInvocationRecord) : bool :=
  DatabaseApprovals.hash_check (tr_params_hash r) && (0 <=? tr_cost_micros r)
  && length_between 1 256 (tr_requested_by r)
  && match tr_status r, tr_idempotency_key r with
     | TI_SUCCEEDED, Some key => negb (existsb (pins_key (tr_tenant_id r) key) calls)
     | _, _ => true
     end.

(** [INSERT ... ON CONFLICT (tenant_id, call_id) DO NOTHING] *)
Definition record (fault : txn_fault) (r : ToolInvocationRecord) : TS unit :=
  transaction fault TSql
    (calls ← gets ts_calls;
     if existsb (same_call (tr_tenant_id r) (tr_call_id r)) calls then mret tt
     else
       _ ← ensure (row_check r calls) TSql;
       modify (set_calls (calls ++ [stored_record r]))).
End Ops.
End ToolCalls.

(** ** Invocations *)
Record Invocation := {
  iv_tenant_id : uuid;
  iv_tool_name : string;
  iv_params : jobject;
  iv_scopes : option (list string);
  iv_requested_by : string;
  iv_idempotency_key : option string;
  iv_mode : string;
  iv_version : option Z;
  iv_execution_id : option string;
  iv_session_id : option string;
  iv_release_id : option string;
  iv_policy_version : option string;
}.

Record ToolInvocationResult := {
  ir_status : ToolInvocationStatus;
  ir_record : ToolInvocationRecord;
  ir_replayed : bool;
  ir_error_code : option string;
}.

Definition CONVERSATION : string := "conversation".
Definition DIRECT : string := "direct".

(** [value or fallback] for an optional text. *)
Definition or_else (o : option string) (fallback : string) : string :=
  match o with Some EmptyString | None => fallback | Some s => s end.

(** The constructor arguments of [ToolInvocationService]: the registry, the attempt
    limit and, when approvals are wired in, the lifetime its service gives a request. *)
Record ServiceConfig := {
  sc_registry : RegistryOps;
  sc_max_read_attempts : Z;
  sc_approvals : option Z;
}.

(** [max(1, max_read_attempts)] *)
Definition read_attempts (c : ServiceConfig) : nat := Z.to_nat (Z.max 1 (sc_max_read_attempts c)).

(** ** The retry contract *)
Definition write_outcome (side_effect : ToolSideEffect) (error_code : string) (attempts : nat)
    : ToolInvocationStatus * option string * option jobject * nat :=
  if bool_decide (side_effect ≠ READ_ONLY)
  then (TI_OUTCOME_UNKNOWN, Some error_code, None, attempts)
  else (TI_FAILED, Some error_code, None, attempts).

Definition can_retry (definition : ToolDefinition) (idempotency_key : option string) : bool :=
  bool_decide (td_side_effect definition = READ_ONLY)
  || bool_decide (td_side_effect definition = IDEMPOTENT_WRITE)
     && td_supports_idempotency definition && bool_decide (is_Some idempotency_key).

Section Executor.
  Context {A : Type} `{!ApprovalStore A} (uuid_at : nat → uuid).
  Context (canonical_json : json → string) (sha256 : string → string).
  Context (config : ServiceConfig).
  (** The operation in flight, the faults its transactions meet and what the backend
      answers to its attempts. *)
  Context (operation : nat) (fault : nat → txn_fault) (backend : nat → BackendOutcome).

Abbreviation TPA B := (TP A B).
Abbreviation params_hash_of := (canonical_params_hash canonical_json sha256).

(** [backend.execute(definition, params)] *)
Definition call_backend (definition : ToolDefinition) (params : jobject) (requested_by : string)
    (grant : option (uuid * uuid)) (attempt : nat) : TPA BackendOutcome :=
  atomically (
    _ ← modify (add_backend {| bc_operation := operation; bc_definition := definition;
          bc_params := params; bc_requested_by := requested_by; bc_grant := grant |});
    mret (backend attempt)).

(** The loop of [_execute_with_contract]: [remaining] attempts are left of
    [max_attempts]. *)
Fixpoint attempt_loop (definition : ToolDefinition) (params : jobject) (requested_by : string)
    (grant : option (uuid * uuid)) (retry : bool) (max_attempts remaining : nat)
    (last_error : option string)
    : TPA (ToolInvocationStatus * option string * option jobject * nat) :=
  match remaining with
  | O => pm_ret (TI_FAILED, last_error, None, max_attempts)
  | S remaining' =>
      let attempts := (max_attempts - remaining')%nat in
      let continue error :=
        attempt_loop definition params requested_by grant retry max_attempts remaining' (Some error) in
      let again := retry && (attempts <? max_attempts)%nat in
      result <-- call_backend definition params requested_by grant attempts;
      match result with
      | TimedOut =>
          if again then continue "TOOL_TIMEOUT"
          else pm_ret (write_outcome (td_side_effect definition) "TOOL_TIMEOUT" attempts)
      | Crashed uncertain =>
          if again then continue "TOOL_BACKEND_UNAVAILABLE"
          else if uncertain && bool_decide (td_side_effect definition ≠ READ_ONLY)
          then pm_ret (TI_OUTCOME_UNKNOWN, Some "TOOL_BACKEND_UNAVAILABLE", None, attempts)
          else pm_ret (TI_FAILED, Some "TOOL_BACKEND_UNAVAILABLE", None, attempts)
      | Returned outcome =>
          if br_ok outcome then pm_ret (TI_SUCCEEDED, None, br_result outcome, attempts)
          else
            let error := or_else (br_error_code outcome) "TOOL_FAILED" in
            if br_transient outcome && again then continue error
            else if br_transient outcome && negb retry
            then pm_ret (TI_OUTCOME_UNKNOWN, Some error, None, attempts)
            else pm_ret (TI_FAILED, Some error, None, attempts)
      end
  end.

Definition execute_with_contract (definition : ToolDefinition) (params : jobject)
    (idempotency_key : option string) (requested_by : string) (grant : option (uuid * uuid))
    : TPA (ToolInvocationStatus * option string * option jobject * nat) :=
  let retry := can_retry definition idempotency_key in
  let max_attempts := if retry then read_attempts config else 1%nat in
  attempt_loop definition params requested_by grant retry max_attempts max_attempts None.

(** ** Records *)
Definition record_blocked (site : nat) (tenant_id : uuid) (tool_name : string) (params : jobject)
    (idempotency_key : option string) (requested_by error_code : string)
    (tool_version : option Z) (side_effect : option ToolSideEffect)
    (execution_id session_id release_id : option string) : TPA ToolInvocationRecord :=
  atomically (
    call_id ← draw_id uuid_at;
    let r :=
      {| tr_call_id := call_id; tr_tenant_id := tenant_id; tr_tool_name := tool_name;
         tr_tool_version := tool_version; tr_side_effect := side_effect_text <$> side_effect;
         tr_params := params; tr_params_hash := params_hash_of params;
         tr_idempotency_key := idempotency_key; tr_status := TI_BLOCKED; tr_attempts := 0;
         tr_cost_micros := 0; tr_requested_by := requested_by; tr_execution_id := execution_id;
         tr_session_id := session_id; tr_release_id := release_id;
         tr_error_code := Some error_code; tr_result := None; tr_data_classification := None |} in
    _ ← ToolCalls.record (fault site) r;
    mret r).

(** A blocked call of a known definition, as [invoke] records it. *)
Definition block (site : nat) (iv : Invocation) (definition : ToolDefinition) (params : jobject)
    (error_code : string) : TPA ToolInvocationRecord :=
  record_blocked site (iv_tenant_id iv) (iv_tool_name iv) params None (iv_requested_by iv)
    error_code (Some (td_version definition)) (Some (td_side_effect definition))
    (iv_execution_id iv) (iv_session_id iv) (iv_release_id iv).

(** ** The approval gate: [inl] the consumed approval or nothing needed, [inr] the
    request the call waits for. *)
Definition gate_write_side_effect (definition : ToolDefinition) (params : jobject)
    (params_hash : string) (iv : Invocation) : TPA (option (uuid * uuid) + uuid) :=
  match sc_approvals config with
  | None =>
      if negb (bool_decide (iv_mode iv = CONVERSATION))
         && negb (bool_decide (td_side_effect definition = HIGH_RISK))
      then pm_ret (inl None)
      else
        _ <-- record_blocked 20%nat (td_tenant_id definition) (td_name definition) params None
                (iv_requested_by iv) "TOOL_AUTO_EXECUTION_BLOCKED"
                (Some (td_version definition)) (Some (td_side_effect definition)) None None None;
        pm_raise (ToolInvocationError "TOOL_AUTO_EXECUTION_BLOCKED" None)
  | Some ttl_seconds =>
      let intent := {| in_tool_name := td_name definition; in_tool_version := td_version definition;
                       in_params_hash := params_hash; in_requested_by := iv_requested_by iv |} in
      approved <-- find_approved fault (td_tenant_id definition) intent;
      match approved with
      | Some approved =>
          consumed <-- consume operation fault (td_tenant_id definition) (ar_approval_id approved)
                         intent (or_else (iv_release_id iv) "unknown");
          pm_ret (inl (Some (ar_tenant_id consumed, ar_approval_id consumed)))
      | None =>
          pending <-- find_pending fault (td_tenant_id definition) intent;
          match pending with
          | None =>
              created <-- create uuid_at fault ttl_seconds (td_tenant_id definition)
                            (or_else (iv_release_id iv) "unknown") intent params
                            (td_side_effect definition) "AGENT_RUNNER"
                            (or_else (iv_policy_version iv) "unspecified");
              pm_ret (inr (ar_approval_id created))
          | Some pending => pm_ret (inr (ar_approval_id pending))
          end
      end
  end.

(** ** [invoke] from the idempotent replay on *)
Definition execute_and_record (iv : Invocation) (definition : ToolDefinition) (normalized : jobject)
    (params_hash : string) (grant : option (uuid * uuid)) : TPA ToolInvocationResult :=
  outcome <-- execute_with_contract definition normalized (iv_idempotency_key iv)
                (iv_requested_by iv) grant;
  let '(status, error_code, result, attempts) := outcome in
  atomically (
    call_id ← draw_id uuid_at;
    let r :=
      {| tr_call_id := call_id; tr_tenant_id := iv_tenant_id iv; tr_tool_name := td_name definition;
         tr_tool_version := Some (td_version definition);
         tr_side_effect := Some (side_effect_text (td_side_effect definition));
         tr_params := normalized; tr_params_hash := params_hash;
         tr_idempotency_key := iv_idempotency_key iv; tr_status := status; tr_attempts := attempts;
         tr_cost_micros := td_cost_per_call_micros definition;
         tr_requested_by := iv_requested_by iv; tr_execution_id := iv_execution_id iv;
         tr_session_id := iv_session_id iv; tr_release_id := iv_release_id iv;
         tr_error_code := error_code; tr_result := result;
         tr_data_classification := Some (td_data_classification definition) |} in
    _ ← ToolCalls.record (fault 26%nat) r;
    mret {| ir_status := status; ir_record := r; ir_replayed := false; ir_error_code := error_code |}).

Definition replay_or_execute (iv : Invocation) (definition : ToolDefinition) (normalized : jobject)
    (params_hash : string) (grant : option (uuid * uuid)) : TPA ToolInvocationResult :=
  match iv_idempotency_key iv with
  | None => execute_and_record iv definition normalized params_hash grant
  | Some key =>
      replayed <-- atomically (ToolCalls.find_replay (fault 24%nat) (iv_tenant_id iv) key);
      match replayed with
      | None => execute_and_record iv definition normalized params_hash grant
      | Some replayed =>
          if bool_decide (tr_params_hash replayed = params_hash) then
            pm_ret {| ir_status := tr_status replayed; ir_record := replayed; ir_replayed := true;
                      ir_error_code := tr_error_code replayed |}
          else
            _ <-- block 25%nat iv definition normalized "TOOL_IDEMPOTENCY_CONFLICT";
            pm_raise (ToolInvocationError "TOOL_IDEMPOTENCY_CONFLICT" None)
      end
  end.

(** ** [ToolInvocationService.invoke] *)
Definition invoke (iv : Invocation) : TPA ToolInvocationResult :=
  definition <-- atomically (transaction (fault 10%nat) TSql (gets (λ s,
    ro_resolve (sc_registry config) (ts_definitions s) (iv_tenant_id iv) (iv_tool_name iv)
      (iv_version iv))));
  match definition with
  | None =>
      tenant_denied <-- (match ro_has_name (sc_registry config) with
                         | Some has_name =>
                             atomically (gets (λ s, has_name (ts_definitions s) (iv_tool_name iv)))
                         | None => pm_ret false
                         end);
      let error_code := if (tenant_denied : bool) then "TOOL_TENANT_DENIED" else "TOOL_NOT_FOUND" in
      _ <-- record_blocked 21%nat (iv_tenant_id iv) (iv_tool_name iv) (iv_params iv) None
              (iv_requested_by iv) error_code None None
              (iv_execution_id iv) (iv_session_id iv) (iv_release_id iv);
      pm_raise (ToolInvocationError error_code None)
  | Some definition =>
      if negb (bool_decide (list_to_set (td_scopes definition) ⊆@{gset string}
                 list_to_set (default (td_scopes definition) (iv_scopes iv)))) then
        _ <-- block 22%nat iv definition (iv_params iv) "TOOL_SCOPE_DENIED";
        pm_raise (ToolInvocationError "TOOL_SCOPE_DENIED" None)
      else
        match validate_params definition (iv_params iv) with
        | Raise (ToolInvocationError code details) =>
            _ <-- block 23%nat iv definition (iv_params iv) "TOOL_PARAMS_INVALID";
            pm_raise (ToolInvocationError code details)
        | Raise e => pm_raise e
        | Ok normalized =>
            let params_hash := params_hash_of normalized in
            if bool_decide (td_side_effect definition ∈ AUTO_EXECUTABLE_SIDE_EFFECTS) then
              replay_or_execute iv definition normalized params_hash None
            else
              gate <-- gate_write_side_effect definition normalized params_hash iv;
              match gate with
              | inr approval_id =>
                  _ <-- block 27%nat iv definition normalized "TOOL_APPROVAL_REQUIRED";
                  pm_raise (ToolInvocationError "TOOL_APPROVAL_REQUIRED" (Some approval_id))
              | inl grant => replay_or_execute iv definition normalized params_hash grant
              end
        end
  end.
End Executor.

(** ** The bridge to the agent SDK ([GovernedTool]) *)
Record ToolInvocationContext := {
  tc_tenant_id : uuid;
  tc_requested_by : string;
  tc_execution_id : option string;
  tc_session_id : option string;
  tc_release_id : option string;
}.

Record GovernedTool := {
  gt_definition : ToolDefinition;
  gt_scopes : option (list string);
  gt_idempotency_key : option string;
}.

(** What the model sees of a call. *)
Record ModelResponse := {
  mr_status : string;
  mr_result : option jobject;
  mr_error : option string;
  mr_details : option uuid;
}.

Definition status_text (s : ToolInvocationStatus) : string :=
  match s with
  | TI_SUCCEEDED => "SUCCEEDED"
  | TI_FAILED => "FAILED"
  | TI_OUTCOME_UNKNOWN => "OUTCOME_UNKNOWN"
  | TI_BLOCKED => "BLOCKED"
  end.

(** The call the bridge makes: the tool and its version are pinned, the tenant and the
    subject come from the context and never from the model. *)
Definition bridge_invocation (tool : GovernedTool) (context : option ToolInvocationContext)
    (params : jobject) : Invocation :=
  {| iv_tenant_id := match context with
                     | Some c => tc_tenant_id c
                     | None => td_tenant_id (gt_definition tool)
                     end;
     iv_tool_name := td_name (gt_definition tool);
     iv_params := params;
     iv_scopes := gt_scopes tool;
     iv_requested_by := match context with Some c => tc_requested_by c | None => "agent-runner" end;
     iv_idempotency_key := gt_idempotency_key tool;
     iv_mode := CONVERSATION;
     iv_version := Some (td_version (gt_definition tool));
     iv_execution_id := context ≫= tc_execution_id;
     iv_session_id := context ≫= tc_session_id;
     iv_release_id := context ≫= tc_release_id;
     iv_policy_version := None |}.

(** [governed_invoke]: only a [ToolInvocationError] becomes a response. *)
Definition governed_invoke {A} `{!ApprovalStore A} (uuid_at : nat → uuid)
    (canonical_json : json → string) (sha256 : string → string) (config : ServiceConfig)
    (operation : nat) (fault : nat → txn_fault) (backend : nat → BackendOutcome)
    (tool : GovernedTool) (context : option ToolInvocationContext) (params : jobject)
    : TP A ModelResponse :=
  proc_bind
    (invoke uuid_at canonical_json sha256 config operation fault backend
       (bridge_invocation tool context params))
    (λ r, match r with
          | Ok result =>
              pm_ret {| mr_status := status_text (ir_status result);
                        mr_result := Some (default ∅ (tr_result (ir_record result)));
                        mr_error := match ir_error_code result with
                                    | Some EmptyString => None | e => e end;
                        mr_details := None |}
          | Raise (ToolInvocationError code details) =>
              pm_ret {| mr_status := "BLOCKED"; mr_result := None; mr_error := Some code;
                        mr_details := details |}
          | Raise e => pm_raise e
          end).

(** ** Waiting checkpoints and reconciliation (trpc_service/tool/checkpoints.py,
    tool/reconciliation.py)

    Parking an execution that waits for an approval, resuming it on a fresh lease,
    and the operators' one-time resolution of calls with an unknown outcome, over
    the tables of migration 0014. *)

(** ** [DatabaseCheckpointStore] *)
Module CheckpointTable.
Section Ops.
Context {A : Type}.
Abbreviation TS B := (ST (ToolState A) ToolError B).

Definition row_check (c : ExecutionCheckpoint) : bool :=
  (1 <=? cp_tool_version c) && DatabaseApprovals.hash_check (cp_params_hash c).

(** On a conflict only the status and the resumption are updated. *)
Definition merged (c c0 : ExecutionCheckpoint) : ExecutionCheckpoint :=
  {| cp_checkpoint_id := cp_checkpoint_id c0; cp_tenant_id := cp_tenant_id c0;
     cp_execution_id := cp_execution_id c0; cp_session_id := cp_session_id c0;
     cp_release_id := cp_release_id c0; cp_approval_id := cp_approval_id c0;
     cp_tool_name := cp_tool_name c0; cp_tool_version := cp_tool_version c0;
     cp_params_hash := cp_params_hash c0; cp_requested_by := cp_requested_by c0;
     cp_parked_by := cp_parked_by c0; cp_status := cp_status c;
     cp_created_at := cp_created_at c0; cp_resumed_by := cp_resumed_by c;
     cp_resumed_at := cp_resumed_at c |}.

Definition upsert (fault : txn_fault) (c : ExecutionCheckpoint) : TS unit :=
  transaction fault TSql
    (_ ← ensure (row_check c) TSql;
     existing ← gets (λ s, ts_checkpoints s !! (cp_tenant_id c, cp_checkpoint_id c));
     modify (set_checkpoints <[(cp_tenant_id c, cp_checkpoint_id c) :=
       match existing with None => c | Some c0 => merged c c0 end]>)).

Definition get (fault : txn_fault) (tenant_id checkpoint_id : uuid)
    : TS (option ExecutionCheckpoint) :=
  transaction fault TSql (gets (λ s, ts_checkpoints s !! (tenant_id, checkpoint_id))).
End Ops.
End CheckpointTable.

(** ** [CheckpointService] *)
Section Checkpoints.
  Context {A : Type} `{!ApprovalStore A} (uuid_at : nat → uuid) (lease_ttl : Z).
  Context (operation : nat) (fault : nat → txn_fault).

(** [park]: the wait state is durable before the lease is given up. *)
Definition park (tenant_id : uuid) (execution_id session_id release_id : string)
    (approval_id : uuid) (intent : Intent) (parked_by : string) : TP A ExecutionCheckpoint :=
  now <-- clock;
  checkpoint <-- atomically (
    checkpoint_id ← draw_id uuid_at;
    let checkpoint :=
      {| cp_checkpoint_id := checkpoint_id; cp_tenant_id := tenant_id;
         cp_execution_id := execution_id; cp_session_id := session_id;
         cp_release_id := release_id; cp_approval_id := approval_id;
         cp_tool_name := in_tool_name intent; cp_tool_version := in_tool_version intent;
         cp_params_hash := in_params_hash intent; cp_requested_by := in_requested_by intent;
         cp_parked_by := parked_by; cp_status := WAITING_APPROVAL; cp_created_at := Some now;
         cp_resumed_by := None; cp_resumed_at := None |} in
    _ ← CheckpointTable.upsert (fault 40%nat) checkpoint;
    mret checkpoint);
  _ <-- atomically (on_exec (release_lease (fault 41%nat) tenant_id session_id parked_by));
  pm_ret checkpoint.

Definition resumed (c : ExecutionCheckpoint) (resumed_by : string) (now : instant)
    : ExecutionCheckpoint :=
  {| cp_checkpoint_id := cp_checkpoint_id c; cp_tenant_id := cp_tenant_id c;
     cp_execution_id := cp_execution_id c; cp_session_id := cp_session_id c;
     cp_release_id := cp_release_id c; cp_approval_id := cp_approval_id c;
     cp_tool_name := cp_tool_name c; cp_tool_version := cp_tool_version c;
     cp_params_hash := cp_params_hash c; cp_requested_by := cp_requested_by c;
     cp_parked_by := cp_parked_by c; cp_status := RESUMED; cp_created_at := cp_created_at c;
     cp_resumed_by := Some resumed_by; cp_resumed_at := Some now |}.

Definition checkpoint_intent (c : ExecutionCheckpoint) : Intent :=
  {| in_tool_name := cp_tool_name c; in_tool_version := cp_tool_version c;
     in_params_hash := cp_params_hash c; in_requested_by := cp_requested_by c |}.

(** [resume]: the lease first, then the approval; any exception of [consume] gives
    the lease back. *)
Definition resume (tenant_id checkpoint_id : uuid) (resumed_by : string) : TP A LeaseGrant :=
  found <-- atomically (CheckpointTable.get (fault 42%nat) tenant_id checkpoint_id);
  match found with
  | None => pm_raise (CheckpointError "CHECKPOINT_NOT_FOUND")
  | Some checkpoint =>
      if bool_decide (cp_status checkpoint ≠ WAITING_APPROVAL) then
        pm_raise (CheckpointError "CHECKPOINT_NOT_WAITING")
      else
        grant <-- atomically (on_exec (acquire (fault 43%nat) lease_ttl tenant_id
                    (cp_session_id checkpoint) resumed_by));
        _ <-- pm_catch
                (consume operation fault tenant_id (cp_approval_id checkpoint)
                   (checkpoint_intent checkpoint) (cp_release_id checkpoint))
                (λ _,
                   _ <-- atomically (on_exec (release_lease (fault 44%nat) tenant_id
                           (cp_session_id checkpoint) resumed_by));
                   pm_raise (CheckpointError "CHECKPOINT_APPROVAL_NOT_GRANTED"));
        now <-- clock;
        _ <-- atomically (CheckpointTable.upsert (fault 45%nat) (resumed checkpoint resumed_by now));
        pm_ret grant
  end.

Definition get_checkpoint (tenant_id checkpoint_id : uuid) : TP A ExecutionCheckpoint :=
  found <-- atomically (CheckpointTable.get (fault 46%nat) tenant_id checkpoint_id);
  match found with
  | None => pm_raise (CheckpointError "CHECKPOINT_NOT_FOUND")
  | Some checkpoint => pm_ret checkpoint
  end.
End Checkpoints.

(** ** [DatabaseReconciliationStore] *)
Module ReconciliationTable.
Section Ops.
Context {A : Type}.
Abbreviation TS B := (ST (ToolState A) ToolError B).

(** [INSERT ... ON CONFLICT (tenant_id, call_id) DO NOTHING] *)
Definition upsert (fault : txn_fault) (r : Reconciliation) : TS unit :=
  transaction fault TSql
    (_ ← ensure (length_between 1 256 (rc_resolved_by r)) TSql;
     existing ← gets (λ s, ts_reconciliations s !! (rc_tenant_id r, rc_call_id r));
     match existing with
     | Some _ => mret tt
     | None => modify (set_reconciliations <[(rc_tenant_id r, rc_call_id r) := r]>)
     end).

Definition get (fault : txn_fault) (tenant_id call_id : uuid) : TS (option Reconciliation) :=
  transaction fault TSql (gets (λ s, ts_reconciliations s !! (tenant_id, call_id))).

Definition all_for (fault : txn_fault) (tenant_id : uuid) : TS (list Reconciliation) :=
  transaction fault TSql (gets (λ s,
    filter (λ r, rc_tenant_id r = tenant_id) (map_to_list (ts_reconciliations s)).*2)).
End Ops.
End ReconciliationTable.

(** ** [ReconciliationService] *)
Section Reconcile.
  Context {A : Type} (fault : nat → txn_fault).

Definition open_calls (tenant_id : uuid) : TP A (list ToolInvocationRecord) :=
  resolutions <-- atomically (ReconciliationTable.all_for (fault 50%nat) tenant_id);
  unknown <-- atomically (ToolCalls.list_unknown (fault 51%nat) tenant_id);
  pm_ret (filter (λ r, tr_call_id r ∉ rc_call_id <$> resolutions) unknown).

Definition resolve_call (tenant_id call_id : uuid) (decision : ReconciliationDecision)
    (resolved_by : string) (note : option string) : TP A Reconciliation :=
  call <-- atomically (ToolCalls.get_call (fault 52%nat) tenant_id call_id);
  match call with
  | None => pm_raise (ReconciliationError "RECONCILIATION_CALL_NOT_FOUND")
  | Some call =>
      if bool_decide (tr_status call ≠ TI_OUTCOME_UNKNOWN) then
        pm_raise (ReconciliationError "RECONCILIATION_CALL_NOT_UNKNOWN")
      else
        existing <-- atomically (ReconciliationTable.get (fault 53%nat) tenant_id call_id);
        match existing with
        | Some _ => pm_raise (ReconciliationError "RECONCILIATION_ALREADY_RESOLVED")
        | None =>
            now <-- clock;
            let reconciliation :=
              {| rc_call_id := call_id; rc_tenant_id := tenant_id; rc_decision := decision;
                 rc_resolved_by := resolved_by; rc_resolved_at := now; rc_note := note |} in
            _ <-- atomically (ReconciliationTable.upsert (fault 54%nat) reconciliation);
            pm_ret reconciliation
        end
  end.
End Reconcile.
