(* ===== verification/ToolSafety.v ===== *)
(** * Safety of concurrent tool operations

    Invocations, approval decisions, expirations, parking, resuming and
    reconciliation run interleaved over one shared state, for any approval store
    that keeps the laws of its interface.  The invariant and the guarantee of every
    step are stated here, and every operation is shown to keep them. *)

From S2P Require Import Prelude PyNum Uuids Interleave ExecutionBus SampleCodec Sessions ToolRegistry ToolState Approvals ToolExecutor.
Open Scope string_scope.
Open Scope list_scope.
Open Scope Z_scope.

(** How the status of a request may develop. *)
Definition may_become (st st' : ApprovalStatus) : bool :=
  match st, st' with
  | AP_PENDING, _ => true
  | AP_APPROVED, (AP_APPROVED | AP_CONSUMED | AP_EXPIRED) => true
  | AP_DENIED, (AP_DENIED | AP_EXPIRED) => true
  | AP_CONSUMED, (AP_CONSUMED | AP_EXPIRED) => true
  | AP_EXPIRED, AP_EXPIRED => true
  | _, _ => false
  end.

Lemma may_become_refl st : may_become st st = true.
Proof. by destruct st. Qed.
Lemma may_become_trans st1 st2 st3 :
  may_become st1 st2 = true → may_become st2 st3 = true → may_become st1 st3 = true.
Proof. by destruct st1, st2, st3. Qed.
Lemma may_become_expired st : may_become st AP_EXPIRED = true.
Proof. by destruct st. Qed.

(** Separation of duties: a granted HIGH_RISK request was decided by someone else. *)
Definition duty_kept (r : ApprovalRequest) : Prop :=
  ar_side_effect r = HIGH_RISK → ar_status r ∈ [AP_APPROVED; AP_CONSUMED] →
  ∃ d, ar_decided_by r = Some d ∧ d ≠ ar_requested_by r.

(** A call that needs a grant: HIGH_RISK always, NON_IDEMPOTENT_WRITE where every
    service is given an approval service ([wired]). *)
Definition gated (wired : bool) (d : ToolDefinition) : Prop :=
  td_side_effect d = HIGH_RISK ∨ wired = true ∧ td_side_effect d = NON_IDEMPOTENT_WRITE.

Section Safety.
  Context {A : Type} `{!ApprovalStore A} `{!ApprovalStoreLaws A}.
  Context (uuid_at : nat → uuid) `{!Inj (=) (=) uuid_at}.
  Context (canonical_json : json → string) (sha256 : string → string).
  Context (wired : bool).
  Implicit Types (s : ToolState A) (p : nat).

Abbreviation row s k := (approval (ts_approvals s) k.1 k.2).

(** The request is for exactly this call. *)
Definition covers (r : ApprovalRequest) (b : BackendCall) : Prop :=
  ar_tenant_id r = td_tenant_id (bc_definition b) ∧
  intent_of r =
    {| in_tool_name := td_name (bc_definition b); in_tool_version := td_version (bc_definition b);
       in_params_hash := canonical_params_hash canonical_json sha256 (bc_params b);
       in_requested_by := bc_requested_by b |}.

(** The call record of an identifier. *)
Definition call_of s (t c : uuid) : option ToolInvocationRecord :=
  head (filter (λ r, ToolCalls.same_call t c r = true) (ts_calls s)).

Record ToolInv s : Prop := {
  ti_store : store_ok (ts_approvals s);
  ti_ids : ∀ t i r, approval (ts_approvals s) t i = Some r →
    ∃ n, (n < ts_next_id s)%nat ∧ i = uuid_at n;
  ti_tenant : ∀ t t' i r r', approval (ts_approvals s) t i = Some r →
    approval (ts_approvals s) t' i = Some r' → t = t';
  ti_duty : ∀ t i r, approval (ts_approvals s) t i = Some r → duty_kept r;
  (** An approval is consumed at most once, and is closed from then on. *)
  ti_grants_once : NoDup (gt_approval <$> ts_grants s);
  ti_grants : ∀ g, g ∈ ts_grants s →
    ∃ r, row s (gt_approval g) = Some r ∧ ar_status r ∈ [AP_CONSUMED; AP_EXPIRED];
  (** A grant is spent at most once, by the operation that consumed it and on the call
      it was given for. *)
  ti_spent_once : NoDup (omap bc_grant (ts_backend s));
  ti_spent : ∀ b k, b ∈ ts_backend s → bc_grant b = Some k →
    {| gt_operation := bc_operation b; gt_approval := k |} ∈ ts_grants s ∧
    ∃ r, row s k = Some r ∧ covers r b;
  ti_gated : ∀ b, b ∈ ts_backend s → gated wired (bc_definition b) → is_Some (bc_grant b);
  (** Only calls with an unknown outcome are reconciled. *)
  ti_reconciled : ∀ t c rc, ts_reconciliations s !! (t, c) = Some rc →
    ∃ call, call_of s t c = Some call ∧ tr_status call = TI_OUTCOME_UNKNOWN;
}.

(** What every step guarantees, whoever takes it. *)
Record Grows s s' : Prop := {
  gr_rows : ∀ t i r, approval (ts_approvals s) t i = Some r →
    ∃ r', approval (ts_approvals s') t i = Some r' ∧ same_request r r' ∧
      may_become (ar_status r) (ar_status r') = true;
  gr_ids : (ts_next_id s ≤ ts_next_id s')%nat;
  gr_grants : ts_grants s ⊆ ts_grants s';
  gr_calls : ∃ new, ts_calls s' = ts_calls s ++ new;
  gr_reconciled : ts_reconciliations s ⊆ ts_reconciliations s';
}.

#[export] Instance Grows_preorder : PreOrder Grows.
Proof.
  split.
  - intros s. split; [|done|done|exists []; by rewrite app_nil_r|done].
    intros t i r ?. exists r. by rewrite may_become_refl.
  - intros s1 s2 s3 [r1 i1 g1 [n1 c1] m1] [r2 i2 g2 [n2 c2] m2]. split.
    + intros t i r (r' & Hr' & ? & ?)%r1. destruct (r2 _ _ _ Hr') as (r'' & ? & ? & ?).
      exists r''. split; [done|]. split; [by etrans|by eapply may_become_trans].
    + lia.
    + by etrans.
    + exists (n1 ++ n2). by rewrite c2, c1, app_assoc.
    + by etrans.
Qed.

(** Backend calls are only added, by operations that satisfy [by_whom]. *)
Definition sends (by_whom : nat → Prop) s s' : Prop :=
  ∃ new, ts_backend s' = ts_backend s ++ new ∧ Forall (λ b, by_whom (bc_operation b)) new.

Definition Guarantee p s s' : Prop := Grows s s' ∧ sends (λ q, q = p) s s'.
Definition Rely p s s' : Prop := Grows s s' ∧ sends (λ q, q ≠ p) s s'.

Lemma sends_nothing by_whom s s' : ts_backend s' = ts_backend s → sends by_whom s s'.
Proof. intros H. exists []. by rewrite app_nil_r. Qed.

Lemma guarantee_rely p q s s' : p ≠ q → Guarantee p s s' → Rely q s s'.
Proof.
  intros Hpq [Hg (new & ? & Hnew)]. split; [done|]. exists new. split; [done|].
  eapply Forall_impl; [exact Hnew|]. intros b. simpl. congruence.
Qed.

Lemma guarantee_refl p s : Guarantee p s s.
Proof. split; [done|]. by apply sends_nothing. Qed.

(** ** Facts an operation may rely on *)
Definition seen (r : ApprovalRequest) s : Prop :=
  ∃ r', approval (ts_approvals s) (ar_tenant_id r) (ar_approval_id r) = Some r' ∧ same_request r r'.

(** The consumed grant [k] has not been spent. *)
Definition holds p (k : uuid * uuid) (r : ApprovalRequest) s : Prop :=
  {| gt_operation := p; gt_approval := k |} ∈ ts_grants s ∧
  (∀ b, b ∈ ts_backend s → bc_grant b ≠ Some k) ∧ k = (ar_tenant_id r, ar_approval_id r) ∧ seen r s.

Lemma seen_grows r s s' : Grows s s' → seen r s → seen r s'.
Proof.
  intros [Hrows _ _ _ _] (r0 & Hr0 & ?). destruct (Hrows _ _ _ Hr0) as (r1 & ? & ? & _).
  exists r1. split; [done|by etrans].
Qed.

Lemma seen_stable p r : stable ToolInv (Rely p) (seen r).
Proof. intros s s' _ _ [? _]. by apply seen_grows. Qed.
Lemma seen_kept p r : stable ToolInv (Guarantee p) (seen r).
Proof. intros s s' _ _ [? _]. by apply seen_grows. Qed.

Lemma holds_stable p k r : stable ToolInv (Rely p) (holds p k r).
Proof.
  intros s s' Hi Hi' [Hg (new & Hb & Hnew)] (Hgr & Hun & ? & Hseen).
  split; [by apply (gr_grants _ _ Hg)|]. split; [|split; [done|by eapply seen_grows]].
  intros b Hin Hk. rewrite Hb in Hin. apply elem_of_app in Hin as [Hin|Hin]; [by eapply Hun|].
  rewrite Forall_forall in Hnew. apply (Hnew b Hin).
  destruct (ti_spent _ Hi' b k) as [Hg1 _]; [rewrite Hb; set_solver|done|].
  apply (gr_grants _ _ Hg) in Hgr.
  pose proof (NoDup_fmap_elem_inj _ _ _ _ (ti_grants_once _ Hi') Hg1 Hgr eq_refl) as [=]. done.
Qed.

Lemma true_stable (R : ToolState A → ToolState A → Prop) : stable ToolInv R (λ _, True).
Proof. by intros ?. Qed.

(** ** Steps that leave approvals, grants and the backend alone *)
Lemma head_filter_app (f : ToolInvocationRecord → bool) l new c :
  head (filter (λ r, f r = true) l) = Some c → head (filter (λ r, f r = true) (l ++ new)) = Some c.
Proof. rewrite filter_app. by destruct (filter _ l). Qed.

(** The tables other than the approvals, before and after a step. *)
Record same_rest s s' : Prop := {
  sr_ids : (ts_next_id s ≤ ts_next_id s')%nat;
  sr_backend : ts_backend s' = ts_backend s;
  sr_calls : ∃ new, ts_calls s' = ts_calls s ++ new;
  sr_reconciled : ts_reconciliations s' = ts_reconciliations s;
}.

Lemma same_rest_calls s s' t c call :
  same_rest s s' → call_of s t c = Some call → call_of s' t c = Some call.
Proof. intros [_ _ [new Hc] _]. unfold call_of. rewrite Hc. by apply head_filter_app. Qed.

(** Every row stays, with the same intent and a later status. *)
Definition rows_grow s s' : Prop :=
  ∀ t i r, approval (ts_approvals s) t i = Some r →
    ∃ r', approval (ts_approvals s') t i = Some r' ∧ same_request r r' ∧
      may_become (ar_status r) (ar_status r') = true.

Lemma same_request_intent r r' : same_request r r' → intent_of r = intent_of r'.
Proof. unfold same_request, with_status, intent_of. destruct r, r'; simpl. intros [=]. by subst. Qed.

Lemma covers_same r r' b : same_request r r' → covers r b → covers r' b.
Proof.
  unfold same_request, covers, with_status, intent_of. destruct r, r'; simpl. intros [=]. by subst.
Qed.

(** Rebuilding the invariant after a step on the approvals. *)
Lemma approvals_step p s s' gs :
  same_rest s s' → rows_grow s s' → ts_grants s' = ts_grants s ++ gs →
  store_ok (ts_approvals s') →
  (∀ t i r, approval (ts_approvals s') t i = Some r →
     approval (ts_approvals s) t i = Some r ∨
     duty_kept r ∧ (∃ n, (n < ts_next_id s')%nat ∧ i = uuid_at n) ∧
     ∀ t' r', approval (ts_approvals s) t' i = Some r' → t' = t) →
  (∀ t t' i r r', approval (ts_approvals s') t i = Some r → approval (ts_approvals s) t i = None →
     approval (ts_approvals s') t' i = Some r' → t = t') →
  NoDup (gt_approval <$> ts_grants s ++ gs) →
  (∀ g, g ∈ gs → ∃ r, row s' (gt_approval g) = Some r ∧ ar_status r = AP_CONSUMED) →
  ToolInv s → ToolInv s' ∧ Guarantee p s s'.
Proof.
  intros Hrest Hrows Hgr Hok Hnew Huniq Hnd Hgs [].
  assert (Grows s s') as Hgrows.
  { split; [done|apply Hrest|rewrite Hgr; set_solver|apply Hrest|by rewrite (sr_reconciled _ _ Hrest)]. }
  split; [|split; [done|apply sends_nothing, Hrest]].
  split; [done|..].
  - intros t i r [Hr|(_ & ? & _)]%Hnew; [|done]. destruct (ti_ids0 _ _ _ Hr) as (n & ? & ?).
    exists n. pose proof (sr_ids _ _ Hrest). split; [lia|done].
  - intros t t' i r r' Hr Hr'. destruct (Hnew _ _ _ Hr) as [H|(_ & _ & H)],
      (Hnew _ _ _ Hr') as [H'|(_ & _ & H')]; [by eapply ti_tenant0|by eapply H'|symmetry; by eapply H|].
    destruct (approval (ts_approvals s) t i) as [r0|] eqn:Hr0; [|by eapply Huniq].
    by eapply H'.
  - intros t i r [Hr|[? _]]%Hnew; eauto.
  - by rewrite Hgr.
  - intros g. rewrite Hgr. intros [(r & Hr & Hst)%ti_grants0|(r & Hr & Hst)%Hgs]%elem_of_app.
    + destruct (Hrows _ _ _ Hr) as (r' & ? & _ & Hm). exists r'. split; [done|].
      destruct (ar_status r), (ar_status r'); try done; set_solver.
    + exists r. split; [done|]. rewrite Hst. by left.
  - by rewrite (sr_backend _ _ Hrest).
  - intros b k. rewrite (sr_backend _ _ Hrest). intros Hin Hk.
    destruct (ti_spent0 b k Hin Hk) as (? & r & Hr & Hc). split; [rewrite Hgr; set_solver|].
    destruct (Hrows _ _ _ Hr) as (r' & ? & Hsame & _). exists r'. split; [done|].
    by eapply covers_same.
  - by rewrite (sr_backend _ _ Hrest).
  - intros t c rc. rewrite (sr_reconciled _ _ Hrest). intros (call & Hc & ?)%ti_reconciled0.
    exists call. split; [by eapply same_rest_calls|done].
Qed.

Lemma rows_unchanged s s' : unchanged (ts_approvals s) (ts_approvals s') → rows_grow s s'.
Proof. intros Hun t i r Hr. exists r. by rewrite Hun, may_become_refl. Qed.

Lemma unchanged_safe p s s' :
  same_rest s s' → unchanged (ts_approvals s) (ts_approvals s') → ts_grants s' = ts_grants s →
  store_ok (ts_approvals s') → ToolInv s → ToolInv s' ∧ Guarantee p s s'.
Proof.
  intros Hrest Hun Hgr Hok Hi. apply (approvals_step p s s' []); try done.
  - by apply rows_unchanged.
  - by rewrite app_nil_r.
  - intros t i r. rewrite Hun. by left.
  - intros t t' i r r'. rewrite Hun. congruence.
  - rewrite app_nil_r. apply Hi.
  - intros g Hg. by apply not_elem_of_nil in Hg.
Qed.

(** Steps on the other tables. *)
Lemma rest_safe p s s' :
  same_rest s s' → ts_approvals s' = ts_approvals s → ts_grants s' = ts_grants s →
  ToolInv s → ToolInv s' ∧ Guarantee p s s'.
Proof.
  intros Hrest Ha Hg Hi. apply unchanged_safe; [done| |done| |done]; rewrite Ha; [by intros ??|apply Hi].
Qed.

(** A row that exists moves on. *)
Lemma update_safe p s s' t i r r' gs :
  same_rest s s' → store_ok (ts_approvals s') →
  approval (ts_approvals s) t i = Some r → updated t i r' (ts_approvals s) (ts_approvals s') →
  same_request r r' → may_become (ar_status r) (ar_status r') = true → duty_kept r' →
  ts_grants s' = ts_grants s ++ gs →
  gs = [] ∨ gs = [{| gt_operation := p; gt_approval := (t, i) |}] ∧
            ar_status r = AP_APPROVED ∧ ar_status r' = AP_CONSUMED →
  ToolInv s → ToolInv s' ∧ Guarantee p s s'.
Proof.
  intros Hrest Hok Hr [Hr' Hother] Hsame Hmay Hduty Hgr Hgs Hi.
  apply (approvals_step p s s' gs); try done.
  - intros t0 i0 r0 Hr0. destruct (decide ((t0, i0) = (t, i))) as [[= -> ->]|Hne].
    + exists r'. simplify_eq. done.
    + exists r0. by rewrite Hother, may_become_refl.
  - intros t0 i0 r0 Hr0. destruct (decide ((t0, i0) = (t, i))) as [[= -> ->]|Hne].
    + right. simplify_eq. split; [done|]. split.
      * destruct (ti_ids _ Hi _ _ _ Hr) as (n & ? & ?). exists n. pose proof (sr_ids _ _ Hrest).
        split; [lia|done].
      * intros. by eapply (ti_tenant _ Hi).
    + left. by rewrite <- Hother.
  - intros t0 t1 i0 r0 r1 Hr0 Hnone Hr1. destruct (decide ((t0, i0) = (t, i))) as [[= -> ->]|Hne].
    + congruence.
    + rewrite Hother in Hr0 by done. congruence.
  - destruct Hgs as [->|(-> & Hst & _)]; [rewrite app_nil_r; apply Hi|].
    rewrite fmap_app. apply NoDup_app. split; [apply Hi|]. split; [|apply NoDup_singleton].
    intros k (g & -> & Hg)%list_elem_of_fmap Hk%list_elem_of_singleton. simpl in Hk.
    destruct (ti_grants _ Hi g Hg) as (r0 & Hr0 & Hst0). rewrite Hk in Hr0. simpl in Hr0.
    simplify_eq. rewrite Hst in Hst0. set_solver.
  - intros g Hg. destruct Hgs as [->|(-> & _ & Hst)]; [by apply not_elem_of_nil in Hg|].
    apply list_elem_of_singleton in Hg as ->. by exists r'.
Qed.

(** ** Transactions on the approvals *)
Lemma same_rest_refl s : same_rest s s.
Proof. split; [done|done|exists []; by rewrite app_nil_r|done]. Qed.

Lemma same_rest_approvals s a gs : same_rest s (add_grants gs (set_approvals a s)).
Proof. split; [done|done|exists []; by rewrite app_nil_r|done]. Qed.

Lemma same_rest_set s a : same_rest s (set_approvals a s).
Proof. split; [done|done|exists []; by rewrite app_nil_r|done]. Qed.

Lemma good_transition p (J : ToolState A → Prop) f t i from to d at' :
  (∀ st, st ∈ from → may_become st to = true) →
  (to = AP_CONSUMED → from = [AP_APPROVED]) →
  (∀ s r, ToolInv s → J s → approval (ts_approvals s) t i = Some r → ar_status r ∈ from →
     duty_kept (moved to d at' r)) →
  good_step ToolInv (Guarantee p) J (service_transition p f t i from to d at').
Proof.
  intros Hmay Hcons Hduty s Hi Hj. unfold service_transition.
  destruct (store_transition f t i from to d at' (ts_approvals s)) as [res a] eqn:Hrun. simpl.
  destruct (transition_law _ _ _ _ _ _ _ _ _ _ Hrun (ti_store _ Hi)) as [Hok [[Hun _]|Hup]].
  - apply unchanged_safe; [apply same_rest_approvals|done| |done|done]. simpl. rewrite Hun.
    destruct (approval _ t i); [|apply app_nil_r].
    repeat case_bool_decide; try done; apply app_nil_r.
  - destruct Hup as (r & Hr & Hfrom & Hupd & _).
    eapply (update_safe p s _ t i r); [apply same_rest_approvals|done|done|exact Hupd|done| | |done| |done].
    + by apply Hmay.
    + by apply (Hduty s).
    + rewrite Hr. destruct Hupd as [-> _]. simpl. destruct (decide (to = AP_CONSUMED)) as [->|Hne].
      * rewrite (Hcons eq_refl) in Hfrom. apply list_elem_of_singleton in Hfrom. right.
        by rewrite Hfrom.
      * left. rewrite (bool_decide_eq_false_2 (to = _)) by done. by rewrite andb_false_r.
Qed.

Lemma good_expire p (J : ToolState A → Prop) f t i :
  good_step ToolInv (Guarantee p) J
    (service_transition p f t i [AP_PENDING; AP_APPROVED] AP_EXPIRED None None).
Proof.
  apply good_transition; [by intros []|done|]. intros s r _ _ _ _ _ Hst. simpl in Hst. set_solver.
Qed.

Lemma good_consume p (J : ToolState A → Prop) f t i :
  good_step ToolInv (Guarantee p) J
    (service_transition p f t i [AP_APPROVED] AP_CONSUMED None None).
Proof.
  apply good_transition; [by intros st ->%list_elem_of_singleton|done|].
  intros s r Hi _ Hr Hst%list_elem_of_singleton Hhigh _. simpl in *.
  apply (ti_duty _ Hi _ _ _ Hr Hhigh). rewrite Hst. by left.
Qed.

(** Reads. *)
Lemma good_read p (J : ToolState A → Prop) {B} (m : ST (ToolState A) ToolError B) :
  (∀ s, ToolInv s → (m s).2 = s) → good_step ToolInv (Guarantee p) J m.
Proof. intros Hm s Hi _. rewrite Hm by done. split; [done|apply guarantee_refl]. Qed.

Lemma read_approvals {B} (m : ST A ToolError B) s :
  (m (ts_approvals s)).2 = ts_approvals s → (on_approvals m s).2 = s.
Proof.
  unfold on_approvals. destruct (m (ts_approvals s)) as [res a]. simpl. intros ->. by destruct s.
Qed.

Lemma read_transaction {B} f (m : ST (ToolState A) ToolError B) s :
  (m s).2 = s → (transaction f TSql m s).2 = s.
Proof. unfold transaction. destruct (m s) as [[b|e] s']; simpl; [|done]. by destruct f; intros ->. Qed.

Lemma store_get_reads f t i s : ToolInv s → (on_approvals (store_get f t i) s).2 = s.
Proof.
  intros Hi. apply read_approvals. destruct (store_get f t i (ts_approvals s)) eqn:Hrun.
  by destruct (get_law _ _ _ _ _ _ Hrun (ti_store _ Hi)).
Qed.

Lemma store_find_reads f t n sts s : ToolInv s → (on_approvals (store_find_open f t n sts) s).2 = s.
Proof.
  intros Hi. apply read_approvals. destruct (store_find_open f t n sts (ts_approvals s)) eqn:Hrun.
  by destruct (find_open_law _ _ _ _ _ _ _ Hrun (ti_store _ Hi)).
Qed.

(** The EXPIRED copy written over a request that was read. *)
Lemma good_expired_copy p f r :
  good_step ToolInv (Guarantee p) (seen r)
    (on_approvals (store_upsert f (with_status AP_EXPIRED (ar_decided_by r) (ar_decided_at r) r))).
Proof.
  intros s Hi (r' & Hr' & Hsame). unfold on_approvals. set (r1 := with_status _ _ _ _).
  destruct (store_upsert f r1 (ts_approvals s)) as [res a] eqn:Hrun. simpl.
  destruct (upsert_law _ _ _ _ _ Hrun (ti_store _ Hi)) as [Hok Hcases].
  - intros t' Ht'. destruct (approval _ t' _) as [r2|] eqn:Hr2; [|done].
    exfalso. apply Ht'. symmetry. simpl in *. by eapply (ti_tenant _ Hi).
  - simpl. intros r0 Hr0. simplify_eq. by symmetry.
  - destruct Hcases as [[Hun _]|Hupd]; [by apply unchanged_safe; [apply same_rest_set|..]|].
    eapply (update_safe p s _ _ _ r' r1 []);
      [apply same_rest_set|done|exact Hr'|exact Hupd| | | |by rewrite app_nil_r|by left|done].
    + by symmetry.
    + apply may_become_expired.
    + intros _ Hst. simpl in Hst. set_solver.
Qed.

(** A new request. *)
Lemma fresh_id s t i r :
  ToolInv s → approval (ts_approvals s) t i = Some r → i ≠ uuid_at (ts_next_id s).
Proof. intros Hi (n & Hn & ->)%(ti_ids _ Hi) ->%(inj uuid_at). lia. Qed.

Lemma create_safe p f r s :
  ar_approval_id r = uuid_at (ts_next_id s) → ar_status r = AP_PENDING → ToolInv s →
  let s1 := set_tool_ids (S (ts_next_id s)) s in
  let s' := (on_approvals (store_upsert f r) s1).2 in ToolInv s' ∧ Guarantee p s s'.
Proof.
  intros Hid Hst Hi s1 s'. subst s'. unfold on_approvals. simpl.
  destruct (store_upsert f r (ts_approvals s)) as [res a] eqn:Hrun. simpl.
  assert (∀ t, approval (ts_approvals s) t (ar_approval_id r) = None) as Hfresh.
  { intros t. destruct (approval _ t _) eqn:Hr; [|done]. by apply fresh_id in Hr. }
  assert (same_rest s (set_approvals a s1)) as Hrest.
  { split; simpl; [lia|done|exists []; by rewrite app_nil_r|done]. }
  destruct (upsert_law _ _ _ _ _ Hrun (ti_store _ Hi)) as [Hok Hcases]; [by intros|by rewrite Hfresh|].
  destruct Hcases as [[Hun _]|[Hr Hother]]; [by apply unchanged_safe|].
  assert (∀ t i r0, approval a t i = Some r0 →
    t = ar_tenant_id r ∧ i = ar_approval_id r ∧ r0 = r ∨ approval (ts_approvals s) t i = Some r0) as Hinv.
  { intros t i r0 Hr0. destruct (decide ((t, i) = (ar_tenant_id r, ar_approval_id r))) as [[= -> ->]|Hne].
    - left. simplify_eq. done.
    - right. by rewrite <- Hother. }
  apply (approvals_step p s _ []); try done; simpl.
  - intros t i r0 Hr0. exists r0. simpl. rewrite Hother, may_become_refl; [done|].
    intros [= -> ->]. by rewrite Hfresh in Hr0.
  - by rewrite app_nil_r.
  - intros t i r0 [(-> & -> & ->)|?]%Hinv; [|by left]. right. split.
    + intros _. rewrite Hst. intros Hin. set_solver.
    + split; [exists (ts_next_id s); split; [lia|done]|]. intros t' r' Hr'. by rewrite Hfresh in Hr'.
  - intros t t' i r0 r1 [(-> & -> & ->)|?]%Hinv Hnone Hr1; [|congruence].
    apply Hinv in Hr1 as [(-> & _)|Hr1]; [done|]. by rewrite Hfresh in Hr1.
  - rewrite app_nil_r. apply Hi.
  - intros g Hg. by apply not_elem_of_nil in Hg.
Qed.

(** ** Operations of the approval service *)
Abbreviation safe p Φ J prog := (proc_safe ToolInv (Rely p) (Guarantee p) (returns Φ) J prog).
Abbreviation anything := (λ _ _, True).
Abbreviation always := (λ _, True).

Definition seen_at (t i : uuid) (r : ApprovalRequest) s : Prop :=
  seen r s ∧ ar_tenant_id r = t ∧ ar_approval_id r = i.

Lemma seen_at_stable p t i r : stable ToolInv (Rely p) (seen_at t i r).
Proof. intros s s' ??? [? ?]. split; [by apply (seen_stable p r s s')|done]. Qed.
Lemma seen_at_kept p t i r : stable ToolInv (Guarantee p) (seen_at t i r).
Proof. intros s s' ??? [? ?]. split; [by apply (seen_kept p r s s')|done]. Qed.

Lemma row_seen t i r s : ToolInv s → approval (ts_approvals s) t i = Some r → seen_at t i r s.
Proof.
  intros Hi Hr. destruct (approval_key _ _ _ _ (ti_store _ Hi) Hr) as [Ht Hid].
  split; [|done]. exists r. by rewrite Ht, Hid.
Qed.

Lemma clock_safe p (J : ToolState A → Prop) :
  stable ToolInv (Rely p) J → safe p (λ _, J) J clock.
Proof.
  intros HJ. apply returns_step; [by apply good_read| |by intros]. intros s now s' _ Hj H.
  by apply gets_Ok in H as [_ ->].
Qed.

Lemma on_approvals_Ok {B} (m : ST A ToolError B) s b s' :
  on_approvals m s = (Ok b, s') → ∃ a, m (ts_approvals s) = (Ok b, a) ∧ s' = set_approvals a s.
Proof. unfold on_approvals. destruct (m (ts_approvals s)) as [res a]. intros [= -> <-]. eauto. Qed.

(** A transition that reports its row. *)
Lemma transition_result p f t i from to d at' s r' s' :
  ToolInv s → (∀ st, st ∈ from → may_become st to = true) →
  service_transition p f t i from to d at' s = (Ok (Some r'), s') → ToolInv s' →
  seen_at t i r' s' ∧
  (from = [AP_APPROVED] → to = AP_CONSUMED →
   {| gt_operation := p; gt_approval := (t, i) |} ∈ ts_grants s' ∧
   (∀ b, b ∈ ts_backend s' → bc_grant b ≠ Some (t, i))).
Proof.
  intros Hi Hmay Hrun Hi'. unfold service_transition in Hrun.
  destruct (store_transition f t i from to d at' (ts_approvals s)) as [res a] eqn:Hst.
  destruct (transition_law _ _ _ _ _ _ _ _ _ _ Hst (ti_store _ Hi)) as [Hok [[_ Hno]|Hup]];
    [injection Hrun as -> _; by destruct (Hno r')|]. destruct Hup as (r & Hr & Hfrom & [Hnew _] & Hres).
  rewrite Hr, Hnew in Hrun. simplify_eq. specialize (Hres _ eq_refl) as [= ->].
  split; [by apply row_seen|].
  intros -> ->. apply list_elem_of_singleton in Hfrom. rewrite Hfrom. simpl.
  split; [apply elem_of_app; right; by left|].
  intros b Hb Hk. destruct (ti_spent _ Hi b _ Hb Hk) as [Hg _].
  destruct (ti_grants _ Hi _ Hg) as (r0 & Hr0 & Hst0). simpl in Hr0. simplify_eq.
  rewrite Hfrom in Hst0. set_solver.
Qed.

Lemma get_request_safe p fault t i : safe p (seen_at t i) always (get_request p fault t i).
Proof.
  unfold get_request. eapply returns_bind with (Φ := λ o s, from_option (λ r, seen_at t i r s) True o).
  { apply returns_step.
    - apply good_read. by apply store_get_reads.
    - intros s o s' Hi _ (a & Hrun & ->)%on_approvals_Ok.
      destruct (get_law _ _ _ _ _ _ Hrun (ti_store _ Hi)) as [-> Ho]. specialize (Ho _ eq_refl) as ->.
      destruct (approval _ t i) as [r|] eqn:Hr; [|done]. simpl. destruct s. by apply row_seen.
    - intros [r|]; [apply seen_at_stable|apply true_stable]. }
  intros [r|]; [|apply returns_raise]. simpl. case_bool_decide; [|by apply returns_ret].
  eapply returns_bind; [apply clock_safe, seen_at_stable|]. intros now. simpl.
  case_match; [|by apply returns_ret].
  eapply returns_bind with (Φ := λ o s, seen_at t i r s ∧ from_option (λ r, seen_at t i r s) True o).
  { apply returns_step; [apply good_expire| |].
    - intros s o s' Hi Hseen Hrun.
      assert (ToolInv s' ∧ Guarantee p s s') as [Hi' Hg].
      { replace s' with (service_transition p (fault 2%nat) t i [AP_PENDING; AP_APPROVED] AP_EXPIRED
          None None s).2 by by rewrite Hrun. by apply (good_expire p always). }
      split; [by apply (seen_at_kept p t i r s)|]. destruct o as [r'|]; [|done].
      eapply transition_result; [exact Hi| |exact Hrun|done]. by intros [].
    - intros o s s' ??? [? ?]. split; [by apply (seen_at_stable p t i r s s')|].
      destruct o as [r'|]; [by apply (seen_at_stable p t i r' s s')|done]. }
  intros [r'|]; apply returns_ret; naive_solver.
Qed.

Lemma decision_duty r r0 d code_role at' :
  decision_refused r d code_role = None → same_request r r0 →
  duty_kept (moved AP_APPROVED (Some d) at' r0) ∧ duty_kept (moved AP_DENIED (Some d) at' r0).
Proof.
  intros Hdec Hsame. assert (ar_side_effect r0 = HIGH_RISK → d ≠ ar_requested_by r0) as Hd.
  { unfold decision_refused, same_request in *. destruct r, r0; simpl in *. simplify_eq.
    intros ->. simpl in Hdec. by case_bool_decide. }
  split; intros Hh Hst; [exists d; auto|]. simpl in Hst. set_solver.
Qed.

Lemma decide_request_safe p fault t i decision d role :
  safe p anything always (decide_request p fault t i decision d role).
Proof.
  unfold decide_request. eapply returns_bind; [apply get_request_safe|]. intros r. simpl.
  do 2 (case_bool_decide; [apply returns_raise|]).
  destruct (decision_refused r d role) eqn:Hdec; [apply returns_raise|].
  eapply returns_bind; [apply clock_safe, seen_at_stable|]. intros now. simpl.
  apply returns_bind with (Φ := anything).
  { apply returns_step; [|done|by intros]. apply good_transition.
    - intros st ->%list_elem_of_singleton. by destruct decision.
    - by destruct decision.
    - intros s r0 Hi ((r1 & Hr1 & Hsame) & Ht & Hid) Hr0 _. rewrite Ht, Hid, Hr0 in Hr1.
      injection Hr1 as <-. pose proof (decision_duty r r0 d role (Some now) Hdec Hsame) as [? ?]. by destruct decision. }
  intros [r'|]; [by apply returns_ret|apply returns_raise].
Qed.

Lemma consume_safe p fault t i intent release :
  safe p (λ r s, holds p (t, i) r s ∧ intent_of r = intent) always
    (consume p fault t i intent release).
Proof.
  unfold consume. eapply returns_bind; [apply get_request_safe|]. intros r. simpl.
  do 2 (case_bool_decide; [apply returns_raise|]).
  destruct (bool_decide (intent_of r = intent)) eqn:Hint; [|apply returns_raise].
  apply bool_decide_eq_true in Hint. simpl. case_bool_decide; [|apply returns_raise].
  eapply returns_bind with
    (Φ := λ o s, from_option (λ r, holds p (t, i) r s ∧ intent_of r = intent) True o).
  - apply returns_step; [apply good_consume| |].
    + intros s o s' Hi ((r0 & Hr0 & Hsame) & Ht & Hid) Hrun. destruct o as [r'|]; [|done].
      assert (ToolInv s' ∧ Guarantee p s s') as [Hi' Hg].
      { replace s' with (service_transition p (fault 4%nat) t i [AP_APPROVED] AP_CONSUMED
          None None s).2 by by rewrite Hrun. by apply (good_consume p always). }
      destruct (transition_result p (fault 4%nat) t i [AP_APPROVED] AP_CONSUMED None None s r' s' Hi)
        as [[Hseen [Ht' Hid']] Hgrant]; [by intros st ->%list_elem_of_singleton|done|done|].
      destruct (Hgrant eq_refl eq_refl) as [? ?].
      split; [split; [done|split; [done|split; [congruence|done]]]|].
      destruct Hseen as (r2 & Hr2 & Hsame2). rewrite Ht', Hid' in Hr2.
      destruct Hg as [[Hrows _ _ _ _] _]. rewrite Ht, Hid in Hr0.
      destruct (Hrows _ _ _ Hr0) as (r3 & Hr3 & Hsame3 & _). simplify_eq.
      rewrite <- (same_request_intent r r'); [done|]. rewrite Hsame, Hsame3. by symmetry.
    + intros [r'|]; [|apply true_stable]. intros s s' ??? [? ?].
      split; [by apply (holds_stable p (t, i) r' s s')|done].
  - intros [r'|]; [by apply returns_ret|apply returns_raise].
Qed.

Lemma find_unexpired_safe p fault st site t intent :
  safe p anything always (find_unexpired fault st site t intent).
Proof.
  unfold find_unexpired.
  eapply returns_bind with (Φ := λ o s, from_option (λ r, seen r s) True o).
  { apply returns_step.
    - apply good_read. by apply store_find_reads.
    - intros s o s' Hi _ (a & Hrun & ->)%on_approvals_Ok. destruct o as [r|]; [|done].
      destruct (find_open_law _ _ _ _ _ _ _ Hrun (ti_store _ Hi)) as (-> & Hfound & _).
      destruct (Hfound r eq_refl) as (Hr & _). simpl. destruct s. by apply row_seen in Hr as [? _].
    - intros [r|]; [apply seen_stable|apply true_stable]. }
  intros [r|]; [|by apply returns_ret]. simpl.
  eapply returns_bind; [apply clock_safe, seen_stable|]. intros now. simpl.
  case_match; [|by apply returns_ret].
  apply returns_bind with (Φ := anything); [|intros; by apply returns_ret].
  apply returns_step; [apply good_expired_copy|done|by intros].
Qed.

Lemma create_request_safe p fault ttl t release intent params eff role policy :
  safe p anything always (create uuid_at fault ttl t release intent params eff role policy).
Proof.
  unfold create. eapply returns_bind; [apply clock_safe, true_stable|]. intros now. simpl.
  apply returns_step; [|done|by intros]. intros s Hi _.
  unfold mbind, ST_mbind, draw_id, gets, modify, mret, ST_mret. simpl.
  set (r := Build_ApprovalRequest _ _ _ _ _ _ _ _ _ _ _ _ _ _ _ _).
  pose proof (create_safe p (fault 0%nat) r s eq_refl eq_refl Hi) as H. simpl in H.
  destruct (on_approvals _ _) as [[] s'] eqn:Hrun; unfold mbind, ST_mbind, gets, modify, mret, ST_mret in Hrun;
    simpl in *; done.
Qed.

(** ** Operations of the executor *)
Abbreviation hash_of := (canonical_params_hash canonical_json sha256).

Lemma record_appends f r s :
  let s' := (ToolCalls.record f r s).2 in
  s' = s ∨ s' = set_calls (ts_calls s ++ [ToolCalls.stored_record r]) s.
Proof.
  unfold ToolCalls.record, transaction, mbind, ST_mbind, gets, ensure, mret, ST_mret, raise, modify.
  simpl. destruct (existsb _ _); simpl; [by destruct f; left|].
  destruct (ToolCalls.row_check _ _); simpl; [destruct f; auto|by left].
Qed.

Lemma good_recorded p (J : ToolState A → Prop) f (mk : uuid → ToolInvocationRecord) {B}
    (k : ToolInvocationRecord → B) :
  good_step ToolInv (Guarantee p) J
    (call_id ← draw_id uuid_at; _ ← ToolCalls.record f (mk call_id); mret (k (mk call_id))).
Proof.
  intros s Hi _. unfold mbind at 1 3, ST_mbind at 1 3. unfold draw_id, mbind, ST_mbind, gets, modify, mret, ST_mret.
  simpl. set (s1 := set_tool_ids _ s). set (r := mk _).
  pose proof (record_appends f r s1) as Hrec. simpl in Hrec.
  assert (∀ s', s' = s1 ∨ s' = set_calls (ts_calls s1 ++ [ToolCalls.stored_record r]) s1 →
    ToolInv s' ∧ Guarantee p s s') as Hs'.
  { intros s' [->| ->]; apply rest_safe; try done; (split; simpl; [lia|done| |done]); [|by eexists].
    exists []. by rewrite app_nil_r. }
  destruct (ToolCalls.record f r s1) as [[] s']; simpl in *; by apply Hs'.
Qed.

Lemma record_blocked_safe p (J : ToolState A → Prop) fault site t name params key by' code v eff e se re :
  safe p anything J
    (record_blocked uuid_at canonical_json sha256 fault site t name params key by' code v eff e se re).
Proof. apply returns_step; [|done|by intros]. apply (good_recorded p J (fault site) _ id). Qed.

(** What is known about the grant of a call that is about to be sent. *)
Definition grant_fact p (d : ToolDefinition) (params : jobject) (by' : string)
    (grant : option (uuid * uuid)) s : Prop :=
  match grant with
  | Some k =>
      (td_side_effect d ∉ AUTO_EXECUTABLE_SIDE_EFFECTS) ∧
      ∃ r, holds p k r s ∧ ar_tenant_id r = td_tenant_id d ∧
        intent_of r = {| in_tool_name := td_name d; in_tool_version := td_version d;
                         in_params_hash := hash_of params; in_requested_by := by' |}
  | None => ¬ gated wired d
  end.

Lemma grant_fact_stable p d params by' grant :
  stable ToolInv (Rely p) (grant_fact p d params by' grant).
Proof.
  intros s s' ???. destruct grant as [k|]; [|done]. intros (? & r & ? & ?). split; [done|].
  exists r. split; [by apply (holds_stable p k r s s')|done].
Qed.

Lemma call_backend_safe p backend d params by' grant n :
  safe p (λ _ _, grant = None → ¬ gated wired d) (grant_fact p d params by' grant)
    (call_backend p backend d params by' grant n).
Proof.
  apply returns_step; [|by intros s a s' _ Hfact _ ->|by intros a s s' _ _ _]. intros s Hi Hfact. simpl. set (b := Build_BackendCall _ _ _ _ _).
  split; [|split; [split; simpl; try done|]].
  - destruct Hi. split; simpl; try done.
    + rewrite omap_app. apply NoDup_app. split; [done|]. simpl. destruct grant as [k|]; simpl.
      * split; [|apply NoDup_singleton]. intros k' (b' & Hb' & Hk')%list_elem_of_omap ->%list_elem_of_singleton.
        destruct Hfact as (_ & r & (_ & Hun & _) & _). by eapply Hun.
      * split; [|apply NoDup_nil_2]. intros k' _ Hk'. by apply not_elem_of_nil in Hk'.
    + intros b' k [Hb'| ->%list_elem_of_singleton]%elem_of_app Hk; [by apply ti_spent0|].
      simpl in Hk. subst grant. destruct Hfact as (_ & r & (Hg & _ & -> & (r' & Hr' & Hsame)) & Ht & Hint).
      split; [done|]. exists r'. split; [done|]. eapply covers_same; [exact Hsame|]. by split.
    + intros b' [Hb'| ->%list_elem_of_singleton]%elem_of_app Hgated; [by apply ti_gated0|].
      simpl in *. destruct grant; [done|by destruct Hfact].
  - intros t i r Hr. exists r. by rewrite may_become_refl.
  - exists []. by rewrite app_nil_r.
  - exists [b]. split; [done|]. by constructor.
Qed.

(** The loop: a call that may be repeated needs no grant, a granted one is sent once. *)
Lemma attempt_loop_safe p backend d params by' grant retry n k err :
  (retry = true → grant = None) →
  safe p anything (grant_fact p d params by' grant)
    (attempt_loop p backend d params by' grant retry n k err).
Proof.
  intros Hretry. revert err. induction k as [|k IH]; intros err; cbn [attempt_loop]; [by apply returns_ret|].
  eapply returns_bind; [apply call_backend_safe|]. destruct grant as [g|].
  - assert (retry = false) as -> by (by destruct retry; [specialize (Hretry eq_refl)|]).
    intros [r| |u]; simpl; rewrite ?andb_false_r; repeat case_match; by apply returns_ret.
  - intros o. eapply safe_weaken with (J := grant_fact p d params by' None); [|intros s _ H; by apply H].
    destruct o as [r| |u]; simpl; repeat case_match; first [apply IH|by apply returns_ret].
Qed.

Section Invoke.
  Context (config : ServiceConfig) (Hwired : wired = true → is_Some (sc_approvals config)).
  Context (p : nat) (fault : nat → txn_fault) (backend : nat → BackendOutcome).

Lemma gate_safe d params iv :
  (td_side_effect d ∉ AUTO_EXECUTABLE_SIDE_EFFECTS) →
  safe p (λ gate s, match gate with
                    | inl grant => grant_fact p d params (iv_requested_by iv) grant s
                    | inr _ => True
                    end) always
    (gate_write_side_effect uuid_at canonical_json sha256 config p fault d params (hash_of params) iv).
Proof.
  intros Heff. unfold gate_write_side_effect. destruct (sc_approvals config) as [ttl|].
  - apply returns_bind with (Φ := anything); [apply find_unexpired_safe|]. intros [r|].
    + eapply returns_bind; [apply consume_safe|]. intros c. apply returns_ret. simpl.
      intros s _ [Hh Hint]. pose proof Hh as (_ & _ & [= Ht Hid] & _). split; [done|].
      exists c. rewrite <- Ht, <- Hid. done.
    + apply returns_bind with (Φ := anything); [apply find_unexpired_safe|].
      intros [r|]; [by apply returns_ret|].
      apply returns_bind with (Φ := anything); [apply create_request_safe|].
      intros c. by apply returns_ret.
  - destruct (negb _ && negb _) eqn:Hc.
    + apply returns_ret. intros s _ _. simpl. apply andb_true_iff in Hc as [_ Hc].
      apply negb_true_iff, bool_decide_eq_false in Hc. intros [?|[Hw _]]; [done|].
      destruct (Hwired Hw) as [? ?]. done.
    + apply returns_bind with (Φ := anything); [apply record_blocked_safe|].
      intros r. apply returns_raise.
Qed.

Lemma execute_and_record_safe iv d params grant :
  safe p anything (grant_fact p d params (iv_requested_by iv) grant)
    (execute_and_record uuid_at config p fault backend iv d params (hash_of params) grant).
Proof.
  unfold execute_and_record, execute_with_contract.
  destruct grant as [k|].
  - (* a granted call is never retried *)
    eapply safe_weaken with (J := grant_fact p d params (iv_requested_by iv) (Some k)); [|done].
    destruct (can_retry d (iv_idempotency_key iv)) eqn:Hretry.
    + eapply safe_weaken with (J := λ _, False); [|].
      * apply safe_false.
      * intros s _ [Heff _]. apply Heff. unfold can_retry in Hretry.
        apply orb_true_iff in Hretry as [->%bool_decide_eq_true|H]; [by left|].
        rewrite !andb_true_iff, bool_decide_eq_true in H. destruct H as [[-> _] _]. right. by left.
    + eapply returns_bind with (Φ := anything); [by apply attempt_loop_safe|].
      intros [[[st er] res] n]. apply returns_step; [|done|by intros].
      apply (good_recorded p _ (fault 26%nat) _ (λ r, Build_ToolInvocationResult st r false er)).
  - eapply returns_bind with (Φ := anything); [by apply attempt_loop_safe|].
    intros [[[st er] res] n]. apply returns_step; [|done|by intros].
    apply (good_recorded p _ (fault 26%nat) _ (λ r, Build_ToolInvocationResult st r false er)).
Qed.

Lemma find_replay_safe iv d params grant f t key :
  safe p (λ _, grant_fact p d params (iv_requested_by iv) grant)
    (grant_fact p d params (iv_requested_by iv) grant) (atomically (ToolCalls.find_replay f t key)).
Proof.
  apply returns_step; [|intros s o s' _ Hf [_ H]%transaction_Ok; by apply gets_Ok in H as [_ ->]|
    intros; apply grant_fact_stable].
  apply good_read. intros s _. by apply read_transaction.
Qed.

Lemma replay_or_execute_safe iv d params grant :
  safe p anything (grant_fact p d params (iv_requested_by iv) grant)
    (replay_or_execute uuid_at canonical_json sha256 config p fault backend iv d params
       (hash_of params) grant).
Proof.
  unfold replay_or_execute. destruct (iv_idempotency_key iv) as [key|] eqn:Hkey;
    [|apply execute_and_record_safe].
  eapply returns_bind; [apply find_replay_safe|]. intros [r|]; [|apply execute_and_record_safe].
  case_bool_decide; [by apply returns_ret|].
  apply returns_bind with (Φ := anything); [apply record_blocked_safe|]. intros. apply returns_raise.
Qed.

Lemma block_then_raise_safe (J : ToolState A → Prop) site iv d params code e :
  safe p anything J
    (pm_bind (block uuid_at canonical_json sha256 fault site iv d params code)
       (λ _, pm_raise e : TP A ToolInvocationResult)).
Proof.
  apply returns_bind with (Φ := anything); [apply record_blocked_safe|]. intros. apply returns_raise.
Qed.

Lemma invoke_safe iv :
  safe p anything always (invoke uuid_at canonical_json sha256 config p fault backend iv).
Proof.
  unfold invoke. apply returns_bind with (Φ := anything).
  { apply returns_step; [|done|by intros]. apply good_read. intros s _. by apply read_transaction. }
  intros [d|].
  - destruct (negb _); [apply block_then_raise_safe|].
    destruct (validate_params d (iv_params iv)) as [params|e].
    + destruct (bool_decide _) eqn:Heff.
      * eapply safe_weaken; [apply replay_or_execute_safe|]. intros s _ _ [Hh|[_ Hn]];
          apply bool_decide_eq_true in Heff; rewrite ?Hh, ?Hn in Heff; set_solver.
      * apply bool_decide_eq_false in Heff.
        eapply returns_bind; [by apply gate_safe|].
        intros [grant|i]; [apply replay_or_execute_safe|apply block_then_raise_safe].
    + destruct e; first [apply returns_raise|apply block_then_raise_safe].
  - apply returns_bind with (Φ := anything).
    + destruct (ro_has_name _); [|by apply returns_ret].
      apply returns_step; [|done|by intros]. by apply good_read.
    + intros denied. apply returns_bind with (Φ := anything); [apply record_blocked_safe|].
      intros. apply returns_raise.
Qed.

Lemma governed_invoke_safe tool context params :
  safe p anything always
    (governed_invoke uuid_at canonical_json sha256 config p fault backend tool context params).
Proof.
  eapply safe_bind; [apply invoke_safe|]. intros [r|e]; [by apply returns_ret|].
  destruct e; first [by apply returns_ret|apply returns_raise].
Qed.
End Invoke.

(** ** Checkpoints *)
Lemma good_exec p (J : ToolState A → Prop) {B} (m : ES B) :
  good_step ToolInv (Guarantee p) J (on_exec m).
Proof.
  intros s Hi _. unfold on_exec. destruct (m (ts_exec s)) as [res e]. simpl.
  apply rest_safe; [|done..]. split; [done|done|exists []; by rewrite app_nil_r|done].
Qed.

Lemma good_checkpoint p (J : ToolState A → Prop) f (mk : uuid → ExecutionCheckpoint) :
  good_step ToolInv (Guarantee p) J
    (checkpoint_id ← draw_id uuid_at; _ ← CheckpointTable.upsert f (mk checkpoint_id); mret (mk checkpoint_id)).
Proof.
  intros s Hi _. unfold draw_id, CheckpointTable.upsert, transaction, mbind, ST_mbind, gets, modify, ensure, mret, ST_mret, raise.
  simpl. destruct (CheckpointTable.row_check _); simpl; [destruct f; simpl|];
    (apply rest_safe; [|done..]; split; simpl; [lia|done|exists []; by rewrite app_nil_r|done]).
Qed.

Lemma good_checkpoint_update p (J : ToolState A → Prop) f c :
  good_step ToolInv (Guarantee p) J (CheckpointTable.upsert f c).
Proof.
  intros s Hi _. unfold CheckpointTable.upsert, transaction, mbind, ST_mbind, gets, modify, ensure, mret, ST_mret, raise.
  destruct (CheckpointTable.row_check _); simpl; [destruct f; simpl|];
    (apply rest_safe; [|done..]; split; simpl; [lia|done|exists []; by rewrite app_nil_r|done]).
Qed.

Lemma park_safe p fault t e se rel i intent by' :
  safe p anything always (park uuid_at fault t e se rel i intent by').
Proof.
  unfold park. apply returns_bind with (Φ := anything); [apply clock_safe, true_stable|]. intros now.
  apply returns_bind with (Φ := anything).
  - apply returns_step; [apply good_checkpoint|done|by intros].
  - intros c. apply returns_bind with (Φ := anything); [|intros; by apply returns_ret].
    apply returns_step; [apply good_exec|done|by intros].
Qed.

Lemma get_checkpoint_safe p f t c :
  safe p anything always (atomically (CheckpointTable.get f t c)).
Proof.
  apply returns_step; [|done|by intros]. apply good_read. intros s _. by apply read_transaction.
Qed.

(** A checkpoint that was resumed has spent its approval. *)
Lemma resume_safe p ttl fault t c by' : safe p anything always (resume ttl p fault t c by').
Proof.
  unfold resume. eapply returns_bind; [apply get_checkpoint_safe|].
  intros [cp|]; [|apply returns_raise]. case_bool_decide; [apply returns_raise|].
  apply returns_bind with (Φ := anything); [apply returns_step; [apply good_exec|done|by intros]|].
  intros grant. apply returns_bind with (Φ := anything).
  { apply returns_catch.
    - eapply safe_post; [apply consume_safe|]. by intros [].
    - intros err. apply returns_bind with (Φ := anything).
      + apply returns_step; [apply good_exec|done|by intros].
      + intros. apply returns_raise. }
  intros r. apply returns_bind with (Φ := anything); [apply clock_safe, true_stable|]. intros now.
  apply returns_bind with (Φ := anything); [|intros; by apply returns_ret].
  apply returns_step; [apply good_checkpoint_update|done|by intros].
Qed.

(** ** Reconciliation *)
Definition unknown_call (t c : uuid) s : Prop :=
  ∃ call, call_of s t c = Some call ∧ tr_status call = TI_OUTCOME_UNKNOWN.

Lemma unknown_call_grows t c s s' : Grows s s' → unknown_call t c s → unknown_call t c s'.
Proof.
  intros [_ _ _ [new Hc] _] (call & Hcall & ?). exists call. split; [|done].
  unfold call_of. rewrite Hc. by apply head_filter_app.
Qed.

Lemma unknown_call_stable p t c : stable ToolInv (Rely p) (unknown_call t c).
Proof. intros s s' _ _ [? _]. by apply unknown_call_grows. Qed.

Lemma good_reconcile p f rc :
  good_step ToolInv (Guarantee p) (unknown_call (rc_tenant_id rc) (rc_call_id rc))
    (ReconciliationTable.upsert f rc).
Proof.
  apply good_transaction; [apply guarantee_refl|]. intros s a s' Hi Hcall Hrun. run_inv.
  destruct (ts_reconciliations s !! _) eqn:Hrc; run_inv; [split; [done|apply guarantee_refl]|].
  split.
  - destruct Hi. split; simpl; try done. intros t c rc' [[[= <- <-] <-]|[_ ?]]%lookup_insert_Some.
    + exact Hcall.
    + by eapply ti_reconciled0.
  - split; [|by apply sends_nothing]. split; simpl; [|done|done|exists []; by rewrite app_nil_r|].
    + intros t i r Hr. exists r. by rewrite may_become_refl.
    + by apply insert_subseteq.
Qed.

Lemma open_calls_safe p fault t : safe p anything always (open_calls fault t).
Proof.
  unfold open_calls. do 2 (apply returns_bind with (Φ := anything);
    [apply returns_step; [|done|by intros]; apply good_read; intros s _; by apply read_transaction|intros ?]).
  by apply returns_ret.
Qed.

Lemma resolve_call_safe p fault t c decision by' note :
  safe p anything always (resolve_call fault t c decision by' note).
Proof.
  unfold resolve_call.
  eapply returns_bind with (Φ := λ o s, ∀ call, o = Some call → tr_status call = TI_OUTCOME_UNKNOWN → unknown_call t c s).
  { apply returns_step; [apply good_read; intros s _; by apply read_transaction| |].
    - intros s o s' _ _ [_ H]%transaction_Ok. apply gets_Ok in H as [-> ->]. intros call Hc Hst.
      by exists call.
    - intros o s s' ??? Hf call ??. apply (unknown_call_stable p t c s s'); eauto. }
  intros [call|]; [|apply returns_raise]. case_bool_decide as Hst; [apply returns_raise|].
  eapply safe_weaken with (J := unknown_call t c); [|naive_solver].
  eapply returns_bind with (Φ := λ _, unknown_call t c).
  { apply returns_step; [apply good_read; intros s _; by apply read_transaction| |].
    - intros s o s' _ Hf [_ H]%transaction_Ok. by apply gets_Ok in H as [_ ->].
    - intros o. apply unknown_call_stable. }
  intros [rc|]; [apply returns_raise|].
  eapply returns_bind; [apply clock_safe, unknown_call_stable|]. intros now. simpl.
  apply returns_bind with (Φ := anything); [|intros; by apply returns_ret].
  apply returns_step; [|done|by intros]. set (rc := Build_Reconciliation _ _ _ _ _ _).
  exact (good_reconcile p (fault 54%nat) rc).
Qed.

(** ** The system

    Operation [n] is the [n]-th to be started; a crashed operation is one that is
    never scheduled again. *)
Definition run_op {E B} (prog : PM (ToolState A) E B) : proc (ToolState A) unit :=
  proc_bind prog (λ _, Done tt).

Inductive tool_operation (p : nat) : proc (ToolState A) unit → Prop :=
  | op_invoke config fault backend iv :
      (wired = true → is_Some (sc_approvals config)) →
      tool_operation p (run_op (invoke uuid_at canonical_json sha256 config p fault backend iv))
  | op_governed config fault backend tool context params :
      (wired = true → is_Some (sc_approvals config)) →
      tool_operation p (run_op (governed_invoke uuid_at canonical_json sha256 config p fault backend
        tool context params))
  | op_create fault ttl t release intent params eff role policy :
      tool_operation p (run_op (create uuid_at fault ttl t release intent params eff role policy))
  | op_get fault t i : tool_operation p (run_op (get_request p fault t i))
  | op_decide fault t i decision d role :
      tool_operation p (run_op (decide_request p fault t i decision d role))
  | op_consume fault t i intent release :
      tool_operation p (run_op (consume p fault t i intent release))
  | op_park fault t e se rel i intent by' :
      tool_operation p (run_op (park uuid_at fault t e se rel i intent by'))
  | op_resume ttl fault t c by' : tool_operation p (run_op (resume ttl p fault t c by'))
  | op_open_calls fault t : tool_operation p (run_op (open_calls fault t))
  | op_resolve fault t c decision by' note :
      tool_operation p (run_op (resolve_call fault t c decision by' note)).

Record ToolSystem := {
  sy_state : ToolState A;
  sy_operations : list (proc (ToolState A) unit);
}.

Inductive tool_step : ToolSystem → ToolSystem → Prop :=
  | tool_start s ops prog :
      tool_operation (length ops) prog →
      tool_step {| sy_state := s; sy_operations := ops |}
        {| sy_state := s; sy_operations := ops ++ [prog] |}
  | tool_run s ops n next effect :
      ops !! n = Some (Step next effect) →
      tool_step {| sy_state := s; sy_operations := ops |}
        {| sy_state := effect s; sy_operations := <[n := next s]> ops |}
  (** The clock moves, tools are registered, sessions and leases change. *)
  | tool_tick s ops now :
      tool_step {| sy_state := s; sy_operations := ops |}
        {| sy_state := set_tool_now now s; sy_operations := ops |}
  | tool_register s ops fault d created_by :
      tool_step {| sy_state := s; sy_operations := ops |}
        {| sy_state := set_definitions
             (DatabaseRegistry.register fault d created_by (ts_definitions s)).2 s;
           sy_operations := ops |}
  | tool_register_mcp s ops fault t name v tools created_by :
      tool_step {| sy_state := s; sy_operations := ops |}
        {| sy_state := set_definitions
             (DatabaseRegistry.register_mcp_server fault t name v tools created_by
                (ts_definitions s)).2 s;
           sy_operations := ops |}
  | tool_sessions s ops e :
      tool_step {| sy_state := s; sy_operations := ops |}
        {| sy_state := set_exec e s; sy_operations := ops |}.

Lemma operation_safe p prog :
  tool_operation p prog → ∃ Q, proc_safe ToolInv (Rely p) (Guarantee p) Q always prog.
Proof.
  assert (∀ E B (q : PM (ToolState A) E B) (Q : outcome E B → ToolState A → Prop),
    proc_safe ToolInv (Rely p) (Guarantee p) Q always q →
    ∃ Q' : unit → ToolState A → Prop, proc_safe ToolInv (Rely p) (Guarantee p) Q' always (run_op q)) as Hrun.
  { intros E B q Q Hq. exists (λ _ _, True). eapply safe_bind; [exact Hq|]. intros. by constructor. }
  intros []; eapply Hrun;
    first [by apply invoke_safe|by apply governed_invoke_safe|apply create_request_safe
          |apply get_request_safe|apply decide_request_safe|apply consume_safe|apply park_safe
          |apply resume_safe|apply open_calls_safe|apply resolve_call_safe].
Qed.

Definition tools_ok (c : ToolSystem) : Prop :=
  ToolInv (sy_state c) ∧
  ∀ n prog, sy_operations c !! n = Some prog →
    runs_safely ToolInv (Rely n) (Guarantee n) (sy_state c) prog.

(** A step of the environment: no operation is numbered [length ops]. *)
Lemma environment_ok s s' ops :
  same_rest s s' → ts_approvals s' = ts_approvals s → ts_grants s' = ts_grants s →
  tools_ok {| sy_state := s; sy_operations := ops |} →
  tools_ok {| sy_state := s'; sy_operations := ops |} ∧ Grows s s'.
Proof.
  intros Hrest Ha Hg [Hi Hops]. simpl in *.
  destruct (rest_safe (length ops) s s' Hrest Ha Hg Hi) as [Hi' Hguar].
  split; [|apply Hguar]. split; [done|]. intros n prog Hn. simpl in *.
  apply (runs_safely_interference _ _ _ s s'); [done..| |by apply Hops].
  apply (guarantee_rely (length ops)); [|done]. apply lookup_lt_Some in Hn. lia.
Qed.

Lemma tool_step_ok c c' : tool_step c c' → tools_ok c → tools_ok c' ∧ Grows (sy_state c) (sy_state c').
Proof.
  intros Hstep Hok.
  destruct Hstep as [s ops prog Hop|s ops n next effect Hn|s ops now|s ops fault d by'
    |s ops fault t name v tools by'|s ops e].
  3-6: apply environment_ok; [|done..]; (split; [done|done|exists []; by rewrite app_nil_r|done]).
  - destruct Hok as [Hi Hops]. split; [|done]. split; [done|]. intros n q. simpl in *.
    intros [Hq|[Hlen Hq]]%lookup_app_Some; [by apply Hops|].
    destruct (n - length ops)%nat eqn:Hz; [|done]. simplify_eq/=.
    assert (n = length ops) as -> by lia. destruct (operation_safe _ _ Hop) as [Q HQ].
    exists always, Q. split; [done|]. split; [apply true_stable|done].
  - destruct Hok as [Hi Hops]. simpl in *.
    destruct (runs_safely_step _ _ _ _ _ _ Hi (Hops _ _ Hn)) as (Hi' & Hg & Hnext).
    split; [|apply Hg]. split; [done|]. intros m q. simpl. intros Hq.
    apply list_lookup_insert_Some in Hq as [(<- & <- & _)|[Hne Hq]]; [done|].
    apply (runs_safely_interference _ _ _ s (effect s)); [done..| |by apply Hops].
    by apply (guarantee_rely n).
Qed.

Lemma tools_reachable c c' :
  rtc tool_step c c' → tools_ok c → tools_ok c' ∧ Grows (sy_state c) (sy_state c').
Proof.
  induction 1 as [c|c c1 c' Hstep _ IH]; intros Hok; [by split|].
  destruct (tool_step_ok _ _ Hstep Hok) as [Hok1 Hg1]. destruct (IH Hok1) as [? Hg].
  split; [done|]. by etrans.
Qed.

(** A platform before its first request. *)
Record fresh_tools (c : ToolSystem) : Prop := {
  ft_operations : sy_operations c = [];
  ft_store : store_ok (ts_approvals (sy_state c));
  ft_approvals : ∀ t i, approval (ts_approvals (sy_state c)) t i = None;
  ft_grants : ts_grants (sy_state c) = [];
  ft_backend : ts_backend (sy_state c) = [];
  ft_reconciled : ts_reconciliations (sy_state c) = ∅;
}.

Lemma fresh_tools_ok c : fresh_tools c → tools_ok c.
Proof.
  intros [Hops Hst Ha Hg Hb Hr]. split; [|by rewrite Hops].
  split; rewrite ?Hg, ?Hb, ?Hr; try done.
  - intros t i r. by rewrite Ha.
  - intros t t' i r r'. by rewrite Ha.
  - intros t i r. by rewrite Ha.
  - apply NoDup_nil_2.
  - intros g Hin. by apply not_elem_of_nil in Hin.
  - apply NoDup_nil_2.
  - intros b k Hin. by apply not_elem_of_nil in Hin.
  - intros b Hin. by apply not_elem_of_nil in Hin.
Qed.
End Safety.

#[export] Hint Resolve seen_stable seen_kept holds_stable true_stable guarantee_refl : core.
