(* ===== verification/ToolTheorems.v ===== *)
(** * Theorems about the tool subsystem

    One approval is worth one execution under every interleaving, HIGH_RISK grants
    come from a second person, reconciliations are final, the retry contract, the
    registries, and two interleavings that the code gets wrong. *)

From S2P Require Import Prelude PyNum Uuids Interleave ExecutionBus SampleCodec Backpressure Sessions ToolRegistry ToolState Approvals ToolExecutor ToolSafety.
Open Scope string_scope.
Open Scope list_scope.
Open Scope Z_scope.

(** ** Concrete runs of the tool subsystem

    A scheduler that executes a list of actions, shown to follow the step relation,
    and a small tenant with one HIGH_RISK tool, so that the theorems about all
    interleavings can be applied to runs that were computed. *)

(** ** Schedules *)
Section Schedule.
  Context {A : Type} `{!ApprovalStore A}.
  Context (uuid_at : nat → uuid) (canonical_json : json → string) (sha256 : string → string).
  Context (wired : bool).

Inductive action :=
  | Start (program : nat → proc (ToolState A) unit)
  | Run (n : nat)
  | Tick (now : instant).

Definition perform (a : action) (c : ToolSystem) : ToolSystem :=
  let '{| sy_state := s; sy_operations := ops |} := c in
  match a with
  | Start program => {| sy_state := s; sy_operations := ops ++ [program (length ops)] |}
  | Run n =>
      match ops !! n with
      | Some (Step next effect) => {| sy_state := effect s; sy_operations := <[n := next s]> ops |}
      | _ => c
      end
  | Tick now => {| sy_state := set_tool_now now s; sy_operations := ops |}
  end.

Definition run_schedule (l : list action) (c : ToolSystem) : ToolSystem :=
  foldl (λ c a, perform a c) c l.

Definition legal (a : action) : Prop :=
  match a with
  | Start program => ∀ p, tool_operation uuid_at canonical_json sha256 wired p (program p)
  | _ => True
  end.

Lemma perform_step a c :
  legal a → rtc (tool_step uuid_at canonical_json sha256 wired) c (perform a c).
Proof.
  destruct c as [s ops], a as [program|n|now]; simpl; intros Hlegal.
  - apply rtc_once. by constructor.
  - destruct (ops !! n) as [[|next effect]|] eqn:Hn; [done| |done]. apply rtc_once. by constructor.
  - apply rtc_once. constructor.
Qed.

Lemma run_schedule_steps l c :
  Forall legal l → rtc (tool_step uuid_at canonical_json sha256 wired) c (run_schedule l c).
Proof.
  revert c. induction l as [|a l IH]; intros c Hl; [done|]. inversion Hl as [|? ? Ha Hl']; subst.
  etrans; [by apply perform_step|by apply IH].
Qed.
End Schedule.
Arguments Start {A} _.
Arguments Run {A} _.
Arguments Tick {A} _.

(** ** A tenant with one HIGH_RISK tool *)
Definition sample_ids (n : nat) : uuid := Z.of_nat n.
Definition sample_json (_ : json) : string := "".
Definition sample_hash (_ : string) : string :=
  "0123456789abcdef0123456789abcdef0123456789abcdef0123456789abcdef".
Definition no_faults (_ : nat) : txn_fault := NoFault.

#[export] Instance sample_ids_inj : Inj (=) (=) sample_ids.
Proof. intros n m. unfold sample_ids. lia. Qed.

Definition object_schema : jobject := {["type" := JStr "object"]}.

Definition wire_transfer : ToolDefinition :=
  {| td_tenant_id := 1; td_name := "wire_transfer"; td_version := 1;
     td_description := "moves money"; td_side_effect := HIGH_RISK;
     td_input_schema := object_schema; td_output_schema := object_schema; td_scopes := [];
     td_timeout_seconds := 30; td_cost_per_call_micros := 5;
     td_data_classification := CONFIDENTIAL; td_supports_idempotency := false;
     td_source := DECLARED; td_mcp_server := None |}.

Definition empty_exec : ExecState :=
  {| es_sessions := ∅; es_leases := ∅; es_events := ∅; es_executions := ∅; es_outbox := [];
     es_bus := []; es_bucket := Build_AdmissionBucket 0 0; es_next_id := 0;
     es_now := 0 |}.

Definition fresh_state {A} (store : A) : ToolState A :=
  {| ts_definitions := {[(1, "wire_transfer", 1) := wire_transfer]}; ts_approvals := store;
     ts_calls := []; ts_checkpoints := ∅; ts_reconciliations := ∅; ts_exec := empty_exec;
     ts_backend := []; ts_grants := []; ts_next_id := 0; ts_now := 0 |}.

Definition fresh_system {A} (store : A) : ToolSystem :=
  {| sy_state := fresh_state store; sy_operations := [] |}.

Definition governed_config : ServiceConfig :=
  {| sc_registry := database_registry; sc_max_read_attempts := 3;
     sc_approvals := Some DEFAULT_APPROVAL_TTL_SECONDS |}.

Definition transfer_call (release : string) : Invocation :=
  {| iv_tenant_id := 1; iv_tool_name := "wire_transfer"; iv_params := ∅; iv_scopes := None;
     iv_requested_by := "alice"; iv_idempotency_key := None; iv_mode := CONVERSATION;
     iv_version := None; iv_execution_id := None; iv_session_id := None;
     iv_release_id := Some release; iv_policy_version := None |}.

Definition timeout (_ : nat) : BackendOutcome := TimedOut.
Definition success (_ : nat) : BackendOutcome :=
  Returned {| br_ok := true; br_result := None; br_error_code := None; br_transient := false |}.

Section Programs.
  Context {A : Type} `{!ApprovalStore A}.

Definition transfer (backend : nat → BackendOutcome) (release : string) (p : nat)
    : proc (ToolState A) unit :=
  run_op (invoke sample_ids sample_json sample_hash governed_config p no_faults backend
            (transfer_call release)).
Definition confirm (call_id : uuid) (p : nat) : proc (ToolState A) unit :=
  run_op (resolve_call no_faults 1 call_id CONFIRMED_EXECUTED "carol" None).
Definition approve (i : uuid) (who : string) (p : nat) : proc (ToolState A) unit :=
  run_op (decide_request p no_faults 1 i APPROVE who "TENANT_ADMIN").

Abbreviation legal_action := (legal (A := A) sample_ids sample_json sample_hash true).
Lemma transfer_legal backend release : legal_action (Start (transfer backend release)).
Proof. intros p. apply op_invoke. by eexists. Qed.
Lemma approve_legal i who : legal_action (Start (approve i who)).
Proof. intros p. apply op_decide. Qed.
Lemma confirm_legal i : legal_action (Start (confirm i)).
Proof. intros p. apply op_resolve. Qed.
Lemma run_legal n : legal_action (Run n).
Proof. done. Qed.
Lemma tick_legal now : legal_action (Tick now).
Proof. done. Qed.

(** Alice asks, bob approves, alice's retry runs. *)
Definition approved_transfer : list action :=
  [Start (transfer success "r1")] ++ replicate 10 (Run 0%nat) ++
  [Tick 1000000; Start (approve 0 "bob")] ++ replicate 10 (Run 1%nat) ++
  [Start (transfer success "r1")] ++ replicate 12 (Run 2%nat).

(** The approved call times out and an operator closes it. *)
Definition unknown_transfer : list action :=
  [Start (transfer timeout "r1")] ++ replicate 10 (Run 0%nat) ++
  [Tick 1000000; Start (approve 0 "bob")] ++ replicate 10 (Run 1%nat) ++
  [Start (transfer timeout "r1")] ++ replicate 12 (Run 2%nat) ++
  [Start (confirm 2)] ++ replicate 6 (Run 3%nat).

(** The approved transfer with a third invocation that looked for a pending request before bob
    decided and goes on only after the request has expired. *)
Definition late_expiry : list action :=
  [Start (transfer success "r1")] ++ replicate 10 (Run 0%nat) ++
  [Start (transfer success "r1"); Run 1%nat; Run 1%nat; Run 1%nat] ++
  [Start (approve 0 "bob")] ++ replicate 10 (Run 2%nat) ++
  [Start (transfer success "r1")] ++ replicate 12 (Run 3%nat) ++
  [Tick 1000000000; Run 1%nat; Run 1%nat].
End Programs.

Create HintDb legality.
#[export] Hint Resolve transfer_legal approve_legal confirm_legal run_legal tick_legal : legality.
Ltac legal_schedule :=
  unfold approved_transfer, unknown_transfer, late_expiry; simpl;
  repeat first [apply Forall_nil_2 | apply Forall_cons_2; [auto with legality|]].

Lemma fresh_system_database : fresh_tools (fresh_system (∅ : DatabaseApprovals.table)).
Proof. by split. Qed.
Lemma fresh_system_memory : fresh_tools (fresh_system ([] : MemoryApprovals.requests)).
Proof. split; done || apply NoDup_nil_2. Qed.

(** ** Concurrent operations *)
Section Concurrent.
  Context {A : Type} `{!ApprovalStore A} `{!ApprovalStoreLaws A}.
  Context (uuid_at : nat → uuid) (canonical_json : json → string) (sha256 : string → string).
  Context (wired : bool).

Abbreviation step := (tool_step (A := A) uuid_at canonical_json sha256 wired).

(** C2: under every interleaving of invocations, decisions, expirations, resumptions
    and faults, over either approval store, the calls that need an approval and reached
    a backend can be numbered with pairwise different approvals, each for exactly that
    tenant, tool, version, parameter hash and requester, and each closed: one approval
    is worth at most one execution, and nothing runs without one. *)
Theorem one_grant_one_execution c c' :
  Inj (=) (=) uuid_at → fresh_tools c → rtc step c c' →
  let s := sy_state c' in
  ∃ grant : nat → uuid * uuid,
    (∀ n b, ts_backend s !! n = Some b → gated wired (bc_definition b) →
       ∃ r, approval (ts_approvals s) (grant n).1 (grant n).2 = Some r ∧
         covers canonical_json sha256 r b ∧ ar_status r ∈ [AP_CONSUMED; AP_EXPIRED]) ∧
    (∀ n m b b', ts_backend s !! n = Some b → ts_backend s !! m = Some b' →
       gated wired (bc_definition b) → gated wired (bc_definition b') → grant n = grant m → n = m).
Proof.
  intros Hinj Hfresh Hrun s.
  destruct (tools_reachable _ _ _ _ _ _ Hrun (fresh_tools_ok _ _ _ _ _ Hfresh)) as [[Hi _] _].
  exists (λ n, default (0, 0) (ts_backend s !! n ≫= bc_grant)). split.
  - intros n b Hb Hgated. pose proof (list_elem_of_lookup_2 _ _ _ Hb) as Hin.
    destruct (ti_gated _ _ _ _ _ Hi b Hin Hgated) as [k Hk].
    destruct (ti_spent _ _ _ _ _ Hi b k Hin Hk) as (Hg & r & Hr & Hc).
    destruct (ti_grants _ _ _ _ _ Hi _ Hg) as (r' & Hr' & Hst). simpl in Hr'.
    exists r. rewrite Hb. simpl. rewrite Hk. simpl. by simplify_eq.
  - intros n m b b' Hb Hb' Hgb Hgb' Heq.
    destruct (ti_gated _ _ _ _ _ Hi b (list_elem_of_lookup_2 _ _ _ Hb) Hgb) as [k Hk].
    destruct (ti_gated _ _ _ _ _ Hi b' (list_elem_of_lookup_2 _ _ _ Hb') Hgb') as [k' Hk'].
    rewrite Hb, Hb' in Heq. simpl in Heq. rewrite Hk, Hk' in Heq. simpl in Heq. subst k'.
    by eapply (omap_NoDup_inj bc_grant); [apply Hi|..].
Qed.

(** C28: under every interleaving, a HIGH_RISK request that is APPROVED or CONSUMED was
    decided by a subject other than the one that requested it. *)
Theorem high_risk_needs_second_person c c' :
  Inj (=) (=) uuid_at → fresh_tools c → rtc step c c' →
  ∀ t i r, approval (ts_approvals (sy_state c')) t i = Some r → ar_side_effect r = HIGH_RISK →
    ar_status r ∈ [AP_APPROVED; AP_CONSUMED] →
    ∃ d, ar_decided_by r = Some d ∧ d ≠ ar_requested_by r.
Proof.
  intros Hinj Hfresh Hrun t i r Hr.
  destruct (tools_reachable _ _ _ _ _ _ Hrun (fresh_tools_ok _ _ _ _ _ Hfresh)) as [[Hi _] _].
  apply (ti_duty _ _ _ _ _ Hi t i r Hr).
Qed.

(** only a call whose outcome is unknown is ever reconciled, and a recorded
    resolution never changes, whatever runs afterwards. *)
Theorem reconciliation_is_final c c1 c2 :
  Inj (=) (=) uuid_at → fresh_tools c → rtc step c c1 → rtc step c1 c2 →
  ∀ t call_id rc, ts_reconciliations (sy_state c1) !! (t, call_id) = Some rc →
    ts_reconciliations (sy_state c2) !! (t, call_id) = Some rc ∧
    ∃ call, call_of (sy_state c2) t call_id = Some call ∧ tr_status call = TI_OUTCOME_UNKNOWN.
Proof.
  intros Hinj Hfresh Hrun1 Hrun2 t i rc Hrc.
  destruct (tools_reachable _ _ _ _ _ _ Hrun1 (fresh_tools_ok _ _ _ _ _ Hfresh)) as [Hok1 _].
  destruct (tools_reachable _ _ _ _ _ _ Hrun2 Hok1) as [[Hi2 _] Hg].
  assert (ts_reconciliations (sy_state c2) !! (t, i) = Some rc) as Hrc2.
  { eapply lookup_weaken; [exact Hrc|apply Hg]. }
  split; [done|]. by eapply (ti_reconciled _ _ _ _ _ Hi2).
Qed.
End Concurrent.

Abbreviation database_run l := (run_schedule l (fresh_system (∅ : DatabaseApprovals.table))).
Abbreviation memory_run l := (run_schedule l (fresh_system ([] : MemoryApprovals.requests))).

Section Legal.
  Context {A : Type} `{!ApprovalStore A}.
  Implicit Types c : ToolSystem (A := A).
Abbreviation sample_step := (tool_step (A := A) sample_ids sample_json sample_hash true).

Lemma approved_transfer_run c : rtc sample_step c (run_schedule approved_transfer c).
Proof. apply run_schedule_steps. legal_schedule. Qed.
Lemma unknown_transfer_run c : rtc sample_step c (run_schedule unknown_transfer c).
Proof. apply run_schedule_steps. legal_schedule. Qed.
Lemma late_expiry_run c : rtc sample_step c (run_schedule late_expiry c).
Proof. apply run_schedule_steps. legal_schedule. Qed.
End Legal.

(** What the approved transfer leaves behind. *)
Definition transfer_request : BackendCall :=
  {| bc_operation := 2; bc_definition := wire_transfer; bc_params := ∅; bc_requested_by := "alice";
     bc_grant := Some (1, 0) |}.

Lemma approved_transfer_sent : ts_backend (sy_state (database_run approved_transfer)) = [transfer_request].
Proof. vm_compute. reflexivity. Qed.

Definition consumed_request : ApprovalRequest :=
  {| ar_approval_id := 0; ar_tenant_id := 1; ar_release_id := "r1"; ar_tool_name := "wire_transfer";
     ar_tool_version := 1; ar_params_hash := sample_hash ""; ar_params := ∅;
     ar_side_effect := HIGH_RISK; ar_requested_by := "alice"; ar_requester_role := "AGENT_RUNNER";
     ar_policy_version := "unspecified"; ar_status := AP_CONSUMED; ar_requested_at := 0;
     ar_expires_at := 900000000; ar_decided_by := Some "bob"; ar_decided_at := Some 1000000 |}.

Lemma approved_transfer_row :
  approval (ts_approvals (sy_state (memory_run approved_transfer))) 1 0 = Some consumed_request.
Proof. vm_compute. reflexivity. Qed.

Lemma one_grant_one_execution_witness :
  let s := sy_state (database_run approved_transfer) in
  ∃ k r, ts_backend s = [transfer_request] ∧ approval (ts_approvals s) k.1 k.2 = Some r ∧
    covers sample_json sample_hash r transfer_request ∧ ar_status r ∈ [AP_CONSUMED; AP_EXPIRED].
Proof.
  pose proof approved_transfer_sent as Hsent.
  pose proof (one_grant_one_execution sample_ids sample_json sample_hash true
    (fresh_system (∅ : DatabaseApprovals.table)) (database_run approved_transfer)
    sample_ids_inj fresh_system_database
    (approved_transfer_run _)) as (grant & Hgrant & _).
  destruct (Hgrant 0%nat transfer_request) as (r & Hr & Hc & Hst);
    [rewrite Hsent; reflexivity|left; reflexivity|].
  exists (grant 0%nat), r. exact (conj Hsent (conj Hr (conj Hc Hst))).
Defined.

Lemma high_risk_needs_second_person_witness :
  approval (ts_approvals (sy_state (memory_run approved_transfer))) 1 0 = Some consumed_request ∧
  ∃ d, ar_decided_by consumed_request = Some d ∧ d ≠ ar_requested_by consumed_request.
Proof.
  split; [exact approved_transfer_row|].
  apply (high_risk_needs_second_person sample_ids sample_json sample_hash true
    (fresh_system ([] : MemoryApprovals.requests)) (memory_run approved_transfer) sample_ids_inj
    fresh_system_memory (approved_transfer_run _) 1 0);
    [exact approved_transfer_row|reflexivity|right; left].
Defined.

Definition confirmation : Reconciliation :=
  {| rc_call_id := 2; rc_tenant_id := 1; rc_decision := CONFIRMED_EXECUTED;
     rc_resolved_by := "carol"; rc_resolved_at := 1000000; rc_note := None |}.

Lemma unknown_transfer_confirmed :
  ts_reconciliations (sy_state (database_run unknown_transfer)) !! (1, 2) = Some confirmation.
Proof. vm_compute. reflexivity. Qed.

Lemma reconciliation_is_final_witness :
  ts_reconciliations (sy_state (database_run unknown_transfer)) !! (1, 2) = Some confirmation ∧
  ∃ call, call_of (sy_state (database_run unknown_transfer)) 1 2 = Some call ∧
    tr_status call = TI_OUTCOME_UNKNOWN.
Proof.
  exact (reconciliation_is_final sample_ids sample_json sample_hash true
    (fresh_system (∅ : DatabaseApprovals.table)) (database_run unknown_transfer)
    (database_run unknown_transfer) sample_ids_inj fresh_system_database
    (unknown_transfer_run _) (rtc_refl _ _) 1 2 confirmation
    unknown_transfer_confirmed).
Defined.

(** a request that was consumed and executed can end as EXPIRED with no decision
    recorded: [find_pending] writes an EXPIRED copy of what it read without comparing,
    over whatever happened in between. *)
Theorem late_expiry_erases_consumption :
  ∃ c', rtc (tool_step (A := DatabaseApprovals.table) sample_ids sample_json sample_hash true)
          (fresh_system ∅) c' ∧
    gt_approval <$> ts_grants (sy_state c') = [(1, 0)] ∧
    length (ts_backend (sy_state c')) = 1%nat ∧
    ∃ r, approval (ts_approvals (sy_state c')) 1 0 = Some r ∧ ar_status r = AP_EXPIRED ∧
      ar_decided_by r = None.
Proof.
  exists (database_run late_expiry). split; [apply late_expiry_run|].
  split; [vm_compute; reflexivity|]. split; [vm_compute; reflexivity|].
  exists (with_status AP_EXPIRED None None consumed_request).
  split; [vm_compute; reflexivity|done].
Qed.

(** ** The retry contract *)

(** A failure after which the call may be sent again. *)
Definition soft_failure (o : BackendOutcome) : bool :=
  match o with
  | Returned r => negb (br_ok r) && br_transient r
  | TimedOut | Crashed _ => true
  end.

(** What is reported when [o] is the answer to the last attempt. *)
Definition reported_status (side_effect : ToolSideEffect) (retry : bool) (o : BackendOutcome)
    : ToolInvocationStatus :=
  match o with
  | Returned r =>
      if br_ok r then TI_SUCCEEDED
      else if br_transient r && negb retry then TI_OUTCOME_UNKNOWN else TI_FAILED
  | TimedOut => if bool_decide (side_effect = READ_ONLY) then TI_FAILED else TI_OUTCOME_UNKNOWN
  | Crashed uncertain =>
      if uncertain && negb (bool_decide (side_effect = READ_ONLY)) then TI_OUTCOME_UNKNOWN
      else TI_FAILED
  end.

Section Retry.
  Context {A : Type} (p : nat) (backend : nat → BackendOutcome).
  Context (d : ToolDefinition) (params : jobject) (by' : string) (grant : option (uuid * uuid)).

Definition sent : BackendCall :=
  {| bc_operation := p; bc_definition := d; bc_params := params; bc_requested_by := by';
     bc_grant := grant |}.

Lemma call_backend_run n {B} (k : BackendOutcome → TP A B) s :
  run_proc (pm_bind (call_backend p backend d params by' grant n) k) s =
    run_proc (k (backend n)) (add_backend sent s).
Proof. done. Qed.

(** [prog] returns after attempt [n], with the status the contract gives to the answer
    [backend n]; the backend has received exactly the attempts after [before] up to [n],
    every one before the last failed softly, and a soft failure is final only when the
    attempts are used up. *)
Definition contract_kept (retry : bool) (max before : nat) (s : ToolState A)
    (prog : TP A (ToolInvocationStatus * option string * option jobject * nat)) : Prop :=
  ∃ n error result s',
    run_proc prog s =
      (Ok (reported_status (td_side_effect d) retry (backend n), error, result, n), s') ∧
    (before < n ≤ max)%nat ∧
    ts_backend s' = ts_backend s ++ replicate (n - before) sent ∧
    (∀ k, (before < k < n)%nat → soft_failure (backend k) = true) ∧
    (soft_failure (backend n) = true → n = max).

Lemma attempt_loop_run retry max remaining err (s : ToolState A) :
  (retry = false → max = 1%nat) → (0 < remaining ≤ max)%nat →
  contract_kept retry max (max - remaining) s
    (attempt_loop p backend d params by' grant retry max remaining err).
Proof.
  intros Hmax. revert err s. induction remaining as [|k IH]; intros err s Hrem; [lia|].
  cbn [attempt_loop]. cbv zeta.
  unfold contract_kept. rewrite call_backend_run. set (s1 := add_backend sent s).
  set (n := (max - k)%nat).
  assert (n - (max - S k) = 1)%nat as Hone by lia.
  set (goal := λ prog : TP A (ToolInvocationStatus * option string * option jobject * nat),
    ∃ m error' result' s',
      run_proc prog s1 =
        (Ok (reported_status (td_side_effect d) retry (backend m), error', result', m), s') ∧
      (max - S k < m ≤ max)%nat ∧
      ts_backend s' = ts_backend s ++ replicate (m - (max - S k)) sent ∧
      (∀ j, (max - S k < j < m)%nat → soft_failure (backend j) = true) ∧
      (soft_failure (backend m) = true → m = max)).
  (* the attempt is the last one *)
  assert (∀ error result, (soft_failure (backend n) = true → n = max) →
    goal (pm_ret (reported_status (td_side_effect d) retry (backend n), error, result, n))) as Hlast.
  { intros error result Hsoft. exists n, error, result, s1. split; [done|]. split; [lia|].
    split; [by rewrite Hone|]. split; [lia|done]. }
  (* another attempt follows *)
  assert (∀ error, soft_failure (backend n) = true → (n < max)%nat →
    goal (attempt_loop p backend d params by' grant retry max k (Some error))) as Hagain.
  { intros error Hsoft Hlt. destruct (IH (Some error) s1) as (m & er & res & s' & Hrun & Hm & Hb & Hs & Hl);
      [lia|]. exists m, er, res, s'. split; [exact Hrun|]. split; [lia|]. split; [|split; [|done]].
    - rewrite Hb. simpl. rewrite <- app_assoc. simpl.
      replace (m - (max - S k))%nat with (S (m - (max - k)))%nat by lia. done.
    - intros j Hj. destruct (decide (j = n)) as [->|]; [done|]. apply Hs. lia. }
  assert (retry && (n <? max)%nat = true → (n < max)%nat) as Hlt.
  { intros [_ ?%Nat.ltb_lt]%andb_true_iff. done. }
  assert (retry && (n <? max)%nat = false → n = max) as Hend.
  { destruct retry; [intros ?%Nat.ltb_ge; lia|]. rewrite (Hmax eq_refl) in *. lia. }
  fold goal. destruct (backend n) as [r| |u] eqn:Hout; simpl in Hlast, Hagain.
  - destruct (br_ok r); [apply Hlast; done|]. destruct (br_transient r); simpl in *.
    + destruct (retry && _) eqn:Hr; [by apply Hagain; auto|]. destruct retry; apply Hlast; auto.
    + apply Hlast. done.
  - destruct (retry && _) eqn:Hr; [by apply Hagain; auto|]. unfold write_outcome.
    case_bool_decide; case_bool_decide; try done; apply Hlast; auto.
  - destruct (retry && _) eqn:Hr; [by apply Hagain; auto|].
    destruct u; simpl in *; repeat case_bool_decide; try done; apply Hlast; auto.
Qed.
End Retry.

(** every execution returns after at least one and at most the allowed number of
    attempts (one, unless the call is READ_ONLY or an IDEMPOTENT_WRITE with a key to a
    downstream that honours it); the backend received exactly that many identical
    requests, all but the last failed softly, and the reported status is the contract's
    answer to the last one: OUTCOME_UNKNOWN for a write that timed out. *)
Theorem retry_contract {A} (config : ServiceConfig) (p : nat) (backend : nat → BackendOutcome)
    (d : ToolDefinition) (params : jobject) (key : option string) (by' : string)
    (grant : option (uuid * uuid)) (s : ToolState A) :
  contract_kept p backend d params by' grant (can_retry d key)
    (if can_retry d key then read_attempts config else 1) 0 s
    (execute_with_contract config p backend d params key by' grant).
Proof.
  unfold execute_with_contract. set (max := if can_retry d key then _ else _).
  assert (1 ≤ max)%nat.
  { subst max. destruct (can_retry d key); [unfold read_attempts; lia|done]. }
  rewrite <- (Nat.sub_diag max). apply attempt_loop_run; [|lia].
  intros Hr. subst max. by rewrite Hr.
Qed.

(** ** A request approved for another release *)

Section OneRun.
  Context {A : Type} `{!ApprovalStore A}.

Lemma on_approvals_read {B} (m : ST A ToolError B) s res :
  m (ts_approvals s) = (res, ts_approvals s) → on_approvals m s = (res, s).
Proof. unfold on_approvals. intros ->. by destruct s. Qed.

Lemma find_unexpired_run fault st site t intent s r :
  store_find_open (fault site) t intent [st] (ts_approvals s) = (Ok (Some r), ts_approvals s) →
  ts_now s < ar_expires_at r →
  run_proc (find_unexpired fault st site t intent) s = (Ok (Some r), s).
Proof.
  intros Hfind Hnow. unfold find_unexpired. rewrite run_atomically, (on_approvals_read _ _ _ Hfind).
  unfold clock. rewrite run_atomically. simpl. by rewrite (proj2 (Z.leb_gt _ _) Hnow).
Qed.

Lemma get_request_run p fault t i s r :
  store_get (fault 1%nat) t i (ts_approvals s) = (Ok (Some r), ts_approvals s) →
  ts_now s < ar_expires_at r → run_proc (get_request p fault t i) s = (Ok r, s).
Proof.
  intros Hget Hnow. unfold get_request. rewrite run_atomically, (on_approvals_read _ _ _ Hget).
  case_bool_decide; [|done]. unfold clock. rewrite run_atomically. simpl.
  by rewrite (proj2 (Z.leb_gt _ _) Hnow).
Qed.
End OneRun.

(** when the newest approval for an intent was granted for another release, [invoke]
    neither executes nor asks again: it raises APPROVAL_BINDING_MISMATCH (which the bridge
    does not turn into a response), records nothing and leaves the approval as it is, so
    that every later call meets it again until it expires. *)
Theorem approval_of_other_release_blocks (uuid_at : nat → uuid) (canonical_json : json → string)
    (sha256 : string → string) (config : ServiceConfig) (p : nat) (backend : nat → BackendOutcome)
    (iv : Invocation) (d : ToolDefinition) (ttl : Z) (r : ApprovalRequest)
    (s : ToolState DatabaseApprovals.table) :
  let hash := canonical_params_hash canonical_json sha256 (iv_params iv) in
  let intent := {| in_tool_name := td_name d; in_tool_version := td_version d;
                   in_params_hash := hash; in_requested_by := iv_requested_by iv |} in
  ro_resolve (sc_registry config) (ts_definitions s) (iv_tenant_id iv) (iv_tool_name iv)
    (iv_version iv) = Some d →
  td_side_effect d = HIGH_RISK → iv_scopes iv = None →
  validate_params d (iv_params iv) = Ok (iv_params iv) → sc_approvals config = Some ttl →
  store_ok (ts_approvals s) →
  DatabaseApprovals.find_open NoFault (td_tenant_id d) intent [AP_APPROVED] (ts_approvals s) =
    (Ok (Some r), ts_approvals s) →
  ts_now s < ar_expires_at r → ar_release_id r ≠ or_else (iv_release_id iv) "unknown" →
  run_proc (invoke uuid_at canonical_json sha256 config p no_faults backend iv) s =
    (Raise (ApprovalError "APPROVAL_BINDING_MISMATCH"), s).
Proof.
  intros hash intent Hres Heff Hsc Hval Hcfg Hok Hfind Hnow Hrel.
  change (store_find_open NoFault (td_tenant_id d) intent [AP_APPROVED] (ts_approvals s) =
    (Ok (Some r), ts_approvals s)) in Hfind.
  destruct (find_open_law _ _ _ _ _ _ _ Hfind Hok) as (_ & Hfound & _).
  destruct (Hfound r eq_refl) as (Hr & Hint & Hst%list_elem_of_singleton). simpl in Hr.
  assert (store_get NoFault (td_tenant_id d) (ar_approval_id r) (ts_approvals s) =
    (Ok (Some r), ts_approvals s)) as Hget by (simpl; unfold DatabaseApprovals.get; cbn; by rewrite Hr).
  unfold invoke. rewrite run_atomically. cbn [transaction gets no_faults]. unfold transaction, gets.
  rewrite Hres, Hsc. simpl. rewrite bool_decide_eq_true_2 by done. simpl.
  rewrite Hval, bool_decide_eq_false_2 by (rewrite Heff; set_solver).
  rewrite run_pm_bind. unfold gate_write_side_effect. rewrite Hcfg, run_pm_bind.
  unfold find_approved. rewrite (find_unexpired_run _ _ _ _ _ _ r) by done.
  rewrite run_pm_bind. unfold consume. rewrite run_pm_bind.
  rewrite (get_request_run _ _ _ _ _ r) by done. rewrite Hst. simpl.
  rewrite (bool_decide_eq_false_2 (ar_release_id r = _)) by done. by rewrite andb_false_r.
Qed.

Definition approved_request : ApprovalRequest :=
  with_status AP_APPROVED (Some "bob") (Some 1000000) consumed_request.
Definition approved_state : ToolState DatabaseApprovals.table :=
  fresh_state {[(1, 0) := approved_request]}.

Lemma approval_of_other_release_blocks_witness :
  run_proc (invoke sample_ids sample_json sample_hash governed_config 0 no_faults success
    (transfer_call "r2")) approved_state =
  (Raise (ApprovalError "APPROVAL_BINDING_MISMATCH"), approved_state).
Proof.
  apply (approval_of_other_release_blocks sample_ids sample_json sample_hash governed_config 0 success
    (transfer_call "r2") wire_transfer DEFAULT_APPROVAL_TTL_SECONDS approved_request approved_state);
    try (vm_compute; reflexivity).
  - apply map_Forall_singleton. reflexivity.
  - vm_compute. discriminate.
Defined.
