(* ===== verification/Storage.v ===== *)
(** * Storage adapters and profile routing (trpc_service/storage.py)

    [Class StorageAdapter] is the protocol of the same name, [StorageAdapterLaws]
    what a lawful adapter promises: it behaves as one finite map from
    [(tenant_id, key)] to bytes.  [MemoryAdapter] is [_NamespacedMemoryAdapter]
    with its change feed, [RedisCacheAdapter] a cache over any adapter; the
    router and the coordinator that erases a tenant everywhere follow.  A Python
    [str] is the text of its UTF-8 encoding, whose byte order is the order of the
    code points. *)

From Stdlib Require Import Ascii.
From stdpp Require Import sorting.
From S2P Require Import Prelude PyNum PyDict ExecutionBus ToolRegistry.
Open Scope string_scope.
Open Scope list_scope.
Open Scope Z_scope.

#[export] Instance byte_eq_dec : EqDecision Byte.byte := Byte.byte_eq_dec.

Inductive AdapterKind := SQL | REDIS | VECTOR | OBJECT | EXTERNAL_MEMORY.
#[export] Instance AdapterKind_eq_dec : EqDecision AdapterKind.
Proof. solve_decision. Defined.

Inductive StorageProfileError :=
  | REDIS_AUTHORITY_REQUIRED
  | DEDICATED_STORAGE_REQUIRED
  | STORAGE_BACKEND_UNAVAILABLE
  | STORAGE_BACKENDS_INCOMPLETE
  | STORAGE_SECRET_REF_INVALID
  | STORAGE_DELETION_ADAPTERS_INCOMPLETE
  | STORAGE_DELETION_LEGAL_HOLD
  | STORAGE_DELETION_UNVERIFIED.

(** ** The adapter protocol *)
Class StorageAdapter (A : Type) := {
  authoritative : bool;
  adapter_put : string → string → bytes → A → A;
  adapter_get : string → string → A → option bytes * A;
  adapter_erase_tenant : string → A → Z * A;
  adapter_verify_tenant_erased : string → A → bool;
}.

(** The objects a finite map holds for one tenant, and the others. *)
Definition of_tenant (t : string) (m : gmap (string * string) bytes) : gmap (string * string) bytes :=
  filter (λ kv, kv.1.1 = t) m.
Definition without_tenant (t : string) (m : gmap (string * string) bytes) :
    gmap (string * string) bytes :=
  filter (λ kv, kv.1.1 ≠ t) m.

(** What a lawful adapter promises: a state that is [adapter_ok] stands for the map
    [stored], and the operations act on that map alone. *)
Class StorageAdapterLaws (A : Type) `{StorageAdapter A} := {
  adapter_ok : A → Prop;
  stored : A → gmap (string * string) bytes;
  put_law t k v a : adapter_ok a →
    adapter_ok (adapter_put t k v a) ∧ stored (adapter_put t k v a) = <[(t, k) := v]> (stored a);
  get_law t k a : adapter_ok a →
    (adapter_get t k a).1 = stored a !! (t, k) ∧
    adapter_ok (adapter_get t k a).2 ∧ stored (adapter_get t k a).2 = stored a;
  erase_law t a : adapter_ok a →
    (adapter_erase_tenant t a).1 = Z.of_nat (size (of_tenant t (stored a))) ∧
    adapter_ok (adapter_erase_tenant t a).2 ∧
    stored (adapter_erase_tenant t a).2 = without_tenant t (stored a);
  verify_law t a : adapter_ok a →
    adapter_verify_tenant_erased t a = bool_decide (of_tenant t (stored a) = ∅);
}.

(** ** Online migration: snapshots and change feeds ([OnlineMigrationAdapter]) *)
Abbreviation change := (string * option bytes)%type.

Class OnlineMigrationAdapter (A : Type) `{StorageAdapter A} := {
  snapshot_tenant : string → A → Z * list (string * bytes);
  changes_since : string → Z → A → Z * list change;
  apply_changes : string → list change → A → A;
  tenant_fingerprint : (bytes → string) → string → A → Z * string * Z;
  vector_recall_against : A → string → A → Z * Z;
}.

(** The value a key has after a list of changes, given the one it had before. *)
Definition replay (changes : list change) (k : string) (before : option bytes) : option bytes :=
  foldl (λ acc c, if decide (c.1 = k) then c.2 else acc) before changes.

(** ** Client operations on an adapter *)
Inductive adapter_op :=
  | OpPut (t k : string) (v : bytes)
  | OpGet (t k : string)
  | OpErase (t : string)
  | OpVerify (t : string).

Inductive adapter_reply :=
  | ReplyDone
  | ReplyValue (v : option bytes)
  | ReplyCount (n : Z)
  | ReplyErased (b : bool).

Definition adapter_step {A} `{StorageAdapter A} (op : adapter_op) (a : A) : adapter_reply * A :=
  match op with
  | OpPut t k v => (ReplyDone, adapter_put t k v a)
  | OpGet t k => let r := adapter_get t k a in (ReplyValue r.1, r.2)
  | OpErase t => let r := adapter_erase_tenant t a in (ReplyCount r.1, r.2)
  | OpVerify t => (ReplyErased (adapter_verify_tenant_erased t a), a)
  end.

(** The state after a sequence of client operations. *)
Definition adapter_run {A} `{StorageAdapter A} (ops : list adapter_op) (a : A) : A :=
  foldl (λ a op, (adapter_step op a).2) a ops.

(** What the executor of a migration relies on: a snapshot lists the tenant's
    objects, and the feed from its watermark on replays whatever clients did
    since. *)
Class OnlineMigrationLaws (A : Type) `{OnlineMigrationAdapter A, !StorageAdapterLaws A} := {
  snapshot_law t a : adapter_ok a →
    NoDup (snapshot_tenant t a).2.*1 ∧
    ∀ k, dict_get k (snapshot_tenant t a).2 = stored a !! (t, k);
  feed_law t a ops k : adapter_ok a →
    replay (changes_since t (snapshot_tenant t a).1 (adapter_run ops a)).2 k (stored a !! (t, k))
      = stored (adapter_run ops a) !! (t, k);
  feed_position_law t w a : (changes_since t w a).1 = (snapshot_tenant t a).1;
  apply_law t changes a : adapter_ok a →
    adapter_ok (apply_changes t changes a) ∧
    ∀ t' k, stored (apply_changes t changes a) !! (t', k)
      = if decide (t' = t) then replay changes k (stored a !! (t, k)) else stored a !! (t', k);
}.

(** ** The namespaced memory adapter *)
Record MemoryAdapter := {
  ma_objects : list ((string * string) * bytes);
  ma_watermark : Z;
  ma_changes : list (Z * string * string * option bytes);
}.

Definition new_MemoryAdapter : MemoryAdapter :=
  {| ma_objects := []; ma_watermark := 0; ma_changes := [] |}.

Definition memory_put (t k : string) (v : bytes) (a : MemoryAdapter) : MemoryAdapter :=
  {| ma_objects := dict_set (t, k) v (ma_objects a);
     ma_watermark := ma_watermark a + 1;
     ma_changes := ma_changes a ++ [(ma_watermark a + 1, t, k, Some v)] |}.

Definition memory_get (t k : string) (a : MemoryAdapter) : option bytes * MemoryAdapter :=
  (dict_get (t, k) (ma_objects a), a).

(** The keys of one tenant, in the order of the dictionary. *)
Definition tenant_keys (t : string) (d : list ((string * string) * bytes)) : list (string * string) :=
  filter (λ key, key.1 = t) d.*1.

Definition memory_erase_tenant (t : string) (a : MemoryAdapter) : Z * MemoryAdapter :=
  let keys := tenant_keys t (ma_objects a) in
  (Z.of_nat (length keys),
   {| ma_objects := foldl (λ d key, dict_del key d) (ma_objects a) keys;
      ma_watermark := ma_watermark a + 1;
      ma_changes := ma_changes a ++ ((λ key, (ma_watermark a + 1, t, key.2, None)) <$> keys) |}).

Definition memory_verify_tenant_erased (t : string) (a : MemoryAdapter) : bool :=
  negb (existsb (λ key, bool_decide (key.1 = t)) (ma_objects a).*1).

(** The items of one tenant with the tenant stripped, in the order of the dictionary. *)
Definition tenant_items (t : string) (d : list ((string * string) * bytes)) : list (string * bytes) :=
  omap (λ kv, if decide (kv.1.1 = t) then Some (kv.1.2, kv.2) else None) d.

Definition memory_snapshot_tenant (t : string) (a : MemoryAdapter) : Z * list (string * bytes) :=
  (ma_watermark a, tenant_items t (ma_objects a)).

Definition memory_changes_since (t : string) (watermark : Z) (a : MemoryAdapter) :
    Z * list change :=
  (ma_watermark a,
   omap (λ c : Z * string * string * option bytes,
     let '(sequence, stored_tenant, key, value) := c in
     if decide (stored_tenant = t ∧ watermark < sequence) then Some (key, value) else None)
     (ma_changes a)).

Definition apply_change (t : string) (d : list ((string * string) * bytes)) (c : change) :
    list ((string * string) * bytes) :=
  match c.2 with
  | None => dict_del (t, c.1) d
  | Some v => dict_set (t, c.1) v d
  end.

Definition memory_apply_changes (t : string) (changes : list change) (a : MemoryAdapter) :
    MemoryAdapter :=
  {| ma_objects := foldl (apply_change t) (ma_objects a) changes;
     ma_watermark := ma_watermark a; ma_changes := ma_changes a |}.

(** [sorted(snapshot.items())]: the keys are distinct, so they decide the order. *)
Definition item_le (x y : string * bytes) : Prop := String.leb x.1 y.1.
#[export] Instance item_le_dec x y : Decision (item_le x y).
Proof. unfold item_le. apply _. Defined.

Definition encode_item (kv : string * bytes) : bytes :=
  String.list_byte_of_string kv.1 ++ [Byte.x00] ++ kv.2 ++ [Byte.x00].

Definition memory_tenant_fingerprint (sha256_hex : bytes → string) (t : string) (a : MemoryAdapter) :
    Z * string * Z :=
  let snapshot := (memory_snapshot_tenant t a).2 in
  (Z.of_nat (length snapshot), sha256_hex (merge_sort item_le snapshot ≫= encode_item),
   ma_watermark a).

(** Floats are pairs [(m, e)] for [m * 2^e]; [1.0] and the quotient of two counts. *)
Definition memory_vector_recall_against (source : MemoryAdapter) (t : string) (a : MemoryAdapter) :
    Z * Z :=
  let source_objects := (memory_snapshot_tenant t source).2 in
  let target_objects := (memory_snapshot_tenant t a).2 in
  match source_objects with
  | [] => py_truediv 1 1
  | _ =>
      let matches := length (filter (λ kv, dict_get kv.1 target_objects = Some kv.2) source_objects) in
      py_truediv (Z.of_nat matches) (Z.of_nat (length source_objects))
  end.

#[export] Instance memory_adapter : StorageAdapter MemoryAdapter := {
  authoritative := true;
  adapter_put := memory_put;
  adapter_get := memory_get;
  adapter_erase_tenant := memory_erase_tenant;
  adapter_verify_tenant_erased := memory_verify_tenant_erased;
}.

#[export] Instance memory_online : OnlineMigrationAdapter MemoryAdapter := {
  snapshot_tenant := memory_snapshot_tenant;
  changes_since := memory_changes_since;
  apply_changes := memory_apply_changes;
  tenant_fingerprint := memory_tenant_fingerprint;
  vector_recall_against := memory_vector_recall_against;
}.

(** ** The Redis cache *)
Record RedisCacheAdapter (A : Type) := {
  rc_authority : A;
  rc_cache : list ((string * string) * bytes);
}.
Arguments rc_authority {_} _.
Arguments rc_cache {_} _.
Arguments Build_RedisCacheAdapter {_} _ _.

Section Redis.
  Context {A : Type} `{StorageAdapter A}.

Definition new_RedisCacheAdapter (authority : A) : outcome StorageProfileError (RedisCacheAdapter A) :=
  if authoritative then Ok (Build_RedisCacheAdapter authority []) else Raise REDIS_AUTHORITY_REQUIRED.

Definition redis_put (t k : string) (v : bytes) (c : RedisCacheAdapter A) : RedisCacheAdapter A :=
  {| rc_authority := adapter_put t k v (rc_authority c);
     rc_cache := dict_set (t, k) v (rc_cache c) |}.

Definition redis_get (t k : string) (c : RedisCacheAdapter A) : option bytes * RedisCacheAdapter A :=
  match dict_get (t, k) (rc_cache c) with
  | Some cached => (Some cached, c)
  | None =>
      let r := adapter_get t k (rc_authority c) in
      match r.1 with
      | Some value =>
          (Some value, {| rc_authority := r.2; rc_cache := dict_set (t, k) value (rc_cache c) |})
      | None => (None, {| rc_authority := r.2; rc_cache := rc_cache c |})
      end
  end.

Definition redis_erase_tenant (t : string) (c : RedisCacheAdapter A) : Z * RedisCacheAdapter A :=
  let cache_keys := tenant_keys t (rc_cache c) in
  let cache := foldl (λ d key, dict_del key d) (rc_cache c) cache_keys in
  let r := adapter_erase_tenant t (rc_authority c) in
  (Z.max (Z.of_nat (length cache_keys)) r.1, {| rc_authority := r.2; rc_cache := cache |}).

Definition redis_clear_cache (c : RedisCacheAdapter A) : RedisCacheAdapter A :=
  {| rc_authority := rc_authority c; rc_cache := [] |}.

Definition redis_verify_tenant_erased (t : string) (c : RedisCacheAdapter A) : bool :=
  negb (existsb (λ key, bool_decide (key.1 = t)) (rc_cache c).*1)
  && adapter_verify_tenant_erased t (rc_authority c).

#[export] Instance redis_adapter : StorageAdapter (RedisCacheAdapter A) := {
  authoritative := false;
  adapter_put := redis_put;
  adapter_get := redis_get;
  adapter_erase_tenant := redis_erase_tenant;
  adapter_verify_tenant_erased := redis_verify_tenant_erased;
}.
End Redis.

(** ** Profiles and the router *)
Record StorageBackend := {
  sb_kind : AdapterKind;
  sb_endpoint : string;
  sb_dedicated : bool;
  sb_secret_ref : string;
}.

Record StorageProfile := {
  sp_tenant_id : string;
  sp_alias : string;
  sp_classification : DataClassification;
  sp_worker_pool : string;
  sp_encryption_key_ref : string;
  sp_backends : list StorageBackend;
}.

Definition required_kinds : list AdapterKind := [SQL; REDIS; VECTOR; OBJECT].

(** [has_each_backend_once]: the required kinds are there and no kind is repeated. *)
Definition has_each_backend_once (p : StorageProfile) : bool :=
  let kinds := remove_dups (sb_kind <$> sp_backends p) in
  forallb (λ k, bool_decide (k ∈ kinds)) required_kinds
  && (length kinds =? length (sp_backends p))%nat.

(** [StorageRouter.__init__] *)
Definition new_StorageRouter (p : StorageProfile) : outcome StorageProfileError StorageProfile :=
  let high_sensitivity := bool_decide (sp_classification p ∈ [CONFIDENTIAL; RESTRICTED]) in
  if high_sensitivity &&
     (bool_decide (sp_worker_pool p = "shared-workers") || negb (forallb sb_dedicated (sp_backends p)))
  then Raise DEDICATED_STORAGE_REQUIRED
  else Ok p.

(** [kind.value.lower()] *)
Definition kind_value_lower (k : AdapterKind) : string :=
  match k with
  | SQL => "sql" | REDIS => "redis" | VECTOR => "vector" | OBJECT => "object"
  | EXTERNAL_MEMORY => "external_memory"
  end.

Definition namespace (p : StorageProfile) (kind : AdapterKind) : outcome StorageProfileError string :=
  if bool_decide (kind ∈ sb_kind <$> sp_backends p) then
    let suffix := if bool_decide (kind = OBJECT) then "objects" else kind_value_lower kind in
    Ok (sp_tenant_id p +:+ "/" +:+ suffix)
  else Raise STORAGE_BACKEND_UNAVAILABLE.

(** ** Erasing a tenant everywhere

    An adapter object is a handle on the world its operations act on; two handles
    may share state, as the cache and its authority do. *)
Record AdapterHandle (W : Type) := {
  ah_erase_tenant : string → W → Z * W;
  ah_verify_tenant_erased : string → W → bool;
}.
Arguments ah_erase_tenant {_} _ _ _.
Arguments ah_verify_tenant_erased {_} _ _ _.
Arguments Build_AdapterHandle {_} _ _.

Record StorageDeletionReceipt := {
  dr_tenant_id : string;
  dr_deleted_by_backend : list (AdapterKind * Z);
  dr_verified : bool;
}.

Section Coordinator.
  Context {W : Type}.

Definition new_StorageDeletionCoordinator (adapters : list (AdapterKind * AdapterHandle W)) :
    outcome StorageProfileError (list (AdapterKind * AdapterHandle W)) :=
  if forallb (λ k, bool_decide (k ∈ adapters.*1)) required_kinds then Ok adapters
  else Raise STORAGE_DELETION_ADAPTERS_INCOMPLETE.

(** [await adapter.erase_tenant(tenant_id)] *)
Definition call_erase (t : string) (kh : AdapterKind * AdapterHandle W) :
    ST W StorageProfileError (AdapterKind * Z) := λ w,
  let r := ah_erase_tenant kh.2 t w in (Ok (kh.1, r.1), r.2).

(** [StorageDeletionCoordinator.erase_tenant] *)
Definition coordinator_erase_tenant (adapters : list (AdapterKind * AdapterHandle W)) (t : string)
    (legal_hold : bool) : ST W StorageProfileError StorageDeletionReceipt :=
  _ ← ensure (negb legal_hold) STORAGE_DELETION_LEGAL_HOLD;
  deleted ← map_each (call_erase t) adapters;
  verified ← gets (λ w, forallb (λ kh : AdapterKind * AdapterHandle W,
                          ah_verify_tenant_erased kh.2 t w) adapters);
  _ ← ensure verified STORAGE_DELETION_UNVERIFIED;
  mret {| dr_tenant_id := t; dr_deleted_by_backend := deleted; dr_verified := verified |}.
End Coordinator.
