(* ===== verification/StorageFacts.v ===== *)
(** * The storage adapters are lawful

    The memory adapter keeps its keys distinct and its feed bounded by its
    watermark; a cache that agrees with its authority is as good as the authority.
    These lemmas discharge the interfaces of [Storage] for both adapters. *)

From Stdlib Require Import Ascii.
From stdpp Require Import sorting.
From S2P Require Import Prelude PyNum PyDict ExecutionBus ToolRegistry Storage.
Open Scope string_scope.
Open Scope list_scope.
Open Scope Z_scope.

(** ** Tenants of a map *)
Lemma of_tenant_lookup t m t' k :
  of_tenant t m !! (t', k) = if decide (t' = t) then m !! (t', k) else None.
Proof.
  unfold of_tenant. destruct (decide (t' = t)) as [->|Hne].
  - destruct (m !! (t, k)) as [v|] eqn:Hm.
    + by apply map_lookup_filter_Some.
    + apply map_lookup_filter_None. by left.
  - apply map_lookup_filter_None. right. simpl. by intros v _ ?.
Qed.

Lemma without_tenant_lookup t m t' k :
  without_tenant t m !! (t', k) = if decide (t' = t) then None else m !! (t', k).
Proof.
  unfold without_tenant. destruct (decide (t' = t)) as [->|Hne].
  - apply map_lookup_filter_None. right. simpl. naive_solver.
  - destruct (m !! (t', k)) as [v|] eqn:Hm.
    + by apply map_lookup_filter_Some.
    + apply map_lookup_filter_None. by left.
Qed.

Lemma of_tenant_empty t m : of_tenant t m = ∅ ↔ ∀ k, m !! (t, k) = None.
Proof.
  split.
  - intros He k. pose proof (of_tenant_lookup t m t k) as Hl. rewrite He, decide_True in Hl by done.
    by rewrite lookup_empty in Hl.
  - intros Hn. apply map_eq. intros [t' k]. rewrite of_tenant_lookup, lookup_empty.
    case_decide; subst; auto.
Qed.

Lemma without_without t m : without_tenant t (without_tenant t m) = without_tenant t m.
Proof. apply map_eq. intros [t' k]. rewrite !without_tenant_lookup. by case_decide. Qed.

Lemma of_tenant_without t m : of_tenant t (without_tenant t m) = ∅.
Proof. apply of_tenant_empty. intros k. by rewrite without_tenant_lookup, decide_True. Qed.

(** ** Dictionaries keyed by tenant and key *)
Section TenantDict.
  Implicit Types d : list ((string * string) * bytes).

Lemma dict_get_del_all d keys k :
  dict_get k (foldl (λ d key, dict_del key d) d keys) = if decide (k ∈ keys) then None else dict_get k d.
Proof.
  revert d. induction keys as [|key keys IH]; intros d; simpl; [done|].
  rewrite IH, dict_get_del. repeat case_decide; set_solver.
Qed.

Lemma del_all_NoDup d keys :
  NoDup d.*1 → NoDup (foldl (λ d key, dict_del key d) d keys).*1.
Proof.
  revert d. induction keys as [|key keys IH]; intros d Hd; simpl; [done|].
  by apply IH, dict_filter_NoDup.
Qed.

Lemma tenant_keys_elem t d t' k : (t', k) ∈ tenant_keys t d ↔ t' = t ∧ is_Some (dict_get (t', k) d).
Proof. unfold tenant_keys. rewrite list_elem_of_filter, dict_get_elem. done. Qed.

Lemma tenant_keys_NoDup t d : NoDup d.*1 → NoDup (tenant_keys t d).
Proof. apply NoDup_filter. Qed.

(** Erasing the keys of a tenant is [without_tenant]. *)
Lemma contents_del_tenant t d :
  contents (foldl (λ d key, dict_del key d) d (tenant_keys t d)) = without_tenant t (contents d).
Proof.
  apply map_eq. intros [t' k]. rewrite without_tenant_lookup, !contents_lookup, dict_get_del_all.
  pose proof (tenant_keys_elem t d t' k). repeat case_decide; try naive_solver.
  destruct (dict_get (t', k) d) eqn:?; naive_solver.
Qed.

Lemma contents_set k v d : contents (dict_set k v d) = <[k := v]> (contents d).
Proof.
  apply map_eq. intros k'. rewrite contents_lookup, dict_get_set.
  destruct (decide (k' = k)) as [->|]; [by rewrite lookup_insert_eq|].
  by rewrite lookup_insert_ne, contents_lookup by congruence.
Qed.

Lemma tenant_keys_count t d : NoDup d.*1 → length (tenant_keys t d) = size (of_tenant t (contents d)).
Proof.
  intros Hd. pose proof (tenant_keys_NoDup t d Hd) as Hk.
  rewrite <- (size_dom (D := gset (string * string))).
  rewrite <- (size_list_to_set (C := gset (string * string)) _ Hk). f_equal. apply leibniz_equiv.
  intros [t' k]. rewrite elem_of_list_to_set, tenant_keys_elem, elem_of_dom, of_tenant_lookup,
    contents_lookup.
  case_decide; split; try naive_solver.
Qed.

Lemma no_tenant_key t d :
  negb (existsb (λ key : string * string, bool_decide (key.1 = t)) d.*1)
    = bool_decide (of_tenant t (contents d) = ∅).
Proof.
  symmetry. destruct (existsb _ _) eqn:He; simpl.
  - apply bool_decide_eq_false. rewrite of_tenant_empty. intros Hn.
    apply existsb_exists in He as ([t' k] & Hin & Ht%bool_decide_eq_true). simpl in Ht. subst t'.
    specialize (Hn k). rewrite contents_lookup in Hn. apply list_elem_of_In, dict_get_elem in Hin.
    rewrite Hn in Hin. by destruct Hin.
  - apply bool_decide_eq_true. rewrite of_tenant_empty. intros k. rewrite contents_lookup.
    apply eq_None_not_Some. intros Hs%dict_get_elem.
    assert (existsb (λ key : string * string, bool_decide (key.1 = t)) d.*1 = true) as Hx; [|congruence].
    apply existsb_exists. exists (t, k). split; [by apply list_elem_of_In|by apply bool_decide_eq_true].
Qed.

(** The snapshot of a tenant. *)
Lemma tenant_items_cons t t' k v d :
  tenant_items t (((t', k), v) :: d)
    = if decide (t' = t) then (k, v) :: tenant_items t d else tenant_items t d.
Proof. unfold tenant_items. csimpl. by case_decide. Qed.

Lemma tenant_items_get t d k : dict_get k (tenant_items t d) = dict_get (t, k) d.
Proof.
  induction d as [|[[t' k'] v] d IH]; [done|]. rewrite tenant_items_cons. simpl.
  destruct (decide (t' = t)) as [->|]; simpl; rewrite IH; repeat case_decide; congruence.
Qed.

Lemma tenant_items_elem t d k : k ∈ (tenant_items t d).*1 ↔ (t, k) ∈ d.*1.
Proof. by rewrite <- !dict_get_elem, tenant_items_get. Qed.

Lemma tenant_items_NoDup t d : NoDup d.*1 → NoDup (tenant_items t d).*1.
Proof.
  induction d as [|[[t' k'] v] d IH]; intros Hd; [by apply NoDup_nil|].
  apply NoDup_cons in Hd as [Hn Hd]. rewrite tenant_items_cons.
  destruct (decide (t' = t)) as [->|]; simpl; [|by apply IH].
  apply NoDup_cons. split; [|by apply IH]. by rewrite tenant_items_elem.
Qed.

(** Applying changes is replaying them, key by key. *)
Lemma apply_changes_get t cs d t' k :
  dict_get (t', k) (foldl (apply_change t) d cs)
    = if decide (t' = t) then replay cs k (dict_get (t, k) d) else dict_get (t', k) d.
Proof.
  revert d. induction cs as [|[k0 [v|]] cs IH]; intros d; simpl; [by case_decide; subst|..];
    rewrite IH; unfold apply_change; simpl; rewrite ?dict_get_set, ?dict_get_del;
    repeat case_decide; simplify_eq; done.
Qed.

Lemma apply_changes_NoDup t cs d : NoDup d.*1 → NoDup (foldl (apply_change t) d cs).*1.
Proof.
  revert d. induction cs as [|[k0 [v|]] cs IH]; intros d Hd; simpl; [done|..]; apply IH.
  - by apply dict_set_NoDup.
  - by apply dict_filter_NoDup.
Qed.
End TenantDict.

(** ** The memory adapter *)
Record memory_ok (a : MemoryAdapter) : Prop := {
  mo_keys : NoDup (ma_objects a).*1;
  mo_feed : ∀ c, c ∈ ma_changes a → c.1.1.1 ≤ ma_watermark a;
}.

Lemma memory_put_ok t k v a : memory_ok a → memory_ok (memory_put t k v a).
Proof.
  intros [Hk Hf]. split; simpl; [by apply dict_set_NoDup|].
  intros c [Hc| ->%list_elem_of_singleton]%elem_of_app; simpl; [specialize (Hf c Hc); lia|lia].
Qed.

Lemma memory_erase_ok t a : memory_ok a → memory_ok (memory_erase_tenant t a).2.
Proof.
  intros [Hk Hf]. split; simpl; [by apply del_all_NoDup|].
  intros c [Hc|(key & -> & _)%list_elem_of_fmap]%elem_of_app; simpl; [specialize (Hf c Hc); lia|lia].
Qed.

Lemma memory_apply_ok t cs a : memory_ok a → memory_ok (memory_apply_changes t cs a).
Proof. intros [Hk Hf]. split; simpl; [by apply apply_changes_NoDup|done]. Qed.

#[export] Program Instance memory_adapter_laws : StorageAdapterLaws MemoryAdapter := {
  adapter_ok := memory_ok;
  stored a := contents (ma_objects a);
}.
Next Obligation. intros t k v a Ha. split; [by apply memory_put_ok|apply contents_set]. Qed.
Next Obligation. intros t k a Ha. simpl. by rewrite contents_lookup. Qed.
Next Obligation.
  intros t a Ha. split_and!; [|by apply memory_erase_ok|apply contents_del_tenant].
  simpl. by rewrite tenant_keys_count by apply Ha.
Qed.
Next Obligation. intros t a Ha. apply no_tenant_key. Qed.

(** The part of the feed that a sequence of client operations adds. *)
Definition feed_of (t : string) (k : string) (cs : list (Z * string * string * option bytes)) :
    option bytes → option bytes :=
  λ before, foldl (λ acc (c : Z * string * string * option bytes),
    if decide (c.1.1.2 = t ∧ c.1.2 = k) then c.2 else acc) before cs.

Lemma feed_of_app t k cs cs' b : feed_of t k (cs ++ cs') b = feed_of t k cs' (feed_of t k cs b).
Proof. apply foldl_app. Qed.

Lemma feed_of_erase t k w d b :
  feed_of t k ((λ key : string * string, (w, t, key.2, None)) <$> tenant_keys t d) b
    = if decide ((t, k) ∈ tenant_keys t d) then None else b.
Proof.
  assert (∀ key, key ∈ tenant_keys t d → key.1 = t) as Ht.
  { intros [t' k'] Hin. by apply tenant_keys_elem in Hin as [-> _]. }
  unfold feed_of. revert b. induction (tenant_keys t d) as [|[t' k'] keys IH]; intros b; simpl; [done|].
  rewrite IH by set_solver. assert (t' = t) as -> by (apply (Ht (t', k')); left).
  repeat case_decide; set_solver.
Qed.

Lemma feed_of_other t k t' w (keys : list (string * string)) b :
  t' ≠ t → feed_of t k ((λ key : string * string, (w, t', key.2, None)) <$> keys) b = b.
Proof.
  intros Hne. unfold feed_of. revert b. induction keys as [|key keys IH]; intros b; simpl; [done|].
  rewrite IH. case_decide; naive_solver.
Qed.

(** One client operation: what it adds to the feed is what it did to the objects. *)
Lemma memory_step_feed op (a : MemoryAdapter) :
  ∃ cs, ma_changes (adapter_step op a).2 = ma_changes a ++ cs ∧
    ma_watermark a ≤ ma_watermark (adapter_step op a).2 ∧
    (∀ c, c ∈ cs → ma_watermark a < c.1.1.1) ∧
    ∀ t k, dict_get (t, k) (ma_objects (adapter_step op a).2)
      = feed_of t k cs (dict_get (t, k) (ma_objects a)).
Proof.
  destruct op as [t0 k0 v|t0 k0|t0|t0]; simpl.
  - eexists [_]. split_and!; [done|lia|by intros c ->%list_elem_of_singleton; simpl; lia|].
    intros t k. rewrite dict_get_set. simpl. repeat case_decide; naive_solver.
  - exists []. rewrite app_nil_r. split_and!; [done|lia|set_solver|done].
  - eexists. split_and!; [done|lia|by intros c (key & -> & _)%list_elem_of_fmap; simpl; lia|].
    intros t k. rewrite dict_get_del_all. destruct (decide (t0 = t)) as [->|Hne].
    + by rewrite feed_of_erase.
    + rewrite feed_of_other by done. apply decide_False. intros [? _]%tenant_keys_elem. congruence.
  - exists []. rewrite app_nil_r. split_and!; [done|lia|set_solver|done].
Qed.

Lemma memory_run_feed ops (a : MemoryAdapter) :
  ∃ cs, ma_changes (adapter_run ops a) = ma_changes a ++ cs ∧
    ma_watermark a ≤ ma_watermark (adapter_run ops a) ∧
    (∀ c, c ∈ cs → ma_watermark a < c.1.1.1) ∧
    ∀ t k, dict_get (t, k) (ma_objects (adapter_run ops a))
      = feed_of t k cs (dict_get (t, k) (ma_objects a)).
Proof.
  unfold adapter_run. revert a. induction ops as [|op ops IH]; intros a; simpl.
  { exists []. rewrite app_nil_r. split_and!; [done|lia|set_solver|done]. }
  destruct (memory_step_feed op a) as (cs1 & Hc1 & Hw1 & Hl1 & Hg1).
  destruct (IH (adapter_step op a).2) as (cs2 & Hc2 & Hw2 & Hl2 & Hg2).
  exists (cs1 ++ cs2). rewrite Hc2, Hc1, app_assoc. split_and!; [done|lia|..].
  - intros c [Hc|Hc]%elem_of_app; [by apply Hl1|]. specialize (Hl2 c Hc). lia.
  - intros t k. by rewrite Hg2, Hg1, feed_of_app.
Qed.

(** What [changes_since] selects, replayed, is the new part of the feed. *)
Lemma changes_since_replay t k w old cs b :
  (∀ c, c ∈ old → c.1.1.1 ≤ w) → (∀ c, c ∈ cs → w < c.1.1.1) →
  replay (omap (λ c : Z * string * string * option bytes,
     let '(sequence, stored_tenant, key, value) := c in
     if decide (stored_tenant = t ∧ w < sequence) then Some (key, value) else None) (old ++ cs)) k b
    = feed_of t k cs b.
Proof.
  intros Hold Hnew. rewrite omap_app.
  assert (omap (λ c : Z * string * string * option bytes,
     let '(sequence, stored_tenant, key, value) := c in
     if decide (stored_tenant = t ∧ w < sequence) then Some (key, value) else None) old = []) as ->.
  { clear Hnew. induction old as [|[[[s u] key] v] old IH]; [done|]. simpl.
    pose proof (Hold (s, u, key, v) ltac:(by left)) as Hs. simpl in Hs.
    rewrite decide_False by lia. apply IH. set_solver. }
  simpl. unfold replay, feed_of. revert b. clear Hold.
  induction cs as [|[[[s u] key] v] cs IH]; intros b; [done|]. simpl.
  pose proof (Hnew (s, u, key, v) ltac:(by left)) as Hs. simpl in Hs.
  assert (∀ c, c ∈ cs → w < c.1.1.1) as Hcs by set_solver.
  destruct (decide (u = t ∧ w < s)) as [[-> _]|Hu]; simpl; rewrite (IH Hcs).
  - repeat case_decide; naive_solver.
  - rewrite decide_False; [done|]. intros [-> _]. by destruct Hu.
Qed.

#[export] Program Instance memory_online_laws : OnlineMigrationLaws MemoryAdapter.
Next Obligation.
  intros t a [Hk _]. split; [by apply tenant_items_NoDup|]. intros k. simpl.
  by rewrite tenant_items_get, contents_lookup.
Qed.
Next Obligation.
  intros t a ops k [_ Hf]. simpl. destruct (memory_run_feed ops a) as (cs & -> & _ & Hl & Hg).
  rewrite !contents_lookup, Hg. by apply changes_since_replay.
Qed.
Next Obligation. done. Qed.
Next Obligation.
  intros t cs a Ha. split; [by apply memory_apply_ok|]. intros t' k. simpl.
  rewrite !contents_lookup. apply apply_changes_get.
Qed.

(** ** The cache *)
Section RedisLaws.
  Context {A : Type} `{StorageAdapterLaws A}.
  Implicit Types c : RedisCacheAdapter A.

(** The cache holds only what its authority holds. *)
Record redis_ok (c : RedisCacheAdapter A) : Prop := {
  ro_authority : adapter_ok (rc_authority c);
  ro_keys : NoDup (rc_cache c).*1;
  ro_coherent : contents (rc_cache c) ⊆ stored (rc_authority c);
}.

Lemma redis_put_ok t k v c : redis_ok c →
  redis_ok (redis_put t k v c) ∧
  stored (rc_authority (redis_put t k v c)) = <[(t, k) := v]> (stored (rc_authority c)).
Proof.
  intros [Ha Hk Hc]. simpl. destruct (put_law t k v _ Ha) as [Ha' Hs]. split; [|done].
  split; simpl; [done|by apply dict_set_NoDup|]. rewrite Hs, contents_set. by apply insert_mono.
Qed.

Lemma redis_get_ok t k c : redis_ok c →
  (redis_get t k c).1 = stored (rc_authority c) !! (t, k) ∧
  redis_ok (redis_get t k c).2 ∧
  stored (rc_authority (redis_get t k c).2) = stored (rc_authority c).
Proof.
  intros [Ha Hk Hc]. unfold redis_get. destruct (dict_get (t, k) (rc_cache c)) as [cached|] eqn:Hg.
  - split_and!; [|by split|done]. symmetry. eapply lookup_weaken; [|exact Hc].
    by rewrite contents_lookup.
  - destruct (get_law t k _ Ha) as (Hr & Ha' & Hs).
    destruct (adapter_get t k (rc_authority c)) as [[value|] a'] eqn:Hget; simpl in *;
      split_and!; [done| |done|done| |done].
    + split; simpl; [done|by apply dict_set_NoDup|]. rewrite contents_set, Hs.
      by apply insert_subseteq_l.
    + by split; simpl; [..|rewrite Hs].
Qed.

Lemma coherent_tenant_count t c : redis_ok c →
  (length (tenant_keys t (rc_cache c)) ≤ size (of_tenant t (stored (rc_authority c))))%nat.
Proof.
  intros [Ha Hk Hc]. rewrite tenant_keys_count by done.
  rewrite <- !(size_dom (D := gset (string * string))). apply subseteq_size, subseteq_dom.
  by apply map_filter_subseteq_mono.
Qed.

Lemma redis_erase_ok t c : redis_ok c →
  (redis_erase_tenant t c).1 = Z.of_nat (size (of_tenant t (stored (rc_authority c)))) ∧
  redis_ok (redis_erase_tenant t c).2 ∧
  stored (rc_authority (redis_erase_tenant t c).2) = without_tenant t (stored (rc_authority c)).
Proof.
  intros Hok. pose proof (coherent_tenant_count t c Hok) as Hle. destruct Hok as [Ha Hk Hc].
  destruct (erase_law t _ Ha) as (Hn & Ha' & Hs). simpl. rewrite Hn.
  split_and!; [lia| |done]. split; simpl; [done|by apply del_all_NoDup|].
  rewrite Hs, contents_del_tenant. by apply map_filter_subseteq_mono.
Qed.

Lemma redis_verify_ok t c : redis_ok c →
  redis_verify_tenant_erased t c = bool_decide (of_tenant t (stored (rc_authority c)) = ∅).
Proof.
  intros [Ha Hk Hc]. unfold redis_verify_tenant_erased. rewrite no_tenant_key, verify_law by done.
  destruct (bool_decide_reflect (of_tenant t (stored (rc_authority c)) = ∅)) as [He|]; simpl;
    [|apply andb_false_r].
  rewrite andb_true_r, bool_decide_eq_true. rewrite of_tenant_empty in He |- *.
  intros k. eapply lookup_weaken_None; [apply He|done].
Qed.

Lemma redis_clear_ok c : redis_ok c → redis_ok (redis_clear_cache c).
Proof. intros [Ha Hk Hc]. split; simpl; [done|apply NoDup_nil_2|apply map_empty_subseteq]. Qed.

#[export] Program Instance redis_adapter_laws : StorageAdapterLaws (RedisCacheAdapter A) := {
  adapter_ok := redis_ok;
  stored c := stored (rc_authority c);
}.
Next Obligation. intros t k v c. apply redis_put_ok. Qed.
Next Obligation. intros t k c. apply redis_get_ok. Qed.
Next Obligation. intros t c. apply redis_erase_ok. Qed.
Next Obligation. intros t c. apply redis_verify_ok. Qed.
End RedisLaws.

(** ** The abstract store: one finite map *)
Definition spec_step (op : adapter_op) (m : gmap (string * string) bytes) :
    adapter_reply * gmap (string * string) bytes :=
  match op with
  | OpPut t k v => (ReplyDone, <[(t, k) := v]> m)
  | OpGet t k => (ReplyValue (m !! (t, k)), m)
  | OpErase t => (ReplyCount (Z.of_nat (size (of_tenant t m))), without_tenant t m)
  | OpVerify t => (ReplyErased (bool_decide (of_tenant t m = ∅)), m)
  end.

Fixpoint spec_run (ops : list adapter_op) (m : gmap (string * string) bytes) :
    list adapter_reply * gmap (string * string) bytes :=
  match ops with
  | [] => ([], m)
  | op :: ops' =>
      let r := spec_step op m in
      let rest := spec_run ops' r.2 in (r.1 :: rest.1, rest.2)
  end.

(** One step of a lawful adapter is one step of the abstract store. *)
Lemma adapter_step_simulates {A} `{StorageAdapterLaws A} op (a : A) : adapter_ok a →
  (adapter_step op a).1 = (spec_step op (stored a)).1 ∧
  adapter_ok (adapter_step op a).2 ∧
  stored (adapter_step op a).2 = (spec_step op (stored a)).2.
Proof.
  intros Ha. destruct op as [t k v|t k|t|t]; simpl.
  - destruct (put_law t k v a Ha). done.
  - destruct (get_law t k a Ha) as (-> & ? & ?). done.
  - destruct (erase_law t a Ha) as (-> & ? & ?). done.
  - rewrite verify_law by done. done.
Qed.

Lemma adapter_run_ok {A} `{StorageAdapterLaws A} ops (a : A) :
  adapter_ok a → adapter_ok (adapter_run ops a).
Proof.
  unfold adapter_run. revert a. induction ops as [|op ops IH]; intros a Ha; simpl; [done|].
  apply IH. by apply adapter_step_simulates.
Qed.
