(* ===== verification/StorageTheorems.v ===== *)
(** * What the storage layer guarantees

    The cache over an authority cannot be told from one finite map; the deletion
    coordinator erases a tenant from every backend and nothing else; the router
    keeps tenants apart. *)

From Stdlib Require Import Ascii.
From S2P Require Import Prelude PyNum PyDict ExecutionBus ToolRegistry Storage StorageFacts.
Open Scope string_scope.
Open Scope list_scope.
Open Scope Z_scope.

(** ** The cache refines the abstract store *)
Inductive redis_event := Client (op : adapter_op) | ClearCache.

Definition client_ops (events : list redis_event) : list adapter_op :=
  omap (λ e, match e with Client op => Some op | ClearCache => None end) events.

Section Refinement.
  Context {A : Type} `{StorageAdapterLaws A}.

(** The replies clients get, and the state at the end; the cache may be dropped at
    any point. *)
Fixpoint redis_run (events : list redis_event) (c : RedisCacheAdapter A) :
    list adapter_reply * RedisCacheAdapter A :=
  match events with
  | [] => ([], c)
  | ClearCache :: events' => redis_run events' (redis_clear_cache c)
  | Client op :: events' =>
      let r := adapter_step op c in
      let rest := redis_run events' r.2 in (r.1 :: rest.1, rest.2)
  end.

Lemma redis_run_simulates events c : redis_ok c →
  (redis_run events c).1 = (spec_run (client_ops events) (stored (rc_authority c))).1 ∧
  stored (rc_authority (redis_run events c).2)
    = (spec_run (client_ops events) (stored (rc_authority c))).2.
Proof.
  revert c. induction events as [|[op|] events IH]; intros c Hc; [done| |].
  - pose proof (adapter_step_simulates op c) as Hsim. destruct (Hsim Hc) as (Hr & Hc' & Hs).
    change (stored c) with (stored (rc_authority c)) in *.
    change (stored (adapter_step op c).2) with (stored (rc_authority (adapter_step op c).2)) in Hs.
    destruct (IH _ Hc') as [IH1 IH2]. simpl. rewrite IH1, IH2, Hr, Hs. done.
  - simpl. apply (IH (redis_clear_cache c)). by apply redis_clear_ok.
Qed.
End Refinement.

(** C31: Refinement: a cache built over a lawful authoritative adapter gives clients the
    replies of one finite map from tenant and key to value, whatever they do and
    whenever the cache is cleared, and its authority ends up holding that map. *)
Theorem cache_refines_store {A : Type} `{StorageAdapterLaws A} (a : A) c events :
  adapter_ok a → new_RedisCacheAdapter a = Ok c →
  (redis_run events c).1 = (spec_run (client_ops events) (stored a)).1 ∧
  stored (rc_authority (redis_run events c).2) = (spec_run (client_ops events) (stored a)).2.
Proof.
  unfold new_RedisCacheAdapter. intros Ha Hc. case_match; simplify_eq.
  apply (redis_run_simulates events (Build_RedisCacheAdapter a [])).
  split; simpl; [done|apply NoDup_nil_2|apply map_empty_subseteq].
Qed.

Lemma new_memory_ok : adapter_ok new_MemoryAdapter.
Proof. split; simpl; [apply NoDup_nil_2|set_solver]. Qed.

Definition cache_demo : list redis_event :=
  [Client (OpPut "acme" "k" [Byte.x01]); ClearCache; Client (OpGet "acme" "k");
   Client (OpErase "acme"); Client (OpGet "acme" "k"); Client (OpVerify "acme")].

Lemma cache_refines_store_witness :
  (redis_run cache_demo (Build_RedisCacheAdapter new_MemoryAdapter [])).1
    = [ReplyDone; ReplyValue (Some [Byte.x01]); ReplyCount 1; ReplyValue None; ReplyErased true].
Proof.
  rewrite (proj1 (cache_refines_store new_MemoryAdapter _ cache_demo new_memory_ok eq_refl)).
  vm_compute. reflexivity.
Defined.

(** ** Erasing a tenant

    The stores of a deployment: the cache shares its authority with the SQL
    adapter, so erasing one reaches into the other. *)
Record Stores := {
  st_redis : RedisCacheAdapter MemoryAdapter;
  st_vector : MemoryAdapter;
  st_object : MemoryAdapter;
  st_external : MemoryAdapter;
}.

Definition standard_handle (kind : AdapterKind) : AdapterHandle Stores :=
  match kind with
  | SQL => Build_AdapterHandle
      (λ t w, let r := memory_erase_tenant t (rc_authority (st_redis w)) in
        (r.1, {| st_redis := {| rc_authority := r.2; rc_cache := rc_cache (st_redis w) |};
                 st_vector := st_vector w; st_object := st_object w; st_external := st_external w |}))
      (λ t w, memory_verify_tenant_erased t (rc_authority (st_redis w)))
  | REDIS => Build_AdapterHandle
      (λ t w, let r := redis_erase_tenant t (st_redis w) in
        (r.1, {| st_redis := r.2;
                 st_vector := st_vector w; st_object := st_object w; st_external := st_external w |}))
      (λ t w, redis_verify_tenant_erased t (st_redis w))
  | VECTOR => Build_AdapterHandle
      (λ t w, let r := memory_erase_tenant t (st_vector w) in
        (r.1, {| st_redis := st_redis w; st_vector := r.2; st_object := st_object w;
                 st_external := st_external w |}))
      (λ t w, memory_verify_tenant_erased t (st_vector w))
  | OBJECT => Build_AdapterHandle
      (λ t w, let r := memory_erase_tenant t (st_object w) in
        (r.1, {| st_redis := st_redis w; st_vector := st_vector w; st_object := r.2;
                 st_external := st_external w |}))
      (λ t w, memory_verify_tenant_erased t (st_object w))
  | EXTERNAL_MEMORY => Build_AdapterHandle
      (λ t w, let r := memory_erase_tenant t (st_external w) in
        (r.1, {| st_redis := st_redis w; st_vector := st_vector w; st_object := st_object w;
                 st_external := r.2 |}))
      (λ t w, memory_verify_tenant_erased t (st_external w))
  end.

Definition standard_adapters (kinds : list AdapterKind) : list (AdapterKind * AdapterHandle Stores) :=
  (λ k, (k, standard_handle k)) <$> kinds.

(** The map each backend holds; for the cache, the cached copies. *)
Definition held (kind : AdapterKind) (w : Stores) : gmap (string * string) bytes :=
  match kind with
  | SQL => contents (ma_objects (rc_authority (st_redis w)))
  | REDIS => contents (rc_cache (st_redis w))
  | VECTOR => contents (ma_objects (st_vector w))
  | OBJECT => contents (ma_objects (st_object w))
  | EXTERNAL_MEMORY => contents (ma_objects (st_external w))
  end.

(** [covers done k]: erasing the backends [done] also empties backend [k]. *)
Definition covers (kinds : list AdapterKind) (k : AdapterKind) : Prop :=
  k ∈ kinds ∨ (k = SQL ∧ REDIS ∈ kinds).

#[export] Instance covers_dec kinds k : Decision (covers kinds k).
Proof. unfold covers. apply _. Defined.

Lemma erase_one_held t kind k w :
  held k (ah_erase_tenant (standard_handle kind) t w).2
    = if decide (covers [kind] k) then without_tenant t (held k w) else held k w.
Proof.
  destruct (decide (covers [kind] k)) as [Hc|Hc]; unfold covers in Hc;
    rewrite list_elem_of_singleton in Hc; destruct kind, k; try (exfalso; set_solver);
    simpl; by rewrite ?contents_del_tenant.
Qed.

Lemma erase_all_held t kinds w :
  ∃ deleted w', map_each (call_erase t) (standard_adapters kinds) w = (Ok deleted, w') ∧
    deleted.*1 = kinds ∧
    ∀ k, held k w' = if decide (covers kinds k) then without_tenant t (held k w) else held k w.
Proof.
  revert w. induction kinds as [|kind kinds IH]; intros w.
  { exists [], w. split_and!; [done|done|]. intros k.
    rewrite decide_False; [done|]. unfold covers. set_solver. }
  destruct (IH (ah_erase_tenant (standard_handle kind) t w).2) as (deleted & w' & Hrun & Hd & Hh).
  eexists _, w'. split_and!.
  - unfold standard_adapters in *. rewrite fmap_cons. simpl. erewrite bind_run by done.
    erewrite bind_run by exact Hrun. done.
  - rewrite fmap_cons. by f_equal.
  - intros k. rewrite Hh, erase_one_held. unfold covers.
    repeat case_decide; rewrite ?without_without; try done; exfalso; set_solver.
Qed.

Lemma verify_held t kind w :
  ah_verify_tenant_erased (standard_handle kind) t w = true ↔
  of_tenant t (held kind w) = ∅ ∧ (kind = REDIS → of_tenant t (held SQL w) = ∅).
Proof.
  destruct kind; simpl; unfold memory_verify_tenant_erased, redis_verify_tenant_erased; simpl;
    unfold memory_verify_tenant_erased; rewrite ?andb_true_iff, ?no_tenant_key, ?bool_decide_eq_true;
    naive_solver.
Qed.

(** Erasure of a tenant over any configured set of backends, in any order, returns a
    verified receipt with one entry per backend; afterwards no backend and no cached
    copy holds an object of the tenant, and every other tenant's objects are as they
    were. *)
Theorem tenant_erasure_complete kinds t w adapters :
  new_StorageDeletionCoordinator (standard_adapters kinds) = Ok adapters →
  ∃ receipt w', coordinator_erase_tenant adapters t false w = (Ok receipt, w') ∧
    dr_verified receipt = true ∧ (dr_deleted_by_backend receipt).*1 = kinds ∧
    ∀ k, k ∈ kinds → held k w' = without_tenant t (held k w).
Proof.
  unfold new_StorageDeletionCoordinator. intros Hnew. case_match; simplify_eq.
  destruct (erase_all_held t kinds w) as (deleted & w' & Hrun & Hd & Hh).
  assert (∀ k, covers kinds k → held k w' = without_tenant t (held k w)) as Hcov.
  { intros k Hk. by rewrite Hh, decide_True. }
  assert (forallb (λ kh, ah_verify_tenant_erased kh.2 t w') (standard_adapters kinds) = true) as Hv.
  { apply forallb_forall. intros kh (k & -> & Hk)%list_elem_of_In%list_elem_of_fmap.
    apply verify_held. rewrite Hcov by (by left). split; [apply of_tenant_without|].
    intros ->. rewrite Hcov by (by right). apply of_tenant_without. }
  eexists _, w'. split_and!.
  - unfold coordinator_erase_tenant. erewrite bind_run by done. erewrite bind_run by exact Hrun.
    erewrite bind_run by done. rewrite Hv. done.
  - done.
  - done.
  - intros k Hk. apply Hcov. by left.
Qed.

(** A deployment with one object of two tenants in every store. *)
Definition two_tenants : MemoryAdapter :=
  memory_put "acme" "k" [Byte.x01] (memory_put "beta" "k" [Byte.x02] new_MemoryAdapter).
Definition sample_stores : Stores :=
  {| st_redis := Build_RedisCacheAdapter two_tenants [(("acme", "k"), [Byte.x01])];
     st_vector := two_tenants; st_object := two_tenants; st_external := new_MemoryAdapter |}.

Lemma tenant_erasure_complete_witness :
  ∃ receipt w', coordinator_erase_tenant (standard_adapters [REDIS; SQL; VECTOR; OBJECT]) "acme" false
      sample_stores = (Ok receipt, w') ∧
    dr_verified receipt = true ∧ (dr_deleted_by_backend receipt).*1 = [REDIS; SQL; VECTOR; OBJECT] ∧
    ∀ k, k ∈ [REDIS; SQL; VECTOR; OBJECT] → held k w' = without_tenant "acme" (held k sample_stores).
Proof. apply tenant_erasure_complete. reflexivity. Defined.

(** A tenant under legal hold keeps every object, and a deployment that misses one of
    the required backends gets no coordinator at all. *)
Theorem erasure_refuses {W} (adapters : list (AdapterKind * AdapterHandle W)) t w :
  coordinator_erase_tenant adapters t true w = (Raise STORAGE_DELETION_LEGAL_HOLD, w) ∧
  (∀ k, k ∈ required_kinds → k ∉ adapters.*1 →
   new_StorageDeletionCoordinator adapters = Raise STORAGE_DELETION_ADAPTERS_INCOMPLETE).
Proof.
  split; [done|]. intros k Hk Hn. unfold new_StorageDeletionCoordinator.
  destruct (forallb _ required_kinds) eqn:Hf; [|done].
  rewrite forallb_forall in Hf. specialize (Hf k (proj1 (list_elem_of_In _ _) Hk)).
  by apply bool_decide_eq_true in Hf.
Qed.

Lemma erasure_refuses_witness :
  new_StorageDeletionCoordinator (standard_adapters [SQL; REDIS; VECTOR])
    = Raise STORAGE_DELETION_ADAPTERS_INCOMPLETE.
Proof.
  apply (erasure_refuses (standard_adapters [SQL; REDIS; VECTOR]) "acme" sample_stores) with OBJECT;
    [by repeat constructor|].
  intros Hin. repeat (apply elem_of_cons in Hin as [?|Hin]; [discriminate|]). by apply not_elem_of_nil in Hin.
Defined.

(** ** The router *)
Fixpoint rev_chars (s : string) (acc : list ascii) : list ascii :=
  match s with EmptyString => acc | String c s' => rev_chars s' (c :: acc) end.

Lemma rev_chars_app s1 s2 acc : rev_chars (s1 +:+ s2) acc = rev_chars s2 (rev_chars s1 acc).
Proof. revert acc. induction s1 as [|c s1 IH]; intros acc; simpl; [done|]. apply IH. Qed.

Lemma rev_chars_spec s acc : rev_chars s acc = rev (String.list_ascii_of_string s) ++ acc.
Proof.
  revert acc. induction s as [|c s IH]; intros acc; simpl; [done|]. by rewrite IH, <- app_assoc.
Qed.

Lemma rev_chars_inj s1 s2 : rev_chars s1 [] = rev_chars s2 [] → s1 = s2.
Proof.
  rewrite !rev_chars_spec, !app_nil_r. intros Heq%(f_equal (@rev ascii)). rewrite !rev_involutive in Heq.
  by rewrite <- (String.string_of_list_ascii_of_string s1), Heq,
    String.string_of_list_ascii_of_string.
Qed.

(** A router exists for a confidential or restricted profile only if its worker pool
    and all its backends are dedicated, and two namespaces it or any other router
    hands out coincide only for the same tenant and the same kind of backend. *)
Theorem router_isolates p p' k k' n :
  new_StorageRouter p = Ok p →
  namespace p k = Ok n → namespace p' k' = Ok n →
  (sp_tenant_id p = sp_tenant_id p' ∧ k = k') ∧
  (sp_classification p = CONFIDENTIAL ∨ sp_classification p = RESTRICTED →
   sp_worker_pool p ≠ "shared-workers" ∧ ∀ b, b ∈ sp_backends p → sb_dedicated b = true).
Proof.
  intros Hr Hn Hn'. split.
  - unfold namespace in *. case_match; simplify_eq. case_match; simplify_eq.
    match goal with H : _ +:+ _ = _ |- _ => rename H into Heq end.
    apply (f_equal (λ s, rev_chars s [])) in Heq. rewrite !rev_chars_app in Heq.
    destruct k, k'; simpl in Heq; simplify_eq; split; try done; by apply rev_chars_inj.
  - intros Hc. unfold new_StorageRouter in Hr.
    rewrite (bool_decide_true (sp_classification p ∈ _)) in Hr.
    2: { rewrite !elem_of_cons. naive_solver. }
    simpl in Hr. destruct (bool_decide (sp_worker_pool p = _)) eqn:Hw; [done|].
    destruct (forallb sb_dedicated (sp_backends p)) eqn:Hd; [|done].
    split; [by apply bool_decide_eq_false in Hw|]. intros b Hb.
    rewrite forallb_forall in Hd. by apply Hd, list_elem_of_In.
Qed.

Definition sample_profile : StorageProfile :=
  {| sp_tenant_id := "acme"; sp_alias := "main"; sp_classification := RESTRICTED;
     sp_worker_pool := "acme-workers"; sp_encryption_key_ref := "vault://k#1";
     sp_backends := [Build_StorageBackend OBJECT "s3://acme" true "vault://s#1"] |}.

Lemma router_isolates_witness :
  sp_worker_pool sample_profile ≠ "shared-workers".
Proof.
  apply (router_isolates sample_profile sample_profile OBJECT OBJECT "acme/objects"); try reflexivity.
  by right.
Defined.
