(* ===== verification/StorageMigration.v ===== *)
(** * Online storage migration (trpc_service/storage_migration.py)

    The state machine of a migration and the executor that copies, replays and
    compares the adapters of two profiles.  Adapter objects are named by numbers
    and live in a store that clients of the adapters change between the phases;
    the factory that pairs the adapters of two profiles is a parameter. *)

From S2P Require Import Prelude PyNum PyDict ExecutionBus ToolRegistry Storage.
Open Scope string_scope.
Open Scope list_scope.
Open Scope Z_scope.

Inductive StorageMigrationState :=
  | PREPARED | BACKFILLING | CATCHING_UP | VALIDATING | READY_TO_SWITCH | OBSERVING
  | ROLLING_BACK | ROLLBACK_CATCHING_UP | ROLLBACK_VALIDATING
  | COMPLETED | ROLLED_BACK | MIGRATION_FAILED.
#[export] Instance StorageMigrationState_eq_dec : EqDecision StorageMigrationState.
Proof. solve_decision. Defined.

Inductive MigrationOperation :=
  | START_BACKFILL | BACKFILL_COMPLETE | CATCH_UP_COMPLETE | VALIDATE | SWITCH | COMPLETE
  | START_ROLLBACK | ROLLBACK_BACKFILL_COMPLETE | ROLLBACK_CATCH_UP_COMPLETE
  | ROLLBACK_VALIDATE | FAIL_MIGRATION.
#[export] Instance MigrationOperation_eq_dec : EqDecision MigrationOperation.
Proof. solve_decision. Defined.

(** The codes of [StorageMigrationError]. *)
Inductive MigrationCode :=
  | IDENTICAL_PROFILES | INVALID_TRANSITION | VALIDATION_FAILED | ADAPTERS_UNAVAILABLE
  | CHECKPOINT_INVALID | CHECKPOINT_MISSING | ROLLBACK_VALIDATION_FAILED.

(** What a migration step can raise: a [StorageMigrationError], or a [KeyError] from a
    checkpoint that misses an index. *)
Inductive ExecutorError := MigrationError (code : MigrationCode) | MissingKey.

(** ** Evidence *)
Record ValidationEvidence := {
  ve_source_count : Z;
  ve_target_count : Z;
  ve_source_digest : string;
  ve_target_digest : string;
  ve_source_version : Z;
  ve_target_version : Z;
  ve_vector_recall : Z * Z;
}.

(** The literal [0.95]. *)
Definition float_0_95 : Z * Z := (8556839292003942, -53).

Definition is_valid (e : ValidationEvidence) : bool :=
  (ve_source_count e =? ve_target_count e)
  && bool_decide (ve_source_digest e = ve_target_digest e)
  && (ve_source_version e =? ve_target_version e)
  && float_geb (ve_vector_recall e) float_0_95.

(** ** The state machine *)
Definition transitions (s : StorageMigrationState) (op : MigrationOperation) :
    option StorageMigrationState :=
  match s, op with
  | PREPARED, START_BACKFILL => Some BACKFILLING
  | BACKFILLING, BACKFILL_COMPLETE => Some CATCHING_UP
  | CATCHING_UP, CATCH_UP_COMPLETE => Some VALIDATING
  | VALIDATING, VALIDATE => Some READY_TO_SWITCH
  | READY_TO_SWITCH, SWITCH => Some OBSERVING
  | OBSERVING, COMPLETE => Some COMPLETED
  | OBSERVING, START_ROLLBACK => Some ROLLING_BACK
  | ROLLING_BACK, ROLLBACK_BACKFILL_COMPLETE => Some ROLLBACK_CATCHING_UP
  | ROLLBACK_CATCHING_UP, ROLLBACK_CATCH_UP_COMPLETE => Some ROLLBACK_VALIDATING
  | ROLLBACK_VALIDATING, ROLLBACK_VALIDATE => Some ROLLED_BACK
  | _, _ => None
  end.

Record StorageMigrationStateMachine := {
  sm_source_profile_id : uuid;
  sm_target_profile_id : uuid;
  sm_state : StorageMigrationState;
}.

Definition new_StorageMigrationStateMachine (source target : uuid) (state : StorageMigrationState) :
    outcome ExecutorError StorageMigrationStateMachine :=
  if bool_decide (source = target) then Raise (MigrationError IDENTICAL_PROFILES)
  else Ok {| sm_source_profile_id := source; sm_target_profile_id := target; sm_state := state |}.

Definition business_write_profile_id (m : StorageMigrationStateMachine) : option uuid :=
  match sm_state m with
  | ROLLING_BACK | ROLLBACK_CATCHING_UP | ROLLBACK_VALIDATING => None
  | OBSERVING | COMPLETED => Some (sm_target_profile_id m)
  | _ => Some (sm_source_profile_id m)
  end.

Definition source_is_authoritative (m : StorageMigrationStateMachine) : bool :=
  bool_decide (business_write_profile_id m = Some (sm_source_profile_id m)).

Definition set_state (s : StorageMigrationState) (m : StorageMigrationStateMachine) :
    StorageMigrationStateMachine :=
  {| sm_source_profile_id := sm_source_profile_id m;
     sm_target_profile_id := sm_target_profile_id m; sm_state := s |}.

Definition may_fail (s : StorageMigrationState) : bool :=
  match s with
  | PREPARED | BACKFILLING | CATCHING_UP | VALIDATING | READY_TO_SWITCH => true
  | _ => false
  end.

Definition advance (operation : MigrationOperation) (validation : option ValidationEvidence) :
    ST StorageMigrationStateMachine ExecutorError StorageMigrationState :=
  m ← get;
  if bool_decide (operation = FAIL_MIGRATION) && may_fail (sm_state m) then
    _ ← put (set_state MIGRATION_FAILED m);
    mret MIGRATION_FAILED
  else
    next_state ← get_or_raise (transitions (sm_state m) operation) (MigrationError INVALID_TRANSITION);
    _ ← ensure (negb (bool_decide (operation = VALIDATE) &&
                      negb (default false (is_valid <$> validation))))
               (MigrationError VALIDATION_FAILED);
    _ ← put (set_state next_state m);
    mret next_state.

(** ** The executor *)
Section Executor.
  Context {A : Type} `{OnlineMigrationAdapter A}.
  (** The adapter pairs of two profiles, in a fixed order. *)
  Context (adapters : string → uuid → uuid → list (nat * nat)).
  (** The hex digest of SHA-256. *)
  Context (sha256_hex : bytes → string).

(** The adapter objects. *)
Definition AdapterStore : Type := nat → A.
Definition update (r : nat) (a : A) (w : AdapterStore) : AdapterStore :=
  λ r', if decide (r' = r) then a else w r'.

Abbreviation EXEC := (ST AdapterStore ExecutorError).

Fixpoint backfill_pairs (t : string) (index : nat) (pairs : list (nat * nat))
    (watermarks : gmap nat Z) : EXEC (gmap nat Z) :=
  match pairs with
  | [] => mret watermarks
  | (source, target) :: pairs' =>
      snapshot ← gets (λ w, snapshot_tenant t (w source));
      _ ← modify (λ w, update target
            (apply_changes t ((λ kv, (kv.1, Some kv.2)) <$> snapshot.2) (w target)) w);
      backfill_pairs t (S index) pairs' (<[index := snapshot.1]> watermarks)
  end.

Definition backfill (t : string) (source_profile_id target_profile_id : uuid) : EXEC (gmap nat Z) :=
  let pairs := adapters t source_profile_id target_profile_id in
  _ ← ensure (negb (bool_decide (pairs = []))) (MigrationError ADAPTERS_UNAVAILABLE);
  backfill_pairs t 0 pairs ∅.

Fixpoint catch_up_pairs (t : string) (watermarks : gmap nat Z) (index : nat)
    (pairs : list (nat * nat)) (updated : gmap nat Z) : EXEC (gmap nat Z) :=
  match pairs with
  | [] => mret updated
  | (source, target) :: pairs' =>
      watermark ← get_or_raise (watermarks !! index) MissingKey;
      changes ← gets (λ w, changes_since t watermark (w source));
      _ ← modify (λ w, update target (apply_changes t changes.2 (w target)) w);
      catch_up_pairs t watermarks (S index) pairs' (<[index := changes.1]> updated)
  end.

Definition catch_up (t : string) (source_profile_id target_profile_id : uuid)
    (watermarks : gmap nat Z) : EXEC (gmap nat Z) :=
  let pairs := adapters t source_profile_id target_profile_id in
  _ ← ensure (length pairs =? size watermarks)%nat (MigrationError CHECKPOINT_INVALID);
  catch_up_pairs t watermarks 0 pairs ∅.

(** One pair's line of evidence: count, digest and version on both sides, and recall. *)
Record PairEvidence := {
  pe_source : Z * string * Z;
  pe_target : Z * string * Z;
  pe_recall : Z * Z;
}.

Definition pair_evidence (t : string) (w : AdapterStore) (pair : nat * nat) : PairEvidence :=
  {| pe_source := tenant_fingerprint sha256_hex t (w pair.1);
     pe_target := tenant_fingerprint sha256_hex t (w pair.2);
     pe_recall := vector_recall_against (w pair.1) t (w pair.2) |}.

(** The target's version counts as the source's once count and digest agree. *)
Definition target_version (p : PairEvidence) : Z :=
  let '(source_count, source_digest, source_version) := pe_source p in
  let '(target_count, target_digest, version) := pe_target p in
  if (source_count =? target_count) && bool_decide (source_digest = target_digest)
  then source_version else version.

Definition folded (values : list string) : string :=
  sha256_hex (String.list_byte_of_string (String.concat "" values)).

(** [max] and [min] of a non-empty list. *)
Definition py_max (l : list Z) : Z :=
  match l with [] => 0 | x :: l' => foldl Z.max x l' end.
Definition py_fmin (l : list (Z * Z)) : Z * Z :=
  match l with
  | [] => (0, 0)
  | x :: l' => foldl (λ best y, if float_geb y best then best else y) x l'
  end.

Definition evidence_of (lines : list PairEvidence) : ValidationEvidence :=
  {| ve_source_count := Zsum (λ p, (pe_source p).1.1) lines;
     ve_target_count := Zsum (λ p, (pe_target p).1.1) lines;
     ve_source_digest := folded ((λ p, (pe_source p).1.2) <$> lines);
     ve_target_digest := folded ((λ p, (pe_target p).1.2) <$> lines);
     ve_source_version := py_max ((λ p, (pe_source p).2) <$> lines);
     ve_target_version := py_max (target_version <$> lines);
     ve_vector_recall := py_fmin (pe_recall <$> lines) |}.

Definition validate (t : string) (source_profile_id target_profile_id : uuid) :
    EXEC ValidationEvidence :=
  let pairs := adapters t source_profile_id target_profile_id in
  _ ← ensure (negb (bool_decide (pairs = []))) (MigrationError ADAPTERS_UNAVAILABLE);
  w ← get;
  mret (evidence_of (pair_evidence t w <$> pairs)).
End Executor.
