(* ===== verification/MigrationFacts.v ===== *)
(** * Facts about the migration executor

    Both copy loops are one fold over the adapter pairs that rewrites each target
    from its source; what a snapshot or a feed does to a target follows from the
    laws of the adapters, and what equal fingerprints say about contents from the
    framing of the digest. *)

From Stdlib Require Import Ascii.
From stdpp Require Import sorting.
From S2P Require Import Prelude PyNum PyDict ExecutionBus ToolRegistry Storage StorageFacts StorageMigration.
Open Scope string_scope.
Open Scope list_scope.
Open Scope Z_scope.

(** ** Replay *)
Lemma replay_app cs cs' k b : replay (cs ++ cs') k b = replay cs' k (replay cs k b).
Proof. apply foldl_app. Qed.

Lemma replay_snapshot (items : list (string * bytes)) k b :
  NoDup items.*1 →
  replay ((λ kv, (kv.1, Some kv.2)) <$> items) k b
    = match dict_get k items with Some v => Some v | None => b end.
Proof.
  revert b. induction items as [|[k0 v0] items IH]; intros b Hnd; [done|].
  apply NoDup_cons in Hnd as [Hn Hnd]. unfold replay in *. simpl. rewrite IH by done.
  destruct (decide (k0 = k)) as [->|Hk].
  - rewrite decide_True by done. destruct (dict_get k items) eqn:Hg; [|done].
    destruct Hn. apply dict_get_elem. eauto.
  - rewrite decide_False by done. done.
Qed.

(** ** The copy loop *)
Section Copy.
  Context {A : Type}.

(** Rewrite each target from its source, pair by pair. *)
Fixpoint copy_pairs (f : nat → A → A → A) (index : nat) (pairs : list (nat * nat))
    (w : nat → A) : nat → A :=
  match pairs with
  | [] => w
  | (source, target) :: pairs' =>
      copy_pairs f (S index) pairs' (update target (f index (w source) (w target)) w)
  end.

(** Targets are distinct and none of them is a source. *)
Definition separate (pairs : list (nat * nat)) : Prop :=
  NoDup pairs.*2 ∧ ∀ r, r ∈ pairs.*1 → r ∉ pairs.*2.

Lemma separate_cons s d pairs :
  separate ((s, d) :: pairs) → s ≠ d ∧ (d ∉ pairs.*1) ∧ (d ∉ pairs.*2) ∧ separate pairs.
Proof.
  intros [Hnd Hsep]. simpl in Hnd. apply NoDup_cons in Hnd as [Hn Hnd]. split_and!; [|..|done|split; [done|]].
  - intros ->. apply (Hsep d); by left.
  - intros Hd. apply (Hsep d); [by right|by left].
  - intros r Hr Hr'. apply (Hsep r); by right.
Qed.

Lemma pair_elems (pairs : list (nat * nat)) j s d :
  pairs !! j = Some (s, d) → s ∈ pairs.*1 ∧ d ∈ pairs.*2.
Proof.
  intros Hj%list_elem_of_lookup_2. split; apply list_elem_of_fmap; by exists (s, d).
Qed.

Lemma copy_pairs_other f i pairs w r : r ∉ pairs.*2 → copy_pairs f i pairs w r = w r.
Proof.
  revert i w. induction pairs as [|[s d] pairs IH]; intros i w Hr; simpl; [done|].
  rewrite IH by set_solver. unfold update. rewrite decide_False; [done|]. set_solver.
Qed.

Lemma copy_pairs_target f i pairs w j s d :
  separate pairs → pairs !! j = Some (s, d) →
  copy_pairs f i pairs w d = f (i + j)%nat (w s) (w d).
Proof.
  revert i w j. induction pairs as [|[s0 d0] pairs IH]; intros i w j Hsep Hj; [done|].
  apply separate_cons in Hsep as (_ & Hd1 & Hd2 & Hsep).
  destruct j as [|j]; simpl in Hj; simplify_eq/=.
  - rewrite copy_pairs_other by done. unfold update. rewrite decide_True by done. f_equal. lia.
  - rewrite (IH (S i) _ j) by done. destruct (pair_elems _ _ _ _ Hj) as [Hs Hd].
    unfold update. rewrite !decide_False by (by intros ->). f_equal. lia.
Qed.
End Copy.

Section ExecutorFacts.
  Context {A : Type} `{OnlineMigrationLaws A}.
  Implicit Types w : nat → A.

(** What the two phases write to one target. *)
Definition backfilled (t : string) (source target : A) : A :=
  apply_changes t ((λ kv, (kv.1, Some kv.2)) <$> (snapshot_tenant t source).2) target.
Definition caught_up (t : string) (watermark : Z) (source target : A) : A :=
  apply_changes t (changes_since t watermark source).2 target.

Lemma backfill_pairs_run t i pairs wm w :
  separate pairs →
  ∃ wm', backfill_pairs t i pairs wm w = (Ok wm', copy_pairs (λ _, backfilled t) i pairs w) ∧
    dom wm' = dom wm ∪ set_seq i (length pairs) ∧
    (∀ n, n ∉ (set_seq i (length pairs) : gset nat) → wm' !! n = wm !! n) ∧
    ∀ j s d, pairs !! j = Some (s, d) → wm' !! (i + j)%nat = Some (snapshot_tenant t (w s)).1.
Proof.
  revert i wm w. induction pairs as [|[s0 d0] pairs IH]; intros i wm w Hsep; simpl.
  { exists wm. split_and!; [done|set_solver|done|done]. }
  apply separate_cons in Hsep as (_ & Hd1 & Hd2 & Hsep).
  destruct (IH (S i) (<[i := (snapshot_tenant t (w s0)).1]> wm)
              (update d0 (backfilled t (w s0) (w d0)) w) Hsep) as (wm' & Hrun & Hdom & Hold & Hnew).
  exists wm'. split_and!.
  - erewrite bind_run by done. erewrite bind_run by done. exact Hrun.
  - rewrite Hdom, dom_insert_L. set_solver.
  - intros n Hin. rewrite Hold by set_solver. rewrite lookup_insert_ne; [done|]. set_solver.
  - intros [|j] s d Hj; simpl in Hj; simplify_eq.
    + rewrite Nat.add_0_r, Hold, lookup_insert_eq; [done|].
      rewrite elem_of_set_seq. lia.
    + replace (i + S j)%nat with (S i + j)%nat by lia. rewrite (Hnew j s d) by done.
      destruct (pair_elems _ _ _ _ Hj) as [Hs _]. unfold update.
      by rewrite decide_False by (by intros ->).
Qed.

Lemma catch_up_pairs_run t wm i pairs acc w :
  (∀ j, (j < length pairs)%nat → is_Some (wm !! (i + j)%nat)) →
  ∃ wm', catch_up_pairs t wm i pairs acc w
    = (Ok wm', copy_pairs (λ n, caught_up t (default 0 (wm !! n))) i pairs w).
Proof.
  revert i acc w. induction pairs as [|[s0 d0] pairs IH]; intros i acc w Hwm; simpl; [by eexists|].
  destruct (Hwm 0%nat) as [x Hx]; [simpl; lia|]. rewrite Nat.add_0_r in Hx. rewrite Hx. simpl.
  edestruct (IH (S i)) as [wm' Hrun].
  { intros j Hj. replace (S i + j)%nat with (i + S j)%nat by lia. apply Hwm. simpl. lia. }
  exists wm'. erewrite bind_run by done. erewrite bind_run by done. erewrite bind_run by done.
  exact Hrun.
Qed.

(** After the backfill a key of the target has the source's value, where there is one. *)
Lemma backfilled_stored t source target k :
  adapter_ok source → adapter_ok target →
  adapter_ok (backfilled t source target) ∧
  stored (backfilled t source target) !! (t, k)
    = match stored source !! (t, k) with Some v => Some v | None => stored target !! (t, k) end.
Proof.
  intros Hs Ht. destruct (snapshot_law t source Hs) as [Hnd Hget].
  destruct (apply_law t ((λ kv, (kv.1, Some kv.2)) <$> (snapshot_tenant t source).2) target Ht)
    as [Hok Hl].
  split; [done|]. unfold backfilled. rewrite Hl, decide_True by done.
  rewrite replay_snapshot by done. by rewrite Hget.
Qed.

(** Catching up from a target that agreed with the source at the watermark. *)
Lemma caught_up_stored t source target ops k :
  adapter_ok source → adapter_ok target →
  stored target !! (t, k) = stored source !! (t, k) →
  stored (caught_up t (snapshot_tenant t source).1 (adapter_run ops source) target) !! (t, k)
    = stored (adapter_run ops source) !! (t, k).
Proof.
  intros Hs Ht Heq. unfold caught_up.
  destruct (apply_law t (changes_since t (snapshot_tenant t source).1 (adapter_run ops source)).2
              target Ht) as [_ Hl].
  rewrite Hl, decide_True by done. rewrite Heq. by apply feed_law.
Qed.
End ExecutorFacts.

(** ** Fingerprints *)
Definition nul_free (l : bytes) : Prop := Byte.x00 ∉ l.
Definition item_plain (kv : string * bytes) : Prop :=
  nul_free (String.list_byte_of_string kv.1) ∧ nul_free kv.2.

Lemma nul_split (l1 l2 r1 r2 : bytes) :
  nul_free l1 → nul_free l2 → l1 ++ Byte.x00 :: r1 = l2 ++ Byte.x00 :: r2 → l1 = l2 ∧ r1 = r2.
Proof.
  unfold nul_free. revert l2. induction l1 as [|b l1 IH]; intros [|b2 l2] H1 H2 Heq; simplify_eq/=;
    [done|set_solver|set_solver|].
  destruct (IH l2) as [-> ->]; [set_solver..|done|done].
Qed.

Lemma list_byte_of_string_inj s1 s2 :
  String.list_byte_of_string s1 = String.list_byte_of_string s2 → s1 = s2.
Proof.
  intros Heq. by rewrite <- (String.string_of_list_byte_of_string s1), Heq,
    String.string_of_list_byte_of_string.
Qed.

Lemma encode_items_inj (l l' : list (string * bytes)) :
  Forall item_plain l → Forall item_plain l' → l ≫= encode_item = l' ≫= encode_item → l = l'.
Proof.
  assert (∀ kv l, ((kv :: l) ≫= encode_item)
    = String.list_byte_of_string kv.1 ++ Byte.x00 :: (kv.2 ++ Byte.x00 :: (l ≫= encode_item))) as Hc.
  { intros kv l0. csimpl. unfold encode_item. by rewrite <- !app_assoc. }
  revert l'. induction l as [|[k v] l IH]; intros [|[k' v'] l'] Hl Hl' Heq; [done|..].
  - rewrite Hc in Heq. by destruct (String.list_byte_of_string _).
  - rewrite Hc in Heq. by destruct (String.list_byte_of_string _).
  - apply Forall_cons in Hl as [[Hk Hv] Hl]. apply Forall_cons in Hl' as [[Hk' Hv'] Hl'].
    rewrite !Hc in Heq. simpl in *.
    apply nul_split in Heq as [->%list_byte_of_string_inj Heq]; [|done..].
    apply nul_split in Heq as [-> Heq]; [|done..]. f_equal. by apply IH.
Qed.

#[export] Instance item_le_total : Total item_le.
Proof. intros x y. unfold item_le. apply String.le_total. Qed.
#[export] Instance item_le_transitive : Transitive item_le.
Proof. intros x y z. unfold item_le. apply String.le_po. Qed.

(** Sorting forgets the order of the dictionary. *)
Lemma sorted_items_unique (l l' : list (string * bytes)) :
  NoDup l.*1 → l ≡ₚ l' → merge_sort item_le l = merge_sort item_le l'.
Proof.
  intros Hnd Hp. apply (Sorted_unique_strong item_le).
  - intros [k v] [k' v'] Hx Hy Hle Hle'. unfold item_le in *. simpl in *.
    rewrite merge_sort_Permutation in Hx, Hy. rewrite <- Hp in Hy.
    apply Is_true_true in Hle, Hle'. pose proof (String.leb_antisym _ _ Hle Hle') as ->.
    by eapply (NoDup_fmap_elem_inj fst).
  - apply Sorted_merge_sort; apply _.
  - apply Sorted_merge_sort; apply _.
  - by rewrite !merge_sort_Permutation.
Qed.

(** The tenant's objects agree in two memory adapters. *)
Definition same_tenant (t : string) (a a' : MemoryAdapter) : Prop :=
  ∀ k, stored a !! (t, k) = stored a' !! (t, k).

#[export] Instance same_tenant_equivalence t : Equivalence (same_tenant t).
Proof. split; unfold same_tenant; repeat intro; congruence. Qed.

Lemma same_tenant_perm t a a' :
  memory_ok a → memory_ok a' → same_tenant t a a' →
  tenant_items t (ma_objects a) ≡ₚ tenant_items t (ma_objects a').
Proof.
  intros [Hk _] [Hk' _] Hs. apply contents_perm; [by apply tenant_items_NoDup..|].
  apply map_eq. intros k. specialize (Hs k). simpl in Hs.
  by rewrite !contents_lookup, !tenant_items_get in *.
Qed.

Lemma same_tenant_fingerprint sha t a a' :
  memory_ok a → memory_ok a' → same_tenant t a a' →
  (memory_tenant_fingerprint sha t a).1 = (memory_tenant_fingerprint sha t a').1.
Proof.
  intros Ha Ha' Hs. pose proof (same_tenant_perm t a a' Ha Ha' Hs) as Hp. simpl.
  rewrite (sorted_items_unique _ _ (tenant_items_NoDup t _ (mo_keys _ Ha)) Hp).
  by rewrite (Permutation_length Hp).
Qed.

(** The tenant's keys and values carry no NUL byte. *)
Definition tenant_plain (t : string) (a : MemoryAdapter) : Prop :=
  Forall item_plain (tenant_items t (ma_objects a)).

Lemma same_digest_same_tenant (sha : bytes → string) t a a' :
  memory_ok a → memory_ok a' → tenant_plain t a → tenant_plain t a' →
  (memory_tenant_fingerprint sha t a).1.2 = (memory_tenant_fingerprint sha t a').1.2 →
  same_tenant t a a' ∨ ∃ x y, x ≠ y ∧ sha x = sha y.
Proof.
  intros Ha Ha' Hp Hp' Heq. simpl in Heq.
  set (x := merge_sort item_le (tenant_items t (ma_objects a)) ≫= encode_item) in *.
  set (y := merge_sort item_le (tenant_items t (ma_objects a')) ≫= encode_item) in *.
  destruct (decide (x = y)) as [Hxy|Hxy]; [left|right; eauto].
  apply encode_items_inj in Hxy; [|by rewrite merge_sort_Permutation..].
  assert (tenant_items t (ma_objects a) ≡ₚ tenant_items t (ma_objects a')) as Hperm.
  { by rewrite <- (merge_sort_Permutation item_le (tenant_items t (ma_objects a))), Hxy,
      merge_sort_Permutation. }
  intros k. simpl. rewrite !contents_lookup, <- !tenant_items_get, <- !contents_lookup. f_equal.
  apply perm_contents; [by apply tenant_items_NoDup, Ha|done].
Qed.

(** ** Recall *)
Lemma py_truediv_self n : 0 < n → py_truediv n n = (2 ^ 52, -52).
Proof.
  intros Hn. unfold py_truediv. rewrite (proj2 (Z.eqb_neq _ _)) by lia.
  assert (quotient_exponent n n = 0) as ->.
  { unfold quotient_exponent. rewrite Z.sub_diag. simpl.
    rewrite Z.mul_1_r, (proj2 (Z.leb_le _ _)) by lia. done. }
  change (0 - 52 <? 0) with true. cbv iota. f_equal. change (- (0 - 52)) with 52. unfold rne.
  rewrite (Z.mul_comm n (2 ^ 52)), Z.div_mul, Z.mod_mul by lia.
  by rewrite (proj2 (Z.ltb_lt _ _)) by lia.
Qed.

Lemma same_tenant_recall t a a' :
  memory_ok a → memory_ok a' → same_tenant t a a' →
  memory_vector_recall_against a t a' = (2 ^ 52, -52).
Proof.
  intros [Hk _] [Hk' _] Hs. unfold memory_vector_recall_against. simpl.
  destruct (tenant_items t (ma_objects a)) as [|kv items] eqn:Hi; [done|]. rewrite <- Hi.
  rewrite filter_all.
  - apply py_truediv_self. rewrite Hi. simpl. lia.
  - intros [k v] Hin. simpl. specialize (Hs k). simpl in Hs.
    rewrite !contents_lookup in Hs. rewrite tenant_items_get, <- Hs, <- tenant_items_get.
    apply dict_get_pair; [by apply tenant_items_NoDup|done].
Qed.

(** ** Evidence over all pairs *)
Lemma append_same_length s1 s2 r1 r2 :
  String.length s1 = String.length s2 → s1 +:+ r1 = s2 +:+ r2 → s1 = s2 ∧ r1 = r2.
Proof.
  revert s2. induction s1 as [|c s1 IH]; intros [|c2 s2] Hl Heq; simplify_eq/=; [done|].
  by destruct (IH s2) as [-> ->].
Qed.

Lemma concat_cons s l : String.concat "" (s :: l) = s +:+ String.concat "" l.
Proof.
  destruct l; [|done]. change (s = s +:+ ""). induction s as [|c s IH]; [done|].
  change (String c s = String c (s +:+ "")). by rewrite <- IH.
Qed.

(** Digests have one length, so their concatenation determines them. *)
Lemma concat_digests_inj (n : nat) (l l' : list string) :
  (∀ s, s ∈ l → String.length s = n) → (∀ s, s ∈ l' → String.length s = n) →
  length l = length l' → String.concat "" l = String.concat "" l' → l = l'.
Proof.
  revert l'. induction l as [|s l IH]; intros [|s' l'] Hl Hl' Hlen Heq; simplify_eq/=; [done|].
  change (String.concat "" (s :: l) = String.concat "" (s' :: l')) in Heq.
  rewrite !concat_cons in Heq. apply append_same_length in Heq as [-> Heq].
  - f_equal. apply IH; [intros x Hx; apply Hl; by right|intros x Hx; apply Hl'; by right|done|done].
  - rewrite (Hl s), (Hl' s'); [done|by left..].
Qed.

Lemma folded_inj (sha : bytes → string) (l l' : list string) :
  (∀ s, s ∈ l ++ l' → String.length s = 64%nat) → length l = length l' →
  folded sha l = folded sha l' → l = l' ∨ ∃ x y, x ≠ y ∧ sha x = sha y.
Proof.
  unfold folded. intros Hn Hlen Heq.
  destruct (decide (String.concat "" l = String.concat "" l')) as [Hc|Hc].
  - left. apply (concat_digests_inj 64); [set_solver|set_solver|done|done].
  - right. eexists _, _. split; [|exact Heq]. by intros ?%list_byte_of_string_inj.
Qed.

Lemma fmin_const x (l : list (Z * Z)) :
  l ≠ [] → (∀ y, y ∈ l → y = x) → py_fmin l = x.
Proof.
  intros Hl Hx. destruct l as [|y l]; [done|]. simpl. rewrite (Hx y ltac:(by left)).
  assert (∀ z, z ∈ l → z = x) as Hx' by set_solver. clear Hl Hx.
  induction l as [|z l IH]; [done|]. simpl. rewrite (Hx' z ltac:(by left)).
  destruct (float_geb x x); apply IH; set_solver.
Qed.

Section Evidence.
  Context (sha256_hex : bytes → string) (t : string) (w : nat → MemoryAdapter).

Abbreviation lines pairs := (pair_evidence sha256_hex t w <$> pairs).

Lemma evidence_valid pairs :
  pairs ≠ [] →
  (∀ s d, (s, d) ∈ pairs → memory_ok (w s) ∧ memory_ok (w d) ∧ same_tenant t (w s) (w d)) →
  is_valid (evidence_of sha256_hex (lines pairs)) = true.
Proof.
  intros Hne Hp.
  assert (∀ p, p ∈ lines pairs → (pe_source p).1 = (pe_target p).1 ∧
    target_version p = (pe_source p).2 ∧ pe_recall p = (2 ^ 52, -52)) as Hline.
  { intros p ([s d] & -> & Hin)%list_elem_of_fmap. destruct (Hp s d Hin) as (Hs & Hd & Hsame).
    pose proof (same_tenant_fingerprint sha256_hex t _ _ Hs Hd Hsame) as Hf.
    pose proof (same_tenant_recall t _ _ Hs Hd Hsame) as Hr.
    split_and!; [exact Hf| |exact Hr].
    unfold target_version. simpl. simpl in Hf. injection Hf as Hc Hdg. rewrite Hc, Hdg.
    by rewrite Z.eqb_refl, bool_decide_true. }
  assert (lines pairs ≠ []) as Hne' by (by destruct pairs).
  generalize dependent (lines pairs). clear Hp Hne. intros l Hline Hne'.
  assert (∀ {X} (f g : PairEvidence → X), (∀ p, p ∈ l → f p = g p) → f <$> l = g <$> l) as Hmap.
  { intros X f g Hfg. apply list_fmap_ext. intros i p Hi. apply Hfg. by eapply list_elem_of_lookup_2. }
  assert (∀ f g : PairEvidence → Z, (∀ p, p ∈ l → f p = g p) → Zsum f l = Zsum g l) as Hsum.
  { intros f g Hfg. clear Hline Hne' Hmap. induction l as [|p l IH]; [done|]. simpl.
    rewrite Hfg by (by left). f_equal. apply IH. intros q Hq. apply Hfg. by right. }
  unfold is_valid. simpl. rewrite (Hsum _ (λ p, (pe_target p).1.1)), Z.eqb_refl.
  2: { intros p Hin. by destruct (Hline p Hin) as [-> _]. }
  rewrite (Hmap _ (λ p, (pe_source p).1.2) (λ p, (pe_target p).1.2)), bool_decide_true; [|done|].
  2: { intros p Hin. by destruct (Hline p Hin) as [-> _]. }
  rewrite (Hmap _ target_version (λ p, (pe_source p).2)), Z.eqb_refl.
  2: { intros p Hin. by destruct (Hline p Hin) as (_ & -> & _). }
  rewrite (fmin_const (2 ^ 52, -52)); [done|by destruct l|].
  intros y (p & -> & Hin)%list_elem_of_fmap. by destruct (Hline p Hin) as (_ & _ & ->).
Qed.

Lemma valid_evidence_equal pairs :
  (∀ x, String.length (sha256_hex x) = 64%nat) →
  (∀ s d, (s, d) ∈ pairs →
    memory_ok (w s) ∧ memory_ok (w d) ∧ tenant_plain t (w s) ∧ tenant_plain t (w d)) →
  is_valid (evidence_of sha256_hex (lines pairs)) = true →
  (∀ s d, (s, d) ∈ pairs → same_tenant t (w s) (w d)) ∨
  ∃ x y, x ≠ y ∧ sha256_hex x = sha256_hex y.
Proof.
  intros Hlen Hp Hv. unfold is_valid in Hv. simpl in Hv.
  apply andb_true_iff in Hv as [[[_ Hd%bool_decide_eq_true]%andb_true_iff _]%andb_true_iff _].
  apply folded_inj in Hd; [|..]; last by rewrite !length_fmap.
  2: { intros x [(p & -> & (q & -> & _)%list_elem_of_fmap)%list_elem_of_fmap
                |(p & -> & (q & -> & _)%list_elem_of_fmap)%list_elem_of_fmap]%elem_of_app; apply Hlen. }
  destruct Hd as [Hd|?]; [|by right].
  induction pairs as [|[s d] pairs IH]; [left; set_solver|].
  simplify_eq/=. destruct (Hp s d ltac:(by left)) as (Hs & Hdd & Hps & Hpd).
  destruct (same_digest_same_tenant sha256_hex t _ _ Hs Hdd Hps Hpd) as [Hsame|?]; [done| |by right].
  destruct IH as [IH|?]; [intros; apply Hp; by right|done| |by right].
  left. intros s' d' [?|?]%elem_of_cons; simplify_eq; eauto.
Qed.
End Evidence.
