(* ===== verification/AdminAccess.v ===== *)
(** * Shared parts of the Admin API

    Role checks of tenant-scoped endpoints (admin_api/tenant_access.py), the
    idempotency ledger of its commands (admin_api/idempotency.py) and the audit
    row each of them writes, over the tables they share: tenants, memberships,
    idempotency records and the audit tables. *)

From S2P Require Import Prelude PyNum Uuids ExecutionBus AuditChain.
Open Scope string_scope.
Open Scope list_scope.
Open Scope Z_scope.

Record AdminPrincipal := {
  ap_subject : string;
  ap_auth_method : string;
  ap_roles : list string;
}.
Definition audit_principal (p : AdminPrincipal) : Principal :=
  {| pr_subject := ap_subject p; pr_auth_method := ap_auth_method p |}.

(** A row of [platform.idempotency_record], keyed by actor and key. *)
Record IdempotencyRecord := {
  id_operation : string;
  id_request_hash : string;
  id_response : json;
}.

(** A row of [tenant.member] joined with one of [tenant.member_role]. *)
Record MemberRole := { mr_tenant_id : uuid; mr_user_id : uuid; mr_role : string }.

Record AdminDb := {
  ad_tenants : gset uuid;
  ad_members : list MemberRole;
  ad_idempotency : gmap (string * string) IdempotencyRecord;
  ad_audit : AuditState;
}.

Definition set_ad_idempotency (m : gmap (string * string) IdempotencyRecord) (s : AdminDb) : AdminDb :=
  {| ad_tenants := ad_tenants s; ad_members := ad_members s; ad_idempotency := m;
     ad_audit := ad_audit s |}.
Definition set_ad_audit (a : AuditState) (s : AdminDb) : AdminDb :=
  {| ad_tenants := ad_tenants s; ad_members := ad_members s; ad_idempotency := ad_idempotency s;
     ad_audit := a |}.

(** What a handler can raise: an [HTTPException], a database error ([DataError] for a value
    that its column does not take), the conflict the application maps to a response of its
    own, or another exception of Python ([AdminAssert]). *)
Inductive AdminError :=
  | Http (status : Z) (detail : string)
  | IntegrityError
  | ConnectionLost
  | IdempotencyConflict
  | AuditFailed (e : AuditError)
  | DataError
  | AdminAssert.

Abbreviation ADM := (ST AdminDb AdminError).

Section Access.
  Context (sha256_hex : string → string) (dumps : json → string) (uuid_at : nat → uuid).

(** An operation of the audit component, on the audit tables. *)
Definition on_audit {A} (m : (uuid → bool) → AUD A) : ADM A := λ s,
  match m (λ t, bool_decide (t ∈ ad_tenants s)) (ad_audit s) with
  | (Ok a, au) => (Ok a, set_ad_audit au s)
  | (Raise e, au) => (Raise (AuditFailed e), set_ad_audit au s)
  end.

(** [insert_audit] in the transaction of the caller. *)
Definition audited (now : instant) (p : option AdminPrincipal) (action decision : string)
    (target_type target_id : option string) (tenant_id : option uuid) (details : jobject) : ADM unit :=
  on_audit (λ tenant_exists, insert_audit sha256_hex dumps uuid_at tenant_exists now
    (audit_principal <$> p) action decision target_type target_id tenant_id details None).

(** [write_audit], in a transaction of its own. *)
Definition audited_alone (fault : txn_fault) (now : instant) (p : option AdminPrincipal)
    (action decision : string) (target_type target_id : option string) (tenant_id : option uuid)
    (details : jobject) : ADM unit :=
  on_audit (λ tenant_exists, write_audit sha256_hex dumps uuid_at tenant_exists fault now
    (audit_principal <$> p) action decision target_type target_id tenant_id details None).

Inductive AccessMode := ReadAccess | WriteAccess.

Definition PLATFORM_ROLES (mode : AccessMode) : list string :=
  match mode with
  | ReadAccess => ["PLATFORM_ADMIN"; "PLATFORM_AUDITOR"]
  | WriteAccess => ["PLATFORM_ADMIN"]
  end.
Definition TENANT_ROLES (mode : AccessMode) : list string :=
  match mode with
  | ReadAccess => ["TENANT_ADMIN"; "AGENT_DEVELOPER"; "TENANT_AUDITOR"]
  | WriteAccess => ["TENANT_ADMIN"; "AGENT_DEVELOPER"]
  end.

(** [a.intersection(b)] as a condition. *)
Definition meets (a b : list string) : bool := existsb (λ x, bool_decide (x ∈ b)) a.

(** The user a principal stands for: only an OIDC subject that is a UUID. *)
Definition principal_user (p : AdminPrincipal) : option uuid :=
  if bool_decide (ap_auth_method p = "oidc") then parse_uuid (ap_subject p) else None.

Definition member_roles (t u : uuid) (s : AdminDb) : list string :=
  mr_role <$> filter (λ m, mr_tenant_id m = t ∧ mr_user_id m = u) (ad_members s).

(** [require_tenant_access] *)
Definition require_tenant_access (fault : txn_fault) (now : instant) (p : AdminPrincipal)
    (t : uuid) (mode : AccessMode) (action target_type : string) (target_id : option string) :
    ADM unit :=
  if meets (ap_roles p) (PLATFORM_ROLES mode) then mret tt else
  tenant_exists ← gets (λ s, bool_decide (t ∈ ad_tenants s));
  roles ← gets (λ s, match principal_user p with Some u => member_roles t u s | None => [] end);
  if meets roles (TENANT_ROLES mode) then mret tt else
  _ ← audited_alone fault now (Some p) action "DENY" (Some target_type) target_id
        (if (tenant_exists : bool) then Some t else None)
        (<["reason" := JStr "insufficient_tenant_role"]>
         (if (tenant_exists : bool) then ∅ else {["requested_tenant_id" := JStr (uuid_text t)]}));
  raise (Http 403 "insufficient tenant role").

(** [require_tenant_admin] *)
Definition require_tenant_admin (fault : txn_fault) (now : instant) (p : AdminPrincipal)
    (t : uuid) (action target_type : string) (target_id : option string) : ADM unit :=
  if bool_decide ("PLATFORM_ADMIN" ∈ ap_roles p) then mret tt else
  tenant_exists ← gets (λ s, bool_decide (t ∈ ad_tenants s));
  is_admin ← gets (λ s, match principal_user p with
                       | Some u => bool_decide ("TENANT_ADMIN" ∈ member_roles t u s)
                       | None => false
                       end);
  if (is_admin : bool) then mret tt else
  _ ← audited_alone fault now (Some p) action "DENY" (Some target_type) target_id
        (if (tenant_exists : bool) then Some t else None)
        {["reason" := JStr "tenant_admin_required"]};
  raise (Http 403 "tenant administrator role required").

(** ** Idempotency keys *)
Definition request_hash (payload : jobject) : string := sha256_hex (dumps (JObj payload)).

(** [replay_for]: the advisory lock on actor and key is held to the end of the
    transaction, so the read and the later insert are one step. *)
Definition replay_for (actor key operation : string) (payload : jobject) : ADM (option json) :=
  row ← gets (λ s, ad_idempotency s !! (actor, key));
  match row with
  | None => mret None
  | Some r =>
      _ ← ensure (bool_decide (id_operation r = operation) &&
                  bool_decide (id_request_hash r = request_hash payload)) IdempotencyConflict;
      mret (Some (id_response r))
  end.

Definition remember (actor key operation : string) (payload : jobject) (response : json) : ADM unit :=
  taken ← gets (λ s, bool_decide (is_Some (ad_idempotency s !! (actor, key))));
  _ ← ensure (negb taken) IntegrityError;
  modify (λ s, set_ad_idempotency (<[(actor, key) :=
    {| id_operation := operation; id_request_hash := request_hash payload;
       id_response := response |}]> (ad_idempotency s)) s).

(** ** Facts *)

(** An audited action changes the audit tables only. *)
Lemma on_audit_frame {A} (m : (uuid → bool) → AUD A) s r s' :
  on_audit m s = (r, s') → ∃ au, s' = set_ad_audit au s.
Proof. unfold on_audit. destruct (m _ _) as [[a|e] au]; intros; simplify_eq; eauto. Qed.

Lemma require_tenant_admin_frame fault now p t action tt tid s r s' :
  require_tenant_admin fault now p t action tt tid s = (r, s') → ∃ au, s' = set_ad_audit au s.
Proof.
  assert (∃ au, s = set_ad_audit au s) as Hs by (exists (ad_audit s); by destruct s).
  unfold require_tenant_admin, audited_alone, mret, ST_mret, raise, mbind, ST_mbind, gets. intros Hr.
  repeat case_match; simplify_eq; eauto using on_audit_frame.
Qed.

Lemma require_tenant_access_frame fault now p t mode action tt tid s r s' :
  require_tenant_access fault now p t mode action tt tid s = (r, s') → ∃ au, s' = set_ad_audit au s.
Proof.
  assert (∃ au, s = set_ad_audit au s) as Hs by (exists (ad_audit s); by destruct s).
  unfold require_tenant_access, audited_alone, mret, ST_mret, raise, mbind, ST_mbind, gets. intros Hr.
  repeat case_match; simplify_eq; eauto using on_audit_frame.
Qed.
End Access.
