(* ===== verification/StorageControl.v ===== *)
(** * The control plane of storage profiles and migrations

    The endpoints of admin_api/storage_profiles.py and
    admin_api/storage_migrations.py, the worker of storage_migration_worker.py
    and the profile resolver of storage.py, over the tables of migrations 0022 to
    0028.  A statement that would violate a unique index, a primary key or a
    check raises [IntegrityError].  Transactions are atomic and may be lost before
    or after their commit; what the worker does to adapters is not undone. *)

From S2P Require Import Prelude PyNum PyDict Uuids ExecutionBus AuditChain ToolRegistry Storage StorageMigration AdminAccess.
Open Scope string_scope.
Open Scope list_scope.
Open Scope Z_scope.

(** ** Rows *)
Record ProfileRow := {
  pf_tenant_id : uuid;
  pf_id : uuid;
  pf_alias : string;
  pf_classification : DataClassification;
  pf_worker_pool : string;
  pf_encryption_key_ref : string;
  pf_backends : list StorageBackend;
  pf_active : bool;
  pf_version : Z;
  pf_created_at : instant;
  pf_updated_at : instant;
}.

Inductive approval_status := APPROVAL_NONE | APPROVAL_PENDING | APPROVAL_APPROVED | APPROVAL_DENIED.
#[export] Instance approval_status_eq_dec : EqDecision approval_status.
Proof. solve_decision. Defined.

Record MigrationRow := {
  mg_tenant_id : uuid;
  mg_id : uuid;
  mg_source_profile_id : uuid;
  mg_target_profile_id : uuid;
  mg_state : StorageMigrationState;
  mg_approval_status : approval_status;
  mg_requested_by : string;
  mg_approved_by : option string;
  mg_approved_at : option instant;
  mg_rollback_approval_status : approval_status;
  mg_rollback_requested_by : option string;
  mg_rollback_approved_by : option string;
  mg_rollback_approved_at : option instant;
  mg_validation : option ValidationEvidence;     (** [{}] is [None] *)
  mg_observation_seconds : Z;
  mg_observation_ends_at : option instant;
  mg_version : Z;
  mg_created_at : instant;
  mg_updated_at : instant;
}.

(** [SET state=...,version=version+1,updated_at=now()] *)
Definition row_state (state : StorageMigrationState) (now : instant) (r : MigrationRow) : MigrationRow :=
  {| mg_tenant_id := mg_tenant_id r; mg_id := mg_id r;
     mg_source_profile_id := mg_source_profile_id r; mg_target_profile_id := mg_target_profile_id r;
     mg_state := state; mg_approval_status := mg_approval_status r;
     mg_requested_by := mg_requested_by r; mg_approved_by := mg_approved_by r;
     mg_approved_at := mg_approved_at r;
     mg_rollback_approval_status := mg_rollback_approval_status r;
     mg_rollback_requested_by := mg_rollback_requested_by r;
     mg_rollback_approved_by := mg_rollback_approved_by r;
     mg_rollback_approved_at := mg_rollback_approved_at r; mg_validation := mg_validation r;
     mg_observation_seconds := mg_observation_seconds r;
     mg_observation_ends_at := mg_observation_ends_at r;
     mg_version := mg_version r + 1; mg_created_at := mg_created_at r; mg_updated_at := now |}.

Definition row_approval (status : approval_status) (by_subject : string) (now : instant)
    (r : MigrationRow) : MigrationRow :=
  {| mg_tenant_id := mg_tenant_id r; mg_id := mg_id r;
     mg_source_profile_id := mg_source_profile_id r; mg_target_profile_id := mg_target_profile_id r;
     mg_state := mg_state r; mg_approval_status := status;
     mg_requested_by := mg_requested_by r; mg_approved_by := Some by_subject;
     mg_approved_at := Some now;
     mg_rollback_approval_status := mg_rollback_approval_status r;
     mg_rollback_requested_by := mg_rollback_requested_by r;
     mg_rollback_approved_by := mg_rollback_approved_by r;
     mg_rollback_approved_at := mg_rollback_approved_at r; mg_validation := mg_validation r;
     mg_observation_seconds := mg_observation_seconds r;
     mg_observation_ends_at := mg_observation_ends_at r;
     mg_version := mg_version r; mg_created_at := mg_created_at r; mg_updated_at := mg_updated_at r |}.

(** [SET rollback_approval_status=$3, rollback_requested_by=COALESCE($4,...),
    rollback_approved_by=$5, rollback_approved_at=$6] *)
Definition row_rollback (status : approval_status) (requested approved : option string)
    (approved_at : option instant) (now : instant) (r : MigrationRow) : MigrationRow :=
  {| mg_tenant_id := mg_tenant_id r; mg_id := mg_id r;
     mg_source_profile_id := mg_source_profile_id r; mg_target_profile_id := mg_target_profile_id r;
     mg_state := mg_state r; mg_approval_status := mg_approval_status r;
     mg_requested_by := mg_requested_by r; mg_approved_by := mg_approved_by r;
     mg_approved_at := mg_approved_at r;
     mg_rollback_approval_status := status;
     mg_rollback_requested_by :=
       match requested with Some q => Some q | None => mg_rollback_requested_by r end;
     mg_rollback_approved_by := approved;
     mg_rollback_approved_at := approved_at; mg_validation := mg_validation r;
     mg_observation_seconds := mg_observation_seconds r;
     mg_observation_ends_at := mg_observation_ends_at r;
     mg_version := mg_version r + 1; mg_created_at := mg_created_at r; mg_updated_at := now |}.

(** [validation=COALESCE($4,validation)] and [observation_ends_at=$5]. *)
Definition row_evidence (evidence : option ValidationEvidence) (ends_at : option instant)
    (r : MigrationRow) : MigrationRow :=
  {| mg_tenant_id := mg_tenant_id r; mg_id := mg_id r;
     mg_source_profile_id := mg_source_profile_id r; mg_target_profile_id := mg_target_profile_id r;
     mg_state := mg_state r; mg_approval_status := mg_approval_status r;
     mg_requested_by := mg_requested_by r; mg_approved_by := mg_approved_by r;
     mg_approved_at := mg_approved_at r;
     mg_rollback_approval_status := mg_rollback_approval_status r;
     mg_rollback_requested_by := mg_rollback_requested_by r;
     mg_rollback_approved_by := mg_rollback_approved_by r;
     mg_rollback_approved_at := mg_rollback_approved_at r;
     mg_validation := match evidence with Some e => Some e | None => mg_validation r end;
     mg_observation_seconds := mg_observation_seconds r;
     mg_observation_ends_at := ends_at;
     mg_version := mg_version r; mg_created_at := mg_created_at r; mg_updated_at := mg_updated_at r |}.

(** The states of the partial index [storage_migration_one_open_per_tenant]. *)
Definition is_open (s : StorageMigrationState) : bool :=
  match s with COMPLETED | ROLLED_BACK | MIGRATION_FAILED => false | _ => true end.

(** ** The tables *)
Record Checkpoint := { ck_forward : gmap nat Z; ck_rollback : gmap nat Z }.

Record ControlDb := {
  cd_admin : AdminDb;
  cd_profiles : list ProfileRow;
  cd_migrations : list MigrationRow;
  cd_checkpoints : gmap (uuid * uuid) Checkpoint;
  cd_claims : gmap (string * string) uuid;
}.

Definition set_cd_admin (a : AdminDb) (s : ControlDb) : ControlDb :=
  {| cd_admin := a; cd_profiles := cd_profiles s; cd_migrations := cd_migrations s;
     cd_checkpoints := cd_checkpoints s; cd_claims := cd_claims s |}.
Definition set_cd_profiles (l : list ProfileRow) (s : ControlDb) : ControlDb :=
  {| cd_admin := cd_admin s; cd_profiles := l; cd_migrations := cd_migrations s;
     cd_checkpoints := cd_checkpoints s; cd_claims := cd_claims s |}.
Definition set_cd_migrations (l : list MigrationRow) (s : ControlDb) : ControlDb :=
  {| cd_admin := cd_admin s; cd_profiles := cd_profiles s; cd_migrations := l;
     cd_checkpoints := cd_checkpoints s; cd_claims := cd_claims s |}.
Definition set_cd_checkpoints (m : gmap (uuid * uuid) Checkpoint) (s : ControlDb) : ControlDb :=
  {| cd_admin := cd_admin s; cd_profiles := cd_profiles s; cd_migrations := cd_migrations s;
     cd_checkpoints := m; cd_claims := cd_claims s |}.
Definition set_cd_claims (m : gmap (string * string) uuid) (s : ControlDb) : ControlDb :=
  {| cd_admin := cd_admin s; cd_profiles := cd_profiles s; cd_migrations := cd_migrations s;
     cd_checkpoints := cd_checkpoints s; cd_claims := m |}.

(** Keys and unique indexes of [tenant.storage_profile]. *)
Definition profiles_ok (l : list ProfileRow) : bool :=
  bool_decide (NoDup ((λ r, (pf_tenant_id r, pf_id r)) <$> l))
  && bool_decide (NoDup ((λ r, (pf_tenant_id r, pf_alias r)) <$> l))
  && bool_decide (NoDup (pf_tenant_id <$> filter (λ r, pf_active r = true) l)).

(** Keys, unique index and checks of [tenant.storage_migration]. *)
Definition migrations_ok (l : list MigrationRow) : bool :=
  bool_decide (NoDup ((λ r, (mg_tenant_id r, mg_id r)) <$> l))
  && bool_decide (NoDup (mg_tenant_id <$> filter (λ r, is_open (mg_state r) = true) l))
  && forallb (λ r, negb (bool_decide (mg_source_profile_id r = mg_target_profile_id r))) l.

(** What a control-plane step can raise besides the errors of the Admin API. *)
Inductive ControlError :=
  | Admin (e : AdminError)
  | Executor (e : ExecutorError).

Abbreviation CTL := (ST ControlDb ControlError).

Definition http {A} (status : Z) (detail : string) : CTL A := raise (Admin (Http status detail)).

Definition on_admin {A} (m : ADM A) : CTL A := λ s,
  match m (cd_admin s) with
  | (Ok a, d) => (Ok a, set_cd_admin d s)
  | (Raise e, d) => (Raise (Admin e), set_cd_admin d s)
  end.

(** ** Statements *)
Definition write_profiles (l : list ProfileRow) : CTL unit :=
  _ ← ensure (profiles_ok l) (Admin IntegrityError);
  modify (set_cd_profiles l).
Definition write_migrations (l : list MigrationRow) : CTL unit :=
  _ ← ensure (migrations_ok l) (Admin IntegrityError);
  modify (set_cd_migrations l).

Definition active_row (t : uuid) (s : ControlDb) : option ProfileRow :=
  head (filter (λ r, pf_tenant_id r = t ∧ pf_active r = true) (cd_profiles s)).
Definition profile_row (t i : uuid) (s : ControlDb) : option ProfileRow :=
  head (filter (λ r, pf_tenant_id r = t ∧ pf_id r = i) (cd_profiles s)).
Definition migration_row (t i : uuid) (s : ControlDb) : option MigrationRow :=
  head (filter (λ r, mg_tenant_id r = t ∧ mg_id r = i) (cd_migrations s)).

(** [UPDATE tenant.storage_profile SET active=...,version=version+1,updated_at=now()
    WHERE tenant_id=$1 AND id=$2] *)
Definition profile_active (active : bool) (now : instant) (r : ProfileRow) : ProfileRow :=
  {| pf_tenant_id := pf_tenant_id r; pf_id := pf_id r; pf_alias := pf_alias r;
     pf_classification := pf_classification r; pf_worker_pool := pf_worker_pool r;
     pf_encryption_key_ref := pf_encryption_key_ref r; pf_backends := pf_backends r;
     pf_active := active; pf_version := pf_version r + 1;
     pf_created_at := pf_created_at r; pf_updated_at := now |}.

Definition set_profile_active (t i : uuid) (active : bool) (now : instant) : CTL unit :=
  s ← get;
  write_profiles ((λ r, if decide (pf_tenant_id r = t ∧ pf_id r = i)
                        then profile_active active now r else r) <$> cd_profiles s).

(** [UPDATE tenant.storage_migration ... WHERE tenant_id=$1 AND id=$2 RETURNING] *)
Definition update_migration (t i : uuid) (f : MigrationRow → MigrationRow) : CTL MigrationRow :=
  s ← get;
  _ ← write_migrations ((λ r, if decide (mg_tenant_id r = t ∧ mg_id r = i) then f r else r)
                          <$> cd_migrations s);
  updated ← gets (migration_row t i);
  get_or_raise updated (Admin AdminAssert).

(** ** Texts of the audit details *)
Definition state_value (s : StorageMigrationState) : string :=
  match s with
  | PREPARED => "PREPARED" | BACKFILLING => "BACKFILLING" | CATCHING_UP => "CATCHING_UP"
  | VALIDATING => "VALIDATING" | READY_TO_SWITCH => "READY_TO_SWITCH" | OBSERVING => "OBSERVING"
  | ROLLING_BACK => "ROLLING_BACK" | ROLLBACK_CATCHING_UP => "ROLLBACK_CATCHING_UP"
  | ROLLBACK_VALIDATING => "ROLLBACK_VALIDATING" | COMPLETED => "COMPLETED"
  | ROLLED_BACK => "ROLLED_BACK" | MIGRATION_FAILED => "FAILED"
  end.
Definition operation_value (o : MigrationOperation) : string :=
  match o with
  | START_BACKFILL => "START_BACKFILL" | BACKFILL_COMPLETE => "BACKFILL_COMPLETE"
  | CATCH_UP_COMPLETE => "CATCH_UP_COMPLETE" | VALIDATE => "VALIDATE" | SWITCH => "SWITCH"
  | COMPLETE => "COMPLETE" | START_ROLLBACK => "START_ROLLBACK"
  | ROLLBACK_BACKFILL_COMPLETE => "ROLLBACK_BACKFILL_COMPLETE"
  | ROLLBACK_CATCH_UP_COMPLETE => "ROLLBACK_CATCH_UP_COMPLETE"
  | ROLLBACK_VALIDATE => "ROLLBACK_VALIDATE" | FAIL_MIGRATION => "FAIL"
  end.
Definition code_value (c : MigrationCode) : string :=
  match c with
  | IDENTICAL_PROFILES => "STORAGE_MIGRATION_IDENTICAL_PROFILES"
  | INVALID_TRANSITION => "STORAGE_MIGRATION_INVALID_TRANSITION"
  | VALIDATION_FAILED => "STORAGE_MIGRATION_VALIDATION_FAILED"
  | ADAPTERS_UNAVAILABLE => "STORAGE_MIGRATION_ADAPTERS_UNAVAILABLE"
  | CHECKPOINT_INVALID => "STORAGE_MIGRATION_CHECKPOINT_INVALID"
  | CHECKPOINT_MISSING => "STORAGE_MIGRATION_CHECKPOINT_MISSING"
  | ROLLBACK_VALIDATION_FAILED => "STORAGE_MIGRATION_ROLLBACK_VALIDATION_FAILED"
  end.

(** [_machine(row)] and one [advance] of it. *)
Definition machine_advance (row : MigrationRow) (operation : MigrationOperation)
    (validation : option ValidationEvidence) : outcome ExecutorError StorageMigrationState :=
  match new_StorageMigrationStateMachine (mg_source_profile_id row) (mg_target_profile_id row)
          (mg_state row) with
  | Raise e => Raise e
  | Ok m => (advance operation validation m).1
  end.

(** [except StorageMigrationError as error: raise HTTPException(409, error.code)] *)
Definition transition_or_409 (r : outcome ExecutorError StorageMigrationState) :
    CTL StorageMigrationState :=
  match r with
  | Ok state => mret state
  | Raise (MigrationError code) => http 409 (code_value code)
  | Raise e => raise (Executor e)
  end.

Section Handlers.
  Context (sha256_hex : string → string) (dumps : json → string) (uuid_at : nat → uuid).

(** The guard and the audit row every migration endpoint has. *)
Definition require_admin (fault : txn_fault) (now : instant) (p : AdminPrincipal) (t : uuid)
    (action : string) (target_id : option string) : CTL unit :=
  on_admin (require_tenant_admin sha256_hex dumps uuid_at fault now p t action "storage_migration"
    target_id).

Definition audit_migration (now : instant) (p : option AdminPrincipal) (action decision : string)
    (t i : uuid) (details : jobject) : CTL unit :=
  on_admin (audited sha256_hex dumps uuid_at now p action decision (Some "storage_migration")
    (Some (uuid_text i)) (Some t) details).

(** [_migration]: the row, under the row-level security of the tenant. *)
Definition fetch_migration (t i : uuid) : CTL MigrationRow :=
  row ← gets (migration_row t i);
  get_or_raise row (Admin (Http 404 "STORAGE_MIGRATION_NOT_FOUND")).

(** [create_migration] *)
Definition create_migration (fault : txn_fault) (now : instant) (p : AdminPrincipal) (t : uuid)
    (target_profile_id : uuid) (observation_seconds : Z) (migration_id : uuid) : CTL MigrationRow :=
  _ ← ensure ((60 <=? observation_seconds) && (observation_seconds <=? 86400))
        (Admin (Http 422 "observation_seconds"));
  _ ← require_admin fault now p t "storage_migration.request" None;
  transaction fault (Admin ConnectionLost) (
    source ← gets (active_row t);
    target ← gets (profile_row t target_profile_id);
    source ← get_or_raise source (Admin (Http 404 "STORAGE_PROFILE_NOT_FOUND"));
    target ← get_or_raise target (Admin (Http 404 "STORAGE_PROFILE_NOT_FOUND"));
    _ ← ensure (negb (bool_decide (pf_id source = target_profile_id) || pf_active target))
          (Admin (Http 409 "STORAGE_MIGRATION_INVALID_PROFILES"));
    let row :=
      {| mg_tenant_id := t; mg_id := migration_id; mg_source_profile_id := pf_id source;
         mg_target_profile_id := target_profile_id; mg_state := PREPARED;
         mg_approval_status := APPROVAL_PENDING; mg_requested_by := ap_subject p;
         mg_approved_by := None; mg_approved_at := None;
         mg_rollback_approval_status := APPROVAL_NONE; mg_rollback_requested_by := None;
         mg_rollback_approved_by := None; mg_rollback_approved_at := None; mg_validation := None;
         mg_observation_seconds := observation_seconds; mg_observation_ends_at := None;
         mg_version := 1; mg_created_at := now; mg_updated_at := now |} in
    rows ← gets cd_migrations;
    _ ← write_migrations (rows ++ [row]);
    _ ← audit_migration now (Some p) "storage_migration.request" "ALLOW" t migration_id
          (<["source_profile_id" := JStr (uuid_text (pf_id source))]>
           {["target_profile_id" := JStr (uuid_text target_profile_id)]});
    mret row).

(** [list_migrations] and [get_migration] *)
Definition list_migrations (fault : txn_fault) (now : instant) (p : AdminPrincipal) (t : uuid) :
    CTL (list MigrationRow) :=
  _ ← require_admin fault now p t "storage_migration.list" None;
  gets (λ s, reverse (sort_on mg_created_at (filter (λ r, mg_tenant_id r = t) (cd_migrations s)))).

Definition get_migration (fault : txn_fault) (now : instant) (p : AdminPrincipal) (t i : uuid) :
    CTL MigrationRow :=
  _ ← require_admin fault now p t "storage_migration.get" (Some (uuid_text i));
  fetch_migration t i.

(** [decide_migration_approval]; [approve] is [payload.decision == "APPROVE"]. *)
Definition decide_migration_approval (fault : txn_fault) (now : instant) (p : AdminPrincipal)
    (t i : uuid) (approve : bool) : CTL MigrationRow :=
  _ ← require_admin fault now p t "storage_migration.approve" (Some (uuid_text i));
  transaction fault (Admin ConnectionLost) (
    row ← fetch_migration t i;
    _ ← ensure (bool_decide (mg_approval_status row = APPROVAL_PENDING))
          (Admin (Http 409 "STORAGE_MIGRATION_APPROVAL_ALREADY_DECIDED"));
    _ ← ensure (negb (bool_decide (ap_subject p = mg_requested_by row)))
          (Admin (Http 409 "STORAGE_MIGRATION_SELF_APPROVAL_DENIED"));
    let status := if approve then APPROVAL_APPROVED else APPROVAL_DENIED in
    let state := if approve then PREPARED else MIGRATION_FAILED in
    updated ← update_migration t i (λ r, row_state state now (row_approval status (ap_subject p) now r));
    _ ← audit_migration now (Some p) "storage_migration.approve" "ALLOW" t i
          (<["decision" := JStr (if approve then "APPROVED" else "DENIED")]>
           {["state" := JStr (state_value state)]});
    mret updated).

(** [start_migration] *)
Definition start_migration (fault : txn_fault) (now : instant) (p : AdminPrincipal) (t i : uuid) :
    CTL MigrationRow :=
  _ ← require_admin fault now p t "storage_migration.start" (Some (uuid_text i));
  transaction fault (Admin ConnectionLost) (
    row ← fetch_migration t i;
    _ ← ensure (bool_decide (mg_approval_status row = APPROVAL_APPROVED))
          (Admin (Http 409 "STORAGE_MIGRATION_APPROVAL_REQUIRED"));
    state ← transition_or_409 (machine_advance row START_BACKFILL None);
    updated ← update_migration t i (row_state state now);
    _ ← audit_migration now (Some p) "storage_migration.start" "ALLOW" t i
          {["state" := JStr (state_value state)]};
    mret updated).

(** [StorageMigrationAdvance.operation] *)
Inductive advance_choice := AdvanceSwitch | AdvanceComplete.
Definition choice_operation (c : advance_choice) : MigrationOperation :=
  match c with AdvanceSwitch => SWITCH | AdvanceComplete => COMPLETE end.

(** [timedelta(seconds=...)] in microseconds. *)
Definition seconds (n : Z) : Z := n * 1000000.

(** [advance_migration] *)
Definition advance_migration (fault : txn_fault) (now : instant) (p : AdminPrincipal) (t i : uuid)
    (choice : advance_choice) : CTL MigrationRow :=
  _ ← require_admin fault now p t "storage_migration.advance" (Some (uuid_text i));
  transaction fault (Admin ConnectionLost) (
    row ← fetch_migration t i;
    _ ← ensure (bool_decide (mg_approval_status row = APPROVAL_APPROVED))
          (Admin (Http 409 "STORAGE_MIGRATION_APPROVAL_REQUIRED"));
    let operation := choice_operation choice in
    _ ← match choice with
        | AdvanceComplete =>
            ensure (match mg_observation_ends_at row with
                    | None => false
                    | Some ends_at => negb (now <? ends_at)
                    end) (Admin (Http 409 "STORAGE_MIGRATION_OBSERVATION_REQUIRED"))
        | AdvanceSwitch => mret tt
        end;
    state ← transition_or_409 (machine_advance row operation None);
    let ends_at := match choice with
                   | AdvanceSwitch => Some (now + seconds (mg_observation_seconds row))
                   | AdvanceComplete => mg_observation_ends_at row
                   end in
    _ ← match choice with
        | AdvanceSwitch =>
            _ ← set_profile_active t (mg_source_profile_id row) false now;
            set_profile_active t (mg_target_profile_id row) true now
        | AdvanceComplete => mret tt
        end;
    updated ← update_migration t i
                (λ r, row_state state now (row_evidence (mg_validation row) ends_at r));
    _ ← audit_migration now (Some p) "storage_migration.advance" "ALLOW" t i
          (<["operation" := JStr (operation_value operation)]>
           {["state" := JStr (state_value state)]});
    mret updated).

(** [StorageMigrationRollbackApproval.decision] *)
Inductive rollback_decision := RollbackRequest | RollbackApprove | RollbackDeny.
Definition rollback_decision_value (d : rollback_decision) : string :=
  match d with RollbackRequest => "REQUEST" | RollbackApprove => "APPROVE" | RollbackDeny => "DENY" end.

(** [decide_rollback_approval] *)
Definition decide_rollback_approval (fault : txn_fault) (now : instant) (p : AdminPrincipal)
    (t i : uuid) (decision : rollback_decision) : CTL MigrationRow :=
  _ ← require_admin fault now p t "storage_migration.rollback_approval" (Some (uuid_text i));
  transaction fault (Admin ConnectionLost) (
    row ← fetch_migration t i;
    _ ← ensure (bool_decide (mg_state row = OBSERVING))
          (Admin (Http 409 "STORAGE_MIGRATION_ROLLBACK_UNAVAILABLE"));
    let current := mg_rollback_approval_status row in
    values ← match decision with
             | RollbackRequest =>
                 _ ← ensure (bool_decide (current = APPROVAL_NONE))
                       (Admin (Http 409 "STORAGE_MIGRATION_ROLLBACK_ALREADY_REQUESTED"));
                 mret (APPROVAL_PENDING, Some (ap_subject p), None, None)
             | _ =>
                 _ ← ensure (negb (negb (bool_decide (current = APPROVAL_PENDING)) ||
                              bool_decide (Some (ap_subject p) = mg_rollback_requested_by row)))
                       (Admin (Http 409 "STORAGE_MIGRATION_ROLLBACK_APPROVAL_DENIED"));
                 mret (match decision with RollbackApprove => APPROVAL_APPROVED | _ => APPROVAL_DENIED end,
                       None, Some (ap_subject p), Some now)
             end;
    let '(status, requested, approved, approved_at) := values in
    updated ← update_migration t i (row_rollback status requested approved approved_at now);
    _ ← audit_migration now (Some p) "storage_migration.rollback_approval" "ALLOW" t i
          {["decision" := JStr (rollback_decision_value decision)]};
    mret updated).

(** [rollback_migration] *)
Definition rollback_migration (fault : txn_fault) (now : instant) (p : AdminPrincipal) (t i : uuid) :
    CTL MigrationRow :=
  _ ← require_admin fault now p t "storage_migration.rollback" (Some (uuid_text i));
  transaction fault (Admin ConnectionLost) (
    row ← fetch_migration t i;
    _ ← ensure (bool_decide (mg_rollback_approval_status row = APPROVAL_APPROVED))
          (Admin (Http 409 "STORAGE_MIGRATION_ROLLBACK_APPROVAL_REQUIRED"));
    state ← transition_or_409 (machine_advance row START_ROLLBACK None);
    updated ← update_migration t i (row_state state now);
    _ ← audit_migration now (Some p) "storage_migration.rollback" "ALLOW" t i
          (<["state" := JStr (state_value state)]>
           {["fenced_profile_id" := JStr (uuid_text (mg_target_profile_id row))]});
    mret updated).
End Handlers.

(** ** Profiles (admin_api/storage_profiles.py) *)
Record StorageProfileCreate := {
  pc_alias : string;
  pc_classification : DataClassification;
  pc_worker_pool : string;
  pc_encryption_key_ref : string;
  pc_backends : list StorageBackend;
  pc_activate : bool;
}.

Definition classification_text (c : DataClassification) : string :=
  match c with
  | PUBLIC => "PUBLIC" | INTERNAL => "INTERNAL" | CONFIDENTIAL => "CONFIDENTIAL"
  | RESTRICTED => "RESTRICTED"
  end.

Definition kind_value (k : AdapterKind) : string :=
  match k with
  | SQL => "SQL" | REDIS => "REDIS" | VECTOR => "VECTOR" | OBJECT => "OBJECT"
  | EXTERNAL_MEMORY => "EXTERNAL_MEMORY"
  end.

Definition backend_json (b : StorageBackend) : json :=
  JObj (<["kind" := JStr (kind_value (sb_kind b))]>
       (<["endpoint" := JStr (sb_endpoint b)]>
       (<["dedicated" := JBool (sb_dedicated b)]>
       {["secret_ref" := JStr (sb_secret_ref b)]}))).

(** [{"tenant_id": ..., **payload.model_dump(mode="json")}] *)
Definition profile_payload (t : uuid) (c : StorageProfileCreate) : jobject :=
  <["tenant_id" := JStr (uuid_text t)]>
  (<["alias" := JStr (pc_alias c)]>
  (<["classification" := JStr (classification_text (pc_classification c))]>
  (<["worker_pool" := JStr (pc_worker_pool c)]>
  (<["encryption_key_ref" := JStr (pc_encryption_key_ref c)]>
  (<["backends" := JArr (backend_json <$> pc_backends c)]>
  {["activate" := JBool (pc_activate c)]}))))).

(** The response body; its dates are given by their instants. *)
Definition profile_json (r : ProfileRow) : json :=
  JObj (<["id" := JStr (uuid_text (pf_id r))]>
       (<["tenant_id" := JStr (uuid_text (pf_tenant_id r))]>
       (<["alias" := JStr (pf_alias r)]>
       (<["classification" := JStr (classification_text (pf_classification r))]>
       (<["worker_pool" := JStr (pf_worker_pool r)]>
       (<["encryption_key_ref" := JStr (pf_encryption_key_ref r)]>
       (<["backends" := JArr (backend_json <$> pf_backends r)]>
       (<["active" := JBool (pf_active r)]>
       (<["version" := JNum (pf_version r)]>
       (<["created_at" := JNum (pf_created_at r)]>
       {["updated_at" := JNum (pf_updated_at r)]})))))))))).

Definition as_profile (tenant_id : string) (c : StorageProfileCreate) : StorageProfile :=
  {| sp_tenant_id := tenant_id; sp_alias := pc_alias c; sp_classification := pc_classification c;
     sp_worker_pool := pc_worker_pool c; sp_encryption_key_ref := pc_encryption_key_ref c;
     sp_backends := pc_backends c |}.

(** [_validate_profile] *)
Definition validate_profile (t : uuid) (c : StorageProfileCreate) : CTL unit :=
  let prefix := "vault://tenant/" +:+ uuid_text t +:+ "/" in
  _ ← ensure (String.prefix prefix (pc_encryption_key_ref c)
              && forallb (λ b, String.prefix prefix (sb_secret_ref b)) (pc_backends c))
        (Admin (Http 422 "STORAGE_SECRET_REF_SCOPE_INVALID"));
  let profile := as_profile (uuid_text t) c in
  _ ← ensure (has_each_backend_once profile) (Admin (Http 422 "STORAGE_BACKENDS_INCOMPLETE"));
  match new_StorageRouter profile with
  | Ok _ => mret tt
  | Raise _ => http 422 "DEDICATED_STORAGE_REQUIRED"
  end.

Section Profiles.
  Context (sha256_hex : string → string) (dumps : json → string) (uuid_at : nat → uuid).

(** The identities a profile claims for its tenant alone. *)
Definition dedicated_resources (c : StorageProfileCreate) : list (string * string) :=
  ((λ b, (kind_value (sb_kind b), sb_endpoint b)) <$> filter (λ b, sb_dedicated b = true) (pc_backends c))
  ++ (if bool_decide (pc_worker_pool c = "shared-workers") then []
      else [("WORKER_POOL", pc_worker_pool c)]).

(** One round of the loop of [_claim_dedicated_resources]: insert unless the resource
    is taken, then read the owner back. *)
Definition claim_resource (t : uuid) (resource : string * string) : CTL unit :=
  let key := (resource.1, sha256_hex resource.2) in
  claimed ← gets (λ s, cd_claims s !! key);
  _ ← match claimed with
      | Some _ => mret tt
      | None =>
          known ← gets (λ s, bool_decide (t ∈ ad_tenants (cd_admin s)));
          _ ← ensure known (Admin IntegrityError);
          modify (λ s, set_cd_claims (<[key := t]> (cd_claims s)) s)
      end;
  owner ← gets (λ s, cd_claims s !! key);
  ensure (bool_decide (owner = Some t)) (Admin (Http 409 "STORAGE_RESOURCE_ALREADY_CLAIMED")).

Definition claim_dedicated_resources (t : uuid) (c : StorageProfileCreate) : CTL unit :=
  for_each (claim_resource t) (dedicated_resources c).

(** The transaction of [create_profile]. *)
Definition create_profile_body (now : instant) (p : AdminPrincipal) (t : uuid)
    (c : StorageProfileCreate) (key : string) (profile_id : uuid) : CTL json :=
  let payload := profile_payload t c in
  replayed ← on_admin (replay_for sha256_hex dumps (ap_subject p) key "storage_profile.create" payload);
  match replayed with
  | Some response => mret response
  | None =>
      active ← gets (active_row t);
      _ ← ensure (negb (pc_activate c && bool_decide (is_Some active)))
            (Admin (Http 409 "STORAGE_MIGRATION_REQUIRED"));
      _ ← claim_dedicated_resources t c;
      known ← gets (λ s, bool_decide (t ∈ ad_tenants (cd_admin s)));
      _ ← ensure known (Admin IntegrityError);
      let row :=
        {| pf_tenant_id := t; pf_id := profile_id; pf_alias := pc_alias c;
           pf_classification := pc_classification c; pf_worker_pool := pc_worker_pool c;
           pf_encryption_key_ref := pc_encryption_key_ref c; pf_backends := pc_backends c;
           pf_active := pc_activate c; pf_version := 1; pf_created_at := now; pf_updated_at := now |} in
      rows ← gets cd_profiles;
      _ ← write_profiles (rows ++ [row]);
      _ ← on_admin (audited sha256_hex dumps uuid_at now (Some p) "storage_profile.create" "ALLOW"
            (Some "storage_profile") (Some (uuid_text profile_id)) (Some t)
            {["active" := JBool (pc_activate c)]});
      _ ← on_admin (remember sha256_hex dumps (ap_subject p) key "storage_profile.create" payload
            (profile_json row));
      mret (profile_json row)
  end.

(** [create_profile] *)
Definition create_profile (fault : txn_fault) (now : instant) (p : AdminPrincipal) (t : uuid)
    (c : StorageProfileCreate) (key : string) (profile_id : uuid) : CTL json :=
  _ ← on_admin (require_tenant_access sha256_hex dumps uuid_at fault now p t WriteAccess
        "storage_profile.create" "storage_profile" None);
  _ ← validate_profile t c;
  try_catch (transaction fault (Admin ConnectionLost) (create_profile_body now p t c key profile_id))
    (λ e, match e with
          | Admin IntegrityError => http 409 "storage profile alias already exists"
          | _ => raise e
          end).

(** [list_profiles] and [active_profile] *)
Definition list_profiles (fault : txn_fault) (now : instant) (p : AdminPrincipal) (t : uuid) :
    CTL (list ProfileRow) :=
  _ ← on_admin (require_tenant_access sha256_hex dumps uuid_at fault now p t ReadAccess
        "storage_profile.list" "storage_profile" None);
  gets (λ s, sort_on pf_id (filter (λ r, pf_tenant_id r = t) (cd_profiles s))).

Definition active_profile (fault : txn_fault) (now : instant) (p : AdminPrincipal) (t : uuid) :
    CTL ProfileRow :=
  _ ← on_admin (require_tenant_access sha256_hex dumps uuid_at fault now p t ReadAccess
        "storage_profile.get" "storage_profile" None);
  row ← gets (active_row t);
  get_or_raise row (Admin (Http 404 "active storage profile not found")).
End Profiles.

(** ** Resolving the active profile (storage.py, [DatabaseStorageProfileResolver]) *)
Definition resolves (s : ControlDb) (r : ProfileRow) : bool :=
  pf_active r &&
  negb (existsb (λ m, bool_decide (mg_tenant_id m = pf_tenant_id r)
                      && bool_decide (mg_target_profile_id m = pf_id r)
                      && negb (bool_decide (mg_state m ∈ [OBSERVING; COMPLETED]))) (cd_migrations s)).

Definition resolve_row (t : uuid) (s : ControlDb) : option ProfileRow :=
  head (filter (λ r, pf_tenant_id r = t ∧ resolves s r = true) (cd_profiles s)).

(** [resolve]: no router, or the router of the row; the stored row satisfies the model
    [StorageProfile] that it was created from. *)
Definition resolve (t : uuid) (s : ControlDb) : outcome StorageProfileError (option StorageProfile) :=
  match resolve_row t s with
  | None => Ok None
  | Some r =>
      let profile :=
        {| sp_tenant_id := uuid_text (pf_tenant_id r); sp_alias := pf_alias r;
           sp_classification := pf_classification r; sp_worker_pool := pf_worker_pool r;
           sp_encryption_key_ref := pf_encryption_key_ref r; sp_backends := pf_backends r |} in
      if has_each_backend_once profile then
        match new_StorageRouter profile with
        | Ok router => Ok (Some router)
        | Raise e => Raise e
        end
      else Raise STORAGE_BACKENDS_INCOMPLETE
  end.

(** The guard of the execution processor (agent_worker.py): [true] when the worker goes
    on, [false] when it raises, [STORAGE_WORKER_POOL_MISMATCH] or the resolver's error. *)
Definition worker_accepts (worker_pool : string) (t : uuid) (s : ControlDb) : bool :=
  match resolve t s with
  | Ok (Some router) => bool_decide (sp_worker_pool router = worker_pool)
  | Ok None => true
  | Raise _ => false
  end.

(** ** The migration worker (trpc_service/storage_migration_worker.py)

    [run_once] carries out one phase of a tenant's open migration in one database
    transaction.  The adapters are not part of that transaction: what a phase has
    written to them stays when the transaction is undone. *)

Section Worker.
  Context {A : Type} `{OnlineMigrationAdapter A}.
  Context (adapters : string → uuid → uuid → list (nat * nat)).
  Context (digest : bytes → string).
  Context (sha256_hex : string → string) (dumps : json → string) (uuid_at : nat → uuid).

(** The database and the adapter objects. *)
Definition World : Type := ControlDb * (nat → A).
Abbreviation WRK := (ST World ControlError).

Definition on_db {X} (m : CTL X) : WRK X := λ w,
  let r := m w.1 in (r.1, (r.2, w.2)).
Definition on_adapters {X} (m : ST (nat → A) ExecutorError X) : WRK X := λ w,
  match m w.2 with
  | (Ok x, a) => (Ok x, (w.1, a))
  | (Raise e, a) => (Raise (Executor e), (w.1, a))
  end.

(** A transaction of the database: the adapters keep what they have. *)
Definition db_transaction {X} (fault : txn_fault) (m : WRK X) : WRK X := λ w,
  match m w with
  | (Ok x, w') =>
      match fault with
      | NoFault => (Ok x, w')
      | LostBeforeCommit => (Raise (Admin ConnectionLost), (w.1, w'.2))
      | LostAfterCommit => (Raise (Admin ConnectionLost), w')
      end
  | (Raise e, w') => (Raise e, (w.1, w'.2))
  end.

(** [_upsert_checkpoint] *)
Definition upsert_checkpoint (t i : uuid) (forward rollback : option (gmap nat Z)) : CTL unit :=
  existing ← gets (λ s, cd_checkpoints s !! (t, i));
  let row :=
    match existing with
    | None => {| ck_forward := default ∅ forward; ck_rollback := default ∅ rollback |}
    | Some c => {| ck_forward := default (ck_forward c) forward;
                   ck_rollback := default (ck_rollback c) rollback |}
    end in
  modify (λ s, set_cd_checkpoints (<[(t, i) := row]> (cd_checkpoints s)) s).

(** [_advance] *)
Definition worker_advance (now : instant) (t : uuid) (row : MigrationRow)
    (operation : MigrationOperation) (action : string) (evidence : option ValidationEvidence) :
    CTL unit :=
  let validation := if bool_decide (operation ∈ [VALIDATE; ROLLBACK_VALIDATE]) then evidence else None in
  state ← match machine_advance row operation validation with
          | Ok state => mret state
          | Raise e => raise (Executor e)
          end;
  _ ← update_migration t (mg_id row)
        (λ r, row_state state now (row_evidence evidence (mg_observation_ends_at r) r));
  audit_migration sha256_hex dumps uuid_at now None ("storage_migration.worker." +:+ action) "ALLOW"
    t (mg_id row)
    (<["state" := JStr (state_value state)]> {["operation" := JStr (operation_value operation)]}).

(** [_record_failure] *)
Definition record_failure (now : instant) (t : uuid) (row : MigrationRow) (code : MigrationCode) :
    CTL unit :=
  outcome ←
    match mg_state row with
    | ROLLING_BACK | ROLLBACK_CATCHING_UP | ROLLBACK_VALIDATING => mret "RETRY_REQUIRED"
    | _ =>
        _ ← update_migration t (mg_id row) (row_state MIGRATION_FAILED now);
        mret (state_value MIGRATION_FAILED)
    end;
  audit_migration sha256_hex dumps uuid_at now None "storage_migration.worker.failure" "DENY"
    t (mg_id row)
    (<["error" := JStr (code_value code)]> {["outcome" := JStr outcome]}).

(** The [COMPARE, SWAP BACK, ADVANCE] step that ends a rollback. *)
Definition finish_rollback (now : instant) (t : uuid) (row : MigrationRow)
    (evidence : ValidationEvidence) : CTL unit :=
  _ ← set_profile_active t (mg_target_profile_id row) false now;
  _ ← set_profile_active t (mg_source_profile_id row) true now;
  worker_advance now t row ROLLBACK_VALIDATE "rollback_switch" (Some evidence).

(** [_execute_phase] *)
Definition execute_phase (now : instant) (t : uuid) (row : MigrationRow) : WRK unit :=
  let source := mg_source_profile_id row in
  let target := mg_target_profile_id row in
  let tenant := uuid_text t in
  let i := mg_id row in
  checkpoint ← on_db (gets (λ s, cd_checkpoints s !! (t, i)));
  match mg_state row with
  | BACKFILLING =>
      watermarks ← on_adapters (backfill adapters tenant source target);
      _ ← on_db (upsert_checkpoint t i (Some watermarks) None);
      on_db (worker_advance now t row BACKFILL_COMPLETE "backfill" None)
  | _ =>
      checkpoint ← get_or_raise checkpoint (Executor (MigrationError CHECKPOINT_MISSING));
      match mg_state row with
      | CATCHING_UP =>
          watermarks ← on_adapters (catch_up adapters tenant source target (ck_forward checkpoint));
          _ ← on_db (upsert_checkpoint t i (Some watermarks) None);
          on_db (worker_advance now t row CATCH_UP_COMPLETE "catch_up" None)
      | VALIDATING =>
          evidence ← on_adapters (validate adapters digest tenant source target);
          _ ← ensure (is_valid evidence) (Executor (MigrationError VALIDATION_FAILED));
          on_db (worker_advance now t row VALIDATE "validate" (Some evidence))
      | ROLLING_BACK =>
          watermarks ← on_adapters (backfill adapters tenant target source);
          _ ← on_db (upsert_checkpoint t i None (Some watermarks));
          on_db (worker_advance now t row ROLLBACK_BACKFILL_COMPLETE "rollback_backfill" None)
      | ROLLBACK_CATCHING_UP =>
          watermarks ← on_adapters (catch_up adapters tenant target source (ck_rollback checkpoint));
          _ ← on_db (upsert_checkpoint t i None (Some watermarks));
          on_db (worker_advance now t row ROLLBACK_CATCH_UP_COMPLETE "rollback_catch_up" None)
      | ROLLBACK_VALIDATING =>
          evidence ← on_adapters (validate adapters digest tenant target source);
          _ ← ensure (is_valid evidence) (Executor (MigrationError ROLLBACK_VALIDATION_FAILED));
          on_db (finish_rollback now t row evidence)
      | _ => raise (Admin AdminAssert)
      end
  end.

(** The states the worker picks up. *)
Definition worker_state (s : StorageMigrationState) : bool :=
  match s with
  | BACKFILLING | CATCHING_UP | VALIDATING | ROLLING_BACK | ROLLBACK_CATCHING_UP
  | ROLLBACK_VALIDATING => true
  | _ => false
  end.

Definition next_row (t : uuid) (s : ControlDb) : option MigrationRow :=
  head (sort_on mg_created_at
    (filter (λ r, mg_tenant_id r = t ∧ worker_state (mg_state r) = true) (cd_migrations s))).

(** [run_once] *)
Definition run_once (fault : txn_fault) (now : instant) (t : uuid) : WRK bool :=
  db_transaction fault (
    row ← on_db (gets (next_row t));
    match row with
    | None => mret false
    | Some row =>
        _ ← try_catch (execute_phase now t row)
              (λ e, match e with
                    | Executor (MigrationError code) => on_db (record_failure now t row code)
                    | _ => raise e
                    end);
        mret true
    end).
End Worker.
