(* ===== verification/ControlFacts.v ===== *)
(** * The invariant of the storage control plane

    Every operation of the control plane keeps: at most one active profile and
    one open migration per tenant, the active profile is the one the open
    migration's state calls for, decisions are taken by two different people, and
    no migration is past validation without valid evidence. *)

From S2P Require Import Prelude PyNum PyDict Uuids ExecutionBus ToolRegistry AuditChain AdminAccess Storage StorageMigration StorageControl.
Open Scope string_scope.
Open Scope list_scope.
Open Scope Z_scope.

(** ** Well-formed rows *)
Definition past_validation (s : StorageMigrationState) : bool :=
  match s with
  | READY_TO_SWITCH | OBSERVING | ROLLING_BACK | ROLLBACK_CATCHING_UP | ROLLBACK_VALIDATING
  | COMPLETED | ROLLED_BACK => true
  | _ => false
  end.
Definition in_rollback (s : StorageMigrationState) : bool :=
  match s with
  | ROLLING_BACK | ROLLBACK_CATCHING_UP | ROLLBACK_VALIDATING | ROLLED_BACK => true
  | _ => false
  end.

(** Somebody other than the requester approved. *)
Definition second_person (requester approver : option string) : Prop :=
  ∃ q a, requester = Some q ∧ approver = Some a ∧ a ≠ q.

Record row_ok (r : MigrationRow) : Prop := {
  rk_distinct : mg_source_profile_id r ≠ mg_target_profile_id r;
  rk_pending : mg_approval_status r = APPROVAL_PENDING → mg_state r = PREPARED;
  rk_started : mg_state r ≠ PREPARED → mg_state r ≠ MIGRATION_FAILED →
    mg_approval_status r = APPROVAL_APPROVED;
  rk_approved : mg_approval_status r = APPROVAL_APPROVED →
    second_person (Some (mg_requested_by r)) (mg_approved_by r);
  rk_evidence : past_validation (mg_state r) = true → ∃ e, mg_validation r = Some e ∧ is_valid e = true;
  rk_rollback : in_rollback (mg_state r) = true → mg_rollback_approval_status r = APPROVAL_APPROVED;
  rk_rollback_asked : mg_rollback_approval_status r = APPROVAL_PENDING →
    is_Some (mg_rollback_requested_by r);
  rk_rollback_approved : mg_rollback_approval_status r = APPROVAL_APPROVED →
    second_person (mg_rollback_requested_by r) (mg_rollback_approved_by r);
}.

(** The profile that is active while the migration is open. *)
Definition expected_active (r : MigrationRow) : uuid :=
  if may_fail (mg_state r) then mg_source_profile_id r else mg_target_profile_id r.

Definition profile_exists (l : list ProfileRow) (t i : uuid) : Prop :=
  ∃ p, p ∈ l ∧ pf_tenant_id p = t ∧ pf_id p = i.
Definition profile_is_active (l : list ProfileRow) (t i : uuid) : Prop :=
  ∃ p, p ∈ l ∧ pf_tenant_id p = t ∧ pf_id p = i ∧ pf_active p = true.

Definition agrees (l : list ProfileRow) (r : MigrationRow) : Prop :=
  is_open (mg_state r) = true → profile_is_active l (mg_tenant_id r) (expected_active r).

(** The invariant, but for the agreement of the rows with key [except]. *)
Record ControlInvBut (except : MigrationRow → Prop) (s : ControlDb) : Prop := {
  ci_profiles : profiles_ok (cd_profiles s) = true;
  ci_migrations : migrations_ok (cd_migrations s) = true;
  ci_rows : ∀ r, r ∈ cd_migrations s → row_ok r;
  ci_source : ∀ r, r ∈ cd_migrations s →
    profile_exists (cd_profiles s) (mg_tenant_id r) (mg_source_profile_id r);
  ci_target : ∀ r, r ∈ cd_migrations s →
    profile_exists (cd_profiles s) (mg_tenant_id r) (mg_target_profile_id r);
  ci_agrees : ∀ r, r ∈ cd_migrations s → except r ∨ agrees (cd_profiles s) r;
}.
Abbreviation ControlInv := (ControlInvBut (λ _, False)).
Abbreviation keyed t i := (λ r, mg_tenant_id r = t ∧ mg_id r = i).

Lemma inv_but s P : ControlInv s → ControlInvBut P s.
Proof. intros []; split; try done. naive_solver. Qed.

Lemma inv_admin P a s : ControlInvBut P s → ControlInvBut P (set_cd_admin a s).
Proof. by intros []; split. Qed.
Lemma inv_checkpoints P m s : ControlInvBut P s → ControlInvBut P (set_cd_checkpoints m s).
Proof. by intros []; split. Qed.
Lemma inv_claims P m s : ControlInvBut P s → ControlInvBut P (set_cd_claims m s).
Proof. by intros []; split. Qed.

(** ** Keys *)
Lemma migrations_key l r r' :
  migrations_ok l = true → r ∈ l → r' ∈ l →
  mg_tenant_id r = mg_tenant_id r' → mg_id r = mg_id r' → r = r'.
Proof.
  unfold migrations_ok. intros [[Hk%bool_decide_eq_true _]%andb_true_iff _]%andb_true_iff Hr Hr' Ht Hi.
  eapply (NoDup_fmap_elem_inj (λ r, (mg_tenant_id r, mg_id r))); [exact Hk|done|done|]. simpl. congruence.
Qed.

Lemma migrations_open l r r' :
  migrations_ok l = true → r ∈ l → r' ∈ l → is_open (mg_state r) = true → is_open (mg_state r') = true →
  mg_tenant_id r = mg_tenant_id r' → r = r'.
Proof.
  unfold migrations_ok. intros [[_ Ho%bool_decide_eq_true]%andb_true_iff _]%andb_true_iff Hr Hr' H1 H2 Ht.
  eapply (NoDup_fmap_elem_inj mg_tenant_id); [exact Ho|by apply list_elem_of_filter..|done].
Qed.

Lemma migration_row_spec t i s r :
  migration_row t i s = Some r → r ∈ cd_migrations s ∧ mg_tenant_id r = t ∧ mg_id r = i.
Proof.
  intros Hh%head_filter_Some. tauto.
Qed.

Lemma migration_row_found t i s r :
  migrations_ok (cd_migrations s) = true → r ∈ cd_migrations s → mg_tenant_id r = t → mg_id r = i →
  migration_row t i s = Some r.
Proof.
  intros Hok Hr Ht Hi. apply head_filter_only; [done|done|].
  intros r' Hr' [? ?]. eapply migrations_key; [done|done|done|congruence..].
Qed.

Lemma profiles_key l p p' :
  profiles_ok l = true → p ∈ l → p' ∈ l →
  pf_tenant_id p = pf_tenant_id p' → pf_id p = pf_id p' → p = p'.
Proof.
  unfold profiles_ok. intros [[Hk%bool_decide_eq_true _]%andb_true_iff _]%andb_true_iff Hr Hr' Ht Hi.
  eapply (NoDup_fmap_elem_inj (λ r, (pf_tenant_id r, pf_id r))); [exact Hk|done|done|]. simpl. congruence.
Qed.

Lemma profiles_active l p p' :
  profiles_ok l = true → p ∈ l → p' ∈ l → pf_active p = true → pf_active p' = true →
  pf_tenant_id p = pf_tenant_id p' → p = p'.
Proof.
  unfold profiles_ok. intros [_ Ho%bool_decide_eq_true]%andb_true_iff Hr Hr' H1 H2 Ht.
  eapply (NoDup_fmap_elem_inj pf_tenant_id); [exact Ho|by apply list_elem_of_filter..|done].
Qed.

(** ** Statements *)
Lemma write_migrations_Ok l s a s' :
  write_migrations l s = (Ok a, s') → migrations_ok l = true ∧ s' = set_cd_migrations l s.
Proof. unfold write_migrations. intros H. run_inv. done. Qed.
Lemma write_profiles_Ok l s a s' :
  write_profiles l s = (Ok a, s') → profiles_ok l = true ∧ s' = set_cd_profiles l s.
Proof. unfold write_profiles. intros H. run_inv. done. Qed.

(** What an update may do to a row: not touch its identity. *)
Definition same_migration (r r' : MigrationRow) : Prop :=
  mg_tenant_id r' = mg_tenant_id r ∧ mg_id r' = mg_id r ∧
  mg_source_profile_id r' = mg_source_profile_id r ∧ mg_target_profile_id r' = mg_target_profile_id r.

(** The effect of an update of the row with a key, when it succeeds. *)
Lemma update_migration_inv t i f s u s' row :
  ControlInvBut (keyed t i) s → migration_row t i s = Some row →
  update_migration t i f s = (Ok u, s') →
  same_migration row (f row) → row_ok (f row) → agrees (cd_profiles s) (f row) →
  ControlInv s' ∧ u = f row ∧ cd_profiles s' = cd_profiles s.
Proof.
  intros [Hp Hm Hrows Hsrc Htgt Hag] Hrow Hup Hsame Hok Hagr.
  destruct (migration_row_spec _ _ _ _ Hrow) as (Hin & Ht & Hi).
  destruct Hsame as (Hst & Hsi & Hss & Hstg).
  unfold update_migration in Hup. run_inv.
  match goal with Hw : write_migrations _ _ = _ |- _ => apply write_migrations_Ok in Hw as [Hm' ->] end.
  match goal with Hg : _ = Some u |- _ => rename Hg into Hu end.
  set (g := λ r, if decide (mg_tenant_id r = t ∧ mg_id r = i) then f r else r) in *.
  assert (∀ r, r ∈ cd_migrations s → g r = f row ∧ r = row ∨ g r = r ∧ ¬ keyed t i r) as Hg.
  { intros r Hr. unfold g. destruct (decide (mg_tenant_id r = t ∧ mg_id r = i)) as [[? ?]|Hn]; [left|by right].
    assert (r = row) as ->; [|done]. eapply migrations_key; [exact Hm|done|done|congruence..]. }
  split_and!; [|..|done].
  - split; simpl; [done|done|..]; intros r (r0 & -> & Hr0)%list_elem_of_fmap;
      destruct (Hg r0 Hr0) as [[-> ->]|[-> Hn]].
    + done.
    + by apply Hrows.
    + rewrite Hst, Hss. by apply Hsrc.
    + by apply Hsrc.
    + rewrite Hst, Hstg. by apply Htgt.
    + by apply Htgt.
    + by right.
    + right. by destruct (Hag r0 Hr0) as [?|?].
  - erewrite migration_row_found in Hu; [by injection Hu as <-|done| |congruence..].
    simpl. apply list_elem_of_fmap. exists row. split; [|done].
    destruct (Hg row Hin) as [[-> _]|[_ Hn]]; [done|]. by destruct Hn.
Qed.

(** The tables after a profile of tenant [t] was switched on or off. *)
Lemma set_profile_active_inv P t i b now s a s' :
  ControlInvBut P s → (∀ r, r ∈ cd_migrations s → mg_tenant_id r = t → is_open (mg_state r) = true → P r) →
  set_profile_active t i b now s = (Ok a, s') →
  ControlInvBut P s' ∧ cd_migrations s' = cd_migrations s ∧
  (b = true → profile_exists (cd_profiles s) t i → profile_is_active (cd_profiles s') t i).
Proof.
  intros [Hp Hm Hrows Hsrc Htgt Hag] Ht Hset. unfold set_profile_active in Hset. run_inv.
  apply write_profiles_Ok in Hset as [Hp' ->]. simpl.
  set (g := λ r, if decide (pf_tenant_id r = t ∧ pf_id r = i) then profile_active b now r else r) in *.
  assert (∀ t' i', profile_exists (cd_profiles s) t' i' → profile_exists (g <$> cd_profiles s) t' i') as Hex.
  { intros t' i' (p & Hin & <- & <-). exists (g p). split; [apply list_elem_of_fmap; by exists p|].
    unfold g. by case_decide. }
  split_and!; [|done|].
  - split; simpl; [done|done|done|..].
    + intros r Hr. by apply Hex, Hsrc.
    + intros r Hr. by apply Hex, Htgt.
    + intros r Hr. destruct (Hag r Hr) as [?|Hagr]; [by left|].
      destruct (decide (mg_tenant_id r = t)) as [Hrt|Hrt].
      * destruct (is_open (mg_state r)) eqn:Ho; [left; by apply Ht|right]. intros Ho'. congruence.
      * right. intros Ho. destruct (Hagr Ho) as (p & Hin & Hpt & Hpi & Hpa). exists p. split; [|done].
        apply list_elem_of_fmap. exists p. split; [|done]. unfold g. rewrite decide_False; [done|].
        intros [? _]. congruence.
  - intros -> (p & Hin & Hpt & Hpi). exists (g p).
    split; [apply list_elem_of_fmap; by exists p|]. unfold g. by rewrite decide_True.
Qed.

(** ** The state machine *)
Lemma machine_advance_Ok row op v st :
  machine_advance row op v = Ok st → op ≠ FAIL_MIGRATION →
  transitions (mg_state row) op = Some st ∧ (op = VALIDATE → ∃ e, v = Some e ∧ is_valid e = true).
Proof.
  unfold machine_advance, new_StorageMigrationStateMachine, advance.
  intros Hadv Hop. case_bool_decide; [done|]. simpl in Hadv. unfold mbind, ST_mbind, get in Hadv. simpl in Hadv.
  rewrite (bool_decide_false (op = FAIL_MIGRATION)) in Hadv by done. simpl in Hadv.
  destruct (transitions (mg_state row) op) as [st'|]; [|done]. simpl in Hadv.
  unfold ensure, put, mret, ST_mret, raise in Hadv.
  destruct (bool_decide_reflect (op = VALIDATE)) as [->|Hv]; simpl in Hadv.
  - destruct v as [e|]; simpl in Hadv; [|done]. destruct (is_valid e) eqn:He; simpl in Hadv; [|done].
    simplify_eq. split; [done|]. eauto.
  - simplify_eq. done.
Qed.

Lemma machine_advance_run row op v st :
  mg_source_profile_id row ≠ mg_target_profile_id row → op ≠ FAIL_MIGRATION →
  transitions (mg_state row) op = Some st → (op = VALIDATE → ∃ e, v = Some e ∧ is_valid e = true) →
  machine_advance row op v = Ok st.
Proof.
  intros Hd Hop Hst Hv. unfold machine_advance, new_StorageMigrationStateMachine, advance.
  rewrite bool_decide_false by done. simpl. unfold mbind, ST_mbind, get. simpl.
  rewrite bool_decide_false by done. simpl. rewrite Hst. simpl.
  unfold ensure, put, mret, ST_mret, raise.
  destruct (bool_decide_reflect (op = VALIDATE)) as [->|?]; [|done].
  destruct (Hv eq_refl) as (e & -> & He). simpl. by rewrite He.
Qed.

Lemma transition_or_409_Ok r s st s' :
  transition_or_409 r s = (Ok st, s') → r = Ok st ∧ s' = s.
Proof. unfold transition_or_409, http, raise, mret, ST_mret. repeat case_match; naive_solver. Qed.

(** A transition keeps the agreement unless it is a switch: the other ones stay on one
    side, or close the migration. *)
Lemma transition_side st op st' :
  transitions st op = Some st' → op ≠ SWITCH →
  is_open st = true ∧ (is_open st' = true → may_fail st' = may_fail st).
Proof. destruct st, op; simpl; intros; simplify_eq; done. Qed.

Lemma agrees_transition l row op st' r' :
  agrees l row → transitions (mg_state row) op = Some st' → op ≠ SWITCH →
  same_migration row r' → mg_state r' = st' → agrees l r'.
Proof.
  intros Ha Ht Hop (Htn & _ & Hs & Htg) <- Ho.
  destruct (transition_side _ _ _ Ht Hop) as [Ho' Hm]. unfold expected_active in *.
  rewrite Htn, Hs, Htg, Hm by done. by apply Ha.
Qed.

Lemma inv_agrees s r : ControlInv s → r ∈ cd_migrations s → agrees (cd_profiles s) r.
Proof. intros Hinv Hr. by destruct (ci_agrees _ _ Hinv r Hr). Qed.

Lemma inv_closed_row s r : ControlInv s → r ∈ cd_migrations s → row_ok r.
Proof. intros Hinv Hr. by eapply ci_rows. Qed.

(** ** Operations of the Admin API *)
Lemma on_admin_preserves {A} P (m : ADM A) : preserves (ControlInvBut P) (on_admin m).
Proof.
  intros s Hs. unfold on_admin. destruct (m (cd_admin s)) as [[a|e] d]; by apply inv_admin.
Qed.
#[local] Hint Resolve on_admin_preserves : platform.

Lemma on_admin_keeps {A} P (m : ADM A) s r s' :
  on_admin m s = (r, s') → ControlInvBut P s → ControlInvBut P s'.
Proof. intros Hm. apply (preserves_result _ _ _ _ _ Hm), on_admin_preserves. Qed.

Section Preservation.
  Context (sha256_hex : string → string) (dumps : json → string) (uuid_at : nat → uuid).
  Implicit Types (fault : txn_fault) (p : AdminPrincipal).

Lemma guarded_transaction {A} (guard : CTL unit) fault (body : CTL A) :
  (∃ m, guard = on_admin m) → keeps ControlInv body →
  preserves ControlInv (_ ← guard; transaction fault (Admin ConnectionLost) body).
Proof.
  intros [m ->] Hb. apply maintains_bind; [apply on_admin_preserves|]. intros _.
  by apply preserves_transaction.
Qed.

(** A fetched row is a good row of the table. *)
Lemma fetch_Ok t i s row s' :
  fetch_migration t i s = (Ok row, s') → ControlInv s →
  s' = s ∧ migration_row t i s = Some row ∧ row ∈ cd_migrations s ∧ mg_tenant_id row = t ∧
  mg_id row = i ∧ row_ok row ∧ agrees (cd_profiles s) row.
Proof.
  unfold fetch_migration. intros Hf Hinv. run_inv. destruct (migration_row_spec t i s row) as (? & ? & ?);
    [done|]. split_and!; try done; [by eapply ci_rows|by eapply inv_agrees].
Qed.

(** The end of a handler: one update, then the audit row. *)
Lemma update_then_audit t i f s u s1 m a s2 row :
  ControlInvBut (keyed t i) s → migration_row t i s = Some row →
  update_migration t i f s = (Ok u, s1) → on_admin (A := unit) m s1 = (Ok a, s2) →
  same_migration row (f row) → row_ok (f row) → agrees (cd_profiles s) (f row) → ControlInv s2.
Proof.
  intros Hinv Hrow Hup Ha Hs Hok Hag. eapply on_admin_keeps; [exact Ha|].
  by edestruct (update_migration_inv t i f s u s1 row).
Qed.

Ltac fetched :=
  match goal with Hf : fetch_migration _ _ _ = (Ok ?r, _) |- _ =>
    rename r into row;
    apply fetch_Ok in Hf as (-> & Hrow & Hin & Ht & Hi & Hok & Hag); [|done] end.
Ltac advanced :=
  match goal with Hm : transition_or_409 _ _ = (Ok ?st, _) |- _ =>
    rename st into next;
    apply transition_or_409_Ok in Hm as [[Htr _]%machine_advance_Ok ->]; [|done] end.
Ltac decided H :=
  match goal with Hd : bool_decide _ = true |- _ => apply bool_decide_eq_true in Hd; rename Hd into H end.

Lemma decide_migration_approval_preserves fault now p t i approve :
  preserves ControlInv (decide_migration_approval sha256_hex dumps uuid_at fault now p t i approve).
Proof.
  apply guarded_transaction; [by eexists|]. apply keeps_intro. intros s u s' Hinv Hrun.
  cbv zeta in Hrun. run_inv.
  fetched.
  decided Hpend.
  match goal with H2 : negb (bool_decide (ap_subject p = _)) = true |- _ =>
    apply negb_true_iff, bool_decide_eq_false in H2; rename H2 into Hself end.
  eapply update_then_audit; [by apply inv_but|eassumption..| | |].
  - done.
  - destruct Hok as [K1 K2 K3 K4 K5 K6 K7 K8]. pose proof (K2 Hpend) as Hst.
    destruct approve; split; simpl; try done.
    + intros _. eexists _, _. split_and!; done.
  - intros Ho. destruct approve; [|done]. destruct (Hag) as (q & ?).
    + by rewrite (rk_pending _ Hok Hpend).
    + exists q. unfold expected_active in *. rewrite (rk_pending _ Hok Hpend) in *.
      done.
Qed.

Lemma state_step_ok row op st ends now :
  row_ok row → transitions (mg_state row) op = Some st → op ≠ VALIDATE →
  mg_approval_status row = APPROVAL_APPROVED →
  (in_rollback st = true → mg_rollback_approval_status row = APPROVAL_APPROVED) →
  row_ok (row_state st now (row_evidence (mg_validation row) ends row)).
Proof.
  intros [H1 H2 H3 H4 H5 H6 H7 H8] Ht Hop Ha Hr.
  assert (match mg_validation row with Some e => Some e | None => mg_validation row end
    = mg_validation row) as Hv by by destruct (mg_validation row).
  split; simpl; rewrite ?Hv; try done.
  - congruence.
  - intros Hp. destruct (mg_state row), op; simpl in *; simplify_eq; auto.
Qed.

Lemma row_evidence_same row : row_evidence (mg_validation row) (mg_observation_ends_at row) row = row.
Proof. destruct row as [?????????????[]]; done. Qed.

Lemma start_migration_preserves fault now p t i :
  preserves ControlInv (start_migration sha256_hex dumps uuid_at fault now p t i).
Proof.
  apply guarded_transaction; [by eexists|]. apply keeps_intro. intros s u s' Hinv Hrun. run_inv.
  fetched.
  decided Happ. advanced.
  eapply update_then_audit; [by apply inv_but|eassumption..|done| |].
  - rewrite <- (row_evidence_same row). eapply state_step_ok; try done.
    destruct (mg_state row); simpl in *; by simplify_eq.
  - by eapply agrees_transition.
Qed.

(** The switch: the source goes off, the target on, and the row moves to [OBSERVING]. *)
Lemma swap_profiles_inv t i off on now s a s' a' s'' row :
  ControlInv s → migration_row t i s = Some row → is_open (mg_state row) = true →
  set_profile_active t off false now s = (Ok a, s') →
  set_profile_active t on true now s' = (Ok a', s'') →
  profile_exists (cd_profiles s) t on →
  ControlInvBut (keyed t i) s'' ∧ cd_migrations s'' = cd_migrations s ∧
  profile_is_active (cd_profiles s'') t on.
Proof.
  intros Hinv Hrow Ho Hoff Hon Hex.
  destruct (migration_row_spec _ _ _ _ Hrow) as (Hin & Ht & Hi).
  assert (∀ r, r ∈ cd_migrations s → mg_tenant_id r = t → is_open (mg_state r) = true → keyed t i r) as Hk.
  { intros r Hr Hrt Hro. assert (r = row) as ->; [|done].
    eapply migrations_open; [apply Hinv|done|done|done|done|congruence]. }
  destruct (set_profile_active_inv (keyed t i) _ _ _ _ _ _ _ (inv_but s (keyed t i) Hinv) Hk Hoff)
    as (Hinv' & Hm' & _).
  assert (profile_exists (cd_profiles s') t on) as Hex'.
  { unfold set_profile_active in Hoff. run_inv. apply write_profiles_Ok in Hoff as [_ ->]. simpl.
    destruct Hex as (q & Hq & Hqt & Hqi). eexists. split; [apply list_elem_of_fmap; by exists q|].
    by case_decide. }
  destruct (set_profile_active_inv (keyed t i) t on true now s' a' s'' Hinv') as (Hinv'' & Hm'' & Hact);
    [by rewrite Hm'|done|]. rewrite Hm'', Hm'. split_and!; [done|done|by apply Hact].
Qed.

Lemma advance_migration_preserves fault now p t i choice :
  preserves ControlInv (advance_migration sha256_hex dumps uuid_at fault now p t i choice).
Proof.
  apply guarded_transaction; [by eexists|]. apply keeps_intro. intros s u s' Hinv Hrun.
  cbv zeta in Hrun. run_inv. fetched. decided Happ. destruct choice; run_inv; advanced.
  - match goal with H1 : set_profile_active _ _ false _ _ = _, H2 : set_profile_active _ _ true _ _ = _ |- _ =>
      eapply swap_profiles_inv in H2 as (Hinv' & Hm & Hact); [|exact Hinv|exact Hrow| |exact H1|] end.
    2: { destruct (mg_state row); simpl in *; by simplify_eq. }
    2: { rewrite <- Ht. by eapply ci_target. }
    eapply update_then_audit; [exact Hinv'| |eassumption..|done| |].
    + unfold migration_row in *. by rewrite Hm.
    + eapply state_step_ok; [done|done|done|done|]. destruct (mg_state row); simpl in *; by simplify_eq.
    + intros _. simpl. unfold expected_active. simpl.
      destruct (mg_state row); simpl in *; simplify_eq. simpl. exact Hact.
  - eapply update_then_audit; [by apply inv_but|eassumption..|done| |].
    + eapply state_step_ok; [done|done|done|done|]. destruct (mg_state row); simpl in *; by simplify_eq.
    + by eapply agrees_transition.
Qed.

Lemma rollback_migration_preserves fault now p t i :
  preserves ControlInv (rollback_migration sha256_hex dumps uuid_at fault now p t i).
Proof.
  apply guarded_transaction; [by eexists|]. apply keeps_intro. intros s u s' Hinv Hrun. run_inv.
  fetched. decided Happ. advanced.
  eapply update_then_audit; [by apply inv_but|eassumption..|done| |].
  - rewrite <- (row_evidence_same row). eapply state_step_ok; try done.
    apply (rk_started _ Hok); destruct (mg_state row); simpl in *; by simplify_eq.
  - by eapply agrees_transition.
Qed.

Lemma row_rollback_ok row st req appr at_ now :
  row_ok row → mg_state row = OBSERVING →
  let asked := match req with Some q => Some q | None => mg_rollback_requested_by row end in
  (st = APPROVAL_PENDING → is_Some asked) → (st = APPROVAL_APPROVED → second_person asked appr) →
  row_ok (row_rollback st req appr at_ now row).
Proof.
  intros [K1 K2 K3 K4 K5 K6 K7 K8] Hobs asked Hp Ha. split; simpl; try done. by rewrite Hobs.
Qed.

Lemma decide_rollback_approval_preserves fault now p t i d :
  preserves ControlInv (decide_rollback_approval sha256_hex dumps uuid_at fault now p t i d).
Proof.
  apply guarded_transaction; [by eexists|]. apply keeps_intro. intros s u s' Hinv Hrun.
  cbv zeta in Hrun. run_inv. fetched. decided Hobs.
  destruct d; run_inv; (eapply update_then_audit; [by apply inv_but|eassumption..|done| |exact Hag]);
    apply row_rollback_ok; try done; try (intros _; by eexists).
  match goal with Hn : negb (negb _ || _) = true |- _ =>
    apply negb_true_iff, orb_false_iff in Hn as [Hpend%negb_false_iff%bool_decide_eq_true
      Hself%bool_decide_eq_false] end.
  intros _. destruct (rk_rollback_asked _ Hok Hpend) as [q Hq]. rewrite Hq in *.
  eexists _, _. split_and!; [done|done|]. congruence.
Qed.

(** ** Creating migrations and profiles *)
Lemma active_row_spec t s r :
  active_row t s = Some r → r ∈ cd_profiles s ∧ pf_tenant_id r = t ∧ pf_active r = true.
Proof.
  intros Hh%head_filter_Some. tauto.
Qed.
Lemma profile_row_spec t i s r :
  profile_row t i s = Some r → r ∈ cd_profiles s ∧ pf_tenant_id r = t ∧ pf_id r = i.
Proof.
  intros Hh%head_filter_Some. tauto.
Qed.

Lemma create_migration_preserves fault now p t target obs i :
  preserves ControlInv (create_migration sha256_hex dumps uuid_at fault now p t target obs i).
Proof.
  apply maintains_bind; [by apply maintains_ensure|]. intros _.
  apply guarded_transaction; [by eexists|]. apply keeps_intro. intros s u s' Hinv Hrun.
  cbv zeta in Hrun. run_inv.
  match goal with Hw : write_migrations _ _ = _ |- _ => apply write_migrations_Ok in Hw as [Hm' ->] end.
  eapply on_admin_keeps; [eassumption|].
  match goal with Hs : active_row _ _ = Some ?r |- _ =>
    apply active_row_spec in Hs as (Hsin & Hst & Hsa) end.
  match goal with Ht : profile_row _ _ _ = Some ?r |- _ =>
    apply profile_row_spec in Ht as (Htin & Htt & Hti) end.
  match goal with Hn : negb (_ || _) = true |- _ =>
    apply negb_true_iff, orb_false_iff in Hn as [Hne%bool_decide_eq_false _] end.
  destruct Hinv as [Hp Hm Hrows Hsrc Htgt Hag].
  split; simpl; [done|done|..]; intros r [Hr| ->%list_elem_of_singleton]%elem_of_app; auto.
  - split; simpl; done.
  - simpl. eexists. by split_and!; [exact Hsin|..].
  - simpl. eexists. by split_and!; [exact Htin|..].
  - right. intros _. simpl. eexists. by split_and!; [exact Hsin|..].
Qed.

Lemma claim_resource_preserves t res : preserves ControlInv (claim_resource sha256_hex t res).
Proof.
  unfold claim_resource. preserve; apply maintains_modify; intros; by apply inv_claims.
Qed.

(** A new profile leaves the active one alone. *)
Lemma insert_profile_inv row s a s' :
  ControlInv s → write_profiles (cd_profiles s ++ [row]) s = (Ok a, s') → ControlInv s'.
Proof.
  intros [Hp Hm Hrows Hsrc Htgt Hag] [Hp' ->]%write_profiles_Ok.
  assert (∀ t i, profile_exists (cd_profiles s) t i → profile_exists (cd_profiles s ++ [row]) t i) as Hex.
  { intros t i (q & Hq & ?). exists q. split; [apply elem_of_app; by left|done]. }
  split; simpl; auto. intros r Hr. right. destruct (Hag r Hr) as [[]|Hagr]. intros Ho.
  destruct (Hagr Ho) as (q & Hq & ?). exists q. split; [apply elem_of_app; by left|done].
Qed.

Lemma create_profile_preserves fault now p t c key i :
  preserves ControlInv (create_profile sha256_hex dumps uuid_at fault now p t c key i).
Proof.
  unfold create_profile. apply maintains_bind; [apply on_admin_preserves|]. intros _.
  apply maintains_bind; [unfold validate_profile, http; by preserve|]. intros _.
  apply preserves_try_catch; [|intros e; destruct e as [[]|]; unfold http; by preserve].
  apply preserves_transaction, keeps_intro. intros s r s' Hinv Hrun. unfold create_profile_body in Hrun.
  cbv zeta in Hrun. apply bind_Ok in Hrun as (replayed & s1 & Hr & Hrun).
  eapply on_admin_keeps in Hr; [|exact Hinv]. destruct replayed; run_inv; [done|].
  match goal with Hc : claim_dedicated_resources _ _ _ _ = (Ok _, ?s2) |- _ =>
    assert (ControlInv s2) as Hinv2 end.
  { eapply preserves_result; [eassumption| |exact Hr]. apply maintains_for_each. intros res _.
    apply claim_resource_preserves. }
  eapply on_admin_keeps; [eassumption|]. eapply on_admin_keeps; [eassumption|].
  by eapply insert_profile_inv.
Qed.
End Preservation.

(** ** The worker *)
Section WorkerPreservation.
  Context {A : Type} `{OnlineMigrationAdapter A}.
  Context (adapters : string → uuid → uuid → list (nat * nat)) (digest : bytes → string).
  Context (sha256_hex : string → string) (dumps : json → string) (uuid_at : nat → uuid).
  Implicit Types w : @World A.

Lemma on_db_Ok {X} (m : CTL X) w x w' :
  on_db m w = (Ok x, w') → m w.1 = (Ok x, w'.1) ∧ w'.2 = w.2.
Proof. unfold on_db. destruct (m w.1) as [r s']. simpl. intros. by simplify_eq. Qed.
Lemma on_db_Raise {X} (m : CTL X) w e w' :
  on_db m w = (Raise e, w') → m w.1 = (Raise e, w'.1).
Proof. unfold on_db. destruct (m w.1) as [r s']. simpl. intros. by simplify_eq. Qed.
Lemma on_adapters_db {X} (m : ST (nat → A) ExecutorError X) w r w' :
  on_adapters m w = (r, w') → w'.1 = w.1.
Proof. unfold on_adapters. destruct (m w.2) as [[x|e] a]; intros; by simplify_eq. Qed.

(** The worker advances the row it was given. *)
Lemma worker_advance_inv now t row op action ev s a s' :
  op ≠ FAIL_MIGRATION → op ≠ SWITCH → op ≠ START_BACKFILL → op ≠ START_ROLLBACK →
  ControlInvBut (keyed t (mg_id row)) s → migration_row t (mg_id row) s = Some row → row_ok row →
  (∀ e, ev = Some e → is_valid e = true) → (op = VALIDATE → is_Some ev) →
  (∀ st ends, transitions (mg_state row) op = Some st →
    agrees (cd_profiles s) (row_state st now (row_evidence ev ends row))) →
  worker_advance sha256_hex dumps uuid_at now t row op action ev s = (Ok a, s') → ControlInv s'.
Proof.
  intros N1 N2 N3 N4 Hinv Hrow Hok Hev Hval Hag Hrun. unfold worker_advance in Hrun. cbv zeta in Hrun.
  run_inv. match goal with Hm : match machine_advance ?r ?o ?v with _ => _ end _ = _ |- _ =>
    destruct (machine_advance r o v) as [st|] eqn:Hadv; run_inv end.
  apply machine_advance_Ok in Hadv as [Htr _]; [|done].
  eapply update_then_audit; [exact Hinv|exact Hrow|eassumption..|done| |by apply Hag].
  destruct Hok as [K1 K2 K3 K4 K5 K6 K7 K8].
  assert (mg_approval_status row = APPROVAL_APPROVED) as Happ.
  { apply K3; destruct (mg_state row), op; simpl in *; by simplify_eq. }
  split; simpl; try done.
  - congruence.
  - intros Hp. destruct ev as [e|]; [by eauto|]. apply K5.
    destruct (mg_state row), op; simpl in *; simplify_eq; try done. by destruct (Hval eq_refl).
  - intros Hr. apply K6. destruct (mg_state row), op; simpl in *; by simplify_eq.
Qed.

Lemma upsert_checkpoint_Ok t i f r s a s' :
  upsert_checkpoint t i f r s = (Ok a, s') → ∃ m, s' = set_cd_checkpoints m s.
Proof. unfold upsert_checkpoint. intros Hu. cbv zeta in Hu. run_inv. by eexists. Qed.

(** A phase that only copies data: the checkpoint, then the transition. *)
Lemma copy_phase_inv now t row op action f r s a s1 b s2 :
  op ∈ [BACKFILL_COMPLETE; CATCH_UP_COMPLETE; ROLLBACK_BACKFILL_COMPLETE; ROLLBACK_CATCH_UP_COMPLETE] →
  ControlInv s → migration_row t (mg_id row) s = Some row →
  upsert_checkpoint t (mg_id row) f r s = (Ok a, s1) →
  worker_advance sha256_hex dumps uuid_at now t row op action None s1 = (Ok b, s2) → ControlInv s2.
Proof.
  intros Hop Hinv Hrow [m ->]%upsert_checkpoint_Ok Hadv.
  destruct (migration_row_spec _ _ _ _ Hrow) as (Hin & Ht & _).
  assert (op ≠ FAIL_MIGRATION ∧ op ≠ SWITCH ∧ op ≠ START_BACKFILL ∧ op ≠ START_ROLLBACK ∧ op ≠ VALIDATE)
    as (N1 & N2 & N3 & N4 & N5).
  { repeat (apply elem_of_cons in Hop as [->|Hop]; [done|]). by apply not_elem_of_nil in Hop. }
  eapply worker_advance_inv in Hadv; try done.
  - by apply inv_checkpoints, inv_but.
  - by eapply ci_rows.
  - intros st ends Htr. simpl. eapply agrees_transition; [by eapply inv_agrees|done..].
Qed.

Lemma execute_phase_inv now t row w a w' :
  ControlInv w.1 → migration_row t (mg_id row) w.1 = Some row →
  execute_phase adapters digest sha256_hex dumps uuid_at now t row w = (Ok a, w') → ControlInv w'.1.
Proof.
  intros Hinv Hrow Hrun. unfold execute_phase in Hrun. cbv zeta in Hrun.
  destruct (migration_row_spec _ _ _ _ Hrow) as (Hin & Ht & _).
  pose proof (inv_agrees _ _ Hinv Hin) as Hag. pose proof (ci_rows _ _ Hinv row Hin) as Hok.
  apply bind_Ok in Hrun as (ck & w1 & Hck & Hrun). apply on_db_Ok in Hck as [Hck _].
  apply gets_Ok in Hck as [_ Hw1]. rewrite <- Hw1 in Hinv, Hrow, Hin, Hag. clear Hw1 w.
  destruct (mg_state row) eqn:Hst; run_inv;
    repeat match goal with
    | Hx : on_adapters _ _ = (Ok _, ?w2) |- _ =>
        apply on_adapters_db in Hx; rewrite <- Hx in Hinv, Hrow, Hin, Hag; clear Hx
    | Hx : on_db _ _ = (Ok _, _) |- _ => apply on_db_Ok in Hx as [Hx _]
    end; try by (eapply copy_phase_inv; [|exact Hinv|exact Hrow|eassumption..]; set_solver).
  - (* VALIDATING *)
    eapply worker_advance_inv in Hrun; try done; [by apply inv_but|by intros ? [= ->]|].
    intros st ends Htr. eapply agrees_transition; [exact Hag|done..].
  - (* ROLLBACK_VALIDATING *)
    unfold finish_rollback in Hrun. run_inv.
    match goal with H1 : set_profile_active _ _ false _ _ = _, H2 : set_profile_active _ _ true _ _ = _ |- _ =>
      eapply swap_profiles_inv in H2 as (Hinv' & Hm & Hact);
        [|exact Hinv|exact Hrow|by rewrite Hst|exact H1|] end.
    2: { rewrite <- Ht. by eapply ci_source. }
    eapply worker_advance_inv in Hrun; try done.
    + unfold migration_row in *. by rewrite Hm.
    + by intros ? [= ->].
    + intros st ends Htr. rewrite Hst in Htr. simplify_eq/=. by intros ?.
Qed.

(** The worker's own transitions never fail: a migration error comes from the
    executor or from missing evidence, before anything was written. *)
Lemma worker_advance_error now t row op action ev s c s' :
  row_ok row → op ≠ FAIL_MIGRATION → is_Some (transitions (mg_state row) op) →
  (op = VALIDATE → ∃ e, ev = Some e ∧ is_valid e = true) →
  worker_advance sha256_hex dumps uuid_at now t row op action ev s ≠ (Raise (Executor c), s').
Proof.
  intros Hok Hf [st Htr] Hv Hrun. unfold worker_advance in Hrun. cbv zeta in Hrun.
  erewrite machine_advance_run in Hrun; [|apply Hok|done|exact Htr|].
  2: { intros ->. rewrite bool_decide_true by set_solver. by apply Hv. }
  apply bind_Raise in Hrun as [Hrun|(x & s1 & Hx & Hrun)]; [done|]. run_inv.
  apply bind_Raise in Hrun as [Hrun|(u & s2 & _ & Hrun)].
  - unfold update_migration, write_migrations in Hrun.
    unfold mbind, ST_mbind, get, gets, ensure, modify, get_or_raise, raise, mret, ST_mret in Hrun.
    repeat case_match; simplify_eq.
  - unfold audit_migration, on_admin in Hrun. repeat case_match; simplify_eq.
Qed.

Lemma set_profile_active_error t i b now s c s' :
  set_profile_active t i b now s ≠ (Raise (Executor c), s').
Proof.
  unfold set_profile_active, write_profiles, mbind, ST_mbind, get, ensure, modify, raise, mret, ST_mret.
  intros Hrun. destruct (profiles_ok _); simplify_eq.
Qed.

Lemma execute_phase_error now t row w c w' :
  row_ok row →
  execute_phase adapters digest sha256_hex dumps uuid_at now t row w
    = (Raise (Executor (MigrationError c)), w') → w'.1 = w.1.
Proof.
  intros Hok Hrun. unfold execute_phase in Hrun. cbv zeta in Hrun.
  apply bind_Raise in Hrun as [Hrun|(ck & w1 & Hck & Hrun)]; [by apply on_db_Raise in Hrun|].
  apply on_db_Ok in Hck as [[_ Hck]%gets_Ok _]. rewrite <- Hck. clear Hck w.
  assert (∀ (m : ST (nat → A) ExecutorError (gmap nat Z)) op action f r w0,
    op ≠ FAIL_MIGRATION → op ≠ VALIDATE → is_Some (transitions (mg_state row) op) →
    (watermarks ← on_adapters m;
     _ ← on_db (upsert_checkpoint t (mg_id row) (f watermarks) (r watermarks));
     on_db (worker_advance sha256_hex dumps uuid_at now t row op action None)) w0
      = (Raise (Executor (MigrationError c)), w') → w'.1 = w0.1) as Hcopy.
  { intros m op action f r w0 N1 N2 Htr Hr.
    apply bind_Raise in Hr as [Hr|(wm & w2 & _ & Hr)]; [by apply on_adapters_db in Hr|exfalso].
    apply bind_Raise in Hr as [Hr|(u & w3 & _ & Hr)].
    - by apply on_db_Raise in Hr.
    - apply on_db_Raise in Hr. by eapply worker_advance_error in Hr. }
  destruct (mg_state row) eqn:Hst.
  2: { eapply Hcopy; [| | |exact Hrun]; done. }
  all: apply bind_Raise in Hrun as [Hrun|(ck' & w2 & Hck & Hrun)];
    [unfold get_or_raise, raise, mret, ST_mret in Hrun; case_match; by simplify_eq|run_inv].
  all: try done.
  all: try by (eapply Hcopy; [| | |exact Hrun]; done).
  all: apply bind_Raise in Hrun as [Hrun|(e & w3 & Hv & Hrun)]; [by apply on_adapters_db in Hrun|];
    apply on_adapters_db in Hv; rewrite <- Hv;
    apply bind_Raise in Hrun as [Hrun|(u & w4 & Hu & Hrun)];
      [unfold ensure, raise, mret, ST_mret in Hrun; case_match; by simplify_eq|]; run_inv; exfalso;
    apply on_db_Raise in Hrun.
  - eapply worker_advance_error in Hrun; [done..|by rewrite Hst|by eauto].
  - unfold finish_rollback in Hrun.
    apply bind_Raise in Hrun as [Hrun|(u1 & s1 & _ & Hrun)];
      [|apply bind_Raise in Hrun as [Hrun|(u2 & s2 & _ & Hrun)]].
    + by apply set_profile_active_error in Hrun.
    + by apply set_profile_active_error in Hrun.
    + eapply worker_advance_error in Hrun; [done..|by rewrite Hst|done].
Qed.

Lemma record_failure_inv now t row c s a s' :
  ControlInv s → migration_row t (mg_id row) s = Some row → worker_state (mg_state row) = true →
  record_failure sha256_hex dumps uuid_at now t row c s = (Ok a, s') → ControlInv s'.
Proof.
  intros Hinv Hrow Hw Hrun. unfold record_failure in Hrun.
  destruct (migration_row_spec _ _ _ _ Hrow) as (Hin & Ht & _).
  apply bind_Ok in Hrun as (o & s1 & Ho & Hrun). eapply on_admin_keeps; [exact Hrun|].
  destruct (ci_rows _ _ Hinv row Hin) as [K1 K2 K3 K4 K5 K6 K7 K8].
  destruct (mg_state row) eqn:Hst; try done; run_inv; try done.
  all: match goal with Hu : update_migration _ _ _ _ = _ |- _ =>
    eapply update_migration_inv in Hu as (? & _); [done|by apply inv_but|exact Hrow|done| |done] end.
  all: split; simpl; try done; intros Hp; by specialize (K2 Hp).
Qed.

Lemma next_row_spec t s row :
  next_row t s = Some row →
  row ∈ cd_migrations s ∧ mg_tenant_id row = t ∧ worker_state (mg_state row) = true.
Proof.
  unfold next_row. intros Hh%head_Some_elem_of. rewrite sort_on_perm in Hh.
  apply list_elem_of_filter in Hh as [[]]. done.
Qed.

Lemma run_once_preserves fault now t :
  preserves (λ w : World, ControlInv w.1)
    (run_once adapters digest sha256_hex dumps uuid_at fault now t).
Proof.
  intros w Hinv. unfold run_once, db_transaction.
  match goal with |- context [match ?m w with _ => _ end] => destruct (m w) as [[b|e] w'] eqn:Hm end;
    [|done].
  assert (ControlInv w'.1) as Hinv'; [|by destruct fault].
  apply bind_Ok in Hm as (row & w1 & Hr & Hm). apply on_db_Ok in Hr as [[Hr Hw1]%gets_Ok _].
  rewrite <- Hw1 in Hinv, Hr. clear Hw1. destruct row as [row|]; run_inv; [|done].
  symmetry in Hr. apply next_row_spec in Hr as (Hin & Ht & Hws).
  assert (migration_row t (mg_id row) w1.1 = Some row) as Hrow.
  { eapply migration_row_found; [apply Hinv|done..]. }
  match goal with Ht : try_catch _ _ _ = (Ok ?u, _) |- _ => rename Ht into Hrun end.
  unfold try_catch in Hrun.
  destruct (execute_phase _ _ _ _ _ _ _ _ _) as [[u|e] w2] eqn:He in Hrun; simplify_eq.
  - by eapply execute_phase_inv.
  - destruct e as [|[c|]]; [done| |done]. apply on_db_Ok in Hrun as [Hrun _].
    assert (w2.1 = w1.1) as Hsame by (eapply execute_phase_error; [by eapply ci_rows|exact He]).
    rewrite Hsame in Hrun. by eapply record_failure_inv.
Qed.
End WorkerPreservation.
