(* ===== verification/MigrationTheorems.v ===== *)
(** * What storage migration guarantees

    The data plane: backfill and catch-up reproduce the source whatever is written
    meanwhile, and valid evidence means equal contents.  The control plane: every
    reachable database is governed by the invariant of [ControlFacts], workers
    resolve the profile the state machine names.  And what the code does not
    guarantee: writes after validation, and isolation while no profile resolves. *)

From S2P Require Import Prelude PyNum PyDict Uuids ExecutionBus AuditChain ToolRegistry Storage StorageFacts StorageMigration MigrationFacts AdminAccess StorageControl ControlFacts.
Open Scope string_scope.
Open Scope list_scope.
Open Scope Z_scope.

(** ** A tenant that migrates

    A concrete deployment, run by computation: two profiles, one adapter each, and
    the requests that take the tenant from the first profile to the second.  The
    theorems on migrations are applied to these states. *)

(** Stand-ins for the hash and the printer: they need not be injective here. *)
Definition demo_sha (s : string) : string := s.
Definition demo_dumps (_ : json) : string := "".
Definition demo_digest (b : bytes) : string := String.string_of_list_byte b.
Definition demo_ids (n : nat) : uuid := Z.of_nat n + 100.

Definition demo_tenant : uuid := 7.
Definition tenant_text : string := uuid_text demo_tenant.
Definition alice : AdminPrincipal :=
  {| ap_subject := "alice"; ap_auth_method := "emergency"; ap_roles := ["PLATFORM_ADMIN"] |}.
Definition bob : AdminPrincipal :=
  {| ap_subject := "bob"; ap_auth_method := "emergency"; ap_roles := ["PLATFORM_ADMIN"] |}.

(** The source is adapter 0, the target adapter 1. *)
Definition demo_adapters (_ : string) (source target : uuid) : list (nat * nat) :=
  if bool_decide (source = 1) then [(0, 1)]%nat else [(1, 0)]%nat.

Definition demo_backend (k : AdapterKind) : StorageBackend :=
  {| sb_kind := k; sb_endpoint := "https://store"; sb_dedicated := false;
     sb_secret_ref := "vault://tenant/" +:+ tenant_text +:+ "/store#1" |}.
Definition demo_profile (alias pool : string) (activate : bool) : StorageProfileCreate :=
  {| pc_alias := alias; pc_classification := INTERNAL; pc_worker_pool := pool;
     pc_encryption_key_ref := "vault://tenant/" +:+ tenant_text +:+ "/key#1";
     pc_backends := demo_backend <$> required_kinds; pc_activate := activate |}.

Definition demo_start : @World MemoryAdapter :=
  ({| cd_admin := {| ad_tenants := {[demo_tenant]}; ad_members := []; ad_idempotency := ∅;
        ad_audit := {| au_events := []; au_chain := ∅; au_outbox := []; au_manifests := [];
                       au_worm := []; au_next_id := 0 |} |};
      cd_profiles := []; cd_migrations := []; cd_checkpoints := ∅; cd_claims := ∅ |},
   λ _, new_MemoryAdapter).

(** The requests of the scenario. *)
Inductive demo_request :=
  | DProfile (i : uuid) (alias pool : string) (activate : bool)
  | DCreate (i : uuid)
  | DApprove (i : uuid)
  | DStart (i : uuid)
  | DWork
  | DSwitch (i : uuid)
  | DComplete (i : uuid)
  | DAskRollback (i : uuid)
  | DApproveRollback (i : uuid)
  | DRollback (i : uuid)
  | DPut (adapter : nat) (key : string) (value : bytes)
  | DErase (adapter : nat).

Definition demo_request_run (now : instant) (q : demo_request) (w : @World MemoryAdapter) :
    @World MemoryAdapter :=
  let t := demo_tenant in
  match q with
  | DProfile i alias pool activate =>
      ((create_profile demo_sha demo_dumps demo_ids NoFault now alice t
          (demo_profile alias pool activate) alias i w.1).2, w.2)
  | DCreate i => ((create_migration demo_sha demo_dumps demo_ids NoFault now alice t 2 60 i w.1).2, w.2)
  | DApprove i =>
      ((decide_migration_approval demo_sha demo_dumps demo_ids NoFault now bob t i true w.1).2, w.2)
  | DStart i => ((start_migration demo_sha demo_dumps demo_ids NoFault now bob t i w.1).2, w.2)
  | DWork => (run_once demo_adapters demo_digest demo_sha demo_dumps demo_ids NoFault now t w).2
  | DSwitch i =>
      ((advance_migration demo_sha demo_dumps demo_ids NoFault now bob t i AdvanceSwitch w.1).2, w.2)
  | DComplete i =>
      ((advance_migration demo_sha demo_dumps demo_ids NoFault now bob t i AdvanceComplete w.1).2, w.2)
  | DAskRollback i =>
      ((decide_rollback_approval demo_sha demo_dumps demo_ids NoFault now alice t i RollbackRequest w.1).2,
       w.2)
  | DApproveRollback i =>
      ((decide_rollback_approval demo_sha demo_dumps demo_ids NoFault now bob t i RollbackApprove w.1).2,
       w.2)
  | DRollback i => ((rollback_migration demo_sha demo_dumps demo_ids NoFault now bob t i w.1).2, w.2)
  | DPut r k v => (w.1, update r (memory_put tenant_text k v (w.2 r)) w.2)
  | DErase r => (w.1, update r (memory_erase_tenant tenant_text (w.2 r)).2 w.2)
  end.

(** Request [n] runs at second [n * 100]. *)
Fixpoint demo_run (now : instant) (requests : list demo_request) (w : @World MemoryAdapter) :
    @World MemoryAdapter :=
  match requests with
  | [] => w
  | q :: requests' => demo_run (now + seconds 100) requests' (demo_request_run now q w)
  end.

Definition to_validated : list demo_request :=
  [DProfile 1 "main" "shared-workers" true; DProfile 2 "next" "shared-workers" false;
   DPut 0 "a" [Byte.x01]; DCreate 10; DApprove 10; DStart 10; DWork;
   DPut 0 "b" [Byte.x02]; DWork; DWork].

Definition demo_at (requests : list demo_request) : @World MemoryAdapter :=
  demo_run 0 requests demo_start.

(** The migration reaches the switch: three runs of the worker after the start, with a
    write in between, leave it validated. *)
Example demo_validated :
  mg_state <$> cd_migrations (demo_at to_validated).1 = [READY_TO_SWITCH] ∧
  ma_objects ((demo_at to_validated).2 1%nat)
    = [((tenant_text, "a"), [Byte.x01]); ((tenant_text, "b"), [Byte.x02])].
Proof. vm_compute. split; reflexivity. Qed.

(** The whole way, to completion and, on another run, back. *)
Example demo_completed :
  mg_state <$> cd_migrations (demo_at (to_validated ++ [DSwitch 10; DComplete 10])).1 = [COMPLETED].
Proof. vm_compute. reflexivity. Qed.

Definition to_rolling_back : list demo_request :=
  to_validated ++ [DSwitch 10; DAskRollback 10; DApproveRollback 10; DRollback 10].

Example demo_rolled_back :
  mg_state <$> cd_migrations (demo_at (to_rolling_back ++ [DWork; DWork; DWork])).1 = [ROLLED_BACK].
Proof. vm_compute. reflexivity. Qed.

(** ** The data plane *)

(** Backfill and catch-up copy everything: over any lawful adapters, with targets that
    hold nothing of the tenant and are not sources, both phases return, and whatever
    clients do to the sources in between, after the catch-up every target holds exactly
    what its source holds for the tenant. *)
Theorem catch_up_copies_everything {A : Type} `{OnlineMigrationLaws A}
    (adapters : string → uuid → uuid → list (nat * nat)) t src dst (w : nat → A) :
  let pairs := adapters t src dst in
  pairs ≠ [] → separate pairs →
  (∀ s d, (s, d) ∈ pairs →
    adapter_ok (w s) ∧ adapter_ok (w d) ∧ of_tenant t (stored (w d)) = ∅) →
  ∃ watermarks w1, backfill adapters t src dst w = (Ok watermarks, w1) ∧
    ∀ w2 : nat → A,
      (∀ s d, (s, d) ∈ pairs → (∃ ops, w2 s = adapter_run ops (w1 s)) ∧ w2 d = w1 d) →
      ∃ watermarks' w3, catch_up adapters t src dst watermarks w2 = (Ok watermarks', w3) ∧
        ∀ s d, (s, d) ∈ pairs →
          w3 s = w2 s ∧ ∀ k, stored (w3 d) !! (t, k) = stored (w2 s) !! (t, k).
Proof.
  intros pairs Hne Hsep Hw. unfold backfill, catch_up. fold pairs.
  destruct (backfill_pairs_run t 0 pairs ∅ w Hsep) as (wm & Hrun & Hdom & _ & Hwm).
  rewrite dom_empty_L, (left_id_L ∅ (∪)) in Hdom.
  eexists wm, _. split.
  { rewrite bool_decide_false by done. erewrite bind_run by done. exact Hrun. }
  intros w2 Hw2.
  assert (size wm = length pairs) as Hsize.
  { rewrite <- (size_dom (D := gset nat)), Hdom. apply size_set_seq. }
  destruct (catch_up_pairs_run t wm 0 pairs ∅ w2) as [wm' Hcu].
  { intros j Hj. destruct (pairs !! j) as [[s d]|] eqn:Hp; [|by apply lookup_ge_None in Hp; lia].
    rewrite (Hwm j s d Hp). by eexists. }
  eexists wm', _. split.
  { rewrite Hsize, Nat.eqb_refl. erewrite bind_run by done. exact Hcu. }
  intros s d Hin. pose proof Hin as [j Hj]%list_elem_of_lookup.
  destruct (pair_elems _ _ _ _ Hj) as [Hs Hd]. destruct Hsep as [Hnd Hdis].
  destruct (Hw s d Hin) as (Hsok & Hdok & Hempty). destruct (Hw2 s d Hin) as [[ops Hops] Hd2].
  rewrite (copy_pairs_other _ _ _ _ s) in Hops by (by apply Hdis).
  rewrite (copy_pairs_target _ _ _ _ j s d) in Hd2 by done.
  rewrite (copy_pairs_other _ _ _ _ s) by (by apply Hdis).
  rewrite (copy_pairs_target _ _ _ _ j s d) by done. split; [done|]. intros k.
  rewrite (Hwm j s d Hj). simpl. rewrite Hops, Hd2.
  destruct (backfilled_stored t (w s) (w d) k Hsok Hdok) as [Hbok Hb].
  apply caught_up_stored; [done|done|]. rewrite Hb.
  rewrite of_tenant_empty in Hempty. rewrite Hempty. by destruct (stored (w s) !! (t, k)).
Qed.

(** One pair of adapters: the source has an object, the target is new. *)
Definition one_pair (_ : string) (_ _ : uuid) : list (nat * nat) := [(0, 1)]%nat.
Definition source_and_target (r : nat) : MemoryAdapter :=
  match r with O => memory_put "t" "k" [Byte.x01] new_MemoryAdapter | _ => new_MemoryAdapter end.

Lemma one_pair_separate : separate [(0, 1)]%nat.
Proof. split; [apply NoDup_singleton|]. simpl. intros r ->%list_elem_of_singleton. set_solver. Qed.

Lemma memory_run_ok ops (a : MemoryAdapter) : memory_ok a → memory_ok (adapter_run ops a).
Proof. exact (adapter_run_ok ops a). Qed.

Lemma new_adapter_ok : adapter_ok new_MemoryAdapter.
Proof. split; simpl; [apply NoDup_nil_2|set_solver]. Qed.

Lemma catch_up_copies_everything_witness :
  ∃ watermarks w1, backfill one_pair "t" 1 2 source_and_target = (Ok watermarks, w1) ∧
    ∀ w2 : nat → MemoryAdapter,
      (∀ s d, (s, d) ∈ [(0, 1)]%nat → (∃ ops, w2 s = adapter_run ops (w1 s)) ∧ w2 d = w1 d) →
      ∃ watermarks' w3, catch_up one_pair "t" 1 2 watermarks w2 = (Ok watermarks', w3) ∧
        ∀ s d, (s, d) ∈ [(0, 1)]%nat →
          w3 s = w2 s ∧ ∀ k, stored (w3 d) !! ("t", k) = stored (w2 s) !! ("t", k).
Proof.
  apply (catch_up_copies_everything one_pair "t" 1 2 source_and_target); [done|apply one_pair_separate|].
  intros s d Hin. apply list_elem_of_singleton in Hin as [= -> ->]. split_and!.
  - apply (memory_run_ok [OpPut "t" "k" [Byte.x01]]), new_adapter_ok.
  - apply new_adapter_ok.
  - apply of_tenant_empty. intros k. apply lookup_empty.
Defined.

(** Valid evidence means equal contents: when every key and value is free of NUL bytes
    and digests are 64 characters long, a validation that passes shows that each target
    holds exactly its source's objects for the tenant, or exhibits a SHA-256 collision. *)
Theorem valid_evidence_means_equal adapters (sha256_hex : bytes → string) t src dst
    (w : nat → MemoryAdapter) e w' :
  (∀ x, String.length (sha256_hex x) = 64%nat) →
  (∀ s d, (s, d) ∈ adapters t src dst →
    memory_ok (w s) ∧ memory_ok (w d) ∧ tenant_plain t (w s) ∧ tenant_plain t (w d)) →
  validate adapters sha256_hex t src dst w = (Ok e, w') → is_valid e = true →
  (∀ s d, (s, d) ∈ adapters t src dst → same_tenant t (w s) (w d)) ∨
  ∃ x y, x ≠ y ∧ sha256_hex x = sha256_hex y.
Proof.
  intros Hlen Hok Hv He. unfold validate in Hv. cbv zeta in Hv. run_inv.
  by eapply valid_evidence_equal.
Qed.

Definition constant_sha (_ : bytes) : string :=
  "0000000000000000000000000000000000000000000000000000000000000000".
Definition two_empty (_ : nat) : MemoryAdapter := new_MemoryAdapter.

Lemma valid_evidence_means_equal_witness :
  (∀ s d, (s, d) ∈ one_pair "t" 1 2 → same_tenant "t" (two_empty s) (two_empty d)) ∨
  ∃ x y, x ≠ y ∧ constant_sha x = constant_sha y.
Proof.
  apply (valid_evidence_means_equal one_pair constant_sha "t" 1 2 two_empty
    (evidence_of constant_sha (pair_evidence constant_sha "t" two_empty <$> [(0, 1)%nat])) two_empty).
  - reflexivity.
  - intros s d _. split_and!; [apply new_adapter_ok|apply new_adapter_ok|constructor|constructor].
  - reflexivity.
  - vm_compute. reflexivity.
Defined.

(** Once caught up, a pair passes: equal contents give valid evidence, so validation does
    not reject a finished copy, in whatever order the objects were written. *)
Theorem equal_contents_validate adapters (sha256_hex : bytes → string) t src dst
    (w : nat → MemoryAdapter) :
  adapters t src dst ≠ [] →
  (∀ s d, (s, d) ∈ adapters t src dst →
    memory_ok (w s) ∧ memory_ok (w d) ∧ same_tenant t (w s) (w d)) →
  ∃ e, validate adapters sha256_hex t src dst w = (Ok e, w) ∧ is_valid e = true.
Proof.
  intros Hne Hp. eexists. split.
  - unfold validate. rewrite bool_decide_false by done. erewrite bind_run by done.
    erewrite bind_run by done. done.
  - by apply evidence_valid.
Qed.

Lemma equal_contents_validate_witness :
  ∃ e, validate one_pair constant_sha "t" 1 2 two_empty = (Ok e, two_empty) ∧ is_valid e = true.
Proof.
  apply (equal_contents_validate one_pair constant_sha "t" 1 2 two_empty); [done|].
  intros s d _. split_and!; [apply new_adapter_ok|apply new_adapter_ok|done].
Defined.

(** ** The control plane *)
Section Control.
  Context {A : Type} `{OnlineMigrationAdapter A}.
  Context (adapters : string → uuid → uuid → list (nat * nat)) (digest : bytes → string).
  Context (sha : string → string) (dumps : json → string) (uuid_at : nat → uuid).

(** One step of the system: an endpoint with any arguments and any fate of its
    transactions, a run of the worker, or a change of the adapters by clients. *)
Inductive control_step : @World A → @World A → Prop :=
  | step_create_profile s w fault now p t c key i r s' :
      create_profile sha dumps uuid_at fault now p t c key i s = (r, s') → control_step (s, w) (s', w)
  | step_create_migration s w fault now p t target obs i r s' :
      create_migration sha dumps uuid_at fault now p t target obs i s = (r, s') →
      control_step (s, w) (s', w)
  | step_decide s w fault now p t i approve r s' :
      decide_migration_approval sha dumps uuid_at fault now p t i approve s = (r, s') →
      control_step (s, w) (s', w)
  | step_start s w fault now p t i r s' :
      start_migration sha dumps uuid_at fault now p t i s = (r, s') → control_step (s, w) (s', w)
  | step_advance s w fault now p t i choice r s' :
      advance_migration sha dumps uuid_at fault now p t i choice s = (r, s') →
      control_step (s, w) (s', w)
  | step_decide_rollback s w fault now p t i d r s' :
      decide_rollback_approval sha dumps uuid_at fault now p t i d s = (r, s') →
      control_step (s, w) (s', w)
  | step_rollback s w fault now p t i r s' :
      rollback_migration sha dumps uuid_at fault now p t i s = (r, s') → control_step (s, w) (s', w)
  | step_worker s w fault now t r s' w' :
      run_once adapters digest sha dumps uuid_at fault now t (s, w) = (r, (s', w')) →
      control_step (s, w) (s', w')
  | step_clients s w w' : control_step (s, w) (s, w').

Definition empty_control (tenants : gset uuid) (members : list MemberRole) : ControlDb :=
  {| cd_admin := {| ad_tenants := tenants; ad_members := members; ad_idempotency := ∅;
       ad_audit := {| au_events := []; au_chain := ∅; au_outbox := []; au_manifests := [];
                      au_worm := []; au_next_id := 0 |} |};
     cd_profiles := []; cd_migrations := []; cd_checkpoints := ∅; cd_claims := ∅ |}.

Definition control_reachable (s : ControlDb) : Prop :=
  ∃ tenants members w w', rtc control_step (empty_control tenants members, w) (s, w').

Lemma control_step_inv w w' : control_step w w' → ControlInv w.1 → ControlInv w'.1.
Proof.
  destruct 1; simpl; intros Hinv; try done;
    (eapply preserves_result; [eassumption| |exact Hinv]) || idtac;
    auto using create_profile_preserves, create_migration_preserves,
      decide_migration_approval_preserves, start_migration_preserves, advance_migration_preserves,
      decide_rollback_approval_preserves, rollback_migration_preserves.
  match goal with Hr : run_once _ _ _ _ _ _ _ _ _ = _ |- _ =>
    exact (preserves_result (λ w : World, ControlInv w.1) _ _ _ _ Hr
      (run_once_preserves adapters digest sha dumps uuid_at fault now t) Hinv) end.
Qed.

Lemma reachable_inv s : control_reachable s → ControlInv s.
Proof.
  intros (tenants & members & w & w' & Hrtc).
  assert (ControlInv (empty_control tenants members, w).1) as Hinit.
  { split; simpl; [by vm_compute|by vm_compute|set_solver..]. }
  change (ControlInv (s, w').1).
  induction Hrtc as [|x y z Hxy _ IH]; [done|]. apply IH. by eapply control_step_inv.
Qed.

(** C32: In every reachable database a tenant has at most one active profile and one open
    migration; the active profile is the source until the switch and the target from
    then until the rollback is complete; a migration that was started was approved by
    somebody else than its requester, so was a rollback, and no migration passes
    validation without valid evidence. *)
Theorem migrations_stay_governed s r :
  control_reachable s → r ∈ cd_migrations s →
  (is_open (mg_state r) = true →
    (∀ r', r' ∈ cd_migrations s → is_open (mg_state r') = true →
       mg_tenant_id r' = mg_tenant_id r → r' = r) ∧
    ∃ p, active_row (mg_tenant_id r) s = Some p ∧ pf_id p = expected_active r ∧
      ∀ p', p' ∈ cd_profiles s → pf_tenant_id p' = mg_tenant_id r → pf_active p' = true → p' = p) ∧
  (mg_state r ≠ PREPARED → mg_state r ≠ MIGRATION_FAILED →
    second_person (Some (mg_requested_by r)) (mg_approved_by r)) ∧
  (in_rollback (mg_state r) = true →
    second_person (mg_rollback_requested_by r) (mg_rollback_approved_by r)) ∧
  (past_validation (mg_state r) = true → ∃ e, mg_validation r = Some e ∧ is_valid e = true).
Proof.
  intros Hinv%reachable_inv Hr. pose proof (ci_rows _ _ Hinv r Hr) as Hok. split_and!.
  - intros Ho. split.
    { intros r' Hr' Ho' Ht. eapply migrations_open; [apply Hinv|done..]. }
    destruct (inv_agrees s r Hinv Hr Ho) as (p & Hp & Hpt & Hpi & Hpa).
    assert (∀ p', p' ∈ cd_profiles s → pf_tenant_id p' = mg_tenant_id r → pf_active p' = true → p' = p)
      as Huniq.
    { intros p' Hp' Hpt' Hpa'. eapply profiles_active; [apply Hinv|done|done|done|done|congruence]. }
    exists p. split_and!; [|done|done]. apply head_filter_only; [done|done|].
    intros q Hq [? ?]. by apply Huniq.
  - intros H1 H2. apply Hok, Hok; done.
  - intros Hrb. apply Hok, Hok, Hrb.
  - apply Hok.
Qed.

(** The rows that keep a profile from being resolved. *)
Definition blocks (p : ProfileRow) (m : MigrationRow) : bool :=
  bool_decide (mg_tenant_id m = pf_tenant_id p) && bool_decide (mg_target_profile_id m = pf_id p)
  && negb (bool_decide (mg_state m ∈ [OBSERVING; COMPLETED])).

Lemma blocks_spec p m : blocks p m = true ↔
  mg_tenant_id m = pf_tenant_id p ∧ mg_target_profile_id m = pf_id p ∧
  mg_state m ≠ OBSERVING ∧ mg_state m ≠ COMPLETED.
Proof.
  unfold blocks. rewrite !andb_true_iff, !bool_decide_eq_true, negb_true_iff, bool_decide_eq_false.
  rewrite !elem_of_cons, elem_of_nil. naive_solver.
Qed.

Lemma blocked_or_not s p :
  (∃ m, m ∈ cd_migrations s ∧ blocks p m = true) ∨
  (∀ m, m ∈ cd_migrations s → blocks p m = false).
Proof.
  destruct (existsb (blocks p) (cd_migrations s)) eqn:He.
  - left. apply existsb_exists in He as (m & Hm%list_elem_of_In & Hb). eauto.
  - right. intros m Hm. destruct (blocks p m) eqn:Hb; [|done].
    assert (existsb (blocks p) (cd_migrations s) = true) as Ht; [|congruence].
    apply existsb_exists. exists m. split; [by apply list_elem_of_In|done].
Qed.

Lemma resolves_spec s p :
  resolves s p = true ↔ pf_active p = true ∧ ∀ m, m ∈ cd_migrations s → blocks p m = false.
Proof.
  unfold resolves. fold (blocks p). rewrite andb_true_iff, negb_true_iff.
  change (pf_active p = true ∧ existsb (blocks p) (cd_migrations s) = false ↔
          pf_active p = true ∧ ∀ m, m ∈ cd_migrations s → blocks p m = false).
  f_equiv. destruct (blocked_or_not s p) as [(m & Hm & Hb)|Hn].
  - split; [|intros Hf; by rewrite (Hf m Hm) in Hb]. intros Hf.
    assert (existsb (blocks p) (cd_migrations s) = true) as Ht; [|congruence].
    apply existsb_exists. exists m. split; [by apply list_elem_of_In|done].
  - split; [done|]. intros _. destruct (existsb _ _) eqn:He; [|done].
    apply existsb_exists in He as (m & Hm%list_elem_of_In & Hb). by rewrite Hn in Hb.
Qed.

(** With one active profile [p], the resolver finds [p] or nothing. *)
Lemma resolve_row_only t s p :
  (∀ q, q ∈ cd_profiles s → pf_tenant_id q = t → pf_active q = true → q = p) →
  p ∈ cd_profiles s → pf_tenant_id p = t →
  resolve_row t s = if resolves s p then Some p else None.
Proof.
  intros Hu Hp Ht. assert (∀ q, q ∈ cd_profiles s → pf_tenant_id q = t ∧ resolves s q = true → q = p) as Hq.
  { intros q Hq [Hqt [Hqa _]%resolves_spec]. by apply Hu. }
  destruct (resolves s p) eqn:Hr; [by apply head_filter_only|].
  unfold resolve_row. rewrite filter_none; [done|]. intros q Hin HP.
  rewrite (Hq q Hin HP) in HP. destruct HP. congruence.
Qed.

(** Until the switch, and from it on outside of a rollback, workers resolve exactly the
    profile the state machine lets applications write, provided no earlier attempt
    towards that profile failed or was rolled back; while a rollback runs they resolve
    none. *)
Theorem resolver_follows_state_machine s r :
  control_reachable s → r ∈ cd_migrations s → is_open (mg_state r) = true →
  (∀ m, m ∈ cd_migrations s → mg_tenant_id m = mg_tenant_id r →
     mg_target_profile_id m = expected_active r →
     mg_state m ≠ MIGRATION_FAILED ∧ mg_state m ≠ ROLLED_BACK) →
  pf_id <$> resolve_row (mg_tenant_id r) s
    = business_write_profile_id {| sm_source_profile_id := mg_source_profile_id r;
        sm_target_profile_id := mg_target_profile_id r; sm_state := mg_state r |}.
Proof.
  intros Hinv%reachable_inv Hr Ho Hno.
  destruct (inv_agrees s r Hinv Hr Ho) as (p & Hp & Hpt & Hpi & Hpa).
  rewrite (resolve_row_only _ s p); [|intros q Hq Hqt Hqa; by eapply profiles_active; [apply Hinv|
    done..|congruence]|done|done].
  pose proof (rk_distinct _ (ci_rows _ _ Hinv r Hr)) as Hd.
  destruct (blocked_or_not s p) as [(m & Hm & Hb)|Hfree].
  - assert (resolves s p = false) as ->.
    { apply not_true_is_false. intros [_ Hn]%resolves_spec. by rewrite (Hn m Hm) in Hb. }
    apply blocks_spec in Hb as (Hmt & Hmg & Hm1 & Hm2).
    assert (is_open (mg_state m) = true) as Hmo.
    { destruct (Hno m Hm) as [? ?]; [congruence|congruence|]. by destruct (mg_state m). }
    assert (m = r) as -> by (eapply migrations_open; [apply Hinv|done|done|done|done|congruence]).
    unfold business_write_profile_id, expected_active in *. simpl.
    destruct (mg_state r); simpl in *; try done; congruence.
  - assert (resolves s p = true) as -> by by apply resolves_spec.
    simpl. rewrite Hpi. unfold business_write_profile_id, expected_active in *. simpl.
    specialize (Hfree r Hr). rewrite <- not_true_iff_false, blocks_spec in Hfree.
    destruct (mg_state r) eqn:Hst; simpl in *; try done; exfalso; apply Hfree; done.
Qed.
End Control.

(** ** The scenario is a run of the system *)
Abbreviation demo_step := (control_step demo_adapters demo_digest demo_sha demo_dumps demo_ids).
Abbreviation demo_reachable :=
  (control_reachable (A := MemoryAdapter) demo_adapters demo_digest demo_sha demo_dumps demo_ids).

Lemma demo_request_step now q w : demo_step w (demo_request_run now q w).
Proof.
  destruct w as [s a]. destruct q; simpl.
  - eapply step_create_profile. apply surjective_pairing.
  - eapply step_create_migration. apply surjective_pairing.
  - eapply step_decide. apply surjective_pairing.
  - eapply step_start. apply surjective_pairing.
  - destruct (run_once _ _ _ _ _ _ _ _ _) as [r [s' a']] eqn:Hr. by eapply step_worker.
  - eapply step_advance. apply surjective_pairing.
  - eapply step_advance. apply surjective_pairing.
  - eapply step_decide_rollback. apply surjective_pairing.
  - eapply step_decide_rollback. apply surjective_pairing.
  - eapply step_rollback. apply surjective_pairing.
  - apply step_clients.
  - apply step_clients.
Qed.

Lemma demo_run_steps now requests w : rtc demo_step w (demo_run now requests w).
Proof.
  revert now w. induction requests as [|q requests IH]; intros now w; simpl; [done|].
  eapply rtc_l; [apply demo_request_step|apply IH].
Qed.

Lemma demo_at_reachable requests : demo_reachable (demo_at requests).1.
Proof.
  exists {[demo_tenant]}, [], (λ _, new_MemoryAdapter), (demo_at requests).2.
  rewrite <- surjective_pairing. apply demo_run_steps.
Qed.

(** The row of migration [10] in a state of the scenario. *)
Definition demo_row (requests : list demo_request) : option MigrationRow :=
  migration_row demo_tenant 10 (demo_at requests).1.

Definition some_row : MigrationRow := default
  (Build_MigrationRow 0 0 0 0 PREPARED APPROVAL_NONE "" None None APPROVAL_NONE None None None None 0
     None 0 0 0) (demo_row to_rolling_back).

Lemma some_row_in : some_row ∈ cd_migrations (demo_at to_rolling_back).1.
Proof.
  apply (migration_row_spec demo_tenant 10). vm_compute. reflexivity.
Qed.

Lemma migrations_stay_governed_witness :
  second_person (Some "alice") (mg_approved_by some_row) ∧
  ∃ e, mg_validation some_row = Some e ∧ is_valid e = true.
Proof.
  destruct (migrations_stay_governed demo_adapters demo_digest demo_sha demo_dumps demo_ids
    (demo_at to_rolling_back).1 some_row (demo_at_reachable to_rolling_back) some_row_in)
    as (_ & Happ & _ & Hev).
  split; [apply Happ|apply Hev]; vm_compute; [discriminate|discriminate|reflexivity].
Defined.

Lemma resolver_follows_state_machine_witness :
  pf_id <$> resolve_row demo_tenant (demo_at to_rolling_back).1 = None.
Proof.
  assert (∀ m, m ∈ cd_migrations (demo_at to_rolling_back).1 → mg_state m = ROLLING_BACK) as Hall.
  { intros m Hm. apply Forall_forall with (x := m) (l := cd_migrations (demo_at to_rolling_back).1);
      [vm_compute; repeat constructor|done]. }
  change demo_tenant with (mg_tenant_id some_row).
  rewrite (resolver_follows_state_machine demo_adapters demo_digest demo_sha demo_dumps demo_ids
    (demo_at to_rolling_back).1 some_row (demo_at_reachable to_rolling_back) some_row_in).
  - vm_compute. reflexivity.
  - vm_compute. reflexivity.
  - intros m Hm _ _. rewrite (Hall m Hm). done.
Defined.

(** ** What is not guaranteed *)

(** A profile that is the target of any migration that is neither being observed nor
    completed resolves to nothing, and a worker that resolves nothing accepts the
    tenant's work whatever pool it belongs to: while a rollback runs, and for ever after
    a failed attempt towards the profile, the isolation of worker pools is off. *)
Theorem unresolved_profile_opens_pools t s p m :
  profiles_ok (cd_profiles s) = true →
  p ∈ cd_profiles s → pf_tenant_id p = t → pf_active p = true →
  m ∈ cd_migrations s → mg_tenant_id m = t → mg_target_profile_id m = pf_id p →
  mg_state m ≠ OBSERVING → mg_state m ≠ COMPLETED →
  ∀ worker_pool, worker_accepts worker_pool t s = true.
Proof.
  intros Hok Hp Ht Ha Hm Hmt Hmg H1 H2 pool. unfold worker_accepts, resolve.
  rewrite (resolve_row_only t s p); [|intros q Hq Hqt Hqa; by eapply profiles_active; [exact Hok|
    done..|congruence]|done|done].
  assert (resolves s p = false) as ->; [|done].
  apply not_true_is_false. intros [_ Hn]%resolves_spec. specialize (Hn m Hm).
  apply not_true_iff_false in Hn. apply Hn, blocks_spec. split_and!; congruence.
Qed.

(** A first attempt fails validation, because a write arrived after the catch-up; the
    second one succeeds. *)
Definition failed_then_completed : list demo_request :=
  [DProfile 1 "main" "acme-one" true; DProfile 2 "next" "acme-two" false;
   DPut 0 "a" [Byte.x01]; DCreate 10; DApprove 10; DStart 10; DWork; DWork;
   DPut 0 "b" [Byte.x02]; DWork;
   DCreate 11; DApprove 11; DStart 11; DWork; DWork; DWork; DSwitch 11; DComplete 11].

Definition retried : ControlDb := (demo_at failed_then_completed).1.
Definition failed_row : MigrationRow :=
  default some_row (migration_row demo_tenant 10 retried).
Definition active_now : ProfileRow := default
  (Build_ProfileRow 0 0 "" PUBLIC "" "" [] false 0 0 0) (active_row demo_tenant retried).

Lemma active_now_spec : active_row demo_tenant retried = Some active_now.
Proof. vm_compute. reflexivity. Qed.

Example retried_states :
  mg_state <$> cd_migrations retried = [MIGRATION_FAILED; COMPLETED] ∧
  pf_id active_now = 2 ∧ pf_worker_pool active_now = "acme-two".
Proof. vm_compute. split_and!; reflexivity. Qed.

Lemma unresolved_profile_opens_pools_witness :
  worker_accepts "somebody-else" demo_tenant retried = true.
Proof.
  destruct (active_row_spec demo_tenant retried active_now active_now_spec) as (Hin & Ht & Ha).
  apply (unresolved_profile_opens_pools demo_tenant retried active_now failed_row);
    [vm_compute; reflexivity|exact Hin|exact Ht|exact Ha| |vm_compute; reflexivity..|vm_compute; discriminate|
     vm_compute; discriminate].
  apply (migration_row_spec demo_tenant 10). vm_compute. reflexivity.
Defined.

(** A write acknowledged between validation and the switch stays behind: the switch
    neither stops writers nor catches up, and afterwards the tenant's profile resolves
    to a target without the object. *)
Theorem write_before_switch_is_left_behind :
  ∃ s w, rtc demo_step demo_start (s, w) ∧
    mg_state <$> cd_migrations s = [OBSERVING] ∧ pf_id <$> resolve_row demo_tenant s = Some 2 ∧
    stored (w 0%nat) !! (tenant_text, "late") = Some [Byte.x03] ∧
    stored (w 1%nat) !! (tenant_text, "late") = None.
Proof.
  set (w := demo_at (to_validated ++ [DPut 0 "late" [Byte.x03]; DSwitch 10])).
  exists w.1, w.2. rewrite <- surjective_pairing. split; [apply demo_run_steps|].
  vm_compute. split_and!; reflexivity.
Qed.

(** Objects erased on the target during the observation come back in no phase of the
    rollback, nor are they removed from the source, so its validation fails on every
    retry. *)
Example erasure_blocks_rollback :
  let w := demo_at (to_validated ++ [DSwitch 10; DErase 1; DAskRollback 10; DApproveRollback 10;
             DRollback 10; DWork; DWork; DWork; DWork]) in
  mg_state <$> cd_migrations w.1 = [ROLLBACK_VALIDATING] ∧
  stored (w.2 0%nat) !! (tenant_text, "a") = Some [Byte.x01].
Proof. vm_compute. split; reflexivity. Qed.
