(* ===== verification/ClaimTheorems.v ===== *)
(** * Dedicated resources and replayed commands

    Two guarantees of [create_profile]: no endpoint or worker pool declared
    dedicated by one tenant is ever declared by another, and a command repeated
    under its idempotency key answers what it answered first. *)

From S2P Require Import Prelude PyNum PyDict Uuids ExecutionBus ToolRegistry AuditChain AdminAccess Storage StorageMigration StorageControl ControlFacts MigrationTheorems.
Open Scope string_scope.
Open Scope list_scope.
Open Scope Z_scope.

(** The resources a stored profile declares dedicated. *)
Definition row_resources (r : ProfileRow) : list (string * string) :=
  ((λ b, (kind_value (sb_kind b), sb_endpoint b)) <$> filter (λ b, sb_dedicated b = true) (pf_backends r))
  ++ (if bool_decide (pf_worker_pool r = "shared-workers") then []
      else [("WORKER_POOL", pf_worker_pool r)]).

(** What a profile never changes. *)
Definition profile_identity (r : ProfileRow) : uuid * list (string * string) :=
  (pf_tenant_id r, row_resources r).
Definition identities (s : ControlDb) : list (uuid * list (string * string)) :=
  profile_identity <$> cd_profiles s.

(** ** Operations that neither claim nor add profiles *)
Definition unclaiming (ids : list (uuid * list (string * string))) (claims : gmap (string * string) uuid)
    (s : ControlDb) : Prop := identities s = ids ∧ cd_claims s = claims.

Section Frame.
  Context (ids : list (uuid * list (string * string))) (claims : gmap (string * string) uuid).
  Abbreviation J := (unclaiming ids claims).

Lemma on_admin_unclaiming {A} (m : ADM A) : preserves J (on_admin m).
Proof. intros s Hs. unfold on_admin. by destruct (m (cd_admin s)) as [[a|e] d]. Qed.
Lemma write_migrations_unclaiming l : preserves J (write_migrations l).
Proof. unfold write_migrations. preserve. by apply maintains_modify. Qed.
#[local] Hint Resolve on_admin_unclaiming write_migrations_unclaiming : platform.

Lemma set_profile_active_unclaiming t i b now : preserves J (set_profile_active t i b now).
Proof.
  intros s [Hi Hc]. unfold set_profile_active, write_profiles.
  unfold mbind, ST_mbind, get, ensure, modify, mret, ST_mret, raise.
  destruct (profiles_ok _); [|done]. split; [|done]. rewrite <- Hi. unfold identities. simpl.
  rewrite <- list_fmap_compose. apply list_fmap_ext. intros j r _. simpl. by case_decide.
Qed.
Lemma update_migration_unclaiming t i f : preserves J (update_migration t i f).
Proof. unfold update_migration. preserve. Qed.
Lemma fetch_unclaiming t i : preserves J (fetch_migration t i).
Proof. unfold fetch_migration. preserve. Qed.
Lemma transition_unclaiming r : preserves J (transition_or_409 r).
Proof. unfold transition_or_409, http. preserve. Qed.
#[local] Hint Resolve set_profile_active_unclaiming update_migration_unclaiming fetch_unclaiming
  transition_unclaiming : platform.

Section Handlers.
  Context (sha : string → string) (dumps : json → string) (uuid_at : nat → uuid).
  Implicit Types (fault : txn_fault) (p : AdminPrincipal).

Lemma keeps_weaken {S E A} (I : S → Prop) (m : ST S E A) : preserves I m → keeps I m.
Proof. intros Hm s Hs. specialize (Hm s Hs). by destruct (m s) as [[a|e] s']. Qed.

Lemma transaction_unclaiming {A} fault (m : CTL A) :
  preserves J m → preserves J (transaction fault (Admin ConnectionLost) m).
Proof. intros Hm. by apply preserves_transaction, keeps_weaken. Qed.

Ltac endpoint :=
  unfold require_admin, audit_migration; cbv zeta;
  repeat first [apply transaction_unclaiming | preserve_step].

Lemma create_migration_unclaiming fault now p t target obs i :
  preserves J (create_migration sha dumps uuid_at fault now p t target obs i).
Proof. unfold create_migration. endpoint. Qed.
Lemma decide_migration_approval_unclaiming fault now p t i approve :
  preserves J (decide_migration_approval sha dumps uuid_at fault now p t i approve).
Proof. unfold decide_migration_approval. endpoint. Qed.
Lemma start_migration_unclaiming fault now p t i :
  preserves J (start_migration sha dumps uuid_at fault now p t i).
Proof. unfold start_migration. endpoint. Qed.
Lemma advance_migration_unclaiming fault now p t i choice :
  preserves J (advance_migration sha dumps uuid_at fault now p t i choice).
Proof. unfold advance_migration. endpoint. Qed.
Lemma decide_rollback_approval_unclaiming fault now p t i d :
  preserves J (decide_rollback_approval sha dumps uuid_at fault now p t i d).
Proof. unfold decide_rollback_approval. endpoint. Qed.
Lemma rollback_migration_unclaiming fault now p t i :
  preserves J (rollback_migration sha dumps uuid_at fault now p t i).
Proof. unfold rollback_migration. endpoint. Qed.

Lemma worker_advance_unclaiming now t row op action ev :
  preserves J (worker_advance sha dumps uuid_at now t row op action ev).
Proof. unfold worker_advance. endpoint. Qed.
Lemma record_failure_unclaiming now t row c :
  preserves J (record_failure sha dumps uuid_at now t row c).
Proof. unfold record_failure. endpoint. Qed.
Lemma upsert_checkpoint_unclaiming t i f r : preserves J (upsert_checkpoint t i f r).
Proof. unfold upsert_checkpoint. cbv zeta. preserve. by apply maintains_modify. Qed.
End Handlers.
End Frame.

(** ** The claims of every stored profile are its tenant's *)
Definition ClaimInv (sha : string → string) (s : ControlDb) : Prop :=
  ∀ id, id ∈ identities s → ∀ res, res ∈ id.2 → cd_claims s !! (res.1, sha res.2) = Some id.1.

Lemma unclaiming_inv {A} sha (m : CTL A) :
  (∀ ids claims, preserves (unclaiming ids claims) m) → preserves (ClaimInv sha) m.
Proof.
  intros Hm s Hs. specialize (Hm _ _ s (conj eq_refl eq_refl)).
  unfold ClaimInv in *. destruct (m s) as [[a|e] s']; destruct Hm as [-> ->]; exact Hs.
Qed.

Lemma claim_resource_Ok sha t res s a s' :
  claim_resource sha t res s = (Ok a, s') →
  cd_claims s ⊆ cd_claims s' ∧ cd_claims s' !! (res.1, sha res.2) = Some t ∧
  cd_profiles s' = cd_profiles s ∧ cd_admin s' = cd_admin s.
Proof.
  unfold claim_resource. cbv zeta. intros Hrun.
  apply bind_Ok in Hrun as (claimed & s1 & [-> ->]%gets_Ok & Hrun).
  apply bind_Ok in Hrun as (u & s2 & Hins & Hrun).
  apply bind_Ok in Hrun as (owner & s3 & [-> ->]%gets_Ok & (Hown & -> & _)%ensure_Ok).
  apply bool_decide_eq_true in Hown. rewrite Hown.
  destruct (cd_claims s !! (res.1, sha res.2)) eqn:Hc; run_inv; [done|]. simpl. split_and!; [|done..].
  by apply insert_subseteq.
Qed.

Lemma claim_all_Ok sha t l s a s' :
  for_each (claim_resource sha t) l s = (Ok a, s') →
  cd_claims s ⊆ cd_claims s' ∧ cd_profiles s' = cd_profiles s ∧ cd_admin s' = cd_admin s ∧
  ∀ res, res ∈ l → cd_claims s' !! (res.1, sha res.2) = Some t.
Proof.
  revert s. induction l as [|res l IH]; intros s Hrun; simpl in Hrun; run_inv.
  { split_and!; [done..|set_solver]. }
  match goal with Hc : claim_resource _ _ _ _ = _ |- _ => apply claim_resource_Ok in Hc as (H1 & H2 & H3 & H3') end.
  apply IH in Hrun as (H4 & H5 & H5' & H6). split_and!; [by etrans|congruence|congruence|].
  intros r [->|Hr]%elem_of_cons; [|by apply H6]. by eapply lookup_weaken.
Qed.

Lemma create_profile_claims sha dumps uuid_at fault now p t c key i :
  preserves (ClaimInv sha) (create_profile sha dumps uuid_at fault now p t c key i).
Proof.
  unfold create_profile. apply maintains_bind;
    [apply unclaiming_inv; intros; apply on_admin_unclaiming|]. intros _.
  apply maintains_bind; [unfold validate_profile, http; by preserve|]. intros _.
  apply preserves_try_catch; [|intros e; destruct e as [[]|]; unfold http; by preserve].
  apply preserves_transaction, keeps_intro. intros s r s' Hinv Hrun. unfold create_profile_body in Hrun.
  cbv zeta in Hrun. apply bind_Ok in Hrun as (replayed & s1 & Hr & Hrun).
  assert (∀ {X} (m : ADM X) s r s', on_admin m s = (r, s') →
    cd_profiles s' = cd_profiles s ∧ cd_claims s' = cd_claims s) as Hadm.
  { intros X m s0 r0 s0'. unfold on_admin. destruct (m (cd_admin s0)) as [[x|e] d]; intros; by simplify_eq. }
  apply Hadm in Hr as [Hp1 Hc1]. destruct replayed; run_inv.
  { unfold ClaimInv, identities in *. by rewrite Hp1, Hc1. }
  repeat match goal with Ho : on_admin _ _ = _ |- _ => apply Hadm in Ho as [? ?] end.
  match goal with Hw : write_profiles _ _ = _ |- _ => apply write_profiles_Ok in Hw as [_ ->] end.
  match goal with Hc : claim_dedicated_resources _ _ _ _ = _ |- _ =>
    apply claim_all_Ok in Hc as (Hsub & Hpr & _ & Hall) end.
  simpl in *. intros id Hid res Hres. unfold identities in Hid.
  repeat match goal with
  | E1 : cd_profiles ?a = cd_profiles ?b |- _ => rewrite E1 in *; clear E1
  | E1 : cd_claims ?a = cd_claims ?b |- _ => rewrite E1 in *; clear E1
  | E1 : cd_profiles _ = _ ++ _ |- _ => rewrite E1 in *; clear E1
  end.
  rewrite fmap_app in Hid. apply elem_of_app in Hid as [Hid|Hid].
  - eapply lookup_weaken; [|exact Hsub]. by apply (Hinv id).
  - apply list_elem_of_singleton in Hid as ->. by apply Hall.
Qed.

(** ** The worker *)
Section Worker.
  Context {A : Type} `{OnlineMigrationAdapter A}.
  Context (adapters : string → uuid → uuid → list (nat * nat)) (digest : bytes → string).
  Context (sha : string → string) (dumps : json → string) (uuid_at : nat → uuid).
  Context (ids : list (uuid * list (string * string))) (claims : gmap (string * string) uuid).
  Abbreviation JW := (λ w : @World A, unclaiming ids claims w.1).

Lemma on_db_unclaiming {X} (m : CTL X) : preserves (unclaiming ids claims) m → preserves JW (on_db m).
Proof.
  intros Hm w Hw. specialize (Hm w.1 Hw). unfold on_db. by destruct (m w.1) as [[x|e] s'].
Qed.
Lemma on_adapters_unclaiming {X} (m : ST (nat → A) ExecutorError X) : preserves JW (on_adapters m).
Proof. intros w Hw. unfold on_adapters. by destruct (m w.2) as [[x|e] a]. Qed.
Lemma db_gets_unclaiming {X} (f : ControlDb → X) : preserves JW (on_db (gets f)).
Proof. by apply on_db_unclaiming, maintains_gets. Qed.
Lemma db_advance_unclaiming now t row op action ev :
  preserves JW (on_db (worker_advance sha dumps uuid_at now t row op action ev)).
Proof. apply on_db_unclaiming, worker_advance_unclaiming. Qed.
Lemma db_checkpoint_unclaiming t i f r : preserves JW (on_db (upsert_checkpoint t i f r)).
Proof. apply on_db_unclaiming, upsert_checkpoint_unclaiming. Qed.
Lemma db_finish_unclaiming now t row e :
  preserves JW (on_db (finish_rollback sha dumps uuid_at now t row e)).
Proof.
  apply on_db_unclaiming. unfold finish_rollback.
  repeat (apply maintains_bind; [apply set_profile_active_unclaiming|intros _]).
  apply worker_advance_unclaiming.
Qed.
#[local] Hint Resolve on_adapters_unclaiming db_gets_unclaiming db_advance_unclaiming
  db_checkpoint_unclaiming db_finish_unclaiming : platform.

Lemma execute_phase_unclaiming now t row :
  preserves JW (execute_phase adapters digest sha dumps uuid_at now t row).
Proof. unfold execute_phase. cbv zeta. preserve. Qed.

Lemma run_once_unclaiming fault now t :
  preserves JW (run_once adapters digest sha dumps uuid_at fault now t).
Proof.
  intros w Hw. unfold run_once, db_transaction.
  match goal with |- context [match ?m w with _ => _ end] =>
    assert (preserves JW m) as Hm; [|specialize (Hm w Hw); destruct (m w) as [[b|e] w'];
      [by destruct fault|done]] end.
  apply maintains_bind; [apply db_gets_unclaiming|]. intros [row|]; [|apply maintains_ret].
  apply maintains_bind; [|intros; apply maintains_ret].
  apply preserves_try_catch; [apply execute_phase_unclaiming|]. intros [|[c|]].
  - by apply maintains_raise.
  - apply on_db_unclaiming, record_failure_unclaiming.
  - by apply maintains_raise.
Qed.

End Worker.

Section Steps.
  Context {A : Type} `{OnlineMigrationAdapter A}.
  Context (adapters : string → uuid → uuid → list (nat * nat)) (digest : bytes → string).
  Context (sha : string → string) (dumps : json → string) (uuid_at : nat → uuid).

Lemma run_once_claims fault now t s (w : nat → A) r s' w' :
  run_once adapters digest sha dumps uuid_at fault now t (s, w) = (r, (s', w')) →
  ClaimInv sha s → ClaimInv sha s'.
Proof.
  intros Hrun Hs.
  pose proof (run_once_unclaiming adapters digest sha dumps uuid_at (identities s) (cd_claims s)
    fault now t (s, w) (conj eq_refl eq_refl)) as Hw.
  rewrite Hrun in Hw. unfold ClaimInv in *.
  destruct r; destruct Hw as [Hi Hc]; simpl in *; rewrite Hi, Hc; exact Hs.
Qed.

Lemma control_step_claims w w' :
  control_step adapters digest sha dumps uuid_at w w' → ClaimInv sha w.1 → ClaimInv sha w'.1.
Proof.
  intros Hstep Hinv.
  assert (∀ {X} (m : CTL X) s r s', m s = (r, s') → ClaimInv sha s →
    (∀ ids claims, preserves (unclaiming ids claims) m) → ClaimInv sha s') as Hun.
  { intros X m s r s' Hm Hs Hall. eapply preserves_result; [exact Hm|by apply unclaiming_inv|exact Hs]. }
  destruct Hstep as [| | | | | | |s w fault now t r s' w' Hrun|]; simpl in *; [|..|done].
  - eapply preserves_result; [eassumption|apply create_profile_claims|done].
  - eapply Hun; [eassumption|done|intros; apply create_migration_unclaiming].
  - eapply Hun; [eassumption|done|intros; apply decide_migration_approval_unclaiming].
  - eapply Hun; [eassumption|done|intros; apply start_migration_unclaiming].
  - eapply Hun; [eassumption|done|intros; apply advance_migration_unclaiming].
  - eapply Hun; [eassumption|done|intros; apply decide_rollback_approval_unclaiming].
  - eapply Hun; [eassumption|done|intros; apply rollback_migration_unclaiming].
  - eapply run_once_claims in Hrun; done.
Qed.
End Steps.

(** Dedicated resources are never shared: in every reachable database, two profiles that
    declare the same endpoint of the same kind, or the same worker pool, dedicated
    belong to one tenant. *)
Theorem dedicated_resources_never_shared {A : Type} `{OnlineMigrationAdapter A}
    adapters digest sha dumps uuid_at s p q res :
  control_reachable (A := A) adapters digest sha dumps uuid_at s →
  p ∈ cd_profiles s → q ∈ cd_profiles s → res ∈ row_resources p → res ∈ row_resources q →
  pf_tenant_id p = pf_tenant_id q.
Proof.
  intros (tenants & members & w & w' & Hrtc) Hp Hq Hrp Hrq.
  assert (ClaimInv sha s) as Hinv.
  { change (ClaimInv sha (s, w').1). revert Hrtc. generalize (s, w'). intros z Hrtc.
    assert (ClaimInv sha (empty_control tenants members, w).1) as Hinit by (intros id Hid; set_solver).
    induction Hrtc as [|x y z Hxy _ IH]; [done|]. by eapply IH, control_step_claims. }
  assert (∀ r, r ∈ cd_profiles s → profile_identity r ∈ identities s) as Hid.
  { intros r Hr. apply list_elem_of_fmap. by exists r. }
  pose proof (Hinv _ (Hid p Hp) res Hrp) as H1. pose proof (Hinv _ (Hid q Hq) res Hrq) as H2.
  simpl in *. congruence.
Qed.

(** Two profiles of one tenant may share a worker pool of its own. *)
Definition pooled : ControlDb :=
  (demo_at [DProfile 1 "main" "acme-one" true; DProfile 2 "next" "acme-one" false]).1.
Definition pooled_row (i : nat) : ProfileRow := default active_now (cd_profiles pooled !! i).

Lemma dedicated_resources_never_shared_witness :
  pf_id (pooled_row 0) ≠ pf_id (pooled_row 1) ∧
  pf_tenant_id (pooled_row 0) = pf_tenant_id (pooled_row 1).
Proof.
  split; [vm_compute; discriminate|].
  apply (dedicated_resources_never_shared (A := MemoryAdapter) demo_adapters demo_digest demo_sha
    demo_dumps demo_ids pooled _ _ ("WORKER_POOL", "acme-one") (demo_at_reachable _)).
  - apply (list_elem_of_lookup_2 _ 0). vm_compute. reflexivity.
  - apply (list_elem_of_lookup_2 _ 1). vm_compute. reflexivity.
  - vm_compute. apply list_elem_of_singleton. reflexivity.
  - vm_compute. apply list_elem_of_singleton. reflexivity.
Defined.

(** ** Replayed commands *)
Lemma on_admin_Ok {A} (m : ADM A) s a s' :
  on_admin m s = (Ok a, s') ↔ ∃ d, m (cd_admin s) = (Ok a, d) ∧ s' = set_cd_admin d s.
Proof. unfold on_admin. destruct (m (cd_admin s)) as [[x|e] d]; naive_solver. Qed.

Lemma on_admin_same {A} (m : ADM A) s a :
  m (cd_admin s) = (Ok a, cd_admin s) → on_admin m s = (Ok a, s).
Proof. intros Hm. apply on_admin_Ok. exists (cd_admin s). split; [done|]. by destruct s. Qed.

(** A permitted access check writes nothing and depends on the memberships only. *)
Lemma access_granted sha dumps uuid_at fault now p t mode action tt tid s a s' :
  require_tenant_access sha dumps uuid_at fault now p t mode action tt tid s = (Ok a, s') →
  s' = s ∧ ∀ fault' now' d, ad_members d = ad_members s →
    require_tenant_access sha dumps uuid_at fault' now' p t mode action tt tid d = (Ok (), d).
Proof.
  unfold require_tenant_access. destruct (meets (ap_roles p) _); [intros; run_inv; done|].
  intros Hrun. run_inv. destruct (meets _ (TENANT_ROLES mode)) eqn:Hm; run_inv.
  split; [done|]. intros fault' now' d Hd. erewrite bind_run by done. erewrite bind_run by done.
  unfold member_roles in *. by rewrite Hd, Hm.
Qed.

(** The answer of a command is in the ledger when it returns. *)
Lemma create_profile_remembers sha dumps uuid_at now p t c key i s r s' :
  create_profile_body sha dumps uuid_at now p t c key i s = (Ok r, s') →
  ad_members (cd_admin s') = ad_members (cd_admin s) ∧
  ∃ rec, ad_idempotency (cd_admin s') !! (ap_subject p, key) = Some rec ∧
    id_operation rec = "storage_profile.create" ∧
    id_request_hash rec = request_hash sha dumps (profile_payload t c) ∧ id_response rec = r.
Proof.
  unfold create_profile_body. cbv zeta. intros Hrun.
  apply bind_Ok in Hrun as (replayed & s1 & (d & Hrep & ->)%on_admin_Ok & Hrun).
  unfold replay_for in Hrep. run_inv.
  destruct (ad_idempotency (cd_admin s) !! (ap_subject p, key)) as [rec|] eqn:Hrec; run_inv.
  { match goal with Hb : _ && _ = true |- _ => apply andb_true_iff in Hb as
      [Ho%bool_decide_eq_true Hh%bool_decide_eq_true] end.
    split; [done|]. exists rec. done. }
  repeat match goal with Ho : on_admin _ _ = (Ok _, _) |- _ =>
    apply on_admin_Ok in Ho as (? & ? & ->) end.
  match goal with Hw : write_profiles _ _ = _ |- _ => apply write_profiles_Ok in Hw as [_ ->] end.
  match goal with Hc : claim_dedicated_resources _ _ _ _ = _ |- _ =>
    apply claim_all_Ok in Hc as (_ & _ & Hadm & _) end.
  match goal with Ha : audited _ _ _ _ _ _ _ _ _ _ _ _ = _ |- _ =>
    unfold audited in Ha; apply on_audit_frame in Ha as [au ->] end.
  unfold remember in *. run_inv. simpl in *. rewrite Hadm. split; [done|].
  rewrite lookup_insert_eq. by eexists.
Qed.

(** A repeated command answers what it answered first: after a successful creation, the
    same principal, key and payload get the same response, and nothing is created,
    claimed or recorded again, whenever the repetition comes. *)
Theorem replayed_command_changes_nothing sha dumps uuid_at now p t c key i s r s' now' i' :
  create_profile sha dumps uuid_at NoFault now p t c key i s = (Ok r, s') →
  create_profile sha dumps uuid_at NoFault now' p t c key i' s' = (Ok r, s').
Proof.
  unfold create_profile. intros Hrun.
  apply bind_Ok in Hrun as ([] & s1 & (d & Hacc & ->)%on_admin_Ok & Hrun).
  apply bind_Ok in Hrun as ([] & s2 & Hval & Hrun).
  apply access_granted in Hacc as [-> Hacc].
  assert (∀ s0, validate_profile t c s0 = (Ok (), s0)) as Hval'.
  { intros s0. revert Hval. unfold validate_profile, mbind, ST_mbind, ensure, http, raise, mret, ST_mret.
    repeat case_match; intros; simplify_eq; done. }
  rewrite Hval' in Hval. simplify_eq. unfold try_catch in Hrun.
  destruct (transaction _ _ _ _) as [[r0|[[]|]] s3] eqn:Htxn; simplify_eq; try done.
  apply transaction_Ok in Htxn as [_ Hbody].
  destruct (create_profile_remembers _ _ _ _ _ _ _ _ _ _ _ _ Hbody) as (Hmem & rec & Hrec & Hop & Hh & Hr).
  erewrite bind_run by (apply on_admin_same; by apply Hacc).
  erewrite bind_run by apply Hval'.
  assert (create_profile_body sha dumps uuid_at now' p t c key i' s' = (Ok r, s')) as Hagain.
  { unfold create_profile_body. cbv zeta. erewrite (bind_run _ _ s' (Some r) s').
    { done. }
    apply on_admin_same. unfold replay_for. erewrite bind_run by done. rewrite Hrec, Hop, Hh.
    rewrite !bool_decide_true by done. erewrite bind_run by done. by rewrite Hr. }
  unfold try_catch, transaction. by rewrite Hagain.
Qed.

Definition new_profile_db : ControlDb := demo_start.1.
Definition created : outcome ControlError json * ControlDb :=
  create_profile demo_sha demo_dumps demo_ids NoFault 0 alice demo_tenant
    (demo_profile "main" "shared-workers" true) "key" 1 new_profile_db.
Definition created_response : json := match created.1 with Ok r => r | Raise _ => JNull end.

Lemma replayed_command_changes_nothing_witness :
  create_profile demo_sha demo_dumps demo_ids NoFault 99 alice demo_tenant
    (demo_profile "main" "shared-workers" true) "key" 5 created.2 = (Ok created_response, created.2).
Proof.
  apply (replayed_command_changes_nothing demo_sha demo_dumps demo_ids 0 alice demo_tenant
    (demo_profile "main" "shared-workers" true) "key" 1 new_profile_db).
  vm_compute. reflexivity.
Defined.
