(* ===== verification/Failover.v ===== *)
(** * The failover lease (trpc_service/failover.py)

    [platform.failover_lease] with its partial unique index, and the operations of
    [FailoverLeaseManager].  A promotion holds an advisory lock for the whole
    transaction, so transactions are atomic steps; a transaction can be lost
    before or after its commit. *)

From S2P Require Import Prelude.
Open Scope string_scope.
Open Scope list_scope.
Open Scope Z_scope.

Inductive FailoverRole := PRIMARY | STANDBY | FAILING_OVER | FAILING_BACK | FENCED.
#[export] Instance FailoverRole_eq_dec : EqDecision FailoverRole.
Proof. solve_decision. Defined.

Record LeaseRow := {
  fl_id : uuid;
  fl_region : string;
  fl_role : FailoverRole;
  fl_fencing_token : Z;
  fl_acquired_at : instant;
  fl_expires_at : instant;
  fl_released_at : option instant;
  fl_operator : string;
}.

(** [LeaseState] *)
Record LeaseState := {
  ls_region : string;
  ls_role : FailoverRole;
  ls_fencing_token : Z;
  ls_acquired_at : instant;
  ls_expires_at : instant;
}.
Definition lease_state (r : LeaseRow) : LeaseState :=
  {| ls_region := fl_region r; ls_role := fl_role r; ls_fencing_token := fl_fencing_token r;
     ls_acquired_at := fl_acquired_at r; ls_expires_at := fl_expires_at r |}.

Inductive FailoverError := FAILOVER_ALREADY_PRIMARY | LeaseSqlError | LeaseConnectionLost.
Abbreviation FO := (ST (list LeaseRow) FailoverError).

(** The rows of the partial index: live primaries. *)
Definition live_primary (r : LeaseRow) : bool :=
  bool_decide (fl_role r = PRIMARY) && bool_decide (fl_released_at r = None).

(** Key, index and checks of the table. *)
Definition lease_row_check (r : LeaseRow) : bool :=
  (1 <=? String.length (fl_region r))%nat && (String.length (fl_region r) <=? 64)%nat
  && (0 <=? fl_fencing_token r) && (fl_acquired_at r <? fl_expires_at r)
  && (1 <=? String.length (fl_operator r))%nat && (String.length (fl_operator r) <=? 256)%nat.
Definition leases_ok (l : list LeaseRow) : bool :=
  bool_decide (NoDup (fl_id <$> l)) && (length (filter (λ r, live_primary r = true) l) <=? 1)%nat
  && forallb lease_row_check l.

Definition write_leases (l : list LeaseRow) : FO unit :=
  _ ← ensure (leases_ok l) LeaseSqlError;
  put l.

(** [coalesce(max(fencing_token),0)+1] *)
Definition next_token (l : list LeaseRow) : Z := foldr Z.max 0 (fl_fencing_token <$> l) + 1.

Section Manager.
  (** [timedelta(seconds=lease_ttl_seconds)] in microseconds. *)
  Context (lease_ttl : Z).

(** [register_standby]; [id] is what [gen_random_uuid()] returns. *)
Definition register_standby (fault : txn_fault) (now : instant) (id : uuid) (region operator : string) :
    FO LeaseState :=
  transaction fault LeaseConnectionLost (
    let row := {| fl_id := id; fl_region := region; fl_role := STANDBY; fl_fencing_token := 0;
                  fl_acquired_at := now; fl_expires_at := now + lease_ttl; fl_released_at := None;
                  fl_operator := operator |} in
    rows ← get;
    _ ← write_leases (rows ++ [row]);
    mret (lease_state row)).

(** [UPDATE ... SET role='FENCED',released_at=now() WHERE role='PRIMARY' AND released_at IS NULL] *)
Definition fence (now : instant) (r : LeaseRow) : LeaseRow :=
  if live_primary r then
    {| fl_id := fl_id r; fl_region := fl_region r; fl_role := FENCED;
       fl_fencing_token := fl_fencing_token r; fl_acquired_at := fl_acquired_at r;
       fl_expires_at := fl_expires_at r; fl_released_at := Some now; fl_operator := fl_operator r |}
  else r.

Definition live_row (l : list LeaseRow) : option LeaseRow := head (filter (λ r, live_primary r = true) l).

(** [promote] *)
Definition promote (fault : txn_fault) (now : instant) (id : uuid) (region operator : string) :
    FO LeaseState :=
  transaction fault LeaseConnectionLost (
    primary ← gets live_row;
    _ ← ensure (negb (default false ((λ r, bool_decide (fl_region r = region)) <$> primary)))
          FAILOVER_ALREADY_PRIMARY;
    rows ← get;
    _ ← write_leases (fence now <$> rows);
    token ← gets next_token;
    let row := {| fl_id := id; fl_region := region; fl_role := PRIMARY; fl_fencing_token := token;
                  fl_acquired_at := now; fl_expires_at := now + lease_ttl; fl_released_at := None;
                  fl_operator := operator |} in
    rows ← get;
    _ ← write_leases (rows ++ [row]);
    mret (lease_state row)).

(** [current_primary] *)
Definition current_primary (l : list LeaseRow) : option LeaseState := lease_state <$> live_row l.

(** ** Facts *)
Lemma next_token_above l r : r ∈ l → fl_fencing_token r < next_token l.
Proof.
  unfold next_token. induction l as [|x l IH]; intros Hr; [by apply not_elem_of_nil in Hr|].
  rewrite fmap_cons. simpl. apply elem_of_cons in Hr as [->|Hr]; [lia|]. specialize (IH Hr). lia.
Qed.

Lemma fence_not_live now r : live_primary (fence now r) = false.
Proof.
  unfold fence. destruct (live_primary r) eqn:Hr; [|done]. done.
Qed.
Lemma fence_token now r : fl_fencing_token (fence now r) = fl_fencing_token r.
Proof. unfold fence. by case_match. Qed.

(** Two live primaries of a good table are one row. *)
Lemma live_unique l r r' :
  leases_ok l = true → r ∈ l → r' ∈ l → live_primary r = true → live_primary r' = true → r = r'.
Proof.
  unfold leases_ok. intros [[_ Hlen%Nat.leb_le]%andb_true_iff _]%andb_true_iff Hr Hr' H1 H2.
  assert (r ∈ filter (λ r, live_primary r = true) l) as Hf by by apply list_elem_of_filter.
  assert (r' ∈ filter (λ r, live_primary r = true) l) as Hf' by by apply list_elem_of_filter.
  destruct (filter _ l) as [|x [|y l']]; [by apply not_elem_of_nil in Hf|set_solver|simpl in Hlen; lia].
Qed.

Lemma next_token_pos l : 0 < next_token l.
Proof.
  unfold next_token. assert (0 ≤ foldr Z.max 0 (fl_fencing_token <$> l)); [|lia].
  induction (fl_fencing_token <$> l); simpl; lia.
Qed.

(** The live primary has the greatest token of all. *)
Record LeaseInv (l : list LeaseRow) : Prop := {
  li_ok : leases_ok l = true;
  li_top : ∀ r r', r ∈ l → live_primary r = true → r' ∈ l → r' ≠ r →
    fl_fencing_token r' < fl_fencing_token r;
  li_pos : ∀ r, r ∈ l → live_primary r = true → 0 < fl_fencing_token r;
}.

Lemma write_leases_Ok l s a s' : write_leases l s = (Ok a, s') → leases_ok l = true ∧ s' = l.
Proof. unfold write_leases. intros Hrun. run_inv. unfold put in *. by simplify_eq. Qed.

Lemma register_standby_keeps fault now id region operator :
  preserves LeaseInv (register_standby fault now id region operator).
Proof.
  apply preserves_transaction, keeps_intro. intros l st l' [Hok Htop Hpos] Hrun. cbv zeta in Hrun.
  run_inv. match goal with Hw : write_leases _ _ = _ |- _ => apply write_leases_Ok in Hw as [Hok' ->] end.
  split; [done|..].
  - intros r r' [Hr| ->%list_elem_of_singleton]%elem_of_app Hl; [|done].
    intros [Hr'| ->%list_elem_of_singleton]%elem_of_app Hne; [by apply Htop|by apply Hpos].
  - intros r [Hr| ->%list_elem_of_singleton]%elem_of_app Hl; [by apply Hpos|done].
Qed.

(** A promotion that returns: the old rows are fenced, one row is new, and its token is
    above all others. *)
Lemma promote_Ok fault now id region operator l st l' :
  leases_ok l = true → promote fault now id region operator l = (Ok st, l') →
  ∃ row, l' = (fence now <$> l) ++ [row] ∧ st = lease_state row ∧ leases_ok l' = true ∧
    fl_region row = region ∧ live_primary row = true ∧ fl_fencing_token row = next_token (fence now <$> l) ∧
    ∀ r, r ∈ l → live_primary r = true → fl_region r ≠ region.
Proof.
  unfold promote. intros Hok [_ Hrun]%transaction_Ok. cbv zeta in Hrun. run_inv.
  repeat match goal with Hw : write_leases _ _ = _ |- _ => apply write_leases_Ok in Hw as [? ->] end.
  eexists. split_and!; [done..|]. intros r Hr Hl Hreg.
  match goal with Hn : negb (default false _) = true |- _ => rename Hn into Hneg end.
  assert (live_row l = Some r) as Hlr.
  { apply head_filter_only; [done|done|]. intros x Hx Hxl. exact (live_unique l x r Hok Hx Hr Hxl Hl). }
  rewrite Hlr in Hneg. simpl in Hneg. by apply negb_true_iff, bool_decide_eq_false in Hneg.
Qed.

Lemma promote_keeps fault now id region operator :
  preserves LeaseInv (promote fault now id region operator).
Proof.
  assert (preserves LeaseInv (promote NoFault now id region operator)) as Hnf.
  { intros l Hinv. destruct (promote NoFault now id region operator l) as [[st|e] l'] eqn:Hp.
    2: { unfold promote in Hp. by apply transaction_rollback in Hp as ->. }
    apply promote_Ok in Hp as (row & -> & _ & Hok & _ & Hlive & Htok & _); [|apply Hinv].
    assert (∀ r, r ∈ (fence now <$> l) ++ [row] → live_primary r = true → r = row) as Honly.
    { intros r [(r0 & -> & _)%list_elem_of_fmap| ->%list_elem_of_singleton]%elem_of_app Hl; [|done].
      by rewrite fence_not_live in Hl. }
    split; [done|..].
    - intros r r' Hr Hl Hr' Hne. pose proof (Honly r Hr Hl) as ->.
      apply elem_of_app in Hr' as [Hr'|Hr']; [|by apply list_elem_of_singleton in Hr'].
      rewrite Htok. by apply next_token_above.
    - intros r Hr Hl. rewrite (Honly r Hr Hl), Htok. apply next_token_pos. }
  intros l Hinv. specialize (Hnf l Hinv). unfold promote, transaction in *.
  match goal with |- context [match ?m l with _ => _ end] => destruct (m l) as [[st|e] l'] end;
    by destruct fault.
Qed.

(** ** The lease over time *)
Inductive failover_step (l l' : list LeaseRow) : Prop :=
  | failover_register fault now id region operator r :
      register_standby fault now id region operator l = (r, l') → failover_step l l'
  | failover_promote fault now id region operator r :
      promote fault now id region operator l = (r, l') → failover_step l l'.

Lemma failover_inv l : rtc failover_step [] l → LeaseInv l.
Proof.
  assert (LeaseInv []) as H0 by (split; [done|set_solver..]).
  revert H0. generalize (@nil LeaseRow). intros l0 H0 Hrtc. induction Hrtc as [|x y z Hxy _ IH]; [done|].
  apply IH. destruct Hxy as [????? r Hr|????? r Hr].
  - eapply preserves_result; [exact Hr|apply register_standby_keeps|done].
  - eapply preserves_result; [exact Hr|apply promote_keeps|done].
Qed.

(** Two primaries never coexist and an old one is always behind: from an empty table,
    after any registrations and promotions with any faults, all rows but the live
    primary have smaller fencing tokens; a promotion of another region that returns
    makes it the only live primary, with a token above every one given before, and a
    promotion of the primary itself is refused and changes nothing. *)
Theorem failover_single_primary l fault now id region operator :
  rtc failover_step [] l →
  (∀ r r', r ∈ l → r' ∈ l → live_primary r = true → r' ≠ r →
     live_primary r' = false ∧ fl_fencing_token r' < fl_fencing_token r) ∧
  (∀ st l', promote fault now id region operator l = (Ok st, l') →
     current_primary l' = Some st ∧ ls_region st = region ∧
     ∀ r, r ∈ l → fl_fencing_token r < ls_fencing_token st) ∧
  (∀ r, r ∈ l → live_primary r = true → fl_region r = region →
     promote fault now id region operator l = (Raise FAILOVER_ALREADY_PRIMARY, l)).
Proof.
  intros Hinv%failover_inv. split_and!.
  - intros r r' Hr Hr' Hl Hne. split; [|by apply Hinv].
    destruct (live_primary r') eqn:Hl'; [|done]. destruct Hne. eapply live_unique; [apply Hinv|done..].
  - intros st l' Hp. pose proof (preserves_result _ _ _ _ _ Hp (promote_keeps _ _ _ _ _) Hinv) as Hinv'.
    apply promote_Ok in Hp as (row & -> & -> & Hok & Hreg & Hlive & Htok & _); [|apply Hinv].
    split_and!; [|done|].
    + unfold current_primary, live_row. rewrite filter_app.
      assert (filter (λ r, live_primary r = true) (fence now <$> l) = []) as ->.
      { apply filter_none. intros x (y & -> & _)%list_elem_of_fmap. by rewrite fence_not_live. }
      simpl. rewrite filter_cons_True by done. done.
    + intros r Hr. simpl. rewrite Htok, <- (fence_token now r). apply next_token_above.
      apply list_elem_of_fmap. by exists r.
  - intros r Hr Hl Hreg.
    assert (live_row l = Some r) as Hlr.
    { apply head_filter_only; [done|done|]. intros x Hx Hxl. eapply live_unique; [apply Hinv|done..]. }
    unfold promote, transaction, mbind, ST_mbind, gets, ensure, raise. rewrite Hlr. simpl.
    by rewrite bool_decide_true.
Qed.
End Manager.

(** One region is promoted, then another. *)
Definition after_promotion : list LeaseRow :=
  (promote 60 NoFault 1 11 "eu" "ops" (register_standby 60 NoFault 0 10 "us" "ops" []).2).2.

Lemma failover_single_primary_witness :
  promote 60 NoFault 2 12 "eu" "ops" after_promotion = (Raise FAILOVER_ALREADY_PRIMARY, after_promotion).
Proof.
  apply (failover_single_primary 60 after_promotion NoFault 2 12 "eu" "ops") with
    (r := {| fl_id := 11; fl_region := "eu"; fl_role := PRIMARY; fl_fencing_token := 1;
             fl_acquired_at := 1; fl_expires_at := 61; fl_released_at := None; fl_operator := "ops" |}).
  - eapply rtc_l; [eapply failover_register with (fault := NoFault) (now := 0) (id := 10)
      (region := "us") (operator := "ops"); apply surjective_pairing|].
    eapply rtc_once, failover_promote with (fault := NoFault) (now := 1) (id := 11) (region := "eu")
      (operator := "ops"). apply surjective_pairing.
  - apply (list_elem_of_lookup_2 _ 1). reflexivity.
  - reflexivity.
  - reflexivity.
Defined.
