(* ===== verification/Degradation.v ===== *)
(** * Explicit degradation (trpc_service/degradation.py)

    The process-local registry of degraded dependencies and the notifications it
    sends to its audit hook.  Each method takes the lock for its whole access to
    the dictionary, so methods are atomic steps; the hook is called after the
    lock is released. *)

From S2P Require Import Prelude PyDict.
Open Scope string_scope.
Open Scope list_scope.
Open Scope Z_scope.

Inductive DegradationDomain := MODEL | KNOWLEDGE | MEMORY | ARTIFACT | IM.
#[export] Instance DegradationDomain_eq_dec : EqDecision DegradationDomain.
Proof. solve_decision. Defined.

Definition domain_value (d : DegradationDomain) : string :=
  match d with
  | MODEL => "MODEL" | KNOWLEDGE => "KNOWLEDGE" | MEMORY => "MEMORY" | ARTIFACT => "ARTIFACT" | IM => "IM"
  end.

Definition FAIL_CLOSED_CONCERNS : list string :=
  ["SECURITY_STATE"; "SECRET_RESOLUTION"; "SESSION_LEASE"; "SIDE_EFFECT_GOVERNANCE"].

Record Degradation := {
  dg_domain : DegradationDomain;
  dg_reason : string;
  dg_entered_at : instant;
  dg_detail : option string;
}.

(** [_notify]: what the hook has received, oldest first; nothing without a hook. *)
Record Notification := { nt_action : string; nt_degradation : Degradation }.

Record DegradationRegistry := {
  rg_active : list (DegradationDomain * Degradation);
  rg_has_hook : bool;
  rg_notified : list Notification;
}.

#[export] Instance DegradationDomain_countable : Countable DegradationDomain.
Proof.
  apply (inj_countable domain_value
    (λ s, if decide (s = "MODEL") then Some MODEL else if decide (s = "KNOWLEDGE") then Some KNOWLEDGE
          else if decide (s = "MEMORY") then Some MEMORY else if decide (s = "ARTIFACT") then Some ARTIFACT
          else if decide (s = "IM") then Some IM else None)). by intros [].
Defined.

Definition new_DegradationRegistry (has_hook : bool) : DegradationRegistry :=
  {| rg_active := []; rg_has_hook := has_hook; rg_notified := [] |}.

Definition notify (action : string) (d : Degradation) (r : DegradationRegistry) : DegradationRegistry :=
  if rg_has_hook r then
    {| rg_active := rg_active r; rg_has_hook := true;
       rg_notified := rg_notified r ++ [{| nt_action := action; nt_degradation := d |}] |}
  else r.

Definition degrade (now : instant) (domain : DegradationDomain) (reason : string)
    (detail : option string) (r : DegradationRegistry) : Degradation * DegradationRegistry :=
  let degradation := {| dg_domain := domain; dg_reason := reason; dg_entered_at := now;
                        dg_detail := detail |} in
  let r' := {| rg_active := dict_set domain degradation (rg_active r);
               rg_has_hook := rg_has_hook r; rg_notified := rg_notified r |} in
  (degradation, notify "degradation.entered" degradation r').

Definition restore (domain : DegradationDomain) (reason : string) (r : DegradationRegistry) :
    bool * DegradationRegistry :=
  match dict_get domain (rg_active r) with
  | None => (false, r)
  | Some degradation =>
      let r' := {| rg_active := dict_del domain (rg_active r);
                   rg_has_hook := rg_has_hook r; rg_notified := rg_notified r |} in
      (true, notify "degradation.restored"
        {| dg_domain := domain; dg_reason := reason; dg_entered_at := dg_entered_at degradation;
           dg_detail := Some (dg_reason degradation) |} r')
  end.

Definition is_degraded (domain : DegradationDomain) (r : DegradationRegistry) : bool :=
  bool_decide (is_Some (dict_get domain (rg_active r))).

(** [sorted(..., key=lambda item: item.domain)]: by the text of the domain; the rank of
    a domain in that order. *)
Definition domain_rank (d : DegradationDomain) : Z :=
  match d with ARTIFACT => 0 | IM => 1 | KNOWLEDGE => 2 | MEMORY => 3 | MODEL => 4 end.

Definition status (r : DegradationRegistry) : list Degradation :=
  sort_on (λ d, domain_rank (dg_domain d)) (rg_active r).*2.

(** ** Facts *)

(** The rank is the order of the texts. *)
Lemma domain_rank_text d d' :
  domain_rank d < domain_rank d' ↔ String.ltb (domain_value d) (domain_value d') = true.
Proof. destruct d, d'; vm_compute; split; intros; done. Qed.

Inductive degradation_call := CallDegrade (now : instant) (d : DegradationDomain) (reason : string)
    (detail : option string)
  | CallRestore (d : DegradationDomain) (reason : string).

Definition degradation_step (r : DegradationRegistry) (c : degradation_call) : DegradationRegistry :=
  match c with
  | CallDegrade now d reason detail => (degrade now d reason detail r).2
  | CallRestore d reason => (restore d reason r).2
  end.

(** Reading the notifications alone: what is active according to the audit trail. *)
Definition trail_step (active : gmap DegradationDomain Degradation) (n : Notification) :
    gmap DegradationDomain Degradation :=
  let d := nt_degradation n in
  if bool_decide (nt_action n = "degradation.entered") then <[dg_domain d := d]> active
  else delete (dg_domain d) active.
Definition trail (l : list Notification) : gmap DegradationDomain Degradation := foldl trail_step ∅ l.

Record registry_ok (r : DegradationRegistry) : Prop := {
  ro_keys : NoDup (rg_active r).*1;
  ro_domains : ∀ k d, (k, d) ∈ rg_active r → dg_domain d = k;
  ro_trail : rg_has_hook r = true → trail (rg_notified r) = contents (rg_active r);
}.

Lemma dict_set_pair {V} (k : DegradationDomain) (v : V) d k' v' :
  (k', v') ∈ dict_set k v d → k' = k ∧ v' = v ∨ (k', v') ∈ d.
Proof.
  induction d as [|[k0 v0] d IH]; simpl; [set_solver|]. case_decide; set_solver.
Qed.

Lemma contents_dict_set (k : DegradationDomain) (v : Degradation) d :
  contents (dict_set k v d) = <[k := v]> (contents d).
Proof.
  apply map_eq. intros k'. rewrite contents_lookup, dict_get_set.
  destruct (decide (k' = k)) as [->|]; [by rewrite lookup_insert_eq|].
  by rewrite lookup_insert_ne, contents_lookup by congruence.
Qed.

Lemma contents_dict_del (k : DegradationDomain) (d : list (DegradationDomain * Degradation)) :
  contents (dict_del k d) = delete k (contents d).
Proof.
  apply map_eq. intros k'. rewrite contents_lookup, dict_get_del.
  destruct (decide (k' = k)) as [->|]; [by rewrite lookup_delete_eq|].
  by rewrite lookup_delete_ne, contents_lookup by congruence.
Qed.

Lemma degradation_step_ok r c : registry_ok r → registry_ok (degradation_step r c).
Proof.
  intros [Hk Hd Ht]. destruct c as [now d reason detail|d reason]; simpl.
  - unfold degrade, notify. simpl. destruct (rg_has_hook r) eqn:Hh; split; simpl; try done;
      try by apply dict_set_NoDup.
    all: try by (intros k e [[-> ->]|Hin]%dict_set_pair; [done|by apply Hd]).
    intros _. unfold trail. rewrite foldl_app. fold (trail (rg_notified r)). rewrite Ht by done.
    simpl. unfold trail_step. simpl. by rewrite contents_dict_set.
  - unfold restore. destruct (dict_get d (rg_active r)) as [e|] eqn:He; [|by split].
    unfold notify. simpl. destruct (rg_has_hook r) eqn:Hh; split; simpl; try done;
      try by apply dict_filter_NoDup.
    all: try by (intros k e' Hin; apply Hd; by apply list_elem_of_filter in Hin as [_ ?]).
    intros _. unfold trail. rewrite foldl_app. fold (trail (rg_notified r)). rewrite Ht by done.
    simpl. unfold trail_step. simpl. by rewrite contents_dict_del.
Qed.

(** Degradation is explicit: after any sequence of degradations and restorations of a
    registry with a hook, replaying the notifications gives exactly the degradations
    that are active, a domain counts as degraded just when the trail says so, and the
    status lists each active degradation once, ordered by the text of its domain. *)
Theorem degradation_trail_complete calls :
  let r := foldl degradation_step (new_DegradationRegistry true) calls in
  contents (rg_active r) = trail (rg_notified r) ∧
  (∀ d, is_degraded d r = true ↔ is_Some (trail (rg_notified r) !! d)) ∧
  status r ≡ₚ (map_to_list (trail (rg_notified r))).*2 ∧
  NoDup (dg_domain <$> status r) ∧
  StronglySorted (λ x y, domain_rank (dg_domain x) ≤ domain_rank (dg_domain y)) (status r).
Proof.
  intros r.
  assert (registry_ok r ∧ rg_has_hook r = true) as [[Hk Hd Ht] Hh].
  { unfold r. clear r. induction calls as [|c calls IH] using rev_ind; simpl.
    - split; [|done]. split; simpl; [apply NoDup_nil_2|set_solver|done].
    - rewrite foldl_app. simpl. destruct IH as [IH Hh]. split; [by apply degradation_step_ok|].
      destruct c as [now d reason detail|d reason]; simpl.
      + unfold degrade, notify. simpl. by rewrite Hh.
      + unfold restore, notify. case_match; simpl; [by rewrite Hh|done]. }
  rewrite Ht by done. split_and!; [done|..].
  - intros d. unfold is_degraded. rewrite bool_decide_eq_true. by rewrite contents_lookup.
  - unfold status. rewrite sort_on_perm. unfold contents. by rewrite map_to_list_to_map.
  - assert (dg_domain <$> (rg_active r).*2 = (rg_active r).*1) as Hdom.
    { rewrite <- list_fmap_compose. apply list_fmap_ext. intros i [k e] Hi. simpl.
      apply Hd. by eapply list_elem_of_lookup_2. }
    unfold status. rewrite sort_on_perm, Hdom. done.
  - apply sort_on_ordered.
Qed.
