(* ===== verification/AdaptiveReply.v ===== *)
(** * Reply planning (trpc_service/channels/adaptive_reply.py)

    How a reply is cut into messages a channel accepts.  A text is the list of its
    Unicode code points, which is what Python's [len] and slices count.  The loop
    of [split_reply_text] runs on fuel; the theorems show that the length of the
    text is enough. *)

From S2P Require Import Prelude.
Open Scope list_scope.

Abbreviation text := (list Z) (only parsing).

(** [str.isspace], the characters [rstrip()] removes. *)
Definition is_space (c : Z) : bool :=
  ((9 <=? c) && (c <=? 13) || (28 <=? c) && (c <=? 32) || (c =? 133) || (c =? 160) || (c =? 5760)
   || (8192 <=? c) && (c <=? 8202) || (c =? 8232) || (c =? 8233) || (c =? 8239) || (c =? 8287)
   || (c =? 12288))%Z.
Definition NUL : Z := 0.
Definition NEWLINE : Z := 10.
Definition SPACE : Z := 32.
Definition BACKTICK : Z := 96.
Definition OPEN_BRACKET : Z := 91.
Definition CLOSE_BRACKET : Z := 93.
Definition ELLIPSIS : Z := 8230.

(** The characters of [lstrip(" \n")], also where a text may be cut. *)
Definition is_break (c : Z) : bool := bool_decide (c = NEWLINE) || bool_decide (c = SPACE).

Fixpoint strip_left (f : Z → bool) (t : text) : text :=
  match t with
  | c :: t' => if f c then strip_left f t' else t
  | [] => []
  end.
Definition rstrip (t : text) : text := reverse (strip_left is_space (reverse t)).

(** [value.count("```")]: occurrences that do not overlap. *)
Fixpoint count_fences (t : text) : nat :=
  match t with
  | c1 :: ((c2 :: c3 :: rest) as t') =>
      if bool_decide (c1 = BACKTICK ∧ c2 = BACKTICK ∧ c3 = BACKTICK) then S (count_fences rest)
      else count_fences t'
  | _ => O
  end.

(** One character of the bracket loop. *)
Definition bracket_step (brackets : nat) (character : Z) : nat :=
  if bool_decide (character = OPEN_BRACKET) then S brackets
  else if bool_decide (character = CLOSE_BRACKET) then pred brackets
  else brackets.

Definition markdown_state (value : text) : nat * nat :=
  (Nat.modulo (count_fences value) 2, foldl bracket_step O value).
Definition markdown_closed (value : text) : bool := bool_decide (markdown_state value = (O, O)).

(** The condition of the comprehension: a break just before [index], outside any
    construct.  It is used below the length of the text only. *)
Definition candidate (value : text) (index : nat) : bool :=
  match value !! pred index with
  | Some c => is_break c && markdown_closed (take index value)
  | None => false
  end.

Definition markdown_boundary (value : text) (maximum : nat) : nat :=
  match last (filter (λ index, candidate value index = true) (seq 1 maximum)) with
  | Some index => index
  | None => if markdown_closed (take maximum value) then maximum else O
  end.

(** The body of the [while] loop: the next piece and what remains. *)
Definition split_once (max_chars : nat) (remaining : text) : text * text :=
  let boundary := match markdown_boundary remaining max_chars with O => max_chars | b => b end in
  let piece := rstrip (take boundary remaining) in
  let '(piece, boundary) := match piece with
                            | [] => (take max_chars remaining, max_chars)
                            | _ => (piece, boundary)
                            end in
  (piece, strip_left is_break (drop boundary remaining)).

Fixpoint split_loop (fuel max_chars : nat) (remaining : text) : option (list text) :=
  match fuel with
  | O => None
  | S fuel' =>
      if (max_chars <? length remaining)%nat then
        let '(piece, remaining') := split_once max_chars remaining in
        pieces ← split_loop fuel' max_chars remaining';
        Some (piece :: pieces)
      else Some (match remaining with [] => [] | _ => [remaining] end)
  end.

Definition split_reply_text (content : text) (max_chars : nat) : option (list text) :=
  let clean := filter (λ c, c ≠ NUL) content in
  match clean with
  | [] => Some [[ELLIPSIS]]
  | _ => split_loop (S (length clean)) max_chars clean
  end.

(** ** Plans *)
Inductive ReplyStrategy := MERGED_STREAM | FINAL_ONLY.

Record ChannelReplyCapabilities := {
  supports_updates : bool;
  max_text_chars : nat;
  stream_chunk_chars : nat;
}.

(** [Field(ge=1, le=100_000)] *)
Definition capabilities_valid (c : ChannelReplyCapabilities) : bool :=
  (1 <=? Z.of_nat (max_text_chars c))%Z && (Z.of_nat (max_text_chars c) <=? 100000)%Z
  && (1 <=? Z.of_nat (stream_chunk_chars c))%Z && (Z.of_nat (stream_chunk_chars c) <=? 100000)%Z.

Record ReplyPlan := {
  strategy : ReplyStrategy;
  processing_notice : bool;
  stream_chunks : list text;
  final_messages : list text;
}.

Definition plan_reply (content : text) (capabilities : ChannelReplyCapabilities) (is_group : bool)
    : option ReplyPlan :=
  final ← split_reply_text content (max_text_chars capabilities);
  if is_group || negb (supports_updates capabilities) then
    Some {| strategy := FINAL_ONLY; processing_notice := is_group; stream_chunks := [];
            final_messages := final |}
  else
    chunks ← split_reply_text content (stream_chunk_chars capabilities);
    Some {| strategy := MERGED_STREAM; processing_notice := false; stream_chunks := chunks;
            final_messages := final |}.

(** ** Stripping *)
Abbreviation blank t := (Forall (λ c, is_space c = true) t).

Lemma is_break_space c : is_break c = true → is_space c = true.
Proof. unfold is_break. intros [->%bool_decide_eq_true| ->%bool_decide_eq_true]%orb_true_iff; done. Qed.

Lemma strip_left_split (f : Z → bool) t :
  ∃ gap, t = gap ++ strip_left f t ∧ Forall (λ c, f c = true) gap.
Proof.
  induction t as [|c t (gap & Ht & Hg)]; simpl; [by exists []|].
  destruct (f c) eqn:Hc; [|by exists []]. exists (c :: gap). simpl. by rewrite <- Ht; auto.
Qed.

Lemma rstrip_split t : ∃ gap, t = rstrip t ++ gap ∧ blank gap.
Proof.
  destruct (strip_left_split is_space (reverse t)) as (gap & Ht & Hg).
  exists (reverse gap). split; [|by apply Forall_reverse].
  unfold rstrip. rewrite <- reverse_app, <- Ht. by rewrite reverse_involutive.
Qed.

Lemma strip_left_nil f t : strip_left f t = [] ↔ Forall (λ c, f c = true) t.
Proof.
  induction t as [|c t IH]; simpl; [done|]. rewrite Forall_cons.
  destruct (f c) eqn:Hc; [rewrite IH; tauto|naive_solver].
Qed.

Lemma rstrip_nil t : rstrip t = [] ↔ blank t.
Proof.
  unfold rstrip. rewrite <- (reverse_involutive t) at 2. rewrite Forall_reverse, <- strip_left_nil.
  split; [|by intros ->]. intros H. by rewrite <- (reverse_involutive (strip_left _ _)), H.
Qed.

(** ** Boundaries *)
Lemma boundary_le value maximum : (markdown_boundary value maximum ≤ maximum)%nat.
Proof.
  unfold markdown_boundary. destruct (last _) as [i|] eqn:Hl; [|by case_match; lia].
  apply last_Some_elem_of, list_elem_of_filter in Hl as [_ [_ ?]%elem_of_seq]. lia.
Qed.

(** What one round consumes: a piece within the limit, and blanks after it. *)
Lemma split_once_spec max_chars remaining piece remaining' :
  (1 ≤ max_chars)%nat → (max_chars < length remaining)%nat →
  split_once max_chars remaining = (piece, remaining') →
  (1 ≤ length piece ≤ max_chars)%nat ∧
  ∃ gap, blank gap ∧ remaining = piece ++ gap ++ remaining'.
Proof.
  intros Hmax Hlen. unfold split_once.
  set (b := match markdown_boundary remaining max_chars with O => max_chars | b => b end).
  assert (1 ≤ b ≤ max_chars)%nat as Hb.
  { pose proof (boundary_le remaining max_chars). unfold b. case_match; lia. }
  assert (∀ p g n, take n remaining = p ++ g → blank g →
    ∃ gap, blank gap ∧ remaining = p ++ gap ++ strip_left is_break (drop n remaining)) as Hcut.
  { intros p g n Hp Hg. destruct (strip_left_split is_break (drop n remaining)) as (g' & Hd & Hg').
    exists (g ++ g'). split.
    - apply Forall_app. split; [done|]. eapply Forall_impl; [exact Hg'|]. apply is_break_space.
    - rewrite <- (take_drop n remaining) at 1. by rewrite Hp, Hd at 1; rewrite <- !app_assoc, <- Hd. }
  destruct (rstrip (take b remaining)) as [|c p] eqn:Hr; intros [= <- <-].
  - split; [rewrite length_take; lia|]. apply (Hcut _ []); [by rewrite app_nil_r|constructor].
  - destruct (rstrip_split (take b remaining)) as (g & Ht & Hg). rewrite Hr in Ht. split.
    + assert (length (take b remaining) = length ((c :: p) ++ g)) as Hl by by rewrite Ht.
      rewrite length_take, length_app in Hl. simpl in *. lia.
    + by apply (Hcut _ g).
Qed.

(** Trailing blanks open and close nothing. *)
Lemma count_fences_cons c1 t : count_fences (c1 :: t) =
  match t with
  | c2 :: c3 :: rest => if bool_decide (c1 = BACKTICK ∧ c2 = BACKTICK ∧ c3 = BACKTICK)
                        then S (count_fences rest) else count_fences t
  | _ => O
  end.
Proof. by destruct t as [|? [|? ?]]. Qed.

Lemma blank_no_tick gap c : blank gap → c ∈ gap → c ≠ BACKTICK.
Proof. intros Hg Hc ->. by apply (proj1 (Forall_forall _ _) Hg) in Hc. Qed.

Lemma count_fences_none gap : blank gap → count_fences gap = O.
Proof.
  induction gap as [|c1 gap IH]; intros Hg; [done|].
  pose proof (blank_no_tick _ c1 Hg ltac:(by left)) as Hc. rewrite count_fences_cons.
  destruct gap as [|c2 [|c3 gap]]; [done..|]. rewrite bool_decide_eq_false_2 by tauto.
  apply IH. by inversion Hg.
Qed.

Lemma count_fences_blank gap t : blank gap → count_fences (t ++ gap) = count_fences t.
Proof.
  intros Hg. remember (length t) as n eqn:Hn. revert t Hn.
  induction (lt_wf n) as [n _ IH]; intros t ->.
  destruct t as [|c1 [|c2 [|c3 t]]]; simpl app.
  - by apply count_fences_none.
  - rewrite count_fences_cons. destruct gap as [|g1 [|g2 gap]]; [done..|].
    rewrite bool_decide_eq_false_2; [by apply count_fences_none|].
    intros (_ & -> & _). by apply (blank_no_tick _ BACKTICK Hg); [left|].
  - rewrite count_fences_cons. destruct gap as [|g1 gap]; [done|].
    rewrite bool_decide_eq_false_2.
    + rewrite count_fences_cons. destruct gap as [|g2 gap]; [done|].
      rewrite bool_decide_eq_false_2; [by apply count_fences_none|].
      intros (_ & -> & _). by apply (blank_no_tick _ BACKTICK Hg); [left|].
    + intros (_ & _ & ->). by apply (blank_no_tick _ BACKTICK Hg); [left|].
  - rewrite !count_fences_cons. case_bool_decide.
    + f_equal. eapply (IH (length t)); [simpl; lia|done].
    + by apply (IH (length (c2 :: c3 :: t)) ltac:(simpl; lia) (c2 :: c3 :: t)).
Qed.

Lemma markdown_state_blank t gap : blank gap → markdown_state (t ++ gap) = markdown_state t.
Proof.
  intros Hg. unfold markdown_state. rewrite count_fences_blank, foldl_app by done. f_equal.
  generalize (foldl bracket_step O t). induction Hg as [|c gap Hc _ IH]; intros n; simpl; [done|].
  rewrite IH. unfold bracket_step. rewrite !bool_decide_eq_false_2; [done|by intros ->..].
Qed.

Lemma rstrip_closed t : markdown_closed (rstrip t) = markdown_closed t.
Proof.
  destruct (rstrip_split t) as (gap & Ht & Hg). unfold markdown_closed.
  assert (markdown_state t = markdown_state (rstrip t)) as ->; [|done].
  rewrite Ht at 1. by apply markdown_state_blank.
Qed.

(** A place to cut that leaves the constructs whole and some text before it. *)
Definition safe_boundary (rest : text) (max_chars index : nat) : Prop :=
  (1 ≤ index ≤ max_chars)%nat ∧ candidate rest index = true ∧ ¬ blank (take index rest).

Lemma blank_take i j (t : text) : (i ≤ j)%nat → blank (take j t) → blank (take i t).
Proof.
  intros Hij Hb. rewrite <- (Nat.min_l i j), <- take_take by lia.
  eapply Forall_take. exact Hb.
Qed.

Lemma filter_seq_last (P : nat → Prop) `{∀ i, Decision (P i)} n m i :
  last (filter P (seq n m)) = Some i → ∀ j, (n ≤ j < n + m)%nat → P j → (j ≤ i)%nat.
Proof.
  induction m as [|m IH]; intros Hl j Hj HP; [lia|].
  rewrite seq_S, filter_app in Hl. rewrite filter_cons, filter_nil in Hl.
  destruct (decide (P (n + m)%nat)).
  - rewrite last_snoc in Hl. injection Hl as <-. lia.
  - rewrite app_nil_r in Hl. destruct (decide (j = (n + m)%nat)) as [->|]; [done|].
    apply (IH Hl); [lia|done].
Qed.

Lemma split_once_markdown max_chars remaining piece remaining' :
  (1 ≤ max_chars)%nat → split_once max_chars remaining = (piece, remaining') →
  markdown_closed piece = true ∨
  (∃ gap, blank gap ∧ take max_chars remaining = piece ++ gap) ∧
  ∀ i, ¬ safe_boundary remaining max_chars i.
Proof.
  intros Hmax. unfold split_once, markdown_boundary.
  destruct (last _) as [i|] eqn:Hl.
  - pose proof (filter_seq_last _ _ _ _ Hl) as Hmost.
    apply last_Some_elem_of, list_elem_of_filter in Hl as [Hi [H1 H2]%elem_of_seq].
    destruct i as [|i]; [lia|]. destruct (rstrip (take (S i) remaining)) as [|c p] eqn:Hr; intros [= <- <-].
    + right. split; [by exists []; rewrite app_nil_r|]. intros j ([? ?] & Hc & Hv). apply Hv, (blank_take j (S i)).
      * apply Hmost; [lia|done].
      * by apply rstrip_nil.
    + left. rewrite <- Hr, rstrip_closed. unfold candidate in Hi. case_match; [|done].
      by apply andb_true_iff in Hi as [_ Hi].
  - assert (∀ i, ¬ safe_boundary remaining max_chars i) as Hnone.
    { intros i ([? ?] & Hc & _). apply last_None in Hl.
      assert (i ∈ filter (λ index, candidate remaining index = true) (seq 1 max_chars)) as Hin.
      { apply list_elem_of_filter. split; [done|]. apply elem_of_seq. lia. }
      rewrite Hl in Hin. by apply not_elem_of_nil in Hin. }
    destruct (markdown_closed (take max_chars remaining)) eqn:Hc.
    + destruct max_chars as [|m]; [lia|].
      destruct (rstrip _) as [|c p] eqn:Hr; intros [= <- <-]; left; [done|].
      by rewrite <- Hr, rstrip_closed.
    + destruct (rstrip_split (take max_chars remaining)) as (gap & Ht & Hg).
      destruct (rstrip _) as [|c p] eqn:Hr; intros [= <- <-]; right; (split; [|done]).
      * exists []. by rewrite app_nil_r.
      * by exists gap.
Qed.

(** [t] is the pieces in order, with nothing but blanks lost after each. *)
Definition cut_into (t : text) (pieces : list text) : Prop :=
  ∃ gaps : list text, length gaps = length pieces ∧ Forall (λ g, blank g) gaps ∧
    t = concat (zip_with app pieces gaps).

(** A piece that another one follows: it leaves no construct open, or it is what
    the limit allows of a [rest] in which no cut would. *)
Definition markdown_safe (clean : text) (max_chars : nat) (piece : text) : Prop :=
  markdown_closed piece = true ∨
  ∃ rest gap, rest `suffix_of` clean ∧ blank gap ∧ take max_chars rest = piece ++ gap ∧
    ∀ i, ¬ safe_boundary rest max_chars i.

Lemma split_loop_spec max_chars fuel remaining :
  (1 ≤ max_chars)%nat → (length remaining < fuel)%nat →
  ∃ pieces, split_loop fuel max_chars remaining = Some pieces ∧
    Forall (λ p, 1 ≤ length p ≤ max_chars)%nat pieces ∧ cut_into remaining pieces ∧
    ∀ before p after, pieces = before ++ p :: after → after ≠ [] →
      markdown_safe remaining max_chars p.
Proof.
  intros Hmax. revert remaining. induction fuel as [|fuel IH]; intros remaining Hfuel; [lia|].
  cbn [split_loop]. destruct (Nat.ltb_spec max_chars (length remaining)) as [Hlen|Hlen].
  - destruct (split_once max_chars remaining) as [piece remaining'] eqn:Honce.
    destruct (split_once_spec _ _ _ _ Hmax Hlen Honce) as (Hp & gap & Hg & Hr).
    destruct (IH remaining') as (pieces & -> & Hall & (gaps & Hl & Hgs & Hcat) & Hsafe).
    { rewrite Hr, !length_app in Hfuel. lia. }
    exists (piece :: pieces). simpl. split_and!; [done|by constructor| |].
    + exists (gap :: gaps). simpl. split_and!; [by f_equal|by constructor|].
      by rewrite Hr, Hcat, <- app_assoc.
    + intros [|q before] p after [= <- Hps] Hafter.
      * destruct (split_once_markdown _ _ _ _ Hmax Honce) as [|[(g & ? & ?) ?]]; [by left|].
        right. exists remaining, g. split_and!; done.
      * destruct (Hsafe before p after Hps Hafter) as [|(rest & g & Hsuf & ? & ? & ?)]; [by left|].
        right. exists rest, g. split_and!; [|done..]. destruct Hsuf as [k ->].
        exists (piece ++ gap ++ k). by rewrite Hr, <- !app_assoc.
  - destruct remaining as [|c remaining].
    + exists []. split_and!; [done|constructor|by exists []|]. intros [] ??; discriminate.
    + exists [c :: remaining]. split_and!; [done|..].
      * apply Forall_singleton. simpl in *. lia.
      * exists [[]]. split_and!; [done|by repeat constructor|]. simpl. by rewrite !app_nil_r.
      * intros [|? []] p after [= <- <-]; done.
Qed.

(** The characters of a reply that are sent. *)
Definition clean_text (content : text) : text := filter (λ c, c ≠ NUL) content.

(** What a delivered sequence of messages has to be for a reply. *)
Definition faithful_messages (content : text) (limit : nat) (messages : list text) : Prop :=
  messages ≠ [] ∧ Forall (λ p, 1 ≤ length p ≤ limit)%nat messages ∧
  (clean_text content = [] → messages = [[ELLIPSIS]]) ∧
  (clean_text content ≠ [] → cut_into (clean_text content) messages).

Lemma split_reply_spec content max_chars :
  (1 ≤ max_chars)%nat →
  ∃ pieces, split_reply_text content max_chars = Some pieces ∧
    faithful_messages content max_chars pieces ∧
    ∀ before p after, pieces = before ++ p :: after → after ≠ [] →
      markdown_safe (clean_text content) max_chars p.
Proof.
  intros Hmax. unfold split_reply_text, faithful_messages, clean_text.
  destruct (filter _ content) as [|c clean].
  - exists [[ELLIPSIS]]. split_and!; try done; [by apply Forall_singleton; simpl; lia|].
    intros [|? []] p after [= <- <-]; done.
  - destruct (split_loop_spec max_chars (S (length (c :: clean))) (c :: clean)) as
      (pieces & Hs & Hall & Hcut & Hsafe); [done|lia|].
    exists pieces. split_and!; try done. intros ->. by destruct Hcut as ([] & ? & ? & ?).
Qed.



(** Messages keep Markdown whole: every message of a split reply that another
    one follows leaves no code fence and no link text open, unless it is what the
    limit allows of a remainder that has no break within the limit, after some
    visible text, at which nothing is open. *)
Theorem split_keeps_markdown content max_chars pieces before p after :
  (1 ≤ max_chars)%nat →
  split_reply_text content max_chars = Some pieces → pieces = before ++ p :: after → after ≠ [] →
  markdown_safe (clean_text content) max_chars p.
Proof.
  intros Hmax Hs. destruct (split_reply_spec content max_chars Hmax) as (pieces' & Hs' & _ & Hsafe).
  rewrite Hs in Hs'. injection Hs' as <-. apply Hsafe.
Qed.

(** "ab [c d] ef" cut at six characters: the link text stays whole. *)
Lemma split_keeps_markdown_witness :
  split_reply_text [97; 98; 32; 91; 99; 32; 100; 93; 32; 101; 102]%Z 6
    = Some [[97; 98]; [91; 99; 32; 100; 93]; [101; 102]]%Z ∧
  markdown_safe [97; 98; 32; 91; 99; 32; 100; 93; 32; 101; 102]%Z 6 [97; 98]%Z.
Proof.
  split; [vm_compute; reflexivity|].
  apply (split_keeps_markdown [97; 98; 32; 91; 99; 32; 100; 93; 32; 101; 102]%Z 6
    [[97; 98]; [91; 99; 32; 100; 93]; [101; 102]]%Z [] [97; 98]%Z [[91; 99; 32; 100; 93]; [101; 102]]%Z);
    [lia|vm_compute; reflexivity|reflexivity|discriminate].
Defined.

(** A marker that straddles the limit: the prefix looks closed, so the boundary is
    the limit itself and the fence is cut in two, each half a message of its own. *)
Lemma boundary_bisects_fence :
  markdown_boundary [97; 96; 96; 96; 120; 96; 96; 96]%Z 3 = 3 ∧
  split_reply_text [97; 96; 96; 96; 120; 96; 96; 96]%Z 3
    = Some [[97; 96; 96]; [96; 120; 96]; [96; 96]]%Z.
Proof. split; vm_compute; reflexivity. Qed.
