(* ===== verification/Delivery.v ===== *)
(** * Reply deliveries (trpc_service/channels/delivery.py, DatabaseDeliveryStore of channels/store.py)

    One delivery is a row with a status and a counter of attempts.  The service
    claims the row, sends through the channel's transport, records the attempt and
    saves the status the outcome calls for.  Each call of the store is one
    transaction and each send one step, so the operations are programs that other
    workers (or a crash) can interrupt between any two steps.

    The transport is a parameter: a channel with a state of its own, that answers a
    send (or raises) and gives a verdict when it is asked about an attempt.  What
    the channel was asked and answered is kept in a log, which the code does not
    have; the theorems are about it. *)

From S2P Require Import Prelude PyNum Uuids Interleave ExecutionBus.
Open Scope string_scope.
Open Scope list_scope.
Open Scope Z_scope.

(** ** Data *)
Inductive DeliveryState :=
  | QUEUED | IN_FLIGHT | DELIVERED | RATE_LIMITED | FAILED | OUTCOME_UNKNOWN | DEAD_LETTER.
#[export] Instance DeliveryState_eq_dec : EqDecision DeliveryState.
Proof. solve_decision. Defined.

Definition TERMINAL_STATES : list DeliveryState := [DELIVERED; DEAD_LETTER].

(** [str(state)] *)
Definition state_value (s : DeliveryState) : string :=
  match s with
  | QUEUED => "QUEUED" | IN_FLIGHT => "IN_FLIGHT" | DELIVERED => "DELIVERED"
  | RATE_LIMITED => "RATE_LIMITED" | FAILED => "FAILED" | OUTCOME_UNKNOWN => "OUTCOME_UNKNOWN"
  | DEAD_LETTER => "DEAD_LETTER"
  end.

Record ReplyDelivery := {
  rd_tenant_id : uuid;
  rd_delivery_id : uuid;
  rd_binding_id : string;
  rd_execution_id : string;
  rd_external_conversation_id : string;
  rd_content : string;
  rd_status : DeliveryState;
  rd_attempts : Z;
  rd_created_at : instant;
}.

#[export] Instance ReplyDelivery_eq_dec : EqDecision ReplyDelivery.
Proof. solve_decision. Defined.

(** The length constraints of the model. *)
Definition delivery_valid (d : ReplyDelivery) : bool :=
  negb (bool_decide (rd_binding_id d = "")) && negb (bool_decide (rd_execution_id d = ""))
  && length_between 1 256 (rd_external_conversation_id d) && negb (bool_decide (rd_content d = "")).

(** [delivery.model_copy(update={"status": ..., "attempts": ...})] *)
Definition with_status (status : DeliveryState) (attempts : Z) (d : ReplyDelivery) : ReplyDelivery :=
  {| rd_tenant_id := rd_tenant_id d; rd_delivery_id := rd_delivery_id d;
     rd_binding_id := rd_binding_id d; rd_execution_id := rd_execution_id d;
     rd_external_conversation_id := rd_external_conversation_id d; rd_content := rd_content d;
     rd_status := status; rd_attempts := attempts; rd_created_at := rd_created_at d |}.

(** [delivery.model_copy(update={"content": ..., "status": QUEUED})] *)
Definition with_content (content : string) (d : ReplyDelivery) : ReplyDelivery :=
  {| rd_tenant_id := rd_tenant_id d; rd_delivery_id := rd_delivery_id d;
     rd_binding_id := rd_binding_id d; rd_execution_id := rd_execution_id d;
     rd_external_conversation_id := rd_external_conversation_id d; rd_content := content;
     rd_status := QUEUED; rd_attempts := rd_attempts d; rd_created_at := rd_created_at d |}.

Record DeliveryAttempt := {
  da_attempt_id : uuid;
  da_tenant_id : uuid;
  da_delivery_id : uuid;
  da_attempt_no : Z;
  da_outcome : string;
  da_error_code : option string;
  da_started_at : instant;
  da_finished_at : option instant;
}.

Record ChannelTransportOutcome := {
  to_delivered : bool;
  to_rate_limited : bool;
  to_outcome_unknown : bool;
  to_error_code : option string;
}.

(** "delivered", "not_delivered" or "unknown"; the code compares with the first and
    the last. *)
Abbreviation ReconcileVerdict := string.

(** What passed between a delivery and its channel: a send and its answer (the
    transport may raise), or a question about an attempt and the verdict. *)
Inductive channel_event :=
  | Sent (attempt_no : Z) (content : string) (answer : outcome unit ChannelTransportOutcome)
  | Reconciled (attempt_no : Z) (verdict : ReconcileVerdict).

(** The database and the channel. *)
Record DeliverySystem (C : Type) := {
  dd_deliveries : gmap (uuid * uuid) ReplyDelivery;
  dd_attempts : list DeliveryAttempt;
  dd_next_id : nat;
  dd_now : instant;
  dd_channel : C;
  dd_log : list ((uuid * uuid) * channel_event);
}.
Arguments dd_deliveries {_} _.
Arguments dd_attempts {_} _.
Arguments dd_next_id {_} _.
Arguments dd_now {_} _.
Arguments dd_channel {_} _.
Arguments dd_log {_} _.

Inductive delivery_exn :=
  | ReplyDeliveryError (code : string)
  | DValidation                      (* a pydantic [ValidationError] *)
  | DValue                           (* [UUID(text)] of a text that is none *)
  | DSql                             (* a constraint of the tables *)
  | DOverflow                        (* [float] of an integer beyond its range *)
  | DOutOfFuel.

(** ** Back-off: microseconds; [float(2 ** n)] raises [OverflowError] from 2^1024 on. *)
Definition MAX_BACKOFF_SECONDS : Z := 60 * 1000000.
Definition DEFAULT_MAX_ATTEMPTS : Z := 5.
Definition DEFAULT_BACKOFF_SECONDS : Z := 1000000.

Definition backoff_delay (attempt_no base_seconds : Z) : option Z :=
  let exponent := Z.max 0 (attempt_no - 1) in
  if exponent <? 1024 then Some (Z.min (base_seconds * 2 ^ exponent) MAX_BACKOFF_SECONDS) else None.

Section Store.
Context {C : Type} (uuid_at : nat → uuid).
Abbreviation Sys := (DeliverySystem C).
Abbreviation DS A := (ST Sys delivery_exn A).

Definition set_deliveries (f : gmap (uuid * uuid) ReplyDelivery → gmap (uuid * uuid) ReplyDelivery)
    (s : Sys) : Sys :=
  {| dd_deliveries := f (dd_deliveries s); dd_attempts := dd_attempts s; dd_next_id := dd_next_id s;
     dd_now := dd_now s; dd_channel := dd_channel s; dd_log := dd_log s |}.
Definition add_attempt (a : DeliveryAttempt) (s : Sys) : Sys :=
  {| dd_deliveries := dd_deliveries s; dd_attempts := dd_attempts s ++ [a]; dd_next_id := dd_next_id s;
     dd_now := dd_now s; dd_channel := dd_channel s; dd_log := dd_log s |}.
Definition draw (s : Sys) : Sys :=
  {| dd_deliveries := dd_deliveries s; dd_attempts := dd_attempts s; dd_next_id := S (dd_next_id s);
     dd_now := dd_now s; dd_channel := dd_channel s; dd_log := dd_log s |}.
Definition pass_time (t : Z) (s : Sys) : Sys :=
  {| dd_deliveries := dd_deliveries s; dd_attempts := dd_attempts s; dd_next_id := dd_next_id s;
     dd_now := dd_now s + t; dd_channel := dd_channel s; dd_log := dd_log s |}.
Definition talk (key : uuid * uuid) (e : channel_event) (c : C) (s : Sys) : Sys :=
  {| dd_deliveries := dd_deliveries s; dd_attempts := dd_attempts s; dd_next_id := dd_next_id s;
     dd_now := dd_now s; dd_channel := c; dd_log := dd_log s ++ [(key, e)] |}.

(** [uuid4()] *)
Definition draw_uuid : DS uuid := n ← gets dd_next_id; _ ← modify draw; mret (uuid_at n).

(** *** DatabaseDeliveryStore *)

(** [INSERT ... ON CONFLICT (tenant_id,delivery_id) DO UPDATE SET content, status,
    attempts]: a new row gets the database's time. *)
Definition save_delivery (d : ReplyDelivery) : DS unit :=
  binding ← get_or_raise (parse_uuid (rd_binding_id d)) DValue;
  _ ← ensure (length_between 1 256 (rd_external_conversation_id d) && (0 <=? rd_attempts d)) DSql;
  now ← gets dd_now;
  modify (set_deliveries (λ rows,
    match rows !! (rd_tenant_id d, rd_delivery_id d) with
    | Some row =>
        <[(rd_tenant_id d, rd_delivery_id d) :=
          {| rd_tenant_id := rd_tenant_id row; rd_delivery_id := rd_delivery_id row;
             rd_binding_id := rd_binding_id row; rd_execution_id := rd_execution_id row;
             rd_external_conversation_id := rd_external_conversation_id row;
             rd_content := rd_content d; rd_status := rd_status d; rd_attempts := rd_attempts d;
             rd_created_at := rd_created_at row |}]> rows
    | None =>
        <[(rd_tenant_id d, rd_delivery_id d) :=
          {| rd_tenant_id := rd_tenant_id d; rd_delivery_id := rd_delivery_id d;
             rd_binding_id := uuid_text binding; rd_execution_id := rd_execution_id d;
             rd_external_conversation_id := rd_external_conversation_id d;
             rd_content := rd_content d; rd_status := rd_status d; rd_attempts := rd_attempts d;
             rd_created_at := now |}]> rows
    end)).

Definition get_delivery (tenant_id delivery_id : uuid) : DS (option ReplyDelivery) :=
  gets (λ s, dd_deliveries s !! (tenant_id, delivery_id)).

(** [INSERT ... ON CONFLICT (tenant_id,attempt_id) DO NOTHING]; the number of an
    attempt is unique per delivery. *)
Definition save_attempt (a : DeliveryAttempt) : DS unit :=
  rows ← gets dd_attempts;
  if existsb (λ r, bool_decide (da_tenant_id r = da_tenant_id a)
                   && bool_decide (da_attempt_id r = da_attempt_id a)) rows then mret tt
  else
    _ ← ensure ((1 <=? da_attempt_no a)
                && negb (existsb (λ r, bool_decide (da_tenant_id r = da_tenant_id a)
                                       && bool_decide (da_delivery_id r = da_delivery_id a)
                                       && bool_decide (da_attempt_no r = da_attempt_no a)) rows)) DSql;
    modify (add_attempt a).

Definition claim_attempt (tenant_id delivery_id : uuid) (from_status : DeliveryState) (attempt_no : Z)
    : DS (option ReplyDelivery) :=
  row ← gets (λ s, dd_deliveries s !! (tenant_id, delivery_id));
  match row with
  | Some row =>
      if bool_decide (rd_status row = from_status) then
        _ ← ensure (0 <=? attempt_no) DSql;
        let claimed := with_status IN_FLIGHT attempt_no row in
        _ ← modify (set_deliveries (<[(tenant_id, delivery_id) := claimed]>));
        mret (Some claimed)
      else mret None
  | None => mret None
  end.

(** [SELECT ... WHERE status='DEAD_LETTER' ORDER BY created_at] *)
Definition list_dead_letters (tenant_id : uuid) : DS (list ReplyDelivery) :=
  gets (λ s, sort_on rd_created_at
    (filter (λ d, rd_tenant_id d = tenant_id ∧ rd_status d = DEAD_LETTER)
       (map_to_list (dd_deliveries s)).*2)).
End Store.

(** ** ReplyDeliveryService *)
Section Service.
Context {C : Type} (uuid_at : nat → uuid).
Context (send : C → ReplyDelivery → Z → outcome unit ChannelTransportOutcome * C).
Context (reconcile : C → ReplyDelivery → Z → ReconcileVerdict).
Context (backoff_seconds max_attempts : Z).
Abbreviation Sys := (DeliverySystem C).
Abbreviation PD A := (PM Sys delivery_exn A).

Definition delivery_key (d : ReplyDelivery) : uuid * uuid := (rd_tenant_id d, rd_delivery_id d).

(** [started = datetime.now(UTC)] and [await self._transport.send(...)] *)
Definition send_step (d : ReplyDelivery) (attempt_no : Z)
    : ST Sys delivery_exn (instant * outcome unit ChannelTransportOutcome) := λ s,
  let '(answer, channel) := send (dd_channel s) d attempt_no in
  (Ok (dd_now s, answer), talk (delivery_key d) (Sent attempt_no (rd_content d) answer) channel s).

(** [self._transport.reconcile(...)] *)
Definition reconcile_step (d : ReplyDelivery) (attempt_no : Z) : ST Sys delivery_exn ReconcileVerdict :=
  λ s, let verdict := reconcile (dd_channel s) d attempt_no in
  (Ok verdict, talk (delivery_key d) (Reconciled attempt_no verdict) (dd_channel s) s).

Definition enqueue (tenant_id : uuid) (binding_id execution_id external_conversation_id content : string)
    (delivery_id : option uuid) : PD ReplyDelivery :=
  stable_id <-- match delivery_id with
                | Some id => pm_ret id
                | None => atomically (draw_uuid uuid_at)
                end;
  existing <-- match delivery_id with
               | Some _ => atomically (get_delivery tenant_id stable_id)
               | None => pm_ret None
               end;
  match existing with
  | Some d => pm_ret d
  | None =>
      now <-- atomically (gets dd_now);
      let d := {| rd_tenant_id := tenant_id; rd_delivery_id := stable_id;
                  rd_binding_id := binding_id; rd_execution_id := execution_id;
                  rd_external_conversation_id := external_conversation_id; rd_content := content;
                  rd_status := QUEUED; rd_attempts := 0; rd_created_at := now |} in
      if delivery_valid d then
        _ <-- atomically (save_delivery d);
        pm_ret d
      else pm_raise DValidation
  end.

Definition load (tenant_id delivery_id : uuid) : PD ReplyDelivery :=
  d <-- atomically (get_delivery tenant_id delivery_id);
  match d with
  | None => pm_raise (ReplyDeliveryError "DELIVERY_NOT_FOUND")
  | Some d => pm_ret d
  end.

Definition transition (d : ReplyDelivery) (status : DeliveryState) (attempts : option Z)
    : PD ReplyDelivery :=
  let updated := with_status status (default (rd_attempts d) attempts) d in
  _ <-- atomically (save_delivery updated);
  pm_ret updated.

Definition record_attempt (d : ReplyDelivery) (attempt_no : Z) (result : string)
    (error_code : option string) (started_at : instant) : PD unit :=
  atomically (
    id ← draw_uuid uuid_at;
    now ← gets dd_now;
    save_attempt {| da_attempt_id := id; da_tenant_id := rd_tenant_id d;
                    da_delivery_id := rd_delivery_id d; da_attempt_no := attempt_no;
                    da_outcome := result; da_error_code := error_code;
                    da_started_at := started_at; da_finished_at := Some now |}).

Definition resume_reconciliation (d : ReplyDelivery) : PD ReplyDelivery :=
  verdict <-- atomically (reconcile_step d (rd_attempts d));
  if bool_decide (verdict = "delivered") then transition d DELIVERED None
  else if bool_decide (verdict = "unknown") then pm_ret d
  else transition d FAILED None.

(** What the loop does with the answer to attempt [attempt_no]: [inl] is a [return],
    [inr] the delivery the loop goes on with. *)
Definition settle_attempt (d : ReplyDelivery) (attempt_no : Z) (started : instant)
    (answer : outcome unit ChannelTransportOutcome) : PD (ReplyDelivery + ReplyDelivery) :=
  match answer with
  | Raise _ =>
      _ <-- record_attempt d attempt_no "OUTCOME_UNKNOWN" (Some "CHANNEL_SEND_FAILED") started;
      d' <-- transition d OUTCOME_UNKNOWN None;
      pm_ret (inl d')
  | Ok result =>
      if to_delivered result then
        _ <-- record_attempt d attempt_no "DELIVERED" None started;
        d' <-- transition d DELIVERED (Some attempt_no);
        pm_ret (inl d')
      else if to_outcome_unknown result then
        verdict <-- atomically (reconcile_step d attempt_no);
        if bool_decide (verdict = "delivered") then
          _ <-- record_attempt d attempt_no "RECONCILED_DELIVERED" (to_error_code result) started;
          d' <-- transition d DELIVERED (Some attempt_no);
          pm_ret (inl d')
        else if bool_decide (verdict = "unknown") then
          _ <-- record_attempt d attempt_no "OUTCOME_UNKNOWN" (to_error_code result) started;
          d' <-- transition d OUTCOME_UNKNOWN None;
          pm_ret (inl d')
        else
          _ <-- record_attempt d attempt_no "RECONCILED_NOT_DELIVERED" (to_error_code result) started;
          d' <-- transition d FAILED (Some attempt_no);
          pm_ret (inr d')
      else
        let state := if to_rate_limited result then RATE_LIMITED else FAILED in
        _ <-- record_attempt d attempt_no (state_value state) (to_error_code result) started;
        d' <-- transition d state (Some attempt_no);
        pm_ret (inr d')
  end.

(** [await asyncio.sleep(backoff_delay(...))] before any attempt but the first. *)
Definition back_off (d : ReplyDelivery) : PD unit :=
  if 0 <? rd_attempts d then
    match backoff_delay (rd_attempts d) backoff_seconds with
    | Some t => atomically (modify (pass_time t))
    | None => pm_raise DOverflow
    end
  else pm_ret tt.

(** The [while True] loop. *)
Fixpoint run_loop (fuel : nat) (budget : Z) (tenant_id delivery_id : uuid) (d : ReplyDelivery)
    : PD ReplyDelivery :=
  match fuel with
  | O => pm_raise DOutOfFuel
  | S fuel' =>
      if (budget <=? rd_attempts d) && negb (bool_decide (rd_status d = RATE_LIMITED)) then
        transition d DEAD_LETTER None
      else
        _ <-- back_off d;
        let attempt_no := rd_attempts d + 1 in
        claimed <-- atomically (claim_attempt tenant_id delivery_id (rd_status d) attempt_no);
        match claimed with
        | None => pm_ret d
        | Some claimed =>
            sent <-- atomically (send_step claimed attempt_no);
            next <-- settle_attempt claimed attempt_no sent.1 sent.2;
            match next with
            | inl d' => pm_ret d'
            | inr d' => run_loop fuel' budget tenant_id delivery_id d'
            end
        end
  end.

(** Every round adds an attempt and the back-off of the 1025th raises. *)
Definition RUN_FUEL : nat := 1027.

Definition run (delivery_id tenant_id : uuid) (max_attempts' : option Z) : PD ReplyDelivery :=
  let budget := default max_attempts max_attempts' in
  d <-- load tenant_id delivery_id;
  if bool_decide (rd_status d ∈ TERMINAL_STATES) then pm_ret d
  else if bool_decide (rd_status d = OUTCOME_UNKNOWN) then
    d <-- resume_reconciliation d;
    if bool_decide (rd_status d ∈ TERMINAL_STATES ++ [OUTCOME_UNKNOWN]) then pm_ret d
    else run_loop RUN_FUEL budget tenant_id delivery_id d
  else run_loop RUN_FUEL budget tenant_id delivery_id d.

Definition replay (delivery_id tenant_id : uuid) : PD ReplyDelivery :=
  d <-- load tenant_id delivery_id;
  if negb (bool_decide (rd_status d = DEAD_LETTER)) then
    pm_raise (ReplyDeliveryError "DELIVERY_NOT_DEAD_LETTER")
  else
    d <-- transition d QUEUED None;
    run delivery_id tenant_id (Some (rd_attempts d + 1)).

Definition update (delivery_id tenant_id : uuid) (content : string) : PD ReplyDelivery :=
  d <-- load tenant_id delivery_id;
  if negb (bool_decide (rd_status d = DELIVERED)) then
    pm_raise (ReplyDeliveryError "DELIVERY_NOT_UPDATABLE")
  else
    let updated := with_content content d in
    _ <-- atomically (save_delivery updated);
    pm_ret updated.
End Service.

(** ** The delivery protocol

    What a delivery promises to its channel, as a state machine over the row of one
    delivery, the conversation with its channel and the attempts on record.  The
    machine is the abstract specification of [Delivery]; [view_ok] is its
    invariant. *)

(** ** Reading the conversation *)
Definition event_no (e : channel_event) : Z :=
  match e with Sent n _ _ => n | Reconciled n _ => n end.

(** The state an event calls for; an answer that leaves the outcome open calls for
    a question first. *)
Definition event_verdict (e : channel_event) : option DeliveryState :=
  match e with
  | Sent _ _ (Raise _) => Some OUTCOME_UNKNOWN
  | Sent _ _ (Ok r) =>
      if to_delivered r then Some DELIVERED
      else if to_outcome_unknown r then None
      else Some (if to_rate_limited r then RATE_LIMITED else FAILED)
  | Reconciled _ v =>
      Some (if bool_decide (v = "delivered") then DELIVERED
            else if bool_decide (v = "unknown") then OUTCOME_UNKNOWN else FAILED)
  end.

(** The outcome on record for an event. *)
Definition record_text (e : channel_event) : string :=
  match e with
  | Sent _ _ (Raise _) => "OUTCOME_UNKNOWN"
  | Sent _ _ (Ok r) =>
      if to_delivered r then "DELIVERED" else if to_rate_limited r then "RATE_LIMITED" else "FAILED"
  | Reconciled _ v =>
      if bool_decide (v = "delivered") then "RECONCILED_DELIVERED"
      else if bool_decide (v = "unknown") then "OUTCOME_UNKNOWN" else "RECONCILED_NOT_DELIVERED"
  end.

Definition sent_no (e : channel_event) : option Z :=
  match e with Sent n _ _ => Some n | Reconciled _ _ => None end.
Definition sent_nos (events : list channel_event) : list Z := omap sent_no events.

Record delivery_view := {
  vw_row : option ReplyDelivery;
  vw_events : list channel_event;
  vw_recorded : list (Z * string);
}.
Definition new_delivery_view : delivery_view :=
  {| vw_row := None; vw_events := []; vw_recorded := [] |}.

Definition move_to (status : DeliveryState) (attempts : Z) (d : ReplyDelivery) (v : delivery_view)
    : delivery_view :=
  {| vw_row := Some (with_status status attempts d); vw_events := vw_events v;
     vw_recorded := vw_recorded v |}.
Definition observe (e : channel_event) (v : delivery_view) : delivery_view :=
  {| vw_row := vw_row v; vw_events := vw_events v ++ [e]; vw_recorded := vw_recorded v |}.

(** ** The machine *)
Inductive protocol : delivery_view → delivery_view → Prop :=
  | p_create v d :                     (* a new delivery is queued, with no attempts *)
      vw_row v = None → rd_status d = QUEUED → rd_attempts d = 0 →
      protocol v {| vw_row := Some d; vw_events := vw_events v; vw_recorded := vw_recorded v |}
  | p_claim v d :                      (* a worker takes it, under the next number *)
      vw_row v = Some d → rd_status d ∈ [QUEUED; IN_FLIGHT; RATE_LIMITED; FAILED] →
      protocol v (move_to IN_FLIGHT (rd_attempts d + 1) d v)
  | p_send v d answer :                (* the number is sent for the first time *)
      vw_row v = Some d → rd_status d = IN_FLIGHT →
      Forall (λ n, n < rd_attempts d) (sent_nos (vw_events v)) →
      protocol v (observe (Sent (rd_attempts d) (rd_content d) answer) v)
  | p_ask v d verdict :                (* an open outcome is looked up *)
      vw_row v = Some d →
      rd_status d = OUTCOME_UNKNOWN ∨
        (rd_status d = IN_FLIGHT ∧
         ∃ e, last (vw_events v) = Some e ∧ event_no e = rd_attempts d ∧ event_verdict e = None) →
      protocol v (observe (Reconciled (rd_attempts d) verdict) v)
  | p_record v d e :                   (* a decided attempt is put on record, once *)
      vw_row v = Some d → rd_status d = IN_FLIGHT → last (vw_events v) = Some e →
      event_no e = rd_attempts d → is_Some (event_verdict e) →
      Forall (λ r, r.1 < rd_attempts d) (vw_recorded v) →
      protocol v {| vw_row := Some d; vw_events := vw_events v;
                    vw_recorded := vw_recorded v ++ [(rd_attempts d, record_text e)] |}
  | p_settle v d e st :                (* and decides the state *)
      vw_row v = Some d → rd_status d = IN_FLIGHT → last (vw_events v) = Some e →
      event_no e = rd_attempts d → event_verdict e = Some st →
      (rd_attempts d, record_text e) ∈ vw_recorded v →
      protocol v (move_to st (rd_attempts d) d v)
  | p_resume v d n verdict st :        (* a verdict on a parked attempt *)
      vw_row v = Some d → rd_status d = OUTCOME_UNKNOWN →
      last (vw_events v) = Some (Reconciled n verdict) → n = rd_attempts d →
      event_verdict (Reconciled n verdict) = Some st → st ≠ OUTCOME_UNKNOWN →
      protocol v (move_to st (rd_attempts d) d v)
  | p_give_up v d :                    (* attempts exhausted *)
      vw_row v = Some d → rd_status d ∈ [QUEUED; IN_FLIGHT; FAILED] →
      protocol v (move_to DEAD_LETTER (rd_attempts d) d v)
  | p_replay v d :                     (* a dead letter is queued again *)
      vw_row v = Some d → rd_status d = DEAD_LETTER →
      protocol v (move_to QUEUED (rd_attempts d) d v)
  | p_update v d content :             (* a delivered message gets a new text *)
      vw_row v = Some d → rd_status d = DELIVERED →
      protocol v {| vw_row := Some (with_content content d); vw_events := vw_events v;
                    vw_recorded := vw_recorded v |}.

(** ** Its invariant *)
Definition decided (v : delivery_view) (d : ReplyDelivery) : Prop :=
  ∃ e, last (vw_events v) = Some e ∧ event_no e = rd_attempts d ∧
       event_verdict e = Some (rd_status d).

Record row_ok (v : delivery_view) (d : ReplyDelivery) : Prop := {
  ro_attempts : 0 ≤ rd_attempts d;
  ro_sent : Forall (λ n, 1 ≤ n ≤ rd_attempts d) (sent_nos (vw_events v));
  ro_increasing : StronglySorted Z.lt (sent_nos (vw_events v));
  ro_recorded : Forall (λ r, r.1 ≤ rd_attempts d) (vw_recorded v);
  ro_recorded_increasing : StronglySorted Z.lt (vw_recorded v).*1;
  ro_recorded_true : ∀ n t, (n, t) ∈ vw_recorded v →
    ∃ e, e ∈ vw_events v ∧ event_no e = n ∧ record_text e = t ∧ is_Some (event_verdict e);
  ro_events_sent : ∀ e, e ∈ vw_events v → event_no e ∈ sent_nos (vw_events v);
  ro_decided : rd_status d ∈ [DELIVERED; RATE_LIMITED; FAILED] → decided v d;
  ro_parked : rd_status d = OUTCOME_UNKNOWN → rd_attempts d ∈ sent_nos (vw_events v);
  ro_flying : rd_status d = IN_FLIGHT → 1 ≤ rd_attempts d;
}.

Definition view_ok (v : delivery_view) : Prop :=
  match vw_row v with
  | None => vw_events v = [] ∧ vw_recorded v = []
  | Some d => row_ok v d
  end.

Lemma sorted_snoc (l : list Z) n :
  StronglySorted Z.lt l → Forall (λ m, m < n) l → StronglySorted Z.lt (l ++ [n]).
Proof.
  intros Hs Hn. induction Hs as [|m l Hs IH Hm]; simpl; [repeat constructor|].
  apply Forall_cons in Hn as [? Hn]. constructor; [by apply IH|].
  apply Forall_app. split; [done|]. by apply Forall_singleton.
Qed.

Lemma sent_nos_snoc events e :
  sent_nos (events ++ [e]) = sent_nos events ++ (match sent_no e with Some n => [n] | None => [] end).
Proof. unfold sent_nos. rewrite omap_app. simpl. by destruct (sent_no e). Qed.

Lemma Forall_le_trans {A} (f : A → Z) (l : list A) n m :
  n ≤ m → Forall (λ x, f x ≤ n) l → Forall (λ x, f x ≤ m) l.
Proof. intros Hnm Hl. eapply Forall_impl; [exact Hl|]. simpl. lia. Qed.

(** A change of status that keeps the conversation. *)
Lemma row_ok_move v d st n :
  row_ok v d → rd_attempts d ≤ n →
  (st ∈ [DELIVERED; RATE_LIMITED; FAILED] → decided v (with_status st n d)) →
  (st = OUTCOME_UNKNOWN → n ∈ sent_nos (vw_events v)) → (st = IN_FLIGHT → 1 ≤ n) →
  view_ok (move_to st n d v).
Proof.
  intros [] Hn Hdec Hparked Hfly. unfold view_ok. simpl. split; simpl; try done; [lia| |].
  - eapply Forall_impl; [exact ro_sent0|]. simpl. lia.
  - eapply Forall_le_trans; [|exact ro_recorded0]. done.
Qed.

Lemma last_elem (events : list channel_event) e : last events = Some e → e ∈ events.
Proof. apply last_Some_elem_of. Qed.

Lemma row_ok_ask v d verdict :
  row_ok v d → rd_status d ∈ [OUTCOME_UNKNOWN; IN_FLIGHT] → rd_attempts d ∈ sent_nos (vw_events v) →
  row_ok (observe (Reconciled (rd_attempts d) verdict) v) d.
Proof.
  intros [] Hst Hsent. split; simpl; rewrite ?sent_nos_snoc; simpl; rewrite ?app_nil_r; try done.
  - intros n t Hin. destruct (ro_recorded_true0 n t Hin) as (e & ? & ? & ?). exists e. set_solver.
  - intros e [He| ->%list_elem_of_singleton]%elem_of_app; auto.
  - intros Hin. exfalso. set_unfold. intuition congruence.
Qed.

Lemma row_ok_send v d answer :
  row_ok v d → rd_status d = IN_FLIGHT →
  Forall (λ n, n < rd_attempts d) (sent_nos (vw_events v)) →
  row_ok (observe (Sent (rd_attempts d) (rd_content d) answer) v) d.
Proof.
  intros [] Hst Hlt. pose proof (ro_flying0 Hst). split; simpl; rewrite ?sent_nos_snoc; simpl; try done.
  - apply Forall_app. split; [done|]. apply Forall_singleton. lia.
  - by apply sorted_snoc.
  - intros n t Hin. destruct (ro_recorded_true0 n t Hin) as (e & ? & ? & ?). exists e. set_solver.
  - intros e [He| ->%list_elem_of_singleton]%elem_of_app; [|set_solver].
    apply elem_of_app. left. auto.
  - rewrite Hst. set_solver.
  - rewrite Hst. done.
Qed.

Lemma row_ok_record v d e :
  row_ok v d → last (vw_events v) = Some e → event_no e = rd_attempts d → is_Some (event_verdict e) →
  Forall (λ r, r.1 < rd_attempts d) (vw_recorded v) →
  row_ok {| vw_row := Some d; vw_events := vw_events v;
            vw_recorded := vw_recorded v ++ [(rd_attempts d, record_text e)] |} d.
Proof.
  intros [] Hlast Hno Hv Hlt. split; simpl; try done.
  - apply Forall_app. split; [done|]. by apply Forall_singleton.
  - rewrite fmap_app. simpl. apply sorted_snoc; [done|]. by apply Forall_fmap.
  - intros n t [Hin|[= -> ->]%list_elem_of_singleton]%elem_of_app; [by apply ro_recorded_true0|].
    exists e. split; [by apply last_elem|done].
Qed.

Lemma event_attempt_sent v d e :
  row_ok v d → last (vw_events v) = Some e → event_no e = rd_attempts d →
  rd_attempts d ∈ sent_nos (vw_events v).
Proof. intros Hok He <-. apply (ro_events_sent v d Hok). by apply last_elem. Qed.

(** Nothing but a number that is not yet known would break it. *)
Lemma protocol_ok v v' : view_ok v → protocol v v' → view_ok v'.
Proof.
  intros Hok Hstep.
  destruct Hstep as [v d Hrow Hst Hn|v d Hrow Hst|v d answer Hrow Hst Hlt|v d verdict Hrow Hst
    |v d e Hrow Hst He Hno Hv Hlt|v d e st Hrow Hst He Hno Hv Hin|v d n verdict st Hrow Hst He -> Hv Hne
    |v d Hrow Hst|v d Hrow Hst|v d content Hrow Hst];
    unfold view_ok in Hok; rewrite Hrow in Hok.
  - destruct Hok as [He Hr]. unfold view_ok.
    split; simpl; rewrite ?He, ?Hr, ?Hst, ?Hn; try done; try constructor; set_solver.
  - pose proof (ro_attempts v d Hok). apply row_ok_move; [done|lia| |done|lia]. set_solver.
  - unfold view_ok. simpl. rewrite Hrow. by apply row_ok_send.
  - unfold view_ok. simpl. rewrite Hrow. destruct Hst as [Hst|(Hst & e & He & Hno & _)].
    + apply row_ok_ask; [done|rewrite Hst; set_solver|by apply (ro_parked v d Hok)].
    + apply row_ok_ask; [done|rewrite Hst; set_solver|by eapply event_attempt_sent].
  - by apply row_ok_record.
  - apply row_ok_move; [done|done| | |].
    + intros _. by exists e.
    + intros _. by eapply event_attempt_sent.
    + intros ->. exfalso. destruct e as [? ? [r|]|]; simpl in Hv; repeat case_match; simplify_eq.
  - apply row_ok_move; [done|done| | |].
    + intros _. by exists (Reconciled (rd_attempts d) verdict).
    + done.
    + intros ->. simpl in Hv. repeat case_match; simplify_eq.
  - apply row_ok_move; [done|done|set_solver|done|done].
  - apply row_ok_move; [done|done|set_solver|done|done].
  - unfold view_ok. simpl. destruct Hok. split; simpl; try done. set_solver.
Qed.
