(* ===== verification/DeliveryFacts.v ===== *)
(** * The delivery service follows the protocol

    Each step of each operation, started from the row the operation last saw, is a
    step of [DeliveryProtocol] for the delivery it works on and changes nothing for
    any other. *)

From S2P Require Import Prelude PyNum Uuids ExecutionBus Interleave Delivery.
Open Scope string_scope.
Open Scope list_scope.
Open Scope Z_scope.

Section Facts.
Context {C : Type} (uuid_at : nat → uuid) `{!Inj (=) (=) uuid_at}.
Context (send : C → ReplyDelivery → Z → outcome unit ChannelTransportOutcome * C).
Context (reconcile : C → ReplyDelivery → Z → ReconcileVerdict).
Context (backoff_seconds max_attempts : Z).
Abbreviation Sys := (DeliverySystem C).
Implicit Types (s : DeliverySystem C) (key : uuid * uuid) (d : ReplyDelivery).

(** ** One delivery of the system *)
Definition key_events key s : list channel_event := (filter (λ ke, ke.1 = key) (dd_log s)).*2.
Definition attempt_key (a : DeliveryAttempt) : uuid * uuid := (da_tenant_id a, da_delivery_id a).
Definition key_recorded key s : list (Z * string) :=
  (λ a, (da_attempt_no a, da_outcome a)) <$> filter (λ a, attempt_key a = key) (dd_attempts s).

Definition delivery_view_of key s : delivery_view :=
  {| vw_row := dd_deliveries s !! key; vw_events := key_events key s;
     vw_recorded := key_recorded key s |}.

Record delivery_inv (s : Sys) : Prop := {
  di_views : ∀ key, view_ok (delivery_view_of key s);
  di_keys : ∀ key d, dd_deliveries s !! key = Some d → delivery_key d = key;
  di_ids : ∀ a, a ∈ dd_attempts s → ∃ n, (n < dd_next_id s)%nat ∧ da_attempt_id a = uuid_at n;
  di_fresh : ∀ key n, is_Some (dd_deliveries s !! key) → key.2 = uuid_at n → (n < dd_next_id s)%nat;
}.

(** A step is a protocol step of one delivery, or of none. *)
Definition follows (s s' : Sys) : Prop :=
  ∀ key, delivery_view_of key s' = delivery_view_of key s ∨
         protocol (delivery_view_of key s) (delivery_view_of key s').

Definition ids_kept (s s' : Sys) : Prop :=
  (dd_next_id s ≤ dd_next_id s')%nat ∧
  ∀ a, a ∈ dd_attempts s' → a ∈ dd_attempts s ∨
       (dd_next_id s < dd_next_id s')%nat ∧ da_attempt_id a = uuid_at (dd_next_id s).

Definition keys_kept (s s' : Sys) : Prop :=
  ∀ key d, dd_deliveries s' !! key = Some d →
    dd_deliveries s !! key = Some d ∨
    delivery_key d = key ∧
      (is_Some (dd_deliveries s !! key) ∨ ∀ n, key.2 = uuid_at n → (n < dd_next_id s)%nat).

Lemma inv_step s s' :
  delivery_inv s → follows s s' → ids_kept s s' → keys_kept s s' → delivery_inv s'.
Proof.
  intros [Hv Hk Hi Hfr] Hf [Hle Hids] Hkeys. split.
  - intros key. destruct (Hf key) as [->|Hstep]; [done|]. by eapply protocol_ok.
  - intros key d Hd. destruct (Hkeys key d Hd) as [|[? _]]; [by apply Hk|done].
  - intros a [Ha|[Hlt Ha]]%Hids; [|by exists (dd_next_id s)].
    destruct (Hi a Ha) as (n & ? & ?). exists n. split; [lia|done].
  - intros key n [d Hd] Hn. enough (n < dd_next_id s)%nat by lia.
    destruct (Hkeys key d Hd) as [Hd0|[_ [Hd0|Hnew]]]; eauto.
Qed.

Lemma follows_refl s : follows s s.
Proof. by left. Qed.
Lemma ids_kept_same s s' :
  dd_next_id s' = dd_next_id s → dd_attempts s' = dd_attempts s → ids_kept s s'.
Proof. intros Hn Ha. unfold ids_kept. rewrite Hn, Ha. split; [done|]. by left. Qed.
Lemma keys_kept_same s s' : dd_deliveries s' = dd_deliveries s → keys_kept s s'.
Proof. intros Hd key d. rewrite Hd. by left. Qed.

(** ** The steps and the views *)
Lemma view_set_deliveries key f s :
  delivery_view_of key (set_deliveries f s) =
  {| vw_row := f (dd_deliveries s) !! key; vw_events := key_events key s;
     vw_recorded := key_recorded key s |}.
Proof. done. Qed.

Lemma view_pass_time key t s : delivery_view_of key (pass_time t s) = delivery_view_of key s.
Proof. done. Qed.

Lemma view_talk key key' e c s :
  delivery_view_of key (talk key' e c s) =
  if decide (key' = key) then observe e (delivery_view_of key s) else delivery_view_of key s.
Proof.
  unfold delivery_view_of, key_events, observe. simpl. rewrite filter_app, fmap_app.
  rewrite filter_cons, filter_nil. simpl. case_decide; simpl; by rewrite ?app_nil_r.
Qed.

Lemma view_add_attempt key a s :
  delivery_view_of key (add_attempt a (draw s)) =
  if decide (attempt_key a = key) then
    {| vw_row := dd_deliveries s !! key; vw_events := key_events key s;
       vw_recorded := key_recorded key s ++ [(da_attempt_no a, da_outcome a)] |}
  else delivery_view_of key s.
Proof.
  unfold delivery_view_of, key_recorded, key_events. simpl. rewrite filter_app, fmap_app.
  rewrite filter_cons, filter_nil. case_decide; simpl; by rewrite ?app_nil_r.
Qed.

(** What a step guarantees, and how the local knowledge of a worker is kept. *)
Abbreviation delivery_safe Q J p := (proc_safe delivery_inv eq follows Q J p).

(** The worker's delivery is the stored row. *)
Definition owns d s : Prop := dd_deliveries s !! delivery_key d = Some d.

Lemma owned_ok d s : delivery_inv s → owns d s → row_ok (delivery_view_of (delivery_key d) s) d.
Proof.
  intros Hi Ho. pose proof (di_views s Hi (delivery_key d)) as Hv. unfold view_ok in Hv. simpl in Hv.
  unfold owns in Ho. by rewrite Ho in Hv.
Qed.

(** Saving a copy of the stored row replaces it by that copy. *)
Lemma save_owned d d' s u s' :
  owns d s → delivery_key d' = delivery_key d → rd_binding_id d' = rd_binding_id d →
  rd_execution_id d' = rd_execution_id d →
  rd_external_conversation_id d' = rd_external_conversation_id d → rd_created_at d' = rd_created_at d →
  save_delivery d' s = (Ok u, s') → s' = set_deliveries <[delivery_key d := d']> s.
Proof.
  intros Ho Hkey Hb He Hx Hc Hrun. unfold save_delivery in Hrun. run_inv.
  unfold owns, delivery_key in *. injection Hkey as Ht Hd. unfold set_deliveries. f_equal.
  rewrite Ht, Hd, Ho. f_equal. destruct d'; simpl in *. by subst.
Qed.

Lemma save_raise d s e s' : save_delivery d s = (Raise e, s') → s' = s.
Proof.
  intros Hrun. unfold save_delivery in Hrun.
  apply bind_Raise in Hrun as [Hrun|(b & s1 & H1 & Hrun)].
  { unfold get_or_raise in Hrun. case_match; [discriminate|]. by injection Hrun. }
  run_inv. apply bind_Raise in Hrun as [Hrun|(b' & s2 & H2 & Hrun)].
  { unfold ensure in Hrun. case_match; [discriminate|]. by injection Hrun. }
  run_inv. by apply bind_Raise in Hrun as [Hrun|(b' & s2 & H3 & Hrun)].
Qed.

(** A step of the database that changes the row of one delivery. *)
Lemma row_step key d' s :
  delivery_key d' = key → delivery_inv s →
  is_Some (dd_deliveries s !! key) ∨ (∀ n, key.2 = uuid_at n → (n < dd_next_id s)%nat) →
  protocol (delivery_view_of key s)
    {| vw_row := Some d'; vw_events := key_events key s; vw_recorded := key_recorded key s |} →
  delivery_inv (set_deliveries <[key := d']> s) ∧ follows s (set_deliveries <[key := d']> s).
Proof.
  intros Hkey Hi Hold Hp.
  assert (follows s (set_deliveries <[key := d']> s)) as Hf.
  { intros key'. rewrite view_set_deliveries. destruct (decide (key' = key)) as [->|Hne].
    - right. by rewrite lookup_insert_eq.
    - left. by rewrite lookup_insert_ne by done. }
  split; [|done]. eapply inv_step; [done..|by apply ids_kept_same|].
  intros key' d. simpl. destruct (decide (key' = key)) as [->|Hne].
  - rewrite lookup_insert_eq. intros [= ->]. by right.
  - rewrite lookup_insert_ne by done. by left.
Qed.

Lemma save_safe d d' (J : Sys → Prop) :
  (∀ s, delivery_inv s → J s → owns d s ∧
     protocol (delivery_view_of (delivery_key d) s)
       {| vw_row := Some d'; vw_events := key_events (delivery_key d) s;
          vw_recorded := key_recorded (delivery_key d) s |}) →
  delivery_key d' = delivery_key d → rd_binding_id d' = rd_binding_id d →
  rd_execution_id d' = rd_execution_id d →
  rd_external_conversation_id d' = rd_external_conversation_id d → rd_created_at d' = rd_created_at d →
  delivery_safe (returns (λ _, owns d')) J (atomically (save_delivery d')).
Proof.
  intros HJ Hkey Hb He Hx Hc. apply returns_step; [|..|intros _; apply stable_alone].
  - intros s Hi Hj. destruct (HJ s Hi Hj) as [Ho Hp].
    destruct (save_delivery d' s) as [[u|e] s'] eqn:Hrun; simpl.
    + rewrite (save_owned d d' s u s' Ho Hkey Hb He Hx Hc Hrun). apply row_step; [done..|by left; eexists|done].
    + apply save_raise in Hrun as ->. split; [done|apply follows_refl].
  - intros s a s' Hi Hj Hrun. destruct (HJ s Hi Hj) as [Ho _].
    rewrite (save_owned d d' s a s' Ho Hkey Hb He Hx Hc Hrun). unfold owns. simpl. rewrite Hkey.
    apply lookup_insert_eq.
Qed.

Lemma transition_safe d st n (J : Sys → Prop) :
  (∀ s, delivery_inv s → J s → owns d s ∧
     protocol (delivery_view_of (delivery_key d) s)
       (move_to st (default (rd_attempts d) n) d (delivery_view_of (delivery_key d) s))) →
  delivery_safe (returns (λ d' s, owns d' s ∧ d' = with_status st (default (rd_attempts d) n) d)) J
    (transition d st n).
Proof.
  intros HJ. unfold transition. eapply returns_bind.
  - by apply (save_safe d).
  - intros u. apply returns_ret. auto.
Qed.

(** ** Reading *)
Lemma read_delivery_safe {A} (f : Sys → A) (J : Sys → Prop) (Φ : A → Sys → Prop) :
  (∀ s, delivery_inv s → J s → Φ (f s) s) →
  delivery_safe (returns (E := delivery_exn) Φ) J (atomically (gets f)).
Proof.
  intros HΦ. apply returns_step; [|..|intros a; apply stable_alone].
  - intros s Hi Hj. split; [done|apply follows_refl].
  - intros s a s' Hi Hj [= <- <-]. by apply HΦ.
Qed.

Lemma load_safe tenant_id delivery_id (J : Sys → Prop) :
  delivery_safe (returns (λ d s, owns d s ∧ delivery_key d = (tenant_id, delivery_id))) J
    (load tenant_id delivery_id).
Proof.
  unfold load. eapply returns_bind.
  - apply (read_delivery_safe _ J (λ o s, o = dd_deliveries s !! (tenant_id, delivery_id))). done.
  - intros [d|]; [|apply returns_raise]. apply returns_ret. intros s Hi Hd.
    pose proof (di_keys s Hi _ _ (eq_sym Hd)) as Hk. unfold owns. by rewrite Hk.
Qed.

(** ** Talking to the channel *)
Lemma talk_step key e c s :
  delivery_inv s → protocol (delivery_view_of key s) (observe e (delivery_view_of key s)) →
  delivery_inv (talk key e c s) ∧ follows s (talk key e c s).
Proof.
  intros Hi Hp. assert (follows s (talk key e c s)) as Hf.
  { intros key'. rewrite view_talk. case_decide; [subst; by right|by left]. }
  split; [|done]. eapply inv_step; [done..|by apply ids_kept_same|by apply keys_kept_same].
Qed.

(** After a claim: nothing with this number has been sent or recorded. *)
Definition claimed_fresh d s : Prop :=
  owns d s ∧ rd_status d = IN_FLIGHT ∧
  Forall (λ n, n < rd_attempts d) (sent_nos (key_events (delivery_key d) s)) ∧
  Forall (λ r, r.1 < rd_attempts d) (key_recorded (delivery_key d) s).

(** After an answer or a verdict: it is the last word on this number, not yet on
    record. *)
Definition answered d e s : Prop :=
  owns d s ∧ rd_status d = IN_FLIGHT ∧ last (key_events (delivery_key d) s) = Some e ∧
  event_no e = rd_attempts d ∧ Forall (λ r, r.1 < rd_attempts d) (key_recorded (delivery_key d) s).

(** After the record. *)
Definition on_record d e s : Prop :=
  owns d s ∧ rd_status d = IN_FLIGHT ∧ last (key_events (delivery_key d) s) = Some e ∧
  event_no e = rd_attempts d ∧ (rd_attempts d, record_text e) ∈ key_recorded (delivery_key d) s.

Lemma key_events_talk key e c s : key_events key (talk key e c s) = key_events key s ++ [e].
Proof.
  unfold key_events. simpl. rewrite filter_app, fmap_app. f_equal.
  by rewrite filter_cons, filter_nil, decide_True.
Qed.

(** The owner's claim succeeds. *)
Lemma claim_run d s :
  delivery_inv s → owns d s →
  claim_attempt (rd_tenant_id d) (rd_delivery_id d) (rd_status d) (rd_attempts d + 1) s =
    (Ok (Some (with_status IN_FLIGHT (rd_attempts d + 1) d)),
     set_deliveries <[delivery_key d := with_status IN_FLIGHT (rd_attempts d + 1) d]> s).
Proof.
  intros Hi Ho. pose proof (ro_attempts _ _ (owned_ok d s Hi Ho)).
  unfold claim_attempt, gets, mbind, ST_mbind. unfold owns, delivery_key in Ho. rewrite Ho.
  rewrite bool_decide_eq_true_2 by done. unfold ensure. rewrite (proj2 (Z.leb_le _ _)) by lia. done.
Qed.

Lemma claim_step d s :
  delivery_inv s → owns d s → rd_status d ∈ [QUEUED; IN_FLIGHT; RATE_LIMITED; FAILED] →
  let d1 := with_status IN_FLIGHT (rd_attempts d + 1) d in
  let s1 := set_deliveries <[delivery_key d := d1]> s in
  delivery_inv s1 ∧ follows s s1 ∧ claimed_fresh d1 s1.
Proof.
  intros Hi Ho Hst d1 s1. pose proof (owned_ok d s Hi Ho) as Hok.
  destruct (row_step (delivery_key d) d1 s) as [? ?]; [done..|by left; eexists|by apply p_claim|].
  split_and!; [done|done|]. split_and!; simpl; [|done|..].
  - unfold owns. simpl. apply lookup_insert_eq.
  - eapply Forall_impl; [exact (ro_sent _ _ Hok)|]. simpl. lia.
  - eapply Forall_impl; [exact (ro_recorded _ _ Hok)|]. simpl. lia.
Qed.

Lemma claim_safe d :
  rd_status d ∈ [QUEUED; IN_FLIGHT; RATE_LIMITED; FAILED] →
  delivery_safe (returns (λ o s, match o with
                   | Some d' => d' = with_status IN_FLIGHT (rd_attempts d + 1) d ∧ claimed_fresh d' s
                   | None => False end)) (owns d)
    (atomically (claim_attempt (rd_tenant_id d) (rd_delivery_id d) (rd_status d) (rd_attempts d + 1))).
Proof.
  intros Hst. pose proof (claim_run d) as Hrun.
  apply returns_step; [|..|intros o; apply stable_alone].
  - intros s Hi Ho. rewrite (Hrun s Hi Ho). by destruct (claim_step d s Hi Ho Hst) as (? & ? & _).
  - intros s o s' Hi Ho Hr. rewrite (Hrun s Hi Ho) in Hr. injection Hr as <- <-.
    split; [done|]. by destruct (claim_step d s Hi Ho Hst) as (_ & _ & ?).
Qed.

Lemma send_safe d :
  delivery_safe (returns (λ a, answered d (Sent (rd_attempts d) (rd_content d) a.2))) (claimed_fresh d)
    (atomically (send_step send d (rd_attempts d))).
Proof.
  apply returns_step; [|..|intros a; apply stable_alone].
  - intros s Hi (Ho & Hst & Hs & Hr). unfold send_step. destruct (send _ _ _) as [a c]. simpl.
    apply talk_step; [done|]. by apply p_send.
  - intros s [t a] s' Hi (Ho & Hst & Hs & Hr). unfold send_step. destruct (send _ _ _) as [a' c].
    intros [= <- <- <-]. split_and!; [done|done| |done|done]. by rewrite key_events_talk, last_snoc.
Qed.

Lemma reconcile_safe d e :
  event_verdict e = None →
  delivery_safe (returns (λ v, answered d (Reconciled (rd_attempts d) v))) (answered d e)
    (atomically (reconcile_step reconcile d (rd_attempts d))).
Proof.
  intros Hv. apply returns_step; [|..|intros a; apply stable_alone].
  - intros s Hi (Ho & Hst & Hl & Hn & Hr). apply talk_step; [done|]. apply (p_ask _ d); [done|].
    right. split; [done|]. by exists e.
  - intros s v s' Hi (Ho & Hst & Hl & Hn & Hr) [= <- <-]. split_and!; [done|done| |done|done].
    by rewrite key_events_talk, last_snoc.
Qed.

(** ** Putting an attempt on record *)
Definition attempt_row d n result err started s : DeliveryAttempt :=
  {| da_attempt_id := uuid_at (dd_next_id s); da_tenant_id := rd_tenant_id d;
     da_delivery_id := rd_delivery_id d; da_attempt_no := n; da_outcome := result;
     da_error_code := err; da_started_at := started; da_finished_at := Some (dd_now s) |}.

(** The insert cannot fail: the id is new and so is the number. *)
Lemma record_run d n result err started s :
  delivery_inv s → 1 ≤ n → Forall (λ r, r.1 < n) (key_recorded (delivery_key d) s) →
  (id ← draw_uuid uuid_at; now ← gets dd_now;
   save_attempt {| da_attempt_id := id; da_tenant_id := rd_tenant_id d;
     da_delivery_id := rd_delivery_id d; da_attempt_no := n; da_outcome := result;
     da_error_code := err; da_started_at := started; da_finished_at := Some now |}) s =
  (Ok tt : outcome delivery_exn unit, add_attempt (attempt_row d n result err started s) (draw s)).
Proof.
  intros Hi Hn Hlt. unfold mbind, ST_mbind, draw_uuid, gets, modify, mret, ST_mret, save_attempt. simpl.
  unfold gets, mbind, ST_mbind. simpl.
  destruct (existsb _ (dd_attempts s)) eqn:Hid.
  { exfalso. apply existsb_exists in Hid as (a & Ha%list_elem_of_In & Heq).
    apply andb_true_iff in Heq as [_ Heq%bool_decide_eq_true]. simpl in Heq.
    destruct (di_ids s Hi a Ha) as (m & Hm & Hma). rewrite Hma in Heq.
    apply (inj uuid_at) in Heq. lia. }
  destruct (existsb _ (dd_attempts s)) eqn:Hno in |- *.
  { exfalso. apply existsb_exists in Hno as (a & Ha%list_elem_of_In & Heq).
    apply andb_true_iff in Heq as [[Ht%bool_decide_eq_true Hd%bool_decide_eq_true]%andb_true_iff
      Hna%bool_decide_eq_true]. simpl in *.
    assert (r := proj1 (Forall_forall _ _) Hlt (da_attempt_no a, da_outcome a)). simpl in r.
    enough (da_attempt_no a < n) by lia. apply r. unfold key_recorded.
    apply (list_elem_of_fmap_2 (λ a, (da_attempt_no a, da_outcome a))). apply list_elem_of_filter.
    split; [|done]. unfold attempt_key, delivery_key. by rewrite Ht, Hd. }
  rewrite (proj2 (Z.leb_le _ _)) by lia. done.
Qed.

Lemma record_step d e err started s :
  delivery_inv s → answered d e s → is_Some (event_verdict e) →
  let s' := add_attempt (attempt_row d (rd_attempts d) (record_text e) err started s) (draw s) in
  delivery_inv s' ∧ follows s s' ∧ on_record d e s'.
Proof.
  intros Hi (Ho & Hst & Hl & Hn & Hr) Hv s'.
  assert (follows s s') as Hf.
  { intros key. unfold s'. rewrite view_add_attempt. case_decide as Hk; [right|by left].
    change (delivery_key d = key) in Hk. subst key. unfold owns in Ho. rewrite Ho.
    exact (p_record (delivery_view_of (delivery_key d) s) d e Ho Hst Hl Hn Hv Hr). }
  split_and!.
  - eapply inv_step; [done..| |by apply keys_kept_same]. split; simpl; [lia|].
    intros a [Ha| ->%list_elem_of_singleton]%elem_of_app; [by left|]. right. split; [lia|done].
  - done.
  - unfold on_record. split_and!; [done|done|done|done|]. unfold s', key_recorded. simpl.
    rewrite filter_app, fmap_app. apply elem_of_app. right.
    rewrite filter_cons, filter_nil, decide_True by done. simpl. by left.
Qed.

Lemma record_safe d e err started :
  is_Some (event_verdict e) →
  delivery_safe (returns (λ _, on_record d e)) (answered d e)
    (record_attempt uuid_at d (rd_attempts d) (record_text e) err started).
Proof.
  intros Hv. unfold record_attempt.
  apply returns_step; [|..|intros a; apply stable_alone].
  - intros s Hi Ha. pose proof Ha as (Ho & Hst & _ & _ & Hr).
    rewrite record_run; [|done|exact (ro_flying _ _ (owned_ok d s Hi Ho) Hst)|done].
    by destruct (record_step d e err started s Hi Ha Hv) as (? & ? & _).
  - intros s a s' Hi Ha. pose proof Ha as (Ho & Hst & _ & _ & Hr).
    rewrite record_run; [|done|exact (ro_flying _ _ (owned_ok d s Hi Ho) Hst)|done].
    intros [= <- <-]. by destruct (record_step d e err started s Hi Ha Hv) as (_ & _ & ?).
Qed.

(** Record and save what an event decided. *)
Lemma settle_safe {A} d e st err started n (k : ReplyDelivery → A) :
  event_verdict e = Some st → default (rd_attempts d) n = rd_attempts d →
  delivery_safe (returns (λ a s, a = k (with_status st (rd_attempts d) d) ∧
                                 owns (with_status st (rd_attempts d) d) s)) (answered d e)
    (pm_bind (record_attempt uuid_at d (rd_attempts d) (record_text e) err started) (λ _,
     pm_bind (transition d st n) (λ d', pm_ret (k d')))).
Proof.
  intros Hv Hn. eapply returns_bind; [by apply record_safe; rewrite Hv|]. intros u.
  eapply returns_bind.
  - apply (transition_safe d st n). intros s Hi (Ho & Hst & Hl & Hno & Hin). split; [done|].
    rewrite Hn. by apply (p_settle _ d e st).
  - intros d'. rewrite Hn. apply returns_ret. intros s Hi [Ho ->]. done.
Qed.

(** ** The loop *)

(** What a round leaves: a [return] with a settled delivery, or a delivery to retry. *)
Definition round_result d (next : ReplyDelivery + ReplyDelivery) s : Prop :=
  match next with
  | inl d' => owns d' s ∧ rd_status d' ∈ [DELIVERED; OUTCOME_UNKNOWN]
  | inr d' => owns d' s ∧ rd_status d' ∈ [RATE_LIMITED; FAILED] ∧ delivery_key d' = delivery_key d
              ∧ rd_attempts d' = rd_attempts d
  end.

Lemma settle_round d e st err started n (k : ReplyDelivery → ReplyDelivery + ReplyDelivery) :
  event_verdict e = Some st → default (rd_attempts d) n = rd_attempts d →
  (∀ s, owns (with_status st (rd_attempts d) d) s →
        round_result d (k (with_status st (rd_attempts d) d)) s) →
  delivery_safe (returns (round_result d)) (answered d e)
    (pm_bind (record_attempt uuid_at d (rd_attempts d) (record_text e) err started) (λ _,
     pm_bind (transition d st n) (λ d', pm_ret (k d')))).
Proof.
  intros Hv Hn Hk. eapply safe_post; [by apply settle_safe|].
  intros [a|x] s Hi H; simpl in *; [destruct H as [-> Ho]; by apply Hk|done].
Qed.

Ltac round_done := intros s Ho; simpl; split_and?; [exact Ho|set_solver|..]; done.

Lemma settle_attempt_safe d started answer :
  delivery_safe (returns (round_result d)) (answered d (Sent (rd_attempts d) (rd_content d) answer))
    (settle_attempt uuid_at reconcile d (rd_attempts d) started answer).
Proof.
  unfold settle_attempt. destruct answer as [r|[]].
  2: { apply (settle_round d (Sent (rd_attempts d) (rd_content d) (Raise tt)) OUTCOME_UNKNOWN _ _ None inl);
         [done..|round_done]. }
  set (e := Sent (rd_attempts d) (rd_content d) (Ok r)).
  destruct (to_delivered r) eqn:Hd.
  { assert (record_text e = "DELIVERED") as <- by (simpl; by rewrite Hd).
    apply (settle_round d e DELIVERED _ _ (Some (rd_attempts d)) inl);
      [simpl; by rewrite Hd|done|round_done]. }
  destruct (to_outcome_unknown r) eqn:Hu.
  - eapply returns_bind; [apply (reconcile_safe d e); simpl; by rewrite Hd, Hu|]. intros v.
    set (q := Reconciled (rd_attempts d) v). destruct (bool_decide (v = "delivered")) eqn:Hvd.
    { assert (record_text q = "RECONCILED_DELIVERED") as <- by (simpl; by rewrite Hvd).
      apply (settle_round d q DELIVERED _ _ (Some (rd_attempts d)) inl);
        [simpl; by rewrite Hvd|done|round_done]. }
    destruct (bool_decide (v = "unknown")) eqn:Hvu.
    { assert (record_text q = "OUTCOME_UNKNOWN") as <- by (simpl; by rewrite Hvd, Hvu).
      apply (settle_round d q OUTCOME_UNKNOWN _ _ None inl);
        [simpl; by rewrite Hvd, Hvu|done|round_done]. }
    assert (record_text q = "RECONCILED_NOT_DELIVERED") as <- by (simpl; by rewrite Hvd, Hvu).
    apply (settle_round d q FAILED _ _ (Some (rd_attempts d)) inr);
      [simpl; by rewrite Hvd, Hvu|done|round_done].
  - set (st := if to_rate_limited r then RATE_LIMITED else FAILED).
    assert (record_text e = state_value st) as <- by (simpl; rewrite Hd; unfold st; by case_match).
    apply (settle_round d e st _ _ (Some (rd_attempts d)) inr);
      [simpl; by rewrite Hd, Hu|done|]. unfold st. destruct (to_rate_limited r); round_done.
Qed.

Lemma back_off_safe d :
  delivery_safe (returns (λ _, owns d)) (owns d) (back_off backoff_seconds d).
Proof.
  unfold back_off. case_match; [|by apply returns_ret]. case_match; [|apply returns_raise].
  apply returns_step; [|..|intros a; apply stable_alone].
  - intros s Hi Ho. simpl. split; [|by left].
    eapply inv_step; [exact Hi|by left|by apply ids_kept_same|by apply keys_kept_same].
  - by intros s u s' Hi Ho [= _ <-].
Qed.

(** The value a run returns is the stored row, and it is settled. *)
Definition run_result d s : Prop :=
  owns d s ∧ rd_status d ∈ [DELIVERED; OUTCOME_UNKNOWN; DEAD_LETTER].

(** Membership in a list of states. *)
Ltac states :=
  unfold TERMINAL_STATES in *; repeat rewrite ?elem_of_app, ?elem_of_cons in *; rewrite ?elem_of_nil in *; naive_solver.

Lemma run_loop_safe fuel budget d :
  rd_status d ∈ [QUEUED; IN_FLIGHT; RATE_LIMITED; FAILED] →
  delivery_safe (returns run_result) (owns d)
    (run_loop uuid_at send reconcile backoff_seconds fuel budget (rd_tenant_id d) (rd_delivery_id d) d).
Proof.
  revert d. induction fuel as [|fuel IH]; intros d Hst; cbn [run_loop]; [apply returns_raise|].
  destruct ((budget <=? rd_attempts d) && negb (bool_decide (rd_status d = RATE_LIMITED))) eqn:Hb.
  - eapply safe_post; [apply (transition_safe d DEAD_LETTER None)|].
    + intros s Hi Ho. split; [done|]. apply p_give_up; [done|].
      apply andb_true_iff in Hb as [_ Hb%negb_true_iff%bool_decide_eq_false]. set_unfold. tauto.
    + intros [d'|] s Hi H; simpl in *; [|done]. destruct H as [Ho ->]. split; [done|]. simpl. states.
  - eapply returns_bind; [apply back_off_safe|]. intros u.
    eapply returns_bind; [by apply claim_safe|].
    intros [d1|]; [|by eapply safe_weaken; [apply safe_false|]].
    apply (safe_pure _ _ _ _ (claimed_fresh d1) _ (d1 = with_status IN_FLIGHT (rd_attempts d + 1) d));
      [done|]. intros Hd1.
    assert (rd_attempts d + 1 = rd_attempts d1) as -> by by rewrite Hd1.
    eapply returns_bind; [apply send_safe|]. intros [started answer].
    eapply returns_bind; [apply settle_attempt_safe|]. intros [d2|d2].
    + apply returns_ret. intros s Hi [Ho Hd2]. split; [done|]. states.
    + apply (safe_pure _ _ _ _ (owns d2) _ (rd_status d2 ∈ [RATE_LIMITED; FAILED] ∧
        delivery_key d2 = delivery_key d1)); [by intros s (? & ? & ? & _)|]. intros [Hst2 Hkey].
      assert (rd_tenant_id d = rd_tenant_id d2 ∧ rd_delivery_id d = rd_delivery_id d2) as [-> ->].
      { rewrite Hd1 in Hkey. by injection Hkey. }
      apply IH. states.
Qed.

(** ** The operations *)
Lemma resume_reconciliation_safe d :
  rd_status d = OUTCOME_UNKNOWN →
  delivery_safe (returns (λ d' s, owns d' s ∧ delivery_key d' = delivery_key d ∧
                   rd_status d' ∈ [DELIVERED; OUTCOME_UNKNOWN; FAILED])) (owns d)
    (resume_reconciliation reconcile d).
Proof.
  intros Hst. unfold resume_reconciliation.
  eapply returns_bind with (Φ := λ v s, owns d s ∧
    last (key_events (delivery_key d) s) = Some (Reconciled (rd_attempts d) v)).
  - apply returns_step; [|..|intros a; apply stable_alone].
    + intros s Hi Ho. apply talk_step; [done|]. apply (p_ask _ d); [done|by left].
    + intros s v s' Hi Ho [= <- <-]. split; [done|]. by rewrite key_events_talk, last_snoc.
  - intros v.
    assert (∀ st, event_verdict (Reconciled (rd_attempts d) v) = Some st → st ≠ OUTCOME_UNKNOWN →
      st ∈ [DELIVERED; OUTCOME_UNKNOWN; FAILED] →
      delivery_safe (returns (λ d' s, owns d' s ∧ delivery_key d' = delivery_key d ∧
                   rd_status d' ∈ [DELIVERED; OUTCOME_UNKNOWN; FAILED]))
        (λ s, owns d s ∧ last (key_events (delivery_key d) s) = Some (Reconciled (rd_attempts d) v))
        (transition d st None)) as Hmove.
    { intros st Hv Hne Hin. eapply safe_post; [apply (transition_safe d st None)|].
      - intros s Hi [Ho Hl]. split; [done|]. by apply (p_resume _ d (rd_attempts d) v st).
      - intros [d'|] s Hi H; simpl in *; [|done]. by destruct H as [Ho ->]. }
    destruct (bool_decide (v = "delivered")) eqn:Hvd; [apply Hmove; [simpl; by rewrite Hvd|done|states]|].
    destruct (bool_decide (v = "unknown")) eqn:Hvu.
    + apply returns_ret. intros s Hi [Ho Hl]. rewrite Hst. split_and!; [done|done|states].
    + apply Hmove; [simpl; by rewrite Hvd, Hvu|done|states].
Qed.

Lemma run_safe tenant_id delivery_id budget (J : Sys → Prop) :
  delivery_safe (returns run_result) J
    (run uuid_at send reconcile backoff_seconds max_attempts delivery_id tenant_id budget).
Proof.
  unfold run. eapply returns_bind; [apply load_safe|]. intros d.
  apply (safe_pure _ _ _ _ (owns d) _ (delivery_key d = (tenant_id, delivery_id))); [by intros s [? ?]|].
  intros [= <- <-].
  case_bool_decide as Hterm; [apply returns_ret; intros s Hi Ho; split; [done|states]|].
  case_bool_decide as Hunk.
  - eapply returns_bind; [by apply resume_reconciliation_safe|]. intros d'.
    apply (safe_pure _ _ _ _ (owns d') _ (delivery_key d' = delivery_key d ∧
      rd_status d' ∈ [DELIVERED; OUTCOME_UNKNOWN; FAILED])); [by intros s (? & ? & ?)|].
    intros [[= <- <-] Hst]. case_bool_decide as Hend.
    + apply returns_ret. intros s Hi Ho. split; [done|]. states.
    + apply run_loop_safe. states.
  - apply run_loop_safe. destruct (rd_status d); states.
Qed.

Lemma replay_safe tenant_id delivery_id (J : Sys → Prop) :
  delivery_safe (returns run_result) J
    (replay uuid_at send reconcile backoff_seconds max_attempts delivery_id tenant_id).
Proof.
  unfold replay. eapply returns_bind; [apply load_safe|]. intros d.
  destruct (bool_decide (rd_status d = DEAD_LETTER)) eqn:Hst; simpl; [|apply returns_raise].
  apply bool_decide_eq_true in Hst. eapply returns_bind; [|intros d'; apply run_safe].
  apply (transition_safe d QUEUED None). intros s Hi [Ho _]. split; [done|]. by apply p_replay.
Qed.

Lemma update_delivery_safe tenant_id delivery_id content (J : Sys → Prop) :
  delivery_safe (returns owns) J (update delivery_id tenant_id content).
Proof.
  unfold update. eapply returns_bind; [apply load_safe|]. intros d.
  destruct (bool_decide (rd_status d = DELIVERED)) eqn:Hst; simpl; [|apply returns_raise].
  apply bool_decide_eq_true in Hst. eapply returns_bind.
  - apply (save_safe d); try done. intros s Hi [Ho _]. split; [done|].
    by apply (p_update (delivery_view_of (delivery_key d) s) d content).
  - intros u. apply returns_ret. auto.
Qed.

(** A new row, under an id nothing has. *)
Lemma create_delivery_safe d (J : Sys → Prop) :
  (∀ s, J s → dd_deliveries s !! delivery_key d = None ∧
     ∀ n, rd_delivery_id d = uuid_at n → (n < dd_next_id s)%nat) →
  rd_status d = QUEUED → rd_attempts d = 0 →
  delivery_safe (returns (λ _ _, True)) J (atomically (save_delivery d)).
Proof.
  intros HJ Hst Hatt. apply returns_step; [|done|intros _; apply stable_alone].
  intros s Hi Hj. destruct (HJ s Hj) as [Hnone Hfresh].
  destruct (save_delivery d s) as [[u|e] s'] eqn:Hrun; simpl.
  - unfold save_delivery in Hrun. run_inv. unfold delivery_key in Hnone.
    match goal with |- context [set_deliveries ?f s] => set (g := f) end.
    assert (∃ d', delivery_key d' = delivery_key d ∧ rd_status d' = QUEUED ∧ rd_attempts d' = 0 ∧
      set_deliveries g s = set_deliveries <[delivery_key d := d']> s) as (d' & Hk & Hst' & Ha' & ->).
    { eexists. split_and!; cycle 3.
      - unfold set_deliveries, g. f_equal. by rewrite Hnone.
      - done.
      - done.
      - done. }
    apply row_step; [done..|by right|]. by apply p_create.
  - apply save_raise in Hrun as ->. split; [done|apply follows_refl].
Qed.

Lemma enqueue_safe tenant_id binding_id execution_id conversation content delivery_id :
  (∀ id n, delivery_id = Some id → id ≠ uuid_at n) →
  delivery_safe (returns (λ _ _, True)) (λ _, True)
    (enqueue uuid_at tenant_id binding_id execution_id conversation content delivery_id).
Proof.
  intros Hexp. unfold enqueue.
  apply (returns_bind _ _ _ _ _ _ (λ id s,
    match delivery_id with
    | Some id' => id = id'
    | None => dd_deliveries s !! (tenant_id, id) = None ∧ ∀ n, id = uuid_at n → (n < dd_next_id s)%nat
    end)).
  { destruct delivery_id as [id|]; [by apply returns_ret|].
    apply returns_step; [|..|intros a; apply stable_alone].
    - intros s Hi _. simpl. split; [|by left].
      eapply inv_step; [exact Hi|by left| |by left]. split; simpl; [lia|by left].
    - intros s id s' Hi _ [= <- <-]. simpl. split.
      + apply eq_None_not_Some. intros Hrow. pose proof (di_fresh s Hi _ (dd_next_id s) Hrow eq_refl). lia.
      + intros n Hn. apply (inj uuid_at) in Hn. lia. }
  intros id.
  apply (returns_bind _ _ _ _ _ _ (λ existing s, match existing with
    | Some _ => True
    | None => dd_deliveries s !! (tenant_id, id) = None ∧ ∀ n, id = uuid_at n → (n < dd_next_id s)%nat
    end)).
  { destruct delivery_id as [id'|]; [|by apply returns_ret].
    apply read_delivery_safe. intros s Hi ->. case_match eqn:Hrow; [done|]. split; [done|].
    intros n Hn. by destruct (Hexp id' n). }
  intros [d|]; [by apply returns_ret|].
  eapply returns_bind.
  { apply (read_delivery_safe dd_now _ (λ _ s, dd_deliveries s !! (tenant_id, id) = None ∧
      ∀ n, id = uuid_at n → (n < dd_next_id s)%nat)). by intros s _ Hj. }
  intros now.
  case_match; [|apply returns_raise].
  eapply returns_bind; [by apply create_delivery_safe|]. intros u. by apply returns_ret.
Qed.

(** ** Histories

    A channel worker calls the operations one after the other; a call may stop
    after any number of its steps (a crash, a lost connection, a cancelled task),
    and time passes in between. *)
Inductive delivery_call :=
  | CallEnqueue (tenant_id : uuid) (binding_id execution_id conversation content : string)
      (delivery_id : option uuid)
  | CallRun (delivery_id tenant_id : uuid) (budget : option Z)
  | CallReplay (delivery_id tenant_id : uuid)
  | CallUpdate (delivery_id tenant_id : uuid) (content : string).

Definition call_program (c : delivery_call) : PM Sys delivery_exn ReplyDelivery :=
  match c with
  | CallEnqueue t b x cv ct id => enqueue uuid_at t b x cv ct id
  | CallRun id t budget => run uuid_at send reconcile backoff_seconds max_attempts id t budget
  | CallReplay id t => replay uuid_at send reconcile backoff_seconds max_attempts id t
  | CallUpdate id t ct => update id t ct
  end.

(** A caller's own id is not one the service will draw. *)
Definition call_ok (c : delivery_call) : Prop :=
  match c with CallEnqueue _ _ _ _ _ (Some id) => ∀ n, id ≠ uuid_at n | _ => True end.

Definition history_step s (entry : delivery_call * nat * Z) : Sys :=
  let '(c, steps, elapsed) := entry in pass_time elapsed (run_steps steps (call_program c) s).
Definition delivery_history (h : list (delivery_call * nat * Z)) s : Sys := foldl history_step s h.

Lemma call_safe c : call_ok c →
  ∃ Q, delivery_safe Q (λ _, True) (call_program c).
Proof.
  intros Hc. destruct c as [t b x cv ct id|id t budget|id t|id t ct]; eexists.
  - apply enqueue_safe. intros id' n ->. apply Hc.
  - apply run_safe.
  - apply replay_safe.
  - apply update_delivery_safe.
Qed.

Lemma rtc_follows_view key s s' :
  rtc follows s s' → rtc protocol (delivery_view_of key s) (delivery_view_of key s').
Proof.
  induction 1 as [|s s1 s2 Hstep _ IH]; [done|].
  destruct (Hstep key) as [<-|Hp]; [done|]. by econstructor.
Qed.

Definition new_delivery_system (channel : C) (now : instant) : Sys :=
  {| dd_deliveries := ∅; dd_attempts := []; dd_next_id := 0; dd_now := now; dd_channel := channel;
     dd_log := [] |}.

Lemma new_system_ok channel now : delivery_inv (new_delivery_system channel now).
Proof. split; simpl; [done|done|set_solver|]. by intros key m [d Hd]. Qed.

Lemma history_follows h s :
  Forall (λ e, call_ok e.1.1) h → delivery_inv s →
  delivery_inv (delivery_history h s) ∧
  ∀ key, rtc protocol (delivery_view_of key s) (delivery_view_of key (delivery_history h s)).
Proof.
  intros Hh Hi. induction h as [|[[c n] t] h IH] using rev_ind; [by split; [|constructor]|].
  apply Forall_app in Hh as [Hh Hc]. apply Forall_cons in Hc as [Hc _]. simpl in Hc.
  destruct (IH Hh) as [Hi1 Hp]. clear IH. unfold delivery_history. rewrite foldl_app.
  fold (delivery_history h s). set (s1 := delivery_history h s) in *. simpl.
  destruct (call_safe c Hc) as [Q Hsafe].
  destruct (safe_run_steps _ _ _ _ _ n s1 Hsafe Hi1 I) as [Hi' Hf]. split.
  - eapply inv_step; [exact Hi'|by left|by apply ids_kept_same|by apply keys_kept_same].
  - intros key. rewrite view_pass_time. etrans; [apply Hp|]. by apply rtc_follows_view.
Qed.
End Facts.
