(* ===== verification/DeliveryTheorems.v ===== *)
(** * What the delivery service guarantees

    The service refines the delivery protocol in every history of calls, crashes
    included; what follows for the channel and for the attempts on record; runs
    end; and the behaviour when two workers run the same delivery. *)

From S2P Require Import Prelude PyNum PyDict Uuids Interleave ExecutionBus Delivery DeliveryFacts.
Open Scope string_scope.
Open Scope list_scope.
Open Scope Z_scope.

(** ** Consequences of the protocol *)

(** A step the status rules out. *)
Ltac wrong_status :=
  exfalso;
  repeat match goal with H : rd_status ?d ∈ _ |- _ => rewrite ?elem_of_cons, ?elem_of_nil in H end;
  intuition congruence.

(** A delivered message is left alone until it gets a new text. *)
Lemma delivered_until_update v v' d :
  rtc protocol v v' → vw_row v = Some d → rd_status d = DELIVERED →
  v' = v ∨ ∃ content, rtc protocol
    {| vw_row := Some (with_content content d); vw_events := vw_events v;
       vw_recorded := vw_recorded v |} v'.
Proof.
  intros Hrtc Hrow Hst. destruct Hrtc as [|v v1 v2 Hstep Hrest]; [by left|right].
  destruct Hstep; simplify_eq; try wrong_status. by exists content.
Qed.

(** The conversation of a parked message: questions, and the last verdict. *)
Definition parked_view (d : ReplyDelivery) (v : delivery_view) (asked : list channel_event)
    : delivery_view :=
  {| vw_row := Some d; vw_events := vw_events v ++ asked; vw_recorded := vw_recorded v |}.

Definition freed_by_verdict (d : ReplyDelivery) (v v' : delivery_view) : Prop :=
  ∃ verdict st, last (vw_events v) = Some (Reconciled (rd_attempts d) verdict) ∧
    event_verdict (Reconciled (rd_attempts d) verdict) = Some st ∧ st ∈ [DELIVERED; FAILED] ∧
    rtc protocol (move_to st (rd_attempts d) d v) v'.

(** A parked message is only asked about, until a verdict frees it. *)
Lemma parked_until_verdict v v' d :
  rtc protocol v v' → vw_row v = Some d → rd_status d = OUTCOME_UNKNOWN →
  ∃ asked, Forall (λ e, ∃ verdict, e = Reconciled (rd_attempts d) verdict) asked ∧
    (v' = parked_view d v asked ∨ freed_by_verdict d (parked_view d v asked) v').
Proof.
  induction 1 as [v|v v1 v2 Hstep Hrest IH]; intros Hrow Hst.
  - exists []. split; [constructor|]. left. destruct v; simpl in *. unfold parked_view. simpl.
    by rewrite app_nil_r, Hrow.
  - destruct Hstep as [| | |v d1 verdict Hrow1 Hst1| | |v d1 n verdict st Hrow1 Hst1 Hl Hn Hv Hne| | |];
      simplify_eq; try wrong_status.
    + destruct IH as (asked & Hall & Hend); [done|done|].
      exists (Reconciled (rd_attempts d1) verdict :: asked). split; [constructor; [by eexists|done]|].
      assert (parked_view d1 v (Reconciled (rd_attempts d1) verdict :: asked)
        = parked_view d1 (observe (Reconciled (rd_attempts d1) verdict) v) asked) as ->; [|done].
      unfold parked_view, observe. simpl. by rewrite <- app_assoc.
    + exists []. split; [constructor|]. right. exists verdict, st.
      assert (parked_view d1 v [] = v) as ->.
      { destruct v; simpl in *. unfold parked_view. simpl. by rewrite app_nil_r, Hrow1. }
      split_and!; [done|done| |done]. simpl in Hv. injection Hv as <-.
      repeat case_bool_decide; rewrite ?elem_of_cons; naive_solver.
Qed.

(** ** Runs end *)

(** Whatever the other workers do between its steps, [p] ends in [Q]. *)
Inductive always_ends {S R} (I : S → Prop) (Q : R → Prop) : proc S R → Prop :=
  | ends_done r : Q r → always_ends I Q (Done r)
  | ends_step next effect : (∀ s, I s → always_ends I Q (next s)) → always_ends I Q (Step next effect).

Section Ends.
Context {S E : Type} (I : S → Prop).

Lemma ends_bind {A B} (p : PM S E A) (k : A → PM S E B) (Φ : A → Prop) (Q : outcome E B → Prop) :
  always_ends I (λ r, match r with Ok a => Φ a | Raise e => Q (Raise e) end) p →
  (∀ a, Φ a → always_ends I Q (k a)) → always_ends I Q (pm_bind p k).
Proof.
  intros Hp Hk. unfold pm_bind.
  induction Hp as [r Hr|next effect _ IH]; simpl; [|by constructor].
  destruct r as [a|e]; [by apply Hk|by constructor].
Qed.

Lemma ends_atomically {A} (m : ST S E A) (Q : outcome E A → Prop) :
  (∀ s, I s → Q (m s).1) → always_ends I Q (atomically m).
Proof. intros Hm. constructor. intros s Hs. constructor. by apply Hm. Qed.

(** A step whose result does not matter. *)
Lemma ends_then {A B} (p : PM S E A) (k : A → PM S E B) (Q : outcome E B → Prop) :
  always_ends I (λ r, match r with Ok _ => True | Raise e => Q (Raise e) end) p →
  (∀ a, always_ends I Q (k a)) → always_ends I Q (pm_bind p k).
Proof. intros Hp Hk. by apply (ends_bind p k (λ _, True)). Qed.
End Ends.

Section RunEnds.
Context {C : Type} (uuid_at : nat → uuid).
Context (send : C → ReplyDelivery → Z → outcome unit ChannelTransportOutcome * C).
Context (reconcile : C → ReplyDelivery → Z → ReconcileVerdict).
Context (backoff_seconds max_attempts : Z).
Abbreviation Sys := (DeliverySystem C).

(** The CHECK constraint on the attempts column. *)
Definition attempts_nonneg (s : Sys) : Prop :=
  ∀ key d, dd_deliveries s !! key = Some d → 0 ≤ rd_attempts d.

(** The run ends: with a result that satisfies [Φ], or raising, but never because
    the loop went on beyond its fuel. *)
Definition finishes {A} (Φ : A → Prop) (r : outcome delivery_exn A) : Prop :=
  match r with Ok a => Φ a | Raise e => e ≠ DOutOfFuel end.

Abbreviation ends Φ p := (always_ends attempts_nonneg (finishes Φ) p).

Lemma save_finishes d (s : Sys) : finishes (λ _, True) (save_delivery d s).1.
Proof.
  unfold save_delivery, mbind, ST_mbind, get_or_raise, ensure, mret, ST_mret, raise, gets, modify.
  repeat (case_match; simplify_eq/=; try done).
Qed.

Lemma transition_ends d st n :
  ends (λ d', rd_attempts d' = default (rd_attempts d) n ∧ rd_status d' = st)
    (transition (C := C) d st n).
Proof.
  unfold transition. apply (ends_then attempts_nonneg).
  - apply ends_atomically. intros s Hs. exact (save_finishes _ s).
  - intros u. by constructor.
Qed.

Lemma record_ends d n result err started :
  ends (λ _, True) (record_attempt (C := C) uuid_at d n result err started).
Proof.
  unfold record_attempt. apply ends_atomically. intros s Hs.
  unfold mbind, ST_mbind, draw_uuid, gets, modify, mret, ST_mret, save_attempt. simpl.
  unfold gets, mbind, ST_mbind. simpl. case_match; [done|]. unfold ensure. by destruct ((1 <=? n) && _).
Qed.

(** A round settles the attempt it was given. *)
Definition round_of (n : Z) (next : ReplyDelivery + ReplyDelivery) : Prop :=
  match next with inl _ => True | inr d' => rd_attempts d' = n end.

Lemma settle_ends d n started answer :
  ends (round_of n) (settle_attempt (C := C) uuid_at reconcile d n started answer).
Proof.
  assert (∀ result err st (m : option Z) (k : ReplyDelivery → ReplyDelivery + ReplyDelivery),
    (∀ d', rd_attempts d' = default (rd_attempts d) m → round_of n (k d')) →
    ends (round_of n) (pm_bind (record_attempt (C := C) uuid_at d n result err started) (λ _,
      pm_bind (transition d st m) (λ d', pm_ret (k d'))))) as Hround.
  { intros result err st m k Hk. apply (ends_then attempts_nonneg); [apply record_ends|]. intros u.
    eapply ends_bind; [apply transition_ends|]. intros d' [Hd' _]. constructor. by apply Hk. }
  unfold settle_attempt. destruct answer as [r|]; [|by apply Hround].
  case_match; [by apply Hround|]. case_match.
  - apply (ends_then attempts_nonneg); [by apply ends_atomically|]. intros v.
    case_match; [by apply Hround|]. case_match; by apply Hround.
  - by apply Hround.
Qed.

Lemma claim_ends tenant_id delivery_id st n :
  ends (λ o, match o with Some d' => rd_attempts d' = n | None => True end)
    (atomically (claim_attempt (C := C) tenant_id delivery_id st n)).
Proof.
  apply ends_atomically. intros s Hs. unfold claim_attempt, mbind, ST_mbind, gets. simpl.
  case_match; [|done]. case_match; [|done]. unfold ensure. by destruct (0 <=? n).
Qed.

Lemma ends_weaken {A} (Φ Ψ : A → Prop) (p : PM Sys delivery_exn A) :
  ends Φ p → (∀ a, Φ a → Ψ a) → ends Ψ p.
Proof.
  intros Hp HΦ. induction Hp as [[a|e] Hr|next effect _ IH]; constructor; [by apply HΦ|done|done].
Qed.

(** Back-off raises once the attempts reach 1025, so a loop that goes on has fewer. *)
Lemma run_loop_ends fuel budget tenant_id delivery_id d :
  0 ≤ rd_attempts d → (1 ≤ fuel)%nat → 1027 - rd_attempts d ≤ Z.of_nat fuel →
  ends (λ _, True) (run_loop uuid_at send reconcile backoff_seconds fuel budget tenant_id delivery_id d).
Proof.
  revert d. induction fuel as [|fuel IH]; intros d Hpos Hone Hfuel; [lia|]. cbn [run_loop].
  case_match; [by eapply ends_weaken; [apply transition_ends|]|].
  apply (ends_bind attempts_nonneg _ _ (λ _, rd_attempts d < 1025)).
  { unfold back_off. case_match eqn:Hb; [|constructor; simpl; lia].
    unfold backoff_delay. destruct (Z.ltb_spec (Z.max 0 (rd_attempts d - 1)) 1024).
    - apply ends_atomically. intros s Hs. simpl. lia.
    - by constructor. }
  intros _ Hlt. eapply ends_bind; [apply claim_ends|]. intros [d1|] Hd1; [|by constructor].
  apply (ends_then attempts_nonneg).
  { apply ends_atomically. intros s Hs. unfold send_step. by destruct (send _ _ _). }
  intros [started answer]. eapply ends_bind; [apply settle_ends|]. simpl.
  intros [d2|d2] Hd2; simpl in Hd2; [by constructor|]. apply IH; lia.
Qed.

Lemma load_ends tenant_id delivery_id :
  ends (λ d, 0 ≤ rd_attempts d) (load (C := C) tenant_id delivery_id).
Proof.
  unfold load. apply (ends_bind attempts_nonneg _ _ (λ o, ∀ d, o = Some d → 0 ≤ rd_attempts d)).
  - apply ends_atomically. intros s Hs d Hd. by apply (Hs (tenant_id, delivery_id)).
  - intros [d|] Hd; constructor; [by apply Hd|done].
Qed.

Lemma resume_ends d :
  ends (λ d', rd_attempts d' = rd_attempts d) (resume_reconciliation reconcile d).
Proof.
  unfold resume_reconciliation. apply (ends_then attempts_nonneg); [by apply ends_atomically|].
  intros v. case_match; [eapply ends_weaken; [apply transition_ends|by intros d' [? _]]|].
  case_match; [by constructor|]. eapply ends_weaken; [apply transition_ends|by intros d' [? _]].
Qed.

(** Running a delivery always ends: whatever the channel answers (rate limits for
    ever included) and whatever other workers do to the rows between two steps, as
    long as the table keeps its attempts non-negative, the loop of a run is over
    within its 1027 rounds, since every round it goes on adds an attempt and the
    back-off of attempt 1025 raises. *)
Theorem run_always_ends delivery_id tenant_id budget :
  ends (λ _, True)
    (run uuid_at send reconcile backoff_seconds max_attempts delivery_id tenant_id budget).
Proof.
  assert (∀ d, 0 ≤ rd_attempts d → ends (λ _, True) (run_loop uuid_at send reconcile backoff_seconds
    RUN_FUEL (default max_attempts budget) tenant_id delivery_id d)) as Hloop.
  { intros d Hd. apply run_loop_ends; [done|..]; unfold RUN_FUEL; lia. }
  unfold run. eapply ends_bind; [apply load_ends|]. intros d Hd. case_match; [by constructor|].
  case_match; [|by apply Hloop].
  eapply ends_bind; [apply resume_ends|]. intros d' Hd'. case_match; [by constructor|].
  apply Hloop. by rewrite Hd'.
Qed.
End RunEnds.

(** ** Histories *)
Section Histories.
Context {C : Type} (uuid_at : nat → uuid) `{!Inj (=) (=) uuid_at}.
Context (send : C → ReplyDelivery → Z → outcome unit ChannelTransportOutcome * C).
Context (reconcile : C → ReplyDelivery → Z → ReconcileVerdict).
Context (backoff_seconds max_attempts : Z).

Abbreviation history := (delivery_history uuid_at send reconcile backoff_seconds max_attempts).
Abbreviation start := (new_delivery_system (C := C)).

(** C11: The delivery service refines the delivery protocol: on any channel, after any
    history of calls to enqueue, run, replay and update, each stopped after any
    number of its steps, the row, the conversation with the channel and the attempts
    on record of every delivery are reached by steps of the protocol: a number is
    claimed before it is sent and sent at most once, an open outcome is looked up
    before anything else is decided, a state is saved only after the attempt that
    decides it is on record, and only an update or a replay reopens a terminal
    delivery.  The ids a caller brings are not ones the service draws. *)
Theorem deliveries_refine_protocol channel now h key :
  Forall (λ e, call_ok uuid_at e.1.1) h →
  rtc protocol new_delivery_view (delivery_view_of key (history h (start channel now))).
Proof.
  intros Hh. destruct (history_follows uuid_at send reconcile backoff_seconds max_attempts h
    (start channel now) Hh (new_system_ok uuid_at channel now)) as [_ Hp]. apply Hp.
Qed.

(** Attempts are accounted for: after any such history, the numbers sent for a
    delivery are strictly increasing and none is above its attempt counter, so no
    number is ever sent twice; every attempt on record is the only one with its
    number and carries the outcome the channel gave for it; and a delivery is
    DELIVERED, FAILED or RATE_LIMITED only if the channel's last word, about its
    latest attempt, says so. *)
Theorem delivery_attempts_accounted channel now h key d :
  Forall (λ e, call_ok uuid_at e.1.1) h →
  let s := history h (start channel now) in
  dd_deliveries s !! key = Some d →
  StronglySorted Z.lt (sent_nos (key_events key s)) ∧
  Forall (λ n, 1 ≤ n ≤ rd_attempts d) (sent_nos (key_events key s)) ∧
  StronglySorted Z.lt (key_recorded key s).*1 ∧
  (∀ n t, (n, t) ∈ key_recorded key s →
     n ∈ sent_nos (key_events key s) ∧
     ∃ e, e ∈ key_events key s ∧ event_no e = n ∧ record_text e = t) ∧
  (rd_status d ∈ [DELIVERED; RATE_LIMITED; FAILED] →
     ∃ e, last (key_events key s) = Some e ∧ event_no e = rd_attempts d ∧
          event_verdict e = Some (rd_status d)).
Proof.
  intros Hh s Hd. destruct (history_follows uuid_at send reconcile backoff_seconds max_attempts h
    (start channel now) Hh (new_system_ok uuid_at channel now)) as [Hi _].
  pose proof (di_views _ _ Hi key) as Hv. unfold view_ok in Hv. simpl in Hv. fold s in Hv.
  rewrite Hd in Hv. pose proof Hv as [? ? ? ? ? Htrue Hsent Hdec ? ?]. split_and!; [done|done|done| |done].
  intros n t Hin. destruct (Htrue n t Hin) as (e & He & <- & <- & _).
  split; [by apply Hsent|by exists e].
Qed.

(** Settled deliveries are not resent: once a delivery is DELIVERED, whatever is
    called afterwards (and wherever it stops), its row, its conversation with the
    channel and its record are unchanged unless an update gave it a new text; and
    one whose outcome is unknown is only asked about, until a verdict of the channel
    on that very attempt makes it DELIVERED or FAILED. *)
Theorem settled_deliveries_not_resent channel now h1 h2 key d :
  Forall (λ e, call_ok uuid_at e.1.1) (h1 ++ h2) →
  let s1 := history h1 (start channel now) in
  let v1 := delivery_view_of key s1 in
  let v2 := delivery_view_of key (history (h1 ++ h2) (start channel now)) in
  dd_deliveries s1 !! key = Some d →
  (rd_status d = DELIVERED →
     v2 = v1 ∨ ∃ content, rtc protocol
       {| vw_row := Some (with_content content d); vw_events := vw_events v1;
          vw_recorded := vw_recorded v1 |} v2) ∧
  (rd_status d = OUTCOME_UNKNOWN →
     ∃ asked, Forall (λ e, ∃ verdict, e = Reconciled (rd_attempts d) verdict) asked ∧
       (v2 = parked_view d v1 asked ∨ freed_by_verdict d (parked_view d v1 asked) v2)).
Proof.
  intros [Hh1 Hh2]%Forall_app s1 v1 v2 Hd.
  destruct (history_follows uuid_at send reconcile backoff_seconds max_attempts h1
    (start channel now) Hh1 (new_system_ok uuid_at channel now)) as [Hi1 _].
  destruct (history_follows uuid_at send reconcile backoff_seconds max_attempts h2 s1 Hh2 Hi1) as [_ Hp].
  assert (rtc protocol v1 v2) as Hrtc.
  { unfold v2, delivery_history. rewrite foldl_app. apply Hp. }
  split; intros Hst; [by apply delivered_until_update|by apply parked_until_verdict].
Qed.
End Histories.

(** ** Transient failures *)
Section Delivers.
Context {C : Type} (uuid_at : nat → uuid) `{!Inj (=) (=) uuid_at}.
Context (send : C → ReplyDelivery → Z → outcome unit ChannelTransportOutcome * C).
Context (reconcile : C → ReplyDelivery → Z → ReconcileVerdict).
Context (backoff_seconds max_attempts : Z).
Implicit Types (s : DeliverySystem C) (d : ReplyDelivery).

(** Rows that were stored can be stored again. *)
Definition storable d : Prop :=
  is_Some (parse_uuid (rd_binding_id d)) ∧ length_between 1 256 (rd_external_conversation_id d) = true.

Lemma save_run d st n s :
  owns d s → storable d → 0 ≤ n →
  save_delivery (with_status st n d) s =
    (Ok tt, set_deliveries <[delivery_key d := with_status st n d]> s).
Proof.
  intros Ho [[b Hb] Hl] Hn.
  destruct (save_delivery (with_status st n d) s) as [[[]|e] s'] eqn:Hrun.
  - f_equal. by apply (save_owned d _ s tt s').
  - exfalso. unfold save_delivery, mbind, ST_mbind, get_or_raise, ensure in Hrun. simpl in Hrun.
    rewrite Hb, Hl in Hrun. simpl in Hrun. rewrite (proj2 (Z.leb_le _ _)) in Hrun by lia. done.
Qed.

(** Recording a decided answer and saving its state, alone. *)
Lemma settle_run {A} d e st started err n (k : ReplyDelivery → A) s :
  delivery_inv uuid_at s → answered d e s → event_verdict e = Some st → storable d →
  default (rd_attempts d) n = rd_attempts d →
  ∃ s2, run_proc (pm_bind (record_attempt uuid_at d (rd_attempts d) (record_text e) err started) (λ _,
          pm_bind (transition d st n) (λ d', pm_ret (k d')))) s
        = (Ok (k (with_status st (rd_attempts d) d)), s2) ∧
    delivery_inv uuid_at s2 ∧ owns (with_status st (rd_attempts d) d) s2 ∧
    key_events (delivery_key d) s2 = key_events (delivery_key d) s.
Proof.
  intros Hi Ha Hv Hstor Hn. pose proof Ha as (Ho & Hst & _ & _ & Hr).
  pose proof (owned_ok _ d s Hi Ho) as Hok.
  destruct (record_step uuid_at d e err started s Hi Ha) as (Hi1 & _ & Hrec); [by rewrite Hv|].
  unfold record_attempt. rewrite run_atomically, record_run; [|done..|exact (ro_flying _ _ Hok Hst)|done].
  set (s1 := add_attempt _ _) in *. pose proof Hrec as (Ho1 & _ & Hl1 & Hn1 & Hin1).
  unfold transition. rewrite !run_pm_bind, Hn. simpl. rewrite (save_run d st _ s1);
    [|done..|exact (ro_attempts _ _ Hok)]. simpl.
  eexists. split; [done|]. split_and!.
  - apply (row_step uuid_at (delivery_key d)); [done..|by left; eexists|].
    by apply (p_settle (delivery_view_of (delivery_key d) s1) d e st).
  - unfold owns. simpl. apply lookup_insert_eq.
  - done.
Qed.

(** The state an answer without doubt leads to. *)
Definition answer_state (r : ChannelTransportOutcome) : DeliveryState :=
  if to_delivered r then DELIVERED else if to_rate_limited r then RATE_LIMITED else FAILED.

Definition next_delivery (r : ChannelTransportOutcome) d : ReplyDelivery + ReplyDelivery :=
  if to_delivered r then inl d else inr d.

Lemma settle_attempt_run d r started s :
  delivery_inv uuid_at s → answered d (Sent (rd_attempts d) (rd_content d) (Ok r)) s → storable d →
  to_delivered r = true ∨ to_outcome_unknown r = false →
  let d2 := with_status (answer_state r) (rd_attempts d) d in
  ∃ s2, run_proc (settle_attempt uuid_at reconcile d (rd_attempts d) started (Ok r)) s
        = (Ok (next_delivery r d2), s2) ∧
    delivery_inv uuid_at s2 ∧ owns d2 s2 ∧
    key_events (delivery_key d) s2 = key_events (delivery_key d) s.
Proof.
  intros Hi Ha Hstor Hr. unfold settle_attempt, next_delivery, answer_state.
  set (e := Sent (rd_attempts d) (rd_content d) (Ok r)) in *.
  destruct (to_delivered r) eqn:Hd.
  - assert (record_text e = "DELIVERED") as <- by (simpl; by rewrite Hd).
    apply (settle_run d e DELIVERED started None (Some (rd_attempts d)) inl); try done.
    simpl. by rewrite Hd.
  - destruct Hr as [|Hu]; [done|]. rewrite Hu. set (st := if to_rate_limited r then RATE_LIMITED else FAILED).
    assert (record_text e = state_value st) as <- by (simpl; rewrite Hd; unfold st; by case_match).
    apply (settle_run d e st started _ (Some (rd_attempts d)) inr); try done. simpl. by rewrite Hd, Hu.
Qed.

Lemma back_off_run d s :
  delivery_inv uuid_at s → rd_attempts d < 1025 →
  ∃ s0, run_proc (back_off backoff_seconds d) s = (Ok tt, s0) ∧ delivery_inv uuid_at s0 ∧
    dd_deliveries s0 = dd_deliveries s ∧ dd_channel s0 = dd_channel s ∧
    (∀ key, key_events key s0 = key_events key s).
Proof.
  intros Hi Hlt. unfold back_off, backoff_delay. destruct (0 <? rd_attempts d); [|by exists s].
  destruct (Z.ltb_spec (Z.max 0 (rd_attempts d - 1)) 1024); [|lia]. simpl.
  eexists. split; [done|]. split; [|done].
  eapply inv_step; [exact Hi|by left|by apply ids_kept_same|by apply keys_kept_same].
Qed.

(** One round of the loop: back off, claim, send, settle. *)
Lemma round_run fuel budget d s r (c' : C) :
  let n := rd_attempts d + 1 in
  let d2 := with_status (answer_state r) n d in
  delivery_inv uuid_at s → owns d s → storable d →
  rd_status d ∈ [QUEUED; IN_FLIGHT; RATE_LIMITED; FAILED] → n ≤ budget → n ≤ 1025 →
  send (dd_channel s) (with_status IN_FLIGHT n d) n = (Ok r, c') →
  to_delivered r = true ∨ to_outcome_unknown r = false →
  ∃ s2, delivery_inv uuid_at s2 ∧ owns d2 s2 ∧
    key_events (delivery_key d) s2 = key_events (delivery_key d) s ++ [Sent n (rd_content d) (Ok r)] ∧
    run_proc (run_loop uuid_at send reconcile backoff_seconds (S fuel) budget (rd_tenant_id d)
                (rd_delivery_id d) d) s
    = if to_delivered r then (Ok d2, s2)
      else run_proc (run_loop uuid_at send reconcile backoff_seconds fuel budget (rd_tenant_id d)
                       (rd_delivery_id d) d2) s2.
Proof.
  intros n d2 Hi Ho Hstor Hst Hbud Hmax Hsend Hr. cbn [run_loop].
  rewrite (proj2 (Z.leb_gt _ _)) by (unfold n in *; lia). simpl.
  destruct (back_off_run d s Hi) as (s0 & Hback & Hi0 & Hrows & Hchan & Hev); [unfold n in *; lia|].
  assert (owns d s0) as Ho0 by (unfold owns; by rewrite Hrows).
  rewrite run_pm_bind, Hback, run_atomically, (claim_run uuid_at) by done. simpl.
  destruct (claim_step uuid_at d s0 Hi0 Ho0 Hst) as (Hi1 & _ & Hc).
  fold n in Hi1, Hc |- *. set (d1 := with_status IN_FLIGHT n d) in *. set (s1 := set_deliveries _ s0) in *.
  destruct Hc as (Ho1 & Hst1 & Hlt1 & Hrec1).
  unfold send_step.
  assert (dd_channel s1 = dd_channel s) as -> by exact Hchan. rewrite Hsend. cbn [fst snd].
  set (s3 := talk _ _ _ s1).
  assert (delivery_inv uuid_at s3) as Hi3.
  { apply (talk_step uuid_at); [done|].
    by apply (p_send (delivery_view_of (delivery_key d1) s1) d1 (Ok r)). }
  assert (answered d1 (Sent (rd_attempts d1) (rd_content d1) (Ok r)) s3) as Ha3.
  { split_and!; [exact Ho1|done| |done|exact Hrec1]. unfold s3. by rewrite key_events_talk, last_snoc. }
  destruct (settle_attempt_run d1 r (dd_now s1) s3 Hi3 Ha3 Hstor Hr) as (s4 & Hrun & Hi4 & Ho4 & Hev4).
  exists s4. split_and!; [done|exact Ho4| |].
  - change (delivery_key d) with (delivery_key d1) at 1. rewrite Hev4. unfold s3.
    rewrite key_events_talk. f_equal. change (key_events (delivery_key d) s0 = key_events (delivery_key d) s).
    apply Hev.
  - change (rd_attempts d1) with n in Hrun. rewrite run_pm_bind, Hrun. unfold next_delivery.
    by destruct (to_delivered r).
Qed.

Lemma load_run d s :
  owns d s → run_proc (load (rd_tenant_id d) (rd_delivery_id d)) s = (Ok d, s).
Proof. intros Ho. unfold load. rewrite run_pm_bind. simpl. unfold owns, delivery_key in Ho. by rewrite Ho. Qed.

(** A channel that is out of order until attempt [healthy]. *)
Definition recovers_at (healthy : Z) : Prop :=
  ∀ c d n, ∃ r c', send c d n = (Ok r, c') ∧
    if n <? healthy then to_delivered r = false ∧ to_outcome_unknown r = false
    else to_delivered r = true.

Lemma run_loop_delivers healthy fuel budget d s :
  recovers_at healthy →
  let n := Z.max healthy (rd_attempts d + 1) in
  delivery_inv uuid_at s → owns d s → storable d →
  rd_status d ∈ [QUEUED; IN_FLIGHT; RATE_LIMITED; FAILED] → n ≤ budget → n ≤ 1025 →
  n - rd_attempts d ≤ Z.of_nat fuel →
  ∃ s', run_proc (run_loop uuid_at send reconcile backoff_seconds fuel budget (rd_tenant_id d)
                    (rd_delivery_id d) d) s = (Ok (with_status DELIVERED n d), s') ∧
    owns (with_status DELIVERED n d) s' ∧
    sent_nos (key_events (delivery_key d) s')
      = sent_nos (key_events (delivery_key d) s) ++ seqZ (rd_attempts d + 1) (n - rd_attempts d).
Proof.
  intros Hrec. revert d s. induction fuel as [|fuel IH]; intros d s n Hi Ho Hstor Hst Hbud Hmax Hfuel; [lia|].
  destruct (Hrec (dd_channel s) (with_status IN_FLIGHT (rd_attempts d + 1) d) (rd_attempts d + 1))
    as (r & c' & Hsend & Hr).
  destruct (round_run fuel budget d s r c') as (s2 & Hi2 & Ho2 & Hev2 & ->); [done..|lia|lia|done| |].
  { case_match; naive_solver. }
  destruct (Z.ltb_spec (rd_attempts d + 1) healthy) as [Hlt|Hge].
  - destruct Hr as [Hd Hu]. rewrite Hd. set (d2 := with_status (answer_state r) (rd_attempts d + 1) d) in *.
    assert (Z.max healthy (rd_attempts d2 + 1) = n) as Hn by (simpl; unfold n; lia).
    destruct (IH d2 s2) as (s' & Hrun & Ho' & Hsent); try done.
    + simpl. unfold answer_state. rewrite Hd. case_match; set_solver.
    + lia.
    + lia.
    + simpl. lia.
    + rewrite Hn in *. exists s'. split_and!; [exact Hrun|exact Ho'|].
      change (delivery_key d2) with (delivery_key d) in Hsent. rewrite Hsent, Hev2, sent_nos_snoc. simpl.
      rewrite <- app_assoc. f_equal. rewrite (seqZ_cons (rd_attempts d + 1) (n - rd_attempts d)) by lia.
      simpl. f_equal. f_equal; lia.
  - rewrite Hr in *. assert (n = rd_attempts d + 1) as -> by lia.
    assert (answer_state r = DELIVERED) as Has by (unfold answer_state; by rewrite Hr).
    rewrite Has in *. exists s2. split_and!; [done|done|]. rewrite Hev2, sent_nos_snoc. simpl.
    f_equal. by replace (rd_attempts d + 1 - rd_attempts d) with 1 by lia.
Qed.

(** A delivery survives transient failures: alone on a channel that fails or
    rate-limits until attempt [healthy] and delivers from then on, the run of a
    delivery whose budget reaches that attempt ends with the stored row DELIVERED,
    having sent exactly the numbers from its next attempt to the one that got
    through, and nothing after it. *)
Theorem transient_failures_delivered healthy budget d s :
  recovers_at healthy → delivery_inv uuid_at s → owns d s → storable d →
  rd_status d ∈ [QUEUED; IN_FLIGHT; RATE_LIMITED; FAILED] →
  let n := Z.max healthy (rd_attempts d + 1) in
  n ≤ default max_attempts budget → n ≤ 1025 →
  ∃ s', run_proc (run uuid_at send reconcile backoff_seconds max_attempts (rd_delivery_id d)
                    (rd_tenant_id d) budget) s = (Ok (with_status DELIVERED n d), s') ∧
    owns (with_status DELIVERED n d) s' ∧
    sent_nos (key_events (delivery_key d) s')
      = sent_nos (key_events (delivery_key d) s) ++ seqZ (rd_attempts d + 1) (n - rd_attempts d).
Proof.
  intros Hrec Hi Ho Hstor Hst n Hbud Hmax. pose proof (ro_attempts _ _ (owned_ok _ d s Hi Ho)).
  unfold run. rewrite run_pm_bind, load_run by done. rewrite !bool_decide_eq_false_2.
  - apply (run_loop_delivers healthy); try done. unfold RUN_FUEL. lia.
  - intros Hu. rewrite Hu in Hst. repeat rewrite elem_of_cons in Hst. set_solver.
  - unfold TERMINAL_STATES. rewrite !elem_of_cons in *. rewrite !elem_of_nil in *. intuition congruence.
Qed.
End Delivers.

(** ** Deliveries on the scripted channel

    [FakeChannelTransport] of channels/delivery.py as the transport: the witnesses of
    the delivery theorems, and runs that show what the code does when rate limits,
    card updates or a second worker meet the attempt budget. *)

(** ** FakeChannelTransport *)
Record FakeChannelTransport := {
  fk_outcomes : list ChannelTransportOutcome;
  fk_reconcile_results : list (Z * ReconcileVerdict);
  fk_sent_attempt_nos : list Z;
}.

Definition delivered_outcome : ChannelTransportOutcome :=
  {| to_delivered := true; to_rate_limited := false; to_outcome_unknown := false; to_error_code := None |}.

Definition fake_send (c : FakeChannelTransport) (d : ReplyDelivery) (attempt_no : Z)
    : outcome unit ChannelTransportOutcome * FakeChannelTransport :=
  let sent := fk_sent_attempt_nos c ++ [attempt_no] in
  match fk_outcomes c with
  | [] => (Ok delivered_outcome,
           {| fk_outcomes := []; fk_reconcile_results := fk_reconcile_results c;
              fk_sent_attempt_nos := sent |})
  | o :: outcomes => (Ok o,
           {| fk_outcomes := outcomes; fk_reconcile_results := fk_reconcile_results c;
              fk_sent_attempt_nos := sent |})
  end.

Definition fake_reconcile (c : FakeChannelTransport) (d : ReplyDelivery) (attempt_no : Z)
    : ReconcileVerdict :=
  default "unknown" (dict_get attempt_no (fk_reconcile_results c)).

(** ** A service *)
Definition sample_uuid (n : nat) : uuid := 1000 + Z.of_nat n.
#[export] Instance sample_uuid_inj : Inj (=) (=) sample_uuid.
Proof. unfold sample_uuid. intros n m H. lia. Qed.

Abbreviation sample_history h channel :=
  (delivery_history sample_uuid fake_send fake_reconcile DEFAULT_BACKOFF_SECONDS DEFAULT_MAX_ATTEMPTS h
     (new_delivery_system channel 0)).

Definition script (outcomes : list ChannelTransportOutcome) (verdicts : list (Z * ReconcileVerdict))
    : FakeChannelTransport :=
  {| fk_outcomes := outcomes; fk_reconcile_results := verdicts; fk_sent_attempt_nos := [] |}.

Definition failed : ChannelTransportOutcome :=
  {| to_delivered := false; to_rate_limited := false; to_outcome_unknown := false;
     to_error_code := Some "CHANNEL_DOWN" |}.
Definition limited : ChannelTransportOutcome :=
  {| to_delivered := false; to_rate_limited := true; to_outcome_unknown := false;
     to_error_code := Some "RATE" |}.
Definition unclear : ChannelTransportOutcome :=
  {| to_delivered := false; to_rate_limited := false; to_outcome_unknown := true;
     to_error_code := Some "TIMEOUT" |}.

(** Delivery 7 of tenant 1; a call that runs to its end. *)
Definition enqueue_7 : delivery_call * nat * Z :=
  (CallEnqueue 1 (uuid_text 5) "execution" "conversation" "hello" (Some 7), 100%nat, 0).
Definition run_7 : delivery_call * nat * Z := (CallRun 7 1 None, 1000%nat, 0).
Definition update_7 (content : string) : delivery_call * nat * Z := (CallUpdate 7 1 content, 100%nat, 0).

Definition status_of (s : DeliverySystem FakeChannelTransport) : option (DeliveryState * Z) :=
  (λ d, (rd_status d, rd_attempts d)) <$> dd_deliveries s !! (1, 7).

Lemma sample_call_ok : Forall (λ e, call_ok sample_uuid e.1.1) [enqueue_7; run_7].
Proof. repeat constructor. intros n. unfold sample_uuid. lia. Qed.

(** A failure, then an outcome the channel cannot tell: parked after two sends; a run
    that stops right after its question leaves it parked. *)
Definition parked_history : list (delivery_call * nat * Z) := [enqueue_7; run_7].
Definition parked_script := script [failed; unclear] [].

Lemma parked_status : status_of (sample_history parked_history parked_script) = Some (OUTCOME_UNKNOWN, 2).
Proof. vm_compute. reflexivity. Qed.

Lemma deliveries_refine_protocol_witness :
  key_recorded (1, 7) (sample_history parked_history parked_script)
    = [(1, "FAILED"); (2, "OUTCOME_UNKNOWN")] ∧
  rtc protocol new_delivery_view (delivery_view_of (1, 7) (sample_history parked_history parked_script)).
Proof.
  split; [vm_compute; reflexivity|].
  apply (deliveries_refine_protocol sample_uuid fake_send fake_reconcile DEFAULT_BACKOFF_SECONDS
    DEFAULT_MAX_ATTEMPTS parked_script 0 parked_history). exact sample_call_ok.
Defined.

(** The row of the scenario. *)
Definition parked_row : ReplyDelivery :=
  {| rd_tenant_id := 1; rd_delivery_id := 7; rd_binding_id := uuid_text 5;
     rd_execution_id := "execution"; rd_external_conversation_id := "conversation";
     rd_content := "hello"; rd_status := OUTCOME_UNKNOWN; rd_attempts := 2; rd_created_at := 0 |}.

Lemma parked_row_stored :
  dd_deliveries (sample_history parked_history parked_script) !! (1, 7) = Some parked_row.
Proof. vm_compute. reflexivity. Qed.

Lemma delivery_attempts_accounted_witness :
  sent_nos (key_events (1, 7) (sample_history parked_history parked_script)) = [1; 2] ∧
  StronglySorted Z.lt (sent_nos (key_events (1, 7) (sample_history parked_history parked_script))).
Proof.
  split; [vm_compute; reflexivity|].
  apply (delivery_attempts_accounted sample_uuid fake_send fake_reconcile DEFAULT_BACKOFF_SECONDS
    DEFAULT_MAX_ATTEMPTS parked_script 0 parked_history (1, 7) parked_row); [exact sample_call_ok|].
  exact parked_row_stored.
Defined.

Lemma settled_deliveries_not_resent_witness :
  status_of (sample_history ([enqueue_7; run_7] ++ [run_7]) parked_script) = Some (OUTCOME_UNKNOWN, 2) ∧
  ∃ asked, Forall (λ e, ∃ verdict, e = Reconciled 2 verdict) asked ∧
    (delivery_view_of (1, 7) (sample_history ([enqueue_7; run_7] ++ [run_7]) parked_script)
       = parked_view parked_row (delivery_view_of (1, 7) (sample_history parked_history parked_script)) asked
     ∨ freed_by_verdict parked_row
         (parked_view parked_row (delivery_view_of (1, 7) (sample_history parked_history parked_script)) asked)
         (delivery_view_of (1, 7) (sample_history ([enqueue_7; run_7] ++ [run_7]) parked_script))).
Proof.
  split; [vm_compute; reflexivity|].
  apply (settled_deliveries_not_resent sample_uuid fake_send fake_reconcile DEFAULT_BACKOFF_SECONDS
    DEFAULT_MAX_ATTEMPTS parked_script 0 parked_history [run_7] (1, 7) parked_row);
    [|exact parked_row_stored|reflexivity].
  apply Forall_app. split; [exact sample_call_ok|]. repeat constructor.
Defined.

(** ** The attempt budget *)

(** The processing notice and four updates of a card are delivered; the fifth update
    is not sent at all, and the card can no longer be updated. *)
Lemma fifth_card_update_dead_letters :
  let s := sample_history [enqueue_7; run_7; update_7 "a"; run_7; update_7 "ab"; run_7; update_7 "abc"; run_7;
                           update_7 "abcd"; run_7; update_7 "abcde"; run_7] (script [] []) in
  status_of s = Some (DEAD_LETTER, 5) ∧ sent_nos (key_events (1, 7) s) = [1; 2; 3; 4; 5] ∧
  (run_proc (update 7 1 "abcdef") s).1 = Raise (ReplyDeliveryError "DELIVERY_NOT_UPDATABLE").
Proof. vm_compute. split_and!; reflexivity. Qed.

(** Four rate limits leave room for one failure of the five, not for five. *)
Lemma rate_limits_use_up_the_budget :
  let s := sample_history [enqueue_7; run_7] (script [limited; limited; limited; limited; failed] []) in
  status_of s = Some (DEAD_LETTER, 5) ∧
  key_recorded (1, 7) s = [(1, "RATE_LIMITED"); (2, "RATE_LIMITED"); (3, "RATE_LIMITED");
                           (4, "RATE_LIMITED"); (5, "FAILED")].
Proof. vm_compute. split; reflexivity. Qed.

(** ** Two workers *)
Fixpoint two_workers {S R} (schedule : list bool) (p q : proc S R) (s : S) : S :=
  match schedule with
  | [] => s
  | true :: schedule' =>
      match p with
      | Step next effect => two_workers schedule' (next s) q (effect s)
      | Done _ => two_workers schedule' p q s
      end
  | false :: schedule' =>
      match q with
      | Step next effect => two_workers schedule' p (next s) (effect s)
      | Done _ => two_workers schedule' p q s
      end
  end.

Definition worker_7 : PM (DeliverySystem FakeChannelTransport) delivery_exn ReplyDelivery :=
  run sample_uuid fake_send fake_reconcile DEFAULT_BACKOFF_SECONDS DEFAULT_MAX_ATTEMPTS 7 1 None.

(** The first worker claims; the second finds the delivery IN_FLIGHT, claims it again
    and delivers it; then the first sends too. *)
Lemma in_flight_delivery_sent_twice :
  let s0 := sample_history [enqueue_7] (script [] []) in
  let s := two_workers ([true; true] ++ replicate 10 false ++ replicate 10 true) worker_7 worker_7 s0 in
  key_events (1, 7) s = [Sent 2 "hello" (Ok delivered_outcome); Sent 1 "hello" (Ok delivered_outcome)].
Proof. vm_compute. reflexivity. Qed.

(** And when the first one's send fails, it overwrites DELIVERED with FAILED and sends a
    delivered message again. *)
Lemma delivered_message_overwritten_and_resent :
  let s0 := sample_history [enqueue_7] (script [delivered_outcome; failed] []) in
  let s := two_workers ([true; true] ++ replicate 10 false ++ replicate 20 true) worker_7 worker_7 s0 in
  (λ e, (event_no e, event_verdict e)) <$> key_events (1, 7) s
    = [(2, Some DELIVERED); (1, Some FAILED); (2, Some DELIVERED)].
Proof. vm_compute. reflexivity. Qed.

(** ** A channel that recovers *)
Definition late_send (healthy : Z) (c : unit) (d : ReplyDelivery) (n : Z)
    : outcome unit ChannelTransportOutcome * unit :=
  (Ok (if n <? healthy then failed else delivered_outcome), tt).

Definition queued_7 : DeliverySystem unit :=
  delivery_history sample_uuid (late_send 3) (λ _ _ _, "unknown") DEFAULT_BACKOFF_SECONDS
    DEFAULT_MAX_ATTEMPTS [enqueue_7] (new_delivery_system tt 0).

Definition queued_row : ReplyDelivery :=
  {| rd_tenant_id := 1; rd_delivery_id := 7; rd_binding_id := uuid_text 5;
     rd_execution_id := "execution"; rd_external_conversation_id := "conversation";
     rd_content := "hello"; rd_status := QUEUED; rd_attempts := 0; rd_created_at := 0 |}.

Lemma queued_7_ok : delivery_inv sample_uuid queued_7.
Proof.
  destruct (history_follows sample_uuid (late_send 3) (λ _ _ _, "unknown") DEFAULT_BACKOFF_SECONDS
    DEFAULT_MAX_ATTEMPTS [enqueue_7] (new_delivery_system tt 0)) as [Hi _];
    [|exact (new_system_ok sample_uuid tt 0)|exact Hi].
  apply Forall_singleton. intros n. unfold sample_uuid. lia.
Qed.

Lemma transient_failures_delivered_witness :
  ∃ s', run_proc (run sample_uuid (late_send 3) (λ _ _ _, "unknown") DEFAULT_BACKOFF_SECONDS
                    DEFAULT_MAX_ATTEMPTS 7 1 None) queued_7 = (Ok (with_status DELIVERED 3 queued_row), s') ∧
    sent_nos (key_events (1, 7) s') = [1; 2; 3].
Proof.
  destruct (transient_failures_delivered sample_uuid (late_send 3) (λ _ _ _, "unknown")
    DEFAULT_BACKOFF_SECONDS DEFAULT_MAX_ATTEMPTS 3 None queued_row queued_7) as (s' & Hrun & _ & Hsent).
  - intros c d n. exists (if n <? 3 then failed else delivered_outcome), tt. split; [reflexivity|].
    destruct (n <? 3); [split|]; reflexivity.
  - exact queued_7_ok.
  - vm_compute. reflexivity.
  - split; [exists 5|]; vm_compute; reflexivity.
  - left.
  - vm_compute. discriminate.
  - vm_compute. discriminate.
  - exists s'. split; [exact Hrun|]. vm_compute in Hsent |- *. exact Hsent.
Defined.

(** A delivery that was rate-limited 1025 times cannot be run again: the back-off of
    its next attempt is beyond a float. *)
Lemma rate_limited_delivery_overflows :
  let s := {| dd_deliveries := {[(1, 7) := with_status RATE_LIMITED 1025 queued_row]}; dd_attempts := [];
              dd_next_id := 0; dd_now := 0; dd_channel := script [] []; dd_log := [] |} in
  run_proc worker_7 s = (Raise DOverflow, s).
Proof. vm_compute. reflexivity. Qed.
