(* ===== verification/Inbound.v ===== *)
(** * Channel bindings and the inbound ledger (trpc_service/channels/bindings.py, channels/inbound.py, channels/store.py)

    An inbound event of a channel is resolved to one binding, verified, entered in a
    ledger keyed by tenant, binding and message key, and submitted to the agent
    gateway under a message id derived from that key.  The ledger and the gateway's
    tables are one database; every call of a store and the gateway's submission is
    one transaction, so intakes of the same message can interleave with each other
    and with the rest of the platform.

    Parameters: the digest of a canonical JSON text, HMAC-SHA-256, UUID version 5,
    the secret store, and what the gateway is parameterised by. *)

From Stdlib Require Import Ascii.
From S2P Require Import Prelude PyNum Uuids ExecutionBus Backpressure Sessions AgentGateway Interleave.
Open Scope string_scope.
Open Scope list_scope.
Open Scope Z_scope.

(** ** Bindings *)
Inductive ChannelBindingStatus := CB_ACTIVE | CB_DISABLED.
#[export] Instance ChannelBindingStatus_eq_dec : EqDecision ChannelBindingStatus.
Proof. solve_decision. Defined.

Record ChannelBinding := {
  cb_tenant_id : uuid;
  cb_binding_id : uuid;
  cb_channel_type : string;
  cb_external_bot_id : string;
  cb_application_id : uuid;
  cb_environment : string;
  cb_secret_ref : string;
  cb_status : ChannelBindingStatus;
}.
#[export] Instance ChannelBinding_eq_dec : EqDecision ChannelBinding.
Proof. solve_decision. Defined.

Definition CHANNEL_TYPES : list string := ["FAKE"; "WECOM"; "FEISHU"].

(** A route: tenant, channel type and external bot. *)
Abbreviation route := (uuid * string * string)%type.
Definition route_key (b : ChannelBinding) : route :=
  (cb_tenant_id b, cb_channel_type b, cb_external_bot_id b).

(** [re.match("^vault://[a-z0-9/_:-]+#[a-zA-Z0-9_-]+$", ...)]: [$] also matches before
    a newline at the end. *)
Definition char_between (lo hi : Ascii.ascii) (c : Ascii.ascii) : bool :=
  (Ascii.nat_of_ascii lo <=? Ascii.nat_of_ascii c)%nat && (Ascii.nat_of_ascii c <=? Ascii.nat_of_ascii hi)%nat.
Definition ref_path_char (c : Ascii.ascii) : bool :=
  char_between "a" "z" c || char_between "0" "9" c
  || bool_decide (c ∈ ["/"%char; "_"%char; ":"%char; "-"%char]).
Definition ref_field_char (c : Ascii.ascii) : bool :=
  char_between "a" "z" c || char_between "A" "Z" c || char_between "0" "9" c
  || bool_decide (c ∈ ["_"%char; "-"%char]).

(** The part before the first [sep] and the part after it. *)
Fixpoint split_first (sep : Ascii.ascii) (s : string) : option (string * string) :=
  match s with
  | EmptyString => None
  | String c s' =>
      if bool_decide (c = sep) then Some (EmptyString, s')
      else '(before, after) ← split_first sep s'; Some (String c before, after)
  end.

Fixpoint chomp (s : string) : string :=
  match s with
  | EmptyString => EmptyString
  | String c EmptyString => if bool_decide (c = "010"%char) then EmptyString else s
  | String c s' => String c (chomp s')
  end.

Definition remove_prefix (p s : string) : string :=
  if String.prefix p s then String.substring (String.length p) (String.length s) s else s.

Definition is_secret_ref (s : string) : bool :=
  String.prefix "vault://" s
  && match split_first "#"%char (remove_prefix "vault://" (chomp s)) with
     | Some (path, field) =>
         negb (bool_decide (path = "")) && all_chars ref_path_char path
         && negb (bool_decide (field = "")) && all_chars ref_field_char field
     | None => false
     end.

(** The field constraints; [None]: the secret reference is refused by
    [model_post_init] ([SecretRefRejected]). *)
Definition binding_valid (b : ChannelBinding) : bool :=
  bool_decide (cb_channel_type b ∈ CHANNEL_TYPES) && length_between 1 128 (cb_external_bot_id b)
  && bool_decide (cb_environment b ∈ ["DEVELOPMENT"; "STAGING"; "PRODUCTION"])
  && length_between 1 512 (cb_secret_ref b).

(** ** The ledger *)
Inductive InboundStatus := IN_ACCEPTED | IN_CONFLICTED.

Record InboundMessage := {
  im_payload_hash : string;
  im_external_user_id : string;
  im_execution_id : option uuid;
  im_release_id : option uuid;
  im_status : InboundStatus;
  im_occurred_at : instant;
}.

Record InboundConflict := {
  ic_tenant_id : uuid;
  ic_binding_id : uuid;
  ic_message_key : string;
  ic_recorded_hash : string;
  ic_received_hash : string;
  ic_detected_at : instant;
}.

(** [ledger_key]: tenant, binding, message key. *)
Abbreviation ledger_key := (uuid * uuid * string)%type.

Record InboundDb := {
  ib_bindings : gmap route ChannelBinding;
  ib_messages : gmap ledger_key InboundMessage;
  ib_conflicts : list InboundConflict;
  ib_exec : ExecState;
}.

Inductive inbound_exn :=
  | InboundError (code : string)
  | SecretRefRejected
  | ChannelBindingConflict
  | IValidation
  | IValue (message : string)
  | ISql
  | IGateway (e : ExecError).

Abbreviation IB A := (ST InboundDb inbound_exn A).

Definition set_bindings (f : gmap route ChannelBinding → gmap route ChannelBinding) (db : InboundDb)
    : InboundDb :=
  {| ib_bindings := f (ib_bindings db); ib_messages := ib_messages db; ib_conflicts := ib_conflicts db;
     ib_exec := ib_exec db |}.
Definition set_messages (f : gmap ledger_key InboundMessage → gmap ledger_key InboundMessage)
    (db : InboundDb) : InboundDb :=
  {| ib_bindings := ib_bindings db; ib_messages := f (ib_messages db); ib_conflicts := ib_conflicts db;
     ib_exec := ib_exec db |}.
Definition add_conflict (c : InboundConflict) (db : InboundDb) : InboundDb :=
  {| ib_bindings := ib_bindings db; ib_messages := ib_messages db;
     ib_conflicts := ib_conflicts db ++ [c]; ib_exec := ib_exec db |}.
Definition set_exec (e : ExecState) (db : InboundDb) : InboundDb :=
  {| ib_bindings := ib_bindings db; ib_messages := ib_messages db; ib_conflicts := ib_conflicts db;
     ib_exec := e |}.

(** *** DatabaseBindingStore *)

(** [INSERT ... ON CONFLICT (tenant_id,channel_type,external_bot_id) DO NOTHING]; the
    pair of tenant and binding id is the primary key, [created_by] is not empty. *)
Definition binding_insert (b : ChannelBinding) (created_by : string) : IB ChannelBinding :=
  rows ← gets ib_bindings;
  match rows !! route_key b with
  | Some stored =>
      if bool_decide (
           {| cb_tenant_id := cb_tenant_id stored; cb_binding_id := cb_binding_id b;
              cb_channel_type := cb_channel_type stored;
              cb_external_bot_id := cb_external_bot_id stored;
              cb_application_id := cb_application_id stored; cb_environment := cb_environment stored;
              cb_secret_ref := cb_secret_ref stored; cb_status := cb_status stored |} = b)
      then mret stored else raise ChannelBindingConflict
  | None =>
      _ ← ensure (length_between 1 256 created_by
                  && bool_decide (map_Forall (λ _ r, (cb_tenant_id r, cb_binding_id r) ≠
                                                     (cb_tenant_id b, cb_binding_id b)) rows)) ISql;
      _ ← modify (set_bindings <[route_key b := b]>);
      mret b
  end.

Definition binding_resolve (tenant_id : uuid) (channel_type external_bot_id : string)
    : IB (option ChannelBinding) :=
  gets (λ db, match ib_bindings db !! (tenant_id, channel_type, external_bot_id) with
              | Some b => if bool_decide (cb_status b = CB_ACTIVE) then Some b else None
              | None => None
              end).

(** [UPDATE ... SET status=$3 WHERE tenant_id=$1 AND binding_id=$2 RETURNING *] *)
Definition binding_with_status (status : ChannelBindingStatus) (b : ChannelBinding) : ChannelBinding :=
  {| cb_tenant_id := cb_tenant_id b; cb_binding_id := cb_binding_id b;
     cb_channel_type := cb_channel_type b; cb_external_bot_id := cb_external_bot_id b;
     cb_application_id := cb_application_id b; cb_environment := cb_environment b;
     cb_secret_ref := cb_secret_ref b; cb_status := status |}.

Definition binding_set_status (tenant_id binding_id : uuid) (status : ChannelBindingStatus)
    : IB (option ChannelBinding) :=
  let is_row (b : ChannelBinding) :=
    bool_decide (cb_tenant_id b = tenant_id) && bool_decide (cb_binding_id b = binding_id) in
  found ← gets (λ db, head (filter (λ b, is_row b = true) (map_to_list (ib_bindings db)).*2));
  _ ← modify (set_bindings (fmap (λ b, if is_row b then binding_with_status status b else b)));
  mret (binding_with_status status <$> found).

(** *** ChannelBindingRegistry *)
Definition register (b : ChannelBinding) (created_by : string) : IB ChannelBinding :=
  _ ← ensure (bool_decide (cb_channel_type b ∈ CHANNEL_TYPES)) (IValue "unsupported channel type");
  binding_insert b created_by.

Definition registry_resolve (tenant_id : uuid) (channel_type external_bot_id : string)
    : IB (option ChannelBinding) :=
  b ← binding_resolve tenant_id channel_type external_bot_id;
  match b with
  | Some b => if bool_decide (cb_status b = CB_ACTIVE) then mret (Some b) else mret None
  | None => mret None
  end.

(** *** DatabaseInboundStore: [INSERT ... ON CONFLICT DO NOTHING], then the stored row and
    whether it is new; the row's time is the database's. *)
Definition message_insert (key : ledger_key) (hash external_user_id : string)
    : IB (InboundMessage * bool) :=
  existing ← gets (λ db, ib_messages db !! key);
  match existing with
  | Some row => mret (row, false)
  | None =>
      now ← gets (λ db, es_now (ib_exec db));
      let row := {| im_payload_hash := hash; im_external_user_id := external_user_id;
                    im_execution_id := None; im_release_id := None; im_status := IN_ACCEPTED;
                    im_occurred_at := now |} in
      _ ← modify (set_messages <[key := row]>);
      mret (row, true)
  end.

Definition record_conflict (key : ledger_key) (recorded received : string) : IB unit :=
  now ← gets (λ db, es_now (ib_exec db));
  modify (add_conflict {| ic_tenant_id := key.1.1; ic_binding_id := key.1.2; ic_message_key := key.2;
                          ic_recorded_hash := recorded; ic_received_hash := received;
                          ic_detected_at := now |}).

Definition with_execution (execution_id release_id : uuid) (row : InboundMessage) : InboundMessage :=
  {| im_payload_hash := im_payload_hash row; im_external_user_id := im_external_user_id row;
     im_execution_id := Some execution_id; im_release_id := Some release_id;
     im_status := im_status row; im_occurred_at := im_occurred_at row |}.
Definition attach_execution (key : ledger_key) (execution_id release_id : uuid) : IB unit :=
  modify (set_messages (alter (with_execution execution_id release_id) key)).

(** ** Sessions and memory scopes *)
Definition IM_DIRECT_MEMORY_POLICY : string := "im-subject-direct-v1".
Definition IM_GROUP_MEMORY_POLICY : string := "im-group-isolated-v1".

Definition memory_policy_for_session_scope (session_key : string) : option string :=
  if String.prefix "direct:" session_key then Some IM_DIRECT_MEMORY_POLICY
  else if String.prefix "group:" session_key || String.prefix "thread:" session_key then
    Some IM_GROUP_MEMORY_POLICY
  else None.

(** An event is the [dict[str, str]] an adapter built. *)
Definition event_field (event : str_dict) (k : string) : string := default "" (event !! k).
Definition EVENT_FIELDS : list string :=
  ["channel_type"; "external_bot_id"; "message_key"; "text"; "external_user_id"].
Definition event_complete (event : str_dict) : bool :=
  forallb (λ k, negb (bool_decide (event_field event k = ""))) EVENT_FIELDS.

Definition session_scope (event : str_dict) : string :=
  default ("direct:" ++ event_field event "external_user_id")%string (event !! "session_key").

(** The error of an unusable scope, or [None]. *)
Definition scope_error (event : str_dict) : option string :=
  let scope := session_scope event in
  if String.prefix "direct:" scope then
    if bool_decide (scope = ("direct:" ++ event_field event "external_user_id")%string) then None
    else Some "SESSION_SCOPE_INVALID"
  else if String.prefix "group:" scope then
    if bool_decide (remove_prefix "group:" scope = "") then Some "GROUP_SESSION_ID_REQUIRED" else None
  else if String.prefix "thread:" scope then
    match split_first ":"%char (remove_prefix "thread:" scope) with
    | Some (group, thread) =>
        if bool_decide (group = "") || bool_decide (thread = "") then Some "GROUP_SESSION_ID_REQUIRED"
        else None
    | None => Some "GROUP_SESSION_ID_REQUIRED"
    end
  else Some "SESSION_SCOPE_INVALID".

Section Intake.
(** [hashlib.sha256(json.dumps(...).encode()).hexdigest()] *)
Context (payload_digest : json → string).
(** [hmac.new(material, payload, sha256).hexdigest()] *)
Context (hmac_hex : string → string → string).
(** [uuid5(NAMESPACE_URL, name)] *)
Context (uuid5 : string → uuid).
(** [SecretResolver.resolve] *)
Context (resolve_secret : string → string).
(** The gateway's parameters. *)
Context (uuid_at : nat → uuid) (application_exists : uuid → uuid → bool).
Context (release_classification : uuid → uuid → option string).

Definition NL : string := String "010"%char EmptyString.

Definition fake_channel_signature (material message_key text external_user_id : string)
    (session_key : option string) : string :=
  "fake:" ++ hmac_hex material (message_key ++ NL ++ text ++ NL ++ external_user_id ++ NL
                                ++ default "" session_key)%string.

Definition legacy_fake_channel_signature (material message_key text external_user_id : string) : string :=
  "fake:" ++ hmac_hex material (message_key ++ NL ++ text ++ NL ++ external_user_id)%string.

(** [session_key or f"direct:{external_user_id}"] *)
Definition inbound_payload_hash (text external_user_id : string) (session_key : option string) : string :=
  let direct := ("direct:" ++ external_user_id)%string in
  let scope := match session_key with Some (String _ _ as k) => k | _ => direct end in
  payload_digest (JObj (<["text" := JStr text]> (<["external_user_id" := JStr external_user_id]>
    {["session_key" := JStr scope]}))).

Definition legacy_inbound_payload_hash (text external_user_id : string) : string :=
  payload_digest (JObj (<["text" := JStr text]> {["external_user_id" := JStr external_user_id]})).

Definition execution_message_id (tenant_id binding_id : uuid) (message_key : string) : string :=
  "inbound-" ++ uuid_text (uuid5 ("inbound:" ++ uuid_text tenant_id ++ "|" ++ uuid_text binding_id
                                  ++ "|" ++ message_key)%string).

Definition subject_for (b : ChannelBinding) (external_user_id : string) : string :=
  "im:" ++ cb_channel_type b ++ ":" ++ uuid_text (cb_binding_id b) ++ ":" ++ external_user_id.

Definition session_id_of (b : ChannelBinding) (event : str_dict) : string :=
  "session:" ++ uuid_text (uuid5 ("session:v1|" ++ uuid_text (cb_tenant_id b) ++ "|"
    ++ uuid_text (cb_application_id b) ++ "|" ++ uuid_text (cb_binding_id b) ++ "|"
    ++ session_scope event)%string).

Definition session_for (b : ChannelBinding) (event : str_dict) : outcome inbound_exn string :=
  match scope_error event with
  | Some code => Raise (InboundError code)
  | None => Ok (session_id_of b event)
  end.

Definition CONTEXT_FIELDS : list string :=
  ["channel_type"; "external_bot_id"; "external_user_id"; "message_key"; "session_key"; "response_url";
   "chat_type"; "chat_id"].

Definition channel_context (b : ChannelBinding) (event : str_dict) : str_dict :=
  <["binding_id" := uuid_text (cb_binding_id b)]> (filter (λ kv, kv.1 ∈ CONTEXT_FIELDS) event).

(** [_build_submission]; the submission model validates its fields. *)
Definition build_submission (b : ChannelBinding) (event : str_dict) (message_id : string)
    (trace_parent : option string) : outcome inbound_exn AgentExecutionSubmission :=
  match session_for b event with
  | Raise e => Raise e
  | Ok session_id =>
      match memory_policy_for_session_scope (session_scope event) with
      | None => Raise (IValue "SESSION_SCOPE_INVALID")
      | Some policy =>
          let sb := {| sb_tenant_id := cb_tenant_id b; sb_application_id := cb_application_id b;
                       sb_environment := cb_environment b; sb_session_id := session_id;
                       sb_subject_id := Some (subject_for b (event_field event "external_user_id"));
                       sb_memory_policy_version := policy;
                       sb_messages := [<["role" := "user"]>
                                         {["content" := event_field event "text"]}];
                       sb_message_id := Some message_id;
                       sb_channel_context := Some (channel_context b event);
                       sb_trace_parent := trace_parent |} in
          if submission_valid sb then Ok sb else Raise IValidation
      end
  end.

(** The gateway's transaction on the shared database. *)
Definition on_gateway {A} (m : ES A) : IB A := λ db,
  match m (ib_exec db) with
  | (Ok a, e) => (Ok a, set_exec e db)
  | (Raise x, e) => (Raise (IGateway x), set_exec e db)
  end.

Definition external_result {A} (r : outcome inbound_exn A) : PM InboundDb inbound_exn A := Done r.

(** What an intake finds outside the database: the gateway's capacity policy, the
    release the deployment resolves to, the trace context, and whether the
    submission's connection fails. *)
Record intake_env := {
  ie_policy : CapacityPolicy;
  ie_resolved : option uuid;
  ie_trace_parent : option string;
  ie_fault : txn_fault;
}.

(** Whether the hash on record is that of this event. *)
Definition payload_matches (event : str_dict) (recorded : string) : bool :=
  bool_decide (recorded = inbound_payload_hash (event_field event "text")
    (event_field event "external_user_id") (event !! "session_key"))
  || bool_decide (event !! "session_key" = None)
     && bool_decide (recorded = legacy_inbound_payload_hash (event_field event "text")
          (event_field event "external_user_id")).

(** The field constraints of [InboundMessage] an event can violate. *)
Definition message_valid (event : str_dict) : bool :=
  length_between 1 256 (event_field event "message_key")
  && length_between 1 128 (event_field event "external_user_id").

(** Submitting and attaching the execution to the ledger row. *)
Definition route_event (env : intake_env) (b : ChannelBinding) (key : ledger_key) (event : str_dict)
    : PM InboundDb inbound_exn AgentExecutionAccepted :=
  submission <-- external_result (build_submission b event
                   (execution_message_id key.1.1 key.1.2 key.2) (ie_trace_parent env));
  accepted <-- atomically (on_gateway (submit uuid_at payload_digest application_exists
                 release_classification (ie_fault env) (ie_policy env) (ie_resolved env) submission));
  _ <-- atomically (attach_execution key (ac_execution_id accepted) (ac_release_id accepted));
  pm_ret accepted.

Definition ingest_verified (env : intake_env) (tenant_id : uuid) (event : str_dict)
    : PM InboundDb inbound_exn AgentExecutionAccepted :=
  if negb (event_complete event) then pm_raise (InboundError "EVENT_INVALID") else
  binding <-- atomically (registry_resolve tenant_id (event_field event "channel_type")
                            (event_field event "external_bot_id"));
  match binding with
  | None => pm_raise (InboundError "BINDING_NOT_FOUND")
  | Some b =>
      let hash := inbound_payload_hash (event_field event "text")
                    (event_field event "external_user_id") (event !! "session_key") in
      let key := (tenant_id, cb_binding_id b, event_field event "message_key") in
      if negb (message_valid event) then pm_raise IValidation else
      inserted <-- atomically (message_insert key hash (event_field event "external_user_id"));
      let '(stored, created) := inserted : InboundMessage * bool in
      let matches := payload_matches event (im_payload_hash stored) in
      match negb created && matches, im_execution_id stored, im_release_id stored with
      | true, Some execution_id, Some release_id =>
          session_id <-- external_result (session_for b event);
          pm_ret {| ac_execution_id := execution_id; ac_release_id := release_id;
                    ac_session_id := session_id; ac_deduplicated := true |}
      | _, _, _ =>
          if negb created && negb matches then
            _ <-- atomically (record_conflict key (im_payload_hash stored) hash);
            pm_raise (InboundError "INBOUND_PAYLOAD_CONFLICT")
          else route_event env b key event
      end
  end.

Definition signature_accepted (material : string) (event : str_dict) : bool :=
  let f := event_field event in
  bool_decide (event_field event "signature" = fake_channel_signature material (f "message_key")
    (f "text") (f "external_user_id") (event !! "session_key"))
  || bool_decide (event !! "session_key" = None)
     && bool_decide (event_field event "signature" = legacy_fake_channel_signature material
          (f "message_key") (f "text") (f "external_user_id")).

Definition ingest (env : intake_env) (tenant_id : uuid) (event : str_dict)
    : PM InboundDb inbound_exn AgentExecutionAccepted :=
  if negb (event_complete event) then pm_raise (InboundError "EVENT_INVALID") else
  binding <-- atomically (registry_resolve tenant_id (event_field event "channel_type")
                            (event_field event "external_bot_id"));
  match binding with
  | None => pm_raise (InboundError "BINDING_NOT_FOUND")
  | Some b =>
      if negb (signature_accepted (resolve_secret (cb_secret_ref b)) event) then
        pm_raise (InboundError "SIGNATURE_INVALID")
      else ingest_verified env tenant_id event
  end.

(** [signed_event]: the event of an adapter, signed for the ledger. *)
Definition signed_event (tenant_id : uuid) (channel_type external_bot_id message_key text
    external_user_id : string) (session_key : option string) : PM InboundDb inbound_exn str_dict :=
  binding <-- atomically (registry_resolve tenant_id channel_type external_bot_id);
  match binding with
  | None => pm_raise (InboundError "BINDING_NOT_FOUND")
  | Some b =>
      let event : str_dict :=
        <["channel_type" := channel_type]> (<["external_bot_id" := external_bot_id]>
        (<["message_key" := message_key]> (<["text" := text]>
        (<["external_user_id" := external_user_id]>
        {["signature" := fake_channel_signature (resolve_secret (cb_secret_ref b)) message_key text
                           external_user_id session_key]})))) in
      pm_ret (match session_key with Some k => <["session_key" := k]> event | None => event end)
  end.
End Intake.
