(* ===== verification/InboundTheorems.v ===== *)
(** * One execution per inbound message

    Intakes of the same and of other messages, the rest of the platform and changes
    of the bindings run in any order; crashes and redeliveries are intakes that end
    early and intakes that start again. *)

From stdpp Require Import countable.
From S2P Require Import Prelude PyNum Uuids Interleave ExecutionBus SampleCodec Backpressure Sessions AgentGateway AgentWorker PipelineFacts Pipeline PipelineTheorems Inbound.
Open Scope string_scope.
Open Scope list_scope.
Open Scope Z_scope.

Section Inbound.
Context (payload_digest : json → string) (hmac_hex : string → string → string).
Context (uuid5 : string → uuid) (resolve_secret : string → string).
Context (uuid_at : nat → uuid) (application_exists : uuid → uuid → bool).
Context (release_classification : uuid → uuid → option string).

Abbreviation message_id_of := (execution_message_id uuid5).

(** ** The invariant, and what every step guarantees *)
Definition executed (t x : uuid) (m : string) (db : InboundDb) : Prop :=
  ∃ r, es_executions (ib_exec db) !! (t, x) = Some r ∧ ex_message_id r = m.

Record inbound_inv (db : InboundDb) : Prop := {
  ii_exec : Inv (ib_exec db);
  ii_routes : ∀ k b, ib_bindings db !! k = Some b → route_key b = k;
  ii_ledger : ∀ t bid mk row x, ib_messages db !! (t, bid, mk) = Some row →
    im_execution_id row = Some x → executed t x (message_id_of t bid mk) db;
}.

Record inbound_guar (db db' : InboundDb) : Prop := {
  ig_exec : Guar (ib_exec db) (ib_exec db');
  ig_bindings : ∀ k b, ib_bindings db !! k = Some b →
    ∃ b', ib_bindings db' !! k = Some b' ∧ cb_binding_id b' = cb_binding_id b;
  ig_ledger : ∀ k row, ib_messages db !! k = Some row →
    ∃ row', ib_messages db' !! k = Some row' ∧ im_payload_hash row' = im_payload_hash row ∧
      ∀ x, im_execution_id row = Some x → im_execution_id row' = Some x;
}.

Lemma inbound_guar_refl db : inbound_guar db db.
Proof. split; [done|eauto|eauto]. Qed.

(** *** Facts that survive *)
Definition bound (k : route) (bid : uuid) (db : InboundDb) : Prop :=
  ∃ b, ib_bindings db !! k = Some b ∧ cb_binding_id b = bid.
Definition logged (k : ledger_key) (hash : string) (db : InboundDb) : Prop :=
  ∃ row, ib_messages db !! k = Some row ∧ im_payload_hash row = hash.

Lemma executed_stable t x m : stable inbound_inv inbound_guar (executed t x m).
Proof.
  intros s s' _ _ [[Hg _ _] _ _] (r & Hr & Hm). destruct (Hg _ _ Hr) as (r' & ? & ? & _).
  exists r'. split; [done|congruence].
Qed.

Lemma bound_stable k bid : stable inbound_inv inbound_guar (bound k bid).
Proof.
  intros s s' _ _ [_ Hg _] (b & Hb & <-). destruct (Hg _ _ Hb) as (b' & ? & ?). by exists b'.
Qed.

Lemma logged_stable k hash : stable inbound_inv inbound_guar (logged k hash).
Proof.
  intros s s' _ _ [_ _ Hg] (row & Hr & <-). destruct (Hg _ _ Hr) as (row' & ? & ? & _). by exists row'.
Qed.

Lemma stable_and {S} (I : S → Prop) R J1 J2 :
  stable I R J1 → stable I R J2 → stable I R (λ s, J1 s ∧ J2 s).
Proof. intros H1 H2 s s' Hi Hi' Hr [??]. split; [by apply (H1 s)|by apply (H2 s)]. Qed.

Lemma stable_pure {S} (I : S → Prop) R (φ : Prop) : stable I R (λ _, φ).
Proof. by intros s s'. Qed.

Create HintDb inbound discriminated.
#[local] Hint Resolve executed_stable bound_stable logged_stable stable_and stable_pure : inbound.

(** *** The tables *)
Lemma exec_change db e :
  inbound_inv db → Inv e → Guar (ib_exec db) e →
  inbound_inv (set_exec e db) ∧ inbound_guar db (set_exec e db).
Proof.
  intros [Hi Hr Hl] He Hg. split.
  - split; [done|done|]. intros t bid mk row x Hrow Hx. destruct (Hl _ _ _ _ _ Hrow Hx) as (r & Hr' & Hm).
    destruct (g_executions _ _ Hg _ _ Hr') as (r' & ? & ? & _). exists r'. split; [done|congruence].
  - split; [done|eauto|eauto].
Qed.

Lemma bindings_change db f :
  inbound_inv db →
  (∀ k b, f (ib_bindings db) !! k = Some b → route_key b = k) →
  (∀ k b, ib_bindings db !! k = Some b →
     ∃ b', f (ib_bindings db) !! k = Some b' ∧ cb_binding_id b' = cb_binding_id b) →
  inbound_inv (set_bindings f db) ∧ inbound_guar db (set_bindings f db).
Proof. intros [Hi Hr Hl] Hk Hkeep. split; split; try done. eauto. Qed.

(** Registering a route and switching a binding on or off. *)
Lemma register_step b created_by db :
  inbound_inv db →
  inbound_inv (register b created_by db).2 ∧ inbound_guar db (register b created_by db).2.
Proof.
  intros Hi. unfold register, ensure, binding_insert, mbind, ST_mbind, gets.
  case_bool_decide; simpl; [|by split; [|apply inbound_guar_refl]].
  destruct (ib_bindings db !! route_key b) as [stored|] eqn:Hs.
  - case_bool_decide; simpl; by split; [|apply inbound_guar_refl].
  - unfold ensure. destruct (_ && _); simpl; [|by split; [|apply inbound_guar_refl]].
    apply bindings_change; [done|..].
    + intros k b' [[<- <-]|[_ Hb]]%lookup_insert_Some; [done|by apply (ii_routes db Hi)].
    + intros k b' Hb. exists b'. rewrite lookup_insert_ne by congruence. done.
Qed.

Lemma set_status_step t bid status db :
  inbound_inv db →
  inbound_inv (binding_set_status t bid status db).2 ∧ inbound_guar db (binding_set_status t bid status db).2.
Proof.
  intros Hi. unfold binding_set_status, mbind, ST_mbind, gets, modify. simpl.
  apply bindings_change; [done|..]; intros k b.
  - rewrite lookup_fmap. intros (b0 & Hb & ->)%fmap_Some. rewrite <- (ii_routes db Hi k b0 Hb).
    by case_match.
  - intros Hb. eexists. split; [rewrite lookup_fmap; by apply fmap_Some_2|]. by case_match.
Qed.

(** ** The steps of an intake *)
Abbreviation intake_safe Q J p := (proc_safe inbound_inv inbound_guar inbound_guar Q J p).

Lemma read_inbound_safe {A} (f : InboundDb → A) (J : InboundDb → Prop) (Φ : A → InboundDb → Prop) :
  (∀ db, inbound_inv db → J db → Φ (f db) db) → (∀ a, stable inbound_inv inbound_guar (Φ a)) →
  intake_safe (returns (E := inbound_exn) Φ) J (atomically (gets f)).
Proof.
  intros HΦ Hst. apply returns_step; [|..|done].
  - intros db Hi Hj. split; [done|apply inbound_guar_refl].
  - intros db a db' Hi Hj [= <- <-]. by apply HΦ.
Qed.

Lemma resolve_safe t ct bot :
  intake_safe (returns (λ o db, match o with
                 | Some b => bound (t, ct, bot) (cb_binding_id b) db ∧ cb_tenant_id b = t
                 | None => True end)) (λ _, True)
    (atomically (registry_resolve t ct bot)).
Proof.
  apply returns_step.
  - intros db Hi _. unfold registry_resolve, binding_resolve, mbind, ST_mbind, gets. simpl.
    split; [by repeat case_match|]. repeat case_match; apply inbound_guar_refl.
  - intros db o db' Hi _. unfold registry_resolve, binding_resolve, mbind, ST_mbind, gets. simpl.
    destruct (ib_bindings db !! (t, ct, bot)) as [b|] eqn:Hb; [|by intros [= <- <-]].
    pose proof (ii_routes db Hi _ _ Hb) as Hroute.
    case_bool_decide; [|by intros [= <- <-]]. rewrite bool_decide_eq_true_2 by done.
    intros [= <- <-]. split; [by exists b|]. by injection Hroute.
  - intros [b|]; auto with inbound.
Qed.

(** The row an insert returns is the stored one; a new one has the given hash. *)
Definition inserted_fact (k : ledger_key) (hash : string) (r : InboundMessage * bool) (db : InboundDb)
    : Prop :=
  logged k (im_payload_hash r.1) db ∧ (r.2 = true → im_payload_hash r.1 = hash) ∧
  (∀ x, im_execution_id r.1 = Some x → executed k.1.1 x (message_id_of k.1.1 k.1.2 k.2) db).

Lemma inserted_stable k hash r : stable inbound_inv inbound_guar (inserted_fact k hash r).
Proof.
  intros s s' Hi Hi' Hg (Hl & Hh & Hx). split_and!; [by apply (logged_stable _ _ s)|done|].
  intros x Hrow. apply (executed_stable _ _ _ s); auto.
Qed.

Lemma insert_safe k hash user J :
  stable inbound_inv inbound_guar J →
  intake_safe (returns (λ r db, J db ∧ inserted_fact k hash r db)) J
    (atomically (message_insert k hash user)).
Proof.
  intros HJ.
  assert (∀ db, inbound_inv db →
    match ib_messages db !! k with
    | Some row => message_insert k hash user db = (Ok (row, false), db)
    | None => ∃ row, message_insert k hash user db
                 = (Ok (row, true), set_messages <[k := row]> db) ∧
                 im_payload_hash row = hash ∧ im_execution_id row = None
    end) as Hrun.
  { intros db Hi. unfold message_insert, mbind, ST_mbind, gets. simpl.
    case_match; [done|]. eexists. split; [done|done]. }
  assert (∀ db row, inbound_inv db → ib_messages db !! k = None → im_execution_id row = None →
    inbound_inv (set_messages <[k := row]> db) ∧ inbound_guar db (set_messages <[k := row]> db)) as Hnew.
  { intros db row [Hi Hr Hl] Hnone Hx. split; split; simpl; try done.
    - intros t bid mk row' x [[-> <-]|[_ Hrow]]%lookup_insert_Some Hx'; [congruence|by eapply Hl].
    - eauto.
    - intros k' row' Hrow. exists row'. rewrite lookup_insert_ne by congruence. done. }
  apply returns_step; [|..|intros r; apply stable_and; [done|apply inserted_stable]].
  - intros db Hi Hj. specialize (Hrun db Hi). destruct (ib_messages db !! k) as [row|] eqn:Hk.
    + rewrite Hrun. split; [done|apply inbound_guar_refl].
    + destruct Hrun as (row & -> & _ & Hx). by apply Hnew.
  - intros db r db' Hi Hj. specialize (Hrun db Hi). destruct (ib_messages db !! k) as [row|] eqn:Hk.
    + rewrite Hrun. intros [= <- <-]. split; [done|]. split_and!; [by exists row|done|].
      intros x Hx. destruct k as [[t bid] mk]. by apply (ii_ledger db Hi t bid mk row).
    + destruct Hrun as (row & -> & Hh & Hx). intros [= <- <-]. destruct (Hnew db row) as [Hi' Hg]; [done..|].
      split; [by apply (HJ db)|]. split_and!; simpl; [|done|congruence].
      exists row. simpl. by rewrite lookup_insert_eq.
Qed.

Lemma conflict_safe k recorded received J :
  stable inbound_inv inbound_guar J →
  intake_safe (returns (λ _, J)) J (atomically (record_conflict k recorded received)).
Proof.
  intros HJ. apply returns_step; [|..|done].
  - intros db [Hi Hr Hl] Hj. split; [by split|]. split; [done|eauto|eauto].
  - intros db u db' Hi Hj [= _ <-]. apply (HJ db); [done|destruct Hi; by split| |done].
    split; [done|eauto|eauto].
Qed.

Context (Hids : ∀ n, 0 ≤ uuid_at n < 2 ^ 128).
Abbreviation gateway_submit fault policy resolved sb :=
  (submit uuid_at payload_digest application_exists release_classification fault policy resolved sb).

(** What an accepted submission leaves in the database. *)
Lemma submit_executes fault policy resolved sb c m s a s' :
  sb_message_id sb = Some (String c m) →
  gateway_submit fault policy resolved sb s = (Ok a, s') →
  ∃ r, es_executions s' !! (sb_tenant_id sb, ac_execution_id a) = Some r ∧ ex_message_id r = String c m.
Proof.
  intros Hm Hrun. unfold submit in Hrun. rewrite Hm in Hrun. run_inv.
  rename select (transaction _ _ _ _ = _) into Ht. apply transaction_Ok in Ht as [_ Hbody].
  apply submit_body_run in Hbody as [(_ & [b ->] & _ & r & Hr & _)|[_ Hnew]].
  - exists r. simpl. by apply execution_with_message_Some in Hr.
  - destruct Hnew as (_ & _ & _ & _ & _ & sessions & r & o & b & n & _ & Hrm & _ & _ & _ & _ & _ & _ & _ & _ & _ & ->).
    exists r. simpl. by rewrite lookup_insert_eq.
Qed.

Lemma gateway_safe fault policy resolved sb m J :
  0 ≤ sb_tenant_id sb < 2 ^ 128 → sb_message_id sb = Some m → m ≠ "" →
  stable inbound_inv inbound_guar J →
  intake_safe (returns (λ a db, J db ∧ executed (sb_tenant_id sb) (ac_execution_id a) m db)) J
    (atomically (on_gateway (gateway_submit fault policy resolved sb))).
Proof.
  intros Ht Hm Hne HJ. destruct m as [|c m]; [done|].
  assert (∀ db, inbound_inv db →
    let e := (gateway_submit fault policy resolved sb (ib_exec db)).2 in
    inbound_inv (set_exec e db) ∧ inbound_guar db (set_exec e db)) as Hstep.
  { intros db Hi. destruct (good_submit uuid_at payload_digest application_exists release_classification
      Hids (λ _, True) fault policy resolved sb Ht (ib_exec db) (ii_exec db Hi) I) as [? ?].
    by apply exec_change. }
  apply returns_step; [|..|intros a; auto with inbound].
  - intros db Hi Hj. specialize (Hstep db Hi). unfold on_gateway.
    by destruct (gateway_submit fault policy resolved sb (ib_exec db)) as [[a|x] e].
  - intros db a db' Hi Hj. specialize (Hstep db Hi). unfold on_gateway.
    destruct (gateway_submit fault policy resolved sb (ib_exec db)) as [[a0|x] e] eqn:Hrun; [|done].
    intros [= <- <-]. destruct Hstep as [Hi' Hg]. split; [by apply (HJ db)|].
    by apply (submit_executes fault policy resolved sb c m (ib_exec db)) in Hrun.
Qed.

(** Attaching: the execution of the message is the one already attached, if any. *)
Lemma attach_safe t bid mk x rel J :
  stable inbound_inv inbound_guar J →
  (∀ db, J db → executed t x (message_id_of t bid mk) db) →
  intake_safe (returns (λ _, J)) J (atomically (attach_execution (t, bid, mk) x rel)).
Proof.
  intros HJ Hx.
  assert (∀ db, inbound_inv db → J db →
    inbound_inv (set_messages (alter (with_execution x rel) (t, bid, mk)) db) ∧
    inbound_guar db (set_messages (alter (with_execution x rel) (t, bid, mk)) db)) as Hstep.
  { intros db Hi Hj. pose proof (Hx db Hj) as (r & Hr & Hm). split; split; simpl; try by destruct Hi.
    - intros t' bid' mk' row y Hrow Hy. destruct (decide ((t', bid', mk') = (t, bid, mk))) as [[= -> -> ->]|Hne].
      + rewrite lookup_alter_eq in Hrow. apply fmap_Some in Hrow as (row0 & _ & ->).
        simpl in Hy. injection Hy as <-. by exists r.
      + rewrite lookup_alter_ne in Hrow by congruence. by apply (ii_ledger db Hi t' bid' mk' row y).
    - eauto.
    - intros k row Hrow. destruct (decide (k = (t, bid, mk))) as [->|Hne].
      + exists (with_execution x rel row). rewrite lookup_alter_eq, Hrow. split_and!; [done|done|].
        intros y Hy. destruct (ii_ledger db Hi t bid mk row y Hrow Hy) as (r' & Hr' & Hm').
        simpl. f_equal. eapply (inv_message _ (ii_exec db Hi) t x r y r'); [done..|congruence].
      + exists row. by rewrite lookup_alter_ne by congruence. }
  apply returns_step; [|..|done].
  - intros db Hi Hj. by apply Hstep.
  - intros db u db' Hi Hj [= _ <-]. destruct (Hstep db Hi Hj). by apply (HJ db).
Qed.

(** ** An intake *)
Definition event_route (t : uuid) (event : str_dict) : route :=
  (t, event_field event "channel_type", event_field event "external_bot_id").

(** What an accepted intake promises: the message is in the ledger under the binding
    of its route with a hash of this event, and its execution is the one the gateway
    has for the message. *)
Definition taken (t : uuid) (event : str_dict) (a : AgentExecutionAccepted) (db : InboundDb) : Prop :=
  ∃ bid hash, bound (event_route t event) bid db ∧
    logged (t, bid, event_field event "message_key") hash db ∧
    payload_matches payload_digest event hash = true ∧
    executed t (ac_execution_id a) (message_id_of t bid (event_field event "message_key")) db.

Lemma external_safe {A B} (r : outcome inbound_exn A) (k : A → PM InboundDb inbound_exn B) J
    (Φ : B → InboundDb → Prop) :
  (∀ a, r = Ok a → intake_safe (returns Φ) J (k a)) →
  intake_safe (returns Φ) J (pm_bind (external_result r) k).
Proof. intros Hk. destruct r as [a|e]; [by apply Hk|by constructor]. Qed.

Lemma submission_facts b event m trace sb :
  build_submission uuid5 b event m trace = Ok sb →
  sb_tenant_id sb = cb_tenant_id b ∧ sb_message_id sb = Some m ∧ 0 ≤ sb_tenant_id sb < 2 ^ 128.
Proof.
  unfold build_submission. destruct (session_for _ _ _); [|done]. case_match; [|done].
  destruct (submission_valid _) eqn:Hv; [|done]. intros [= <-]. split_and!; try done.
  - unfold submission_valid in Hv. rewrite !andb_true_iff in Hv. simpl in *. lia.
  - unfold submission_valid in Hv. rewrite !andb_true_iff in Hv. simpl in *. lia.
Qed.

Lemma route_event_safe env b event t :
  let bid := cb_binding_id b in let mk := event_field event "message_key" in
  cb_tenant_id b = t →
  intake_safe (returns (taken t event))
    (λ db, bound (event_route t event) bid db ∧ ∃ hash, logged (t, bid, mk) hash db ∧
           payload_matches payload_digest event hash = true)
    (route_event payload_digest uuid5 uuid_at application_exists release_classification env b
       (t, bid, mk) event).
Proof.
  intros bid mk Ht. unfold route_event. apply external_safe. intros sb Hsb.
  apply submission_facts in Hsb as (Htsb & Hmsb & Hrange). rewrite Ht in Htsb.
  set (J := λ db, bound (event_route t event) bid db ∧ ∃ hash, logged (t, bid, mk) hash db ∧
           payload_matches payload_digest event hash = true).
  assert (stable inbound_inv inbound_guar J) as HJ.
  { intros s s' Hi Hi' Hg (Hb & hash & Hl & Hm). split; [by apply (bound_stable _ _ s)|].
    exists hash. split; [by apply (logged_stable _ _ s)|done]. }
  eapply returns_bind.
  { apply (gateway_safe _ _ _ sb (message_id_of t bid mk) J); [done|exact Hmsb|done|done]. }
  intros a. rewrite Htsb. eapply returns_bind.
  - apply (attach_safe t bid mk (ac_execution_id a) (ac_release_id a)
      (λ db, J db ∧ executed t (ac_execution_id a) (message_id_of t bid mk) db)).
    + auto with inbound.
    + by intros db [_ ?].
  - intros u. apply returns_ret. intros db Hi [(Hb & hash & Hl & Hm) Hx]. by exists bid, hash.
Qed.

Lemma ingest_verified_safe env t event :
  intake_safe (returns (taken t event)) (λ _, True)
    (ingest_verified payload_digest uuid5 uuid_at application_exists release_classification env t event).
Proof.
  unfold ingest_verified. case_match; [apply returns_raise|].
  eapply returns_bind; [apply resolve_safe|]. intros [b|]; [|apply returns_raise].
  set (bid := cb_binding_id b). set (mk := event_field event "message_key").
  set (hash := inbound_payload_hash _ _ _ _).
  apply (safe_pure _ _ _ _ (bound (event_route t event) bid) _ (cb_tenant_id b = t));
    [by intros db [? ?]|]. intros Ht.
  case_match; [apply returns_raise|].
  eapply returns_bind; [apply insert_safe, bound_stable|]. intros [stored created].
  set (P := payload_matches payload_digest event (im_payload_hash stored)).
  assert (payload_matches payload_digest event hash = true) as Hself.
  { unfold payload_matches. by rewrite bool_decide_eq_true_2. }
  assert (∀ n, intake_safe (returns (taken t event))
    (λ db, bound (event_route t event) bid db ∧ inserted_fact (t, bid, mk) hash (stored, created) db)
    (if negb created && negb P then
       pm_bind (atomically (record_conflict (t, bid, mk) (im_payload_hash stored) hash))
         (λ _, pm_raise n)
     else route_event payload_digest uuid5 uuid_at application_exists release_classification env b
            (t, bid, mk) event)) as Hrest.
  { intros n. destruct (negb created && negb P) eqn:Hc.
    - eapply returns_bind; [apply conflict_safe|intros u; apply returns_raise].
      apply stable_and; [apply bound_stable|apply inserted_stable].
    - eapply safe_weaken; [by apply route_event_safe|]. intros db Hi [Hb (Hl & Hh & _)].
      split; [done|]. exists (im_payload_hash stored). split; [done|]. simpl in Hh.
      destruct created; [by rewrite Hh by done|]. fold P. by destruct P. }
  destruct (negb created && P) eqn:Hc; [|by destruct (im_execution_id stored)].
  destruct (im_execution_id stored) as [x|] eqn:Hx; [|apply Hrest].
  destruct (im_release_id stored) as [rel|]; [|apply Hrest].
  apply external_safe. intros sid _. apply returns_ret. intros db Hi (Hb & Hl & Hh & Hex).
  exists bid, (im_payload_hash stored). split_and!; [done|done| |by apply Hex].
  fold P. by apply andb_true_iff in Hc as [_ ?].
Qed.

Lemma ingest_safe env t event :
  intake_safe (returns (taken t event)) (λ _, True)
    (ingest payload_digest hmac_hex uuid5 resolve_secret uuid_at application_exists
       release_classification env t event).
Proof.
  unfold ingest. case_match; [apply returns_raise|].
  eapply returns_bind; [apply resolve_safe|]. intros [b|]; [|apply returns_raise].
  case_match; [apply returns_raise|]. eapply safe_weaken; [apply ingest_verified_safe|done].
Qed.

(** ** The platform with its intakes *)
Abbreviation intake := ((uuid * str_dict) * PM InboundDb inbound_exn AgentExecutionAccepted)%type.

Record Platform := {
  pl_db : InboundDb;
  pl_workers : list (ExecutionEnvelope * PM ExecState ExecError unit);
  pl_intakes : list intake;
}.

Inductive platform_step : Platform → Platform → Prop :=
  (** Gateways, dispatchers, workers and leases. *)
  | pl_pipeline db ws l e ws' :
      pipeline_step uuid_at payload_digest application_exists release_classification
        {| sys_db := ib_exec db; sys_workers := ws |} {| sys_db := e; sys_workers := ws' |} →
      platform_step {| pl_db := db; pl_workers := ws; pl_intakes := l |}
        {| pl_db := set_exec e db; pl_workers := ws'; pl_intakes := l |}
  (** An event arrives, for the first time or again, with the platform's signature or
      verified by the adapter of its channel. *)
  | pl_ingest db ws l env t event :
      platform_step {| pl_db := db; pl_workers := ws; pl_intakes := l |}
        {| pl_db := db; pl_workers := ws;
           pl_intakes := l ++ [((t, event), ingest payload_digest hmac_hex uuid5 resolve_secret uuid_at
                                  application_exists release_classification env t event)] |}
  | pl_ingest_verified db ws l env t event :
      platform_step {| pl_db := db; pl_workers := ws; pl_intakes := l |}
        {| pl_db := db; pl_workers := ws;
           pl_intakes := l ++ [((t, event), ingest_verified payload_digest uuid5 uuid_at
                                  application_exists release_classification env t event)] |}
  (** An intake runs its next transaction. *)
  | pl_run db ws l1 l2 q next effect :
      platform_step {| pl_db := db; pl_workers := ws; pl_intakes := l1 ++ (q, Step next effect) :: l2 |}
        {| pl_db := effect db; pl_workers := ws; pl_intakes := l1 ++ (q, next db) :: l2 |}
  (** An intake is lost in a crash. *)
  | pl_crash db ws l1 l2 i :
      platform_step {| pl_db := db; pl_workers := ws; pl_intakes := l1 ++ i :: l2 |}
        {| pl_db := db; pl_workers := ws; pl_intakes := l1 ++ l2 |}
  (** Administrators register bindings and switch them on and off. *)
  | pl_register db ws l b created_by :
      platform_step {| pl_db := db; pl_workers := ws; pl_intakes := l |}
        {| pl_db := (register b created_by db).2; pl_workers := ws; pl_intakes := l |}
  | pl_set_status db ws l t bid status :
      platform_step {| pl_db := db; pl_workers := ws; pl_intakes := l |}
        {| pl_db := (binding_set_status t bid status db).2; pl_workers := ws; pl_intakes := l |}.

Definition intake_post (q : uuid * str_dict) : outcome inbound_exn AgentExecutionAccepted → InboundDb → Prop :=
  returns (taken q.1 q.2).

Record platform_ok (p : Platform) : Prop := {
  po_inv : inbound_inv (pl_db p);
  po_workers : Forall (worker_ok (ib_exec (pl_db p))) (pl_workers p);
  po_intakes : Forall (request_ok inbound_inv inbound_guar intake_post (pl_db p)) (pl_intakes p);
}.

(** A change of the database that keeps the guarantee. *)
Lemma platform_ok_db db db' ws l :
  inbound_inv db → inbound_inv db' → inbound_guar db db' →
  Forall (worker_ok (ib_exec db)) ws → Forall (request_ok inbound_inv inbound_guar intake_post db) l →
  platform_ok {| pl_db := db'; pl_workers := ws; pl_intakes := l |}.
Proof.
  intros Hi Hi' Hg Hw Hl. split; [done|..]; simpl.
  - by apply (workers_ok_stable (ib_exec db)); [destruct Hi|destruct Hi'|destruct Hg|].
  - by apply (requests_interference _ _ _ db).
Qed.

Lemma platform_step_ok p p' : platform_step p p' → platform_ok p → platform_ok p'.
Proof.
  intros Hstep [Hi Hw Hl].
  destruct Hstep as [db ws l e ws' Hpipe|db ws l env t event|db ws l env t event|db ws l1 l2 q next effect
    |db ws l1 l2 i|db ws l b created_by|db ws l t bid status]; simpl in *.
  - destruct (pipeline_step_ok uuid_at payload_digest application_exists release_classification Hids
      _ _ Hpipe) as [[Hi' Hw'] Hg]; [by split; [apply Hi|]|]. simpl in *.
    destruct (exec_change db e Hi Hi' Hg) as [Hdb Hdg]. split; [done|done|].
    by apply (requests_interference _ _ _ db).
  - split; [done|done|]. simpl. apply Forall_app. split; [done|]. apply Forall_singleton.
    apply request_start, ingest_safe.
  - split; [done|done|]. simpl. apply Forall_app. split; [done|]. apply Forall_singleton.
    apply request_start, ingest_verified_safe.
  - apply Forall_app in Hl as [Hl1 [Hq Hl2]%Forall_cons].
    destruct (request_step _ _ _ _ _ _ _ Hi Hq) as (Hi' & Hg & Hn).
    destruct (platform_ok_db db (effect db) ws (l1 ++ l2)) as [_ Hw' Hl']; [done..|by apply Forall_app|].
    simpl in *. apply Forall_app in Hl' as [??]. split; [done|done|]. simpl.
    apply Forall_app. split; [done|by constructor].
  - apply Forall_app in Hl as [Hl1 [_ Hl2]%Forall_cons]. split; [done|done|]. by apply Forall_app.
  - destruct (register_step b created_by db Hi). by apply (platform_ok_db db).
  - destruct (set_status_step t bid status db Hi). by apply (platform_ok_db db).
Qed.

Lemma platform_reachable_ok p p' : rtc platform_step p p' → platform_ok p → platform_ok p'.
Proof. induction 1 as [|p p1 p' Hstep _ IH]; [done|]. intros Hok. by eapply IH, platform_step_ok. Qed.

(** An intake that was accepted. *)
Definition accepted_intake (p : Platform) (t : uuid) (event : str_dict) (a : AgentExecutionAccepted) : Prop :=
  ((t, event), Done (Ok a)) ∈ pl_intakes p.

Lemma accepted_taken p t event a : platform_ok p → accepted_intake p t event a → taken t event a (pl_db p).
Proof.
  intros [Hi _ Hl] Ha. unfold accepted_intake in Ha. rewrite Forall_forall in Hl.
  exact (request_done _ _ _ _ (t, event) (Ok a) Hi (Hl _ Ha)).
Qed.

Lemma taken_same_execution db t e1 e2 a1 a2 :
  inbound_inv db → taken t e1 a1 db → taken t e2 a2 db → event_route t e1 = event_route t e2 →
  event_field e1 "message_key" = event_field e2 "message_key" →
  ac_execution_id a1 = ac_execution_id a2 ∧
  ∃ hash, payload_matches payload_digest e1 hash = true ∧ payload_matches payload_digest e2 hash = true.
Proof.
  intros Hi (b1 & h1 & (c1 & Hc1 & <-) & (row1 & Hr1 & <-) & Hm1 & (x1 & Hx1 & He1))
    (b2 & h2 & (c2 & Hc2 & <-) & (row2 & Hr2 & <-) & Hm2 & (x2 & Hx2 & He2)) Hroute Hkey.
  rewrite Hroute, Hc2 in Hc1. injection Hc1 as <-. rewrite Hkey, Hr2 in Hr1. injection Hr1 as <-.
  rewrite Hkey in He1. split; [|by exists (im_payload_hash row2)].
  eapply (inv_message _ (ii_exec db Hi)); [exact Hx1|exact Hx2|congruence].
Qed.

(** A platform without bindings, messages or executions. *)
Definition empty_platform (bucket : AdmissionBucket) (now : instant) : Platform :=
  {| pl_db := {| ib_bindings := ∅; ib_messages := ∅; ib_conflicts := []; ib_exec := empty_db bucket now |};
     pl_workers := []; pl_intakes := [] |}.

Lemma empty_platform_ok bucket now : platform_ok (empty_platform bucket now).
Proof. split; [|constructor|constructor]. split; simpl; [apply (initial_ok bucket now)|done|done]. Qed.

(** C8: One execution per inbound message.  From an empty platform, along every
    interleaving of intakes (first deliveries, redeliveries, concurrent duplicates,
    crashes between any two of their steps), gateways, dispatchers, workers, binding
    registrations and status changes: all accepted intakes of one message key on one
    route return the same execution, their payloads match one and the same recorded
    hash, and no other execution of the tenant carries that message's id. *)
Theorem one_execution_per_inbound_message bucket now p t e1 e2 a1 a2 :
  rtc platform_step (empty_platform bucket now) p →
  accepted_intake p t e1 a1 → accepted_intake p t e2 a2 →
  event_route t e1 = event_route t e2 →
  event_field e1 "message_key" = event_field e2 "message_key" →
  ac_execution_id a1 = ac_execution_id a2 ∧
  (∃ hash, payload_matches payload_digest e1 hash = true ∧ payload_matches payload_digest e2 hash = true) ∧
  ∃ b, ib_bindings (pl_db p) !! event_route t e1 = Some b ∧
    ∀ x r, es_executions (ib_exec (pl_db p)) !! (t, x) = Some r →
      ex_message_id r = message_id_of t (cb_binding_id b) (event_field e1 "message_key") →
      x = ac_execution_id a1.
Proof.
  intros Hreach H1 H2 Hroute Hkey.
  pose proof (platform_reachable_ok _ _ Hreach (empty_platform_ok bucket now)) as Hok.
  pose proof (accepted_taken p t e1 a1 Hok H1) as Ht1. pose proof (accepted_taken p t e2 a2 Hok H2) as Ht2.
  destruct (taken_same_execution (pl_db p) t e1 e2 a1 a2 (po_inv p Hok) Ht1 Ht2 Hroute Hkey) as [Hx Hh].
  split_and!; [done|done|]. destruct Ht1 as (bid & h & (b & Hb & <-) & _ & _ & (r1 & Hr1 & Hm1)).
  exists b. split; [done|]. intros x r Hr Hm.
  eapply (inv_message _ (ii_exec _ (po_inv p Hok)) t x r (ac_execution_id a1) r1); [done..|congruence].
Qed.

Lemma resolve_run t ct bot b db :
  ib_bindings db !! (t, ct, bot) = Some b → cb_status b = CB_ACTIVE →
  registry_resolve t ct bot db = (Ok (Some b), db).
Proof.
  intros Hb Hst. unfold registry_resolve, binding_resolve, mbind, ST_mbind, gets.
  rewrite Hb, bool_decide_eq_true_2 by done. simpl. by rewrite bool_decide_eq_true_2.
Qed.

Lemma insert_known key hash user row db :
  ib_messages db !! key = Some row → message_insert key hash user db = (Ok (row, false), db).
Proof. intros Hrow. unfold message_insert, mbind, ST_mbind, gets. by rewrite Hrow. Qed.

(** A conflicting payload is isolated: an event whose message key is in the ledger
    with another payload's hash is refused as INBOUND_PAYLOAD_CONFLICT, the evidence of
    both hashes is recorded, and neither the ledger nor the gateway changes, so the
    original execution is untouched and nothing is routed. *)
Theorem conflicting_payload_isolated env t event b row db :
  event_complete event = true → message_valid event = true →
  ib_bindings db !! event_route t event = Some b → cb_status b = CB_ACTIVE →
  let key := (t, cb_binding_id b, event_field event "message_key") in
  ib_messages db !! key = Some row →
  payload_matches payload_digest event (im_payload_hash row) = false →
  run_proc (ingest_verified payload_digest uuid5 uuid_at application_exists release_classification env t
              event) db =
    (Raise (InboundError "INBOUND_PAYLOAD_CONFLICT"),
     add_conflict {| ic_tenant_id := t; ic_binding_id := cb_binding_id b;
                     ic_message_key := event_field event "message_key";
                     ic_recorded_hash := im_payload_hash row;
                     ic_received_hash := inbound_payload_hash payload_digest (event_field event "text")
                       (event_field event "external_user_id") (event !! "session_key");
                     ic_detected_at := es_now (ib_exec db) |} db).
Proof.
  intros Hc Hv Hb Hst key Hrow Hm. unfold ingest_verified. rewrite Hc. cbn [negb].
  rewrite run_atomically, (resolve_run t _ _ b) by done. cbn iota zeta. rewrite Hv. cbn [negb].
  rewrite run_atomically, (insert_known key _ _ row) by done. cbn iota zeta. rewrite Hm. cbn [negb andb].
  by rewrite run_atomically.
Qed.
End Inbound.

(** ** Inbound messages on a sample platform

    Witnesses of the theorems on inbound messages, and two runs of the code that
    its comments do not foresee. *)

(** ** Parameters *)

(** Stand-ins for SHA-256, HMAC and UUID version 5: the text itself, and its bytes as
    a number of 128 bits. *)
Fixpoint tree_text (t : gen_tree leaf) : string :=
  match t with
  | GenLeaf (inr s) => (s ++ ";")%string
  | GenLeaf _ => ";"
  | GenNode _ l => foldr String.append "" (tree_text <$> l)
  end.
Definition text_digest (j : json) : string := tree_text (json_tree j).
Definition text_hmac (material payload : string) : string := (material ++ payload)%string.
Fixpoint number_of (acc : Z) (s : string) : Z :=
  match s with
  | EmptyString => acc
  | String c s' => number_of ((acc * 257 + Z.of_nat (Ascii.nat_of_ascii c)) mod 2 ^ 128) s'
  end.
Definition number_uuid5 (name : string) : uuid := number_of 0 name.

Abbreviation sample_platform_step := (platform_step text_digest text_hmac number_uuid5 (λ r, r) sample_ids
  (λ _ _, true) (λ _ _, Some "INTERNAL")).

(** ** Running an intake to its end *)
Lemma run_intake {pd hh u5 rs ua ae rc} db ws l q (p : PM InboundDb inbound_exn AgentExecutionAccepted) :
  rtc (platform_step pd hh u5 rs ua ae rc)
    {| pl_db := db; pl_workers := ws; pl_intakes := l ++ [(q, p)] |}
    {| pl_db := (run_proc p db).2; pl_workers := ws; pl_intakes := l ++ [(q, Done (run_proc p db).1)] |}.
Proof.
  revert db. induction p as [r|next IH effect]; intros db; [constructor|].
  eapply rtc_l; [apply pl_run|]. apply IH.
Qed.

(** ** A bot, its messages and their redeliveries *)
Definition sample_binding : ChannelBinding :=
  {| cb_tenant_id := 7; cb_binding_id := 5; cb_channel_type := "WECOM"; cb_external_bot_id := "bot";
     cb_application_id := 8; cb_environment := "PRODUCTION"; cb_secret_ref := "vault://im/wecom#token";
     cb_status := CB_ACTIVE |}.

Lemma sample_binding_valid : binding_valid sample_binding = true ∧ is_secret_ref "vault://im/wecom#token" = true
  ∧ is_secret_ref "s3cr3t" = false.
Proof. vm_compute. done. Qed.

Definition message_event (text url : string) : str_dict :=
  <["channel_type" := "WECOM"]> (<["external_bot_id" := "bot"]> (<["message_key" := "m1"]>
  (<["text" := text]> (<["external_user_id" := "u"]> {["response_url" := url]})))).

Definition sample_env : intake_env :=
  {| ie_policy := default_policy; ie_resolved := Some 9; ie_trace_parent := None; ie_fault := NoFault |}.

Definition sample_intake (event : str_dict) : PM InboundDb inbound_exn AgentExecutionAccepted :=
  ingest_verified text_digest number_uuid5 sample_ids (λ _ _, true) (λ _ _, Some "INTERNAL") sample_env 7
    event.

Definition bound_db : InboundDb := (register sample_binding "admin" (pl_db (empty_platform full_bucket 0))).2.
Definition hello_db : InboundDb := (run_proc (sample_intake (message_event "hello" "u1")) bound_db).2.

Definition accepted_first : AgentExecutionAccepted :=
  {| ac_execution_id := sample_ids 0; ac_release_id := 9;
     ac_session_id := session_id_of number_uuid5 sample_binding (message_event "hello" "u1");
     ac_deduplicated := false |}.
Definition accepted_again : AgentExecutionAccepted :=
  {| ac_execution_id := sample_ids 0; ac_release_id := 9;
     ac_session_id := session_id_of number_uuid5 sample_binding (message_event "hello" "u2");
     ac_deduplicated := true |}.

Lemma first_result : (run_proc (sample_intake (message_event "hello" "u1")) bound_db).1 = Ok accepted_first.
Proof. vm_compute. reflexivity. Qed.
Lemma again_result : (run_proc (sample_intake (message_event "hello" "u2")) hello_db).1 = Ok accepted_again.
Proof. vm_compute. reflexivity. Qed.

Definition redelivered : Platform :=
  {| pl_db := (run_proc (sample_intake (message_event "hello" "u2")) hello_db).2; pl_workers := [];
     pl_intakes := [((7, message_event "hello" "u1"), Done (Ok accepted_first));
                    ((7, message_event "hello" "u2"), Done (Ok accepted_again))] |}.

Lemma redelivered_reachable : rtc sample_platform_step (empty_platform full_bucket 0) redelivered.
Proof.
  eapply rtc_l; [apply (pl_register _ _ _ _ _ _ _ _ _ _ sample_binding "admin")|]. fold bound_db.
  eapply rtc_l; [apply (pl_ingest_verified _ _ _ _ _ _ _ _ _ _ sample_env 7 (message_event "hello" "u1"))|].
  etrans; [apply (run_intake bound_db [] [])|]. fold (sample_intake (message_event "hello" "u1")).
  rewrite first_result. fold hello_db.
  eapply rtc_l; [apply (pl_ingest_verified _ _ _ _ _ _ _ _ _ _ sample_env 7 (message_event "hello" "u2"))|].
  etrans; [apply (run_intake hello_db [] [_])|]. fold (sample_intake (message_event "hello" "u2")).
  rewrite again_result. constructor.
Qed.

Lemma one_execution_per_inbound_message_witness :
  ac_deduplicated accepted_first = false ∧ ac_deduplicated accepted_again = true ∧
  ac_execution_id accepted_first = ac_execution_id accepted_again.
Proof.
  split; [reflexivity|]. split; [reflexivity|].
  destruct (one_execution_per_inbound_message text_digest text_hmac number_uuid5 (λ r, r) sample_ids
    (λ _ _, true) (λ _ _, Some "INTERNAL") sample_ids_range full_bucket 0 redelivered 7
    (message_event "hello" "u1") (message_event "hello" "u2") accepted_first accepted_again
    redelivered_reachable) as [Hx _]; [left|right; left|reflexivity|reflexivity|exact Hx].
Defined.

Definition hello_row : InboundMessage :=
  {| im_payload_hash := inbound_payload_hash text_digest "hello" "u" None; im_external_user_id := "u";
     im_execution_id := Some (sample_ids 0); im_release_id := Some 9; im_status := IN_ACCEPTED;
     im_occurred_at := 0 |}.

Lemma conflicting_payload_isolated_witness :
  (run_proc (sample_intake (message_event "other" "u1")) hello_db).1
    = Raise (InboundError "INBOUND_PAYLOAD_CONFLICT").
Proof.
  unfold sample_intake.
  rewrite (conflicting_payload_isolated text_digest number_uuid5 sample_ids (λ _ _, true)
    (λ _ _, Some "INTERNAL") sample_env 7 (message_event "other" "u1") sample_binding hello_row hello_db);
    vm_compute; reflexivity.
Defined.

(** ** What the comments do not foresee *)

(** The gateway accepted the message and the intake stopped before it attached the
    execution; a redelivery whose reply address changed, which the ledger takes for
    the same message, is refused by the gateway from then on. *)
Definition unattached_db : InboundDb :=
  run_steps 3 (sample_intake (message_event "hello" "u1")) bound_db.

Lemma healing_refused_for_new_reply_address :
  (run_proc (sample_intake (message_event "hello" "u1")) unattached_db).1
    = Ok {| ac_execution_id := sample_ids 0; ac_release_id := 9;
            ac_session_id := session_id_of number_uuid5 sample_binding (message_event "hello" "u1");
            ac_deduplicated := true |} ∧
  run_proc (sample_intake (message_event "hello" "u2")) unattached_db
    = (Raise (IGateway (AgentGatewayError "MESSAGE_PAYLOAD_CONFLICT")), unattached_db).
Proof. split; vm_compute; reflexivity. Qed.

(** The signed text does not mark where a field ends: whatever the HMAC, one signature
    is valid for two different events. *)
Lemma signature_fits_two_events hmac_hex material k t1 t2 u :
  fake_channel_signature hmac_hex material (k ++ NL ++ t1)%string t2 u None
  = fake_channel_signature hmac_hex material k (t1 ++ NL ++ t2)%string u None.
Proof.
  unfold fake_channel_signature. f_equal. f_equal.
  assert (∀ a b c : string, ((a ++ b) ++ c = a ++ (b ++ c))%string) as Happ.
  { intros a b c. induction a as [|x a IH]; [done|].
    change (String x ((a ++ b) ++ c) = String x (a ++ (b ++ c)))%string. by rewrite IH. }
  by rewrite !Happ.
Qed.
