(* ===== verification/ContentLifecycle.v ===== *)
(** * Content lifecycle (trpc_service/content_lifecycle.py, admin_api/content_lifecycle.py)

    Retention policies and Legal Holds with their two-person rules, deletion requests
    and the worker that erases every content plane and stores proofs, and the sweep
    that removes expired content.  The content planes are parameters: an erasure and
    a verification that may fail.

    An endpoint's transaction is one step.  The worker's program is a sequence of
    steps: reading the holds, claiming the request, each call of a content plane, and
    the transaction that stores the outcome. *)

From S2P Require Import Prelude PyNum Uuids ExecutionBus AuditChain AdminAccess Interleave.
Open Scope string_scope.
Open Scope list_scope.
Open Scope Z_scope.

Definition day : Z := 86400 * 1000000.
Definition PRIMARY_ERASURE_WINDOW : Z := day.
Definition BACKUP_ERASURE_WINDOW : Z := 35 * day.
Definition RETRY_DELAY : Z := 300 * 1000000.
Definition PROCESSING_LEASE : Z := 900 * 1000000.

(** ** Data *)
Inductive ContentBackend := SQL | REDIS | VECTOR | OBJECT | DERIVED | BACKUP.
#[export] Instance ContentBackend_eq_dec : EqDecision ContentBackend.
Proof. solve_decision. Defined.
Definition CONTENT_BACKENDS : list ContentBackend := [SQL; REDIS; VECTOR; OBJECT; DERIVED; BACKUP].
Definition backend_value (b : ContentBackend) : string :=
  match b with
  | SQL => "SQL" | REDIS => "REDIS" | VECTOR => "VECTOR" | OBJECT => "OBJECT" | DERIVED => "DERIVED"
  | BACKUP => "BACKUP"
  end.
#[export] Instance ContentBackend_countable : Countable ContentBackend.
Proof.
  apply (inj_countable backend_value (λ s, head (filter (λ b, backend_value b = s) CONTENT_BACKENDS))).
  by intros [].
Defined.

Record RetentionPolicy := {
  rp_inbound_payload_days : Z;
  rp_session_days : Z;
  rp_memory_days : Z;
  rp_artifact_days : Z;
  rp_idempotency_tombstone_days : Z;
  rp_audit_days : Z;
  rp_backup_days : Z;
}.
#[export] Instance RetentionPolicy_eq_dec : EqDecision RetentionPolicy.
Proof. solve_decision. Defined.

Definition default_retention : RetentionPolicy :=
  {| rp_inbound_payload_days := 7; rp_session_days := 90; rp_memory_days := 365; rp_artifact_days := 30;
     rp_idempotency_tombstone_days := 365; rp_audit_days := 365; rp_backup_days := 35 |}.

Definition between (lo hi n : Z) : bool := (lo <=? n) && (n <=? hi).

(** [validates_compliance_bounds]: the message of the first violated bound. *)
Definition retention_error (p : RetentionPolicy) : option string :=
  if negb (between 1 30 (rp_inbound_payload_days p)) then Some "RETENTION_INBOUND_PAYLOAD_DAYS_INVALID"
  else if negb (between 30 365 (rp_session_days p)) then Some "RETENTION_SESSION_DAYS_INVALID"
  else if negb (between 30 730 (rp_memory_days p)) then Some "RETENTION_MEMORY_DAYS_INVALID"
  else if negb (between 1 365 (rp_artifact_days p)) then Some "RETENTION_ARTIFACT_DAYS_INVALID"
  else if negb (between 30 730 (rp_idempotency_tombstone_days p)) then Some "RETENTION_IDEMPOTENCY_DAYS_INVALID"
  else if negb (between 90 (365 * 7) (rp_audit_days p)) then Some "RETENTION_AUDIT_DAYS_INVALID"
  else if negb (between 1 (BACKUP_ERASURE_WINDOW / day) (rp_backup_days p)) then Some "RETENTION_BACKUP_DAYS_INVALID"
  else None.

(** The CHECK constraints of both tables that hold a policy. *)
Definition retention_checks (p : RetentionPolicy) : bool :=
  between 1 30 (rp_inbound_payload_days p) && between 30 365 (rp_session_days p)
  && between 30 730 (rp_memory_days p) && between 1 365 (rp_artifact_days p)
  && between 30 730 (rp_idempotency_tombstone_days p) && between 90 2555 (rp_audit_days p)
  && between 1 35 (rp_backup_days p).

(** The validator accepts exactly what the tables accept. *)
Lemma retention_error_checks p : retention_error p = None ↔ retention_checks p = true.
Proof.
  unfold retention_error, retention_checks. change (365 * 7) with 2555. change (BACKUP_ERASURE_WINDOW / day) with 35.
  repeat match goal with |- context [between ?a ?b ?c] => destruct (between a b c); simpl end; by split.
Qed.

Record PolicyRow := { pw_policy : RetentionPolicy; pw_version : Z; pw_updated_at : instant }.

Inductive change_status := CH_PENDING_APPROVAL | CH_APPROVED.
#[export] Instance change_status_eq_dec : EqDecision change_status.
Proof. solve_decision. Defined.
Record ChangeRow := {
  ch_policy : RetentionPolicy;
  ch_status : change_status;
  ch_initiator : string;
  ch_approver : option string;
  ch_created_at : instant;
  ch_approved_at : option instant;
}.

Inductive hold_status := HD_PENDING_APPROVAL | HD_ACTIVE | HD_RELEASED.
#[export] Instance hold_status_eq_dec : EqDecision hold_status.
Proof. solve_decision. Defined.
Record HoldRow := {
  hd_reason : string;
  hd_status : hold_status;
  hd_initiator : string;
  hd_approver : option string;
  hd_created_at : instant;
  hd_activated_at : option instant;
  hd_released_at : option instant;
}.

Inductive deletion_status := DL_PENDING | DL_RETRYABLE | DL_PROCESSING | DL_COMPLETED | DL_BLOCKED_LEGAL_HOLD.
#[export] Instance deletion_status_eq_dec : EqDecision deletion_status.
Proof. solve_decision. Defined.
Record DeletionRow := {
  dl_requested_by : string;
  dl_reason : string;
  dl_status : deletion_status;
  dl_primary_due_at : instant;
  dl_backup_due_at : instant;
  dl_attempts : Z;
  dl_next_attempt_at : option instant;
  dl_processing_at : option instant;
  dl_last_error : option string;
  dl_created_at : instant;
  dl_completed_at : option instant;
}.

Record ProofRow := {
  pf_deleted_count : Z;
  pf_verified : bool;
  pf_evidence_digest : string;
  pf_completed_at : instant;
}.

Record LifecycleDb := {
  lc_admin : AdminDb;
  lc_policies : gmap uuid PolicyRow;
  lc_changes : gmap (uuid * uuid) ChangeRow;
  lc_holds : gmap (uuid * uuid) HoldRow;
  lc_requests : gmap (uuid * uuid) DeletionRow;
  lc_proofs : gmap (uuid * uuid * ContentBackend) ProofRow;
  lc_next_id : nat;
}.

Definition set_lc_admin (a : AdminDb) (s : LifecycleDb) : LifecycleDb :=
  {| lc_admin := a; lc_policies := lc_policies s; lc_changes := lc_changes s; lc_holds := lc_holds s;
     lc_requests := lc_requests s; lc_proofs := lc_proofs s; lc_next_id := lc_next_id s |}.
Definition set_policies (f : gmap uuid PolicyRow → gmap uuid PolicyRow) (s : LifecycleDb) : LifecycleDb :=
  {| lc_admin := lc_admin s; lc_policies := f (lc_policies s); lc_changes := lc_changes s;
     lc_holds := lc_holds s; lc_requests := lc_requests s; lc_proofs := lc_proofs s;
     lc_next_id := lc_next_id s |}.
Definition set_changes (f : gmap (uuid * uuid) ChangeRow → gmap (uuid * uuid) ChangeRow) (s : LifecycleDb)
    : LifecycleDb :=
  {| lc_admin := lc_admin s; lc_policies := lc_policies s; lc_changes := f (lc_changes s);
     lc_holds := lc_holds s; lc_requests := lc_requests s; lc_proofs := lc_proofs s;
     lc_next_id := lc_next_id s |}.
Definition set_holds (f : gmap (uuid * uuid) HoldRow → gmap (uuid * uuid) HoldRow) (s : LifecycleDb)
    : LifecycleDb :=
  {| lc_admin := lc_admin s; lc_policies := lc_policies s; lc_changes := lc_changes s;
     lc_holds := f (lc_holds s); lc_requests := lc_requests s; lc_proofs := lc_proofs s;
     lc_next_id := lc_next_id s |}.
Definition set_requests (f : gmap (uuid * uuid) DeletionRow → gmap (uuid * uuid) DeletionRow)
    (s : LifecycleDb) : LifecycleDb :=
  {| lc_admin := lc_admin s; lc_policies := lc_policies s; lc_changes := lc_changes s;
     lc_holds := lc_holds s; lc_requests := f (lc_requests s); lc_proofs := lc_proofs s;
     lc_next_id := lc_next_id s |}.
Definition set_proofs (f : gmap (uuid * uuid * ContentBackend) ProofRow →
    gmap (uuid * uuid * ContentBackend) ProofRow) (s : LifecycleDb) : LifecycleDb :=
  {| lc_admin := lc_admin s; lc_policies := lc_policies s; lc_changes := lc_changes s;
     lc_holds := lc_holds s; lc_requests := lc_requests s; lc_proofs := f (lc_proofs s);
     lc_next_id := lc_next_id s |}.
Definition next_lc_id (s : LifecycleDb) : LifecycleDb :=
  {| lc_admin := lc_admin s; lc_policies := lc_policies s; lc_changes := lc_changes s;
     lc_holds := lc_holds s; lc_requests := lc_requests s; lc_proofs := lc_proofs s;
     lc_next_id := S (lc_next_id s) |}.

Abbreviation LCM := (ST LifecycleDb AdminError).

(** A tenant under an ACTIVE hold. *)
Definition holds_of (t : uuid) (s : LifecycleDb) : list HoldRow :=
  omap (λ kh : (uuid * uuid) * HoldRow, if bool_decide (kh.1.1 = t) then Some kh.2 else None)
    (map_to_list (lc_holds s)).
Definition held (t : uuid) (s : LifecycleDb) : bool :=
  existsb (λ h, bool_decide (hd_status h = HD_ACTIVE)) (holds_of t s).

(** ** Endpoints *)
Section Endpoints.
Context (sha256_hex : string → string) (dumps : json → string) (uuid_at : nat → uuid).

Definition lc_on_admin {A} (m : ADM A) : LCM A := λ s,
  match m (lc_admin s) with
  | (Ok a, d) => (Ok a, set_lc_admin d s)
  | (Raise e, d) => (Raise e, set_lc_admin d s)
  end.

Definition lc_require_admin (fault : txn_fault) (now : instant) (p : AdminPrincipal) (t : uuid)
    (action target_type : string) (target_id : option string) : LCM unit :=
  lc_on_admin (require_tenant_admin sha256_hex dumps uuid_at fault now p t action target_type target_id).

Definition lc_audit (now : instant) (p : AdminPrincipal) (action : string) (t : uuid)
    (target_type : string) (target_id : option string) (details : jobject) : LCM unit :=
  lc_on_admin (audited sha256_hex dumps uuid_at now (Some p) action "ALLOW" (Some target_type) target_id
    (Some t) details).

(** [uuid7()] *)
Definition lc_draw : LCM uuid := n ← gets lc_next_id; _ ← modify next_lc_id; mret (uuid_at n).

(** Request bodies are validated before the handler runs. *)
Definition policy_body (p : RetentionPolicy) : LCM unit :=
  match retention_error p with Some message => raise (Http 422 message) | None => mret tt end.
Definition reason_body (reason : string) : LCM unit :=
  ensure (length_between 1 1000 reason) (Http 422 "reason").

(** The foreign key to [platform.tenant]. *)
Definition tenant_known (t : uuid) (s : LifecycleDb) : bool := bool_decide (t ∈ ad_tenants (lc_admin s)).

(** [get_retention_policy]: the defaults when the tenant has no policy of its own. *)
Definition get_retention_policy (fault : txn_fault) (now : instant) (p : AdminPrincipal) (t : uuid)
    : LCM PolicyRow :=
  _ ← lc_on_admin (require_tenant_access sha256_hex dumps uuid_at fault now p t ReadAccess
        "retention_policy.get" "retention_policy" None);
  row ← gets (λ s, lc_policies s !! t);
  mret (default {| pw_policy := default_retention; pw_version := 1; pw_updated_at := now |} row).

(** [update_retention_policy]: a proposal.  The primary key, the CHECK constraints and
    the index of one pending change per tenant refuse the insert. *)
Definition propose_retention (fault : txn_fault) (now : instant) (p : AdminPrincipal) (t : uuid)
    (payload : RetentionPolicy) : LCM ChangeRow :=
  _ ← policy_body payload;
  _ ← lc_require_admin fault now p t "retention_policy.update" "retention_policy" None;
  transaction fault ConnectionLost (
    id ← lc_draw;
    changes ← gets lc_changes;
    known ← gets (tenant_known t);
    let row := {| ch_policy := payload; ch_status := CH_PENDING_APPROVAL;
                  ch_initiator := ap_subject p; ch_approver := None; ch_created_at := now;
                  ch_approved_at := None |} in
    _ ← ensure (known && bool_decide (changes !! (t, id) = None) && retention_checks payload
                && length_between 1 255 (ap_subject p)
                && bool_decide (map_Forall (λ k c, k.1 = t → ch_status c ≠ CH_PENDING_APPROVAL) changes))
          IntegrityError;
    _ ← modify (set_changes <[(t, id) := row]>);
    _ ← lc_audit now p "retention_policy.propose" t "retention_policy" None ∅;
    mret row).

Definition approved_change (approver : string) (now : instant) (c : ChangeRow) : ChangeRow :=
  {| ch_policy := ch_policy c; ch_status := CH_APPROVED; ch_initiator := ch_initiator c;
     ch_approver := Some approver; ch_created_at := ch_created_at c; ch_approved_at := Some now |}.

(** [approve_retention_policy] *)
Definition approve_retention (fault : txn_fault) (now : instant) (p : AdminPrincipal) (t change_id : uuid)
    : LCM PolicyRow :=
  _ ← lc_require_admin fault now p t "retention_policy.approve" "retention_policy_change"
        (Some (uuid_text change_id));
  transaction fault ConnectionLost (
    found ← gets (λ s, lc_changes s !! (t, change_id));
    change ← get_or_raise found (Http 404 "RETENTION_CHANGE_NOT_FOUND");
    _ ← ensure (negb (bool_decide (ch_initiator change = ap_subject p)))
          (Http 409 "RETENTION_POLICY_SELF_APPROVAL");
    _ ← ensure (bool_decide (ch_status change = CH_PENDING_APPROVAL)) (Http 409 "RETENTION_CHANGE_NOT_PENDING");
    _ ← ensure (length_between 1 255 (ap_subject p)) IntegrityError;
    _ ← modify (set_changes <[(t, change_id) := approved_change (ap_subject p) now change]>);
    old ← gets (λ s, lc_policies s !! t);
    let policy := {| pw_policy := ch_policy change;
                     pw_version := match old with Some r => pw_version r + 1 | None => 1 end;
                     pw_updated_at := now |} in
    _ ← modify (set_policies <[t := policy]>);
    _ ← lc_audit now p "retention_policy.approve" t "retention_policy_change" (Some (uuid_text change_id))
          {["initiator" := JStr (ch_initiator change)]};
    mret policy).

(** [create_legal_hold] *)
Definition create_legal_hold (fault : txn_fault) (now : instant) (p : AdminPrincipal) (t : uuid)
    (reason : string) : LCM HoldRow :=
  _ ← reason_body reason;
  _ ← lc_require_admin fault now p t "legal_hold.create" "legal_hold" None;
  hold_id ← lc_draw;
  transaction fault ConnectionLost (
    holds ← gets lc_holds;
    known ← gets (tenant_known t);
    let row := {| hd_reason := reason; hd_status := HD_PENDING_APPROVAL; hd_initiator := ap_subject p;
                  hd_approver := None; hd_created_at := now; hd_activated_at := None;
                  hd_released_at := None |} in
    _ ← ensure (known && bool_decide (holds !! (t, hold_id) = None) && length_between 1 1000 reason
                && length_between 1 255 (ap_subject p)) IntegrityError;
    _ ← modify (set_holds <[(t, hold_id) := row]>);
    _ ← lc_audit now p "legal_hold.create" t "legal_hold" (Some (uuid_text hold_id)) ∅;
    mret row).

Definition active_hold (approver : string) (now : instant) (h : HoldRow) : HoldRow :=
  {| hd_reason := hd_reason h; hd_status := HD_ACTIVE; hd_initiator := hd_initiator h;
     hd_approver := Some approver; hd_created_at := hd_created_at h; hd_activated_at := Some now;
     hd_released_at := hd_released_at h |}.

(** [approve_legal_hold] *)
Definition approve_legal_hold (fault : txn_fault) (now : instant) (p : AdminPrincipal) (t hold_id : uuid)
    : LCM HoldRow :=
  _ ← lc_require_admin fault now p t "legal_hold.approve" "legal_hold" (Some (uuid_text hold_id));
  transaction fault ConnectionLost (
    found ← gets (λ s, lc_holds s !! (t, hold_id));
    hold ← get_or_raise found (Http 404 "LEGAL_HOLD_NOT_FOUND");
    _ ← ensure (negb (bool_decide (hd_initiator hold = ap_subject p))) (Http 409 "LEGAL_HOLD_SELF_APPROVAL");
    _ ← ensure (bool_decide (hd_status hold = HD_PENDING_APPROVAL)) (Http 409 "LEGAL_HOLD_NOT_PENDING");
    _ ← ensure (length_between 1 255 (ap_subject p)) IntegrityError;
    let row := active_hold (ap_subject p) now hold in
    _ ← modify (set_holds <[(t, hold_id) := row]>);
    _ ← lc_audit now p "legal_hold.approve" t "legal_hold" (Some (uuid_text hold_id))
          {["initiator" := JStr (hd_initiator hold)]};
    mret row).

Definition released_hold (now : instant) (h : HoldRow) : HoldRow :=
  {| hd_reason := hd_reason h; hd_status := HD_RELEASED; hd_initiator := hd_initiator h;
     hd_approver := hd_approver h; hd_created_at := hd_created_at h;
     hd_activated_at := hd_activated_at h; hd_released_at := Some now |}.

(** The statements of [release_legal_hold].  The first reads the row without locking it
    and checks the principal; the second finds the row again by its status. *)
Definition release_guard (p : AdminPrincipal) (t hold_id : uuid) : LCM HoldRow :=
  found ← gets (λ s, lc_holds s !! (t, hold_id));
  hold ← get_or_raise found (Http 404 "LEGAL_HOLD_NOT_FOUND");
  _ ← ensure (negb (bool_decide (hd_initiator hold = ap_subject p)
                    || bool_decide (hd_approver hold = Some (ap_subject p))))
        (Http 409 "LEGAL_HOLD_SELF_RELEASE");
  mret hold.
Definition release_update (now : instant) (p : AdminPrincipal) (t hold_id : uuid) (hold : HoldRow)
    : LCM HoldRow :=
  found ← gets (λ s, lc_holds s !! (t, hold_id));
  current ← get_or_raise found (Http 409 "LEGAL_HOLD_NOT_ACTIVE");
  _ ← ensure (bool_decide (hd_status current = HD_ACTIVE)) (Http 409 "LEGAL_HOLD_NOT_ACTIVE");
  let row := released_hold now current in
  _ ← modify (set_holds <[(t, hold_id) := row]>);
  _ ← lc_audit now p "legal_hold.release" t "legal_hold" (Some (uuid_text hold_id))
        (<["initiator" := JStr (hd_initiator hold)]>
         {["approver" := match hd_approver hold with Some a => JStr a | None => JNull end]});
  mret row.

(** [release_legal_hold], with nothing between its statements. *)
Definition release_legal_hold (fault : txn_fault) (now : instant) (p : AdminPrincipal) (t hold_id : uuid)
    : LCM HoldRow :=
  _ ← lc_require_admin fault now p t "legal_hold.release" "legal_hold" (Some (uuid_text hold_id));
  transaction fault ConnectionLost (
    hold ← release_guard p t hold_id;
    release_update now p t hold_id hold).

(** [_deletion_result]: the request with its proofs, ordered by backend. *)
Definition proof_of (t request_id : uuid) (s : LifecycleDb) (b : ContentBackend)
    : option (ContentBackend * ProofRow) :=
  (b,.) <$> lc_proofs s !! (t, request_id, b).
Definition BACKENDS_BY_NAME : list ContentBackend := [BACKUP; DERIVED; OBJECT; REDIS; SQL; VECTOR].
Definition deletion_result (t request_id : uuid) : LCM (DeletionRow * list (ContentBackend * ProofRow)) :=
  found ← gets (λ s, lc_requests s !! (t, request_id));
  row ← get_or_raise found (Http 404 "DELETION_REQUEST_NOT_FOUND");
  proofs ← gets (λ s, omap (proof_of t request_id s) BACKENDS_BY_NAME);
  mret (row, proofs).

(** [create_deletion_request] *)
Definition create_deletion_request (fault : txn_fault) (now : instant) (p : AdminPrincipal) (t : uuid)
    (reason : string) : LCM (DeletionRow * list (ContentBackend * ProofRow)) :=
  _ ← reason_body reason;
  _ ← lc_require_admin fault now p t "content_deletion.create" "content_deletion_request" None;
  request_id ← lc_draw;
  transaction fault ConnectionLost (
    on_hold ← gets (held t);
    _ ← ensure (negb on_hold) (Http 409 "LEGAL_HOLD_ACTIVE");
    requests ← gets lc_requests;
    known ← gets (tenant_known t);
    let row := {| dl_requested_by := ap_subject p; dl_reason := reason; dl_status := DL_PENDING;
                  dl_primary_due_at := now + PRIMARY_ERASURE_WINDOW;
                  dl_backup_due_at := now + BACKUP_ERASURE_WINDOW; dl_attempts := 0;
                  dl_next_attempt_at := Some now; dl_processing_at := None; dl_last_error := None;
                  dl_created_at := now; dl_completed_at := None |} in
    _ ← ensure (known && bool_decide (requests !! (t, request_id) = None) && length_between 1 1000 reason
                && length_between 1 255 (ap_subject p)) IntegrityError;
    _ ← modify (set_requests <[(t, request_id) := row]>);
    _ ← lc_audit now p "content_deletion.create" t "content_deletion_request"
          (Some (uuid_text request_id)) ∅;
    deletion_result t request_id).

(** [get_deletion_request] *)
Definition get_deletion_request (fault : txn_fault) (now : instant) (p : AdminPrincipal) (t request_id : uuid)
    : LCM (DeletionRow * list (ContentBackend * ProofRow)) :=
  _ ← lc_on_admin (require_tenant_access sha256_hex dumps uuid_at fault now p t ReadAccess
        "content_deletion.get" "content_deletion_request" (Some (uuid_text request_id)));
  deletion_result t request_id.
End Endpoints.
