(* ===== verification/ContentErasure.v ===== *)
(** * Erasure and expiry of content (trpc_service/content_lifecycle.py)

    [DeletionExecutor], [ContentDeletionWorker] and [RetentionSweep] over the tables
    of ContentLifecycle.  The content planes are an interface: an erasure and a
    verification for each backend, on a state of their own, that may fail. *)

From S2P Require Import Prelude PyNum Uuids ExecutionBus AuditChain AdminAccess Interleave ContentLifecycle.
Open Scope string_scope.
Open Scope list_scope.
Open Scope Z_scope.

(** What the planes, the executor and the worker raise. *)
Inductive ContentError :=
  | ContentLifecycleError (code : string)
  | BackendFailure
  | DatabaseError
  | PolicyInvalid (message : string).

(** [ErasableContentBackend], one per backend. *)
Class ContentPlanes (W : Type) := {
  plane_erase : ContentBackend → string → ST W ContentError Z;
  plane_verify : ContentBackend → string → ST W ContentError bool;
}.

Record DeletionProof := {
  dp_backend : ContentBackend;
  dp_deleted_count : Z;
  dp_verified : bool;
  dp_completed_at : instant;
}.

Record DeletionOutcome := {
  do_primary_due_at : instant;
  do_backup_due_at : instant;
  do_proofs : list DeletionProof;
  do_retryable : bool;
  do_error_code : option string;
  do_next_attempt_at : option instant;
}.

(** [DeletionExecutor.__init__]: the keys of the dict, in its order. *)
Definition new_executor (backends : list ContentBackend) : outcome ContentError (list ContentBackend) :=
  if forallb (λ b, bool_decide (b ∈ backends)) CONTENT_BACKENDS then Ok backends
  else Raise (ContentLifecycleError "DELETION_BACKENDS_INCOMPLETE").

(** The database and the planes a worker acts on. *)
Record LcWorld (W : Type) := { w_db : LifecycleDb; w_planes : W }.
Arguments w_db {_} _.
Arguments w_planes {_} _.
Arguments Build_LcWorld {_} _ _.

Section Worker.
Context {W : Type} `{!ContentPlanes W} (sha256_hex : string → string).
Abbreviation World := (LcWorld W).
Abbreviation WPM A := (PM World ContentError A).

Definition on_planes {A} (m : ST W ContentError A) : ST World ContentError A := λ w,
  let '(r, p) := m (w_planes w) in (r, {| w_db := w_db w; w_planes := p |}).
Definition on_db {A} (m : ST LifecycleDb ContentError A) : ST World ContentError A := λ w,
  let '(r, d) := m (w_db w) in (r, {| w_db := d; w_planes := w_planes w |}).

(** One transaction of the worker. *)
Definition db_step {A} (m : ST LifecycleDb ContentError A) : WPM A :=
  atomically (on_db (transaction NoFault DatabaseError m)).

(** The loop of [execute], with the proofs collected so far: they are kept when an
    exception ends it. *)
Fixpoint erase_backends (tenant_id : string) (started_at : instant) (backends : list ContentBackend)
    (proofs : list DeletionProof) : proc World (list DeletionProof * option ContentError) :=
  match backends with
  | [] => Done (proofs, None)
  | b :: rest =>
      proc_bind (atomically (on_planes (plane_erase b tenant_id))) (λ erased,
        match erased with
        | Raise e => Done (proofs, Some e)
        | Ok deleted_count =>
            proc_bind (atomically (on_planes (plane_verify b tenant_id))) (λ checked,
              match checked with
              | Raise e => Done (proofs, Some e)
              | Ok verified =>
                  let proofs' := proofs ++ [{| dp_backend := b; dp_deleted_count := deleted_count;
                                               dp_verified := verified; dp_completed_at := started_at |}] in
                  if (verified : bool) then erase_backends tenant_id started_at rest proofs'
                  else Done (proofs', Some (ContentLifecycleError "DELETION_BACKEND_UNVERIFIED"))
              end)
        end)
  end.

(** [DeletionExecutor.execute] *)
Definition execute (backends : list ContentBackend) (tenant_id : string) (legal_hold : bool) (now : instant)
    : WPM DeletionOutcome :=
  if legal_hold then pm_raise (ContentLifecycleError "DELETION_LEGAL_HOLD_ACTIVE") else
  proc_bind (erase_backends tenant_id now backends []) (λ '(proofs, error),
    match error with
    | Some (ContentLifecycleError code) => pm_raise (ContentLifecycleError code)
    | Some _ =>
        pm_ret {| do_primary_due_at := now + PRIMARY_ERASURE_WINDOW;
                  do_backup_due_at := now + BACKUP_ERASURE_WINDOW; do_proofs := proofs;
                  do_retryable := true; do_error_code := Some "DELETION_BACKEND_RETRYABLE";
                  do_next_attempt_at := Some (now + RETRY_DELAY) |}
    | None =>
        pm_ret {| do_primary_due_at := now + PRIMARY_ERASURE_WINDOW;
                  do_backup_due_at := now + BACKUP_ERASURE_WINDOW; do_proofs := proofs;
                  do_retryable := false; do_error_code := None; do_next_attempt_at := None |}
    end).

(** ** [ContentDeletionWorker] *)

(** [UPDATE tenant.content_deletion_request ... WHERE tenant_id=$1 AND id=$2] *)
Definition update_request (t request_id : uuid) (f : DeletionRow → DeletionRow) (s : LifecycleDb) : LifecycleDb :=
  set_requests (alter f (t, request_id)) s.

Definition blocked_request (r : DeletionRow) : DeletionRow :=
  {| dl_requested_by := dl_requested_by r; dl_reason := dl_reason r; dl_status := DL_BLOCKED_LEGAL_HOLD;
     dl_primary_due_at := dl_primary_due_at r; dl_backup_due_at := dl_backup_due_at r;
     dl_attempts := dl_attempts r; dl_next_attempt_at := None; dl_processing_at := dl_processing_at r;
     dl_last_error := Some "DELETION_LEGAL_HOLD_ACTIVE"; dl_created_at := dl_created_at r;
     dl_completed_at := dl_completed_at r |}.
Definition claimed_request (now : instant) (r : DeletionRow) : DeletionRow :=
  {| dl_requested_by := dl_requested_by r; dl_reason := dl_reason r; dl_status := DL_PROCESSING;
     dl_primary_due_at := dl_primary_due_at r; dl_backup_due_at := dl_backup_due_at r;
     dl_attempts := dl_attempts r; dl_next_attempt_at := dl_next_attempt_at r;
     dl_processing_at := Some now; dl_last_error := dl_last_error r; dl_created_at := dl_created_at r;
     dl_completed_at := dl_completed_at r |}.
Definition retryable_request (next_attempt_at : instant) (error : string) (r : DeletionRow) : DeletionRow :=
  {| dl_requested_by := dl_requested_by r; dl_reason := dl_reason r; dl_status := DL_RETRYABLE;
     dl_primary_due_at := dl_primary_due_at r; dl_backup_due_at := dl_backup_due_at r;
     dl_attempts := dl_attempts r + 1; dl_next_attempt_at := Some next_attempt_at;
     dl_processing_at := None; dl_last_error := Some error; dl_created_at := dl_created_at r;
     dl_completed_at := dl_completed_at r |}.
Definition completed_request (now : instant) (r : DeletionRow) : DeletionRow :=
  {| dl_requested_by := dl_requested_by r; dl_reason := dl_reason r; dl_status := DL_COMPLETED;
     dl_primary_due_at := dl_primary_due_at r; dl_backup_due_at := dl_backup_due_at r;
     dl_attempts := dl_attempts r + 1; dl_next_attempt_at := None; dl_processing_at := None;
     dl_last_error := None; dl_created_at := dl_created_at r; dl_completed_at := Some now |}.

Definition lease_expired (now : instant) (r : DeletionRow) : bool :=
  match dl_processing_at r with Some p => p <=? now - PROCESSING_LEASE | None => false end.

(** The rows the claim takes. *)
Definition claimable (now : instant) (r : DeletionRow) : bool :=
  match dl_status r with
  | DL_PENDING | DL_RETRYABLE | DL_BLOCKED_LEGAL_HOLD => true
  | DL_PROCESSING => lease_expired now r
  | DL_COMPLETED => false
  end.

Inductive claim_result := ClaimBlocked | ClaimTaken | ClaimLost.

(** The first transaction of [process]. *)
Definition claim_request (now : instant) (t request_id : uuid) : ST LifecycleDb ContentError claim_result :=
  active_hold ← gets (held t);
  if (active_hold : bool) then
    _ ← modify (update_request t request_id blocked_request);
    mret ClaimBlocked
  else
    found ← gets (λ s, lc_requests s !! (t, request_id));
    match found with
    | Some r =>
        if claimable now r then
          _ ← modify (update_request t request_id (claimed_request now));
          mret ClaimTaken
        else mret ClaimLost
    | None => mret ClaimLost
    end.

Definition py_bool (b : bool) : string := if b then "True" else "False".
Definition evidence_text (request_id : uuid) (b : ContentBackend) (count : Z) (verified : bool) (at_ : instant)
    : string :=
  uuid_text request_id +:+ ":" +:+ backend_value b +:+ ":" +:+ pretty count +:+ ":" +:+ py_bool verified
  +:+ ":" +:+ isoformat at_.
Definition proof_row (request_id : uuid) (p : DeletionProof) : ProofRow :=
  {| pf_deleted_count := dp_deleted_count p; pf_verified := dp_verified p;
     pf_evidence_digest := sha256_hex (evidence_text request_id (dp_backend p) (dp_deleted_count p)
       (dp_verified p) (dp_completed_at p));
     pf_completed_at := dp_completed_at p |}.

(** [INSERT ... ON CONFLICT DO UPDATE]; a negative count or a missing request is refused. *)
Definition upsert_proof (t request_id : uuid) (p : DeletionProof) : ST LifecycleDb ContentError unit :=
  parent ← gets (λ s, bool_decide (is_Some (lc_requests s !! (t, request_id))));
  _ ← ensure (parent && (0 <=? dp_deleted_count p)) DatabaseError;
  modify (set_proofs <[(t, request_id, dp_backend p) := proof_row request_id p]>).

(** The second transaction of [process]. *)
Definition store_outcome (now : instant) (t request_id : uuid) (o : DeletionOutcome)
    : ST LifecycleDb ContentError bool :=
  _ ← for_each (upsert_proof t request_id) (do_proofs o);
  if do_retryable o then
    _ ← modify (update_request t request_id (retryable_request
          (default (now + RETRY_DELAY) (do_next_attempt_at o))
          (default "DELETION_BACKEND_RETRYABLE" (do_error_code o))));
    mret false
  else
    _ ← modify (update_request t request_id (completed_request now));
    mret true.

(** What [process] makes of a [ContentLifecycleError]. *)
Definition failed_outcome (now : instant) (code : string) : DeletionOutcome :=
  {| do_primary_due_at := now + PRIMARY_ERASURE_WINDOW; do_backup_due_at := now + BACKUP_ERASURE_WINDOW;
     do_proofs := []; do_retryable := true; do_error_code := Some code;
     do_next_attempt_at := Some (now + RETRY_DELAY) |}.

(** [process] *)
Definition process (backends : list ContentBackend) (now : instant) (t request_id : uuid) : WPM bool :=
  claim <-- db_step (claim_request now t request_id);
  match claim with
  | ClaimBlocked | ClaimLost => pm_ret false
  | ClaimTaken =>
      outcome <-- pm_catch (execute backends (uuid_text t) false now) (λ e,
        match e with
        | ContentLifecycleError code => pm_ret (failed_outcome now code)
        | _ => pm_raise e
        end);
      db_step (store_outcome now t request_id outcome)
  end.

(** The rows [run_once] selects, oldest first. *)
Definition is_due (now : instant) (r : DeletionRow) : bool :=
  match dl_status r with
  | DL_PENDING | DL_RETRYABLE => match dl_next_attempt_at r with Some n => n <=? now | None => false end
  | DL_PROCESSING => lease_expired now r
  | DL_BLOCKED_LEGAL_HOLD => true
  | DL_COMPLETED => false
  end.
Definition due_requests (now : instant) (t : uuid) (s : LifecycleDb) : list uuid :=
  (λ kr : (uuid * uuid) * DeletionRow, kr.1.2) <$>
    sort_on (λ kr : (uuid * uuid) * DeletionRow, dl_created_at kr.2)
      (filter (λ kr : (uuid * uuid) * DeletionRow, kr.1.1 = t ∧ is_due now kr.2 = true)
        (map_to_list (lc_requests s))).

(** A [for] loop that counts the calls that return [True]. *)
Fixpoint count_true {A} (f : A → WPM bool) (l : list A) : WPM Z :=
  match l with
  | [] => pm_ret 0
  | x :: l' => b <-- f x; n <-- count_true f l'; pm_ret (n + if (b : bool) then 1 else 0)
  end.
Fixpoint sum_each {A} (f : A → WPM Z) (l : list A) : WPM Z :=
  match l with
  | [] => pm_ret 0
  | x :: l' => n <-- f x; m <-- sum_each f l'; pm_ret (n + m)
  end.

Definition all_tenants (s : LifecycleDb) : list uuid := elements (ad_tenants (lc_admin s)).

(** [ContentDeletionWorker.run_once] *)
Definition run_once (backends : list ContentBackend) (now : instant) : WPM Z :=
  tenants <-- db_step (gets all_tenants);
  sum_each (λ t,
    requests <-- db_step (gets (due_requests now t));
    count_true (process backends now t) requests) tenants.
End Worker.
