(* ===== verification/RetentionSweep.v ===== *)
(** * The retention sweep (trpc_service/content_lifecycle.py, RetentionSweep)

    Expiry of primary content, one transaction per tenant, over the columns the sweep
    reads and writes, and what a sweep leaves behind. *)

From S2P Require Import Prelude PyNum Uuids ExecutionBus AuditChain AdminAccess Interleave ContentLifecycle ContentErasure.
Open Scope string_scope.
Open Scope list_scope.
Open Scope Z_scope.

Record SweptReply := { sr_created_at : instant; sr_content : string }.
Record SweptMemory := {
  sm_last_used_at : instant;
  sm_content : string;
  sm_is_valid : bool;
  sm_invalidated_at : option instant;
  sm_invalidation_reason : option string;
}.

(** [tenant.inbound_message] (when it occurred), [tenant.reply_delivery],
    [tenant.agent_session] (when it was updated), [tenant.session_event] (payload),
    [tenant.session_summary] (content) and [tenant.memory_record], by primary key. *)
Record SweepDb := {
  sd_lc : LifecycleDb;
  sd_inbound : gmap (uuid * (uuid * string)) instant;
  sd_replies : gmap (uuid * uuid) SweptReply;
  sd_sessions : gmap (uuid * string) instant;
  sd_events : gmap (uuid * (string * Z)) jobject;
  sd_summaries : gmap (uuid * string) string;
  sd_memories : gmap (uuid * uuid) SweptMemory;
}.

(** ** Statements

    [DELETE] and [UPDATE ... WHERE]: the number of rows and the new table.  [f] is the
    new row, or [None] for a deletion. *)
Section Statements.
Context {K V : Type} `{Countable K}.
Definition affected (P : K → V → bool) (m : gmap K V) : gmap K V :=
  filter (λ kv : K * V, P kv.1 kv.2 = true) m.
Definition affect (P : K → V → bool) (f : V → option V) (m : gmap K V) : Z * gmap K V :=
  (Z.of_nat (size (affected P m)), map_imap (λ k v, if P k v then f v else Some v) m).
Definition delete_where (P : K → V → bool) (m : gmap K V) : Z * gmap K V := affect P (λ _, None) m.
Definition update_where (P : K → V → bool) (f : V → V) (m : gmap K V) : Z * gmap K V :=
  affect P (λ v, Some (f v)) m.

(** Nothing matches, nothing happens. *)
Lemma affect_none P f m : (∀ k v, m !! k = Some v → P k v = false) → affect P f m = (0, m).
Proof.
  intros Hp. unfold affect, affected. f_equal.
  - rewrite (proj2 (map_empty_filter _ m)); [by rewrite map_size_empty|].
    intros k v Hv. simpl. by rewrite (Hp k v Hv).
  - apply map_eq. intros k. rewrite map_lookup_imap.
    destruct (m !! k) as [v|] eqn:Hv; simpl; [|done]. by rewrite (Hp k v Hv).
Qed.

(** A statement leaves nothing to do for itself when its result is outside its scope. *)
Lemma affect_again P f m :
  (∀ k v v', f v = Some v' → P k v = true → P k v' = false) →
  affect P f (affect P f m).2 = (0, (affect P f m).2).
Proof.
  intros Hf. apply affect_none. intros k v. unfold affect. simpl. rewrite map_lookup_imap.
  destruct (m !! k) as [w|]; simpl; [|done].
  destruct (P k w) eqn:Hw; [|by intros [= <-]]. intros Hfw. by eapply Hf.
Qed.

(** Two statements on different keys are one statement on both. *)
Lemma affect_both P Q f m :
  (∀ k v w, P k v = true → Q k w = false) →
  let '(n1, m1) := affect P f m in let '(n2, m2) := affect Q f m1 in
  (n1 + n2, m2) = affect (λ k v, P k v || Q k v) f m.
Proof.
  intros Hpq. unfold affect. f_equal.
  - assert (affected Q (map_imap (λ k v, if P k v then f v else Some v) m) = affected Q m) as ->.
    { apply map_eq. intros k. unfold affected. rewrite !map_lookup_filter, map_lookup_imap.
      destruct (m !! k) as [v|]; simpl; [|done]. destruct (P k v) eqn:Hv; [|done]. simpl.
      destruct (f v) as [w|]; simpl; [rewrite (Hpq k v w Hv)|]; by rewrite (Hpq k v v Hv). }
    rewrite <-Nat2Z.inj_add, <-map_size_disj_union.
    + f_equal. f_equal. unfold affected. apply map_eq. intros k. apply option_eq. intros v.
      rewrite lookup_union_Some.
      * rewrite !map_lookup_filter_Some. simpl. rewrite orb_true_iff. naive_solver.
      * apply map_disjoint_spec. intros k' v1 v2 [_ Hp]%map_lookup_filter_Some [_ Hq]%map_lookup_filter_Some.
        simpl in *. by rewrite (Hpq k' v1 v2) in Hq.
    + apply map_disjoint_spec. intros k' v1 v2 [_ Hp]%map_lookup_filter_Some [_ Hq]%map_lookup_filter_Some.
      simpl in *. by rewrite (Hpq k' v1 v2) in Hq.
  - apply map_eq. intros k. rewrite !map_lookup_imap. destruct (m !! k) as [v|]; simpl; [|done].
    destruct (P k v) eqn:Hv; simpl; [|done].
    destruct (f v) as [w|]; simpl; [|done]. by rewrite (Hpq k v w Hv).
Qed.

Lemma affect_ext P Q f m :
  (∀ k v, m !! k = Some v → P k v = Q k v) → affect P f m = affect Q f m.
Proof.
  intros Hpq. unfold affect. f_equal.
  - f_equal. f_equal. apply map_filter_strong_ext. intros k v. simpl. split; intros [Hp Hv]; by rewrite ?(Hpq k v Hv) in *.
  - apply map_eq. intros k. rewrite !map_lookup_imap. destruct (m !! k) as [v|] eqn:Hv; simpl; [|done].
    by rewrite (Hpq k v Hv).
Qed.
End Statements.

(** ** [RetentionSweep.run_once] *)
Definition days (n : Z) : Z := n * day.

(** The policy in force; the row passes through the model's validation. *)
Definition policy_in_force (t : uuid) (s : LifecycleDb) : RetentionPolicy :=
  default default_retention (pw_policy <$> lc_policies s !! t).

Definition inbound_expired (p : RetentionPolicy) (now : instant) (t : uuid) (k : uuid * (uuid * string))
    (occurred_at : instant) : bool :=
  bool_decide (k.1 = t) && (occurred_at <? now - days (rp_idempotency_tombstone_days p)).
Definition reply_expired (p : RetentionPolicy) (now : instant) (t : uuid) (k : uuid * uuid) (r : SweptReply)
    : bool :=
  bool_decide (k.1 = t) && (sr_created_at r <? now - days (rp_inbound_payload_days p))
  && negb (bool_decide (sr_content r = "")).
Definition session_expired (p : RetentionPolicy) (now : instant) (sessions : gmap (uuid * string) instant)
    (k : uuid * string) : bool :=
  match sessions !! k with Some updated_at => updated_at <? now - days (rp_session_days p) | None => false end.
Definition event_expired (p : RetentionPolicy) (now : instant) (sessions : gmap (uuid * string) instant)
    (t : uuid) (k : uuid * (string * Z)) (payload : jobject) : bool :=
  bool_decide (k.1 = t) && session_expired p now sessions (k.1, k.2.1)
  && negb (bool_decide (payload = ∅)).
Definition summary_expired (p : RetentionPolicy) (now : instant) (sessions : gmap (uuid * string) instant)
    (t : uuid) (k : uuid * string) (content : string) : bool :=
  bool_decide (k.1 = t) && session_expired p now sessions k && negb (bool_decide (content = "[erased]")).
Definition memory_expired (p : RetentionPolicy) (now : instant) (t : uuid) (k : uuid * uuid) (m : SweptMemory)
    : bool :=
  bool_decide (k.1 = t) && sm_is_valid m && (sm_last_used_at m <? now - days (rp_memory_days p)).

Definition erased_reply (r : SweptReply) : SweptReply :=
  {| sr_created_at := sr_created_at r; sr_content := "" |}.
Definition erased_memory (now : instant) (m : SweptMemory) : SweptMemory :=
  {| sm_last_used_at := sm_last_used_at m; sm_content := "[erased]"; sm_is_valid := false;
     sm_invalidated_at := Some now; sm_invalidation_reason := Some "RETENTION_EXPIRED" |}.

(** The five statements of one tenant's transaction. *)
Definition sweep_statements (p : RetentionPolicy) (now : instant) (t : uuid) (s : SweepDb) : Z * SweepDb :=
  let '(n1, inbound) := delete_where (inbound_expired p now t) (sd_inbound s) in
  let '(n2, replies) := update_where (reply_expired p now t) erased_reply (sd_replies s) in
  let '(n3, events) := update_where (event_expired p now (sd_sessions s) t) (λ _, ∅) (sd_events s) in
  let '(n4, summaries) :=
    update_where (summary_expired p now (sd_sessions s) t) (λ _, "[erased]") (sd_summaries s) in
  let '(n5, memories) := update_where (memory_expired p now t) (erased_memory now) (sd_memories s) in
  (n1 + n2 + n3 + n4 + n5,
   {| sd_lc := sd_lc s; sd_inbound := inbound; sd_replies := replies; sd_sessions := sd_sessions s;
      sd_events := events; sd_summaries := summaries; sd_memories := memories |}).

Definition sweep_tenant (now : instant) (t : uuid) : ST SweepDb ContentError Z :=
  on_hold ← gets (λ s, held t (sd_lc s));
  if (on_hold : bool) then mret 0 else
  policy ← gets (λ s, policy_in_force t (sd_lc s));
  match retention_error policy with
  | Some message => raise (PolicyInvalid message)
  | None => λ s, let '(n, s') := sweep_statements policy now t s in (Ok n, s')
  end.

Fixpoint sweep_tenants (now : instant) (tenants : list uuid) : PM SweepDb ContentError Z :=
  match tenants with
  | [] => pm_ret 0
  | t :: rest =>
      n <-- atomically (transaction NoFault DatabaseError (sweep_tenant now t));
      m <-- sweep_tenants now rest;
      pm_ret (n + m)
  end.

Definition sweep_run_once (now : instant) : PM SweepDb ContentError Z :=
  tenants <-- atomically (gets (λ s, all_tenants (sd_lc s)));
  sweep_tenants now tenants.

(** ** One statement per table

    The reference: every row of a tenant in [scope] that its tenant's policy no longer
    keeps, over all tenants at once. *)
Definition in_scope {K V} (scope : uuid → bool) (E : uuid → uuid * K → V → bool) (k : uuid * K) (v : V) : bool :=
  scope k.1 && E k.1 k v.

Definition sweep_by (scope : uuid → bool) (now : instant) (s : SweepDb) : Z * SweepDb :=
  let p t := policy_in_force t (sd_lc s) in
  let '(n1, inbound) := delete_where (in_scope scope (λ t, inbound_expired (p t) now t)) (sd_inbound s) in
  let '(n2, replies) :=
    update_where (in_scope scope (λ t, reply_expired (p t) now t)) erased_reply (sd_replies s) in
  let '(n3, events) :=
    update_where (in_scope scope (λ t, event_expired (p t) now (sd_sessions s) t)) (λ _, ∅) (sd_events s) in
  let '(n4, summaries) :=
    update_where (in_scope scope (λ t, summary_expired (p t) now (sd_sessions s) t)) (λ _, "[erased]")
      (sd_summaries s) in
  let '(n5, memories) :=
    update_where (in_scope scope (λ t, memory_expired (p t) now t)) (erased_memory now) (sd_memories s) in
  (n1 + n2 + n3 + n4 + n5,
   {| sd_lc := sd_lc s; sd_inbound := inbound; sd_replies := replies; sd_sessions := sd_sessions s;
      sd_events := events; sd_summaries := summaries; sd_memories := memories |}).

(** The tenants a sweep acts on. *)
Definition sweepable (tenants : list uuid) (s : SweepDb) (t : uuid) : bool :=
  bool_decide (t ∈ tenants) && negb (held t (sd_lc s)).

Lemma in_scope_both {K V} (A B : uuid → bool) (E : uuid → uuid * K → V → bool) :
  (∀ t, A t = true → B t = false) → ∀ k v w, in_scope A E k v = true → in_scope B E k w = false.
Proof. intros Hab k v w. unfold in_scope. intros [Ha _]%andb_true_iff. by rewrite (Hab _ Ha). Qed.

Lemma in_scope_or {K V} (A B : uuid → bool) (E : uuid → uuid * K → V → bool) k v :
  in_scope A E k v || in_scope B E k v = in_scope (λ t, A t || B t) E k v.
Proof. unfold in_scope. by destruct (A k.1), (B k.1), (E k.1 k v). Qed.

Lemma affect_scopes {K V} `{Countable K} (A B : uuid → bool) (E : uuid → uuid * K → V → bool)
    (f : V → option V) (m : gmap (uuid * K) V) :
  (∀ t, A t = true → B t = false) →
  affect (in_scope (λ t, A t || B t) E) f m =
    let '(n1, m1) := affect (in_scope A E) f m in
    let '(n2, m2) := affect (in_scope B E) f m1 in (n1 + n2, m2).
Proof.
  intros Hab. rewrite <-(affect_ext _ _ f m (λ k v _, in_scope_or A B E k v)).
  symmetry. apply (affect_both _ _ f m (in_scope_both A B E Hab)).
Qed.

Lemma sweep_by_both A B now s :
  (∀ t, A t = true → B t = false) →
  sweep_by (λ t, A t || B t) now s =
    let '(n1, s1) := sweep_by A now s in let '(n2, s2) := sweep_by B now s1 in (n1 + n2, s2).
Proof.
  intros Hab. unfold sweep_by, delete_where, update_where. rewrite !(affect_scopes A B) by done.
  repeat (case_match; simplify_eq/=). f_equal. lia.
Qed.

(** The statements of one tenant touch its rows only. *)
Lemma affect_own {K V} `{Countable K} (t : uuid) (E : uuid → uuid * K → V → bool) (f : V → option V)
    (m : gmap (uuid * K) V) :
  (∀ k v, E t k v = true → k.1 = t) →
  affect (E t) f m = affect (in_scope (λ u, bool_decide (u = t)) E) f m.
Proof.
  intros HE. apply affect_ext. intros k v _. unfold in_scope. case_bool_decide as Hk; [by rewrite Hk|].
  destruct (E t k v) eqn:Hv; [|done]. by apply HE in Hv.
Qed.

Lemma sweep_statements_by now t s :
  sweep_statements (policy_in_force t (sd_lc s)) now t s = sweep_by (λ u, bool_decide (u = t)) now s.
Proof.
  unfold sweep_statements, sweep_by, delete_where, update_where.
  set (p u := policy_in_force u (sd_lc s)). change (policy_in_force t (sd_lc s)) with (p t).
  rewrite (affect_own t (λ u, inbound_expired (p u) now u)), (affect_own t (λ u, reply_expired (p u) now u)),
    (affect_own t (λ u, event_expired (p u) now (sd_sessions s) u)),
    (affect_own t (λ u, summary_expired (p u) now (sd_sessions s) u)),
    (affect_own t (λ u, memory_expired (p u) now u)); [done|..];
    intros k v Hv; unfold inbound_expired, reply_expired, event_expired, summary_expired, memory_expired in Hv;
    rewrite !andb_true_iff, bool_decide_eq_true in Hv; tauto.
Qed.

Lemma sweep_by_none scope now s : (∀ t, scope t = false) → sweep_by scope now s = (0, s).
Proof.
  intros Hs. unfold sweep_by, delete_where, update_where.
  rewrite !affect_none by (intros k v _; unfold in_scope; by rewrite Hs). by destruct s.
Qed.

Lemma sweep_by_ext A B now s : (∀ t, A t = B t) → sweep_by A now s = sweep_by B now s.
Proof.
  intros Hab. unfold sweep_by, delete_where, update_where.
  assert (∀ {K V} (E : uuid → uuid * K → V → bool) k v, in_scope A E k v = in_scope B E k v) as Hin
    by (intros; unfold in_scope; by rewrite Hab).
  by rewrite !(affect_ext (in_scope A _) (in_scope B _)) by (intros; apply Hin).
Qed.

(** A sweep changes content only, and a second one finds nothing to do. *)
Lemma sweep_by_frame scope now s :
  sd_lc (sweep_by scope now s).2 = sd_lc s ∧ sd_sessions (sweep_by scope now s).2 = sd_sessions s.
Proof. unfold sweep_by. repeat case_match; by simplify_eq/=. Qed.

Lemma scoped_again {K V} `{Countable K} (scope : uuid → bool) (E : uuid → uuid * K → V → bool) (f : V → option V)
    (m : gmap (uuid * K) V) :
  (∀ t k v v', f v = Some v' → E t k v' = false) →
  affect (in_scope scope E) f (affect (in_scope scope E) f m).2 = (0, (affect (in_scope scope E) f m).2).
Proof.
  intros HE. apply affect_again. intros k v v' Hf _. unfold in_scope. by rewrite (HE _ _ _ _ Hf), andb_false_r.
Qed.

Lemma sweep_by_again scope now s :
  sweep_by scope now (sweep_by scope now s).2 = (0, (sweep_by scope now s).2).
Proof.
  unfold sweep_by, delete_where, update_where. set (p u := policy_in_force u (sd_lc s)).
  pose proof (scoped_again scope (λ t, inbound_expired (p t) now t) (λ _, None) (sd_inbound s)) as H1.
  pose proof (scoped_again scope (λ t, reply_expired (p t) now t) (λ r, Some (erased_reply r)) (sd_replies s)) as H2.
  pose proof (scoped_again scope (λ t, event_expired (p t) now (sd_sessions s) t) (λ _, Some ∅) (sd_events s)) as H3.
  pose proof (scoped_again scope (λ t, summary_expired (p t) now (sd_sessions s) t) (λ _, Some "[erased]")
    (sd_summaries s)) as H4.
  pose proof (scoped_again scope (λ t, memory_expired (p t) now t) (λ m, Some (erased_memory now m))
    (sd_memories s)) as H5.
  destruct (affect _ _ (sd_inbound s)), (affect _ _ (sd_replies s)), (affect _ _ (sd_events s)),
    (affect _ _ (sd_summaries s)), (affect _ _ (sd_memories s)). subst p. cbn -[affect] in *.
  rewrite H1, H2, H3, H4, H5; [done|..];
    intros t k v v' [= <-]; unfold reply_expired, event_expired, summary_expired, memory_expired; simpl;
    by rewrite ?bool_decide_eq_true_2, ?andb_false_r by done.
Qed.

(** ** Theorems *)
(** The stored policies satisfy the CHECK constraints of their table. *)
Definition policies_checked (s : LifecycleDb) : Prop :=
  map_Forall (λ _ r, retention_checks (pw_policy r) = true) (lc_policies s).

Lemma policy_in_force_valid t s : policies_checked s → retention_error (policy_in_force t s) = None.
Proof.
  intros Hs. apply retention_error_checks. unfold policy_in_force.
  destruct (lc_policies s !! t) as [r|] eqn:Hr; simpl; [by apply (Hs t)|done].
Qed.

Lemma sweep_tenants_by now tenants s :
  policies_checked (sd_lc s) → NoDup tenants →
  run_proc (sweep_tenants now tenants) s =
    (Ok (sweep_by (sweepable tenants s) now s).1, (sweep_by (sweepable tenants s) now s).2).
Proof.
  revert s. induction tenants as [|t l IH]; intros s Hp Hnd; cbn [sweep_tenants].
  { rewrite sweep_by_none; [done|]. intros t. unfold sweepable. by rewrite bool_decide_eq_false_2 by set_solver. }
  apply NoDup_cons in Hnd as [Ht Hnd].
  rewrite (sweep_by_ext _ (λ u, (bool_decide (u = t) && negb (held t (sd_lc s))) || sweepable l s u)).
  2: { intros u. unfold sweepable. case_bool_decide as Hu; case_bool_decide as Hut; case_bool_decide;
         subst; try done; try set_solver; by rewrite ?orb_false_r. }
  rewrite sweep_by_both.
  2: { intros u [->%bool_decide_eq_true _]%andb_true_iff. unfold sweepable. by rewrite bool_decide_eq_false_2. }
  assert (transaction NoFault DatabaseError (sweep_tenant now t) s =
    (Ok (sweep_by (λ u, bool_decide (u = t) && negb (held t (sd_lc s))) now s).1,
     (sweep_by (λ u, bool_decide (u = t) && negb (held t (sd_lc s))) now s).2)) as Hone.
  { unfold transaction, sweep_tenant, mbind, ST_mbind, gets. destruct (held t (sd_lc s)) eqn:Hh;
      cbn -[sweep_by sweep_statements].
    - rewrite sweep_by_none; [done|]. intros u. by rewrite andb_false_r.
    - rewrite policy_in_force_valid by done. rewrite sweep_statements_by.
      rewrite (sweep_by_ext _ (λ u, bool_decide (u = t) && true)) by (intros; by rewrite andb_true_r).
      by destruct (sweep_by _ _ _). }
  pose proof (sweep_by_frame (λ u, bool_decide (u = t) && negb (held t (sd_lc s))) now s) as [Hlc _].
  rewrite run_atomically, Hone.
  destruct (sweep_by (λ u, bool_decide (u = t) && negb (held t (sd_lc s))) now s) as [n1 s1]. cbn [fst snd] in *.
  rewrite run_pm_bind, IH by (by rewrite ?Hlc).
  rewrite (sweep_by_ext (sweepable l s) (sweepable l s1)) by (intros; unfold sweepable; by rewrite Hlc).
  by destruct (sweep_by (sweepable l s1) now s1).
Qed.

Lemma sweep_run_once_by now s :
  policies_checked (sd_lc s) →
  run_proc (sweep_run_once now) s =
    (Ok (sweep_by (sweepable (all_tenants (sd_lc s)) s) now s).1,
     (sweep_by (sweepable (all_tenants (sd_lc s)) s) now s).2).
Proof.
  intros Hp. unfold sweep_run_once. rewrite run_atomically.
  cbn [gets]. unfold gets. apply sweep_tenants_by; [done|]. unfold all_tenants. apply NoDup_elements.
Qed.

(** The rows of a sweep, table by table: [sweeps t] is a tenant that exists and is not
    held, and a row's limit comes from its tenant's policy. *)
Definition sweeps (s : SweepDb) (t : uuid) : bool :=
  bool_decide (t ∈ ad_tenants (lc_admin (sd_lc s))) && negb (held t (sd_lc s)).
Definition older_than (now : instant) (limit : RetentionPolicy → Z) (s : SweepDb) (t : uuid) (at_ : instant)
    : bool :=
  sweeps s t && (at_ <? now - days (limit (policy_in_force t (sd_lc s)))).
Definition session_older (now : instant) (s : SweepDb) (k : uuid * string) : bool :=
  match sd_sessions s !! k with Some updated => older_than now rp_session_days s k.1 updated | None => false end.

(** On a database whose policies satisfy their CHECK constraints, a sweep returns.
    It leaves the lifecycle tables and the sessions alone and, for the tenants that
    exist and are not under an active Legal Hold, deletes exactly the inbound rows
    past the idempotency limit, empties exactly the replies past the payload limit
    and the events and summaries of sessions past the session limit, and erases the
    valid memories unused past the memory limit; every other row keeps its value.  A
    second sweep at the same time finds nothing. *)
Theorem sweep_expires_exactly now s :
  policies_checked (sd_lc s) →
  ∃ n s', run_proc (sweep_run_once now) s = (Ok n, s') ∧
    sd_lc s' = sd_lc s ∧ sd_sessions s' = sd_sessions s ∧
    (∀ k, sd_inbound s' !! k =
      at_ ← sd_inbound s !! k; if older_than now rp_idempotency_tombstone_days s k.1 at_ then None else Some at_) ∧
    (∀ k, sd_replies s' !! k =
      (λ r, if older_than now rp_inbound_payload_days s k.1 (sr_created_at r) then erased_reply r else r)
        <$> sd_replies s !! k) ∧
    (∀ k, sd_events s' !! k =
      (λ payload, if session_older now s (k.1, k.2.1) then ∅ else payload) <$> sd_events s !! k) ∧
    (∀ k, sd_summaries s' !! k =
      (λ content, if session_older now s k then "[erased]" else content) <$> sd_summaries s !! k) ∧
    (∀ k, sd_memories s' !! k =
      (λ m, if sm_is_valid m && older_than now rp_memory_days s k.1 (sm_last_used_at m)
            then erased_memory now m else m) <$> sd_memories s !! k) ∧
    run_proc (sweep_run_once now) s' = (Ok 0, s').
Proof.
  intros Hp. eexists _, _. split; [by apply sweep_run_once_by|].
  set (scope := sweepable (all_tenants (sd_lc s)) s).
  pose proof (sweep_by_frame scope now s) as [Hlc Hsess]. split; [done|]. split; [done|].
  assert (∀ t, scope t = sweeps s t) as Hscope.
  { intros t. unfold scope, sweepable, sweeps, all_tenants. f_equal. apply bool_decide_ext, elem_of_elements. }
  assert (run_proc (sweep_run_once now) (sweep_by scope now s).2 = (Ok 0, (sweep_by scope now s).2)) as Hagain.
  { rewrite sweep_run_once_by by by rewrite Hlc.
    assert (∀ t, sweepable (all_tenants (sd_lc (sweep_by scope now s).2)) (sweep_by scope now s).2 t = scope t)
      as Hsame by (intros t; unfold sweepable; by rewrite Hlc).
    by rewrite (sweep_by_ext _ _ _ _ Hsame), sweep_by_again. }
  split_and!; [..|done]; clear Hagain Hlc Hsess; intros k; unfold sweep_by, delete_where, update_where, affect;
    cbn [snd sd_inbound sd_replies sd_events sd_summaries sd_memories]; rewrite map_lookup_imap;
    unfold in_scope; rewrite Hscope;
    unfold inbound_expired, reply_expired, event_expired, summary_expired, memory_expired, session_expired,
      session_older, older_than; rewrite ?(bool_decide_eq_true_2 (k.1 = k.1)) by done; simpl.
  - destruct (sd_inbound s !! k); simpl; done.
  - destruct (sd_replies s !! k) as [[c x]|]; simpl; [|done]. destruct (sweeps s k.1); simpl; [|done].
    destruct (_ <? _); simpl; [|done]. by case_bool_decide; subst.
  - destruct (sd_events s !! k) as [payload|]; simpl; [|done].
    destruct (sd_sessions s !! _); destruct (sweeps s k.1); simpl; try done.
    destruct (_ <? _); simpl; [|done]. by case_bool_decide; subst.
  - destruct (sd_summaries s !! k) as [c|]; simpl; [|done].
    destruct (sd_sessions s !! _); destruct (sweeps s k.1); simpl; try done.
    destruct (_ <? _); simpl; [|done]. by case_bool_decide; subst.
  - destruct (sd_memories s !! k) as [m|]; simpl; [|done].
    destruct (sm_is_valid m), (sweeps s k.1); simpl; try done. by destruct (_ <? _).
Qed.
