(* ===== verification/LifecycleFacts.v ===== *)
(** * The invariant of the content lifecycle

    What the tables say about who decided what and about finished deletions, and what
    no step ever rewrites; every endpoint and every transaction of the deletion worker
    keeps both. *)

From S2P Require Import Prelude PyNum Uuids ExecutionBus AuditChain AdminAccess Interleave ContentLifecycle ContentErasure.
Open Scope string_scope.
Open Scope list_scope.
Open Scope Z_scope.

(** ** Invariant and guarantee *)

(** Somebody other than the initiator approved. *)
Definition four_eyes (initiator : string) (approver : option string) : Prop :=
  ∃ a, approver = Some a ∧ a ≠ initiator.

Record change_ok (c : ChangeRow) : Prop := {
  co_bounds : retention_checks (ch_policy c) = true;
  co_pending : ch_status c = CH_PENDING_APPROVAL → ch_approver c = None;
  co_approved : ch_status c = CH_APPROVED → four_eyes (ch_initiator c) (ch_approver c);
}.
Record hold_ok (h : HoldRow) : Prop := {
  ho_pending : hd_status h = HD_PENDING_APPROVAL → hd_approver h = None;
  ho_decided : hd_status h ≠ HD_PENDING_APPROVAL → four_eyes (hd_initiator h) (hd_approver h);
  ho_released : hd_status h = HD_RELEASED → is_Some (hd_released_at h);
}.

Definition is_approved (t : uuid) (kc : (uuid * uuid) * ChangeRow) : Prop :=
  kc.1.1 = t ∧ ch_status kc.2 = CH_APPROVED.
#[export] Instance is_approved_dec t kc : Decision (is_approved t kc).
Proof. unfold is_approved. apply _. Defined.
Definition approved_changes (t : uuid) (m : gmap (uuid * uuid) ChangeRow) : gmap (uuid * uuid) ChangeRow :=
  filter (is_approved t) m.

Definition policy_version (t : uuid) (s : LifecycleDb) : Z := default 0 (pw_version <$> lc_policies s !! t).

Section Facts.
Context (sha256_hex : string → string) (dumps : json → string) (uuid_at : nat → uuid).

Record proof_ok (request_id : uuid) (b : ContentBackend) (p : ProofRow) : Prop := {
  po_verified : pf_verified p = true;
  po_count : 0 ≤ pf_deleted_count p;
  po_digest : pf_evidence_digest p =
    sha256_hex (evidence_text request_id b (pf_deleted_count p) (pf_verified p) (pf_completed_at p));
}.

Record LifecycleInv (s : LifecycleDb) : Prop := {
  lv_changes : ∀ k c, lc_changes s !! k = Some c → change_ok c;
  lv_one_pending : ∀ t i j c d, lc_changes s !! (t, i) = Some c → lc_changes s !! (t, j) = Some d →
    ch_status c = CH_PENDING_APPROVAL → ch_status d = CH_PENDING_APPROVAL → i = j;
  lv_policies : ∀ t r, lc_policies s !! t = Some r →
    ∃ i c, lc_changes s !! (t, i) = Some c ∧ ch_status c = CH_APPROVED ∧ ch_policy c = pw_policy r;
  lv_versions : ∀ t, policy_version t s = Z.of_nat (size (approved_changes t (lc_changes s)));
  lv_holds : ∀ k h, lc_holds s !! k = Some h → hold_ok h;
  lv_proofs : ∀ t q b p, lc_proofs s !! (t, q, b) = Some p → proof_ok q b p;
  lv_completed : ∀ t q r, lc_requests s !! (t, q) = Some r → dl_status r = DL_COMPLETED →
    is_Some (dl_completed_at r) ∧ ∀ b, is_Some (lc_proofs s !! (t, q, b));
}.

(** What no step rewrites: a decided change, the two people of a hold and its release,
    the author and the deadlines of a deletion request, the existence of a proof. *)
Record lc_guar (s s' : LifecycleDb) : Prop := {
  lg_changes : ∀ k c, lc_changes s !! k = Some c → ∃ c', lc_changes s' !! k = Some c' ∧
    ch_policy c' = ch_policy c ∧ ch_initiator c' = ch_initiator c ∧ (ch_status c = CH_APPROVED → c' = c);
  lg_holds : ∀ k h, lc_holds s !! k = Some h → ∃ h', lc_holds s' !! k = Some h' ∧
    hd_initiator h' = hd_initiator h ∧ hd_reason h' = hd_reason h ∧
    (hd_status h ≠ HD_PENDING_APPROVAL →
      hd_status h' ≠ HD_PENDING_APPROVAL ∧ hd_approver h' = hd_approver h) ∧
    (hd_status h = HD_RELEASED → h' = h);
  lg_requests : ∀ k r, lc_requests s !! k = Some r → ∃ r', lc_requests s' !! k = Some r' ∧
    dl_requested_by r' = dl_requested_by r ∧ dl_primary_due_at r' = dl_primary_due_at r ∧
    dl_backup_due_at r' = dl_backup_due_at r ∧ dl_attempts r ≤ dl_attempts r';
  lg_proofs : ∀ k, is_Some (lc_proofs s !! k) → is_Some (lc_proofs s' !! k);
}.

#[export] Instance lc_guar_refl : Reflexive lc_guar.
Proof. intros s. split; [naive_solver..|eauto 10 with lia|done]. Qed.

#[export] Instance lc_guar_trans : Transitive lc_guar.
Proof.
  intros s1 s2 s3 [C1 H1 R1 P1] [C2 H2 R2 P2]. split.
  - intros k c Hc. destruct (C1 k c Hc) as (c' & Hc' & ? & ? & Ha).
    destruct (C2 k c' Hc') as (c'' & ? & ? & ? & Ha').
    exists c''. split_and!; [done|congruence..|]. intros Hap. rewrite <-(Ha Hap). apply Ha'.
    by rewrite (Ha Hap).
  - intros k h Hh. destruct (H1 k h Hh) as (h' & Hh' & ? & ? & Hp & Hr).
    destruct (H2 k h' Hh') as (h'' & ? & ? & ? & Hp' & Hr').
    exists h''. split_and!; [done|congruence|congruence| |].
    + intros Hst. destruct (Hp Hst) as [Hst' ?]. destruct (Hp' Hst'). split; congruence.
    + intros Hst. rewrite <-(Hr Hst). apply Hr'. by rewrite (Hr Hst).
  - intros k r Hr. destruct (R1 k r Hr) as (r' & Hr' & ? & ? & ? & ?).
    destruct (R2 k r' Hr') as (r'' & ? & ? & ? & ? & ?). exists r''. split_and!; [done|congruence..|lia].
  - auto.
Qed.

(** A step is good when it keeps the invariant and the guarantee. *)
Definition evolves (s s' : LifecycleDb) : Prop := LifecycleInv s → LifecycleInv s' ∧ lc_guar s s'.

Lemma evolves_refl s : evolves s s.
Proof. intros Hi. by split. Qed.
Lemma evolves_trans s1 s2 s3 : evolves s1 s2 → evolves s2 s3 → evolves s1 s3.
Proof.
  intros H1 H2 Hi. destruct (H1 Hi) as [Hi' ?]. destruct (H2 Hi') as [??]. split; [done|].
  by transitivity s2.
Qed.

(** ** Tables *)
Lemma evolves_admin a s : evolves s (set_lc_admin a s).
Proof. intros []. split; [by split|]. split; simpl; [naive_solver..|eauto 10 with lia|done]. Qed.
Lemma evolves_next_id s : evolves s (next_lc_id s).
Proof. intros []. split; [by split|]. split; simpl; [naive_solver..|eauto 10 with lia|done]. Qed.

(** A pending change under a fresh key, when the tenant has none. *)
Lemma evolves_propose t i c s :
  lc_changes s !! (t, i) = None → change_ok c → ch_status c = CH_PENDING_APPROVAL →
  (∀ k d, lc_changes s !! k = Some d → k.1 = t → ch_status d ≠ CH_PENDING_APPROVAL) →
  evolves s (set_changes <[(t, i) := c]> s).
Proof.
  intros Hnew Hc Hst Hnone [Ch One Pol Ver Ho Pf Co]. split; split; simpl; try done.
  - intros k d [[<- <-]|[_ Hd]]%lookup_insert_Some; [done|eauto].
  - intros u a b x y [[Ea <-]|[Ha Hx]]%lookup_insert_Some [[Eb <-]|[Hb Hy]]%lookup_insert_Some; intros; simplify_eq.
    + done.
    + by destruct (Hnone _ _ Hy eq_refl).
    + by destruct (Hnone _ _ Hx eq_refl).
    + by eapply One.
  - intros u r Hr. destruct (Pol u r Hr) as (j & d & Hd & ? & ?). exists j, d.
    by rewrite lookup_insert_ne by congruence.
  - intros u. unfold policy_version. simpl. fold (policy_version u s). rewrite Ver. do 2 f_equal.
    unfold approved_changes. rewrite map_filter_insert_False; [by rewrite delete_id by done|].
    unfold is_approved. simpl. intros [_ ?]. congruence.
  - intros k d Hd. exists d. by rewrite lookup_insert_ne by congruence.
  - naive_solver.
  - eauto 10 with lia.
Qed.

(** A pending change becomes the policy. *)
Lemma evolves_approve t i c approver now s :
  lc_changes s !! (t, i) = Some c → ch_status c = CH_PENDING_APPROVAL → approver ≠ ch_initiator c →
  evolves s (set_policies <[t := {| pw_policy := ch_policy c; pw_version := policy_version t s + 1;
                                    pw_updated_at := now |}]>
    (set_changes <[(t, i) := approved_change approver now c]> s)).
Proof.
  intros Hc Hst Hne [Ch One Pol Ver Ho Pf Co]. split; split; simpl; try done.
  - intros k d [[<- <-]|[_ Hd]]%lookup_insert_Some; [|eauto]. destruct (Ch _ _ Hc). split; simpl; [done..|].
    intros _. by exists approver.
  - intros u a b x y [[Ea <-]|[Ha Hx]]%lookup_insert_Some [[Eb <-]|[Hb Hy]]%lookup_insert_Some Hpx Hpy;
      simplify_eq; try done. by eapply One.
  - intros u r [[<- <-]|[Hu Hr]]%lookup_insert_Some.
    + exists i, (approved_change approver now c). by rewrite lookup_insert_eq.
    + destruct (Pol u r Hr) as (j & d & Hd & ? & ?). exists j, d. by rewrite lookup_insert_ne by congruence.
  - intros u. unfold policy_version at 1, approved_changes. simpl. destruct (decide (u = t)) as [->|Hu].
    + rewrite lookup_insert_eq. simpl.
      rewrite map_filter_insert_True by (by unfold is_approved). rewrite map_size_insert_None, Ver; [unfold approved_changes; lia|].
      apply map_lookup_filter_None. right. intros d Hd [_ ?]. simpl in *. congruence.
    + rewrite lookup_insert_ne by done. fold (policy_version u s). rewrite Ver. do 2 f_equal.
      rewrite map_filter_insert_False by (unfold is_approved; simpl; naive_solver).
      rewrite map_filter_delete, delete_id; [done|].
      apply map_lookup_filter_None. right. intros d _ [? _]. by simpl in *.
  - intros k d Hd. destruct (decide (k = (t, i))) as [->|Hk].
    + assert (d = c) as -> by congruence. exists (approved_change approver now c). rewrite lookup_insert_eq.
      split_and!; [done..|]. congruence.
    + exists d. by rewrite lookup_insert_ne.
  - naive_solver.
  - eauto 10 with lia.
Qed.

(** A new hold, or a step of an existing one. *)
Definition hold_evolves (h h' : HoldRow) : Prop :=
  hd_initiator h' = hd_initiator h ∧ hd_reason h' = hd_reason h ∧
  (hd_status h ≠ HD_PENDING_APPROVAL → hd_status h' ≠ HD_PENDING_APPROVAL ∧ hd_approver h' = hd_approver h) ∧
  (hd_status h = HD_RELEASED → h' = h).

Lemma evolves_hold k h' s :
  hold_ok h' → (∀ h, lc_holds s !! k = Some h → hold_evolves h h') → evolves s (set_holds <[k := h']> s).
Proof.
  intros Hok Hev [Ch One Pol Ver Ho Pf Co]. split; split; simpl; try done.
  - intros j d [[<- <-]|[_ Hd]]%lookup_insert_Some; [done|eauto].
  - naive_solver.
  - intros j d Hd. destruct (decide (j = k)) as [->|Hk].
    + exists h'. rewrite lookup_insert_eq. split; [done|]. by apply Hev.
    + exists d. rewrite lookup_insert_ne by done. done.
  - eauto 10 with lia.
Qed.

(** A new request, or a row that moves without completing. *)
Definition request_evolves (r r' : DeletionRow) : Prop :=
  dl_requested_by r' = dl_requested_by r ∧ dl_primary_due_at r' = dl_primary_due_at r ∧
  dl_backup_due_at r' = dl_backup_due_at r ∧ dl_attempts r ≤ dl_attempts r'.

Lemma evolves_request t q r' s :
  (dl_status r' = DL_COMPLETED → is_Some (dl_completed_at r') ∧ ∀ b, is_Some (lc_proofs s !! (t, q, b))) →
  (∀ r, lc_requests s !! (t, q) = Some r → request_evolves r r') →
  evolves s (set_requests <[(t, q) := r']> s).
Proof.
  intros Hst Hev [Ch One Pol Ver Ho Pf Co]. split; split; simpl; try done.
  - intros u p d [[E <-]|[_ Hd]]%lookup_insert_Some; [|eauto]. by simplify_eq.
  - naive_solver.
  - naive_solver.
  - intros j d Hd. destruct (decide (j = (t, q))) as [->|Hk].
    + exists r'. rewrite lookup_insert_eq. split; [done|]. by apply Hev.
    + exists d. rewrite lookup_insert_ne by done. done.
Qed.

Lemma evolves_update_request t q f s :
  (∀ r, request_evolves r (f r)) →
  (∀ r, dl_status (f r) = DL_COMPLETED →
    is_Some (dl_completed_at (f r)) ∧ ∀ b, is_Some (lc_proofs s !! (t, q, b))) →
  evolves s (update_request t q f s).
Proof.
  intros Hf Hst. unfold update_request. destruct (lc_requests s !! (t, q)) as [r|] eqn:Hr.
  - assert (set_requests (alter f (t, q)) s = set_requests <[(t, q) := f r]> s) as ->.
    { unfold set_requests. f_equal. apply map_eq. intros j. destruct (decide (j = (t, q))) as [->|Hj].
      - by rewrite lookup_alter_eq, lookup_insert_eq, Hr.
      - by rewrite lookup_alter_ne, lookup_insert_ne by done. }
    apply evolves_request; [apply Hst|]. intros r0 Hr0. assert (r0 = r) as -> by congruence. apply Hf.
  - assert (set_requests (alter f (t, q)) s = s) as ->; [|apply evolves_refl].
    unfold set_requests. destruct s; simpl in *. f_equal. apply map_eq. intros j.
    destruct (decide (j = (t, q))) as [->|Hj]; [by rewrite lookup_alter_eq, Hr|by rewrite lookup_alter_ne].
Qed.

Lemma evolves_proof t q b p s : proof_ok q b p → evolves s (set_proofs <[(t, q, b) := p]> s).
Proof.
  intros Hp [Ch One Pol Ver Ho Pf Co].
  assert (∀ k, is_Some (lc_proofs s !! k) → is_Some (<[(t, q, b) := p]> (lc_proofs s) !! k)) as Hkeep.
  { intros k ?. destruct (decide (k = (t, q, b))) as [->|]; [rewrite lookup_insert_eq; eauto|].
    by rewrite lookup_insert_ne. }
  split; split; simpl; try done; [..|naive_solver|naive_solver|eauto 10 with lia].
  - intros u q' b' p' [[E <-]|[_ Hd]]%lookup_insert_Some; [|eauto]. by simplify_eq.
  - intros u q' r Hr Hst. destruct (Co u q' r Hr Hst) as [? Hall]. split; [done|]. auto.
Qed.

(** ** Operations *)
Definition lc_good {E A} (m : ST LifecycleDb E A) : Prop := ∀ s, evolves s (m s).2.

Lemma lc_good_gets {E A} (f : LifecycleDb → A) : lc_good (gets f : ST _ E A).
Proof. intros s. apply evolves_refl. Qed.
Lemma lc_good_ret {E A} (a : A) : lc_good (mret a : ST _ E A).
Proof. intros s. apply evolves_refl. Qed.
Lemma lc_good_raise {E A} (e : E) : lc_good (raise e : ST _ E A).
Proof. intros s. apply evolves_refl. Qed.
Lemma lc_good_ensure {E} b (e : E) : lc_good (ensure b e).
Proof. intros s. destruct b; apply evolves_refl. Qed.
Lemma lc_good_get_or_raise {E A} (o : option A) (e : E) : lc_good (get_or_raise o e).
Proof. intros s. destruct o; apply evolves_refl. Qed.
Lemma lc_good_modify {E} f : (∀ s, evolves s (f s)) → lc_good (modify f : ST _ E unit).
Proof. intros Hf s. apply Hf. Qed.
Lemma lc_good_bind {E A B} (m : ST LifecycleDb E A) (k : A → ST LifecycleDb E B) :
  lc_good m → (∀ a, lc_good (k a)) → lc_good (m ≫= k).
Proof.
  intros Hm Hk s. unfold mbind, ST_mbind. specialize (Hm s). destruct (m s) as [[a|e] s']; [|done].
  eapply evolves_trans; [exact Hm|apply Hk].
Qed.

(** Of a transaction only the runs that return count. *)
Lemma lc_good_transaction {E A} fault (lost : E) (m : ST LifecycleDb E A) :
  (∀ s a s', m s = (Ok a, s') → evolves s s') → lc_good (transaction fault lost m).
Proof.
  intros Hm s. unfold transaction. destruct (m s) as [[a|e] s'] eqn:Hrun; [|apply evolves_refl].
  destruct fault; [by eapply Hm|apply evolves_refl|by eapply Hm].
Qed.

Lemma lc_good_admin {A} (m : ADM A) : lc_good (lc_on_admin m).
Proof. intros s. unfold lc_on_admin. destruct (m _) as [[]?]; apply evolves_admin. Qed.
Lemma lc_good_draw : lc_good (lc_draw uuid_at).
Proof. intros s. apply evolves_next_id. Qed.

Create HintDb lifecycle discriminated.
#[local] Hint Resolve lc_good_gets lc_good_ret lc_good_raise lc_good_ensure lc_good_get_or_raise
  lc_good_bind lc_good_admin lc_good_draw : lifecycle.

Lemma lc_audit_evolves now p action t ty id details s a s' :
  lc_audit sha256_hex dumps uuid_at now p action t ty id details s = (Ok a, s') → evolves s s'.
Proof.
  intros Hrun. pose proof (lc_good_admin (audited sha256_hex dumps uuid_at now (Some p) action "ALLOW" (Some ty) id
    (Some t) details) s) as Hg. unfold lc_audit in Hrun. by rewrite Hrun in Hg.
Qed.
Lemma lc_draw_evolves s a s' : lc_draw uuid_at s = (Ok a, s') → evolves s s'.
Proof. intros Hrun. pose proof (lc_good_draw s) as Hg. by rewrite Hrun in Hg. Qed.
Lemma lc_draw_tables s a s' : lc_draw uuid_at s = (Ok a, s') →
  lc_changes s' = lc_changes s ∧ lc_holds s' = lc_holds s ∧ lc_requests s' = lc_requests s.
Proof. unfold lc_draw. intros Hrun. run_inv. done. Qed.

(** The last write of an endpoint's transaction is its audit row. *)
Ltac endpoint_body :=
  intros s a s' Hrun; cbv zeta in Hrun; run_inv;
  match goal with Ha : lc_audit _ _ _ _ _ _ _ _ _ _ _ = _ |- _ => apply lc_audit_evolves in Ha end.

Lemma policy_body_good p : lc_good (policy_body p).
Proof. unfold policy_body. case_match; auto with lifecycle. Qed.
Lemma deletion_result_good t q : lc_good (deletion_result t q).
Proof. unfold deletion_result. auto 10 with lifecycle. Qed.
#[local] Hint Resolve policy_body_good deletion_result_good : lifecycle.

Lemma propose_retention_good fault now p t payload :
  lc_good (propose_retention sha256_hex dumps uuid_at fault now p t payload).
Proof.
  unfold propose_retention, lc_require_admin. apply lc_good_bind; [auto with lifecycle|intros _].
  apply lc_good_bind; [auto with lifecycle|intros _]. apply lc_good_transaction. endpoint_body.
  rewrite !andb_true_iff, !bool_decide_eq_true in *. destruct_and!.
  match goal with Hd : lc_draw _ _ = _ |- _ =>
    pose proof (lc_draw_evolves _ _ _ Hd); apply lc_draw_tables in Hd as (Hch & _) end.
  eapply evolves_trans; [done|]. eapply evolves_trans; [|done].
  apply evolves_propose; [done| |done|].
  - by split; simpl.
  - done.
Qed.

Lemma approve_retention_good fault now p t i :
  lc_good (approve_retention sha256_hex dumps uuid_at fault now p t i).
Proof.
  unfold approve_retention, lc_require_admin. apply lc_good_bind; [auto with lifecycle|intros _].
  apply lc_good_transaction. endpoint_body.
  rewrite ?negb_true_iff, ?bool_decide_eq_false, ?bool_decide_eq_true in *.
  eapply evolves_trans; [|done]. simpl.
  match goal with |- context [set_policies <[_ := {| pw_version := ?v |}]>] =>
    assert (v = policy_version t s + 1) as -> by (unfold policy_version; by destruct (lc_policies s !! t)) end.
  by apply evolves_approve.
Qed.

Lemma create_legal_hold_good fault now p t reason :
  lc_good (create_legal_hold sha256_hex dumps uuid_at fault now p t reason).
Proof.
  unfold create_legal_hold, lc_require_admin, reason_body. apply lc_good_bind; [auto with lifecycle|intros _].
  apply lc_good_bind; [auto with lifecycle|intros _]. apply lc_good_bind; [auto with lifecycle|intros id].
  apply lc_good_transaction. endpoint_body.
  rewrite !andb_true_iff, !bool_decide_eq_true in *. destruct_and!.
  eapply evolves_trans; [|done]. apply evolves_hold; [by split|congruence].
Qed.

Lemma approve_legal_hold_good fault now p t i :
  lc_good (approve_legal_hold sha256_hex dumps uuid_at fault now p t i).
Proof.
  unfold approve_legal_hold, lc_require_admin. apply lc_good_bind; [auto with lifecycle|intros _].
  apply lc_good_transaction. endpoint_body.
  rewrite ?negb_true_iff, ?bool_decide_eq_false, ?bool_decide_eq_true in *.
  eapply evolves_trans; [|done]. apply evolves_hold.
  - split; simpl; [done| |done]. intros _. by exists (ap_subject p).
  - intros h Hh. simplify_eq. split_and!; [done..| |]; congruence.
Qed.

Lemma release_update_evolves now p t i h s a s' :
  release_update sha256_hex dumps uuid_at now p t i h s = (Ok a, s') → evolves s s'.
Proof.
  revert s a s'. unfold release_update. endpoint_body. rewrite ?bool_decide_eq_true in *.
  eapply evolves_trans; [|done]. intros Hinv.
  match goal with Hh : lc_holds s !! _ = Some ?h |- _ => pose proof (lv_holds s Hinv _ _ Hh) as Hok end.
  revert Hinv. apply evolves_hold.
  - destruct Hok as [_ Hd _]. split; simpl; [done| |by eauto]. intros _. apply Hd. congruence.
  - intros h' Hh'. simplify_eq. by split_and!; simpl; [done..|split|congruence].
Qed.

Lemma release_legal_hold_good fault now p t i :
  lc_good (release_legal_hold sha256_hex dumps uuid_at fault now p t i).
Proof.
  unfold release_legal_hold, lc_require_admin. apply lc_good_bind; [auto with lifecycle|intros _].
  apply lc_good_transaction. intros s a s' (h & s1 & Hg & Hu)%bind_Ok.
  unfold release_guard in Hg. run_inv. by eapply release_update_evolves.
Qed.

Lemma create_deletion_request_good fault now p t reason :
  lc_good (create_deletion_request sha256_hex dumps uuid_at fault now p t reason).
Proof.
  unfold create_deletion_request, lc_require_admin, reason_body.
  apply lc_good_bind; [auto with lifecycle|intros _]. apply lc_good_bind; [auto with lifecycle|intros _].
  apply lc_good_bind; [auto with lifecycle|intros id]. apply lc_good_transaction. endpoint_body.
  rewrite !andb_true_iff, !bool_decide_eq_true in *. destruct_and!.
  match goal with Hr : deletion_result _ _ _ = _ |- _ => unfold deletion_result in Hr end. run_inv.
  eapply evolves_trans; [|done]. apply evolves_request; [done|congruence].
Qed.

Lemma get_retention_policy_good fault now p t :
  lc_good (get_retention_policy sha256_hex dumps uuid_at fault now p t).
Proof. unfold get_retention_policy. auto with lifecycle. Qed.
Lemma get_deletion_request_good fault now p t q :
  lc_good (get_deletion_request sha256_hex dumps uuid_at fault now p t q).
Proof. unfold get_deletion_request. auto with lifecycle. Qed.
End Facts.
