(* ===== verification/LifecycleTheorems.v ===== *)
(** * Theorems on the content lifecycle

    Endpoints and deletion workers run in any order, and the planes change at any time;
    a worker that crashes is one that is not scheduled again. *)

From S2P Require Import Prelude PyNum Uuids ExecutionBus AuditChain AdminAccess Interleave ContentLifecycle ContentErasure LifecycleFacts.
Open Scope string_scope.
Open Scope list_scope.
Open Scope Z_scope.

Section Lifecycle.
Context {W : Type} `{!ContentPlanes W} (sha256_hex : string → string) (dumps : json → string).
Context (uuid_at : nat → uuid).
Abbreviation World := (LcWorld W).
Abbreviation WPM A := (PM World ContentError A).
Abbreviation world_inv := (λ w : World, LifecycleInv sha256_hex (w_db w)).
Abbreviation world_guar := (λ w w' : World, lc_guar (w_db w) (w_db w')).
Abbreviation safe := (proc_safe world_inv world_guar world_guar).

(** ** The worker *)
Lemma claim_request_good now t q : lc_good sha256_hex (claim_request now t q).
Proof.
  intros s. unfold claim_request, mbind, ST_mbind, gets, modify. destruct (held t s); simpl.
  { apply evolves_update_request; [by intros r; repeat split|done]. }
  destruct (lc_requests s !! (t, q)); [|apply evolves_refl]. destruct (claimable _ _); [|apply evolves_refl].
  apply evolves_update_request; [by intros r'; repeat split|done].
Qed.

(** What the executor promises about an outcome that is stored. *)
Record outcome_ok (o : DeletionOutcome) : Prop := {
  oo_verified : Forall (λ p, dp_verified p = true) (do_proofs o);
  oo_complete : do_retryable o = false → ∀ b, b ∈ dp_backend <$> do_proofs o;
}.

Lemma upsert_proofs_evolve t q l s u s' :
  Forall (λ p, dp_verified p = true) l → for_each (upsert_proof sha256_hex t q) l s = (Ok u, s') →
  evolves sha256_hex s s' ∧ (∀ b, b ∈ dp_backend <$> l → is_Some (lc_proofs s' !! (t, q, b))) ∧
  (∀ k, is_Some (lc_proofs s !! k) → is_Some (lc_proofs s' !! k)).
Proof.
  intros Hl. revert s. induction Hl as [|p l Hp Hl IH]; intros s Hrun; simpl in Hrun; run_inv.
  { split; [apply evolves_refl|]. split; [by intros b ?%not_elem_of_nil|done]. }
  match goal with Hu : upsert_proof _ _ _ _ _ = _ |- _ => unfold upsert_proof in Hu; run_inv end.
  rewrite andb_true_iff, Z.leb_le in *. destruct_and!.
  edestruct IH as (Hev & Hall & Hkeep); [done|]. split_and!.
  - eapply evolves_trans; [|exact Hev]. apply evolves_proof. split; [done|done|done].
  - intros b. rewrite fmap_cons, elem_of_cons. intros [->|Hb]; [|auto]. apply Hkeep. simpl.
    rewrite lookup_insert_eq. eauto.
  - intros k Hk. apply Hkeep. simpl. destruct (decide (k = (t, q, dp_backend p))) as [->|Hne].
    + rewrite lookup_insert_eq. eauto.
    + by rewrite lookup_insert_ne.
Qed.

Lemma store_outcome_evolves now t q o s b s' :
  outcome_ok o → store_outcome sha256_hex now t q o s = (Ok b, s') → evolves sha256_hex s s'.
Proof.
  intros [Hv Hc] (u & s1 & Hp & Hrun)%bind_Ok.
  destruct (upsert_proofs_evolve t q _ _ _ _ Hv Hp) as (Hev & Hall & _). eapply evolves_trans; [exact Hev|].
  destruct (do_retryable o); run_inv; apply evolves_update_request; try done.
  - intros r. repeat split. simpl. lia.
  - intros r. repeat split. simpl. lia.
  - intros r _. split; [simpl; eauto|]. auto.
Qed.

Abbreviation anything := (λ _ _, True).

Lemma db_step_safe {A} (m : ST LifecycleDb ContentError A) (J : Prop) :
  (J → ∀ s a s', m s = (Ok a, s') → evolves sha256_hex s s') → safe (returns anything) (λ _, J) (db_step m).
Proof.
  intros Hm. unfold db_step. apply returns_step; [|done|done]. intros w Hi Hj. unfold on_db.
  pose proof (lc_good_transaction sha256_hex NoFault DatabaseError m (Hm Hj) (w_db w) Hi) as Hg.
  by destruct (transaction _ _ m (w_db w)) as [r d].
Qed.

Lemma db_step_good {A} (m : ST LifecycleDb ContentError A) J :
  lc_good sha256_hex m → safe (returns anything) J (db_step m).
Proof.
  intros Hm. eapply safe_weaken; [apply (db_step_safe m True)|done].
  intros _ s a s' Hrun. pose proof (Hm s) as Hg. by rewrite Hrun in Hg.
Qed.

(** The planes are not the database. *)
Lemma plane_step_safe {A} (m : ST W ContentError A) J :
  safe (λ _ _, True) J (atomically (on_planes m)).
Proof.
  apply safe_atomically_post; [|done|by intros r s s']. intros w Hi _. unfold on_planes.
  destruct (m (w_planes w)). by split.
Qed.

Definition loop_ok (backends : list ContentBackend) (r : list DeletionProof * option ContentError) (_ : World)
    : Prop :=
  match r.2 with
  | Some (ContentLifecycleError _) => True
  | Some _ => Forall (λ p, dp_verified p = true) r.1
  | None => Forall (λ p, dp_verified p = true) r.1 ∧ dp_backend <$> r.1 = backends
  end.

Lemma erase_backends_safe tenant now backends proofs all J :
  Forall (λ p, dp_verified p = true) proofs → (dp_backend <$> proofs) ++ backends = all →
  safe (loop_ok all) J (erase_backends tenant now backends proofs).
Proof.
  revert proofs J. induction backends as [|b rest IH]; intros proofs J Hv Hall; cbn [erase_backends].
  { constructor. intros w _ _. split; [done|]. simpl. by rewrite app_nil_r in Hall. }
  assert (∀ e J', safe (loop_ok all) J' (Done (proofs, Some e))) as Hfail
    by (intros e J'; constructor; intros w _ _; unfold loop_ok; simpl; by destruct e).
  eapply safe_bind; [apply plane_step_safe|]. intros [count|e]; [|apply Hfail].
  eapply safe_bind; [apply plane_step_safe|]. intros [verified|e]; [|apply Hfail].
  destruct verified; [|by constructor]. apply IH.
  - apply Forall_app. split; [done|]. by apply Forall_singleton.
  - by rewrite fmap_app, <-app_assoc.
Qed.

Section Executor.
Context (keys backends : list ContentBackend) (Hexec : new_executor keys = Ok backends).

Lemma executor_complete b : b ∈ backends.
Proof.
  unfold new_executor in Hexec. destruct (forallb _ _) eqn:Hall; [|done]. injection Hexec as ->.
  rewrite forallb_forall in Hall. apply (bool_decide_eq_true_1 (b ∈ backends)), Hall.
  destruct b; simpl; tauto.
Qed.

Lemma execute_safe tenant now J :
  safe (returns (λ o _, outcome_ok o)) J (execute backends tenant false now).
Proof.
  unfold execute. eapply safe_bind; [by apply (erase_backends_safe _ _ _ _ backends)|].
  intros [proofs [[code| | |]|]]; constructor; intros w _ Hok; simpl in *; try done; try by split.
  destruct Hok as [Hv Hb]. simpl in Hb. split; [done|]. intros _ b. simpl. rewrite Hb. apply executor_complete.
Qed.

Lemma process_safe now t q J : safe (returns anything) J (process sha256_hex backends now t q).
Proof.
  unfold process. eapply returns_bind; [apply db_step_good, claim_request_good|].
  intros [| |]; [by apply returns_ret| |by apply returns_ret].
  eapply (returns_bind _ _ _ _ _ _ (λ o _, outcome_ok o)).
  - apply returns_catch; [apply execute_safe|]. intros [code| | |]; try apply returns_raise.
    apply returns_ret. by split.
  - intros o. apply db_step_safe. intros Ho s b s'. by apply store_outcome_evolves.
Qed.

Lemma count_true_safe {A} (f : A → WPM bool) l J :
  (∀ x J', safe (returns anything) J' (f x)) → safe (returns anything) J (count_true f l).
Proof.
  intros Hf. revert J. induction l as [|x l IH]; intros J; simpl; [by apply returns_ret|].
  eapply returns_bind; [apply Hf|]. intros b. eapply returns_bind; [apply IH|]. intros n. by apply returns_ret.
Qed.
Lemma sum_each_safe {A} (f : A → WPM Z) l J :
  (∀ x J', safe (returns anything) J' (f x)) → safe (returns anything) J (sum_each f l).
Proof.
  intros Hf. revert J. induction l as [|x l IH]; intros J; simpl; [by apply returns_ret|].
  eapply returns_bind; [apply Hf|]. intros b. eapply returns_bind; [apply IH|]. intros n. by apply returns_ret.
Qed.

Lemma run_once_safe now J : safe (returns anything) J (run_once sha256_hex backends now).
Proof.
  unfold run_once. eapply returns_bind; [apply db_step_good, lc_good_gets|]. intros tenants.
  apply sum_each_safe. intros t J'. eapply returns_bind; [apply db_step_good, lc_good_gets|].
  intros l. apply count_true_safe. intros q J''. apply process_safe.
Qed.

(** ** The system *)
Record LcSystem := { sy_world : World; sy_workers : list (WPM Z) }.

Definition on_system (d : LifecycleDb) (s : LcSystem) : LcSystem :=
  {| sy_world := {| w_db := d; w_planes := w_planes (sy_world s) |}; sy_workers := sy_workers s |}.

(** A request to one of the endpoints. *)
Inductive lc_request (d : LifecycleDb) : LifecycleDb → Prop :=
  | rq_propose fault now p t payload :
      lc_request d (propose_retention sha256_hex dumps uuid_at fault now p t payload d).2
  | rq_approve fault now p t i :
      lc_request d (approve_retention sha256_hex dumps uuid_at fault now p t i d).2
  | rq_hold fault now p t reason :
      lc_request d (create_legal_hold sha256_hex dumps uuid_at fault now p t reason d).2
  | rq_approve_hold fault now p t i :
      lc_request d (approve_legal_hold sha256_hex dumps uuid_at fault now p t i d).2
  | rq_release_hold fault now p t i :
      lc_request d (release_legal_hold sha256_hex dumps uuid_at fault now p t i d).2
  | rq_delete fault now p t reason :
      lc_request d (create_deletion_request sha256_hex dumps uuid_at fault now p t reason d).2
  | rq_policy fault now p t :
      lc_request d (get_retention_policy sha256_hex dumps uuid_at fault now p t d).2
  | rq_status fault now p t q :
      lc_request d (get_deletion_request sha256_hex dumps uuid_at fault now p t q d).2.

Inductive lifecycle_step : LcSystem → LcSystem → Prop :=
  | sy_request s d : lc_request (w_db (sy_world s)) d → lifecycle_step s (on_system d s)
  | sy_content s planes :
      lifecycle_step s {| sy_world := {| w_db := w_db (sy_world s); w_planes := planes |};
                          sy_workers := sy_workers s |}
  | sy_start s now :
      lifecycle_step s {| sy_world := sy_world s;
                          sy_workers := sy_workers s ++ [run_once sha256_hex backends now] |}
  | sy_run w l next effect l' :
      lifecycle_step {| sy_world := w; sy_workers := l ++ Step next effect :: l' |}
        {| sy_world := effect w; sy_workers := l ++ next w :: l' |}.

Lemma lc_request_evolves d d' : lc_request d d' → evolves sha256_hex d d'.
Proof.
  intros [].
  - apply propose_retention_good.
  - apply approve_retention_good.
  - apply create_legal_hold_good.
  - apply approve_legal_hold_good.
  - apply release_legal_hold_good.
  - apply create_deletion_request_good.
  - apply get_retention_policy_good.
  - apply get_deletion_request_good.
Qed.

Definition system_ok (s : LcSystem) : Prop :=
  LifecycleInv sha256_hex (w_db (sy_world s)) ∧
  Forall (runs_safely world_inv world_guar world_guar (sy_world s)) (sy_workers s).

Lemma system_interference w w' (l : list (WPM Z)) :
  world_inv w → world_inv w' → world_guar w w' →
  Forall (runs_safely world_inv world_guar world_guar w) l →
  Forall (runs_safely world_inv world_guar world_guar w') l.
Proof. intros. eapply Forall_impl; [done|]. intros p. by apply runs_safely_interference. Qed.

Lemma lifecycle_step_ok s s' :
  lifecycle_step s s' → system_ok s → system_ok s' ∧ lc_guar (w_db (sy_world s)) (w_db (sy_world s')).
Proof.
  intros Hstep [Hi Hl]. destruct Hstep as [s d Hd|s planes|s now|w l next effect l']; simpl in *.
  - destruct (lc_request_evolves _ _ Hd Hi) as [Hi' Hg]. split; [|done]. split; [done|].
    eapply system_interference; [exact Hi| |exact Hg|exact Hl]. done.
  - split; [|done]. split; [done|]. eapply system_interference; [exact Hi| | |exact Hl]; done.
  - split; [|done]. split; [done|]. simpl. apply Forall_app. split; [done|]. apply Forall_singleton.
    exists (λ _, True), (returns anything). split_and!; [done|done|]. apply run_once_safe.
  - apply Forall_app in Hl as [Hl1 [Hp Hl2]%Forall_cons].
    destruct (runs_safely_step _ _ _ w next effect Hi Hp) as (Hi' & Hg & Hp').
    split; [|done]. split; [done|]. simpl. apply Forall_app. split; [|constructor; [done|]];
      eapply system_interference; [exact Hi|exact Hi'|exact Hg|done..|exact Hi|exact Hi'|exact Hg|done].
Qed.

Lemma lifecycle_run_ok s s' :
  rtc lifecycle_step s s' → system_ok s → system_ok s' ∧ lc_guar (w_db (sy_world s)) (w_db (sy_world s')).
Proof.
  induction 1 as [s|s1 s2 s3 Hstep _ IH]; intros Hok; [by split|].
  destruct (lifecycle_step_ok _ _ Hstep Hok) as [Hok' Hg]. destruct (IH Hok') as [? Hg'].
  split; [done|]. by transitivity (w_db (sy_world s2)).
Qed.

(** ** Who decided, and what a finished deletion has to show *)

(** Empty tables: nothing was decided yet. *)
Definition fresh_db (admin : AdminDb) : LifecycleDb :=
  {| lc_admin := admin; lc_policies := ∅; lc_changes := ∅; lc_holds := ∅; lc_requests := ∅; lc_proofs := ∅;
     lc_next_id := 0 |}.
Definition fresh_system (admin : AdminDb) (planes : W) : LcSystem :=
  {| sy_world := {| w_db := fresh_db admin; w_planes := planes |}; sy_workers := [] |}.

Lemma fresh_ok admin planes : system_ok (fresh_system admin planes).
Proof. split; [|constructor]. by split. Qed.

Lemma lifecycle_inv_reached admin planes s :
  rtc lifecycle_step (fresh_system admin planes) s → LifecycleInv sha256_hex (w_db (sy_world s)).
Proof. intros Hs. by destruct (lifecycle_run_ok _ _ Hs (fresh_ok admin planes)) as [[? _] _]. Qed.


(** C33: However requests, workers and faults interleave, a deletion request that says
    COMPLETED has a completion time and a stored proof for each of the six backends,
    each verified, with a count that is not negative and the digest of its own
    content; proofs never disappear. *)
Theorem completed_deletions_are_proved admin planes s :
  rtc lifecycle_step (fresh_system admin planes) s →
  let d := w_db (sy_world s) in
  (∀ t q r, lc_requests d !! (t, q) = Some r → dl_status r = DL_COMPLETED →
    is_Some (dl_completed_at r) ∧
    ∀ b, ∃ p, lc_proofs d !! (t, q, b) = Some p ∧ pf_verified p = true ∧ 0 ≤ pf_deleted_count p ∧
      pf_evidence_digest p =
        sha256_hex (evidence_text q b (pf_deleted_count p) (pf_verified p) (pf_completed_at p))) ∧
  ∀ s' k, rtc lifecycle_step s s' → is_Some (lc_proofs d !! k) →
    is_Some (lc_proofs (w_db (sy_world s')) !! k).
Proof.
  intros Hs d. pose proof (lifecycle_inv_reached _ _ _ Hs) as Hinv. fold d in Hinv. destruct Hinv as [_ _ _ _ _ Pf Co]. split.
  - intros t q r Hr Hst. destruct (Co t q r Hr Hst) as [? Hall]. split; [done|].
    intros b. destruct (Hall b) as [p Hp]. exists p. split; [done|]. by destruct (Pf _ _ _ _ Hp).
  - intros s' k Hs'. destruct (lifecycle_run_ok _ _ Hs (fresh_ok admin planes)) as [Hok _].
    destruct (lifecycle_run_ok _ _ Hs' Hok) as [_ [_ _ _ Hp]]. apply Hp.
Qed.
End Executor.
End Lifecycle.
