(* ===== verification/ErasureTheorems.v ===== *)
(** * A deletion, from its request to the empty planes

    Every branch of [process], and a run of the worker over planes that work.  The
    planes promise that a verification that answers yes found nothing of the tenant,
    and that neither operation brings content back. *)

From S2P Require Import Prelude PyNum Uuids Interleave ExecutionBus AuditChain AdminAccess ContentLifecycle ContentErasure RetentionSweep LifecycleFacts LifecycleTheorems.
Open Scope string_scope.
Open Scope list_scope.
Open Scope Z_scope.

(** What [ErasableContentBackend] means. *)
Class ErasingPlanes (W : Type) `{!ContentPlanes W} := {
  plane_holds : ContentBackend → string → W → Prop;
  verify_sound b t w w' : plane_verify b t w = (Ok true, w') → ¬ plane_holds b t w';
  erase_adds_nothing b t w r w' b' t' :
    plane_erase b t w = (r, w') → ¬ plane_holds b' t' w → ¬ plane_holds b' t' w';
  verify_adds_nothing b t w r w' b' t' :
    plane_verify b t w = (r, w') → ¬ plane_holds b' t' w → ¬ plane_holds b' t' w';
}.

Section Erasure.
Context {W : Type} `{!ContentPlanes W} (sha256_hex : string → string).
Abbreviation World := (LcWorld W).

Lemma run_db_step {A} (m : ST LifecycleDb ContentError A) (w : World) :
  run_proc (db_step m) w = on_db (transaction NoFault DatabaseError m) w.
Proof. unfold db_step. simpl. by destruct (on_db _ w). Qed.

(** ** The executor *)
Lemma erase_backends_frame tenant now backends proofs (w : World) r w' :
  run_proc (erase_backends tenant now backends proofs) w = (r, w') → w_db w' = w_db w.
Proof.
  revert proofs w. induction backends as [|b rest IH]; intros proofs w Hrun; cbn [erase_backends] in Hrun.
  { by simplify_eq/=. }
  simpl in Hrun. unfold on_planes in Hrun.
  destruct (plane_erase b tenant (w_planes w)) as [[n|e] w1]; simpl in Hrun; [|by simplify_eq].
  destruct (plane_verify b tenant w1) as [[[]|e] w2]; simpl in Hrun; [|by simplify_eq..].
  apply IH in Hrun. done.
Qed.

Lemma erase_backends_done tenant now backends proofs (w : World) proofs' w' :
  run_proc (erase_backends tenant now backends proofs) w = ((proofs', None), w') →
  ∃ new, proofs' = proofs ++ new ∧ dp_backend <$> new = backends ∧
    Forall (λ p, dp_verified p = true ∧ dp_completed_at p = now) new.
Proof.
  revert proofs w. induction backends as [|b rest IH]; intros proofs w Hrun; cbn [erase_backends] in Hrun.
  { simplify_eq/=. exists []. by rewrite app_nil_r. }
  simpl in Hrun. unfold on_planes in Hrun.
  destruct (plane_erase b tenant (w_planes w)) as [[n|e] w1]; simpl in Hrun; [|by simplify_eq].
  destruct (plane_verify b tenant w1) as [[[]|e] w2]; simpl in Hrun; [|by simplify_eq..].
  apply IH in Hrun as (new & -> & <- & Hnew). rewrite <-app_assoc. eexists (_ :: new).
  split_and!; [done|done|by constructor].
Qed.

Lemma erase_backends_empty `{!ErasingPlanes W} tenant now backends proofs (w : World) proofs' err w' :
  run_proc (erase_backends tenant now backends proofs) w = ((proofs', err), w') →
  (∀ b, ¬ plane_holds b tenant (w_planes w) → ¬ plane_holds b tenant (w_planes w')) ∧
  (err = None → ∀ b, b ∈ backends → ¬ plane_holds b tenant (w_planes w')).
Proof.
  revert proofs w. induction backends as [|b rest IH]; intros proofs w Hrun; cbn [erase_backends] in Hrun.
  { simplify_eq/=. split; [done|]. by intros _ b ?%not_elem_of_nil. }
  simpl in Hrun. unfold on_planes in Hrun.
  destruct (plane_erase b tenant (w_planes w)) as [[n|e] w1] eqn:He; simpl in Hrun.
  2: { simplify_eq/=. split; [|done]. eauto using erase_adds_nothing. }
  destruct (plane_verify b tenant w1) as [[[]|e] w2] eqn:Hv; simpl in Hrun;
    [|by simplify_eq/=; split; [eauto using erase_adds_nothing, verify_adds_nothing|]..].
  apply IH in Hrun as [Hkeep Hall]. simpl in Hkeep. split.
  - intros b' Hb'. apply Hkeep. eauto using erase_adds_nothing, verify_adds_nothing.
  - intros Herr b' [->|Hb']%elem_of_cons; [|by apply Hall]. apply Hkeep. by eapply verify_sound.
Qed.

(** What [process] gets back from the executor. *)
Lemma executed_outcome backends t now (w : World) r w' :
  run_proc (pm_catch (execute backends (uuid_text t) false now) (λ e,
    match e with ContentLifecycleError code => pm_ret (failed_outcome now code) | _ => pm_raise e end)) w = (r, w') →
  ∃ proofs err, run_proc (erase_backends (uuid_text t) now backends []) w = ((proofs, err), w') ∧
    ∃ o, r = Ok o ∧ (do_retryable o = false ↔ err = None) ∧ (err = None → do_proofs o = proofs) ∧
      (do_retryable o = true → do_next_attempt_at o = Some (now + RETRY_DELAY)).
Proof.
  unfold pm_catch, execute. rewrite run_proc_bind, run_proc_bind. intros Hrun.
  destruct (run_proc (erase_backends _ _ _ _) w) as [[proofs err] w1] eqn:Hl. exists proofs, err. simpl in Hrun.
  destruct err as [[code| | |]|]; simpl in Hrun; simplify_eq; (split; [done|]); eexists; split_and!; done.
Qed.

(** ** The transactions *)

(** Nothing but deletion rows and proofs changes. *)
Definition same_but_deletions (s s' : LifecycleDb) : Prop :=
  lc_admin s' = lc_admin s ∧ lc_policies s' = lc_policies s ∧ lc_changes s' = lc_changes s ∧
  lc_holds s' = lc_holds s.

Lemma same_but_refl s : same_but_deletions s s.
Proof. done. Qed.
Lemma same_but_trans s1 s2 s3 : same_but_deletions s1 s2 → same_but_deletions s2 s3 → same_but_deletions s1 s3.
Proof. unfold same_but_deletions. intuition congruence. Qed.
Lemma same_but_held s s' t : same_but_deletions s s' → held t s' = held t s.
Proof. intros (_ & _ & _ & Hh). unfold held, holds_of. by rewrite Hh. Qed.

Lemma upsert_proofs_run t q l s u s' :
  for_each (upsert_proof sha256_hex t q) l s = (Ok u, s') →
  lc_requests s' = lc_requests s ∧ same_but_deletions s s' ∧
  (∀ b, b ∉ dp_backend <$> l → lc_proofs s' !! (t, q, b) = lc_proofs s !! (t, q, b)) ∧
  ∀ b, b ∈ dp_backend <$> l →
    ∃ p, p ∈ l ∧ dp_backend p = b ∧ lc_proofs s' !! (t, q, b) = Some (proof_row sha256_hex q p).
Proof.
  revert s. induction l as [|p l IH]; intros s Hrun; simpl in Hrun; run_inv.
  { split_and!; [done..|]. by intros b ?%not_elem_of_nil. }
  match goal with Hu : upsert_proof _ _ _ _ _ = _ |- _ => unfold upsert_proof in Hu; run_inv end.
  edestruct IH as (Hr & Hs & Hout & Hin); [done|]. split_and!; [done|by apply Hs..| |].
  - intros b. rewrite fmap_cons, not_elem_of_cons. intros [Hne Hb]. rewrite Hout by done. simpl.
    by rewrite lookup_insert_ne by congruence.
  - intros b. rewrite fmap_cons, elem_of_cons. destruct (decide (b ∈ dp_backend <$> l)) as [Hb|Hb]; intros Hor.
    + destruct (Hin b Hb) as (p' & ? & ? & ?). exists p'. by rewrite elem_of_cons; auto.
    + destruct Hor as [->|]; [|done]. exists p. rewrite Hout by done. simpl. rewrite lookup_insert_eq.
      split_and!; [by left|done|done].
Qed.

(** The final row of a deletion. *)
Definition settled_row (now : instant) (o : DeletionOutcome) : DeletionRow → DeletionRow :=
  if do_retryable o then
    retryable_request (default (now + RETRY_DELAY) (do_next_attempt_at o))
      (default "DELETION_BACKEND_RETRYABLE" (do_error_code o))
  else completed_request now.

Lemma store_outcome_run now t q o s r s' :
  transaction NoFault DatabaseError (store_outcome sha256_hex now t q o) s = (r, s') →
  match r with
  | Raise _ => s' = s
  | Ok b => b = negb (do_retryable o) ∧ lc_requests s' = alter (settled_row now o) (t, q) (lc_requests s) ∧
      same_but_deletions s s' ∧
      ∀ b, b ∈ dp_backend <$> do_proofs o →
        ∃ p, p ∈ do_proofs o ∧ dp_backend p = b ∧ lc_proofs s' !! (t, q, b) = Some (proof_row sha256_hex q p)
  end.
Proof.
  destruct r as [b|e]; [|by apply transaction_rollback].
  intros [_ Hrun]%transaction_Ok. unfold store_outcome in Hrun. apply bind_Ok in Hrun as (u & s1 & Hp & Hrun).
  apply upsert_proofs_run in Hp as (Hr & Hs & _ & Hin).
  unfold settled_row. destruct (do_retryable o); run_inv; simpl; rewrite Hr; (split_and!; [done|done|by apply Hs..|done]).
Qed.

Lemma claim_request_run now t q s :
  transaction NoFault DatabaseError (claim_request now t q) s =
    if held t s then (Ok ClaimBlocked, update_request t q blocked_request s)
    else match lc_requests s !! (t, q) with
         | Some x => if claimable now x then (Ok ClaimTaken, update_request t q (claimed_request now) s)
                     else (Ok ClaimLost, s)
         | None => (Ok ClaimLost, s)
         end.
Proof.
  unfold transaction, claim_request, mbind, ST_mbind, gets, modify. destruct (held t s); [done|].
  destruct (lc_requests s !! (t, q)); [|done]. by destruct (claimable now _).
Qed.

(** ** Every branch of [process] *)
Section Branches.
Context `{!ErasingPlanes W} (keys backends : list ContentBackend) (Hexec : new_executor keys = Ok backends).

(** What one call of [process] leaves behind when nothing runs in between.  [True]:
    the tenant was not held, the request was claimed, no plane holds anything of the
    tenant, each backend has a verified proof of this attempt and the request is
    COMPLETED.  [False]: the tenant is held, no plane was touched and the request is
    BLOCKED_LEGAL_HOLD; or the request could not be claimed and nothing changed; or the
    attempt failed and the request is retried five minutes later.  An exception leaves
    the claimed request for the next worker. *)
Theorem process_on_every_branch now t q (w : World) r w' :
  run_proc (process sha256_hex backends now t q) w = (r, w') →
  same_but_deletions (w_db w) (w_db w') ∧
  match r with
  | Ok true =>
      held t (w_db w) = false ∧
      (∀ b, ¬ plane_holds b (uuid_text t) (w_planes w')) ∧
      (∀ b, ∃ p, lc_proofs (w_db w') !! (t, q, b) = Some p ∧ pf_verified p = true ∧ pf_completed_at p = now) ∧
      ∃ x, lc_requests (w_db w) !! (t, q) = Some x ∧ claimable now x = true ∧
        lc_requests (w_db w') !! (t, q) = Some (completed_request now (claimed_request now x))
  | Ok false =>
      (held t (w_db w) = true ∧ w_planes w' = w_planes w ∧
        lc_requests (w_db w') !! (t, q) = blocked_request <$> lc_requests (w_db w) !! (t, q)) ∨
      (held t (w_db w) = false ∧ w' = w ∧
        ∀ x, lc_requests (w_db w) !! (t, q) = Some x → claimable now x = false) ∨
      (held t (w_db w) = false ∧ ∃ x code, lc_requests (w_db w) !! (t, q) = Some x ∧ claimable now x = true ∧
        lc_requests (w_db w') !! (t, q) =
          Some (retryable_request (now + RETRY_DELAY) code (claimed_request now x)))
  | Raise _ =>
      held t (w_db w) = false ∧
      ∃ x, lc_requests (w_db w) !! (t, q) = Some x ∧ claimable now x = true ∧
        lc_requests (w_db w') !! (t, q) = Some (claimed_request now x)
  end.
Proof.
  unfold process, db_step at 1. rewrite run_atomically. unfold on_db at 1. rewrite claim_request_run.
  destruct (held t (w_db w)) eqn:Hheld.
  { intros [= <- <-]. split; [done|]. left. split_and!; [done|done|]. simpl. by rewrite lookup_alter_eq. }
  destruct (lc_requests (w_db w) !! (t, q)) as [x|] eqn:Hx.
  2: { intros [= <- <-]. split; [done|]. right. left. by destruct w. }
  destruct (claimable now x) eqn:Hc.
  2: { intros [= <- <-]. split; [done|]. right. left. split_and!; [done|by destruct w|]. congruence. }
  rewrite run_pm_bind. set (w1 := Build_LcWorld _ _).
  destruct (run_proc (pm_catch _ _) w1) as [r1 w2] eqn:Hexe.
  apply executed_outcome in Hexe as (proofs & err & Hl & o & -> & Hret & Hpf & Hnext).
  pose proof (erase_backends_frame _ _ _ _ _ _ _ Hl) as Hdb.
  rewrite run_db_step. unfold on_db.
  destruct (transaction NoFault DatabaseError _ (w_db w2)) as [r2 d] eqn:Hst. intros [= <- <-].
  assert (lc_requests (w_db w2) !! (t, q) = Some (claimed_request now x)) as Hx2.
  { rewrite Hdb. simpl. by rewrite lookup_alter_eq, Hx. }
  assert (same_but_deletions (w_db w) (w_db w2)) as Hs2 by (by rewrite Hdb).
  apply store_outcome_run in Hst. destruct r2 as [b|e].
  2: { subst d. split; [done|]. eauto 10. }
  destruct Hst as (-> & Hreq & Hsame & Hproofs). split; [by eapply same_but_trans|]. simpl.
  assert (lc_requests d !! (t, q) = Some (settled_row now o (claimed_request now x))) as Hfin.
  { by rewrite Hreq, lookup_alter_eq, Hx2. }
  unfold settled_row in Hfin. destruct (do_retryable o) eqn:Hr; simpl.
  { right. right. split; [done|]. rewrite (Hnext eq_refl) in Hfin. simpl in Hfin. eauto 10. }
  assert (err = None) as -> by tauto. rewrite (Hpf eq_refl) in Hproofs.
  apply erase_backends_empty in Hl as Hempty. destruct Hempty as [_ Hempty].
  apply erase_backends_done in Hl as (new & -> & Hb & Hnew). simpl in *.
  split_and!; [done| | |by eauto 10].
  - intros b. apply Hempty; [done|]. by apply (executor_complete keys).
  - intros b. destruct (Hproofs b) as (p & Hp & _ & ->).
    { rewrite Hb. by apply (executor_complete keys). }
    rewrite Forall_forall in Hnew. destruct (Hnew p Hp) as [??]. by eexists.
Qed.
End Branches.

(** ** A run of the worker over planes that work *)
Definition planes_work : Prop :=
  ∀ b t (p : W), ∃ n p1 p2, plane_erase b t p = (Ok n, p1) ∧ 0 ≤ n ∧ plane_verify b t p1 = (Ok true, p2).

Section Working.
Context (Hwork : planes_work) (backends : list ContentBackend) (now : instant).

Lemma erase_backends_work tenant bs proofs (w : World) :
  Forall (λ p, 0 ≤ dp_deleted_count p) proofs →
  ∃ proofs' p', run_proc (erase_backends tenant now bs proofs) w =
      ((proofs', None), {| w_db := w_db w; w_planes := p' |}) ∧ Forall (λ p, 0 ≤ dp_deleted_count p) proofs'.
Proof.
  revert proofs w. induction bs as [|b rest IH]; intros proofs w Hp; cbn [erase_backends].
  { exists proofs, (w_planes w). by destruct w. }
  destruct (Hwork b tenant (w_planes w)) as (n & p1 & p2 & He & Hn & Hv).
  simpl. unfold on_planes. rewrite He. simpl. rewrite Hv. simpl.
  apply (IH _ (Build_LcWorld (w_db w) p2)). apply Forall_app.
  split; [done|]. by apply Forall_singleton.
Qed.

Lemma upsert_proofs_accepted t q l s :
  is_Some (lc_requests s !! (t, q)) → Forall (λ p, 0 ≤ dp_deleted_count p) l →
  ∃ s', for_each (upsert_proof sha256_hex t q) l s = (Ok tt, s').
Proof.
  intros Hq Hl. revert s Hq. induction Hl as [|p l Hp _ IH]; intros s Hq; simpl; [by eexists|].
  edestruct (IH (set_proofs <[(t, q, dp_backend p) := proof_row sha256_hex q p]> s)) as [s' Hs']; [done|].
  exists s'. erewrite bind_run; [exact Hs'|]. unfold upsert_proof.
  unfold mbind, ST_mbind, gets, ensure, modify. rewrite bool_decide_eq_true_2 by done.
  by rewrite (proj2 (Z.leb_le _ _) Hp).
Qed.

(** What a call makes of a due request. *)
Definition processed (on_hold : bool) (x : DeletionRow) : DeletionRow :=
  if on_hold then blocked_request x else completed_request now (claimed_request now x).

Lemma due_claimable x : is_due now x = true → claimable now x = true.
Proof. unfold is_due, claimable. by destruct (dl_status x). Qed.

Lemma process_works t q x (w : World) :
  lc_requests (w_db w) !! (t, q) = Some x → is_due now x = true →
  ∃ w', run_proc (process sha256_hex backends now t q) w = (Ok (negb (held t (w_db w))), w') ∧
    same_but_deletions (w_db w) (w_db w') ∧
    lc_requests (w_db w') = <[(t, q) := processed (held t (w_db w)) x]> (lc_requests (w_db w)).
Proof.
  intros Hx Hdue%due_claimable. unfold process, db_step at 1. rewrite run_atomically. unfold on_db at 1.
  rewrite claim_request_run. destruct (held t (w_db w)) eqn:Hheld.
  { eexists. split_and!; [done..|]. simpl. unfold processed. apply map_eq. intros k.
    destruct (decide (k = (t, q))) as [->|Hk].
    - by rewrite lookup_alter_eq, lookup_insert_eq, Hx.
    - by rewrite lookup_alter_ne, lookup_insert_ne. }
  rewrite Hx, Hdue, run_pm_bind. set (w1 := Build_LcWorld _ _).
  destruct (run_proc (pm_catch _ _) w1) as [r1 w2] eqn:Hexe.
  apply executed_outcome in Hexe as (proofs & err & Hl & o & -> & Hret & Hpf & _).
  destruct (erase_backends_work (uuid_text t) backends [] w1) as (proofs' & p' & Hl' & Hcount); [done|].
  rewrite Hl' in Hl. injection Hl as <- <- <-. rewrite run_db_step. unfold on_db.
  assert (do_retryable o = false) as Hr by tauto.
  destruct (transaction NoFault DatabaseError _ _) as [r2 d] eqn:Hst.
  assert (∃ b, r2 = Ok b) as [b ->].
  { destruct (upsert_proofs_accepted t q (do_proofs o) (w_db w1)) as [s' Hs'].
    - simpl. rewrite lookup_alter_eq, Hx. by eexists.
    - by rewrite Hpf.
    - unfold transaction, store_outcome, mbind, ST_mbind in Hst. simpl in Hst, Hs'. rewrite Hs', Hr in Hst.
      unfold modify in Hst. injection Hst as <- _. by eexists. }
  apply store_outcome_run in Hst as (-> & Hreq & Hsame & _). rewrite Hr. eexists. split_and!; [done|by apply Hsame..|].
  simpl. rewrite Hreq. unfold settled_row, processed. rewrite Hr. simpl. apply map_eq. intros k.
  destruct (decide (k = (t, q))) as [->|Hk].
  - by rewrite !lookup_alter_eq, lookup_insert_eq, Hx.
  - by rewrite !lookup_alter_ne, lookup_insert_ne.
Qed.

(** The requests of one tenant. *)
Lemma process_each_works t l (w : World) :
  NoDup l → (∀ q, q ∈ l → ∃ x, lc_requests (w_db w) !! (t, q) = Some x ∧ is_due now x = true) →
  ∃ w', run_proc (count_true (process sha256_hex backends now t) l) w =
      (Ok (if held t (w_db w) then 0 else Z.of_nat (length l)), w') ∧
    same_but_deletions (w_db w) (w_db w') ∧
    ∀ k, lc_requests (w_db w') !! k =
      (if bool_decide (k.1 = t ∧ k.2 ∈ l) then processed (held t (w_db w)) else id) <$> lc_requests (w_db w) !! k.
Proof.
  revert w. induction l as [|q l IH]; intros w Hnd Hdue; cbn [count_true].
  { exists w. split_and!; [by destruct (held _ _)|done..|]. intros k.
    rewrite bool_decide_eq_false_2 by (intros [_ ?]; set_solver). by rewrite option_fmap_id. }
  apply NoDup_cons in Hnd as [Hq Hnd].
  destruct (Hdue q) as (x & Hx & Hd); [by left|].
  destruct (process_works t q x w Hx Hd) as (w1 & Hrun & Hs1 & Hr1).
  destruct (IH w1 Hnd) as (w2 & Hrun2 & Hs2 & Hr2).
  { intros q' Hq'. rewrite Hr1, lookup_insert_ne by (intros [= ->]; done). apply Hdue. by right. }
  rewrite (same_but_held _ _ t Hs1) in Hrun2, Hr2.
  exists w2. split_and!; [|by eapply same_but_trans..|].
  - rewrite run_pm_bind, Hrun, run_pm_bind, Hrun2. destruct (held t (w_db w)); simpl; [done|].
    do 2 f_equal. lia.
  - intros k. rewrite Hr2, Hr1. destruct (decide (k = (t, q))) as [->|Hk].
    + rewrite lookup_insert_eq, bool_decide_eq_false_2 by (simpl; tauto).
      by rewrite bool_decide_eq_true_2, Hx by (simpl; set_solver).
    + rewrite lookup_insert_ne by done. f_equal.
      assert (k.1 = t ∧ k.2 ∈ l ↔ k.1 = t ∧ k.2 ∈ q :: l) as Hiff.
      { rewrite elem_of_cons. split; [tauto|]. intros [Hk1 [Hk2|?]]; [|tauto]. destruct Hk. by destruct k; simpl in *; subst. }
      by rewrite (bool_decide_ext _ _ Hiff).
Qed.

(** The requests a run selects. *)
Lemma elem_of_due t s q :
  q ∈ due_requests now t s ↔ ∃ x, lc_requests s !! (t, q) = Some x ∧ is_due now x = true.
Proof.
  unfold due_requests. rewrite list_elem_of_fmap. split.
  - intros ([[u i] x] & -> & Hin). rewrite sort_on_perm, list_elem_of_filter, elem_of_map_to_list in Hin.
    simpl in *. destruct Hin as [[-> ?] ?]. eauto.
  - intros (x & Hx & Hd). exists ((t, q), x). split; [done|].
    by rewrite sort_on_perm, list_elem_of_filter, elem_of_map_to_list.
Qed.

Lemma NoDup_due t s : NoDup (due_requests now t s).
Proof.
  unfold due_requests. rewrite sort_on_perm. apply NoDup_fmap_2_strong.
  - intros [[u i] x] [[u' i'] x'] Hin Hin' Heq. simpl in Heq. subst i'.
    apply list_elem_of_filter in Hin as [[Hu _] Hin], Hin' as [[Hu' _] Hin']. simpl in *. subst u u'.
    apply elem_of_map_to_list in Hin, Hin'. by simplify_eq.
  - apply NoDup_filter, NoDup_map_to_list.
Qed.

Lemma due_length_same t s s' :
  (∀ q, lc_requests s' !! (t, q) = lc_requests s !! (t, q)) →
  length (due_requests now t s') = length (due_requests now t s).
Proof.
  intros Hq. apply Permutation_length, NoDup_Permutation; [apply NoDup_due..|].
  intros q. rewrite !elem_of_due. by rewrite Hq.
Qed.

Lemma Zsum_same {A} (f g : A → Z) l : (∀ x, x ∈ l → f x = g x) → Zsum f l = Zsum g l.
Proof.
  induction l as [|x l IH]; intros Hfg; [done|]. unfold Zsum in *. simpl. rewrite (Hfg x) by (by left).
  f_equal. apply IH. intros y Hy. apply Hfg. by right.
Qed.

(** Requests completed for a tenant, and the row a run leaves. *)
Definition completions (s : LifecycleDb) (t : uuid) : Z :=
  if held t s then 0 else Z.of_nat (length (due_requests now t s)).
Definition after_run (tenants : list uuid) (s : LifecycleDb) (t : uuid) (x : DeletionRow) : DeletionRow :=
  if bool_decide (t ∈ tenants) && is_due now x then processed (held t s) x else x.

Lemma tenants_work tenants (w : World) :
  NoDup tenants →
  ∃ w', run_proc (sum_each (λ t, requests <-- db_step (gets (due_requests now t));
                    count_true (process sha256_hex backends now t) requests) tenants) w =
      (Ok (Zsum (completions (w_db w)) tenants), w') ∧
    same_but_deletions (w_db w) (w_db w') ∧
    ∀ k, lc_requests (w_db w') !! k = after_run tenants (w_db w) k.1 <$> lc_requests (w_db w) !! k.
Proof.
  revert w. induction tenants as [|t l IH]; intros w Hnd; cbn [sum_each].
  { exists w. split_and!; [done..|]. intros k. unfold after_run. rewrite bool_decide_eq_false_2 by set_solver. simpl.
    by rewrite option_fmap_id. }
  apply NoDup_cons in Hnd as [Ht Hnd].
  destruct (process_each_works t (due_requests now t (w_db w)) w) as (w1 & Hrun & Hs1 & Hr1);
    [apply NoDup_due|by intros q; apply elem_of_due|].
  destruct (IH w1 Hnd) as (w2 & Hrun2 & Hs2 & Hr2).
  assert (∀ u, held u (w_db w1) = held u (w_db w)) as Hheld by (intros u; by apply same_but_held).
  assert (∀ k, k.1 ≠ t → lc_requests (w_db w1) !! k = lc_requests (w_db w) !! k) as Hother.
  { intros k Hk. rewrite Hr1, bool_decide_eq_false_2 by tauto. by rewrite option_fmap_id. }
  exists w2. split_and!; [|by eapply same_but_trans..|].
  - rewrite run_pm_bind.
    assert (run_proc (requests <-- db_step (gets (due_requests now t));
      count_true (process sha256_hex backends now t) requests) w = (Ok (completions (w_db w) t), w1)) as ->.
    { rewrite run_pm_bind, run_db_step. unfold on_db, transaction, gets.
      assert (Build_LcWorld (w_db w) (w_planes w) = w) as -> by by destruct w. by rewrite Hrun. }
    rewrite run_pm_bind, Hrun2. simpl. do 2 f_equal. f_equal. apply Zsum_same. intros u Hu.
    unfold completions. rewrite Hheld. destruct (held u (w_db w)); [done|]. f_equal. apply due_length_same.
    intros q. apply Hother. simpl. by intros ->.
  - intros k. rewrite Hr2. unfold after_run. rewrite Hheld. destruct (decide (k.1 = t)) as [Hk|Hk].
    + rewrite Hr1, Hk. rewrite (bool_decide_eq_false_2 (t ∈ l)), (bool_decide_eq_true_2 (t ∈ t :: l)) by set_solver.
      destruct (lc_requests (w_db w) !! k) as [x|] eqn:Hx; [|done]. simpl. f_equal.
      assert (k.2 ∈ due_requests now t (w_db w) ↔ is_due now x = true) as Hd.
      { rewrite elem_of_due. destruct k as [u q]. simpl in *. subst u. rewrite Hx. naive_solver. }
      destruct (is_due now x); case_bool_decide; simpl; naive_solver.
    + rewrite Hother by done. destruct (lc_requests (w_db w) !! k); [|done]. simpl. f_equal.
      rewrite (bool_decide_ext (k.1 ∈ t :: l) (k.1 ∈ l)); [done|]. set_solver.
Qed.

(** One run of the worker, alone, over planes that work (an erasure succeeds and is
    then verified): it returns the number of due requests of the tenants that are not
    held.  Afterwards each due request of such a tenant is COMPLETED at this time, each
    due request of a held tenant is BLOCKED_LEGAL_HOLD, and every other request keeps
    its row; policies, holds and changes stay as they are. *)
Theorem due_requests_complete (w : World) :
  ∃ w', run_proc (run_once sha256_hex backends now) w =
      (Ok (Zsum (completions (w_db w)) (all_tenants (w_db w))), w') ∧
    same_but_deletions (w_db w) (w_db w') ∧
    ∀ t q, lc_requests (w_db w') !! (t, q) =
      (λ x, if bool_decide (t ∈ ad_tenants (lc_admin (w_db w))) && is_due now x
            then if held t (w_db w) then blocked_request x else completed_request now (claimed_request now x)
            else x) <$> lc_requests (w_db w) !! (t, q).
Proof.
  destruct (tenants_work (all_tenants (w_db w)) w) as (w' & Hrun & Hs & Hr).
  { unfold all_tenants. apply NoDup_elements. }
  exists w'. split_and!; [|by apply Hs..|].
  - unfold run_once. rewrite run_pm_bind, run_db_step. unfold on_db, transaction, gets.
    assert (Build_LcWorld (w_db w) (w_planes w) = w) as -> by by destruct w. exact Hrun.
  - intros t q. rewrite Hr. unfold after_run. simpl. destruct (lc_requests _ !! _); [|done]. simpl. f_equal.
    by rewrite (bool_decide_ext (t ∈ all_tenants (w_db w)) (t ∈ ad_tenants (lc_admin (w_db w))))
      by (unfold all_tenants; apply elem_of_elements).
Qed.
End Working.
End Erasure.

(** ** A tenant's content, from policy to erasure

    Sample planes and a run of the endpoints and the worker on them: witnesses of the
    theorems on the content lifecycle, and four runs of the code that its contract
    does not foresee. *)

(** ** Planes that remember which tenants they hold *)
Abbreviation SamplePlanes := (gset (ContentBackend * string)).

#[export] Instance sample_planes : ContentPlanes SamplePlanes := {
  plane_erase b t := λ p, (Ok (if bool_decide ((b, t) ∈ p) then 1 else 0), p ∖ {[(b, t)]});
  plane_verify b t := λ p, (Ok (negb (bool_decide ((b, t) ∈ p))), p);
}.

#[export, refine] Instance sample_planes_erase : ErasingPlanes SamplePlanes := {
  plane_holds b t p := (b, t) ∈ p;
}.
Proof.
  - intros b t w w'. simpl. intros [= Hv <-]. by apply negb_true_iff, bool_decide_eq_false in Hv.
  - intros b t w r w' b' t'. simpl. intros [= _ <-]. set_solver.
  - intros b t w r w' b' t'. simpl. by intros [= _ <-].
Defined.

Lemma sample_planes_work : planes_work (W := SamplePlanes).
Proof.
  intros b t p. simpl. eexists _, _, _. split; [done|]. split; [by case_bool_decide|].
  rewrite bool_decide_eq_false_2 by set_solver. done.
Qed.

(** ** People, tenant and stand-ins *)
Definition person (name : string) : AdminPrincipal :=
  {| ap_subject := name; ap_auth_method := "emergency"; ap_roles := ["PLATFORM_ADMIN"] |}.
Definition lc_sha (s : string) : string := s.
Definition lc_dumps (_ : json) : string := "".
Definition lc_ids (n : nat) : uuid := Z.of_nat n + 100.
Definition lc_tenant : uuid := 7.

Definition lc_admin_db : AdminDb :=
  {| ad_tenants := {[lc_tenant]}; ad_members := []; ad_idempotency := ∅;
     ad_audit := {| au_events := []; au_chain := ∅; au_outbox := []; au_manifests := []; au_worm := [];
                    au_next_id := 0 |} |}.
Definition lc_planes : SamplePlanes :=
  list_to_set ((λ b, (b, uuid_text lc_tenant)) <$> CONTENT_BACKENDS).

Definition strict_policy : RetentionPolicy :=
  {| rp_inbound_payload_days := 1; rp_session_days := 30; rp_memory_days := 30; rp_artifact_days := 1;
     rp_idempotency_tombstone_days := 30; rp_audit_days := 90; rp_backup_days := 1 |}.

(** The requests: [i] is the identifier the row got. *)
Definition propose_ (d : LifecycleDb) : LifecycleDb :=
  (propose_retention lc_sha lc_dumps lc_ids NoFault 1 (person "alice") lc_tenant strict_policy d).2.
Definition approve_ (who : string) (i : uuid) (d : LifecycleDb) : LifecycleDb :=
  (approve_retention lc_sha lc_dumps lc_ids NoFault 2 (person who) lc_tenant i d).2.
Definition hold_ (d : LifecycleDb) : LifecycleDb :=
  (create_legal_hold lc_sha lc_dumps lc_ids NoFault 3 (person "alice") lc_tenant "matter-42" d).2.
Definition approve_hold_ (who : string) (i : uuid) (d : LifecycleDb) : LifecycleDb :=
  (approve_legal_hold lc_sha lc_dumps lc_ids NoFault 4 (person who) lc_tenant i d).2.
Definition release_hold_ (who : string) (i : uuid) (d : LifecycleDb) : LifecycleDb :=
  (release_legal_hold lc_sha lc_dumps lc_ids NoFault 5 (person who) lc_tenant i d).2.
Definition delete_ (d : LifecycleDb) : LifecycleDb :=
  (create_deletion_request lc_sha lc_dumps lc_ids NoFault 6 (person "alice") lc_tenant "erasure" d).2.

Definition lc_db0 : LifecycleDb := fresh_db lc_admin_db.
Definition lc_db1 : LifecycleDb := approve_ "bob" 100 (approve_ "alice" 100 (propose_ lc_db0)).
Definition lc_db2 : LifecycleDb := approve_hold_ "bob" 101 (approve_hold_ "alice" 101 (hold_ lc_db1)).
Definition lc_db3 : LifecycleDb := release_hold_ "carol" 101 (release_hold_ "bob" 101 (delete_ lc_db2)).
Definition lc_db4 : LifecycleDb := delete_ lc_db3.

Definition lc_worker : PM (LcWorld SamplePlanes) ContentError Z := run_once lc_sha CONTENT_BACKENDS 10.
Definition lc_world4 : LcWorld SamplePlanes := {| w_db := lc_db4; w_planes := lc_planes |}.
Definition lc_world5 : LcWorld SamplePlanes := (run_proc lc_worker lc_world4).2.
Definition lc_end : LcSystem :=
  {| sy_world := lc_world5; sy_workers := [Done (run_proc lc_worker lc_world4).1] |}.

(** Self-approval, a request during the hold and a release by its approver change nothing. *)
Example lc_statuses :
  (ch_status <$> lc_changes lc_db1 !! (lc_tenant, 100) = Some CH_APPROVED) ∧
  (ch_approver <$> lc_changes lc_db1 !! (lc_tenant, 100) = Some (Some "bob")) ∧
  held lc_tenant lc_db2 = true ∧ lc_requests lc_db3 = ∅ ∧
  (hd_status <$> lc_holds lc_db3 !! (lc_tenant, 101) = Some HD_RELEASED) ∧
  (dl_status <$> lc_requests lc_db4 !! (lc_tenant, 103) = Some DL_PENDING) ∧
  (run_proc lc_worker lc_world4).1 = Ok 1 ∧
  (dl_status <$> lc_requests (w_db lc_world5) !! (lc_tenant, 103) = Some DL_COMPLETED) ∧
  elements (w_planes lc_world5) = [].
Proof. split_and!; vm_compute; reflexivity. Qed.

(** ** Reaching the end *)
Lemma run_worker {W} `{!ContentPlanes W} sha dumps ids bs (w : LcWorld W) l p :
  rtc (lifecycle_step sha dumps ids bs) {| sy_world := w; sy_workers := l ++ [p] |}
    {| sy_world := (run_proc p w).2; sy_workers := l ++ [Done (run_proc p w).1] |}.
Proof.
  revert w. induction p as [r|next IH effect]; intros w; [constructor|].
  eapply rtc_l; [apply sy_run|]. apply IH.
Qed.

Abbreviation lc_step := (lifecycle_step (W := SamplePlanes) lc_sha lc_dumps lc_ids CONTENT_BACKENDS).
Definition lc_at (d : LifecycleDb) : LcSystem := {| sy_world := {| w_db := d; w_planes := lc_planes |}; sy_workers := [] |}.

Lemma lc_request_step d d' : lc_request lc_sha lc_dumps lc_ids d d' → lc_step (lc_at d) (lc_at d').
Proof. intros Hd. exact (sy_request lc_sha lc_dumps lc_ids CONTENT_BACKENDS (lc_at d) d' Hd). Qed.

Lemma step_propose d : lc_step (lc_at d) (lc_at (propose_ d)).
Proof. apply lc_request_step, rq_propose. Qed.
Lemma step_approve who i d : lc_step (lc_at d) (lc_at (approve_ who i d)).
Proof. apply lc_request_step, rq_approve. Qed.
Lemma step_hold d : lc_step (lc_at d) (lc_at (hold_ d)).
Proof. apply lc_request_step, rq_hold. Qed.
Lemma step_approve_hold who i d : lc_step (lc_at d) (lc_at (approve_hold_ who i d)).
Proof. apply lc_request_step, rq_approve_hold. Qed.
Lemma step_release_hold who i d : lc_step (lc_at d) (lc_at (release_hold_ who i d)).
Proof. apply lc_request_step, rq_release_hold. Qed.
Lemma step_delete d : lc_step (lc_at d) (lc_at (delete_ d)).
Proof. apply lc_request_step, rq_delete. Qed.

Lemma lc_requests_run : rtc lc_step (lc_at lc_db0) (lc_at lc_db4).
Proof.
  unfold lc_db4. eapply rtc_r; [|apply step_delete].
  unfold lc_db3. eapply rtc_r; [|apply step_release_hold]. eapply rtc_r; [|apply step_release_hold].
  eapply rtc_r; [|apply step_delete].
  unfold lc_db2. eapply rtc_r; [|apply step_approve_hold]. eapply rtc_r; [|apply step_approve_hold].
  eapply rtc_r; [|apply step_hold].
  unfold lc_db1. eapply rtc_r; [|apply step_approve]. eapply rtc_r; [|apply step_approve].
  eapply rtc_r; [|apply step_propose]. constructor.
Qed.

Lemma lc_reached : rtc lc_step (fresh_system lc_admin_db lc_planes) lc_end.
Proof.
  transitivity (lc_at lc_db4); [exact lc_requests_run|]. eapply rtc_l.
  - exact (sy_start lc_sha lc_dumps lc_ids CONTENT_BACKENDS (lc_at lc_db4) 10).
  - exact (run_worker lc_sha lc_dumps lc_ids CONTENT_BACKENDS lc_world4 [] lc_worker).
Qed.

Lemma sample_executor : new_executor CONTENT_BACKENDS = Ok CONTENT_BACKENDS.
Proof. reflexivity. Qed.


Lemma completed_deletions_are_proved_witness :
  ∃ p, lc_proofs (w_db lc_world5) !! (lc_tenant, 103, BACKUP) = Some p ∧ pf_verified p = true.
Proof.
  assert (∃ r, lc_requests (w_db lc_world5) !! (lc_tenant, 103) = Some r ∧ dl_status r = DL_COMPLETED) as (r & Hr & Hst)
    by (eexists; split; [vm_compute; reflexivity|reflexivity]).
  destruct (proj1 (completed_deletions_are_proved lc_sha lc_dumps lc_ids CONTENT_BACKENDS CONTENT_BACKENDS
    sample_executor lc_admin_db lc_planes lc_end lc_reached) lc_tenant 103 r Hr Hst) as [_ Hall].
  destruct (Hall BACKUP) as (p & Hp & Hv & _). exists p. exact (conj Hp Hv).
Defined.

Lemma process_on_every_branch_witness :
  (run_proc (process lc_sha CONTENT_BACKENDS 10 lc_tenant 103) lc_world4).1 = Ok true ∧
  bool_decide ((BACKUP, uuid_text lc_tenant) ∈
    w_planes (run_proc (process lc_sha CONTENT_BACKENDS 10 lc_tenant 103) lc_world4).2) = false.
Proof.
  assert ((run_proc (process lc_sha CONTENT_BACKENDS 10 lc_tenant 103) lc_world4).1 = Ok true) as Hr
    by (vm_compute; reflexivity).
  pose proof (process_on_every_branch lc_sha CONTENT_BACKENDS CONTENT_BACKENDS sample_executor 10 lc_tenant 103
    lc_world4 _ _ (surjective_pairing _)) as [_ Hok].
  rewrite Hr in Hok. split; [exact Hr|]. apply bool_decide_eq_false_2. exact (proj1 (proj2 Hok) BACKUP).
Defined.

Lemma due_requests_complete_witness :
  ∃ w', run_proc lc_worker lc_world4 = (Ok 1, w') ∧
    dl_status <$> lc_requests (w_db w') !! (lc_tenant, 103) = Some DL_COMPLETED.
Proof.
  destruct (due_requests_complete lc_sha sample_planes_work CONTENT_BACKENDS 10 lc_world4) as (w' & Hrun & _ & Hall).
  exists w'. split.
  - assert (Zsum (completions 10 lc_db4) (all_tenants lc_db4) = 1) as <- by (vm_compute; reflexivity). exact Hrun.
  - rewrite Hall. vm_compute. reflexivity.
Defined.

(** ** Runs the contract does not foresee *)

(** A hold that becomes active after the claim does not stop the erasure: [process] asks
    once, and does not pass [legal_hold] to [execute]. *)
Definition claimed_world : LcWorld SamplePlanes :=
  run_steps 1 (process lc_sha CONTENT_BACKENDS 10 lc_tenant 103) lc_world4.
Definition held_world : LcWorld SamplePlanes :=
  {| w_db := approve_hold_ "bob" 104 (hold_ (w_db claimed_world)); w_planes := w_planes claimed_world |}.
(** The rest of the program after its first step. *)
Definition process_rest : PM (LcWorld SamplePlanes) ContentError bool :=
  match process lc_sha CONTENT_BACKENDS 10 lc_tenant 103 with
  | Step next _ => next lc_world4
  | Done r => Done r
  end.

Example erased_under_hold :
  held lc_tenant (w_db held_world) = true ∧ (run_proc process_rest held_world).1 = Ok true ∧
  held lc_tenant (w_db (run_proc process_rest held_world).2) = true ∧
  length (elements (w_planes held_world)) = 6%nat ∧
  elements (w_planes (run_proc process_rest held_world).2) = [].
Proof. split_and!; vm_compute; reflexivity. Qed.

(** Completion is not final: a worker that had selected the request meets a hold and
    writes BLOCKED_LEGAL_HOLD over COMPLETED; after the release the planes are erased again. *)
Definition blocked_world : LcWorld SamplePlanes :=
  (run_proc (process lc_sha CONTENT_BACKENDS 20 lc_tenant 103)
    {| w_db := approve_hold_ "bob" 104 (hold_ (w_db lc_world5)); w_planes := lc_planes |}).2.
Definition reopened_world : LcWorld SamplePlanes :=
  (run_proc (run_once lc_sha CONTENT_BACKENDS 30)
    {| w_db := release_hold_ "carol" 104 (w_db blocked_world); w_planes := w_planes blocked_world |}).2.

Example completed_request_reopened :
  dl_status <$> lc_requests (w_db lc_world5) !! (lc_tenant, 103) = Some DL_COMPLETED ∧
  dl_status <$> lc_requests (w_db blocked_world) !! (lc_tenant, 103) = Some DL_BLOCKED_LEGAL_HOLD ∧
  dl_completed_at <$> lc_requests (w_db blocked_world) !! (lc_tenant, 103) = Some (Some 10) ∧
  length (elements (w_planes blocked_world)) = 6%nat ∧
  elements (w_planes reopened_world) = [].
Proof. split_and!; vm_compute; reflexivity. Qed.

(** The row is checked before it is locked: bob's release reads a pending hold, bob's
    approval commits, and the release finds an active hold.  Its approver released it. *)
Definition pending_hold_db : LifecycleDb := hold_ lc_db1.
Definition bob_guard : outcome AdminError HoldRow :=
  (release_guard (person "bob") lc_tenant 101 pending_hold_db).1.
Definition race_db : LifecycleDb :=
  match bob_guard with
  | Ok h =>
      (release_update lc_sha lc_dumps lc_ids 5 (person "bob") lc_tenant 101 h
        (approve_hold_ "bob" 101 pending_hold_db)).2
  | Raise _ => pending_hold_db
  end.

Example approver_releases_own_hold :
  hd_status <$> lc_holds race_db !! (lc_tenant, 101) = Some HD_RELEASED ∧
  hd_approver <$> lc_holds race_db !! (lc_tenant, 101) = Some (Some "bob").
Proof. split; vm_compute; reflexivity. Qed.

(** ** A sweep *)
Definition days_ago (n : Z) : instant := - days n.
Definition sweep_db : SweepDb :=
  {| sd_lc := {| lc_admin := {| ad_tenants := {[7; 8]}; ad_members := []; ad_idempotency := ∅;
                                ad_audit := ad_audit lc_admin_db |};
                 lc_policies := {[7 := {| pw_policy := strict_policy; pw_version := 1; pw_updated_at := 0 |}]};
                 lc_changes := ∅;
                 lc_holds := {[(8, 1) := {| hd_reason := "r"; hd_status := HD_ACTIVE; hd_initiator := "a";
                   hd_approver := Some "b"; hd_created_at := 0; hd_activated_at := Some 0; hd_released_at := None |}]};
                 lc_requests := ∅; lc_proofs := ∅; lc_next_id := 0 |};
     sd_inbound := {[(7, (1, "old")) := days_ago 31; (7, (1, "new")) := days_ago 29; (8, (1, "old")) := days_ago 999]};
     sd_replies := {[(7, 1) := {| sr_created_at := days_ago 2; sr_content := "hello" |}]};
     sd_sessions := {[(7, "s") := days_ago 40]};
     sd_events := {[(7, ("s", 1)) := {["text" := JStr "secret"]}]};
     sd_summaries := {[(7, "s") := "a talk"]};
     sd_memories :=
       {[(7, 1) := {| sm_last_used_at := days_ago 900; sm_content := "valid"; sm_is_valid := true;
                      sm_invalidated_at := None; sm_invalidation_reason := None |};
         (7, 2) := {| sm_last_used_at := days_ago 900; sm_content := "corrected"; sm_is_valid := false;
                      sm_invalidated_at := Some (days_ago 899); sm_invalidation_reason := Some "wrong" |}]} |}.

Lemma sweep_db_checked : policies_checked (sd_lc sweep_db).
Proof. intros t r. simpl. intros [_ <-]%lookup_singleton_Some. reflexivity. Qed.

Lemma sweep_expires_exactly_witness :
  ∃ n s', run_proc (sweep_run_once 0) sweep_db = (Ok n, s') ∧
    sd_inbound s' !! (7, (1, "old")) = None ∧ sd_inbound s' !! (8, (1, "old")) = Some (days_ago 999) ∧
    sr_content <$> sd_replies s' !! (7, 1) = Some "" ∧ run_proc (sweep_run_once 0) s' = (Ok 0, s').
Proof.
  destruct (sweep_expires_exactly 0 sweep_db sweep_db_checked)
    as (n & s' & Hrun & _ & _ & Hin & Hre & _ & _ & _ & Hagain).
  exists n, s'. split; [exact Hrun|]. split; [rewrite Hin; vm_compute; reflexivity|].
  split; [rewrite Hin; vm_compute; reflexivity|]. split; [rewrite Hre; vm_compute; reflexivity|exact Hagain].
Defined.

(** A memory that was corrected keeps its content however old it is: the sweep erases
    valid memories only. *)
Example corrected_memory_never_expires :
  (run_proc (sweep_run_once 0) sweep_db).1 = Ok 5 ∧
  sm_content <$> sd_memories (run_proc (sweep_run_once 0) sweep_db).2 !! (7, 1) = Some "[erased]" ∧
  sm_content <$> sd_memories (run_proc (sweep_run_once 0) sweep_db).2 !! (7, 2) = Some "corrected".
Proof. split_and!; vm_compute; reflexivity. Qed.
