(* ===== verification/PyRegex.v ===== *)
(** * Regular expressions of the [re] module

    The constructs the platform's detection rules are written with: character
    classes, groups, alternatives, counted and open repetition and the word
    boundary.  [matches] is what a pattern means; [search] decides whether it occurs in
    a text, as [re.Pattern.search] does.  Which of several matches is returned does not
    matter to the callers, so greedy and lazy repetition are the same here.

    A text is its list of bytes.  Bytes from 128 on belong to letters of other
    scripts and count as word characters, as those letters do. *)

From S2P Require Import Prelude.
Open Scope list_scope.

Abbreviation text := (list Ascii.ascii).

Inductive regex :=
  | RChar (p : Ascii.ascii → bool)
  | REps
  | RSeq (r1 r2 : regex)
  | RAlt (r1 r2 : regex)
  | RRep (r : regex) (least : nat) (most : option nat)
  | RBoundary.

(** A place in a text: the character before it and the text after it. *)
Definition place : Type := option Ascii.ascii * text.

Definition in_range (lo hi : nat) (c : Ascii.ascii) : bool :=
  (lo <=? Ascii.nat_of_ascii c)%nat && (Ascii.nat_of_ascii c <=? hi)%nat.
Definition is_char (n : nat) (c : Ascii.ascii) : bool := (Ascii.nat_of_ascii c =? n)%nat.
Definition is_digit : Ascii.ascii → bool := in_range 48 57.
Definition is_upper : Ascii.ascii → bool := in_range 65 90.
Definition is_lower : Ascii.ascii → bool := in_range 97 122.
Definition is_word (c : Ascii.ascii) : bool :=
  is_digit c || is_upper c || is_lower c || is_char 95 c || (128 <=? Ascii.nat_of_ascii c)%nat.
Definition is_blank (c : Ascii.ascii) : bool := in_range 9 13 c || in_range 28 32 c.

(** [\b] *)
Definition word_at (o : option Ascii.ascii) : bool := match o with Some c => is_word c | None => false end.
Definition boundary (p : place) : bool := xorb (word_at p.1) (word_at (head p.2)).

(** ** Meaning *)
Inductive matches : regex → place → place → Prop :=
  | m_char p c prev rest : p c = true → matches (RChar p) (prev, c :: rest) (Some c, rest)
  | m_eps p : matches REps p p
  | m_seq r1 r2 p q t : matches r1 p q → matches r2 q t → matches (RSeq r1 r2) p t
  | m_alt_l r1 r2 p q : matches r1 p q → matches (RAlt r1 r2) p q
  | m_alt_r r1 r2 p q : matches r2 p q → matches (RAlt r1 r2) p q
  | m_rep_done r most p : matches (RRep r 0 most) p p
  | m_rep_more r least most p q t :
      most ≠ Some 0%nat → matches r p q → matches (RRep r (pred least) (pred <$> most)) q t →
      matches (RRep r least most) p t
  | m_boundary p : boundary p = true → matches RBoundary p p.

(** ** Matching *)

(** [f] exactly [n] times, and at most [n] times. *)
Fixpoint exactly (f : place → list place) (n : nat) (p : place) : list place :=
  match n with O => [p] | S n' => f p ≫= exactly f n' end.
Fixpoint at_most (f : place → list place) (n : nat) (p : place) : list place :=
  p :: match n with O => [] | S n' => f p ≫= at_most f n' end.

(** Every place where a match that starts at [p] can end.  A repetition without limit
    makes at most as many useful rounds as there are characters left. *)
Fixpoint ends (r : regex) (p : place) : list place :=
  match r with
  | RChar f => match p.2 with c :: rest => if f c then [(Some c, rest)] else [] | [] => [] end
  | REps => [p]
  | RSeq r1 r2 => ends r1 p ≫= ends r2
  | RAlt r1 r2 => ends r1 p ++ ends r2 p
  | RRep r least most =>
      match most with
      | Some m => if (m <? least)%nat then []
                  else exactly (ends r) least p ≫= at_most (ends r) (m - least)
      | None => exactly (ends r) least p ≫= λ q, at_most (ends r) (length q.2) q
      end
  | RBoundary => if boundary p then [p] else []
  end.

Fixpoint search_from (r : regex) (prev : option Ascii.ascii) (t : text) : bool :=
  match ends r (prev, t) with
  | _ :: _ => true
  | [] => match t with c :: t' => search_from r (Some c) t' | [] => false end
  end.
Definition search (r : regex) (t : text) : bool := search_from r None t.

(** ** Correctness *)

(** A match consumes a part of the text, and where it consumes nothing it moves nowhere. *)
Definition moves (p q : place) : Prop := p = q ∨ (length q.2 < length p.2)%nat.

Lemma moves_trans p q t : moves p q → moves q t → moves p t.
Proof. unfold moves. intros [->|?] [->|?]; auto. right. lia. Qed.

Lemma matches_moves r p q : matches r p q → moves p q.
Proof.
  induction 1; eauto using moves_trans; try by left. right. simpl. lia.
Qed.

(** Rounds of a repetition. *)
Inductive rounds (R : place → place → Prop) : nat → place → place → Prop :=
  | rounds_0 p : rounds R 0 p p
  | rounds_S n p q t : R p q → rounds R n q t → rounds R (S n) p t.

Lemma rounds_app R n m p q t : rounds R n p q → rounds R m q t → rounds R (n + m) p t.
Proof. induction 1; simpl; [done|]. intros. by econstructor; eauto. Qed.

Lemma rounds_split R n m p t : rounds R (n + m) p t → ∃ q, rounds R n p q ∧ rounds R m q t.
Proof.
  revert p. induction n as [|n IH]; intros p; simpl; [by exists p; split; [constructor|]|].
  inversion 1 as [|? ? q ? Hpq Hqt]; subst. destruct (IH q Hqt) as (u & ? & ?).
  exists u. split; [by econstructor|done].
Qed.

Lemma rep_rounds r least most p t :
  matches (RRep r least most) p t ↔
  ∃ n, (least ≤ n)%nat ∧ (∀ m, most = Some m → (n ≤ m)%nat) ∧ rounds (matches r) n p t.
Proof.
  split.
  - intros Hm. remember (RRep r least most) as e eqn:He. revert least most He.
    induction Hm as [| | | | |r' most' p|r' least' most' p q t Hne Hpq _ Hqt IH|]; intros least most He; simplify_eq.
    + exists 0%nat. split_and!; [lia|lia|constructor].
    + destruct (IH _ _ eq_refl) as (n & Hn & Hmax & Hr). exists (S n). split_and!; [lia| |by econstructor].
      intros m ->. specialize (Hmax _ eq_refl). destruct m; [done|]. simpl in *. lia.
  - intros (n & Hn & Hmax & Hr). revert least most Hn Hmax.
    induction Hr as [p|n p q t Hpq _ IH]; intros least most Hn Hmax.
    + assert (least = 0%nat) as -> by lia. constructor.
    + econstructor; [|exact Hpq|].
      * intros ->. specialize (Hmax 0%nat eq_refl). lia.
      * apply IH; [lia|]. destruct most as [m|]; [|done]. intros m' [= <-]. specialize (Hmax m eq_refl). lia.
Qed.

(** Rounds that move nowhere can be left out. *)
Lemma rounds_useful R n p t :
  (∀ p q, R p q → moves p q) → rounds R n p t → ∃ m, (m ≤ n)%nat ∧ (m ≤ length p.2)%nat ∧ rounds R m p t.
Proof.
  intros HR. induction 1 as [p|n p q t Hpq Hqt (m & Hm & Hlen & Hr)].
  - exists 0%nat. split_and!; [lia|lia|constructor].
  - destruct (HR _ _ Hpq) as [<-|Hlt]; [exists m; split_and!; [lia|lia|done]|].
    exists (S m). split_and!; [lia|lia|by econstructor].
Qed.

Section Lists.
Context (f : place → list place) (R : place → place → Prop) (Hf : ∀ p q, q ∈ f p ↔ R p q).

Lemma elem_of_exactly n p t : t ∈ exactly f n p ↔ rounds R n p t.
Proof.
  revert p. induction n as [|n IH]; intros p; simpl.
  - rewrite list_elem_of_singleton. split; [intros ->; constructor|by inversion 1].
  - rewrite list_elem_of_bind. split.
    + intros (q & Hq%IH & Hp%Hf). by econstructor.
    + inversion 1; subst. eexists. by rewrite IH, Hf.
Qed.

Lemma elem_of_at_most n p t : t ∈ at_most f n p ↔ ∃ m, (m ≤ n)%nat ∧ rounds R m p t.
Proof.
  revert p. induction n as [|n IH]; intros p; simpl; rewrite elem_of_cons.
  - rewrite elem_of_nil. split.
    + intros [->|[]]. exists 0%nat. split; [lia|constructor].
    + intros (m & Hm & Hr). assert (m = 0%nat) as -> by lia. left. by inversion Hr.
  - rewrite list_elem_of_bind. split.
    + intros [->|(q & Hq%IH & Hp%Hf)]; [exists 0%nat; split; [lia|constructor]|].
      destruct Hq as (m & ? & ?). exists (S m). split; [lia|by econstructor].
    + intros (m & Hm & Hr). inversion Hr as [|m' ? q ? Hpq Hqt]; subst; [by left|right].
      exists q. rewrite IH, Hf. split; [|done]. exists m'. split; [lia|done].
Qed.
End Lists.

Lemma elem_of_ends r p q : q ∈ ends r p ↔ matches r p q.
Proof.
  revert p q. induction r as [f| |r1 IH1 r2 IH2|r1 IH1 r2 IH2|r IH least most|]; intros p q; cbn [ends].
  - destruct p as [prev [|c rest]]; simpl; [rewrite elem_of_nil; by split; [|inversion 1]|].
    destruct (f c) eqn:Hc; [rewrite list_elem_of_singleton|rewrite elem_of_nil]; split.
    + intros ->. by constructor.
    + by inversion 1.
    + done.
    + inversion 1; congruence.
  - rewrite list_elem_of_singleton. split; [intros ->; constructor|by inversion 1].
  - rewrite list_elem_of_bind. split.
    + intros (t & Ht%IH2 & Hp%IH1). by econstructor.
    + inversion 1; subst. eexists. by rewrite IH2, IH1.
  - rewrite elem_of_app, IH1, IH2. split; [intros [?|?]; by constructor|inversion 1; tauto].
  - rewrite rep_rounds. destruct most as [m|].
    + destruct (Nat.ltb_spec m least) as [Hlt|Hle].
      { rewrite elem_of_nil. split; [done|]. intros (n & ? & Hmax & _). specialize (Hmax m eq_refl). lia. }
      rewrite list_elem_of_bind. setoid_rewrite (elem_of_exactly _ (matches r)); [|done].
      setoid_rewrite (elem_of_at_most _ (matches r)); [|done]. split.
      * intros (t & (k & Hk & Htq) & Hpt). exists (least + k)%nat.
        split_and!; [lia|intros ? [= <-]; lia|by eapply rounds_app].
      * intros (n & Hn & Hmax & Hr). specialize (Hmax m eq_refl).
        replace n with (least + (n - least))%nat in Hr by lia. apply rounds_split in Hr as (t & ? & ?).
        exists t. split; [|done]. exists (n - least)%nat. split; [lia|done].
    + rewrite list_elem_of_bind. setoid_rewrite (elem_of_exactly _ (matches r)); [|done].
      setoid_rewrite (elem_of_at_most _ (matches r)); [|done]. split.
      * intros (t & (k & Hk & Htq) & Hpt). exists (least + k)%nat.
        split_and!; [lia|done|by eapply rounds_app].
      * intros (n & Hn & _ & Hr). replace n with (least + (n - least))%nat in Hr by lia.
        apply rounds_split in Hr as (t & ? & Htq). exists t. split; [|done].
        destruct (rounds_useful _ _ _ _ (matches_moves r) Htq) as (k & _ & ? & ?). by exists k.
  - destruct (boundary p) eqn:Hb; [rewrite list_elem_of_singleton|rewrite elem_of_nil]; split.
    + intros ->. by constructor.
    + by inversion 1.
    + done.
    + inversion 1; congruence.
Qed.

(** Where a scan of a text stops. *)
Fixpoint place_after (n : nat) (prev : option Ascii.ascii) (t : text) : option place :=
  match n with
  | O => Some (prev, t)
  | S n' => match t with c :: t' => place_after n' (Some c) t' | [] => None end
  end.

Lemma search_from_spec r prev t :
  search_from r prev t = true ↔ ∃ n p q, place_after n prev t = Some p ∧ matches r p q.
Proof.
  revert prev. induction t as [|c t IH]; intros prev; cbn [search_from].
  - destruct (ends r (prev, [])) as [|q l] eqn:He.
    + split; [done|]. intros (n & p & q & Hn & Hm). destruct n; simpl in Hn; simplify_eq.
      apply elem_of_ends in Hm. rewrite He in Hm. by apply not_elem_of_nil in Hm.
    + split; [|done]. intros _. exists 0%nat, (prev, []), q. split; [done|]. apply elem_of_ends.
      rewrite He. by left.
  - destruct (ends r (prev, c :: t)) as [|q l] eqn:He.
    + rewrite IH. split; intros (n & p & q & Hn & Hm).
      * by exists (S n), p, q.
      * destruct n as [|n]; simpl in Hn; [|by exists n, p, q]. simplify_eq.
        apply elem_of_ends in Hm. rewrite He in Hm. by apply not_elem_of_nil in Hm.
    + split; [|done]. intros _. exists 0%nat, (prev, c :: t), q. split; [done|]. apply elem_of_ends.
      rewrite He. by left.
Qed.

Lemma search_spec r t :
  search r t = true ↔ ∃ n p q, place_after n None t = Some p ∧ matches r p q.
Proof. apply search_from_spec. Qed.
