(* ===== verification/Governance.v ===== *)
(** * Governance of outbound content (trpc_service/governance.py)

    Data classification, detection of secrets and personal data in outbound messages,
    the decision on one outbound request, and signed policy bundles.  A message is the
    list of the items of its dictionary of texts.  The patterns tenants write for masks
    are compiled by a parameter; the platform's own patterns are those of PyRegex. *)

From S2P Require Import Prelude PyNum PyDict ExecutionBus ToolRegistry PyRegex.
Open Scope string_scope.
Open Scope list_scope.
Open Scope Z_scope.

(** ** Classification *)
Definition CLASSIFICATION_ORDER : list DataClassification := [PUBLIC; INTERNAL; CONFIDENTIAL; RESTRICTED].
Definition rank (c : DataClassification) : Z :=
  match c with PUBLIC => 0 | INTERNAL => 1 | CONFIDENTIAL => 2 | RESTRICTED => 3 end.
Definition classification_value (c : DataClassification) : string :=
  match c with
  | PUBLIC => "PUBLIC" | INTERNAL => "INTERNAL" | CONFIDENTIAL => "CONFIDENTIAL" | RESTRICTED => "RESTRICTED"
  end.

(** [highest_classification]: [None] is skipped. *)
Definition higher (highest : DataClassification) (candidate : option DataClassification) : DataClassification :=
  match candidate with
  | None => highest
  | Some value => if rank highest <? rank value then value else highest
  end.
Definition highest_classification (l : list (option DataClassification)) : DataClassification :=
  foldl higher PUBLIC l.

(** ** The detection rules *)
Record DetectionRule := {
  dr_name : string;
  dr_pattern : regex;
  dr_classification : option DataClassification;
}.

Fixpoint lit (s : string) : regex :=
  match s with
  | EmptyString => REps
  | String c s' => RSeq (RChar (λ x, bool_decide (x = c))) (lit s')
  end.
(** A literal under [(?i)], written in lower case. *)
Fixpoint lit_i (s : string) : regex :=
  match s with
  | EmptyString => REps
  | String c s' =>
      RSeq (RChar (λ x, bool_decide (x = c)
                        || (is_lower c && (Ascii.nat_of_ascii x + 32 =? Ascii.nat_of_ascii c)%nat))) (lit_i s')
  end.
Definition one (p : Ascii.ascii → bool) : regex := RChar p.
Definition times (n : nat) (r : regex) : regex := RRep r n (Some n).
Definition star (r : regex) : regex := RRep r 0 None.
Definition maybe (r : regex) : regex := RRep r 0 (Some 1%nat).
Definition seqs (l : list regex) : regex := foldr RSeq REps l.
Definition digit : regex := one is_digit.
Definition quote : Ascii.ascii → bool := λ c, is_char 39 c || is_char 34 c.

Definition private_key_block : regex :=
  seqs [lit "-----BEGIN "; star (one (λ c, is_upper c || is_char 32 c)); lit "PRIVATE KEY-----"].
Definition aws_access_key : regex :=
  seqs [RBoundary; lit "AKIA"; times 16 (one (λ c, is_digit c || is_upper c)); RBoundary].
Definition assigned_api_key : regex :=
  seqs [RBoundary; RAlt (lit "sk") (RAlt (lit "rk") (lit "pk")); lit "-";
        RRep (one (λ c, is_upper c || is_lower c || is_digit c || is_char 95 c || is_char 45 c)) 20 None;
        RBoundary].
Definition credential_assignment : regex :=
  seqs [RBoundary;
        RAlt (seqs [lit_i "api"; maybe (one (λ c, is_char 95 c || is_char 45 c)); lit_i "key"])
          (RAlt (lit_i "secret") (RAlt (lit_i "password") (lit_i "token")));
        star (one is_blank); one (λ c, is_char 61 c || is_char 58 c); star (one is_blank);
        one quote; RRep (one (λ c, negb (quote c))) 8 None; one quote].

Definition SECRET_DETECTION_RULES : list DetectionRule :=
  [{| dr_name := "private-key-block"; dr_pattern := private_key_block; dr_classification := None |};
   {| dr_name := "aws-access-key"; dr_pattern := aws_access_key; dr_classification := None |};
   {| dr_name := "assigned-api-key"; dr_pattern := assigned_api_key; dr_classification := None |};
   {| dr_name := "credential-assignment"; dr_pattern := credential_assignment; dr_classification := None |}].

Definition mainland_id_number : regex :=
  seqs [RBoundary; one (in_range 49 57); times 5 digit; RAlt (lit "19") (lit "20"); times 2 digit;
        RAlt (RSeq (lit "0") (one (in_range 49 57))) (RSeq (lit "1") (one (in_range 48 50)));
        RAlt (RSeq (lit "0") (one (in_range 49 57)))
          (RAlt (RSeq (one (in_range 49 50)) digit) (RSeq (lit "3") (one (in_range 48 49))));
        times 3 digit; one (λ c, is_digit c || is_char 88 c || is_char 120 c); RBoundary].
Definition payment_card_number : regex :=
  seqs [RBoundary;
        RRep (RSeq digit (star (one (λ c, is_char 32 c || is_char 45 c)))) 13 (Some 19%nat); RBoundary].
Definition mainland_phone_number : regex :=
  seqs [RBoundary; lit "1"; one (in_range 51 57); times 9 digit; RBoundary].

Definition DLP_RULES : list DetectionRule :=
  [{| dr_name := "mainland-id-number"; dr_pattern := mainland_id_number; dr_classification := Some CONFIDENTIAL |};
   {| dr_name := "payment-card-number"; dr_pattern := payment_card_number; dr_classification := Some CONFIDENTIAL |};
   {| dr_name := "mainland-phone-number"; dr_pattern := mainland_phone_number; dr_classification := Some INTERNAL |}].

(** ** [json.dumps(message, ensure_ascii=False)] of a dictionary of texts *)
Abbreviation message := (list (string * string)).

Definition quote_text : string := String (Ascii.ascii_of_nat 34) EmptyString.
Definition backslash : string := String (Ascii.ascii_of_nat 92) EmptyString.
Definition escape_char (c : Ascii.ascii) : string :=
  let n := Ascii.nat_of_ascii c in
  if (n =? 34)%nat then backslash +:+ quote_text
  else if (n =? 92)%nat then backslash +:+ backslash
  else if (n =? 10)%nat then backslash +:+ "n"
  else if (n =? 13)%nat then backslash +:+ "r"
  else if (n =? 9)%nat then backslash +:+ "t"
  else if (n =? 8)%nat then backslash +:+ "b"
  else if (n =? 12)%nat then backslash +:+ "f"
  else if (n <? 32)%nat then backslash +:+ "u00" +:+ hex_text 2 (Z.of_nat n)
  else String c EmptyString.
Fixpoint escape (s : string) : string :=
  match s with EmptyString => EmptyString | String c s' => escape_char c +:+ escape s' end.
Definition json_text (s : string) : string := quote_text +:+ escape s +:+ quote_text.
Definition json_item (kv : string * string) : string := json_text kv.1 +:+ ": " +:+ json_text kv.2.
Definition dump_message (m : message) : string := "{" +:+ join ", " (json_item <$> m) +:+ "}".

Record ContentScanResult := {
  sc_detected_secrets : list string;
  sc_detected_classification : DataClassification;
}.
Definition blocked (s : ContentScanResult) : bool :=
  match sc_detected_secrets s with [] => false | _ :: _ => true end.

Definition detects (content : text) (rule : DetectionRule) : bool := search (dr_pattern rule) content.

(** One message of [scan_messages]. *)
Definition scan_message (acc : ContentScanResult) (m : message) : ContentScanResult :=
  let content := String.list_ascii_of_string (dump_message m) in
  {| sc_detected_secrets :=
       sc_detected_secrets acc ++ (dr_name <$> filter (λ r, detects content r = true) SECRET_DETECTION_RULES);
     sc_detected_classification :=
       foldl (λ detected rule, if bool_decide (is_Some (dr_classification rule)) && detects content rule
                               then highest_classification [Some detected; dr_classification rule]
                               else detected)
         (sc_detected_classification acc) DLP_RULES |}.
Definition scan_messages (messages : list message) : ContentScanResult :=
  foldl scan_message {| sc_detected_secrets := []; sc_detected_classification := PUBLIC |} messages.

(** ** Rules and decisions *)
Record MaskPattern := { mk_name : string; mk_regex : string; mk_replacement : string }.
Record GovernanceRules := {
  gr_max_outbound_classification : DataClassification;
  gr_allow_restricted_to_private_endpoints : bool;
  gr_require_approval_above : option DataClassification;
  gr_secret_detection_enabled : bool;
  gr_mask_patterns : list MaskPattern;
}.
Definition default_rules : GovernanceRules :=
  {| gr_max_outbound_classification := CONFIDENTIAL; gr_allow_restricted_to_private_endpoints := false;
     gr_require_approval_above := None; gr_secret_detection_enabled := true; gr_mask_patterns := [] |}.

Inductive DecisionType := ALLOW | DENY | MASK | NEEDS_APPROVAL.
#[export] Instance DecisionType_eq_dec : EqDecision DecisionType.
Proof. solve_decision. Defined.

Record GovernanceDecision := {
  gd_decision : DecisionType;
  gd_effective_classification : DataClassification;
  gd_reason : string;
  gd_masked_messages : option (list message);
}.

(** [re.error] of a pattern that does not compile. *)
Inductive GovernanceError := RegexError | ValueError (message : string).

Section Evaluate.
(** [re.compile]: the substitution of a pattern, or an error. *)
Context (re_sub : string → option (string → string → string)).

Fixpoint compile_masks (l : list MaskPattern) : outcome GovernanceError (list (string → string)) :=
  match l with
  | [] => Ok []
  | p :: l' =>
      match re_sub (mk_regex p), compile_masks l' with
      | Some f, Ok fs => Ok (f (mk_replacement p) :: fs)
      | None, _ => Raise RegexError
      | _, Raise e => Raise e
      end
  end.

Definition rewritten (fs : list (string → string)) (m : message) : string :=
  foldl (λ content f, f content) (default "" (dict_get "content" m)) fs.
Definition mask_message (fs : list (string → string)) (m : message) : message :=
  if bool_decide (rewritten fs m = default "" (dict_get "content" m)) then m
  else dict_set "content" (rewritten fs m) m.

(** [_apply_masks]: [None] when no message changes. *)
Definition apply_masks (rules : GovernanceRules) (messages : list message)
    : outcome GovernanceError (option (list message)) :=
  match gr_mask_patterns rules with
  | [] => Ok None
  | patterns =>
      match compile_masks patterns with
      | Raise e => Raise e
      | Ok fs =>
          if existsb (λ m, negb (bool_decide (rewritten fs m = default "" (dict_get "content" m)))) messages
          then Ok (Some (mask_message fs <$> messages)) else Ok None
      end
  end.

(** [evaluate_outbound] *)
Definition evaluate_outbound (rules : GovernanceRules) (messages : list message)
    (declared_classification : DataClassification) (target_is_private_endpoint : bool)
    : outcome GovernanceError GovernanceDecision :=
  let scan := scan_messages messages in
  let effective :=
    highest_classification [Some declared_classification; Some (sc_detected_classification scan)] in
  let verdict d reason masked :=
    {| gd_decision := d; gd_effective_classification := effective; gd_reason := reason;
       gd_masked_messages := masked |} in
  if gr_secret_detection_enabled rules && blocked scan then
    Ok (verdict DENY ("secret detected: " +:+ join ", " (sc_detected_secrets scan)) None)
  else if bool_decide (effective = RESTRICTED)
          && negb (gr_allow_restricted_to_private_endpoints rules && target_is_private_endpoint) then
    Ok (verdict DENY "restricted data cannot enter external models" None)
  else if negb (bool_decide (effective = RESTRICTED))
          && (rank (gr_max_outbound_classification rules) <? rank effective) then
    Ok (verdict DENY (classification_value effective +:+ " exceeds the policy ceiling "
                      +:+ classification_value (gr_max_outbound_classification rules)) None)
  else if match gr_require_approval_above rules with
          | Some ceiling => rank ceiling <? rank effective
          | None => false
          end then
    Ok (verdict NEEDS_APPROVAL (classification_value effective +:+ " exceeds the approval-free ceiling") None)
  else
    match apply_masks rules messages with
    | Raise e => Raise e
    | Ok (Some masked) => Ok (verdict MASK "mask patterns applied" (Some masked))
    | Ok None => Ok (verdict ALLOW "within policy" None)
    end.
End Evaluate.

(** ** Signed bundles *)
Definition opt_classification (o : option DataClassification) : json :=
  match o with Some c => JStr (classification_value c) | None => JNull end.
Definition mask_json (p : MaskPattern) : json :=
  JObj (<["name" := JStr (mk_name p)]> (<["regex" := JStr (mk_regex p)]>
        {["replacement" := JStr (mk_replacement p)]})).
(** [rules.model_dump(mode="json")], which is also the inner document of the bundle. *)
Definition rules_json (r : GovernanceRules) : json :=
  JObj (<["max_outbound_classification" := JStr (classification_value (gr_max_outbound_classification r))]>
       (<["allow_restricted_to_private_endpoints" := JBool (gr_allow_restricted_to_private_endpoints r)]>
       (<["require_approval_above" := opt_classification (gr_require_approval_above r)]>
       (<["secret_detection_enabled" := JBool (gr_secret_detection_enabled r)]>
       {["mask_patterns" := JArr (mask_json <$> gr_mask_patterns r)]})))).

Definition compile_bundle (rules : GovernanceRules) (version : Z) : json :=
  JObj (<["version" := JNum version]> {["governance" := rules_json rules]}).

Section Bundles.
Context (canonical : json → string) (hmac_hex : string → string → string) (sha256 : bytes → bytes).

Definition signed_document (rules : GovernanceRules) (version : Z) : json :=
  JObj (<["rules" := rules_json rules]> (<["version" := JNum version]>
        {["bundle" := compile_bundle rules version]})).

Definition sign_bundle (rules : GovernanceRules) (version : Z) (signing_key : string)
    : outcome GovernanceError string :=
  if bool_decide (signing_key = "") then Raise (ValueError "policy signing key is required")
  else Ok (hmac_hex signing_key (canonical (signed_document rules version))).

Definition verify_bundle (rules : GovernanceRules) (version : Z) (signature signing_key : string)
    : outcome GovernanceError bool :=
  match sign_bundle rules version signing_key with
  | Ok expected => Ok (bool_decide (expected = signature))
  | Raise e => Raise e
  end.

(** [canary_bucket] *)
Definition canary_bucket (decision_key : string) : Z :=
  from_bytes_big (take 8 (sha256 (String.list_byte_of_string decision_key))) mod 100.
End Bundles.
