(* ===== verification/GovernanceTheorems.v ===== *)
(** * Theorems on outbound governance

    The scan finds exactly what its rules describe, a decision lets out exactly what
    the rules permit, and a signature binds rules and version. *)

From S2P Require Import Prelude PyNum PyDict ExecutionBus SampleCodec ToolRegistry PyRegex Governance.
Open Scope string_scope.
Open Scope list_scope.
Open Scope Z_scope.

(** ** Classification *)
Lemma rank_inj c d : rank c = rank d → c = d.
Proof. by destruct c, d. Qed.

Lemma higher_rank h o : rank (higher h o) = Z.max (rank h) (default 0 (rank <$> o)).
Proof. destruct o as [c|]; simpl; [|by destruct h]. by destruct h, c. Qed.

Lemma foldl_higher_rank h l :
  rank (foldl higher h l) = Z.max (rank h) (foldr (λ o acc, Z.max (default 0 (rank <$> o)) acc) 0 l).
Proof.
  revert h. induction l as [|o l IH]; intros h; simpl; [by destruct h|]. rewrite IH, higher_rank. lia.
Qed.

Lemma highest_pair c d : rank (highest_classification [Some c; Some d]) = Z.max (rank c) (rank d).
Proof. by destruct c, d. Qed.

(** ** The scan *)

(** A rule occurs in a message. *)
Definition occurs (rule : DetectionRule) (m : message) : Prop :=
  ∃ n p q, place_after n None (String.list_ascii_of_string (dump_message m)) = Some p ∧
    matches (dr_pattern rule) p q.

Lemma detects_occurs rule m :
  detects (String.list_ascii_of_string (dump_message m)) rule = true ↔ occurs rule m.
Proof. apply search_spec. Qed.

Lemma scan_secrets_from acc messages name :
  name ∈ sc_detected_secrets (foldl scan_message acc messages) ↔
  name ∈ sc_detected_secrets acc ∨
    ∃ m rule, m ∈ messages ∧ rule ∈ SECRET_DETECTION_RULES ∧ dr_name rule = name ∧ occurs rule m.
Proof.
  revert acc. induction messages as [|m l IH]; intros acc; cbn [foldl].
  { split; [by left|]. intros [?|(m & rule & Hm & _)]; [done|]. by apply not_elem_of_nil in Hm. }
  rewrite IH. cbn [scan_message sc_detected_secrets]. rewrite elem_of_app, list_elem_of_fmap.
  setoid_rewrite list_elem_of_filter. setoid_rewrite detects_occurs. setoid_rewrite elem_of_cons.
  split.
  2: { intros [?|(m' & rule & [->|?] & ? & ? & ?)]; [by do 2 left|left; right; eauto|right; eauto 10]. }
  intros [[?|(rule & -> & ? & ?)]|(m' & rule & ? & ? & ? & ?)]; [by left|right; exists m, rule; tauto|].
  right. exists m', rule. tauto.
Qed.

(** The classification that the personal-data rules detect in one message. *)
Definition dlp_step (content : text) (detected : DataClassification) (rule : DetectionRule) : DataClassification :=
  if bool_decide (is_Some (dr_classification rule)) && detects content rule
  then highest_classification [Some detected; dr_classification rule] else detected.

Lemma dlp_fold content rules detected :
  rank detected ≤ rank (foldl (dlp_step content) detected rules) ∧
  (∀ rule c, rule ∈ rules → dr_classification rule = Some c → detects content rule = true →
    rank c ≤ rank (foldl (dlp_step content) detected rules)) ∧
  (foldl (dlp_step content) detected rules = detected ∨
   ∃ rule, rule ∈ rules ∧ dr_classification rule = Some (foldl (dlp_step content) detected rules) ∧
     detects content rule = true).
Proof.
  revert detected. induction rules as [|r l IH]; intros detected; cbn [foldl].
  { split_and!; [lia| |by left]. by intros ? ? ?%not_elem_of_nil. }
  destruct (IH (dlp_step content detected r)) as (Hge & Hall & Hor).
  assert (rank detected ≤ rank (dlp_step content detected r) ∧
    (∀ c, dr_classification r = Some c → detects content r = true → rank c ≤ rank (dlp_step content detected r)) ∧
    (dlp_step content detected r = detected ∨
     dr_classification r = Some (dlp_step content detected r) ∧ detects content r = true)) as (H1 & H2 & H3).
  { unfold dlp_step. destruct (dr_classification r) as [c|]; [|split_and!; [simpl; lia|done|by left]].
    destruct (detects content r); simpl; [|split_and!; [lia|done|by left]].
    split_and!; [by destruct detected, c|intros ? [= <-] _; by destruct detected, c|].
    destruct detected, c; simpl; tauto. }
  split_and!; [lia| |].
  - intros rule c [->|Hin]%elem_of_cons Hc Hd; [specialize (H2 c Hc Hd); lia|eauto].
  - destruct Hor as [->|(rule & Hin & ? & ?)]; [|right; exists rule; rewrite elem_of_cons; tauto].
    destruct H3 as [->|[? ?]]; [by left|]. right. exists r. rewrite elem_of_cons. tauto.
Qed.

Lemma scan_class_from acc messages :
  let c := sc_detected_classification (foldl scan_message acc messages) in
  rank (sc_detected_classification acc) ≤ rank c ∧
  (∀ m rule d, m ∈ messages → rule ∈ DLP_RULES → dr_classification rule = Some d → occurs rule m → rank d ≤ rank c) ∧
  (c = sc_detected_classification acc ∨
   ∃ m rule, m ∈ messages ∧ rule ∈ DLP_RULES ∧ dr_classification rule = Some c ∧ occurs rule m).
Proof.
  revert acc. induction messages as [|m l IH]; intros acc; cbn [foldl].
  { split_and!; [lia| |by left]. by intros ? ? ? ?%not_elem_of_nil. }
  destruct (IH (scan_message acc m)) as (Hge & Hall & Hor). cbv zeta in *.
  destruct (dlp_fold (String.list_ascii_of_string (dump_message m)) DLP_RULES (sc_detected_classification acc))
    as (D1 & D2 & D3).
  change (foldl (dlp_step _) _ DLP_RULES) with (sc_detected_classification (scan_message acc m)) in *.
  split_and!; [lia| |].
  - intros m' rule d [->|Hin]%elem_of_cons Hr Hd Ho; [|eauto].
    apply detects_occurs in Ho. specialize (D2 rule d Hr Hd Ho). lia.
  - destruct Hor as [->|(m' & rule & ? & ? & ? & ?)].
    + destruct D3 as [->|(rule & ? & ? & Hd%detects_occurs)]; [by left|].
      right. exists m, rule. rewrite elem_of_cons. tauto.
    + right. exists m', rule. rewrite elem_of_cons. tauto.
Qed.


(** ** Decisions *)
Section Decisions.
Context (re_sub : string → option (string → string → string)).

Definition effective_of (messages : list message) (declared : DataClassification) : DataClassification :=
  highest_classification [Some declared; Some (sc_detected_classification (scan_messages messages))].

(** What the rules permit. *)
Definition permitted (rules : GovernanceRules) (messages : list message) (declared : DataClassification)
    (private : bool) : Prop :=
  (gr_secret_detection_enabled rules = true → blocked (scan_messages messages) = false) ∧
  (effective_of messages declared = RESTRICTED →
    gr_allow_restricted_to_private_endpoints rules = true ∧ private = true) ∧
  (effective_of messages declared ≠ RESTRICTED →
    rank (effective_of messages declared) ≤ rank (gr_max_outbound_classification rules)).
Definition approval_free (rules : GovernanceRules) (messages : list message) (declared : DataClassification)
    : Prop :=
  ∀ ceiling, gr_require_approval_above rules = Some ceiling →
    rank (effective_of messages declared) ≤ rank ceiling.

Lemma mask_message_content fs m :
  default "" (dict_get "content" (mask_message fs m)) = rewritten fs m ∧
  ∀ k, k ≠ "content" → dict_get k (mask_message fs m) = dict_get k m.
Proof.
  unfold mask_message. case_bool_decide as Heq; [by rewrite Heq|]. split.
  - by rewrite dict_get_set, decide_True.
  - intros k Hk. by rewrite dict_get_set, decide_False.
Qed.

(** The three denials of the code, as its conditions. *)
Lemma permitted_spec rules messages declared private :
  permitted rules messages declared private ↔
  gr_secret_detection_enabled rules && blocked (scan_messages messages) = false ∧
  bool_decide (effective_of messages declared = RESTRICTED)
    && negb (gr_allow_restricted_to_private_endpoints rules && private) = false ∧
  negb (bool_decide (effective_of messages declared = RESTRICTED))
    && (rank (gr_max_outbound_classification rules) <? rank (effective_of messages declared)) = false.
Proof.
  unfold permitted. rewrite !andb_false_iff, !negb_false_iff, andb_true_iff, Z.ltb_ge.
  rewrite bool_decide_eq_false, bool_decide_eq_true.
  destruct (decide (effective_of messages declared = RESTRICTED)); destruct (gr_secret_detection_enabled rules);
    intuition congruence.
Qed.

Definition above_ceiling (rules : GovernanceRules) (messages : list message) (declared : DataClassification) : bool :=
  match gr_require_approval_above rules with
  | Some ceiling => rank ceiling <? rank (effective_of messages declared)
  | None => false
  end.

Lemma approval_free_spec rules messages declared :
  approval_free rules messages declared ↔ above_ceiling rules messages declared = false.
Proof.
  unfold approval_free, above_ceiling. destruct (gr_require_approval_above rules) as [c|]; [|by split].
  rewrite Z.ltb_ge. split; [auto|by intros ? ? [= <-]].
Qed.

Lemma apply_masks_Some rules messages masked :
  apply_masks re_sub rules messages = Ok (Some masked) →
  masked ≠ messages ∧
  ∃ fs, compile_masks re_sub (gr_mask_patterns rules) = Ok fs ∧ masked = mask_message fs <$> messages.
Proof.
  unfold apply_masks. destruct (gr_mask_patterns rules) as [|p l]; [done|].
  destruct (compile_masks re_sub (p :: l)) as [fs|]; [|done].
  destruct (existsb _ messages) eqn:He; [|done]. intros [= <-]. split; [|by exists fs].
  apply existsb_exists in He as (m & Hm%list_elem_of_In & Hne%negb_true_iff%bool_decide_eq_false).
  intros Heq. apply Hne. apply list_elem_of_lookup in Hm as [i Hi].
  assert ((mask_message fs <$> messages) !! i = Some m) as Hmi by (by rewrite Heq).
  rewrite list_lookup_fmap, Hi in Hmi. simpl in Hmi. injection Hmi as Hmi.
  rewrite <-(proj1 (mask_message_content fs m)). by rewrite Hmi.
Qed.

(** A decision never lowers a classification; it is DENY exactly when the rules do
    not permit the request (a detected secret, RESTRICTED content without the
    private-endpoint exception, or content above the ceiling), NEEDS_APPROVAL exactly
    when it is permitted but above the approval-free ceiling, and otherwise ALLOW or
    MASK; a MASK carries every message with all rewrites applied to its content and
    nothing else changed, and differs from the request. *)
Theorem outbound_decisions_exact rules messages declared private d :
  evaluate_outbound re_sub rules messages declared private = Ok d →
  rank declared ≤ rank (gd_effective_classification d) ∧
  gd_effective_classification d = effective_of messages declared ∧
  (gd_decision d = DENY ↔ ¬ permitted rules messages declared private) ∧
  (gd_decision d = NEEDS_APPROVAL ↔
    permitted rules messages declared private ∧ ¬ approval_free rules messages declared) ∧
  match gd_masked_messages d with
  | Some masked =>
      gd_decision d = MASK ∧ masked ≠ messages ∧
      ∃ fs, compile_masks re_sub (gr_mask_patterns rules) = Ok fs ∧ masked = mask_message fs <$> messages
  | None => gd_decision d ≠ MASK
  end.
Proof.
  unfold evaluate_outbound. cbv zeta. fold (effective_of messages declared).
  assert (rank declared ≤ rank (effective_of messages declared)) as Hraise
    by (unfold effective_of; rewrite highest_pair; lia).
  rewrite permitted_spec, approval_free_spec. fold (above_ceiling rules messages declared).
  destruct (gr_secret_detection_enabled rules && _); [intros [= <-]; simpl; intuition congruence|].
  destruct (bool_decide (effective_of messages declared = RESTRICTED) && _);
    [intros [= <-]; simpl; intuition congruence|].
  destruct (negb (bool_decide (effective_of messages declared = RESTRICTED)) && _);
    [intros [= <-]; simpl; intuition congruence|].
  destruct (above_ceiling rules messages declared); [intros [= <-]; simpl; intuition congruence|].
  destruct (apply_masks re_sub rules messages) as [[masked|]|e] eqn:Hm; [| |done]; intros [= <-]; simpl.
  - apply apply_masks_Some in Hm. intuition congruence.
  - intuition congruence.
Qed.
End Decisions.

(** ** Signatures *)
Lemma classification_value_inj c d : classification_value c = classification_value d → c = d.
Proof. by destruct c, d. Qed.
Lemma opt_classification_inj c d : opt_classification c = opt_classification d → c = d.
Proof. destruct c as [[]|], d as [[]|]; simpl; intros; simplify_eq; done. Qed.

Lemma JObj_lookup (m m' : jobject) k : JObj m = JObj m' → m !! k = m' !! k.
Proof. intros H. by assert (m = m') as -> by congruence. Qed.

Lemma mask_json_inj p q : mask_json p = mask_json q → p = q.
Proof.
  unfold mask_json. intros Hm.
  pose proof (JObj_lookup _ _ "name" Hm) as Hk1. pose proof (JObj_lookup _ _ "regex" Hm) as Hk2.
  pose proof (JObj_lookup _ _ "replacement" Hm) as Hk3. clear Hm.
  rewrite !lookup_insert_eq in Hk1. rewrite !(lookup_insert_ne _ "name"), !lookup_insert_eq in Hk2 by done.
  rewrite !(lookup_insert_ne _ "name"), !(lookup_insert_ne _ "regex"), !lookup_singleton_eq in Hk3 by done.
  destruct p, q; simpl in *. congruence.
Qed.

Lemma masks_json_inj (l l' : list MaskPattern) : mask_json <$> l = mask_json <$> l' → l = l'.
Proof.
  revert l'. induction l as [|x l IH]; intros [|y l'] Hl; [done|done|done|].
  rewrite !fmap_cons in Hl. f_equal; [apply mask_json_inj|apply IH]; congruence.
Qed.

Lemma rules_json_inj r s : rules_json r = rules_json s → r = s.
Proof.
  unfold rules_json. intros Hm.
  pose proof (JObj_lookup _ _ "max_outbound_classification" Hm) as Hk1.
  pose proof (JObj_lookup _ _ "allow_restricted_to_private_endpoints" Hm) as Hk2.
  pose proof (JObj_lookup _ _ "require_approval_above" Hm) as Hk3.
  pose proof (JObj_lookup _ _ "secret_detection_enabled" Hm) as Hk4.
  pose proof (JObj_lookup _ _ "mask_patterns" Hm) as Hk5. clear Hm.
  repeat (rewrite lookup_insert_eq in * || rewrite lookup_singleton_eq in * || rewrite lookup_insert_ne in * by done).
  injection Hk1 as Hk1. injection Hk2 as Hk2. injection Hk3 as Hk3. injection Hk4 as Hk4. injection Hk5 as Hk5.
  destruct r, s; simpl in *. f_equal; auto using classification_value_inj, opt_classification_inj.
  by apply masks_json_inj.
Qed.

Lemma signed_document_inj r v s w : signed_document r v = signed_document s w → r = s ∧ v = w.
Proof.
  unfold signed_document. intros Hm.
  pose proof (JObj_lookup _ _ "rules" Hm) as Hk1. pose proof (JObj_lookup _ _ "version" Hm) as Hk2. clear Hm.
  repeat (rewrite lookup_insert_eq in * || rewrite lookup_insert_ne in * by done).
  injection Hk2 as Hk2. split; [|done]. apply rules_json_inj. congruence.
Qed.

Section Signatures.
Context (canonical : json → string) (hmac_hex : string → string → string).
(** [json.dumps] with sorted keys prints different documents differently. *)
Context (Hcanonical : ∀ j j', canonical j = canonical j' → j = j').

(** Under a signing key, a bundle verifies under the signature it was given; if rules
    or a version other than the signed ones verify under that signature, the two
    canonical texts are different texts with the same HMAC. *)
Theorem signature_binds_rules_and_version rules version key signature :
  sign_bundle canonical hmac_hex rules version key = Ok signature →
  verify_bundle canonical hmac_hex rules version signature key = Ok true ∧
  ∀ rules' version', verify_bundle canonical hmac_hex rules' version' signature key = Ok true →
    (rules' = rules ∧ version' = version) ∨
    (canonical (signed_document rules' version') ≠ canonical (signed_document rules version) ∧
     hmac_hex key (canonical (signed_document rules' version')) =
       hmac_hex key (canonical (signed_document rules version))).
Proof.
  unfold verify_bundle, sign_bundle. case_bool_decide; [done|]. intros [= <-].
  split; [by rewrite bool_decide_eq_true_2|].
  intros rules' version' [= Heq%bool_decide_eq_true].
  destruct (decide (canonical (signed_document rules' version') = canonical (signed_document rules version)))
    as [Hc|Hc]; [|by right].
  left. by apply signed_document_inj, Hcanonical.
Qed.
End Signatures.
