(* ===== verification/PolicyBundles.v ===== *)
(** * Policy bundles (trpc_service/policy_bundles.py, admin_api/policies.py)

    Versioned, signed governance rules: creation, activation with an optional canary
    share, resolution for one decision, and the endpoints that administer them.

    Creating a version reads the next number in one transaction and inserts the row in
    another.  An activation locks only the row it activates, so two activations can
    both read before either writes: it is two steps, the reads and the writes. *)

From S2P Require Import Prelude PyNum PyDict Uuids ExecutionBus ToolRegistry AuditChain AdminAccess Interleave PyRegex Governance.
Open Scope string_scope.
Open Scope list_scope.
Open Scope Z_scope.

Inductive bundle_status := PB_DRAFT | PB_ACTIVE | PB_CANARY | PB_RETIRED.
#[export] Instance bundle_status_eq_dec : EqDecision bundle_status.
Proof. solve_decision. Defined.
Definition bundle_status_text (s : bundle_status) : string :=
  match s with PB_DRAFT => "DRAFT" | PB_ACTIVE => "ACTIVE" | PB_CANARY => "CANARY" | PB_RETIRED => "RETIRED" end.

(** A row of [tenant.policy_bundle], keyed by tenant and version. *)
Record BundleRow := {
  pb_rules : GovernanceRules;
  pb_bundle : json;
  pb_signature : string;
  pb_status : bundle_status;
  pb_canary_percentage : Z;
  pb_created_by : string;
  pb_created_at : instant;
  pb_activated_at : option instant;
}.

Record PolicyDb := {
  pd_admin : AdminDb;
  pd_bundles : gmap (uuid * Z) BundleRow;
}.
Definition set_pd_admin (a : AdminDb) (s : PolicyDb) : PolicyDb :=
  {| pd_admin := a; pd_bundles := pd_bundles s |}.
Definition set_bundles (f : gmap (uuid * Z) BundleRow → gmap (uuid * Z) BundleRow) (s : PolicyDb) : PolicyDb :=
  {| pd_admin := pd_admin s; pd_bundles := f (pd_bundles s) |}.

Inductive PolicyError :=
  | PolicyBundleError (code : string)
  | PolicyGovernance (e : GovernanceError)
  | PolicyAdmin (e : AdminError).
Abbreviation POL := (ST PolicyDb PolicyError).
Abbreviation PPM A := (PM PolicyDb PolicyError A).

Record ResolvedPolicy := { rv_version : Z; rv_rules : GovernanceRules; rv_canary : bool }.

(** The rows of a tenant, by ascending version. *)
Definition tenant_bundles (t : uuid) (s : PolicyDb) : list (Z * BundleRow) :=
  sort_on fst (omap (λ kr : (uuid * Z) * BundleRow, if bool_decide (kr.1.1 = t) then Some (kr.1.2, kr.2) else None)
    (map_to_list (pd_bundles s))).

Section Service.
Context (canonical : json → string) (hmac_hex : string → string → string) (sha256 : bytes → bytes).
Context (signing_key : string).

Definition signed (rules : GovernanceRules) (version : Z) : POL string := λ s,
  match sign_bundle canonical hmac_hex rules version signing_key with
  | Ok signature => (Ok signature, s)
  | Raise e => (Raise (PolicyGovernance e), s)
  end.
Definition verified (rules : GovernanceRules) (version : Z) (signature : string) : POL bool := λ s,
  match verify_bundle canonical hmac_hex rules version signature signing_key with
  | Ok b => (Ok b, s)
  | Raise e => (Raise (PolicyGovernance e), s)
  end.

(** [_next_version]: [coalesce(max(version),0)+1] *)
Definition next_version (t : uuid) (s : PolicyDb) : Z :=
  foldr Z.max 0 (tenant_bundles t s).*1 + 1.

Definition is_signature (s : string) : bool :=
  (String.length s =? 64)%nat
  && forallb (λ c, is_digit c || in_range 97 102 c) (String.list_ascii_of_string s).

(** The insert of [create_version]; key, foreign key and checks refuse it. *)
Definition insert_bundle (now : instant) (t : uuid) (rules : GovernanceRules) (version : Z)
    (signature actor : string) : POL BundleRow :=
  rows ← gets pd_bundles;
  known ← gets (λ s, bool_decide (t ∈ ad_tenants (pd_admin s)));
  let row := {| pb_rules := rules; pb_bundle := compile_bundle rules version; pb_signature := signature;
                pb_status := PB_DRAFT; pb_canary_percentage := 0; pb_created_by := actor;
                pb_created_at := now; pb_activated_at := None |} in
  _ ← ensure (known && bool_decide (rows !! (t, version) = None) && (1 <=? version)
              && is_signature signature && length_between 1 256 actor) (PolicyAdmin IntegrityError);
  _ ← modify (set_bundles <[(t, version) := row]>);
  mret row.

Definition policy_step {A} (fault : txn_fault) (m : POL A) : PPM A :=
  atomically (transaction fault (PolicyAdmin ConnectionLost) m).

(** [create_version] *)
Definition create_version (fault : txn_fault) (now : instant) (t : uuid) (rules : GovernanceRules)
    (actor : string) : PPM (Z * BundleRow) :=
  version <-- policy_step NoFault (gets (next_version t));
  row <-- policy_step fault (
    signature ← signed rules version;
    insert_bundle now t rules version signature actor);
  pm_ret (version, row).

(** ** [activate] *)
Definition retired (r : BundleRow) : BundleRow :=
  {| pb_rules := pb_rules r; pb_bundle := pb_bundle r; pb_signature := pb_signature r;
     pb_status := PB_RETIRED; pb_canary_percentage := 0; pb_created_by := pb_created_by r;
     pb_created_at := pb_created_at r; pb_activated_at := pb_activated_at r |}.
Definition activated (now : instant) (canary_percentage : Z) (r : BundleRow) : BundleRow :=
  {| pb_rules := pb_rules r; pb_bundle := pb_bundle r; pb_signature := pb_signature r;
     pb_status := if 0 <? canary_percentage then PB_CANARY else PB_ACTIVE;
     pb_canary_percentage := canary_percentage; pb_created_by := pb_created_by r;
     pb_created_at := pb_created_at r; pb_activated_at := Some now |}.

(** The rows an activation retires, as its statement finds them. *)
Definition retires (canary_percentage : Z) (r : BundleRow) : bool :=
  match pb_status r with
  | PB_CANARY => true
  | PB_ACTIVE => negb (0 <? canary_percentage)
  | _ => false
  end.
Definition to_retire (t : uuid) (version canary_percentage : Z) (s : PolicyDb) : list Z :=
  (filter (λ vr : Z * BundleRow, vr.1 ≠ version ∧ retires canary_percentage vr.2 = true) (tenant_bundles t s)).*1.

(** The locked row, its verification, and the rows to retire. *)
Definition plan_activation (t : uuid) (version canary_percentage : Z) : POL (list Z) :=
  found ← gets (λ s, pd_bundles s !! (t, version));
  row ← get_or_raise found (PolicyBundleError "POLICY_BUNDLE_NOT_FOUND");
  ok ← verified (pb_rules row) version (pb_signature row);
  _ ← ensure ok (PolicyBundleError "POLICY_BUNDLE_SIGNATURE_INVALID");
  gets (to_retire t version canary_percentage).

Definition apply_activation (now : instant) (t : uuid) (version canary_percentage : Z) (retiring : list Z)
    : POL BundleRow :=
  _ ← ensure ((0 <=? canary_percentage) && (canary_percentage <=? 100)) (PolicyAdmin IntegrityError);
  _ ← modify (set_bundles (λ m, foldr (λ v m, alter retired (t, v) m) m retiring));
  _ ← modify (set_bundles (alter (activated now canary_percentage) (t, version)));
  found ← gets (λ s, pd_bundles s !! (t, version));
  get_or_raise found (PolicyAdmin AdminAssert).

Definition activate (fault : txn_fault) (now : instant) (t : uuid) (version canary_percentage : Z)
    : PPM BundleRow :=
  retiring <-- policy_step NoFault (plan_activation t version canary_percentage);
  policy_step fault (apply_activation now t version canary_percentage retiring).

(** ** [resolve] *)
Definition in_force (r : BundleRow) : bool :=
  match pb_status r with PB_ACTIVE | PB_CANARY => true | _ => false end.
Definition first_with (st : bundle_status) (rows : list (Z * BundleRow)) : option (Z * BundleRow) :=
  head (filter (λ vr : Z * BundleRow, pb_status vr.2 = st) rows).

Definition resolve (t : uuid) (decision_key : string) : POL (option ResolvedPolicy) :=
  rows ← gets (λ s, filter (λ vr : Z * BundleRow, in_force vr.2 = true) (tenant_bundles t s));
  if bool_decide (rows = []) then mret None else
  let stable := first_with PB_ACTIVE rows in
  let canary := first_with PB_CANARY rows in
  _ ← ensure (negb (bool_decide (is_Some canary) && bool_decide (stable = None)))
        (PolicyBundleError "POLICY_BUNDLE_UNAVAILABLE");
  let '(chosen, canary_used) :=
    match canary with
    | Some c => if (0 <? pb_canary_percentage c.2) && (canary_bucket sha256 decision_key <? pb_canary_percentage c.2)
                then (Some c, true) else (stable, false)
    | None => (stable, false)
    end in
  match chosen with
  | None => mret None
  | Some (version, row) =>
      ok ← verified (pb_rules row) version (pb_signature row);
      _ ← ensure ok (PolicyBundleError "POLICY_BUNDLE_SIGNATURE_INVALID");
      mret (Some {| rv_version := version; rv_rules := pb_rules row; rv_canary := canary_used |})
  end.

(** [list_versions], newest first. *)
Definition list_versions (t : uuid) : POL (list (Z * BundleRow)) := gets (λ s, rev (tenant_bundles t s)).

(** [PolicyBundleRulesResolver.resolve_rules] *)
Definition resolve_rules (t : uuid) (decision_key : string) : POL (option GovernanceRules) :=
  resolved ← resolve t decision_key;
  mret (rv_rules <$> resolved).

(** ** Endpoints *)
Context (sha256_hex : string → string) (dumps : json → string) (uuid_at : nat → uuid).

Definition pol_on_admin {A} (m : ADM A) : POL A := λ s,
  match m (pd_admin s) with
  | (Ok a, d) => (Ok a, set_pd_admin d s)
  | (Raise e, d) => (Raise (PolicyAdmin e), set_pd_admin d s)
  end.
Definition pol_access (fault : txn_fault) (now : instant) (p : AdminPrincipal) (t : uuid) (mode : AccessMode)
    (action : string) (target : option string) : PPM unit :=
  atomically (pol_on_admin (require_tenant_access sha256_hex dumps uuid_at fault now p t mode action
    "policy_bundle" target)).

(** [_BUNDLE_FIELDS] of a row. *)
Definition bundle_json (version : Z) (r : BundleRow) : json :=
  JObj (<["version" := JNum version]> (<["rules" := rules_json (pb_rules r)]> (<["bundle" := pb_bundle r]>
       (<["signature" := JStr (pb_signature r)]> (<["status" := JStr (bundle_status_text (pb_status r))]>
       (<["canary_percentage" := JNum (pb_canary_percentage r)]> (<["created_by" := JStr (pb_created_by r)]>
       (<["created_at" := JStr (isoformat (pb_created_at r))]>
       {["activated_at" := match pb_activated_at r with Some a => JStr (isoformat a) | None => JNull end]})))))))).

(** The audit row and the remembered response of a command. *)
Definition record_command (now : instant) (p : AdminPrincipal) (t : uuid) (key operation : string)
    (payload details : jobject) (version : Z) (row : BundleRow) : POL unit :=
  _ ← pol_on_admin (audited sha256_hex dumps uuid_at now (Some p) operation "ALLOW" (Some "policy_bundle")
        (Some (pretty version)) (Some t) details);
  pol_on_admin (remember sha256_hex dumps (ap_subject p) key operation payload (bundle_json version row)).

Definition create_payload (t : uuid) (rules : GovernanceRules) : jobject :=
  <["tenant_id" := JStr (uuid_text t)]> {["rules" := rules_json rules]}.
Definition activate_payload (t : uuid) (version canary_percentage : Z) : jobject :=
  <["tenant_id" := JStr (uuid_text t)]> (<["version" := JNum version]>
    {["canary_percentage" := JNum canary_percentage]}).

(** [create_bundle] *)
Definition create_bundle (f1 f2 f3 : txn_fault) (now : instant) (p : AdminPrincipal) (t : uuid)
    (rules : GovernanceRules) (key : string) : PPM json :=
  _ <-- pol_access f1 now p t WriteAccess "policy_bundle.create" None;
  let payload := create_payload t rules in
  replayed <-- policy_step NoFault
    (pol_on_admin (replay_for sha256_hex dumps (ap_subject p) key "policy_bundle.create" payload));
  match replayed with
  | Some response => pm_ret response
  | None =>
      created <-- create_version f2 now t rules (ap_subject p);
      _ <-- policy_step f3 (record_command now p t key "policy_bundle.create" payload
              {["signature" := JStr (pb_signature created.2)]} created.1 created.2);
      pm_ret (bundle_json created.1 created.2)
  end.

(** [activate_bundle] *)
Definition activate_bundle (f1 f2 f3 : txn_fault) (now : instant) (p : AdminPrincipal) (t : uuid)
    (version canary_percentage : Z) (key : string) : PPM json :=
  _ <-- pol_access f1 now p t WriteAccess "policy_bundle.activate" (Some (pretty version));
  let payload := activate_payload t version canary_percentage in
  replayed <-- policy_step NoFault
    (pol_on_admin (replay_for sha256_hex dumps (ap_subject p) key "policy_bundle.activate" payload));
  match replayed with
  | Some response => pm_ret response
  | None =>
      row <-- pm_catch (activate f2 now t version canary_percentage) (λ e,
        match e with
        | PolicyBundleError code =>
            pm_raise (PolicyAdmin (Http (if bool_decide (code = "POLICY_BUNDLE_NOT_FOUND") then 404 else 409) code))
        | _ => pm_raise e
        end);
      _ <-- policy_step f3 (record_command now p t key "policy_bundle.activate" payload
              (<["status" := JStr (bundle_status_text (pb_status row))]>
               {["canary_percentage" := JNum canary_percentage]}) version row);
      pm_ret (bundle_json version row)
  end.

(** [list_bundles]: a page after [cursor], and where the next one starts. *)
Definition list_bundles (fault : txn_fault) (now : instant) (p : AdminPrincipal) (t : uuid) (cursor : Z)
    (limit : nat) : PPM (list (Z * BundleRow) * option Z) :=
  _ <-- pol_access fault now p t ReadAccess "policy_bundle.list" None;
  versions <-- policy_step NoFault (list_versions t);
  let page := take limit (filter (λ vr : Z * BundleRow, cursor < vr.1) (sort_on fst versions)) in
  pm_ret (page, if (length page =? limit)%nat then fst <$> last page else None).

(** [verify_bundle_signature] *)
Definition verify_bundle_signature (fault : txn_fault) (now : instant) (p : AdminPrincipal) (t : uuid)
    (version : Z) : PPM bool :=
  _ <-- pol_access fault now p t ReadAccess "policy_bundle.verify" (Some (pretty version));
  versions <-- policy_step NoFault (list_versions t);
  match head (filter (λ vr : Z * BundleRow, vr.1 = version) versions) with
  | None => pm_raise (PolicyAdmin (Http 404 "POLICY_BUNDLE_NOT_FOUND"))
  | Some (_, row) => atomically (verified (pb_rules row) version (pb_signature row))
  end.
End Service.
