(* ===== verification/PolicyTheorems.v ===== *)
(** * Theorems on policy bundles

    Commands interleave at the steps of PolicyBundles; a command that crashes is one
    that is not scheduled again. *)

From S2P Require Import Prelude PyNum PyDict Uuids Interleave ExecutionBus SampleCodec AuditChain ToolRegistry AdminAccess PyRegex Governance GovernanceTheorems PolicyBundles.
Open Scope string_scope.
Open Scope list_scope.
Open Scope Z_scope.

(** ** Retiring several rows *)
Lemma foldr_retire_lookup (t : uuid) (l : list Z) (m : gmap (uuid * Z) BundleRow) (u : uuid) (v : Z) :
  NoDup l →
  foldr (λ v m, alter retired (t, v) m) m l !! (u, v) =
    (if bool_decide (u = t ∧ v ∈ l) then retired else id) <$> m !! (u, v).
Proof.
  induction l as [|w l IH]; intros Hnd; simpl.
  { rewrite bool_decide_eq_false_2 by (intros [_ ?]; set_solver). by rewrite option_fmap_id. }
  apply NoDup_cons in Hnd as [Hw Hnd]. destruct (decide ((t, w) = (u, v))) as [[= -> ->]|Hne].
  - rewrite lookup_alter_eq, IH by done. rewrite bool_decide_eq_false_2 by tauto.
    rewrite bool_decide_eq_true_2 by set_solver. by rewrite option_fmap_id.
  - rewrite lookup_alter_ne, IH by done.
    assert (u = t ∧ v ∈ l ↔ u = t ∧ v ∈ w :: l) as Hiff.
    { rewrite elem_of_cons. split; [tauto|]. intros [-> [->|?]]; [done|tauto]. }
    by rewrite (bool_decide_ext _ _ Hiff).
Qed.

Section Policies.
Context (canonical : json → string) (hmac_hex : string → string → string) (sha256 : bytes → bytes).
Context (signing_key : string) (sha256_hex : string → string) (dumps : json → string) (uuid_at : nat → uuid).
Abbreviation sign := (sign_bundle canonical hmac_hex).

(** ** Rows of a tenant *)
Lemma elem_of_tenant_bundles t s v r : (v, r) ∈ tenant_bundles t s ↔ pd_bundles s !! (t, v) = Some r.
Proof.
  unfold tenant_bundles. rewrite sort_on_perm, list_elem_of_omap. split.
  - intros ([[u w] x] & Hx%elem_of_map_to_list & Heq). simpl in Heq. case_bool_decide; by simplify_eq.
  - intros Hr. exists ((t, v), r). rewrite elem_of_map_to_list. split; [done|]. simpl. by rewrite bool_decide_eq_true_2.
Qed.

Lemma elem_of_to_retire t v pct s u :
  u ∈ to_retire t v pct s ↔ u ≠ v ∧ ∃ r, pd_bundles s !! (t, u) = Some r ∧ retires pct r = true.
Proof.
  unfold to_retire. rewrite list_elem_of_fmap. split.
  - intros ([w r] & -> & [[Hne Hr] Hin]%list_elem_of_filter). simpl in *.
    apply elem_of_tenant_bundles in Hin. eauto.
  - intros (Hne & r & Hr & Hret). exists (u, r). split; [done|]. rewrite list_elem_of_filter.
    split; [done|]. by apply elem_of_tenant_bundles.
Qed.

(** ** What every step keeps *)
Record row_signed (v : Z) (r : BundleRow) : Prop := {
  rs_signature : sign (pb_rules r) v signing_key = Ok (pb_signature r);
  rs_bundle : pb_bundle r = compile_bundle (pb_rules r) v;
  rs_canary : 0 < pb_canary_percentage r ↔ pb_status r = PB_CANARY;
  rs_share : 0 ≤ pb_canary_percentage r ≤ 100;
}.
Definition BundleInv (s : PolicyDb) : Prop := ∀ t v r, pd_bundles s !! (t, v) = Some r → row_signed v r.

(** The columns that no command changes. *)
Definition same_bundle (r r' : BundleRow) : Prop :=
  pb_rules r' = pb_rules r ∧ pb_bundle r' = pb_bundle r ∧ pb_signature r' = pb_signature r ∧
  pb_created_by r' = pb_created_by r ∧ pb_created_at r' = pb_created_at r ∧
  (pb_status r ≠ PB_DRAFT → pb_status r' ≠ PB_DRAFT).
Definition bundle_guar (s s' : PolicyDb) : Prop :=
  ∀ k r, pd_bundles s !! k = Some r → ∃ r', pd_bundles s' !! k = Some r' ∧ same_bundle r r'.

#[local] Instance bundle_guar_refl : Reflexive bundle_guar.
Proof. intros s k r Hr. by exists r. Qed.
#[local] Instance bundle_guar_trans : Transitive bundle_guar.
Proof.
  intros s1 s2 s3 H12 H23 k r Hr. destruct (H12 k r Hr) as (r' & Hr' & ? & ? & ? & ? & ? & Hst).
  destruct (H23 k r' Hr') as (r'' & Hr'' & ? & ? & ? & ? & ? & Hst'). exists r''. split; [done|].
  repeat split; [congruence..|auto].
Qed.

Definition keeps_bundles (s s' : PolicyDb) : Prop := BundleInv s → BundleInv s' ∧ bundle_guar s s'.

Lemma keeps_refl s : keeps_bundles s s.
Proof. intros ?. by split. Qed.
Lemma keeps_trans s1 s2 s3 : keeps_bundles s1 s2 → keeps_bundles s2 s3 → keeps_bundles s1 s3.
Proof. intros H1 H2 Hi. destruct (H1 Hi) as [Hi' ?]. destruct (H2 Hi'). split; [done|by transitivity s2]. Qed.
Lemma keeps_admin a s : keeps_bundles s (set_pd_admin a s).
Proof. intros Hi. split; [exact Hi|]. intros k r Hr. by exists r. Qed.

(** A row that is rewritten by [f] under its key. *)
Lemma keeps_alter f k s :
  (∀ r, row_signed k.2 r → row_signed k.2 (f r) ∧ same_bundle r (f r)) →
  keeps_bundles s (set_bundles (alter f k) s).
Proof.
  intros Hf Hi. split.
  - intros t v r. simpl. destruct (decide (k = (t, v))) as [->|Hk].
    + rewrite lookup_alter_eq. destruct (pd_bundles s !! (t, v)) as [r0|] eqn:Hr; [|done].
      intros [= <-]. apply Hf. by eapply Hi.
    + rewrite lookup_alter_ne by done. apply Hi.
  - intros k' r Hr. simpl. destruct (decide (k = k')) as [->|Hk].
    + rewrite lookup_alter_eq, Hr. exists (f r). split; [done|]. apply Hf. destruct k'. by eapply Hi.
    + rewrite lookup_alter_ne by done. by exists r.
Qed.

Lemma keeps_retire t l s :
  keeps_bundles s (set_bundles (λ m, foldr (λ v m, alter retired (t, v) m) m l) s).
Proof.
  induction l as [|v l IH]; simpl.
  - destruct s. apply keeps_refl.
  - eapply keeps_trans; [exact IH|].
    apply (keeps_alter retired (t, v) (set_bundles (λ m, foldr (λ v m, alter retired (t, v) m) m l) s)).
    intros r [Hs Hb Hc Hp]. split; [|by repeat split]. split; simpl; [done|done|by split|lia].
Qed.

Lemma insert_bundle_keeps now t rules v signature actor s a s' :
  sign rules v signing_key = Ok signature →
  insert_bundle now t rules v signature actor s = (Ok a, s') → keeps_bundles s s'.
Proof.
  intros Hsig Hrun Hi. unfold insert_bundle in Hrun. run_inv.
  rewrite !andb_true_iff, !bool_decide_eq_true in *. destruct_and!. split.
  - intros u w r. simpl. intros [[[= <- <-] <-]|[_ Hr]]%lookup_insert_Some; [|by eapply Hi].
    split; simpl; [done|done|by split|lia].
  - intros k r Hr. simpl. exists r. rewrite lookup_insert_ne by congruence. done.
Qed.

Lemma signed_Ok rules v s a s' :
  signed canonical hmac_hex signing_key rules v s = (Ok a, s') → sign rules v signing_key = Ok a ∧ s' = s.
Proof. unfold signed. case_match; intros; by simplify_eq. Qed.
Lemma verified_Ok rules v sg s b s' :
  verified canonical hmac_hex signing_key rules v sg s = (Ok b, s') →
  s' = s ∧ (b = true ↔ sign rules v signing_key = Ok sg).
Proof.
  unfold verified, verify_bundle. destruct (sign_bundle _ _ _ _ _) as [e|]; intros; simplify_eq. split; [done|].
  rewrite bool_decide_eq_true. split; [by intros ->|by intros [= ->]].
Qed.

Lemma plan_activation_frame t v pct s a s' :
  plan_activation canonical hmac_hex signing_key t v pct s = (Ok a, s') → s' = s.
Proof.
  unfold plan_activation. intros Hrun. run_inv.
  match goal with Hv : verified _ _ _ _ _ _ _ = _ |- _ => by apply verified_Ok in Hv as [-> _] end.
Qed.

Lemma apply_activation_keeps now t v pct l s a s' :
  apply_activation now t v pct l s = (Ok a, s') → keeps_bundles s s'.
Proof.
  unfold apply_activation. intros Hrun. run_inv. rewrite andb_true_iff, !Z.leb_le in *. destruct_and!.
  eapply keeps_trans; [apply (keeps_retire t l)|]. apply keeps_alter. intros r [Hs Hb Hc Hp]. split.
  - split; simpl; [done|done| |lia]. destruct (Z.ltb_spec 0 pct); split; done || lia.
  - repeat split; simpl. intros _. by case_match.
Qed.

Lemma record_command_keeps now p t key op payload details v row s a s' :
  record_command sha256_hex dumps uuid_at now p t key op payload details v row s = (Ok a, s') → keeps_bundles s s'.
Proof.
  assert (∀ A (m : ADM A) s a s', pol_on_admin m s = (Ok a, s') → keeps_bundles s s') as Hadm.
  { intros A m s0 a0 s0'. unfold pol_on_admin. destruct (m _) as [[]?]; intros; simplify_eq. apply keeps_admin. }
  unfold record_command. intros Hrun. run_inv. eapply keeps_trans; [by eapply Hadm|by eapply Hadm].
Qed.

(** ** Programs *)
Abbreviation safe := (proc_safe BundleInv bundle_guar bundle_guar).
Abbreviation anything := (λ _ _, True).

Lemma policy_step_safe {A} fault (m : POL A) (J : Prop) :
  (J → ∀ s a s', m s = (Ok a, s') → keeps_bundles s s') → safe (returns anything) (λ _, J) (policy_step fault m).
Proof.
  intros Hm. apply returns_step; [|done|done]. apply good_transaction; [by intros s|].
  intros s a s' Hi Hj Hrun. by apply (Hm Hj s a s').
Qed.

Lemma policy_step_pure {A} fault (m : POL A) J :
  (∀ s a s', m s = (Ok a, s') → keeps_bundles s s') → safe (returns anything) J (policy_step fault m).
Proof. intros Hm. eapply safe_weaken; [by apply (policy_step_safe fault m True)|done]. Qed.

Lemma pol_on_admin_safe {A} (m : ADM A) J : safe (returns anything) J (atomically (pol_on_admin m)).
Proof.
  apply returns_step; [|done|done]. intros s Hi _. unfold pol_on_admin.
  destruct (m _) as [[]?]; simpl; by apply keeps_admin.
Qed.

Lemma replayed_safe {A} fault (m : ADM A) J : safe (returns anything) J (policy_step fault (pol_on_admin m)).
Proof.
  apply policy_step_pure. intros s a s'. unfold pol_on_admin. destruct (m _) as [[]?]; intros; simplify_eq.
  apply keeps_admin.
Qed.

Lemma create_version_safe fault now t rules actor J :
  safe (returns anything) J (create_version canonical hmac_hex signing_key fault now t rules actor).
Proof.
  unfold create_version. eapply returns_bind; [apply policy_step_pure; intros s a s' Hrun; run_inv; apply keeps_refl|].
  intros v. eapply returns_bind; [|intros row; by apply returns_ret].
  apply policy_step_pure. intros s a s' (sg & s1 & [Hs ->]%signed_Ok & Hrun)%bind_Ok. by eapply insert_bundle_keeps.
Qed.

Lemma activate_safe fault now t v pct J :
  safe (returns anything) J (activate canonical hmac_hex signing_key fault now t v pct).
Proof.
  unfold activate. eapply returns_bind.
  - apply policy_step_pure. intros s a s' ->%plan_activation_frame. apply keeps_refl.
  - intros l. apply policy_step_pure. intros s a s'. apply apply_activation_keeps.
Qed.

Lemma create_bundle_safe f1 f2 f3 now p t rules key J :
  safe (returns anything) J
    (create_bundle canonical hmac_hex signing_key sha256_hex dumps uuid_at f1 f2 f3 now p t rules key).
Proof.
  unfold create_bundle. eapply returns_bind; [apply pol_on_admin_safe|]. intros ?. cbv zeta.
  eapply returns_bind; [apply replayed_safe|]. intros [response|]; [by apply returns_ret|].
  eapply returns_bind; [apply create_version_safe|]. intros created.
  eapply returns_bind; [apply policy_step_pure; intros s0 b0 s1; apply record_command_keeps|].
  intros ?. by apply returns_ret.
Qed.

Lemma activate_bundle_safe f1 f2 f3 now p t v pct key J :
  safe (returns anything) J
    (activate_bundle canonical hmac_hex signing_key sha256_hex dumps uuid_at f1 f2 f3 now p t v pct key).
Proof.
  unfold activate_bundle. eapply returns_bind; [apply pol_on_admin_safe|]. intros ?. cbv zeta.
  eapply returns_bind; [apply replayed_safe|]. intros [response|]; [by apply returns_ret|].
  eapply returns_bind.
  - apply returns_catch; [apply activate_safe|]. intros e. destruct e; apply returns_raise.
  - intros row. eapply returns_bind; [apply policy_step_pure; intros s0 b0 s1; apply record_command_keeps|].
    intros ?. by apply returns_ret.
Qed.

(** ** Commands in any order *)
Record PolicySystem := { ps_db : PolicyDb; ps_commands : list (PPM json) }.

Inductive policy_run : PolicySystem → PolicySystem → Prop :=
  | pr_create s f1 f2 f3 now p t rules key :
      policy_run s {| ps_db := ps_db s; ps_commands := ps_commands s ++
        [create_bundle canonical hmac_hex signing_key sha256_hex dumps uuid_at f1 f2 f3 now p t rules key] |}
  | pr_activate s f1 f2 f3 now p t v pct key :
      policy_run s {| ps_db := ps_db s; ps_commands := ps_commands s ++
        [activate_bundle canonical hmac_hex signing_key sha256_hex dumps uuid_at f1 f2 f3 now p t v pct key] |}
  | pr_step d l next effect l' :
      policy_run {| ps_db := d; ps_commands := l ++ Step next effect :: l' |}
        {| ps_db := effect d; ps_commands := l ++ next d :: l' |}.

Definition policy_ok (s : PolicySystem) : Prop :=
  BundleInv (ps_db s) ∧ Forall (runs_safely BundleInv bundle_guar bundle_guar (ps_db s)) (ps_commands s).

Lemma command_added d l (p : PPM json) :
  policy_ok {| ps_db := d; ps_commands := l |} → safe (returns anything) (λ _, True) p →
  policy_ok {| ps_db := d; ps_commands := l ++ [p] |} ∧ bundle_guar d d.
Proof.
  intros [Hi Hl] Hp. split; [|reflexivity]. split; [exact Hi|]. apply Forall_app. split; [exact Hl|].
  apply Forall_singleton. exists (λ _, True), (returns anything). split; [done|]. split; [done|exact Hp].
Qed.

Lemma policy_run_ok s s' :
  policy_run s s' → policy_ok s → policy_ok s' ∧ bundle_guar (ps_db s) (ps_db s').
Proof.
  intros Hstep [Hi Hl]. destruct Hstep as [s f1 f2 f3 now p t rules key|s f1 f2 f3 now p t v pct key|d l next effect l'];
    simpl in *.
  1: { apply command_added; [split; [exact Hi|exact Hl]|apply create_bundle_safe]. }
  1: { apply command_added; [split; [exact Hi|exact Hl]|apply activate_bundle_safe]. }
  apply Forall_app in Hl as [Hl1 [Hp Hl2]%Forall_cons].
  destruct (runs_safely_step _ _ _ d next effect Hi Hp) as (Hi' & Hg & Hp').
  split; [|done]. split; [done|]. simpl. apply Forall_app. split; [|constructor; [done|]].
  - eapply Forall_impl; [exact Hl1|]. intros q. by apply runs_safely_interference.
  - eapply Forall_impl; [exact Hl2|]. intros q. by apply runs_safely_interference.
Qed.

Lemma policy_runs_ok s s' :
  rtc policy_run s s' → policy_ok s → policy_ok s' ∧ bundle_guar (ps_db s) (ps_db s').
Proof.
  induction 1 as [s|s1 s2 s3 Hstep _ IH]; intros Hok; [by split|].
  destruct (policy_run_ok _ _ Hstep Hok) as [Hok' Hg]. destruct (IH Hok') as [? Hg'].
  split; [done|]. by transitivity (ps_db s2).
Qed.

Definition empty_policies (admin : AdminDb) : PolicySystem :=
  {| ps_db := {| pd_admin := admin; pd_bundles := ∅ |}; ps_commands := [] |}.
Lemma empty_policies_ok admin : policy_ok (empty_policies admin).
Proof. split; [by intros t v r|constructor]. Qed.

(** ** Resolution *)
Definition has_status (t : uuid) (st : bundle_status) (s : PolicyDb) : Prop :=
  ∃ v r, pd_bundles s !! (t, v) = Some r ∧ pb_status r = st.

Lemma first_with_Some t s st v r :
  first_with st (filter (λ vr : Z * BundleRow, in_force vr.2 = true) (tenant_bundles t s)) = Some (v, r) →
  pd_bundles s !! (t, v) = Some r ∧ pb_status r = st.
Proof.
  intros [[_ Hin]%list_elem_of_filter Hst]%head_filter_Some. by apply elem_of_tenant_bundles in Hin.
Qed.
Lemma first_with_None t s st :
  (st = PB_ACTIVE ∨ st = PB_CANARY) →
  first_with st (filter (λ vr : Z * BundleRow, in_force vr.2 = true) (tenant_bundles t s)) = None →
  ¬ has_status t st s.
Proof.
  intros Hf Hnone (v & r & Hr & Hst). apply (head_filter_None _ _ Hnone (v, r)); [|done].
  apply list_elem_of_filter. split; [|by apply elem_of_tenant_bundles]. simpl. unfold in_force. rewrite Hst.
  by destruct Hf; subst.
Qed.

(** What a resolution returns on rows that carry their signature. *)
Lemma resolve_spec t key s :
  BundleInv s →
  let '(r, s') := resolve canonical hmac_hex sha256 signing_key t key s in
  s' = s ∧
  match r with
  | Ok None => ¬ has_status t PB_ACTIVE s ∧ ¬ has_status t PB_CANARY s
  | Ok (Some p) =>
      has_status t PB_ACTIVE s ∧
      ∃ row, pd_bundles s !! (t, rv_version p) = Some row ∧ rv_rules p = pb_rules row ∧
        sign (pb_rules row) (rv_version p) signing_key = Ok (pb_signature row) ∧
        if rv_canary p then pb_status row = PB_CANARY ∧ canary_bucket sha256 key < pb_canary_percentage row
        else pb_status row = PB_ACTIVE ∧
          (has_status t PB_CANARY s → ∃ w x, pd_bundles s !! (t, w) = Some x ∧ pb_status x = PB_CANARY ∧
            pb_canary_percentage x ≤ canary_bucket sha256 key)
  | Raise e => e = PolicyBundleError "POLICY_BUNDLE_UNAVAILABLE" ∧ has_status t PB_CANARY s ∧
      ¬ has_status t PB_ACTIVE s
  end.
Proof.
  intros Hi. unfold resolve. unfold gets at 1. unfold mbind at 1, ST_mbind at 1.
  set (rows := filter _ (tenant_bundles t s)).
  case_bool_decide as Hrows.
  { split; [done|]. split; intros (v & r & Hr & Hst); apply (not_elem_of_nil (v, r)); rewrite <-Hrows;
      apply list_elem_of_filter; (split; [simpl; unfold in_force; by rewrite Hst|by apply elem_of_tenant_bundles]). }
  destruct (first_with PB_ACTIVE rows) as [[v r]|] eqn:Hst.
  - rewrite (bool_decide_eq_false_2 (Some (v, r) = None)) by done. rewrite andb_false_r. simpl.
    apply first_with_Some in Hst as [Hr Hact].
    assert (has_status t PB_ACTIVE s) as Hhas by (by exists v, r).
    assert (∀ w x, pd_bundles s !! (t, w) = Some x →
      verified canonical hmac_hex signing_key (pb_rules x) w (pb_signature x) s = (Ok true, s)) as Hver.
    { intros w x Hx. destruct (Hi _ _ _ Hx) as [Hs _ _ _]. unfold verified, verify_bundle. rewrite Hs.
      by rewrite bool_decide_eq_true_2. }
    destruct (first_with PB_CANARY rows) as [[w x]|] eqn:Hcan.
    + apply first_with_Some in Hcan as [Hx Hc]. simpl.
      destruct ((0 <? pb_canary_percentage x) && _) eqn:Hb; unfold mbind, ST_mbind, mret, ST_mret;
        cbv beta iota; rewrite (Hver _ _) by done; simpl; split; try done; split; try done.
      * apply andb_true_iff in Hb as [_ Hb%Z.ltb_lt]. exists x. split_and!; try done. by destruct (Hi _ _ _ Hx).
      * exists r. split_and!; try done; [by destruct (Hi _ _ _ Hr)|]. intros _. exists w, x. split_and!; try done.
        destruct (Hi _ _ _ Hx) as [_ _ [_ Hpos] _]. specialize (Hpos Hc).
        apply andb_false_iff in Hb as [Hb%Z.ltb_ge|Hb%Z.ltb_ge]; lia.
    + apply first_with_None in Hcan; [|by right]. unfold mbind, ST_mbind, mret, ST_mret. cbv beta iota. rewrite (Hver _ _) by done. simpl. split; [done|]. split; [done|].
      exists r. split_and!; try done. by destruct (Hi _ _ _ Hr).
  - rewrite (bool_decide_eq_true_2 (None = None)) by done. rewrite andb_true_r.
    apply first_with_None in Hst; [|by left].
    destruct (first_with PB_CANARY rows) as [[w x]|] eqn:Hcan.
    + apply first_with_Some in Hcan as [Hx Hc]. rewrite bool_decide_eq_true_2 by eauto. simpl.
      split_and!; try done. by exists w, x.
    + apply first_with_None in Hcan; [|by right]. rewrite bool_decide_eq_false_2 by (by intros [? ?]). simpl.
      split_and!; done.
Qed.


(** ** One activation at a time *)
Lemma NoDup_omap_inj {A B} (f : A → option B) (l : list A) :
  (∀ x y z, f x = Some z → f y = Some z → x = y) → NoDup l → NoDup (omap f l).
Proof.
  intros Hf. induction 1 as [|x l Hx _ IH]; [constructor|]. cbn.
  destruct (f x) as [z|] eqn:Hz; [|done]. apply NoDup_cons. split; [|done].
  intros (y & Hy & Hyz)%list_elem_of_omap. by rewrite (Hf x y z Hz Hyz) in Hx.
Qed.

Lemma NoDup_to_retire t v pct s : NoDup (to_retire t v pct s).
Proof.
  unfold to_retire. apply NoDup_fmap_2_strong.
  - intros [w r] [w' r'] [_ Hin]%list_elem_of_filter [_ Hin']%list_elem_of_filter Heq. simpl in Heq. subst w'.
    apply elem_of_tenant_bundles in Hin, Hin'. congruence.
  - apply NoDup_filter. unfold tenant_bundles. rewrite sort_on_perm.
    apply NoDup_omap_inj; [|apply NoDup_map_to_list].
    intros [[u w] x] [[u' w'] x'] y Hx Hx'. simpl in *. repeat case_bool_decide; simplify_eq. done.
Qed.

(** The rows after an activation that runs alone. *)
Definition after_activation (now : instant) (t : uuid) (v pct : Z) (u : uuid) (w : Z) (r : BundleRow) : BundleRow :=
  if bool_decide (u = t) then
    if bool_decide (w = v) then activated now pct r else if retires pct r then retired r else r
  else r.

(** The writes of an activation, row by row. *)
Lemma activation_rows now t v pct s u w :
  alter (activated now pct) (t, v)
    (foldr (λ v m, alter retired (t, v) m) (pd_bundles s) (to_retire t v pct s)) !! (u, w) =
  after_activation now t v pct u w <$> pd_bundles s !! (u, w).
Proof.
  clear canonical hmac_hex sha256 signing_key sha256_hex dumps uuid_at. destruct (decide ((t, v) = (u, w))) as [[= -> ->]|Hne].
  - rewrite lookup_alter_eq, foldr_retire_lookup by apply NoDup_to_retire.
    rewrite bool_decide_eq_false_2 by (rewrite elem_of_to_retire; tauto). rewrite option_fmap_id.
    unfold after_activation. by rewrite !bool_decide_eq_true_2.
  - rewrite lookup_alter_ne, foldr_retire_lookup by (done || apply NoDup_to_retire).
    destruct (pd_bundles s !! (u, w)) as [r|] eqn:Hr; [|done]. simpl. f_equal. unfold after_activation.
    destruct (decide (u = t)) as [->|Hu]; [|by rewrite !bool_decide_eq_false_2 by tauto].
    rewrite (bool_decide_eq_true_2 (t = t)), (bool_decide_eq_false_2 (w = v)) by congruence.
    rewrite (bool_decide_ext _ (retires pct r = true)); [by destruct (retires pct r)|].
    rewrite elem_of_to_retire, Hr. clear -Hne. split; [naive_solver|]. intros. split; [done|].
    split; [congruence|]. by exists r.
Qed.

Lemma activate_Ok now t v pct s row s' :
  BundleInv s →
  run_proc (activate canonical hmac_hex signing_key NoFault now t v pct) s = (Ok row, s') →
  BundleInv s' ∧ pd_bundles s' !! (t, v) = Some row ∧
  ∀ u w, pd_bundles s' !! (u, w) = after_activation now t v pct u w <$> pd_bundles s !! (u, w).
Proof.
  clear sha256_hex dumps uuid_at. intros Hi Hrun. unfold activate, policy_step in Hrun. rewrite run_atomically in Hrun.
  destruct (transaction NoFault _ (plan_activation _ _ _ _ _ _) s) as [[l|e] s1] eqn:Hplan; [|done].
  apply transaction_Ok in Hplan as [_ Hplan]. pose proof (plan_activation_frame _ _ _ _ _ _ Hplan) as ->.
  assert (l = to_retire t v pct s) as -> by (unfold plan_activation in Hplan; by run_inv).
  simpl in Hrun.
  destruct (transaction NoFault _ (apply_activation _ _ _ _ _) s) as [r1 s2] eqn:Happ. simpl in Hrun.
  injection Hrun as -> ->. apply transaction_Ok in Happ as [_ Happ].
  pose proof (apply_activation_keeps _ _ _ _ _ _ _ _ Happ Hi) as [Hi' _].
  unfold apply_activation in Happ. run_inv. split_and!; [done|done|]. intros u w. apply activation_rows.
Qed.

(** Which row is in force, or the canary, afterwards. *)
Lemma after_activation_force now t v w r :
  in_force (after_activation now t v 0 t w r) = true → w = v.
Proof.
  unfold after_activation. rewrite (bool_decide_eq_true_2 (t = t)) by done. case_bool_decide; [done|].
  unfold retires, in_force. simpl. by destruct (pb_status r) eqn:Hst; simpl; rewrite ?Hst.
Qed.
Lemma after_activation_canary now t v pct w r :
  0 < pct → pb_status (after_activation now t v pct t w r) = PB_CANARY → w = v.
Proof.
  intros Hpct. unfold after_activation. rewrite (bool_decide_eq_true_2 (t = t)) by done. case_bool_decide; [done|].
  unfold retires. destruct (pb_status r) eqn:Hst; simpl; try done; try congruence.
  by rewrite (proj2 (Z.ltb_lt _ _) Hpct); simpl; congruence.
Qed.

(** Resolution with one canary next to a stable version. *)
Lemma canary_resolves t v row s key :
  BundleInv s → has_status t PB_ACTIVE s → pd_bundles s !! (t, v) = Some row → pb_status row = PB_CANARY →
  (∀ w r, pd_bundles s !! (t, w) = Some r → pb_status r = PB_CANARY → w = v) →
  ∃ p, (resolve canonical hmac_hex sha256 signing_key t key s).1 = Ok (Some p) ∧
    (rv_canary p = true ↔ canary_bucket sha256 key < pb_canary_percentage row) ∧
    (rv_canary p = true → rv_version p = v).
Proof.
  clear sha256_hex dumps uuid_at. intros Hi Hstable Hrow Hcan Honly. pose proof (resolve_spec t key s Hi) as Hres.
  destruct (resolve _ _ _ _ _ _ s) as [[[p|]|e] s3]; [|naive_solver..].
  destruct Hres as (_ & _ & x & Hx & _ & _ & Hcase). exists p. split; [done|].
  destruct (rv_canary p).
  - destruct Hcase as [Hxc Hb]. assert (rv_version p = v) as Hv by (by eapply Honly).
    rewrite Hv, Hrow in Hx. simplify_eq. done.
  - destruct Hcase as [_ Hnone]. destruct Hnone as (w' & x' & Hx' & Hxc & Hb); [by exists v, row|].
    assert (w' = v) as -> by (by eapply Honly). rewrite Hrow in Hx'. simplify_eq.
    split; [|done]. split; [done|lia].
Qed.

(** An activation that runs alone returns the row it activated, retires exactly the
    canary of the tenant (and, without a share, its stable version too), and touches
    nothing else.  Without a share the activated version is then the only one in
    force; with a share it is the only canary, and resolution answers with it exactly
    for the decisions whose bucket lies below the share while a stable version other
    than it exists. *)
Theorem activation_switches_versions now t v pct s row s' :
  BundleInv s →
  run_proc (activate canonical hmac_hex signing_key NoFault now t v pct) s = (Ok row, s') →
  pd_bundles s' !! (t, v) = Some row ∧
  (∀ u w, pd_bundles s' !! (u, w) = after_activation now t v pct u w <$> pd_bundles s !! (u, w)) ∧
  (pct = 0 → ∀ w r, pd_bundles s' !! (t, w) = Some r → in_force r = true → w = v) ∧
  (0 < pct → ∀ w r, pd_bundles s' !! (t, w) = Some r → pb_status r = PB_CANARY → w = v) ∧
  (0 < pct → (∃ w r, w ≠ v ∧ pd_bundles s !! (t, w) = Some r ∧ pb_status r = PB_ACTIVE) →
    ∀ key, ∃ p, (resolve canonical hmac_hex sha256 signing_key t key s').1 = Ok (Some p) ∧
      (rv_canary p = true ↔ canary_bucket sha256 key < pct) ∧ (rv_canary p = true → rv_version p = v)).
Proof.
  clear sha256_hex dumps uuid_at. intros Hi Hrun.
  destruct (activate_Ok _ _ _ _ _ _ _ Hi Hrun) as (Hi' & Hnow & Hall).
  assert (0 < pct → ∀ w r, pd_bundles s' !! (t, w) = Some r → pb_status r = PB_CANARY → w = v) as Hcanary.
  { intros Hpct w r. rewrite Hall. intros (r0 & _ & ->)%fmap_Some. by apply after_activation_canary. }
  split_and!; [done|done| |done|].
  - intros -> w r. rewrite Hall. intros (r0 & _ & ->)%fmap_Some. apply after_activation_force.
  - intros Hpct (w & r & Hw & Hr & Hact) key.
    assert (pb_canary_percentage row = pct ∧ pb_status row = PB_CANARY) as [<- Hcan].
    { rewrite Hall in Hnow. apply fmap_Some in Hnow as (r0 & _ & ->). unfold after_activation.
      rewrite !bool_decide_eq_true_2 by done. simpl. by rewrite (proj2 (Z.ltb_lt _ _) Hpct). }
    apply canary_resolves; [done| |done|done|by apply Hcanary].
    exists w, r. split; [|done]. rewrite Hall, Hr. simpl. unfold after_activation.
    rewrite (bool_decide_eq_true_2 (t = t)), bool_decide_eq_false_2 by done. unfold retires. rewrite Hact.
    by rewrite (proj2 (Z.ltb_lt _ _) Hpct).
Qed.
End Policies.

(** ** Governance rules at work

    Messages the detection rules find and miss, and a tenant that creates, activates
    and resolves policy bundles: witnesses of the theorems on governance, and the runs
    of the code that its contract does not foresee. *)

(** ** Outbound messages *)
Definition user_message (content : string) : message := [("role", "user"); ("content", content)].

Definition sample_masks (r : string) : option (string → string → string) :=
  if bool_decide (r = "") then None
  else Some (λ replacement content, if bool_decide (content = r) then replacement else content).
Definition masking_rules : GovernanceRules :=
  {| gr_max_outbound_classification := CONFIDENTIAL; gr_allow_restricted_to_private_endpoints := false;
     gr_require_approval_above := Some INTERNAL; gr_secret_detection_enabled := true;
     gr_mask_patterns := [{| mk_name := "code word"; mk_regex := "falcon"; mk_replacement := "***" |}] |}.

(** The verdict of a request. *)
Definition verdict (rules : GovernanceRules) (content : string) (c : DataClassification) (private : bool)
    : option DecisionType :=
  match evaluate_outbound sample_masks rules [user_message content] c private with
  | Ok d => Some (gd_decision d)
  | Raise _ => None
  end.

Example verdicts :
  verdict default_rules "key AKIA0123456789ABCDEF" PUBLIC true = Some DENY ∧
  verdict masking_rules "falcon" PUBLIC false = Some MASK ∧
  verdict masking_rules "eagle" PUBLIC false = Some ALLOW ∧
  verdict masking_rules "card 4111 1111 1111 1111" PUBLIC false = Some NEEDS_APPROVAL ∧
  verdict masking_rules "eagle" RESTRICTED true = Some DENY.
Proof. split_and!; vm_compute; reflexivity. Qed.

Lemma outbound_decisions_exact_witness :
  match evaluate_outbound sample_masks masking_rules [user_message "falcon"] PUBLIC false with
  | Ok d => gd_decision d = MASK ∧ gd_masked_messages d ≠ Some [user_message "falcon"]
  | Raise _ => False
  end.
Proof.
  destruct (evaluate_outbound sample_masks masking_rules [user_message "falcon"] PUBLIC false) as [d|e] eqn:Hd.
  - pose proof (outbound_decisions_exact sample_masks masking_rules [user_message "falcon"] PUBLIC false d Hd)
      as (_ & _ & _ & _ & Hm).
    assert (is_Some (gd_masked_messages d)) as [m Hm'].
    { vm_compute in Hd. injection Hd as <-. by eexists. }
    rewrite Hm' in Hm |- *. destruct Hm as (Hmask & Hne & _). split; [exact Hmask|]. congruence.
  - vm_compute in Hd. discriminate Hd.
Defined.

(** *** What the rules miss
    [json.dumps] escapes the quotes of the content, and [credential-assignment] wants a
    quote right after the separator: a credential in double quotes passes, the same one
    in single quotes is found. *)
Definition quoted (q : nat) (secret : string) : string :=
  let c := String (Ascii.ascii_of_nat q) EmptyString in "password=" +:+ c +:+ secret +:+ c.

Example double_quoted_credential_missed :
  sc_detected_secrets (scan_messages [user_message (quoted 39 "hunter2hunter2")]) = ["credential-assignment"] ∧
  sc_detected_secrets (scan_messages [user_message (quoted 34 "hunter2hunter2")]) = [] ∧
  search credential_assignment (String.list_ascii_of_string (quoted 34 "hunter2hunter2")) = true.
Proof. split_and!; vm_compute; reflexivity. Qed.

(** A phone number right after a Chinese character: no word boundary lies between them.
    The three bytes are the character for "electric" in UTF-8. *)
Definition cjk : string := String (Ascii.ascii_of_nat 231) (String (Ascii.ascii_of_nat 148)
  (String (Ascii.ascii_of_nat 181) EmptyString)).

Example phone_after_letter_missed :
  sc_detected_classification (scan_messages [user_message (cjk +:+ " 13812345678")]) = INTERNAL ∧
  sc_detected_classification (scan_messages [user_message (cjk +:+ "13812345678")]) = PUBLIC.
Proof. split_and!; vm_compute; reflexivity. Qed.

(** ** Bundles *)
Definition gs_canonical (j : json) : string := String.string_of_list_byte (sample_dumps j).
Definition gs_hmac (key msg : string) : string := hex_text 64 (Z.of_nat (String.length (key +:+ msg))).
Definition gs_sha (b : bytes) : bytes := b.
Definition gs_text_sha (s : string) : string := s.
Definition gs_dumps (j : json) : string := gs_canonical j.
Definition gs_ids (n : nat) : uuid := Z.of_nat n + 500.
Definition gs_key : string := "signing key".
Definition gs_tenant : uuid := 7.
Definition gs_admin : AdminPrincipal :=
  {| ap_subject := "alice"; ap_auth_method := "emergency"; ap_roles := ["PLATFORM_ADMIN"] |}.

Lemma gs_canonical_inj j j' : gs_canonical j = gs_canonical j' → j = j'.
Proof.
  unfold gs_canonical. intros Heq. assert (sample_dumps j = sample_dumps j') as Hd.
  { by rewrite <-(String.list_byte_of_string_of_list_byte (sample_dumps j)), Heq,
      String.list_byte_of_string_of_list_byte. }
  assert (Some j = Some j') as [= ->]; [|done]. by rewrite <-!sample_codec, Hd.
Qed.

Lemma signature_binds_rules_and_version_witness :
  ∃ signature, sign_bundle gs_canonical gs_hmac masking_rules 3 gs_key = Ok signature ∧
    verify_bundle gs_canonical gs_hmac masking_rules 3 signature gs_key = Ok true.
Proof.
  eexists. split; [reflexivity|].
  exact (proj1 (signature_binds_rules_and_version gs_canonical gs_hmac gs_canonical_inj masking_rules 3 gs_key _
    eq_refl)).
Defined.

Definition gs_admin_db : AdminDb :=
  {| ad_tenants := {[gs_tenant]}; ad_members := []; ad_idempotency := ∅;
     ad_audit := {| au_events := []; au_chain := ∅; au_outbox := []; au_manifests := []; au_worm := [];
                    au_next_id := 0 |} |}.

Definition create_ (rules : GovernanceRules) (key : string) : PPM json :=
  create_bundle gs_canonical gs_hmac gs_key gs_text_sha gs_dumps gs_ids NoFault NoFault NoFault 1 gs_admin
    gs_tenant rules key.
Definition activate_ (v pct : Z) (key : string) : PPM json :=
  activate_bundle gs_canonical gs_hmac gs_key gs_text_sha gs_dumps gs_ids NoFault NoFault NoFault 2 gs_admin
    gs_tenant v pct key.

Definition gs_db0 : PolicyDb := ps_db (empty_policies gs_admin_db).
Definition gs_db1 : PolicyDb := (run_proc (create_ default_rules "k1") gs_db0).2.
Definition gs_db2 : PolicyDb := (run_proc (create_ masking_rules "k2") gs_db1).2.
Definition gs_db3 : PolicyDb := (run_proc (activate_ 1 0 "k3") gs_db2).2.
Definition gs_db4 : PolicyDb := (run_proc (activate_ 2 30 "k4") gs_db3).2.

Definition statuses (s : PolicyDb) : list (Z * bundle_status * Z) :=
  (λ vr : Z * BundleRow, (vr.1, pb_status vr.2, pb_canary_percentage vr.2)) <$> tenant_bundles gs_tenant s.
Definition resolve_ (key : string) (s : PolicyDb) : outcome PolicyError (option ResolvedPolicy) :=
  (resolve gs_canonical gs_hmac gs_sha gs_key gs_tenant key s).1.
Definition resolved_version (key : string) (s : PolicyDb) : option (option Z) :=
  match resolve_ key s with Ok p => Some (rv_version <$> p) | Raise _ => None end.

Example bundle_run :
  statuses gs_db2 = [(1, PB_DRAFT, 0); (2, PB_DRAFT, 0)] ∧
  statuses gs_db4 = [(1, PB_ACTIVE, 0); (2, PB_CANARY, 30)] ∧
  resolved_version "" gs_db4 = Some (Some 2) ∧ resolved_version "X" gs_db4 = Some (Some 1).
Proof. split_and!; vm_compute; reflexivity. Qed.

(** ** Reaching the databases *)
Abbreviation gs_step :=
  (policy_run gs_canonical gs_hmac gs_key gs_text_sha gs_dumps gs_ids).

Lemma run_command l (p : PPM json) d :
  rtc gs_step {| ps_db := d; ps_commands := l ++ [p] |}
    {| ps_db := (run_proc p d).2; ps_commands := l ++ [Done (run_proc p d).1] |}.
Proof.
  revert d. induction p as [r|next IH effect]; intros d; [constructor|].
  eapply rtc_l; [apply pr_step|]. apply IH.
Qed.

Definition gs_reaches (d : PolicyDb) : Prop :=
  ∃ l, rtc gs_step (empty_policies gs_admin_db) {| ps_db := d; ps_commands := l |}.
Lemma gs_create rules key d : gs_reaches d → gs_reaches (run_proc (create_ rules key) d).2.
Proof.
  intros [l Hl]. eexists. etransitivity; [exact Hl|]. eapply rtc_l; [apply pr_create|]. apply run_command.
Qed.
Lemma gs_activate v pct key d : gs_reaches d → gs_reaches (run_proc (activate_ v pct key) d).2.
Proof.
  intros [l Hl]. eexists. etransitivity; [exact Hl|]. eapply rtc_l; [apply pr_activate|]. apply run_command.
Qed.

Lemma gs_db3_reached : gs_reaches gs_db3.
Proof. apply gs_activate, gs_create, gs_create. by exists []. Qed.
Lemma gs_db4_reached : gs_reaches gs_db4.
Proof. apply gs_activate, gs_db3_reached. Qed.


(** The activation of the second version as a canary, run alone. *)
Definition gs_canary : PPM BundleRow := activate gs_canonical gs_hmac gs_key NoFault 2 gs_tenant 2 30.

Lemma activation_switches_versions_witness :
  ∃ row s', run_proc gs_canary gs_db3 = (Ok row, s') ∧ pd_bundles s' !! (gs_tenant, 2) = Some row.
Proof.
  destruct (run_proc gs_canary gs_db3) as [[row|e] s'] eqn:Hrun.
  - exists row, s'. split; [reflexivity|].
    destruct gs_db3_reached as [l Hl].
    destruct (policy_runs_ok gs_canonical gs_hmac gs_key gs_text_sha gs_dumps gs_ids _ _ Hl
      (empty_policies_ok _ _ _ _)) as [[Hi _] _].
    exact (proj1 (activation_switches_versions gs_canonical gs_hmac gs_sha gs_key 2 gs_tenant 2 30 gs_db3 row s'
      Hi Hrun)).
  - exfalso. assert (match (run_proc gs_canary gs_db3).1 with Ok _ => true | Raise _ => false end = true) as Hok
      by (vm_compute; reflexivity). rewrite Hrun in Hok. discriminate Hok.
Defined.

(** ** Runs the contract does not foresee *)

(** Two activations that both read before either writes leave two stable versions, and
    resolution answers with the older one. *)
Definition apply_ (v : Z) (retiring : list Z) (s : PolicyDb) : PolicyDb :=
  (apply_activation 3 gs_tenant v 0 retiring s).2.
Definition gs_raced : PolicyDb :=
  apply_ 2 (to_retire gs_tenant 2 0 gs_db2) (apply_ 1 (to_retire gs_tenant 1 0 gs_db2) gs_db2).

Example two_stable_versions :
  statuses gs_raced = [(1, PB_ACTIVE, 0); (2, PB_ACTIVE, 0)] ∧ resolved_version "k" gs_raced = Some (Some 1).
Proof. split_and!; vm_compute; reflexivity. Qed.

(** Giving the stable version itself a canary share leaves no stable version: every
    resolution fails until another version is activated. *)
Example stable_made_canary :
  let s := (run_proc (activate_ 1 10 "k5") gs_db3).2 in
  statuses s = [(1, PB_CANARY, 10); (2, PB_DRAFT, 0)] ∧
  resolve_ "k" s = Raise (PolicyBundleError "POLICY_BUNDLE_UNAVAILABLE").
Proof. split_and!; vm_compute; reflexivity. Qed.

(** A tenant whose bundles are all drafts resolves to no policy, like one with none. *)
Example drafts_resolve_to_nothing :
  statuses gs_db2 ≠ [] ∧ resolve_ "k" gs_db2 = Ok None ∧ resolve_ "k" gs_db0 = Ok None.
Proof. split_and!; vm_compute; (reflexivity || discriminate). Qed.

(** A creation whose last transaction is lost has created its version: the retry under
    the same key creates another. *)
Definition gs_lost : PolicyDb :=
  (run_proc (create_bundle gs_canonical gs_hmac gs_key gs_text_sha gs_dumps gs_ids NoFault NoFault LostBeforeCommit 1
    gs_admin gs_tenant default_rules "k1") gs_db0).2.

Example retry_creates_again :
  statuses gs_lost = [(1, PB_DRAFT, 0)] ∧
  statuses (run_proc (create_ default_rules "k1") gs_lost).2 = [(1, PB_DRAFT, 0); (2, PB_DRAFT, 0)].
Proof. split_and!; vm_compute; reflexivity. Qed.
