(* ===== verification/LlmGateway.v ===== *)
(** * The LLM gateway (trpc_service/llm_gateway.py, class LLMGateway)

    Routing of one model call: governance scan, budget reservation, candidate
    profiles, policy, circuit breaker, rate limit, credential, provider, fallback.

    The services the gateway awaits are a class of operations on a world of their own,
    [Collaborators].  A call is a program of atomic steps: each awaited operation is one
    step, and so is each stretch of code between two of them; calls of the same process
    interleave between steps.  Next to the gateway's own fields the state keeps
    [gs_log], the sequence of what the calls did, each entry with the number of its
    call; the code never reads it.  Times are microseconds of [monotonic()]. *)

From S2P Require Import Prelude PyNum PyDict Uuids ExecutionBus ToolRegistry Budgets Degradation Interleave PyRegex Governance.
Open Scope string_scope.
Open Scope list_scope.
Open Scope Z_scope.

Record ModelProfile := {
  mo_tenant_id : string;
  mo_alias : string;
  mo_provider_model : string;
  mo_endpoint_url : string;
  mo_secret_ref : string;
  mo_data_classification : DataClassification;
  mo_region : string;
  mo_fallback_aliases : list string;
  mo_requests_per_minute : Z;
}.

Record GatewayRequest := {
  gq_tenant_id : string;
  gq_model_alias : string;
  gq_messages : list message;
  gq_data_classification : DataClassification;
  gq_region : string;
  gq_allowed_fallback_aliases : gset string;
  gq_profile_snapshots : list ModelProfile;
  gq_release_id : option string;
  gq_application_id : option string;
  gq_execution_id : option string;
}.

Record GatewayResult := {
  gt_model_alias : string;
  gt_fallback_used : bool;
  gt_completion : jobject;
}.

Record GatewayEvent := {
  ge_tenant_id : string;
  ge_model_alias : string;
  ge_fallback_used : bool;
  ge_outcome : string;
  ge_error_code : option string;
  ge_request_content_hash : string;
  ge_response_content_hash : option string;
  ge_latency_ms : Z;
  ge_input_tokens : option Z;
  ge_output_tokens : option Z;
  ge_cost_micros : option Z;
}.

(** Exceptions: the gateway's own, [httpx.HTTPError], any other [Exception], and the
    cancellation of the task, which is none. *)
Inductive GatewayError := ModelGatewayError (code : string) | HTTPError | OtherException | CancelledError.
#[export] Instance GatewayError_eq_dec : EqDecision GatewayError.
Proof. solve_decision. Defined.
Definition is_exception (e : GatewayError) : bool :=
  match e with CancelledError => false | _ => true end.

(** [httpx.Response]: [None] when [json()] raises [ValueError]. *)
Record HttpResponse := { hr_status_code : Z; hr_json : option json }.

(** ** What the gateway awaits *)
Class Collaborators (X : Type) := {
  monotonic : X → instant;
  utc_now : X → instant;
  resolve_profile : string → string → ST X GatewayError (option ModelProfile);
  resolve_secret : string → string → ST X GatewayError string;
  policy_allows : GatewayRequest → ModelProfile → DataClassification → ST X GatewayError bool;
  record_denied : GatewayRequest → DataClassification → string → ST X GatewayError unit;
  budget_reserve : GatewayRequest → ST X GatewayError BudgetReservationBundle;
  budget_settle : BudgetReservationBundle → ST X GatewayError unit;
  budget_release : BudgetReservationBundle → string → ST X GatewayError unit;
  provider_post : ModelProfile → list message → string → ST X GatewayError HttpResponse;
}.

Record GatewayConfig := {
  gc_circuit_failure_threshold : Z;
  gc_circuit_reset_micros : Z;
  gc_has_budget : bool;
  gc_has_policy_audit : bool;
}.

Abbreviation circuit_key := (string * string)%type.
Definition profile_key (p : ModelProfile) : circuit_key := (mo_tenant_id p, mo_alias p).

(** What a call did. *)
Inductive GatewayAction :=
  | Reserved (n : nat) (bundle : BudgetReservationBundle)
  | Allowed (n : nat) (p : ModelProfile)
  | Checked (n : nat) (k : circuit_key) (now : instant)
  | Granted (n : nat) (k : circuit_key) (now : instant) (limit : Z)
  | SecretRead (n : nat) (p : ModelProfile) (credential : string)
  | Posted (n : nat) (p : ModelProfile) (messages : list message) (credential : string) (answered : bool)
  | Failed (n : nat) (k : circuit_key) (now : instant)
  | Succeeded (n : nat) (k : circuit_key)
  | Settled (n : nat) (bundle : BudgetReservationBundle) (returned : bool)
  | Released (n : nat) (bundle : BudgetReservationBundle) (reason : string) (returned : bool)
  | Denied (n : nat) (reason : string) (returned : bool).

Record Gateway (X : Type) := mkGateway {
  gs_failures : gmap circuit_key Z;
  gs_opened_at : gmap circuit_key instant;
  gs_requests : gmap circuit_key (list instant);
  gs_events : list GatewayEvent;
  gs_degradation : DegradationRegistry;
  gs_log : list GatewayAction;
  gs_world : X;
}.
Arguments mkGateway {_} _ _ _ _ _ _ _.
Arguments gs_failures {_} _.
Arguments gs_opened_at {_} _.
Arguments gs_requests {_} _.
Arguments gs_events {_} _.
Arguments gs_degradation {_} _.
Arguments gs_log {_} _.
Arguments gs_world {_} _.

(** [LLMGateway.__init__] *)
Definition new_gateway {X} (registry : DegradationRegistry) (x : X) : Gateway X :=
  mkGateway ∅ ∅ ∅ [] registry [] x.

Definition returned {E A} (r : outcome E A) : bool := match r with Ok _ => true | Raise _ => false end.

Section Gateway.
Context {X : Type} `{!Collaborators X} (config : GatewayConfig).
(** [_content_hash], of the messages and of a completion. *)
Context (hash_messages : list message → string) (hash_completion : jobject → string).
Abbreviation GW A := (ST (Gateway X) GatewayError A).
Abbreviation GWP A := (PM (Gateway X) GatewayError A).

Definition set_circuit (f : gmap circuit_key Z → gmap circuit_key Z)
    (o : gmap circuit_key instant → gmap circuit_key instant) (s : Gateway X) : Gateway X :=
  mkGateway (f (gs_failures s)) (o (gs_opened_at s)) (gs_requests s) (gs_events s) (gs_degradation s)
    (gs_log s) (gs_world s).
Definition set_requests (f : gmap circuit_key (list instant) → gmap circuit_key (list instant))
    (s : Gateway X) : Gateway X :=
  mkGateway (gs_failures s) (gs_opened_at s) (f (gs_requests s)) (gs_events s) (gs_degradation s)
    (gs_log s) (gs_world s).
Definition add_event (e : GatewayEvent) (s : Gateway X) : Gateway X :=
  mkGateway (gs_failures s) (gs_opened_at s) (gs_requests s) (gs_events s ++ [e]) (gs_degradation s)
    (gs_log s) (gs_world s).
Definition set_degradation (d : DegradationRegistry) (s : Gateway X) : Gateway X :=
  mkGateway (gs_failures s) (gs_opened_at s) (gs_requests s) (gs_events s) d (gs_log s) (gs_world s).
Definition note (l : list GatewayAction) (s : Gateway X) : Gateway X :=
  mkGateway (gs_failures s) (gs_opened_at s) (gs_requests s) (gs_events s) (gs_degradation s)
    (gs_log s ++ l) (gs_world s).
Definition set_world (x : X) (s : Gateway X) : Gateway X :=
  mkGateway (gs_failures s) (gs_opened_at s) (gs_requests s) (gs_events s) (gs_degradation s) (gs_log s) x.

(** One awaited operation, with what it leaves in the log. *)
Definition await {A} (m : ST X GatewayError A) (l : outcome GatewayError A → list GatewayAction) : GW A := λ s,
  let '(r, x) := m (gs_world s) in (r, note (l r) (set_world x s)).

(** ** Circuit breaker and rate limit *)
Definition circuit_open (n : nat) (k : circuit_key) : GW bool :=
  now ← gets (λ s, monotonic (gs_world s));
  opened_at ← gets (λ s, gs_opened_at s !! k);
  _ ← modify (note [Checked n k now]);
  match opened_at with
  | None => mret false
  | Some t =>
      if now - t <? gc_circuit_reset_micros config then mret true
      else _ ← modify (set_circuit <[k := 0]> (delete k)); mret false
  end.

(** The requests that have left the window are dropped from the front. *)
Fixpoint expire (bound : instant) (l : list instant) : list instant :=
  match l with
  | t :: l' => if t <=? bound then expire bound l' else l
  | [] => []
  end.
Definition MINUTE : Z := 60 * 1000000.

Definition within_rate_limit (n : nat) (k : circuit_key) (limit : Z) : GW bool :=
  now ← gets (λ s, monotonic (gs_world s));
  requests ← gets (λ s, expire (now - MINUTE) (default [] (gs_requests s !! k)));
  if limit <=? Z.of_nat (length requests) then
    _ ← modify (set_requests <[k := requests]>);
    mret false
  else
    _ ← modify (set_requests <[k := requests ++ [now]]>);
    _ ← modify (note [Granted n k now limit]);
    mret true.

Definition record_failure (n : nat) (k : circuit_key) : GW unit :=
  now ← gets (λ s, monotonic (gs_world s));
  failures ← gets (λ s, default 0 (gs_failures s !! k) + 1);
  _ ← modify (note [Failed n k now]);
  modify (set_circuit <[k := failures]>
    (if gc_circuit_failure_threshold config <=? failures then <[k := now]> else id)).

Definition record_success (n : nat) (k : circuit_key) : GW unit :=
  _ ← modify (note [Succeeded n k]);
  modify (set_circuit <[k := 0]> (delete k)).

(** ** Events *)

(** [isinstance(value, int)] holds for [True] and [False] too. *)
Fixpoint token_count (usage : jobject) (keys : list string) : option Z :=
  match keys with
  | [] => None
  | key :: keys' =>
      match usage !! key with
      | Some (JNum z) => Some z
      | Some (JBool b) => Some (Z.b2z b)
      | _ => token_count usage keys'
      end
  end.

Definition usage_of (completion : option jobject) : jobject :=
  match completion with
  | Some c => match c !! "usage" with Some (JObj m) => m | _ => ∅ end
  | None => ∅
  end.

Definition record_event (request : GatewayRequest) (model_alias : string) (fallback_used : bool)
    (outcome : string) (error_code : option string) (response_content_hash : option string)
    (started_at : instant) (completion : option jobject) : GW unit :=
  now ← gets (λ s, monotonic (gs_world s));
  modify (add_event
    {| ge_tenant_id := gq_tenant_id request; ge_model_alias := model_alias; ge_fallback_used := fallback_used;
       ge_outcome := outcome; ge_error_code := error_code;
       ge_request_content_hash := hash_messages (gq_messages request);
       ge_response_content_hash := response_content_hash; ge_latency_ms := (now - started_at) `quot` 1000;
       ge_input_tokens := token_count (usage_of completion) ["prompt_tokens"; "input_tokens"];
       ge_output_tokens := token_count (usage_of completion) ["completion_tokens"; "output_tokens"];
       ge_cost_micros := None |}).

(** ** Candidates *)
Definition snapshots (request : GatewayRequest) : gmap string ModelProfile :=
  foldl (λ m p, <[mo_alias p := p]> m) ∅ (gq_profile_snapshots request).

(** The next alias not seen yet, and the rest of the queue. *)
Fixpoint next_alias (seen : gset string) (aliases : list string) : option (string * list string) :=
  match aliases with
  | [] => None
  | a :: aliases' => if bool_decide (a ∈ seen) then next_alias seen aliases' else Some (a, aliases')
  end.

Definition lookup_profile (request : GatewayRequest) (alias : string) : GWP (option ModelProfile) :=
  match snapshots request !! alias with
  | Some p => pm_ret (Some p)
  | None =>
      if bool_decide (snapshots request = ∅)
      then atomically (await (resolve_profile (gq_tenant_id request) alias) (λ _, []))
      else pm_ret None
  end.

Definition allowed_fallbacks (request : GatewayRequest) (p : ModelProfile) : list string :=
  filter (λ a, a ∈ gq_allowed_fallback_aliases request) (mo_fallback_aliases p).

(** The loop of [_candidate_profiles]; [fuel] bounds the aliases it looks up. *)
Fixpoint candidates_from (fuel : nat) (request : GatewayRequest) (aliases : list string)
    (seen : gset string) (profiles : list ModelProfile) : GWP (list ModelProfile) :=
  match fuel with
  | O => pm_ret profiles
  | S fuel' =>
      match next_alias seen aliases with
      | None => pm_ret profiles
      | Some (alias, rest) =>
          found <-- lookup_profile request alias;
          match found with
          | Some p =>
              if bool_decide (mo_tenant_id p = gq_tenant_id request) then
                candidates_from fuel' request (rest ++ allowed_fallbacks request p) ({[alias]} ∪ seen)
                  (profiles ++ [p])
              else candidates_from fuel' request rest ({[alias]} ∪ seen) profiles
          | None => candidates_from fuel' request rest ({[alias]} ∪ seen) profiles
          end
      end
  end.
(** Every alias looked up is the requested one or an allowed fallback. *)
Definition candidate_fuel (request : GatewayRequest) : nat :=
  S (S (size (gq_allowed_fallback_aliases request))).
Definition candidate_profiles (request : GatewayRequest) : GWP (list ModelProfile) :=
  candidates_from (candidate_fuel request) request [gq_model_alias request] ∅ [].

(** ** One candidate *)
Definition locally_allowed (request : GatewayRequest) (p : ModelProfile) (effective : DataClassification) : bool :=
  negb (bool_decide (gq_data_classification request = RESTRICTED))
  && negb (bool_decide (effective = RESTRICTED))
  && bool_decide (gq_region request = mo_region p)
  && (rank (gq_data_classification request) <=? rank (mo_data_classification p)).

(** [_allows] *)
Definition allows (n : nat) (request : GatewayRequest) (p : ModelProfile) (effective : DataClassification)
    : GWP bool :=
  if locally_allowed request p effective then
    atomically (await (policy_allows request p effective)
      (λ r, match r with Ok true => [Allowed n p] | _ => [] end))
  else pm_ret false.

(** The checks between [_allows] and the credential run without an await. *)
Inductive gate := GatePassed | GateCircuitOpen | GateRateLimited.
Definition pass_gates (n : nat) (p : ModelProfile) : GW gate :=
  is_open ← circuit_open n (profile_key p);
  if is_open : bool then mret GateCircuitOpen else
  within ← within_rate_limit n (profile_key p) (mo_requests_per_minute p);
  mret (if within : bool then GatePassed else GateRateLimited).

(** [_provider_completion], after the request was sent. *)
Definition provider_completion (r : outcome GatewayError HttpResponse) : outcome GatewayError jobject :=
  match r with
  | Raise e => Raise e
  | Ok response =>
      if 400 <=? hr_status_code response then Raise (ModelGatewayError "UPSTREAM_FAILURE") else
      match hr_json response with
      | Some (JObj payload) => Ok payload
      | _ => Raise (ModelGatewayError "UPSTREAM_INVALID_RESPONSE")
      end
  end.
Definition complete_at_provider (n : nat) (p : ModelProfile) (messages : list message) (credential : string)
    : GW jobject := λ s,
  let '(r, x) := provider_post p messages credential (gs_world s) in
  let completion := provider_completion r in
  (completion, note [Posted n p messages credential (returned completion)] (set_world x s)).

Record Progress := {
  pg_attempted : bool;
  pg_rate_limited : bool;
  pg_circuit_open : bool;
  pg_last_failure_code : option string;
  pg_failure_recorded : bool;
}.
Definition no_progress : Progress :=
  {| pg_attempted := false; pg_rate_limited := false; pg_circuit_open := false;
     pg_last_failure_code := None; pg_failure_recorded := false |}.
Definition held_back (g : gate) (pg : Progress) : Progress :=
  {| pg_attempted := true;
     pg_rate_limited := match g with GateRateLimited => true | _ => pg_rate_limited pg end;
     pg_circuit_open := match g with GateCircuitOpen => true | _ => pg_circuit_open pg end;
     pg_last_failure_code := pg_last_failure_code pg; pg_failure_recorded := pg_failure_recorded pg |}.
Definition failed_with (code : string) (pg : Progress) : Progress :=
  {| pg_attempted := true; pg_rate_limited := pg_rate_limited pg; pg_circuit_open := pg_circuit_open pg;
     pg_last_failure_code := Some code; pg_failure_recorded := true |}.

Definition final_code (pg : Progress) : string :=
  if negb (pg_attempted pg) then "MODEL_POLICY_DENIED"
  else if pg_rate_limited pg && negb (pg_circuit_open pg) then "RATE_LIMITED"
  else if pg_circuit_open pg && negb (pg_rate_limited pg) then "CIRCUIT_OPEN"
  else if bool_decide (pg_last_failure_code pg = Some "SECRET_RESOLUTION_FAILED") then "SECRET_RESOLUTION_FAILED"
  else "MODEL_UNAVAILABLE".

(** The handlers of a failed credential and of a failed provider call. *)
Definition candidate_failed (n : nat) (request : GatewayRequest) (started_at : instant) (p : ModelProfile)
    (code : string) : GW unit :=
  _ ← record_failure n (profile_key p);
  record_event request (mo_alias p) false "FAILURE" (Some code) None started_at None.

Definition candidate_succeeded (n : nat) (request : GatewayRequest) (started_at : instant) (p : ModelProfile)
    (completion : jobject) : GW GatewayResult :=
  _ ← record_success n (profile_key p);
  let fallback_used := negb (bool_decide (mo_alias p = gq_model_alias request)) in
  _ ← modify (λ s, set_degradation
        (if fallback_used
         then (degrade (utc_now (gs_world s)) MODEL "LLM_FALLBACK_USED"
                 (Some ("primary=" +:+ gq_model_alias request +:+ " served_by=" +:+ mo_alias p))
                 (gs_degradation s)).2
         else (restore MODEL "PRIMARY_RECOVERED" (gs_degradation s)).2) s);
  _ ← record_event request (mo_alias p) fallback_used "SUCCESS" None (Some (hash_completion completion))
        started_at (Some completion);
  mret {| gt_model_alias := mo_alias p; gt_fallback_used := fallback_used; gt_completion := completion |}.

Definition no_candidate_left (request : GatewayRequest) (started_at : instant) (pg : Progress)
    : GW GatewayResult :=
  _ ← (if pg_failure_recorded pg then mret tt
       else record_event request (gq_model_alias request) false "FAILURE" (Some (final_code pg)) None started_at None);
  raise (ModelGatewayError (final_code pg)).

(** The loop of [_complete_with_guard] over the candidates. *)
Fixpoint try_candidates (n : nat) (request : GatewayRequest) (started_at : instant)
    (effective : DataClassification) (candidates : list ModelProfile) (pg : Progress) : GWP GatewayResult :=
  match candidates with
  | [] => atomically (no_candidate_left request started_at pg)
  | p :: candidates' =>
      permitted <-- allows n request p effective;
      if negb permitted then try_candidates n request started_at effective candidates' pg else
      g <-- atomically (pass_gates n p);
      match g with
      | GatePassed =>
          credential <-- pm_catch
            (c <-- atomically (await (resolve_secret (mo_tenant_id p) (mo_secret_ref p))
                     (λ r, match r with Ok c => [SecretRead n p c] | Raise _ => [] end));
             pm_ret (Some c))
            (λ e, if is_exception e then
                    _ <-- atomically (candidate_failed n request started_at p "SECRET_RESOLUTION_FAILED");
                    pm_ret None
                  else pm_raise e);
          match credential with
          | None => try_candidates n request started_at effective candidates'
                      (failed_with "SECRET_RESOLUTION_FAILED" pg)
          | Some c =>
              completion <-- pm_catch
                (r <-- atomically (complete_at_provider n p (gq_messages request) c); pm_ret (Some r))
                (λ e, match e with
                      | HTTPError | ModelGatewayError _ =>
                          _ <-- atomically (candidate_failed n request started_at p "UPSTREAM_FAILURE");
                          pm_ret None
                      | _ => pm_raise e
                      end);
              match completion with
              | None => try_candidates n request started_at effective candidates'
                          (failed_with "UPSTREAM_FAILURE" pg)
              | Some r => atomically (candidate_succeeded n request started_at p r)
              end
          end
      | _ => try_candidates n request started_at effective candidates' (held_back g pg)
      end
  end.

Definition complete_with_guard (n : nat) (request : GatewayRequest) (started_at : instant)
    (effective : DataClassification) : GWP GatewayResult :=
  candidates <-- candidate_profiles request;
  try_candidates n request started_at effective candidates no_progress.

(** ** [complete] *)
Definition effective_classification (request : GatewayRequest) : DataClassification :=
  highest_classification [Some (gq_data_classification request);
    Some (sc_detected_classification (scan_messages (gq_messages request)))].

Definition audit_denial (n : nat) (request : GatewayRequest) (reason : string) : GWP unit :=
  atomically (await (record_denied request (effective_classification request) reason)
    (λ r, [Denied n reason (returned r)])).

(** The secret scan's refusal. *)
Definition refuse_secret (n : nat) (request : GatewayRequest) (scan : ContentScanResult) : GWP GatewayResult :=
  _ <-- (if gc_has_policy_audit config then
           pm_catch (audit_denial n request ("secret detected: " +:+ join ", " (sc_detected_secrets scan)))
             (λ e, pm_raise (if is_exception e then ModelGatewayError "AUDIT_UNAVAILABLE" else e))
         else pm_ret tt);
  pm_raise (ModelGatewayError "SECRET_DETECTED").

Definition reserve_budget (n : nat) (request : GatewayRequest) : GWP (option BudgetReservationBundle) :=
  if gc_has_budget config then
    b <-- atomically (await (budget_reserve request) (λ r, match r with Ok b => [Reserved n b] | Raise _ => [] end));
    pm_ret (Some b)
  else pm_ret None.

(** The handler of a failed call: give the reservation back, then record the refusal. *)
Definition after_failure (n : nat) (request : GatewayRequest) (bundle : option BudgetReservationBundle)
    (e : GatewayError) : GWP GatewayResult :=
  match e with
  | ModelGatewayError code =>
      _ <-- match bundle with
            | Some b =>
                pm_catch (atomically (await (budget_release b code) (λ r, [Released n b code (returned r)])))
                  (λ e', pm_raise (if is_exception e' then ModelGatewayError "BUDGET_STATE_UNKNOWN" else e'))
            | None => pm_ret tt
            end;
      _ <-- (if gc_has_policy_audit config && bool_decide (effective_classification request = RESTRICTED)
                && bool_decide (code = "MODEL_POLICY_DENIED")
             then audit_denial n request code else pm_ret tt);
      pm_raise e
  | _ => pm_raise e
  end.

Definition settle_budget (n : nat) (bundle : option BudgetReservationBundle) : GWP unit :=
  match bundle with
  | Some b => atomically (await (budget_settle b) (λ r, [Settled n b (returned r)]))
  | None => pm_ret tt
  end.

Definition complete (n : nat) (request : GatewayRequest) : GWP GatewayResult :=
  started_at <-- atomically (gets (λ s, monotonic (gs_world s)));
  let scan := scan_messages (gq_messages request) in
  if blocked scan then refuse_secret n request scan else
  bundle <-- reserve_budget n request;
  result <-- pm_catch (complete_with_guard n request started_at (effective_classification request))
               (after_failure n request bundle);
  _ <-- settle_budget n bundle;
  pm_ret result.
End Gateway.
