(* ===== verification/GatewayFacts.v ===== *)
(** * The log of the gateway

    What an entry of the log has to be preceded by, what the fields of the gateway say
    about the log, and that the gates between policy and credential keep both. *)

From S2P Require Import Prelude PyNum PyDict ExecutionBus ToolRegistry Budgets Degradation Interleave PyRegex Governance LlmGateway.
From stdpp Require Import sorting.
Open Scope string_scope.
Open Scope list_scope.
Open Scope Z_scope.

Ltac run_ops := unfold mbind, ST_mbind, mret, ST_mret, gets, modify; cbv beta iota zeta.

(** ** Entries *)
Definition action_call (a : GatewayAction) : nat :=
  match a with
  | Reserved n _ | Allowed n _ | Checked n _ _ | Granted n _ _ _ | SecretRead n _ _ | Posted n _ _ _ _
  | Failed n _ _ | Succeeded n _ | Settled n _ _ | Released n _ _ _ | Denied n _ _ => n
  end.
Definition action_time (a : GatewayAction) : option instant :=
  match a with Checked _ _ t | Granted _ _ t _ | Failed _ _ t => Some t | _ => None end.

(** The entries of one call. *)
Definition mine (n : nat) (l : list GatewayAction) : list GatewayAction := filter (λ a, action_call a = n) l.

(** When the rate limit of a key let a call pass. *)
Definition grant_of (k : circuit_key) (a : GatewayAction) : option instant :=
  match a with Granted _ k' t _ => if bool_decide (k' = k) then Some t else None | _ => None end.
Definition grants (k : circuit_key) (l : list GatewayAction) : list instant := omap (grant_of k) l.
(** The grants of the minute before [now]. *)
Definition recent_grants (k : circuit_key) (now : instant) (l : list GatewayAction) : list instant :=
  filter (λ t, now - MINUTE < t) (grants k l).

(** The provider calls of a key. *)
Definition post_of (k : circuit_key) (a : GatewayAction) : option bool :=
  match a with Posted _ p _ _ ok => if bool_decide (profile_key p = k) then Some ok else None | _ => None end.
Definition posts (k : circuit_key) (l : list GatewayAction) : list bool := omap (post_of k) l.

Definition answered (a : GatewayAction) : bool :=
  match a with Posted _ _ _ _ ok => ok | _ => false end.
Definition is_budget (a : GatewayAction) : bool :=
  match a with Reserved _ _ | Settled _ _ _ | Released _ _ _ _ => true | _ => false end.

(** ** The circuit breaker as a function of the log *)
Section Breaker.
Context (config : GatewayConfig).

Definition breaker_step (k : circuit_key) (st : Z * option instant) (a : GatewayAction) : Z * option instant :=
  match a with
  | Checked _ k' now =>
      if bool_decide (k' = k) then
        match st.2 with
        | Some t => if now - t <? gc_circuit_reset_micros config then st else (0, None)
        | None => st
        end
      else st
  | Failed _ k' now =>
      if bool_decide (k' = k) then
        (st.1 + 1, if gc_circuit_failure_threshold config <=? st.1 + 1 then Some now else st.2)
      else st
  | Succeeded _ k' => if bool_decide (k' = k) then (0, None) else st
  | _ => st
  end.
Definition breaker (k : circuit_key) (l : list GatewayAction) : Z * option instant :=
  foldl (breaker_step k) (0, None) l.

Lemma breaker_app k l l' : breaker k (l ++ l') = foldl (breaker_step k) (breaker k l) l'.
Proof. apply foldl_app. Qed.
End Breaker.

(** ** What comes before an entry *)
Section Justified.
Context (config : GatewayConfig) (request_at : nat → GatewayRequest).

(** A provider call: governance, routing, budget, rate limit and credential came first. *)
Record cleared (n : nat) (p : ModelProfile) (messages : list message) (credential : string)
    (before : list GatewayAction) : Prop := {
  cl_messages : messages = gq_messages (request_at n);
  cl_no_secret : blocked (scan_messages messages) = false;
  cl_not_restricted : effective_classification (request_at n) ≠ RESTRICTED;
  cl_tenant : mo_tenant_id p = gq_tenant_id (request_at n);
  cl_alias : mo_alias p = gq_model_alias (request_at n) ∨
             mo_alias p ∈ gq_allowed_fallback_aliases (request_at n);
  cl_region : mo_region p = gq_region (request_at n);
  cl_rank : rank (gq_data_classification (request_at n)) ≤ rank (mo_data_classification p);
  cl_allowed : Allowed n p ∈ before;
  cl_reserved : gc_has_budget config = true → ∃ b, Reserved n b ∈ before;
  cl_granted : (length (posts (profile_key p) (mine n before)) <
                length (grants (profile_key p) (mine n before)))%nat;
  cl_credential : SecretRead n p credential ∈ before;
}.

Definition justified (a : GatewayAction) (before : list GatewayAction) : Prop :=
  (∀ t, action_time a = Some t → Forall (λ b, ∀ t', action_time b = Some t' → t' ≤ t) before) ∧
  match a with
  | Posted n p messages credential _ =>
      cleared n p messages credential before ∧ Forall (λ b, answered b = false) (mine n before)
  | Granted n k now limit =>
      Z.of_nat (length (recent_grants k now before)) < limit ∧ (breaker config k before).2 = None
  | Reserved n _ => mine n before = []
  | Settled n b _ =>
      Reserved n b ∈ before ∧ Exists (λ a, answered a = true) (mine n before) ∧
      filter (λ a, is_budget a = true) (mine n before) = [Reserved n b]
  | Released n b _ _ =>
      Reserved n b ∈ before ∧ Forall (λ a, answered a = false) (mine n before) ∧
      filter (λ a, is_budget a = true) (mine n before) = [Reserved n b]
  | _ => True
  end.

Definition log_ok (l : list GatewayAction) : Prop := ∀ l1 a l2, l = l1 ++ a :: l2 → justified a l1.

Lemma log_ok_nil : log_ok [].
Proof. intros [|] ???; done. Qed.

Lemma log_ok_snoc l a : log_ok l → justified a l → log_ok (l ++ [a]).
Proof.
  intros Hl Ha l1 b l2 Heq. destruct l2 as [|c l2 _] using rev_ind.
  - by apply app_inj_tail in Heq as [-> ->].
  - rewrite app_comm_cons, app_assoc in Heq. apply app_inj_tail in Heq as [-> _]. by eapply Hl.
Qed.
Lemma log_ok_init l l' : log_ok (l ++ l') → log_ok l.
Proof. intros Hl l1 a l2 ->. apply (Hl l1 a (l2 ++ l')). by rewrite <-app_assoc. Qed.
End Justified.

(** ** What the fields say about the log *)
Section Fields.
Context {X : Type} `{!Collaborators X} (config : GatewayConfig) (request_at : nat → GatewayRequest).

Record GatewayInv (s : Gateway X) : Prop := {
  gi_log : log_ok config request_at (gs_log s);
  gi_breaker : ∀ k, breaker config k (gs_log s) = (default 0 (gs_failures s !! k), gs_opened_at s !! k);
  gi_requests : ∀ k, ∃ old, grants k (gs_log s) = old ++ default [] (gs_requests s !! k) ∧
    Forall (λ t, t ≤ monotonic (gs_world s) - MINUTE) old;
  gi_clock : Forall (λ a, ∀ t, action_time a = Some t → t ≤ monotonic (gs_world s)) (gs_log s);
}.

(** *** Grants and times *)
Lemma grants_app k l l' : grants k (l ++ l') = grants k l ++ grants k l'.
Proof. apply omap_app. Qed.
Lemma posts_app k l l' : posts k (l ++ l') = posts k l ++ posts k l'.
Proof. apply omap_app. Qed.
Lemma mine_app n l l' : mine n (l ++ l') = mine n l ++ mine n l'.
Proof. apply filter_app. Qed.

Lemma elem_of_grants k l t : t ∈ grants k l ↔ ∃ n limit, Granted n k t limit ∈ l.
Proof.
  unfold grants. rewrite list_elem_of_omap. split.
  - intros (a & Ha & Hg). destruct a; simpl in Hg; try done. case_bool_decide; simplify_eq. eauto.
  - intros (n & limit & Hin). exists (Granted n k t limit). split; [done|]. simpl. by rewrite bool_decide_eq_true_2.
Qed.

Lemma grants_sorted k l : log_ok config request_at l → StronglySorted Z.le (grants k l).
Proof.
  induction l as [|a l IH] using rev_ind; intros Hl; [constructor|]. rewrite grants_app.
  assert (log_ok config request_at l) as Hl' by (by eapply log_ok_init).
  specialize (IH Hl'). specialize (Hl l a [] eq_refl) as [Ht _].
  unfold grants at 2. simpl. destruct (grant_of k a) as [t|] eqn:Ha; [|by rewrite app_nil_r].
  destruct a; simpl in Ha; try done. case_bool_decide; simplify_eq.
  apply StronglySorted_app_2; [|done|repeat constructor].
  intros t' ? Ht' ->%list_elem_of_singleton. apply elem_of_grants in Ht' as (m & lim & Hin).
  specialize (Ht _ eq_refl). rewrite Forall_forall in Ht. by apply (Ht _ Hin).
Qed.

Lemma expire_filter b l : StronglySorted Z.le l → expire b l = filter (λ t, b < t) l.
Proof.
  induction 1 as [|t l Hl IH Hle]; simpl; [done|]. destruct (Z.leb_spec t b) as [Hb|Hb].
  - rewrite filter_cons_False by lia. exact IH.
  - rewrite filter_cons_True by lia. f_equal. symmetry. apply filter_all. intros x Hx. rewrite Forall_forall in Hle.
    specialize (Hle x Hx). lia.
Qed.

(** What is left of the deque is the minute before now. *)
Lemma expire_recent k s :
  GatewayInv s →
  expire (monotonic (gs_world s) - MINUTE) (default [] (gs_requests s !! k)) =
    recent_grants k (monotonic (gs_world s)) (gs_log s).
Proof.
  intros Hi. destruct (gi_requests _ Hi k) as (old & Heq & Hold).
  pose proof (grants_sorted k _ (gi_log _ Hi)) as Hs. unfold recent_grants. rewrite Heq in Hs |- *.
  rewrite expire_filter by (by apply StronglySorted_app_1_r in Hs).
  rewrite filter_app, (filter_none _ old); [done|]. intros t Ht. rewrite Forall_forall in Hold.
  specialize (Hold t Ht). lia.
Qed.

(** *** Steps that keep the invariant *)
Definition neutral (a : GatewayAction) : Prop :=
  action_time a = None ∧ match a with Succeeded _ _ => False | _ => True end.

Lemma neutral_breaker k st a : neutral a → breaker_step config k st a = st.
Proof. intros [Ht Ha]. by destruct a. Qed.
Lemma neutral_grant k a : neutral a → grant_of k a = None.
Proof. intros [Ht Ha]. by destruct a. Qed.

Lemma untimed_clock s a (x : X) :
  GatewayInv s → monotonic (gs_world s) ≤ monotonic x →
  (∀ t, action_time a = Some t → t ≤ monotonic x) →
  Forall (λ a, ∀ t, action_time a = Some t → t ≤ monotonic x) (gs_log s ++ [a]).
Proof.
  intros Hi Hx Ha. apply Forall_app. split; [|by constructor].
  eapply Forall_impl; [exact (gi_clock _ Hi)|]. simpl. intros b Hb t Ht. specialize (Hb t Ht). lia.
Qed.

Lemma inv_neutral s a (x : X) :
  GatewayInv s → monotonic (gs_world s) ≤ monotonic x → neutral a → justified config request_at a (gs_log s) →
  GatewayInv (note [a] (set_world x s)).
Proof.
  intros Hi Hx Ha Hj. split; simpl.
  - apply log_ok_snoc; [apply Hi|done].
  - intros k. rewrite breaker_app. simpl. rewrite neutral_breaker by done. apply Hi.
  - intros k. destruct (gi_requests _ Hi k) as (old & Heq & Hold). exists old. split.
    + rewrite grants_app, Heq. unfold grants. simpl. by rewrite neutral_grant, app_nil_r.
    + eapply Forall_impl; [exact Hold|]. simpl. lia.
  - apply untimed_clock; [done|done|]. intros t. by rewrite (proj1 Ha).
Qed.

Lemma inv_world s (x : X) :
  GatewayInv s → monotonic (gs_world s) ≤ monotonic x → GatewayInv (set_world x s).
Proof.
  intros Hi Hx. split; simpl; [apply Hi..| |].
  - intros k. destruct (gi_requests _ Hi k) as (old & Heq & Hold). exists old. split; [done|].
    eapply Forall_impl; [exact Hold|]. simpl. lia.
  - eapply Forall_impl; [exact (gi_clock _ Hi)|]. simpl. intros b Hb t Ht. specialize (Hb t Ht). lia.
Qed.
Lemma note_nil (s : Gateway X) : note [] s = s.
Proof. destruct s. unfold note. simpl. by rewrite app_nil_r. Qed.

Lemma inv_event s e : GatewayInv s → GatewayInv (add_event e s).
Proof. by intros []. Qed.
Lemma inv_degradation s d : GatewayInv s → GatewayInv (set_degradation d s).
Proof. by intros []. Qed.

(** An entry of the breaker, with the fields it updates. *)
Lemma inv_breaker_entry s a fs os :
  GatewayInv s → (∀ k, grant_of k a = None) → justified config request_at a (gs_log s) →
  (∀ t, action_time a = Some t → t ≤ monotonic (gs_world s)) →
  (∀ k, breaker_step config k (breaker config k (gs_log s)) a =
        (default 0 (fs (gs_failures s) !! k), os (gs_opened_at s) !! k)) →
  GatewayInv (set_circuit fs os (note [a] s)).
Proof.
  intros Hi Hg Hj Ht Hb. split; simpl.
  - apply log_ok_snoc; [apply Hi|done].
  - intros k. rewrite breaker_app. apply Hb.
  - intros k. rewrite grants_app. unfold grants at 2. simpl. rewrite Hg, app_nil_r. apply Hi.
  - apply untimed_clock; [done|lia|done].
Qed.

Lemma timed_justified s a t :
  GatewayInv s → action_time a = Some t → t = monotonic (gs_world s) →
  match a with Checked _ _ _ | Failed _ _ _ => True | _ => False end → justified config request_at a (gs_log s).
Proof.
  intros Hi Ha -> Hshape. split; [|by destruct a].
  intros t' Ht'. rewrite Ha in Ht'. injection Ht' as <-. apply Hi.
Qed.

Lemma set_circuit_id (s : Gateway X) : set_circuit id id s = s.
Proof. by destruct s. Qed.

Lemma circuit_open_spec n k s :
  GatewayInv s →
  ∃ b s', circuit_open config n k s = (Ok b, s') ∧ GatewayInv s' ∧ gs_world s' = gs_world s ∧
    gs_log s' = gs_log s ++ [Checked n k (monotonic (gs_world s))] ∧
    (b = false → (breaker config k (gs_log s')).2 = None).
Proof.
  intros Hi. set (now := monotonic (gs_world s)). pose proof (gi_breaker _ Hi) as Hb.
  assert (justified config request_at (Checked n k now) (gs_log s)) as Hj by (by eapply timed_justified).
  assert (∀ t, action_time (Checked n k now) = Some t → t ≤ now) as Ht by (by intros ? [= <-]).
  assert (∀ k' fs os,
    (∀ k', breaker_step config k' (breaker config k' (gs_log s)) (Checked n k now) =
      (default 0 (fs (gs_failures s) !! k'), os (gs_opened_at s) !! k')) →
    GatewayInv (set_circuit fs os (note [Checked n k now] s)) ∧
    (breaker config k' (gs_log s ++ [Checked n k now])).2 = os (gs_opened_at s) !! k') as Hstep.
  { intros k' fs os Hfs. split; [by apply inv_breaker_entry|]. rewrite breaker_app.
    change (foldl _ _ _) with (breaker_step config k' (breaker config k' (gs_log s)) (Checked n k now)).
    by rewrite Hfs. }
  unfold circuit_open. run_ops. fold now.
  destruct (gs_opened_at s !! k) as [t|] eqn:Ho; [destruct (Z.ltb_spec (now - t) (gc_circuit_reset_micros config)) as [Hlt|Hge]|].
  - destruct (Hstep k id id) as [Hi' _].
    { intros k'. simpl. rewrite Hb. simpl. case_bool_decide as Hk; [subst k'|done]. rewrite Ho.
      by rewrite (proj2 (Z.ltb_lt _ _) Hlt). }
    rewrite set_circuit_id in Hi'. by eexists true, _.
  - destruct (Hstep k <[k := 0]> (delete k)) as [Hi' Hnone].
    { intros k'. simpl. rewrite Hb. simpl. case_bool_decide as Hk; [subst k'|].
      - by rewrite Ho, (proj2 (Z.ltb_ge _ _) Hge), lookup_insert_eq, lookup_delete_eq.
      - by rewrite lookup_insert_ne, lookup_delete_ne. }
    eexists false, _. split_and!; [done..|]. intros _. simpl. by rewrite Hnone, lookup_delete_eq.
  - destruct (Hstep k id id) as [Hi' Hnone].
    { intros k'. simpl. rewrite Hb. simpl. case_bool_decide as Hk; [subst k'|done]. by rewrite Ho. }
    rewrite set_circuit_id in Hi'. eexists false, _. split_and!; [done..|]. intros _. simpl. by rewrite Hnone.
Qed.

Lemma within_rate_limit_spec n k limit s :
  GatewayInv s → (breaker config k (gs_log s)).2 = None →
  ∃ b s', within_rate_limit n k limit s = (Ok b, s') ∧ GatewayInv s' ∧ gs_world s' = gs_world s ∧
    (b = true ↔ Z.of_nat (length (recent_grants k (monotonic (gs_world s)) (gs_log s))) < limit) ∧
    gs_log s' = gs_log s ++ (if b then [Granted n k (monotonic (gs_world s)) limit] else []).
Proof.
  intros Hi Hclosed. set (now := monotonic (gs_world s)). set (recent := recent_grants k now (gs_log s)).
  assert (∃ old, grants k (gs_log s) = old ++ recent ∧ Forall (λ t, t ≤ now - MINUTE) old) as Hsplit.
  { destruct (gi_requests _ Hi k) as (old & Heq & Hold). pose proof (expire_recent k s Hi) as Hex.
    fold now recent in Hex. fold now in Hold. rewrite <-Hex, Heq. clear -Hold.
    revert old Hold. induction (default [] (gs_requests s !! k)) as [|t l IH]; intros old Hold; simpl.
    - exists old. done.
    - destruct (Z.leb_spec t (now - MINUTE)); [|by exists old].
      destruct (IH (old ++ [t])) as (o & Ho & Hall).
      { apply Forall_app. split; [done|by constructor]. }
      exists o. by rewrite <-Ho, <-app_assoc. }
  unfold within_rate_limit. run_ops. rewrite (expire_recent k s Hi). fold now recent.
  destruct (Z.leb_spec limit (Z.of_nat (length recent))) as [Hge|Hlt].
  - eexists false, _. split; [done|]. split_and!; simpl; [|done|split; [done|lia]|by rewrite app_nil_r].
    split; simpl; [apply Hi..| |apply Hi]. intros k'. destruct (decide (k' = k)) as [->|Hk].
    + rewrite lookup_insert_eq. done.
    + rewrite lookup_insert_ne by done. apply Hi.
  - eexists true, _. split; [done|]. split_and!; simpl; [|done|split; [done|lia]|done].
    split; simpl.
    + apply log_ok_snoc; [apply Hi|]. split; [|done]. intros t [= <-]. apply Hi.
    + intros k'. rewrite breaker_app. simpl. apply Hi.
    + intros k'. rewrite grants_app. unfold grants at 2. simpl. destruct (decide (k' = k)) as [->|Hk].
      * rewrite bool_decide_eq_true_2, lookup_insert_eq by done. simpl. destruct Hsplit as (old & -> & Hold).
        exists old. by rewrite <-app_assoc.
      * rewrite bool_decide_eq_false_2, lookup_insert_ne, app_nil_r by done. apply Hi.
    + apply (untimed_clock s _ (gs_world s)); [done|lia|]. by intros t [= <-].
Qed.

Lemma pass_gates_spec n p s :
  GatewayInv s →
  ∃ g s', pass_gates config n p s = (Ok g, s') ∧ GatewayInv s' ∧ gs_world s' = gs_world s ∧
    gs_log s' = gs_log s ++ Checked n (profile_key p) (monotonic (gs_world s)) ::
      match g with
      | GatePassed => [Granted n (profile_key p) (monotonic (gs_world s)) (mo_requests_per_minute p)]
      | _ => []
      end.
Proof.
  intros Hi. unfold pass_gates. unfold mbind at 1, ST_mbind at 1.
  destruct (circuit_open_spec n (profile_key p) s Hi) as (b & s1 & -> & Hi1 & Hw1 & Hl1 & Hb).
  destruct b; [by eexists GateCircuitOpen, s1|]. unfold mbind at 1, ST_mbind at 1.
  destruct (within_rate_limit_spec n (profile_key p) (mo_requests_per_minute p) s1 Hi1 (Hb eq_refl))
    as (b & s2 & -> & Hi2 & Hw2 & _ & Hl2).
  eexists _, s2. split; [done|]. split; [done|]. split; [congruence|].
  rewrite Hl2, Hl1, Hw1, <-app_assoc. by destruct b.
Qed.

Lemma record_failure_spec n k s :
  GatewayInv s →
  ∃ s', record_failure config n k s = (Ok tt, s') ∧ GatewayInv s' ∧ gs_world s' = gs_world s ∧
    gs_log s' = gs_log s ++ [Failed n k (monotonic (gs_world s))].
Proof.
  intros Hi. set (now := monotonic (gs_world s)). unfold record_failure. run_ops. fold now.
  eexists. split; [done|]. split_and!; [|done..].
  apply inv_breaker_entry; [done|done|by eapply timed_justified|by intros t [= <-]|].
  intros k'. simpl. rewrite (gi_breaker _ Hi). simpl. case_bool_decide as Hk.
  - subst k'. rewrite lookup_insert_eq. simpl. destruct (_ <=? _); by rewrite ?lookup_insert_eq.
  - rewrite lookup_insert_ne by done. destruct (_ <=? _); by rewrite ?lookup_insert_ne.
Qed.

Lemma record_success_spec n k s :
  GatewayInv s →
  ∃ s', record_success n k s = (Ok tt, s') ∧ GatewayInv s' ∧ gs_world s' = gs_world s ∧
    gs_log s' = gs_log s ++ [Succeeded n k].
Proof.
  intros Hi. unfold record_success. run_ops. eexists. split; [done|]. split_and!; [|done..].
  apply inv_breaker_entry; [done|done|by split|done|].
  intros k'. simpl. rewrite (gi_breaker _ Hi). simpl. case_bool_decide as Hk.
  - subst k'. by rewrite lookup_insert_eq, lookup_delete_eq.
  - by rewrite lookup_insert_ne, lookup_delete_ne.
Qed.
End Fields.
