(* ===== verification/GatewayCalls.v ===== *)
(** * One call among the others

    The calls of a gateway in a rely-guarantee proof: every step of a call extends the
    log by entries of its own, the others leave its entries alone, so that what a call
    knows about its own entries stays true. *)

From S2P Require Import Prelude PyNum PyDict ExecutionBus ToolRegistry Budgets Degradation Interleave PyRegex Governance LlmGateway GatewayFacts.
Open Scope string_scope.
Open Scope list_scope.
Open Scope Z_scope.

(** What the gateway relies on: [monotonic()] never runs backwards, and the resolver
    answers with the profile of the alias it was asked for. *)
Class LawfulCollaborators (X : Type) `{!Collaborators X} := {
  profile_clock t a x : monotonic x ≤ monotonic (resolve_profile t a x).2;
  secret_clock t r x : monotonic x ≤ monotonic (resolve_secret t r x).2;
  policy_clock q p c x : monotonic x ≤ monotonic (policy_allows q p c x).2;
  denied_clock q c r x : monotonic x ≤ monotonic (record_denied q c r x).2;
  reserve_clock q x : monotonic x ≤ monotonic (budget_reserve q x).2;
  settle_clock b x : monotonic x ≤ monotonic (budget_settle b x).2;
  release_clock b r x : monotonic x ≤ monotonic (budget_release b r x).2;
  post_clock p m c x : monotonic x ≤ monotonic (provider_post p m c x).2;
  profile_alias t a x p x' : resolve_profile t a x = (Ok (Some p), x') → mo_alias p = a;
}.

Abbreviation trace := (list GatewayAction).

Lemma next_alias_Some seen l a rest :
  next_alias seen l = Some (a, rest) → a ∈ l ∧ (a ∉ seen) ∧ (∀ b, b ∈ rest → b ∈ l).
Proof.
  induction l as [|b l IH]; simpl; [done|]. case_bool_decide.
  - intros (? & ? & Hr)%IH. set_solver.
  - intros [= <- <-]. set_solver.
Qed.

Section Calls.
Context {X : Type} `{!Collaborators X, !LawfulCollaborators X}.
Context (config : GatewayConfig) (request_at : nat → GatewayRequest).
Context (hash_messages : list message → string) (hash_completion : jobject → string).
Abbreviation Inv := (GatewayInv (X := X) config request_at).
Abbreviation GW A := (ST (Gateway X) GatewayError A).
Abbreviation GWP A := (PM (Gateway X) GatewayError A).

Definition rely (n : nat) (s s' : Gateway X) : Prop := ∃ l, gs_log s' = gs_log s ++ l ∧ mine n l = [].
Definition guar (n : nat) (s s' : Gateway X) : Prop :=
  ∃ l, gs_log s' = gs_log s ++ l ∧ Forall (λ a, action_call a = n) l.

Lemma guar_rely n m s s' : n ≠ m → guar n s s' → rely m s s'.
Proof.
  intros Hne (l & Hl & Hn). exists l. split; [done|]. apply filter_none. intros a Ha Hm.
  rewrite Forall_forall in Hn. apply Hne. by rewrite <-(Hn a Ha).
Qed.

Section OneCall.
Context (n : nat).
Abbreviation request := (request_at n).

(** What the call knows about its own entries. *)
Definition knows (P : trace → Prop) (s : Gateway X) : Prop := P (mine n (gs_log s)).
Abbreviation call_safe Q P p := (proc_safe Inv (rely n) (guar n) (λ r, knows (Q r)) (knows P) p).

Lemma knows_stable P : stable Inv (rely n) (knows P).
Proof. intros s s' _ _ (l & Hl & Hn). unfold knows. by rewrite Hl, mine_app, Hn, app_nil_r. Qed.

Lemma mine_own (l : trace) : Forall (λ a, action_call a = n) l → mine n l = l.
Proof. intros Hl. apply filter_all. by apply Forall_forall. Qed.
Lemma mine_mine l : mine n (mine n l) = mine n l.
Proof. apply mine_own, Forall_forall. intros a [Ha _]%list_elem_of_filter. done. Qed.
Lemma mine_sub l a : a ∈ mine n l → a ∈ l.
Proof. by intros [_ Ha]%list_elem_of_filter. Qed.

(** A neutral entry is judged by the entries of its call. *)
Lemma justified_own a l :
  neutral a → action_call a = n → justified config request_at a (mine n l) → justified config request_at a l.
Proof.
  intros [Ht Hs] Hn [_ Hj]. split; [by rewrite Ht|].
  destruct a; simpl in *; try done; subst; rewrite mine_mine in Hj; [done| |..].
  - destruct Hj as [Hc Ha]. split; [|done]. destruct Hc as [? ? ? ? ? ? ? Hal Hres Hgr Hcr].
    rewrite mine_mine in Hgr. split; try done.
    + by apply mine_sub in Hal.
    + intros Hb. destruct (Hres Hb) as [b Hb']. exists b. by apply mine_sub in Hb'.
    + by apply mine_sub in Hcr.
  - destruct Hj as [Hr%mine_sub Hj]. done.
  - destruct Hj as [Hr%mine_sub Hj]. done.
Qed.

Lemma call_local {A} (m : GW A) (P : trace → Prop) (Q : outcome GatewayError A → trace → Prop) :
  (∀ s, Inv s → P (mine n (gs_log s)) → ∃ r s' l, m s = (r, s') ∧ Inv s' ∧ gs_log s' = gs_log s ++ l ∧
    Forall (λ a, action_call a = n) l ∧ Q r (mine n (gs_log s) ++ l)) →
  call_safe Q P (atomically m).
Proof.
  intros Hm. apply safe_atomically_post.
  - intros s Hi Hp. destruct (Hm s Hi Hp) as (r & s' & l & -> & Hi' & Hl & Hn & _). split; [done|]. by exists l.
  - intros s Hi Hp. destruct (Hm s Hi Hp) as (r & s' & l & -> & Hi' & Hl & Hn & HQ).
    unfold knows. simpl. by rewrite Hl, mine_app, (mine_own l).
  - intros r. apply knows_stable.
Qed.

(** An awaited operation that leaves at most one entry. *)
Lemma call_await {A} (m : ST X GatewayError A) (nt : outcome GatewayError A → trace) (P : trace → Prop)
    (Q : outcome GatewayError A → trace → Prop) :
  (∀ x, monotonic x ≤ monotonic (m x).2) →
  (∀ r tr, P tr → match nt r with
                  | [] => True
                  | [a] => action_call a = n ∧ neutral a ∧ (mine n tr = tr → justified config request_at a tr)
                  | _ => False
                  end) →
  (∀ x tr, P tr → Q (m x).1 (tr ++ nt (m x).1)) →
  call_safe Q P (atomically (await m nt)).
Proof.
  intros Hclock Hnt HQ. apply call_local. intros s Hi Hp. unfold await.
  specialize (Hclock (gs_world s)). specialize (HQ (gs_world s) _ Hp).
  destruct (m (gs_world s)) as [r x]. simpl in *. specialize (Hnt r _ Hp).
  exists r, (note (nt r) (set_world x s)), (nt r). split; [done|].
  destruct (nt r) as [|a [|]]; [| |done].
  - rewrite note_nil. split; [by apply inv_world|]. split; [by rewrite app_nil_r|]. by split; [constructor|].
  - destruct Hnt as (Hn & Hneutral & Hj). split.
    + apply inv_neutral; [done..|]. apply justified_own; [done..|]. apply Hj, mine_mine.
    + split; [done|]. split; [by constructor|done].
Qed.

Lemma call_done {A} (r : A) (P : trace → Prop) (Q : A → trace → Prop) :
  (∀ tr, P tr → Q r tr) → call_safe Q P (Done r).
Proof. intros H. constructor. intros s _ Hp. by apply H. Qed.

Lemma call_weaken {A} (Q : A → trace → Prop) (P P' : trace → Prop) p :
  call_safe Q P p → (∀ tr, P' tr → P tr) → call_safe Q P' p.
Proof. intros Hp HP. eapply safe_weaken; [exact Hp|]. intros s _. apply HP. Qed.

Lemma call_bind {A B} (p : GWP A) (k : A → GWP B) P (Q : outcome GatewayError A → trace → Prop) Q' :
  call_safe Q P p → (∀ a, call_safe Q' (Q (Ok a)) (k a)) → (∀ e tr, Q (Raise e) tr → Q' (Raise e) tr) →
  call_safe Q' P (pm_bind p k).
Proof.
  intros Hp Hk He. eapply safe_bind; [exact Hp|]. intros [a|e]; [apply Hk|]. apply call_done, He.
Qed.

Lemma call_catch {A} (p : GWP A) (h : GatewayError → GWP A) P (Q : outcome GatewayError A → trace → Prop) Q' :
  call_safe Q P p → (∀ e, call_safe Q' (Q (Raise e)) (h e)) → (∀ a tr, Q (Ok a) tr → Q' (Ok a) tr) →
  call_safe Q' P (pm_catch p h).
Proof.
  intros Hp Hh Ha. eapply safe_bind; [exact Hp|]. intros [a|e]; [|apply Hh]. apply call_done, Ha.
Qed.

(** ** The candidates belong to the request *)
Definition candidate (p : ModelProfile) : Prop :=
  mo_tenant_id p = gq_tenant_id request ∧
  (mo_alias p = gq_model_alias request ∨ mo_alias p ∈ gq_allowed_fallback_aliases request).
Definition wanted (a : string) : Prop :=
  a = gq_model_alias request ∨ a ∈ gq_allowed_fallback_aliases request.

Lemma snapshots_alias a p : snapshots request !! a = Some p → mo_alias p = a.
Proof.
  unfold snapshots. assert (∀ (l : list ModelProfile) (m : gmap string ModelProfile),
    (∀ a p, m !! a = Some p → mo_alias p = a) →
    ∀ a p, foldl (λ m p, <[mo_alias p := p]> m) m l !! a = Some p → mo_alias p = a) as Hfold.
  { induction l as [|q l IH]; intros m Hm; [exact Hm|]. simpl. apply IH. intros b p'.
    rewrite lookup_insert_Some. intros [[<- <-]|[_ H]]; [done|by apply Hm]. }
  by apply Hfold; intros ?? ?%lookup_empty_Some.
Qed.

Lemma lookup_profile_safe (P : trace → Prop) a :
  call_safe (λ r tr, P tr ∧ ∀ p, r = Ok (Some p) → mo_alias p = a) P (lookup_profile request a).
Proof.
  unfold lookup_profile. destruct (snapshots request !! a) as [p|] eqn:Ha.
  { apply call_done. intros tr Htr. split; [done|]. intros p' [= <-]. by apply snapshots_alias. }
  case_bool_decide; [|by apply call_done].
  apply call_await; [intros; apply profile_clock|done|]. intros x tr Htr. rewrite app_nil_r. split; [done|].
  intros p Hp. eapply profile_alias. by rewrite (surjective_pairing (resolve_profile _ _ _)), Hp.
Qed.

Lemma candidates_safe (P : trace → Prop) fuel aliases seen profiles :
  Forall wanted aliases → Forall candidate profiles →
  call_safe (λ r tr, P tr ∧ match r with Ok l => Forall candidate l | Raise _ => True end) P
    (candidates_from fuel request aliases seen profiles).
Proof.
  revert aliases seen profiles. induction fuel as [|fuel IH]; intros aliases seen profiles Hal Hpr; simpl;
    [by apply call_done|].
  destruct (next_alias seen aliases) as [[a rest]|] eqn:Hnext; [|by apply call_done].
  apply next_alias_Some in Hnext as (Ha & _ & Hrest).
  assert (Forall wanted rest) as Hwr by (rewrite Forall_forall in Hal |- *; auto).
  eapply call_bind; [apply (lookup_profile_safe P)| |by intros e tr [Htr _]].
  assert (∀ (P' : trace → Prop) ps, (∀ tr, P' tr → P tr) → Forall candidate ps →
    call_safe (λ r tr, P tr ∧ match r with Ok l => Forall candidate l | Raise _ => True end) P'
      (candidates_from fuel request rest ({[a]} ∪ seen) ps)) as Hskip.
  { intros P' ps HP' Hps. eapply call_weaken; [by apply IH|exact HP']. }
  intros [p|]; [|apply Hskip; [by intros tr []|done]].
  case_bool_decide as Htenant; [|apply Hskip; [by intros tr []|done]].
  destruct (decide (mo_alias p = a)) as [Hpa|Hpa].
  - eapply call_weaken; [apply IH|by intros tr [Htr _]].
    + apply Forall_app. split; [done|]. apply Forall_forall. intros b [Hb _]%list_elem_of_filter. by right.
    + apply Forall_app. split; [done|]. apply Forall_singleton. split; [done|]. rewrite Hpa.
      by rewrite Forall_forall in Hal; apply Hal.
  - eapply call_weaken with (P := λ _, False); [|intros tr [_ Hp]; by apply Hpa, Hp].
    eapply safe_weaken; [apply safe_false|]. done.
Qed.

(** ** The loop over the candidates *)
Definition reservation (b : option BudgetReservationBundle) : trace :=
  match b with Some b => [Reserved n b] | None => [] end.
(** What the loop adds before a provider answers. *)
Definition looking (a : GatewayAction) : Prop := answered a = false ∧ is_budget a = false.
Definition searching (b : option BudgetReservationBundle) (tr : trace) : Prop :=
  (∃ t, tr = reservation b ++ t ∧ Forall looking t) ∧
  ∀ k, (length (posts k tr) ≤ length (grants k tr))%nat.
Definition served (b : option BudgetReservationBundle) (r : GatewayResult) (tr : trace) : Prop :=
  ∃ t p c, tr = reservation b ++ t ++ [Posted n p (gq_messages request) c true; Succeeded n (profile_key p)] ∧
    Forall looking t ∧ gt_model_alias r = mo_alias p ∧
    gt_fallback_used r = negb (bool_decide (mo_alias p = gq_model_alias request)).

Lemma searching_extend b tr l :
  searching b tr → Forall looking l → (∀ k, posts k l = []) → searching b (tr ++ l).
Proof.
  intros [(t & -> & Ht) Hk] Hl Hp. split.
  - exists (t ++ l). rewrite app_assoc. split; [done|]. by apply Forall_app.
  - intros k. specialize (Hk k). rewrite posts_app, grants_app, Hp, app_nil_r, !length_app. lia.
Qed.

Lemma searching_quiet b tr : searching b tr → Forall (λ a, answered a = false) tr.
Proof.
  intros [(t & -> & Ht) _]. apply Forall_app. split; [by destruct b; repeat constructor|].
  eapply Forall_impl; [exact Ht|]. by intros a [].
Qed.

Lemma searching_budget b tr : searching b tr → filter (λ a, is_budget a = true) tr = reservation b.
Proof.
  intros [(t & -> & Ht) _]. rewrite filter_app, (filter_none _ t).
  - rewrite app_nil_r. by destruct b.
  - intros a Ha. rewrite Forall_forall in Ht. destruct (Ht a Ha) as [_ ->]. done.
Qed.

Abbreviation loop_safe b P p :=
  (call_safe (λ r tr, match r with Ok r => served b r tr | Raise _ => searching b tr end) P p).

Lemma candidate_failed_safe b P started p code :
  (∀ tr, P tr → searching b tr) →
  call_safe (λ r tr, searching b tr ∧ r = Ok tt) P
    (atomically (candidate_failed config hash_messages n request started p code)).
Proof.
  intros HP. apply call_local. intros s Hi Hs%HP. unfold candidate_failed. unfold mbind, ST_mbind.
  destruct (record_failure_spec config request_at n (profile_key p) s Hi) as (s' & -> & Hi' & _ & Hl).
  unfold record_event. run_ops. eexists _, _, _. split; [done|]. split; [by apply inv_event|].
  split; [exact Hl|]. split; [by constructor|]. split; [|done].
  apply searching_extend; [done|by repeat constructor|done].
Qed.

Lemma no_candidate_left_safe b started pg :
  loop_safe b (searching b) (atomically (no_candidate_left hash_messages request started pg)).
Proof.
  apply call_local. intros s Hi Hs. unfold no_candidate_left, record_event. run_ops.
  destruct (pg_failure_recorded pg); eexists _, _, []; (split; [done|]); rewrite !app_nil_r;
    (split; [by try apply inv_event|]); by split; [|split; [constructor|]].
Qed.

(** After the gates: the call may spend one grant of the profile. *)
Definition passed b p (tr : trace) : Prop :=
  searching b tr ∧ Allowed n p ∈ tr ∧
  (length (posts (profile_key p) tr) < length (grants (profile_key p) tr))%nat.

Lemma pass_gates_safe b p :
  call_safe (λ r tr, match r with Ok GatePassed => passed b p tr | _ => searching b tr end)
    (λ tr, searching b tr ∧ Allowed n p ∈ tr) (atomically (pass_gates config n p)).
Proof.
  apply call_local. intros s Hi [Hs Ha].
  destruct (pass_gates_spec config request_at n p s Hi) as (g & s' & -> & Hi' & _ & Hl).
  eexists _, _, _. split; [done|]. split; [done|]. split; [exact Hl|].
  split; [by destruct g; repeat constructor|].
  assert (∀ l, Forall looking l → (∀ k, posts k l = []) → searching b (mine n (gs_log s) ++ l)) as Hext
    by (intros; by apply searching_extend).
  destruct g; [|apply Hext; by repeat constructor..].
  split; [by apply Hext; repeat constructor|]. split; [set_solver|].
  rewrite posts_app, grants_app, !length_app. destruct Hs as [_ Hk]. specialize (Hk (profile_key p)).
  unfold posts at 2, grants at 2. simpl. rewrite bool_decide_eq_true_2 by done. simpl. lia.
Qed.

Lemma secret_safe b p :
  call_safe (λ r tr, passed b p tr ∧ ∀ c, r = Ok c → SecretRead n p c ∈ tr) (passed b p)
    (atomically (await (resolve_secret (mo_tenant_id p) (mo_secret_ref p))
       (λ r, match r with Ok c => [SecretRead n p c] | Raise _ => [] end))).
Proof.
  apply call_await; [intros; apply secret_clock|by intros [c|e] tr|].
  intros x tr (Hs & Ha & Hk). destruct (resolve_secret _ _ x).1 as [c|e]; simpl.
  - split; [|intros ? [= <-]; set_solver]. split; [apply searching_extend; [done|by repeat constructor|done]|].
    split; [set_solver|]. by rewrite posts_app, grants_app, !app_nil_r.
  - rewrite app_nil_r. split; [by split|done].
Qed.

(** The request and profile meet the conditions that need no service. *)
Definition admissible (p : ModelProfile) : Prop :=
  candidate p ∧ locally_allowed request p (effective_classification request) = true ∧
  blocked (scan_messages (gq_messages request)) = false.

Lemma passed_cleared b p c tr :
  (gc_has_budget config = true → is_Some b) → admissible p → mine n tr = tr →
  passed b p tr → SecretRead n p c ∈ tr → cleared config request_at n p (gq_messages request) c tr.
Proof.
  intros Hb ([Ht Ha] & Hl & Hscan) Hmine (Hs & Hal & Hk) Hc.
  unfold locally_allowed in Hl. rewrite !andb_true_iff, !negb_true_iff, !bool_decide_eq_false, bool_decide_eq_true,
    Z.leb_le in Hl. destruct Hl as [[[_ Heff] Hreg] Hrank].
  split; try done; [|by rewrite Hmine].
  intros [r ->]%Hb. destruct Hs as [(t & -> & _) _]. exists r. simpl. set_solver.
Qed.

Lemma post_safe b p c :
  (gc_has_budget config = true → is_Some b) → admissible p →
  call_safe (λ r tr, match r with
      | Ok _ => ∃ t, tr = reservation b ++ t ++ [Posted n p (gq_messages request) c true] ∧ Forall looking t
      | Raise _ => searching b tr
      end)
    (λ tr, passed b p tr ∧ SecretRead n p c ∈ tr)
    (atomically (complete_at_provider n p (gq_messages request) c)).
Proof.
  intros Hb Hadm. apply call_local. intros s Hi [Hp Hc]. unfold complete_at_provider.
  pose proof (post_clock p (gq_messages request) c (gs_world s)) as Hclock.
  destruct (provider_post _ _ _ (gs_world s)) as [r x]. simpl in Hclock.
  eexists _, _, _. split; [done|]. split; [|split; [done|split; [by constructor|]]].
  - apply inv_neutral; [done..|]. apply justified_own; [done..|]. split; [done|]. rewrite mine_mine. split.
    + eapply passed_cleared; [done..|by apply mine_mine|done|done].
    + apply (searching_quiet b), Hp.
  - destruct Hp as ([(t & Heq & Ht) Hk] & _ & Hlt). rewrite Heq in *. clear Heq.
    destruct (provider_completion r) as [m|e]; simpl.
    + exists t. by rewrite <-app_assoc.
    + split.
      * eexists. rewrite <-app_assoc. split; [done|]. apply Forall_app. split; [done|by repeat constructor].
      * intros k. specialize (Hk k). rewrite posts_app, grants_app, !length_app. unfold posts at 2, grants at 2. simpl.
        case_bool_decide as Hkey; [subst k|]; simpl in *; lia.
Qed.

Lemma succeeded_safe b p c started m :
  loop_safe b (λ tr, ∃ t, tr = reservation b ++ t ++ [Posted n p (gq_messages request) c true] ∧ Forall looking t)
    (atomically (candidate_succeeded hash_messages hash_completion n request started p m)).
Proof.
  apply call_local. intros s Hi (t & Htr & Ht). unfold candidate_succeeded. unfold mbind at 1, ST_mbind at 1.
  destruct (record_success_spec config request_at n (profile_key p) s Hi) as (s' & -> & Hi' & _ & Hl).
  unfold record_event. run_ops. eexists _, _, [Succeeded n (profile_key p)]. split; [done|].
  split; [by apply inv_event, inv_degradation|]. split; [exact Hl|]. split; [by constructor|].
  exists t, p, c. rewrite Htr, <-!app_assoc. done.
Qed.

Lemma try_candidates_safe b started l pg :
  (gc_has_budget config = true → is_Some b) → blocked (scan_messages (gq_messages request)) = false →
  Forall candidate l →
  loop_safe b (searching b) (try_candidates config hash_messages hash_completion n request started
    (effective_classification request) l pg).
Proof.
  intros Hb Hscan. revert pg. induction l as [|p l IH]; intros pg Hl; cbn [try_candidates];
    [apply no_candidate_left_safe|].
  apply Forall_cons in Hl as [Hp Hl].
  assert (∀ (P : trace → Prop) pg, (∀ tr, P tr → searching b tr) → loop_safe b P (try_candidates config hash_messages
    hash_completion n request started (effective_classification request) l pg)) as Hnext
    by (intros P pg' HP; by eapply call_weaken; [apply IH|exact HP]). clear IH.
  unfold allows. destruct (locally_allowed _ _ _) eqn:Hlocal; [|simpl; by apply Hnext].
  eapply call_bind with (Q := λ r tr, searching b tr ∧ (r = Ok true → Allowed n p ∈ tr)); [| |by intros e tr [Hs _]].
  { apply call_await; [intros; apply policy_clock|by intros [[]|] tr|]. intros x tr Hs.
    destruct (policy_allows _ _ _ x).1 as [[]|e]; rewrite ?app_nil_r; (split; [|try done]).
    - apply searching_extend; [done|by repeat constructor|done].
    - intros _. set_solver.
    - done.
    - done. }
  intros []; cbv beta iota delta [negb]; [|by apply Hnext; intros tr [? _]].
  eapply call_bind; [eapply call_weaken; [apply (pass_gates_safe b p)|intros tr [Hs Ha]; by split; [|apply Ha]]| |done].
  intros []; [|by apply Hnext..].
  assert (admissible p) as Hadm by done.
  eapply call_bind with (Q := λ r tr, match r with
    | Ok (Some c) => passed b p tr ∧ SecretRead n p c ∈ tr | _ => searching b tr end); [| |done].
  { eapply call_catch with (Q := λ r tr, match r with
      | Ok (Some c) => passed b p tr ∧ SecretRead n p c ∈ tr | Ok None => False | _ => searching b tr end).
    - eapply call_bind; [apply (secret_safe b p)| |by intros e tr [[Hs _] _]].
      intros c. apply call_done. intros tr [Hpass Hc]. split; [done|by apply Hc].
    - intros e. destruct (is_exception e); [|by apply call_done].
      eapply call_bind; [by apply (candidate_failed_safe b)| |by intros e' tr [Hs _]].
      intros []. apply call_done. by intros tr [Hs _].
    - by intros [c|] tr. }
  intros [c|]; [|by apply Hnext].
  eapply call_bind with (Q := λ r tr, match r with
    | Ok (Some _) => ∃ t, tr = reservation b ++ t ++ [Posted n p (gq_messages request) c true] ∧ Forall looking t
    | _ => searching b tr end); [| |done].
  { eapply call_catch with (Q := λ r tr, match r with
      | Ok (Some _) => ∃ t, tr = reservation b ++ t ++ [Posted n p (gq_messages request) c true] ∧ Forall looking t
      | Ok None => False | _ => searching b tr end).
    - eapply call_bind; [by apply (post_safe b p c)| |done]. intros r. by apply call_done.
    - assert (call_safe (λ r tr, match r with
        | Ok (Some _) => ∃ t, tr = reservation b ++ t ++ [Posted n p (gq_messages request) c true] ∧ Forall looking t
        | _ => searching b tr end) (searching b)
        (_ <-- atomically (candidate_failed config hash_messages n request started p "UPSTREAM_FAILURE");
         pm_ret (None : option jobject))) as Hfail.
      { eapply call_bind; [by apply (candidate_failed_safe b)| |by intros e' tr [Hs _]].
        intros []. apply call_done. by intros tr [Hs _]. }
      intros []; [exact Hfail|exact Hfail|by apply call_done..].
    - by intros [r|] tr. }
  intros [r|]; [apply succeeded_safe|by apply Hnext].
Qed.

(** ** The whole call *)
Definition finished (r : outcome GatewayError GatewayResult) (tr : trace) : Prop :=
  match r with
  | Ok res => ∃ b tr', (gc_has_budget config = true → is_Some b) ∧ served b res tr' ∧
      tr = tr' ++ match b with Some b => [Settled n b true] | None => [] end
  | Raise e =>
      Forall looking tr ∨
      (∃ b t t' reason ok, tr = Reserved n b :: t ++ Released n b reason ok :: t' ∧ Forall looking (t ++ t') ∧
        (ok = true → e = ModelGatewayError reason ∨ effective_classification request = RESTRICTED)) ∨
      (∃ b tr' res, served (Some b) res tr' ∧ tr = tr' ++ [Settled n b false]) ∨
      (∃ b t, tr = Reserved n b :: t ∧ Forall looking t ∧ ∀ code, e ≠ ModelGatewayError code)
  end.
Abbreviation finishes P p := (call_safe finished P p).

Lemma refuse_secret_safe scan : finishes (λ tr, tr = []) (refuse_secret config n request scan).
Proof.
  unfold refuse_secret. eapply call_bind with (Q := λ _ tr, Forall looking tr); [| |by left].
  - destruct (gc_has_policy_audit config); [|by apply call_done; intros tr ->].
    eapply call_catch with (Q := λ _ tr, Forall looking tr); [| |done].
    + apply call_await; [intros; apply denied_clock|by intros r tr|]. intros x tr ->. by repeat constructor.
    + intros e. by apply call_done.
  - intros []. apply call_done. by left.
Qed.

Lemma reserve_safe :
  call_safe (λ r tr, match r with
      | Ok b => tr = reservation b ∧ (gc_has_budget config = true → is_Some b) | Raise _ => tr = [] end)
    (λ tr, tr = []) (reserve_budget config n request).
Proof.
  unfold reserve_budget. destruct (gc_has_budget config) eqn:Hb; [|by apply call_done; intros tr ->].
  eapply call_bind with (Q := λ r tr, match r with Ok b => tr = [Reserved n b] | Raise _ => tr = [] end); [| |done].
  - apply call_await; [intros; apply reserve_clock| |].
    + intros [b|e] tr ->; [|done]. split; [done|]. split; [by split|]. by split.
    + intros x tr ->. by destruct (budget_reserve _ x).1.
  - intros b. apply call_done. intros tr ->. split; [done|by eexists].
Qed.

Lemma audit_denial_safe (P : trace → Prop) reason :
  call_safe (λ _ tr, ∃ tr0 t, tr = tr0 ++ t ∧ P tr0 ∧ Forall looking t) P (audit_denial n request reason).
Proof.
  apply call_await; [intros; apply denied_clock|by intros r tr|].
  intros x tr Htr. eexists _, _. split; [done|]. split; [done|by repeat constructor].
Qed.

Lemma searching_none tr : searching None tr → Forall looking tr.
Proof. by intros [(t & -> & Ht) _]. Qed.

(** The entries of a call that gave its reservation back. *)
Definition gave_back (b : option BudgetReservationBundle) (code : string) (ok : bool) (tr : trace) : Prop :=
  match b with
  | Some r => ∃ t, tr = Reserved n r :: t ++ [Released n r code ok] ∧ Forall looking t
  | None => Forall looking tr
  end.

Lemma gave_back_finished b code ok tr0 t e :
  gave_back b code ok tr0 → Forall looking t →
  (ok = true → e = ModelGatewayError code ∨ effective_classification request = RESTRICTED) →
  finished (Raise e) (tr0 ++ t).
Proof.
  intros Hb Ht Hok. destruct b as [r|]; simpl in Hb.
  - destruct Hb as (t0 & -> & Ht0). right. left. exists r, t0, t, code, ok.
    rewrite <-app_comm_cons, <-app_assoc. split; [done|]. split; [by apply Forall_app|done].
  - left. by apply Forall_app.
Qed.

Lemma release_safe b code :
  call_safe (λ r tr, gave_back b code (returned r) tr) (searching b)
    (match b with
     | Some r => pm_catch (atomically (await (budget_release r code) (λ o, [Released n r code (returned o)])))
                   (λ e', pm_raise (if is_exception e' then ModelGatewayError "BUDGET_STATE_UNKNOWN" else e'))
     | None => pm_ret tt
     end).
Proof.
  destruct b as [r|]; [|apply call_done; intros tr; apply searching_none].
  eapply call_catch with (Q := λ o tr, gave_back (Some r) code (returned o) tr); [| |done].
  - apply call_await; [intros; apply release_clock| |].
    + intros o tr Hs. split; [done|]. split; [by split|]. intros Hmine. split; [done|]. rewrite Hmine.
      split; [|split; [by eapply searching_quiet|exact (searching_budget _ _ Hs)]].
      destruct Hs as [(t & -> & _) _]. set_solver.
    + intros x tr [(t & -> & Ht) _]. by exists t.
  - intros e. by apply call_done.
Qed.

Abbreviation failed_call P p :=
  (call_safe (λ (r : outcome GatewayError GatewayResult) tr, match r with Ok _ => False | Raise e => finished (Raise e) tr end) P p).
Lemma after_failure_safe b e : failed_call (searching b) (after_failure config n request b e).
Proof.
  assert (∀ e, (∀ code, e ≠ ModelGatewayError code) → failed_call (searching b) (pm_raise e)) as Hother.
  { intros e' He'. apply call_done. intros tr Hs. destruct b as [r|].
    - destruct Hs as [(t & -> & Ht) _]. right. right. right. by exists r, t.
    - left. by apply searching_none. }
  unfold after_failure. destruct e as [code| | |]; [|by apply Hother..].
  eapply call_bind; [apply (release_safe b code)| |].
  2: { intros e tr Hg. rewrite <-(app_nil_r tr). eapply gave_back_finished; [exact Hg|constructor|done]. }
  intros []. eapply call_bind with (Q := λ r tr, ∃ tr0 t, tr = tr0 ++ t ∧ gave_back b code true tr0 ∧
    Forall looking t ∧ (r = Ok tt ∨ effective_classification request = RESTRICTED)).
  - destruct (gc_has_policy_audit config && _ && _) eqn:Hc.
    + apply andb_true_iff in Hc as [Hc _]. apply andb_true_iff in Hc as [_ Hc%bool_decide_eq_true].
      eapply safe_post; [apply (audit_denial_safe (gave_back b code true))|].
      intros r s _ (tr0 & t & ? & ? & ?). exists tr0, t. split_and!; [done..|by right].
    + apply call_done. intros tr Hg. exists tr, []. rewrite app_nil_r. split_and!; [done..|by left].
  - intros []. apply call_done. intros tr (tr0 & t & -> & Hg & Ht & _). eapply gave_back_finished; [exact Hg|exact Ht|]. by left.
  - intros e tr (tr0 & t & -> & Hg & Ht & Hor). eapply gave_back_finished; [exact Hg|exact Ht|]. intros _.
    right. by destruct Hor.
Qed.

Lemma served_answered b res tr : served b res tr → Exists (λ a, answered a = true) tr.
Proof.
  intros (t & p & c & -> & _). apply Exists_exists.
  exists (Posted n p (gq_messages request) c true). split; [set_solver|done].
Qed.
Lemma served_budget b res tr : served b res tr → filter (λ a, is_budget a = true) tr = reservation b.
Proof.
  intros (t & p & c & -> & Ht & _). rewrite !filter_app, (filter_none _ t).
  - simpl. rewrite app_nil_r. by destruct b.
  - intros a Ha. rewrite Forall_forall in Ht. destruct (Ht a Ha) as [_ ->]. done.
Qed.

Lemma settlement_safe b res :
  (gc_has_budget config = true → is_Some b) →
  finishes (served b res) (_ <-- settle_budget n b; pm_ret res).
Proof.
  intros Hb. unfold settle_budget. destruct b as [r|].
  - eapply call_bind with (Q := λ o tr, ∃ tr', served (Some r) res tr' ∧ tr = tr' ++ [Settled n r (returned o)]).
    + apply call_await; [intros; apply settle_clock| |by intros x tr Hs; exists tr].
      intros o tr Hs. split; [done|]. split; [by split|]. intros Hmine. split; [done|]. rewrite Hmine.
      split; [|split; [by eapply served_answered|exact (served_budget _ _ _ Hs)]].
      destruct Hs as (t & p & c & -> & _). set_solver.
    + intros []. apply call_done. intros tr (tr' & Hs & ->). by exists (Some r), tr'.
    + intros e tr (tr' & Hs & ->). right. right. left. by exists r, tr', res.
  - apply call_done. intros tr Hs. exists None, tr. by rewrite app_nil_r.
Qed.

Theorem complete_safe :
  finishes (λ tr, tr = []) (complete config hash_messages hash_completion n request).
Proof.
  unfold complete. eapply call_bind with (Q := λ _ tr, tr = []); [| |intros e tr ->; by left].
  { apply call_local. intros s Hi Hs. eexists _, _, []. split; [done|]. by rewrite !app_nil_r. }
  intros started. cbv zeta. destruct (blocked _) eqn:Hscan; [apply refuse_secret_safe|].
  eapply call_bind; [apply reserve_safe| |intros e tr ->; by left].
  intros b. destruct (decide (gc_has_budget config = true → is_Some b)) as [Hb|Hb].
  2: { eapply call_weaken with (P := λ _, False); [|by intros tr [_ ?]].
       eapply safe_weaken; [apply safe_false|]. done. }
  eapply call_bind with (Q := λ r tr, match r with Ok res => served b res tr | Raise e => finished (Raise e) tr end);
    [| |done].
  2: { intros res. by apply settlement_safe. }
  eapply call_catch with (Q := λ r tr, match r with Ok res => served b res tr | Raise _ => searching b tr end);
    [|intros e; eapply safe_post; [apply after_failure_safe|by intros [] ? _]|done].
  unfold complete_with_guard, candidate_profiles.
  eapply call_weaken with (P := searching b).
  2: { intros tr [-> _]. split; [exists []; by rewrite app_nil_r|]. intros k. by destruct b. }
  eapply call_bind; [apply (candidates_safe (searching b)); [by constructor; [left|]|constructor]| |by intros e tr []].
  intros l. destruct (decide (Forall candidate l)) as [Hl|Hl].
  - eapply call_weaken; [by apply try_candidates_safe|]. by intros tr [].
  - eapply call_weaken with (P := λ _, False); [|by intros tr []].
    eapply safe_weaken; [apply safe_false|]. done.
Qed.
End OneCall.
End Calls.
