(* ===== verification/GatewayTheorems.v ===== *)
(** * What the gateway guarantees

    Calls of one gateway in any number and interleaving, with services that change
    between any two steps. *)

From S2P Require Import Prelude PyNum PyDict Interleave Budgets ExecutionBus ToolRegistry Degradation PyRegex Governance LlmGateway GatewayFacts GatewayCalls.
Open Scope string_scope.
Open Scope list_scope.
Open Scope Z_scope.

Section Theorems.
Context {X : Type} `{!Collaborators X, !LawfulCollaborators X}.
Context (config : GatewayConfig) (request_at : nat → GatewayRequest).
Context (hash_messages : list message → string) (hash_completion : jobject → string).
Abbreviation Inv := (GatewayInv (X := X) config request_at).
Abbreviation GWP A := (PM (Gateway X) GatewayError A).

(** ** A gateway and its calls

    The [n]-th call to arrive serves [request_at n]. *)
Record GatewaySystem := { sg_gateway : Gateway X; sg_calls : list (GWP GatewayResult) }.

Inductive gateway_run : GatewaySystem → GatewaySystem → Prop :=
  | gw_arrive s :
      gateway_run s {| sg_gateway := sg_gateway s; sg_calls := sg_calls s ++
        [complete config hash_messages hash_completion (length (sg_calls s)) (request_at (length (sg_calls s)))] |}
  | gw_step s n next effect :
      sg_calls s !! n = Some (Step next effect) →
      gateway_run s {| sg_gateway := effect (sg_gateway s);
                       sg_calls := <[n := next (sg_gateway s)]> (sg_calls s) |}
  | gw_world s x :
      monotonic (gs_world (sg_gateway s)) ≤ monotonic x →
      gateway_run s {| sg_gateway := set_world x (sg_gateway s); sg_calls := sg_calls s |}.

Definition gateway_start (registry : DegradationRegistry) (x : X) : GatewaySystem :=
  {| sg_gateway := new_gateway registry x; sg_calls := [] |}.

Definition call_ok (g : Gateway X) (n : nat) (p : GWP GatewayResult) : Prop :=
  ∃ J : Gateway X → Prop, J g ∧ stable Inv (rely n) J ∧
    proc_safe Inv (rely n) (guar n) (λ r, knows n (finished config request_at n r)) J p.
Record system_ok (s : GatewaySystem) : Prop := {
  so_inv : Inv (sg_gateway s);
  so_numbers : Forall (λ a, (action_call a < length (sg_calls s))%nat) (gs_log (sg_gateway s));
  so_calls : ∀ n p, sg_calls s !! n = Some p → call_ok (sg_gateway s) n p;
}.

Lemma gateway_start_ok registry x : system_ok (gateway_start registry x).
Proof.
  split; simpl; [|constructor|done]. split; simpl; [apply log_ok_nil|done| |constructor].
  intros k. exists []. by rewrite lookup_empty.
Qed.

Lemma gateway_run_ok s s' : gateway_run s s' → system_ok s → system_ok s'.
Proof.
  intros Hrun [Hi Hnum Hcalls]. destruct Hrun as [s|s n next effect Hn|s x Hx]; simpl in *.
  - split; simpl; [done| |].
    + eapply Forall_impl; [exact Hnum|]. simpl. intros a Ha. rewrite length_app. simpl. lia.
    + intros n p [Hp|[Hlen Hp]]%lookup_app_Some; [by apply Hcalls|].
      apply list_lookup_singleton_Some in Hp as [Hn <-]. assert (n = length (sg_calls s)) as -> by lia.
      exists (knows (length (sg_calls s)) (λ tr, tr = [])). split_and!.
      * apply filter_none. intros a Ha. rewrite Forall_forall in Hnum. specialize (Hnum a Ha). lia.
      * apply knows_stable.
      * apply complete_safe; typeclasses eauto.
  - destruct (Hcalls n _ Hn) as (J & HJ & Hst & Hp). inversion Hp as [|? J' ? ? Hstep Hst' Hnext]; subst.
    destruct (Hstep _ Hi HJ) as (Hi' & Hg & HJ'). pose proof Hg as (l & Hl & Hown).
    split; simpl; [done| |].
    + rewrite Hl, length_insert. apply Forall_app. split; [done|]. eapply Forall_impl; [exact Hown|].
      simpl. intros a ->. by eapply lookup_lt_Some.
    + intros m p Hm. destruct (decide (m = n)) as [->|Hne].
      * rewrite list_lookup_insert_eq in Hm by (by eapply lookup_lt_Some). injection Hm as <-.
        exists (J' (sg_gateway s)). split_and!; [done|by apply Hst'|by apply Hnext].
      * rewrite list_lookup_insert_ne in Hm by done. destruct (Hcalls m p Hm) as (K & HK & HstK & HpK).
        exists K. split_and!; [|done|done]. eapply HstK; [exact Hi|done| |done].
        by eapply (guar_rely n).
  - assert (Inv (set_world x (sg_gateway s))) as Hi' by (by apply inv_world).
    split; simpl; [done|done|]. intros n p Hp. destruct (Hcalls n p Hp) as (J & HJ & Hst & Hsafe).
    exists J. split_and!; [|done|done]. eapply Hst; [exact Hi|done| |done]. exists []. by rewrite app_nil_r.
Qed.

Lemma gateway_runs_ok registry x s : rtc gateway_run (gateway_start registry x) s → system_ok s.
Proof.
  intros Hrun. pose proof (gateway_start_ok registry x) as Hok. revert Hok.
  induction Hrun as [s|s1 s2 s3 Hstep _ IH]; intros Hok; [done|]. by apply IH, (gateway_run_ok s1).
Qed.

(** C9: However calls and changes of the services interleave, nothing is sent to a model
    provider before it was cleared: the messages are those of the request and hold no
    detected secret, their effective classification is not RESTRICTED, the profile
    belongs to the tenant, is the requested one or an allowed fallback, serves the
    region and the declared classification, the policy allowed it for this call, the
    budget was reserved, the rate limit granted the call (one grant per provider
    call), and the credential is the one the secret store gave for that profile.
    After an answer the call sends nothing more. *)
Theorem provider_calls_are_cleared registry x s n p messages credential ok before after :
  rtc gateway_run (gateway_start registry x) s →
  gs_log (sg_gateway s) = before ++ Posted n p messages credential ok :: after →
  cleared config request_at n p messages credential before ∧
  Forall (λ a, answered a = false) (mine n before).
Proof.
  intros Hrun Hlog. destruct (gateway_runs_ok _ _ _ Hrun) as [Hi _ _].
  by destruct (gi_log _ _ _ Hi _ _ _ Hlog) as [_ Hj].
Qed.

(** ** Rate limit *)
Lemma length_filter_mono {A} (P Q : A → Prop) `{!∀ x, Decision (P x), !∀ x, Decision (Q x)} l :
  (∀ x, P x → Q x) → (length (filter P l) ≤ length (filter Q l))%nat.
Proof.
  intros HPQ. induction l as [|y l IH]; [done|]. rewrite !filter_cons.
  repeat case_decide; simpl; naive_solver lia.
Qed.

Lemma posts_granted k n l :
  log_ok config request_at l → (length (posts k (mine n l)) ≤ length (grants k (mine n l)))%nat.
Proof.
  induction l as [|x l IH] using rev_ind; intros Hl; [done|].
  assert (log_ok config request_at l) as Hl' by (by eapply log_ok_init).
  specialize (IH Hl'). rewrite mine_app, posts_app, grants_app, !length_app.
  unfold mine at 2 4. destruct (decide (action_call x = n)) as [Hn|Hn].
  - rewrite filter_cons_True by done. rewrite filter_nil. destruct x; simpl; try lia.
    case_bool_decide as Hk; simpl; [|lia]. simpl in Hn. subst.
    destruct (Hl l _ [] eq_refl) as [_ [Hc _]]. pose proof (cl_granted _ _ _ _ _ _ _ Hc). lia.
  - rewrite filter_cons_False by done. simpl. lia.
Qed.

Lemma window_bound k (L : Z) (a : instant) l :
  log_ok config request_at l → 0 ≤ L → (∀ n t lim, Granted n k t lim ∈ l → lim ≤ L) →
  Z.of_nat (length (filter (λ t, a ≤ t < a + MINUTE) (grants k l))) ≤ L.
Proof.
  intros Hl HL. induction l as [|x l IH] using rev_ind; intros Hlim; [simpl; lia|].
  assert (log_ok config request_at l) as Hl' by (by eapply log_ok_init).
  specialize (IH Hl'). rewrite grants_app, filter_app, length_app.
  assert (Z.of_nat (length (filter (λ t, a ≤ t < a + MINUTE) (grants k l))) ≤ L) as Hold.
  { apply IH. intros n t lim Hin. apply (Hlim n t). set_solver. }
  unfold grants at 2. simpl. destruct (grant_of k x) as [t|] eqn:Hx; [|simpl; lia].
  destruct x; simpl in Hx; try done. case_bool_decide; simplify_eq.
  destruct (decide (a ≤ t < a + MINUTE)) as [Hin|Hout]; [|rewrite filter_cons_False by done; simpl; lia].
  rewrite filter_cons_True by done. simpl.
  destruct (Hl l _ [] eq_refl) as [_ [Hcount _]].
  assert (limit ≤ L) by (eapply Hlim; apply elem_of_app; right; constructor).
  enough (length (filter (λ t, (a ≤ t < a + MINUTE)%Z) (grants k l)) ≤ length (recent_grants k t l))%nat by lia.
  unfold recent_grants. apply length_filter_mono. intros t'. lia.
Qed.

(** C37: The rate limiter is a sliding window.  However calls interleave, each grant finds
    fewer grants of its profile in the minute before it than the profile's limit; so
    in any minute a profile whose limit never exceeds [L] is granted at most [L]
    times.  No call sends more requests to a profile than it was granted. *)
Theorem rate_limit_holds registry x s k :
  rtc gateway_run (gateway_start registry x) s →
  (∀ n now limit before after, gs_log (sg_gateway s) = before ++ Granted n k now limit :: after →
    Z.of_nat (length (recent_grants k now before)) < limit) ∧
  (∀ L a, 0 ≤ L → (∀ n t lim, Granted n k t lim ∈ gs_log (sg_gateway s) → lim ≤ L) →
    Z.of_nat (length (filter (λ t, a ≤ t < a + MINUTE) (grants k (gs_log (sg_gateway s))))) ≤ L) ∧
  (∀ n, (length (posts k (mine n (gs_log (sg_gateway s)))) ≤ length (grants k (mine n (gs_log (sg_gateway s)))))%nat).
Proof.
  intros Hrun. destruct (gateway_runs_ok _ _ _ Hrun) as [Hi _ _]. pose proof (gi_log _ _ _ Hi) as Hl.
  split_and!.
  - intros n now limit before after Hlog. by destruct (Hl _ _ _ Hlog) as [_ [? _]].
  - intros L a. by apply window_bound.
  - intros n. by apply posts_granted.
Qed.

(** ** Circuit breaker *)
Definition opened_since (k : circuit_key) (t : instant) (l : trace) (st : Z * option instant) : Prop :=
  (∃ o, st.2 = Some o ∧ t ≤ o) ∨
  ∃ m now, Checked m k now ∈ l ∧ gc_circuit_reset_micros config ≤ now - t.

Lemma breaker_stays_open k t st l :
  (∃ o, st.2 = Some o ∧ t ≤ o) → (∀ m, Succeeded m k ∉ l) →
  Forall (λ a, ∀ t', action_time a = Some t' → t ≤ t') l →
  opened_since k t l (foldl (breaker_step config k) st l).
Proof.
  intros Hst. induction l as [|a l IH] using rev_ind; intros Hs Ht; [by left|].
  apply Forall_app in Ht as [Ht [Ha _]%Forall_cons]. rewrite foldl_app. simpl.
  destruct IH as [(o & Ho & Hle)|(m & now & Hc & Hnow)]; [set_solver|done| |].
  2: { right. exists m, now. split; [set_solver|done]. }
  destruct a; simpl; try (by left; exists o).
  - case_bool_decide as Hk; [subst|by left; exists o]. rewrite Ho. destruct (Z.ltb_spec (now - o) (gc_circuit_reset_micros config)).
    + left. by exists o.
    + right. exists n, now. split; [set_solver|lia].
  - case_bool_decide as Hk; [subst|by left; exists o]. simpl. left. destruct (_ <=? _); [|by exists o].
    exists now. split; [done|]. by apply Ha.
  - case_bool_decide as Hk; [|by left; exists o]. subst. exfalso. apply (Hs n). set_solver.
Qed.

Lemma later_times l1 a l2 t :
  log_ok config request_at (l1 ++ a :: l2) → action_time a = Some t →
  Forall (λ b, ∀ t', action_time b = Some t' → t ≤ t') l2.
Proof.
  intros Hl Ha. apply Forall_forall. intros b Hb t' Ht'. apply list_elem_of_split in Hb as (m1 & m2 & ->).
  destruct (Hl (l1 ++ a :: m1) b m2) as [Htimes _]; [by rewrite <-app_assoc|].
  specialize (Htimes _ Ht'). rewrite Forall_forall in Htimes. apply (Htimes a); [set_solver|done].
Qed.

(** An open circuit keeps calls from the provider.  However calls interleave, when a
    failure brings the failures of a profile since its last success or reset to the
    threshold, no call is let through to that profile for the reset time, unless one
    that was under way succeeds; the breaker of a profile is a function of its own
    checks, failures and successes. *)
Theorem open_circuit_blocks registry x s n k t l1 l2 n' t' limit l3 :
  rtc gateway_run (gateway_start registry x) s →
  gs_log (sg_gateway s) = l1 ++ Failed n k t :: l2 ++ Granted n' k t' limit :: l3 →
  gc_circuit_failure_threshold config ≤ (breaker config k l1).1 + 1 →
  (∀ m, Succeeded m k ∉ l2) →
  gc_circuit_reset_micros config ≤ t' - t ∧
  (∀ k', breaker config k' (gs_log (sg_gateway s)) =
    (default 0 (gs_failures (sg_gateway s) !! k'), gs_opened_at (sg_gateway s) !! k')).
Proof.
  intros Hrun Hlog Hth Hs. destruct (gateway_runs_ok _ _ _ Hrun) as [Hi _ _]. split; [|apply Hi].
  pose proof (gi_log _ _ _ Hi) as Hl. rewrite Hlog in Hl.
  pose proof (later_times l1 _ _ t Hl eq_refl) as Hlater. apply Forall_app in Hlater as [Hlater _].
  rewrite app_comm_cons, app_assoc in Hl.
  destruct (Hl (l1 ++ Failed n k t :: l2) _ l3 eq_refl) as [Htimes [_ Hclosed]].
  rewrite breaker_app in Hclosed. simpl in Hclosed. rewrite bool_decide_eq_true_2 in Hclosed by done.
  rewrite (proj2 (Z.leb_le _ _) Hth) in Hclosed.
  destruct (breaker_stays_open k t ((breaker config k l1).1 + 1, Some t) l2)
    as [(o & Ho & _)|(m & now & Hc & Hnow)]; [by exists t|exact Hs|exact Hlater|by rewrite Ho in Hclosed|].
  specialize (Htimes _ eq_refl). rewrite Forall_forall in Htimes.
  assert (now ≤ t'); [|lia]. apply (Htimes (Checked m k now)); [set_solver|done].
Qed.

(** ** Outcomes *)
Definition budget_entries (n : nat) (l : trace) : trace := filter (λ a, is_budget a = true) (mine n l).

Lemma looking_budget t : Forall looking t → filter (λ a, is_budget a = true) t = [].
Proof.
  intros Ht. apply filter_none. intros a Ha. rewrite Forall_forall in Ht. by destruct (Ht a Ha) as [_ ->].
Qed.
Lemma looking_quiet t : Forall looking t → Forall (λ a, answered a = false) t.
Proof. intros Ht. eapply Forall_impl; [exact Ht|]. by intros a []. Qed.

End Theorems.

(** ** The candidates of a request

    [_candidate_profiles] walks the fallback graph of the profiles breadth first.  With
    a directory that does not change during the walk, its result is the set of profiles
    reachable from the requested alias over allowed fallbacks, and the fuel of the loop
    is enough for any graph. *)

Section Candidates.
Context {X : Type} `{!Collaborators X} (request : GatewayRequest).
(** What the resolver knows of the tenant's profiles, in the worlds [W] of the walk; a
    request with snapshots does not ask it. *)
Context (resolver : string → option ModelProfile) (W : X → Prop).
Context (Hresolver : snapshots request = ∅ → ∀ a x, W x →
  (resolve_profile (gq_tenant_id request) a x).1 = Ok (resolver a) ∧ W (resolve_profile (gq_tenant_id request) a x).2).
Abbreviation GWP A := (PM (Gateway X) GatewayError A).

Definition directory (a : string) : option ModelProfile :=
  if bool_decide (snapshots request = ∅) then resolver a else snapshots request !! a.
Definition usable (a : string) (p : ModelProfile) : Prop :=
  directory a = Some p ∧ mo_tenant_id p = gq_tenant_id request.

Inductive reachable : string → Prop :=
  | reach_requested : reachable (gq_model_alias request)
  | reach_fallback a p b :
      reachable a → usable a p → b ∈ mo_fallback_aliases p → b ∈ gq_allowed_fallback_aliases request → reachable b.

Definition ready (s : Gateway X) : Prop := snapshots request = ∅ → W (gs_world s).

Lemma lookup_profile_run a (s : Gateway X) :
  ready s → ∃ s', run_proc (lookup_profile request a) s = (Ok (directory a), s') ∧ ready s'.
Proof.
  intros Hs. unfold lookup_profile, directory. destruct (snapshots request !! a) as [p|] eqn:Ha.
  - rewrite bool_decide_eq_false_2 by (intros He; by rewrite He, lookup_empty in Ha). by exists s.
  - case_bool_decide as He; [|by exists s]. simpl. unfold await.
    destruct (Hresolver He a (gs_world s) (Hs He)) as [Hr HW].
    destruct (resolve_profile _ a (gs_world s)) as [r x]. simpl in *. subst r. eexists. split; [done|]. by intros _.
Qed.

(** The aliases a walk may look up. *)
Definition wanted_aliases : gset string := {[gq_model_alias request]} ∪ gq_allowed_fallback_aliases request.

Record walk (fuel : nat) (aliases : list string) (seen : gset string) (profiles : list ModelProfile) : Prop := {
  wk_seen : ∀ a, a ∈ seen → reachable a;
  wk_queue : ∀ a, a ∈ aliases → reachable a ∧ a ∈ wanted_aliases;
  wk_profiles : ∃ visited, NoDup visited ∧ Forall2 usable visited profiles ∧ (∀ a, a ∈ visited → a ∈ seen);
  wk_closed : ∀ a p, a ∈ seen → usable a p →
    p ∈ profiles ∧ ∀ b, b ∈ allowed_fallbacks request p → b ∈ seen ∨ b ∈ aliases;
  wk_start : gq_model_alias request ∈ seen ∨ gq_model_alias request ∈ aliases;
  wk_wanted : seen ⊆ wanted_aliases;
  wk_fuel : (size wanted_aliases < fuel + size seen)%nat;
}.

Lemma next_alias_None seen l : next_alias seen l = None → ∀ a, a ∈ l → a ∈ seen.
Proof.
  induction l as [|b l IH]; simpl; [set_solver|]. case_bool_decide; [|done]. intros Hn a. set_solver.
Qed.
Lemma next_alias_rest seen l a rest : next_alias seen l = Some (a, rest) → ∀ b, b ∈ l → b ∈ seen ∨ b = a ∨ b ∈ rest.
Proof.
  induction l as [|c l IH]; simpl; [done|]. case_bool_decide.
  - intros Hn b. specialize (IH Hn b). set_solver.
  - intros [= -> ->] b. set_solver.
Qed.

Lemma walk_done fuel aliases seen profiles :
  walk fuel aliases seen profiles → (∀ a, a ∈ aliases → a ∈ seen) →
  ∀ p, p ∈ profiles ↔ ∃ a, reachable a ∧ usable a p.
Proof.
  intros [Hseen _ (visited & _ & Hus & Hvis) Hclosed Hstart _ _] Hall p. split.
  - intros (i & Hi)%list_elem_of_lookup. destruct (Forall2_lookup_r _ _ _ _ _ Hus Hi) as (a & Ha & Hp).
    exists a. split; [|done]. by apply Hseen, Hvis, list_elem_of_lookup_2 with i.
  - intros (a & Ha & Hp). assert (a ∈ seen) as Hin; [|by apply (Hclosed a)].
    clear Hp p. induction Ha as [|a p b Ha IH Hu Hb Hb'].
    + destruct Hstart; auto.
    + destruct (Hclosed a p IH Hu) as [_ Hf]. destruct (Hf b); auto. by apply list_elem_of_filter.
Qed.

(** One more alias looked up. *)
Lemma walk_visit fuel aliases seen profiles a rest :
  walk (S fuel) aliases seen profiles → next_alias seen aliases = Some (a, rest) →
  (∀ p, usable a p → walk fuel (rest ++ allowed_fallbacks request p) ({[a]} ∪ seen) (profiles ++ [p])) ∧
  ((∀ p, ¬ usable a p) → walk fuel rest ({[a]} ∪ seen) profiles).
Proof.
  intros [Hseen Hqueue (visited & Hnd & Hus & Hvis) Hclosed Hstart Hwanted Hfuel] Hnext.
  pose proof (next_alias_rest _ _ _ _ Hnext) as Hrest. apply next_alias_Some in Hnext as (Ha & Hnew & Hsub).
  destruct (Hqueue a Ha) as [Hra Hwa].
  assert (size ({[a]} ∪ seen) = S (size seen)) as Hsize.
  { rewrite size_union, size_singleton; [done|]. by apply disjoint_singleton_l. }
  assert (∀ b, b ∈ {[a]} ∪ seen → reachable b) as Hseen' by (intros b [->%elem_of_singleton|?]%elem_of_union; auto).
  assert (∀ b, b ∈ seen ∨ b ∈ aliases → ∀ l, b ∈ {[a]} ∪ seen ∨ b ∈ rest ++ l) as Hmove.
  { intros b Hb l. rewrite elem_of_union, elem_of_singleton, elem_of_app. destruct Hb as [?|Hb]; [tauto|].
    destruct (Hrest b Hb) as [?|[->|?]]; tauto. }
  assert ({[a]} ∪ seen ⊆ wanted_aliases) as Hwanted'
    by (apply union_subseteq; split; [by apply singleton_subseteq_l|done]).
  assert (∀ b, b ∈ visited → b ∈ {[a]} ∪ seen) as Hvis' by (intros b Hb; apply elem_of_union; auto).
  split.
  - intros p Hp. split; [done| | | |by apply Hmove|done|lia].
    + intros b [Hb|[Hb Hb']%list_elem_of_filter]%elem_of_app; [auto|]. split; [by eapply reach_fallback|].
      apply elem_of_union. by right.
    + exists (visited ++ [a]). split_and!.
      * apply NoDup_app. split_and!; [done| |apply NoDup_singleton]. intros b Hb ->%list_elem_of_singleton. auto.
      * by apply Forall2_app; [|constructor].
      * intros b [Hb| ->%list_elem_of_singleton]%elem_of_app; [auto|]. apply elem_of_union_l. by apply elem_of_singleton.
    + intros b q [->%elem_of_singleton|Hb]%elem_of_union Hq.
      * assert (q = p) as -> by (destruct Hp, Hq; congruence). split; [apply elem_of_app; right; constructor|].
        intros c Hc. right. apply elem_of_app. by right.
      * destruct (Hclosed b q Hb Hq) as [Hin Hf]. split; [apply elem_of_app; by left|]. intros c Hc. by apply Hmove, Hf.
  - intros Hno. assert (∀ b, b ∈ seen ∨ b ∈ aliases → b ∈ {[a]} ∪ seen ∨ b ∈ rest) as Hmove'
      by (intros b Hb; specialize (Hmove b Hb []); by rewrite app_nil_r in Hmove).
    split; [done|auto|by exists visited| |by apply Hmove'|done|lia].
    intros b q [->%elem_of_singleton|Hb]%elem_of_union Hq; [by destruct (Hno q)|].
    destruct (Hclosed b q Hb Hq) as [Hin Hf]. split; [done|]. intros c Hc. by apply Hmove', Hf.
Qed.

Lemma candidates_run fuel aliases seen profiles (s : Gateway X) :
  ready s → walk fuel aliases seen profiles →
  ∃ l s', run_proc (candidates_from fuel request aliases seen profiles) s = (Ok l, s') ∧
    profiles `prefix_of` l ∧ (∃ visited, NoDup visited ∧ Forall2 usable visited l) ∧
    ∀ p, p ∈ l ↔ ∃ a, reachable a ∧ usable a p.
Proof.
  revert aliases seen profiles s. induction fuel as [|fuel IH]; intros aliases seen profiles s Hs Hw.
  { pose proof (wk_wanted _ _ _ _ Hw) as Hsub%subseteq_size. pose proof (wk_fuel _ _ _ _ Hw). lia. }
  cbn [candidates_from]. destruct (next_alias seen aliases) as [[a rest]|] eqn:Hnext.
  2: { exists profiles, s. split; [done|]. split; [done|]. split.
       - destruct (wk_profiles _ _ _ _ Hw) as (visited & ? & ? & _). by exists visited.
       - eapply walk_done; [exact Hw|]. by apply next_alias_None. }
  destruct (walk_visit _ _ _ _ _ _ Hw Hnext) as [Hyes Hno].
  destruct (lookup_profile_run a s Hs) as (s1 & Hrun & Hs1). rewrite run_pm_bind, Hrun.
  destruct (directory a) as [p|] eqn:Hdir; [case_bool_decide as Ht|].
  - destruct (IH _ _ _ s1 Hs1 (Hyes p (conj Hdir Ht))) as (l & s' & Hr & Hpre & Hrest). exists l, s'.
    split; [done|]. split; [|done]. etransitivity; [|exact Hpre]. by apply prefix_app_r.
  - apply IH; [done|]. apply Hno. intros q [Hq Htq]. congruence.
  - apply IH; [done|]. apply Hno. intros q [Hq Htq]. congruence.
Qed.

(** The candidates of a request are the profiles of its tenant reachable from the
    requested alias over fallbacks the request allows, each once, in a list that
    starts with the requested profile when that is usable; the walk always ends,
    whatever cycles the fallbacks form. *)
Theorem candidates_are_the_reachable s :
  ready s →
  ∃ l s', run_proc (candidate_profiles request) s = (Ok l, s') ∧
    (∀ p, p ∈ l ↔ ∃ a, reachable a ∧ usable a p) ∧
    (∃ visited, NoDup visited ∧ Forall2 usable visited l) ∧
    (∀ p, usable (gq_model_alias request) p → head l = Some p).
Proof.
  intros Hs. assert (walk (candidate_fuel request) [gq_model_alias request] ∅ []) as Hw.
  { split; try set_solver.
    - intros a ->%list_elem_of_singleton. split; [constructor|]. unfold wanted_aliases. set_solver.
    - exists []. split_and!; [constructor..|set_solver].
    - unfold candidate_fuel, wanted_aliases.
      assert (size ({[gq_model_alias request]} ∪ gq_allowed_fallback_aliases request)
        ≤ 1 + size (gq_allowed_fallback_aliases request))%nat; [|lia].
      rewrite size_union_alt, size_singleton. pose proof (subseteq_size (gq_allowed_fallback_aliases request
        ∖ {[gq_model_alias request]}) (gq_allowed_fallback_aliases request) ltac:(set_solver)). lia. }
  destruct (candidates_run _ _ _ _ s Hs Hw) as (l & s' & Hrun & _ & Hvis & Hl). exists l, s'.
  split_and!; [done..|]. intros p Hp.
  destruct (walk_visit _ [gq_model_alias request] ∅ [] (gq_model_alias request) [] Hw eq_refl) as [Hyes _].
  destruct (lookup_profile_run (gq_model_alias request) s Hs) as (s1 & Hlook & Hs1).
  destruct (candidates_run _ _ _ _ s1 Hs1 (Hyes p Hp)) as (l' & s2 & Hrun' & [k ->] & _).
  unfold candidate_profiles, candidate_fuel in Hrun. clear Hyes Hw.
  remember (S (size (gq_allowed_fallback_aliases request))) as fuel eqn:Hfuel.
  cbn [candidates_from next_alias] in Hrun.
  rewrite bool_decide_eq_false_2 in Hrun by set_solver. rewrite run_pm_bind, Hlook in Hrun.
  destruct Hp as [Hdir Ht]. rewrite Hdir, bool_decide_eq_true_2 in Hrun by done.
  cbn [app] in Hrun, Hrun'. rewrite Hrun' in Hrun. by injection Hrun as <- _.
Qed.
End Candidates.
