(* ===== verification/GatewayAdapters.v ===== *)
(** * The services of the LLM gateway (trpc_service/llm_gateway.py)

    The secret provider, the outbound policy, the profile resolver, the budget guard and
    the policy auditor that [create_app] gives to the gateway, the completion endpoint,
    and the release it turns into a request.  Vault, OPA and the model providers are
    HTTP services of an interface, [Outside], which also holds the clocks and says what
    becomes of each database transaction. *)

From S2P Require Import Prelude PyNum PyDict Uuids ExecutionBus ToolRegistry Budgets Degradation AuditChain AdminAccess Interleave PyRegex Governance LlmGateway GatewayFacts GatewayCalls.
Open Scope string_scope.
Open Scope list_scope.
Open Scope Z_scope.

(** ** HTTP *)
Class Outside (E : Type) := {
  out_monotonic : E → instant;
  out_utc_now : E → instant;
  out_fault : E → txn_fault * E;
  vault_login : json → ST E GatewayError HttpResponse;
  vault_get : string → string → ST E GatewayError HttpResponse;
  opa_post : json → ST E GatewayError HttpResponse;
  provider_http : string → list (string * string) → json → ST E GatewayError HttpResponse;
}.

(** [raise_for_status] *)
Definition is_success (r : HttpResponse) : bool := (200 <=? hr_status_code r) && (hr_status_code r <=? 299).
Definition raise_for_status {S} (r : HttpResponse) : ST S GatewayError unit := ensure (is_success r) HTTPError.
(** [json()]: [ValueError] is one of the other exceptions. *)
Definition response_json {S} (r : HttpResponse) : ST S GatewayError json := get_or_raise (hr_json r) OtherException.

(** [payload.get(k, {})] of a mapping, used as a mapping: [AttributeError] otherwise. *)
Definition get_mapping {S} (k : string) (m : jobject) : ST S GatewayError jobject :=
  match m !! k with
  | None => mret ∅
  | Some (JObj m') => mret m'
  | Some _ => raise OtherException
  end.

(** ** [urlsplit] *)
Record SplitResult := { us_scheme : string; us_netloc : string; us_path : string; us_query : string;
  us_fragment : string }.

Definition text_of (l : list Ascii.ascii) : string := String.string_of_list_ascii l.
Definition chars (s : string) : list Ascii.ascii := String.list_ascii_of_string s.

(** The text up to the first character with [f], and what follows from it on. *)
Fixpoint break (f : Ascii.ascii → bool) (l : list Ascii.ascii) : list Ascii.ascii * list Ascii.ascii :=
  match l with
  | [] => ([], [])
  | c :: l' => if f c then ([], l) else let '(a, b) := break f l' in (c :: a, b)
  end.
(** [text.split(sep, 1)]: the second part is empty without [sep]. *)
Definition split_at (n : nat) (l : list Ascii.ascii) : list Ascii.ascii * list Ascii.ascii :=
  let '(a, b) := break (is_char n) l in (a, tail b).
Fixpoint lstrip_with (f : Ascii.ascii → bool) (l : list Ascii.ascii) : list Ascii.ascii :=
  match l with c :: l' => if f c then lstrip_with f l' else l | [] => [] end.

Definition control_or_space (c : Ascii.ascii) : bool := (Ascii.nat_of_ascii c <=? 32)%nat.
Definition unsafe_byte (c : Ascii.ascii) : bool := is_char 9 c || is_char 10 c || is_char 13 c.
Definition scheme_char (c : Ascii.ascii) : bool :=
  is_lower c || is_upper c || is_digit c || is_char 43 c || is_char 45 c || is_char 46 c.
Definition lower_char (c : Ascii.ascii) : Ascii.ascii :=
  if is_upper c then Ascii.ascii_of_nat (Ascii.nat_of_ascii c + 32) else c.
Definition netloc_end (c : Ascii.ascii) : bool := is_char 47 c || is_char 63 c || is_char 35 c.

Section UrlSplit.
(** The checks of bracketed and of non-ASCII hosts, which raise [ValueError]. *)
Context (bad_netloc : string → bool).

Definition urlsplit (url : string) : option SplitResult :=
  let url := filter (λ c, unsafe_byte c = false) (lstrip_with control_or_space (chars url)) in
  let '(before, after) := break (is_char 58) url in
  let '(scheme, url) :=
    match before, after with
    | c :: _, _ :: rest =>
        if (is_lower c || is_upper c) && forallb scheme_char before then (lower_char <$> before, rest) else ([], url)
    | _, _ => ([], url)
    end in
  let '(netloc, url) :=
    match url with
    | c :: d :: rest => if is_char 47 c && is_char 47 d then break netloc_end rest else ([], url)
    | _ => ([], url)
    end in
  let '(url, fragment) := split_at 35 url in
  let '(path, query) := split_at 63 url in
  if bad_netloc (text_of netloc) then None
  else Some {| us_scheme := text_of scheme; us_netloc := text_of netloc; us_path := text_of path;
               us_query := text_of query; us_fragment := text_of fragment |}.

(** The path and field of a reference that [VaultSecretProvider.resolve] accepts. *)
Definition vault_reference (tenant_id secret_ref : string) : outcome GatewayError (string * string) :=
  match urlsplit secret_ref with
  | None => Raise OtherException
  | Some parsed =>
      let path := lstrip_with (is_char 47) (chars (us_path parsed)) in
      if negb (bool_decide (us_scheme parsed = "vault"))
         || negb (bool_decide (us_netloc parsed = "tenant"))
         || bool_decide (us_fragment parsed = "")
         || negb (existsb (is_char 47) path)
         || negb (bool_decide (text_of (split_at 47 path).1 = tenant_id))
      then Raise (ModelGatewayError "SECRET_REFERENCE_INVALID")
      else Ok (text_of path, us_fragment parsed)
  end.
End UrlSplit.

(** ** The site: what [create_app] connects *)
Record ProfileRow := {
  mr_provider_model : string;
  mr_endpoint_url : string;
  mr_secret_ref : string;
  mr_data_classification : DataClassification;
  mr_region : string;
  mr_fallback_aliases : list string;
  mr_requests_per_minute : Z;
}.
Record ReleaseRow := {
  rl_model_alias : string;
  rl_data_classification : DataClassification;
  rl_region : string;
  rl_fallback_aliases : list string;
  rl_model_profiles : list ModelProfile;
}.

Record Site (E : Type) := mkSite {
  st_profiles : gmap (uuid * string) ProfileRow;
  st_releases : gmap (uuid * uuid) ReleaseRow;
  st_budget : BudgetDb;
  st_admin : AdminDb;
  st_vault_token : option string;
  st_outside : E;
}.
Arguments mkSite {_} _ _ _ _ _ _.
Arguments st_profiles {_} _.
Arguments st_releases {_} _.
Arguments st_budget {_} _.
Arguments st_admin {_} _.
Arguments st_vault_token {_} _.
Arguments st_outside {_} _.

Section Adapters.
Context {E : Type} `{!Outside E}.
Context (bad_netloc : string → bool) (kubernetes_jwt role : string).
(** [GovernanceFlagsResolver.flags], where one is configured. *)
Context (governance_flags : option (string → ST E GatewayError jobject)).
Context (sha256_hex : string → string) (dumps : json → string) (uuid_at : nat → uuid).
Abbreviation ON A := (ST (Site E) GatewayError A).

Definition set_outside (e : E) (s : Site E) : Site E :=
  mkSite (st_profiles s) (st_releases s) (st_budget s) (st_admin s) (st_vault_token s) e.
Definition set_vault_token (t : string) (s : Site E) : Site E :=
  mkSite (st_profiles s) (st_releases s) (st_budget s) (st_admin s) (Some t) (st_outside s).
Definition set_budget (b : BudgetDb) (s : Site E) : Site E :=
  mkSite (st_profiles s) (st_releases s) b (st_admin s) (st_vault_token s) (st_outside s).
Definition set_admin (a : AdminDb) (s : Site E) : Site E :=
  mkSite (st_profiles s) (st_releases s) (st_budget s) a (st_vault_token s) (st_outside s).

Definition outside {A} (m : ST E GatewayError A) : ON A := λ s,
  let '(r, e) := m (st_outside s) in (r, set_outside e s).
Definition next_fault : ON txn_fault := λ s,
  let '(f, e) := out_fault (st_outside s) in (Ok f, set_outside e s).
Definition utc : ON instant := gets (λ s, out_utc_now (st_outside s)).
(** A transaction of the database, on one of its parts. *)
Definition on_budget {A} (convert : BudgetError → GatewayError) (m : ST BudgetDb BudgetError A) : ON A := λ s,
  match m (st_budget s) with
  | (Ok a, b) => (Ok a, set_budget b s)
  | (Raise e, b) => (Raise (convert e), set_budget b s)
  end.
Definition on_admin {A} (m : ST AdminDb AdminError A) : ON A := λ s,
  match m (st_admin s) with
  | (Ok a, d) => (Ok a, set_admin d s)
  | (Raise _, d) => (Raise OtherException, set_admin d s)
  end.
(** A read loses its connection or not. *)
Definition reading {A} (f : Site E → A) : ON A :=
  fault ← next_fault;
  transaction fault OtherException (gets f).

(** ** [VaultSecretProvider] *)
Definition vault_token : ON string :=
  token ← gets st_vault_token;
  match token with
  | Some t => mret t
  | None =>
      response ← outside (vault_login (JObj (<["jwt" := JStr kubernetes_jwt]> {["role" := JStr role]})));
      _ ← raise_for_status response;
      payload ← response_json response;
      client_token ← match payload with
                     | JObj m => auth ← get_mapping "auth" m; mret (auth !! "client_token")
                     | _ => mret None
                     end;
      match client_token with
      | Some (JStr t) =>
          _ ← ensure (negb (bool_decide (t = ""))) (ModelGatewayError "SECRET_RESOLUTION_FAILED");
          _ ← modify (set_vault_token t);
          mret t
      | _ => raise (ModelGatewayError "SECRET_RESOLUTION_FAILED")
      end
  end.

Definition vault_resolve (tenant_id secret_ref : string) : ON string :=
  match vault_reference bad_netloc tenant_id secret_ref with
  | Raise e => raise e
  | Ok (path, field) =>
      token ← vault_token;
      response ← outside (vault_get ("/v1/tenant/data/" +:+ path) token);
      _ ← raise_for_status response;
      payload ← response_json response;
      value ← match payload with
              | JObj m =>
                  data ← get_mapping "data" m;
                  match default (JObj ∅) (data !! "data") with
                  | JObj inner => mret (inner !! field)
                  | _ => mret None
                  end
              | _ => mret None
              end;
      match value with
      | Some (JStr v) => mret v
      | _ => raise (ModelGatewayError "SECRET_RESOLUTION_FAILED")
      end
  end.

(** ** [OpaOutboundPolicy] *)
Definition is_true (o : option json) : bool := match o with Some (JBool true) => true | _ => false end.

(** What the document under [result] permits. *)
Definition opa_decision (effective : DataClassification) (result : option json) : bool :=
  match result with
  | Some (JBool true) => negb (bool_decide (effective = RESTRICTED))
  | Some (JObj m) =>
      if negb (is_true (m !! "allow")) then false
      else if bool_decide (effective = RESTRICTED)
      then is_true (m !! "allow_restricted") && is_true (m !! "private_endpoint")
      else negb (bool_decide (effective = CONFIDENTIAL)) || is_true (m !! "private_endpoint")
  | _ => false
  end.

(** [_restricted_flag] *)
Definition restricted_flag (tenant_id : string) : ON bool :=
  match governance_flags with
  | None => mret false
  | Some flags => try_catch
      (f ← outside (flags tenant_id); mret (is_true (f !! "allow_restricted_to_private_endpoints")))
      (λ e, if is_exception e then mret false else raise e)
  end.

Definition opa_input (request : GatewayRequest) (p : ModelProfile) (effective : DataClassification)
    (restricted : bool) : json :=
  JObj {["input" := JObj (<["tenant_id" := JStr (gq_tenant_id request)]> (<["model_alias" := JStr (mo_alias p)]>
    (<["endpoint_url" := JStr (mo_endpoint_url p)]>
    (<["data_classification" := JStr (classification_value (gq_data_classification request))]>
    (<["effective_classification" := JStr (classification_value effective)]>
    (<["region" := JStr (gq_region request)]>
    {["allow_restricted_to_private_endpoints" := JBool restricted]}))))))]}.

Definition opa_allows (request : GatewayRequest) (p : ModelProfile) (effective : DataClassification) : ON bool :=
  flag ← restricted_flag (gq_tenant_id request);
  response ← try_catch (r ← outside (opa_post (opa_input request p effective flag)); mret (Some r))
    (λ e, match e with HTTPError => mret None | _ => raise e end);
  mret match response with
       | Some r =>
           is_success r && match hr_json r with Some (JObj m) => opa_decision effective (m !! "result") | _ => false end
       | None => false
       end.

(** ** [DatabaseModelProfileResolver] *)
Definition database_profile (tenant_id alias : string) : ON (option ModelProfile) :=
  match parse_uuid tenant_id with
  | None => mret None
  | Some t =>
      row ← reading (λ s, st_profiles s !! (t, alias));
      mret ((λ r, {| mo_tenant_id := uuid_text t; mo_alias := alias; mo_provider_model := mr_provider_model r;
                     mo_endpoint_url := mr_endpoint_url r; mo_secret_ref := mr_secret_ref r;
                     mo_data_classification := mr_data_classification r; mo_region := mr_region r;
                     mo_fallback_aliases := mr_fallback_aliases r;
                     mo_requests_per_minute := mr_requests_per_minute r |}) <$> row)
  end.

(** ** [DatabaseBudgetGuard] *)
Definition any_budget_error (_ : BudgetError) : GatewayError := OtherException.
Definition reserve_error (e : BudgetError) : GatewayError :=
  match e with
  | BudgetExceeded => ModelGatewayError "BUDGET_EXCEEDED"
  | BudgetStateUnknown code => ModelGatewayError code
  | _ => OtherException
  end.
Definition close_error (e : BudgetError) : GatewayError :=
  match e with ESql => ModelGatewayError "BUDGET_STATE_UNKNOWN" | _ => OtherException end.

(** The estimate of a request at a price; a model without a price costs nothing. *)
Definition estimated_micros (price : option ModelPrice) (messages : list message) : Z :=
  let '(input_tokens, output_tokens) := estimate_tokens (list_to_map <$> messages) DEFAULT_OUTPUT_TOKENS in
  match price with
  | Some p => estimate_cost_micros input_tokens output_tokens (mp_input_micros_per_1k p) (mp_output_micros_per_1k p)
  | None => estimate_cost_micros input_tokens output_tokens 0 0
  end.

(** Application identifiers are compared as the texts of UUIDs; another text names no
    application, and the ledger refuses it with [ValueError]. *)
Definition application_of (request : GatewayRequest) : ON (option uuid) :=
  match gq_application_id request with
  | None => mret None
  | Some text => u ← get_or_raise (parse_uuid text) OtherException; mret (Some u)
  end.

Definition guard_reserve (request : GatewayRequest) : ON BudgetReservationBundle :=
  tenant ← get_or_raise (parse_uuid (gq_tenant_id request)) OtherException;
  f1 ← next_fault;
  priced ← on_budget any_budget_error (transaction f1 ESql (latest_prices tenant));
  let price := priced.1 !! gq_model_alias request in
  f2 ← (if bool_decide (price = None) then next_fault else mret NoFault);
  enforced ← (if bool_decide (price = None)
              then on_budget any_budget_error (transaction f2 ESql (has_active_budgets tenant)) else mret false);
  _ ← ensure (negb enforced) (ModelGatewayError "MODEL_UNPRICED");
  application ← application_of request;
  f3 ← next_fault;
  f4 ← next_fault;
  now ← utc;
  on_budget reserve_error (reserve uuid_at f3 f4 now now
    {| bc_tenant_id := tenant; bc_application_id := application; bc_execution_id := gq_execution_id request;
       bc_estimated_micros := estimated_micros price (gq_messages request); bc_price_version := priced.2 |}).

Definition guard_settle (bundle : BudgetReservationBundle) : ON unit :=
  fault ← next_fault;
  on_budget close_error (settle uuid_at fault bundle None).
Definition guard_release (bundle : BudgetReservationBundle) (reason : string) : ON unit :=
  fault ← next_fault;
  on_budget close_error (release uuid_at fault bundle reason).

(** ** [DatabasePolicyAuditor] *)
Definition audit_denied (request : GatewayRequest) (effective : DataClassification) (reason : string) : ON unit :=
  tenant ← get_or_raise (parse_uuid (gq_tenant_id request)) OtherException;
  fault ← next_fault;
  now ← utc;
  on_admin (transaction fault ConnectionLost (audited sha256_hex dumps uuid_at now None "governance.outbound_denied"
    "DENY" (Some "model_call") (Some (default (gq_model_alias request) (gq_release_id request))) (Some tenant)
    (<["effective_classification" := JStr (classification_value effective)]>
     (<["model_alias" := JStr (gq_model_alias request)]> {["reason" := JStr reason]})))).

(** ** The provider request of [_provider_completion] *)
Definition message_json (m : message) : json := JObj (JStr <$> list_to_map m).
Definition http_post_provider (p : ModelProfile) (messages : list message) (credential : string) : ON HttpResponse :=
  outside (provider_http (mo_endpoint_url p)
    [("Authorization", "Bearer " +:+ credential); ("X-Model-Alias", mo_alias p)]
    (JObj (<["model" := JStr (mo_provider_model p)]> {["messages" := JArr (message_json <$> messages)]}))).

#[global] Instance site_services : Collaborators (Site E) := {
  monotonic s := out_monotonic (st_outside s);
  utc_now s := out_utc_now (st_outside s);
  resolve_profile := database_profile;
  resolve_secret := vault_resolve;
  policy_allows := opa_allows;
  record_denied := audit_denied;
  budget_reserve := guard_reserve;
  budget_settle := guard_settle;
  budget_release := guard_release;
  provider_post := http_post_provider;
}.

(** ** The completion endpoint *)
Definition default_config : GatewayConfig :=
  {| gc_circuit_failure_threshold := 3; gc_circuit_reset_micros := 30 * 1000000; gc_has_budget := true;
     gc_has_policy_audit := true |}.

(** [GatewayCompletionPayload] *)
Record CompletionPayload := {
  cp_tenant_id : string;
  cp_messages : list message;
  cp_release_id : string;
  cp_application_id : option string;
  cp_execution_id : option string;
}.
Definition optional_between (o : option string) : bool :=
  match o with Some t => length_between 1 64 t | None => true end.
Definition valid_payload (p : CompletionPayload) : bool :=
  length_between 36 36 (cp_tenant_id p) && length_between 36 36 (cp_release_id p)
  && (1 <=? Z.of_nat (length (cp_messages p))) && (Z.of_nat (length (cp_messages p)) <=? 200)
  && optional_between (cp_application_id p) && optional_between (cp_execution_id p).

(** [_released_request]; its last two arguments are not used. *)
Definition released_request (tenant_id release_id : string) (messages : list message)
    (application_id execution_id : option string) : ON GatewayRequest :=
  match parse_uuid tenant_id, parse_uuid release_id with
  | Some t, Some r =>
      row ← reading (λ s, st_releases s !! (t, r));
      match row with
      | None => raise (ModelGatewayError "RELEASE_NOT_FOUND")
      | Some row =>
          _ ← ensure (negb (bool_decide (length (rl_model_profiles row) = 0%nat)))
                (ModelGatewayError "RELEASE_NOT_FOUND");
          mret {| gq_tenant_id := tenant_id; gq_model_alias := rl_model_alias row; gq_messages := messages;
                  gq_data_classification := rl_data_classification row; gq_region := rl_region row;
                  gq_allowed_fallback_aliases := list_to_set (rl_fallback_aliases row);
                  gq_profile_snapshots := rl_model_profiles row; gq_release_id := Some release_id;
                  gq_application_id := None; gq_execution_id := None |}
      end
  | _, _ => raise (ModelGatewayError "RELEASE_NOT_FOUND")
  end.

Inductive HttpReply := Replied (r : GatewayResult) | Refused (status : Z) (detail : string) | Crashed.

Section Endpoint.
Context (hash_messages : list message → string) (hash_completion : jobject → string).

(** [complete] of [create_app]: a body that does not validate gets 422, an exception the
    handler does not name 500. *)
Definition complete_endpoint (n : nat) (p : CompletionPayload) : PM (Gateway (Site E)) GatewayError HttpReply :=
  if negb (valid_payload p) then pm_ret (Refused 422 "") else
  pm_catch
    (request <-- atomically (await (released_request (cp_tenant_id p) (cp_release_id p) (cp_messages p)
       (cp_application_id p) (cp_execution_id p)) (λ _, []));
     result <-- complete default_config hash_messages hash_completion n request;
     pm_ret (Replied result))
    (λ e, match e with
          | ModelGatewayError code => pm_ret (Refused 409 code)
          | CancelledError => pm_raise e
          | _ => pm_ret Crashed
          end).
End Endpoint.
End Adapters.

(** ** [GatewayModel] *)
Record GatewayModel := {
  gm_tenant_id : string;
  gm_model_alias : string;
  gm_data_classification : DataClassification;
  gm_region : string;
  gm_allowed_fallback_aliases : gset string;
  gm_profile_snapshots : list ModelProfile;
  gm_release_id : option string;
  gm_application_id : option string;
  gm_execution_id : option string;
}.
(** The request [complete] submits. *)
Definition model_request (m : GatewayModel) (messages : list message) : GatewayRequest :=
  {| gq_tenant_id := gm_tenant_id m; gq_model_alias := gm_model_alias m; gq_messages := messages;
     gq_data_classification := gm_data_classification m; gq_region := gm_region m;
     gq_allowed_fallback_aliases := gm_allowed_fallback_aliases m; gq_profile_snapshots := gm_profile_snapshots m;
     gq_release_id := gm_release_id m; gq_application_id := gm_application_id m;
     gq_execution_id := gm_execution_id m |}.

(** [GatewayRuntimeSettings.validate_runtime]: the settings that are missing. *)
Definition missing_settings (database_url vault_url opa_url : string) : list string :=
  (filter (λ nv : string * string, nv.2 = "")
     [("DATABASE_URL", database_url); ("VAULT_URL", vault_url); ("OPA_URL", opa_url)]).*1.
