(* ===== verification/AdapterTheorems.v ===== *)
(** * The gateway's services keep their promises

    The clocks of a site never run backwards and its resolver answers for the alias it
    was asked for, so that the theorems on the gateway hold over it; secrets are read
    under the tenant's own path only; the policy fails closed. *)

From S2P Require Import Prelude PyNum PyDict Uuids ExecutionBus ToolRegistry Budgets Degradation AuditChain AdminAccess Interleave PyRegex Governance LlmGateway GatewayFacts GatewayCalls GatewayAdapters.
Open Scope string_scope.
Open Scope list_scope.
Open Scope Z_scope.

(** What a process clock promises. *)
Class SteadyOutside (E : Type) `{!Outside E} := {
  fault_steady e : out_monotonic e ≤ out_monotonic (out_fault e).2;
  login_steady j e : out_monotonic e ≤ out_monotonic (vault_login j e).2;
  get_steady p t e : out_monotonic e ≤ out_monotonic (vault_get p t e).2;
  opa_steady j e : out_monotonic e ≤ out_monotonic (opa_post j e).2;
  provider_steady u h j e : out_monotonic e ≤ out_monotonic (provider_http u h j e).2;
}.

Create HintDb steady.

Section Steady.
Context {E : Type} `{!Outside E, !SteadyOutside E}.
Abbreviation ON A := (ST (Site E) GatewayError A).

Definition steady {A} (m : ON A) : Prop :=
  ∀ s, out_monotonic (st_outside s) ≤ out_monotonic (st_outside (m s).2).

Lemma steady_ret {A} (a : A) : steady (mret a).
Proof. intros s. simpl. lia. Qed.
Lemma steady_raise {A} e : steady (raise e : ON A).
Proof. intros s. simpl. lia. Qed.
Lemma steady_gets {A} (f : Site E → A) : steady (gets f).
Proof. intros s. simpl. lia. Qed.
Lemma steady_ensure b e : steady (ensure b e).
Proof. intros s. unfold ensure. destruct b; simpl; lia. Qed.
Lemma steady_get_or_raise {A} (o : option A) e : steady (get_or_raise o e).
Proof. intros s. destruct o; simpl; lia. Qed.
Lemma steady_bind {A B} (m : ON A) (k : A → ON B) : steady m → (∀ a, steady (k a)) → steady (m ≫= k).
Proof.
  intros Hm Hk s. specialize (Hm s). unfold mbind, ST_mbind. destruct (m s) as [[a|e] s']; simpl in *; [|done].
  specialize (Hk a s'). lia.
Qed.
Lemma steady_catch {A} (m : ON A) h : steady m → (∀ e, steady (h e)) → steady (try_catch m h).
Proof.
  intros Hm Hh s. specialize (Hm s). unfold try_catch. destruct (m s) as [[a|e] s']; simpl in *; [done|].
  specialize (Hh e s'). lia.
Qed.
Lemma steady_outside {A} (m : ST E GatewayError A) :
  (∀ e, out_monotonic e ≤ out_monotonic (m e).2) → steady (outside m).
Proof. intros Hm s. specialize (Hm (st_outside s)). unfold outside. by destruct (m (st_outside s)). Qed.
Lemma steady_fault : steady next_fault.
Proof.
  intros s. pose proof (fault_steady (st_outside s)). unfold next_fault. by destruct (out_fault (st_outside s)).
Qed.
Lemma steady_budget {A} c (m : ST BudgetDb BudgetError A) : steady (on_budget c m).
Proof. intros s. unfold on_budget. destruct (m (st_budget s)) as [[] ?]; simpl; lia. Qed.
Lemma steady_admin {A} (m : ST AdminDb AdminError A) : steady (on_admin m).
Proof. intros s. unfold on_admin. destruct (m (st_admin s)) as [[] ?]; simpl; lia. Qed.
Lemma steady_token t : steady (modify (set_vault_token t)).
Proof. intros s. simpl. lia. Qed.
Lemma steady_reading {A} (f : Site E → A) : steady (reading f).
Proof.
  apply steady_bind; [apply steady_fault|]. intros fault s. unfold transaction, gets. by destruct fault; simpl.
Qed.
End Steady.

#[export] Hint Resolve steady_ret steady_raise steady_gets steady_ensure steady_get_or_raise steady_fault
  steady_budget steady_admin steady_token steady_reading login_steady get_steady opa_steady provider_steady : steady.

(** Walks through a program; what is left is an operation of the interface. *)
Ltac steady_step :=
  match goal with
  | |- steady (mbind _ _) => apply steady_bind; [|intros ?]
  | |- steady (try_catch _ _) => apply steady_catch; [|intros ?]
  | |- steady (outside _) => apply steady_outside; intros ?
  | |- steady (match ?x with _ => _ end) => destruct x
  | |- steady (if ?b then _ else _) => destruct b
  | |- steady (get_mapping _ _) => unfold get_mapping
  | |- steady (raise_for_status _) => unfold raise_for_status
  | |- steady (response_json _) => unfold response_json
  | |- steady _ => solve [eauto with steady]
  | |- _ ≤ _ => solve [eauto with steady]
  end.

Section Lawful.
Context {E : Type} `{!Outside E, !SteadyOutside E}.
Context (bad_netloc : string → bool) (kubernetes_jwt role : string).
Context (governance_flags : option (string → ST E GatewayError jobject)).
Context (Hflags : ∀ flags t e, governance_flags = Some flags → out_monotonic e ≤ out_monotonic (flags t e).2).
Context (sha256_hex : string → string) (dumps : json → string) (uuid_at : nat → uuid).

Lemma database_profile_alias t a s p s' :
  database_profile (E := E) t a s = (Ok (Some p), s') → mo_alias p = a.
Proof.
  unfold database_profile. destruct (parse_uuid t); [|done]. unfold mbind, ST_mbind.
  destruct (reading _ s) as [[row|e] s1]; [|done]. intros [= Hp _]. apply fmap_Some in Hp as (r & _ & ->). done.
Qed.

Lemma steady_flag t : steady (restricted_flag governance_flags t).
Proof.
  unfold restricted_flag. destruct governance_flags as [flags|] eqn:Hf; repeat steady_step.
Qed.

#[global] Instance site_lawful :
  @LawfulCollaborators (Site E) (site_services bad_netloc kubernetes_jwt role governance_flags sha256_hex dumps uuid_at).
Proof using All.
  split; simpl.
  - intros t a s. revert s. change (steady (database_profile (E := E) t a)). unfold database_profile. repeat steady_step.
  - intros t r s. revert s. change (steady (vault_resolve bad_netloc kubernetes_jwt role t r)).
    unfold vault_resolve, vault_token. repeat steady_step.
  - intros q p c s. revert s. change (steady (opa_allows governance_flags q p c)). unfold opa_allows.
    apply steady_bind; [apply steady_flag|intros flag]. repeat steady_step.
  - intros q c r s. revert s. change (steady (audit_denied (E := E) sha256_hex dumps uuid_at q c r)).
    unfold audit_denied, utc. repeat steady_step.
  - intros q s. revert s. change (steady (guard_reserve (E := E) uuid_at q)).
    unfold guard_reserve, application_of, utc. cbv zeta. repeat steady_step.
  - intros b s. revert s. change (steady (guard_settle (E := E) uuid_at b)). unfold guard_settle. repeat steady_step.
  - intros b r s. revert s. change (steady (guard_release (E := E) uuid_at b r)). unfold guard_release. repeat steady_step.
  - intros p m c s. revert s. change (steady (http_post_provider (E := E) p m c)). unfold http_post_provider. repeat steady_step.
  - intros t a s p s'. apply database_profile_alias.
Qed.
End Lawful.

(** ** Secrets *)
Lemma split_at_app n l :
  existsb (is_char n) l = true → l = (split_at n l).1 ++ Ascii.ascii_of_nat n :: (split_at n l).2.
Proof.
  unfold split_at. induction l as [|c l IH]; simpl; [done|]. destruct (is_char n c) eqn:Hc; simpl.
  - intros _. apply Nat.eqb_eq in Hc. by rewrite <-Hc, Ascii.ascii_nat_embedding.
  - intros Hex. specialize (IH Hex). destruct (break (is_char n) l) as [a b]. simpl in *. by rewrite <-IH.
Qed.

Lemma text_of_app l l' : text_of (l ++ l') = text_of l +:+ text_of l'.
Proof. induction l as [|c l IH]; simpl; [done|]. by rewrite IH. Qed.

Lemma bind_ext {S Err A B} (m1 m2 : ST S Err A) (k1 k2 : A → ST S Err B) s :
  m1 s = m2 s → (∀ a s', k1 a s' = k2 a s') → (m1 ≫= k1) s = (m2 ≫= k2) s.
Proof. intros Hm Hk. unfold mbind, ST_mbind. rewrite Hm. destruct (m2 s) as [[a|e] s']; [apply Hk|done]. Qed.

Lemma vault_reference_scoped bad t ref path field :
  vault_reference bad t ref = Ok (path, field) → (∃ rest, path = t +:+ "/" +:+ rest) ∧ field ≠ "".
Proof.
  unfold vault_reference. destruct (urlsplit bad ref) as [parsed|]; [|done]. cbv zeta.
  set (p := lstrip_with _ _). destruct (_ || _) eqn:Hc; [done|]. intros [= <- <-].
  rewrite !orb_false_iff, !negb_false_iff, !bool_decide_eq_false, !bool_decide_eq_true in Hc.
  destruct Hc as [[[_ Hfield] Hslash] Ht]. split; [|done]. exists (text_of (split_at 47 p).2).
  rewrite <-Ht. rewrite (split_at_app 47 p Hslash) at 1. by rewrite text_of_app.
Qed.

(** The credential of a profile depends on nothing the vault holds for other tenants:
    two vaults that answer the login alike and agree below the path of the tenant give
    the same result, whatever reference the profile carries; a reference that is not
    one of the tenant is refused without contacting the vault. *)
Theorem secrets_stay_with_their_tenant {E} (O1 O2 : Outside E) bad jwt role t ref (s : Site E) :
  (∀ j e, @vault_login E O1 j e = @vault_login E O2 j e) →
  (∀ rest token e, @vault_get E O1 ("/v1/tenant/data/" +:+ t +:+ "/" +:+ rest) token e =
                   @vault_get E O2 ("/v1/tenant/data/" +:+ t +:+ "/" +:+ rest) token e) →
  @vault_resolve E O1 bad jwt role t ref s = @vault_resolve E O2 bad jwt role t ref s ∧
  (∀ e, vault_reference bad t ref = Raise e → @vault_resolve E O1 bad jwt role t ref s = (Raise e, s)).
Proof.
  intros Hlogin Hget. unfold vault_resolve.
  destruct (vault_reference bad t ref) as [[path field]|e] eqn:Href; [|split; [done|by intros e' [= ->]]].
  split; [|done]. apply vault_reference_scoped in Href as [[rest ->] _].
  assert (@vault_token E O1 jwt role s = @vault_token E O2 jwt role s) as Htoken.
  { unfold vault_token. apply bind_ext; [done|]. intros [token|] s1; [done|].
    apply bind_ext; [|done]. unfold outside. by rewrite Hlogin. }
  apply bind_ext; [done|]. intros token s1. apply bind_ext; [|done]. unfold outside. by rewrite Hget.
Qed.

(** ** The policy *)
Section Policy.
Context {E : Type} `{!Outside E} (governance_flags : option (string → ST E GatewayError jobject)).

(** The document that permits a call. *)
Definition permits (effective : DataClassification) (result : option json) : Prop :=
  (result = Some (JBool true) ∧ effective ≠ RESTRICTED) ∨
  ∃ m, result = Some (JObj m) ∧ m !! "allow" = Some (JBool true) ∧
    (effective = RESTRICTED → m !! "allow_restricted" = Some (JBool true)) ∧
    (effective = RESTRICTED ∨ effective = CONFIDENTIAL → m !! "private_endpoint" = Some (JBool true)).

Lemma is_true_spec o : is_true o = true ↔ o = Some (JBool true).
Proof. destruct o as [[]|]; simpl; try done. destruct b; naive_solver. Qed.

Lemma opa_decision_spec effective result : opa_decision effective result = true ↔ permits effective result.
Proof.
  unfold opa_decision, permits. destruct result as [[|[]| | | | |m]|]; try naive_solver.
  - rewrite negb_true_iff, bool_decide_eq_false. naive_solver.
  - destruct (is_true (m !! "allow")) eqn:Ha; simpl.
    + apply is_true_spec in Ha. case_bool_decide as He.
      * rewrite andb_true_iff, !is_true_spec. naive_solver.
      * rewrite orb_true_iff, negb_true_iff, bool_decide_eq_false, is_true_spec. destruct effective; naive_solver.
    + split; [done|]. intros [[? _]|(m' & [= <-] & Ha' & _)]; [done|]. by apply is_true_spec in Ha'; rewrite Ha in Ha'.
Qed.

(** The policy fails closed.  It permits a call exactly when OPA answered with success
    and a document that permits it: [true] for data that is not RESTRICTED, or an
    object that allows it, names a private endpoint for CONFIDENTIAL and RESTRICTED
    data, and allows RESTRICTED data explicitly.  Without a flags resolver OPA is never
    told that RESTRICTED data may leave. *)
Theorem policy_fails_closed request p effective (s : Site E) b s' :
  opa_allows governance_flags request p effective s = (Ok b, s') →
  ∃ flag s1, restricted_flag governance_flags (gq_tenant_id request) s = (Ok flag, s1) ∧
    (governance_flags = None → flag = false) ∧
    (b = true ↔ ∃ response e' m,
      opa_post (opa_input request p effective flag) (st_outside s1) = (Ok response, e') ∧
      is_success response = true ∧ hr_json response = Some (JObj m) ∧ permits effective (m !! "result")).
Proof.
  unfold opa_allows. intros Hrun. apply bind_Ok in Hrun as (flag & s1 & Hflag & Hrun).
  exists flag, s1. split; [done|]. split.
  { intros Hnone. unfold restricted_flag in Hflag. rewrite Hnone in Hflag. by injection Hflag as <- _. }
  apply bind_Ok in Hrun as (response & s2 & Hpost & Hret). injection Hret as <- <-.
  unfold try_catch, outside, mbind, ST_mbind, mret, ST_mret in Hpost.
  destruct (opa_post _ (st_outside s1)) as [[r|e] e'] eqn:Hopa.
  - injection Hpost as <- <-. rewrite andb_true_iff. split.
    + intros [Hsucc Hdoc]. destruct (hr_json r) as [[| | | | | |m]|] eqn:Hj; try done.
      exists r, e', m. by rewrite <-opa_decision_spec.
    + intros (r' & e'' & m & [= <- <-] & Hsucc & Hj & Hp). rewrite Hj. by rewrite opa_decision_spec.
  - destruct e; try done. injection Hpost as <- <-. split; [done|]. by intros (r & e'' & m & ? & _).
Qed.
End Policy.

(** ** Released requests *)

(** The request of a release carries its snapshots, so the resolver is never asked; it
    forgets the application and the execution it is for. *)
Lemma released_request_Ok {E} `{!Outside E} t r messages application execution (s : Site E) q s' :
  released_request t r messages application execution s = (Ok q, s') →
  gq_tenant_id q = t ∧ gq_release_id q = Some r ∧ gq_messages q = messages ∧ gq_profile_snapshots q ≠ [] ∧
  gq_application_id q = None ∧ gq_execution_id q = None.
Proof.
  unfold released_request. destruct (parse_uuid t); [|done]. destruct (parse_uuid r); [|done].
  intros Hrun. apply bind_Ok in Hrun as ([row|] & s1 & _ & Hrun); [|done].
  apply bind_Ok in Hrun as ([] & s2 & Hens & Hret). injection Hret as <- <-.
  unfold ensure in Hens. destruct (negb _) eqn:Hn; [|done]. apply negb_true_iff, bool_decide_eq_false in Hn.
  split_and!; try done. simpl. by destruct (rl_model_profiles row).
Qed.
