(* ===== verification/GatewayScenario.v ===== *)
(** * A gateway whose primary model fails

    A site with one tenant, a release of two models that fall back on each other, and a
    provider that is down: witnesses of the theorems on the gateway, and the runs of
    the code that its contract does not foresee. *)

From S2P Require Import Prelude PyNum PyDict Uuids ExecutionBus ToolRegistry Budgets Degradation AuditChain AdminAccess Interleave PyRegex Governance LlmGateway GatewayFacts GatewayCalls GatewayTheorems GatewayAdapters AdapterTheorems.
Open Scope string_scope.
Open Scope list_scope.
Open Scope Z_scope.

(** ** The network: what is down, which transactions fail, one millisecond per request *)
Record SampleNet := { sn_now : instant; sn_down : list string; sn_faults : list txn_fault }.

Definition tick (e : SampleNet) : SampleNet :=
  {| sn_now := sn_now e + 1000; sn_down := sn_down e; sn_faults := sn_faults e |}.
Definition answer (status : Z) (j : json) : ST SampleNet GatewayError HttpResponse := λ e,
  (Ok {| hr_status_code := status; hr_json := Some j |}, tick e).

#[export] Instance sample_net : Outside SampleNet := {
  out_monotonic := sn_now;
  out_utc_now := sn_now;
  out_fault e :=
    match sn_faults e with
    | f :: l => (f, {| sn_now := sn_now e; sn_down := sn_down e; sn_faults := l |})
    | [] => (NoFault, e)
    end;
  vault_login _ := answer 200 (JObj {["auth" := JObj {["client_token" := JStr "token"]}]});
  vault_get path _ := answer 200 (JObj {["data" := JObj {["data" := JObj {["key" := JStr ("secret of " +:+ path)]}]}]});
  opa_post _ := answer 200 (JObj {["result" := JBool true]});
  provider_http url _ _ := λ e,
    if bool_decide (url = "bad url") then (Raise OtherException, tick e)
    else if bool_decide (url ∈ sn_down e) then (Raise HTTPError, tick e)
    else answer 200 (JObj {["usage" := JObj {["prompt_tokens" := JNum 7]}]}) e;
}.

#[export] Instance sample_net_steady : SteadyOutside SampleNet.
Proof.
  split; intros; simpl; try lia.
  - destruct (sn_faults e); simpl; lia.
  - repeat case_bool_decide; simpl; lia.
Qed.

(** ** The site *)
Definition gt : uuid := 7.
Definition release_uuid : uuid := 9.
Definition model (alias url : string) (fallbacks : list string) (limit : Z) : ModelProfile :=
  {| mo_tenant_id := uuid_text gt; mo_alias := alias; mo_provider_model := "m"; mo_endpoint_url := url;
     mo_secret_ref := "vault://tenant/" +:+ uuid_text gt +:+ "/models#key"; mo_data_classification := INTERNAL;
     mo_region := "cn"; mo_fallback_aliases := fallbacks; mo_requests_per_minute := limit |}.
Definition main : ModelProfile := model "main" "https://main" ["backup"] 60.
Definition backup : ModelProfile := model "backup" "https://backup" ["main"] 60.

Definition sample_release (c : DataClassification) (profiles : list ModelProfile) : ReleaseRow :=
  {| rl_model_alias := "main"; rl_data_classification := c; rl_region := "cn";
     rl_fallback_aliases := ["backup"]; rl_model_profiles := profiles |}.
Definition budget_row (id : uuid) (scope : string) : BudgetRow :=
  {| bg_tenant_id := gt; bg_id := id; bg_scope := scope; bg_application_id := None;
     bg_limit_micros := 1000000; bg_contingency_micros := 0; bg_unknown_policy := FAIL_CLOSED |}.
Definition sample_budget (rows : list BudgetRow) : BudgetDb :=
  {| budgets := rows; periods := ∅; alerts := ∅; ledger := [];
     prices := [{| pr_tenant_id := gt; pr_version := 1;
                   pr_price := {| mp_model_alias := "main"; mp_input_micros_per_1k := 10; mp_output_micros_per_1k := 30 |} |}];
     drawn := 0 |}.
Definition sample_admin : AdminDb :=
  {| ad_tenants := {[gt]}; ad_members := []; ad_idempotency := ∅;
     ad_audit := {| au_events := []; au_chain := ∅; au_outbox := []; au_manifests := []; au_worm := [];
                    au_next_id := 0 |} |}.
Definition site (c : DataClassification) (profiles : list ModelProfile) (rows : list BudgetRow) (down : list string)
    (faults : list txn_fault) : Site SampleNet :=
  mkSite ∅ {[(gt, release_uuid) := sample_release c profiles]} (sample_budget rows) sample_admin None
    {| sn_now := 1000; sn_down := down; sn_faults := faults |}.

Definition no_bad_host (_ : string) : bool := false.
Definition gw_sha (s : string) : string := s.
Definition gw_dumps (_ : json) : string := "".
Definition gw_ids (n : nat) : uuid := Z.of_nat n + 100.
#[export] Instance sample_services : Collaborators (Site SampleNet) :=
  site_services no_bad_host "jwt" "agent-gateway" None gw_sha gw_dumps gw_ids.
Lemma no_flags (flags : string → ST SampleNet GatewayError jobject) t e :
  None = Some flags → out_monotonic e ≤ out_monotonic (flags t e).2.
Proof. done. Qed.
#[export] Instance sample_lawful : LawfulCollaborators (Site SampleNet) :=
  site_lawful no_bad_host "jwt" "agent-gateway" None no_flags gw_sha gw_dumps gw_ids.

Definition hello : list message := [[("role", "user"); ("content", "hello")]].
Definition sample_request : GatewayRequest :=
  {| gq_tenant_id := uuid_text gt; gq_model_alias := "main"; gq_messages := hello;
     gq_data_classification := PUBLIC; gq_region := "cn"; gq_allowed_fallback_aliases := {["backup"]};
     gq_profile_snapshots := [main; backup]; gq_release_id := Some (uuid_text release_uuid);
     gq_application_id := None; gq_execution_id := None |}.
Definition sample_requests (_ : nat) : GatewayRequest := sample_request.
Definition gw_hash (_ : list message) : string := "in".
Definition gw_hash' (_ : jobject) : string := "out".

Abbreviation SampleGateway := (Gateway (Site SampleNet)).
Definition serve (n : nat) : PM SampleGateway GatewayError GatewayResult :=
  complete default_config gw_hash gw_hash' n sample_request.
Definition pass_time (micros : Z) (g : SampleGateway) : SampleGateway :=
  let x := gs_world g in let e := st_outside x in
  set_world (set_outside {| sn_now := sn_now e + micros; sn_down := sn_down e; sn_faults := sn_faults e |} x) g.

(** Three calls fall back and open the circuit of [main]; half a minute later a fourth
    tries [main] again. *)
Definition gw0 : SampleGateway :=
  new_gateway (new_DegradationRegistry true) (site PUBLIC [main; backup] [budget_row 1 TENANT_MONTHLY] ["https://main"] []).
Definition gw1 : SampleGateway := (run_proc (serve 0) gw0).2.
Definition gw2 : SampleGateway := (run_proc (serve 1) gw1).2.
Definition gw3 : SampleGateway := (run_proc (serve 2) gw2).2.
Definition gw4 : SampleGateway := pass_time 30000000 gw3.
Definition gw5 : SampleGateway := (run_proc (serve 3) gw4).2.

Definition outcome_of (p : PM SampleGateway GatewayError GatewayResult) (g : SampleGateway) : string :=
  match (run_proc p g).1 with
  | Ok r => gt_model_alias r
  | Raise (ModelGatewayError code) => code
  | Raise _ => "exception"
  end.

Example gateway_story :
  outcome_of (serve 0) gw0 = "backup" ∧ outcome_of (serve 3) gw3 = "backup" ∧
  is_degraded MODEL (gs_degradation gw1) = true ∧
  gs_opened_at gw3 !! (uuid_text gt, "main") = Some 17000 ∧
  length (filter (λ a, is_budget a = true) (gs_log gw3)) = 6%nat.
Proof. split_and!; vm_compute; reflexivity. Qed.

(** ** Reaching the gateways *)
Abbreviation sample_run := (gateway_run default_config sample_requests gw_hash gw_hash').

Lemma run_call l n (p : PM SampleGateway GatewayError GatewayResult) g :
  l !! n = Some p →
  rtc sample_run {| sg_gateway := g; sg_calls := l |}
    {| sg_gateway := (run_proc p g).2; sg_calls := <[n := Done (run_proc p g).1]> l |}.
Proof.
  revert l g. induction p as [r|next IH effect]; intros l g Hl; simpl.
  - rewrite list_insert_id by done. constructor.
  - eapply rtc_l; [by apply gw_step|]. simpl.
    rewrite <-(list_insert_insert_eq l n (Done (run_proc (next g) (effect g)).1) (next g)). apply IH, list_lookup_insert_eq. by eapply lookup_lt_Some.
Qed.

(** The calls so far have all ended. *)
Definition gw_reaches (g : SampleGateway) (l : list (PM SampleGateway GatewayError GatewayResult)) : Prop :=
  rtc sample_run (gateway_start (gs_degradation gw0) (gs_world gw0)) {| sg_gateway := g; sg_calls := l |}.

Lemma gw_serve g l : gw_reaches g l →
  gw_reaches (run_proc (serve (length l)) g).2 (l ++ [Done (run_proc (serve (length l)) g).1]).
Proof.
  unfold gw_reaches. intros Hg. etransitivity; [exact Hg|]. eapply rtc_l; [apply gw_arrive|]. cbn [sg_calls sg_gateway].
  assert ((l ++ [serve (length l)]) !! length l = Some (serve (length l))) as Hl
    by (by rewrite lookup_app_r, Nat.sub_diag by lia).
  pose proof (run_call (l ++ [serve (length l)]) (length l) _ g Hl) as Hrun.
  rewrite insert_app_r_alt, Nat.sub_diag in Hrun by lia. exact Hrun.
Qed.
Lemma gw_wait g l micros : gw_reaches g l → 0 ≤ micros → gw_reaches (pass_time micros g) l.
Proof.
  unfold gw_reaches. intros Hg Hm. eapply rtc_r; [exact Hg|]. unfold pass_time. apply (gw_world _ _ _ _ {| sg_gateway := g; sg_calls := l |}).
  simpl. lia.
Qed.

Lemma gw_start_reached : gw_reaches gw0 [].
Proof. constructor. Qed.
Lemma gw1_reached : gw_reaches gw1 [Done (run_proc (serve 0) gw0).1].
Proof. exact (gw_serve gw0 [] gw_start_reached). Qed.
Lemma gw5_reached : ∃ l, gw_reaches gw5 l.
Proof.
  eexists. unfold gw5. refine (gw_serve gw4 [_; _; _] _). apply gw_wait; [|lia].
  refine (gw_serve gw2 [_; _] _). refine (gw_serve gw1 [_] _). exact gw1_reached.
Qed.

(** Witnesses *)
Definition backup_credential : string := "secret of /v1/tenant/data/" +:+ uuid_text gt +:+ "/models".

Lemma provider_calls_are_cleared_witness :
  ∃ before after, gs_log gw1 = before ++ Posted 0 backup hello backup_credential true :: after ∧
    cleared default_config sample_requests 0 backup hello backup_credential before.
Proof.
  exists (take 11 (gs_log gw1)), (drop 12 (gs_log gw1)).
  assert (gs_log gw1 = take 11 (gs_log gw1) ++ Posted 0 backup hello backup_credential true :: drop 12 (gs_log gw1)) as Hlog
    by (vm_compute; reflexivity).
  split; [exact Hlog|].
  exact (proj1 (provider_calls_are_cleared default_config sample_requests gw_hash gw_hash' _ _ _ _ _ _ _ _ _ _
    gw1_reached Hlog)).
Defined.

Lemma rate_limit_holds_witness :
  (length (posts (profile_key main) (mine 0 (gs_log gw1))) ≤
   length (grants (profile_key main) (mine 0 (gs_log gw1))))%nat.
Proof.
  exact (proj2 (proj2 (rate_limit_holds default_config sample_requests gw_hash gw_hash' _ _ _ (profile_key main)
    gw1_reached)) 0%nat).
Defined.

Lemma open_circuit_blocks_witness :
  ∃ t t', gs_opened_at gw3 !! profile_key main = Some t ∧
    Granted 3 (profile_key main) t' 60 ∈ gs_log gw5 ∧ 30000000 ≤ t' - t.
Proof.
  exists 17000, 30021000. destruct gw5_reached as [l Hl].
  assert (gs_log gw5 = take 34 (gs_log gw5) ++ Failed 2 (profile_key main) 17000 :: take 10 (drop 35 (gs_log gw5)) ++
    Granted 3 (profile_key main) 30021000 60 :: drop 46 (gs_log gw5)) as Hlog by (vm_compute; reflexivity).
  assert (3 ≤ (breaker default_config (profile_key main) (take 34 (gs_log gw5))).1 + 1) as Hth
    by (vm_compute; congruence).
  assert (∀ m, Succeeded m (profile_key main) ∉ take 10 (drop 35 (gs_log gw5))) as Hs.
  { intros m Hin. assert (existsb (λ a, match a with Succeeded _ k => bool_decide (k = profile_key main) | _ => false end)
      (take 10 (drop 35 (gs_log gw5))) = false) as Hno by (vm_compute; reflexivity).
    revert Hin Hno. generalize (take 10 (drop 35 (gs_log gw5))). intros l' Hin Hno.
    rewrite <-not_true_iff_false in Hno. apply Hno, existsb_exists. exists (Succeeded m (profile_key main)).
    split; [by apply list_elem_of_In|]. by apply bool_decide_eq_true. }
  pose proof (open_circuit_blocks default_config sample_requests gw_hash gw_hash' _ _ _ _ _ _ _ _ _ _ _ _ Hl Hlog Hth Hs)
    as [Hreset _].
  split_and!; [vm_compute; reflexivity| |exact Hreset].
  rewrite Hlog. apply elem_of_app. right. apply elem_of_cons. right. apply elem_of_app. right. constructor.
Defined.


(** The same models in the table, which refer to each other. *)
Definition profile_row (p : ModelProfile) : ProfileRow :=
  {| mr_provider_model := mo_provider_model p; mr_endpoint_url := mo_endpoint_url p; mr_secret_ref := mo_secret_ref p;
     mr_data_classification := mo_data_classification p; mr_region := mo_region p;
     mr_fallback_aliases := mo_fallback_aliases p; mr_requests_per_minute := mo_requests_per_minute p |}.
Definition profile_table : gmap (uuid * string) ProfileRow :=
  <[(gt, "main") := profile_row main]> {[(gt, "backup") := profile_row backup]}.
Definition table_world (x : Site SampleNet) : Prop := st_profiles x = profile_table ∧ sn_faults (st_outside x) = [].
Definition table_profile (a : string) : option ModelProfile :=
  (λ r, {| mo_tenant_id := uuid_text gt; mo_alias := a; mo_provider_model := mr_provider_model r;
           mo_endpoint_url := mr_endpoint_url r; mo_secret_ref := mr_secret_ref r;
           mo_data_classification := mr_data_classification r; mo_region := mr_region r;
           mo_fallback_aliases := mr_fallback_aliases r; mo_requests_per_minute := mr_requests_per_minute r |})
  <$> profile_table !! (gt, a).
Definition live_request : GatewayRequest :=
  {| gq_tenant_id := uuid_text gt; gq_model_alias := "main"; gq_messages := hello;
     gq_data_classification := PUBLIC; gq_region := "cn"; gq_allowed_fallback_aliases := {["backup"]};
     gq_profile_snapshots := []; gq_release_id := None; gq_application_id := None; gq_execution_id := None |}.
Definition live_gateway : SampleGateway :=
  new_gateway (new_DegradationRegistry true)
    (mkSite profile_table ∅ (sample_budget []) sample_admin None {| sn_now := 0; sn_down := []; sn_faults := [] |}).

Lemma table_resolver :
  snapshots live_request = ∅ → ∀ a x, table_world x →
  (resolve_profile (gq_tenant_id live_request) a x).1 = Ok (table_profile a) ∧
  table_world (resolve_profile (gq_tenant_id live_request) a x).2.
Proof.
  intros _ a x [Hp Hf]. cbn [resolve_profile sample_services site_services gq_tenant_id live_request].
  unfold database_profile. assert (parse_uuid (uuid_text gt) = Some gt) as -> by (vm_compute; reflexivity).
  unfold reading, next_fault, transaction. run_ops. simpl. rewrite Hf. simpl. rewrite Hp. by split.
Qed.

Lemma candidates_are_the_reachable_witness :
  ∃ l s', run_proc (candidate_profiles live_request) live_gateway = (Ok l, s') ∧ head l = Some main.
Proof.
  destruct (candidates_are_the_reachable live_request table_profile table_world table_resolver live_gateway
    (λ _, conj eq_refl eq_refl)) as (l & s' & Hrun & _ & _ & Hhead).
  exists l, s'. split; [exact Hrun|]. apply Hhead. split; [vm_compute; reflexivity|reflexivity].
Defined.

(** ** Secrets and policy *)
Lemma secrets_stay_with_their_tenant_witness :
  vault_resolve no_bad_host "jwt" "agent-gateway" (uuid_text gt) "vault://tenant/other/models#key" (gs_world gw0) =
    (Raise (ModelGatewayError "SECRET_REFERENCE_INVALID"), gs_world gw0).
Proof.
  refine (proj2 (secrets_stay_with_their_tenant sample_net sample_net no_bad_host "jwt" "agent-gateway" (uuid_text gt)
    "vault://tenant/other/models#key" (gs_world gw0) (λ _ _, eq_refl) (λ _ _ _, eq_refl)) _ _).
  vm_compute. reflexivity.
Defined.

Lemma policy_fails_closed_witness :
  ∃ s', opa_allows (E := SampleNet) None sample_request main INTERNAL (gs_world gw0) = (Ok true, s') ∧
    ∃ flag s1, restricted_flag (E := SampleNet) None (uuid_text gt) (gs_world gw0) = (Ok flag, s1) ∧ flag = false.
Proof.
  eexists. assert (opa_allows (E := SampleNet) None sample_request main INTERNAL (gs_world gw0) =
    (Ok true, set_outside (tick (st_outside (gs_world gw0))) (gs_world gw0))) as Hrun by (vm_compute; reflexivity).
  split; [exact Hrun|].
  destruct (policy_fails_closed None sample_request main INTERNAL (gs_world gw0) _ _ Hrun) as (flag & s1 & Hf & Hnone & _).
  exists flag, s1. exact (conj Hf (Hnone eq_refl)).
Defined.

(** ** Runs the contract does not foresee *)
Definition payload (execution : option string) : CompletionPayload :=
  {| cp_tenant_id := uuid_text gt; cp_messages := hello; cp_release_id := uuid_text release_uuid;
     cp_application_id := Some (uuid_text 11); cp_execution_id := execution |}.
Definition post_completion (x : Site SampleNet) : outcome GatewayError HttpReply * SampleGateway :=
  run_proc (complete_endpoint no_bad_host "jwt" "agent-gateway" None gw_sha gw_dumps gw_ids gw_hash gw_hash' 0
    (payload (Some "execution-1"))) (new_gateway (new_DegradationRegistry true) x).
Definition reply_code (r : outcome GatewayError HttpReply) : string :=
  match r with
  | Ok (Replied res) => gt_model_alias res
  | Ok (Refused _ code) => code
  | Ok Crashed => "500"
  | Raise _ => "cancelled"
  end.

(** The endpoint forgets the execution it was given: a budget per execution refuses every
    call, and a daily budget of the application is not asked at all. *)
Definition daily_budget : BudgetRow :=
  {| bg_tenant_id := gt; bg_id := 2; bg_scope := AGENT_DAILY; bg_application_id := Some 11;
     bg_limit_micros := 0; bg_contingency_micros := 0; bg_unknown_policy := FAIL_CLOSED |}.

Example execution_budget_refuses_every_call :
  reply_code (post_completion (site PUBLIC [main; backup] [budget_row 1 EXECUTION] [] [])).1 =
    "EXECUTION_BUDGET_UNEVALUABLE" ∧
  (guard_reserve (E := SampleNet) gw_ids (model_request
     {| gm_tenant_id := uuid_text gt; gm_model_alias := "main"; gm_data_classification := PUBLIC; gm_region := "cn";
        gm_allowed_fallback_aliases := ∅; gm_profile_snapshots := [main]; gm_release_id := None;
        gm_application_id := None; gm_execution_id := Some "execution-1" |} hello)
     (site PUBLIC [main; backup] [budget_row 1 EXECUTION] [] [])).1 ≠ Raise OtherException ∧
  reply_code (post_completion (site PUBLIC [main; backup] [daily_budget] [] [])).1 = "main".
Proof. split_and!; vm_compute; (reflexivity || discriminate). Qed.

(** An exception that is neither the gateway's nor HTTP's leaves the reservation open. *)
Example reservation_left_open :
  let '(r, g) := post_completion (site PUBLIC [model "main" "bad url" [] 60] [budget_row 1 TENANT_MONTHLY] [] []) in
  reply_code r = "500" ∧ length (budget_entries 0 (gs_log g)) = 1%nat ∧
  ps_reserved <$> periods (st_budget (gs_world g)) !! (gt, 1, "1970-01") = Some 17.
Proof. vm_compute. split_and!; reflexivity. Qed.

(** A RESTRICTED refusal whose audit fails is a crash, not AUDIT_UNAVAILABLE: the
    transactions are those of the release, the prices, the reservation and its
    recovery, the release of the reservation, and the audit. *)
Example restricted_audit_failure :
  reply_code (post_completion (site RESTRICTED [main] [budget_row 1 TENANT_MONTHLY] [] [])).1 = "MODEL_POLICY_DENIED" ∧
  reply_code (post_completion (site RESTRICTED [main] [budget_row 1 TENANT_MONTHLY] []
    [NoFault; NoFault; NoFault; NoFault; NoFault; LostBeforeCommit])).1 = "500".
Proof. split_and!; vm_compute; reflexivity. Qed.
