(* ===== verification/Pagination.v ===== *)
(** * Cursors, pages and conditional writes (admin_api/pagination.py, admin_api/preconditions.py)

    A cursor is the URL-safe base64 text of an identifier's bytes.  [a2b_base64] is the
    decoder of [binascii] in its lenient mode: bytes outside the alphabet are skipped, and
    a complete padding ends the text. *)

From stdpp Require Import sorting.
From S2P Require Import Prelude PyRegex.
Open Scope string_scope.
Open Scope list_scope.
Open Scope Z_scope.

(** ** Base64 *)
Definition sextet_char (s : Z) : Ascii.ascii :=
  Ascii.ascii_of_nat (Z.to_nat
    (if s <? 26 then 65 + s else if s <? 52 then 71 + s else if s <? 62 then s - 4
     else if s =? 62 then 45 else 95)).

(** The value of a character; [-] and [_] stand for [+] and [/], which also remain. *)
Definition char_sextet (c : Ascii.ascii) : option Z :=
  let n := Z.of_nat (Ascii.nat_of_ascii c) in
  if is_upper c then Some (n - 65)
  else if is_lower c then Some (n - 71)
  else if is_digit c then Some (n + 4)
  else if is_char 43 c || is_char 45 c then Some 62
  else if is_char 47 c || is_char 95 c then Some 63
  else None.

Definition pad : Ascii.ascii := Ascii.ascii_of_nat 61.

(** [urlsafe_b64encode] *)
Fixpoint b64encode (l : list Z) : text :=
  match l with
  | a :: b :: c :: l' =>
      sextet_char (a / 4) :: sextet_char (a mod 4 * 16 + b / 16) :: sextet_char (b mod 16 * 4 + c / 64)
      :: sextet_char (c mod 64) :: b64encode l'
  | [a; b] => [sextet_char (a / 4); sextet_char (a mod 4 * 16 + b / 16); sextet_char (b mod 16 * 4); pad]
  | [a] => [sextet_char (a / 4); sextet_char (a mod 4 * 16); pad; pad]
  | [] => []
  end.

(** [rstrip] with one character *)
Fixpoint rstrip_pads (l : text) : text :=
  match l with
  | [] => []
  | c :: l' => match rstrip_pads l' with [] => if is_char 61 c then [] else [c] | r => c :: r end
  end.

(** [binascii.a2b_base64]: the place in the quadruple, the pads seen there and the bits
    that are left over.  [None] is [binascii.Error]. *)
Fixpoint a2b_base64 (l : text) (quad pads : nat) (left : Z) : option (list Z) :=
  match l with
  | [] => if (quad =? 0)%nat then Some [] else None
  | c :: l' =>
      if is_char 61 c then
        if (2 <=? quad)%nat then
          if (4 <=? quad + S pads)%nat then Some [] else a2b_base64 l' quad (S pads) left
        else a2b_base64 l' quad pads left
      else match char_sextet c with
           | None => a2b_base64 l' quad pads left
           | Some s =>
               match quad with
               | 0%nat => a2b_base64 l' 1 0 s
               | 1%nat => cons (left * 4 + s / 16) <$> a2b_base64 l' 2 0 (s mod 16)
               | 2%nat => cons (left * 16 + s / 4) <$> a2b_base64 l' 3 0 (s mod 4)
               | _ => cons (left * 64 + s) <$> a2b_base64 l' 0 0 0
               end
           end
  end.

(** [urlsafe_b64decode]; a text with other than ASCII characters is a [ValueError]. *)
Definition b64decode (l : text) : option (list Z) :=
  if forallb (λ c, (Ascii.nat_of_ascii c <? 128)%nat) l then a2b_base64 l 0 0 0 else None.

(** ** Cursors *)

(** [identifier.bytes], and [UUID(bytes=...)], which wants sixteen of them. *)
Fixpoint big_endian (n : nat) (z : Z) : list Z :=
  match n with O => [] | S n' => z / 2 ^ (8 * Z.of_nat n') mod 256 :: big_endian n' z end.
Fixpoint of_big_endian (l : list Z) : Z :=
  match l with [] => 0 | b :: l' => b * 2 ^ (8 * Z.of_nat (length l')) + of_big_endian l' end.
Definition uuid_of_bytes (l : list Z) : option uuid :=
  if (length l =? 16)%nat then Some (of_big_endian l) else None.

Definition encode_cursor (identifier : uuid) : string :=
  String.string_of_list_ascii (rstrip_pads (b64encode (big_endian 16 identifier))).

(** [decode_cursor] of a text; [None] stands for its [ValueError]. *)
Definition decode_cursor (cursor : string) : option uuid :=
  let l := String.list_ascii_of_string cursor in
  b64decode (l ++ repeat pad (Z.to_nat (- Z.of_nat (length l) mod 4))) ≫= uuid_of_bytes.

Example cursor_examples :
  encode_cursor 0x0123456789abcdef0123456789abcdef = "ASNFZ4mrze8BI0VniavN7w" ∧
  decode_cursor "ASNFZ4mrze8BI0VniavN7w" = Some 0x0123456789abcdef0123456789abcdef ∧
  decode_cursor "AS.NF!Z4mrze8BI0VniavN7w==" = Some 0x0123456789abcdef0123456789abcdef ∧
  decode_cursor "ASNF" = None ∧ decode_cursor "A" = None ∧ decode_cursor "" = None.
Proof. split_and!; vm_compute; reflexivity. Qed.

(** ** Pages

    The rows after the cursor by ascending identifier, one more than the page holds; the
    next cursor is that of the page's last row when there is another row. *)
Section Pages.
Context {A : Type} (id : A → uuid).

Definition after (cursor : option uuid) (rows : list A) : list A :=
  match cursor with None => sort_on id rows | Some c => filter (λ r, c < id r) (sort_on id rows) end.
Definition page_of (cursor : option uuid) (limit : nat) (rows : list A) : list A * option string :=
  let rows := take (S limit) (after cursor rows) in
  let page := take limit rows in
  (page, if (limit <? length rows)%nat then encode_cursor ∘ id <$> last page else None).

(** A client that follows the cursors. *)
Fixpoint follow (fuel : nat) (cursor : option uuid) (limit : nat) (rows : list A) : option (list A) :=
  match fuel with
  | O => None
  | S fuel' =>
      let '(page, next) := page_of cursor limit rows in
      match next with
      | None => Some page
      | Some text => c ← decode_cursor text; app page <$> follow fuel' (Some c) limit rows
      end
  end.
End Pages.

(** ** [parse_if_match]: one quoted positive number. *)
Definition quote : Ascii.ascii := Ascii.ascii_of_nat 34.
Definition quoted (s : string) : string := String.String quote (s +:+ String.String quote "").

Definition decimal (l : text) : Z :=
  fold_left (λ n c, n * 10 + (Z.of_nat (Ascii.nat_of_ascii c) - 48)) l 0.

Definition etag_digits (value : string) : option text :=
  match String.list_ascii_of_string value with
  | c :: rest =>
      match reverse rest with
      | d :: digits =>
          let digits := reverse digits in
          if is_char 34 c && is_char 34 d
             && match digits with f :: _ => in_range 49 57 f && forallb is_digit digits | [] => false end
          then Some digits else None
      | [] => None
      end
  | [] => None
  end.

(** [int] refuses more than 4300 digits with a [ValueError] of its own. *)
Definition parse_if_match (value : string) : string + Z :=
  match etag_digits value with
  | None => inl "If-Match must contain one quoted positive version"
  | Some digits =>
      if (4300 <? length digits)%nat then
        inl ("Exceeds the limit (4300 digits) for integer string conversion: value has "
             +:+ pretty (length digits) +:+ " digits; use sys.set_int_max_str_digits() to increase the limit")
      else inr (decimal digits)
  end.

Example if_match_examples :
  parse_if_match (quoted "12") = inr 12 ∧ parse_if_match (quoted "1") = inr 1 ∧
  parse_if_match (quoted "0") = inl "If-Match must contain one quoted positive version" ∧
  parse_if_match "12" = inl "If-Match must contain one quoted positive version" ∧
  parse_if_match (quoted "") = inl "If-Match must contain one quoted positive version" ∧
  parse_if_match ("W/" +:+ quoted "3") = inl "If-Match must contain one quoted positive version".
Proof. split_and!; vm_compute; reflexivity. Qed.

(** ** Round trip *)
Abbreviation is_byte := (λ b : Z, 0 ≤ b < 256).

Lemma sextet_char_ok s : 0 ≤ s < 64 →
  char_sextet (sextet_char s) = Some s ∧ is_char 61 (sextet_char s) = false ∧
  (Ascii.nat_of_ascii (sextet_char s) <? 128)%nat = true.
Proof.
  intros Hs.
  assert (Forall (λ n, let s := Z.of_nat n in bool_decide (char_sextet (sextet_char s) = Some s)
    && negb (is_char 61 (sextet_char s)) && (Ascii.nat_of_ascii (sextet_char s) <? 128)%nat = true) (seq 0 64)) as Hall.
  { apply Forall_forall. intros n Hn. repeat (apply elem_of_cons in Hn as [->|Hn]; [vm_compute; reflexivity|]).
    by apply not_elem_of_nil in Hn. }
  rewrite Forall_forall in Hall. specialize (Hall (Z.to_nat s)). rewrite elem_of_seq in Hall.
  specialize (Hall ltac:(lia)). simpl in Hall. rewrite Z2Nat.id in Hall by lia.
  rewrite !andb_true_iff, negb_true_iff, bool_decide_eq_true in Hall. tauto.
Qed.

Lemma a2b_sextet s l quad pads left : 0 ≤ s < 64 →
  a2b_base64 (sextet_char s :: l) quad pads left =
  match quad with
  | 0%nat => a2b_base64 l 1 0 s
  | 1%nat => cons (left * 4 + s / 16) <$> a2b_base64 l 2 0 (s mod 16)
  | 2%nat => cons (left * 16 + s / 4) <$> a2b_base64 l 3 0 (s mod 4)
  | _ => cons (left * 64 + s) <$> a2b_base64 l 0 0 0
  end.
Proof. intros (Hc & Hp & _)%sextet_char_ok. simpl. by rewrite Hp, Hc. Qed.

(** Lists of bytes by groups of three. *)
Lemma list_ind3 {A} (P : list A → Prop) :
  P [] → (∀ a, P [a]) → (∀ a b, P [a; b]) → (∀ a b c l, P l → P (a :: b :: c :: l)) → ∀ l, P l.
Proof.
  intros H0 H1 H2 H3. fix IH 1. intros [|a [|b [|c l]]]; [done|apply H1|apply H2|]. apply H3, IH.
Qed.

Lemma decode_encode_app l rest : Forall is_byte l → (length l mod 3 = 0)%nat →
  a2b_base64 (b64encode l ++ rest) 0 0 0 = app l <$> a2b_base64 rest 0 0 0.
Proof.
  induction l as [|a|a b|a b c l IH] using list_ind3; intros Hl Hn; try done.
  { simpl. by destruct (a2b_base64 rest 0 0 0). }
  rewrite !Forall_cons in Hl. destruct Hl as (Ha & Hb & Hc & Hl). cbn [b64encode app].
  rewrite !a2b_sextet by (Z.to_euclidean_division_equations; lia). rewrite IH.
  2: done. 2: { replace (length (a :: b :: c :: l)) with (length l + 1 * 3)%nat in Hn by (simpl; lia).
                by rewrite Nat.Div0.mod_add in Hn. }
  replace (a / 4 * 4 + (a mod 4 * 16 + b / 16) / 16) with a by (Z.to_euclidean_division_equations; lia).
  replace ((a mod 4 * 16 + b / 16) mod 16 * 16 + (b mod 16 * 4 + c / 64) / 4) with b
    by (Z.to_euclidean_division_equations; lia).
  replace ((b mod 16 * 4 + c / 64) mod 4 * 64 + c mod 64) with c by (Z.to_euclidean_division_equations; lia).
  by destruct (a2b_base64 rest 0 0 0).
Qed.

Lemma mod3_step {A} (a b c : A) l : (length (a :: b :: c :: l) mod 3 = 0 → length l mod 3 = 0)%nat.
Proof. replace (length (a :: b :: c :: l)) with (length l + 1 * 3)%nat by (simpl; lia). by rewrite Nat.Div0.mod_add. Qed.

Lemma b64encode_app l l' : (length l mod 3 = 0)%nat → b64encode (l ++ l') = b64encode l ++ b64encode l'.
Proof.
  induction l as [|a|a b|a b c l IH] using list_ind3; intros Hn; try done.
  cbn [app b64encode]. by rewrite IH by eauto using mod3_step.
Qed.

Lemma sextet_ascii s : 0 ≤ s < 64 → (Ascii.nat_of_ascii (sextet_char s) <? 128)%nat = true.
Proof. apply sextet_char_ok. Qed.

Lemma b64encode_ascii l : Forall is_byte l →
  forallb (λ c, (Ascii.nat_of_ascii c <? 128)%nat) (b64encode l) = true.
Proof.
  induction l as [|a|a b|a b c l IH] using list_ind3; rewrite ?Forall_cons; intros Hl; destruct_and?; [done|..];
    cbn [b64encode forallb]; rewrite !sextet_ascii by (Z.to_euclidean_division_equations; lia); [done..|by apply IH].
Qed.

Lemma b64encode_length l : (length l mod 3 = 0)%nat → (3 * length (b64encode l) = 4 * length l)%nat.
Proof.
  induction l as [|a|a b|a b c l IH] using list_ind3; intros Hn; try done.
  specialize (IH (mod3_step _ _ _ _ Hn)). cbn [b64encode length]. lia.
Qed.

Lemma rstrip_pads_pad l : rstrip_pads (l ++ [pad]) = rstrip_pads l.
Proof. induction l as [|c l IH]; [done|]. simpl. by rewrite IH. Qed.
Lemma rstrip_pads_other l c : is_char 61 c = false → rstrip_pads (l ++ [c]) = l ++ [c].
Proof.
  intros Hc. induction l as [|d l IH]; simpl; [by rewrite Hc|]. rewrite IH. by destruct l.
Qed.

Lemma big_endian_bytes n z : Forall is_byte (big_endian n z).
Proof. induction n; simpl; constructor; [|done]. apply Z.mod_pos_bound. lia. Qed.
Lemma big_endian_length n z : length (big_endian n z) = n.
Proof. induction n; simpl; congruence. Qed.

Lemma of_big_endian_inv n z : of_big_endian (big_endian n z) = z mod 2 ^ (8 * Z.of_nat n).
Proof.
  induction n as [|n IH]; [by rewrite Z.mod_1_r|]. cbn [big_endian of_big_endian]. rewrite big_endian_length, IH.
  replace (8 * Z.of_nat (S n)) with (8 * Z.of_nat n + 8) by lia.
  rewrite Z.pow_add_r, Z.rem_mul_r by lia. change (2 ^ 8) with 256. lia.
Qed.

Lemma decode_encode_cursor u : 0 ≤ u < 2 ^ 128 → decode_cursor (encode_cursor u) = Some u.
Proof.
  intros Hu. unfold decode_cursor, encode_cursor. rewrite String.list_ascii_of_string_of_list_ascii.
  assert (∃ l a, big_endian 16 u = l ++ [a] ∧ length l = 15%nat) as (l & a & Hbe & Hlen).
  { exists (take 15 (big_endian 16 u)). eexists. rewrite <-(take_drop 15 (big_endian 16 u)) at 1.
    split; [f_equal; done|]. by rewrite length_take, big_endian_length. }
  pose proof (big_endian_bytes 16 u) as Hb. pose proof (big_endian_length 16 u) as Hl16.
  pose proof (of_big_endian_inv 16 u) as Hinv. rewrite Hbe in Hb, Hl16, Hinv |- *.
  pose proof Hb as (Hbl & Ha & _)%Forall_app%(λ H, conj (proj1 H) (proj1 (Forall_cons _ _ _) (proj2 H))).
  assert (length l mod 3 = 0)%nat as H3 by by rewrite Hlen.
  set (s1 := sextet_char (a / 4)). set (s2 := sextet_char (a mod 4 * 16)).
  assert (is_char 61 s2 = false) as Hs2 by (apply sextet_char_ok; Z.to_euclidean_division_equations; lia).
  assert (rstrip_pads (b64encode (l ++ [a])) = (b64encode l ++ [s1]) ++ [s2]) as Henc.
  { rewrite b64encode_app by done. cbn [b64encode].
    change [sextet_char (a / 4); _; pad; pad] with ([s1] ++ [s2] ++ [pad] ++ [pad]). rewrite !app_assoc.
    by rewrite !rstrip_pads_pad, rstrip_pads_other. }
  rewrite Henc. pose proof (b64encode_length l H3) as Hn.
  assert (repeat pad (Z.to_nat (- Z.of_nat (length ((b64encode l ++ [s1]) ++ [s2])) mod 4)) = [pad; pad]) as ->.
  { rewrite !length_app. simpl. replace (length (b64encode l)) with 20%nat by lia. done. }
  rewrite <-!app_assoc. change ([s1] ++ [s2] ++ [pad; pad]) with (b64encode [a]). rewrite <-b64encode_app by done.
  unfold b64decode. rewrite b64encode_ascii by done. rewrite b64encode_app, decode_encode_app by done.
  cbn [b64encode]. rewrite !a2b_sextet by (Z.to_euclidean_division_equations; lia). simpl.
  replace (a / 4 * 4 + a mod 4 * 16 / 16) with a by (Z.to_euclidean_division_equations; lia).
  unfold uuid_of_bytes. rewrite Hl16. simpl. rewrite Hinv. f_equal. by apply Z.mod_small.
Qed.

(** ** Following the cursors *)
Section Following.
Context {A : Type} (id : A → uuid).
Abbreviation ascending := (StronglySorted (λ x y, id x < id y)).

Lemma sort_on_ascending l : NoDup (id <$> l) → ascending (sort_on id l).
Proof.
  intros Hl. rewrite <-(sort_on_perm id l) in Hl. pose proof (sort_on_ordered id l) as Hs. revert Hl.
  induction Hs as [|x l' Hs IH Hx]; [constructor|]. rewrite fmap_cons, NoDup_cons. intros [Hn Hl].
  constructor; [by apply IH|]. rewrite Forall_forall in Hx |- *. intros y Hy. specialize (Hx y Hy).
  assert (id x ≠ id y) by (intros He; apply Hn; rewrite He; by apply list_elem_of_fmap_2). lia.
Qed.

Lemma ascending_filter (P : A → Prop) `{∀ x, Decision (P x)} l : ascending l → ascending (filter P l).
Proof.
  induction 1 as [|x l Hs IH Hx]; [constructor|]. rewrite filter_cons. destruct (decide (P x)); [|done].
  constructor; [done|]. rewrite Forall_forall in Hx |- *. intros y [_ Hy]%list_elem_of_filter. auto.
Qed.

Lemma after_last l1 x l2 : ascending ((l1 ++ [x]) ++ l2) →
  filter (λ r, id x < id r) ((l1 ++ [x]) ++ l2) = l2.
Proof.
  intros Hs. rewrite filter_app. rewrite filter_none, filter_all; [done| |].
  - intros y Hy. apply (StronglySorted_app_1_elem_of _ _ _ _ _ Hs); [apply elem_of_app; right; by left|done].
  - intros y [Hy| ->%list_elem_of_singleton]%elem_of_app; [|lia].
    assert (id y < id x); [|lia]. rewrite <-app_assoc in Hs.
    apply (StronglySorted_app_1_elem_of _ _ _ _ _ Hs); [done|by left].
Qed.

Lemma after_ascending cursor rows : NoDup (id <$> rows) → ascending (after id cursor rows).
Proof. intros Hn%sort_on_ascending. destruct cursor; simpl; [by apply ascending_filter|done]. Qed.

(** The rows after a row of the listing are those that follow it there. *)
Lemma after_advance cursor rows l1 x l2 : NoDup (id <$> rows) →
  after id cursor rows = (l1 ++ [x]) ++ l2 → after id (Some (id x)) rows = l2.
Proof.
  intros Hn Ha. pose proof (after_ascending cursor rows Hn) as Hs. rewrite Ha in Hs.
  rewrite <-(after_last l1 x l2 Hs), <-Ha. destruct cursor as [c|]; [|done]. simpl.
  assert (c < id x); [|rewrite list_filter_filter_l; [done|lia]]. assert (x ∈ after id (Some c) rows) as Hx.
  { rewrite Ha. apply elem_of_app. left. apply elem_of_app. right. by left. }
  by apply list_elem_of_filter in Hx as [? _].
Qed.

Lemma follow_after fuel cursor limit rows :
  NoDup (id <$> rows) → Forall (λ r, 0 ≤ id r < 2 ^ 128) rows → (1 ≤ limit)%nat →
  (length (after id cursor rows) < fuel)%nat → follow id fuel cursor limit rows = Some (after id cursor rows).
Proof.
  intros Hn Hr Hlim. revert cursor. induction fuel as [|fuel IH]; intros cursor Hf; [lia|]. simpl.
  destruct (Nat.ltb_spec limit (length (take (S limit) (after id cursor rows)))) as [Hlt|Hge];
    rewrite length_take in *.
  - set (l := after id cursor rows) in *. rewrite take_take, Nat.min_l by lia.
    destruct (last (take limit l)) as [x|] eqn:Hlast.
    2: { apply last_None in Hlast. apply (f_equal length) in Hlast. rewrite length_take in Hlast. simpl in Hlast. lia. }
    apply last_Some in Hlast as [l1 Hl1]. simpl.
    assert (l = (l1 ++ [x]) ++ drop limit l) as Hl by (rewrite <-Hl1; by rewrite take_drop).
    pose proof (after_advance cursor rows _ _ _ Hn Hl) as Hnext.
    assert (x ∈ rows) as Hx.
    { assert (x ∈ l) as Hx by (rewrite Hl; apply elem_of_app; left; apply elem_of_app; right; by left).
      unfold l in Hx. rewrite <-(sort_on_perm id rows). destruct cursor; simpl in Hx; [|done].
      by apply list_elem_of_filter in Hx as [_ ?]. }
    rewrite decode_encode_cursor by (rewrite Forall_forall in Hr; auto). simpl.
    rewrite IH, Hnext by (rewrite Hnext, length_drop; lia). simpl. by rewrite Hl1, <-Hl.
  - rewrite take_take, Nat.min_l by lia. f_equal. apply take_ge. lia.
Qed.

(** Following the cursors from the first page visits every row once, in the order of the
    identifiers, and ends. *)
Lemma following_visits_all limit rows :
  NoDup (id <$> rows) → Forall (λ r, 0 ≤ id r < 2 ^ 128) rows → (1 ≤ limit)%nat →
  follow id (S (length rows)) None limit rows = Some (sort_on id rows).
Proof. intros. apply follow_after; [done..|]. simpl. rewrite sort_on_perm. lia. Qed.
End Following.

(** ** The version of a reply is a valid precondition *)
Lemma decimal_snoc l c : decimal (l ++ [c]) = decimal l * 10 + (Z.of_nat (Ascii.nat_of_ascii c) - 48).
Proof. unfold decimal. by rewrite fold_left_app. Qed.

Lemma pretty_digit n : (n < 10)%N →
  Z.of_nat (Ascii.nat_of_ascii (pretty_N_char n)) - 48 = Z.of_N n ∧ is_digit (pretty_N_char n) = true ∧
  (n ≠ 0%N → in_range 49 57 (pretty_N_char n) = true).
Proof.
  intros Hn. assert (n ∈ [0; 1; 2; 3; 4; 5; 6; 7; 8; 9]%N) as Hin by (rewrite !elem_of_cons; lia).
  repeat (apply elem_of_cons in Hin as [->|Hin]; [done|]). by apply not_elem_of_nil in Hin.
Qed.

Record digits_of (l : text) (n : N) : Prop := {
  do_first : ∃ d l', l = d :: l' ∧ in_range 49 57 d = true;
  do_digits : forallb is_digit l = true;
  do_value : decimal l = Z.of_N n;
  do_length : ∀ k, (n < 10 ^ N.of_nat k)%N → (length l ≤ k)%nat;
}.

Lemma pretty_N_digits n s : (0 < n)%N →
  ∃ l, String.list_ascii_of_string (pretty_N_go n s) = l ++ String.list_ascii_of_string s ∧ digits_of l n.
Proof.
  revert s. induction (N.lt_wf_0 n) as [n _ IH]. intros s Hn. rewrite pretty_N_go_step by done.
  destruct (pretty_digit (n mod 10)) as (Hv & Hd & Hf); [by apply N.mod_lt|].
  pose proof (N.div_mod n 10 ltac:(done)) as Hdm. pose proof (N.mod_lt n 10 ltac:(done)).
  destruct (decide (n / 10 = 0)%N) as [Hz|Hnz].
  - rewrite Hz, pretty_N_go_0. exists [pretty_N_char (n mod 10)]. split; [done|]. split.
    + eexists _, []. split; [done|]. apply Hf. lia.
    + simpl. by rewrite Hd.
    + unfold decimal. simpl. rewrite Hv. lia.
    + intros [|k]; simpl; lia.
  - destruct (IH (n / 10)%N ltac:(apply N.div_lt; lia) (String.String (pretty_N_char (n mod 10)) s) ltac:(lia))
      as (l & Hl & [(d & l' & -> & Hd1) Hds Hval Hlen]).
    exists ((d :: l') ++ [pretty_N_char (n mod 10)]). split; [rewrite Hl; simpl; by rewrite <-app_assoc|]. split.
    + by eexists _, _.
    + rewrite forallb_app, Hds. simpl. by rewrite Hd.
    + rewrite decimal_snoc, Hval, Hv. lia.
    + intros [|k] Hk; [simpl in Hk; lia|]. rewrite length_app. simpl. apply le_n_S.
      rewrite Nat.add_comm. apply (Hlen k). rewrite Nat2N.inj_succ, N.pow_succ_r' in Hk. apply N.Div0.div_lt_upper_bound. lia.
Qed.

Lemma etag_digits_quoted s l : String.list_ascii_of_string s = l →
  match l with f :: _ => in_range 49 57 f && forallb is_digit l | [] => false end = true →
  etag_digits (quoted s) = Some l.
Proof.
  intros Hs Hl. unfold etag_digits, quoted. cbn [String.list_ascii_of_string].
  replace (String.list_ascii_of_string (s +:+ String.String quote "")) with (l ++ [quote]).
  2: { rewrite <-Hs. clear. induction s as [|c s IH]; [done|]. simpl. f_equal. exact IH. }
  rewrite reverse_app. change (reverse [quote] ++ reverse l) with (quote :: reverse l).
  cbv beta iota zeta. rewrite reverse_involutive. cbv beta iota zeta in Hl. by rewrite Hl.
Qed.

Lemma parse_if_match_pretty v : 1 ≤ v < 2 ^ 31 → parse_if_match (quoted (pretty v)) = inr v.
Proof.
  intros Hv. destruct v as [|p|p]; [lia| |lia].
  assert (pretty (Z.pos p) = pretty_N_go (N.pos p) "") as Hp by done.
  destruct (pretty_N_digits (N.pos p) "" ltac:(lia)) as (l & Hl & [(d & l' & -> & Hd) Hds Hval Hlen]).
  unfold parse_if_match. rewrite Hp, (etag_digits_quoted _ (d :: l')).
  2: { by rewrite Hl, app_nil_r. } 2: by rewrite Hd, Hds.
  specialize (Hlen 10%nat). rewrite (proj2 (Nat.ltb_ge _ _)).
  - by rewrite Hval.
  - etrans; [apply Hlen; simpl; lia|]. apply Nat.leb_le. vm_compute. reflexivity.
Qed.
