(* ===== verification/AgentDrafts.v ===== *)
(** * Agent applications and drafts (admin_api/agents.py, admin_api/draft_validation.py)

    The tables of the release process, the frame its endpoints share, the validation of a
    draft and the endpoints that administer applications and drafts.

    An endpoint checks its caller's role in a transaction of its own; its command is one
    transaction: an answer remembered for the caller's key, or the change, its audit row
    and the remembered answer.  Commands on the releases and deployments of an application
    lock the application's row first, so each is one step; the conditional updates are
    single statements.  Values the request models refuse give status 422.  A version or
    limit that does not fit a 32-bit column is a [DataError]; what a handler does not catch
    becomes status 500. *)

From S2P Require Import Prelude PyNum Uuids ExecutionBus ToolRegistry AuditChain AdminAccess Interleave PyRegex Governance PolicyBundles Pagination LlmGateway GatewayAdapters.
Open Scope string_scope.
Open Scope list_scope.
Open Scope Z_scope.

(** ** Rows *)
Inductive DeploymentEnvironment := DEVELOPMENT | STAGING | PRODUCTION.
Inductive DeploymentStatus := DEP_PENDING_APPROVAL | DEP_ACTIVE | DEP_HALTED.
Inductive EvalStatus := EVAL_PASSED | EVAL_FAILED.
Inductive SourceKind := SRC_DRAFT | SRC_LEGACY.
#[export] Instance DeploymentEnvironment_eq_dec : EqDecision DeploymentEnvironment.
Proof. solve_decision. Defined.
#[export] Instance DeploymentStatus_eq_dec : EqDecision DeploymentStatus.
Proof. solve_decision. Defined.
#[export] Instance EvalStatus_eq_dec : EqDecision EvalStatus.
Proof. solve_decision. Defined.
Definition environment_text (e : DeploymentEnvironment) : string :=
  match e with DEVELOPMENT => "DEVELOPMENT" | STAGING => "STAGING" | PRODUCTION => "PRODUCTION" end.
Definition deployment_status_text (s : DeploymentStatus) : string :=
  match s with DEP_PENDING_APPROVAL => "PENDING_APPROVAL" | DEP_ACTIVE => "ACTIVE" | DEP_HALTED => "HALTED" end.
Definition eval_status_text (s : EvalStatus) : string :=
  match s with EVAL_PASSED => "PASSED" | EVAL_FAILED => "FAILED" end.
Definition source_kind_text (k : SourceKind) : string :=
  match k with SRC_DRAFT => "DRAFT" | SRC_LEGACY => "LEGACY" end.

(** Rows are keyed by tenant and identifier; a draft by its application, a model profile
    by its alias. *)
Record ApplicationRow := {
  aa_slug : string;
  aa_name : string;
  aa_description : string;
  aa_version : Z;
  aa_created_at : instant;
  aa_updated_at : instant;
}.
Record DraftRow := {
  df_instructions : string;
  df_model_alias : string;
  df_tool_aliases : list string;
  df_knowledge_refs : list string;
  df_governance_policy_ref : option string;
  df_version : Z;
  df_created_at : instant;
  df_updated_at : instant;
}.
Record StoredProfile := {
  mf_id : uuid;
  mf_profile : ProfileRow;
  mf_version : Z;
  mf_created_at : instant;
  mf_updated_at : instant;
}.
Record AgentRelease := {
  rel_application_id : uuid;
  rel_version : Z;
  rel_model_alias : string;
  rel_data_classification : DataClassification;
  rel_region : string;
  rel_fallback_aliases : list string;
  rel_model_profiles : list ModelProfile;
  rel_source_draft_version : option Z;
  rel_source_actor : string;
  rel_source_kind : SourceKind;
  rel_draft_snapshot : jobject;
  rel_content_hash : string;
  rel_created_at : instant;
}.
Record DeploymentRow := {
  dp_application_id : uuid;
  dp_environment : DeploymentEnvironment;
  dp_release_id : uuid;
  dp_previous_release_id : option uuid;
  dp_previous_deployment_id : option uuid;
  dp_previous_deployment_version : option Z;
  dp_rollout_percentage : Z;
  dp_status : DeploymentStatus;
  dp_initiator : string;
  dp_approver : option string;
  dp_version : Z;
  dp_created_at : instant;
  dp_activated_at : option instant;
  dp_halted_at : option instant;
  dp_halt_reason : option string;
}.
Record EvalSuiteRow := {
  su_application_id : uuid;
  su_slug : string;
  su_version : Z;
  su_dataset : json;
  su_scorers : json;
  su_thresholds : jobject;
  su_assertions : list string;
  su_content_hash : string;
  su_created_by : string;
  su_created_at : instant;
}.
Record EvalRunRow := {
  ru_application_id : uuid;
  ru_suite_id : uuid;
  ru_release_id : uuid;
  ru_environment : DeploymentEnvironment;
  ru_sdk_version : string;
  ru_dependency_snapshot : json;
  ru_evidence : jobject;
  ru_results : json;
  ru_status : EvalStatus;
  ru_content_hash : string;
  ru_created_by : string;
  ru_created_at : instant;
}.
Record ObservationRow := {
  ob_deployment_id : uuid;
  ob_eval_run_id : uuid;
  ob_metrics : jobject;
  ob_halted : bool;
  ob_created_by : string;
  ob_created_at : instant;
}.

(** [rd_tools], [rd_bundles] and [rd_revisions] are tables of the tool registry, the
    policy bundles and the knowledge base; they are only read here. *)
Record ReleaseDb := {
  rd_admin : AdminDb;
  rd_applications : gmap (uuid * uuid) ApplicationRow;
  rd_drafts : gmap (uuid * uuid) DraftRow;
  rd_profiles : gmap (uuid * string) StoredProfile;
  rd_releases : gmap (uuid * uuid) AgentRelease;
  rd_deployments : gmap (uuid * uuid) DeploymentRow;
  rd_suites : gmap (uuid * uuid) EvalSuiteRow;
  rd_runs : gmap (uuid * uuid) EvalRunRow;
  rd_observations : gmap (uuid * uuid) ObservationRow;
  rd_tools : definitions;
  rd_bundles : gmap (uuid * Z) BundleRow;
  rd_revisions : gmap (uuid * uuid) (Z * string);
  rd_next_id : nat;
}.

Abbreviation REL := (ST ReleaseDb AdminError).

Definition set_rd_admin (a : AdminDb) (s : ReleaseDb) : ReleaseDb :=
  {| rd_admin := a; rd_applications := rd_applications s; rd_drafts := rd_drafts s;
     rd_profiles := rd_profiles s; rd_releases := rd_releases s; rd_deployments := rd_deployments s;
     rd_suites := rd_suites s; rd_runs := rd_runs s; rd_observations := rd_observations s;
     rd_tools := rd_tools s; rd_bundles := rd_bundles s; rd_revisions := rd_revisions s;
     rd_next_id := rd_next_id s |}.
Definition set_applications (f : gmap (uuid * uuid) ApplicationRow → gmap (uuid * uuid) ApplicationRow)
    (s : ReleaseDb) : ReleaseDb :=
  {| rd_admin := rd_admin s; rd_applications := f (rd_applications s); rd_drafts := rd_drafts s;
     rd_profiles := rd_profiles s; rd_releases := rd_releases s; rd_deployments := rd_deployments s;
     rd_suites := rd_suites s; rd_runs := rd_runs s; rd_observations := rd_observations s;
     rd_tools := rd_tools s; rd_bundles := rd_bundles s; rd_revisions := rd_revisions s;
     rd_next_id := rd_next_id s |}.
Definition set_drafts (f : gmap (uuid * uuid) DraftRow → gmap (uuid * uuid) DraftRow)
    (s : ReleaseDb) : ReleaseDb :=
  {| rd_admin := rd_admin s; rd_applications := rd_applications s; rd_drafts := f (rd_drafts s);
     rd_profiles := rd_profiles s; rd_releases := rd_releases s; rd_deployments := rd_deployments s;
     rd_suites := rd_suites s; rd_runs := rd_runs s; rd_observations := rd_observations s;
     rd_tools := rd_tools s; rd_bundles := rd_bundles s; rd_revisions := rd_revisions s;
     rd_next_id := rd_next_id s |}.
Definition set_profiles (f : gmap (uuid * string) StoredProfile → gmap (uuid * string) StoredProfile)
    (s : ReleaseDb) : ReleaseDb :=
  {| rd_admin := rd_admin s; rd_applications := rd_applications s; rd_drafts := rd_drafts s;
     rd_profiles := f (rd_profiles s); rd_releases := rd_releases s; rd_deployments := rd_deployments s;
     rd_suites := rd_suites s; rd_runs := rd_runs s; rd_observations := rd_observations s;
     rd_tools := rd_tools s; rd_bundles := rd_bundles s; rd_revisions := rd_revisions s;
     rd_next_id := rd_next_id s |}.
Definition set_releases (f : gmap (uuid * uuid) AgentRelease → gmap (uuid * uuid) AgentRelease)
    (s : ReleaseDb) : ReleaseDb :=
  {| rd_admin := rd_admin s; rd_applications := rd_applications s; rd_drafts := rd_drafts s;
     rd_profiles := rd_profiles s; rd_releases := f (rd_releases s); rd_deployments := rd_deployments s;
     rd_suites := rd_suites s; rd_runs := rd_runs s; rd_observations := rd_observations s;
     rd_tools := rd_tools s; rd_bundles := rd_bundles s; rd_revisions := rd_revisions s;
     rd_next_id := rd_next_id s |}.
Definition set_deployments (f : gmap (uuid * uuid) DeploymentRow → gmap (uuid * uuid) DeploymentRow)
    (s : ReleaseDb) : ReleaseDb :=
  {| rd_admin := rd_admin s; rd_applications := rd_applications s; rd_drafts := rd_drafts s;
     rd_profiles := rd_profiles s; rd_releases := rd_releases s; rd_deployments := f (rd_deployments s);
     rd_suites := rd_suites s; rd_runs := rd_runs s; rd_observations := rd_observations s;
     rd_tools := rd_tools s; rd_bundles := rd_bundles s; rd_revisions := rd_revisions s;
     rd_next_id := rd_next_id s |}.
Definition set_suites (f : gmap (uuid * uuid) EvalSuiteRow → gmap (uuid * uuid) EvalSuiteRow)
    (s : ReleaseDb) : ReleaseDb :=
  {| rd_admin := rd_admin s; rd_applications := rd_applications s; rd_drafts := rd_drafts s;
     rd_profiles := rd_profiles s; rd_releases := rd_releases s; rd_deployments := rd_deployments s;
     rd_suites := f (rd_suites s); rd_runs := rd_runs s; rd_observations := rd_observations s;
     rd_tools := rd_tools s; rd_bundles := rd_bundles s; rd_revisions := rd_revisions s;
     rd_next_id := rd_next_id s |}.
Definition set_runs (f : gmap (uuid * uuid) EvalRunRow → gmap (uuid * uuid) EvalRunRow)
    (s : ReleaseDb) : ReleaseDb :=
  {| rd_admin := rd_admin s; rd_applications := rd_applications s; rd_drafts := rd_drafts s;
     rd_profiles := rd_profiles s; rd_releases := rd_releases s; rd_deployments := rd_deployments s;
     rd_suites := rd_suites s; rd_runs := f (rd_runs s); rd_observations := rd_observations s;
     rd_tools := rd_tools s; rd_bundles := rd_bundles s; rd_revisions := rd_revisions s;
     rd_next_id := rd_next_id s |}.
Definition set_observations (f : gmap (uuid * uuid) ObservationRow → gmap (uuid * uuid) ObservationRow)
    (s : ReleaseDb) : ReleaseDb :=
  {| rd_admin := rd_admin s; rd_applications := rd_applications s; rd_drafts := rd_drafts s;
     rd_profiles := rd_profiles s; rd_releases := rd_releases s; rd_deployments := rd_deployments s;
     rd_suites := rd_suites s; rd_runs := rd_runs s; rd_observations := f (rd_observations s);
     rd_tools := rd_tools s; rd_bundles := rd_bundles s; rd_revisions := rd_revisions s;
     rd_next_id := rd_next_id s |}.
Definition next_rd_id (s : ReleaseDb) : ReleaseDb :=
  {| rd_admin := rd_admin s; rd_applications := rd_applications s; rd_drafts := rd_drafts s;
     rd_profiles := rd_profiles s; rd_releases := rd_releases s; rd_deployments := rd_deployments s;
     rd_suites := rd_suites s; rd_runs := rd_runs s; rd_observations := rd_observations s;
     rd_tools := rd_tools s; rd_bundles := rd_bundles s; rd_revisions := rd_revisions s;
     rd_next_id := S (rd_next_id s) |}.

(** ** Texts and documents *)
Definition obj (fields : list (string * json)) : jobject := list_to_map fields.
Definition nullable {A} (f : A → json) (o : option A) : json := match o with Some a => f a | None => JNull end.
Definition texts (l : list string) : json := JArr (JStr <$> l).
Definition moment (i : instant) : json := JStr (isoformat i).
Definition identifier (u : uuid) : json := JStr (uuid_text u).

Definition slug_char (c : Ascii.ascii) : bool := is_lower c || is_digit c || is_char 45 c.
(** [^[a-z0-9][a-z0-9-]{1,62}$] and [^[a-z][a-z0-9-]{1,62}$] *)
Definition is_slug (s : string) : bool :=
  match chars s with
  | c :: rest => (is_lower c || is_digit c) && forallb slug_char rest && (1 <=? length rest)%nat && (length rest <=? 62)%nat
  | [] => false
  end.
Definition is_region (s : string) : bool :=
  match chars s with
  | c :: rest => is_lower c && forallb slug_char rest && (1 <=? length rest)%nat && (length rest <=? 62)%nat
  | [] => false
  end.
(** [_RESOURCE_NAME] *)
Definition is_resource_name (s : string) : bool :=
  match chars s with
  | c :: rest => (is_lower c || is_digit c)
                 && forallb (λ c, is_lower c || is_digit c || is_char 46 c || is_char 95 c || is_char 45 c) rest
                 && (length rest <=? 127)%nat
  | [] => false
  end.

(** The width in bytes of the white space a text in UTF-8 starts with, beyond ASCII. *)
Definition wide_space (l : list Ascii.ascii) : nat :=
  match l with
  | c :: d :: l2 =>
      if is_char 194 c && (is_char 133 d || is_char 160 d) then 2 else
      match l2 with
      | e :: _ =>
          if (is_char 225 c && is_char 154 d && is_char 128 e)
             || (is_char 226 c && is_char 128 d
                 && (in_range 128 138 e || is_char 168 e || is_char 169 e || is_char 175 e))
             || (is_char 226 c && is_char 129 d && is_char 159 e)
             || (is_char 227 c && is_char 128 d && is_char 128 e)
          then 3 else 0
      | [] => 0
      end
  | _ => 0
  end.

(** [not text.strip()]: nothing but white space; [skip] bytes belong to one already seen. *)
Fixpoint blank_from (skip : nat) (l : list Ascii.ascii) : bool :=
  match l with
  | [] => true
  | c :: l' =>
      match skip with
      | S k => blank_from k l'
      | O => if is_blank c then blank_from 0 l'
             else match wide_space l with O => false | S w => blank_from w l' end
      end
  end.
Definition blank_text (l : list Ascii.ascii) : bool := blank_from 0 l.

(** An optional field of a partial update: absent, or given as a value or [null]. *)
Abbreviation field A := (option (option A)).
Definition given {A} (f : field A) : option A := mjoin f.
Definition if_set {A} (name : string) (enc : A → json) (f : field A) : list (string * json) :=
  match f with None => [] | Some v => [(name, nullable enc v)] end.
Definition field_ok {A} (ok : A → bool) (f : field A) : bool :=
  match given f with Some v => ok v | None => true end.
Definition int4 (n : Z) : bool := n <? 2 ^ 31.

(** ** [validate_draft_configuration] *)
Record DraftValidationIssue := { di_code : string; di_path : string; di_message : string }.

Fixpoint duplicates_from (index : nat) (first_seen : gmap string nat) (values : list string)
    (code collection_path noun : string) : list DraftValidationIssue :=
  match values with
  | [] => []
  | value :: rest =>
      match first_seen !! value with
      | Some original =>
          {| di_code := code; di_path := collection_path +:+ "/" +:+ pretty index;
             di_message := noun +:+ " duplicates " +:+ collection_path +:+ "/" +:+ pretty original +:+ "." |}
          :: duplicates_from (S index) first_seen rest code collection_path noun
      | None => duplicates_from (S index) (<[value := index]> first_seen) rest code collection_path noun
      end
  end.
Definition duplicate_issues (values : list string) (code collection_path noun : string)
    : list DraftValidationIssue := duplicates_from 0 ∅ values code collection_path noun.

Definition validate_draft_configuration (draft : DraftRow) : list DraftValidationIssue :=
  (if blank_text (chars (df_instructions draft)) then
     [{| di_code := "DRAFT_INSTRUCTIONS_REQUIRED"; di_path := "/instructions";
         di_message := "Instructions must not be blank." |}] else [])
  ++ (if is_resource_name (df_model_alias draft) then [] else
     [{| di_code := "DRAFT_MODEL_ALIAS_INVALID"; di_path := "/model_alias";
         di_message := "Model alias must be a stable resource name." |}])
  ++ duplicate_issues (df_tool_aliases draft) "DRAFT_DUPLICATE_TOOL_ALIAS" "/tool_aliases" "Tool alias"
  ++ duplicate_issues (df_knowledge_refs draft) "DRAFT_DUPLICATE_KNOWLEDGE_REF" "/knowledge_refs"
       "Knowledge reference"
  ++ match df_governance_policy_ref draft with
     | Some policy => if is_resource_name policy then [] else
         [{| di_code := "DRAFT_GOVERNANCE_POLICY_REF_INVALID"; di_path := "/governance_policy_ref";
             di_message := "Governance policy reference must be a stable resource name." |}]
     | None => []
     end.

Definition issue_json (i : DraftValidationIssue) : json :=
  JObj (obj [("code", JStr (di_code i)); ("path", JStr (di_path i)); ("message", JStr (di_message i))]).

(** ** The frame of the endpoints *)

(** What a handler sends: the status, the body, the [ETag] and [Idempotency-Replayed] headers. *)
Record Reply := { rp_status : Z; rp_body : json; rp_etag : option string; rp_replayed : bool }.

(** What a command did: the answer, and the target and details of its audit row. *)
Record CommandResult := {
  cr_result : json;
  cr_target_type : string;
  cr_target_id : string;
  cr_details : jobject;
}.

Section Endpoints.
Context (sha256_hex : string → string) (dumps : json → string) (uuid_at : nat → uuid).

Definition rel_on_admin {A} (m : ADM A) : REL A := λ s,
  let '(r, d) := m (rd_admin s) in (r, set_rd_admin d s).
Definition rel_access (fault : txn_fault) (now : instant) (p : AdminPrincipal) (t : uuid) (mode : AccessMode)
    (action target_type : string) (target_id : option string) : REL unit :=
  rel_on_admin (require_tenant_access sha256_hex dumps uuid_at fault now p t mode action target_type target_id).
Definition rel_draw : REL uuid := n ← gets rd_next_id; _ ← modify next_rd_id; mret (uuid_at n).
Definition body_valid (b : bool) : REL unit := ensure b (Http 422 "").

Definition if_match_version (if_match : string) : REL Z :=
  match parse_if_match if_match with inl detail => raise (Http 400 detail) | inr v => mret v end.

(** The transaction of a command; the flag says that the answer is a remembered one. *)
Definition command (fault : txn_fault) (now : instant) (p : AdminPrincipal) (t : uuid) (key operation : string)
    (payload : jobject) (body : REL CommandResult) : REL (json * bool) :=
  transaction fault ConnectionLost (
    replayed ← rel_on_admin (replay_for sha256_hex dumps (ap_subject p) key operation payload);
    match replayed with
    | Some response => mret (response, true)
    | None =>
        r ← body;
        _ ← rel_on_admin (audited sha256_hex dumps uuid_at now (Some p) operation "ALLOW"
              (Some (cr_target_type r)) (Some (cr_target_id r)) (Some t) (cr_details r));
        _ ← rel_on_admin (remember sha256_hex dumps (ap_subject p) key operation payload (cr_result r));
        mret (cr_result r, false)
    end).

(** [except IntegrityError]: a violated constraint, of the audit row too. *)
Definition on_conflict {A} (detail : string) (m : REL A) : REL A :=
  try_catch m (λ e, match e with
    | IntegrityError | AuditFailed ASql => raise (Http 409 detail)
    | _ => raise e
    end).

(** The version an answer carries, quoted; [KeyError] when there is none. *)
Definition etag_of (name : string) (body : json) : REL string :=
  match body with
  | JObj m => match m !! name with Some (JNum v) => mret (quoted (pretty v)) | _ => raise AdminAssert end
  | _ => raise AdminAssert
  end.
Definition versioned_reply (status : json → Z) (name : string) (r : json * bool) : REL Reply :=
  etag ← etag_of name r.1;
  mret {| rp_status := status r.1; rp_body := r.1; rp_etag := Some etag; rp_replayed := r.2 |}.
(** A new row has version 1. *)
Definition created_reply (r : json * bool) : REL Reply :=
  if r.2 then versioned_reply (λ _, 201) "version" r
  else mret {| rp_status := 201; rp_body := r.1; rp_etag := Some (quoted "1"); rp_replayed := false |}.
Definition deleted_reply (r : json * bool) : Reply :=
  {| rp_status := 204; rp_body := JNull; rp_etag := None; rp_replayed := r.2 |}.
Definition deleted_json : json := JObj (obj [("deleted", JBool true)]).

Definition tenant_listed (t : uuid) (s : ReleaseDb) : bool := bool_decide (t ∈ ad_tenants (rd_admin s)).
Definition cursor_of (cursor : option string) : REL (option uuid) :=
  match cursor with
  | None => mret None
  | Some c => match decode_cursor c with Some u => mret (Some u) | None => raise (Http 400 "invalid cursor") end
  end.
Definition limit_ok (limit : Z) : bool := (1 <=? limit) && (limit <=? 100).
Definition page_json (page : list json) (next : option string) : json :=
  JObj (obj [("items", JArr page); ("next_cursor", nullable JStr next)]).

(** ** Applications *)
Definition application_json (t id : uuid) (a : ApplicationRow) : json :=
  JObj (obj [("tenant_id", identifier t); ("id", identifier id); ("slug", JStr (aa_slug a));
    ("name", JStr (aa_name a)); ("description", JStr (aa_description a)); ("version", JNum (aa_version a));
    ("created_at", moment (aa_created_at a)); ("updated_at", moment (aa_updated_at a))]).

(** [AgentApplicationCreate], [AgentApplicationUpdate] *)
Record ApplicationCreate := { ac_slug : string; ac_name : string; ac_description : string }.
Definition application_create_ok (c : ApplicationCreate) : bool :=
  is_slug (ac_slug c) && length_between 1 200 (ac_name c) && length_between 0 2000 (ac_description c).
Record ApplicationUpdate := {
  au_slug : field string;
  au_name : field string;
  au_description : field string;
}.
Definition application_update_ok (c : ApplicationUpdate) : bool :=
  field_ok is_slug (au_slug c) && field_ok (length_between 1 200) (au_name c)
  && field_ok (length_between 0 2000) (au_description c).

(** [UNIQUE (tenant_id, slug)], for the row [id]. *)
Definition slug_free (t id : uuid) (slug : string) (s : ReleaseDb) : bool :=
  bool_decide (map_Forall (λ k a, k.1 = t → k.2 ≠ id → aa_slug a ≠ slug) (rd_applications s)).

Definition create_application (f1 f2 : txn_fault) (now : instant) (p : AdminPrincipal) (t : uuid)
    (payload : ApplicationCreate) (key : string) : REL Reply :=
  _ ← body_valid (application_create_ok payload);
  _ ← rel_access f1 now p t WriteAccess "agent_application.create" "agent_application" None;
  application_id ← rel_draw;
  r ← on_conflict "Agent application already exists" (
    command f2 now p t key "agent_application.create"
      (obj [("tenant_id", identifier t); ("slug", JStr (ac_slug payload)); ("name", JStr (ac_name payload));
            ("description", JStr (ac_description payload))]) (
      let row := {| aa_slug := ac_slug payload; aa_name := ac_name payload;
                    aa_description := ac_description payload; aa_version := 1; aa_created_at := now;
                    aa_updated_at := now |} in
      ok ← gets (λ s, tenant_listed t s && bool_decide (rd_applications s !! (t, application_id) = None)
                      && slug_free t application_id (ac_slug payload) s);
      _ ← ensure ok IntegrityError;
      _ ← modify (set_applications <[(t, application_id) := row]>);
      mret {| cr_result := application_json t application_id row; cr_target_type := "agent_application";
              cr_target_id := uuid_text application_id; cr_details := ∅ |}));
  created_reply r.

(** The rows of a tenant, with their identifiers. *)
Definition tenant_rows {A} (t : uuid) (m : gmap (uuid * uuid) A) : list (uuid * A) :=
  omap (λ kr : (uuid * uuid) * A, if bool_decide (kr.1.1 = t) then Some (kr.1.2, kr.2) else None) (map_to_list m).

(** A page of rows as an endpoint answers it. *)
Definition listing {A} (fault : txn_fault) (now : instant) (p : AdminPrincipal) (t : uuid)
    (action target_type : string) (target_id : option string) (limit : Z) (cursor : option string)
    (rows : ReleaseDb → list (uuid * A)) (render : uuid → A → json) : REL json :=
  _ ← body_valid (limit_ok limit);
  _ ← rel_access fault now p t ReadAccess action target_type target_id;
  cursor_id ← cursor_of cursor;
  l ← gets rows;
  let '(page, next) := page_of fst cursor_id (Z.to_nat limit) l in
  mret (page_json ((λ ir : uuid * A, render ir.1 ir.2) <$> page) next).

Definition list_applications (fault : txn_fault) (now : instant) (p : AdminPrincipal) (t : uuid) (limit : Z)
    (cursor : option string) : REL json :=
  listing fault now p t "agent_application.list" "agent_application" None limit cursor
    (λ s, tenant_rows t (rd_applications s)) (application_json t).

Definition get_application (fault : txn_fault) (now : instant) (p : AdminPrincipal) (t id : uuid) : REL Reply :=
  _ ← rel_access fault now p t ReadAccess "agent_application.get" "agent_application" (Some (uuid_text id));
  found ← gets (λ s, rd_applications s !! (t, id));
  a ← get_or_raise found (Http 404 "Agent application not found");
  versioned_reply (λ _, 200) "version" (application_json t id a, false).

Definition updated_application (now : instant) (u : ApplicationUpdate) (a : ApplicationRow) : ApplicationRow :=
  {| aa_slug := default (aa_slug a) (given (au_slug u)); aa_name := default (aa_name a) (given (au_name u));
     aa_description := default (aa_description a) (given (au_description u)); aa_version := aa_version a + 1;
     aa_created_at := aa_created_at a; aa_updated_at := now |}.

(** A row that an update or a deletion finds by its version: the row, or status 412 when
    it has another version and 404 when there is none. *)
Definition at_version {A} (found : option A) (version : A → Z) (expected : Z) (noun : string) : REL A :=
  _ ← ensure (int4 expected) DataError;
  row ← get_or_raise found (Http 404 (noun +:+ " not found"));
  _ ← ensure (version row =? expected) (Http 412 (noun +:+ " version changed"));
  mret row.

Definition update_application (f1 f2 : txn_fault) (now : instant) (p : AdminPrincipal) (t id : uuid)
    (payload : ApplicationUpdate) (key if_match : string) : REL Reply :=
  _ ← body_valid (application_update_ok payload);
  _ ← rel_access f1 now p t WriteAccess "agent_application.update" "agent_application" (Some (uuid_text id));
  expected ← if_match_version if_match;
  r ← on_conflict "Agent application already exists" (
    command f2 now p t key "agent_application.update"
      (obj ([("tenant_id", identifier t); ("application_id", identifier id); ("expected_version", JNum expected)]
            ++ if_set "slug" JStr (au_slug payload) ++ if_set "name" JStr (au_name payload)
            ++ if_set "description" JStr (au_description payload))) (
      found ← gets (λ s, rd_applications s !! (t, id));
      a ← at_version found aa_version expected "Agent application";
      let row := updated_application now payload a in
      _ ← ensure (int4 (aa_version row)) DataError;
      free ← gets (slug_free t id (aa_slug row));
      _ ← ensure free IntegrityError;
      _ ← modify (set_applications <[(t, id) := row]>);
      mret {| cr_result := application_json t id row; cr_target_type := "agent_application";
              cr_target_id := uuid_text id; cr_details := obj [("version", JNum (aa_version row))] |}));
  versioned_reply (λ _, 200) "version" r.

(** Rows that keep an application from being deleted: its deployments, whose releases the
    cascade must not delete, its evaluation suites and its runs. *)
Definition application_referenced (t id : uuid) (s : ReleaseDb) : bool :=
  negb (bool_decide (map_Forall (λ k d, k.1 = t → dp_application_id d ≠ id) (rd_deployments s))
        && bool_decide (map_Forall (λ k u, k.1 = t → su_application_id u ≠ id) (rd_suites s))
        && bool_decide (map_Forall (λ k r, k.1 = t → ru_application_id r ≠ id) (rd_runs s))).

(** The cascade takes the application's draft and releases with it. *)
Definition drop_application (t id : uuid) (s : ReleaseDb) : ReleaseDb :=
  set_applications (delete (t, id)) (set_drafts (delete (t, id))
    (set_releases (filter (λ kr : (uuid * uuid) * AgentRelease,
       ¬ (kr.1.1 = t ∧ rel_application_id kr.2 = id))) s)).

Definition delete_application (f1 f2 : txn_fault) (now : instant) (p : AdminPrincipal) (t id : uuid)
    (key if_match : string) : REL Reply :=
  _ ← rel_access f1 now p t WriteAccess "agent_application.delete" "agent_application" (Some (uuid_text id));
  expected ← if_match_version if_match;
  r ← command f2 now p t key "agent_application.delete"
    (obj [("tenant_id", identifier t); ("application_id", identifier id); ("expected_version", JNum expected)]) (
    found ← gets (λ s, rd_applications s !! (t, id));
    _ ← at_version found aa_version expected "Agent application";
    referenced ← gets (application_referenced t id);
    _ ← ensure (negb referenced) IntegrityError;
    _ ← modify (drop_application t id);
    mret {| cr_result := deleted_json; cr_target_type := "agent_application"; cr_target_id := uuid_text id;
            cr_details := obj [("version", JNum expected)] |});
  mret (deleted_reply r).

(** ** Drafts *)
Definition draft_json (t application_id : uuid) (d : DraftRow) : json :=
  JObj (obj [("tenant_id", identifier t); ("application_id", identifier application_id);
    ("instructions", JStr (df_instructions d)); ("model_alias", JStr (df_model_alias d));
    ("tool_aliases", texts (df_tool_aliases d)); ("knowledge_refs", texts (df_knowledge_refs d));
    ("governance_policy_ref", nullable JStr (df_governance_policy_ref d)); ("version", JNum (df_version d));
    ("created_at", moment (df_created_at d)); ("updated_at", moment (df_updated_at d))]).

(** [AgentDraftCreate], [AgentDraftUpdate] *)
Record DraftCreate := {
  dc_instructions : string;
  dc_model_alias : string;
  dc_tool_aliases : list string;
  dc_knowledge_refs : list string;
  dc_governance_policy_ref : option string;
}.
Definition references_ok (l : list string) : bool :=
  forallb (length_between 0 128) l && (length l <=? 100)%nat.
Definition draft_create_ok (c : DraftCreate) : bool :=
  (Z.of_nat (String.length (dc_instructions c)) <=? 100000) && length_between 0 128 (dc_model_alias c)
  && references_ok (dc_tool_aliases c) && references_ok (dc_knowledge_refs c)
  && option_check (length_between 0 128) (dc_governance_policy_ref c).
Record DraftUpdate := {
  du_instructions : field string;
  du_model_alias : field string;
  du_tool_aliases : field (list string);
  du_knowledge_refs : field (list string);
  du_governance_policy_ref : field string;
}.
Definition draft_update_ok (c : DraftUpdate) : bool :=
  field_ok (λ i, Z.of_nat (String.length i) <=? 100000) (du_instructions c)
  && field_ok (length_between 0 128) (du_model_alias c)
  && field_ok references_ok (du_tool_aliases c) && field_ok references_ok (du_knowledge_refs c)
  && field_ok (length_between 0 128) (du_governance_policy_ref c).

Definition create_draft (f1 f2 : txn_fault) (now : instant) (p : AdminPrincipal) (t application_id : uuid)
    (payload : DraftCreate) (key : string) : REL Reply :=
  _ ← body_valid (draft_create_ok payload);
  _ ← rel_access f1 now p t WriteAccess "agent_draft.create" "agent_draft" (Some (uuid_text application_id));
  r ← on_conflict "Agent Draft cannot be created" (
    command f2 now p t key "agent_draft.create"
      (obj [("tenant_id", identifier t); ("application_id", identifier application_id);
            ("instructions", JStr (dc_instructions payload)); ("model_alias", JStr (dc_model_alias payload));
            ("tool_aliases", texts (dc_tool_aliases payload)); ("knowledge_refs", texts (dc_knowledge_refs payload));
            ("governance_policy_ref", nullable JStr (dc_governance_policy_ref payload))]) (
      let row := {| df_instructions := dc_instructions payload; df_model_alias := dc_model_alias payload;
                    df_tool_aliases := dc_tool_aliases payload; df_knowledge_refs := dc_knowledge_refs payload;
                    df_governance_policy_ref := dc_governance_policy_ref payload; df_version := 1;
                    df_created_at := now; df_updated_at := now |} in
      ok ← gets (λ s, bool_decide (is_Some (rd_applications s !! (t, application_id)))
                      && bool_decide (rd_drafts s !! (t, application_id) = None));
      _ ← ensure ok IntegrityError;
      _ ← modify (set_drafts <[(t, application_id) := row]>);
      mret {| cr_result := draft_json t application_id row; cr_target_type := "agent_draft";
              cr_target_id := uuid_text application_id; cr_details := ∅ |}));
  created_reply r.

Definition get_draft (fault : txn_fault) (now : instant) (p : AdminPrincipal) (t application_id : uuid) : REL Reply :=
  _ ← rel_access fault now p t ReadAccess "agent_draft.get" "agent_draft" (Some (uuid_text application_id));
  found ← gets (λ s, rd_drafts s !! (t, application_id));
  d ← get_or_raise found (Http 404 "Agent Draft not found");
  versioned_reply (λ _, 200) "version" (draft_json t application_id d, false).

(** The request of a command on the draft at a version. *)
Definition draft_request (t application_id : uuid) (expected : Z) : list (string * json) :=
  [("tenant_id", identifier t); ("application_id", identifier application_id); ("expected_version", JNum expected)].

Definition validate_draft (f1 f2 : txn_fault) (now : instant) (p : AdminPrincipal) (t application_id : uuid)
    (key if_match : string) : REL Reply :=
  _ ← rel_access f1 now p t WriteAccess "agent_draft.validate" "agent_draft" (Some (uuid_text application_id));
  expected ← if_match_version if_match;
  r ← command f2 now p t key "agent_draft.validate" (obj (draft_request t application_id expected)) (
    found ← gets (λ s, rd_drafts s !! (t, application_id));
    draft ← at_version found df_version expected "Agent Draft";
    let issues := validate_draft_configuration draft in
    let valid := bool_decide (length issues = 0%nat) in
    mret {| cr_result := JObj (obj [("valid", JBool valid); ("draft_version", JNum expected);
                                    ("issues", JArr (issue_json <$> issues))]);
            cr_target_type := "agent_draft"; cr_target_id := uuid_text application_id;
            cr_details := obj [("valid", JBool valid); ("draft_version", JNum expected);
                               ("issue_codes", texts (di_code <$> issues))] |});
  versioned_reply (λ _, 200) "draft_version" r.

Definition updated_draft (now : instant) (u : DraftUpdate) (d : DraftRow) : DraftRow :=
  {| df_instructions := default (df_instructions d) (given (du_instructions u));
     df_model_alias := default (df_model_alias d) (given (du_model_alias u));
     df_tool_aliases := default (df_tool_aliases d) (given (du_tool_aliases u));
     df_knowledge_refs := default (df_knowledge_refs d) (given (du_knowledge_refs u));
     df_governance_policy_ref :=
       match du_governance_policy_ref u with Some v => v | None => df_governance_policy_ref d end;
     df_version := df_version d + 1; df_created_at := df_created_at d; df_updated_at := now |}.

Definition update_draft (f1 f2 : txn_fault) (now : instant) (p : AdminPrincipal) (t application_id : uuid)
    (payload : DraftUpdate) (key if_match : string) : REL Reply :=
  _ ← body_valid (draft_update_ok payload);
  _ ← rel_access f1 now p t WriteAccess "agent_draft.update" "agent_draft" (Some (uuid_text application_id));
  expected ← if_match_version if_match;
  r ← command f2 now p t key "agent_draft.update"
    (obj (draft_request t application_id expected
          ++ if_set "instructions" JStr (du_instructions payload) ++ if_set "model_alias" JStr (du_model_alias payload)
          ++ if_set "tool_aliases" texts (du_tool_aliases payload)
          ++ if_set "knowledge_refs" texts (du_knowledge_refs payload)
          ++ if_set "governance_policy_ref" JStr (du_governance_policy_ref payload))) (
    found ← gets (λ s, rd_drafts s !! (t, application_id));
    d ← at_version found df_version expected "Agent Draft";
    let row := updated_draft now payload d in
    _ ← ensure (int4 (df_version row)) DataError;
    _ ← modify (set_drafts <[(t, application_id) := row]>);
    mret {| cr_result := draft_json t application_id row; cr_target_type := "agent_draft";
            cr_target_id := uuid_text application_id; cr_details := obj [("version", JNum (df_version row))] |});
  versioned_reply (λ _, 200) "version" r.

Definition delete_draft (f1 f2 : txn_fault) (now : instant) (p : AdminPrincipal) (t application_id : uuid)
    (key if_match : string) : REL Reply :=
  _ ← rel_access f1 now p t WriteAccess "agent_draft.delete" "agent_draft" (Some (uuid_text application_id));
  expected ← if_match_version if_match;
  r ← command f2 now p t key "agent_draft.delete" (obj (draft_request t application_id expected)) (
    found ← gets (λ s, rd_drafts s !! (t, application_id));
    _ ← at_version found df_version expected "Agent Draft";
    _ ← modify (set_drafts (delete (t, application_id)));
    mret {| cr_result := deleted_json; cr_target_type := "agent_draft"; cr_target_id := uuid_text application_id;
            cr_details := obj [("version", JNum expected)] |});
  mret (deleted_reply r).
End Endpoints.
