(* ===== verification/ModelProfiles.v ===== *)
(** * Model profiles (admin_api/model_profiles.py)

    The endpoints that administer the model profiles of a tenant, with the request models
    that say what a profile may hold. *)

From S2P Require Import Prelude PyNum Uuids ExecutionBus ToolRegistry AuditChain AdminAccess Interleave PyRegex Governance PolicyBundles Pagination LlmGateway GatewayAdapters AgentDrafts.
Open Scope string_scope.
Open Scope list_scope.
Open Scope Z_scope.

(** ** What the request models accept *)
Fixpoint strip_prefix (prefix l : list Ascii.ascii) : option (list Ascii.ascii) :=
  match prefix, l with
  | [], _ => Some l
  | c :: prefix', d :: l' => if Ascii.eqb c d then strip_prefix prefix' l' else None
  | _, [] => None
  end.
(** [text.startswith(prefix)] *)
Definition startswith (prefix s : string) : bool := bool_decide (is_Some (strip_prefix (chars prefix) (chars s))).

(** [SecretReference]: a number sign ends the path, so the parts are unique. *)
Definition tenant_char (c : Ascii.ascii) : bool := is_digit c || in_range 97 102 c || is_char 45 c.
Definition path_char (c : Ascii.ascii) : bool :=
  is_lower c || is_digit c || is_char 47 c || is_char 95 c || is_char 45 c.
Definition field_char (c : Ascii.ascii) : bool :=
  is_upper c || is_lower c || is_digit c || is_char 95 c || is_char 46 c || is_char 45 c.
Definition secret_path_ok (location : list Ascii.ascii) : bool :=
  (length (take 36 location) =? 36)%nat && forallb tenant_char (take 36 location) &&
  match drop 36 location with
  | slash :: c :: path => is_char 47 slash && (is_lower c || is_digit c) && forallb path_char path
                          && (length path <=? 255)%nat
  | _ => false
  end.
Definition is_secret_reference (s : string) : bool :=
  length_between 0 384 s &&
  match strip_prefix (chars "vault://tenant/") (chars s) with
  | Some rest =>
      let '(location, fragment) := break (is_char 35) rest in
      match fragment with
      | _ :: name => secret_path_ok location && forallb field_char name
                     && (1 <=? length name)%nat && (length name <=? 64)%nat
      | [] => false
      end
  | None => false
  end.

(** [ModelEndpoint]: [^https?://[^\s]{1,480}$], and no credentials, query or fragment. *)
Fixpoint without_space (l : list Ascii.ascii) : bool :=
  match l with
  | [] => true
  | c :: l' => negb (in_range 9 13 c || is_char 32 c) && (wide_space l =? 0)%nat && without_space l'
  end.
Definition url_rest (s : string) : option (list Ascii.ascii) :=
  match strip_prefix (chars "https://") (chars s) with
  | Some rest => Some rest
  | None => strip_prefix (chars "http://") (chars s)
  end.

Section Profiles.
Context (bad_netloc : string → bool).
Context (sha256_hex : string → string) (dumps : json → string) (uuid_at : nat → uuid).

Definition endpoint_without_credentials (value : string) : bool :=
  match urlsplit bad_netloc value with
  | Some parsed => negb (existsb (is_char 64) (chars (us_netloc parsed)))
                   && bool_decide (us_query parsed = "") && bool_decide (us_fragment parsed = "")
  | None => false
  end.
Definition is_endpoint (s : string) : bool :=
  length_between 0 512 s &&
  match url_rest s with
  | Some rest => (1 <=? length rest)%nat && (length rest <=? 480)%nat && without_space rest
  | None => false
  end && endpoint_without_credentials s.

Definition fallbacks_ok (l : list string) : bool := forallb is_slug l && (length l <=? 10)%nat.
Definition rate_ok (n : Z) : bool := (1 <=? n) && (n <=? 100000).

(** [ModelProfileCreate], [ModelProfileUpdate] *)
Definition profile_create_ok (alias : string) (c : ProfileRow) : bool :=
  is_slug alias && length_between 1 256 (mr_provider_model c) && is_endpoint (mr_endpoint_url c)
  && is_secret_reference (mr_secret_ref c) && is_region (mr_region c) && fallbacks_ok (mr_fallback_aliases c)
  && rate_ok (mr_requests_per_minute c).
Record ProfileUpdate := {
  pu_provider_model : field string;
  pu_endpoint_url : field string;
  pu_secret_ref : field string;
  pu_data_classification : field DataClassification;
  pu_region : field string;
  pu_fallback_aliases : field (list string);
  pu_requests_per_minute : field Z;
}.
Definition profile_update_ok (u : ProfileUpdate) : bool :=
  field_ok (length_between 1 256) (pu_provider_model u) && field_ok is_endpoint (pu_endpoint_url u)
  && field_ok is_secret_reference (pu_secret_ref u) && field_ok is_region (pu_region u)
  && field_ok fallbacks_ok (pu_fallback_aliases u) && field_ok rate_ok (pu_requests_per_minute u).

(** ** Endpoints *)
Definition classification_json (c : DataClassification) : json := JStr (classification_value c).

(** [_PROFILE_COLUMNS] *)
Definition profile_json (t : uuid) (alias : string) (r : StoredProfile) : json :=
  let c := mf_profile r in
  JObj (obj [("id", identifier (mf_id r)); ("tenant_id", identifier t); ("alias", JStr alias);
    ("provider_model", JStr (mr_provider_model c)); ("endpoint_url", JStr (mr_endpoint_url c));
    ("secret_ref", JStr (mr_secret_ref c)); ("data_classification", classification_json (mr_data_classification c));
    ("region", JStr (mr_region c)); ("fallback_aliases", texts (mr_fallback_aliases c));
    ("requests_per_minute", JNum (mr_requests_per_minute c)); ("version", JNum (mf_version r));
    ("created_at", moment (mf_created_at r)); ("updated_at", moment (mf_updated_at r))]).

Definition validate_secret_tenant (secret_ref : string) (t : uuid) : REL unit :=
  ensure (startswith ("vault://tenant/" +:+ uuid_text t +:+ "/") secret_ref)
    (Http 422 "secret_ref must be scoped to the target tenant").
Definition validate_fallbacks (alias : string) (fallbacks : list string) : REL unit :=
  ensure (negb (bool_decide (alias ∈ fallbacks)) && bool_decide (NoDup fallbacks))
    (Http 422 "fallback aliases must be unique and exclude the profile alias").
Definition given_checked {A} (f : field A) (check : A → REL unit) : REL unit :=
  match given f with Some v => check v | None => mret tt end.

Definition create_profile (f1 f2 : txn_fault) (now : instant) (p : AdminPrincipal) (t : uuid) (alias : string)
    (payload : ProfileRow) (key : string) : REL Reply :=
  _ ← body_valid (profile_create_ok alias payload);
  _ ← rel_access sha256_hex dumps uuid_at f1 now p t WriteAccess "model_profile.create" "model_profile" None;
  _ ← validate_secret_tenant (mr_secret_ref payload) t;
  _ ← validate_fallbacks alias (mr_fallback_aliases payload);
  profile_id ← rel_draw uuid_at;
  r ← on_conflict "model profile alias already exists" (
    command sha256_hex dumps uuid_at f2 now p t key "model_profile.create"
      (obj [("tenant_id", identifier t); ("alias", JStr alias); ("provider_model", JStr (mr_provider_model payload));
            ("endpoint_url", JStr (mr_endpoint_url payload)); ("secret_ref", JStr (mr_secret_ref payload));
            ("data_classification", classification_json (mr_data_classification payload));
            ("region", JStr (mr_region payload)); ("fallback_aliases", texts (mr_fallback_aliases payload));
            ("requests_per_minute", JNum (mr_requests_per_minute payload))]) (
      let row := {| mf_id := profile_id; mf_profile := payload; mf_version := 1; mf_created_at := now;
                    mf_updated_at := now |} in
      ok ← gets (λ s, tenant_listed t s && bool_decide (rd_profiles s !! (t, alias) = None)
                      && bool_decide (map_Forall (λ k r, k.1 = t → mf_id r ≠ profile_id) (rd_profiles s)));
      _ ← ensure ok IntegrityError;
      _ ← modify (set_profiles <[(t, alias) := row]>);
      mret {| cr_result := profile_json t alias row; cr_target_type := "model_profile";
              cr_target_id := uuid_text profile_id; cr_details := ∅ |}));
  created_reply r.

Definition list_profiles (fault : txn_fault) (now : instant) (p : AdminPrincipal) (t : uuid) (limit : Z)
    (cursor : option string) : REL json :=
  listing sha256_hex dumps uuid_at fault now p t "model_profile.list" "model_profile" None limit cursor
    (λ s, omap (λ kr : (uuid * string) * StoredProfile,
             if bool_decide (kr.1.1 = t) then Some (mf_id kr.2, (kr.1.2, kr.2)) else None)
           (map_to_list (rd_profiles s)))
    (λ _ ar, profile_json t ar.1 ar.2).

Definition get_profile (fault : txn_fault) (now : instant) (p : AdminPrincipal) (t : uuid) (alias : string)
    : REL Reply :=
  _ ← rel_access sha256_hex dumps uuid_at fault now p t ReadAccess "model_profile.get" "model_profile" (Some alias);
  found ← gets (λ s, rd_profiles s !! (t, alias));
  r ← get_or_raise found (Http 404 "model profile not found");
  versioned_reply (λ _, 200) "version" (profile_json t alias r, false).

Definition updated_profile (now : instant) (u : ProfileUpdate) (r : StoredProfile) : StoredProfile :=
  let c := mf_profile r in
  {| mf_id := mf_id r;
     mf_profile :=
       {| mr_provider_model := default (mr_provider_model c) (given (pu_provider_model u));
          mr_endpoint_url := default (mr_endpoint_url c) (given (pu_endpoint_url u));
          mr_secret_ref := default (mr_secret_ref c) (given (pu_secret_ref u));
          mr_data_classification := default (mr_data_classification c) (given (pu_data_classification u));
          mr_region := default (mr_region c) (given (pu_region u));
          mr_fallback_aliases := default (mr_fallback_aliases c) (given (pu_fallback_aliases u));
          mr_requests_per_minute := default (mr_requests_per_minute c) (given (pu_requests_per_minute u)) |};
     mf_version := mf_version r + 1; mf_created_at := mf_created_at r; mf_updated_at := now |}.

Definition profile_request (t : uuid) (alias : string) (expected : Z) : list (string * json) :=
  [("tenant_id", identifier t); ("alias", JStr alias); ("expected_version", JNum expected)].

Definition update_profile (f1 f2 : txn_fault) (now : instant) (p : AdminPrincipal) (t : uuid) (alias : string)
    (payload : ProfileUpdate) (key if_match : string) : REL Reply :=
  _ ← body_valid (profile_update_ok payload);
  _ ← rel_access sha256_hex dumps uuid_at f1 now p t WriteAccess "model_profile.update" "model_profile" (Some alias);
  expected ← if_match_version if_match;
  _ ← given_checked (pu_secret_ref payload) (λ ref, validate_secret_tenant ref t);
  _ ← given_checked (pu_fallback_aliases payload) (validate_fallbacks alias);
  r ← command sha256_hex dumps uuid_at f2 now p t key "model_profile.update"
    (obj (profile_request t alias expected
          ++ if_set "provider_model" JStr (pu_provider_model payload)
          ++ if_set "endpoint_url" JStr (pu_endpoint_url payload) ++ if_set "secret_ref" JStr (pu_secret_ref payload)
          ++ if_set "data_classification" classification_json (pu_data_classification payload)
          ++ if_set "region" JStr (pu_region payload) ++ if_set "fallback_aliases" texts (pu_fallback_aliases payload)
          ++ if_set "requests_per_minute" JNum (pu_requests_per_minute payload))) (
    found ← gets (λ s, rd_profiles s !! (t, alias));
    old ← at_version found mf_version expected "model profile";
    let row := updated_profile now payload old in
    _ ← ensure (int4 (mf_version row)) DataError;
    _ ← modify (set_profiles <[(t, alias) := row]>);
    mret {| cr_result := profile_json t alias row; cr_target_type := "model_profile";
            cr_target_id := uuid_text (mf_id row); cr_details := obj [("version", JNum (mf_version row))] |});
  versioned_reply (λ _, 200) "version" r.

Definition delete_profile (f1 f2 : txn_fault) (now : instant) (p : AdminPrincipal) (t : uuid) (alias : string)
    (key if_match : string) : REL Reply :=
  _ ← rel_access sha256_hex dumps uuid_at f1 now p t WriteAccess "model_profile.delete" "model_profile" (Some alias);
  expected ← if_match_version if_match;
  r ← command sha256_hex dumps uuid_at f2 now p t key "model_profile.delete" (obj (profile_request t alias expected)) (
    found ← gets (λ s, rd_profiles s !! (t, alias));
    old ← at_version found mf_version expected "model profile";
    _ ← modify (set_profiles (delete (t, alias)));
    mret {| cr_result := deleted_json; cr_target_type := "model_profile"; cr_target_id := uuid_text (mf_id old);
            cr_details := obj [("version", JNum expected)] |});
  mret (deleted_reply r).
End Profiles.
