(* ===== verification/Evaluations.v ===== *)
(** * Evaluation evidence (trpc_service/evals.py)

    The decision that evaluation evidence leads to, and the gate in front of production
    that reads the latest stored decision.  An integer too large for a float raises
    [OverflowError], which is [None] here. *)

From S2P Require Import Prelude PyNum Uuids Interleave ExecutionBus AuditChain ToolRegistry AdminAccess PyRegex Governance PolicyBundles LlmGateway GatewayAdapters Pagination AgentDrafts.
Open Scope string_scope.
Open Scope list_scope.
Open Scope Z_scope.

(** ** Python floats

    The binary64 numbers a JSON document can carry, as Python reads them: finite numbers
    [m * 2^e], the infinities and not-a-number, the conversion of an integer, and the
    comparisons, which are all false for not-a-number. *)

Inductive pyfloat := Fin (m e : Z) | Inf (negative : bool) | NaN.

(** The number of the 64 bits [b]. *)
Definition float_of_bits (b : Z) : pyfloat :=
  let negative := Z.testbit b 63 in
  let exponent := Z.land (Z.shiftr b 52) 2047 in
  let fraction := Z.land b (2 ^ 52 - 1) in
  let signed m := if negative then - m else m in
  if exponent =? 2047 then if fraction =? 0 then Inf negative else NaN
  else if exponent =? 0 then Fin (signed fraction) (-1074)
  else Fin (signed (2 ^ 52 + fraction)) (exponent - 1075).

(** The bits of the number with a sign, an exponent field and a fraction. *)
Definition float_bits (negative : bool) (exponent fraction : Z) : Z :=
  (if negative then 2 ^ 63 else 0) + exponent * 2 ^ 52 + fraction.

(** [float(n)]: [None] stands for [OverflowError]. *)
Definition bits_of_int (n : Z) : option Z :=
  if n =? 0 then Some 0 else
  let '(m, e) := py_truediv (Z.abs n) 1 in
  let '(m, e) := if m =? 2 ^ 53 then (2 ^ 52, e + 1) else (m, e) in
  if 972 <=? e then None else Some (float_bits (n <? 0) (e + 1075) (m - 2 ^ 52)).

(** [x < y] *)
Definition float_ltb (x y : pyfloat) : bool :=
  match x, y with
  | NaN, _ | _, NaN => false
  | Inf true, Inf n => negb n
  | Inf true, _ => true
  | Inf false, _ => false
  | _, Inf n => negb n
  | Fin m e, Fin n g => m * 2 ^ (e - Z.min e g) <? n * 2 ^ (g - Z.min e g)
  end.

(** [x <= y] *)
Definition float_leb (x y : pyfloat) : bool :=
  match x, y with NaN, _ | _, NaN => false | _, _ => negb (float_ltb y x) end.

Definition is_finite (x : pyfloat) : bool := match x with Fin _ _ => true | _ => false end.
Definition float_zero : pyfloat := Fin 0 0.

Example float_examples :
  float_of_bits 0x3FE0000000000000 = Fin (2 ^ 52) (-53) ∧ float_of_bits 0x7FF0000000000000 = Inf false ∧
  float_of_bits 0x7FF8000000000000 = NaN ∧ (float_of_bits <$> bits_of_int 3) = Some (Fin (3 * 2 ^ 51) (-51)) ∧
  float_ltb (float_of_bits 0x3FE0000000000000) (Fin 1 0) = true ∧ bits_of_int (2 ^ 1024) = None ∧
  bits_of_int (- (2 ^ 1024 - 2 ^ 970 - 1)) = Some 0xFFEFFFFFFFFFFFFF ∧ bits_of_int (2 ^ 1024 - 2 ^ 970) = None.
Proof. split_and!; vm_compute; reflexivity. Qed.

(** ** The comparison is the order of the numbers *)
Lemma fin_ltb m e n g k :
  k ≤ e → k ≤ g → float_ltb (Fin m e) (Fin n g) = true ↔ m * 2 ^ (e - k) < n * 2 ^ (g - k).
Proof.
  intros He Hg. simpl. rewrite Z.ltb_lt. set (lo := Z.min e g).
  assert (2 ^ (e - k) = 2 ^ (e - lo) * 2 ^ (lo - k)) as -> by (rewrite <-Z.pow_add_r by lia; f_equal; lia).
  assert (2 ^ (g - k) = 2 ^ (g - lo) * 2 ^ (lo - k)) as -> by (rewrite <-Z.pow_add_r by lia; f_equal; lia).
  pose proof (Z.pow_pos_nonneg 2 (lo - k) ltac:(lia) ltac:(lia)). rewrite !Z.mul_assoc.
  apply Z.mul_lt_mono_pos_r. lia.
Qed.

Lemma float_ltb_irrefl x : float_ltb x x = false.
Proof. destruct x as [m e|[]|]; simpl; [|done..]. apply Z.ltb_irrefl. Qed.

Lemma float_ltb_trans x y z : float_ltb x y = true → float_ltb y z = true → float_ltb x z = true.
Proof.
  destruct x as [m e|[]|], y as [n g|[]|], z as [o h|[]|]; try done.
  set (k := Z.min e (Z.min g h)). rewrite (fin_ltb m e n g k), (fin_ltb n g o h k), (fin_ltb m e o h k) by lia. lia.
Qed.

(** Of two finite numbers, one is less or they are equal. *)
Lemma float_ltb_total x y : is_finite x = true → is_finite y = true →
  float_ltb x y = true ∨ float_ltb y x = true ∨ ∀ z, float_ltb x z = float_ltb y z.
Proof.
  destruct x as [m e|[]|], y as [n g|[]|]; try done. intros _ _.
  set (k := Z.min e g). destruct (Z.lt_trichotomy (m * 2 ^ (e - k)) (n * 2 ^ (g - k))) as [H|[H|H]].
  - left. by apply (fin_ltb _ _ _ _ k); [lia..|].
  - right. right. intros [o h|[]|]; try done. set (j := Z.min k h).
    apply eq_true_iff_eq. rewrite (fin_ltb m e o h j), (fin_ltb n g o h j) by lia.
    assert (m * 2 ^ (e - j) = n * 2 ^ (g - j)) as ->; [|done].
    replace (e - j) with ((e - k) + (k - j)) by lia. replace (g - j) with ((g - k) + (k - j)) by lia.
    rewrite !Z.pow_add_r, !Z.mul_assoc, H by lia. done.
  - right. left. by apply (fin_ltb _ _ _ _ k); [lia..|].
Qed.

(** ** Integers *)
Lemma float_bits_decode negative exponent fraction :
  0 < exponent < 2047 → 0 ≤ fraction < 2 ^ 52 →
  float_of_bits (float_bits negative exponent fraction) =
  Fin (if negative then - (2 ^ 52 + fraction) else 2 ^ 52 + fraction) (exponent - 1075).
Proof.
  intros He Hf. unfold float_of_bits. set (b := float_bits _ _ _).
  assert (Z.shiftr b 52 = (if negative then 2 ^ 11 else 0) + exponent) as Hs.
  { rewrite Z.shiftr_div_pow2 by lia. symmetry. apply (Z.div_unique_pos _ _ _ fraction); [lia|].
    unfold b, float_bits. destruct negative; lia. }
  assert (Z.land (Z.shiftr b 52) 2047 = exponent) as ->.
  { rewrite Hs. change 2047 with (Z.ones 11). rewrite Z.land_ones by lia. symmetry.
    apply (Z.mod_unique_pos _ _ (if negative then 1 else 0)); [lia|]. destruct negative; lia. }
  assert (Z.land b (2 ^ 52 - 1) = fraction) as ->.
  { change (2 ^ 52 - 1) with (Z.ones 52). rewrite Z.land_ones by lia. symmetry.
    apply (Z.mod_unique_pos _ _ ((if negative then 2 ^ 11 else 0) + exponent)); [lia|].
    unfold b, float_bits. destruct negative; lia. }
  assert (Z.testbit b 63 = negative) as ->.
  { rewrite Z.testbit_odd, Z.shiftr_div_pow2 by lia.
    rewrite <-(Z.div_unique_pos b (2 ^ 63) (if negative then 1 else 0) (exponent * 2 ^ 52 + fraction)).
    - by destruct negative.
    - nia.
    - unfold b, float_bits. destruct negative; lia. }
  rewrite (proj2 (Z.eqb_neq exponent 2047)), (proj2 (Z.eqb_neq exponent 0)) by lia. by destruct negative.
Qed.

(** An integer below [2^53] is converted exactly. *)
Lemma bits_of_int_exact n : Z.abs n < 2 ^ 53 →
  ∃ b m e, bits_of_int n = Some b ∧ float_of_bits b = Fin m e ∧ e ≤ 0 ∧ m = n * 2 ^ (- e).
Proof.
  intros Hn. unfold bits_of_int. destruct (Z.eqb_spec n 0) as [->|Hn0].
  { exists 0, 0, (-1074). split_and!; [done..|lia|done]. }
  unfold py_truediv. rewrite (proj2 (Z.eqb_neq (Z.abs n) 0)) by lia.
  destruct (quotient_exponent_spec (Z.abs n) 1 ltac:(lia) ltac:(lia)) as [Hpos Hneg].
  set (k := quotient_exponent (Z.abs n) 1) in *.
  assert (0 ≤ k ≤ 52) as Hk.
  { assert (0 ≤ k) as Hk0. { destruct (Z.lt_ge_cases k 0) as [Hlt|]; [|done]. specialize (Hneg Hlt).
      assert (2 ^ 1 ≤ 2 ^ (- k)) by (apply Z.pow_le_mono_r; lia). nia. }
    split; [done|]. specialize (Hpos Hk0). destruct (Z.le_gt_cases k 52); [done|].
    assert (2 ^ 53 ≤ 2 ^ k) by (apply Z.pow_le_mono_r; lia). lia. }
  specialize (Hpos ltac:(lia)). rewrite Z.mul_1_l in Hpos.
  assert ((if k - 52 <? 0 then rne (Z.abs n * 2 ^ (- (k - 52))) 1 else rne (Z.abs n) (1 * 2 ^ (k - 52)))
    = Z.abs n * 2 ^ (52 - k)) as ->.
  { destruct (Z.ltb_spec (k - 52) 0); [rewrite rne_1; do 2 f_equal; lia|].
    replace k with 52 by lia. by rewrite rne_1, Z.mul_1_r. }
  assert (2 ^ 52 = 2 ^ k * 2 ^ (52 - k)) as Hsplit by (rewrite <-Z.pow_add_r by lia; f_equal; lia).
  assert (0 < 2 ^ (52 - k)) by (apply Z.pow_pos_nonneg; lia).
  set (m := Z.abs n * 2 ^ (52 - k)). assert (2 ^ 52 ≤ m < 2 ^ 53) as Hm.
  { change (2 ^ 53) with (2 * 2 ^ 52). rewrite Hsplit. unfold m. nia. }
  rewrite (proj2 (Z.eqb_neq m (2 ^ 53))), (proj2 (Z.leb_gt 972 (k - 52))) by lia.
  eexists _, _, _. split; [done|]. rewrite float_bits_decode by lia. split; [done|]. split; [lia|].
  replace (- (k - 52 + 1075 - 1075)) with (52 - k) by lia. unfold m. destruct (Z.ltb_spec n 0); lia.
Qed.

(** Integers below [2^53] compare as floats as they do as integers. *)
Lemma int_float_ltb a b x y : Z.abs a < 2 ^ 53 → Z.abs b < 2 ^ 53 →
  bits_of_int a = Some x → bits_of_int b = Some y →
  float_ltb (float_of_bits x) (float_of_bits y) = (a <? b).
Proof.
  intros Ha Hb Hx Hy. destruct (bits_of_int_exact a Ha) as (? & m & e & Hx' & Hfx & He & Hm).
  destruct (bits_of_int_exact b Hb) as (? & n & g & Hy' & Hfy & Hg & Hn).
  rewrite Hx in Hx'. rewrite Hy in Hy'. simplify_eq. rewrite Hfx, Hfy. apply eq_true_iff_eq.
  set (k := Z.min e g). rewrite (fin_ltb _ _ _ _ k), Z.ltb_lt by lia.
  rewrite <-!Z.mul_assoc, <-!Z.pow_add_r by lia.
  replace (- e + (e - k)) with (- k) by lia. replace (- g + (g - k)) with (- k) by lia.
  assert (0 < 2 ^ (- k)) by (apply Z.pow_pos_nonneg; lia). nia.
Qed.

(** The conversion of an integer is a finite number. *)
Lemma py_truediv_significand p : 0 < p → let '(m, e) := py_truediv p 1 in 2 ^ 52 ≤ m ≤ 2 ^ 53 ∧ -52 ≤ e.
Proof.
  intros Hp. unfold py_truediv. rewrite (proj2 (Z.eqb_neq p 0)) by lia.
  destruct (quotient_exponent_spec p 1 Hp ltac:(lia)) as [Hpos Hneg]. set (k := quotient_exponent p 1) in *.
  assert (0 ≤ k) as Hk.
  { destruct (Z.lt_ge_cases k 0) as [Hlt|]; [|done]. specialize (Hneg Hlt).
    assert (2 ^ 1 ≤ 2 ^ (- k)) by (apply Z.pow_le_mono_r; lia). nia. }
  specialize (Hpos Hk). rewrite Z.mul_1_l in Hpos. destruct (Z.ltb_spec (k - 52) 0).
  - rewrite rne_1. assert (2 ^ 52 = 2 ^ k * 2 ^ (- (k - 52))) as Hs by (rewrite <-Z.pow_add_r by lia; f_equal; lia).
    assert (0 < 2 ^ (- (k - 52))) by (apply Z.pow_pos_nonneg; lia).
    change (2 ^ 53) with (2 * 2 ^ 52). rewrite Hs. split; [nia|lia].
  - rewrite Z.mul_1_l. set (d := 2 ^ (k - 52)). assert (0 < d) as Hd by (apply Z.pow_pos_nonneg; lia).
    assert (2 ^ k = 2 ^ 52 * d) as Hs by (unfold d; rewrite <-Z.pow_add_r by lia; f_equal; lia).
    pose proof (rne_close p d Hd) as Hr. change (2 ^ 53) with (2 * 2 ^ 52). split; [|lia].
    set (m := rne p d) in *. split; [destruct (Z.lt_ge_cases m (2 ^ 52))|destruct (Z.lt_ge_cases (2 * 2 ^ 52) m)]; nia.
Qed.

Lemma bits_of_int_finite n b : bits_of_int n = Some b → is_finite (float_of_bits b) = true.
Proof.
  unfold bits_of_int. destruct (Z.eqb_spec n 0); [by intros [= <-]|].
  pose proof (py_truediv_significand (Z.abs n) ltac:(lia)) as Hm. destruct (py_truediv (Z.abs n) 1) as [m e].
  destruct Hm as [Hm He]. destruct (Z.eqb_spec m (2 ^ 53)); case_match eqn:Hlt; try done; intros [= <-];
    apply Z.leb_gt in Hlt; rewrite float_bits_decode by lia; done.
Qed.

Lemma float_leb_finite x y : is_finite x = true → is_finite y = true → float_leb x y = negb (float_ltb y x).
Proof. by destruct x, y. Qed.

(** ** [ORDER BY ... DESC LIMIT 1] on several columns *)
Fixpoint lex_ltb (x y : list Z) : bool :=
  match x, y with
  | a :: x', b :: y' => (a <? b) || ((a =? b) && lex_ltb x' y')
  | [], _ :: _ => true
  | _, [] => false
  end.
Definition latest {A} (key : A → list Z) (l : list A) : option A :=
  foldr (λ x best, match best with
                   | Some b => if lex_ltb (key x) (key b) then Some b else Some x
                   | None => Some x
                   end) None l.

Lemma lex_ltb_irrefl x : lex_ltb x x = false.
Proof. induction x as [|a x IH]; simpl; [done|]. by rewrite Z.ltb_irrefl, Z.eqb_refl, IH. Qed.
Lemma lex_ltb_trans x y z : lex_ltb x y = true → lex_ltb y z = true → lex_ltb x z = true.
Proof.
  revert y z. induction x as [|a x IH]; intros [|b y] [|c z]; simpl; try done.
  rewrite !orb_true_iff, !andb_true_iff, !Z.ltb_lt, !Z.eqb_eq.
  intros [?|[-> Hxy]] [?|[-> Hyz]]; [left; lia|left; lia|left; lia|right; eauto].
Qed.
Lemma lex_ltb_negtrans x y z : lex_ltb x y = false → lex_ltb y z = false → lex_ltb x z = false.
Proof.
  revert y z. induction x as [|a x IH]; intros [|b y] [|c z]; simpl; try done.
  rewrite !orb_false_iff, !andb_false_iff, !Z.ltb_ge, !Z.eqb_neq.
  intros [? Hxy] [? Hyz]. split; [lia|]. destruct (decide (a = c)) as [->|]; [|by left]. right.
  eapply IH; [destruct Hxy|destruct Hyz]; [lia|done|lia|done].
Qed.
Lemma lex_ltb_total x y : length x = length y → lex_ltb x y = false → lex_ltb y x = false → x = y.
Proof.
  revert y. induction x as [|a x IH]; intros [|b y]; simpl; try done.
  rewrite !orb_false_iff, !andb_false_iff, !Z.ltb_ge, !Z.eqb_neq. intros [= Hl] [? Hxy] [? Hyx].
  assert (a = b) as -> by lia. f_equal. apply IH; [done|by destruct Hxy|by destruct Hyx].
Qed.

(** The row that comes first is one of the rows, and none is later. *)
Lemma latest_spec {A} (key : A → list Z) l :
  match latest key l with
  | Some x => x ∈ l ∧ ∀ y, y ∈ l → lex_ltb (key x) (key y) = false
  | None => l = []
  end.
Proof.
  induction l as [|x l IH]; [done|]. simpl. destruct (latest key l) as [b|].
  - destruct IH as [Hb Hmax]. destruct (lex_ltb (key x) (key b)) eqn:Hlt.
    + split; [by right|]. intros y [->|Hy]%elem_of_cons; [|by apply Hmax].
      destruct (lex_ltb (key b) (key x)) eqn:Hc; [|done].
      by rewrite <-(lex_ltb_irrefl (key x)), (lex_ltb_trans _ _ _ Hlt Hc).
    + split; [by left|]. intros y [->|Hy]%elem_of_cons; [apply lex_ltb_irrefl|].
      eapply lex_ltb_negtrans; [exact Hlt|by apply Hmax].
  - subst. split; [by left|]. intros y ->%list_elem_of_singleton. apply lex_ltb_irrefl.
Qed.

(** ** [evaluate_evidence] *)

(** [_number] of an optional value: a float, given by its bits. *)
Definition number (o : option json) : option (option Z) :=
  match o with
  | Some (JNum n) => b ← bits_of_int n; Some (Some b)
  | Some (JFloat bits) => Some (Some bits)
  | _ => Some None
  end.
Definition zero_bits : Z := 0.
(** [_threshold] *)
Definition threshold (o : option json) : option Z :=
  n ← number o;
  Some match n with
       | Some b => if float_leb float_zero (float_of_bits b) then b else zero_bits
       | None => zero_bits
       end.

(** [evidence.get(k)] where it is a dictionary, and an empty one otherwise. *)
Definition section_of (k : string) (evidence : jobject) : jobject :=
  match evidence !! k with Some (JObj m) => m | _ => ∅ end.

(** [metric is None or exceeds(metric, threshold)] *)
Definition misses (exceeds : pyfloat → pyfloat → bool) (metric : option Z) (limit : option json) : option bool :=
  match metric with
  | None => Some true
  | Some m => l ← threshold limit; Some (exceeds (float_of_bits m) (float_of_bits l))
  end.

Record EvidenceResult := {
  er_failed_assertions : list string;
  er_failed_thresholds : list string;
  er_quality : option Z;
  er_latency_ms : option Z;
  er_cost_micros : option Z;
  er_status : EvalStatus;
}.

Definition evaluate_evidence (thresholds : jobject) (deterministic_assertions : list string) (evidence : jobject)
    : option EvidenceResult :=
  let assertion_values := section_of "assertions" evidence in
  let metric_values := section_of "metrics" evidence in
  let failed_assertions := filter (λ a, is_true (assertion_values !! a) = false) deterministic_assertions in
  quality ← number (metric_values !! "quality");
  latency_ms ← number (metric_values !! "latency_ms");
  cost_micros ← number (metric_values !! "cost_micros");
  q ← misses float_ltb quality (thresholds !! "quality_min");
  l ← misses (λ m t, float_ltb t m) latency_ms (thresholds !! "latency_ms_max");
  c ← misses (λ m t, float_ltb t m) cost_micros (thresholds !! "cost_micros_max");
  let failures := (if (q : bool) then ["QUALITY_THRESHOLD"] else []) ++ (if (l : bool) then ["LATENCY_THRESHOLD"] else [])
                  ++ (if (c : bool) then ["COST_THRESHOLD"] else []) in
  Some {| er_failed_assertions := failed_assertions; er_failed_thresholds := failures; er_quality := quality;
          er_latency_ms := latency_ms; er_cost_micros := cost_micros;
          er_status := if bool_decide (failed_assertions = []) && bool_decide (failures = [])
                       then EVAL_PASSED else EVAL_FAILED |}.

Definition result_json (r : EvidenceResult) : json :=
  JObj (obj [("failed_assertions", texts (er_failed_assertions r)); ("failed_thresholds", texts (er_failed_thresholds r));
    ("metrics", JObj (obj [("quality", nullable JFloat (er_quality r)); ("latency_ms", nullable JFloat (er_latency_ms r));
                           ("cost_micros", nullable JFloat (er_cost_micros r))]));
    ("status", JStr (eval_status_text (er_status r)))]).

(** [CAST(json.dumps(value) AS jsonb)] refuses the infinities and not-a-number. *)
Fixpoint jsonb_ok (j : json) : bool :=
  match j with
  | JFloat bits => is_finite (float_of_bits bits)
  | JArr l => foldr andb true (jsonb_ok <$> l)
  | JObj m => map_fold (λ _ (b acc : bool), b && acc) true (jsonb_ok <$> m)
  | _ => true
  end.

(** ** [production_eval_gate_error] *)
Definition production_runs (t application_id release_id : uuid) (s : ReleaseDb) : list (uuid * EvalRunRow) :=
  filter (λ ir : uuid * EvalRunRow, ru_application_id ir.2 = application_id ∧ ru_release_id ir.2 = release_id
                                    ∧ ru_environment ir.2 = PRODUCTION) (tenant_rows t (rd_runs s)).
Definition production_eval_gate_error (t application_id release_id : uuid) (s : ReleaseDb) : option string :=
  match latest (λ ir : uuid * EvalRunRow, [ru_created_at ir.2; ir.1]) (production_runs t application_id release_id s) with
  | None => Some "EVAL_RUN_REQUIRED"
  | Some (_, run) => if bool_decide (ru_status run = EVAL_PASSED) then None else Some "EVAL_RUN_FAILED"
  end.

(** ** What a decision means *)

(** Evidence that meets a suite: every assertion is true, and every metric is a number on
    the right side of its threshold. *)
Definition on_side (le : pyfloat → pyfloat → bool) (metric limit : option json) : Prop :=
  ∃ m l, number metric = Some (Some m) ∧ threshold limit = Some l ∧ le (float_of_bits m) (float_of_bits l) = true.
Record evidence_meets (thresholds : jobject) (assertions : list string) (evidence : jobject) : Prop := {
  em_assertions : ∀ a, a ∈ assertions → section_of "assertions" evidence !! a = Some (JBool true);
  em_quality : on_side (λ m l, float_leb l m) (section_of "metrics" evidence !! "quality") (thresholds !! "quality_min");
  em_latency : on_side float_leb (section_of "metrics" evidence !! "latency_ms") (thresholds !! "latency_ms_max");
  em_cost : on_side float_leb (section_of "metrics" evidence !! "cost_micros") (thresholds !! "cost_micros_max");
}.

Lemma jsonb_ok_lookup m k j : jsonb_ok (JObj m) = true → m !! k = Some j → jsonb_ok j = true.
Proof.
  simpl. intros Hall Hk. assert (∀ m' : gmap string bool, map_fold (λ _ (b acc : bool), b && acc) true m' = true →
    ∀ k b, m' !! k = Some b → b = true) as Hfold.
  { clear. intros m'. apply (map_fold_weak_ind (λ r m', r = true → ∀ k b, m' !! k = Some b → b = true)).
    - intros _ k b. by rewrite lookup_empty.
    - intros i x m'' r Hi IH [Hx Hr]%andb_true_iff k b. destruct (decide (k = i)) as [->|].
      + rewrite lookup_insert_eq. by intros [= <-].
      + rewrite lookup_insert_ne by done. eauto. }
  eapply (Hfold _ Hall k). by rewrite lookup_fmap, Hk.
Qed.

Lemma number_finite m k b : jsonb_ok (JObj m) = true → number (m !! k) = Some (Some b) → is_finite (float_of_bits b) = true.
Proof.
  intros Hok. destruct (m !! k) as [[| |n|bits| | |]|] eqn:Hk; unfold number; try discriminate.
  - destruct (bits_of_int n) as [x|] eqn:Hb; cbn [mbind option_bind]; [|discriminate]. intros [= <-].
    exact (bits_of_int_finite _ _ Hb).
  - intros [= <-]. exact (jsonb_ok_lookup _ _ _ Hok Hk).
Qed.
Lemma threshold_finite m k b : jsonb_ok (JObj m) = true → threshold (m !! k) = Some b → is_finite (float_of_bits b) = true.
Proof.
  intros Hok. unfold threshold. destruct (number (m !! k)) as [[x|]|] eqn:Hn; cbn [mbind option_bind];
    [|intros [= <-]; reflexivity|discriminate].
  destruct (float_leb _ _); intros [= <-]; [exact (number_finite _ _ _ Hok Hn)|reflexivity].
Qed.
Lemma section_ok k evidence : jsonb_ok (JObj evidence) = true → jsonb_ok (JObj (section_of k evidence)) = true.
Proof.
  intros Hok. unfold section_of. destruct (evidence !! k) as [[| | | | | |m]|] eqn:Hk; try reflexivity.
  exact (jsonb_ok_lookup _ _ _ Hok Hk).
Qed.

(** With finite numbers, a metric that does not miss its limit is on its side. *)
Lemma misses_on_side exceeds le metrics k limits k' metric b :
  jsonb_ok (JObj metrics) = true → jsonb_ok (JObj limits) = true →
  (∀ x y, is_finite x = true → is_finite y = true → le x y = negb (exceeds x y)) →
  number (metrics !! k) = Some metric → misses exceeds metric (limits !! k') = Some b →
  b = false ↔ on_side le (metrics !! k) (limits !! k').
Proof.
  intros Hm Hl Hle Hn. unfold misses, on_side. destruct metric as [m|].
  - destruct (threshold (limits !! k')) as [l|] eqn:Ht; [|done]. simpl. intros [= <-].
    rewrite <-negb_true_iff, <-Hle by eauto using number_finite, threshold_finite. split; [by exists m, l|].
    intros (m' & l' & Hm' & Hl' & Hon). congruence.
  - intros [= <-]. split; [done|]. intros (m' & l' & Hm' & _). congruence.
Qed.

Lemma passed_iff thresholds assertions evidence r :
  jsonb_ok (JObj evidence) = true → jsonb_ok (JObj thresholds) = true →
  evaluate_evidence thresholds assertions evidence = Some r →
  er_status r = EVAL_PASSED ↔ evidence_meets thresholds assertions evidence.
Proof.
  intros He Ht. unfold evaluate_evidence. set (metrics := section_of "metrics" evidence).
  assert (jsonb_ok (JObj metrics) = true) as Hm by by apply section_ok.
  destruct (number (metrics !! "quality")) as [q|] eqn:Hq; [|done].
  destruct (number (metrics !! "latency_ms")) as [l|] eqn:Hl; [|done].
  destruct (number (metrics !! "cost_micros")) as [c|] eqn:Hc; [|done]. simpl.
  destruct (misses float_ltb q _) as [mq|] eqn:Hmq; [|done].
  destruct (misses _ l _) as [ml|] eqn:Hml; [|done]. destruct (misses _ c _) as [mc|] eqn:Hmc; [|done]. simpl.
  intros [= <-]. simpl.
  eapply (misses_on_side _ (λ m l, float_leb l m)) in Hmq; [|done..|intros x y ? ?; by apply float_leb_finite|done].
  eapply (misses_on_side _ float_leb) in Hml; [|done..|intros x y ? ?; by apply float_leb_finite|done].
  eapply (misses_on_side _ float_leb) in Hmc; [|done..|intros x y ? ?; by apply float_leb_finite|done].
  assert (filter (λ a, is_true (section_of "assertions" evidence !! a) = false) assertions = [] ↔
    ∀ a, a ∈ assertions → section_of "assertions" evidence !! a = Some (JBool true)) as Ha.
  { split.
    - intros Hnil a Hin. destruct (is_true (section_of "assertions" evidence !! a)) eqn:Htrue.
      + destruct (section_of "assertions" evidence !! a) as [[| [] | | | | |]|]; done.
      + assert (a ∈ filter (λ a, is_true (section_of "assertions" evidence !! a) = false) assertions) as Hf
          by by apply list_elem_of_filter. rewrite Hnil in Hf. by apply not_elem_of_nil in Hf.
    - intros Hall. apply filter_none. intros a Hin. by rewrite (Hall a Hin). }
  assert ((if bool_decide (filter (λ a, is_true (section_of "assertions" evidence !! a) = false) assertions = [])
      && bool_decide ((if mq then ["QUALITY_THRESHOLD"] else []) ++ (if ml then ["LATENCY_THRESHOLD"] else [])
                      ++ (if mc then ["COST_THRESHOLD"] else []) = []) then EVAL_PASSED else EVAL_FAILED) = EVAL_PASSED ↔
    filter (λ a, is_true (section_of "assertions" evidence !! a) = false) assertions = [] ∧
    mq = false ∧ ml = false ∧ mc = false) as ->.
  { case_bool_decide; destruct mq, ml, mc; simpl; naive_solver. }
  rewrite Ha, Hmq, Hml, Hmc. split; [by intros (? & ? & ? & ?)|by intros []].
Qed.
