(* ===== verification/AgentReleases.v ===== *)
(** * Agent releases and deployments (admin_api/agents.py)

    Publishing a draft with snapshots of the model profiles it names, deploying a release
    to an environment, the second person's approval of a production deployment, and the
    rollback of the deployment in force.  The deployment in force is the one activated
    last among those that are active. *)

From S2P Require Import Prelude PyNum Evaluations Uuids ExecutionBus ToolRegistry AuditChain AdminAccess Interleave PyRegex Governance PolicyBundles Pagination LlmGateway GatewayAdapters AgentDrafts ModelProfiles.
Open Scope string_scope.
Open Scope list_scope.
Open Scope Z_scope.

(** ** Snapshots *)
Definition profile_snapshot (t : uuid) (alias : string) (r : StoredProfile) : ModelProfile :=
  let c := mf_profile r in
  {| mo_tenant_id := uuid_text t; mo_alias := alias; mo_provider_model := mr_provider_model c;
     mo_endpoint_url := mr_endpoint_url c; mo_secret_ref := mr_secret_ref c;
     mo_data_classification := mr_data_classification c; mo_region := mr_region c;
     mo_fallback_aliases := mr_fallback_aliases c; mo_requests_per_minute := mr_requests_per_minute c |}.
Definition snapshot_json (m : ModelProfile) : json :=
  JObj (obj [("tenant_id", JStr (mo_tenant_id m)); ("alias", JStr (mo_alias m));
    ("provider_model", JStr (mo_provider_model m)); ("endpoint_url", JStr (mo_endpoint_url m));
    ("secret_ref", JStr (mo_secret_ref m)); ("data_classification", classification_json (mo_data_classification m));
    ("region", JStr (mo_region m)); ("fallback_aliases", texts (mo_fallback_aliases m));
    ("requests_per_minute", JNum (mo_requests_per_minute m))]).
Definition draft_snapshot (d : DraftRow) : jobject :=
  obj [("instructions", JStr (df_instructions d)); ("model_alias", JStr (df_model_alias d));
    ("tool_aliases", texts (df_tool_aliases d)); ("knowledge_refs", texts (df_knowledge_refs d));
    ("governance_policy_ref", nullable JStr (df_governance_policy_ref d)); ("version", JNum (df_version d))].

(** [AgentReleaseCreate] *)
Record ReleaseCreate := {
  rc_data_classification : DataClassification;
  rc_region : string;
  rc_fallback_aliases : list string;
}.
Definition release_create_ok (c : ReleaseCreate) : bool :=
  is_region (rc_region c) && fallbacks_ok (rc_fallback_aliases c).

(** The document that the content hash of a release covers. *)
Definition release_content (snapshot : jobject) (c : DataClassification) (region : string)
    (fallback_aliases : list string) (profiles : list ModelProfile) : json :=
  JObj (obj [("draft", JObj snapshot); ("data_classification", classification_json c); ("region", JStr region);
    ("fallback_aliases", texts fallback_aliases); ("model_profiles", JArr (snapshot_json <$> profiles))]).

(** [_release_response] *)
Definition release_json (t id : uuid) (r : AgentRelease) : json :=
  JObj (obj [("id", identifier id); ("tenant_id", identifier t); ("application_id", identifier (rel_application_id r));
    ("version", JNum (rel_version r)); ("model_alias", JStr (rel_model_alias r));
    ("data_classification", classification_json (rel_data_classification r)); ("region", JStr (rel_region r));
    ("fallback_aliases", texts (rel_fallback_aliases r));
    ("model_profiles", JArr (snapshot_json <$> rel_model_profiles r));
    ("source", JObj (obj [("draft_version", nullable JNum (rel_source_draft_version r));
                          ("actor", JStr (rel_source_actor r)); ("kind", JStr (source_kind_text (rel_source_kind r)))]));
    ("draft_snapshot", JObj (rel_draft_snapshot r)); ("content_hash", JStr (rel_content_hash r));
    ("created_at", moment (rel_created_at r))]).

Definition application_releases (t application_id : uuid) (s : ReleaseDb) : list (uuid * AgentRelease) :=
  filter (λ ir : uuid * AgentRelease, rel_application_id ir.2 = application_id) (tenant_rows t (rd_releases s)).
(** [coalesce(max(release_version), 0) + 1] *)
Definition next_release_version (t application_id : uuid) (s : ReleaseDb) : Z :=
  foldr Z.max 0 ((λ ir : uuid * AgentRelease, rel_version ir.2) <$> application_releases t application_id s) + 1.

(** ** Deployments in force *)
Definition active_deployments (t application_id : uuid) (e : DeploymentEnvironment) (s : ReleaseDb)
    : list (uuid * DeploymentRow) :=
  filter (λ d : uuid * DeploymentRow, dp_application_id d.2 = application_id ∧ dp_environment d.2 = e
                                      ∧ dp_status d.2 = DEP_ACTIVE) (tenant_rows t (rd_deployments s)).
(** [ORDER BY activated_at DESC, id DESC], where a missing time comes first. *)
Definition activation_key (d : uuid * DeploymentRow) : list Z :=
  match dp_activated_at d.2 with Some at_ => [0; at_; d.1] | None => [1; 0; d.1] end.
Definition current_deployment (t application_id : uuid) (e : DeploymentEnvironment) (s : ReleaseDb)
    : option (uuid * DeploymentRow) := latest activation_key (active_deployments t application_id e s).

Definition deployment_json (t id : uuid) (d : DeploymentRow) : json :=
  JObj (obj [("id", identifier id); ("tenant_id", identifier t); ("application_id", identifier (dp_application_id d));
    ("environment", JStr (environment_text (dp_environment d))); ("release_id", identifier (dp_release_id d));
    ("previous_release_id", nullable identifier (dp_previous_release_id d));
    ("rollout_percentage", JNum (dp_rollout_percentage d));
    ("status", JStr (deployment_status_text (dp_status d))); ("initiator", JStr (dp_initiator d));
    ("approver", nullable JStr (dp_approver d)); ("version", JNum (dp_version d));
    ("created_at", moment (dp_created_at d)); ("activated_at", nullable moment (dp_activated_at d))]).

(** [AgentDeploymentCreate] *)
Record DeploymentCreate := { nd_environment : DeploymentEnvironment; nd_release_id : uuid; nd_rollout_percentage : Z }.
Definition deployment_create_ok (c : DeploymentCreate) : bool :=
  (1 <=? nd_rollout_percentage c) && (nd_rollout_percentage c <=? 100).

(** The row of a new deployment after [current]; in production it waits for approval. *)
Definition new_deployment (now : instant) (application_id : uuid) (e : DeploymentEnvironment) (release_id : uuid)
    (current : option (uuid * DeploymentRow)) (rollout_percentage : Z) (initiator : string) : DeploymentRow :=
  let pending := bool_decide (e = PRODUCTION) in
  {| dp_application_id := application_id; dp_environment := e; dp_release_id := release_id;
     dp_previous_release_id := (λ c : uuid * DeploymentRow, dp_release_id c.2) <$> current;
     dp_previous_deployment_id := fst <$> current;
     dp_previous_deployment_version := (λ c : uuid * DeploymentRow, dp_version c.2) <$> current;
     dp_rollout_percentage := rollout_percentage;
     dp_status := if pending then DEP_PENDING_APPROVAL else DEP_ACTIVE; dp_initiator := initiator;
     dp_approver := None;
     dp_version := match current with Some c => dp_version c.2 + 1 | None => 1 end;
     dp_created_at := now; dp_activated_at := if pending then None else Some now; dp_halted_at := None;
     dp_halt_reason := None |}.

(** 202 for a deployment that waits for approval. *)
Definition deployment_status_code (body : json) : Z :=
  match body with
  | JObj m => match m !! "status" with
              | Some (JStr st) => if bool_decide (st = "PENDING_APPROVAL") then 202 else 201
              | _ => 201
              end
  | _ => 201
  end.
Section Releases.
Context (sha256_hex : string → string) (dumps : json → string) (uuid_at : nat → uuid).
(** The serialisation with sorted keys that content hashes are taken of. *)
Context (canonical : json → string).

Definition application_row (t application_id : uuid) : REL ApplicationRow :=
  found ← gets (λ s, rd_applications s !! (t, application_id));
  get_or_raise found (Http 404 "Agent application not found").

(** The profiles of the fallbacks, one after the other. *)
Definition fallback_profiles (t : uuid) (aliases : list string) : REL (list ModelProfile) :=
  map_each (λ alias,
    found ← gets (λ s, rd_profiles s !! (t, alias));
    r ← get_or_raise found (Http 409 "Fallback model profile does not exist");
    mret (profile_snapshot t alias r)) aliases.

(** The constraints of [tenant.agent_release] that the checks above do not establish. *)
Definition insert_release (t id : uuid) (row : AgentRelease) : REL unit :=
  fresh ← gets (λ s, bool_decide (rd_releases s !! (t, id) = None)
    && bool_decide (Forall (λ ir : uuid * AgentRelease, rel_version ir.2 ≠ rel_version row)
                      (application_releases t (rel_application_id row) s)));
  _ ← ensure (fresh && is_slug (rel_model_alias row) && is_signature (rel_content_hash row)
              && match rel_source_draft_version row with Some v => 1 <=? v | None => false end) IntegrityError;
  modify (set_releases <[(t, id) := row]>).

Definition publish_body (now : instant) (p : AdminPrincipal) (t application_id release_id : uuid)
    (payload : ReleaseCreate) : REL CommandResult :=
  _ ← application_row t application_id;
  found ← gets (λ s, rd_drafts s !! (t, application_id));
  draft ← get_or_raise found (Http 409 "Agent Draft with model alias is required");
  _ ← ensure (negb (bool_decide (df_model_alias draft = ""))) (Http 409 "Agent Draft with model alias is required");
  _ ← ensure (bool_decide (length (validate_draft_configuration draft) = 0%nat))
        (Http 409 "Agent Draft validation is required");
  found ← gets (λ s, rd_profiles s !! (t, df_model_alias draft));
  profile ← get_or_raise found (Http 409 "Draft model profile does not exist");
  _ ← ensure (forallb (λ a, bool_decide (a ∈ mr_fallback_aliases (mf_profile profile))) (rc_fallback_aliases payload))
        (Http 422 "Release fallback is not configured on model profile");
  fallbacks ← fallback_profiles t (rc_fallback_aliases payload);
  let profiles := profile_snapshot t (df_model_alias draft) profile :: fallbacks in
  let snapshot := draft_snapshot draft in
  let content_hash := sha256_hex (canonical (release_content snapshot (rc_data_classification payload)
                        (rc_region payload) (rc_fallback_aliases payload) profiles)) in
  version ← gets (next_release_version t application_id);
  _ ← ensure (int4 version) DataError;
  let row := {| rel_application_id := application_id; rel_version := version;
                rel_model_alias := df_model_alias draft;
                rel_data_classification := rc_data_classification payload; rel_region := rc_region payload;
                rel_fallback_aliases := rc_fallback_aliases payload; rel_model_profiles := profiles;
                rel_source_draft_version := Some (df_version draft); rel_source_actor := ap_subject p;
                rel_source_kind := SRC_DRAFT; rel_draft_snapshot := snapshot; rel_content_hash := content_hash;
                rel_created_at := now |} in
  _ ← insert_release t release_id row;
  mret {| cr_result := release_json t release_id row; cr_target_type := "agent_release";
          cr_target_id := uuid_text release_id;
          cr_details := obj [("application_id", identifier application_id); ("draft_version", JNum (df_version draft));
                             ("content_hash", JStr content_hash); ("fallback_used", JBool false)] |}.

Definition publish_release (f1 f2 : txn_fault) (now : instant) (p : AdminPrincipal) (t application_id : uuid)
    (payload : ReleaseCreate) (key : string) : REL Reply :=
  _ ← body_valid (release_create_ok payload);
  _ ← rel_access sha256_hex dumps uuid_at f1 now p t WriteAccess "agent_release.publish" "agent_application"
        (Some (uuid_text application_id));
  release_id ← rel_draw uuid_at;
  r ← command sha256_hex dumps uuid_at f2 now p t key "agent_release.publish"
    (obj [("tenant_id", identifier t); ("application_id", identifier application_id);
          ("data_classification", classification_json (rc_data_classification payload));
          ("region", JStr (rc_region payload)); ("fallback_aliases", texts (rc_fallback_aliases payload))])
    (publish_body now p t application_id release_id payload);
  mret {| rp_status := 201; rp_body := r.1; rp_etag := None; rp_replayed := false |}.

Definition list_releases (fault : txn_fault) (now : instant) (p : AdminPrincipal) (t application_id : uuid)
    (limit : Z) (cursor : option string) : REL json :=
  listing sha256_hex dumps uuid_at fault now p t "agent_release.list" "agent_application"
    (Some (uuid_text application_id)) limit cursor (application_releases t application_id) (release_json t).

(** ** Deployments *)
Definition release_of (t application_id release_id : uuid) : REL AgentRelease :=
  found ← gets (λ s, rd_releases s !! (t, release_id));
  row ← get_or_raise found (Http 404 "Agent Release not found");
  _ ← ensure (bool_decide (rel_application_id row = application_id)) (Http 404 "Agent Release not found");
  mret row.

(** The constraints of [tenant.agent_deployment]. *)
Definition insert_deployment (t id : uuid) (row : DeploymentRow) : REL unit :=
  fresh ← gets (λ s, bool_decide (rd_deployments s !! (t, id) = None));
  _ ← ensure (int4 (dp_version row)) DataError;
  _ ← ensure (fresh && match dp_previous_deployment_version row with Some v => 1 <=? v | None => true end) IntegrityError;
  modify (set_deployments <[(t, id) := row]>).

Definition create_deployment_body (now : instant) (p : AdminPrincipal) (t application_id deployment_id : uuid)
    (payload : DeploymentCreate) (expected : option Z) : REL CommandResult :=
  _ ← application_row t application_id;
  _ ← release_of t application_id (nd_release_id payload);
  let pending := bool_decide (nd_environment payload = PRODUCTION) in
  current ← gets (current_deployment t application_id (nd_environment payload));
  _ ← match current, pending, expected with
      | Some _, false, None => raise (Http 428 "If-Match is required to replace an active Deployment")
      | Some c, false, Some v => ensure (dp_version c.2 =? v) (Http 412 "Agent Deployment pointer changed")
      | _, _, _ => mret tt
      end;
  _ ← match current with
      | Some c => ensure (negb (dp_release_id c.2 =? nd_release_id payload)) (Http 409 "Agent Release is already active")
      | None => ensure (nd_rollout_percentage payload =? 100)
                  (Http 409 "initial Deployment must route 100 percent of Sessions")
      end;
  let row := new_deployment now application_id (nd_environment payload) (nd_release_id payload) current
               (nd_rollout_percentage payload) (ap_subject p) in
  _ ← insert_deployment t deployment_id row;
  mret {| cr_result := deployment_json t deployment_id row; cr_target_type := "agent_deployment";
          cr_target_id := uuid_text deployment_id;
          cr_details := obj [("environment", JStr (environment_text (nd_environment payload)));
            ("release_id", identifier (nd_release_id payload));
            ("previous_release_id", nullable identifier (dp_previous_release_id row));
            ("rollout_percentage", JNum (nd_rollout_percentage payload));
            ("status", JStr (deployment_status_text (dp_status row)))] |}.

Definition create_deployment (f1 f2 : txn_fault) (now : instant) (p : AdminPrincipal) (t application_id : uuid)
    (payload : DeploymentCreate) (key : string) (if_match : option string) : REL Reply :=
  _ ← body_valid (deployment_create_ok payload);
  _ ← rel_access sha256_hex dumps uuid_at f1 now p t WriteAccess "agent_deployment.create" "agent_application"
        (Some (uuid_text application_id));
  expected ← match if_match with None => mret None | Some h => v ← if_match_version h; mret (Some v) end;
  deployment_id ← rel_draw uuid_at;
  r ← command sha256_hex dumps uuid_at f2 now p t key "agent_deployment.create"
    (obj [("tenant_id", identifier t); ("application_id", identifier application_id);
          ("expected_version", nullable JNum expected);
          ("environment", JStr (environment_text (nd_environment payload)));
          ("release_id", identifier (nd_release_id payload));
          ("rollout_percentage", JNum (nd_rollout_percentage payload))])
    (create_deployment_body now p t application_id deployment_id payload expected);
  versioned_reply deployment_status_code "version" r.

Definition list_deployments (fault : txn_fault) (now : instant) (p : AdminPrincipal) (t application_id : uuid)
    (limit : Z) (cursor : option string) : REL json :=
  listing sha256_hex dumps uuid_at fault now p t "agent_deployment.list" "agent_application"
    (Some (uuid_text application_id)) limit cursor
    (λ s, filter (λ d : uuid * DeploymentRow, dp_application_id d.2 = application_id) (tenant_rows t (rd_deployments s)))
    (deployment_json t).

Definition approved_deployment (now : instant) (approver : string) (d : DeploymentRow) : DeploymentRow :=
  {| dp_application_id := dp_application_id d; dp_environment := dp_environment d; dp_release_id := dp_release_id d;
     dp_previous_release_id := dp_previous_release_id d; dp_previous_deployment_id := dp_previous_deployment_id d;
     dp_previous_deployment_version := dp_previous_deployment_version d;
     dp_rollout_percentage := dp_rollout_percentage d; dp_status := DEP_ACTIVE; dp_initiator := dp_initiator d;
     dp_approver := Some approver; dp_version := dp_version d + 1; dp_created_at := dp_created_at d;
     dp_activated_at := Some now; dp_halted_at := dp_halted_at d; dp_halt_reason := dp_halt_reason d |}.

(** The deployment of an application, or status 404. *)
Definition deployment_of (t application_id deployment_id : uuid) : REL DeploymentRow :=
  found ← gets (λ s, rd_deployments s !! (t, deployment_id));
  row ← get_or_raise found (Http 404 "Agent Deployment not found");
  _ ← ensure (bool_decide (dp_application_id row = application_id)) (Http 404 "Agent Deployment not found");
  mret row.

Definition approve_body (now : instant) (p : AdminPrincipal) (t application_id deployment_id : uuid) (expected : Z)
    : REL CommandResult :=
  _ ← application_row t application_id;
  d ← deployment_of t application_id deployment_id;
  _ ← ensure (dp_version d =? expected) (Http 412 "Agent Deployment version changed");
  _ ← ensure (bool_decide (dp_status d = DEP_PENDING_APPROVAL)) (Http 409 "Agent Deployment is not pending approval");
  _ ← ensure (negb (bool_decide (dp_initiator d = ap_subject p))) (Http 409 "Deployment initiator cannot approve it");
  gate ← gets (production_eval_gate_error t application_id (dp_release_id d));
  _ ← match gate with Some detail => raise (Http 409 detail) | None => mret tt end;
  current ← gets (current_deployment t application_id PRODUCTION);
  _ ← ensure (bool_decide ((fst <$> current, (λ c : uuid * DeploymentRow, dp_version c.2) <$> current)
                           = (dp_previous_deployment_id d, dp_previous_deployment_version d)))
        (Http 412 "Agent Deployment pointer changed");
  let row := approved_deployment now (ap_subject p) d in
  _ ← ensure (int4 (dp_version row)) DataError;
  _ ← modify (set_deployments <[(t, deployment_id) := row]>);
  mret {| cr_result := deployment_json t deployment_id row; cr_target_type := "agent_deployment";
          cr_target_id := uuid_text deployment_id;
          cr_details := obj [("initiator", JStr (dp_initiator d)); ("environment", JStr "PRODUCTION")] |}.

Definition approve_deployment (f1 f2 : txn_fault) (now : instant) (p : AdminPrincipal)
    (t application_id deployment_id : uuid) (key if_match : string) : REL Reply :=
  _ ← rel_access sha256_hex dumps uuid_at f1 now p t WriteAccess "agent_deployment.approve" "agent_deployment"
        (Some (uuid_text deployment_id));
  expected ← if_match_version if_match;
  r ← command sha256_hex dumps uuid_at f2 now p t key "agent_deployment.approve"
    (obj [("tenant_id", identifier t); ("application_id", identifier application_id);
          ("deployment_id", identifier deployment_id); ("expected_version", JNum expected)])
    (approve_body now p t application_id deployment_id expected);
  versioned_reply (λ _, 200) "version" r.

Definition rollback_body (now : instant) (p : AdminPrincipal) (t application_id deployment_id rollback_id release_id : uuid)
    (expected : Z) : REL CommandResult :=
  _ ← application_row t application_id;
  source ← deployment_of t application_id deployment_id;
  _ ← release_of t application_id release_id;
  current ← gets (current_deployment t application_id (dp_environment source));
  _ ← ensure (match current with Some c => (c.1 =? deployment_id) && (dp_version c.2 =? expected) | None => false end)
        (Http 412 "Agent Deployment pointer changed");
  let row := new_deployment now application_id (dp_environment source) release_id current 100 (ap_subject p) in
  _ ← insert_deployment t rollback_id row;
  mret {| cr_result := deployment_json t rollback_id row; cr_target_type := "agent_deployment";
          cr_target_id := uuid_text rollback_id;
          cr_details := obj [("environment", JStr (environment_text (dp_environment source)));
            ("release_id", identifier release_id);
            ("previous_release_id", nullable identifier (dp_previous_release_id row));
            ("status", JStr (deployment_status_text (dp_status row)))] |}.

Definition rollback_deployment (f1 f2 : txn_fault) (now : instant) (p : AdminPrincipal)
    (t application_id deployment_id release_id : uuid) (key if_match : string) : REL Reply :=
  _ ← rel_access sha256_hex dumps uuid_at f1 now p t WriteAccess "agent_deployment.rollback" "agent_deployment"
        (Some (uuid_text deployment_id));
  expected ← if_match_version if_match;
  rollback_id ← rel_draw uuid_at;
  r ← command sha256_hex dumps uuid_at f2 now p t key "agent_deployment.rollback"
    (obj [("tenant_id", identifier t); ("application_id", identifier application_id);
          ("deployment_id", identifier deployment_id); ("expected_version", JNum expected);
          ("release_id", identifier release_id)])
    (rollback_body now p t application_id deployment_id rollback_id release_id expected);
  versioned_reply deployment_status_code "version" r.
End Releases.
