(* ===== verification/EvalSuites.v ===== *)
(** * Evaluation suites, runs and canary observations (admin_api/evals.py)

    Versioned suites, the runs that turn evidence into a stored decision with a snapshot of
    everything the release depends on, and the observations that halt a production
    deployment whose metrics miss the thresholds. *)

From S2P Require Import Prelude PyNum Evaluations Uuids ExecutionBus ToolRegistry AuditChain AdminAccess Interleave PyRegex Governance PolicyBundles Pagination LlmGateway GatewayAdapters AgentDrafts ModelProfiles AgentReleases.
Open Scope string_scope.
Open Scope list_scope.
Open Scope Z_scope.

Definition TRPC_AGENT_VERSION : string := "1.1.19".

(** ** Payloads *)
Definition EvalAssertion : list string := ["NO_CROSS_TENANT_LEAK"; "NO_SECRET_LEAK"; "NO_DISABLED_TOOL"].
Definition is_number (j : json) : bool := match j with JNum _ | JFloat _ => true | _ => false end.
Definition numbers (m : jobject) : bool := bool_decide (map_Forall (λ _ j, is_number j = true) m).
Definition between_sizes {A} (l : list A) : bool := (1 <=? length l)%nat && (length l <=? 20)%nat.

Record EvalSuiteCreate := {
  ec_slug : string;
  ec_dataset : gmap string string;
  ec_scorers : list jobject;
  ec_thresholds : jobject;
  ec_assertions : list string;
}.
Definition suite_create_ok (c : EvalSuiteCreate) : bool :=
  is_slug (ec_slug c) && between_sizes (ec_scorers c)
  && (1 <=? size (ec_thresholds c))%nat && numbers (ec_thresholds c)
  && between_sizes (ec_assertions c) && forallb (λ a, bool_decide (a ∈ EvalAssertion)) (ec_assertions c).
Record EvalRunCreate := {
  er_suite_id : uuid;
  er_release_id : uuid;
  er_environment : DeploymentEnvironment;
  er_evidence : jobject;
}.
Definition run_create_ok (c : EvalRunCreate) : bool := (1 <=? size (er_evidence c))%nat.
Record ObservationCreate := { eo_eval_run_id : uuid; eo_metrics : jobject }.
Definition observation_create_ok (c : ObservationCreate) : bool :=
  (1 <=? size (eo_metrics c))%nat && numbers (eo_metrics c).

Definition suite_content (c : EvalSuiteCreate) : list (string * json) :=
  [("slug", JStr (ec_slug c)); ("dataset", JObj (JStr <$> ec_dataset c)); ("scorers", JArr (JObj <$> ec_scorers c));
   ("thresholds", JObj (ec_thresholds c)); ("deterministic_assertions", texts (ec_assertions c))].

(** ** Rows as answers *)

(** [_suite_response] *)
Definition suite_json (t id : uuid) (r : EvalSuiteRow) : json :=
  JObj (obj [("id", identifier id); ("tenant_id", identifier t); ("application_id", identifier (su_application_id r));
    ("slug", JStr (su_slug r)); ("version", JNum (su_version r)); ("dataset", su_dataset r); ("scorers", su_scorers r);
    ("thresholds", JObj (su_thresholds r)); ("deterministic_assertions", texts (su_assertions r));
    ("content_hash", JStr (su_content_hash r)); ("created_at", moment (su_created_at r))]).
(** [_run_response] *)
Definition run_json (t id : uuid) (r : EvalRunRow) : json :=
  JObj (obj [("id", identifier id); ("tenant_id", identifier t); ("application_id", identifier (ru_application_id r));
    ("suite_id", identifier (ru_suite_id r)); ("release_id", identifier (ru_release_id r));
    ("environment", JStr (environment_text (ru_environment r))); ("sdk_version", JStr (ru_sdk_version r));
    ("dependency_snapshot", ru_dependency_snapshot r); ("results", ru_results r);
    ("status", JStr (eval_status_text (ru_status r))); ("content_hash", JStr (ru_content_hash r));
    ("created_at", moment (ru_created_at r))]).
Definition decision_text (halted : bool) : string := if halted then "HALTED" else "CONTINUE".
Definition observation_json (t id : uuid) (o : ObservationRow) : json :=
  JObj (obj [("id", identifier id); ("tenant_id", identifier t); ("deployment_id", identifier (ob_deployment_id o));
    ("eval_run_id", identifier (ob_eval_run_id o)); ("metrics", JObj (ob_metrics o));
    ("decision", JStr (decision_text (ob_halted o))); ("created_at", moment (ob_created_at o))]).

Section Evals.
Context (sha256_hex : string → string) (dumps : json → string) (uuid_at : nat → uuid).
Context (canonical : json → string) (py_repr : json → string).

(** ** [_dependency_snapshot] *)

(** [[str(item) for item in snapshot.get(k, [])]]; the column holds an array or nothing. *)
Definition snapshot_texts (k : string) (snapshot : jobject) : REL (list string) :=
  match snapshot !! k with
  | None => mret []
  | Some (JArr l) => mret (py_str py_repr <$> l)
  | Some _ => raise AdminAssert
  end.

(** The newest version of a tool. *)
Definition tool_version (t : uuid) (name : string) (s : ReleaseDb) : option Z :=
  match omap (λ kd : tool_key * ToolDefinition,
          if bool_decide (kd.1.1.1 = t ∧ kd.1.1.2 = name) then Some kd.1.2 else None) (map_to_list (rd_tools s)) with
  | [] => None
  | v :: l => Some (foldr Z.max v l)
  end.

(** [{str(row["id"]): row}] of the revisions among [ids]. *)
Definition revision_table (t : uuid) (ids : list uuid) (s : ReleaseDb) : gmap string (Z * string) :=
  list_to_map (omap (λ u, row ← rd_revisions s !! (t, u); Some (uuid_text u, row)) ids).

Definition dependency_snapshot (t : uuid) (release : AgentRelease) (suite : EvalSuiteRow) : REL json :=
  tool_aliases ← snapshot_texts "tool_aliases" (rel_draft_snapshot release);
  s ← get;
  let policies := filter (λ vr : Z * BundleRow, in_force vr.2 = true)
                    (tenant_bundles t {| pd_admin := rd_admin s; pd_bundles := rd_bundles s |}) in
  knowledge_refs ← snapshot_texts "knowledge_refs" (rel_draft_snapshot release);
  let revisions := revision_table t (omap parse_uuid knowledge_refs) s in
  mret (JObj (obj [("sdk_version", JStr TRPC_AGENT_VERSION);
    ("release_content_hash", JStr (rel_content_hash release)); ("suite_content_hash", JStr (su_content_hash suite));
    ("models", JArr (snapshot_json <$> rel_model_profiles release)); ("knowledge", texts knowledge_refs);
    ("knowledge_versions", JArr (omap (λ reference,
       row ← revisions !! reference;
       Some (JObj (obj [("reference", JStr reference); ("revision_version", JNum row.1);
                        ("content_hash", JStr row.2)]))) knowledge_refs));
    ("tools", texts tool_aliases);
    ("tool_versions", JArr ((λ alias, JObj (obj [("name", JStr alias);
                                                 ("version", nullable JNum (tool_version t alias s))])) <$> tool_aliases));
    ("policy", default JNull (rel_draft_snapshot release !! "governance_policy_ref"));
    ("policy_versions", JArr ((λ vr : Z * BundleRow, JObj (obj [("version", JNum vr.1);
       ("status", JStr (bundle_status_text (pb_status vr.2)))])) <$> policies))])).

(** ** [create_eval_suite] *)
Definition application_suites (t application_id : uuid) (slug : string) (s : ReleaseDb) : list (uuid * EvalSuiteRow) :=
  filter (λ ir : uuid * EvalSuiteRow, su_application_id ir.2 = application_id ∧ su_slug ir.2 = slug)
    (tenant_rows t (rd_suites s)).
Definition next_suite_version (t application_id : uuid) (slug : string) (s : ReleaseDb) : Z :=
  foldr Z.max 0 ((λ ir : uuid * EvalSuiteRow, su_version ir.2) <$> application_suites t application_id slug s) + 1.

(** The columns of a new row that a cast or a check can refuse. *)
Definition documents_ok (docs : list json) : REL unit := ensure (forallb jsonb_ok docs) DataError.
Definition author_ok (content_hash created_by : string) : REL unit :=
  ensure (is_signature content_hash && length_between 1 256 created_by) IntegrityError.

Definition create_eval_suite (f1 f2 : txn_fault) (now : instant) (p : AdminPrincipal) (t application_id : uuid)
    (payload : EvalSuiteCreate) (key : string) : REL Reply :=
  _ ← body_valid (suite_create_ok payload);
  _ ← rel_access sha256_hex dumps uuid_at f1 now p t WriteAccess "eval_suite.create" "agent_application"
        (Some (uuid_text application_id));
  let request := obj ([("tenant_id", identifier t); ("application_id", identifier application_id)]
                      ++ suite_content payload) in
  let content_hash := sha256_hex (canonical (JObj request)) in
  r ← command sha256_hex dumps uuid_at f2 now p t key "eval_suite.create" request (
    _ ← application_row t application_id;
    version ← gets (next_suite_version t application_id (ec_slug payload));
    _ ← ensure (int4 version) DataError;
    let row := {| su_application_id := application_id; su_slug := ec_slug payload; su_version := version;
                  su_dataset := JObj (JStr <$> ec_dataset payload); su_scorers := JArr (JObj <$> ec_scorers payload);
                  su_thresholds := ec_thresholds payload; su_assertions := ec_assertions payload;
                  su_content_hash := content_hash; su_created_by := ap_subject p; su_created_at := now |} in
    _ ← documents_ok [su_scorers row; JObj (su_thresholds row)];
    _ ← author_ok content_hash (ap_subject p);
    id ← rel_draw uuid_at;
    fresh ← gets (λ s, bool_decide (rd_suites s !! (t, id) = None));
    _ ← ensure fresh IntegrityError;
    _ ← modify (set_suites <[(t, id) := row]>);
    mret {| cr_result := suite_json t id row; cr_target_type := "eval_suite"; cr_target_id := uuid_text id;
            cr_details := obj [("application_id", identifier application_id); ("content_hash", JStr content_hash)] |});
  mret {| rp_status := 201; rp_body := r.1; rp_etag := None; rp_replayed := false |}.

(** ** [create_eval_run] *)
Definition suite_of (t application_id suite_id : uuid) : REL EvalSuiteRow :=
  found ← gets (λ s, rd_suites s !! (t, suite_id));
  row ← get_or_raise found (Http 404 "Eval Suite not found");
  _ ← ensure (bool_decide (su_application_id row = application_id)) (Http 404 "Eval Suite not found");
  mret row.

Definition eval_run_body (now : instant) (p : AdminPrincipal) (t application_id : uuid) (payload : EvalRunCreate)
    (request : jobject) : REL CommandResult :=
  suite ← suite_of t application_id (er_suite_id payload);
  release ← release_of t application_id (er_release_id payload);
  snapshot ← dependency_snapshot t release suite;
  results ← get_or_raise (evaluate_evidence (su_thresholds suite) (su_assertions suite) (er_evidence payload)) AdminAssert;
  let content_hash := sha256_hex (canonical (JObj (obj [("request", JObj request); ("snapshot", snapshot);
                                                        ("results", result_json results)]))) in
  let row := {| ru_application_id := application_id; ru_suite_id := er_suite_id payload;
                ru_release_id := er_release_id payload; ru_environment := er_environment payload;
                ru_sdk_version := TRPC_AGENT_VERSION; ru_dependency_snapshot := snapshot;
                ru_evidence := er_evidence payload; ru_results := result_json results;
                ru_status := er_status results; ru_content_hash := content_hash; ru_created_by := ap_subject p;
                ru_created_at := now |} in
  _ ← documents_ok [snapshot; JObj (er_evidence payload); result_json results];
  _ ← author_ok content_hash (ap_subject p);
  id ← rel_draw uuid_at;
  fresh ← gets (λ s, bool_decide (rd_runs s !! (t, id) = None));
  _ ← ensure fresh IntegrityError;
  _ ← modify (set_runs <[(t, id) := row]>);
  mret {| cr_result := run_json t id row; cr_target_type := "eval_run"; cr_target_id := uuid_text id;
          cr_details := obj [("release_id", identifier (er_release_id payload));
                             ("status", JStr (eval_status_text (er_status results)))] |}.

Definition create_eval_run (f1 f2 : txn_fault) (now : instant) (p : AdminPrincipal) (t application_id : uuid)
    (payload : EvalRunCreate) (key : string) : REL Reply :=
  _ ← body_valid (run_create_ok payload);
  _ ← rel_access sha256_hex dumps uuid_at f1 now p t WriteAccess "eval_run.create" "agent_application"
        (Some (uuid_text application_id));
  let request := obj [("tenant_id", identifier t); ("application_id", identifier application_id);
    ("suite_id", identifier (er_suite_id payload)); ("release_id", identifier (er_release_id payload));
    ("environment", JStr (environment_text (er_environment payload))); ("evidence", JObj (er_evidence payload))] in
  r ← command sha256_hex dumps uuid_at f2 now p t key "eval_run.create" request
        (eval_run_body now p t application_id payload request);
  mret {| rp_status := 201; rp_body := r.1; rp_etag := None; rp_replayed := false |}.

(** ** [record_eval_canary_observation] *)
Definition halted_deployment (now : instant) (d : DeploymentRow) : DeploymentRow :=
  {| dp_application_id := dp_application_id d; dp_environment := dp_environment d; dp_release_id := dp_release_id d;
     dp_previous_release_id := dp_previous_release_id d; dp_previous_deployment_id := dp_previous_deployment_id d;
     dp_previous_deployment_version := dp_previous_deployment_version d;
     dp_rollout_percentage := dp_rollout_percentage d; dp_status := DEP_HALTED; dp_initiator := dp_initiator d;
     dp_approver := dp_approver d; dp_version := dp_version d + 1; dp_created_at := dp_created_at d;
     dp_activated_at := dp_activated_at d; dp_halted_at := Some now;
     dp_halt_reason := Some "EVAL_CANARY_THRESHOLD_EXCEEDED" |}.

(** The thresholds of the passed production run of the release. *)
Definition passed_run_thresholds (t application_id release_id run_id : uuid) (s : ReleaseDb) : option jobject :=
  run ← rd_runs s !! (t, run_id);
  suite ← rd_suites s !! (t, ru_suite_id run);
  if bool_decide (ru_application_id run = application_id ∧ ru_release_id run = release_id
                  ∧ ru_environment run = PRODUCTION ∧ ru_status run = EVAL_PASSED)
  then Some (su_thresholds suite) else None.

Definition observation_body (now : instant) (p : AdminPrincipal) (t application_id deployment_id : uuid)
    (payload : ObservationCreate) : REL CommandResult :=
  d ← deployment_of t application_id deployment_id;
  _ ← ensure (bool_decide (dp_environment d = PRODUCTION)) (Http 404 "Agent Deployment not found");
  _ ← ensure (bool_decide (dp_status d = DEP_ACTIVE)) (Http 409 "Agent Deployment is not active");
  run ← gets (passed_run_thresholds t application_id (dp_release_id d) (eo_eval_run_id payload));
  thresholds ← get_or_raise run (Http 409 "EVAL_RUN_REQUIRED");
  result ← get_or_raise (evaluate_evidence thresholds [] {["metrics" := JObj (eo_metrics payload)]}) AdminAssert;
  let halted := bool_decide (er_status result = EVAL_FAILED) in
  let row := halted_deployment now d in
  _ ← (if halted then _ ← ensure (int4 (dp_version row)) DataError;
                      modify (set_deployments <[(t, deployment_id) := row]>)
       else mret tt);
  _ ← documents_ok [JObj (eo_metrics payload)];
  _ ← ensure (length_between 1 256 (ap_subject p)) IntegrityError;
  id ← rel_draw uuid_at;
  fresh ← gets (λ s, bool_decide (rd_observations s !! (t, id) = None));
  _ ← ensure fresh IntegrityError;
  let observation := {| ob_deployment_id := deployment_id; ob_eval_run_id := eo_eval_run_id payload;
                        ob_metrics := eo_metrics payload; ob_halted := halted; ob_created_by := ap_subject p;
                        ob_created_at := now |} in
  _ ← modify (set_observations <[(t, id) := observation]>);
  mret {| cr_result := observation_json t id observation; cr_target_type := "agent_deployment";
          cr_target_id := uuid_text deployment_id;
          cr_details := obj [("decision", JStr (decision_text halted));
                             ("eval_run_id", identifier (eo_eval_run_id payload))] |}.

Definition record_eval_canary_observation (f1 f2 : txn_fault) (now : instant) (p : AdminPrincipal)
    (t application_id deployment_id : uuid) (payload : ObservationCreate) (key : string) : REL Reply :=
  _ ← body_valid (observation_create_ok payload);
  _ ← rel_access sha256_hex dumps uuid_at f1 now p t WriteAccess "eval_canary_observation.create" "agent_deployment"
        (Some (uuid_text deployment_id));
  r ← command sha256_hex dumps uuid_at f2 now p t key "eval_canary_observation.create"
    (obj [("tenant_id", identifier t); ("application_id", identifier application_id);
          ("deployment_id", identifier deployment_id); ("eval_run_id", identifier (eo_eval_run_id payload));
          ("metrics", JObj (eo_metrics payload))])
    (observation_body now p t application_id deployment_id payload);
  mret {| rp_status := 201; rp_body := r.1; rp_etag := None; rp_replayed := false |}.
End Evals.
