(* ===== verification/ReleaseProcess.v ===== *)
(** * The release process, abstractly

    What the endpoints do to the tables of the release process: at most one event each,
    whatever they answer and however their transactions end.  An event carries the guard
    under which the code performs it; [erase] forgets what the events do not speak of, the
    ledger and audit tables, the tables of other components and the source of
    identifiers. *)

From S2P Require Import Prelude PyNum Evaluations Uuids ExecutionBus ToolRegistry AuditChain AdminAccess Interleave PyRegex Governance PolicyBundles Pagination LlmGateway GatewayAdapters AgentDrafts ModelProfiles AgentReleases EvalSuites.
Open Scope string_scope.
Open Scope list_scope.
Open Scope Z_scope.

Definition no_admin : AdminDb :=
  {| ad_tenants := ∅; ad_members := []; ad_idempotency := ∅;
     ad_audit := {| au_events := []; au_chain := ∅; au_outbox := []; au_manifests := []; au_worm := [];
                    au_next_id := 0 |} |}.
Definition erase (s : ReleaseDb) : ReleaseDb :=
  {| rd_admin := no_admin; rd_applications := rd_applications s; rd_drafts := rd_drafts s;
     rd_profiles := rd_profiles s; rd_releases := rd_releases s; rd_deployments := rd_deployments s;
     rd_suites := rd_suites s; rd_runs := rd_runs s; rd_observations := rd_observations s;
     rd_tools := ∅; rd_bundles := ∅; rd_revisions := ∅; rd_next_id := 0 |}.
Definition empty_db : ReleaseDb :=
  {| rd_admin := no_admin; rd_applications := ∅; rd_drafts := ∅; rd_profiles := ∅; rd_releases := ∅;
     rd_deployments := ∅; rd_suites := ∅; rd_runs := ∅; rd_observations := ∅; rd_tools := ∅; rd_bundles := ∅;
     rd_revisions := ∅; rd_next_id := 0 |}.

(** ** Events *)
Inductive release_event :=
  | ApplicationSaved (t id : uuid) (row : ApplicationRow)
  | ApplicationDropped (t id : uuid)
  | DraftSaved (t application_id : uuid) (row : DraftRow)
  | DraftDropped (t application_id : uuid)
  | ProfileCreated (t : uuid) (alias : string) (row : StoredProfile)
  | ProfileUpdated (t : uuid) (alias : string) (u : ProfileUpdate) (now : instant)
  | ProfileDropped (t : uuid) (alias : string)
  | Published (t id : uuid) (row : AgentRelease)
  | Deployed (t id : uuid) (row : DeploymentRow)
  | Approved (t id : uuid) (approver : string) (now : instant)
  | SuiteCreated (t id : uuid) (row : EvalSuiteRow)
  | Evaluated (t id : uuid) (row : EvalRunRow)
  | Observed (t id : uuid) (row : ObservationRow).

Definition apply_event (ev : release_event) : ReleaseDb → ReleaseDb :=
  match ev with
  | ApplicationSaved t id row => set_applications <[(t, id) := row]>
  | ApplicationDropped t id => drop_application t id
  | DraftSaved t a row => set_drafts <[(t, a) := row]>
  | DraftDropped t a => set_drafts (delete (t, a))
  | ProfileCreated t alias row => set_profiles <[(t, alias) := row]>
  | ProfileUpdated t alias u now => set_profiles (alter (updated_profile now u) (t, alias))
  | ProfileDropped t alias => set_profiles (delete (t, alias))
  | Published t id row => set_releases <[(t, id) := row]>
  | Deployed t id row => set_deployments <[(t, id) := row]>
  | Approved t id approver now => set_deployments (alter (approved_deployment now approver) (t, id))
  | SuiteCreated t id row => set_suites <[(t, id) := row]>
  | Evaluated t id row => set_runs <[(t, id) := row]>
  | Observed t id row => λ s, set_observations <[(t, id) := row]>
      (if ob_halted row
       then set_deployments (alter (halted_deployment (ob_created_at row)) (t, ob_deployment_id row)) s else s)
  end.

Section Process.
Context (sha256_hex : string → string) (canonical : json → string) (bad_netloc : string → bool).

(** A release made of the draft and the profiles of the moment. *)
Record publishable (s : ReleaseDb) (t id : uuid) (row : AgentRelease) : Prop := {
  pu_new : rd_releases s !! (t, id) = None;
  pu_application : is_Some (rd_applications s !! (t, rel_application_id row));
  pu_draft : ∃ d, rd_drafts s !! (t, rel_application_id row) = Some d ∧ validate_draft_configuration d = [] ∧
    rel_model_alias row = df_model_alias d ∧ rel_draft_snapshot row = draft_snapshot d ∧
    rel_source_draft_version row = Some (df_version d);
  pu_profiles : ∃ first, rd_profiles s !! (t, rel_model_alias row) = Some first ∧
    (∀ a, a ∈ rel_fallback_aliases row → a ∈ mr_fallback_aliases (mf_profile first)) ∧
    Forall2 (λ a m, ∃ r, rd_profiles s !! (t, a) = Some r ∧ m = profile_snapshot t a r)
      (rel_model_alias row :: rel_fallback_aliases row) (rel_model_profiles row);
  pu_version : rel_version row = next_release_version t (rel_application_id row) s ∧ rel_version row < 2 ^ 31;
  pu_hash : rel_content_hash row = sha256_hex (canonical (release_content (rel_draft_snapshot row)
    (rel_data_classification row) (rel_region row) (rel_fallback_aliases row) (rel_model_profiles row)));
}.

(** The release is one of the application. *)
Definition released (s : ReleaseDb) (t application_id release_id : uuid) : Prop :=
  ∃ r, rd_releases s !! (t, release_id) = Some r ∧ rel_application_id r = application_id.

Definition passes (s : ReleaseDb) (t application_id release_id run_id : uuid) : Prop :=
  ∃ run, rd_runs s !! (t, run_id) = Some run ∧ ru_application_id run = application_id ∧
    ru_release_id run = release_id ∧ ru_environment run = PRODUCTION ∧ ru_status run = EVAL_PASSED.

Definition allowed (s : ReleaseDb) (ev : release_event) : Prop :=
  match ev with
  | ApplicationSaved t id row => slug_free t id (aa_slug row) s = true ∧
      aa_version row = default 0 (aa_version <$> rd_applications s !! (t, id)) + 1 ∧ aa_version row < 2 ^ 31
  | ApplicationDropped t id => is_Some (rd_applications s !! (t, id)) ∧ application_referenced t id s = false
  | DraftSaved t a row => (rd_drafts s !! (t, a) = None → is_Some (rd_applications s !! (t, a))) ∧
      df_version row = default 0 (df_version <$> rd_drafts s !! (t, a)) + 1 ∧ df_version row < 2 ^ 31
  | DraftDropped _ _ => True
  | ProfileCreated t alias row => rd_profiles s !! (t, alias) = None ∧
      profile_create_ok bad_netloc alias (mf_profile row) = true ∧
      startswith ("vault://tenant/" +:+ uuid_text t +:+ "/") (mr_secret_ref (mf_profile row)) = true ∧
      (alias ∉ mr_fallback_aliases (mf_profile row)) ∧ NoDup (mr_fallback_aliases (mf_profile row))
  | ProfileUpdated t alias u _ => profile_update_ok bad_netloc u = true ∧
      (∀ ref, given (pu_secret_ref u) = Some ref → startswith ("vault://tenant/" +:+ uuid_text t +:+ "/") ref = true) ∧
      (∀ l, given (pu_fallback_aliases u) = Some l → (alias ∉ l) ∧ NoDup l)
  | ProfileDropped _ _ => True
  | Published t id row => publishable s t id row
  | Deployed t id row => rd_deployments s !! (t, id) = None ∧ is_Some (rd_applications s !! (t, dp_application_id row)) ∧
      released s t (dp_application_id row) (dp_release_id row) ∧
      1 ≤ dp_rollout_percentage row ≤ 100 ∧ dp_version row < 2 ^ 31 ∧
      let current := current_deployment t (dp_application_id row) (dp_environment row) s in
      (current = None → dp_rollout_percentage row = 100) ∧
      row = new_deployment (dp_created_at row) (dp_application_id row) (dp_environment row) (dp_release_id row)
              current (dp_rollout_percentage row) (dp_initiator row)
  | Approved t id approver _ => ∃ d, rd_deployments s !! (t, id) = Some d ∧ dp_status d = DEP_PENDING_APPROVAL ∧
      dp_initiator d ≠ approver ∧ dp_version d + 1 < 2 ^ 31 ∧
      production_eval_gate_error t (dp_application_id d) (dp_release_id d) s = None ∧
      let current := current_deployment t (dp_application_id d) PRODUCTION s in
      dp_previous_deployment_id d = fst <$> current ∧
      dp_previous_deployment_version d = (λ c : uuid * DeploymentRow, dp_version c.2) <$> current
  | SuiteCreated t id row => rd_suites s !! (t, id) = None ∧ is_Some (rd_applications s !! (t, su_application_id row)) ∧
      su_version row = next_suite_version t (su_application_id row) (su_slug row) s ∧
      jsonb_ok (JObj (su_thresholds row)) = true
  | Evaluated t id row => rd_runs s !! (t, id) = None ∧ released s t (ru_application_id row) (ru_release_id row) ∧
      jsonb_ok (JObj (ru_evidence row)) = true ∧ jsonb_ok (ru_results row) = true ∧
      ∃ suite r, rd_suites s !! (t, ru_suite_id row) = Some suite ∧ su_application_id suite = ru_application_id row ∧
        evaluate_evidence (su_thresholds suite) (su_assertions suite) (ru_evidence row) = Some r ∧
        ru_results row = result_json r ∧ ru_status row = er_status r
  | Observed t id row => rd_observations s !! (t, id) = None ∧ jsonb_ok (JObj (ob_metrics row)) = true ∧
      ∃ d thresholds r, rd_deployments s !! (t, ob_deployment_id row) = Some d ∧ dp_environment d = PRODUCTION ∧
        dp_status d = DEP_ACTIVE ∧
        passed_run_thresholds t (dp_application_id d) (dp_release_id d) (ob_eval_run_id row) s = Some thresholds ∧
        evaluate_evidence thresholds [] {["metrics" := JObj (ob_metrics row)]} = Some r ∧
        ob_halted row = bool_decide (er_status r = EVAL_FAILED) ∧
        (ob_halted row = true → dp_version d + 1 < 2 ^ 31)
  end.

(** One event, or none. *)
Definition moved (s s' : ReleaseDb) : Prop :=
  erase s' = erase s ∨ ∃ ev, allowed (erase s) ev ∧ erase s' = apply_event ev (erase s).

(** ** Computations that move *)
Definition quiet {A} (m : REL A) : Prop := ∀ s r s', m s = (r, s') → erase s' = erase s.
Definition moves {A} (m : REL A) : Prop := ∀ s r s', m s = (r, s') → moved s s'.

Lemma quiet_moves {A} (m : REL A) : quiet m → moves m.
Proof. intros Hm s r s' Hr. left. eauto. Qed.
Lemma quiet_ret {A} (a : A) : quiet (mret a).
Proof. by intros s r s' [= <- <-]. Qed.
Lemma quiet_raise {A} e : quiet (raise e : REL A).
Proof. by intros s r s' [= <- <-]. Qed.
Lemma quiet_gets {A} (f : ReleaseDb → A) : quiet (gets f).
Proof. by intros s r s' [= <- <-]. Qed.
Lemma quiet_get : quiet get.
Proof. by intros s r s' [= <- <-]. Qed.
Lemma quiet_ensure b e : quiet (ensure b e).
Proof. destruct b; [apply quiet_ret|apply quiet_raise]. Qed.
Lemma quiet_get_or_raise {A} (o : option A) e : quiet (get_or_raise o e).
Proof. destruct o; [apply quiet_ret|apply quiet_raise]. Qed.
Lemma quiet_on_admin {A} (m : ADM A) : quiet (rel_on_admin m).
Proof. intros s r s'. unfold rel_on_admin. destruct (m _) as [x d]. by intros [= <- <-]. Qed.
Lemma quiet_draw uuid_at : quiet (rel_draw uuid_at).
Proof. by intros s r s' [= <- <-]. Qed.
Lemma quiet_bind {A B} (m : REL A) (k : A → REL B) : quiet m → (∀ a, quiet (k a)) → quiet (m ≫= k).
Proof.
  intros Hm Hk s r s'. unfold mbind, ST_mbind. destruct (m s) as [[a|e] s1] eqn:Hr.
  - intros Hs. rewrite (Hk _ _ _ _ Hs). eauto.
  - intros [= <- <-]. eauto.
Qed.
Lemma moves_bind {A B} (m : REL A) (k : A → REL B) : quiet m → (∀ a, moves (k a)) → moves (m ≫= k).
Proof.
  intros Hm Hk s r s'. unfold mbind, ST_mbind. destruct (m s) as [[a|e] s1] eqn:Hr.
  - intros Hs. unfold moved. rewrite <-(Hm _ _ _ Hr). by apply Hk in Hs.
  - intros [= <- <-]. left. eauto.
Qed.
Lemma moves_then {A B} (m : REL A) (k : A → REL B) : moves m → (∀ a, quiet (k a)) → moves (m ≫= k).
Proof.
  intros Hm Hk s r s'. unfold mbind, ST_mbind. destruct (m s) as [[a|e] s1] eqn:Hr.
  - intros Hs%Hk. unfold moved. rewrite Hs. by apply Hm in Hr.
  - intros [= <- <-]. by apply Hm in Hr.
Qed.
Lemma moves_on_conflict {A} detail (m : REL A) : moves m → moves (on_conflict detail m).
Proof.
  intros Hm s r s'. unfold on_conflict, try_catch. destruct (m s) as [[a|e] s1] eqn:Hr.
  - intros [= <- <-]. by apply Hm in Hr.
  - apply Hm in Hr. intros Hs. assert (s' = s1) as -> by (destruct e as [| | | |[]| |]; by injection Hs). done.
Qed.

(** A body that returns has performed its event. *)
Definition performs (body : REL CommandResult) : Prop :=
  ∀ s c s', body s = (Ok c, s') → moved s s'.

Lemma moves_command dumps uuid_at fault now p t key operation payload body :
  performs body → moves (command sha256_hex dumps uuid_at fault now p t key operation payload body).
Proof.
  intros Hbody s r s' Hr. unfold command in Hr. set (m := _ ≫= _) in Hr.
  assert (s' = s ∨ ∃ a, m s = (Ok a, s')) as [->|[a Hm]].
  { unfold transaction in Hr. destruct (m s) as [[a|e] s1]; destruct fault; simplify_eq; eauto. }
  { by left. }
  unfold m in Hm. apply bind_Ok in Hm as (replayed & s1 & H1 & Hm). apply quiet_on_admin in H1.
  unfold moved. rewrite <-H1. destruct replayed as [j|]; [run_inv; by left|].
  run_inv. repeat match goal with H : rel_on_admin _ _ = _ |- _ => apply quiet_on_admin in H; rewrite H end.
  match goal with H : body _ = _ |- _ => by apply Hbody in H end.
Qed.

(** ** The endpoints *)
Context (dumps : json → string) (uuid_at : nat → uuid) (eval_dumps py_repr : json → string).

Inductive endpoint : REL Reply → Prop :=
  | ep_create_application f1 f2 now p t c key :
      endpoint (create_application sha256_hex dumps uuid_at f1 f2 now p t c key)
  | ep_update_application f1 f2 now p t id u key h :
      endpoint (update_application sha256_hex dumps uuid_at f1 f2 now p t id u key h)
  | ep_delete_application f1 f2 now p t id key h :
      endpoint (delete_application sha256_hex dumps uuid_at f1 f2 now p t id key h)
  | ep_create_draft f1 f2 now p t a c key : endpoint (create_draft sha256_hex dumps uuid_at f1 f2 now p t a c key)
  | ep_validate_draft f1 f2 now p t a key h :
      endpoint (validate_draft sha256_hex dumps uuid_at f1 f2 now p t a key h)
  | ep_update_draft f1 f2 now p t a u key h :
      endpoint (update_draft sha256_hex dumps uuid_at f1 f2 now p t a u key h)
  | ep_delete_draft f1 f2 now p t a key h : endpoint (delete_draft sha256_hex dumps uuid_at f1 f2 now p t a key h)
  | ep_create_profile f1 f2 now p t alias c key :
      endpoint (create_profile bad_netloc sha256_hex dumps uuid_at f1 f2 now p t alias c key)
  | ep_update_profile f1 f2 now p t alias u key h :
      endpoint (update_profile bad_netloc sha256_hex dumps uuid_at f1 f2 now p t alias u key h)
  | ep_delete_profile f1 f2 now p t alias key h :
      endpoint (delete_profile sha256_hex dumps uuid_at f1 f2 now p t alias key h)
  | ep_publish f1 f2 now p t a c key :
      endpoint (publish_release sha256_hex dumps uuid_at canonical f1 f2 now p t a c key)
  | ep_deploy f1 f2 now p t a c key h :
      endpoint (create_deployment sha256_hex dumps uuid_at f1 f2 now p t a c key h)
  | ep_approve f1 f2 now p t a d key h :
      endpoint (approve_deployment sha256_hex dumps uuid_at f1 f2 now p t a d key h)
  | ep_rollback f1 f2 now p t a d r key h :
      endpoint (rollback_deployment sha256_hex dumps uuid_at f1 f2 now p t a d r key h)
  | ep_suite f1 f2 now p t a c key :
      endpoint (create_eval_suite sha256_hex dumps uuid_at eval_dumps f1 f2 now p t a c key)
  | ep_run f1 f2 now p t a c key :
      endpoint (create_eval_run sha256_hex dumps uuid_at eval_dumps py_repr f1 f2 now p t a c key)
  | ep_observe f1 f2 now p t a d c key :
      endpoint (record_eval_canary_observation sha256_hex dumps uuid_at f1 f2 now p t a d c key)
  | ep_get_application f now p t id : endpoint (get_application sha256_hex dumps uuid_at f now p t id)
  | ep_get_draft f now p t a : endpoint (get_draft sha256_hex dumps uuid_at f now p t a)
  | ep_get_profile f now p t alias : endpoint (get_profile sha256_hex dumps uuid_at f now p t alias).

(** Listings. *)
Inductive reading_endpoint : REL json → Prop :=
  | rp_list_applications f now p t limit c :
      reading_endpoint (list_applications sha256_hex dumps uuid_at f now p t limit c)
  | rp_list_profiles f now p t limit c : reading_endpoint (list_profiles sha256_hex dumps uuid_at f now p t limit c)
  | rp_list_releases f now p t a limit c :
      reading_endpoint (list_releases sha256_hex dumps uuid_at f now p t a limit c)
  | rp_list_deployments f now p t a limit c :
      reading_endpoint (list_deployments sha256_hex dumps uuid_at f now p t a limit c).

(** ** Each performs its event *)
Ltac guards := repeat match goal with
  | H : _ && _ = true |- _ => apply andb_true_iff in H as [? ?]
  | H : bool_decide _ = true |- _ => apply bool_decide_eq_true in H
  | H : negb _ = true |- _ => apply negb_true_iff in H
  | H : bool_decide _ = false |- _ => apply bool_decide_eq_false in H
  | H : (_ =? _) = true |- _ => apply Z.eqb_eq in H
  | H : int4 _ = true |- _ => unfold int4 in H; apply Z.ltb_lt in H
  end.

Lemma at_version_Ok {A} (found : option A) version expected noun s a s' :
  at_version found version expected noun s = (Ok a, s') → found = Some a ∧ version a = expected ∧ s' = s.
Proof. unfold at_version. intros. run_inv. by guards. Qed.

Ltac quiet_all := repeat match goal with
  | |- quiet (_ ≫= _) => apply quiet_bind; [|intros ?]
  | |- quiet (mret _) => apply quiet_ret
  | |- quiet (raise _) => apply quiet_raise
  | |- quiet (gets _) => apply quiet_gets
  | |- quiet get => apply quiet_get
  | |- quiet (ensure _ _) => apply quiet_ensure
  | |- quiet (get_or_raise _ _) => apply quiet_get_or_raise
  | |- quiet (rel_on_admin _) => apply quiet_on_admin
  | |- quiet (rel_draw _) => apply quiet_draw
  | |- quiet (rel_access _ _ _ _ _ _ _ _ _ _ _) => apply quiet_on_admin
  | |- quiet (body_valid _) => apply quiet_ensure
  | |- quiet (validate_secret_tenant _ _) => apply quiet_ensure
  | |- quiet (validate_fallbacks _ _) => apply quiet_ensure
  | |- quiet (match ?x with _ => _ end) => destruct x
  | |- quiet (if_match_version _) => unfold if_match_version
  | |- quiet (versioned_reply _ _ _) => unfold versioned_reply
  | |- quiet (etag_of _ _) => unfold etag_of
  | |- quiet (created_reply _) => unfold created_reply
  | |- quiet (given_checked _ _) => unfold given_checked
  end.
Ltac moves_all := repeat match goal with
  | |- moves (_ ≫= λ r, mret (@?f r)) => apply moves_then; [|intros; apply quiet_ret]
  | |- moves (_ ≫= λ r, created_reply r) => apply moves_then; [|intros; quiet_all]
  | |- moves (_ ≫= λ r, versioned_reply _ _ r) => apply moves_then; [|intros; quiet_all]
  | |- moves (_ ≫= _) => apply moves_bind; [by quiet_all|intros ?]
  | |- moves (on_conflict _ _) => apply moves_on_conflict
  | |- moves (command _ _ _ _ _ _ _ _ _ _ _) => apply moves_command
  end.

(** The event of a body whose run is in the context. *)
Tactic Notation "performed" open_constr(ev) := right; exists ev; split; [|reflexivity]; simpl.
Ltac body_run := intros ? ? ? ?; run_inv;
  repeat match goal with
  | H : at_version _ _ _ _ _ = _ |- _ => apply at_version_Ok in H as (? & ? & ->)
  end; run_inv; guards.
Ltac known := repeat match goal with
  | H : rd_applications _ !! _ = _ |- _ => rewrite H
  | H : rd_drafts _ !! _ = _ |- _ => rewrite H
  end.

Lemma create_application_moves f1 f2 now p t c key :
  moves (create_application sha256_hex dumps uuid_at f1 f2 now p t c key).
Proof.
  unfold create_application. moves_all. body_run. performed (ApplicationSaved t _ _).
  split_and!; [done|by known|lia].
Qed.

Lemma update_application_moves f1 f2 now p t id u key h :
  moves (update_application sha256_hex dumps uuid_at f1 f2 now p t id u key h).
Proof.
  unfold update_application. moves_all. body_run. performed (ApplicationSaved t id _). split_and!; [done|by known|done].
Qed.

Lemma delete_application_moves f1 f2 now p t id key h :
  moves (delete_application sha256_hex dumps uuid_at f1 f2 now p t id key h).
Proof.
  unfold delete_application. moves_all. body_run. performed (ApplicationDropped t id). split; [by known|done].
Qed.

Lemma create_draft_moves f1 f2 now p t a c key : moves (create_draft sha256_hex dumps uuid_at f1 f2 now p t a c key).
Proof.
  unfold create_draft. moves_all. body_run. performed (DraftSaved t a _). split_and!; [done|by known|lia].
Qed.

Lemma validate_draft_moves f1 f2 now p t a key h :
  moves (validate_draft sha256_hex dumps uuid_at f1 f2 now p t a key h).
Proof. unfold validate_draft. moves_all. body_run. by left. Qed.

Lemma update_draft_moves f1 f2 now p t a u key h :
  moves (update_draft sha256_hex dumps uuid_at f1 f2 now p t a u key h).
Proof.
  unfold update_draft. moves_all. body_run. performed (DraftSaved t a _). split_and!; [by known|by known|done].
Qed.

Lemma delete_draft_moves f1 f2 now p t a key h : moves (delete_draft sha256_hex dumps uuid_at f1 f2 now p t a key h).
Proof. unfold delete_draft. moves_all. body_run. by performed (DraftDropped t a). Qed.

(** Checks made before the transaction. *)
Lemma moves_ensure {A} b e (m : REL A) : (b = true → moves m) → moves (ensure b e ≫= λ _, m).
Proof.
  intros Hm. destruct b; [by apply Hm|]. apply quiet_moves. intros s r s' [= <- <-]. done.
Qed.

Lemma moves_checked {A B} (f : field A) (ok : A → bool) e (m : REL B) :
  ((∀ v, given f = Some v → ok v = true) → moves m) → moves (given_checked f (λ v, ensure (ok v) e) ≫= λ _, m).
Proof.
  intros Hm. unfold given_checked. destruct (given f) as [v|].
  - apply moves_ensure. intros Hv. apply Hm. by intros ? [= <-].
  - by apply Hm.
Qed.

Lemma create_profile_moves f1 f2 now p t alias c key :
  moves (create_profile bad_netloc sha256_hex dumps uuid_at f1 f2 now p t alias c key).
Proof.
  unfold create_profile. apply moves_ensure. intros Hok. apply moves_bind; [by quiet_all|intros _].
  apply moves_ensure. intros Hsecret. apply moves_ensure. intros Hfall. moves_all. body_run.
  performed (ProfileCreated t alias _). by split_and!.
Qed.

Lemma update_profile_moves f1 f2 now p t alias u key h :
  moves (update_profile bad_netloc sha256_hex dumps uuid_at f1 f2 now p t alias u key h).
Proof.
  unfold update_profile. apply moves_ensure. intros Hok. apply moves_bind; [by quiet_all|intros _].
  apply moves_bind; [by quiet_all|intros expected].
  apply moves_checked. intros Hs. apply moves_checked. intros Hf. moves_all. body_run.
  right. exists (ProfileUpdated t alias u now). split.
  { split_and!; [done..|]. intros l Hl%Hf. by guards. } unfold erase, apply_event, set_profiles. simpl. f_equal.
  apply map_eq. intros k. destruct (decide (k = (t, alias))) as [->|]; [|by rewrite lookup_insert_ne, lookup_alter_ne].
  rewrite lookup_insert_eq, lookup_alter_eq. by match goal with H : rd_profiles _ !! _ = _ |- _ => rewrite H end.
Qed.

Lemma delete_profile_moves f1 f2 now p t alias key h :
  moves (delete_profile sha256_hex dumps uuid_at f1 f2 now p t alias key h).
Proof. unfold delete_profile. moves_all. body_run. by performed (ProfileDropped t alias). Qed.

Lemma fallback_profiles_Ok t aliases s l s' :
  fallback_profiles t aliases s = (Ok l, s') →
  s' = s ∧ Forall2 (λ a m, ∃ r, rd_profiles s !! (t, a) = Some r ∧ m = profile_snapshot t a r) aliases l.
Proof.
  unfold fallback_profiles. revert l. induction aliases as [|a aliases IH]; intros l Hr; simpl in Hr; run_inv; [done|].
  edestruct IH as [-> Hl]; [eassumption|]. split; [done|]. constructor; eauto.
Qed.
Lemma application_row_Ok t a s r s' :
  application_row t a s = (Ok r, s') → rd_applications s !! (t, a) = Some r ∧ s' = s.
Proof. unfold application_row. intros. by run_inv. Qed.
Lemma release_of_Ok t a id s r s' : release_of t a id s = (Ok r, s') →
  rd_releases s !! (t, id) = Some r ∧ rel_application_id r = a ∧ s' = s.
Proof. unfold release_of. intros. run_inv. by guards. Qed.
Lemma deployment_of_Ok t a id s d s' : deployment_of t a id s = (Ok d, s') →
  rd_deployments s !! (t, id) = Some d ∧ dp_application_id d = a ∧ s' = s.
Proof. unfold deployment_of. intros. run_inv. by guards. Qed.
Lemma suite_of_Ok t a id s d s' : suite_of t a id s = (Ok d, s') →
  rd_suites s !! (t, id) = Some d ∧ su_application_id d = a ∧ s' = s.
Proof. unfold suite_of. intros. run_inv. by guards. Qed.
Lemma insert_release_Ok t id row s u s' : insert_release t id row s = (Ok u, s') →
  rd_releases s !! (t, id) = None ∧ s' = set_releases <[(t, id) := row]> s.
Proof. unfold insert_release. intros. run_inv. by guards. Qed.
Lemma insert_deployment_Ok t id row s u s' : insert_deployment t id row s = (Ok u, s') →
  rd_deployments s !! (t, id) = None ∧ dp_version row < 2 ^ 31 ∧ s' = set_deployments <[(t, id) := row]> s.
Proof. unfold insert_deployment. intros. run_inv. by guards. Qed.
Lemma rel_draw_Ok s u s' : rel_draw uuid_at s = (Ok u, s') → u = uuid_at (rd_next_id s) ∧ s' = next_rd_id s.
Proof. by intros [= <- <-]. Qed.
Ltac lookups := repeat match goal with
  | H : rel_draw _ _ = _ |- _ => apply rel_draw_Ok in H as [-> ->]
  | H : application_row _ _ _ = _ |- _ => apply application_row_Ok in H as [? ->]
  | H : release_of _ _ _ _ = _ |- _ => apply release_of_Ok in H as (? & ? & ->)
  | H : deployment_of _ _ _ _ = _ |- _ => apply deployment_of_Ok in H as (? & ? & ->)
  | H : suite_of _ _ _ _ = _ |- _ => apply suite_of_Ok in H as (? & ? & ->)
  | H : fallback_profiles _ _ _ = _ |- _ => apply fallback_profiles_Ok in H as [-> ?]
  | H : insert_release _ _ _ _ = _ |- _ => apply insert_release_Ok in H as [? ->]
  | H : insert_deployment _ _ _ _ = _ |- _ => apply insert_deployment_Ok in H as (? & ? & ->)
  | H : documents_ok _ _ = _ |- _ => apply ensure_Ok in H as (? & -> & _)
  | H : author_ok _ _ _ = _ |- _ => apply ensure_Ok in H as (? & -> & _)
  end.

Lemma publish_moves f1 f2 now p t a c key :
  moves (publish_release sha256_hex dumps uuid_at canonical f1 f2 now p t a c key).
Proof.
  unfold publish_release. moves_all. intros s r s' Hr. unfold publish_body in Hr. cbv zeta in Hr. run_inv. lookups. guards.
  performed (Published t _ _). split; simpl; [done|by eexists| | |done|done].
  - eexists. split_and!; [eassumption| |done..]. by apply nil_length_inv.
  - eexists. split_and!; [eassumption| |].
    + intros al Hal. match goal with H : forallb _ _ = true |- _ => rewrite forallb_forall in H; specialize (H al) end.
      rewrite <-list_elem_of_In, bool_decide_eq_true in *. auto.
    + constructor; eauto.
Qed.

Lemma insert_alter {K A} `{Countable K} (f : A → A) (m : gmap K A) k x :
  m !! k = Some x → <[k := f x]> m = alter f k m.
Proof.
  intros Hk. apply map_eq. intros j. destruct (decide (j = k)) as [->|]; [|by rewrite lookup_insert_ne, lookup_alter_ne].
  by rewrite lookup_insert_eq, lookup_alter_eq, Hk.
Qed.

Lemma deploy_moves f1 f2 now p t a c key h :
  moves (create_deployment sha256_hex dumps uuid_at f1 f2 now p t a c key h).
Proof.
  unfold create_deployment. apply moves_ensure. intros Hc. unfold deployment_create_ok in Hc. moves_all.
  intros s r s' Hr. unfold create_deployment_body in Hr. cbv zeta in Hr. run_inv. lookups.
  destruct (current_deployment t a (nd_environment c) s) as [cur|] eqn:Hcur;
    [destruct (bool_decide (nd_environment c = PRODUCTION)); [|destruct (a1 : option Z)]|];
    run_inv; lookups; guards; rewrite !Z.leb_le in *; performed (Deployed t _ _);
    change (current_deployment t a (nd_environment c) (erase s)) with (current_deployment t a (nd_environment c) s);
    rewrite Hcur; (split_and!; [done|by eexists|by eexists|lia|lia|done|done|done]).
Qed.

Lemma approve_moves f1 f2 now p t a d key h :
  moves (approve_deployment sha256_hex dumps uuid_at f1 f2 now p t a d key h).
Proof.
  unfold approve_deployment. moves_all. intros s r s' Hr. unfold approve_body in Hr. cbv zeta in Hr. run_inv. lookups.
  destruct (production_eval_gate_error _ _ _ _) eqn:Hgate in *; run_inv. guards. simplify_eq.
  right. eexists (Approved t d (ap_subject p) now). split.
  - simpl. eexists. split_and!; [done..|exact Hgate|done|done].
  - unfold erase, apply_event, set_deployments. simpl. f_equal. by apply insert_alter.
Qed.

Lemma rollback_moves f1 f2 now p t a d r0 key h :
  moves (rollback_deployment sha256_hex dumps uuid_at f1 f2 now p t a d r0 key h).
Proof.
  unfold rollback_deployment. moves_all. intros s r s' Hr. unfold rollback_body in Hr. cbv zeta in Hr. run_inv. lookups.
  performed (Deployed t _ _). split_and!; [done|by eexists|by eexists|lia|lia|done|done|done].
Qed.

Lemma suite_moves f1 f2 now p t a c key :
  moves (create_eval_suite sha256_hex dumps uuid_at eval_dumps f1 f2 now p t a c key).
Proof.
  unfold create_eval_suite. apply moves_bind; [by quiet_all|intros _]. apply moves_bind; [by quiet_all|intros _].
  cbv zeta. moves_all. intros s r s' Hr. run_inv. lookups. guards.
  match goal with H : forallb jsonb_ok _ = true |- _ => cbn [forallb] in H end. guards.
  performed (SuiteCreated t _ _). split; [done|]. split; [by eexists|]. by split.
Qed.

Lemma snapshot_texts_quiet k m : quiet (snapshot_texts py_repr k m).
Proof. unfold snapshot_texts. quiet_all. Qed.
Lemma dependency_snapshot_same t r u s j s' :
  dependency_snapshot py_repr t r u s = (Ok j, s') → s' = s.
Proof.
  unfold dependency_snapshot, snapshot_texts. intros Hr.
  repeat (run_inv; repeat case_match; run_inv); by run_inv.
Qed.

Ltac as_given := match goal with H : ?P |- ?P => exact H end.

Lemma run_moves f1 f2 now p t a c key :
  moves (create_eval_run sha256_hex dumps uuid_at eval_dumps py_repr f1 f2 now p t a c key).
Proof.
  unfold create_eval_run. apply moves_bind; [by quiet_all|intros _]. apply moves_bind; [by quiet_all|intros _].
  cbv zeta. moves_all. intros s r s' Hr. unfold eval_run_body in Hr. cbv zeta in Hr. run_inv. lookups.
  match goal with H : dependency_snapshot _ _ _ _ _ = _ |- _ => apply dependency_snapshot_same in H as -> end.
  run_inv. lookups. guards. performed (Evaluated t _ _).
  match goal with H : forallb jsonb_ok _ = true |- _ => simpl in H end. guards.
  rename select AgentRelease into rel. rename select EvalSuiteRow into suite. rename select EvidenceResult into res.
  split; [as_given|]. split; [exists rel; by split|]. split; [as_given|]. split; [as_given|].
  exists suite, res. split; [as_given|]. by split_and!.
Qed.

Lemma observe_moves f1 f2 now p t a d c key :
  moves (record_eval_canary_observation sha256_hex dumps uuid_at f1 f2 now p t a d c key).
Proof.
  unfold record_eval_canary_observation. moves_all. intros s r s' Hr. unfold observation_body in Hr. cbv zeta in Hr.
  run_inv. lookups. guards. rename select EvidenceResult into res. rename select DeploymentRow into dep.
  rename select jobject into limits. pose (observation halted := {| ob_deployment_id := d; ob_eval_run_id := eo_eval_run_id c; ob_metrics := eo_metrics c;
    ob_halted := halted; ob_created_by := ap_subject p; ob_created_at := now |}).
  destruct (bool_decide (er_status res = EVAL_FAILED)) eqn:Hhalt; run_inv; lookups; guards;
    match goal with H : forallb jsonb_ok _ = true |- _ => simpl in H end; guards; simplify_eq.
  - right. exists (Observed t (uuid_at (rd_next_id s)) (observation true)). split.
    + split; [as_given|]. split; [as_given|]. exists dep, limits, res. do 5 (split; [done|]).
      by rewrite bool_decide_eq_true_2.
    + unfold erase, apply_event, set_observations, set_deployments. simpl. f_equal. by apply insert_alter.
  - right. exists (Observed t (uuid_at (rd_next_id s)) (observation false)). split; [|reflexivity].
    split; [as_given|]. split; [as_given|]. exists dep, limits, res. do 5 (split; [done|]).
    by rewrite bool_decide_eq_false_2.
Qed.

Lemma endpoint_moves m : endpoint m → moves m.
Proof.
  intros []; [apply create_application_moves|apply update_application_moves|apply delete_application_moves|
    apply create_draft_moves|apply validate_draft_moves|apply update_draft_moves|apply delete_draft_moves|
    apply create_profile_moves|apply update_profile_moves|apply delete_profile_moves|apply publish_moves|
    apply deploy_moves|apply approve_moves|apply rollback_moves|apply suite_moves|apply run_moves|apply observe_moves|..].
  all: apply quiet_moves; unfold get_application, get_draft, get_profile; quiet_all.
Qed.

Lemma reading_quiet m : reading_endpoint m → quiet m.
Proof.
  intros []; unfold list_applications, list_profiles, list_releases, list_deployments, listing, cursor_of;
    (apply quiet_bind; [by quiet_all|intros _]; apply quiet_bind; [by quiet_all|intros _];
     apply quiet_bind; [by quiet_all|intros ?]; apply quiet_bind; [by quiet_all|intros ?];
     destruct (page_of _ _ _ _); apply quiet_ret).
Qed.
End Process.
