(* ===== verification/ReleaseFacts.v ===== *)
(** * Facts about the release process

    What holds of the tables at all times, and that every event keeps it. *)

From S2P Require Import Prelude PyNum Evaluations Uuids ExecutionBus ToolRegistry AuditChain AdminAccess Interleave PyRegex Governance PolicyBundles Pagination LlmGateway GatewayAdapters AgentDrafts ModelProfiles AgentReleases EvalSuites ReleaseProcess.
Open Scope string_scope.
Open Scope list_scope.
Open Scope Z_scope.

(** ** Rows of a tenant *)
Lemma elem_of_tenant_rows {A} (t : uuid) (m : gmap (uuid * uuid) A) (id : uuid) (x : A) :
  (id, x) ∈ tenant_rows t m ↔ m !! (t, id) = Some x.
Proof.
  unfold tenant_rows. rewrite list_elem_of_omap. split.
  - intros ([[t' id'] x'] & Hin & Heq). apply elem_of_map_to_list in Hin. simpl in Heq. case_bool_decide; simplify_eq/=. done.
  - intros Hm. exists ((t, id), x). split; [by apply elem_of_map_to_list|]. simpl. by rewrite bool_decide_true.
Qed.

Lemma elem_of_application_releases t a s id r :
  (id, r) ∈ application_releases t a s ↔ rd_releases s !! (t, id) = Some r ∧ rel_application_id r = a.
Proof. unfold application_releases. rewrite list_elem_of_filter, elem_of_tenant_rows. naive_solver. Qed.

Lemma elem_of_active t a e s id d :
  (id, d) ∈ active_deployments t a e s ↔
  rd_deployments s !! (t, id) = Some d ∧ dp_application_id d = a ∧ dp_environment d = e ∧ dp_status d = DEP_ACTIVE.
Proof. unfold active_deployments. rewrite list_elem_of_filter, elem_of_tenant_rows. naive_solver. Qed.

Lemma current_deployment_spec t a e s :
  match current_deployment t a e s with
  | Some (id, d) => rd_deployments s !! (t, id) = Some d ∧ dp_application_id d = a ∧ dp_environment d = e ∧
      dp_status d = DEP_ACTIVE ∧
      ∀ id' d', (id', d') ∈ active_deployments t a e s → lex_ltb (activation_key (id, d)) (activation_key (id', d')) = false
  | None => active_deployments t a e s = []
  end.
Proof.
  pose proof (latest_spec activation_key (active_deployments t a e s)) as Hl. unfold current_deployment.
  destruct (latest _ _) as [[id d]|]; [|done]. destruct Hl as [Hin Hmax].
  apply elem_of_active in Hin as (? & ? & ? & ?). split_and!; eauto.
Qed.

Lemma foldr_max_spec l : (∀ x, x ∈ l → x ≤ foldr Z.max 0 l) ∧ (foldr Z.max 0 l = 0 ∨ foldr Z.max 0 l ∈ l).
Proof.
  induction l as [|x l [IH1 IH2]]; simpl; [split; [by intros ? ?%not_elem_of_nil|by left]|]. split.
  - intros y [->|Hy]%elem_of_cons; [lia|]. specialize (IH1 y Hy). lia.
  - destruct (Z.max_spec x (foldr Z.max 0 l)) as [[? ->]|[? ->]]; [|right; by left].
    destruct IH2; [by left|right; by right].
Qed.

(** The gate is open only behind a run that passed. *)
Lemma gate_passes t a r s :
  production_eval_gate_error t a r s = None → ∃ run_id, passes s t a r run_id.
Proof.
  unfold production_eval_gate_error. pose proof (latest_spec (λ ir : uuid * EvalRunRow, [ru_created_at ir.2; ir.1])
    (production_runs t a r s)) as Hl. destruct (latest _ _) as [[id run]|]; [|done]. destruct Hl as [Hin _].
  case_bool_decide as Hp; [|done]. intros _. unfold production_runs in Hin.
  apply list_elem_of_filter in Hin as [Hrun Hin]. simpl in Hrun. apply elem_of_tenant_rows in Hin. exists id, run. naive_solver.
Qed.

(** ** Well-formed rows *)
Definition is_pending (d : DeploymentRow) : Prop := dp_status d = DEP_PENDING_APPROVAL.
Definition same_target (d d' : DeploymentRow) : Prop :=
  dp_application_id d' = dp_application_id d ∧ dp_environment d' = dp_environment d.

(** Another person approved the deployment after its release had passed. *)
Definition second_person (s : ReleaseDb) (t : uuid) (d : DeploymentRow) : Prop :=
  ∃ approver run_id, dp_approver d = Some approver ∧ approver ≠ dp_initiator d ∧
    passes s t (dp_application_id d) (dp_release_id d) run_id.

Record deployment_ok (s : ReleaseDb) (t : uuid) (d : DeploymentRow) : Prop := {
  dk_released : released s t (dp_application_id d) (dp_release_id d);
  dk_version : 1 ≤ dp_version d < 2 ^ 31;
  dk_rollout : 1 ≤ dp_rollout_percentage d ≤ 100;
  dk_initial : dp_previous_release_id d = None → dp_rollout_percentage d = 100;
  dk_pending : is_pending d → dp_environment d = PRODUCTION;
  dk_activated : ¬ is_pending d → is_Some (dp_activated_at d);
  dk_approved : ¬ is_pending d → dp_environment d = PRODUCTION → second_person s t d;
  dk_previous : ∀ r, dp_previous_release_id d = Some r → ∃ id d',
    rd_deployments s !! (t, id) = Some d' ∧ same_target d d' ∧ dp_release_id d' = r ∧ ¬ is_pending d';
}.

Record run_ok (s : ReleaseDb) (t : uuid) (run : EvalRunRow) : Prop := {
  rk_released : released s t (ru_application_id run) (ru_release_id run);
  rk_evidence : jsonb_ok (JObj (ru_evidence run)) = true;
  rk_decision : ∃ suite r, rd_suites s !! (t, ru_suite_id run) = Some suite ∧
    su_application_id suite = ru_application_id run ∧ jsonb_ok (JObj (su_thresholds suite)) = true ∧
    evaluate_evidence (su_thresholds suite) (su_assertions suite) (ru_evidence run) = Some r ∧ ru_status run = er_status r;
}.

(** ** The life of a deployment *)
Definition status_rank (st : DeploymentStatus) : Z :=
  match st with DEP_PENDING_APPROVAL => 0 | DEP_ACTIVE => 1 | DEP_HALTED => 2 end.

(** [d'] is [d], later: what it deploys stays, its status only moves forward, one version
    each time, and an approval is kept. *)
Record later (d d' : DeploymentRow) : Prop := {
  lt_target : same_target d d' ∧ dp_release_id d' = dp_release_id d ∧ dp_initiator d' = dp_initiator d;
  lt_pointer : dp_previous_release_id d' = dp_previous_release_id d ∧
    dp_previous_deployment_id d' = dp_previous_deployment_id d ∧
    dp_previous_deployment_version d' = dp_previous_deployment_version d ∧
    dp_rollout_percentage d' = dp_rollout_percentage d;
  lt_status : status_rank (dp_status d) ≤ status_rank (dp_status d');
  lt_version : dp_version d' - status_rank (dp_status d') = dp_version d - status_rank (dp_status d);
  lt_approval : ¬ is_pending d → dp_approver d' = dp_approver d ∧ dp_activated_at d' = dp_activated_at d;
  lt_same : dp_status d' = dp_status d → d' = d;
}.

Lemma status_rank_inj st st' : status_rank st = status_rank st' → st = st'.
Proof. by destruct st, st'. Qed.
Lemma not_pending_rank d : ¬ is_pending d ↔ 1 ≤ status_rank (dp_status d).
Proof. unfold is_pending. destruct (dp_status d); simpl; split; try done; lia. Qed.

Lemma later_refl d : later d d.
Proof. by repeat split. Qed.
Lemma later_trans d1 d2 d3 : later d1 d2 → later d2 d3 → later d1 d3.
Proof.
  intros [([Ha Hb] & Hc & Hd) (He & Hf & Hg & Hh) Hs Hv Hap Hsame] [([Ha' Hb'] & Hc' & Hd') (He' & Hf' & Hg' & Hh') Hs' Hv' Hap' Hsame'].
  split; [repeat split; congruence|split_and!; congruence|lia|lia| |].
  - intros Hn. destruct (Hap Hn) as [<- <-]. apply Hap'. rewrite not_pending_rank in *. lia.
  - intros Heq. rewrite Heq in Hs'. assert (dp_status d2 = dp_status d1) as H21 by (apply status_rank_inj; lia).
    rewrite <-(Hsame H21). apply Hsame'. congruence.
Qed.
Lemma later_not_pending d d' : later d d' → ¬ is_pending d → ¬ is_pending d'.
Proof. intros [_ _ Hs _ _ _]. rewrite !not_pending_rank. lia. Qed.
Lemma later_approved d now approver : is_pending d → later d (approved_deployment now approver d).
Proof. unfold is_pending. intros Hp. split; simpl; rewrite ?Hp; simpl; try done; lia. Qed.
Lemma later_halted d now : dp_status d = DEP_ACTIVE → later d (halted_deployment now d).
Proof. intros Hp. split; simpl; rewrite ?Hp; simpl; try done; lia. Qed.

(** ** What never goes away *)
Record grows (s s' : ReleaseDb) : Prop := {
  gr_runs : rd_runs s ⊆ rd_runs s';
  gr_suites : rd_suites s ⊆ rd_suites s';
  gr_deployments : ∀ k d, rd_deployments s !! k = Some d → ∃ d', rd_deployments s' !! k = Some d' ∧ later d d';
  gr_released : ∀ t a id r, application_referenced t a s = true → rd_releases s !! (t, id) = Some r →
    rel_application_id r = a → rd_releases s' !! (t, id) = Some r;
}.

Lemma deployment_references s t id d :
  rd_deployments s !! (t, id) = Some d → application_referenced t (dp_application_id d) s = true.
Proof.
  intros Hd. unfold application_referenced. apply negb_true_iff, andb_false_iff. left. apply andb_false_iff. left.
  apply bool_decide_eq_false. intros Hall. by apply (Hall _ _ Hd).
Qed.
Lemma run_references s t id run :
  rd_runs s !! (t, id) = Some run → application_referenced t (ru_application_id run) s = true.
Proof.
  intros Hd. unfold application_referenced. apply negb_true_iff, andb_false_iff. right.
  apply bool_decide_eq_false. intros Hall. by apply (Hall _ _ Hd).
Qed.
Lemma referenced_mono s s' t a : grows s s' → application_referenced t a s = true → application_referenced t a s' = true.
Proof.
  intros [Hr Hs Hd _]. unfold application_referenced. rewrite !negb_true_iff, !andb_false_iff, !bool_decide_eq_false.
  intros [[H|H]|H]; [left; left|left; right|right]; contradict H; intros [t' id] x Hx; simpl; intros ->.
  - destruct (Hd _ _ Hx) as (x' & Hx' & Hl). specialize (H _ _ Hx' eq_refl). by destruct Hl as [[[<- _] _] _ _ _ _ _].
  - by apply (H _ _ (lookup_weaken _ _ _ _ Hx Hs)).
  - by apply (H _ _ (lookup_weaken _ _ _ _ Hx Hr)).
Qed.

Lemma grows_refl s : grows s s.
Proof. split; eauto using later_refl. Qed.
Lemma grows_trans s1 s2 s3 : grows s1 s2 → grows s2 s3 → grows s1 s3.
Proof.
  intros H12 H23. pose proof H12 as [Hr Hs Hd Hp]. pose proof H23 as [Hr' Hs' Hd' Hp'].
  split; [by etrans|by etrans| |].
  - intros k d (d2 & H2 & L2)%Hd. destruct (Hd' _ _ H2) as (d3 & H3 & L3). eauto using later_trans.
  - intros t a id r Href Hrel Ha. eapply Hp'; [by eapply referenced_mono|by eapply Hp|done].
Qed.

Lemma released_grows s s' t a r : grows s s' → application_referenced t a s = true → released s t a r → released s' t a r.
Proof. intros Hg Href (x & Hx & Ha). exists x. split; [|done]. by eapply gr_released. Qed.
Lemma passes_grows s s' t a r run_id : grows s s' → passes s t a r run_id → passes s' t a r run_id.
Proof. intros Hg (run & Hrun & Hrest). exists run. split; [|done]. eapply lookup_weaken; [done|apply Hg]. Qed.

Lemma deployment_ok_grows s s' t id d :
  grows s s' → rd_deployments s !! (t, id) = Some d → deployment_ok s t d → deployment_ok s' t d.
Proof.
  intros Hg Hd [H1 H2 H3 H4 H5 H6 H7 H8]. split; try done.
  - eapply released_grows; [done|by eapply deployment_references|done].
  - intros Hn Hp. destruct (H7 Hn Hp) as (ap & run_id & ? & ? & ?). exists ap, run_id. eauto using passes_grows.
  - intros r Hr. destruct (H8 r Hr) as (id' & d' & Hd' & [Hta Hte] & Hrel & Hn).
    destruct (gr_deployments _ _ Hg _ _ Hd') as (d'' & Hd'' & Hl). pose proof Hl as [([? ?] & ? & _) _ _ _ _ _].
    exists id', d''. split_and!; [done|split; congruence|congruence|by eapply later_not_pending].
Qed.
Lemma run_ok_grows s s' t id run : grows s s' → rd_runs s !! (t, id) = Some run → run_ok s t run → run_ok s' t run.
Proof.
  intros Hg Hr [H1 H2 (suite & r & Hs & Hrest)]. split; [|done|].
  - eapply released_grows; [done|by eapply run_references|done].
  - exists suite, r. split; [|done]. eapply lookup_weaken; [done|apply Hg].
Qed.

(** ** Every event grows the tables *)
Section Invariant.
Context (sha256_hex : string → string) (canonical : json → string) (bad_netloc : string → bool).
Abbreviation allows := (allowed sha256_hex canonical bad_netloc).

Lemma grows_tables s s' :
  rd_runs s' = rd_runs s → rd_suites s' = rd_suites s → rd_deployments s' = rd_deployments s →
  rd_releases s ⊆ rd_releases s' → grows s s'.
Proof.
  intros Hr Hs Hd Hp. split; rewrite ?Hr, ?Hs, ?Hd; [done..|eauto using later_refl|].
  intros t a id r _ Hrel _. by eapply lookup_weaken.
Qed.
Lemma grows_alter s k (f : DeploymentRow → DeploymentRow) :
  (∀ d, rd_deployments s !! k = Some d → later d (f d)) → grows s (set_deployments (alter f k) s).
Proof.
  intros Hf. split; try done. intros j d Hd. simpl. destruct (decide (j = k)) as [->|Hne].
  - exists (f d). rewrite lookup_alter_eq, Hd. eauto.
  - exists d. rewrite lookup_alter_ne by done. eauto using later_refl.
Qed.

Lemma event_grows s ev : allows s ev → grows s (apply_event ev s).
Proof.
  destruct ev as [t id row|t id|t a row|t a|t al row|t al u now|t al|t id row|t id row|t id ap now|t id row|t id row|t id row];
    simpl; intros Hok; try by apply grows_tables.
  - destruct Hok as [_ Href]. split; simpl; try done; [eauto using later_refl|].
    intros t' a rid r Ha Hr Hra. apply map_lookup_filter_Some. split; [done|]. simpl. intros [-> Hid].
    rewrite <-Hra, Hid in Ha. congruence.
  - apply grows_tables; try done. apply insert_subseteq, (pu_new _ _ _ _ _ _ Hok).
  - destruct Hok as [Hnew _]. split; try done. intros k d Hd. simpl. exists d.
    rewrite lookup_insert_ne by congruence. eauto using later_refl.
  - destruct Hok as (d & Hd & Hp & _). apply grows_alter. intros d' Hd'. simplify_eq. by apply later_approved.
  - destruct Hok as [Hnew _]. split; simpl; try done; [by apply insert_subseteq|eauto using later_refl].
  - destruct Hok as [Hnew _]. split; simpl; try done; [by apply insert_subseteq|eauto using later_refl].
  - destruct Hok as (_ & _ & d & th & r & Hd & _ & Hst & _). destruct (ob_halted row).
    + eapply grows_trans; [apply grows_alter|by apply grows_tables]. intros d' Hd'. simplify_eq. by apply later_halted.
    + by apply grows_tables.
Qed.

(** ** The invariant *)
Definition profile_ok (t : uuid) (alias : string) (r : StoredProfile) : Prop :=
  profile_create_ok bad_netloc alias (mf_profile r) = true ∧
  startswith ("vault://tenant/" +:+ uuid_text t +:+ "/") (mr_secret_ref (mf_profile r)) = true ∧
  (alias ∉ mr_fallback_aliases (mf_profile r)) ∧ NoDup (mr_fallback_aliases (mf_profile r)).

Record release_ok (t : uuid) (r : AgentRelease) : Prop := {
  lk_profiles : Forall2 (λ a m, ∃ row, profile_ok t a row ∧ m = profile_snapshot t a row)
    (rel_model_alias r :: rel_fallback_aliases r) (rel_model_profiles r);
  lk_fallbacks : ∃ first, head (rel_model_profiles r) = Some first ∧
    ∀ a, a ∈ rel_fallback_aliases r → a ∈ mo_fallback_aliases first;
  lk_hash : rel_content_hash r = sha256_hex (canonical (release_content (rel_draft_snapshot r)
    (rel_data_classification r) (rel_region r) (rel_fallback_aliases r) (rel_model_profiles r)));
}.

(** The releases of an application are numbered from 1 on, without gaps. *)
Definition release_at (s : ReleaseDb) (t a : uuid) (id : uuid) (v : Z) : Prop :=
  ∃ r, rd_releases s !! (t, id) = Some r ∧ rel_application_id r = a ∧ rel_version r = v.
Record numbered (s : ReleaseDb) (t a : uuid) : Prop := {
  nb_range : ∃ n, 0 ≤ n ∧ ∀ v, (∃ id, release_at s t a id v) ↔ 1 ≤ v ≤ n;
  nb_unique : ∀ id id' v, release_at s t a id v → release_at s t a id' v → id = id';
}.

Record ReleaseInv (s : ReleaseDb) : Prop := {
  iv_deployments : ∀ t id d, rd_deployments s !! (t, id) = Some d → deployment_ok s t d;
  iv_runs : ∀ t id run, rd_runs s !! (t, id) = Some run → run_ok s t run;
  iv_suites : ∀ t id suite, rd_suites s !! (t, id) = Some suite → jsonb_ok (JObj (su_thresholds suite)) = true;
  iv_profiles : ∀ t alias r, rd_profiles s !! (t, alias) = Some r → profile_ok t alias r;
  iv_releases : ∀ t id r, rd_releases s !! (t, id) = Some r → release_ok t r;
  iv_numbered : ∀ t a, numbered s t a;
}.

Lemma next_version_numbered s t a n :
  0 ≤ n → (∀ v, (∃ id, release_at s t a id v) ↔ 1 ≤ v ≤ n) → next_release_version t a s = n + 1.
Proof.
  intros Hn Hv. unfold next_release_version. f_equal. set (l := _ <$> _).
  assert (∀ v, v ∈ l ↔ 1 ≤ v ≤ n) as Hl.
  { intros v. rewrite <-Hv. unfold l. rewrite list_elem_of_fmap. split.
    - intros ([id r] & -> & [Hr Ha]%elem_of_application_releases). by exists id, r.
    - intros (id & r & Hr & Ha & <-). exists (id, r). by rewrite elem_of_application_releases. }
  destruct (foldr_max_spec l) as [Hmax Hin]. destruct Hin as [Hz|Hin].
  - rewrite Hz in *. destruct (Z.eq_dec n 0); [done|]. specialize (Hmax n). rewrite Hl in Hmax. lia.
  - rewrite Hl in Hin. destruct (Z.eq_dec n 0); [lia|]. specialize (Hmax n). rewrite Hl in Hmax. lia.
Qed.

Lemma numbered_same s s' t a : rd_releases s' = rd_releases s → numbered s t a → numbered s' t a.
Proof. intros Hr [H1 H2]. unfold release_at in *. split; unfold release_at; by rewrite Hr. Qed.

Lemma numbered_insert s t id row t' a :
  rd_releases s !! (t, id) = None → rel_version row = next_release_version t (rel_application_id row) s →
  numbered s t' a → numbered (set_releases <[(t, id) := row]> s) t' a.
Proof.
  intros Hnew Hver [(n & Hn & Hv) Huniq].
  assert (∀ id' v, release_at (set_releases <[(t, id) := row]> s) t' a id' v ↔
    release_at s t' a id' v ∨ (t' = t ∧ id' = id ∧ rel_application_id row = a ∧ rel_version row = v)) as Hat.
  { intros id' v. unfold release_at. simpl. destruct (decide ((t', id') = (t, id))) as [[= -> ->]|Hne].
    - rewrite lookup_insert_eq. split; [naive_solver|]. intros [(r & Hr & _)|]; [congruence|naive_solver].
    - rewrite lookup_insert_ne by congruence. split; [by left|]. intros [|(-> & -> & _)]; [done|congruence]. }
  destruct (decide (t' = t ∧ rel_application_id row = a)) as [[-> Ha]|Hother].
  - assert (rel_version row = n + 1) as Hrv by (rewrite Hver, Ha; by apply next_version_numbered).
    split.
    + exists (n + 1). split; [lia|]. intros v. setoid_rewrite Hat. split.
      * intros (id' & [Hold|(_ & _ & _ & <-)]); [|lia]. assert (1 ≤ v ≤ n) by (apply Hv; eauto). lia.
      * intros Hrange. destruct (decide (v = n + 1)) as [->|]; [exists id; right; by split_and!|].
        destruct (proj2 (Hv v)) as [id' Hid']; [lia|]. exists id'. by left.
    + assert (∀ id', ¬ release_at s t a id' (n + 1)) as Hfree.
      { intros id' Hat'. assert (1 ≤ n + 1 ≤ n) by (apply Hv; eauto). lia. }
      intros id1 id2 v. rewrite !Hat, Hrv. intros [H1|(_ & -> & _ & E1)] [H2|(_ & -> & _ & E2)]; subst; [eauto|..|done];
        exfalso; by eapply Hfree.
  - split.
    + exists n. split; [done|]. intros v. rewrite <-Hv. setoid_rewrite Hat. naive_solver.
    + intros id1 id2 v. rewrite !Hat. naive_solver.
Qed.

(** *** Deployments *)
Lemma approved_ok s t d now approver run_id :
  deployment_ok s t d → is_pending d → dp_initiator d ≠ approver → dp_version d + 1 < 2 ^ 31 →
  passes s t (dp_application_id d) (dp_release_id d) run_id →
  deployment_ok s t (approved_deployment now approver d).
Proof.
  intros [H1 H2 H3 H4 H5 H6 H7 H8] Hp Hne Hv Hpass.
  split; simpl; [done|lia|done|done|by unfold is_pending|by eexists| |done].
  intros _ _. exists approver, run_id. eauto.
Qed.
Lemma halted_ok s t d now :
  deployment_ok s t d → dp_status d = DEP_ACTIVE → dp_version d + 1 < 2 ^ 31 →
  deployment_ok s t (halted_deployment now d).
Proof.
  intros [H1 H2 H3 H4 H5 H6 H7 H8] Hp Hv. assert (¬ is_pending d) as Hn by (unfold is_pending; congruence).
  split; simpl; [done|lia|done|done|by unfold is_pending|intros _; by apply H6|intros _; apply (H7 Hn)|done].
Qed.

Lemma new_deployment_ok s t id row :
  ReleaseInv s → allows s (Deployed t id row) → deployment_ok (set_deployments <[(t, id) := row]> s) t row.
Proof.
  intros Hinv (Hnew & Happ & Hrel & Hroll & Hver & Hinit & Hrow).
  pose proof (current_deployment_spec t (dp_application_id row) (dp_environment row) s) as Hcur.
  set (cur := current_deployment t (dp_application_id row) (dp_environment row) s) in *.
  assert (dp_previous_release_id row = (λ c : uuid * DeploymentRow, dp_release_id c.2) <$> cur ∧
    dp_version row = match cur with Some c => dp_version c.2 + 1 | None => 1 end ∧
    (is_pending row → dp_environment row = PRODUCTION) ∧
    (¬ is_pending row → dp_environment row ≠ PRODUCTION ∧ is_Some (dp_activated_at row))) as (Hprev & Hv & Hpend & Hact).
  { rewrite Hrow. simpl. split_and!; [done..| |]; unfold is_pending; simpl; case_bool_decide; naive_solver. }
  split; try done.
  - split; [|done]. rewrite Hv. destruct cur as [[cid c]|]; [|lia]. simpl.
    destruct Hcur as [Hc _]. apply (iv_deployments _ Hinv) in Hc as [_ ? _ _ _ _ _ _]. lia.
  - rewrite Hprev. destruct cur; [done|auto].
  - intros Hn. by apply Hact.
  - intros Hn Hp. by destruct (Hact Hn).
  - intros r. rewrite Hprev. destruct cur as [[cid c]|]; [|done]. simpl. intros [= <-].
    destruct Hcur as (Hc & Ha & He & Hst & _). exists cid, c. simpl. rewrite lookup_insert_ne by congruence.
    split_and!; [done|by split|done|unfold is_pending; congruence].
Qed.

Lemma event_deployments s ev : ReleaseInv s → allows s ev →
  ∀ t id d, rd_deployments (apply_event ev s) !! (t, id) = Some d → deployment_ok (apply_event ev s) t d.
Proof.
  intros Hinv Hok t id d. pose proof (event_grows s ev Hok) as Hg.
  assert (∀ t id d, rd_deployments s !! (t, id) = Some d → deployment_ok (apply_event ev s) t d) as Hold.
  { intros. by eapply deployment_ok_grows; [| |by eapply iv_deployments]. }
  assert (∀ k (f : DeploymentRow → DeploymentRow) d,
    (∀ d0, rd_deployments s !! k = Some d0 → deployment_ok (apply_event ev s) k.1 (f d0)) →
    alter f k (rd_deployments s) !! (t, id) = Some d → deployment_ok (apply_event ev s) t d) as Halter.
  { intros k f d' Hf. destruct (decide ((t, id) = k)) as [<-|Hne]; [|rewrite lookup_alter_ne by done; apply Hold].
    rewrite lookup_alter_eq. intros (d0 & Hd0 & ->)%fmap_Some_1. by apply (Hf d0). }
  destruct ev as [| | | | | | | |t0 id0 row|t0 id0 ap now| | |t0 id0 row]; try apply Hold.
  - simpl. destruct (decide ((t, id) = (t0, id0))) as [[= -> ->]|Hne]; [|rewrite lookup_insert_ne by done; apply Hold].
    rewrite lookup_insert_eq. intros [= <-]. by apply new_deployment_ok.
  - destruct Hok as (d0 & Hd0 & Hp & Hne & Hv & Hgate & _). apply gate_passes in Hgate as [run_id Hpass].
    apply Halter. intros d' Hd'. simplify_eq. eapply approved_ok; [by eapply Hold|done..|].
    by eapply passes_grows.
  - destruct Hok as (_ & _ & d0 & th & r & Hd0 & _ & Hst & _ & _ & _ & Hv). unfold apply_event in *.
    destruct (ob_halted row); [|apply Hold]. apply Halter. intros d' Hd'. simplify_eq.
    by eapply halted_ok; [by eapply Hold|done|apply Hv].
Qed.

(** *** Profiles and releases *)
Lemma updated_profile_ok t alias u now r :
  allows empty_db (ProfileUpdated t alias u now) → profile_ok t alias r → profile_ok t alias (updated_profile now u r).
Proof.
  intros (Hu & Hs & Hf) (Hc & Hsec & Hnot & Hnd). unfold profile_ok, profile_create_ok, profile_update_ok, field_ok in *.
  simpl in *. rewrite !andb_true_iff in *. destruct_and!.
  repeat match goal with |- context [given ?f] => destruct (given f) eqn:?; simpl end; naive_solver.
Qed.

Lemma published_ok s t id row : ReleaseInv s → allows s (Published t id row) → release_ok t row.
Proof.
  intros Hinv [_ _ _ (first & Hfirst & Hsub & Hall) _ Hhash]. split; [| |done].
  - eapply Forall2_impl; [exact Hall|]. intros a m (r & Hr & ->). exists r. split; [by eapply iv_profiles|done].
  - inversion Hall as [|? m ? l (r & Hr & Hm) Htail]; subst. simplify_eq. eexists. split; [done|]. exact Hsub.
Qed.

Lemma event_runs s ev : ReleaseInv s → allows s ev →
  ∀ t id run, rd_runs (apply_event ev s) !! (t, id) = Some run → run_ok (apply_event ev s) t run.
Proof.
  intros Hinv Hok t id run. pose proof (event_grows s ev Hok) as Hg.
  assert (rd_runs s !! (t, id) = Some run → run_ok (apply_event ev s) t run) as Hold.
  { intros. by eapply run_ok_grows; [| |by eapply iv_runs]. }
  destruct ev as [| | | | | | | | | | |t0 id0 row|t0 id0 row]; try apply Hold;
    [|intros Hr; apply Hold; revert Hr; simpl; by destruct (ob_halted row)].
  simpl. destruct (decide ((t, id) = (t0, id0))) as [[= -> ->]|Hne]; [|rewrite lookup_insert_ne by done; apply Hold].
  rewrite lookup_insert_eq. intros [= <-]. destruct Hok as (_ & Hrel & Hev & _ & suite & r & Hs & Ha & He & _ & Hst).
  split; [done..|]. exists suite, r. split; [done|]. split; [done|]. split; [by eapply iv_suites|]. by split.
Qed.

Lemma event_numbered s ev t a : ReleaseInv s → allows s ev → numbered (apply_event ev s) t a.
Proof.
  intros Hinv Hok. pose proof (iv_numbered _ Hinv t a) as Hn.
  destruct ev as [|t0 id0| | | | | |t0 id0 row| | | | |t0 id0 row]; try by apply (numbered_same s).
  - destruct Hn as [(n & Hn0 & Hv) Huniq].
    assert (∀ id v, release_at (apply_event (ApplicationDropped t0 id0) s) t a id v ↔
      release_at s t a id v ∧ ¬ (t = t0 ∧ a = id0)) as Hat.
    { intros id v. unfold release_at. simpl. setoid_rewrite map_lookup_filter_Some. simpl. naive_solver. }
    destruct (decide (t = t0 ∧ a = id0)) as [Heq|Hne].
    + split; [exists 0; split; [done|]; intros v; setoid_rewrite Hat; split; [naive_solver|lia]|].
      intros id id' v. rewrite !Hat. naive_solver.
    + split; [exists n; split; [done|]; intros v; setoid_rewrite Hat; rewrite <-Hv; naive_solver|].
      intros id id' v. rewrite !Hat. naive_solver.
  - apply numbered_insert; [apply Hok|apply Hok|done].
  - apply (numbered_same s); [|done]. simpl. by destruct (ob_halted row).
Qed.

Lemma event_inv s ev : ReleaseInv s → allows s ev → ReleaseInv (apply_event ev s).
Proof.
  intros Hinv Hok. split; [by apply event_deployments|by apply event_runs| | | |intros; by apply event_numbered].
  - intros t id suite. pose proof (iv_suites _ Hinv t id suite) as Hold.
    destruct ev as [| | | | | | | | | |t0 id0 row| |t0 id0 row]; try exact Hold; [|simpl; by destruct (ob_halted row)].
    simpl. destruct (decide ((t, id) = (t0, id0))) as [[= -> ->]|Hne]; [|rewrite lookup_insert_ne by done; exact Hold].
    rewrite lookup_insert_eq. intros [= <-]. apply Hok.
  - intros t alias r. pose proof (iv_profiles _ Hinv t alias) as Hold.
    destruct ev as [| | | |t0 al row|t0 al u now|t0 al| | | | | |t0 id0 row]; try exact (Hold r);
      [..|simpl; by destruct (ob_halted row); apply Hold]; simpl.
    + destruct (decide ((t, alias) = (t0, al))) as [[= -> ->]|Hne]; [|rewrite lookup_insert_ne by done; apply Hold].
      rewrite lookup_insert_eq. intros [= <-]. apply Hok.
    + destruct (decide ((t, alias) = (t0, al))) as [[= -> ->]|Hne]; [|rewrite lookup_alter_ne by done; apply Hold].
      rewrite lookup_alter_eq. intros (r0 & Hr0 & ->)%fmap_Some_1. apply updated_profile_ok; auto.
    + rewrite lookup_delete_Some. intros [_ Hr]. by apply Hold.
  - intros t id r. pose proof (iv_releases _ Hinv t id r) as Hold.
    destruct ev as [|t0 id0| | | | | |t0 id0 row| | | | |t0 id0 row]; try exact Hold;
      [..|simpl; by destruct (ob_halted row)]; simpl.
    + intros [Hr _]%map_lookup_filter_Some. by apply Hold.
    + destruct (decide ((t, id) = (t0, id0))) as [[= -> ->]|Hne]; [|rewrite lookup_insert_ne by done; exact Hold].
      rewrite lookup_insert_eq. intros [= <-]. by eapply published_ok.
Qed.

Lemma empty_inv : ReleaseInv empty_db.
Proof.
  split; [by intros ? ? ? Hr; simpl in Hr; rewrite lookup_empty in Hr..|]. intros t a. assert (∀ id v, ¬ release_at empty_db t a id v) as Hno.
  { intros id v (r & Hr & _). simpl in Hr. by rewrite lookup_empty in Hr. }
  split; [exists 0; split; [done|]; intros v; split; [intros [id Hr]; by destruct (Hno id v)|lia]|].
  intros id id' v Hr. by destruct (Hno id v).
Qed.
End Invariant.
