(* ===== verification/ReleaseTheorems.v ===== *)
(** * Theorems on the release process

    Endpoints run in any order, their transactions may be lost before or after the commit,
    and other components change their own tables at any time.  [deployment_query] is what
    the agent worker's route resolver reads. *)

From S2P Require Import Prelude PyNum Uuids Interleave ExecutionBus AuditChain ToolRegistry AdminAccess PyRegex Governance PolicyBundles LlmGateway GatewayAdapters GatewayScenario Pagination AgentDrafts ModelProfiles Evaluations AgentReleases EvalSuites ReleaseProcess ReleaseFacts.
From S2P Require AgentWorker.
Open Scope string_scope.
Open Scope list_scope.
Open Scope Z_scope.

Section Releases.
Context (sha256_hex : string → string) (canonical : json → string) (bad_netloc : string → bool).
Context (dumps : json → string) (uuid_at : nat → uuid) (eval_dumps py_repr : json → string).
Abbreviation calls := (endpoint sha256_hex canonical bad_netloc dumps uuid_at eval_dumps py_repr).
Abbreviation lists := (reading_endpoint sha256_hex dumps uuid_at).

Inductive release_step (s s' : ReleaseDb) : Prop :=
  | step_call m r : calls m → m s = (r, s') → release_step s s'
  | step_list m r : lists m → m s = (r, s') → release_step s s'
  | step_elsewhere : erase s' = erase s → release_step s s'.

(** States that the system reaches from empty tables. *)
Definition reachable (s : ReleaseDb) : Prop := ∃ s0, erase s0 = empty_db ∧ rtc release_step s0 s.

Lemma step_moved s s' : release_step s s' → moved sha256_hex canonical bad_netloc s s'.
Proof.
  intros [m r Hm Hr|m r Hm Hr|He]; [by eapply endpoint_moves|left; by eapply reading_quiet|by left].
Qed.
Lemma step_grows s s' : release_step s s' → grows (erase s) (erase s').
Proof. intros [->|(ev & Hok & ->)]%step_moved; [apply grows_refl|by eapply event_grows]. Qed.
Lemma steps_grow s s' : rtc release_step s s' → grows (erase s) (erase s').
Proof. induction 1 as [|s s1 s' H _ IH]; [apply grows_refl|]. eapply grows_trans; [by apply step_grows|done]. Qed.
Lemma step_inv s s' : release_step s s' →
  ReleaseInv sha256_hex canonical bad_netloc (erase s) → ReleaseInv sha256_hex canonical bad_netloc (erase s').
Proof. intros [->|(ev & Hok & ->)]%step_moved; [done|]. intros Hinv. by eapply event_inv. Qed.
Lemma release_reachable_inv s : reachable s → ReleaseInv sha256_hex canonical bad_netloc (erase s).
Proof.
  intros (s0 & H0 & Hsteps). assert (ReleaseInv sha256_hex canonical bad_netloc (erase s0)) as Hinv
    by (rewrite H0; apply empty_inv). clear H0. induction Hsteps; eauto using step_inv.
Qed.

(** ** Refinement *)


(** ** What production serves *)

(** The query of [DatabaseDeploymentRouteResolver.resolve]. *)
Definition deployment_query (t application_id : uuid) (e : DeploymentEnvironment) (s : ReleaseDb)
    : option AgentWorker.DeploymentRoute :=
  (λ c : uuid * DeploymentRow,
    {| AgentWorker.dr_release_id := uuid_text (dp_release_id c.2);
       AgentWorker.dr_previous_release_id := uuid_text <$> dp_previous_release_id c.2;
       AgentWorker.dr_rollout_percentage := dp_rollout_percentage c.2 |})
  <$> current_deployment t application_id e s.

(** A release that production may serve: a deployment of it was initiated and approved by
    different people, and a stored evaluation of it for production has evidence that meets
    its suite. *)
Definition cleared (s : ReleaseDb) (t a r : uuid) : Prop :=
  ∃ id d approver run_id run suite,
    rd_deployments s !! (t, id) = Some d ∧ ¬ is_pending d ∧ dp_application_id d = a ∧ dp_environment d = PRODUCTION ∧
    dp_release_id d = r ∧ dp_approver d = Some approver ∧ approver ≠ dp_initiator d ∧
    rd_runs s !! (t, run_id) = Some run ∧ ru_release_id run = r ∧ ru_environment run = PRODUCTION ∧
    rd_suites s !! (t, ru_suite_id run) = Some suite ∧
    evidence_meets (su_thresholds suite) (su_assertions suite) (ru_evidence run).

Lemma run_meets s t id run : ReleaseInv sha256_hex canonical bad_netloc (erase s) →
  rd_runs s !! (t, id) = Some run →
  ∃ suite, rd_suites s !! (t, ru_suite_id run) = Some suite ∧
    (ru_status run = EVAL_PASSED ↔ evidence_meets (su_thresholds suite) (su_assertions suite) (ru_evidence run)).
Proof.
  intros Hinv Hrun. destruct (iv_runs _ _ _ _ Hinv _ _ _ Hrun) as [_ He (suite & r & Hs & _ & Ht & Hev & Hst)].
  exists suite. split; [exact Hs|]. rewrite Hst. exact (passed_iff _ _ _ _ He Ht Hev).
Qed.

Lemma approved_cleared s t id d : ReleaseInv sha256_hex canonical bad_netloc (erase s) →
  rd_deployments s !! (t, id) = Some d → dp_environment d = PRODUCTION → ¬ is_pending d →
  cleared s t (dp_application_id d) (dp_release_id d).
Proof.
  intros Hinv Hd Henv Hn. destruct (iv_deployments _ _ _ _ Hinv _ _ _ Hd) as [_ _ _ _ _ _ Happ _].
  destruct (Happ Hn Henv) as (approver & run_id & Hap & Hne & run & Hrun & _ & Hrel & Hre & Hst).
  destruct (run_meets s t run_id run Hinv Hrun) as (suite & Hsuite & Hmeets).
  exists id, d, approver, run_id, run, suite. do 10 (split; [done|]). split; [done|]. by apply Hmeets.
Qed.

Lemma cleared_grows s s' t a r : grows (erase s) (erase s') → cleared s t a r → cleared s' t a r.
Proof.
  intros Hg (id & d & ap & run_id & run & suite & Hd & Hn & Ha & He & Hr & Hap & Hne & Hrun & Hrr & Hre & Hsu & Hm).
  destruct (gr_deployments _ _ Hg _ _ Hd) as (d' & Hd' & Hl). pose proof Hl as [([Hta Hte] & Htr & Hti) _ _ _ Hkeep _].
  destruct (Hkeep Hn) as [Hap' _]. exists id, d', ap, run_id, run, suite.
  split; [exact Hd'|]. split; [by eapply later_not_pending|]. do 5 (split; [congruence|]).
  split; [exact (lookup_weaken _ _ _ _ Hrun (gr_runs _ _ Hg))|]. do 2 (split; [done|]).
  split; [exact (lookup_weaken _ _ _ _ Hsu (gr_suites _ _ Hg))|done].
Qed.

(** C5: What the worker routes a production session to is cleared: whichever release the
    rollout share selects, the new one or the one before it, two different people stood
    behind a deployment of it and stored evidence meets its evaluation suite.  This holds
    at any later time too, so also for a route the resolver took from its cache. *)
Theorem production_serves_cleared sha256 s0 s t a route session :
  reachable s0 → rtc release_step s0 s → deployment_query t a PRODUCTION s0 = Some route →
  ∃ r, AgentWorker.choose_release sha256 route session = uuid_text r ∧ cleared s t a r.
Proof.
  intros Hreach Hsteps Hq. pose proof (release_reachable_inv _ Hreach) as Hinv. pose proof (steps_grow _ _ Hsteps) as Hg.
  unfold deployment_query in Hq. pose proof (current_deployment_spec t a PRODUCTION s0) as Hc.
  destruct (current_deployment t a PRODUCTION s0) as [[id d]|]; [|done]. simplify_eq/=.
  destruct Hc as (Hd & <- & He & Hst & _). assert (¬ is_pending d) as Hn by (unfold is_pending; congruence).
  assert (cleared s t (dp_application_id d) (dp_release_id d)) as Hnew
    by (eapply cleared_grows; [done|]; by eapply approved_cleared).
  unfold AgentWorker.choose_release. simpl. destruct (dp_previous_release_id d) as [r|] eqn:Hr; simpl; [|by eexists].
  destruct (_ && _); [|by eexists]. exists r. split; [done|]. eapply cleared_grows; [done|].
  destruct (dk_previous _ _ _ (iv_deployments _ _ _ _ Hinv _ _ _ Hd) r Hr) as (id' & d' & Hd' & [Ha' He'] & <- & Hn').
  rewrite <-Ha'. eapply approved_cleared; [done|exact Hd'|congruence|done].
Qed.

(** ** The life of a deployment *)

(** C24: A deployment keeps what it deploys, where, and what it replaces; its status only
    moves from pending to active to halted, each move raising its version by one; an
    approval, once given, stays, and a halted deployment never changes again. *)
Theorem deployments_only_advance s0 s t id d :
  reachable s0 → rtc release_step s0 s → rd_deployments s0 !! (t, id) = Some d →
  ∃ d', rd_deployments s !! (t, id) = Some d' ∧ later d d' ∧ 1 ≤ dp_version d' < 2 ^ 31 ∧
    (dp_status d = DEP_HALTED → d' = d) ∧ (is_pending d' → dp_environment d' = PRODUCTION).
Proof.
  intros Hreach Hsteps Hd. pose proof (steps_grow _ _ Hsteps) as Hg.
  assert (reachable s) as Hr by (destruct Hreach as (s00 & ? & ?); exists s00; split; [done|by etrans]).
  destruct (gr_deployments _ _ Hg _ _ Hd) as (d' & Hd' & Hl). exists d'. split; [exact Hd'|]. split; [done|].
  destruct (iv_deployments _ _ _ _ (release_reachable_inv _ Hr) _ _ _ Hd') as [_ Hv _ _ Hp _ _ _].
  split; [done|]. split; [|done]. intros Hh. apply (lt_same _ _ Hl). pose proof (lt_status _ _ Hl) as Hrank.
  rewrite Hh in Hrank |- *. by destruct (dp_status d').
Qed.

(** ** Releases *)

(** Releases are immutable and numbered.  The releases of an application carry the
    versions 1 to n without gap or repetition, their content hash covers the draft and the
    profiles they were made of, and a release of an application that was deployed or
    evaluated keeps every field for good. *)
Theorem releases_immutable_and_numbered s0 s t id r :
  reachable s0 → rtc release_step s0 s → rd_releases s0 !! (t, id) = Some r →
  (application_referenced t (rel_application_id r) s0 = true → rd_releases s !! (t, id) = Some r) ∧
  rel_content_hash r = sha256_hex (canonical (release_content (rel_draft_snapshot r)
    (rel_data_classification r) (rel_region r) (rel_fallback_aliases r) (rel_model_profiles r))) ∧
  (∃ n, ∀ v, (∃ id', release_at s0 t (rel_application_id r) id' v) ↔ 1 ≤ v ≤ n) ∧
  (∀ id' r', rd_releases s0 !! (t, id') = Some r' → rel_application_id r' = rel_application_id r →
     rel_version r' = rel_version r → id' = id).
Proof.
  intros Hreach Hsteps Hr. pose proof (release_reachable_inv _ Hreach) as Hinv. pose proof (steps_grow _ _ Hsteps) as Hg.
  split; [intros Href; by apply (gr_released _ _ Hg t _ id r Href)|].
  split; [apply (lk_hash _ _ _ _ _ (iv_releases _ _ _ _ Hinv _ _ _ Hr))|].
  destruct (iv_numbered _ _ _ _ Hinv t (rel_application_id r)) as [(n & _ & Hn) Huniq].
  split; [exists n; exact Hn|]. intros id' r' Hr' Ha Hv. apply (Huniq id' id (rel_version r)); [|by exists r].
  by exists r'.
Qed.

(** ** Evaluations *)

(** C27: The stored decision of an evaluation is exact: the run has passed when every
    deterministic assertion of its suite is true in the evidence and quality, latency and
    cost are finite numbers on the right side of their thresholds, where a threshold that
    is missing or negative counts as zero; it has failed otherwise. *)
Theorem evaluations_are_exact s t id run :
  reachable s → rd_runs s !! (t, id) = Some run →
  ∃ suite, rd_suites s !! (t, ru_suite_id run) = Some suite ∧
    (ru_status run = EVAL_PASSED ↔ evidence_meets (su_thresholds suite) (su_assertions suite) (ru_evidence run)).
Proof. intros Hreach. apply run_meets, release_reachable_inv, Hreach. Qed.

(** ** Approvals *)

(** A command that answers afresh has run its body. *)
Lemma command_fresh fault now p t key operation payload body s j s' :
  command sha256_hex dumps uuid_at fault now p t key operation payload body s = (Ok (j, false), s') →
  ∃ s1 res s2, erase s1 = erase s ∧ body s1 = (Ok res, s2) ∧ erase s' = erase s2 ∧ j = cr_result res.
Proof.
  intros [_ Hr]%transaction_Ok. apply bind_Ok in Hr as (replayed & s1 & H1 & Hr).
  destruct replayed as [x|]; [by apply mret_Ok in Hr as [? _]|]. run_inv.
  match goal with H : mret _ _ = _ |- _ => apply mret_Ok in H as [? ->] end. simplify_eq.
  eexists s1, _, _. split; [by eapply quiet_on_admin|]. split; [eassumption|]. split; [|done].
  repeat match goal with H : rel_on_admin _ _ = _ |- _ => apply quiet_on_admin in H end. congruence.
Qed.

Lemma versioned_reply_Ok status name r s reply s' :
  versioned_reply status name r s = (Ok reply, s') →
  s' = s ∧ rp_body reply = r.1 ∧ rp_replayed reply = r.2 ∧ rp_status reply = status r.1 ∧
  ∃ m v, r.1 = JObj m ∧ m !! name = Some (JNum v) ∧ rp_etag reply = Some (quoted (pretty v)).
Proof.
  unfold versioned_reply, etag_of. destruct r as [[| | | | | |m] b]; intros Hr; run_inv; simpl in *; try discriminate.
  destruct (m !! name) as [[| |v| | | |]|] eqn:Hm; run_inv; try discriminate. split_and!; [done..|]. by exists m, v.
Qed.

Lemma current_of_newest t a e s id d now :
  rd_deployments s !! (t, id) = Some d → dp_application_id d = a → dp_environment d = e → dp_status d = DEP_ACTIVE →
  dp_activated_at d = Some now →
  (∀ id' d', (id', d') ∈ active_deployments t a e s → id' ≠ id → ∃ at_, dp_activated_at d' = Some at_ ∧ at_ < now) →
  current_deployment t a e s = Some (id, d).
Proof.
  intros Hd Ha He Hst Hat Hold. pose proof (current_deployment_spec t a e s) as Hc.
  assert ((id, d) ∈ active_deployments t a e s) as Hin by by apply elem_of_active.
  destruct (current_deployment t a e s) as [[cid c]|]; [|rewrite Hc in Hin; by apply not_elem_of_nil in Hin].
  destruct Hc as (Hcd & Hca & Hce & Hcst & Hmax). destruct (decide (cid = id)) as [->|Hne]; [congruence|].
  destruct (Hold cid c) as (at_ & Hcat & Hlt); [by apply elem_of_active|done|]. specialize (Hmax id d Hin).
  unfold activation_key in Hmax. simpl in Hmax. rewrite Hat, Hcat in Hmax. simpl in Hmax.
  rewrite (proj2 (Z.ltb_lt at_ now) Hlt) in Hmax. done.
Qed.

(** What an approval that is accepted has checked, and what it writes. *)
Record approval_ok (p : AdminPrincipal) (t a id : uuid) (v : Z) (s : ReleaseDb) (d : DeploymentRow) : Prop := {
  ao_row : rd_deployments s !! (t, id) = Some d ∧ dp_application_id d = a;
  ao_pending : is_pending d ∧ dp_version d = v;
  ao_person : dp_initiator d ≠ ap_subject p;
  ao_gate : production_eval_gate_error t a (dp_release_id d) s = None;
  ao_pointer : dp_previous_deployment_id d = fst <$> current_deployment t a PRODUCTION s ∧
    dp_previous_deployment_version d = (λ c : uuid * DeploymentRow, dp_version c.2) <$> current_deployment t a PRODUCTION s;
}.

Lemma approve_body_Ok now p t a id v s res s' : approve_body now p t a id v s = (Ok res, s') →
  ∃ d, approval_ok p t a id v s d ∧
    s' = set_deployments <[(t, id) := approved_deployment now (ap_subject p) d]> s ∧
    cr_result res = deployment_json t id (approved_deployment now (ap_subject p) d).
Proof.
  unfold approve_body. cbv zeta. intros Hrun. run_inv.
  match goal with H : application_row _ _ _ = _ |- _ => apply application_row_Ok in H as [_ ->] end.
  match goal with H : deployment_of _ _ _ _ = _ |- _ => apply deployment_of_Ok in H as (? & ? & ->) end.
  destruct (production_eval_gate_error _ _ _ _) eqn:Hgate in *; run_inv.
  repeat match goal with
  | H : bool_decide _ = true |- _ => apply bool_decide_eq_true in H
  | H : negb (bool_decide _) = true |- _ => apply negb_true_iff, bool_decide_eq_false in H
  | H : (_ =? _) = true |- _ => apply Z.eqb_eq in H
  end. simplify_eq. eexists. split; [|done]. by split.
Qed.

Lemma approval_ok_erase p t a id v s s1 d : erase s1 = erase s → approval_ok p t a id v s1 d → approval_ok p t a id v s d.
Proof.
  intros He Hok. assert (approval_ok p t a id v (erase s1) d) as H1 by (destruct Hok; by split).
  rewrite He in H1. destruct H1. by split.
Qed.

(** An approval that is accepted was given by another person than the initiator, on the
    version they saw, behind an open evaluation gate, and while the deployment to be
    replaced was still the one in force at the same version.  It changes this deployment
    only, and when all others were activated before, production routes to its release. *)
Theorem approval_takes_over f1 f2 now p t a id key h s reply s' :
  reachable s →
  approve_deployment sha256_hex dumps uuid_at f1 f2 now p t a id key h s = (Ok reply, s') → rp_replayed reply = false →
  ∃ d, parse_if_match h = inr (dp_version d) ∧ approval_ok p t a id (dp_version d) s d ∧
    rp_etag reply = Some (quoted (pretty (dp_version d + 1))) ∧
    rd_deployments s' = <[(t, id) := approved_deployment now (ap_subject p) d]> (rd_deployments s) ∧
    ((∀ id' d', (id', d') ∈ active_deployments t a PRODUCTION s → ∃ at_, dp_activated_at d' = Some at_ ∧ at_ < now) →
     AgentWorker.dr_release_id <$> deployment_query t a PRODUCTION s' = Some (uuid_text (dp_release_id d))).
Proof.
  intros Hreach Hrun Hfresh. unfold approve_deployment in Hrun. apply bind_Ok in Hrun as ([] & s1 & Hacc%quiet_on_admin & Hrun).
  apply bind_Ok in Hrun as (v & s2 & Hif & Hrun). unfold if_match_version in Hif.
  destruct (parse_if_match h) as [|v'] eqn:Hh; run_inv.
  match goal with H : command _ _ _ _ _ _ _ _ _ _ _ _ = (Ok ?r, _) |- _ => destruct r as [j b]; rename H into Hcmd end.
  match goal with H : versioned_reply _ _ _ _ = _ |- _ => apply versioned_reply_Ok in H
    as (<- & _ & Hrep & _ & m & ver & Hbody & Hver & Het) end.
  simpl in *. rewrite Hfresh in Hrep. subst b. apply command_fresh in Hcmd as (s3 & res & s4 & H3 & Hbdy & H4 & ->).
  apply approve_body_Ok in Hbdy as (d & Hok & -> & Hres). rewrite Hres in Hbody. injection Hbody as <-.
  rewrite Hacc in H3. apply (approval_ok_erase _ _ _ _ _ _ _ _ H3) in Hok.
  pose proof Hok as [[Hd Ha] [Hp Hv] _ _ _]. subst v'. exists d.
  assert (rd_deployments s3 = rd_deployments s) as Hd3 by exact (f_equal rd_deployments H3).
  assert (rd_deployments s' = <[(t, id) := approved_deployment now (ap_subject p) d]> (rd_deployments s)) as Hd'.
  { rewrite <-Hd3. exact (f_equal rd_deployments H4). }
  split; [done|]. split; [done|]. split; [injection Hver as <-; exact Het|]. split; [done|]. intros Hold.
  assert (dp_environment d = PRODUCTION) as He
    by exact (dk_pending _ _ _ (iv_deployments _ _ _ _ (release_reachable_inv _ Hreach) _ _ _ Hd) Hp).
  unfold deployment_query.
  rewrite (current_of_newest t a PRODUCTION s' id (approved_deployment now (ap_subject p) d) now); [done| |done..|].
  - rewrite Hd', lookup_insert_eq. done.
  - intros id' d' Hin Hne. apply elem_of_active in Hin as (Hin & ? & ? & ?).
    rewrite Hd', lookup_insert_ne in Hin by congruence. apply (Hold id' d'). by apply elem_of_active.
Qed.
End Releases.

(** ** Published releases at the model gateway

    A release that the endpoints published is one the LLM gateway can serve: it finds the
    profile of the model and of every fallback in the snapshot, and their secret references
    are ones the vault provider accepts for the tenant. *)

(** ** Texts *)
Lemma chars_app s1 s2 : chars (s1 +:+ s2) = chars s1 ++ chars s2.
Proof. unfold chars. induction s1 as [|c s1 IH]; simpl; [done|]. f_equal. exact IH. Qed.
Lemma text_of_chars s : text_of (chars s) = s.
Proof. apply String.string_of_list_ascii_of_string. Qed.
Lemma all_chars_forallb P s : all_chars P s = forallb P (chars s).
Proof. unfold chars. induction s as [|c s IH]; simpl; [done|]. by rewrite IH. Qed.
Lemma uuid_text_chars u : forallb hex_or_hyphen (chars (uuid_text u)) = true.
Proof. rewrite <-all_chars_forallb. unfold uuid_text. by rewrite !all_chars_app, !hex_text_chars. Qed.

Lemma strip_prefix_Some prefix l rest : strip_prefix prefix l = Some rest ↔ l = prefix ++ rest.
Proof.
  revert l. induction prefix as [|c prefix IH]; intros [|d l]; simpl; [naive_solver..|].
  destruct (Ascii.eqb_spec c d) as [->|Hne]; [rewrite IH|]; split; try congruence; by intros [= ->].
Qed.

Lemma break_app f l1 c l2 : forallb (λ x, negb (f x)) l1 = true → f c = true → break f (l1 ++ c :: l2) = (l1, c :: l2).
Proof.
  intros Hl Hc. induction l1 as [|x l1 IH]; simpl in *; [by rewrite Hc|].
  apply andb_true_iff in Hl as [Hx%negb_true_iff Hl]. by rewrite Hx, IH.
Qed.
Lemma break_none f l : forallb (λ x, negb (f x)) l = true → break f l = (l, []).
Proof.
  intros Hl. induction l as [|x l IH]; simpl in *; [done|].
  apply andb_true_iff in Hl as [Hx%negb_true_iff Hl]. by rewrite Hx, IH.
Qed.
Lemma break_spec f l a b : break f l = (a, b) →
  l = a ++ b ∧ forallb (λ x, negb (f x)) a = true ∧ match b with c :: _ => f c = true | [] => True end.
Proof.
  revert a b. induction l as [|x l IH]; intros a b; simpl; [by intros [= <- <-]|].
  destruct (f x) eqn:Hx; [by intros [= <- <-]|]. destruct (break f l) as [a' b'] eqn:Hb. intros [= <- <-].
  destruct (IH a' b' eq_refl) as (-> & Ha & Hc). split_and!; [done| |done]. simpl. by rewrite Hx.
Qed.
Lemma break_app_no f l1 l2 : forallb (λ x, negb (f x)) l1 = true →
  break f (l1 ++ l2) = (l1 ++ (break f l2).1, (break f l2).2).
Proof.
  intros Hl. induction l1 as [|x l1 IH]; simpl in *; [by destruct (break f l2)|].
  apply andb_true_iff in Hl as [Hx%negb_true_iff Hl]. by rewrite Hx, IH.
Qed.
Lemma forallb_imp {A} (P Q : A → bool) l : (∀ x, P x = true → Q x = true) → forallb P l = true → forallb Q l = true.
Proof. rewrite !forallb_forall. auto. Qed.

(** No character of a secret reference has a meaning for [urlsplit] beyond its place. *)
Definition reference_char (c : Ascii.ascii) : bool :=
  negb (unsafe_byte c) && negb (is_char 35 c) && negb (is_char 63 c).
Lemma reference_chars c : (tenant_char c || path_char c || field_char c || hex_or_hyphen c) = true → reference_char c = true.
Proof. destruct c as [[] [] [] [] [] [] [] []]; by vm_compute. Qed.
Lemma tenant_chars c : tenant_char c = true → negb (is_char 47 c) = true.
Proof. destruct c as [[] [] [] [] [] [] [] []]; by vm_compute. Qed.
Lemma hex_chars c : hex_or_hyphen c = true → negb (is_char 47 c) = true ∧ negb (is_char 35 c) = true.
Proof. destruct c as [[] [] [] [] [] [] [] []]; by vm_compute. Qed.

(** The parts of a reference that a profile of the tenant may hold. *)
Lemma secret_reference_parts t ref :
  is_secret_reference ref = true → startswith ("vault://tenant/" +:+ uuid_text t +:+ "/") ref = true →
  ∃ path name, chars ref = chars "vault://tenant/" ++ (chars (uuid_text t) ++ Ascii.ascii_of_nat 47 :: path)
      ++ Ascii.ascii_of_nat 35 :: name ∧
    forallb reference_char path = true ∧ forallb reference_char name = true ∧ name ≠ [].
Proof.
  unfold is_secret_reference, startswith. intros [_ Href]%andb_true_iff Hstart%bool_decide_eq_true.
  destruct Hstart as [rest2 Hs2%strip_prefix_Some].
  destruct (strip_prefix _ (chars ref)) as [rest|] eqn:Hs; [|done]. apply strip_prefix_Some in Hs.
  assert (rest = chars (uuid_text t) ++ Ascii.ascii_of_nat 47 :: rest2) as Hrest.
  { rewrite Hs, !chars_app in Hs2. rewrite <-!app_assoc in Hs2. by apply app_inv_head in Hs2. }
  destruct (break (is_char 35) rest) as [loc frag] eqn:Hb. pose proof (break_spec _ _ _ _ Hb) as (Hsplit & _ & Hhash).
  destruct frag as [|h name]; [done|].
  assert (h = Ascii.ascii_of_nat 35) as ->.
  { unfold is_char in Hhash. apply Nat.eqb_eq in Hhash. by rewrite <-Hhash, Ascii.ascii_nat_embedding. }
  assert (∃ path, loc = chars (uuid_text t) ++ Ascii.ascii_of_nat 47 :: path) as [path Hloc].
  { rewrite Hrest, break_app_no in Hb by (eapply forallb_imp; [|apply uuid_text_chars]; intros; by apply hex_chars).
    injection Hb as <- _. simpl. destruct (break (is_char 35) rest2) as [x y]. by exists x. }
  rewrite !andb_true_iff in Href. destruct Href as [[[Hpath Hname] Hlen] _].
  exists path, name. split; [by rewrite Hs, Hsplit, Hloc|]. split; [|split].
  - assert (forallb (λ c, tenant_char c || path_char c) loc = true) as Hall.
    { unfold secret_path_ok in Hpath. rewrite <-(take_drop 36 loc). rewrite forallb_app.
      destruct (drop 36 loc) as [|slash [|c rest']]; [by rewrite andb_false_r in Hpath..|].
      rewrite !andb_true_iff in Hpath. destruct Hpath as [[_ Ht] [[[Hsl Hc] Hp] _]]. rewrite andb_true_iff. split.
      - eapply forallb_imp; [|exact Ht]. by intros x ->.
      - simpl. rewrite !andb_true_iff. split_and!.
        + apply orb_true_iff. right. unfold path_char. rewrite Hsl. by rewrite !orb_true_r.
        + apply orb_true_iff. right. unfold path_char. rewrite Hc. done.
        + eapply forallb_imp; [|exact Hp]. intros x ->. apply orb_true_r. }
    rewrite Hloc, forallb_app in Hall. apply andb_true_iff in Hall as [_ Hall]. simpl in Hall.
    apply (forallb_imp (λ c, tenant_char c || path_char c)); [|done]. intros x Hx. apply reference_chars. by rewrite Hx.
  - eapply forallb_imp; [|exact Hname]. intros x Hx. apply reference_chars. rewrite Hx. by rewrite orb_true_r.
  - intros ->. done.
Qed.

Lemma is_char_of_nat n : (n < 256)%nat → is_char n (Ascii.ascii_of_nat n) = true.
Proof. intros Hn. unfold is_char. rewrite Ascii.nat_ascii_embedding by done. apply Nat.eqb_refl. Qed.

Lemma urlsplit_reference bad loc name :
  bad "tenant" = false → forallb reference_char loc = true → forallb reference_char name = true →
  urlsplit bad (text_of (chars "vault://tenant/" ++ loc ++ Ascii.ascii_of_nat 35 :: name)) =
  Some {| us_scheme := "vault"; us_netloc := "tenant"; us_path := text_of (Ascii.ascii_of_nat 47 :: loc);
          us_query := ""; us_fragment := text_of name |}.
Proof.
  intros Hbad Hloc Hname. unfold urlsplit. set (tail := loc ++ Ascii.ascii_of_nat 35 :: name).
  assert (chars (text_of (chars "vault://tenant/" ++ tail)) = chars "vault://tenant/" ++ tail) as ->
    by apply String.list_ascii_of_string_of_list_ascii.
  change (lstrip_with control_or_space (chars "vault://tenant/" ++ tail)) with (chars "vault://tenant/" ++ tail).
  rewrite filter_all.
  2: { intros c [Hc|[Hc|[->|Hc]%elem_of_cons]%elem_of_app]%elem_of_app; [| |done|].
       - unfold chars in Hc. simpl in Hc. repeat (apply elem_of_cons in Hc as [->|Hc]; [done|]). by apply not_elem_of_nil in Hc.
       - apply list_elem_of_In in Hc. rewrite forallb_forall in Hloc. specialize (Hloc c Hc). unfold reference_char in Hloc.
         rewrite !andb_true_iff, !negb_true_iff in Hloc. tauto.
       - apply list_elem_of_In in Hc. rewrite forallb_forall in Hname. specialize (Hname c Hc). unfold reference_char in Hname.
         rewrite !andb_true_iff, !negb_true_iff in Hname. tauto. }
  change (chars "vault://tenant/" ++ tail) with
    (chars "vault" ++ Ascii.ascii_of_nat 58 :: (chars "//tenant" ++ Ascii.ascii_of_nat 47 :: tail)).
  rewrite break_app by done.
  change (chars "//tenant" ++ Ascii.ascii_of_nat 47 :: tail) with
    (Ascii.ascii_of_nat 47 :: Ascii.ascii_of_nat 47 :: (chars "tenant" ++ Ascii.ascii_of_nat 47 :: tail)).
  remember (chars "tenant" ++ Ascii.ascii_of_nat 47 :: tail) as rest eqn:Hrest.
  match goal with |- (let '(_, _) := ?m in _) = _ =>
    change m with (chars "vault", Ascii.ascii_of_nat 47 :: Ascii.ascii_of_nat 47 :: rest) end.
  cbv beta iota. change (is_char 47 (Ascii.ascii_of_nat 47) && is_char 47 (Ascii.ascii_of_nat 47)) with true.
  cbv beta iota. rewrite Hrest, break_app by done. unfold split_at at 1, tail.
  assert (∀ l, forallb reference_char l = true →
    forallb (λ x, negb (is_char 35 x)) l = true ∧ forallb (λ x, negb (is_char 63 x)) l = true) as Hclean.
  { intros l Hl. split; (eapply forallb_imp; [|exact Hl]); intros x; unfold reference_char; rewrite !andb_true_iff; tauto. }
  destruct (Hclean _ Hloc) as [H35 H63].
  change (Ascii.ascii_of_nat 47 :: loc ++ Ascii.ascii_of_nat 35 :: name) with
    ((Ascii.ascii_of_nat 47 :: loc) ++ Ascii.ascii_of_nat 35 :: name).
  rewrite break_app; [|simpl; exact H35|done]. cbv beta iota. unfold split_at. rewrite break_none; [|simpl; exact H63].
  cbv beta iota. change (text_of (chars "tenant")) with "tenant". by rewrite Hbad.
Qed.

Lemma vault_accepts bad t ref :
  bad "tenant" = false → is_secret_reference ref = true →
  startswith ("vault://tenant/" +:+ uuid_text t +:+ "/") ref = true →
  ∃ path name, vault_reference bad (uuid_text t) ref = Ok (uuid_text t +:+ "/" +:+ path, name).
Proof.
  intros Hbad Href Hstart. destruct (secret_reference_parts t ref Href Hstart) as (path & name & Hc & Hp & Hn & Hne).
  set (loc := chars (uuid_text t) ++ Ascii.ascii_of_nat 47 :: path) in *.
  assert (forallb reference_char loc = true) as Hloc.
  { unfold loc. rewrite forallb_app. apply andb_true_iff. split; [|simpl; by rewrite Hp].
    eapply forallb_imp; [|apply uuid_text_chars]. intros x Hx. apply reference_chars. rewrite Hx. apply orb_true_r. }
  exists (text_of path), (text_of name). unfold vault_reference.
  rewrite <-(text_of_chars ref), Hc, urlsplit_reference by done. cbv beta iota zeta. cbn [us_path us_scheme us_netloc us_fragment].
  assert (chars (text_of (Ascii.ascii_of_nat 47 :: loc)) = Ascii.ascii_of_nat 47 :: loc) as ->
    by apply String.list_ascii_of_string_of_list_ascii.
  assert (lstrip_with (is_char 47) (Ascii.ascii_of_nat 47 :: loc) = loc) as ->.
  { assert (∃ c l, loc = c :: l ∧ negb (is_char 47 c) = true) as (c & l & -> & Hc47%negb_true_iff).
    { pose proof (uuid_text_chars t) as Hu. unfold loc. destruct (chars (uuid_text t)) as [|c l] eqn:He.
      - apply (f_equal length) in He. unfold chars, uuid_text in He. done.
      - eexists c, _. split; [done|]. simpl in Hu. apply andb_true_iff in Hu as [Hu _]. by apply hex_chars. }
    simpl. by rewrite Hc47. }
  assert (existsb (is_char 47) loc = true) as ->.
  { unfold loc. rewrite existsb_app. cbn [existsb]. rewrite is_char_of_nat by lia. apply orb_true_r. }
  assert (split_at 47 loc = (chars (uuid_text t), path)) as ->.
  { unfold split_at, loc. rewrite break_app; [done| |done].
    eapply forallb_imp; [|apply uuid_text_chars]. intros x Hx. by apply hex_chars. }
  cbn [fst]. rewrite text_of_chars, !bool_decide_eq_true_2 by reflexivity.
  rewrite bool_decide_eq_false_2 by (destruct name; done). cbn [negb orb].
  unfold loc. generalize (uuid_text t) as u. intros u. rewrite bool_decide_eq_true_2 by reflexivity. cbn [negb].
  do 2 f_equal.
  clear. unfold chars. induction u as [|c u IH]; [done|]. exact (f_equal (String.String c) IH).
Qed.

(** The columns of a release that the gateway reads. *)
Definition gateway_release (r : AgentRelease) : ReleaseRow :=
  {| rl_model_alias := rel_model_alias r; rl_data_classification := rel_data_classification r;
     rl_region := rel_region r; rl_fallback_aliases := rel_fallback_aliases r;
     rl_model_profiles := rel_model_profiles r |}.

Section Serving.
Context (sha256_hex : string → string) (canonical : json → string) (bad_netloc : string → bool).
Context (dumps : json → string) (uuid_at : nat → uuid) (eval_dumps py_repr : json → string).
Context {E : Type} `{!Outside E}.

(** The model gateway can serve every release that was published.  Given the release,
    it builds a request whose model and allowed fallbacks all have a profile in the
    snapshot, each a profile of this tenant, the fallbacks among those the model's own
    profile names; and the vault provider accepts the secret reference of every profile,
    as a path of the tenant. *)
Theorem published_releases_are_servable s (site : Site E) t id r messages application_id execution_id :
  reachable sha256_hex canonical bad_netloc dumps uuid_at eval_dumps py_repr s → bad_netloc "tenant" = false →
  rd_releases s !! (t, id) = Some r → 0 ≤ t < 2 ^ 128 → 0 ≤ id < 2 ^ 128 →
  st_releases site !! (t, id) = Some (gateway_release r) → (out_fault (st_outside site)).1 = NoFault →
  ∃ request site', released_request (uuid_text t) (uuid_text id) messages application_id execution_id site = (Ok request, site') ∧
    gq_model_alias request = rel_model_alias r ∧
    (∀ a, a = gq_model_alias request ∨ a ∈ gq_allowed_fallback_aliases request →
       ∃ m, m ∈ gq_profile_snapshots request ∧ mo_alias m = a) ∧
    (∃ first, first ∈ gq_profile_snapshots request ∧ mo_alias first = gq_model_alias request ∧
       ∀ a, a ∈ gq_allowed_fallback_aliases request → a ∈ mo_fallback_aliases first) ∧
    (∀ m, m ∈ gq_profile_snapshots request → mo_tenant_id m = gq_tenant_id request ∧
       ∃ path name, vault_reference bad_netloc (gq_tenant_id request) (mo_secret_ref m)
         = Ok (uuid_text t +:+ "/" +:+ path, name)).
Proof.
  intros Hreach Hbad Hr Ht Hid Hsite Hfault.
  destruct (iv_releases _ _ _ _ (release_reachable_inv _ _ _ _ _ _ _ _ Hreach) _ _ _ Hr) as [Hall (first & Hfirst & Hsub) _].
  unfold released_request. rewrite !parse_uuid_text by done.
  assert (length (rel_model_profiles r) ≠ 0%nat) as Hlen by by destruct (rel_model_profiles r).
  unfold reading, next_fault, transaction, gets, mbind, ST_mbind, mret, ST_mret, ensure.
  destruct (out_fault (st_outside site)) as [fault e]. simpl in Hfault. subst fault. simpl. rewrite Hsite. simpl.
  rewrite bool_decide_eq_false_2 by done. simpl. eexists _, _. split; [done|]. simpl. split; [done|].
  assert (∀ a, a = rel_model_alias r ∨ a ∈ rel_fallback_aliases r → ∃ m, m ∈ rel_model_profiles r ∧ mo_alias m = a) as Hhas.
  { intros a Ha. assert (a ∈ rel_model_alias r :: rel_fallback_aliases r) as [i Hi]%list_elem_of_lookup by (rewrite elem_of_cons; tauto).
    destruct (Forall2_lookup_l _ _ _ _ _ Hall Hi) as (m & Hm & row & _ & ->). exists (profile_snapshot t a row).
    split; [by eapply list_elem_of_lookup_2|done]. }
  split_and!.
  - intros a [->|Ha%elem_of_list_to_set]; auto.
  - exists first. split_and!.
    + destruct (rel_model_profiles r); [done|]. injection Hfirst as ->. by left.
    + inversion Hall as [|? m ? ? (row & _ & Hm) ? Heq1 Heq2]. rewrite <-Heq2 in Hfirst. simpl in Hfirst. by simplify_eq.
    + intros a Ha%elem_of_list_to_set. auto.
  - intros m [i Hi]%list_elem_of_lookup. destruct (Forall2_lookup_r _ _ _ _ _ Hall Hi) as (a & _ & row & (Hok & Hst & _) & ->).
    split; [done|]. apply vault_accepts; [done| |done]. unfold profile_create_ok in Hok. rewrite !andb_true_iff in Hok. tauto.
Qed.
End Serving.

(** ** Theorems on drafts and listings

    What the validation of a draft finds, and what a client sees that follows the cursors
    of a listing. *)

(** ** Duplicates *)
Section Duplicates.
Context (code path noun : string).
Abbreviation scan n seen values := (duplicates_from n seen values code path noun).

Definition duplicate_issue (i j : nat) : DraftValidationIssue :=
  {| di_code := code; di_path := path +:+ "/" +:+ pretty i;
     di_message := noun +:+ " duplicates " +:+ path +:+ "/" +:+ pretty j +:+ "." |}.

(** [j] is the first place of [v]. *)
Definition first_place (values : list string) (v : string) (j : nat) : Prop :=
  values !! j = Some v ∧ ∀ i, (i < j)%nat → values !! i ≠ Some v.

(** Where the value at [k] was first seen: before the scan, or earlier in it. *)
Definition origin (n : nat) (seen : gmap string nat) (values : list string) (k : nat) (v : string) (j : nat) : Prop :=
  match seen !! v with
  | Some o => j = o
  | None => ∃ j', first_place values v j' ∧ (j' < k)%nat ∧ j = (n + j')%nat
  end.

Lemma first_place_cons value rest v j :
  first_place (value :: rest) v j ↔ (v = value ∧ j = 0%nat) ∨ (v ≠ value ∧ ∃ j', j = S j' ∧ first_place rest v j').
Proof.
  unfold first_place. split.
  - intros [Hj Hmin]. destruct j as [|j]; simpl in Hj; [left; naive_solver|]. right.
    split; [intros ->; by apply (Hmin 0%nat); [lia|]|]. exists j. split; [done|]. split; [done|].
    intros i Hi. apply (Hmin (S i)). lia.
  - intros [[-> ->]|(Hne & j' & -> & Hj & Hmin)]; [split; [done|lia]|]. split; [done|].
    intros [|i] Hi; simpl; [congruence|]. apply Hmin. lia.
Qed.

Lemma origin_cons n seen value rest k v j :
  origin n seen (value :: rest) (S k) v j ↔
  origin (S n) (match seen !! value with Some _ => seen | None => <[value := n]> seen end) rest k v j.
Proof.
  unfold origin. destruct (seen !! value) as [o|] eqn:Hval.
  - destruct (seen !! v) eqn:Hv; [done|]. setoid_rewrite first_place_cons. split.
    + intros (j' & [[-> _]|(_ & j'' & -> & Hf)] & Hlt & ->); [congruence|]. exists j''. split_and!; [done|lia|lia].
    + intros (j' & Hf & Hlt & ->). exists (S j'). split; [right; split; [congruence|eauto]|]. lia.
  - destruct (decide (v = value)) as [->|Hne].
    + rewrite Hval, lookup_insert_eq. setoid_rewrite first_place_cons. split.
      * intros (j' & [[_ ->]|[? _]] & Hlt & ->); [lia|done].
      * intros ->. exists 0%nat. split; [by left|lia].
    + rewrite lookup_insert_ne by done. destruct (seen !! v); [done|]. setoid_rewrite first_place_cons. split.
      * intros (j' & [[-> _]|(_ & j'' & -> & Hf)] & Hlt & ->); [done|]. exists j''. split_and!; [done|lia|lia].
      * intros (j' & Hf & Hlt & ->). exists (S j'). split; [right; eauto|]. lia.
Qed.

Lemma scan_spec n seen values issue :
  issue ∈ scan n seen values ↔
  ∃ k v j, values !! k = Some v ∧ origin n seen values k v j ∧ issue = duplicate_issue (n + k) j.
Proof.
  revert n seen. induction values as [|value rest IH]; intros n seen; simpl.
  { split; [by intros ?%not_elem_of_nil|]. naive_solver. }
  assert (issue ∈ scan (S n) (match seen !! value with Some _ => seen | None => <[value := n]> seen end) rest ↔
    ∃ k v j, (value :: rest) !! S k = Some v ∧ origin n seen (value :: rest) (S k) v j ∧ issue = duplicate_issue (n + S k) j) as Htail.
  { rewrite IH. setoid_rewrite origin_cons. simpl. by setoid_rewrite Nat.add_succ_r. }
  destruct (seen !! value) as [o|] eqn:Hval; [rewrite elem_of_cons|]; rewrite Htail; clear Htail IH; split.
  - intros [->|(k & v & j & H)]; [|by exists (S k), v, j]. exists 0%nat, value, o. unfold origin. rewrite Hval, Nat.add_0_r. done.
  - intros ([|k] & v & j & Hk & Ho & ->); [left|right; by exists k, v, j]. simpl in Hk. simplify_eq.
    unfold origin in Ho. rewrite Hval in Ho. subst. by rewrite Nat.add_0_r.
  - intros (k & v & j & H). by exists (S k), v, j.
  - intros ([|k] & v & j & Hk & Ho & ->); [|by exists k, v, j]. simpl in Hk. simplify_eq.
    unfold origin in Ho. rewrite Hval in Ho. destruct Ho as (j' & _ & ? & _). lia.
Qed.

Lemma duplicate_issues_spec values issue :
  issue ∈ duplicate_issues values code path noun ↔
  ∃ i j v, values !! i = Some v ∧ first_place values v j ∧ (j < i)%nat ∧ issue = duplicate_issue i j.
Proof.
  unfold duplicate_issues. rewrite scan_spec. unfold origin. setoid_rewrite lookup_empty. simpl. split.
  - intros (k & v & j & Hk & (j' & Hf & Hlt & ->) & ->). by exists k, j', v.
  - intros (i & j & v & Hi & Hf & Hlt & ->). exists i, v, j. split; [done|]. split; [by exists j|done].
Qed.

Lemma first_place_exists values v i : values !! i = Some v → ∃ j, first_place values v j ∧ (j ≤ i)%nat.
Proof.
  induction (lt_wf i) as [i _ IH]. intros Hi.
  destruct (decide (Exists (λ k, values !! k = Some v) (seq 0 i))) as [He|Hn].
  - apply Exists_exists in He as (k & Hk%elem_of_seq & Hv). destruct (IH k ltac:(lia) Hv) as (j & ? & ?). exists j. split; [done|lia].
  - exists i. split; [|done]. split; [done|]. intros k Hk Hv. apply Hn, Exists_exists. exists k. rewrite elem_of_seq. split; [lia|done].
Qed.

Lemma no_duplicate_issues values : duplicate_issues values code path noun = [] ↔ NoDup values.
Proof.
  rewrite NoDup_alt. split.
  - intros Hnil i j v Hi Hj. assert (∀ a b, values !! a = Some v → values !! b = Some v → ¬ (a < b)%nat) as Hno.
    { intros a b Ha Hb Hlt. destruct (first_place_exists values v a Ha) as (f & Hf & Hle).
      assert (duplicate_issue b f ∈ duplicate_issues values code path noun) as Hin
        by (apply duplicate_issues_spec; exists b, f, v; split_and!; [done..|lia|done]).
      rewrite Hnil in Hin. by apply not_elem_of_nil in Hin. }
    pose proof (Hno i j Hi Hj). pose proof (Hno j i Hj Hi). lia.
  - intros Hu. destruct (duplicate_issues values code path noun) as [|issue l] eqn:He; [done|]. exfalso.
    assert (issue ∈ duplicate_issues values code path noun) as Hin by (rewrite He; by left).
    apply duplicate_issues_spec in Hin as (i & j & v & Hi & [Hj _] & Hlt & _). specialize (Hu i j v Hi Hj). lia.
Qed.
End Duplicates.

(** Draft validation is exact.  A draft has no issue exactly when its instructions are not
    blank, its model alias and its policy reference are resource names, and no tool or
    knowledge reference is repeated; and each repetition is reported once, at its place,
    with the place where the value first occurs. *)
Theorem draft_issues_are_exact d :
  (validate_draft_configuration d = [] ↔
     blank_text (chars (df_instructions d)) = false ∧ is_resource_name (df_model_alias d) = true ∧
     NoDup (df_tool_aliases d) ∧ NoDup (df_knowledge_refs d) ∧
     (∀ policy, df_governance_policy_ref d = Some policy → is_resource_name policy = true)) ∧
  (∀ values code path noun issue, issue ∈ duplicate_issues values code path noun ↔
     ∃ i j v, values !! i = Some v ∧ first_place values v j ∧ (j < i)%nat ∧ issue = duplicate_issue code path noun i j).
Proof.
  split; [|intros; apply duplicate_issues_spec]. unfold validate_draft_configuration.
  rewrite <-(no_duplicate_issues "DRAFT_DUPLICATE_TOOL_ALIAS" "/tool_aliases" "Tool alias" (df_tool_aliases d)).
  rewrite <-(no_duplicate_issues "DRAFT_DUPLICATE_KNOWLEDGE_REF" "/knowledge_refs" "Knowledge reference" (df_knowledge_refs d)).
  generalize (duplicate_issues (df_tool_aliases d) "DRAFT_DUPLICATE_TOOL_ALIAS" "/tool_aliases" "Tool alias") as l1.
  generalize (duplicate_issues (df_knowledge_refs d) "DRAFT_DUPLICATE_KNOWLEDGE_REF" "/knowledge_refs" "Knowledge reference") as l2.
  intros l2 l1.
  assert (∀ (i : DraftValidationIssue) (b : bool) l, (if b then [] else [i]) ++ l = [] ↔ b = true ∧ l = []) as Hif.
  { intros i [] l; simpl; naive_solver. }
  assert (∀ (i : DraftValidationIssue) (b : bool) l, (if b then [i] else []) ++ l = [] ↔ b = false ∧ l = []) as Hif'.
  { intros i [] l; simpl; naive_solver. }
  rewrite Hif', Hif, !app_nil.
  assert (match df_governance_policy_ref d with
    | Some policy => if is_resource_name policy then [] else
        [{| di_code := "DRAFT_GOVERNANCE_POLICY_REF_INVALID"; di_path := "/governance_policy_ref";
            di_message := "Governance policy reference must be a stable resource name." |}]
    | None => []
    end = [] ↔ ∀ policy, df_governance_policy_ref d = Some policy → is_resource_name policy = true) as ->; [|done].
  destruct (df_governance_policy_ref d) as [policy|]; [|done]. destruct (is_resource_name policy) eqn:Hp; split; try done.
  - by intros _ ? [= <-].
  - intros H. specialize (H policy eq_refl). congruence.
Qed.

(** ** Listings *)
Lemma tenant_rows_NoDup {A} (t : uuid) (m : gmap (uuid * uuid) A) : NoDup (fst <$> tenant_rows t m).
Proof.
  unfold tenant_rows. pose proof (NoDup_fst_map_to_list m) as Hm. induction (map_to_list m) as [|[[t' id] x] l IH]; [constructor|].
  simpl in Hm. apply NoDup_cons in Hm as [Hn Hm]. simpl. case_bool_decide as Ht; [|by apply IH]. simpl in Ht. subst t'.
  simpl. apply NoDup_cons. split; [|by apply IH]. intros ([id' x'] & Hid & Hin)%list_elem_of_fmap. simpl in Hid. subst id'.
  apply list_elem_of_omap in Hin as ([[t' i] y] & Hin & Heq). simpl in Heq. case_bool_decide; simplify_eq/=.
  apply Hn. apply list_elem_of_fmap. by eexists (_, _).
Qed.

Lemma NoDup_fmap_filter {A B} (f : A → B) (P : A → Prop) `{∀ x, Decision (P x)} l :
  NoDup (f <$> l) → NoDup (f <$> filter P l).
Proof. intros Hl. eapply sublist_NoDup; [exact Hl|]. apply fmap_sublist, sublist_filter. Qed.

(** C36: Paging is complete: a client that follows the cursors of a listing of releases, with
    pages of any permitted size, sees every release of the application exactly once, in the
    order of their identifiers, and reaches the last page. *)
Theorem release_pages_are_complete s t a (limit : nat) :
  (1 ≤ limit ≤ 100)%nat → (∀ id r, rd_releases s !! (t, id) = Some r → 0 ≤ id < 2 ^ 128) →
  follow fst (S (length (application_releases t a s))) None limit (application_releases t a s) =
    Some (sort_on fst (application_releases t a s)) ∧
  NoDup (fst <$> sort_on fst (application_releases t a s)) ∧
  (∀ id r, (id, r) ∈ sort_on fst (application_releases t a s) ↔
     rd_releases s !! (t, id) = Some r ∧ rel_application_id r = a).
Proof.
  intros [Hlim _] Hids. assert (NoDup (fst <$> application_releases t a s)) as Hn
    by (apply NoDup_fmap_filter, tenant_rows_NoDup).
  split_and!.
  - apply following_visits_all; [done| |done]. apply Forall_forall. intros [id r] [Hr _]%elem_of_application_releases.
    by eapply Hids.
  - by rewrite (sort_on_perm fst (application_releases t a s)).
  - intros id r. by rewrite sort_on_perm, elem_of_application_releases.
Qed.

(** ** A release on its way to production

    One tenant and two administrators: an application with its models and draft, a release,
    an evaluation, a deployment that the second administrator approves, and an observation
    that halts it.  The states of this story are the witnesses of the theorems on the
    release process; the runs after it are ones that the contract of the code does not
    foresee. *)

(** ** The site *)
Definition rt : uuid := 7.
Definition rel_sha (s : string) : string := hex_text 64 (Z.of_nat (String.length s)).
Definition rel_text (_ : json) : string := "{}".
Definition rel_ids (n : nat) : uuid := Z.of_nat n + 100.
Definition administrator (name : string) : AdminPrincipal :=
  {| ap_subject := name; ap_auth_method := "emergency"; ap_roles := ["PLATFORM_ADMIN"] |}.
Definition alice : AdminPrincipal := administrator "alice".
Definition bob : AdminPrincipal := administrator "bob".

Definition release_site : ReleaseDb :=
  {| rd_admin := {| ad_tenants := {[rt]}; ad_members := []; ad_idempotency := ∅; ad_audit := ad_audit sample_admin |};
     rd_applications := ∅; rd_drafts := ∅; rd_profiles := ∅; rd_releases := ∅; rd_deployments := ∅; rd_suites := ∅;
     rd_runs := ∅; rd_observations := ∅; rd_tools := ∅; rd_bundles := ∅; rd_revisions := ∅; rd_next_id := 0 |}.

Abbreviation rcalls := (endpoint rel_sha rel_text no_bad_host rel_text rel_ids rel_text rel_text).
Abbreviation rstep := (release_step rel_sha rel_text no_bad_host rel_text rel_ids rel_text rel_text).
Abbreviation rreachable := (reachable rel_sha rel_text no_bad_host rel_text rel_ids rel_text rel_text).

(** Calls, one after the other. *)
Definition run_calls (l : list (REL Reply)) (s : ReleaseDb) : ReleaseDb := foldl (λ s m, (m s).2) s l.
Lemma run_calls_steps l s : Forall rcalls l → rtc rstep s (run_calls l s).
Proof.
  revert s. induction l as [|m l IH]; intros s Hl; [constructor|]. inversion_clear Hl as [|? ? Hm Hl'].
  eapply rtc_l; [|exact (IH _ Hl')]. eapply (step_call _ _ _ _ _ _ _ _ _ m (m s).1); [done|apply surjective_pairing].
Qed.
Lemma run_calls_reachable l : Forall rcalls l → rreachable (run_calls l release_site).
Proof. intros Hl. exists release_site. split; [reflexivity|by apply run_calls_steps]. Qed.

(** ** The calls *)
Definition profile (fallbacks : list string) : ProfileRow :=
  {| mr_provider_model := "m"; mr_endpoint_url := "https://models.example";
     mr_secret_ref := "vault://tenant/" +:+ uuid_text rt +:+ "/models#key"; mr_data_classification := INTERNAL;
     mr_region := "cn"; mr_fallback_aliases := fallbacks; mr_requests_per_minute := 60 |}.
Definition new_application (key slug : string) : REL Reply :=
  create_application rel_sha rel_text rel_ids NoFault NoFault 1000 alice rt
    {| ac_slug := slug; ac_name := "Support"; ac_description := "" |} key.
Definition new_profile (key alias : string) (fallbacks : list string) : REL Reply :=
  create_profile no_bad_host rel_sha rel_text rel_ids NoFault NoFault 2000 alice rt alias (profile fallbacks) key.
Definition new_draft (key : string) (a : uuid) : REL Reply :=
  create_draft rel_sha rel_text rel_ids NoFault NoFault 3000 alice rt a
    {| dc_instructions := "Help."; dc_model_alias := "main"; dc_tool_aliases := ["search"];
       dc_knowledge_refs := []; dc_governance_policy_ref := None |} key.
Definition publish (key : string) (a : uuid) : REL Reply :=
  publish_release rel_sha rel_text rel_ids rel_text NoFault NoFault 4000 alice rt a
    {| rc_data_classification := INTERNAL; rc_region := "cn"; rc_fallback_aliases := ["backup"] |} key.
Definition new_suite (key : string) (a : uuid) (thresholds : jobject) : REL Reply :=
  create_eval_suite rel_sha rel_text rel_ids rel_text NoFault NoFault 5000 alice rt a
    {| ec_slug := "suite"; ec_dataset := {["name" := "set"]}; ec_scorers := [{["name" := JStr "exact"]}];
       ec_thresholds := thresholds; ec_assertions := ["NO_SECRET_LEAK"] |} key.
Definition evaluate (key : string) (a suite release : uuid) (evidence : jobject) : REL Reply :=
  create_eval_run rel_sha rel_text rel_ids rel_text rel_text NoFault NoFault 6000 alice rt a
    {| er_suite_id := suite; er_release_id := release; er_environment := PRODUCTION; er_evidence := evidence |} key.
Definition deploy (key : string) (now : instant) (a release : uuid) (e : DeploymentEnvironment) (share : Z) : REL Reply :=
  create_deployment rel_sha rel_text rel_ids NoFault NoFault now alice rt a
    {| nd_environment := e; nd_release_id := release; nd_rollout_percentage := share |} key None.
Definition approve (key : string) (now : instant) (p : AdminPrincipal) (a d : uuid) (version : Z) : REL Reply :=
  approve_deployment rel_sha rel_text rel_ids NoFault NoFault now p rt a d key (quoted (pretty version)).
Definition observe (key : string) (now : instant) (a d run : uuid) (metrics : jobject) : REL Reply :=
  record_eval_canary_observation rel_sha rel_text rel_ids NoFault NoFault now alice rt a d
    {| eo_eval_run_id := run; eo_metrics := metrics |} key.

Definition limits : jobject := obj [("quality_min", JNum 1); ("latency_ms_max", JNum 900); ("cost_micros_max", JNum 50)].
Definition metrics_with (quality latency cost : json) : jobject :=
  obj [("quality", quality); ("latency_ms", latency); ("cost_micros", cost)].
Definition evidence_with (metrics : jobject) : jobject :=
  obj [("assertions", JObj {["NO_SECRET_LEAK" := JBool true]}); ("metrics", JObj metrics)].
Definition good_metrics : jobject := metrics_with (JNum 1) (JNum 700) (JNum 50).
Definition slow_metrics : jobject := metrics_with (JNum 1) (JNum 901) (JNum 50).

(** ** The story: application 100, release 103, suite 104, run 105, deployment 106 *)
Definition published_calls : list (REL Reply) :=
  [new_application "k1" "support"; new_profile "k2" "backup" []; new_profile "k3" "main" ["backup"];
   new_draft "k4" 100; publish "k5" 100].
Definition pending_calls : list (REL Reply) :=
  published_calls ++ [new_suite "k6" 100 limits; evaluate "k7" 100 104 103 (evidence_with good_metrics);
                      deploy "k8" 7000 100 103 PRODUCTION 100].
Definition live_calls : list (REL Reply) := pending_calls ++ [approve "k9" 8000 bob 100 106 1].
Definition halting_calls : list (REL Reply) := [observe "k10" 9000 100 106 105 slow_metrics].

Ltac is_endpoint_call :=
  match goal with
  | |- endpoint _ _ _ _ _ _ _ (new_application _ _) => apply ep_create_application
  | |- endpoint _ _ _ _ _ _ _ (new_profile _ _ _) => apply ep_create_profile
  | |- endpoint _ _ _ _ _ _ _ (new_draft _ _) => apply ep_create_draft
  | |- endpoint _ _ _ _ _ _ _ (publish _ _) => apply ep_publish
  | |- endpoint _ _ _ _ _ _ _ (new_suite _ _ _) => apply ep_suite
  | |- endpoint _ _ _ _ _ _ _ (evaluate _ _ _ _ _) => apply ep_run
  | |- endpoint _ _ _ _ _ _ _ (deploy _ _ _ _ _ _) => apply ep_deploy
  | |- endpoint _ _ _ _ _ _ _ (approve _ _ _ _ _ _) => apply ep_approve
  | |- endpoint _ _ _ _ _ _ _ (observe _ _ _ _ _ _) => apply ep_observe
  end.
Ltac are_endpoints :=
  cbv [live_calls pending_calls published_calls halting_calls app];
  repeat (apply Forall_cons; split; [is_endpoint_call|]); exact (Forall_nil_2 _).
Lemma published_calls_ok : Forall rcalls published_calls.
Proof. are_endpoints. Qed.
Lemma pending_calls_ok : Forall rcalls pending_calls.
Proof. are_endpoints. Qed.
Lemma live_calls_ok : Forall rcalls live_calls.
Proof. are_endpoints. Qed.
Lemma halting_calls_ok : Forall rcalls halting_calls.
Proof. are_endpoints. Qed.

Definition pending_db : ReleaseDb := run_calls pending_calls release_site.
Definition live_db : ReleaseDb := run_calls live_calls release_site.
Definition halted_db : ReleaseDb := run_calls halting_calls live_db.

Definition status_of (r : outcome AdminError Reply) : Z + AdminError :=
  match r with Ok reply => inl (rp_status reply) | Raise e => inr e end.

Example release_story :
  status_of (deploy "k8" 7000 100 103 PRODUCTION 100 (run_calls (take 7 pending_calls) release_site)).1 = inl 202 ∧
  status_of (approve "k" 8000 alice 100 106 1 pending_db).1 = inr (Http 409 "Deployment initiator cannot approve it") ∧
  status_of (approve "k" 8000 bob 100 106 2 pending_db).1 = inr (Http 412 "Agent Deployment version changed") ∧
  status_of (approve "k9" 8000 bob 100 106 1 pending_db).1 = inl 200 ∧
  AgentWorker.dr_release_id <$> deployment_query rt 100 PRODUCTION live_db = Some (uuid_text 103) ∧
  (dp_status <$> rd_deployments halted_db !! (rt, 106)) = Some DEP_HALTED ∧
  deployment_query rt 100 PRODUCTION halted_db = None.
Proof. split_and!; vm_compute; reflexivity. Qed.

Lemma pending_reachable : rreachable pending_db.
Proof. exact (run_calls_reachable _ pending_calls_ok). Qed.
Lemma live_reachable : rreachable live_db.
Proof. exact (run_calls_reachable _ live_calls_ok). Qed.
Lemma live_to_halted : rtc rstep live_db halted_db.
Proof. exact (run_calls_steps _ _ halting_calls_ok). Qed.

(** ** Witnesses *)
Definition live_route : option AgentWorker.DeploymentRoute := deployment_query rt 100 PRODUCTION live_db.
Definition live_deployment : option DeploymentRow := rd_deployments live_db !! (rt, 106).
Definition live_release : option AgentRelease := rd_releases live_db !! (rt, 103).
Definition live_run : option EvalRunRow := rd_runs live_db !! (rt, 105).
Definition any_hash (b : bytes) : bytes := b.

Ltac evaluated := vm_compute; reflexivity.

Lemma production_serves_cleared_witness :
  ∃ route, live_route = Some route ∧
    ∃ r, AgentWorker.choose_release any_hash route "session" = uuid_text r ∧ cleared halted_db rt 100 r.
Proof.
  destruct live_route as [route|] eqn:Hroute; [|vm_compute in Hroute; discriminate]. exists route. split; [reflexivity|].
  exact (production_serves_cleared _ _ _ _ _ _ _ any_hash live_db halted_db rt 100 route "session"
    live_reachable live_to_halted Hroute).
Defined.

Lemma deployments_only_advance_witness :
  ∃ d, live_deployment = Some d ∧
    ∃ d', rd_deployments halted_db !! (rt, 106) = Some d' ∧ later d d' ∧ 1 ≤ dp_version d' < 2 ^ 31 ∧
      (dp_status d = DEP_HALTED → d' = d) ∧ (is_pending d' → dp_environment d' = PRODUCTION).
Proof.
  destruct live_deployment as [d|] eqn:Hd; [|vm_compute in Hd; discriminate]. exists d. split; [reflexivity|].
  exact (deployments_only_advance _ _ _ _ _ _ _ live_db halted_db rt 106 d live_reachable live_to_halted Hd).
Defined.

Lemma releases_immutable_and_numbered_witness :
  ∃ r, live_release = Some r ∧ application_referenced rt (rel_application_id r) live_db = true ∧
    rd_releases halted_db !! (rt, 103) = Some r.
Proof.
  destruct live_release as [r|] eqn:Hr; [|vm_compute in Hr; discriminate]. exists r. split; [reflexivity|].
  assert (application_referenced rt (rel_application_id r) live_db = true) as Href.
  { assert (rel_application_id r = 100) as -> by (vm_compute in Hr; injection Hr as <-; reflexivity). evaluated. }
  split; [exact Href|].
  exact (proj1 (releases_immutable_and_numbered _ _ _ _ _ _ _ live_db halted_db rt 103 r live_reachable live_to_halted Hr) Href).
Defined.

Lemma evaluations_are_exact_witness :
  ∃ run suite, live_run = Some run ∧ rd_suites live_db !! (rt, ru_suite_id run) = Some suite ∧
    (ru_status run = EVAL_PASSED ↔ evidence_meets (su_thresholds suite) (su_assertions suite) (ru_evidence run)).
Proof.
  destruct live_run as [run|] eqn:Hrun; [|vm_compute in Hrun; discriminate].
  destruct (evaluations_are_exact _ _ _ _ _ _ _ live_db rt 105 run live_reachable Hrun) as (suite & H).
  exists run, suite. split; [reflexivity|exact H].
Defined.

Definition approval_reply : outcome AdminError Reply * ReleaseDb := approve "k9" 8000 bob 100 106 1 pending_db.
Lemma approval_is_fresh reply : approval_reply.1 = Ok reply → rp_replayed reply = false.
Proof. intros Hr. vm_compute in Hr. by injection Hr as <-. Qed.
Lemma nothing_active : active_deployments rt 100 PRODUCTION pending_db = [].
Proof. evaluated. Qed.
Lemma approval_takes_over_witness :
  ∃ reply, approval_reply.1 = Ok reply ∧ rp_replayed reply = false ∧
    ∃ d, approval_ok bob rt 100 106 (dp_version d) pending_db d ∧
      AgentWorker.dr_release_id <$> deployment_query rt 100 PRODUCTION approval_reply.2 = Some (uuid_text (dp_release_id d)).
Proof.
  destruct approval_reply as [[reply|e] s'] eqn:Hrun; [|apply (f_equal fst) in Hrun; vm_compute in Hrun; discriminate].
  exists reply. split; [reflexivity|].
  assert (rp_replayed reply = false) as Hfresh by exact (approval_is_fresh reply (f_equal fst Hrun)).
  split; [exact Hfresh|].
  destruct (approval_takes_over _ _ _ _ _ _ _ NoFault NoFault 8000 bob rt 100 106 "k9" (quoted (pretty 1)) pending_db reply s'
    pending_reachable Hrun Hfresh) as (d & _ & Hok & _ & _ & Htakes).
  exists d. split; [exact Hok|]. cbn [snd]. refine (Htakes _). rewrite nothing_active. intros id' d' Hin.
  destruct (not_elem_of_nil _ Hin).
Defined.

Definition serving_site (r : AgentRelease) : Site SampleNet :=
  mkSite ∅ {[(rt, 103 : uuid) := gateway_release r]} (sample_budget []) sample_admin None
    {| sn_now := 1000; sn_down := []; sn_faults := [] |}.
Lemma published_releases_are_servable_witness :
  ∃ r, live_release = Some r ∧ ∃ request site',
    released_request (uuid_text rt) (uuid_text 103) hello None None (serving_site r) = (Ok request, site') ∧
    gq_model_alias request = rel_model_alias r.
Proof.
  destruct live_release as [r|] eqn:Hr; [|vm_compute in Hr; discriminate]. exists r. split; [reflexivity|].
  destruct (published_releases_are_servable _ _ no_bad_host _ _ _ _ live_db (serving_site r) rt 103 r hello None None
    live_reachable eq_refl Hr ltac:(vm_compute; split; congruence) ltac:(vm_compute; split; congruence)
    (lookup_singleton_eq _ _) eq_refl)
    as (request & site' & Hreq & Halias & _).
  exists request, site'. split; [exact Hreq|exact Halias].
Defined.

(** Three releases of one application, in pages of two. *)
Definition paged_db : ReleaseDb := run_calls (published_calls ++ [publish "k11" 100; publish "k12" 100]) release_site.
Definition small_ids (s : ReleaseDb) : bool :=
  forallb (λ kr : uuid * uuid * AgentRelease, (0 <=? kr.1.2) && (kr.1.2 <? 2 ^ 128)) (map_to_list (rd_releases s)).
Lemma small_ids_spec s t id r : small_ids s = true → rd_releases s !! (t, id) = Some r → 0 ≤ id < 2 ^ 128.
Proof.
  unfold small_ids. rewrite forallb_forall. intros Hall Hr%elem_of_map_to_list. apply list_elem_of_In in Hr.
  specialize (Hall _ Hr). simpl in Hall. lia.
Qed.
Lemma paged_small : small_ids paged_db = true.
Proof. evaluated. Qed.
Lemma release_pages_are_complete_witness :
  fst <$> application_releases rt 100 paged_db ≡ₚ [103; 104; 105] ∧
  follow fst (S (length (application_releases rt 100 paged_db))) None 2 (application_releases rt 100 paged_db) =
    Some (sort_on fst (application_releases rt 100 paged_db)).
Proof.
  split; [vm_compute; solve_Permutation|].
  exact (proj1 (release_pages_are_complete paged_db rt 100 2 ltac:(lia) (λ id r, small_ids_spec paged_db rt id r paged_small))).
Defined.

(** ** Runs that the contract does not foresee *)
Definition delete_app (key : string) : REL Reply :=
  delete_application rel_sha rel_text rel_ids NoFault NoFault 9000 alice rt 100 key (quoted (pretty 1)).

(** Deleting an application deletes its published releases, which nothing else can change;
    once one was deployed or evaluated the request fails with an unhandled database error. *)
Example published_releases_are_deleted :
  is_Some (rd_releases paged_db !! (rt, 103)) ∧ status_of (delete_app "d" paged_db).1 = inl 204 ∧
  rd_releases (delete_app "d" paged_db).2 !! (rt, 103) = None ∧
  status_of (delete_app "d" live_db).1 = inr IntegrityError.
Proof. split_and!; [by eexists; vm_compute|evaluated..]. Qed.

(** The bits of the double that is infinite. *)
Definition infinity_bits : Z := 2047 * 2 ^ 52.
(** A suite may leave out its quality threshold or set a negative one: any quality from zero
    on passes. *)
Example any_quality_passes :
  (er_status <$> evaluate_evidence {["latency_ms_max" := JNum 900; "cost_micros_max" := JNum 50]} []
     (evidence_with (metrics_with (JNum 0) (JNum 1) (JNum 1)))) = Some EVAL_PASSED ∧
  (er_status <$> evaluate_evidence (<["quality_min" := JNum (-5)]> limits) []
     (evidence_with (metrics_with (JNum (-1)) (JNum 1) (JNum 1)))) = Some EVAL_FAILED.
Proof. split; evaluated. Qed.

(** An observation of infinite latency misses the threshold, but the transaction that would
    halt the deployment is lost when the metrics are stored. *)
Example infinite_latency_does_not_halt :
  let call := observe "k10" 9000 100 106 105 (metrics_with (JNum 1) (JFloat infinity_bits) (JNum 50)) in
  status_of (call live_db).1 = inr DataError ∧
  (dp_status <$> rd_deployments (call live_db).2 !! (rt, 106)) = Some DEP_ACTIVE.
Proof. split; evaluated. Qed.

(** The second release is deployed to a tenth of the sessions; halting the first
    deployment afterwards, which is still active, changes nothing for the other sessions. *)
Definition rollout_calls : list (REL Reply) :=
  [publish "r1" 100; evaluate "r2" 100 104 107 (evidence_with good_metrics); deploy "r3" 9000 100 107 PRODUCTION 10;
   approve "r4" 10000 bob 100 109 3; observe "r5" 11000 100 106 105 slow_metrics].
Example halted_release_is_still_served :
  let s := run_calls rollout_calls live_db in
  (dp_status <$> rd_deployments s !! (rt, 106)) = Some DEP_HALTED ∧
  deployment_query rt 100 PRODUCTION s =
    Some {| AgentWorker.dr_release_id := uuid_text 107; AgentWorker.dr_previous_release_id := Some (uuid_text 103);
            AgentWorker.dr_rollout_percentage := 10 |}.
Proof. split; evaluated. Qed.

(** A draft that is deleted and created again starts over at version 1, so a client that
    read the old draft may overwrite the new one. *)
Definition delete_the_draft (key : string) : REL Reply :=
  delete_draft rel_sha rel_text rel_ids NoFault NoFault 9000 alice rt 100 key (quoted (pretty 1)).
Example recreated_draft_matches_old_version :
  let s := run_calls [delete_the_draft "a1"; new_draft "a2" 100] paged_db in
  status_of (delete_the_draft "a3" s).1 = inl 204.
Proof. evaluated. Qed.
