(* ===== verification/Projections.v ===== *)
(** * Summary and memory projections (job_worker.py, memory_access.py)

    The job worker reads the session events that a commit announced and derives from them
    a summary of the session and a memory of its subject; [SubjectMemoryReader] selects the
    memories that a conversation may see.  A Python text is the list of its characters,
    each in UTF-8, which is what [len] and slices count.  The lag monitor, the metrics and
    the HTTP application are left out. *)

From stdpp Require Import sorting.
From S2P Require Import Prelude PyNum Uuids ExecutionBus Backpressure Sessions AuditChain AdminAccess Inbound.
Open Scope string_scope.
Open Scope list_scope.
Open Scope Z_scope.

(** ** Texts *)
Abbreviation pytext := (list string).

(** A byte that continues a character of UTF-8. *)
Definition is_continuation (c : Ascii.ascii) : bool :=
  (128 <=? Ascii.nat_of_ascii c)%nat && (Ascii.nat_of_ascii c <=? 191)%nat.
Fixpoint characters (s : string) : pytext :=
  match s with
  | EmptyString => []
  | String c s' =>
      match characters s' with
      | String d g :: rest =>
          if is_continuation d then String c (String d g) :: rest
          else String c EmptyString :: String d g :: rest
      | l => String c EmptyString :: l
      end
  end.
Definition NEWLINE_TEXT : string := String (Ascii.ascii_of_nat 10) EmptyString.
Fixpoint join_lines (l : list pytext) : pytext :=
  match l with
  | [] => []
  | [x] => x
  | x :: l' => x ++ NEWLINE_TEXT :: join_lines l'
  end.
(** [text[-n:]] for a positive [n]. *)
Definition last_chars (n : nat) (t : pytext) : pytext := drop (length t - n) t.

(** ** Exceptions: one of Python with its text, a failed validation, a database error *)
Inductive JobError := JError (text : string) | JValidation | JSql.
#[export] Instance job_sql_error : SqlError JobError := JSql.

(** ** Tables *)
Definition MAX_PROJECTION_ATTEMPTS : Z := 8.

(** The columns of [tenant.agent_execution] that a projection reads. *)
Record ProjectionSource := {
  px_session_id : string;
  px_subject_id : option string;
  px_memory_policy_version : string;
}.
Record SummaryRow := { sy_source_from_version : Z; sy_source_version : Z; sy_content : pytext }.
Record MemoryRow := {
  my_subject_id : string;
  my_source_session_id : string;
  my_source_from_version : Z;
  my_source_to_version : Z;
  my_policy_version : string;
  my_content : pytext;
  my_is_valid : bool;
  my_invalidated_at : option instant;
  my_invalidation_reason : option string;
  my_created_at : instant;
  my_last_used_at : instant;
}.
Inductive delivery_status := DL_PENDING | DL_SUCCEEDED | DL_DEAD_LETTER.
#[export] Instance delivery_status_eq_dec : EqDecision delivery_status.
Proof. solve_decision. Defined.
Record ProjectionDelivery := {
  pd_status : delivery_status;
  pd_attempts : Z;
  pd_last_error : option pytext;
  pd_completed_at : option instant;
}.

Record JobDb := {
  jd_sessions : gset session_key;
  jd_events : gmap (session_key * Z) EventRow;
  jd_executions : gmap (uuid * uuid) ProjectionSource;
  jd_summaries : gmap session_key SummaryRow;
  jd_memories : gmap (uuid * uuid) MemoryRow;
  jd_associations : gset (uuid * string * string);
  jd_outbox : list OutboxRecord;
  jd_deliveries : gmap uuid ProjectionDelivery;
  jd_admin : AdminDb;
  jd_next_id : nat;
}.
Abbreviation JM := (ST JobDb JobError).

Definition set_summaries (m : gmap session_key SummaryRow) (s : JobDb) : JobDb :=
  {| jd_sessions := jd_sessions s; jd_events := jd_events s; jd_executions := jd_executions s;
     jd_summaries := m; jd_memories := jd_memories s; jd_associations := jd_associations s;
     jd_outbox := jd_outbox s; jd_deliveries := jd_deliveries s; jd_admin := jd_admin s;
     jd_next_id := jd_next_id s |}.
Definition set_memories (m : gmap (uuid * uuid) MemoryRow) (s : JobDb) : JobDb :=
  {| jd_sessions := jd_sessions s; jd_events := jd_events s; jd_executions := jd_executions s;
     jd_summaries := jd_summaries s; jd_memories := m; jd_associations := jd_associations s;
     jd_outbox := jd_outbox s; jd_deliveries := jd_deliveries s; jd_admin := jd_admin s;
     jd_next_id := jd_next_id s |}.
Definition set_job_events (m : gmap (session_key * Z) EventRow) (s : JobDb) : JobDb :=
  {| jd_sessions := jd_sessions s; jd_events := m; jd_executions := jd_executions s;
     jd_summaries := jd_summaries s; jd_memories := jd_memories s; jd_associations := jd_associations s;
     jd_outbox := jd_outbox s; jd_deliveries := jd_deliveries s; jd_admin := jd_admin s;
     jd_next_id := jd_next_id s |}.
Definition set_job_outbox (o : list OutboxRecord) (s : JobDb) : JobDb :=
  {| jd_sessions := jd_sessions s; jd_events := jd_events s; jd_executions := jd_executions s;
     jd_summaries := jd_summaries s; jd_memories := jd_memories s; jd_associations := jd_associations s;
     jd_outbox := o; jd_deliveries := jd_deliveries s; jd_admin := jd_admin s;
     jd_next_id := jd_next_id s |}.
Definition set_job_deliveries (m : gmap uuid ProjectionDelivery) (s : JobDb) : JobDb :=
  {| jd_sessions := jd_sessions s; jd_events := jd_events s; jd_executions := jd_executions s;
     jd_summaries := jd_summaries s; jd_memories := jd_memories s; jd_associations := jd_associations s;
     jd_outbox := jd_outbox s; jd_deliveries := m; jd_admin := jd_admin s;
     jd_next_id := jd_next_id s |}.
Definition set_job_admin (a : AdminDb) (s : JobDb) : JobDb :=
  {| jd_sessions := jd_sessions s; jd_events := jd_events s; jd_executions := jd_executions s;
     jd_summaries := jd_summaries s; jd_memories := jd_memories s; jd_associations := jd_associations s;
     jd_outbox := jd_outbox s; jd_deliveries := jd_deliveries s; jd_admin := a;
     jd_next_id := jd_next_id s |}.
Definition set_job_ids (n : nat) (s : JobDb) : JobDb :=
  {| jd_sessions := jd_sessions s; jd_events := jd_events s; jd_executions := jd_executions s;
     jd_summaries := jd_summaries s; jd_memories := jd_memories s; jd_associations := jd_associations s;
     jd_outbox := jd_outbox s; jd_deliveries := jd_deliveries s; jd_admin := jd_admin s;
     jd_next_id := n |}.

#[export] Instance job_outbox : HasOutbox JobDb.
Proof. refine {| outbox := jd_outbox; add_outbox r s := set_job_outbox (jd_outbox s ++ [r]) s |}. done. Defined.
#[export] Instance job_ids : HasIds JobDb := {| next_id := jd_next_id; set_next_id := set_job_ids |}.

(** ** [SessionEventsCommittedData] *)
Record SessionEventsCommittedData := {
  sc_tenant_id : string;
  sc_session_id : string;
  sc_execution_id : string;
  sc_from_version : Z;
  sc_to_version : Z;
  sc_event_kinds : list string;
}.
Definition COMMITTED_FIELDS : list string :=
  ["tenant_id"; "session_id"; "execution_id"; "from_version"; "to_version"; "event_kinds"].
Definition text_of_json (j : json) : option string := match j with JStr s => Some s | _ => None end.

Section Worker.
(** An integer field as pydantic reads it, Python's [str] of other values, and the texts of
    a validation error and of a database error. *)
Context (lax_int : json → option Z) (py_repr : json → string) (validation_text sql_text : string).
Context (sha256_hex : string → string) (dumps : json → string) (uuid_at : nat → uuid).

Definition validate_committed (data : jobject) : option SessionEventsCommittedData :=
  if negb (bool_decide (map_Forall (λ k _, k ∈ COMMITTED_FIELDS) data)) then None else
  tenant_id ← data !! "tenant_id" ≫= text_of_json;
  session_id ← data !! "session_id" ≫= text_of_json;
  execution_id ← data !! "execution_id" ≫= text_of_json;
  from_version ← data !! "from_version" ≫= lax_int;
  to_version ← data !! "to_version" ≫= lax_int;
  kinds ← match data !! "event_kinds" with Some (JArr l) => mapM text_of_json l | _ => None end;
  if (0 <=? from_version) && (1 <=? to_version) && negb (bool_decide (kinds = [])) then
    Some {| sc_tenant_id := tenant_id; sc_session_id := session_id; sc_execution_id := execution_id;
            sc_from_version := from_version; sc_to_version := to_version; sc_event_kinds := kinds |}
  else None.

(** ** [_event_content] *)
Definition json_type_name (j : json) : string :=
  match j with
  | JNull => "NoneType" | JBool _ => "bool" | JNum _ => "int" | JFloat _ => "float" | JStr _ => "str"
  | JArr _ => "list" | JObj _ => "dict"
  end.
Definition no_get (j : json) : JobError := JError ("'" +:+ json_type_name j +:+ "' object has no attribute 'get'").
Definition not_subscriptable (j : json) : JobError :=
  JError ("'" +:+ json_type_name j +:+ "' object is not subscriptable").
Definition truthy (j : json) : bool :=
  match j with
  | JNull => false
  | JBool b => b
  | JNum n => negb (n =? 0)
  | JFloat bits => negb ((bits =? 0) || (bits =? 2 ^ 63))
  | JStr s => negb (bool_decide (s = ""))
  | JArr l => negb (bool_decide (length l = 0%nat))
  | JObj m => negb (bool_decide (size m = 0%nat))
  end.

(** [value.get("completion", {}).get("choices", [])] and the content of the first choice. *)
Definition completion_content (value : jobject) : outcome JobError json :=
  match default (JObj ∅) (value !! "completion") with
  | JObj completion =>
      let choices := default (JArr []) (completion !! "choices") in
      if truthy choices then
        match choices with
        | JArr (JObj first :: _) =>
            match default (JObj ∅) (first !! "message") with
            | JObj message => Ok (default JNull (message !! "content"))
            | j => Raise (no_get j)
            end
        | JArr _ | JStr _ => Ok JNull
        | JObj _ => Raise (JError "0")
        | j => Raise (not_subscriptable j)
        end
      else Ok JNull
  | j => Raise (no_get j)
  end.
Definition event_content (event : EventRow) : outcome JobError (option pytext) :=
  let content := match default JNull (ev_payload event !! "content") with
                 | JNull => completion_content (ev_payload event)
                 | j => Ok j
                 end in
  match content with
  | Ok j => Ok (if truthy j then Some (characters (ev_kind event +:+ ": " +:+ py_str py_repr j)) else None)
  | Raise e => Raise e
  end.

(** The fragments of a range: sequence and text of the events that have one. *)
Fixpoint fragments (events : list (Z * EventRow)) : outcome JobError (list (Z * pytext)) :=
  match events with
  | [] => Ok []
  | (sequence, event) :: events' =>
      match event_content event with
      | Ok content =>
          match fragments events' with
          | Ok l => Ok (match content with Some c => (sequence, c) :: l | None => l end)
          | Raise e => Raise e
          end
      | Raise e => Raise e
      end
  end.

(** ** [_summary_projection] *)
Definition NO_TEXT : pytext := characters "Session Event projection contained no textual content.".
Definition PROJECTION_CHARS : nat := Z.to_nat 16000.

(** The loop over the fragments, newest first; [started] says that one is selected. *)
Fixpoint select_fragments (remaining : nat) (started : bool) (newest_first : list (Z * pytext))
    : list (Z * pytext) :=
  match newest_first with
  | [] => []
  | (sequence, content) :: older =>
      let separator := if started then 1%nat else 0%nat in
      let available := (remaining - separator)%nat in
      if (available <=? 0)%nat then []
      else if (available <? length content)%nat then [(sequence, last_chars available content)]
      else (sequence, content) :: select_fragments (remaining - (length content + separator)) true older
  end.
Definition summary_projection (events : list (Z * EventRow)) : outcome JobError (Z * pytext) :=
  match fragments events with
  | Raise e => Raise e
  | Ok [] => match events with
             | (sequence, _) :: _ => Ok (sequence, NO_TEXT)
             | [] => Raise (JError "list index out of range")
             end
  | Ok l =>
      let selected := reverse (select_fragments PROJECTION_CHARS false (reverse l)) in
      match selected with
      | (sequence, _) :: _ => Ok (sequence, join_lines (snd <$> selected))
      | [] => Raise (JError "list index out of range")
      end
  end.

(** [_projection_content] *)
Definition projection_content (events : list (Z * EventRow)) : outcome JobError pytext :=
  match fragments events with
  | Raise e => Raise e
  | Ok l => let content := take PROJECTION_CHARS (join_lines (snd <$> l)) in
            Ok (if bool_decide (content = []) then NO_TEXT else content)
  end.

(** ** [SummaryMemoryJobWorker.handle] *)
Definition lift {A} (o : outcome JobError A) : JM A := match o with Ok a => mret a | Raise e => raise e end.
Definition bigint (n : Z) : bool := (- 2 ^ 63 <=? n) && (n <? 2 ^ 63).

(** The events of a range, by sequence. *)
Definition events_between (k : session_key) (first last : Z) (s : JobDb) : list (Z * EventRow) :=
  omap (λ i, (λ e, (i, e)) <$> jd_events s !! (k, i)) (seqZ first (last - first + 1)).
(** [_source_events] *)
Definition source_events (k : session_key) (first last : Z) : JM (list (Z * EventRow)) :=
  _ ← ensure (bigint first && bigint last) JSql;
  gets (events_between k first last).
(** [_assert_complete] *)
Definition assert_complete (events : list (Z * EventRow)) (expected_count first_sequence : Z) : JM unit :=
  ensure ((Z.of_nat (length events) =? expected_count)
          && match events with (sequence, _) :: _ => sequence =? first_sequence | [] => false end)
    (JError "SESSION_PROJECTION_SOURCE_INCOMPLETE").

(** [_projection_execution] *)
Definition projection_execution (t : uuid) (data : SessionEventsCommittedData) : JM ProjectionSource :=
  execution_id ← get_or_raise (parse_uuid (sc_execution_id data)) (JError "badly formed hexadecimal UUID string");
  found ← gets (λ s, jd_executions s !! (t, execution_id));
  x ← get_or_raise found (JError "SESSION_PROJECTION_EXECUTION_NOT_FOUND");
  _ ← ensure (bool_decide (px_session_id x = sc_session_id data)) (JError "SESSION_PROJECTION_EXECUTION_NOT_FOUND");
  mret x.

(** The checks of [tenant.session_summary] and [tenant.memory_record]. *)
Definition content_check (content : pytext) : bool := (1 <=? length content)%nat && (length content <=? PROJECTION_CHARS)%nat.
Definition summary_check (r : SummaryRow) : bool :=
  (1 <=? sy_source_from_version r) && (sy_source_from_version r <=? sy_source_version r) && content_check (sy_content r).

(** [_upsert_summary] *)
Definition upsert_summary (k : session_key) (to_version : Z) (events : list (Z * EventRow)) : JM unit :=
  projection ← lift (summary_projection events);
  let row := {| sy_source_from_version := projection.1; sy_source_version := to_version;
                sy_content := projection.2 |} in
  known ← gets (λ s, bool_decide (k ∈ jd_sessions s));
  _ ← ensure (summary_check row && known) JSql;
  existing ← gets (λ s, jd_summaries s !! k);
  match existing with
  | Some r => if sy_source_version r <? to_version
              then modify (λ s, set_summaries (<[k := row]> (jd_summaries s)) s) else mret tt
  | None => modify (λ s, set_summaries (<[k := row]> (jd_summaries s)) s)
  end.

(** [_publish_memory_invalidation] *)
Definition publish_memory_invalidation (now : instant) (t : uuid) (memory_id session_id reason : string) : JM unit :=
  message_id ← draw_id uuid_at;
  insert_outbox_record uuid_at now t (uuid_text message_id) JOB_WORKER_SOURCE MEMORY_INVALIDATED_EVENT
    (session_partition_key (uuid_text t) session_id)
    (<["tenant_id" := JStr (uuid_text t)]> (<["memory_id" := JStr memory_id]> {["reason" := JStr reason]}))
    None (Some memory_id) None.

(** The rows of one subject and range: the key of the table beside its identifier. *)
Definition same_range (t : uuid) (subject session_id : string) (first last : Z) (km : uuid * uuid * MemoryRow) : Prop :=
  km.1.1 = t ∧ my_subject_id km.2 = subject ∧ my_source_session_id km.2 = session_id ∧
  my_source_from_version km.2 = first ∧ my_source_to_version km.2 = last.
#[global] Instance same_range_dec t subject session_id first last km :
  Decision (same_range t subject session_id first last km).
Proof. unfold same_range. apply _. Defined.

(** [_insert_memory_projection] *)
Definition insert_memory_projection (now : instant) (k : session_key) (first last : Z) (x : ProjectionSource)
    (events : list (Z * EventRow)) : JM unit :=
  match px_subject_id x with
  | None => mret tt
  | Some subject =>
      if bool_decide (px_memory_policy_version x = IM_GROUP_MEMORY_POLICY) then mret tt else
      id ← draw_id uuid_at;
      content ← lift (projection_content events);
      let row := {| my_subject_id := subject; my_source_session_id := k.2; my_source_from_version := first;
                    my_source_to_version := last; my_policy_version := px_memory_policy_version x;
                    my_content := content; my_is_valid := true; my_invalidated_at := None;
                    my_invalidation_reason := None; my_created_at := now; my_last_used_at := now |} in
      known ← gets (λ s, bool_decide (k ∈ jd_sessions s));
      _ ← ensure (known && (1 <=? first) && (first <=? last) && content_check content) JSql;
      present ← gets (λ s, bool_decide (filter (same_range k.1 subject k.2 first last)
                                          (map_to_list (jd_memories s)) = []));
      if (present : bool) then
        free ← gets (λ s, bool_decide (jd_memories s !! (k.1, id) = None));
        _ ← ensure free JSql;
        _ ← modify (λ s, set_memories (<[(k.1, id) := row]> (jd_memories s)) s);
        publish_memory_invalidation now k.1 (uuid_text id) k.2 "CREATED"
      else mret tt
  end.

(** The transaction of [handle]. *)
Definition project (now : instant) (t : uuid) (data : SessionEventsCommittedData) : JM unit :=
  let k := (t, sc_session_id data) in
  let first := sc_from_version data + 1 in
  execution ← projection_execution t data;
  summary_events ← source_events k 1 (sc_to_version data);
  _ ← assert_complete summary_events (sc_to_version data) 1;
  _ ← upsert_summary k (sc_to_version data) summary_events;
  range_events ← source_events k first (sc_to_version data);
  _ ← assert_complete range_events (sc_to_version data - sc_from_version data) first;
  insert_memory_projection now k first (sc_to_version data) execution range_events.

Definition handle (fault : txn_fault) (now : instant) (envelope : ExecutionEnvelope) : JM unit :=
  _ ← ensure (bool_decide (ee_event_type envelope = SESSION_EVENTS_COMMITTED_EVENT))
        (JError "JOB_WORKER_UNSUPPORTED_EVENT");
  data ← get_or_raise (validate_committed (ee_data envelope)) JValidation;
  _ ← ensure (sc_from_version data <? sc_to_version data) (JError "SESSION_EVENT_RANGE_INVALID");
  t ← get_or_raise (parse_uuid (sc_tenant_id data)) (JError "badly formed hexadecimal UUID string");
  transaction fault JSql (project now t data).

(** ** [correct_memory] *)
Definition invalidated_memory (now : instant) (reason : string) (m : MemoryRow) : MemoryRow :=
  {| my_subject_id := my_subject_id m; my_source_session_id := my_source_session_id m;
     my_source_from_version := my_source_from_version m; my_source_to_version := my_source_to_version m;
     my_policy_version := my_policy_version m; my_content := my_content m; my_is_valid := false;
     my_invalidated_at := Some now; my_invalidation_reason := Some reason; my_created_at := my_created_at m;
     my_last_used_at := my_last_used_at m |}.
(** An operation on the audit tables. *)
Definition job_on_admin {A} (m : ADM A) : JM A := λ s,
  match m (jd_admin s) with
  | (Ok a, d) => (Ok a, set_job_admin d s)
  | (Raise _, d) => (Raise JSql, set_job_admin d s)
  end.
Definition text_between (lo hi : nat) (s : string) : bool :=
  (lo <=? length (characters s))%nat && (length (characters s) <=? hi)%nat.

Definition correct_memory (fault : txn_fault) (now : instant) (tenant_id : string) (memory_id : uuid)
    (actor reason : string) : JM bool :=
  _ ← ensure (text_between 1 256 actor && text_between 1 512 reason) (JError "MEMORY_CORRECTION_INVALID");
  t ← get_or_raise (parse_uuid tenant_id) (JError "badly formed hexadecimal UUID string");
  transaction fault JSql (
    found ← gets (λ s, jd_memories s !! (t, memory_id));
    match found with
    | Some m =>
        if my_is_valid m then
          _ ← modify (λ s, set_memories (<[(t, memory_id) := invalidated_memory now reason m]> (jd_memories s)) s);
          _ ← publish_memory_invalidation now t (uuid_text memory_id) (my_source_session_id m) "CORRECTED";
          _ ← job_on_admin (audited sha256_hex dumps uuid_at now
                (Some {| ap_subject := actor; ap_auth_method := "oidc"; ap_roles := [] |}) "memory.corrected" "ALLOW"
                (Some "memory") (Some (uuid_text memory_id)) (Some t) {["reason" := JStr reason]});
          mret true
        else mret false
    | None => mret false
    end).

(** ** [SessionProjectionConsumer] *)
Context (max_attempts : Z).

Definition delivery_attempts (s : JobDb) (o : OutboxRecord) : Z :=
  default 0 (pd_attempts <$> jd_deliveries s !! ob_id o).
(** The rows of the query of [run_once]. *)
Definition claimable (s : JobDb) (o : OutboxRecord) : Prop :=
  ob_status o = PUBLISHED ∧ ob_event_type o = SESSION_EVENTS_COMMITTED_EVENT ∧
  default DL_PENDING (pd_status <$> jd_deliveries s !! ob_id o) = DL_PENDING ∧ delivery_attempts s o < max_attempts.
#[global] Instance claimable_dec s o : Decision (claimable s o).
Proof. unfold claimable. apply _. Defined.
Definition select_claim (locked : uuid → bool) (s : JobDb) : option OutboxRecord :=
  head (merge_sort row_le (filter (λ o, claimable s o ∧ locked (ob_id o) = false) (jd_outbox s))).

(** [_outbox_envelope] *)
Definition outbox_envelope (row : OutboxRecord) : ExecutionEnvelope :=
  {| ee_message_id := ob_message_id row; ee_source := ob_source row; ee_event_type := ob_event_type row;
     ee_partition_key := ob_partition_key row; ee_time := isoformat (ob_created_at row);
     ee_tenant_id := uuid_text (ob_tenant_id row); ee_data_schema := ob_event_type row +:+ ".schema.json";
     ee_data := ob_payload row; ee_causation_id := ob_causation_id row;
     ee_correlation_id := ob_correlation_id row; ee_data_classification := ob_data_classification row;
     ee_trace_parent := None |}.

Definition error_text (e : JobError) : string :=
  match e with JError text => text | JValidation => validation_text | JSql => sql_text end.

(** What the claim ends with: the acknowledgement, or [_record_delivery_failure]; [attempts] is
    the number the claim read. *)
Definition delivery_of (now : instant) (attempts : Z) (result : outcome JobError unit) : ProjectionDelivery :=
  match result with
  | Ok _ => {| pd_status := DL_SUCCEEDED; pd_attempts := attempts + 1; pd_last_error := None;
               pd_completed_at := Some now |}
  | Raise e => {| pd_status := if max_attempts <=? attempts + 1 then DL_DEAD_LETTER else DL_PENDING;
                  pd_attempts := attempts + 1; pd_last_error := Some (take 512 (characters (error_text e)));
                  pd_completed_at := None |}
  end.
Definition record_outcome (now : instant) (row : OutboxRecord) (attempts : Z) (result : outcome JobError unit)
    : JM bool :=
  _ ← modify (λ s, set_job_deliveries (<[ob_id row := delivery_of now attempts result]> (jd_deliveries s)) s);
  mret match result with Ok _ => true | Raise _ => false end.

(** [run_once]: the projection commits in a transaction of its own while the claim is held. *)
Definition run_once (locked : uuid → bool) (inner outer : txn_fault) (now : instant) : JM bool := λ s,
  match select_claim locked s with
  | None => transaction outer JSql (mret false) s
  | Some row =>
      let '(result, s1) := handle inner now (outbox_envelope row) s in
      transaction outer JSql (record_outcome now row (delivery_attempts s row) result) s1
  end.
End Worker.

(** ** [SubjectMemoryReader] *)
Record VisibleMemory := { vm_id : uuid; vm_subject_id : string; vm_content : pytext; vm_policy_version : string }.

Definition associated (t : uuid) (subject other : string) (s : JobDb) : bool :=
  bool_decide ((t, subject, other) ∈ jd_associations s) || bool_decide ((t, other, subject) ∈ jd_associations s).
Definition visible_to (t : uuid) (subject : string) (s : JobDb) (km : uuid * uuid * MemoryRow) : Prop :=
  km.1.1 = t ∧ my_is_valid km.2 = true ∧ my_policy_version km.2 = IM_DIRECT_MEMORY_POLICY ∧
  (my_subject_id km.2 = subject ∨ associated t subject (my_subject_id km.2) s = true).
#[export] Instance visible_to_dec t subject s km : Decision (visible_to t subject s km).
Proof. unfold visible_to. apply _. Defined.
(** [ORDER BY created_at DESC, id DESC] *)
Definition newer (a b : uuid * uuid * MemoryRow) : Prop :=
  my_created_at b.2 < my_created_at a.2 ∨ (my_created_at b.2 = my_created_at a.2 ∧ b.1.2 ≤ a.1.2).
#[export] Instance newer_dec : RelDecision newer.
Proof. intros a b. unfold newer. solve_decision. Defined.
Definition visible_rows (t : uuid) (subject : string) (limit : nat) (s : JobDb) : list (uuid * uuid * MemoryRow) :=
  take limit (merge_sort newer (filter (visible_to t subject s) (map_to_list (jd_memories s)))).

Definition used_memory (now : instant) (m : MemoryRow) : MemoryRow :=
  {| my_subject_id := my_subject_id m; my_source_session_id := my_source_session_id m;
     my_source_from_version := my_source_from_version m; my_source_to_version := my_source_to_version m;
     my_policy_version := my_policy_version m; my_content := my_content m; my_is_valid := my_is_valid m;
     my_invalidated_at := my_invalidated_at m; my_invalidation_reason := my_invalidation_reason m;
     my_created_at := my_created_at m; my_last_used_at := now |}.
Definition mark_used (now : instant) (keys : list (uuid * uuid)) (m : gmap (uuid * uuid) MemoryRow)
    : gmap (uuid * uuid) MemoryRow := foldr (alter (used_memory now)) m keys.

(** [_list_direct_memory] *)
Definition list_direct_memory (now : instant) (t : uuid) (subject : string) (limit : nat) : JM (list VisibleMemory) :=
  rows ← gets (visible_rows t subject limit);
  _ ← modify (λ s, set_memories (mark_used now (fst <$> rows) (jd_memories s)) s);
  mret ((λ km : uuid * uuid * MemoryRow,
    {| vm_id := km.1.2; vm_subject_id := my_subject_id km.2; vm_content := my_content km.2;
       vm_policy_version := my_policy_version km.2 |}) <$> rows).

Definition list_visible (fault : txn_fault) (now : instant) (t : uuid) (subject memory_policy_version : string)
    (limit : Z) : JM (list VisibleMemory) :=
  _ ← ensure ((1 <=? limit) && (limit <=? 100)) (JError "MEMORY_LIMIT_INVALID");
  if negb (bool_decide (memory_policy_version = IM_DIRECT_MEMORY_POLICY)) then mret [] else
  transaction fault JSql (list_direct_memory now t subject (Z.to_nat limit)).
