(* ===== verification/ProjectionTheorems.v ===== *)
(** * Theorems on the projections

    Job workers claim announced commits, project them and acknowledge them in any
    interleaving, with crashes and lost connections in between; sessions grow, operators
    correct memories, conversations read them and retention erases content meanwhile. *)

From stdpp Require Import sorting.
From S2P Require Import Prelude PyNum Uuids ExecutionBus Backpressure Sessions AuditChain AdminAccess Inbound Projections.
Open Scope string_scope.
Open Scope list_scope.
Open Scope Z_scope.

(** ** Texts *)
Lemma characters_nil s : characters s = [] → s = "".
Proof. destruct s as [|c s]; [done|]. simpl. destruct (characters s) as [|[] ?]; simpl; [done|done|]. by case_match. Qed.
Lemma join_lines_cons x l : l ≠ [] → join_lines (x :: l) = x ++ NEWLINE_TEXT :: join_lines l.
Proof. by destruct l. Qed.

(** The number of characters of lines with a separator before each. *)
Definition lines_length (l : list pytext) : nat := sum_list_with (λ x, S (length x)) l.
Lemma join_lines_length l : l ≠ [] → S (length (join_lines l)) = lines_length l.
Proof.
  unfold lines_length. induction l as [|x l IH]; [done|]. intros _. destruct l as [|y l]; simpl; [lia|].
  rewrite length_app. simpl. specialize (IH ltac:(done)). simpl in IH. lia.
Qed.
Lemma last_chars_length n t : length (last_chars n t) = (n `min` length t)%nat.
Proof. unfold last_chars. rewrite length_drop. lia. Qed.

(** ** What the loop over the fragments selects *)
Section Select.
Implicit Types (l sel : list (Z * pytext)).

(** [sel] is the newest part of [l]: whole fragments, the oldest of them perhaps cut. *)
Record newest_part l sel (room : nat) : Prop := {
  np_split : ∃ newer sequence c piece older, l = newer ++ (sequence, c) :: older ∧
    sel = newer ++ [(sequence, piece)] ∧ piece ≠ [] ∧ (∃ cut, c = cut ++ piece) ∧
    (piece ≠ c → lines_length (snd <$> sel) = room) ∧ (older ≠ [] → (room ≤ S (lines_length (snd <$> sel)))%nat);
  np_fits : (lines_length (snd <$> sel) ≤ room)%nat;
}.

Lemma select_fragments_spec l : ∀ (remaining : nat) (started : bool),
  Forall (λ f : Z * pytext, f.2 ≠ []) l → l ≠ [] → (0 < remaining - (if started then 1 else 0))%nat →
  newest_part l (select_fragments remaining started l) (remaining + (if started then 0 else 1)).
Proof.
  induction l as [|[sequence c] l IH]; intros remaining started Hl Hne Hroom; [done|]. clear Hne.
  apply Forall_cons in Hl as [Hc Hl]. simpl in Hc. assert (length c ≠ 0%nat) as Hlc by by destruct c.
  simpl. set (sep := if started then 1%nat else 0%nat) in *.
  destruct (Nat.leb_spec (remaining - sep) 0) as [?|_]; [lia|].
  destruct (Nat.ltb_spec (remaining - sep) (length c)) as [Hcut|Hfit].
  - assert (lines_length (snd <$> [(sequence, last_chars (remaining - sep) c)]) = S (remaining - sep)) as Hlen.
    { unfold lines_length. simpl. rewrite last_chars_length. lia. }
    split; [|rewrite Hlen; destruct started; unfold sep in *; lia].
    exists [], sequence, c, (last_chars (remaining - sep) c), l. split_and!; [done..| | | |].
    + intros Hnil%(f_equal length). rewrite last_chars_length in Hnil. simpl in Hnil. lia.
    + eexists. symmetry. apply take_drop.
    + intros _. rewrite Hlen. destruct started; unfold sep in *; lia.
    + intros _. rewrite Hlen. destruct started; unfold sep in *; lia.
  - destruct (decide (l = [])) as [->|Hne].
    { simpl. split; [|unfold lines_length; simpl; destruct started; unfold sep in *; lia].
      exists [], sequence, c, c, []. split_and!; [done..|by exists []| |]; done. }
    destruct (decide (remaining - (length c + sep) - 1 = 0)%nat) as [Hfull|Hmore].
    + assert (select_fragments (remaining - (length c + sep)) true l = []) as ->.
      { destruct l as [|[s' c'] l]; [done|]. simpl. by rewrite Hfull. }
      assert (lines_length (snd <$> [(sequence, c)]) = S (length c)) as Hlen by (unfold lines_length; simpl; lia).
      split; [|rewrite Hlen; destruct started; unfold sep in *; lia].
      exists [], sequence, c, c, l. split_and!; [done..|by exists []|done|].
      intros _. rewrite Hlen. destruct started; unfold sep in *; lia.
    + destruct (IH (remaining - (length c + sep))%nat true Hl Hne ltac:(cbn; lia)) as [Hsplit Hfits]. cbn [negb] in *. rewrite !Nat.add_0_r in *.
      destruct Hsplit as (newer & s' & c' & piece & older & -> & Hsel & Hp & Hcut & Hcutl & Hold).
      rewrite Hsel in *. assert (∀ l', lines_length (snd <$> (sequence, c) :: l') = (S (length c) + lines_length (snd <$> l'))%nat)
        as Hcons by done.
      split; [|rewrite Hcons; destruct started; unfold sep in *; lia].
      exists ((sequence, c) :: newer), s', c', piece, older. split_and!; [done..| |].
      * intros Hd%Hcutl. change (((sequence, c) :: newer) ++ [(s', piece)]) with ((sequence, c) :: newer ++ [(s', piece)]).
        rewrite Hcons, Hd. destruct started; unfold sep in *; lia.
      * intros Ho%Hold. change (((sequence, c) :: newer) ++ [(s', piece)]) with ((sequence, c) :: newer ++ [(s', piece)]).
        rewrite Hcons. destruct started; unfold sep in *; lia.
Qed.
End Select.

Section Projections.
Context (lax_int : json → option Z) (py_repr : json → string) (validation_text sql_text : string).
Context (sha256_hex : string → string) (dumps : json → string) (uuid_at : nat → uuid) (max_attempts : Z).

Lemma event_content_text event c : event_content py_repr event = Ok (Some c) → c ≠ [].
Proof.
  unfold event_content. intros Hc. repeat case_match; simplify_eq; intros ->%characters_nil || intros Hn.
  all: match goal with H : characters _ = [] |- _ => apply characters_nil in H; by destruct (ev_kind event) end.
Qed.
Lemma fragments_text events l : fragments py_repr events = Ok l → Forall (λ f : Z * pytext, f.2 ≠ []) l.
Proof.
  revert l. induction events as [|[i event] events IH]; intros l; simpl; [by intros [= <-]|].
  destruct (event_content py_repr event) as [content|] eqn:Hc; [|done].
  destruct (fragments py_repr events) as [l'|]; [|done]. intros [= <-].
  destruct content as [c|]; [|by apply IH]. constructor; [by eapply event_content_text|by apply IH].
Qed.
Lemma fragments_sequences events l :
  fragments py_repr events = Ok l → Forall (λ f : Z * pytext, f.1 ∈ events.*1) l.
Proof.
  revert l. induction events as [|[i event] events IH]; intros l; simpl; [by intros [= <-]|].
  destruct (event_content py_repr event) as [content|]; [|done].
  destruct (fragments py_repr events) as [l'|]; [|done]. intros [= <-].
  assert (Forall (λ f : Z * pytext, f.1 ∈ i :: events.*1) l') as Hl.
  { eapply Forall_impl; [by apply IH|]. intros f Hf. by right. }
  destruct content as [c|]; [|done]. constructor; [by left|done].
Qed.

(** The text of a summary, as a reader would put it: the newest whole fragments that fit,
    the oldest of them cut at its start when it is the one that does not. *)
Record newest_text (l : list (Z * pytext)) (from_version : Z) (content : pytext) : Prop := {
  nt_size : (1 ≤ length content ≤ PROJECTION_CHARS)%nat;
  nt_text : ∃ older c cut piece newer, l = older ++ (from_version, c) :: newer ∧ c = cut ++ piece ∧ piece ≠ [] ∧
    content = join_lines (piece :: newer.*2) ∧ (cut ≠ [] → length content = PROJECTION_CHARS) ∧
    (older ≠ [] → (PROJECTION_CHARS ≤ S (length content))%nat);
}.

Lemma summary_projection_newest events l from_version content :
  fragments py_repr events = Ok l → l ≠ [] → summary_projection py_repr events = Ok (from_version, content) →
  newest_text l from_version content.
Proof.
  intros Hl Hne. unfold summary_projection. rewrite Hl. destruct l as [|f0 l0]; [done|]. set (l := f0 :: l0) in *.
  pose proof (fragments_text _ _ Hl) as Htext.
  destruct (select_fragments_spec (reverse l) PROJECTION_CHARS false) as [Hsplit Hfits].
  { by rewrite Forall_reverse. } { intros Hr%(f_equal reverse). by rewrite reverse_involutive in Hr. }
  { unfold PROJECTION_CHARS. lia. }
  destruct Hsplit as (newer & i & c & piece & older & Hrev & Hsel & Hp & [cut ->] & Hcut & Hold).
  rewrite Hsel in *. rewrite reverse_snoc. intros Heq.
  assert (content = join_lines (((i, piece) :: reverse newer).*2)) as -> by by injection Heq.
  assert (from_version = i) as -> by by injection Heq. clear Heq.
  assert (S (length (join_lines (((i, piece) :: reverse newer).*2))) = lines_length (newer ++ [(i, piece)]).*2) as Hlen.
  { rewrite join_lines_length by done. unfold lines_length. rewrite <-reverse_snoc.
    rewrite fmap_reverse. generalize (newer ++ [(i, piece)]).*2 as x. intros x.
    induction x as [|y x IH]; [done|]. rewrite reverse_cons, sum_list_with_app, IH. simpl. lia. }
  rewrite fmap_cons in Hlen |- *. cbn [snd] in Hlen |- *. split.
  - rewrite <-Hlen in Hfits. split; [|unfold PROJECTION_CHARS in *; lia].
    destruct piece as [|x piece]; [done|]. destruct (reverse newer).*2; simpl; lia.
  - exists (reverse older), (cut ++ piece), cut, piece, (reverse newer). split_and!; [|done|done|done| |].
    + rewrite <-(reverse_involutive l), Hrev, reverse_app, reverse_cons. by rewrite <-app_assoc.
    + intros Hc. specialize (Hcut ltac:(intros He; by apply (app_inv_tail piece [] cut) in He)). lia.
    + intros Ho. specialize (Hold ltac:(by intros ->)). lia.
Qed.

(** ** The events of a range *)
Definition complete (k : session_key) (n : Z) (s : JobDb) : Prop := ∀ i, 1 ≤ i ≤ n → is_Some (jd_events s !! (k, i)).

Lemma omap_full {A B} (f : A → option B) (l : list A) : length (omap f l) = length l → ∀ x, x ∈ l → is_Some (f x).
Proof.
  assert (∀ l : list A, length (omap f l) ≤ length l)%nat as Hle.
  { clear. intros l. induction l as [|z l IH]; csimpl; [done|]. case_match; csimpl; lia. }
  induction l as [|y l IH]; csimpl; intros Hlen x Hx; [by apply not_elem_of_nil in Hx|]. specialize (Hle l).
  destruct (f y) eqn:Hy; csimpl in *; [|lia].
  apply elem_of_cons in Hx as [->|Hx]; [by eexists|]. apply IH; [lia|done].
Qed.
Lemma omap_ext {A B} (f g : A → option B) (l : list A) : (∀ x, x ∈ l → f x = g x) → omap f l = omap g l.
Proof.
  induction l as [|y l IH]; intros Hfg; csimpl; [done|]. rewrite (Hfg y) by (by left).
  rewrite IH; [done|]. intros x Hx. apply Hfg. by right.
Qed.
Lemma events_between_complete k n s : 0 ≤ n → Z.of_nat (length (events_between k 1 n s)) = n → complete k n s.
Proof.
  intros Hn Hlen i Hi. unfold events_between in Hlen. set (f := λ i, _) in Hlen.
  assert (is_Some (f i)) as [e He].
  { apply (omap_full f (seqZ 1 (n - 1 + 1))); [|apply elem_of_seqZ; lia]. rewrite length_seqZ. lia. }
  unfold f in He. by destruct (jd_events s !! (k, i)).
Qed.
Lemma events_between_same k a n s s' : (∀ i, a ≤ i ≤ n → jd_events s' !! (k, i) = jd_events s !! (k, i)) →
  events_between k a n s' = events_between k a n s.
Proof. intros He. apply omap_ext. intros i Hi%elem_of_seqZ. by rewrite He by lia. Qed.

(** ** What one projection does *)

(** What no projection touches. *)
Record framed (s s' : JobDb) : Prop := {
  fr_sessions : jd_sessions s' = jd_sessions s;
  fr_events : jd_events s' = jd_events s;
  fr_executions : jd_executions s' = jd_executions s;
  fr_associations : jd_associations s' = jd_associations s;
  fr_deliveries : jd_deliveries s' = jd_deliveries s;
  fr_outbox : ∃ l, jd_outbox s' = jd_outbox s ++ l ∧ Forall (λ o, ob_status o = PENDING) l;
}.
Lemma framed_refl s : framed s s.
Proof. split; [done..|]. exists []. by rewrite app_nil_r. Qed.
Lemma framed_trans s1 s2 s3 : framed s1 s2 → framed s2 s3 → framed s1 s3.
Proof.
  intros [H1 H2 H3 H4 H5 (l1 & H6 & Hl1)] [G1 G2 G3 G4 G5 (l2 & G6 & Hl2)]. split; [congruence..|].
  exists (l1 ++ l2). rewrite G6, H6, app_assoc, Forall_app. done.
Qed.

Lemma publish_Ok now t mid sid reason s s' u :
  publish_memory_invalidation uuid_at now t mid sid reason s = (Ok u, s') →
  framed s s' ∧ jd_summaries s' = jd_summaries s ∧ jd_memories s' = jd_memories s.
Proof.
  unfold publish_memory_invalidation, insert_outbox_record, draw_id. intros Hr. run_inv. case_match; run_inv.
  split; [|done]. split; [done..|]. eexists. split; [reflexivity|]. by constructor.
Qed.

(** The summary is written when it is newer. *)
Definition summary_after (k : session_key) (row : SummaryRow) (m : gmap session_key SummaryRow) : gmap session_key SummaryRow :=
  match m !! k with
  | Some r => if sy_source_version r <? sy_source_version row then <[k := row]> m else m
  | None => <[k := row]> m
  end.
Lemma upsert_summary_Ok k n events s s' u : upsert_summary py_repr k n events s = (Ok u, s') →
  ∃ from_version content, summary_projection py_repr events = Ok (from_version, content) ∧
    let row := {| sy_source_from_version := from_version; sy_source_version := n; sy_content := content |} in
    summary_check row = true ∧ s' = set_summaries (summary_after k row (jd_summaries s)) s.
Proof.
  unfold upsert_summary, lift. intros Hr. run_inv. destruct (summary_projection py_repr events) as [[f c]|] eqn:Hp; run_inv.
  cbn [fst snd] in *. exists f, c. split; [done|]. cbv zeta.
  match goal with H : _ && _ = true |- _ => apply andb_true_iff in H as [Hc _] end. split; [done|].
  unfold summary_after. cbn [sy_source_version].
  destruct (jd_summaries s !! k) as [r|]; [destruct (sy_source_version r <? n)|]; run_inv; by destruct s.
Qed.

(** A memory is stored once per subject and range. *)
Inductive memory_after (now : instant) (t : uuid) (sid : string) (first last : Z) (x : ProjectionSource)
    (s s' : JobDb) : Prop :=
  | memory_unwanted : px_subject_id x = None ∨ px_memory_policy_version x = IM_GROUP_MEMORY_POLICY →
      jd_memories s' = jd_memories s → memory_after now t sid first last x s s'
  | memory_present subject km : px_subject_id x = Some subject → jd_memories s !! km.1 = Some km.2 →
      same_range t subject sid first last km → jd_memories s' = jd_memories s → memory_after now t sid first last x s s'
  | memory_stored subject id row : px_subject_id x = Some subject → px_memory_policy_version x ≠ IM_GROUP_MEMORY_POLICY →
      jd_memories s !! (t, id) = None →
      (∀ km, jd_memories s !! km.1 = Some km.2 → ¬ same_range t subject sid first last km) →
      same_range t subject sid first last (t, id, row) → my_policy_version row = px_memory_policy_version x →
      my_is_valid row = true → content_check (my_content row) = true →
      projection_content py_repr (events_between (t, sid) first last s) = Ok (my_content row) →
      jd_memories s' = <[(t, id) := row]> (jd_memories s) → memory_after now t sid first last x s s'.

Lemma insert_memory_Ok now t sid first last x s s' u :
  insert_memory_projection py_repr uuid_at now (t, sid) first last x (events_between (t, sid) first last s) s = (Ok u, s') →
  framed s s' ∧ jd_summaries s' = jd_summaries s ∧ memory_after now t sid first last x s s'.
Proof.
  unfold insert_memory_projection. destruct (px_subject_id x) as [subject|] eqn:Hs.
  2: { intros Hr. run_inv. split; [apply framed_refl|]. split; [done|]. apply memory_unwanted; auto. }
  case_bool_decide as Hg. { intros Hr. run_inv. split; [apply framed_refl|]. split; [done|]. apply memory_unwanted; auto. }
  unfold draw_id, lift. intros Hr. run_inv.
  destruct (projection_content py_repr (events_between (t, sid) first last s)) as [content|] eqn:Hc; run_inv.
  destruct (bool_decide _) eqn:Hpres in Hr; cbn [fst snd] in *.
  - run_inv. apply publish_Ok in Hr as (Hf & Hsu & Hm).
    split. { eapply framed_trans; [|exact Hf]. split; [done..|]. exists []. by rewrite app_nil_r. }
    split; [done|]. apply bool_decide_eq_true in Hpres.
    match goal with H : bool_decide (_ = None) = true |- _ => apply bool_decide_eq_true in H; rename H into Hfree end.
    refine (memory_stored _ _ _ _ _ _ s _ subject _ _ Hs Hg Hfree _ _ _ _ _ _ Hm); [|done..| |done].
    + intros km Hkm Hsame. assert (km ∈ filter (same_range t subject sid first last) (map_to_list (jd_memories s))) as Hin.
      { apply list_elem_of_filter. split; [done|]. destruct km as [key m]. by apply elem_of_map_to_list. }
      simpl in Hpres. rewrite Hpres in Hin. by apply not_elem_of_nil in Hin.
    + match goal with H : _ && content_check _ = true |- _ => by apply andb_true_iff in H as [_ ?] end.
  - run_inv. split. { split; [done..|]. exists []. by rewrite app_nil_r. }
    split; [done|]. apply bool_decide_eq_false in Hpres. simpl in Hpres.
    destruct (filter _ (map_to_list (jd_memories s))) as [|km l] eqn:Hf; [done|].
    assert (km ∈ filter (same_range t subject sid first last) (map_to_list (jd_memories s))) as Hin by (rewrite Hf; by left).
    apply list_elem_of_filter in Hin as [Hsame Hin]. destruct km as [key m]. apply elem_of_map_to_list in Hin.
    by eapply (memory_present _ _ _ _ _ _ _ _ subject (key, m)).
Qed.
Lemma memory_after_ext now t sid first last x s1 s s' : jd_memories s1 = jd_memories s → jd_events s1 = jd_events s →
  memory_after now t sid first last x s1 s' → memory_after now t sid first last x s s'.
Proof.
  intros Hm He [Hw Hs|subject km Hx Hkm Hr Hs|subject id row Hx Hg Hf Hn Hr Hp Hv Hc Ht Hs]; rewrite Hm in *.
  - by apply memory_unwanted.
  - by eapply memory_present.
  - eapply memory_stored; [done..| |done]. rewrite <-Ht. apply f_equal, events_between_same. by rewrite He.
Qed.

(** The effect of a projection that commits. *)
Record projects (now : instant) (t : uuid) (data : SessionEventsCommittedData) (s s' : JobDb) : Prop := {
  pj_execution : ∃ execution_id x, parse_uuid (sc_execution_id data) = Some execution_id ∧
    jd_executions s !! (t, execution_id) = Some x ∧ px_session_id x = sc_session_id data ∧
    memory_after now t (sc_session_id data) (sc_from_version data + 1) (sc_to_version data) x s s';
  pj_complete : complete (t, sc_session_id data) (sc_to_version data) s;
  pj_summary : ∃ from_version content,
    summary_projection py_repr (events_between (t, sc_session_id data) 1 (sc_to_version data) s) = Ok (from_version, content) ∧
    let row := {| sy_source_from_version := from_version; sy_source_version := sc_to_version data; sy_content := content |} in
    summary_check row = true ∧ jd_summaries s' = summary_after (t, sc_session_id data) row (jd_summaries s);
  pj_frame : framed s s';
}.

Lemma project_Ok now t data s s' u : 0 ≤ sc_from_version data < sc_to_version data →
  project py_repr uuid_at now t data s = (Ok u, s') → projects now t data s s'.
Proof.
  intros Hv. unfold project, projection_execution, source_events, assert_complete. cbv zeta. intros Hr. run_inv.
  match goal with H : upsert_summary _ _ _ _ _ = _ |- _ => apply upsert_summary_Ok in H as (f & c & Hp & Hc & ->) end.
  apply (insert_memory_Ok now t (sc_session_id data)) in Hr as (Hf & Hsu & Hm).
  assert (framed s s') as Hfr.
  { eapply framed_trans; [|exact Hf]. split; [done..|]. exists []. by rewrite app_nil_r. }
  repeat match goal with H : _ && _ = true |- _ => apply andb_true_iff in H as [? ?] end.
  repeat match goal with H : bool_decide _ = true |- _ => apply bool_decide_eq_true in H end.
  split; [| | |done].
  - eexists _, _. split; [eassumption|]. split; [eassumption|]. split; [done|]. by eapply memory_after_ext; [| |exact Hm].
  - apply events_between_complete; [lia|].
    match goal with H : (_ =? sc_to_version data) = true |- _ => by apply Z.eqb_eq in H end.
  - exists f, c. split; [done|]. split; [done|]. by rewrite Hsu.
Qed.

Lemma validate_committed_Some d data : validate_committed lax_int d = Some data →
  0 ≤ sc_from_version data ∧ 1 ≤ sc_to_version data.
Proof.
  unfold validate_committed. case_match; [done|]. intros Hd.
  repeat match goal with H : _ ≫= _ = Some _ |- _ => apply bind_Some in H as (? & ? & H) end.
  case_match; [|done]. simplify_eq. simpl. rewrite !andb_true_iff, !Z.leb_le in *. tauto.
Qed.

Lemma handle_cases fault now e s : let '(r, s') := handle lax_int py_repr uuid_at fault now e s in
  (s' = s ∧ r ≠ Ok tt) ∨
  ∃ data t, validate_committed lax_int (ee_data e) = Some data ∧ parse_uuid (sc_tenant_id data) = Some t ∧
    0 ≤ sc_from_version data < sc_to_version data ∧ projects now t data s s'.
Proof.
  destruct (handle _ _ _ _ _ _ _) as [r s'] eqn:Hh. revert Hh. unfold handle, mbind, ST_mbind, ensure, get_or_raise, mret, ST_mret, raise.
  case_bool_decide; [|intros [= <- <-]; by left].
  destruct (validate_committed lax_int (ee_data e)) as [data|] eqn:Hd; [|intros [= <- <-]; by left].
  destruct (Z.ltb_spec (sc_from_version data) (sc_to_version data)) as [Hv|]; [|intros [= <- <-]; by left].
  destruct (parse_uuid (sc_tenant_id data)) as [t|] eqn:Ht; [|intros [= <- <-]; by left].
  pose proof (validate_committed_Some _ _ Hd) as [Hv' _]. unfold transaction.
  destruct (project _ _ _ _ _ s) as [[[]|err] s1] eqn:Hp; [|intros [= <- <-]; by left].
  apply project_Ok in Hp; [|lia]. destruct fault; intros [= <- <-]; [|by left|]; right; exists data, t; split_and!; done || lia.
Qed.

(** ** The system *)
Definition ERASED : pytext := characters "[erased]".

(** What other components do: sessions and executions are added, messages of the outbox
    are added and published, associations and the ledgers change at will. *)
Definition same_message (o o' : OutboxRecord) : Prop :=
  ob_id o' = ob_id o ∧ ob_tenant_id o' = ob_tenant_id o ∧ ob_event_type o' = ob_event_type o ∧ ob_payload o' = ob_payload o.
Record environment (s s' : JobDb) : Prop := {
  en_sessions : jd_sessions s ⊆ jd_sessions s';
  en_events : jd_events s ⊆ jd_events s';
  en_executions : jd_executions s ⊆ jd_executions s';
  en_summaries : jd_summaries s' = jd_summaries s;
  en_memories : jd_memories s' = jd_memories s;
  en_deliveries : jd_deliveries s' = jd_deliveries s;
  en_outbox : ∀ o, o ∈ jd_outbox s → ∃ o', o' ∈ jd_outbox s' ∧ same_message o o';
}.
(** What the retention sweep does to an expired session, and to a memory. *)
Definition erased_event (k : session_key) (key : session_key * Z) (e : EventRow) : option EventRow :=
  Some (if bool_decide (key.1 = k)
        then {| ev_execution_id := ev_execution_id e; ev_kind := ev_kind e; ev_payload := ∅ |} else e).
Definition erased_summary (r : SummaryRow) : SummaryRow :=
  {| sy_source_from_version := sy_source_from_version r; sy_source_version := sy_source_version r; sy_content := ERASED |}.
Definition erase_session (k : session_key) (s : JobDb) : JobDb :=
  set_summaries (alter erased_summary k (jd_summaries s)) (set_job_events (map_imap (erased_event k) (jd_events s)) s).
Definition expired_memory (now : instant) (m : MemoryRow) : MemoryRow :=
  {| my_subject_id := my_subject_id m; my_source_session_id := my_source_session_id m;
     my_source_from_version := my_source_from_version m; my_source_to_version := my_source_to_version m;
     my_policy_version := my_policy_version m; my_content := ERASED; my_is_valid := false;
     my_invalidated_at := Some now; my_invalidation_reason := Some "RETENTION_EXPIRED"; my_created_at := my_created_at m;
     my_last_used_at := my_last_used_at m |}.

(** A claim: the locked row, the attempts read with it, and how its projection ended. *)
Abbreviation claim := (OutboxRecord * Z * option (outcome JobError unit))%type.
Definition claim_id (c : claim) : uuid := ob_id c.1.1.
Definition locked_by (claims : list claim) (id : uuid) : bool := bool_decide (id ∈ claim_id <$> claims).
Record JobSystem := { js_db : JobDb; js_claims : list claim }.

Inductive job_step : JobSystem → JobSystem → Prop :=
  | job_claim db claims row : select_claim max_attempts (locked_by claims) db = Some row →
      job_step {| js_db := db; js_claims := claims |}
        {| js_db := db; js_claims := claims ++ [(row, delivery_attempts db row, None)] |}
  | job_handle db claims n row attempts fault now : claims !! n = Some (row, attempts, None) →
      job_step {| js_db := db; js_claims := claims |}
        {| js_db := (handle lax_int py_repr uuid_at fault now (outbox_envelope row) db).2;
           js_claims := <[n := (row, attempts,
             Some (handle lax_int py_repr uuid_at fault now (outbox_envelope row) db).1)]> claims |}
  | job_finish db claims n row attempts r fault now : claims !! n = Some (row, attempts, Some r) →
      job_step {| js_db := db; js_claims := claims |}
        {| js_db := (transaction fault JSql (record_outcome validation_text sql_text max_attempts now row attempts r) db).2;
           js_claims := delete n claims |}
  | job_crash db claims n : job_step {| js_db := db; js_claims := claims |} {| js_db := db; js_claims := delete n claims |}
  | job_correct db claims fault now tenant_id memory_id actor reason :
      job_step {| js_db := db; js_claims := claims |}
        {| js_db := (correct_memory sha256_hex dumps uuid_at fault now tenant_id memory_id actor reason db).2;
           js_claims := claims |}
  | job_read db claims fault now t subject policy limit :
      job_step {| js_db := db; js_claims := claims |}
        {| js_db := (list_visible fault now t subject policy limit db).2; js_claims := claims |}
  | job_elsewhere db db' claims : environment db db' →
      job_step {| js_db := db; js_claims := claims |} {| js_db := db'; js_claims := claims |}
  | job_erase_session db claims k :
      job_step {| js_db := db; js_claims := claims |} {| js_db := erase_session k db; js_claims := claims |}
  | job_erase_memory db claims now key m : jd_memories db !! key = Some m → my_is_valid m = true →
      job_step {| js_db := db; js_claims := claims |}
        {| js_db := set_memories (<[key := expired_memory now m]> (jd_memories db)) db; js_claims := claims |}.

(** Nothing projected yet, and nobody at work. *)
Definition job_start (s : JobSystem) : Prop :=
  jd_summaries (js_db s) = ∅ ∧ jd_memories (js_db s) = ∅ ∧ jd_deliveries (js_db s) = ∅ ∧ js_claims s = [].
Definition job_reachable (s : JobSystem) : Prop := ∃ s0, job_start s0 ∧ rtc job_step s0 s.

(** ** How memories change *)
Record memory_later (m m' : MemoryRow) : Prop := {
  ml_source : my_subject_id m' = my_subject_id m ∧ my_source_session_id m' = my_source_session_id m ∧
    my_source_from_version m' = my_source_from_version m ∧ my_source_to_version m' = my_source_to_version m ∧
    my_policy_version m' = my_policy_version m;
  ml_invalid : my_is_valid m = false → m' = m;
  ml_content : my_content m' = my_content m ∨ my_content m' = ERASED ∧ my_is_valid m' = false;
}.
Lemma memory_later_refl m : memory_later m m.
Proof. split; auto. Qed.
Lemma memory_later_trans m1 m2 m3 : memory_later m1 m2 → memory_later m2 m3 → memory_later m1 m3.
Proof.
  intros [(?&?&?&?&?) Hi Hc] [(?&?&?&?&?) Hi' Hc']. split; [by split_and!; congruence| |].
  - intros Hf. assert (m2 = m1) as -> by auto. auto.
  - destruct Hc as [Hc|[Hc Hv]]; [by rewrite <-Hc|]. right. by rewrite Hi'.
Qed.

Record memories_later (s s' : JobDb) : Prop := {
  mm_frame : framed s s';
  mm_summaries : jd_summaries s' = jd_summaries s;
  mm_rows : ∀ key, match jd_memories s !! key with
                   | Some m => ∃ m', jd_memories s' !! key = Some m' ∧ memory_later m m'
                   | None => jd_memories s' !! key = None
                   end;
}.
Lemma memories_later_refl s : memories_later s s.
Proof. split; [apply framed_refl|done|]. intros key. case_match; eauto using memory_later_refl. Qed.
Lemma memories_later_insert s s' key m m' : framed s s' → jd_summaries s' = jd_summaries s →
  jd_memories s !! key = Some m → memory_later m m' → jd_memories s' = <[key := m']> (jd_memories s) → memories_later s s'.
Proof.
  intros Hf Hs Hm Hl Hm'. split; [done..|]. intros key'. rewrite Hm'. destruct (decide (key' = key)) as [->|Hne].
  - rewrite Hm, lookup_insert_eq. eauto.
  - rewrite lookup_insert_ne by done. case_match; eauto using memory_later_refl.
Qed.

Lemma correct_memory_later fault now tenant_id memory_id actor reason s :
  memories_later s (correct_memory sha256_hex dumps uuid_at fault now tenant_id memory_id actor reason s).2.
Proof.
  unfold correct_memory, mbind, ST_mbind, ensure, get_or_raise, mret, ST_mret, raise.
  destruct (_ && _); [|apply memories_later_refl]. destruct (parse_uuid tenant_id) as [t|]; [|apply memories_later_refl].
  set (body := λ s : JobDb, _). unfold transaction. destruct (body s) as [[b|e] s'] eqn:Hb; [|apply memories_later_refl].
  assert (memories_later s s') as Hl; [|destruct fault; try exact Hl; apply memories_later_refl].
  unfold body, gets in Hb. simpl in Hb. destruct (jd_memories s !! (t, memory_id)) as [m|] eqn:Hm;
    [|injection Hb as _ <-; apply memories_later_refl].
  destruct (my_is_valid m) eqn:Hv; [|injection Hb as _ <-; apply memories_later_refl]. unfold modify in Hb. simpl in Hb.
  destruct (publish_memory_invalidation _ _ _ _ _ _ _) as [[u|e] s1] eqn:Hp; [|done]. apply publish_Ok in Hp as (Hf & Hs & Hmem).
  unfold job_on_admin in Hb. destruct (audited _ _ _ _ _ _ _ _ _ _ _ _) as [[u'|e] d]; [|done]. injection Hb as _ <-.
  eapply (memories_later_insert _ _ (t, memory_id) m (invalidated_memory now reason m)); [|exact Hs|done| |exact Hmem].
  - eapply framed_trans; [|split; [apply Hf..|]; apply Hf]. split; [done..|]. exists []. by rewrite app_nil_r.
  - split; [done| |by left]. intros ?. congruence.
Qed.

Lemma mark_used_lookup (now : instant) (keys : list (uuid * uuid)) (m : gmap (uuid * uuid) MemoryRow) (key : uuid * uuid) :
  match m !! key with
  | Some x => ∃ x', mark_used now keys m !! key = Some x' ∧ (x' = x ∨ x' = used_memory now x ∧ key ∈ keys)
  | None => mark_used now keys m !! key = None
  end.
Proof.
  unfold mark_used. induction keys as [|key' keys IH]; simpl; [case_match; eauto|].
  destruct (decide (key' = key)) as [->|Hne].
  - rewrite lookup_alter_eq. destruct (m !! key) as [x|].
    + destruct IH as (x' & -> & Hx'). exists (used_memory now x'). split; [done|]. right.
      split; [by destruct Hx' as [->|[-> _]]|by left].
    + by rewrite IH.
  - rewrite lookup_alter_ne by done. destruct (m !! key) as [x|]; [|done].
    destruct IH as (x' & ? & Hx'). exists x'. split; [done|]. destruct Hx' as [?|[? ?]]; [by left|]. right. split; [done|by right].
Qed.
Lemma visible_rows_spec t subject limit s km : km ∈ visible_rows t subject limit s →
  visible_to t subject s km ∧ jd_memories s !! km.1 = Some km.2.
Proof.
  intros Hkm. apply (elem_of_take _ _ _ ) in Hkm as (i & Hi & _). apply list_elem_of_lookup_2 in Hi.
  rewrite merge_sort_Permutation in Hi. apply list_elem_of_filter in Hi as [Hv Hin]. split; [done|].
  destruct km. by apply elem_of_map_to_list in Hin.
Qed.
Lemma list_visible_later fault now t subject policy limit s :
  memories_later s (list_visible fault now t subject policy limit s).2.
Proof.
  unfold list_visible, mbind, ST_mbind, ensure, mret, ST_mret, raise. destruct (_ && _); [|apply memories_later_refl].
  destruct (negb _); [apply memories_later_refl|]. unfold transaction, list_direct_memory, gets, modify, mbind, ST_mbind, mret, ST_mret.
  assert (memories_later s (set_memories (mark_used now (visible_rows t subject (Z.to_nat limit) s).*1 (jd_memories s)) s)) as Hl.
  { split; [split; [done..|]; exists []; by rewrite app_nil_r|done|]. intros key.
    pose proof (mark_used_lookup now (visible_rows t subject (Z.to_nat limit) s).*1 (jd_memories s) key) as Hu.
    simpl. destruct (jd_memories s !! key) as [m|] eqn:Hm; [|done]. destruct Hu as (m' & Hm' & Hcase). exists m'. split; [done|].
    destruct Hcase as [->|[-> Hin]]; [apply memory_later_refl|]. split; [done| |by left]. intros Hinv.
    apply list_elem_of_fmap in Hin as (km & -> & Hkm). apply visible_rows_spec in Hkm as [(_ & Hval & _) Hkm].
    rewrite Hkm in Hm. congruence. }
  simpl. destruct fault; simpl; [exact Hl|apply memories_later_refl|exact Hl].
Qed.

(** ** The invariant *)

(** The announced commit [o] has been projected. *)
Definition projected (s : JobDb) (o : OutboxRecord) : Prop :=
  ∃ data t execution_id x, validate_committed lax_int (ob_payload o) = Some data ∧
    parse_uuid (sc_tenant_id data) = Some t ∧ parse_uuid (sc_execution_id data) = Some execution_id ∧
    jd_executions s !! (t, execution_id) = Some x ∧ px_session_id x = sc_session_id data ∧
    (∃ r, jd_summaries s !! (t, sc_session_id data) = Some r ∧ sc_to_version data ≤ sy_source_version r) ∧
    (∀ subject, px_subject_id x = Some subject → px_memory_policy_version x ≠ IM_GROUP_MEMORY_POLICY →
       ∃ id m, jd_memories s !! (t, id) = Some m ∧
         same_range t subject (sc_session_id data) (sc_from_version data + 1) (sc_to_version data) (t, id, m)).

(** A summary is the projection of the events of its session, or erased with them. *)
Record summary_ok (s : JobDb) (k : session_key) (r : SummaryRow) : Prop := {
  so_check : summary_check r = true;
  so_complete : complete k (sy_source_version r) s;
  so_content : sy_content r = ERASED ∨
    summary_projection py_repr (events_between k 1 (sy_source_version r) s) = Ok (sy_source_from_version r, sy_content r);
}.
(** A memory belongs to the subject of an execution whose policy admits one. *)
Record memory_ok (s : JobDb) (t : uuid) (m : MemoryRow) : Prop := {
  mo_policy : my_policy_version m ≠ IM_GROUP_MEMORY_POLICY;
  mo_range : 1 ≤ my_source_from_version m ≤ my_source_to_version m;
  mo_content : content_check (my_content m) = true;
  mo_execution : ∃ execution_id x, jd_executions s !! (t, execution_id) = Some x ∧ px_session_id x = my_source_session_id m ∧
    px_subject_id x = Some (my_subject_id m) ∧ px_memory_policy_version x = my_policy_version m;
}.
Definition one_per_range (s : JobDb) : Prop := ∀ t id id' m m', jd_memories s !! (t, id) = Some m →
  jd_memories s !! (t, id') = Some m' →
  same_range t (my_subject_id m) (my_source_session_id m) (my_source_from_version m) (my_source_to_version m) (t, id', m') → id' = id.
Record delivery_ok (s : JobDb) (id : uuid) (d : ProjectionDelivery) : Prop := {
  dv_attempts : 1 ≤ pd_attempts d ≤ max_attempts;
  dv_pending : pd_status d = DL_PENDING → pd_attempts d < max_attempts;
  dv_dead : pd_status d = DL_DEAD_LETTER → pd_attempts d = max_attempts;
  dv_done : pd_status d = DL_SUCCEEDED → ∃ o, o ∈ jd_outbox s ∧ ob_id o = id ∧
    ob_event_type o = SESSION_EVENTS_COMMITTED_EVENT ∧ projected s o;
}.
Record JobInv (s : JobDb) : Prop := {
  ji_summaries : ∀ k r, jd_summaries s !! k = Some r → summary_ok s k r;
  ji_memories : ∀ t id m, jd_memories s !! (t, id) = Some m → memory_ok s t m;
  ji_unique : one_per_range s;
  ji_deliveries : ∀ id d, jd_deliveries s !! id = Some d → delivery_ok s id d;
}.
(** A claim is alone with its row, and what it did is done. *)
Record claim_ok (s : JobDb) (c : claim) : Prop := {
  ck_row : ∃ o, o ∈ jd_outbox s ∧ same_message c.1.1 o;
  ck_type : ob_event_type c.1.1 = SESSION_EVENTS_COMMITTED_EVENT;
  ck_status : default DL_PENDING (pd_status <$> jd_deliveries s !! claim_id c) = DL_PENDING;
  ck_attempts : delivery_attempts s c.1.1 = c.1.2 ∧ 0 ≤ c.1.2 < max_attempts;
  ck_done : c.2 = Some (Ok tt) → projected s c.1.1;
}.
Record SystemInv (x : JobSystem) : Prop := {
  sv_db : JobInv (js_db x);
  sv_claims : Forall (claim_ok (js_db x)) (js_claims x);
  sv_alone : NoDup (claim_id <$> js_claims x);
}.

(** How the tables move. *)
Record advances (s s' : JobDb) : Prop := {
  av_events : ∀ key, is_Some (jd_events s !! key) → is_Some (jd_events s' !! key);
  av_executions : jd_executions s ⊆ jd_executions s';
  av_summaries : ∀ k r, jd_summaries s !! k = Some r →
    ∃ r', jd_summaries s' !! k = Some r' ∧ sy_source_version r ≤ sy_source_version r';
  av_memories : ∀ key m, jd_memories s !! key = Some m → ∃ m', jd_memories s' !! key = Some m' ∧ memory_later m m';
  av_outbox : ∀ o, o ∈ jd_outbox s → ∃ o', o' ∈ jd_outbox s' ∧ same_message o o';
}.
Lemma same_message_refl o : same_message o o.
Proof. done. Qed.
Lemma same_message_trans o1 o2 o3 : same_message o1 o2 → same_message o2 o3 → same_message o1 o3.
Proof. intros (?&?&?&?) (?&?&?&?). split_and!; congruence. Qed.
Lemma advances_refl s : advances s s.
Proof. split; [done|done| |eauto using memory_later_refl|eauto using same_message_refl]. intros k r Hr. exists r. split; [done|lia]. Qed.
Lemma advances_trans s1 s2 s3 : advances s1 s2 → advances s2 s3 → advances s1 s3.
Proof.
  intros H1 H2. split.
  - intros key ?. by apply (av_events _ _ H2), (av_events _ _ H1).
  - etrans; [apply H1|apply H2].
  - intros k r Hr. destruct (av_summaries _ _ H1 _ _ Hr) as (r2 & Hr2 & ?).
    destruct (av_summaries _ _ H2 _ _ Hr2) as (r3 & ? & ?). exists r3. split; [done|lia].
  - intros key m Hm. destruct (av_memories _ _ H1 _ _ Hm) as (m2 & Hm2 & ?).
    destruct (av_memories _ _ H2 _ _ Hm2) as (m3 & ? & ?). eauto using memory_later_trans.
  - intros o Ho. destruct (av_outbox _ _ H1 _ Ho) as (o2 & Ho2 & ?).
    destruct (av_outbox _ _ H2 _ Ho2) as (o3 & ? & ?). eauto using same_message_trans.
Qed.
Lemma framed_advances s s' : framed s s' →
  (∀ k r, jd_summaries s !! k = Some r → ∃ r', jd_summaries s' !! k = Some r' ∧ sy_source_version r ≤ sy_source_version r') →
  (∀ key m, jd_memories s !! key = Some m → ∃ m', jd_memories s' !! key = Some m' ∧ memory_later m m') → advances s s'.
Proof.
  intros [? He Hx ? ? (l & Ho & _)] Hs Hm. split; [by rewrite He|by rewrite Hx|done..|].
  intros o Hin. exists o. split; [|done]. rewrite Ho. apply elem_of_app. by left.
Qed.
Lemma projected_advances s s' o : advances s s' → projected s o → projected s' o.
Proof.
  intros Ha (data & t & eid & x & Hd & Ht & Hi & Hx & Hsid & (r & Hr & Hv) & Hmem). exists data, t, eid, x.
  do 3 (split; [done|]). split; [by eapply lookup_weaken; [|apply Ha]|]. split; [done|]. split.
  - destruct (av_summaries _ _ Ha _ _ Hr) as (r' & Hr' & ?). exists r'. split; [done|lia].
  - intros subject Hs Hp. destruct (Hmem subject Hs Hp) as (id & m & Hm & _ & H1 & H2 & H3 & H4).
    destruct (av_memories _ _ Ha _ _ Hm) as (m' & Hm' & [(?&?&?&?&?) _ _]). exists id, m'. split; [done|].
    unfold same_range in *; simpl in *. split_and!; congruence.
Qed.
Lemma projected_message s o o' : same_message o o' → projected s o → projected s o'.
Proof. intros (_ & _ & _ & Hp). unfold projected. by rewrite Hp. Qed.

(** ** Each effect keeps the invariant *)
Lemma delivery_ok_advances s s' id d : advances s s' → delivery_ok s id d → delivery_ok s' id d.
Proof.
  intros Ha [H1 H2 H3 H4]. split; [done..|]. intros Hd. destruct (H4 Hd) as (o & Ho & Hid & Ht & Hp).
  destruct (av_outbox _ _ Ha o Ho) as (o' & Ho' & Hm). exists o'. split; [done|]. pose proof Hm as (? & ? & ? & ?).
  split; [congruence|]. split; [congruence|]. eapply projected_message; [exact Hm|]. by eapply projected_advances.
Qed.
Lemma claim_ok_advances s s' c : advances s s' → jd_deliveries s' !! claim_id c = jd_deliveries s !! claim_id c →
  claim_ok s c → claim_ok s' c.
Proof.
  intros Ha Hd [(o & Ho & Hm) H2 H3 [H4 H4'] H5]. split.
  - destruct (av_outbox _ _ Ha o Ho) as (o' & Ho' & Hm'). exists o'. eauto using same_message_trans.
  - done.
  - by rewrite Hd.
  - split; [|done]. unfold delivery_attempts in *. unfold claim_id in Hd. by rewrite Hd.
  - intros Hc. eapply projected_advances; [exact Ha|auto].
Qed.
Lemma summary_ok_events s s' k r : jd_events s' = jd_events s → summary_ok s k r → summary_ok s' k r.
Proof.
  intros He [H1 H2 H3]. split; [done| |].
  - intros i Hi. rewrite He. auto.
  - destruct H3 as [H3|H3]; [by left|right]. rewrite <-H3. apply f_equal, events_between_same. by rewrite He.
Qed.
Lemma memory_ok_executions s s' t m : jd_executions s ⊆ jd_executions s' → memory_ok s t m → memory_ok s' t m.
Proof.
  intros Hx [H1 H2 H3 (eid & x & He & ?)]. split; [done..|]. exists eid, x. split; [by eapply lookup_weaken|done].
Qed.
Lemma memory_ok_later s t m m' : memory_later m m' → memory_ok s t m → memory_ok s t m'.
Proof.
  intros [(E1 & E2 & E3 & E4 & E5) _ Hc] [H1 H2 H3 (eid & x & He & ? & ? & ?)]. split.
  - congruence.
  - lia.
  - destruct Hc as [->|[-> _]]; [done|reflexivity].
  - exists eid, x. split_and!; congruence.
Qed.

Lemma summary_after_spec k row m :
  (∀ k', k' ≠ k → summary_after k row m !! k' = m !! k') ∧
  ∃ r, summary_after k row m !! k = Some r ∧ sy_source_version row ≤ sy_source_version r ∧ (r = row ∨ m !! k = Some r) ∧
    ∀ r0, m !! k = Some r0 → sy_source_version r0 ≤ sy_source_version r.
Proof.
  unfold summary_after. destruct (m !! k) as [r0|] eqn:Hr.
  - destruct (Z.ltb_spec (sy_source_version r0) (sy_source_version row)).
    + split; [intros; by rewrite lookup_insert_ne|]. exists row. rewrite lookup_insert_eq. split_and!; [done|lia|by left|].
      intros r [= <-]. lia.
    + split; [done|]. exists r0. split_and!; [done|lia|by right|]. intros r [= <-]. lia.
  - split; [intros; by rewrite lookup_insert_ne|]. exists row. rewrite lookup_insert_eq. split_and!; [done|lia|by left|done].
Qed.

Lemma memory_after_rows now t sid first last x s s' : memory_after now t sid first last x s s' →
  ∀ key m, jd_memories s !! key = Some m → ∃ m', jd_memories s' !! key = Some m' ∧ memory_later m m'.
Proof.
  intros [_ Hs|? ? _ _ _ Hs|subject id row _ _ Hf _ _ _ _ _ _ Hs] key m Hm; rewrite Hs; [eauto using memory_later_refl..|].
  exists m. split; [|apply memory_later_refl]. rewrite lookup_insert_ne; [done|]. congruence.
Qed.

Lemma projects_advances now t data s s' : projects now t data s s' → advances s s'.
Proof.
  intros [(eid & x & _ & _ & _ & Hm) _ (f & c & _ & _ & Hs) Hf]. apply framed_advances; [done| |by eapply memory_after_rows].
  intros k r Hr. rewrite Hs. destruct (summary_after_spec (t, sc_session_id data) {| sy_source_from_version := f;
    sy_source_version := sc_to_version data; sy_content := c |} (jd_summaries s)) as [Hother (r' & Hr' & _ & _ & Hle)].
  destruct (decide (k = (t, sc_session_id data))) as [->|Hne]; [eauto|]. rewrite Hother by done. exists r. split; [done|lia].
Qed.

Lemma projects_projected now t data o s s' : projects now t data s s' →
  validate_committed lax_int (ob_payload o) = Some data → parse_uuid (sc_tenant_id data) = Some t → projected s' o.
Proof.
  intros [(eid & x & Hi & Hx & Hsid & Hm) _ (f & c & _ & _ & Hs) Hf] Hd Ht. exists data, t, eid, x.
  do 3 (split; [done|]). split; [by rewrite (fr_executions _ _ Hf)|]. split; [done|]. split.
  - rewrite Hs. destruct (summary_after_spec (t, sc_session_id data) {| sy_source_from_version := f;
      sy_source_version := sc_to_version data; sy_content := c |} (jd_summaries s)) as [_ (r' & Hr' & Hle & _)]. eauto.
  - intros subject Hsub Hpol.
    destruct Hm as [[?|?] Hs'|subject' km Hsub' Hkm Hr Hs'|subject' id row Hsub' _ _ _ Hr _ _ _ _ Hs']; [congruence|done| |];
      rewrite Hs'; simplify_eq.
    + destruct km as [[t' id] m]. pose proof Hr as (Ht' & _). simpl in *. subst t'. eauto.
    + exists id, row. by rewrite lookup_insert_eq.
Qed.

Lemma projects_inv now t data s s' : 0 ≤ sc_from_version data < sc_to_version data →
  projects now t data s s' → JobInv s → JobInv s'.
Proof.
  intros Hv Hp [H1 H2 H3 H4]. pose proof (projects_advances _ _ _ _ _ Hp) as Ha.
  destruct Hp as [(eid & x & Hi & Hx & Hsid & Hm) Hcomp (f & c & Hproj & Hcheck & Hs) Hf]. split.
  - intros k r. rewrite Hs. set (row := {| sy_source_from_version := f; sy_source_version := sc_to_version data; sy_content := c |}).
    destruct (summary_after_spec (t, sc_session_id data) row (jd_summaries s)) as [Hother (r' & Hr' & _ & Hcase & _)].
    destruct (decide (k = (t, sc_session_id data))) as [->|Hne].
    + rewrite Hr'. intros [= <-]. apply (summary_ok_events s); [apply Hf|]. destruct Hcase as [->|Hold]; [|auto].
      split; [done|done|by right].
    + rewrite Hother by done. intros Hr. apply (summary_ok_events s); [apply Hf|auto].
  - assert (∀ t id m, jd_memories s !! (t, id) = Some m → memory_ok s' t m) as Hold.
    { intros. eapply memory_ok_executions; [|eauto]. by rewrite (fr_executions _ _ Hf). }
    intros t' id' m'. destruct Hm as [_ Hs'|? ? _ _ _ Hs'|subject id row Hsub Hpol Hfree _ (_ & ? & ? & ? & ?) Hp _ Hc _ Hs'];
      rewrite Hs'; [apply Hold..|]. destruct (decide ((t', id') = (t, id))) as [[= -> ->]|Hne].
    + rewrite lookup_insert_eq. intros [= <-]. simpl in *. split; [congruence|lia|done|]. exists eid, x.
      rewrite (fr_executions _ _ Hf). split_and!; congruence.
    + rewrite lookup_insert_ne by congruence. apply Hold.
  - intros t' id1 id2 m1 m2.
    destruct Hm as [_ Hs'|? ? _ _ _ Hs'|subject id row Hsub Hpol Hfree Hnone (_ & ? & ? & ? & ?) Hp _ Hc _ Hs']; rewrite Hs'; [apply H3..|].
    simpl in *. intros Hm1 Hm2 Hr. apply lookup_insert_Some in Hm1 as [[He1 Hm1]|[Hn1 Hm1]];
      apply lookup_insert_Some in Hm2 as [[He2 Hm2]|[Hn2 Hm2]]; simplify_eq; [done| | |by eapply H3];
      unfold same_range in *; simpl in *; destruct Hr as (? & ? & ? & ? & ?); exfalso.
    + apply (Hnone (t', id2, m2)); [done|]. simpl. split_and!; congruence.
    + apply (Hnone (t', id1, m1)); [done|]. simpl. split_and!; congruence.
  - intros id d. rewrite (fr_deliveries _ _ Hf). intros Hd. eapply delivery_ok_advances; [exact Ha|auto].
Qed.

Lemma memories_later_advances s s' : memories_later s s' → advances s s'.
Proof.
  intros [Hf Hs Hm]. apply framed_advances; [done| |].
  - intros k r Hr. rewrite Hs. exists r. split; [done|lia].
  - intros key m Hk. specialize (Hm key). by rewrite Hk in Hm.
Qed.
Lemma memories_later_old s s' key m' : memories_later s s' → jd_memories s' !! key = Some m' →
  ∃ m, jd_memories s !! key = Some m ∧ memory_later m m'.
Proof.
  intros [_ _ Hm] Hk. specialize (Hm key). destruct (jd_memories s !! key) as [m|]; [|congruence].
  destruct Hm as (m2 & ? & ?). simplify_eq. eauto.
Qed.
Lemma memories_later_inv s s' : memories_later s s' → JobInv s → JobInv s'.
Proof.
  intros Hl [H1 H2 H3 H4]. pose proof (memories_later_advances _ _ Hl) as Ha. pose proof Hl as [Hf Hs _]. split.
  - intros k r. rewrite Hs. intros Hr. apply (summary_ok_events s); [apply Hf|auto].
  - intros t id m' Hm'. destruct (memories_later_old _ _ _ _ Hl Hm') as (m & Hm & Hlater).
    apply (memory_ok_executions s); [by rewrite (fr_executions _ _ Hf)|]. eapply memory_ok_later; [exact Hlater|eauto].
  - intros t id id' m1 m2 Hm1 Hm2 Hr. destruct (memories_later_old _ _ _ _ Hl Hm1) as (n1 & Hn1 & [(?&?&?&?&?) _ _]).
    destruct (memories_later_old _ _ _ _ Hl Hm2) as (n2 & Hn2 & [(?&?&?&?&?) _ _]). eapply (H3 t id id' n1 n2); [done..|].
    unfold same_range in *. simpl in *. destruct Hr as (?&?&?&?&?). split_and!; congruence.
  - intros id d. rewrite (fr_deliveries _ _ Hf). intros Hd. eapply delivery_ok_advances; [exact Ha|auto].
Qed.

Lemma environment_advances s s' : environment s s' → advances s s'.
Proof.
  intros [? He Hx Hs Hm _ Ho]. split; [|done| | |done].
  - intros key [e Hk]. exists e. by eapply lookup_weaken.
  - intros k r Hr. rewrite Hs. exists r. split; [done|lia].
  - intros key m Hk. rewrite Hm. eauto using memory_later_refl.
Qed.
Lemma environment_inv s s' : environment s s' → JobInv s → JobInv s'.
Proof.
  intros He [H1 H2 H3 H4]. pose proof (environment_advances _ _ He) as Ha. destruct He as [_ Hev Hx Hs Hm Hd _]. split.
  - intros k r. rewrite Hs. intros Hr. destruct (H1 k r Hr) as [Hc Hcomp Hcon]. split; [done| |].
    + intros i Hi. destruct (Hcomp i Hi) as [e Hie]. exists e. by eapply lookup_weaken.
    + destruct Hcon as [?|Hcon]; [by left|right]. rewrite <-Hcon. apply f_equal, events_between_same. intros i Hi.
      destruct (Hcomp i Hi) as [e Hie]. rewrite Hie. by eapply lookup_weaken.
  - intros t id m. rewrite Hm. intros Hk. eapply memory_ok_executions; [done|eauto].
  - unfold one_per_range. rewrite Hm. exact H3.
  - intros id d. rewrite Hd. intros Hk. eapply delivery_ok_advances; [exact Ha|auto].
Qed.

Lemma erase_session_events k s key :
  jd_events (erase_session k s) !! key = (jd_events s !! key) ≫= erased_event k key.
Proof. unfold erase_session. simpl. by rewrite map_lookup_imap. Qed.
Lemma erase_session_advances k s : advances s (erase_session k s).
Proof.
  split; [|done| | |].
  - intros key [e He]. rewrite erase_session_events, He. simpl. unfold erased_event. eauto.
  - intros k' r Hr. unfold erase_session. simpl. destruct (decide (k' = k)) as [->|Hne].
    + rewrite lookup_alter_eq, Hr. exists (erased_summary r). split; [done|simpl; lia].
    + rewrite lookup_alter_ne by done. exists r. split; [done|lia].
  - intros key m Hm. exists m. split; [done|apply memory_later_refl].
  - intros o Ho. exists o. done.
Qed.
Lemma erase_session_inv k s : JobInv s → JobInv (erase_session k s).
Proof.
  intros [H1 H2 H3 H4]. pose proof (erase_session_advances k s) as Ha.
  split; [|intros t id m Hm; apply (memory_ok_executions s); [done|by eapply H2]|exact H3|].
  - intros k' r. unfold erase_session at 1. simpl. destruct (decide (k' = k)) as [->|Hne].
    + rewrite lookup_alter_eq. destruct (jd_summaries s !! k) as [r0|] eqn:Hr0; [|done]. intros [= <-].
      destruct (H1 k r0 Hr0) as [Hc Hcomp _]. split; [|intros i Hi; by apply (av_events _ _ Ha), Hcomp|by left].
      unfold summary_check in *. simpl in *. rewrite !andb_true_iff in *. destruct Hc as [? _]. split; [done|reflexivity].
    + rewrite lookup_alter_ne by done. intros Hr. destruct (H1 k' r Hr) as [Hc Hcomp Hcon].
      split; [done|intros i Hi; by apply (av_events _ _ Ha), Hcomp|]. destruct Hcon as [?|Hcon]; [by left|right].
      rewrite <-Hcon. apply f_equal, events_between_same. intros i Hi. rewrite erase_session_events. unfold erased_event.
      simpl. rewrite bool_decide_eq_false_2 by done. by destruct (jd_events s !! (k', i)).
  - intros id d Hd. eapply delivery_ok_advances; [exact Ha|auto].
Qed.

(** ** The system keeps it *)
Lemma select_claim_Some locked s row : select_claim max_attempts locked s = Some row →
  row ∈ jd_outbox s ∧ claimable max_attempts s row ∧ locked (ob_id row) = false.
Proof.
  unfold select_claim. intros Hh%head_Some_elem_of. rewrite merge_sort_Permutation in Hh.
  apply list_elem_of_filter in Hh as [[? ?] ?]. done.
Qed.

(** A step that leaves the claims and the deliveries alone. *)
Lemma keeps_system db db' claims : advances db db' → jd_deliveries db' = jd_deliveries db → JobInv db' →
  SystemInv {| js_db := db; js_claims := claims |} → SystemInv {| js_db := db'; js_claims := claims |}.
Proof.
  intros Ha Hd Hi [_ Hc Hn]. split; [done| |done]. eapply Forall_impl; [exact Hc|]. intros c.
  apply claim_ok_advances; [exact Ha|simpl; by rewrite Hd].
Qed.
Lemma memories_later_system db db' claims : memories_later db db' →
  SystemInv {| js_db := db; js_claims := claims |} → SystemInv {| js_db := db'; js_claims := claims |}.
Proof.
  intros Hl Hi. eapply keeps_system; [by apply memories_later_advances|apply Hl|by apply (memories_later_inv db), Hi|done].
Qed.
Lemma delivery_attempts_nonneg s o : JobInv s → 0 ≤ delivery_attempts s o.
Proof.
  intros [_ _ _ Hd]. unfold delivery_attempts. destruct (jd_deliveries s !! ob_id o) as [d|] eqn:Ho; simpl; [|lia].
  destruct (Hd _ _ Ho) as [? _ _ _]. lia.
Qed.
Lemma delete_other {A B} (f : A → B) (l : list A) n x y :
  NoDup (f <$> l) → l !! n = Some x → y ∈ delete n l → f y ≠ f x.
Proof.
  intros Hn Hx Hy Hf. rewrite (delete_Permutation l n x Hx) in Hn. simpl in Hn. apply NoDup_cons in Hn as [Hn _].
  apply Hn. rewrite <-Hf. by apply list_elem_of_fmap_2.
Qed.

(** What a finished delivery says stays. *)
Definition settled_kept (s s' : JobDb) : Prop := ∀ id d, jd_deliveries s !! id = Some d → pd_status d ≠ DL_PENDING →
  jd_deliveries s' !! id = Some d.

Lemma claim_step_inv db claims row : select_claim max_attempts (locked_by claims) db = Some row →
  SystemInv {| js_db := db; js_claims := claims |} →
  SystemInv {| js_db := db; js_claims := claims ++ [(row, delivery_attempts db row, None)] |}.
Proof.
  intros Hsel [Hdb Hc Hn]. apply select_claim_Some in Hsel as (Hin & (? & Htype & Hst & Hat) & Hlock). split; simpl; [done| |].
  - apply Forall_app. split; [done|]. constructor; [|done]. split; [by exists row|done|done| |done].
    split; [done|]. split; [by apply delivery_attempts_nonneg|done].
  - rewrite fmap_app. apply NoDup_app. split; [done|]. split; [|apply NoDup_singleton].
    intros id Hid ->%list_elem_of_singleton. unfold locked_by in Hlock. by apply bool_decide_eq_false in Hlock.
Qed.

Lemma handle_step_inv db claims n row attempts fault now : claims !! n = Some (row, attempts, None) →
  SystemInv {| js_db := db; js_claims := claims |} →
  let '(r, db') := handle lax_int py_repr uuid_at fault now (outbox_envelope row) db in
  SystemInv {| js_db := db'; js_claims := <[n := (row, attempts, Some r)]> claims |} ∧ advances db db' ∧
  jd_deliveries db' = jd_deliveries db.
Proof.
  intros Hn Hi. pose proof (handle_cases fault now (outbox_envelope row) db) as Hh.
  destruct (handle _ _ _ _ _ _ _) as [r db']. assert (claim_ok db (row, attempts, None)) as Hcl.
  { destruct Hi as [_ Hc _]. rewrite Forall_forall in Hc. apply Hc. by eapply list_elem_of_lookup_2. }
  assert (advances db db' ∧ jd_deliveries db' = jd_deliveries db ∧ JobInv db' ∧ (r = Ok tt → projected db' row)) as (Ha & Hd & Hi' & Hp).
  { destruct Hh as [[-> Hr]|(data & t & Hv & Ht & Hrange & Hp)].
    - split_and!; [apply advances_refl|done|apply Hi|done].
    - split_and!; [by eapply projects_advances|apply Hp|eapply projects_inv; [exact Hrange|exact Hp|apply Hi]|].
      intros _. by eapply projects_projected. }
  split; [|done]. pose proof (keeps_system _ _ _ Ha Hd Hi' Hi) as [_ Hc' Hn']. split; simpl in *; [done| |].
  - apply Forall_insert; [done|]. apply (claim_ok_advances db db') in Hcl as [H1 H2 H3 H4 _]; [|done|by rewrite Hd].
    split; [done..|]. intros [= ->]. by apply Hp.
  - rewrite list_fmap_insert. rewrite list_insert_id; [done|]. rewrite list_lookup_fmap, Hn. done.
Qed.

Lemma finish_step_inv db claims n row attempts r fault now : claims !! n = Some (row, attempts, Some r) →
  SystemInv {| js_db := db; js_claims := claims |} →
  let db' := (transaction fault JSql (record_outcome validation_text sql_text max_attempts now row attempts r) db).2 in
  SystemInv {| js_db := db'; js_claims := delete n claims |} ∧ advances db db' ∧ settled_kept db db'.
Proof.
  intros Hn Hi. cbv zeta. pose proof Hi as [Hdb Hc Hnd]. simpl in *.
  assert (claim_ok db (row, attempts, Some r)) as Hcl.
  { rewrite Forall_forall in Hc. apply Hc. by eapply list_elem_of_lookup_2. }
  assert (NoDup (claim_id <$> delete n claims)) as Hnd' by (eapply sublist_NoDup; [exact Hnd|apply fmap_sublist, sublist_delete]).
  assert (∀ db', db' = db → SystemInv {| js_db := db'; js_claims := delete n claims |} ∧ advances db db' ∧ settled_kept db db') as Hsame.
  { intros ? ->. split; [|split; [apply advances_refl|by intros ?]]. split; simpl; [done|by apply Forall_delete|done]. }
  set (new := delivery_of validation_text sql_text max_attempts now attempts r).
  assert (let db' := set_job_deliveries (<[ob_id row := new]> (jd_deliveries db)) db in
    SystemInv {| js_db := db'; js_claims := delete n claims |} ∧ advances db db' ∧ settled_kept db db') as Hnew.
  { cbv zeta. set (db' := set_job_deliveries _ db).
    assert (advances db db') as Ha by (pose proof (advances_refl db) as []; by split).
    destruct Hcl as [(o & Ho & Hm) Ht Hst [Hat Hat'] Hdone]. simpl in *. split_and!; [|done|].
    - split; simpl; [|apply Forall_forall; intros c Hcin|done].
      + destruct Hdb as [H1 H2 H3 H4]. split.
        * intros k s Hk. apply (summary_ok_events db); [done|by apply H1].
        * intros t id m Hk. apply (memory_ok_executions db); [done|by eapply H2].
        * exact H3.
        * intros id d. simpl. rewrite lookup_insert_Some. intros [[<- <-]|[_ Hk]]; [|apply (delivery_ok_advances db db'); auto].
          unfold new. destruct r as [[]|e]; simpl.
          -- split; simpl; [lia|done|done|]. intros _. pose proof Hm as (? & ? & ? & ?). exists o. split_and!; [done|congruence..|].
             eapply projected_message; [exact Hm|]. eapply projected_advances; [exact Ha|]. by apply Hdone.
          -- destruct (Z.leb_spec max_attempts (attempts + 1)); split; simpl; try done; lia.
      + assert (c ∈ claims) as Hcin' by (eapply elem_of_sublist; [exact Hcin|apply sublist_delete]).
        rewrite Forall_forall in Hc. eapply (claim_ok_advances db db'); [done| |by apply Hc].
        simpl. rewrite lookup_insert_ne; [done|]. intros He.
        by eapply (delete_other claim_id); [exact Hnd|exact Hn|exact Hcin|].
    - intros id d Hd Hs. simpl. rewrite lookup_insert_ne; [done|]. intros <-. unfold claim_id in Hst. simpl in Hst.
      by rewrite Hd in Hst. }
  unfold transaction, record_outcome, mbind, ST_mbind, modify, mret, ST_mret. simpl. destruct fault; simpl; [exact Hnew|by apply Hsame|exact Hnew].
Qed.

Lemma job_step_inv x x' : job_step x x' → SystemInv x →
  SystemInv x' ∧ advances (js_db x) (js_db x') ∧ settled_kept (js_db x) (js_db x').
Proof.
  assert (∀ s s', jd_deliveries s' = jd_deliveries s → settled_kept s s') as Hsame by (intros ? ? Hd ? ? ?; by rewrite Hd).
  intros Hstep Hi. destruct Hstep as [db claims row Hs|db claims n row a fault now Hn|db claims n row a r fault now Hn|db claims n
    |db claims|db claims|db db' claims He|db claims k|db claims now key m Hm Hv]; simpl.
  - split; [by apply claim_step_inv|]. split; [apply advances_refl|by apply Hsame].
  - pose proof (handle_step_inv db claims n row a fault now Hn Hi) as Hh. destruct (handle _ _ _ _ _ _ _) as [r db'].
    destruct Hh as (? & ? & ?). split_and!; [done..|by apply Hsame].
  - by apply finish_step_inv.
  - split; [|split; [apply advances_refl|by apply Hsame]]. destruct Hi as [? ? ?]. split; simpl; [done|by apply Forall_delete|].
    eapply sublist_NoDup; [done|apply fmap_sublist, sublist_delete].
  - pose proof (correct_memory_later fault now tenant_id memory_id actor reason db) as Hl.
    split; [by eapply memories_later_system|]. split; [by apply memories_later_advances|apply Hsame, Hl].
  - pose proof (list_visible_later fault now t subject policy limit db) as Hl.
    split; [by eapply memories_later_system|]. split; [by apply memories_later_advances|apply Hsame, Hl].
  - pose proof (environment_advances _ _ He) as Ha. split; [|split; [done|apply Hsame, He]].
    eapply keeps_system; [exact Ha|apply He|by apply (environment_inv db), Hi|done].
  - split; [|split; [apply erase_session_advances|by apply Hsame]].
    eapply keeps_system; [apply erase_session_advances|done|by apply erase_session_inv, Hi|done].
  - assert (memories_later db (set_memories (<[key := expired_memory now m]> (jd_memories db)) db)) as Hl.
    { eapply memories_later_insert; [|done|exact Hm| |done].
      - split; [done..|]. exists []. by rewrite app_nil_r.
      - split; [done|congruence|by right]. }
    split; [by eapply memories_later_system|]. split; [by apply memories_later_advances|by apply Hsame].
Qed.
Lemma job_start_inv x : job_start x → SystemInv x.
Proof.
  intros (Hs & Hm & Hd & Hc). split; [|by rewrite Hc; constructor|rewrite Hc; apply NoDup_nil_2]. split.
  - intros k r. by rewrite Hs, lookup_empty.
  - intros t id m. by rewrite Hm, lookup_empty.
  - intros t id id' m m'. by rewrite Hm, lookup_empty.
  - intros id d. by rewrite Hd, lookup_empty.
Qed.
Lemma job_steps_inv x x' : rtc job_step x x' → SystemInv x →
  SystemInv x' ∧ advances (js_db x) (js_db x') ∧ settled_kept (js_db x) (js_db x').
Proof.
  induction 1 as [x|x y x' Hstep _ IH]; intros Hi; [split; [done|]; split; [apply advances_refl|by intros ?]|].
  destruct (job_step_inv _ _ Hstep Hi) as (Hi' & Ha & Hk). destruct (IH Hi') as (Hi'' & Ha' & Hk').
  split_and!; [done|by eapply advances_trans|]. intros id d Hd Hs. by apply Hk', Hs; first apply Hk.
Qed.
Lemma job_reachable_inv x : job_reachable x → SystemInv x.
Proof. intros (x0 & Hx0 & Hsteps). by apply (job_steps_inv x0), job_start_inv. Qed.


(** Projections only advance.  A summary never goes back to an earlier version; a memory
    keeps its subject, source and policy, and once invalidated, by a correction or by
    retention, no redelivery or read brings it back; no two memories cover the same range
    for one subject; a settled delivery stays settled. *)
Theorem projections_only_advance x x' : job_reachable x → rtc job_step x x' →
  advances (js_db x) (js_db x') ∧ one_per_range (js_db x') ∧ settled_kept (js_db x) (js_db x').
Proof.
  intros Hx Hsteps. destruct (job_steps_inv _ _ Hsteps (job_reachable_inv _ Hx)) as ([[_ _ Hu _] _ _] & Ha & Hk). done.
Qed.

(** A projection is acknowledged only when it is stored.  For every delivery marked
    SUCCEEDED the summary of the session has reached the announced version and the memory
    of the subject exists, and no delivery is tried more often than allowed: a dead letter
    has used exactly the allowed attempts. *)
Theorem acknowledged_projections_are_stored x id d : job_reachable x → jd_deliveries (js_db x) !! id = Some d →
  1 ≤ pd_attempts d ≤ max_attempts ∧ (pd_status d = DL_DEAD_LETTER → pd_attempts d = max_attempts) ∧
  (pd_status d = DL_SUCCEEDED → ∃ o, o ∈ jd_outbox (js_db x) ∧ ob_id o = id ∧
     ob_event_type o = SESSION_EVENTS_COMMITTED_EVENT ∧ projected (js_db x) o).
Proof. intros [[_ _ _ Hd] _ _]%job_reachable_inv Hid. by destruct (Hd id d Hid) as [? ? ? ?]. Qed.

(** C23: Memories stay private.  What a conversation reads are at most the permitted number
    of valid memories of its own tenant, each of its subject or of one associated with it by
    an administrator, and each from an execution in a direct conversation of that subject; a
    group conversation reads none, and leaves none behind. *)
Theorem memories_stay_private x fault now t subject policy limit l s' :
  job_reachable x → list_visible fault now t subject policy limit (js_db x) = (Ok l, s') →
  Z.of_nat (length l) ≤ limit ∧ (l ≠ [] → policy = IM_DIRECT_MEMORY_POLICY) ∧
  (∀ v, v ∈ l → ∃ m execution_id e, jd_memories (js_db x) !! (t, vm_id v) = Some m ∧ my_is_valid m = true ∧
     vm_content v = my_content m ∧ vm_subject_id v = my_subject_id m ∧
     (my_subject_id m = subject ∨ associated t subject (my_subject_id m) (js_db x) = true) ∧
     jd_executions (js_db x) !! (t, execution_id) = Some e ∧ px_subject_id e = Some (my_subject_id m) ∧
     px_memory_policy_version e = IM_DIRECT_MEMORY_POLICY) ∧
  (∀ t' id m, jd_memories (js_db x) !! (t', id) = Some m → my_policy_version m ≠ IM_GROUP_MEMORY_POLICY).
Proof.
  intros [[_ Hmem _ _] _ _]%job_reachable_inv Hr.
  assert (∀ t' id m, jd_memories (js_db x) !! (t', id) = Some m → my_policy_version m ≠ IM_GROUP_MEMORY_POLICY) as Hgroup.
  { intros t' id m Hm. apply (Hmem _ _ _ Hm). }
  unfold list_visible in Hr. run_inv. case_bool_decide as Hpol; simpl in *.
  2: { run_inv. simpl. split_and!; [lia|done|by intros v Hv%not_elem_of_nil|done]. }
  apply transaction_Ok in Hr as [_ Hr]. unfold list_direct_memory in Hr. run_inv.
  apply andb_true_iff in H as [Hlo _]. apply Z.leb_le in Hlo. split_and!; [|done| |done].
  - rewrite length_fmap. unfold visible_rows. rewrite length_take. lia.
  - intros v (km & -> & Hkm)%list_elem_of_fmap. apply visible_rows_spec in Hkm as [(Ht & Hv & Hp & Hsub) Hkm].
    destruct km as [[t' id] m]. simpl in *. subst t'. destruct (Hmem _ _ _ Hkm) as [_ _ _ (eid & e & He & _ & Hes & Hep)].
    exists m, eid, e. split_and!; [done..|congruence].
Qed.

(** ** Draining the announcements *)
Abbreviation run := (run_once lax_int py_repr validation_text sql_text uuid_at max_attempts (λ _, false)).

(** What is left to try: the attempts of every row that a run may still claim. *)
Definition row_backlog (s : JobDb) (o : OutboxRecord) : nat :=
  if decide (claimable max_attempts s o) then Z.to_nat (max_attempts - delivery_attempts s o) else 0%nat.
Definition backlog (s : JobDb) : nat := sum_list_with (row_backlog s) (jd_outbox s).

Lemma sum_list_with_le {A} (f g : A → nat) (l : list A) : (∀ x, x ∈ l → g x ≤ f x)%nat →
  (sum_list_with g l ≤ sum_list_with f l)%nat.
Proof.
  induction l as [|y l IH]; simpl; [done|]. intros Hl. pose proof (Hl y ltac:(by left)).
  pose proof (IH ltac:(intros x ?; apply Hl; by right)). lia.
Qed.
Lemma sum_list_with_lt {A} (f g : A → nat) (l : list A) x : (∀ x, x ∈ l → g x ≤ f x)%nat → x ∈ l → (g x < f x)%nat →
  (sum_list_with g l < sum_list_with f l)%nat.
Proof.
  induction l as [|y l IH]; simpl; intros Hl Hx Hlt; [by apply not_elem_of_nil in Hx|]. pose proof (Hl y ltac:(by left)).
  apply elem_of_cons in Hx as [->|Hx].
  - pose proof (sum_list_with_le f g l ltac:(intros z ?; apply Hl; by right)). lia.
  - pose proof (IH ltac:(intros z ?; apply Hl; by right) Hx Hlt). lia.
Qed.
Lemma sum_list_with_zero {A} (f : A → nat) (l : list A) : sum_list_with f l = 0%nat → ∀ x, x ∈ l → f x = 0%nat.
Proof.
  induction l as [|y l IH]; simpl; intros Hs x Hx; [by apply not_elem_of_nil in Hx|].
  apply elem_of_cons in Hx as [->|Hx]; [lia|apply IH; [lia|done]].
Qed.

(** A claimed row has one attempt less. *)
Lemma finished_backlog s s' row r now o : claimable max_attempts s row → JobInv s →
  jd_deliveries s' = <[ob_id row := delivery_of validation_text sql_text max_attempts now (delivery_attempts s row) r]> (jd_deliveries s) →
  (row_backlog s' o ≤ row_backlog s o)%nat ∧ (o = row → row_backlog s' o < row_backlog s o)%nat.
Proof.
  intros Hc Hi Hd. pose proof (delivery_attempts_nonneg s row Hi) as Hpos.
  assert (∀ o, delivery_attempts s o < max_attempts → ob_id o = ob_id row → claimable max_attempts s' o →
    (Z.to_nat (max_attempts - delivery_attempts s' o) < Z.to_nat (max_attempts - delivery_attempts s o))%nat) as Hless.
  { intros o' Hat Ho' _. assert (delivery_attempts s' o' = delivery_attempts s o' + 1) as ->; [|lia].
    unfold delivery_attempts. rewrite Hd, Ho', lookup_insert_eq. unfold delivery_of, delivery_attempts. by destruct r. }
  assert (∀ o, claimable max_attempts s' o → claimable max_attempts s o ∧
    (ob_id o ≠ ob_id row → delivery_attempts s' o = delivery_attempts s o)) as Hsub.
  { intros o' (H1 & H2 & H3 & H4). unfold claimable, delivery_attempts in *. destruct Hc as (_ & _ & Hc3 & Hc4).
    rewrite Hd in *. destruct (decide (ob_id o' = ob_id row)) as [He|Hne].
    - rewrite He in *. split; [done|]. done.
    - rewrite lookup_insert_ne in * by done. split; [split_and!; done|done]. }
  assert (o = row → delivery_attempts s o < max_attempts) as Hrow by (intros ->; apply Hc).
  unfold row_backlog. destruct (decide (claimable max_attempts s' o)) as [Hc'|Hn].
  - pose proof (Hsub o Hc') as [Hc0 Hsame]. rewrite decide_True by done.
    destruct (decide (ob_id o = ob_id row)) as [He|Hne].
    + pose proof (Hless o ltac:(apply Hc0) He Hc'). split; [lia|done].
    + rewrite Hsame by done. split; [lia|]. intros ->. done.
  - split; [lia|]. intros ->. rewrite decide_True by done. destruct Hc as (_ & _ & _ & ?). lia.
Qed.

(** One run: the invariant stays, settled rows stay settled, and the backlog shrinks to
    nothing. *)
Lemma run_once_spec inner now s : JobInv s → let s' := (run inner NoFault now s).2 in
  JobInv s' ∧ advances s s' ∧ (∀ o, o ∈ jd_outbox s → o ∈ jd_outbox s') ∧ (backlog s' ≤ backlog s - 1)%nat.
Proof.
  intros Hi. unfold run_once. destruct (select_claim max_attempts (λ _, false) s) as [row|] eqn:Hsel; cbv zeta.
  2: { simpl. split_and!; [done|apply advances_refl|done|]. assert (backlog s = 0%nat) as ->; [|lia].
    assert (∀ o, o ∈ jd_outbox s → row_backlog s o = 0%nat) as Hz.
    { intros o Ho. unfold row_backlog. rewrite decide_False; [done|]. intros Hc.
      assert (o ∈ merge_sort row_le (filter (λ o, claimable max_attempts s o ∧ false = false) (jd_outbox s))) as Hin.
      { rewrite merge_sort_Permutation. by apply list_elem_of_filter. }
      unfold select_claim in Hsel. destruct (merge_sort _ _); [by apply not_elem_of_nil in Hin|done]. }
    unfold backlog. revert Hz. generalize (jd_outbox s). intros l Hz. induction l as [|o l IH]; [done|]. simpl.
    rewrite (Hz o) by (by left). apply IH. intros o' ?. apply Hz. by right. }
  apply select_claim_Some in Hsel as (Hin & Hc & _).
  assert (SystemInv {| js_db := s; js_claims := [(row, delivery_attempts s row, None)] |}) as Hsys.
  { pose proof Hc as (_ & Htype & Hst & Hat). split; simpl; [done| |apply NoDup_singleton].
    constructor; [|done]. split; [by exists row|done|done| |done]. split; [done|]. split; [by apply delivery_attempts_nonneg|done]. }
  pose proof (handle_step_inv s [(row, delivery_attempts s row, None)] 0 row (delivery_attempts s row) inner now eq_refl Hsys) as Hh.
  pose proof (handle_cases inner now (outbox_envelope row) s) as Hcases.
  destruct (handle _ _ _ _ _ _ _) as [r s1]. destruct Hh as (Hsys1 & Ha1 & Hd1). simpl in Hsys1.
  pose proof (finish_step_inv s1 [(row, delivery_attempts s row, Some r)] 0 row (delivery_attempts s row) r NoFault now eq_refl Hsys1) as Hf. cbv zeta in Hf.
  set (s' := (transaction _ _ _ s1).2) in *. destruct Hf as ([Hi' _ _] & Ha' & _).
  assert (∃ l, jd_outbox s1 = jd_outbox s ++ l ∧ Forall (λ o, ob_status o = PENDING) l) as (l & Hl & Hpend).
  { destruct Hcases as [[-> _]|(? & ? & _ & _ & _ & [_ _ _ [_ _ _ _ _ Hout]])]; [exists []; by rewrite app_nil_r|done]. }
  assert (jd_outbox s' = jd_outbox s ++ l) as Ho' by done.
  assert (jd_deliveries s' = <[ob_id row := delivery_of validation_text sql_text max_attempts now (delivery_attempts s row) r]> (jd_deliveries s))
    as Hd' by (rewrite <-Hd1; done).
  split_and!; [done|by eapply advances_trans|intros o Ho; rewrite Ho'; apply elem_of_app; by left|].
  unfold backlog. rewrite Ho', sum_list_with_app.
  assert (sum_list_with (row_backlog s') l = 0%nat) as ->.
  { clear -Hpend. induction Hpend as [|o l Ho _ IH]; [done|]. simpl. rewrite IH. unfold row_backlog.
    rewrite decide_False; [done|]. intros (? & _). congruence. }
  assert (sum_list_with (row_backlog s') (jd_outbox s) < sum_list_with (row_backlog s) (jd_outbox s))%nat; [|lia].
  apply (sum_list_with_lt _ _ _ row); [|done|].
  - intros o _. by eapply finished_backlog.
  - by eapply finished_backlog.
Qed.

(** A worker on its own: one run after another, whatever becomes of the connection of the
    projection in each. *)
Fixpoint drain (runs : list (txn_fault * instant)) (s : JobDb) : JobDb :=
  match runs with
  | [] => s
  | (inner, now) :: runs' => drain runs' (run inner NoFault now s).2
  end.
Lemma drain_spec runs s : JobInv s → JobInv (drain runs s) ∧ (∀ o, o ∈ jd_outbox s → o ∈ jd_outbox (drain runs s)) ∧
  (backlog (drain runs s) ≤ backlog s - length runs)%nat.
Proof.
  revert s. induction runs as [|[inner now] runs IH]; simpl; intros s Hi; [split_and!; [done|done|lia]|].
  destruct (run_once_spec inner now s Hi) as (Hi' & _ & Ho & Hb). destruct (IH _ Hi') as (? & Ho' & ?).
  split_and!; [done|auto|lia].
Qed.

End Projections.

(** ** A session and its projections

    One session of a subject in a direct conversation: two committed events are announced,
    projected and acknowledged, and the memory is read, corrected and not read again.  The
    states of this story are the witnesses of the theorems on the projections. *)

(** ** The site *)
Definition pj_tenant : uuid := 7.
Definition pj_int (j : json) : option Z := match j with JNum n => Some n | _ => None end.
Definition pj_text (_ : json) : string := "{}".
Definition pj_sha (s : string) : string := s.
Definition pj_ids (n : nat) : uuid := Z.of_nat n + 100.

Definition said (kind text : string) : EventRow :=
  {| ev_execution_id := 5; ev_kind := kind; ev_payload := {["content" := JStr text]} |}.
Definition answered (text : string) : EventRow :=
  {| ev_execution_id := 5; ev_kind := "assistant";
     ev_payload := {["completion" := JObj {["choices" := JArr [JObj {["message" :=
       JObj {["content" := JStr text]}]}]]}]} |}.
Definition announcement (id : uuid) (from_version to_version : Z) : OutboxRecord :=
  {| ob_id := id; ob_tenant_id := pj_tenant; ob_message_id := "m"; ob_source := "w";
     ob_event_type := SESSION_EVENTS_COMMITTED_EVENT; ob_partition_key := "p"; ob_causation_id := None;
     ob_correlation_id := None; ob_data_classification := None;
     ob_payload := <["tenant_id" := JStr (uuid_text pj_tenant)]> (<["session_id" := JStr "s"]>
       (<["execution_id" := JStr (uuid_text 5)]> (<["from_version" := JNum from_version]>
       (<["to_version" := JNum to_version]> {["event_kinds" := JArr [JStr "user"]]}))));
     ob_status := PUBLISHED; ob_attempts := 0; ob_created_at := id |}.

Definition session_site (policy : string) (outbox : list OutboxRecord) : JobDb :=
  {| jd_sessions := {[(pj_tenant, "s")]};
     jd_events := <[((pj_tenant, "s"), 1) := said "user" "hello"]> {[((pj_tenant, "s"), 2) := answered "good day"]};
     jd_executions := {[(pj_tenant, 5 : uuid) := {| px_session_id := "s"; px_subject_id := Some "anna";
                                                     px_memory_policy_version := policy |}]};
     jd_summaries := ∅; jd_memories := ∅; jd_associations := {[(pj_tenant, "anna", "anton")]};
     jd_outbox := outbox; jd_deliveries := ∅;
     jd_admin := {| ad_tenants := {[pj_tenant]}; ad_members := []; ad_idempotency := ∅;
                    ad_audit := {| au_events := []; au_chain := ∅; au_outbox := []; au_manifests := []; au_worm := [];
                                   au_next_id := 0 |} |};
     jd_next_id := 0 |}.

(** ** The story *)
Abbreviation pj_step := (job_step pj_int pj_text "invalid" "lost" pj_sha pj_text pj_ids MAX_PROJECTION_ATTEMPTS).
Abbreviation pj_reachable := (job_reachable pj_int pj_text "invalid" "lost" pj_sha pj_text pj_ids MAX_PROJECTION_ATTEMPTS).
Abbreviation pj_handle := (handle pj_int pj_text pj_ids).
Abbreviation pj_record := (record_outcome "invalid" "lost" MAX_PROJECTION_ATTEMPTS).

Definition commit_row : OutboxRecord := announcement 1 0 2.
Definition announced : JobSystem := {| js_db := session_site IM_DIRECT_MEMORY_POLICY [commit_row]; js_claims := [] |}.
Definition claimed : JobSystem := {| js_db := js_db announced; js_claims := [(commit_row, 0, None)] |}.
Definition handled : JobSystem :=
  {| js_db := (pj_handle NoFault 1000 (outbox_envelope commit_row) (js_db announced)).2;
     js_claims := [(commit_row, 0, Some (pj_handle NoFault 1000 (outbox_envelope commit_row) (js_db announced)).1)] |}.
Definition finished : JobSystem :=
  {| js_db := (transaction NoFault JSql (pj_record 1001 commit_row 0
                (pj_handle NoFault 1000 (outbox_envelope commit_row) (js_db announced)).1) (js_db handled)).2;
     js_claims := [] |}.
Definition corrected : JobSystem :=
  {| js_db := (correct_memory pj_sha pj_text pj_ids NoFault 1002 (uuid_text pj_tenant) 100 "eve" "wrong" (js_db finished)).2;
     js_claims := [] |}.

Lemma announced_reachable : pj_reachable announced.
Proof. exists announced. split; [done|constructor]. Qed.
Lemma claimed_claims : select_claim MAX_PROJECTION_ATTEMPTS (locked_by []) (js_db announced) = Some commit_row.
Proof. vm_compute. reflexivity. Qed.
Lemma finished_reachable : pj_reachable finished.
Proof.
  exists announced. split; [done|]. eapply rtc_l; [exact (job_claim _ _ _ _ _ _ _ _ _ [] commit_row claimed_claims)|].
  eapply rtc_l; [exact (job_handle _ _ _ _ _ _ _ _ _ [(commit_row, 0, None)] 0 commit_row 0 NoFault 1000 eq_refl)|].
  apply rtc_once. exact (job_finish _ _ _ _ _ _ _ _ (js_db handled) (js_claims handled) 0 commit_row 0 _ NoFault 1001 eq_refl).
Qed.
Lemma corrected_step : pj_step finished corrected.
Proof. exact (job_correct _ _ _ _ _ _ _ _ (js_db finished) [] NoFault 1002 (uuid_text pj_tenant) 100 "eve" "wrong"). Qed.

(** ** Witnesses *)
Definition pj_key : session_key := (pj_tenant, "s").
Definition whole_text : pytext := characters ("user: hello" +:+ NEWLINE_TEXT +:+ "assistant: good day").


Lemma projections_only_advance_witness :
  (my_is_valid <$> jd_memories (js_db finished) !! (pj_tenant, 100 : uuid)) = Some true ∧
  (my_is_valid <$> jd_memories (js_db corrected) !! (pj_tenant, 100 : uuid)) = Some false ∧
  advances (js_db finished) (js_db corrected).
Proof.
  split; [vm_compute; reflexivity|]. split; [vm_compute; reflexivity|].
  exact (proj1 (projections_only_advance _ _ _ _ _ _ _ _ finished corrected finished_reachable (rtc_once _ _ corrected_step))).
Defined.

Lemma acknowledged_projections_are_stored_witness :
  ∃ d, jd_deliveries (js_db finished) !! (1 : uuid) = Some d ∧ pd_status d = DL_SUCCEEDED ∧
    ∃ o, o ∈ jd_outbox (js_db finished) ∧ ob_id o = 1 ∧ ob_event_type o = SESSION_EVENTS_COMMITTED_EVENT ∧
      projected pj_int (js_db finished) o.
Proof.
  assert (∃ d, jd_deliveries (js_db finished) !! (1 : uuid) = Some d ∧ pd_status d = DL_SUCCEEDED) as (d & Hd & Hs)
    by (eexists; vm_compute; split; reflexivity).
  exists d. split; [exact Hd|]. split; [exact Hs|].
  exact (proj2 (proj2 (acknowledged_projections_are_stored _ _ _ _ _ _ _ _ finished 1 d finished_reachable Hd)) Hs).
Defined.

(** Anton's conversation sees Anna's memory, as an administrator associated the two. *)
Definition antons_view : outcome JobError (list VisibleMemory) :=
  (list_visible NoFault 1002 pj_tenant "anton" IM_DIRECT_MEMORY_POLICY 20 (js_db finished)).1.
Definition annas_memory : VisibleMemory :=
  {| vm_id := 100; vm_subject_id := "anna"; vm_content := whole_text; vm_policy_version := IM_DIRECT_MEMORY_POLICY |}.
Lemma memories_stay_private_witness :
  antons_view = Ok [annas_memory] ∧
  ∀ t id m, jd_memories (js_db finished) !! (t, id) = Some m → my_policy_version m ≠ IM_GROUP_MEMORY_POLICY.
Proof.
  assert (antons_view = Ok [annas_memory]) as Hv by (vm_compute; reflexivity). split; [exact Hv|].
  exact (proj2 (proj2 (proj2 (memories_stay_private pj_int pj_text "invalid" "lost" pj_sha pj_text pj_ids MAX_PROJECTION_ATTEMPTS
    finished NoFault 1002 pj_tenant "anton" IM_DIRECT_MEMORY_POLICY 20 [annas_memory]
    (list_visible NoFault 1002 pj_tenant "anton" IM_DIRECT_MEMORY_POLICY 20 (js_db finished)).2 finished_reachable
    ltac:(vm_compute; reflexivity))))).
Defined.

(** Eight runs, of which the projection loses its connection in the first. *)
Definition eight_runs : list (txn_fault * instant) :=
  (LostBeforeCommit, 1000) :: ((λ n, (NoFault, n)) <$> [1001; 1002; 1003; 1004; 1005; 1006; 1007]).

(** ** Further runs *)

(** A corrected memory is seen by nobody, and projecting its commit again stores no other. *)
Example corrected_memory_stays_hidden :
  let again := (pj_handle NoFault 1003 (outbox_envelope commit_row) (js_db corrected)) in
  again.1 = Ok tt ∧ size (jd_memories again.2) = 1%nat ∧
  (list_visible NoFault 1004 pj_tenant "anna" IM_DIRECT_MEMORY_POLICY 20 again.2).1 = Ok [].
Proof. split_and!; vm_compute; reflexivity. Qed.

(** An announcement ahead of the events stays pending, seven times, and is then given up. *)
Example early_announcement_dies :
  let s := session_site IM_DIRECT_MEMORY_POLICY [announcement 1 0 3] in
  (pj_handle NoFault 1000 (outbox_envelope (announcement 1 0 3)) s).1 = Raise (JError "SESSION_PROJECTION_SOURCE_INCOMPLETE") ∧
  pd_status <$> jd_deliveries (drain pj_int pj_text "invalid" "lost" pj_ids MAX_PROJECTION_ATTEMPTS eight_runs s) !! (1 : uuid)
    = Some DL_DEAD_LETTER.
Proof. split; vm_compute; reflexivity. Qed.

(** In a group conversation the summary is written and no memory. *)
Example group_leaves_no_memory :
  let s := pj_handle NoFault 1000 (outbox_envelope commit_row) (session_site IM_GROUP_MEMORY_POLICY [commit_row]) in
  s.1 = Ok tt ∧ size (jd_summaries s.2) = 1%nat ∧ jd_memories s.2 = ∅.
Proof. split_and!; vm_compute; reflexivity. Qed.

(** The summary may start inside an event: the oldest selected text keeps its end only. *)
Example oldest_text_is_cut :
  select_fragments 8 false [(2, characters "user: b"); (1, characters "user: a")] = [(2, characters "user: b")] ∧
  select_fragments 10 false [(2, characters "user: b"); (1, characters "user: a")]
    = [(2, characters "user: b"); (1, characters " a")].
Proof. split; vm_compute; reflexivity. Qed.
