(* ===== verification/Knowledge.v ===== *)
(** * Knowledge bases (knowledge.py, admin_api/knowledge.py)

    Administrators create knowledge bases, immutable revisions of their documents and
    deployments of revisions; the builder cuts the documents of a revision into chunks; the
    retriever searches the chunks that a subject may read, and the resolver picks the
    revision an execution uses.  A transaction is one step: a build holds the lock of its
    row, revisions and deployments of a base are created under the lock of the base.  A text
    is the list of its characters where the code counts or cuts it, and holds no NUL
    character.  The text search of the database is a parameter. *)

From stdpp Require Import sorting.
From S2P Require Import Prelude PyNum Uuids ExecutionBus ToolRegistry AuditChain AdminAccess Interleave Governance PolicyBundles Pagination LlmGateway GatewayAdapters AgentDrafts Evaluations Projections.
From S2P Require AgentWorker.
Open Scope string_scope.
Open Scope list_scope.
Open Scope Z_scope.

(** ** Texts *)

(** The characters that [str.strip] removes. *)
Definition is_space_char (c : string) : bool := blank_text (chars c).
Fixpoint strip_start (t : pytext) : pytext :=
  match t with c :: t' => if is_space_char c then strip_start t' else t | [] => [] end.
Definition strip (t : pytext) : pytext := reverse (strip_start (reverse (strip_start t))).
(** [text[first:last]] within the text. *)
Definition slice (first last : nat) (t : pytext) : pytext := take (last - first) (drop first t).
(** [text.rfind(" ", first, last)]; [None] for [-1]. *)
Fixpoint rfind_space (t : pytext) (first last : nat) : option nat :=
  match last with
  | O => None
  | S i => if (i <? first)%nat then None
           else if bool_decide (t !! i = Some " ") then Some i else rfind_space t first i
  end.

(** ** [split_content] *)
Inductive KnowledgeError := KnowledgeRevisionError (code : string) | KnowledgeSql | KnowledgeLoop.

(** The end of the piece that starts at [start]. *)
Definition piece_end (content : pytext) (max_chars start : nat) : nat :=
  let last := ((start + max_chars) `min` length content)%nat in
  if (last <? length content)%nat then
    match rfind_space content start last with
    | Some boundary => if (start <? boundary)%nat then boundary else last
    | None => last
    end
  else last.
(** The loop, for at most [fuel] pieces. *)
Fixpoint split_from (fuel : nat) (content : pytext) (max_chars overlap_chars start : nat) : option (list pytext) :=
  match fuel with
  | O => None
  | S fuel' =>
      if (start <? length content)%nat then
        let last := piece_end content max_chars start in
        let value := strip (slice start last content) in
        let found := if bool_decide (value = []) then [] else [value] in
        if (last =? length content)%nat then Some found
        else app found <$> split_from fuel' content max_chars overlap_chars ((last - overlap_chars) `max` (start + 1))
      else Some []
  end.
Definition split_content (content : pytext) (max_chars overlap_chars : Z) : outcome KnowledgeError (list pytext) :=
  if (max_chars <? 1) || (overlap_chars <? 0) || (max_chars <=? overlap_chars)
  then Raise (KnowledgeRevisionError "INVALID_CHUNKING")
  else match split_from (S (length content)) content (Z.to_nat max_chars) (Z.to_nat overlap_chars) 0 with
       | Some chunks => Ok chunks
       | None => Raise KnowledgeLoop
       end.

(** ** Tables *)
Inductive BuildStatus := KB_BUILDING | KB_READY | KB_FAILED.
#[export] Instance BuildStatus_eq_dec : EqDecision BuildStatus.
Proof. solve_decision. Defined.
Inductive DeploymentSource := KD_DEPLOY | KD_ROLLBACK.

Record BaseRow := { kb_slug : string; kb_name : string; kb_version : Z; kb_created_at : instant }.
Record Chunking := { kc_max_chars : Z; kc_overlap_chars : Z }.
Record RevisionRow := {
  kr_base_id : uuid;
  kr_version : Z;
  kr_source_snapshot : json;
  kr_chunking : Chunking;
  kr_embedding_model : string;
  kr_index_config : jobject;
  kr_content_hash : string;
  kr_created_at : instant;
}.
Record BuildRow := { kl_status : BuildStatus; kl_validated_at : option instant; kl_error_code : option string }.
Record DocumentRow := {
  kd_source_ref : string;
  kd_content : string;
  kd_content_hash : string;
  kd_classification : DataClassification;
}.
Record KnowledgeDeployment := {
  kn_base_id : uuid;
  kn_environment : string;
  kn_revision_id : uuid;
  kn_previous_revision_id : option uuid;
  kn_rollout_percentage : Z;
  kn_source_kind : DeploymentSource;
  kn_created_by : string;
  kn_created_at : instant;
}.
(** A document is keyed by tenant, revision and identifier. *)
Abbreviation document_key := (uuid * uuid * uuid)%type.

Record KnowledgeDb := {
  kdb_admin : AdminDb;
  kdb_bases : gmap (uuid * uuid) BaseRow;
  kdb_revisions : gmap (uuid * uuid) RevisionRow;
  kdb_builds : gmap (uuid * uuid) BuildRow;
  kdb_documents : gmap document_key DocumentRow;
  kdb_acl : gset (document_key * string);
  kdb_chunks : gmap (document_key * nat) pytext;
  kdb_deployments : gmap (uuid * uuid) KnowledgeDeployment;
  kdb_outbox : list OutboxRecord;
  kdb_next_id : nat;
}.
Abbreviation KN := (ST KnowledgeDb AdminError).
Abbreviation KB := (ST KnowledgeDb KnowledgeError).

Definition set_kdb_admin (a : AdminDb) (s : KnowledgeDb) : KnowledgeDb :=
  {| kdb_admin := a; kdb_bases := kdb_bases s; kdb_revisions := kdb_revisions s; kdb_builds := kdb_builds s;
     kdb_documents := kdb_documents s; kdb_acl := kdb_acl s; kdb_chunks := kdb_chunks s;
     kdb_deployments := kdb_deployments s; kdb_outbox := kdb_outbox s; kdb_next_id := kdb_next_id s |}.
Definition set_bases (m : gmap (uuid * uuid) BaseRow) (s : KnowledgeDb) : KnowledgeDb :=
  {| kdb_admin := kdb_admin s; kdb_bases := m; kdb_revisions := kdb_revisions s; kdb_builds := kdb_builds s;
     kdb_documents := kdb_documents s; kdb_acl := kdb_acl s; kdb_chunks := kdb_chunks s;
     kdb_deployments := kdb_deployments s; kdb_outbox := kdb_outbox s; kdb_next_id := kdb_next_id s |}.
Definition set_revisions (m : gmap (uuid * uuid) RevisionRow) (s : KnowledgeDb) : KnowledgeDb :=
  {| kdb_admin := kdb_admin s; kdb_bases := kdb_bases s; kdb_revisions := m; kdb_builds := kdb_builds s;
     kdb_documents := kdb_documents s; kdb_acl := kdb_acl s; kdb_chunks := kdb_chunks s;
     kdb_deployments := kdb_deployments s; kdb_outbox := kdb_outbox s; kdb_next_id := kdb_next_id s |}.
Definition set_builds (m : gmap (uuid * uuid) BuildRow) (s : KnowledgeDb) : KnowledgeDb :=
  {| kdb_admin := kdb_admin s; kdb_bases := kdb_bases s; kdb_revisions := kdb_revisions s; kdb_builds := m;
     kdb_documents := kdb_documents s; kdb_acl := kdb_acl s; kdb_chunks := kdb_chunks s;
     kdb_deployments := kdb_deployments s; kdb_outbox := kdb_outbox s; kdb_next_id := kdb_next_id s |}.
Definition set_documents (m : gmap document_key DocumentRow) (s : KnowledgeDb) : KnowledgeDb :=
  {| kdb_admin := kdb_admin s; kdb_bases := kdb_bases s; kdb_revisions := kdb_revisions s; kdb_builds := kdb_builds s;
     kdb_documents := m; kdb_acl := kdb_acl s; kdb_chunks := kdb_chunks s;
     kdb_deployments := kdb_deployments s; kdb_outbox := kdb_outbox s; kdb_next_id := kdb_next_id s |}.
Definition set_acl (a : gset (document_key * string)) (s : KnowledgeDb) : KnowledgeDb :=
  {| kdb_admin := kdb_admin s; kdb_bases := kdb_bases s; kdb_revisions := kdb_revisions s; kdb_builds := kdb_builds s;
     kdb_documents := kdb_documents s; kdb_acl := a; kdb_chunks := kdb_chunks s;
     kdb_deployments := kdb_deployments s; kdb_outbox := kdb_outbox s; kdb_next_id := kdb_next_id s |}.
Definition set_chunks (m : gmap (document_key * nat) pytext) (s : KnowledgeDb) : KnowledgeDb :=
  {| kdb_admin := kdb_admin s; kdb_bases := kdb_bases s; kdb_revisions := kdb_revisions s; kdb_builds := kdb_builds s;
     kdb_documents := kdb_documents s; kdb_acl := kdb_acl s; kdb_chunks := m;
     kdb_deployments := kdb_deployments s; kdb_outbox := kdb_outbox s; kdb_next_id := kdb_next_id s |}.
Definition set_kdb_deployments (m : gmap (uuid * uuid) KnowledgeDeployment) (s : KnowledgeDb) : KnowledgeDb :=
  {| kdb_admin := kdb_admin s; kdb_bases := kdb_bases s; kdb_revisions := kdb_revisions s; kdb_builds := kdb_builds s;
     kdb_documents := kdb_documents s; kdb_acl := kdb_acl s; kdb_chunks := kdb_chunks s;
     kdb_deployments := m; kdb_outbox := kdb_outbox s; kdb_next_id := kdb_next_id s |}.
Definition set_kdb_outbox (o : list OutboxRecord) (s : KnowledgeDb) : KnowledgeDb :=
  {| kdb_admin := kdb_admin s; kdb_bases := kdb_bases s; kdb_revisions := kdb_revisions s; kdb_builds := kdb_builds s;
     kdb_documents := kdb_documents s; kdb_acl := kdb_acl s; kdb_chunks := kdb_chunks s;
     kdb_deployments := kdb_deployments s; kdb_outbox := o; kdb_next_id := kdb_next_id s |}.
Definition set_kdb_ids (n : nat) (s : KnowledgeDb) : KnowledgeDb :=
  {| kdb_admin := kdb_admin s; kdb_bases := kdb_bases s; kdb_revisions := kdb_revisions s; kdb_builds := kdb_builds s;
     kdb_documents := kdb_documents s; kdb_acl := kdb_acl s; kdb_chunks := kdb_chunks s;
     kdb_deployments := kdb_deployments s; kdb_outbox := kdb_outbox s; kdb_next_id := n |}.

#[export] Instance knowledge_outbox : HasOutbox KnowledgeDb.
Proof. refine {| outbox := kdb_outbox; add_outbox r s := set_kdb_outbox (kdb_outbox s ++ [r]) s |}. done. Defined.
#[export] Instance knowledge_ids : HasIds KnowledgeDb := {| next_id := kdb_next_id; set_next_id := set_kdb_ids |}.
#[export] Instance admin_sql_error : SqlError AdminError := IntegrityError.

(** ** Requests *)
Record KnowledgeBaseCreate := { bc_slug : string; bc_name : string }.
Definition base_create_ok (c : KnowledgeBaseCreate) : bool := is_slug (bc_slug c) && text_between 1 200 (bc_name c).
Record KnowledgeSource := {
  ks_source_ref : string;
  ks_content : string;
  ks_acl_subjects : list string;
  ks_classification : DataClassification;
}.
Definition source_ok (c : KnowledgeSource) : bool :=
  text_between 1 512 (ks_source_ref c) && text_between 1 (Z.to_nat 1000000) (ks_content c)
  && (1 <=? length (ks_acl_subjects c))%nat && (length (ks_acl_subjects c) <=? 100)%nat.
Record KnowledgeRevisionCreate := {
  vc_sources : list KnowledgeSource;
  vc_chunking : Chunking;
  vc_embedding_model : string;
  vc_index_config : jobject;
}.
Definition revision_create_ok (c : KnowledgeRevisionCreate) : bool :=
  forallb source_ok (vc_sources c) && (1 <=? length (vc_sources c))%nat && (length (vc_sources c) <=? 1000)%nat
  && (1 <=? kc_max_chars (vc_chunking c)) && (kc_max_chars (vc_chunking c) <=? 100000)
  && (0 <=? kc_overlap_chars (vc_chunking c)) && (kc_overlap_chars (vc_chunking c) <=? 99999)
  && text_between 1 128 (vc_embedding_model c) && (1 <=? size (vc_index_config c))%nat.

(** ** Answers *)
Definition base_json (t id : uuid) (b : BaseRow) : json :=
  JObj (obj [("tenant_id", identifier t); ("id", identifier id); ("slug", JStr (kb_slug b)); ("name", JStr (kb_name b));
    ("version", JNum (kb_version b)); ("created_at", moment (kb_created_at b))]).
Definition chunking_json (c : Chunking) : json :=
  JObj (obj [("max_chars", JNum (kc_max_chars c)); ("overlap_chars", JNum (kc_overlap_chars c))]).
(** [_revision_response] of a new revision. *)
Definition revision_json (t id : uuid) (r : RevisionRow) : json :=
  JObj (obj [("tenant_id", identifier t); ("id", identifier id); ("base_id", identifier (kr_base_id r));
    ("version", JNum (kr_version r)); ("source_snapshot", kr_source_snapshot r); ("chunking", chunking_json (kr_chunking r));
    ("embedding_model", JStr (kr_embedding_model r)); ("index_config", JObj (kr_index_config r));
    ("content_hash", JStr (kr_content_hash r)); ("created_at", moment (kr_created_at r)); ("status", JStr "BUILDING");
    ("validated_at", JNull); ("error_code", JNull)]).
Definition source_text (k : DeploymentSource) : string := match k with KD_DEPLOY => "DEPLOY" | KD_ROLLBACK => "ROLLBACK" end.
Definition knowledge_deployment_json (t id : uuid) (d : KnowledgeDeployment) : json :=
  JObj (obj [("id", identifier id); ("tenant_id", identifier t); ("base_id", identifier (kn_base_id d));
    ("environment", JStr (kn_environment d)); ("revision_id", identifier (kn_revision_id d));
    ("previous_revision_id", nullable identifier (kn_previous_revision_id d));
    ("rollout_percentage", JNum (kn_rollout_percentage d)); ("source_kind", JStr (source_text (kn_source_kind d)));
    ("created_by", JStr (kn_created_by d)); ("created_at", moment (kn_created_at d))]).

Section Knowledge.
(** [canonical] is [json.dumps] with sorted keys and no spaces. *)
Context (sha256_hex : string → string) (dumps canonical : json → string) (uuid_at : nat → uuid).

Definition document_hash (content : string) : string := sha256_hex content.

(** ** The frame of the endpoints *)
Definition kn_on_admin {A} (m : ADM A) : KN A := λ s,
  let '(r, d) := m (kdb_admin s) in (r, set_kdb_admin d s).
Definition kn_access (fault : txn_fault) (now : instant) (p : AdminPrincipal) (t : uuid) (mode : AccessMode)
    (action : string) (target_id : option string) : KN unit :=
  kn_on_admin (require_tenant_access sha256_hex dumps uuid_at fault now p t mode action "knowledge_base" target_id).
Definition kn_command (fault : txn_fault) (now : instant) (p : AdminPrincipal) (t : uuid) (key operation : string)
    (payload : jobject) (body : KN CommandResult) : KN json :=
  transaction fault ConnectionLost (
    replayed ← kn_on_admin (replay_for sha256_hex dumps (ap_subject p) key operation payload);
    match replayed with
    | Some response => mret response
    | None =>
        r ← body;
        _ ← kn_on_admin (audited sha256_hex dumps uuid_at now (Some p) operation "ALLOW"
              (Some (cr_target_type r)) (Some (cr_target_id r)) (Some t) (cr_details r));
        _ ← kn_on_admin (remember sha256_hex dumps (ap_subject p) key operation payload (cr_result r));
        mret (cr_result r)
    end).

(** ** [create_base] and [list_bases] *)
Definition base_slug_free (t : uuid) (slug : string) (s : KnowledgeDb) : bool :=
  bool_decide (map_Forall (λ k b, k.1 = t → kb_slug b ≠ slug) (kdb_bases s)).
Definition create_base (f1 f2 : txn_fault) (now : instant) (p : AdminPrincipal) (t : uuid)
    (payload : KnowledgeBaseCreate) (key : string) : KN json :=
  _ ← ensure (base_create_ok payload) (Http 422 "");
  _ ← kn_access f1 now p t WriteAccess "knowledge_base.create" None;
  kn_command f2 now p t key "knowledge_base.create"
    (obj [("tenant_id", identifier t); ("slug", JStr (bc_slug payload)); ("name", JStr (bc_name payload))]) (
    id ← draw_id uuid_at;
    let row := {| kb_slug := bc_slug payload; kb_name := bc_name payload; kb_version := 1; kb_created_at := now |} in
    ok ← gets (λ s, bool_decide (t ∈ ad_tenants (kdb_admin s)) && bool_decide (kdb_bases s !! (t, id) = None)
                    && base_slug_free t (bc_slug payload) s);
    _ ← ensure ok IntegrityError;
    _ ← modify (λ s, set_bases (<[(t, id) := row]> (kdb_bases s)) s);
    mret {| cr_result := base_json t id row; cr_target_type := "knowledge_base"; cr_target_id := uuid_text id;
            cr_details := ∅ |}).

(** Rows by descending identifier, after the cursor. *)
Definition bases_after (cursor : option uuid) (rows : list (uuid * BaseRow)) : list (uuid * BaseRow) :=
  let rows := reverse (sort_on fst rows) in
  match cursor with Some c => filter (λ r : uuid * BaseRow, r.1 < c) rows | None => rows end.
Definition list_bases (f1 f2 : txn_fault) (now : instant) (p : AdminPrincipal) (t : uuid) (limit : Z)
    (cursor : option string) : KN json :=
  _ ← ensure ((1 <=? limit) && (limit <=? 200)) (Http 422 "");
  _ ← kn_access f1 now p t ReadAccess "knowledge_base.read" None;
  after_id ← match cursor with
             | None => mret None
             | Some c => match decode_cursor c with
                         | Some u => mret (Some u)
                         | None => raise (Http 400 "INVALID_CURSOR")
                         end
             end;
  transaction f2 ConnectionLost (
    rows ← gets (λ s, take (S (Z.to_nat limit)) (bases_after after_id (tenant_rows t (kdb_bases s))));
    let page := take (Z.to_nat limit) rows in
    mret (JObj (obj [("tenant_id", identifier t);
      ("items", JArr ((λ r : uuid * BaseRow, base_json t r.1 r.2) <$> page));
      ("next_cursor", nullable (λ r : uuid * BaseRow, JStr (encode_cursor r.1))
                        (if (Z.to_nat limit <? length rows)%nat then last page else None))]))).

(** ** [create_revision] *)
Definition source_snapshot (c : KnowledgeSource) : json :=
  JObj (obj [("source_ref", JStr (ks_source_ref c)); ("content_hash", JStr (document_hash (ks_content c)));
    ("acl_subjects", texts (merge_sort String.le (ks_acl_subjects c)));
    ("data_classification", JStr (classification_value (ks_classification c)))]).
Definition next_revision_version (t base_id : uuid) (s : KnowledgeDb) : Z :=
  foldr Z.max 0 (omap (λ kr : (uuid * uuid) * RevisionRow,
    if bool_decide (kr.1.1 = t ∧ kr_base_id kr.2 = base_id) then Some (kr_version kr.2) else None)
    (map_to_list (kdb_revisions s))) + 1.

(** The trigger on documents, access lists and chunks. *)
Definition building (t revision_id : uuid) (s : KnowledgeDb) : bool :=
  bool_decide (kl_status <$> kdb_builds s !! (t, revision_id) = Some KB_BUILDING).
Definition source_ref_free (t revision_id : uuid) (source_ref : string) (s : KnowledgeDb) : bool :=
  bool_decide (map_Forall (λ (k : document_key) d, k.1 = (t, revision_id) → kd_source_ref d ≠ source_ref) (kdb_documents s)).
Definition grant (k : document_key) (subject : string) : KN unit :=
  ok ← gets (λ s, building k.1.1 k.1.2 s && text_between 1 256 subject && bool_decide ((k, subject) ∉ kdb_acl s));
  _ ← ensure ok IntegrityError;
  modify (λ s, set_acl ({[(k, subject)]} ∪ kdb_acl s) s).
Definition insert_document (t revision_id : uuid) (c : KnowledgeSource) : KN unit :=
  id ← draw_id uuid_at;
  let k := (t, revision_id, id) in
  let row := {| kd_source_ref := ks_source_ref c; kd_content := ks_content c;
                kd_content_hash := document_hash (ks_content c); kd_classification := ks_classification c |} in
  ok ← gets (λ s, building t revision_id s && source_ref_free t revision_id (ks_source_ref c) s
                  && bool_decide (kdb_documents s !! k = None));
  _ ← ensure ok IntegrityError;
  _ ← modify (λ s, set_documents (<[k := row]> (kdb_documents s)) s);
  for_each (grant k) (ks_acl_subjects c).

Definition insert_revision (now : instant) (t base_id revision_id : uuid) (c : KnowledgeRevisionCreate)
    (content_hash : string) : KN RevisionRow :=
  known ← gets (λ s, bool_decide (is_Some (kdb_bases s !! (t, base_id))));
  _ ← ensure known (Http 404 "Knowledge Base not found");
  version ← gets (next_revision_version t base_id);
  _ ← ensure (int4 version && jsonb_ok (JObj (vc_index_config c))) DataError;
  let row := {| kr_base_id := base_id; kr_version := version; kr_source_snapshot := JArr (source_snapshot <$> vc_sources c);
                kr_chunking := vc_chunking c; kr_embedding_model := vc_embedding_model c;
                kr_index_config := vc_index_config c; kr_content_hash := content_hash; kr_created_at := now |} in
  free ← gets (λ s, bool_decide (kdb_revisions s !! (t, revision_id) = None)
                    && bool_decide (kdb_builds s !! (t, revision_id) = None));
  _ ← ensure free IntegrityError;
  _ ← modify (λ s, set_revisions (<[(t, revision_id) := row]> (kdb_revisions s)) s);
  _ ← modify (λ s, set_builds (<[(t, revision_id) :=
        {| kl_status := KB_BUILDING; kl_validated_at := None; kl_error_code := None |}]> (kdb_builds s)) s);
  _ ← for_each (insert_document t revision_id) (vc_sources c);
  mret row.

Definition create_revision (f1 f2 : txn_fault) (now : instant) (p : AdminPrincipal) (t base_id : uuid)
    (payload : KnowledgeRevisionCreate) (key : string) : KN json :=
  _ ← ensure (revision_create_ok payload) (Http 422 "");
  _ ← kn_access f1 now p t WriteAccess "knowledge_revision.create" (Some (uuid_text base_id));
  _ ← ensure (kc_overlap_chars (vc_chunking payload) <? kc_max_chars (vc_chunking payload))
        (Http 422 "chunk overlap must be smaller than chunk size");
  let request := obj [("tenant_id", identifier t); ("base_id", identifier base_id);
    ("sources", JArr (source_snapshot <$> vc_sources payload)); ("chunking", chunking_json (vc_chunking payload));
    ("embedding_model", JStr (vc_embedding_model payload)); ("index_config", JObj (vc_index_config payload))] in
  let content_hash := sha256_hex (canonical (JObj request)) in
  revision_id ← draw_id uuid_at;
  kn_command f2 now p t key "knowledge_revision.create" request (
    row ← insert_revision now t base_id revision_id payload content_hash;
    message_id ← draw_id uuid_at;
    _ ← insert_outbox_record uuid_at now t (uuid_text message_id) "admin-api" "knowledge.revision.build.requested"
          (uuid_text t +:+ ":" +:+ uuid_text base_id)
          (obj [("tenant_id", identifier t); ("revision_id", identifier revision_id)]) None None None;
    mret {| cr_result := revision_json t revision_id row; cr_target_type := "knowledge_revision";
            cr_target_id := uuid_text revision_id;
            cr_details := obj [("base_id", identifier base_id); ("content_hash", JStr content_hash)] |}).

(** ** [deploy_revision] and [rollback_deployment] *)
Definition base_deployments (t base_id : uuid) (environment : string) (s : KnowledgeDb) : list (uuid * KnowledgeDeployment) :=
  filter (λ d : uuid * KnowledgeDeployment, kn_base_id d.2 = base_id ∧ kn_environment d.2 = environment)
    (tenant_rows t (kdb_deployments s)).
Definition latest_deployment (t base_id : uuid) (environment : string) (s : KnowledgeDb) : option (uuid * KnowledgeDeployment) :=
  latest (λ d : uuid * KnowledgeDeployment, [kn_created_at d.2; d.1]) (base_deployments t base_id environment s).
(** A revision of the base whose build is ready. *)
Definition ready (t base_id revision_id : uuid) (s : KnowledgeDb) : bool :=
  bool_decide (kr_base_id <$> kdb_revisions s !! (t, revision_id) = Some base_id)
  && bool_decide (kl_status <$> kdb_builds s !! (t, revision_id) = Some KB_READY).

Definition create_knowledge_deployment (f1 f2 : txn_fault) (now : instant) (p : AdminPrincipal) (t base_id : uuid)
    (environment : string) (revision_id : uuid) (rollout_percentage : Z) (source_kind : DeploymentSource) (key : string)
    : KN json :=
  _ ← kn_access f1 now p t WriteAccess
        (match source_kind with KD_DEPLOY => "knowledge_deployment.deploy" | KD_ROLLBACK => "knowledge_deployment.rollback" end)
        (Some (uuid_text base_id));
  kn_command f2 now p t key "knowledge_deployment.create"
    (obj [("tenant_id", identifier t); ("base_id", identifier base_id); ("environment", JStr environment);
          ("revision_id", identifier revision_id); ("rollout_percentage", JNum rollout_percentage);
          ("source_kind", JStr (source_text source_kind))]) (
    is_ready ← gets (ready t base_id revision_id);
    _ ← ensure is_ready (Http 409 "Knowledge Revision is not ready");
    previous ← gets (latest_deployment t base_id environment);
    id ← draw_id uuid_at;
    let row := {| kn_base_id := base_id; kn_environment := environment; kn_revision_id := revision_id;
                  kn_previous_revision_id := kn_revision_id ∘ snd <$> previous;
                  kn_rollout_percentage := rollout_percentage; kn_source_kind := source_kind;
                  kn_created_by := ap_subject p; kn_created_at := now |} in
    ok ← gets (λ s, text_between 1 256 (ap_subject p) && bool_decide (kdb_deployments s !! (t, id) = None));
    _ ← ensure ok IntegrityError;
    _ ← modify (λ s, set_kdb_deployments (<[(t, id) := row]> (kdb_deployments s)) s);
    mret {| cr_result := knowledge_deployment_json t id row; cr_target_type := "knowledge_deployment";
            cr_target_id := uuid_text id;
            cr_details := obj [("base_id", identifier base_id); ("revision_id", identifier revision_id);
                               ("source_kind", JStr (source_text source_kind))] |}).

Definition deploy_revision (f1 f2 : txn_fault) (now : instant) (p : AdminPrincipal) (t base_id : uuid)
    (environment : DeploymentEnvironment) (revision_id : uuid) (rollout_percentage : Z) (key : string) : KN json :=
  _ ← ensure ((1 <=? rollout_percentage) && (rollout_percentage <=? 100)) (Http 422 "");
  create_knowledge_deployment f1 f2 now p t base_id (environment_text environment) revision_id rollout_percentage KD_DEPLOY key.
Definition rollback_revision (f1 f2 : txn_fault) (now : instant) (p : AdminPrincipal) (t base_id : uuid)
    (environment : DeploymentEnvironment) (revision_id : uuid) (key : string) : KN json :=
  create_knowledge_deployment f1 f2 now p t base_id (environment_text environment) revision_id 100 KD_ROLLBACK key.

(** ** [KnowledgeRevisionBuilder.build] *)

(** The rows of the chunks of a document; rows that exist already stay. *)
Definition chunk_rows (k : document_key) (chunks : list pytext) : gmap (document_key * nat) pytext :=
  list_to_map (imap (λ i c, ((k, i), c)) chunks).
Definition chunk_check (chunks : list pytext) : bool :=
  forallb (λ c : pytext, (1 <=? length c)%nat && (Z.of_nat (length c) <=? 1000000)) chunks
  && (Z.of_nat (length chunks) <=? 2 ^ 31).
Definition insert_chunks (k : document_key) (chunks : list pytext) : KB unit :=
  ok ← gets (building k.1.1 k.1.2);
  _ ← ensure (ok && chunk_check chunks) KnowledgeSql;
  modify (λ s, set_chunks (kdb_chunks s ∪ chunk_rows k chunks) s).
Definition build_document (c : Chunking) (document : document_key * DocumentRow) : KB unit :=
  let content := kd_content document.2 in
  _ ← ensure (bool_decide (document_hash content = kd_content_hash document.2)) (KnowledgeRevisionError "SOURCE_HASH_MISMATCH");
  chunks ← match split_content (characters content) (kc_max_chars c) (kc_overlap_chars c) with
           | Ok chunks => mret chunks
           | Raise e => raise e
           end;
  _ ← ensure (negb (bool_decide (chunks = []))) (KnowledgeRevisionError "EMPTY_DOCUMENT");
  insert_chunks document.1 chunks.

Definition revision_documents (t revision_id : uuid) (s : KnowledgeDb) : list (document_key * DocumentRow) :=
  sort_on (λ d : document_key * DocumentRow, d.1.2)
    (filter (λ d : document_key * DocumentRow, d.1.1 = (t, revision_id)) (map_to_list (kdb_documents s))).
Definition set_build (t revision_id : uuid) (b : BuildRow) (s : KnowledgeDb) : KnowledgeDb :=
  set_builds (<[(t, revision_id) := b]> (kdb_builds s)) s.
(** The [try] statement: the failure is kept for after the transaction. *)
Definition build_documents (now : instant) (t revision_id : uuid) (c : Chunking) : KB (option KnowledgeError) :=
  documents ← gets (revision_documents t revision_id);
  try_catch (_ ← for_each (build_document c) documents;
             _ ← modify (set_build t revision_id
                   {| kl_status := KB_READY; kl_validated_at := Some now; kl_error_code := None |});
             mret None)
    (λ e, match e with
          | KnowledgeRevisionError code =>
              _ ← modify (set_build t revision_id
                    {| kl_status := KB_FAILED; kl_validated_at := None; kl_error_code := Some code |});
              mret (Some e)
          | _ => raise e
          end).
Definition build (fault : txn_fault) (now : instant) (tenant_id revision_id : string) : KB unit :=
  t ← get_or_raise (parse_uuid tenant_id) (KnowledgeRevisionError "REVISION_NOT_FOUND");
  r ← get_or_raise (parse_uuid revision_id) (KnowledgeRevisionError "REVISION_NOT_FOUND");
  failure ← transaction fault KnowledgeSql (
    found ← gets (λ s, b ← kdb_builds s !! (t, r); v ← kdb_revisions s !! (t, r); Some (kl_status b, kr_chunking v));
    row ← get_or_raise found (KnowledgeRevisionError "REVISION_NOT_FOUND");
    match row.1 with
    | KB_READY => mret None
    | KB_FAILED => raise (KnowledgeRevisionError "REVISION_BUILD_FAILED")
    | KB_BUILDING => build_documents now t r row.2
    end);
  match failure with Some e => raise e | None => mret tt end.

(** ** [DatabaseKnowledgeRetriever.retrieve] *)
Record RetrievalResult := {
  rs_document_id : uuid;
  rs_source_ref : string;
  rs_content : pytext;
  rs_classification : DataClassification;
}.

(** [websearch_to_tsquery] against a chunk, and its rank. *)
Context (search_matches : string → pytext → bool) (search_rank : string → pytext → Z).

Definition retrievable (t base_id revision_id : uuid) (subject query : string) (s : KnowledgeDb)
    (c : document_key * nat * pytext) : Prop :=
  c.1.1.1 = (t, revision_id) ∧ ready t base_id revision_id s = true ∧ is_Some (kdb_documents s !! c.1.1) ∧
  (c.1.1, subject) ∈ kdb_acl s ∧ search_matches query c.2 = true.
#[global] Instance retrievable_dec t base_id revision_id subject query s c :
  Decision (retrievable t base_id revision_id subject query s c).
Proof. unfold retrievable. apply _. Defined.
Definition ranked_before (query : string) (a b : document_key * nat * pytext) : Prop :=
  search_rank query b.2 < search_rank query a.2 ∨
  (search_rank query b.2 = search_rank query a.2 ∧
   (a.1.1.2 < b.1.1.2 ∨ (a.1.1.2 = b.1.1.2 ∧ (a.1.2 ≤ b.1.2)%nat))).
#[global] Instance ranked_before_dec query : RelDecision (ranked_before query).
Proof. intros a b. unfold ranked_before. solve_decision. Defined.
Definition matching_chunks (t base_id revision_id : uuid) (subject query : string) (s : KnowledgeDb)
    : list (document_key * nat * pytext) :=
  merge_sort (ranked_before query)
    (filter (retrievable t base_id revision_id subject query s) (map_to_list (kdb_chunks s))).
Definition result_of (s : KnowledgeDb) (c : document_key * nat * pytext) : option RetrievalResult :=
  (λ d, {| rs_document_id := c.1.1.2; rs_source_ref := kd_source_ref d; rs_content := c.2;
           rs_classification := kd_classification d |}) <$> kdb_documents s !! c.1.1.
Definition retrieve (fault : txn_fault) (tenant_id base_id revision_id subject query : string) (limit : Z)
    : KB (list RetrievalResult) :=
  if bool_decide (strip (characters query) = []) || negb ((1 <=? limit) && (limit <=? 100)) then mret [] else
  match parse_uuid tenant_id, parse_uuid base_id, parse_uuid revision_id with
  | Some t, Some b, Some r =>
      transaction fault KnowledgeSql
        (gets (λ s, omap (result_of s) (take (Z.to_nat limit) (matching_chunks t b r subject query s))))
  | _, _, _ => mret []
  end.

(** ** [DatabaseKnowledgeDeploymentResolver.resolve] *)
Context (sha256 : bytes → bytes).

Definition chosen_revision (d : KnowledgeDeployment) (session_id : string) : uuid :=
  match kn_previous_revision_id d with
  | Some previous =>
      if (kn_rollout_percentage d <? 100)
         && (kn_rollout_percentage d <=? AgentWorker.session_rollout_bucket sha256 session_id)
      then previous else kn_revision_id d
  | None => kn_revision_id d
  end.
Definition resolve_revision (fault : txn_fault) (tenant_id base_id environment session_id : string) : KB (option string) :=
  match parse_uuid tenant_id, parse_uuid base_id with
  | Some t, Some b =>
      row ← transaction fault KnowledgeSql (gets (latest_deployment t b environment));
      mret ((λ d : uuid * KnowledgeDeployment, uuid_text (chosen_revision d.2 session_id)) <$> row)
  | _, _ => mret None
  end.
End Knowledge.
