(* ===== verification/KnowledgeTheorems.v ===== *)
(** * Theorems on knowledge bases

    Splitting loses nothing and ends; builds end; what is ready is complete and stays; what
    is deployed is ready; and retrieval keeps to the access lists, in every history of
    requests, builds and faults. *)

From stdpp Require Import sorting.
From S2P Require Import Prelude PyNum Uuids ExecutionBus ToolRegistry AuditChain AdminAccess Interleave Governance PolicyBundles Pagination LlmGateway GatewayAdapters AgentDrafts Evaluations Projections Knowledge.
From S2P Require AgentWorker.
Open Scope string_scope.
Open Scope list_scope.
Open Scope Z_scope.

(** ** Splitting *)
Section Split.
Implicit Types (t content c : pytext).
Abbreviation blank := (λ c : string, is_space_char c = true).

Lemma strip_start_spec t : ∃ pre, t = pre ++ strip_start t ∧ Forall blank pre.
Proof.
  induction t as [|x t (pre & Ht & Hpre)]; simpl; [by exists []|]. destruct (is_space_char x) eqn:Hx.
  - exists (x :: pre). simpl. split; [by f_equal|by constructor].
  - by exists [].
Qed.
Lemma strip_start_head t x t' : strip_start t = x :: t' → is_space_char x = false.
Proof.
  induction t as [|y t IH]; simpl; [done|]. destruct (is_space_char y) eqn:Hy; [done|]. congruence.
Qed.
Lemma strip_start_nil t : strip_start t = [] ↔ Forall blank t.
Proof.
  induction t as [|x t IH]; simpl; [by split|]. rewrite Forall_cons. destruct (is_space_char x) eqn:Hx; [tauto|]. naive_solver.
Qed.

(** What [strip] removes is space, and what it leaves starts and ends with none. *)
Lemma strip_spec t : ∃ pre post, t = pre ++ strip t ++ post ∧ Forall blank pre ∧ Forall blank post.
Proof.
  destruct (strip_start_spec t) as (pre & Ht & Hpre).
  destruct (strip_start_spec (reverse (strip_start t))) as (post & Hr & Hpost).
  exists pre, (reverse post). split; [|split; [done|by rewrite Forall_reverse]].
  rewrite Ht at 1. f_equal. rewrite <-(reverse_involutive (strip_start t)), Hr at 1. unfold strip. by rewrite reverse_app.
Qed.
Lemma strip_nil t : strip t = [] ↔ Forall blank t.
Proof.
  unfold strip. rewrite <-strip_start_nil. split; [|by intros ->].
  intros Hr%(f_equal reverse). rewrite reverse_involutive in Hr. apply strip_start_nil in Hr.
  rewrite Forall_reverse in Hr. destruct (strip_start t) as [|x t'] eqn:Ht; [done|].
  apply strip_start_head in Ht. apply Forall_cons in Hr as [Hx _]. congruence.
Qed.
Lemma strip_last t : ∀ x t', strip t = t' ++ [x] → is_space_char x = false.
Proof.
  intros x t' Hs. apply (f_equal reverse) in Hs. unfold strip in Hs. rewrite reverse_involutive, reverse_snoc in Hs.
  by eapply strip_start_head.
Qed.
Lemma strip_head t : ∀ x t', strip t = x :: t' → is_space_char x = false.
Proof.
  intros x t' Hs. destruct (strip_start t) as [|y u] eqn:Ht.
  { unfold strip in Hs. rewrite Ht in Hs. done. }
  pose proof (strip_start_head _ _ _ Ht) as Hy. destruct (strip_start_spec (reverse (strip_start t))) as (post & Hr & _).
  apply (f_equal reverse) in Hr. rewrite reverse_involutive, reverse_app in Hr.
  change (reverse (strip_start (reverse (strip_start t)))) with (strip t) in Hr. rewrite Hs, Ht in Hr. simplify_list_eq. done.
Qed.

Lemma rfind_space_Some t first last i : rfind_space t first last = Some i → (first ≤ i < last)%nat ∧ t !! i = Some " ".
Proof.
  induction last as [|n IH]; simpl; [done|]. destruct (Nat.ltb_spec n first); [done|]. case_bool_decide as Ht.
  - intros [= <-]. split; [lia|done].
  - intros Hi%IH. split; [lia|tauto].
Qed.

Section Loop.
Context (content : pytext) (max_chars overlap_chars : nat).
Context (Hmax : (1 ≤ max_chars)%nat).
Abbreviation len := (length content).

Lemma piece_end_spec start : (start < len)%nat →
  (start < piece_end content max_chars start ≤ len)%nat ∧ (piece_end content max_chars start ≤ start + max_chars)%nat.
Proof using Hmax.
  intros Hs. unfold piece_end. destruct (Nat.ltb_spec ((start + max_chars) `min` len) len); [|lia].
  destruct (rfind_space _ _ _) as [b|] eqn:Hb; [|lia]. apply rfind_space_Some in Hb as [? _].
  destruct (Nat.ltb_spec start b); lia.
Qed.

(** The pieces that the loop takes: each starts within the one before it, at most the
    overlap before its end, and the last ends with the text. *)
Fixpoint tiles (start : nat) (pieces : list (nat * nat)) : Prop :=
  match pieces with
  | [] => False
  | (first, last) :: rest =>
      first = start ∧ (first < last ≤ len)%nat ∧ (last ≤ first + max_chars)%nat ∧
      match rest with
      | [] => last = len
      | (next, _) :: _ => (first < next ≤ last)%nat ∧ (last ≤ next + overlap_chars)%nat ∧ tiles next rest
      end
  end.
Definition values (pieces : list (nat * nat)) : list pytext :=
  filter (λ v, v ≠ []) ((λ w : nat * nat, strip (slice w.1 w.2 content)) <$> pieces).

Lemma split_from_tiles fuel : ∀ start, (start < len)%nat → (len - start < fuel)%nat →
  ∃ pieces, tiles start pieces ∧ split_from fuel content max_chars overlap_chars start = Some (values pieces).
Proof using Hmax.
  induction fuel as [|fuel IH]; intros start Hs Hf; [lia|]. simpl.
  rewrite (proj2 (Nat.ltb_lt start len) Hs). pose proof (piece_end_spec start Hs) as [He Hm].
  set (last := piece_end content max_chars start) in *. set (v := strip (slice start last content)).
  assert (∀ rest, values ((start, last) :: rest) = (if bool_decide (v = []) then [] else [v]) ++ values rest) as Hv.
  { intros rest. unfold values. rewrite fmap_cons, filter_cons. simpl. fold v. case_bool_decide as Hd.
    - rewrite decide_False; [done|]. tauto.
    - by rewrite decide_True. }
  destruct (Nat.eqb_spec last len) as [Hl|Hl].
  - exists [(start, last)]. split; [simpl; split_and!; done || lia|]. rewrite Hv. by rewrite app_nil_r.
  - destruct (IH ((last - overlap_chars) `max` (start + 1))%nat) as (pieces & Ht & Hp); [lia|lia|].
    rewrite Hp. exists ((start, last) :: pieces). split; [|by rewrite Hv].
    destruct pieces as [|[next l2] rest]; [done|]. pose proof Ht as (Hn & _).
    split; [done|]. split; [lia|]. split; [lia|]. subst next. split; [lia|]. split; [lia|]. exact Ht.
Qed.

Lemma tiles_bounds pieces : ∀ start, tiles start pieces →
  Forall (λ w : nat * nat, start ≤ w.1 < w.2 ∧ w.2 ≤ len ∧ w.2 ≤ w.1 + max_chars)%nat pieces ∧
  (length pieces ≤ len - start)%nat ∧ ∀ i, (start ≤ i < len)%nat → ∃ w, w ∈ pieces ∧ (w.1 ≤ i < w.2)%nat.
Proof.
  induction pieces as [|[first last] rest IH]; intros start; [done|]. intros (-> & Hl & Hm & Hrest).
  destruct rest as [|[next l2] rest'].
  - split; [by constructor; [simpl; lia|]|]. split; [simpl; lia|]. intros i Hi. exists (start, last). split; [by left|simpl; lia].
  - destruct Hrest as (Hn & Ho & Ht). destruct (IH next Ht) as (Hall & Hlen & Hcov). split; [|split].
    + constructor; [simpl; lia|]. eapply Forall_impl; [exact Hall|]. simpl. lia.
    + cbn [length] in *. lia.
    + intros i Hi. destruct (decide (i < last)%nat); [exists (start, last); split; [by left|simpl; lia]|].
      destruct (Hcov i) as (w & Hw & ?); [lia|]. exists w. split; [by right|done].
Qed.
End Loop.

(** Where a chunk lies in the text. *)
Definition lies_at (content c : pytext) (offset : nat) : Prop :=
  ∃ pre post, content = pre ++ c ++ post ∧ length pre = offset.

Lemma slice_split first last t : (first ≤ last ≤ length t)%nat →
  t = take first t ++ slice first last t ++ drop last t.
Proof.
  intros Hl. unfold slice. rewrite <-(take_drop first t) at 1. f_equal.
  rewrite <-(take_drop (last - first) (drop first t)) at 1. f_equal. rewrite drop_drop. f_equal. lia.
Qed.
Lemma strip_lies_at content first last : (first ≤ last ≤ length content)%nat →
  ∃ offset, lies_at content (strip (slice first last content)) offset ∧
    ∀ i ch, content !! i = Some ch → is_space_char ch = false → (first ≤ i < last)%nat →
      (offset ≤ i < offset + length (strip (slice first last content)))%nat.
Proof.
  intros Hl. destruct (strip_spec (slice first last content)) as (pre & post & Hs & Hpre & Hpost).
  set (c := strip (slice first last content)) in *. exists (first + length pre)%nat.
  pose proof (slice_split first last content Hl) as Hc. rewrite Hs in Hc.
  assert (length (take first content ++ pre) = first + length pre)%nat as Hlen by (rewrite length_app, length_take; lia).
  assert (content = (take first content ++ pre) ++ c ++ (post ++ drop last content)) as Hcont by by rewrite Hc at 1; rewrite <-!app_assoc.
  split; [by exists (take first content ++ pre), (post ++ drop last content)|].
  intros i ch Hi Hch Hrange. assert (length pre + (length c + length post) = last - first)%nat as Htotal.
  { rewrite <-!length_app, <-Hs. unfold slice. rewrite length_take, length_drop. lia. }
  destruct (decide (i < first + length pre)%nat) as [Hlt|Hge].
  - exfalso. rewrite Hcont, lookup_app_l, lookup_app_r in Hi by (rewrite ?length_take; lia).
    apply (Forall_lookup_1 _ _ _ _ Hpre) in Hi. simpl in Hi. congruence.
  - split; [lia|]. destruct (decide (i < first + length pre + length c)%nat) as [|Hge']; [done|]. exfalso.
    rewrite Hcont, lookup_app_r, Hlen, lookup_app_r, lookup_app_l in Hi by lia.
    apply (Forall_lookup_1 _ _ _ _ Hpost) in Hi. simpl in Hi. congruence.
Qed.

(** What splitting a text with a valid configuration gives. *)
Record split_well (content : pytext) (max_chars : nat) (chunks : list pytext) : Prop := {
  sw_size : Forall (λ c : pytext, (1 ≤ length c ≤ max_chars)%nat) chunks;
  sw_trimmed : Forall (λ c : pytext, ∀ x c', (c = x :: c' ∨ c = c' ++ [x]) → is_space_char x = false) chunks;
  sw_parts : Forall (λ c : pytext, ∃ offset, lies_at content c offset) chunks;
  sw_covers : ∀ i ch, content !! i = Some ch → is_space_char ch = false →
    ∃ c offset, c ∈ chunks ∧ lies_at content c offset ∧ (offset ≤ i < offset + length c)%nat;
  sw_count : (length chunks ≤ length content)%nat;
}.

Lemma values_well content max_chars overlap_chars pieces : (1 ≤ max_chars)%nat →
  tiles content max_chars overlap_chars 0 pieces → split_well content max_chars (values content pieces).
Proof.
  intros Hmax Ht. destruct (tiles_bounds content max_chars overlap_chars Hmax pieces 0 Ht) as (Hall & Hlen & Hcov).
  rewrite Forall_forall in Hall.
  assert (∀ c, c ∈ values content pieces → ∃ w, w ∈ pieces ∧ c = strip (slice w.1 w.2 content) ∧ c ≠ []) as Hin.
  { intros c [Hne (w & -> & Hw)%list_elem_of_fmap]%list_elem_of_filter. eauto. }
  split.
  - apply Forall_forall. intros c (w & Hw & -> & Hne)%Hin. destruct (Hall w Hw) as (? & ? & ?). split; [by destruct (strip _); simpl; [|lia]|].
    destruct (strip_spec (slice w.1 w.2 content)) as (pre & post & Hs & _). apply (f_equal length) in Hs.
    rewrite !length_app in Hs. unfold slice in Hs at 1. rewrite length_take, length_drop in Hs. lia.
  - apply Forall_forall. intros c (w & Hw & -> & _)%Hin x c' [Hc|Hc]; [by eapply strip_head|by eapply strip_last].
  - apply Forall_forall. intros c (w & Hw & -> & _)%Hin. destruct (Hall w Hw) as (? & ? & ?).
    destruct (strip_lies_at content w.1 w.2) as (offset & ? & _); [lia|]. eauto.
  - intros i ch Hi Hch. apply lookup_lt_Some in Hi as Hlt. destruct (Hcov i) as (w & Hw & Hrange); [lia|].
    destruct (Hall w Hw) as (? & ? & ?). destruct (strip_lies_at content w.1 w.2) as (offset & Hat & Hpos); [lia|].
    specialize (Hpos i ch Hi Hch Hrange). exists (strip (slice w.1 w.2 content)), offset. split; [|done].
    apply list_elem_of_filter. split; [intros Hn; rewrite Hn in Hpos; simpl in Hpos; lia|].
    apply list_elem_of_fmap. eauto.
  - unfold values. etrans; [apply length_filter|]. rewrite length_fmap. lia.
Qed.

Definition valid_chunking (max_chars overlap_chars : Z) : Prop := 1 ≤ max_chars ∧ 0 ≤ overlap_chars < max_chars.
Lemma split_content_well content max_chars overlap_chars : valid_chunking max_chars overlap_chars →
  ∃ chunks, split_content content max_chars overlap_chars = Ok chunks ∧ split_well content (Z.to_nat max_chars) chunks.
Proof.
  intros [Hm Ho]. unfold split_content.
  assert ((max_chars <? 1) || (overlap_chars <? 0) || (max_chars <=? overlap_chars) = false) as ->.
  { rewrite !orb_false_iff, !Z.ltb_ge, Z.leb_gt. lia. }
  destruct content as [|x content'].
  { exists []. split; [done|]. by split. }
  set (content := x :: content'). destruct (split_from_tiles content (Z.to_nat max_chars) (Z.to_nat overlap_chars) ltac:(lia)
    (S (length content)) 0) as (pieces & Ht & ->); [simpl; lia|lia|].
  eexists. split; [done|]. eapply values_well; [lia|exact Ht].
Qed.
Lemma split_well_blank content max_chars chunks : split_well content max_chars chunks →
  chunks = [] ↔ Forall blank content.
Proof.
  intros [Hsize Htrim Hparts Hcov _]. split.
  - intros ->. apply Forall_lookup. intros i ch Hi. destruct (is_space_char ch) eqn:Hch; [done|].
    destruct (Hcov i ch Hi Hch) as (c & ? & Hc & _). by apply not_elem_of_nil in Hc.
  - intros Hb. destruct chunks as [|c chunks]; [done|]. exfalso.
    apply Forall_cons in Hsize as [Hsize _]. apply Forall_cons in Htrim as [Htrim _].
    apply Forall_cons in Hparts as [(o & pre & post & -> & _) _]. rewrite !Forall_app in Hb. destruct Hb as (_ & Hc & _).
    destruct c as [|x c]; [simpl in Hsize; lia|]. apply Forall_cons in Hc as [Hx _].
    specialize (Htrim x c (or_introl eq_refl)). congruence.
Qed.
End Split.

Section Knowledge.
Context (sha256_hex : string → string) (dumps canonical : json → string) (uuid_at : nat → uuid).
Implicit Types (s : KnowledgeDb) (k : document_key) (d : DocumentRow).

(** ** Events

    The tables of the component, apart from audit rows, remembered answers, the outbox and
    identifiers. *)
Record same_knowledge s s' : Prop := {
  sk_bases : kdb_bases s' = kdb_bases s;
  sk_revisions : kdb_revisions s' = kdb_revisions s;
  sk_builds : kdb_builds s' = kdb_builds s;
  sk_documents : kdb_documents s' = kdb_documents s;
  sk_acl : kdb_acl s' = kdb_acl s;
  sk_chunks : kdb_chunks s' = kdb_chunks s;
  sk_deployments : kdb_deployments s' = kdb_deployments s;
}.
#[local] Instance same_knowledge_equiv : Equivalence same_knowledge.
Proof.
  split; [done|intros s s' []; split; congruence|]. intros s1 s2 s3 [] []. split; congruence.
Qed.

Definition chunks_of (v : RevisionRow) d : outcome KnowledgeError (list pytext) :=
  split_content (characters (kd_content d)) (kc_max_chars (kr_chunking v)) (kc_overlap_chars (kr_chunking v)).
(** A chunk that is in its place. *)
Definition true_chunk s k (i : nat) (c : pytext) : Prop :=
  ∃ d v l, kdb_documents s !! k = Some d ∧ kdb_revisions s !! k.1 = Some v ∧ chunks_of v d = Ok l ∧ l !! i = Some c.
Definition good_document d : Prop :=
  kd_content_hash d = document_hash sha256_hex (kd_content d) ∧ text_between 1 (Z.to_nat 1000000) (kd_content d) = true.
Definition good_revision (v : RevisionRow) : Prop :=
  valid_chunking (kc_max_chars (kr_chunking v)) (kc_overlap_chars (kr_chunking v)) ∧ kc_max_chars (kr_chunking v) ≤ 100000.

(** Documents and grants that a new revision brings. *)
Record documents_added (key : uuid * uuid) s s' : Prop := {
  da_rest : kdb_bases s' = kdb_bases s ∧ kdb_revisions s' = kdb_revisions s ∧ kdb_builds s' = kdb_builds s ∧
    kdb_chunks s' = kdb_chunks s ∧ kdb_deployments s' = kdb_deployments s;
  da_old : kdb_documents s ⊆ kdb_documents s';
  da_new : ∀ k d, kdb_documents s' !! k = Some d → kdb_documents s !! k = Some d ∨ k.1 = key ∧ good_document d;
  da_old_acl : kdb_acl s ⊆ kdb_acl s';
  da_new_acl : ∀ k subject, (k, subject) ∈ kdb_acl s' → (k, subject) ∈ kdb_acl s ∨ k.1 = key;
}.

Inductive knowledge_event s : KnowledgeDb → Prop :=
  | ev_none : knowledge_event s s
  | ev_base t id row : kdb_bases s !! (t, id) = None →
      knowledge_event s (set_bases (<[(t, id) := row]> (kdb_bases s)) s)
  | ev_revision t r v b s' : kdb_revisions s !! (t, r) = None → kdb_builds s !! (t, r) = None →
      is_Some (kdb_bases s !! (t, kr_base_id v)) → good_revision v → kr_version v = next_revision_version t (kr_base_id v) s →
      kl_status b = KB_BUILDING →
      documents_added (t, r) (set_builds (<[(t, r) := b]> (kdb_builds s))
        (set_revisions (<[(t, r) := v]> (kdb_revisions s)) s)) s' → knowledge_event s s'
  | ev_deployment t id deployment : kdb_deployments s !! (t, id) = None →
      ready t (kn_base_id deployment) (kn_revision_id deployment) s = true →
      kn_previous_revision_id deployment =
        kn_revision_id ∘ snd <$> latest_deployment t (kn_base_id deployment) (kn_environment deployment) s →
      1 ≤ kn_rollout_percentage deployment ≤ 100 →
      knowledge_event s (set_kdb_deployments (<[(t, id) := deployment]> (kdb_deployments s)) s)
  | ev_build t r v b m : kl_status <$> kdb_builds s !! (t, r) = Some KB_BUILDING → kdb_revisions s !! (t, r) = Some v →
      kdb_chunks s ⊆ m →
      (∀ k i c, m !! (k, i) = Some c → kdb_chunks s !! (k, i) = Some c ∨ k.1 = (t, r) ∧ true_chunk s k i c) →
      kl_status b ≠ KB_BUILDING →
      (kl_status b = KB_READY → ∀ k d, k.1 = (t, r) → kdb_documents s !! k = Some d →
         ∃ l, chunks_of v d = Ok l ∧ l ≠ [] ∧ ∀ i c, l !! i = Some c → m !! (k, i) = Some c) →
      knowledge_event s (set_build t r b (set_chunks m s)).

(** ** The invariant *)
Record KnowledgeInv s : Prop := {
  ki_revisions : ∀ key v, kdb_revisions s !! key = Some v → good_revision v;
  ki_builds : ∀ key, is_Some (kdb_builds s !! key) ↔ is_Some (kdb_revisions s !! key);
  ki_documents : ∀ k d, kdb_documents s !! k = Some d → good_document d ∧ is_Some (kdb_revisions s !! k.1);
  ki_acl : ∀ k subject, (k, subject) ∈ kdb_acl s → is_Some (kdb_revisions s !! k.1);
  ki_chunks : ∀ k i c, kdb_chunks s !! (k, i) = Some c → true_chunk s k i c;
  ki_ready : ∀ key v, kdb_revisions s !! key = Some v → kl_status <$> kdb_builds s !! key = Some KB_READY →
    ∀ k d, k.1 = key → kdb_documents s !! k = Some d →
      ∃ l, chunks_of v d = Ok l ∧ l ≠ [] ∧ ∀ i c, l !! i = Some c → kdb_chunks s !! (k, i) = Some c;
  ki_deployments : ∀ t id x, kdb_deployments s !! (t, id) = Some x → 1 ≤ kn_rollout_percentage x ≤ 100 ∧
    ready t (kn_base_id x) (kn_revision_id x) s = true ∧
    ∀ r, kn_previous_revision_id x = Some r → ready t (kn_base_id x) r s = true;
}.

(** What later events leave alone. *)
Record knowledge_kept s s' : Prop := {
  kk_bases : kdb_bases s ⊆ kdb_bases s';
  kk_revisions : kdb_revisions s ⊆ kdb_revisions s';
  kk_builds : ∀ key b, kdb_builds s !! key = Some b → kl_status b ≠ KB_BUILDING → kdb_builds s' !! key = Some b;
  kk_documents : ∀ k, is_Some (kdb_revisions s !! k.1) → kdb_documents s' !! k = kdb_documents s !! k;
  kk_acl : ∀ k subject, is_Some (kdb_revisions s !! k.1) → (k, subject) ∈ kdb_acl s' ↔ (k, subject) ∈ kdb_acl s;
  kk_chunks : ∀ k i, is_Some (kdb_revisions s !! k.1) → kl_status <$> kdb_builds s !! k.1 ≠ Some KB_BUILDING →
    kdb_chunks s' !! (k, i) = kdb_chunks s !! (k, i);
  kk_deployments : kdb_deployments s ⊆ kdb_deployments s';
}.
Lemma knowledge_kept_refl s : knowledge_kept s s.
Proof. done. Qed.
Lemma knowledge_kept_trans s1 s2 s3 : knowledge_kept s1 s2 → knowledge_kept s2 s3 →
  (∀ key, is_Some (kdb_revisions s1 !! key) → is_Some (kdb_builds s1 !! key)) → knowledge_kept s1 s3.
Proof.
  intros [B1 R1 L1 D1 A1 C1 P1] [B2 R2 L2 D2 A2 C2 P2] Hb.
  assert (∀ key, is_Some (kdb_revisions s1 !! key) → is_Some (kdb_revisions s2 !! key)) as HR.
  { intros key [v Hv]. exists v. by eapply lookup_weaken. }
  split.
  - by etrans.
  - by etrans.
  - intros key b Hk Hne. eauto.
  - intros k Hk. rewrite D2 by auto. auto.
  - intros k subject Hk. rewrite A2 by auto. auto.
  - intros k i Hk Hst. destruct (Hb _ Hk) as [b Hbk]. rewrite Hbk in Hst. simpl in Hst.
    rewrite C2; [|by auto|rewrite (L1 _ _ Hbk) by congruence; done].
    apply C1; [done|]. by rewrite Hbk.
  - by etrans.
Qed.
Lemma same_knowledge_kept s s' : same_knowledge s s' → knowledge_kept s s'.
Proof. intros [E1 E2 E3 E4 E5 E6 E7]. split; rewrite ?E1, ?E2, ?E3, ?E4, ?E5, ?E6, ?E7; try done; intros; by rewrite ?E3, ?E4, ?E5, ?E6. Qed.

Lemma ready_spec t base r s : ready t base r s = true ↔
  (∃ v, kdb_revisions s !! (t, r) = Some v ∧ kr_base_id v = base) ∧ kl_status <$> kdb_builds s !! (t, r) = Some KB_READY.
Proof.
  unfold ready. rewrite andb_true_iff, !bool_decide_eq_true. destruct (kdb_revisions s !! (t, r)) as [v|]; simpl; naive_solver.
Qed.
Lemma ready_kept t base r s s' : knowledge_kept s s' → ready t base r s = true → ready t base r s' = true.
Proof.
  intros Hk. rewrite !ready_spec. intros [(v & Hv & Hb) Hs]. split.
  - exists v. split; [by eapply lookup_weaken; [|apply Hk]|done].
  - destruct (kdb_builds s !! (t, r)) as [b|] eqn:Hl; [|done]. simpl in Hs.
    rewrite (kk_builds _ _ Hk _ _ Hl); [done|]. congruence.
Qed.
Lemma true_chunk_kept s s' k i c : knowledge_kept s s' → true_chunk s k i c → true_chunk s' k i c.
Proof.
  intros Hk (d & v & l & Hd & Hv & Hl & Hc). exists d, v, l. split_and!; [|by eapply lookup_weaken; [|apply Hk]|done..].
  rewrite (kk_documents _ _ Hk) by eauto. done.
Qed.

Lemma event_kept s s' : KnowledgeInv s → knowledge_event s s' → knowledge_kept s s'.
Proof.
  intros Hi He. destruct He as [|t id row Hid|t r v b s' Hr Hl _ _ _ Hst [(E1 & E2 & E3 & E4 & E5) Hold Hnew Ha Hna]
    |t id x Hid Hready _ _|t r v b m Hl Hv Hsub Hnew Hne Hready]; simpl in *.
  - apply knowledge_kept_refl.
  - split; simpl; try done. by apply insert_subseteq.
  - assert (∀ key, is_Some (kdb_revisions s !! key) → key ≠ (t, r)) as Hkey by (intros key [? ?] ->; congruence).
    split; rewrite ?E1, ?E2, ?E3, ?E4, ?E5; try done.
    + by apply insert_subseteq.
    + intros key b' Hb Hne. rewrite lookup_insert_ne; [done|]. intros <-. congruence.
    + intros k Hk. destruct (kdb_documents s !! k) as [d|] eqn:Hd; [by eapply lookup_weaken|].
      destruct (kdb_documents s' !! k) as [d|] eqn:Hd'; [|done]. destruct (Hnew _ _ Hd') as [?|[? _]]; [congruence|].
      by destruct (Hkey _ Hk).
    + intros k subject Hk. split; [|apply Ha]. intros [?|?]%Hna; [done|]. by destruct (Hkey _ Hk).
  - split; simpl; try done. by apply insert_subseteq.
  - split; simpl; try done.
    + intros key b' Hb Hbb. rewrite lookup_insert_ne; [done|]. intros <-. rewrite Hb in Hl. simpl in Hl. congruence.
    + intros k i Hk Hst. destruct (kdb_chunks s !! (k, i)) as [c|] eqn:Hc; [by eapply lookup_weaken|].
      destruct (m !! (k, i)) as [c|] eqn:Hm; [|done]. destruct (Hnew _ _ _ Hm) as [?|[He _]]; [congruence|].
      rewrite He in Hst. done.
Qed.

(** Ready revisions stay complete: their documents and chunks are fixed. *)
Lemma ready_complete_kept s s' key v : KnowledgeInv s → knowledge_kept s s' → kdb_revisions s !! key = Some v →
  kl_status <$> kdb_builds s !! key = Some KB_READY → ∀ k d, k.1 = key → kdb_documents s' !! k = Some d →
  ∃ l, chunks_of v d = Ok l ∧ l ≠ [] ∧ ∀ i c, l !! i = Some c → kdb_chunks s' !! (k, i) = Some c.
Proof.
  intros Hi Hk Hv Hst k d <- Hd. rewrite (kk_documents _ _ Hk) in Hd by eauto.
  destruct (ki_ready _ Hi _ _ Hv Hst k d eq_refl Hd) as (l & Hl & Hne & Hc). exists l. split_and!; [done..|].
  intros i c Hic. rewrite (kk_chunks _ _ Hk); [by apply Hc|by eauto|by rewrite Hst].
Qed.
Lemma deployments_kept s s' t id x : KnowledgeInv s → knowledge_kept s s' → kdb_deployments s !! (t, id) = Some x →
  1 ≤ kn_rollout_percentage x ≤ 100 ∧ ready t (kn_base_id x) (kn_revision_id x) s' = true ∧
  ∀ r, kn_previous_revision_id x = Some r → ready t (kn_base_id x) r s' = true.
Proof.
  intros Hi Hk Hx. destruct (ki_deployments _ Hi _ _ _ Hx) as (? & ? & Hp). split; [done|]. split; [by eapply ready_kept|].
  intros r Hr. by eapply ready_kept, Hp.
Qed.
Lemma latest_deployment_Some t base e s id x : latest_deployment t base e s = Some (id, x) →
  kdb_deployments s !! (t, id) = Some x ∧ kn_base_id x = base ∧ kn_environment x = e.
Proof.
  unfold latest_deployment. pose proof (latest_spec (λ d : uuid * KnowledgeDeployment, [kn_created_at d.2; d.1])
    (base_deployments t base e s)) as Hl. intros Hs. rewrite Hs in Hl. destruct Hl as [Hin _].
  unfold base_deployments in Hin. apply list_elem_of_filter in Hin as [[? ?] Hin]. unfold tenant_rows in Hin.
  apply list_elem_of_omap in Hin as ([[t' id'] x'] & Hin & Hc). simpl in *. case_bool_decide; simplify_eq.
  by apply elem_of_map_to_list in Hin.
Qed.

Lemma knowledge_event_inv s s' : KnowledgeInv s → knowledge_event s s' → KnowledgeInv s'.
Proof.
  intros Hi He. pose proof (event_kept _ _ Hi He) as Hk. pose proof Hi as [H1 H2 H3 H4 H5 H6 H7].
  destruct He as [|t id row Hid|t r v b s' Hr Hl _ Hg _ Hst [(E1 & E2 & E3 & E4 & E5) Hold Hnew Ha Hna]
    |t id x Hid Hready Hprev Hroll|t r v b m Hl Hv Hsub Hnew Hne Hready].
  - done.
  - split; try done; simpl; eauto using true_chunk_kept, deployments_kept.
  - simpl in *.
    assert (∀ key, is_Some (kdb_revisions s !! key) → is_Some (kdb_revisions s' !! key)) as HR.
    { intros key [w Hw]. exists w. by eapply lookup_weaken; [|apply Hk]. }
    assert (is_Some (kdb_revisions s' !! (t, r))) as Hnewr by (rewrite E2, lookup_insert_eq; eauto).
    split.
    + intros key w. rewrite E2, lookup_insert_Some. intros [[_ <-]|[_ ?]]; eauto.
    + intros key. rewrite E2, E3, !lookup_insert_is_Some, <-H2. done.
    + intros k d [Hd|[Hkr Hgd]]%Hnew; [destruct (H3 _ _ Hd); auto|]. by rewrite Hkr.
    + intros k subject [?|Hkr]%Hna; [eauto|]. by rewrite Hkr.
    + intros k i c. rewrite E4. intros Hc. by eapply true_chunk_kept, H5.
    + intros key w. rewrite E2, E3. intros [[<- <-]|[Hkey Hw]]%lookup_insert_Some.
      { rewrite lookup_insert_eq. simpl. congruence. }
      rewrite lookup_insert_ne by done. intros Hr'. by apply (ready_complete_kept s).
    + intros t' id x. rewrite E5. by apply (deployments_kept s).
  - split; try done; simpl.
    intros t' id' y [[[= <- <-] <-]|[_ Hy]]%lookup_insert_Some; [|by eapply (deployments_kept s)]. split; [done|]. split; [by apply (ready_kept _ _ _ s)|].
    intros r Hr. rewrite Hprev in Hr. destruct (latest_deployment _ _ _ s) as [[id' y]|] eqn:Hlast; [|done]. simpl in Hr. simplify_eq.
    apply latest_deployment_Some in Hlast as (Hy & <- & _). apply (ready_kept _ _ _ s); [done|]. by destruct (H7 _ _ _ Hy) as (_ & ? & _).
  - split; try done; simpl; [| | |].
    + intros key. rewrite lookup_insert_is_Some. split; [intros [<-|[_ ?]]; [by eauto|by apply H2]|].
      intros Hs%H2. destruct (decide ((t, r) = key)); auto.
    + intros k i c [Hc|[_ Hc]]%Hnew; [by eapply true_chunk_kept, H5|by eapply true_chunk_kept].
    + intros key w Hw. destruct (decide ((t, r) = key)) as [<-|Hkey].
      * rewrite lookup_insert_eq. simpl. intros [= Hb]. simplify_eq. by apply Hready.
      * rewrite lookup_insert_ne by done. intros Hs. apply (ready_complete_kept s _ key w Hi Hk Hw Hs).
    + intros t' id x. by apply deployments_kept.
Qed.
Lemma same_knowledge_inv s s' : same_knowledge s s' → KnowledgeInv s → KnowledgeInv s'.
Proof.
  intros Hs Hi. pose proof (same_knowledge_kept _ _ Hs) as Hk. pose proof Hi as [H1 H2 H3 H4 H5 H6 H7].
  pose proof Hs as [E1 E2 E3 E4 E5 E6 E7]. split; rewrite ?E1, ?E2, ?E3, ?E4, ?E5, ?E6, ?E7; try done.
  - intros k i c Hc. by eapply true_chunk_kept, H5.
  - intros t id x. by apply deployments_kept.
Qed.

(** ** Every operation performs one event, or none *)
Definition performs s s' : Prop := ∃ s1 s2, same_knowledge s s1 ∧ knowledge_event s1 s2 ∧ same_knowledge s2 s'.
Lemma performs_same s s' : same_knowledge s s' → performs s s'.
Proof. intros Hs. exists s, s. split_and!; [done|constructor|done]. Qed.
Lemma performs_event s s' : knowledge_event s s' → performs s s'.
Proof. intros He. exists s, s'. split_and!; done. Qed.
Lemma performs_l s s1 s' : same_knowledge s s1 → performs s1 s' → performs s s'.
Proof. intros Hs (a & b & Ha & He & Hb). exists a, b. split_and!; [by etrans|done|done]. Qed.
Lemma performs_r s s1 s' : performs s s1 → same_knowledge s1 s' → performs s s'.
Proof. intros (a & b & Ha & He & Hb) Hs. exists a, b. split_and!; [done|done|by etrans]. Qed.

Lemma kn_on_admin_same {A} (m : ADM A) s : same_knowledge s (kn_on_admin m s).2.
Proof. unfold kn_on_admin. destruct (m (kdb_admin s)). done. Qed.
Lemma draw_same s : same_knowledge s (draw_id (E:=AdminError) uuid_at s).2.
Proof. done. Qed.
Lemma performs_bind {E A B} (m : ST KnowledgeDb E A) (f : A → ST KnowledgeDb E B) s :
  same_knowledge s (m s).2 → (∀ a s1, m s = (Ok a, s1) → performs s1 (f a s1).2) → performs s ((m ≫= f) s).2.
Proof.
  intros Hs Hf. unfold mbind, ST_mbind. destruct (m s) as [[a|e] s1]; simpl in *; [|by apply performs_same].
  eapply performs_l; [exact Hs|]. by apply Hf.
Qed.
Lemma performs_ensure {E B} b (e : E) (f : unit → ST KnowledgeDb E B) s :
  (b = true → performs s (f tt s).2) → performs s ((ensure b e ≫= f) s).2.
Proof. intros Hf. destruct b; [by apply Hf|by apply performs_same]. Qed.

Lemma kn_command_performs fault now p t key operation payload body s :
  (∀ s1 r s2, body s1 = (Ok r, s2) → performs s1 s2) →
  performs s (kn_command sha256_hex dumps uuid_at fault now p t key operation payload body s).2.
Proof.
  intros Hbody. unfold kn_command, transaction. set (m := _ ≫= _).
  destruct (m s) as [[a|e] s'] eqn:Hm; [|by apply performs_same]. assert (performs s s') as Hp.
  2: { destruct fault; simpl; [done|by apply performs_same|done]. }
  unfold m in Hm. apply bind_Ok in Hm as (replayed & s1 & H1 & Hm).
  pose proof (kn_on_admin_same (replay_for sha256_hex dumps (ap_subject p) key operation payload) s) as Hs1.
  rewrite H1 in Hs1. simpl in Hs1. destruct replayed as [response|]; [injection Hm as _ <-; by apply performs_same|].
  apply bind_Ok in Hm as (r & s2 & H2 & Hm). apply bind_Ok in Hm as ([] & s3 & H3 & Hm).
  apply bind_Ok in Hm as ([] & s4 & H4 & Hm). injection Hm as _ <-.
  eapply performs_l; [exact Hs1|]. eapply performs_r; [by eapply Hbody|].
  etrans.
  - pose proof (kn_on_admin_same (audited sha256_hex dumps uuid_at now (Some p) operation "ALLOW" (Some (cr_target_type r))
      (Some (cr_target_id r)) (Some t) (cr_details r)) s2) as H. by rewrite H3 in H.
  - pose proof (kn_on_admin_same (remember sha256_hex dumps (ap_subject p) key operation payload (cr_result r)) s3) as H.
    by rewrite H4 in H.
Qed.

Lemma create_base_performs f1 f2 now p t payload key s :
  performs s (create_base sha256_hex dumps uuid_at f1 f2 now p t payload key s).2.
Proof.
  unfold create_base. apply performs_ensure. intros _. apply performs_bind; [apply kn_on_admin_same|]. intros _ s1 _.
  apply kn_command_performs. clear. intros s r s' Hr. run_inv. unfold draw_id in *. run_inv.
  eapply performs_l; [|apply performs_event, (ev_base _ t)]; [done|].
  match goal with H : _ && _ = true |- _ => rewrite !andb_true_iff, !bool_decide_eq_true in H; by destruct H as [[_ ?] _] end.
Qed.
Lemma create_deployment_performs f1 f2 now p t base e r n source key s : 1 ≤ n ≤ 100 →
  performs s (create_knowledge_deployment sha256_hex dumps uuid_at f1 f2 now p t base e r n source key s).2.
Proof.
  intros Hn. unfold create_knowledge_deployment. apply performs_bind; [apply kn_on_admin_same|]. intros _ s1 _.
  apply kn_command_performs. clear -Hn. intros s x s' Hr. run_inv. unfold draw_id in *. run_inv.
  eapply performs_l; [|apply performs_event, (ev_deployment _ t)]; [done|..].
  - match goal with H : _ && _ = true |- _ => apply andb_true_iff in H as [_ H]; by apply bool_decide_eq_true in H end.
  - done.
  - done.
  - done.
Qed.

Lemma documents_added_refl key s s' : same_knowledge s s' → documents_added key s s'.
Proof.
  intros [E1 E2 E3 E4 E5 E6 E7]. split; rewrite ?E1, ?E2, ?E3, ?E4, ?E5, ?E6, ?E7; [done|done|by left|done|by left].
Qed.
Lemma documents_added_trans key s1 s2 s3 : documents_added key s1 s2 → documents_added key s2 s3 → documents_added key s1 s3.
Proof.
  intros [(?&?&?&?&?) Ho Hn Ha Hna] [(?&?&?&?&?) Ho' Hn' Ha' Hna']. split; [split_and!; congruence|by etrans| |by etrans|].
  - intros k d [Hd|?]%Hn'; [auto|by right].
  - intros k subject [Hd|?]%Hna'; [auto|by right].
Qed.
Lemma documents_added_each {A} key (f : A → KN unit) l s s' u :
  (∀ x s s' u, x ∈ l → f x s = (Ok u, s') → documents_added key s s') → for_each f l s = (Ok u, s') → documents_added key s s'.
Proof.
  revert s. induction l as [|x l IH]; intros s Hf; simpl; intros Hr; [injection Hr as _ <-; by apply documents_added_refl|].
  apply bind_Ok in Hr as ([] & s1 & Hx & Hr). eapply documents_added_trans; [eapply Hf; [by left|done]|].
  eapply IH; [|done]. intros y. intros. eapply Hf; [by right|done].
Qed.
Lemma grant_added k subject s s' u : grant k subject s = (Ok u, s') → documents_added k.1 s s'.
Proof.
  unfold grant. intros Hr. run_inv. split; simpl; [done|done|by left|set_solver|].
  intros k' x. rewrite elem_of_union, elem_of_singleton. intros [[= -> _]|?]; [by right|by left].
Qed.
Lemma insert_document_added t r c s s' u : source_ok c = true →
  insert_document sha256_hex uuid_at t r c s = (Ok u, s') → documents_added (t, r) s s'.
Proof.
  intros Hc. unfold insert_document, draw_id. intros Hr. run_inv. eapply documents_added_trans.
  2: { eapply documents_added_each; [|exact Hr]. intros subject s1 s2 u' _ Hg. by apply grant_added in Hg. }
  match goal with H : _ && _ = true |- _ => rewrite !andb_true_iff, !bool_decide_eq_true in H; destruct H as [_ Hfree] end.
  split; simpl; [done|by apply insert_subseteq| |done|by left].
  intros k d. rewrite lookup_insert_Some. intros [[<- <-]|[_ ?]]; [right|by left]. split; [done|]. split; [done|].
  unfold source_ok in Hc. rewrite !andb_true_iff in Hc. simpl. tauto.
Qed.

Lemma insert_revision_performs now t base r c hash s v s' : revision_create_ok c = true →
  kc_overlap_chars (vc_chunking c) < kc_max_chars (vc_chunking c) →
  insert_revision sha256_hex uuid_at now t base r c hash s = (Ok v, s') → performs s s'.
Proof.
  intros Hok Hover. unfold insert_revision. intros Hr. run_inv.
  unfold revision_create_ok in Hok. rewrite !andb_true_iff, !Z.leb_le, forallb_forall in Hok.
  destruct Hok as ((((((((Hsrc & _) & _) & Hmin) & Hmax) & Hov) & _) & _) & _).
  repeat match goal with H : bool_decide _ = true |- _ => apply bool_decide_eq_true in H end.
  match goal with H : bool_decide (_ = None) && _ = true |- _ =>
    rewrite andb_true_iff, !bool_decide_eq_true in H; destruct H as [Hr1 Hr2] end.
  apply performs_event. eapply (ev_revision _ t r); [done|done| | | | |].
  5: { eapply documents_added_each; [|eassumption]. intros x s1 s2 u' Hx Hd. eapply insert_document_added; [|exact Hd].
       apply Hsrc. by apply list_elem_of_In. }
  - done.
  - by split.
  - done.
  - done.
Qed.
Lemma create_revision_performs f1 f2 now p t base payload key s :
  performs s (create_revision sha256_hex dumps canonical uuid_at f1 f2 now p t base payload key s).2.
Proof.
  unfold create_revision. apply performs_ensure. intros Hok. apply performs_bind; [apply kn_on_admin_same|]. intros _ s1 _.
  apply performs_ensure. intros Hover%Z.ltb_lt. apply performs_bind; [apply draw_same|]. intros r s2 _.
  apply kn_command_performs. clear s s1 s2. intros s x s' Hr. apply bind_Ok in Hr as (v & s1 & Hins & Hr).
  eapply performs_r; [by eapply insert_revision_performs|]. clear -Hr. unfold insert_outbox_record, draw_id in Hr. run_inv.
  by match goal with H : (if ?b then _ else _) _ = _ |- _ => destruct b; run_inv end.
Qed.
Lemma list_bases_performs f1 f2 now p t limit cursor s :
  performs s (list_bases sha256_hex dumps uuid_at f1 f2 now p t limit cursor s).2.
Proof.
  unfold list_bases. apply performs_ensure. intros _. apply performs_bind; [apply kn_on_admin_same|]. intros _ s1 _.
  apply performs_bind; [by repeat case_match|]. intros after s2 _. apply performs_same. unfold transaction. by destruct f2.
Qed.

(** ** Builds *)
Lemma chunk_rows_lookup k (l : list pytext) k' (i : nat) c : chunk_rows k l !! (k', i) = Some c ↔ k' = k ∧ l !! i = Some c.
Proof.
  unfold chunk_rows. set (rows := imap (λ i c, ((k, i), c)) l).
  assert (∀ n, rows !! n = (λ c, ((k, n), c)) <$> l !! n) as Hrows by (intros n; unfold rows; by rewrite list_lookup_imap).
  rewrite <-elem_of_list_to_map.
  - rewrite list_elem_of_lookup. split.
    + intros [n Hn]. rewrite Hrows in Hn. destruct (l !! n) eqn:Hl; simpl in Hn; [|done]. by simplify_eq.
    + intros [-> Hi]. exists i. by rewrite Hrows, Hi.
  - apply NoDup_fmap_fst.
    + intros [k1 n1] c1 c2 [a Ha]%list_elem_of_lookup [b Hb]%list_elem_of_lookup. rewrite Hrows in Ha, Hb.
      destruct (l !! a) eqn:?, (l !! b) eqn:?; simpl in *; by simplify_eq.
    + apply NoDup_alt. intros a b [[k1 n1] c1] Ha Hb. rewrite Hrows in Ha, Hb.
      destruct (l !! a), (l !! b); simpl in *; by simplify_eq.
Qed.

Lemma split_well_check content max_chars l : split_well content max_chars l → Z.of_nat max_chars ≤ 100000 →
  Z.of_nat (length content) ≤ 1000000 → chunk_check l = true.
Proof.
  intros [Hsize _ _ _ Hcount] Hm Hc. unfold chunk_check. rewrite andb_true_iff, forallb_forall, Z.leb_le. split; [|lia].
  intros c Hin%list_elem_of_In. rewrite Forall_forall in Hsize. specialize (Hsize c Hin).
  rewrite andb_true_iff, Nat.leb_le, Z.leb_le. lia.
Qed.

(** A document is cut and stored, or it is blank. *)
Lemma build_document_run v k d s : good_revision v → good_document d → building k.1.1 k.1.2 s = true →
  ∃ l, chunks_of v d = Ok l ∧ split_well (characters (kd_content d)) (Z.to_nat (kc_max_chars (kr_chunking v))) l ∧
    build_document sha256_hex (kr_chunking v) (k, d) s =
      if bool_decide (l = []) then (Raise (KnowledgeRevisionError "EMPTY_DOCUMENT"), s)
      else (Ok tt, set_chunks (kdb_chunks s ∪ chunk_rows k l) s).
Proof.
  intros [Hval Hmax] [Hhash Hlen] Hb. destruct (split_content_well (characters (kd_content d)) _ _ Hval) as (l & Hl & Hw).
  exists l. split; [done|]. split; [done|].
  assert (chunk_check l = true) as Hcheck.
  { eapply split_well_check; [exact Hw|lia|]. unfold text_between in Hlen. rewrite andb_true_iff, !Nat.leb_le in Hlen. lia. }
  unfold build_document, mbind, ST_mbind, ensure. simpl. rewrite bool_decide_eq_true_2 by done. simpl. rewrite Hl. simpl.
  case_bool_decide; simpl; [done|]. unfold insert_chunks, mbind, ST_mbind, ensure, gets. simpl. by rewrite Hb, Hcheck.
Qed.

Definition document_stored (v : RevisionRow) (m : gmap (document_key * nat) pytext) (x : document_key * DocumentRow) : Prop :=
  ∃ l, chunks_of v x.2 = Ok l ∧ l ≠ [] ∧ ∀ i c, l !! i = Some c → m !! (x.1, i) = Some c.
Lemma build_loop v t r ds : ∀ s, kdb_revisions s !! (t, r) = Some v → good_revision v → building t r s = true →
  Forall (λ x : document_key * DocumentRow, x.1.1 = (t, r) ∧ kdb_documents s !! x.1 = Some x.2 ∧ good_document x.2) ds →
  (∀ k i c, kdb_chunks s !! (k, i) = Some c → true_chunk s k i c) →
  ∃ m, kdb_chunks s ⊆ m ∧
    (∀ k i c, m !! (k, i) = Some c → kdb_chunks s !! (k, i) = Some c ∨ k.1 = (t, r) ∧ true_chunk s k i c) ∧
    (Forall (document_stored v m) ds ∧
       for_each (build_document sha256_hex (kr_chunking v)) ds s = (Ok tt, set_chunks m s) ∨
     Exists (λ x : document_key * DocumentRow, chunks_of v x.2 = Ok []) ds ∧
       for_each (build_document sha256_hex (kr_chunking v)) ds s =
         (Raise (KnowledgeRevisionError "EMPTY_DOCUMENT"), set_chunks m s)).
Proof.
  induction ds as [|[k d] ds IH]; intros s Hv Hg Hb Hds Htrue.
  { exists (kdb_chunks s). split; [done|]. split; [by left|]. left. split; [done|]. by destruct s. }
  apply Forall_cons in Hds as [(Hk & Hd & Hgd) Hds]. simpl in Hk, Hd, Hgd.
  assert (building k.1.1 k.1.2 s = true) as Hbk by by rewrite Hk.
  destruct (build_document_run v k d s Hg Hgd Hbk) as (l & Hl & Hw & Hrun). case_bool_decide as Hnil.
  { exists (kdb_chunks s). split; [done|]. split; [by left|]. right. split; [left; simpl; by rewrite Hl, Hnil|].
    simpl. unfold mbind, ST_mbind. rewrite Hrun. by destruct s. }
  set (s1 := set_chunks (kdb_chunks s ∪ chunk_rows k l) s) in *.
  assert (∀ k' i c, chunk_rows k l !! (k', i) = Some c → k' = k ∧ true_chunk s k i c) as Hrows.
  { intros k' i c [-> Hi]%chunk_rows_lookup. split; [done|]. exists d, v, l. rewrite Hk. done. }
  assert (∀ k' i c, kdb_chunks s1 !! (k', i) = Some c → kdb_chunks s !! (k', i) = Some c ∨ k'.1 = (t, r) ∧ true_chunk s k' i c) as Hs1.
  { intros k' i c. simpl. rewrite lookup_union_Some_raw. intros [?|[_ Hc]]; [by left|]. destruct (Hrows _ _ _ Hc) as [-> ?]. by right. }
  destruct (IH s1) as (m & Hsub & Hnew & Hcase); [done|done|done|done| |].
  { intros k' i c [?|[_ ?]]%Hs1; [by apply Htrue|done]. }
  exists m. split; [etrans; [|exact Hsub]; apply map_union_subseteq_l|]. split.
  { intros k' i c [?%Hs1|[? ?]]%Hnew; [done|by right]. }
  simpl. unfold mbind, ST_mbind. rewrite Hrun. destruct Hcase as [[Hall Hrest]|[Hex Hrest]]; [left|right]; (split; [|exact Hrest]).
  - constructor; [|done]. exists l. split; [done|]. split; [done|]. intros i c Hi. eapply lookup_weaken; [|exact Hsub]. simpl.
    apply lookup_union_Some_raw. destruct (kdb_chunks s !! (k, i)) as [c'|] eqn:Hold; [left|right; split; [done|by apply chunk_rows_lookup]].
    f_equal. destruct (Htrue _ _ _ Hold) as (d' & v' & l' & Hd' & Hv' & Hl' & Hi'). rewrite Hk in Hv'. congruence.
  - by right.
Qed.

Lemma revision_documents_spec t r s (x : document_key * DocumentRow) : x ∈ revision_documents t r s ↔
  x.1.1 = (t, r) ∧ kdb_documents s !! x.1 = Some x.2.
Proof.
  unfold revision_documents. rewrite sort_on_perm, list_elem_of_filter. destruct x as [k d]. by rewrite elem_of_map_to_list.
Qed.

(** How a build leaves the row of its revision. *)
Definition built_row (now : instant) : BuildRow :=
  {| kl_status := KB_READY; kl_validated_at := Some now; kl_error_code := None |}.
Definition empty_row : BuildRow :=
  {| kl_status := KB_FAILED; kl_validated_at := None; kl_error_code := Some "EMPTY_DOCUMENT" |}.

Lemma build_documents_run now t r v s : KnowledgeInv s → kdb_revisions s !! (t, r) = Some v → building t r s = true →
  ∃ m b e, build_documents sha256_hex now t r (kr_chunking v) s = (Ok e, set_build t r b (set_chunks m s)) ∧
    knowledge_event s (set_build t r b (set_chunks m s)) ∧
    (b = built_row now ∧ e = None ∧ (∀ k d, k.1 = (t, r) → kdb_documents s !! k = Some d → chunks_of v d ≠ Ok []) ∨
     b = empty_row ∧ e = Some (KnowledgeRevisionError "EMPTY_DOCUMENT") ∧
       ∃ k d, k.1 = (t, r) ∧ kdb_documents s !! k = Some d ∧ chunks_of v d = Ok []).
Proof.
  intros Hi Hv Hb. pose proof Hb as Hst. unfold building in Hst. apply bool_decide_eq_true in Hst.
  destruct (build_loop v t r (revision_documents t r s) s) as (m & Hsub & Hnew & Hcase);
    [done|by eapply ki_revisions|done| |by apply Hi|].
  { apply Forall_forall. intros x [Hx Hd]%revision_documents_spec. split_and!; [done..|by eapply ki_documents]. }
  exists m. unfold build_documents, mbind, ST_mbind, gets, try_catch.
  destruct Hcase as [[Hall Hrun]|[Hex Hrun]]; rewrite Hrun; simpl.
  - exists (built_row now), None. rewrite Forall_forall in Hall.
    assert (∀ k d, k.1 = (t, r) → kdb_documents s !! k = Some d → document_stored v m (k, d)) as Hstored.
    { intros k d Hk Hd. apply Hall, revision_documents_spec. done. }
    split; [done|]. split.
    + by eapply ev_build.
    + left. split_and!; [done..|]. intros k d Hk Hd. destruct (Hstored k d Hk Hd) as (l & Hl & Hne & _). simpl in Hl. rewrite Hl. congruence.
  - exists empty_row, (Some (KnowledgeRevisionError "EMPTY_DOCUMENT")). split; [done|]. split.
    + by eapply ev_build.
    + right. split_and!; [done..|]. apply Exists_exists in Hex as ([k d] & [Hx Hd]%revision_documents_spec & He). eauto.
Qed.
Lemma build_performs fault now tenant_id revision_id s : KnowledgeInv s →
  performs s (build sha256_hex fault now tenant_id revision_id s).2.
Proof.
  intros Hi. unfold build. destruct (parse_uuid tenant_id) as [t|]; [|by apply performs_same].
  destruct (parse_uuid revision_id) as [r|]; [|by apply performs_same]. simpl. unfold mbind, ST_mbind, get_or_raise, mret, ST_mret.
  set (m := λ s, _). assert (∀ e s', m s = (Ok e, s') → performs s s') as Hm.
  { intros e s'. unfold m, gets. simpl. destruct (kdb_builds s !! (t, r)) as [b|] eqn:Hb; simpl; [|done].
    destruct (kdb_revisions s !! (t, r)) as [v|] eqn:Hv; simpl; [|done]. destruct (kl_status b) eqn:Hst; simpl.
    - destruct (build_documents_run now t r v s) as (m' & b' & e' & Hrun & Hev & _); [done|done| |].
      { unfold building. rewrite Hb. simpl. by rewrite Hst, bool_decide_eq_true_2. }
      rewrite Hrun. intros [= <- <-]. by apply performs_event.
    - intros [= _ <-]. by apply performs_same.
    - done. }
  unfold transaction. destruct (m s) as [[e|e] s'] eqn:Hrun; [|by apply performs_same]. specialize (Hm _ _ eq_refl).
  destruct fault; [|by apply performs_same|done]. by destruct e.
Qed.

(** ** Histories *)
Inductive knowledge_step : KnowledgeDb → KnowledgeDb → Prop :=
  | step_create_base f1 f2 now p t payload key s :
      knowledge_step s (create_base sha256_hex dumps uuid_at f1 f2 now p t payload key s).2
  | step_list_bases f1 f2 now p t limit cursor s :
      knowledge_step s (list_bases sha256_hex dumps uuid_at f1 f2 now p t limit cursor s).2
  | step_create_revision f1 f2 now p t base payload key s :
      knowledge_step s (create_revision sha256_hex dumps canonical uuid_at f1 f2 now p t base payload key s).2
  | step_deploy f1 f2 now p t base e r n key s :
      knowledge_step s (deploy_revision sha256_hex dumps uuid_at f1 f2 now p t base e r n key s).2
  | step_rollback f1 f2 now p t base e r key s :
      knowledge_step s (rollback_revision sha256_hex dumps uuid_at f1 f2 now p t base e r key s).2
  | step_build fault now tenant_id revision_id s :
      knowledge_step s (build sha256_hex fault now tenant_id revision_id s).2
  | step_elsewhere s s' : same_knowledge s s' → knowledge_step s s'.
Definition knowledge_start s : Prop :=
  kdb_bases s = ∅ ∧ kdb_revisions s = ∅ ∧ kdb_builds s = ∅ ∧ kdb_documents s = ∅ ∧ kdb_acl s = ∅ ∧ kdb_chunks s = ∅ ∧
  kdb_deployments s = ∅.
Definition knowledge_reachable s : Prop := ∃ s0, knowledge_start s0 ∧ rtc knowledge_step s0 s.

Lemma knowledge_step_performs s s' : KnowledgeInv s → knowledge_step s s' → performs s s'.
Proof.
  intros Hi. destruct 1 as [| | |f1 f2 now p t base e r n key s| | |s s' Hs].
  - apply create_base_performs.
  - apply list_bases_performs.
  - apply create_revision_performs.
  - unfold deploy_revision. apply performs_ensure. rewrite andb_true_iff, !Z.leb_le. intros [? ?]. by apply create_deployment_performs.
  - apply create_deployment_performs. lia.
  - by apply build_performs.
  - by apply performs_same.
Qed.
Lemma performs_inv s s' : KnowledgeInv s → performs s s' → KnowledgeInv s' ∧ knowledge_kept s s'.
Proof.
  intros Hi (s1 & s2 & H1 & He & H2). pose proof (same_knowledge_inv _ _ H1 Hi) as Hi1. pose proof (knowledge_event_inv _ _ Hi1 He) as Hi2.
  split; [by apply (same_knowledge_inv s2)|].
  eapply knowledge_kept_trans; [by apply same_knowledge_kept| |intros key; apply Hi].
  eapply knowledge_kept_trans; [by apply event_kept|by apply same_knowledge_kept|intros key; apply Hi1].
Qed.
Lemma knowledge_start_inv s : knowledge_start s → KnowledgeInv s.
Proof.
  intros (E1 & E2 & E3 & E4 & E5 & E6 & E7). split; rewrite ?E1, ?E2, ?E3, ?E4, ?E5, ?E6, ?E7.
  - intros key v. by rewrite lookup_empty.
  - intros key. by rewrite !lookup_empty.
  - intros k d. by rewrite lookup_empty.
  - intros k subject. set_solver.
  - intros k i c. by rewrite lookup_empty.
  - intros key v. by rewrite lookup_empty.
  - intros t id x. by rewrite lookup_empty.
Qed.
Lemma knowledge_steps_inv s s' : rtc knowledge_step s s' → KnowledgeInv s → KnowledgeInv s' ∧ knowledge_kept s s'.
Proof.
  induction 1 as [s|s s1 s' Hstep _ IH]; intros Hi; [split; [done|apply knowledge_kept_refl]|].
  destruct (performs_inv _ _ Hi (knowledge_step_performs _ _ Hi Hstep)) as [Hi1 Hk]. destruct (IH Hi1) as [Hi' Hk'].
  split; [done|]. eapply knowledge_kept_trans; [done..|intros key; apply Hi].
Qed.
Lemma knowledge_reachable_inv s : knowledge_reachable s → KnowledgeInv s.
Proof. intros (s0 & H0 & Hs). apply (knowledge_steps_inv s0 s Hs), knowledge_start_inv, H0. Qed.

(** C15: Splitting loses nothing.  A configuration whose overlap is smaller than its positive
    chunk size splits every text, in finitely many rounds, into parts of it that are not
    longer than the chunk size, start and end with a character other than white space, cover
    every such character, and are at most as many as the text has characters; any other
    configuration is refused. *)
Theorem splitting_loses_nothing content max_chars overlap_chars :
  if decide (1 ≤ max_chars ∧ 0 ≤ overlap_chars < max_chars)
  then ∃ chunks, split_content content max_chars overlap_chars = Ok chunks ∧
         split_well content (Z.to_nat max_chars) chunks
  else split_content content max_chars overlap_chars = Raise (KnowledgeRevisionError "INVALID_CHUNKING").
Proof.
  destruct (decide _) as [Hv|Hv]; [by apply split_content_well|]. unfold split_content.
  destruct (Z.ltb_spec max_chars 1); [done|]. destruct (Z.ltb_spec overlap_chars 0); [done|].
  destruct (Z.leb_spec max_chars overlap_chars); [done|]. lia.
Qed.

(** Builds end.  A build of a waiting revision that keeps its connection makes the
    revision ready when every document of it has a character other than white space, and
    otherwise reports the empty document and marks the revision failed; there is no third
    outcome, although documents were stored long before. *)
Theorem builds_end s now tenant_id revision_id t r : knowledge_reachable s →
  parse_uuid tenant_id = Some t → parse_uuid revision_id = Some r →
  kl_status <$> kdb_builds s !! (t, r) = Some KB_BUILDING →
  let '(result, s') := build sha256_hex NoFault now tenant_id revision_id s in
  let blank := ∃ k d, k.1 = (t, r) ∧ kdb_documents s !! k = Some d ∧
                 Forall (λ c, is_space_char c = true) (characters (kd_content d)) in
  result = Ok tt ∧ ¬ blank ∧ kdb_builds s' !! (t, r) = Some (built_row now) ∨
  result = Raise (KnowledgeRevisionError "EMPTY_DOCUMENT") ∧ blank ∧ kdb_builds s' !! (t, r) = Some empty_row.
Proof.
  intros Hi%knowledge_reachable_inv Ht Hr Hst. destruct (kdb_builds s !! (t, r)) as [b|] eqn:Hb; [|done]. simpl in Hst. injection Hst as Hst.
  destruct (proj1 (ki_builds _ Hi (t, r)) ltac:(rewrite Hb; by eexists)) as [v Hv].
  destruct (build_documents_run now t r v s Hi Hv) as (m & b' & e & Hrun & _ & Hcase).
  { unfold building. rewrite Hb. simpl. by rewrite Hst, bool_decide_eq_true_2. }
  assert (∀ k d, k.1 = (t, r) → kdb_documents s !! k = Some d →
    chunks_of v d = Ok [] ↔ Forall (λ c, is_space_char c = true) (characters (kd_content d))) as Hblank.
  { intros k d _ Hd. destruct (split_content_well (characters (kd_content d)) _ _ (proj1 (ki_revisions _ Hi _ _ Hv))) as (l & Hl & Hw).
    unfold chunks_of. rewrite Hl, <-(split_well_blank _ _ _ Hw). split; [by intros [= ->]|by intros ->]. }
  unfold build, mbind, ST_mbind, get_or_raise. rewrite Ht, Hr. unfold mret, ST_mret, transaction, gets. simpl. rewrite Hb. simpl.
  rewrite Hv. simpl. rewrite Hst. rewrite Hrun. destruct Hcase as [(-> & -> & Hnone)|(-> & -> & k & d & Hk & Hd & Hempty)]; simpl.
  - left. split; [done|]. split; [|by rewrite lookup_insert_eq]. intros (k & d & Hk & Hd & Hbl). by apply (Hnone k d Hk Hd), (Hblank k d Hk Hd).
  - right. split; [done|]. split; [|by rewrite lookup_insert_eq]. exists k, d. split_and!; [done..|]. by apply (Hblank k d Hk Hd).
Qed.

(** C14: What is ready is complete and final.  From the moment a revision is ready it keeps
    its row, its documents, their access lists and its build; every document has the hash
    it was submitted with, and its stored chunks are exactly the parts it splits into. *)
Theorem ready_revisions_are_final s s' t base r : knowledge_reachable s → ready t base r s = true →
  rtc knowledge_step s s' → ∃ v, kdb_revisions s' !! (t, r) = Some v ∧ kdb_revisions s !! (t, r) = Some v ∧
    kr_base_id v = base ∧ kdb_builds s' !! (t, r) = kdb_builds s !! (t, r) ∧
    ∀ k, k.1 = (t, r) → kdb_documents s' !! k = kdb_documents s !! k ∧
      (∀ subject, (k, subject) ∈ kdb_acl s' ↔ (k, subject) ∈ kdb_acl s) ∧
      match kdb_documents s !! k with
      | Some d => kd_content_hash d = document_hash sha256_hex (kd_content d) ∧
                  ∃ l, chunks_of v d = Ok l ∧ l ≠ [] ∧ ∀ i, kdb_chunks s' !! (k, i) = l !! i
      | None => ∀ i, kdb_chunks s' !! (k, i) = None
      end.
Proof.
  intros Hi%knowledge_reachable_inv Hready Hsteps. destruct (knowledge_steps_inv _ _ Hsteps Hi) as [Hi' Hk].
  apply ready_spec in Hready as [(v & Hv & Hbase) Hst]. exists v. split; [by eapply lookup_weaken; [|apply Hk]|]. split_and!; [done..| |].
  { destruct (kdb_builds s !! (t, r)) as [b|] eqn:Hb; [|done]. simpl in Hst. apply (kk_builds _ _ Hk); [done|]. congruence. }
  intros k Hkr. assert (is_Some (kdb_revisions s !! k.1)) as Hrev by (rewrite Hkr; eauto). pose proof (kk_documents _ _ Hk _ Hrev) as Hdoc.
  split; [done|]. split; [intros subject; by apply (kk_acl _ _ Hk)|]. destruct (kdb_documents s !! k) as [d|] eqn:Hd.
  - split; [by apply (ki_documents _ Hi _ _ Hd)|].
    destruct (ready_complete_kept s s' (t, r) v Hi Hk Hv Hst k d Hkr Hdoc) as (l & Hl & Hne & Hc). exists l. split_and!; [done..|].
    intros i. destruct (l !! i) as [c|] eqn:Hli; [by apply Hc|]. destruct (kdb_chunks s' !! (k, i)) as [c|] eqn:Hci; [|done].
    destruct (ki_chunks _ Hi' _ _ _ Hci) as (d' & v' & l' & Hd' & Hv' & Hl' & Hi2). rewrite Hdoc in Hd'. simplify_eq.
    rewrite Hkr in Hv'. rewrite (lookup_weaken _ _ _ _ Hv (kk_revisions _ _ Hk)) in Hv'. simplify_eq. congruence.
  - intros i. destruct (kdb_chunks s' !! (k, i)) as [c|] eqn:Hci; [|done].
    destruct (ki_chunks _ Hi' _ _ _ Hci) as (d' & _ & _ & Hd' & _). congruence.
Qed.

(** ** Retrieval and resolution *)
Context (search_matches : string → pytext → bool) (search_rank : string → pytext → Z) (sha256 : bytes → bytes).

Lemma matching_chunks_spec t base r subject query s c :
  c ∈ matching_chunks search_matches search_rank t base r subject query s ↔
  retrievable search_matches t base r subject query s c ∧ kdb_chunks s !! c.1 = Some c.2.
Proof.
  unfold matching_chunks. rewrite merge_sort_Permutation, list_elem_of_filter. destruct c as [key x]. by rewrite elem_of_map_to_list.
Qed.
Lemma omap_all {A B} (f : A → option B) (l : list A) : (∀ x, x ∈ l → is_Some (f x)) → length (omap f l) = length l.
Proof.
  induction l as [|x l IH]; intros Hf; [done|]. csimpl. destruct (Hf x ltac:(by left)) as [y ->]. csimpl.
  rewrite IH; [done|]. intros z ?. apply Hf. by right.
Qed.

(** C13: Retrieval keeps to the access lists.  A search answers with chunks of ready
    revisions of the named tenant and base only, of documents whose access list names the
    subject, as they were split from the document with its classification; it is complete
    up to the limit, and changes nothing. *)
Theorem retrieval_respects_access s tenant_id base_id revision_id subject query limit l s' : knowledge_reachable s →
  retrieve search_matches search_rank NoFault tenant_id base_id revision_id subject query limit s = (Ok l, s') →
  s' = s ∧ (length l ≤ Z.to_nat limit)%nat ∧
  (∀ x, x ∈ l → ∃ t b r k i d v parts, parse_uuid tenant_id = Some t ∧ parse_uuid base_id = Some b ∧
     parse_uuid revision_id = Some r ∧ k = (t, r, rs_document_id x) ∧ ready t b r s = true ∧ (k, subject) ∈ kdb_acl s ∧
     kdb_documents s !! k = Some d ∧ rs_source_ref x = kd_source_ref d ∧ rs_classification x = kd_classification d ∧
     kdb_revisions s !! (t, r) = Some v ∧ chunks_of v d = Ok parts ∧ parts !! i = Some (rs_content x) ∧
     search_matches query (rs_content x) = true) ∧
  (∀ t b r c, parse_uuid tenant_id = Some t → parse_uuid base_id = Some b → parse_uuid revision_id = Some r →
     strip (characters query) ≠ [] → 1 ≤ limit ≤ 100 → kdb_chunks s !! c.1 = Some c.2 →
     retrievable search_matches t b r subject query s c → length l = Z.to_nat limit ∨ ∃ x, x ∈ l ∧ result_of s c = Some x).
Proof.
  intros Hi%knowledge_reachable_inv. unfold retrieve. destruct (_ || _) eqn:Hq.
  { intros [= <- <-]. split_and!; [done|simpl; lia|by intros x Hx%not_elem_of_nil|]. intros t b r c _ _ _ Hs Hl.
    exfalso. apply orb_true_iff in Hq as [Hq%bool_decide_eq_true|Hq%negb_true_iff]; [done|].
    rewrite andb_false_iff, !Z.leb_gt in Hq. lia. }
  destruct (parse_uuid tenant_id) as [t|]; [|intros [= <- <-]; split_and!; [done|simpl; lia|by intros x Hx%not_elem_of_nil|done]].
  destruct (parse_uuid base_id) as [b|]; [|intros [= <- <-]; split_and!; [done|simpl; lia|by intros x Hx%not_elem_of_nil|done]].
  destruct (parse_uuid revision_id) as [r|]; [|intros [= <- <-]; split_and!; [done|simpl; lia|by intros x Hx%not_elem_of_nil|done]].
  intros [= <- <-]. set (found := matching_chunks search_matches search_rank t b r subject query s).
  assert (∀ c, c ∈ found → is_Some (result_of s c)) as Hsome.
  { intros c [(_ & _ & [d Hd] & _) _]%matching_chunks_spec. unfold result_of. rewrite Hd. by eexists. }
  assert (∀ c, c ∈ take (Z.to_nat limit) found → c ∈ found) as Htake.
  { intros c Hc. rewrite <-(take_drop (Z.to_nat limit) found). apply elem_of_app. by left. }
  assert (length (omap (result_of s) (take (Z.to_nat limit) found)) = Z.to_nat limit `min` length found)%nat as Hlen.
  { rewrite omap_all, length_take; [done|]. intros c Hc. by apply Hsome, Htake. }
  split_and!; [done|lia| |].
  - intros x ([[k i] c] & Hc & Hx)%list_elem_of_omap. apply Htake, matching_chunks_spec in Hc as [(Hk & Hready & [d Hd] & Hacl & Hm) Hch].
    simpl in *. unfold result_of in Hx. simpl in Hx. rewrite Hd in Hx. simpl in Hx. simplify_eq. simpl.
    destruct (ki_chunks _ Hi _ _ _ Hch) as (d' & v & parts & Hd' & Hv & Hp & Hpi). simplify_eq. rewrite Hk in Hv.
    assert (k = (t, r, k.2)) as Hkey by (rewrite <-Hk; by destruct k).
    exists t, b, r, k, i, d, v, parts. split_and!; done.
  - intros ? ? ? c [= <-] [= <-] [= <-] _ _ Hch Hret. assert (c ∈ found) as Hin by by apply matching_chunks_spec.
    destruct (decide (length found ≤ Z.to_nat limit)%nat) as [Hle|Hgt]; [right|left; rewrite Hlen; lia].
    destruct (Hsome c Hin) as [x Hx]. exists x. split; [|done]. apply list_elem_of_omap. exists c. split; [|done]. by rewrite take_ge.
Qed.

(** C16: What is deployed is ready.  The revision that an execution resolves for a session
    is one of the named base whose build is ready, now and in every later state, whether it
    is the newest deployment or the one before it, which a share of the sessions keeps. *)
Theorem deployed_revisions_are_ready s tenant_id base_id environment session_id text s1 : knowledge_reachable s →
  resolve_revision sha256 NoFault tenant_id base_id environment session_id s = (Ok (Some text), s1) →
  s1 = s ∧ ∃ t b id x r, parse_uuid tenant_id = Some t ∧ parse_uuid base_id = Some b ∧
    latest_deployment t b environment s = Some (id, x) ∧ text = uuid_text r ∧
    (r = kn_revision_id x ∨ kn_previous_revision_id x = Some r ∧
       kn_rollout_percentage x ≤ AgentWorker.session_rollout_bucket sha256 session_id < 100) ∧
    ∀ s', rtc knowledge_step s s' → ready t b r s' = true.
Proof.
  intros Hi%knowledge_reachable_inv. unfold resolve_revision. destruct (parse_uuid tenant_id) as [t|]; [|done].
  destruct (parse_uuid base_id) as [b|]; [|done]. unfold transaction, mbind, ST_mbind, gets, mret, ST_mret.
  destruct (latest_deployment t b environment s) as [[id x]|] eqn:Hl; [|done]. simpl. intros [= <- <-]. split; [done|].
  destruct (latest_deployment_Some _ _ _ _ _ _ Hl) as (Hx & Hb & _). destruct (ki_deployments _ Hi _ _ _ Hx) as (_ & Hr & Hp).
  assert (∀ r s', rtc knowledge_step s s' → ready t (kn_base_id x) r s = true → ready t b r s' = true) as Hlater.
  { intros r s' Hs. rewrite Hb. apply ready_kept. by apply (knowledge_steps_inv s s' Hs). }
  exists t, b, id, x, (chosen_revision sha256 x session_id). split_and!; [done..| |].
  - unfold chosen_revision. destruct (kn_previous_revision_id x) as [previous|]; [|by left].
    destruct (_ && _) eqn:Hc; [right|by left]. split; [done|]. rewrite andb_true_iff, Z.ltb_lt, Z.leb_le in Hc.
    split; [lia|]. unfold AgentWorker.session_rollout_bucket. apply Z.mod_pos_bound. lia.
  - intros s' Hs. apply Hlater; [done|]. unfold chosen_revision. destruct (kn_previous_revision_id x) as [previous|]; [|done].
    destruct (_ && _); [by apply Hp|done].
Qed.
End Knowledge.

(** ** A knowledge base

    One base with three revisions: a document is submitted, built, deployed and found by
    the subject it is for. *)
Definition kn_tenant : uuid := 7.
Definition kn_sha (s : string) : string := s.
Definition kn_text (_ : json) : string := "{}".
Definition kn_ids (n : nat) : uuid := Z.of_nat n + 100.
Definition kn_admin : AdminPrincipal :=
  {| ap_subject := "alice"; ap_auth_method := "emergency"; ap_roles := ["PLATFORM_ADMIN"] |}.
Definition kn_empty : KnowledgeDb :=
  {| kdb_admin := {| ad_tenants := {[kn_tenant]}; ad_members := []; ad_idempotency := ∅;
                     ad_audit := {| au_events := []; au_chain := ∅; au_outbox := []; au_manifests := []; au_worm := [];
                                    au_next_id := 0 |} |};
     kdb_bases := ∅; kdb_revisions := ∅; kdb_builds := ∅; kdb_documents := ∅; kdb_acl := ∅; kdb_chunks := ∅;
     kdb_deployments := ∅; kdb_outbox := []; kdb_next_id := 0 |}.
(** Whole words match, all with the same rank; half of the sessions are below 50. *)
Definition kn_matches (query : string) (c : pytext) : bool := bool_decide (characters query = c).
Definition kn_rank (_ : string) (_ : pytext) : Z := 0.
Definition kn_hash (_ : bytes) : bytes := [Byte.x32].

Abbreviation kn_step := (knowledge_step kn_sha kn_text kn_text kn_ids).
Abbreviation kn_reachable := (knowledge_reachable kn_sha kn_text kn_text kn_ids).

Definition handbook (acl : list string) (content : string) : KnowledgeRevisionCreate :=
  {| vc_sources := [{| ks_source_ref := "handbook"; ks_content := content; ks_acl_subjects := acl;
                       ks_classification := INTERNAL |}];
     vc_chunking := {| kc_max_chars := 6; kc_overlap_chars := 0 |}; vc_embedding_model := "e";
     vc_index_config := {["kind" := JStr "flat"]} |}.
Definition new_base (key slug : string) : KN json :=
  create_base kn_sha kn_text kn_ids NoFault NoFault 1000 kn_admin kn_tenant {| bc_slug := slug; bc_name := "Docs" |} key.
Definition new_revision (key : string) (c : KnowledgeRevisionCreate) : KN json :=
  create_revision kn_sha kn_text kn_text kn_ids NoFault NoFault 1000 kn_admin kn_tenant 100 c key.
Definition run_build (r : uuid) : KB unit := build kn_sha NoFault 2000 (uuid_text kn_tenant) (uuid_text r).
Definition deploy_at (now : instant) (key : string) (r : uuid) (percentage : Z) : KN json :=
  deploy_revision kn_sha kn_text kn_ids NoFault NoFault now kn_admin kn_tenant 100 PRODUCTION r percentage key.

Definition based : KnowledgeDb := (new_base "k0" "docs" kn_empty).2.
Definition submitted : KnowledgeDb := (new_revision "k1" (handbook ["anna"] "green tea") based).2.
Definition built : KnowledgeDb := (run_build 101 submitted).2.
Definition deployed : KnowledgeDb := (deploy_at 3000 "k2" 101 100 built).2.

Lemma kn_run_reachable s s' : kn_reachable s → kn_step s s' → kn_reachable s'.
Proof. intros (s0 & H0 & Hs) Hstep. exists s0. split; [done|]. by eapply rtc_r. Qed.
Lemma revision_submitted_reachable : kn_reachable submitted.
Proof.
  assert (kn_reachable kn_empty) as H0 by (exists kn_empty; split; [done|constructor]).
  eapply kn_run_reachable; [eapply kn_run_reachable; [exact H0|]|]; [apply step_create_base|apply step_create_revision].
Qed.
Lemma built_reachable : kn_reachable built.
Proof.
  exact (kn_run_reachable submitted _ revision_submitted_reachable
    (step_build kn_sha kn_text kn_text kn_ids NoFault 2000 (uuid_text kn_tenant) (uuid_text 101) submitted)).
Qed.
Lemma built_deploys : kn_step built deployed.
Proof.
  exact (step_deploy kn_sha kn_text kn_text kn_ids NoFault NoFault 3000 kn_admin kn_tenant 100 PRODUCTION 101 100 "k2" built).
Qed.
Lemma deployed_reachable : kn_reachable deployed.
Proof. exact (kn_run_reachable built deployed built_reachable built_deploys). Qed.

Lemma builds_end_witness :
  kl_status <$> kdb_builds submitted !! (kn_tenant, 101 : uuid) = Some KB_BUILDING ∧
  kl_status <$> kdb_builds built !! (kn_tenant, 101 : uuid) = Some KB_READY.
Proof.
  assert (kl_status <$> kdb_builds submitted !! (kn_tenant, 101 : uuid) = Some KB_BUILDING) as Hb by (vm_compute; reflexivity).
  split; [exact Hb|]. pose proof (builds_end kn_sha kn_text kn_text kn_ids submitted 2000 (uuid_text kn_tenant) (uuid_text 101) kn_tenant 101
    revision_submitted_reachable ltac:(vm_compute; reflexivity) ltac:(vm_compute; reflexivity) Hb) as He.
  assert ((run_build 101 submitted).1 = Ok tt) as Hok by (vm_compute; reflexivity).
  unfold built. unfold run_build in *. destruct (build _ _ _ _ _ _) as [result s']. simpl in *. subst result.
  destruct He as [(_ & _ & Hs)|(Hr & _)]; [|discriminate Hr]. by rewrite Hs.
Defined.

Lemma ready_revisions_are_final_witness :
  ready kn_tenant 100 101 built = true ∧ kdb_builds deployed !! (kn_tenant, 101 : uuid) = kdb_builds built !! (kn_tenant, 101 : uuid).
Proof.
  assert (ready kn_tenant 100 101 built = true) as Hr by (vm_compute; reflexivity). split; [exact Hr|].
  destruct (ready_revisions_are_final kn_sha kn_text kn_text kn_ids built deployed kn_tenant 100 101 built_reachable Hr
    (rtc_once _ _ built_deploys)) as (v & _ & _ & _ & Hb & _). exact Hb.
Defined.

Definition search (subject query : string) : outcome KnowledgeError (list RetrievalResult) * KnowledgeDb :=
  retrieve kn_matches kn_rank NoFault (uuid_text kn_tenant) (uuid_text 100) (uuid_text 101) subject query 8 deployed.
Definition tea : RetrievalResult :=
  {| rs_document_id := 102; rs_source_ref := "handbook"; rs_content := characters "tea"; rs_classification := INTERNAL |}.
Lemma retrieval_respects_access_witness :
  (search "anna" "tea").1 = Ok [tea] ∧ (search "bert" "tea").1 = Ok [] ∧ (search "anna" "tea").2 = deployed.
Proof.
  split; [vm_compute; reflexivity|]. split; [vm_compute; reflexivity|].
  exact (proj1 (retrieval_respects_access kn_sha kn_text kn_text kn_ids kn_matches kn_rank deployed (uuid_text kn_tenant)
    (uuid_text 100) (uuid_text 101) "anna" "tea" 8 [tea] (search "anna" "tea").2 deployed_reachable ltac:(vm_compute; reflexivity))).
Defined.

Definition resolved (s : KnowledgeDb) : outcome KnowledgeError (option string) * KnowledgeDb :=
  resolve_revision kn_hash NoFault (uuid_text kn_tenant) (uuid_text 100) "PRODUCTION" "session" s.
Lemma deployed_revisions_are_ready_witness :
  (resolved deployed).1 = Ok (Some (uuid_text 101)) ∧ (resolved deployed).2 = deployed.
Proof.
  split; [vm_compute; reflexivity|].
  exact (proj1 (deployed_revisions_are_ready kn_sha kn_text kn_text kn_ids kn_hash deployed (uuid_text kn_tenant) (uuid_text 100)
    "PRODUCTION" "session" (uuid_text 101) (resolved deployed).2 deployed_reachable ltac:(vm_compute; reflexivity))).
Defined.

(** ** Runs that the contract does not foresee *)

(** A slug that is taken, and a subject named twice in an access list, are constraint
    violations that nothing handles. *)
Example repetitions_are_unhandled :
  (new_base "k9" "docs" deployed).1 = Raise IntegrityError ∧
  (new_revision "k9" (handbook ["anna"; "anna"] "green tea") deployed).1 = Raise IntegrityError.
Proof. split; vm_compute; reflexivity. Qed.

(** Two more revisions, ready to be deployed; their identifiers are 106 and 110. *)
Definition three_revisions : KnowledgeDb :=
  (run_build 110 (new_revision "k4" (handbook ["anna"] "black tea")
    (run_build 106 (new_revision "k3" (handbook ["anna"] "white tea") deployed).2).2).2).2.
(** A second trial while the first one runs: the sessions outside both get the revision of
    the first trial, and none keeps the one that was fully deployed. *)
Example second_trial_promotes_the_first :
  let s := (deploy_at 5000 "k6" 110 10 (deploy_at 4000 "k5" 106 10 three_revisions).2).2 in
  (resolved (deploy_at 4000 "k5" 106 10 three_revisions).2).1 = Ok (Some (uuid_text 101)) ∧
  (resolved s).1 = Ok (Some (uuid_text 106)).
Proof. split; vm_compute; reflexivity. Qed.
(** A deployment whose transaction began before that of the previous one, and waited for
    the lock, is accepted and never takes effect. *)
Example late_deployment_is_ignored :
  let s := (deploy_at 4999 "k6" 110 100 (deploy_at 5000 "k5" 106 100 three_revisions).2) in
  (match s.1 with Ok _ => True | Raise _ => False end) ∧ (resolved s.2).1 = Ok (Some (uuid_text 106)).
Proof. split; vm_compute; [exact I|reflexivity]. Qed.
