(* ===== verification/Artifacts.v ===== *)
(** * Artifacts (artifacts.py)

    Screening of attachments, the artifact service over the database store and the audit
    chain, signed access tokens, and the worker that deletes expired artifacts.  Each
    database transaction is one step; other requests run between any two steps.  The clock
    is read anew by every check, so each reading is an argument.  Bytes are a [string].
    The store that keeps artifacts in memory serves tests and local runs only. *)

From stdpp Require Import sorting.
From S2P Require Import Prelude PyNum Uuids ExecutionBus ToolRegistry AuditChain AdminAccess Interleave Projections ContentLifecycle ContentErasure RetentionSweep PyRegex Governance Pagination.
Open Scope string_scope.
Open Scope list_scope.
Open Scope Z_scope.

(** ** Errors: a refused access, a refused attachment, and what else may be raised *)
Inductive ArtifactFault :=
  | ArtifactAccessError (code : string)
  | AttachmentRejected (code : string)
  | ArtifactValueError
  | ArtifactAttributeError
  | ArtifactSql
  | ArtifactAudit (e : AdminError).

(** ** Screening *)
Definition MAX_ATTACHMENT_BYTES : Z := 8 * 1024 * 1024.
Definition ALLOWED_MEDIA_TYPES : list string :=
  ["application/json"; "application/pdf"; "image/jpeg"; "image/png"; "text/csv"; "text/markdown"; "text/plain"].
Definition EXECUTABLE_SUFFIXES : list string :=
  [".apk"; ".app"; ".bat"; ".cmd"; ".com"; ".dll"; ".dmg"; ".exe"; ".jar"; ".js"; ".msi"; ".ps1"; ".py"; ".sh"; ".vbs"].
Definition MALWARE_SIGNATURES : list string := ["EICAR-STANDARD-ANTIVIRUS-TEST-FILE"].
Definition bytes_text (l : list nat) : string := String.string_of_list_ascii (Ascii.ascii_of_nat <$> l).
Definition EXECUTABLE_MAGIC : list string :=
  ["MZ"; bytes_text [127; 69; 76; 70]%nat; "#!"; bytes_text [202; 254; 186; 190]%nat; bytes_text [0; 97; 115; 109]%nat;
   bytes_text [254; 237; 250; 206]%nat; bytes_text [206; 250; 237; 254]%nat; bytes_text [254; 237; 250; 207]%nat;
   bytes_text [207; 250; 237; 254]%nat].

Abbreviation chars_of := String.list_ascii_of_string.
Definition has_char (p : Ascii.ascii → bool) (s : string) : bool := existsb p (chars_of s).
(** [needle in haystack] *)
Fixpoint contains (needle haystack : string) : bool :=
  String.prefix needle haystack
  || match haystack with EmptyString => false | String _ rest => contains needle rest end.

(** [PurePath(filename).name == filename], for a filename that is not empty. *)
Definition is_plain_name (filename : string) : bool :=
  negb (has_char (is_char 47) filename) && negb (bool_decide (filename = ".")).
(** [PurePath.suffix] of a plain name: from the last dot, unless that is its first or its
    last character. *)
Fixpoint last_dot (l : text) (index : nat) (found : option nat) : option nat :=
  match l with
  | [] => found
  | c :: l' => last_dot l' (S index) (if is_char 46 c then Some index else found)
  end.
Definition suffix (name : string) : string :=
  match last_dot (chars_of name) 0 None with
  | Some i => if (0 <? i)%nat && (i <? String.length name - 1)%nat
              then String.string_of_list_ascii (drop i (chars_of name)) else ""
  | None => ""
  end.
(** [str.lower], where it can give a text in ASCII: capital letters, and the Kelvin sign. *)
Definition lower_char (c : string) : string :=
  match c with
  | String x EmptyString => if is_upper x then String (Ascii.ascii_of_nat (Ascii.nat_of_ascii x + 32)) EmptyString else c
  | _ => if bool_decide (c = bytes_text [226; 132; 170]%nat) then "k" else c
  end.
Definition lower (s : string) : string := foldr (λ c rest, lower_char c +:+ rest) "" (characters s).

(** [content.decode("utf-8", "replace")], in UTF-8: the continuation bytes that a first byte
    wants, and the range of the next one. *)
Definition REPLACEMENT : text := Ascii.ascii_of_nat <$> [239; 191; 189]%nat.
Definition lead_byte (c : Ascii.ascii) : option (nat * nat * nat) :=
  if in_range 0 127 c then Some (0, 0, 0)%nat
  else if in_range 194 223 c then Some (1, 128, 191)%nat
  else if is_char 224 c then Some (2, 160, 191)%nat
  else if is_char 237 c then Some (2, 128, 159)%nat
  else if in_range 225 239 c then Some (2, 128, 191)%nat
  else if is_char 240 c then Some (3, 144, 191)%nat
  else if in_range 241 243 c then Some (3, 128, 191)%nat
  else if is_char 244 c then Some (3, 128, 143)%nat
  else None.
Fixpoint decode_replace (l pending : text) (need lo hi : nat) : text :=
  match l with
  | [] => if bool_decide (pending = []) then [] else REPLACEMENT
  | c :: l' =>
      let fresh := match lead_byte c with
                   | Some (O, _, _) => c :: decode_replace l' [] 0 0 0
                   | Some (n, lo, hi) => decode_replace l' [c] n lo hi
                   | None => REPLACEMENT ++ decode_replace l' [] 0 0 0
                   end in
      match need with
      | O => fresh
      | S n => if in_range lo hi c
               then match n with
                    | O => pending ++ c :: decode_replace l' [] 0 0 0
                    | _ => decode_replace l' (pending ++ [c]) n 128 191
                    end
               else REPLACEMENT ++ fresh
      end
  end.
Definition decoded (content : string) : string :=
  String.string_of_list_ascii (decode_replace (chars_of content) [] 0 0 0).

Example decoded_examples :
  decoded "plain" = "plain" ∧ decoded (bytes_text [195; 164]%nat) = bytes_text [195; 164]%nat ∧
  decoded (bytes_text [97; 226; 130; 98]%nat) = "a" +:+ bytes_text [239; 191; 189]%nat +:+ "b" ∧
  decoded (bytes_text [237; 160; 128]%nat) = bytes_text [239; 191; 189; 239; 191; 189; 239; 191; 189]%nat ∧
  decoded (bytes_text [240; 159]%nat) = bytes_text [239; 191; 189]%nat.
Proof. split_and!; vm_compute; reflexivity. Qed.

(** [_validate_attachment] *)
Definition validate_attachment (filename media_type content : string) (declared : DataClassification)
    : outcome ArtifactFault DataClassification :=
  let scan := scan_messages [[("content", decoded content)]] in
  if bool_decide (filename = "") || negb (is_plain_name filename)
     || has_char (λ c, is_char 0 c || is_char 10 c || is_char 13 c || is_char 92 c) filename
  then Raise (AttachmentRejected "ATTACHMENT_FILENAME_INVALID")
  else if bool_decide (lower (suffix filename) ∈ EXECUTABLE_SUFFIXES)
  then Raise (AttachmentRejected "ATTACHMENT_EXECUTABLE_FORBIDDEN")
  else if existsb (λ magic, String.prefix magic content) EXECUTABLE_MAGIC
  then Raise (AttachmentRejected "ATTACHMENT_EXECUTABLE_FORBIDDEN")
  else if negb (bool_decide (media_type ∈ ALLOWED_MEDIA_TYPES))
  then Raise (AttachmentRejected "ATTACHMENT_MEDIA_TYPE_FORBIDDEN")
  else if MAX_ATTACHMENT_BYTES <? Z.of_nat (String.length content)
  then Raise (AttachmentRejected "ATTACHMENT_TOO_LARGE")
  else if existsb (λ signature, contains signature content) MALWARE_SIGNATURES
  then Raise (AttachmentRejected "ATTACHMENT_MALWARE_DETECTED")
  else if blocked scan then Raise (AttachmentRejected "ATTACHMENT_SECRET_BLOCKED")
  else Ok (highest_classification [Some declared; Some (sc_detected_classification scan)]).

(** ** Tables *)
Record Artifact := {
  af_artifact_id : string;
  af_tenant_id : string;
  af_subject_id : string;
  af_execution_id : string;
  af_filename : string;
  af_media_type : string;
  af_size_bytes : Z;
  af_sha256 : string;
  af_classification : DataClassification;
  af_created_at : instant;
  af_expires_at : instant;
}.
(** The fields of the pydantic model. *)
Definition artifact_ok (a : Artifact) : bool :=
  text_between 1 64 (af_artifact_id a) && text_between 1 64 (af_tenant_id a) && text_between 1 256 (af_subject_id a)
  && text_between 1 128 (af_execution_id a) && text_between 1 255 (af_filename a) && text_between 1 128 (af_media_type a)
  && (0 <=? af_size_bytes a) && (af_size_bytes a <=? MAX_ATTACHMENT_BYTES).
Record ArtifactAuditEvent := {
  ae_action : string;
  ae_tenant_id : string;
  ae_artifact_id : string;
  ae_subject_id : string;
  ae_occurred_at : instant;
  ae_outcome : string;
}.

(** Rows of [tenant.artifact] by tenant and identifier, the events that the service keeps
    in memory, and the tables of the content lifecycle. *)
Record ArtifactDb := {
  ar_lc : LifecycleDb;
  ar_artifacts : gmap (uuid * uuid) (Artifact * string);
  ar_events : list ArtifactAuditEvent;
  ar_next_id : nat;
}.
Abbreviation ARM := (ST ArtifactDb ArtifactFault).
Abbreviation AP A := (PM ArtifactDb ArtifactFault A).
Definition set_ar_lc (l : LifecycleDb) (s : ArtifactDb) : ArtifactDb :=
  {| ar_lc := l; ar_artifacts := ar_artifacts s; ar_events := ar_events s; ar_next_id := ar_next_id s |}.
Definition set_artifacts (m : gmap (uuid * uuid) (Artifact * string)) (s : ArtifactDb) : ArtifactDb :=
  {| ar_lc := ar_lc s; ar_artifacts := m; ar_events := ar_events s; ar_next_id := ar_next_id s |}.
Definition add_event (e : ArtifactAuditEvent) (s : ArtifactDb) : ArtifactDb :=
  {| ar_lc := ar_lc s; ar_artifacts := ar_artifacts s; ar_events := ar_events s ++ [e]; ar_next_id := ar_next_id s |}.
Definition next_artifact_id (s : ArtifactDb) : ArtifactDb :=
  {| ar_lc := ar_lc s; ar_artifacts := ar_artifacts s; ar_events := ar_events s; ar_next_id := S (ar_next_id s) |}.

(** The identifiers of a row are canonical when it is read. *)
Definition artifact_from_row (t id : uuid) (a : Artifact) : Artifact :=
  {| af_artifact_id := uuid_text id; af_tenant_id := uuid_text t; af_subject_id := af_subject_id a;
     af_execution_id := af_execution_id a; af_filename := af_filename a; af_media_type := af_media_type a;
     af_size_bytes := af_size_bytes a; af_sha256 := af_sha256 a; af_classification := af_classification a;
     af_created_at := af_created_at a; af_expires_at := af_expires_at a |}.

(** ** Tokens *)
Definition byte_values (s : string) : list Z := (λ c, Z.of_nat (Ascii.nat_of_ascii c)) <$> chars_of s.
Definition of_byte_values (l : list Z) : string :=
  String.string_of_list_ascii ((λ b, Ascii.ascii_of_nat (Z.to_nat b)) <$> l).
Definition b64url (value : list Z) : string := String.string_of_list_ascii (rstrip_pads (b64encode value)).
Definition b64url_decode (value : string) : option (list Z) :=
  let l := chars_of value in b64decode (l ++ repeat pad (Z.to_nat (- Z.of_nat (length l) mod 4))).
(** [token.split(".", 1)], when it gives two parts. *)
Fixpoint split_dot (s : string) : option (string * string) :=
  match s with
  | EmptyString => None
  | String c rest => if is_char 46 c then Some (EmptyString, rest)
                     else (λ p : string * string, (String c p.1, p.2)) <$> split_dot rest
  end.
(** [int(instant.timestamp())] *)
Definition whole_seconds (i : instant) : Z := Z.quot i 1000000.
(** [isinstance(value, int)], and the number. *)
Definition as_int (j : json) : option Z :=
  match j with JNum n => Some n | JBool b => Some (if b then 1 else 0) | _ => None end.

(** [value == text] *)
Definition is_text (value : option json) (s : string) : bool :=
  match value with Some (JStr x) => bool_decide (x = s) | _ => false end.

Definition DEFAULT_ARTIFACT_DAYS : Z := 30.
Definition DEFAULT_ACCESS_TTL : Z := 15 * 60 * 1000000.

Section Service.
(** [hmac.new(key, message, sha256).digest()], compact [json.dumps] with sorted keys,
    [json.loads] of bytes, and the canonical text of an audit record. *)
Context (sha256_hex : string → string) (hmac_sha256 : string → string → list Z) (dumps : json → string)
  (loads : string → option json) (audit_text : json → string) (uuid_at : nat → uuid) (access_key : string).

Record Claims := { cl_artifact_id : string; cl_expires_at : Z; cl_subject_id : string; cl_tenant_id : string }.
Definition claims_json (c : Claims) : json :=
  JObj (<["artifact_id" := JStr (cl_artifact_id c)]> (<["expires_at" := JNum (cl_expires_at c)]>
       (<["subject_id" := JStr (cl_subject_id c)]> {["tenant_id" := JStr (cl_tenant_id c)]}))).
(** [_sign] *)
Definition sign (c : Claims) : string :=
  let encoded := b64url (byte_values (dumps (claims_json c))) in
  encoded +:+ "." +:+ b64url (hmac_sha256 access_key encoded).
(** [_verify]; a comparison with a signature that is not in ASCII is a [TypeError], so it
    fails like one with another signature.  A document that is not an object has no [get]. *)
Definition verify (now : instant) (token : string) (artifact : Artifact) (subject_id : string)
    : outcome ArtifactFault unit :=
  let invalid := Raise (ArtifactAccessError "ARTIFACT_ACCESS_TOKEN_INVALID") in
  match split_dot token with
  | None => invalid
  | Some (encoded, supplied) =>
      match b64url_decode encoded ≫= λ l, loads (of_byte_values l) with
      | None => invalid
      | Some payload =>
          if negb (bool_decide (supplied = b64url (hmac_sha256 access_key encoded))) then invalid else
          match payload with
          | JObj m =>
              if is_text (m !! "artifact_id") (af_artifact_id artifact)
                 && is_text (m !! "subject_id") subject_id
                 && is_text (m !! "tenant_id") (af_tenant_id artifact)
                 && match m !! "expires_at" ≫= as_int with
                    | Some expires_at => (expires_at <=? whole_seconds (af_expires_at artifact))
                                         && (whole_seconds now <=? expires_at)
                    | None => false
                    end
              then Ok tt else invalid
          | _ => Raise ArtifactAttributeError
          end
      end
  end.

(** ** [DatabaseArtifactStore], [DatabaseArtifactAuditSink], [TenantArtifactRetention] *)
Definition known_uuid (s : string) : AP uuid :=
  match parse_uuid s with Some u => pm_ret u | None => pm_raise ArtifactValueError end.
Definition put_row (t id : uuid) (a : Artifact) (content : string) : ARM unit :=
  ok ← gets (λ s, bool_decide (t ∈ ad_tenants (lc_admin (ar_lc s))) && bool_decide (ar_artifacts s !! (t, id) = None)
                  && (af_created_at a <? af_expires_at a));
  _ ← ensure ok ArtifactSql;
  modify (λ s, set_artifacts (<[(t, id) := (a, content)]> (ar_artifacts s)) s).
Definition store_put (fault : txn_fault) (a : Artifact) (content : string) : AP unit :=
  t <-- known_uuid (af_tenant_id a);
  id <-- known_uuid (af_artifact_id a);
  atomically (transaction fault ArtifactSql (put_row t id a content)).
Definition store_get (fault : txn_fault) (tenant_id artifact_id : string) : AP (option (Artifact * string)) :=
  t <-- known_uuid tenant_id;
  id <-- known_uuid artifact_id;
  atomically (transaction fault ArtifactSql (gets (λ s,
    (λ ac : Artifact * string, (artifact_from_row t id ac.1, ac.2)) <$> ar_artifacts s !! (t, id)))).
Definition store_delete (fault : txn_fault) (tenant_id artifact_id : string) : AP unit :=
  t <-- known_uuid tenant_id;
  id <-- known_uuid artifact_id;
  atomically (transaction fault ArtifactSql (modify (λ s, set_artifacts (delete (t, id) (ar_artifacts s)) s))).
Definition expired_rows (t : uuid) (now : instant) (s : ArtifactDb) : list Artifact :=
  omap (λ ka : (uuid * uuid) * (Artifact * string),
    if bool_decide (ka.1.1 = t) && (af_expires_at ka.2.1 <=? now)
    then Some (artifact_from_row t ka.1.2 ka.2.1) else None) (map_to_list (ar_artifacts s)).
Definition list_expired (fault : txn_fault) (tenant_id : string) (now : instant) : AP (list Artifact) :=
  t <-- known_uuid tenant_id;
  atomically (transaction fault ArtifactSql (gets (expired_rows t now))).
Definition days_for (fault : txn_fault) (tenant_id : string) : AP Z :=
  t <-- known_uuid tenant_id;
  atomically (transaction fault ArtifactSql (gets (λ s,
    default DEFAULT_ARTIFACT_DAYS (rp_artifact_days ∘ pw_policy <$> lc_policies (ar_lc s) !! t)))).

(** An operation on the audit tables. *)
Definition ar_on_admin {A} (m : ADM A) : ARM A := λ s,
  match m (lc_admin (ar_lc s)) with
  | (Ok a, d) => (Ok a, set_ar_lc (set_lc_admin d (ar_lc s)) s)
  | (Raise e, d) => (Raise (ArtifactAudit e), set_ar_lc (set_lc_admin d (ar_lc s)) s)
  end.

(** ** [ArtifactService] *)

(** What the environment decides in a call: the faults of its transactions in their order,
    when it makes its audit event, and when that is recorded. *)
Record Faults := {
  fa_first : txn_fault; fa_second : txn_fault; fa_third : txn_fault; fa_fourth : txn_fault;
  fa_stamp : instant; fa_recorded : instant;
}.

(** [_audit]: the event is kept, then written to the chain. *)
Definition audit (fault : txn_fault) (f : Faults) (action : string) (a : Artifact) (subject_id decision : string) : AP unit :=
  _ <-- atomically (modify (add_event {| ae_action := action; ae_tenant_id := af_tenant_id a;
          ae_artifact_id := af_artifact_id a; ae_subject_id := subject_id; ae_occurred_at := fa_stamp f; ae_outcome := decision |}));
  t <-- known_uuid (af_tenant_id a);
  atomically (ar_on_admin (audited_alone sha256_hex audit_text uuid_at fault (fa_recorded f) None action decision (Some "artifact")
    (Some (af_artifact_id a)) (Some t) {["subject_id" := JStr subject_id]})).

Definition new_artifact (now expiry : instant) (id : uuid) (tenant_id subject_id execution_id filename media_type content : string)
    (classification : DataClassification) : Artifact :=
  {| af_artifact_id := uuid_text id; af_tenant_id := tenant_id; af_subject_id := subject_id; af_execution_id := execution_id;
     af_filename := filename; af_media_type := media_type; af_size_bytes := Z.of_nat (String.length content);
     af_sha256 := sha256_hex content; af_classification := classification; af_created_at := now; af_expires_at := expiry |}.
Definition create (f : Faults) (now : instant) (tenant_id subject_id execution_id filename media_type content : string)
    (declared : DataClassification) (expires_at : option instant) : AP Artifact :=
  match validate_attachment filename media_type content declared with
  | Raise e => pm_raise e
  | Ok classification =>
      policy_days <-- days_for (fa_first f) tenant_id;
      let expiry := match expires_at with
                    | Some e => e
                    | None => now + days (if policy_days =? 0 then DEFAULT_ARTIFACT_DAYS else policy_days)
                    end in
      if expiry <=? now then pm_raise (AttachmentRejected "ARTIFACT_EXPIRED") else
      n <-- atomically (n ← gets ar_next_id; _ ← modify next_artifact_id; mret n);
      let a := new_artifact now expiry (uuid_at n) tenant_id subject_id execution_id filename media_type content classification in
      if negb (artifact_ok a) then pm_raise ArtifactValueError else
      _ <-- store_put (fa_second f) a content;
      _ <-- pm_catch (audit (fa_third f) f "artifact.created" a subject_id "ALLOW")
              (λ e, _ <-- store_delete (fa_fourth f) tenant_id (af_artifact_id a); pm_raise e);
      pm_ret a
  end.

(** [_owned] *)
Definition owned (fault : txn_fault) (now : instant) (tenant_id artifact_id subject_id : string) : AP (Artifact * string) :=
  stored <-- store_get fault tenant_id artifact_id;
  match stored with
  | None => pm_raise (ArtifactAccessError "ARTIFACT_NOT_FOUND")
  | Some (a, content) =>
      if negb (bool_decide (af_tenant_id a = tenant_id)) then pm_raise (ArtifactAccessError "ARTIFACT_TENANT_FORBIDDEN")
      else if af_expires_at a <=? now then pm_raise (ArtifactAccessError "ARTIFACT_EXPIRED")
      else if negb (bool_decide (af_subject_id a = subject_id)) then pm_raise (ArtifactAccessError "ARTIFACT_SUBJECT_FORBIDDEN")
      else pm_ret (a, content)
  end.

Definition issue_access_token (f : Faults) (now later : instant) (tenant_id artifact_id subject_id : string) : AP string :=
  found <-- owned (fa_first f) now tenant_id artifact_id subject_id;
  let a := found.1 in
  let expiry := Z.min (af_expires_at a) (later + DEFAULT_ACCESS_TTL) in
  let token := sign {| cl_artifact_id := af_artifact_id a; cl_expires_at := whole_seconds expiry;
                       cl_subject_id := subject_id; cl_tenant_id := tenant_id |} in
  _ <-- audit (fa_second f) f "artifact.access_issued" a subject_id "ALLOW";
  pm_ret token.

Definition download (f : Faults) (now later : instant) (tenant_id artifact_id subject_id access_token : string) : AP string :=
  found <-- pm_catch
    (found <-- owned (fa_first f) now tenant_id artifact_id subject_id;
     match verify later access_token found.1 subject_id with Ok _ => pm_ret found | Raise e => pm_raise e end)
    (λ e, match e with
          | ArtifactAccessError _ =>
              stored <-- store_get (fa_second f) tenant_id artifact_id;
              match stored with
              | Some (a, _) => _ <-- audit (fa_third f) f "artifact.access_denied" a subject_id "DENY"; pm_raise e
              | None => pm_raise e
              end
          | _ => pm_raise e
          end);
  _ <-- audit (fa_fourth f) f "artifact.accessed" found.1 subject_id "ALLOW";
  pm_ret found.2.

(** Each round of a loop has its own, by the rounds that are left. *)
Fixpoint purge_each (f : nat → Faults) (tenant_id : string) (expired : list Artifact) : AP unit :=
  match expired with
  | [] => pm_ret tt
  | a :: rest =>
      _ <-- store_delete (fa_first (f (length rest))) tenant_id (af_artifact_id a);
      _ <-- audit (fa_second (f (length rest))) (f (length rest)) "artifact.expired" a (af_subject_id a) "ALLOW";
      purge_each f tenant_id rest
  end.
Definition purge (fault : txn_fault) (f : nat → Faults) (now : instant) (tenant_id : string) : AP Z :=
  expired <-- list_expired fault tenant_id now;
  _ <-- purge_each f tenant_id expired;
  pm_ret (Z.of_nat (length expired)).

(** ** [ArtifactLifecycleWorker.run_once] *)
Fixpoint purge_tenants (f : nat → Faults) (g : nat → nat → Faults) (tenants : list uuid) (deleted : Z) : AP Z :=
  match tenants with
  | [] => pm_ret deleted
  | t :: rest =>
      on_hold <-- atomically (transaction (fa_first (f (length rest))) ArtifactSql (gets (λ s, held t (ar_lc s))));
      if (on_hold : bool) then purge_tenants f g rest deleted
      else n <-- purge (fa_second (f (length rest))) (g (length rest)) (fa_stamp (f (length rest))) (uuid_text t);
           purge_tenants f g rest (deleted + n)
  end.
Definition lifecycle_run_once (fault : txn_fault) (f : nat → Faults) (g : nat → nat → Faults) : AP Z :=
  tenants <-- atomically (transaction fault ArtifactSql (gets (λ s, elements (ad_tenants (lc_admin (ar_lc s))))));
  purge_tenants f g tenants 0.
End Service.
