(* ===== verification/ArtifactTheorems.v ===== *)
(** * Theorems on artifacts

    Tokens open exactly the artifact they were issued for; a download needs the artifact,
    its owner and such a token at the time it looks; whatever is stored was screened, in
    every interleaving of requests with crashes. *)

From stdpp Require Import sorting.
From S2P Require Import Prelude PyNum Uuids ExecutionBus SampleCodec ToolRegistry AuditChain AdminAccess Interleave Projections ContentLifecycle ContentErasure RetentionSweep PyRegex Governance GovernanceTheorems Pagination Artifacts.
Open Scope string_scope.
Open Scope list_scope.
Open Scope Z_scope.
#[local] Set Default Proof Using "Type*".

(** ** Base64 without padding *)
(** A list of bytes is groups of three and a rest. *)
Lemma groups_of_three (l : list Z) : ∃ l1 l2, l = l1 ++ l2 ∧ (length l1 mod 3 = 0)%nat ∧ (length l2 < 3)%nat.
Proof.
  induction l as [|a|a b|a b c l (l1 & l2 & -> & H1 & H2)] using list_ind3.
  - exists [], []. simpl. split_and!; [done|done|lia].
  - exists [], [a]. simpl. split_and!; [done|done|lia].
  - exists [], [a; b]. simpl. split_and!; [done|done|lia].
  - exists (a :: b :: c :: l1), l2. split_and!; [done| |done].
    replace (length (a :: b :: c :: l1)) with (length l1 + 1 * 3)%nat by (simpl; lia). by rewrite Nat.Div0.mod_add.
Qed.
Lemma b64encode_no_pad l : Forall is_byte l → (length l mod 3 = 0)%nat →
  Forall (λ c, is_char 61 c = false) (b64encode l).
Proof.
  induction l as [|a|a b|a b c l IH] using list_ind3; intros Hl Hn; try done.
  rewrite !Forall_cons in Hl. destruct Hl as (Ha & Hb & Hc & Hl). cbn [b64encode].
  repeat (constructor; [apply sextet_char_ok; Z.to_euclidean_division_equations; lia|]). apply IH; [done|by eapply mod3_step].
Qed.
Lemma rstrip_pads_none l : Forall (λ c, is_char 61 c = false) l → rstrip_pads l = l.
Proof.
  destruct l as [|c l _] using rev_ind; [done|]. rewrite Forall_app, Forall_cons. intros (_ & Hc & _). by apply rstrip_pads_other.
Qed.

(** The encoded text of the groups and the rest, and the padding that decoding adds again. *)
Lemma b64url_parts l : Forall is_byte l → ∃ t n, rstrip_pads (b64encode l) = t ∧ b64encode l = t ++ repeat pad n ∧
  Z.to_nat (- Z.of_nat (length t) mod 4) = n ∧ Forall (λ c, is_char 46 c = false) t.
Proof.
  intros Hl. destruct (groups_of_three l) as (l1 & l2 & -> & H1 & H2). apply Forall_app in Hl as [Hl1 Hl2].
  assert (∀ s, 0 ≤ s < 64 → is_char 46 (sextet_char s) = false) as Hdot.
  { intros s Hs. destruct (sextet_char_ok s Hs) as (Hc & _). destruct (is_char 46 (sextet_char s)) eqn:He; [|done].
    unfold is_char in He. apply Nat.eqb_eq in He. unfold char_sextet, is_upper, is_lower, is_digit, in_range, is_char in Hc.
    rewrite He in Hc. done. }
  assert (Forall (λ c, is_char 46 c = false) (b64encode l1)) as Hd1.
  { clear -Hl1 H1 Hdot. induction l1 as [|a|a b|a b c l IH] using list_ind3; try done.
    rewrite !Forall_cons in Hl1. destruct Hl1 as (Ha & Hb & Hc & Hl). cbn [b64encode].
    repeat (constructor; [apply Hdot; Z.to_euclidean_division_equations; lia|]). apply IH; [done|by eapply mod3_step]. }
  rewrite b64encode_app by done. pose proof (b64encode_length l1 H1) as Hn. pose proof (b64encode_no_pad l1 Hl1 H1) as Hp1.
  assert (∃ q, length (b64encode l1) = 4 * q)%nat as [q Hq].
  { exists (length l1 / 3)%nat. pose proof (Nat.div_mod_eq (length l1) 3). lia. }
  destruct l2 as [|a [|b [|]]]; [| | |simpl in H2; lia].
  - rewrite !app_nil_r. exists (b64encode l1), 0%nat. rewrite app_nil_r. split_and!; [by apply rstrip_pads_none|done| |done].
    rewrite Hq. replace (- Z.of_nat (4 * q)) with ((- Z.of_nat q) * 4) by lia. by rewrite Z_mod_mult.
  - apply Forall_cons in Hl2 as [Ha _]. cbn [b64encode]. set (s1 := sextet_char (a / 4)). set (s2 := sextet_char (a mod 4 * 16)).
    assert (is_char 61 s2 = false) as Hs2 by (apply sextet_char_ok; Z.to_euclidean_division_equations; lia).
    exists ((b64encode l1 ++ [s1]) ++ [s2]), 2%nat. split_and!.
    + change [s1; s2; pad; pad] with ([s1] ++ [s2] ++ [pad] ++ [pad]). rewrite !app_assoc. by rewrite !rstrip_pads_pad, rstrip_pads_other.
    + by rewrite <-!app_assoc.
    + rewrite !length_app, Hq. simpl. replace (- Z.of_nat _) with (2 + (- Z.of_nat q - 1) * 4) by lia. by rewrite Z_mod_plus_full.
    + rewrite !Forall_app, !Forall_singleton. split_and!; [done|apply Hdot; Z.to_euclidean_division_equations; lia..].
  - apply Forall_cons in Hl2 as [Ha Hb]. apply Forall_cons in Hb as [Hb _]. cbn [b64encode].
    set (s1 := sextet_char (a / 4)). set (s2 := sextet_char (a mod 4 * 16 + b / 16)). set (s3 := sextet_char (b mod 16 * 4)).
    assert (is_char 61 s3 = false) as Hs3 by (apply sextet_char_ok; Z.to_euclidean_division_equations; lia).
    exists ((b64encode l1 ++ [s1] ++ [s2]) ++ [s3]), 1%nat. split_and!.
    + change [s1; s2; s3; pad] with (([s1] ++ [s2]) ++ [s3] ++ [pad]). rewrite !app_assoc. rewrite rstrip_pads_pad, rstrip_pads_other by done.
      by rewrite <-!app_assoc.
    + by rewrite <-!app_assoc.
    + rewrite !length_app, Hq. simpl. replace (- Z.of_nat _) with (1 + (- Z.of_nat q - 1) * 4) by lia. by rewrite Z_mod_plus_full.
    + rewrite !Forall_app, !Forall_singleton. split_and!; [done|apply Hdot; Z.to_euclidean_division_equations; lia..].
Qed.

Lemma a2b_encoded l : Forall is_byte l → a2b_base64 (b64encode l) 0 0 0 = Some l.
Proof.
  intros Hl. destruct (groups_of_three l) as (l1 & l2 & -> & H1 & H2). apply Forall_app in Hl as [Hl1 Hl2].
  rewrite b64encode_app, decode_encode_app by done. destruct l2 as [|a [|b [|]]]; [done| | |simpl in H2; lia].
  - apply Forall_cons in Hl2 as [Ha _]. cbn [b64encode]. rewrite !a2b_sextet by (Z.to_euclidean_division_equations; lia). simpl.
    by replace (a / 4 * 4 + a mod 4 * 16 / 16) with a by (Z.to_euclidean_division_equations; lia).
  - apply Forall_cons in Hl2 as [Ha Hb]. apply Forall_cons in Hb as [Hb _]. cbn [b64encode].
    rewrite !a2b_sextet by (Z.to_euclidean_division_equations; lia). simpl.
    replace (a / 4 * 4 + (a mod 4 * 16 + b / 16) / 16) with a by (Z.to_euclidean_division_equations; lia).
    by replace ((a mod 4 * 16 + b / 16) mod 16 * 16 + b mod 16 * 4 / 4) with b by (Z.to_euclidean_division_equations; lia).
Qed.
Lemma b64url_roundtrip l : Forall is_byte l → b64url_decode (b64url l) = Some l.
Proof.
  intros Hl. unfold b64url_decode, b64url. rewrite String.list_ascii_of_string_of_list_ascii.
  destruct (b64url_parts l Hl) as (t & n & -> & Henc & -> & _). rewrite <-Henc. unfold b64decode.
  rewrite b64encode_ascii by done. by apply a2b_encoded.
Qed.
Lemma byte_values_bytes s : Forall is_byte (byte_values s).
Proof.
  unfold byte_values. apply Forall_fmap, Forall_forall. intros c _. simpl. pose proof (Ascii.nat_ascii_bounded c). lia.
Qed.
Lemma of_byte_values_inv s : of_byte_values (byte_values s) = s.
Proof.
  unfold of_byte_values, byte_values. rewrite <-list_fmap_compose.
  transitivity (String.string_of_list_ascii (chars_of s)); [|apply String.string_of_list_ascii_of_string]. f_equal.
  transitivity (id <$> chars_of s); [|apply list_fmap_id]. apply list_fmap_ext. intros i c _. simpl.
  by rewrite Nat2Z.id, Ascii.ascii_nat_embedding.
Qed.
Lemma split_dot_spec token encoded supplied : split_dot token = Some (encoded, supplied) → token = encoded +:+ "." +:+ supplied.
Proof.
  revert encoded. induction token as [|c token IH]; intros encoded; simpl; [done|]. destruct (is_char 46 c) eqn:Hc.
  - intros [= <- <-]. unfold is_char in Hc. apply Nat.eqb_eq in Hc. simpl. f_equal.
    by rewrite <-(Ascii.ascii_nat_embedding c), Hc.
  - destruct (split_dot token) as [[e x]|]; simpl; [|done]. intros [= <- <-]. by rewrite (IH e eq_refl).
Qed.
Lemma split_dot_first l rest : Forall (λ c, is_char 46 c = false) l →
  split_dot (String.string_of_list_ascii l +:+ "." +:+ rest) = Some (String.string_of_list_ascii l, rest).
Proof. induction 1 as [|c l Hc _ IH]; simpl; [done|]. rewrite Hc. simpl in IH. by rewrite IH. Qed.

(** ** Runs among others

    [runs p seen r]: the program ends with [r] when its steps find the states [seen], one
    each, whatever happened in between. *)
Inductive runs {S R} : proc S R → list S → R → Prop :=
  | runs_done r : runs (Done r) [] r
  | runs_step next effect s seen r : runs (next s) seen r → runs (Step next effect) (s :: seen) r.

Lemma runs_bind {S R T} (p : proc S R) (k : R → proc S T) seen r : runs (proc_bind p k) seen r →
  ∃ seen1 seen2 x, seen = seen1 ++ seen2 ∧ runs p seen1 x ∧ runs (k x) seen2 r.
Proof.
  revert seen. induction p as [x|next IH effect]; intros seen Hr; simpl in Hr.
  - exists [], seen, x. split_and!; [done|constructor|done].
  - inversion Hr as [|? ? s seen' ? Hr' Heq]; subst. destruct (IH s seen' Hr') as (s1 & s2 & x & -> & Hp & Hk).
    exists (s :: s1), s2, x. split_and!; [done|by constructor|done].
Qed.
Lemma runs_pm_bind {S E A B} (p : PM S E A) (k : A → PM S E B) seen b : runs (pm_bind p k) seen (Ok b) →
  ∃ seen1 seen2 a, seen = seen1 ++ seen2 ∧ runs p seen1 (Ok a) ∧ runs (k a) seen2 (Ok b).
Proof.
  intros (s1 & s2 & [a|e] & -> & Hp & Hk)%runs_bind; [by exists s1, s2, a|]. inversion Hk.
Qed.
Lemma runs_ret {S E A} (a b : A) (seen : list S) : runs (pm_ret (E:=E) a) seen (Ok b) → b = a ∧ seen = [].
Proof. inversion 1. done. Qed.
Lemma runs_raise {S E A} (e : E) (b : A) (seen : list S) : ¬ runs (pm_raise e) seen (Ok b).
Proof. inversion 1. Qed.
Lemma runs_atomically {S E A} (m : ST S E A) seen r : runs (atomically m) seen r → ∃ s, seen = [s] ∧ (m s).1 = r.
Proof. intros Hr. inversion Hr as [|? ? s seen' ? Hr']; subst. inversion Hr'; subst. by exists s. Qed.

Lemma is_text_spec value s : is_text value s = true ↔ value = Some (JStr s).
Proof. unfold is_text. destruct value as [[]|]; rewrite ?bool_decide_eq_true; naive_solver. Qed.

Section Service.
Context (sha256_hex : string → string) (hmac_sha256 : string → string → list Z) (dumps : json → string)
  (loads : string → option json) (audit_text : json → string) (uuid_at : nat → uuid) (access_key : string).
Abbreviation mac := (hmac_sha256 access_key).

(** ** Tokens *)

(** What a token says: its first part is signed, and is a document with these fields. *)
Definition granted (now : instant) (token : string) (a : Artifact) (subject : string) : Prop :=
  ∃ encoded l m expires, token = encoded +:+ "." +:+ b64url (mac encoded) ∧ b64url_decode encoded = Some l ∧
    loads (of_byte_values l) = Some (JObj m) ∧ m !! "artifact_id" = Some (JStr (af_artifact_id a)) ∧
    m !! "subject_id" = Some (JStr subject) ∧ m !! "tenant_id" = Some (JStr (af_tenant_id a)) ∧
    m !! "expires_at" ≫= as_int = Some expires ∧ whole_seconds now ≤ expires ≤ whole_seconds (af_expires_at a).

Lemma verify_granted now token a subject :
  verify hmac_sha256 loads access_key now token a subject = Ok tt → granted now token a subject.
Proof.
  unfold verify. destruct (split_dot token) as [[encoded supplied]|] eqn:Ht; [|done]. apply split_dot_spec in Ht as ->.
  destruct (b64url_decode encoded) as [l|] eqn:Hl; [|done]. simpl. destruct (loads (of_byte_values l)) as [payload|] eqn:Hp; [|done].
  case_bool_decide as Hs; [|done]. subst supplied. simpl. destruct payload as [| | | | | |m]; [done..|].
  destruct (_ && _) eqn:Hc; [|done]. intros _. rewrite !andb_true_iff, !is_text_spec in Hc. destruct Hc as [[[Ha Hsub] Htn] He].
  destruct (m !! "expires_at" ≫= as_int) as [expires|] eqn:Hx; [|done]. rewrite andb_true_iff, !Z.leb_le in He.
  exists encoded, l, m, expires. split_and!; try done; lia.
Qed.

(** ** Downloads *)
Lemma known_uuid_runs text seen u : runs (known_uuid text) seen (Ok u) → parse_uuid text = Some u ∧ seen = [].
Proof. unfold known_uuid. destruct (parse_uuid text); [|by intros ?%runs_raise]. by intros [-> ->]%runs_ret. Qed.
Lemma store_get_runs fault tenant_id artifact_id seen o : runs (store_get fault tenant_id artifact_id) seen (Ok o) →
  ∃ t id s, parse_uuid tenant_id = Some t ∧ parse_uuid artifact_id = Some id ∧ seen = [s] ∧
    o = (λ ac : Artifact * string, (artifact_from_row t id ac.1, ac.2)) <$> ar_artifacts s !! (t, id).
Proof.
  unfold store_get. intros (s1 & s2 & t & -> & [Ht ->]%known_uuid_runs & Hr)%runs_pm_bind.
  apply runs_pm_bind in Hr as (s3 & s4 & id & -> & [Hid ->]%known_uuid_runs & Hr). apply runs_atomically in Hr as (s & -> & Hs).
  exists t, id, s. split_and!; [done..|]. unfold transaction, gets in Hs. destruct fault; simpl in Hs; by simplify_eq.
Qed.
Lemma owned_runs fault now tenant_id artifact_id subject seen a content :
  runs (owned fault now tenant_id artifact_id subject) seen (Ok (a, content)) →
  ∃ t id s row, parse_uuid tenant_id = Some t ∧ parse_uuid artifact_id = Some id ∧ seen = [s] ∧
    ar_artifacts s !! (t, id) = Some (row, content) ∧ a = artifact_from_row t id row ∧ tenant_id = uuid_text t ∧
    now < af_expires_at row ∧ af_subject_id row = subject.
Proof.
  unfold owned. intros (s1 & s2 & o & -> & Hget & Hr)%runs_pm_bind. apply store_get_runs in Hget as (t & id & s & Ht & Hid & -> & ->).
  destruct (ar_artifacts s !! (t, id)) as [[row c]|] eqn:Hrow; simpl in Hr; [|by apply runs_raise in Hr].
  case_bool_decide as Hten; simpl in Hr; [|by apply runs_raise in Hr]. destruct (Z.leb_spec (af_expires_at row) now); [by apply runs_raise in Hr|].
  case_bool_decide as Hsub; simpl in Hr; [|by apply runs_raise in Hr]. apply runs_ret in Hr as [[= -> ->] ->].
  exists t, id, s, row. split_and!; [done..|]. exact Hsub.
Qed.

(** C17: A download needs a grant.  Whatever other requests do in between, a download that
    returns content found this content under the tenant and the identifier when it looked,
    not expired and owned by the subject; its token carries the service's signature on a
    document that names this artifact, subject and tenant and is in time; and the access
    was written to the audit chain before the content was returned. *)
Theorem downloads_need_a_grant f now later tenant_id artifact_id subject token seen content :
  runs (download sha256_hex hmac_sha256 loads audit_text uuid_at access_key f now later tenant_id artifact_id subject token)
    seen (Ok content) →
  ∃ t id s row, s ∈ seen ∧ tenant_id = uuid_text t ∧ parse_uuid tenant_id = Some t ∧ parse_uuid artifact_id = Some id ∧
    ar_artifacts s !! (t, id) = Some (row, content) ∧ af_subject_id row = subject ∧ now < af_expires_at row ∧
    granted later token (artifact_from_row t id row) subject ∧
    ∃ s' t', s' ∈ seen ∧ (ar_on_admin (audited_alone sha256_hex audit_text uuid_at (fa_fourth f) (fa_recorded f) None "artifact.accessed" "ALLOW"
      (Some "artifact") (Some (uuid_text id)) (Some t') {["subject_id" := JStr subject]}) s').1 = Ok tt.
Proof.
  unfold download. intros (s1 & s2 & found & -> & Hfound & Hr)%runs_pm_bind.
  apply runs_pm_bind in Hr as (s3 & s4 & [] & -> & Haudit & [-> ->]%runs_ret).
  assert (runs (owned (fa_first f) now tenant_id artifact_id subject) s1 (Ok found) ∧
    verify hmac_sha256 loads access_key later token found.1 subject = Ok tt) as [Howned Hver].
  { unfold pm_catch in Hfound. apply runs_bind in Hfound as (u1 & u2 & [x|e] & -> & Hp & Hk).
    - inversion Hk; subst. rewrite app_nil_r. apply runs_pm_bind in Hp as (u3 & u4 & y & -> & Ho & Hv).
      destruct (verify _ _ _ _ _ _ _) as [[]|e] eqn:He; [|by apply runs_raise in Hv]. apply runs_ret in Hv as [-> ->].
      by rewrite app_nil_r.
    - exfalso. destruct e; try by apply runs_raise in Hk. apply runs_pm_bind in Hk as (u3 & u4 & stored & -> & _ & Hk).
      destruct stored as [[a c]|]; [|by apply runs_raise in Hk]. apply runs_pm_bind in Hk as (? & ? & ? & _ & _ & Hk). by apply runs_raise in Hk. }
  destruct found as [a c]. simpl in *. apply owned_runs in Howned as (t & id & s & row & Ht & Hid & -> & Hrow & -> & Hten & Hexp & Hsub).
  exists t, id, s, row. split_and!; try done; [apply elem_of_app; left; by left|by apply verify_granted|].
  unfold audit in Haudit. apply runs_pm_bind in Haudit as (u1 & u2 & [] & -> & _ & Haudit).
  apply runs_pm_bind in Haudit as (u3 & u4 & t' & -> & [_ ->]%known_uuid_runs & Haudit).
  apply runs_atomically in Haudit as (s' & -> & Haudit). exists s', t'. split; [|exact Haudit]. set_solver.
Qed.

Lemma owned_run now tenant_id artifact_id subject s t id row content : parse_uuid tenant_id = Some t →
  parse_uuid artifact_id = Some id → ar_artifacts s !! (t, id) = Some (row, content) → tenant_id = uuid_text t →
  now < af_expires_at row → af_subject_id row = subject →
  run_proc (owned NoFault now tenant_id artifact_id subject) s = (Ok (artifact_from_row t id row, content), s).
Proof.
  intros Ht Hid Hrow Hten Hexp Hsub. unfold owned, store_get, known_uuid, pm_bind, pm_ret, atomically. rewrite Ht, Hid.
  cbn [proc_bind run_proc]. unfold transaction, gets. rewrite Hrow. cbn [fmap option_fmap option_map fst snd proc_bind run_proc].
  rewrite bool_decide_eq_true_2 by by rewrite Hten. cbn [negb artifact_from_row af_expires_at af_subject_id].
  destruct (Z.leb_spec (af_expires_at row) now); [lia|]. rewrite bool_decide_eq_true_2 by done. done.
Qed.
Lemma audit_run fault f action a subject decision s : is_Some (parse_uuid (af_tenant_id a)) →
  let r := run_proc (audit sha256_hex audit_text uuid_at fault f action a subject decision) s in
  ar_artifacts r.2 = ar_artifacts s ∧ (r.1 = Ok tt ∨ ∃ e, r.1 = Raise (ArtifactAudit e)).
Proof.
  intros [t Ht]. unfold audit, known_uuid. cbv zeta. rewrite run_atomically. unfold modify. rewrite run_pm_bind, Ht. simpl.
  unfold ar_on_admin. destruct (audited_alone _ _ _ _ _ _ _ _ _ _ _ _ _) as [[[]|e] d]; simpl; eauto.
Qed.

(** ** Grants

    JSON texts are read back as they were written. *)
Section Codec.
Context (loads_dumps : ∀ c, loads (dumps (claims_json c)) = Some (claims_json c)).

Lemma verify_sign now c a subject :
  verify hmac_sha256 loads access_key now (sign hmac_sha256 dumps access_key c) a subject =
  if bool_decide (cl_artifact_id c = af_artifact_id a ∧ cl_subject_id c = subject ∧ cl_tenant_id c = af_tenant_id a ∧
                  whole_seconds now ≤ cl_expires_at c ≤ whole_seconds (af_expires_at a))
  then Ok tt else Raise (ArtifactAccessError "ARTIFACT_ACCESS_TOKEN_INVALID").
Proof.
  clear sha256_hex audit_text uuid_at. unfold verify, sign. set (bytes := byte_values (dumps (claims_json c))).
  assert (Forall is_byte bytes) as Hb by apply byte_values_bytes. destruct (b64url_parts bytes Hb) as (t & _ & Ht & _ & _ & Hd).
  assert (b64url bytes = String.string_of_list_ascii t) as Hu by (unfold b64url; by rewrite Ht).
  rewrite Hu at 1. rewrite split_dot_first by done. rewrite <-Hu, b64url_roundtrip by done. simpl.
  unfold bytes. rewrite of_byte_values_inv, loads_dumps. unfold claims_json. fold bytes. rewrite bool_decide_eq_true_2 by done. simpl.
  set (m := <["artifact_id" := JStr (cl_artifact_id c)]> _).
  assert (m !! "artifact_id" = Some (JStr (cl_artifact_id c))) as -> by done.
  assert (m !! "subject_id" = Some (JStr (cl_subject_id c))) as -> by done.
  assert (m !! "tenant_id" = Some (JStr (cl_tenant_id c))) as -> by done.
  assert (m !! "expires_at" = Some (JNum (cl_expires_at c))) as -> by done. simpl.
  repeat case_bool_decide; simpl; try done; try (exfalso; tauto).
  all: destruct (Z.leb_spec (cl_expires_at c) (whole_seconds (af_expires_at a))), (Z.leb_spec (whole_seconds now) (cl_expires_at c));
    simpl; try done; exfalso; naive_solver lia.
Qed.

(** Grants are exact.  A token that the service signed is accepted for an artifact and a
    subject exactly when it was issued for this artifact, this subject and this tenant, its
    time has not passed, and it does not outlive the artifact. *)
Theorem grants_are_exact now c a subject :
  verify hmac_sha256 loads access_key now (sign hmac_sha256 dumps access_key c) a subject = Ok tt ↔
  cl_artifact_id c = af_artifact_id a ∧ cl_subject_id c = subject ∧ cl_tenant_id c = af_tenant_id a ∧
  whole_seconds now ≤ cl_expires_at c ≤ whole_seconds (af_expires_at a).
Proof. rewrite verify_sign. by case_bool_decide. Qed.

(** C20: Issued grants open their artifact.  A token that was issued opens the artifact for
    its subject for fifteen minutes, as long as the artifact is there and has not expired:
    the download returns the stored content, unless the audit chain refuses the access. *)
Theorem issued_grants_open_their_artifact f now later tenant_id artifact_id subject s token s1 t id row content :
  run_proc (issue_access_token sha256_hex hmac_sha256 dumps audit_text uuid_at access_key f now later tenant_id artifact_id subject) s
    = (Ok token, s1) → 0 ≤ t < 2 ^ 128 →
  parse_uuid tenant_id = Some t → parse_uuid artifact_id = Some id → ar_artifacts s !! (t, id) = Some (row, content) →
  ∀ s2 f' now' later', fa_first f' = NoFault → ar_artifacts s2 !! (t, id) = Some (row, content) → now' < af_expires_at row →
    later' ≤ later + DEFAULT_ACCESS_TTL → later' ≤ af_expires_at row →
    let r := (run_proc (download sha256_hex hmac_sha256 loads audit_text uuid_at access_key f' now' later' tenant_id
                artifact_id subject token) s2).1 in
    r = Ok content ∨ ∃ e, r = Raise (ArtifactAudit e).
Proof.
  intros Hissue Hrange Ht Hid Hrow s2 f' now' later' Hf Hrow2 Hexp Httl Hlate. unfold issue_access_token in Hissue. rewrite run_pm_bind in Hissue.
  destruct (run_proc (owned _ _ _ _ _) s) as [[[a c]|e] s3] eqn:Ho; [|done].
  assert (tenant_id = uuid_text t ∧ af_subject_id row = subject ∧ a = artifact_from_row t id row) as (Hten & Hsub & Ha).
  { clear Hissue. unfold owned, store_get, known_uuid, pm_bind, pm_ret in Ho. unfold atomically in Ho. rewrite Ht, Hid in Ho.
    cbn [proc_bind run_proc] in Ho. unfold transaction, gets in Ho. rewrite Hrow in Ho.
    cbn [fmap option_fmap option_map fst snd proc_bind run_proc artifact_from_row af_expires_at af_subject_id] in Ho.
    destruct (fa_first f); cbn [fst snd proc_bind run_proc] in Ho; [|done..].
    case_bool_decide as Hten; cbn [negb] in Ho; [|done]. cbn [artifact_from_row af_tenant_id] in Hten.
    destruct (_ <=? now); [done|]. case_bool_decide; cbn [negb run_proc proc_bind] in Ho; [|done].
    injection Ho as <- _ _. done. }
  cbv beta iota zeta in Hissue. cbn [fst snd] in Hissue. rewrite run_pm_bind in Hissue.
  assert (token = sign hmac_sha256 dumps access_key {| cl_artifact_id := uuid_text id;
    cl_expires_at := whole_seconds (Z.min (af_expires_at row) (later + DEFAULT_ACCESS_TTL));
    cl_subject_id := subject; cl_tenant_id := tenant_id |}) as ->.
  { subst a. destruct (run_proc (audit _ _ _ _ _ _ _ _ _) s3) as [[[]|e] s4]; [|done]. simpl in Hissue. by simplify_eq. }
  intros r. assert (r = match run_proc (audit sha256_hex audit_text uuid_at (fa_fourth f') f' "artifact.accessed"
      (artifact_from_row t id row) subject "ALLOW") s2 with (Ok _, _) => Ok content | (Raise e, _) => Raise e end) as ->.
  { subst r. unfold download. rewrite run_pm_bind. unfold pm_catch. rewrite run_proc_bind, run_pm_bind, Hf.
    rewrite (owned_run now' tenant_id artifact_id subject s2 t id row content) by done. cbv beta iota. rewrite verify_sign.
    rewrite bool_decide_eq_true_2.
    2: { split_and!; [done|done|done| |]; cbn [fst cl_expires_at artifact_from_row af_expires_at]; apply Z.quot_le_mono; lia. }
    cbv beta iota. unfold pm_ret at 1. cbn [run_proc proc_bind fst snd]. unfold pm_ret at 1. cbn [run_proc]. rewrite run_pm_bind.
    unfold pm_ret. cbn [run_proc fst snd]. by destruct (run_proc (audit _ _ _ _ _ _ _ _ _) s2) as [[[]|e] s4]. }
  destruct (audit_run (fa_fourth f') f' "artifact.accessed" (artifact_from_row t id row) subject "ALLOW" s2) as [_ Hcase].
  { cbn [artifact_from_row af_tenant_id]. rewrite parse_uuid_text by done. by eexists. }
  cbv zeta in Hcase. destruct (run_proc (audit _ _ _ _ _ _ _ _ _) s2) as [[[]|e] s4]; cbn [fst] in Hcase; [by left|]. right.
  destruct Hcase as [?|[e' [= ->]]]; [done|]. by exists e'.
Qed.
End Codec.

(** ** What is stored was screened *)

(** The promises of the screening, of a file that is stored as [a]. *)
Definition screened (a : Artifact) (content : string) : Prop :=
  af_filename a ≠ "" ∧ is_plain_name (af_filename a) = true ∧
  (lower (suffix (af_filename a)) ∉ EXECUTABLE_SUFFIXES) ∧
  (∀ magic, magic ∈ EXECUTABLE_MAGIC → (String.prefix magic content : bool) = false) ∧
  (af_media_type a ∈ ALLOWED_MEDIA_TYPES) ∧ Z.of_nat (String.length content) ≤ MAX_ATTACHMENT_BYTES ∧
  (∀ signature, signature ∈ MALWARE_SIGNATURES → contains signature content = false) ∧
  sc_detected_secrets (scan_messages [[("content", decoded content)]]) = [] ∧
  rank (sc_detected_classification (scan_messages [[("content", decoded content)]])) ≤ rank (af_classification a).

Lemma existsb_none {A} (p : A → bool) l : existsb p l = false → ∀ x, x ∈ l → p x = false.
Proof.
  intros H x Hx. destruct (p x) eqn:Hp; [|done]. assert (existsb p l = true); [|congruence].
  apply existsb_exists. exists x. split; [by apply list_elem_of_In|done].
Qed.
Lemma validate_screened filename media_type content declared c : validate_attachment filename media_type content declared = Ok c →
  rank declared ≤ rank c ∧
  ∀ a, af_filename a = filename → af_media_type a = media_type → af_classification a = c → screened a content.
Proof.
  unfold validate_attachment. set (scan := scan_messages _). intros H.
  destruct (bool_decide (filename = "") || _ || _) eqn:Hname; [done|]. rewrite !orb_false_iff in Hname. destruct Hname as [[Hne Hplain] _].
  case_bool_decide as Hsuffix; [done|]. destruct (existsb _ EXECUTABLE_MAGIC) eqn:Hmagic; [done|].
  case_bool_decide as Hmedia; [|done]. cbn [negb] in H. destruct (Z.ltb_spec MAX_ATTACHMENT_BYTES (Z.of_nat (String.length content))); [done|].
  destruct (existsb _ MALWARE_SIGNATURES) eqn:Hmal; [done|]. destruct (blocked scan) eqn:Hbl; [done|].
  assert (highest_classification [Some declared; Some (sc_detected_classification scan)] = c) as <- by congruence.
  rewrite highest_pair. split; [lia|]. intros a <- <- Hc. unfold screened. fold scan. rewrite Hc, highest_pair.
  apply bool_decide_eq_false in Hne. apply negb_false_iff in Hplain. split_and!; try done; [by apply existsb_none..| |]; [|lia].
  unfold blocked in Hbl. by destruct (sc_detected_secrets scan).
Qed.

(** A call of the service or a round of the worker. *)
Inductive artifact_call :=
  | CallCreate (f : Faults) (now : instant) (tenant_id subject_id execution_id filename media_type content : string)
      (declared : DataClassification) (expires_at : option instant)
  | CallIssue (f : Faults) (now later : instant) (tenant_id artifact_id subject_id : string)
  | CallDownload (f : Faults) (now later : instant) (tenant_id artifact_id subject_id token : string)
  | CallLifecycle (fault : txn_fault) (f : nat → Faults) (g : nat → nat → Faults).
Definition unanswered {A} (p : AP A) : proc ArtifactDb unit := proc_bind p (λ _, Done tt).
Definition serve (c : artifact_call) : proc ArtifactDb unit :=
  match c with
  | CallCreate f now tenant_id subject_id execution_id filename media_type content declared expires_at =>
      unanswered (create sha256_hex audit_text uuid_at f now tenant_id subject_id execution_id filename media_type content declared expires_at)
  | CallIssue f now later tenant_id artifact_id subject_id =>
      unanswered (issue_access_token sha256_hex hmac_sha256 dumps audit_text uuid_at access_key f now later tenant_id artifact_id subject_id)
  | CallDownload f now later tenant_id artifact_id subject_id token =>
      unanswered (download sha256_hex hmac_sha256 loads audit_text uuid_at access_key f now later tenant_id artifact_id subject_id token)
  | CallLifecycle fault f g => unanswered (lifecycle_run_once sha256_hex audit_text uuid_at fault f g)
  end.

(** Calls start at any time, take their steps in any order, and may stop between two steps;
    the rest of the system changes its own tables. *)
Inductive artifact_step : ArtifactDb * list (proc ArtifactDb unit) → ArtifactDb * list (proc ArtifactDb unit) → Prop :=
  | step_call s l c : artifact_step (s, l) (s, serve c :: l)
  | step_run s l1 next effect l2 : artifact_step (s, l1 ++ Step next effect :: l2) (effect s, l1 ++ next s :: l2)
  | step_crash s l1 p l2 : artifact_step (s, l1 ++ p :: l2) (s, l1 ++ l2)
  | step_other s l lc : artifact_step (s, l) (set_ar_lc lc s, l).

(** Every row was screened, is of this content, and expires after it was made. *)
Definition artifacts_ok (s : ArtifactDb) : Prop :=
  ∀ t id a content, ar_artifacts s !! (t, id) = Some (a, content) →
    screened a content ∧ af_size_bytes a = Z.of_nat (String.length content) ∧ af_sha256 a = sha256_hex content ∧
    af_created_at a < af_expires_at a.
(** A row that is there before and after a step is the same. *)
Definition rows_kept (s s' : ArtifactDb) : Prop :=
  ∀ k x y, ar_artifacts s !! k = Some x → ar_artifacts s' !! k = Some y → x = y.

Lemma rows_kept_refl s : rows_kept s s.
Proof. intros k x y Hx Hy. congruence. Qed.
(** Programs that keep the rows in order, whatever others do. *)
Abbreviation keeps p := (proc_safe artifacts_ok rows_kept rows_kept (λ _ _, True) (λ _, True) p).
Lemma step_same {A} (m : ARM A) : (∀ s, ar_artifacts (m s).2 = ar_artifacts s) → good_step artifacts_ok rows_kept (λ _, True) m.
Proof. intros Hm s Hs _. unfold artifacts_ok, rows_kept. rewrite Hm. split; [done|]. intros k x y Hx Hy. congruence. Qed.
Lemma keeps_atomically {A} (m : ARM A) : good_step artifacts_ok rows_kept (λ _, True) m → keeps (atomically m).
Proof. apply safe_atomically; done. Qed.
Lemma keeps_bind {A B} (p : AP A) (k : A → AP B) : keeps p → (∀ a, keeps (k a)) → keeps (pm_bind p k).
Proof. apply safe_pm_bind; done. Qed.
Lemma keeps_catch {A} (p : AP A) (h : ArtifactFault → AP A) : keeps p → (∀ e, keeps (h e)) → keeps (pm_catch p h).
Proof. apply safe_pm_catch; done. Qed.
Lemma keeps_done {A} (r : A) : keeps (Done r).
Proof. by constructor. Qed.
Lemma keeps_known_uuid text : keeps (known_uuid text).
Proof. unfold known_uuid. destruct (parse_uuid text); apply keeps_done. Qed.
Lemma keeps_read {A} fault (q : ArtifactDb → A) : keeps (atomically (transaction fault ArtifactSql (gets q))).
Proof. apply keeps_atomically, step_same. intros s. unfold transaction, gets. by destruct fault. Qed.
Lemma keeps_audit fault f action a subject decision : keeps (audit sha256_hex audit_text uuid_at fault f action a subject decision).
Proof.
  unfold audit. apply keeps_bind; [by apply keeps_atomically, step_same|]. intros _. apply keeps_bind; [apply keeps_known_uuid|].
  intros t. apply keeps_atomically, step_same. intros s. unfold ar_on_admin. by destruct (audited_alone _ _ _ _ _ _ _ _ _ _ _ _ _) as [[] d].
Qed.
Lemma keeps_delete fault tenant_id artifact_id : keeps (store_delete fault tenant_id artifact_id).
Proof.
  unfold store_delete. apply keeps_bind; [apply keeps_known_uuid|]. intros t. apply keeps_bind; [apply keeps_known_uuid|]. intros id.
  apply keeps_atomically, good_transaction; [apply rows_kept_refl|]. unfold modify. intros s [] s' Hs _ [= <-]. split.
  - intros t' id' a c. cbn [ar_artifacts set_artifacts]. intros [_ Ha]%lookup_delete_Some. by apply (Hs t' id').
  - intros k x y Hx. cbn [ar_artifacts set_artifacts]. intros [_ Hy]%lookup_delete_Some. congruence.
Qed.
Lemma keeps_get fault tenant_id artifact_id : keeps (store_get fault tenant_id artifact_id).
Proof. unfold store_get. apply keeps_bind; [apply keeps_known_uuid|]. intros t. apply keeps_bind; [apply keeps_known_uuid|]. intros id. apply keeps_read. Qed.
Lemma keeps_put fault a content : screened a content → af_size_bytes a = Z.of_nat (String.length content) →
  af_sha256 a = sha256_hex content → keeps (store_put fault a content).
Proof.
  intros Hscr Hsize Hsha. unfold store_put. apply keeps_bind; [apply keeps_known_uuid|]. intros t. apply keeps_bind; [apply keeps_known_uuid|].
  intros id. apply keeps_atomically, good_transaction; [apply rows_kept_refl|]. intros s [] s' Hs _ Hput.
  unfold put_row, mbind, ST_mbind, gets, ensure, modify in Hput. destruct (_ && _) eqn:Hc; simpl in Hput; [|done].
  injection Hput as <-. rewrite !andb_true_iff, !bool_decide_eq_true, Z.ltb_lt in Hc. destruct Hc as [[_ Hnone] Hlt]. split.
  - intros t' id' a' c'. cbn [ar_artifacts set_artifacts]. intros [[_ [= <- <-]]|[_ Ha]]%lookup_insert_Some; [done|by apply (Hs t' id')].
  - intros k x y Hx. cbn [ar_artifacts set_artifacts]. intros [[<- <-]|[_ Hy]]%lookup_insert_Some; congruence.
Qed.

Lemma keeps_create f now tenant_id subject_id execution_id filename media_type content declared expires_at :
  keeps (create sha256_hex audit_text uuid_at f now tenant_id subject_id execution_id filename media_type content declared expires_at).
Proof.
  unfold create. destruct (validate_attachment _ _ _ _) as [c|e] eqn:Hval; [|apply keeps_done]. apply validate_screened in Hval as [_ Hscr].
  apply keeps_bind; [apply keeps_bind; [apply keeps_known_uuid|intros t; apply keeps_read]|]. intros policy_days. cbv zeta.
  destruct (_ <=? now); [apply keeps_done|]. apply keeps_bind; [by apply keeps_atomically, step_same|]. intros n.
  destruct (negb _); [apply keeps_done|]. apply keeps_bind; [apply keeps_put; [by apply Hscr|done..]|]. intros _.
  apply keeps_bind; [|intros _; apply keeps_done]. apply keeps_catch; [apply keeps_audit|]. intros e.
  apply keeps_bind; [apply keeps_delete|]. intros _. apply keeps_done.
Qed.
Lemma keeps_owned fault now tenant_id artifact_id subject : keeps (owned fault now tenant_id artifact_id subject).
Proof.
  unfold owned. apply keeps_bind; [apply keeps_get|]. intros [[a c]|]; [|apply keeps_done].
  repeat case_match; apply keeps_done.
Qed.
Lemma keeps_purge_tenants f g tenants deleted : keeps (purge_tenants sha256_hex audit_text uuid_at f g tenants deleted).
Proof.
  revert deleted. induction tenants as [|t rest IH]; intros deleted; cbn [purge_tenants]; [apply keeps_done|].
  apply keeps_bind; [apply keeps_read|]. intros []; [apply IH|]. apply keeps_bind; [|intros n; apply IH]. unfold purge, list_expired.
  apply keeps_bind; [apply keeps_bind; [apply keeps_known_uuid|intros ?; apply keeps_read]|]. intros expired.
  apply keeps_bind; [|intros _; apply keeps_done]. induction expired as [|a expired IHe]; cbn [purge_each]; [apply keeps_done|].
  apply keeps_bind; [apply keeps_delete|]. intros _. apply keeps_bind; [apply keeps_audit|done].
Qed.
Lemma keeps_serve c : keeps (serve c).
Proof.
  assert (∀ A (p : AP A), keeps p → keeps (unanswered p)) as Hun.
  { intros A p Hp. unfold unanswered. eapply safe_bind; [exact Hp|]. intros r. by constructor. }
  destruct c; cbn [serve]; apply Hun; [apply keeps_create|..].
  - unfold issue_access_token. apply keeps_bind; [apply keeps_owned|]. intros found. cbv zeta.
    apply keeps_bind; [apply keeps_audit|]. intros _. apply keeps_done.
  - unfold download. apply keeps_bind; [|intros found; apply keeps_bind; [apply keeps_audit|intros _; apply keeps_done]].
    apply keeps_catch; [apply keeps_bind; [apply keeps_owned|intros found; case_match; apply keeps_done]|]. intros [code| | | | |]; try apply keeps_done.
    apply keeps_bind; [apply keeps_get|]. intros [[a x]|]; [|apply keeps_done]. apply keeps_bind; [apply keeps_audit|]. intros _. apply keeps_done.
  - unfold lifecycle_run_once. apply keeps_bind; [apply keeps_read|]. intros tenants. apply keeps_purge_tenants.
Qed.

Abbreviation safe_pool s l := (Forall (runs_safely artifacts_ok rows_kept rows_kept s) l).
Lemma artifact_step_ok s l s' l' : artifact_step (s, l) (s', l') → artifacts_ok s → safe_pool s l →
  artifacts_ok s' ∧ safe_pool s' l' ∧ rows_kept s s'.
Proof.
  assert (∀ s s' (l : list (proc ArtifactDb unit)), artifacts_ok s → artifacts_ok s' → rows_kept s s' → safe_pool s l → safe_pool s' l) as Hothers.
  { intros x x' k Hx Hx' Hk Hl'. eapply Forall_impl; [exact Hl'|]. intros p. by apply runs_safely_interference. }
  intros Hstep Hs Hl. inversion Hstep as [? ? c|? l1 next effect l2|? l1 p l2|? ? lc]; subst.
  - split_and!; [done| |apply rows_kept_refl]. constructor; [|done]. exists (λ _, True), (λ _ _, True). split_and!; [done..|apply keeps_serve].
  - apply Forall_app in Hl as [Hl1 Hl2]. apply Forall_cons in Hl2 as [Hp Hl2].
    destruct (runs_safely_step _ _ _ _ _ _ Hs Hp) as (Hs' & Hk & Hp'). split_and!; [done| |done].
    apply Forall_app. split; [by apply (Hothers s)|]. constructor; [done|by apply (Hothers s)].
  - split_and!; [done| |apply rows_kept_refl]. apply Forall_app in Hl as [Hl1 Hl2]. apply Forall_app. split; [done|by inversion Hl2].
  - assert (rows_kept s (set_ar_lc lc s)) as Hk by exact (rows_kept_refl s). split_and!; [done|by apply (Hothers s)|done].
Qed.
Lemma artifact_steps_ok s l s' l' : rtc artifact_step (s, l) (s', l') → artifacts_ok s → safe_pool s l →
  artifacts_ok s' ∧ safe_pool s' l'.
Proof.
  intros H. remember (s, l) as x eqn:Hx. remember (s', l') as y eqn:Hy. revert s l Hx.
  induction H as [x|x [s1 l1] z Hstep _ IH]; intros s l -> Hs Hl; [by injection Hy as <- <-|].
  destruct (artifact_step_ok _ _ _ _ Hstep Hs Hl) as (Hs1 & Hl1 & _). by apply (IH Hy s1 l1).
Qed.

(** C18: What is stored was screened.  In every state that any interleaving of calls, worker
    rounds and crashes reaches from an empty store, each artifact has passed the screening:
    no executable name or content, an allowed media type, at most eight megabytes, no known
    malware, no secret, and a classification at least as high as what the scan detected.  Its
    size and digest are those of its content, it expires after it was made, and a step
    removes it or leaves it as it is. *)
Theorem stored_artifacts_are_screened s0 s l : ar_artifacts s0 = ∅ → rtc artifact_step (s0, []) (s, l) →
  (∀ t id a content, ar_artifacts s !! (t, id) = Some (a, content) →
     screened a content ∧ af_size_bytes a = Z.of_nat (String.length content) ∧ af_sha256 a = sha256_hex content ∧
     af_created_at a < af_expires_at a) ∧
  ∀ s' l' k x y, artifact_step (s, l) (s', l') → ar_artifacts s !! k = Some x → ar_artifacts s' !! k = Some y → y = x.
Proof.
  intros H0 Hsteps. destruct (artifact_steps_ok _ _ _ _ Hsteps) as [Hs Hl]; [|done|].
  { intros t id a c. by rewrite H0, lookup_empty. }
  split; [done|]. intros s' l' k x y Hstep Hx Hy. destruct (artifact_step_ok _ _ _ _ Hstep Hs Hl) as (_ & _ & Hk). symmetry. by eapply Hk.
Qed.
End Service.

(** ** The worker *)

(** The database after the rows that [gone] names are deleted and events were audited. *)
Definition purged (gone : uuid → uuid → Artifact → bool) (s s' : ArtifactDb) : Prop :=
  (∀ t, held t (ar_lc s') = held t (ar_lc s)) ∧
  ∀ t id, ar_artifacts s' !! (t, id) =
    match ar_artifacts s !! (t, id) with
    | Some (a, content) => if gone t id a then None else Some (a, content)
    | None => None
    end.
Lemma purged_none s : purged (λ _ _ _, false) s s.
Proof. split; [done|]. intros t id. by destruct (ar_artifacts s !! (t, id)) as [[]|]. Qed.
Lemma purged_trans g1 g2 s1 s2 s3 : purged g1 s1 s2 → purged g2 s2 s3 → purged (λ t id a, g1 t id a || g2 t id a) s1 s3.
Proof.
  intros [Hh1 H1] [Hh2 H2]. split; [congruence|]. intros t id. rewrite H2, H1.
  destruct (ar_artifacts s1 !! (t, id)) as [[a c]|]; [|done]. by destruct (g1 t id a).
Qed.
Lemma purged_ext g1 g2 s s' : purged g1 s s' →
  (∀ t id a c, ar_artifacts s !! (t, id) = Some (a, c) → g1 t id a = g2 t id a) → purged g2 s s'.
Proof.
  intros [Hh H] Hg. split; [done|]. intros t id. rewrite H. destruct (ar_artifacts s !! (t, id)) as [[a c]|] eqn:He; [|done].
  by rewrite (Hg t id a c He).
Qed.

Lemma known_uuid_text (u : uuid) s : 0 ≤ u < 2 ^ 128 → run_proc (known_uuid (uuid_text u)) s = (Ok u, s).
Proof. intros Hu. unfold known_uuid. by rewrite parse_uuid_text. Qed.
Lemma store_delete_run fault (t id : uuid) s s' : 0 ≤ t < 2 ^ 128 → 0 ≤ id < 2 ^ 128 →
  run_proc (store_delete fault (uuid_text t) (uuid_text id)) s = (Ok tt, s') →
  purged (λ t' id' _, bool_decide (t' = t ∧ id' = id)) s s'.
Proof.
  intros Ht Hid. unfold store_delete. rewrite run_pm_bind, known_uuid_text, run_pm_bind, known_uuid_text by done. unfold atomically.
  cbn [run_proc]. unfold transaction, modify. destruct fault; cbn [fst snd]; [|done..]. intros [= <-]. split; [done|]. intros t' id'.
  cbn [set_artifacts ar_artifacts]. case_bool_decide as Hk.
  - destruct Hk as [-> ->]. rewrite lookup_delete_eq. by destruct (ar_artifacts s !! (t, id)) as [[]|].
  - rewrite lookup_delete_ne by (intros [= <- <-]; by apply Hk). by destruct (ar_artifacts s !! (t', id')) as [[]|].
Qed.

(** The expired rows of a tenant. *)
Definition expired_of (t : uuid) (now : instant) (s : ArtifactDb) : list (uuid * Artifact) :=
  omap (λ ka : (uuid * uuid) * (Artifact * string),
    if bool_decide (ka.1.1 = t) && (af_expires_at ka.2.1 <=? now) then Some (ka.1.2, ka.2.1) else None) (map_to_list (ar_artifacts s)).
Lemma expired_rows_of t now s : expired_rows t now s = (λ r, artifact_from_row t r.1 r.2) <$> expired_of t now s.
Proof.
  unfold expired_rows, expired_of. induction (map_to_list (ar_artifacts s)) as [|ka l IH]; [done|]. cbn [omap list_omap].
  destruct (_ && _); cbn [fmap list_fmap]; [by f_equal|done].
Qed.
Lemma expired_of_spec t now s id : id ∈ (expired_of t now s).*1 ↔
  ∃ a c, ar_artifacts s !! (t, id) = Some (a, c) ∧ af_expires_at a ≤ now.
Proof.
  unfold expired_of. rewrite list_elem_of_fmap. split.
  - intros ([id' a] & -> & H). apply list_elem_of_omap in H as ([[t' i] [a' c]] & Hin & H). cbn [fst snd] in *.
    case_bool_decide; [|done]. destruct (Z.leb_spec (af_expires_at a') now); [|done]. injection H as -> ->. subst t'.
    exists a, c. split; [by apply elem_of_map_to_list|done].
  - intros (a & c & Ha & Hle). exists (id, a). split; [done|]. apply list_elem_of_omap. exists ((t, id), (a, c)).
    split; [by apply elem_of_map_to_list|]. cbn [fst snd]. rewrite bool_decide_eq_true_2 by done. by destruct (Z.leb_spec (af_expires_at a) now); [|lia].
Qed.
Definition is_expired (t : uuid) (now : instant) (k : uuid * uuid) (a : Artifact) : bool :=
  bool_decide (k.1 = t) && (af_expires_at a <=? now).
Lemma expired_of_length t now s :
  length (expired_of t now s) = size (filter (λ ka, is_expired t now ka.1 ka.2.1 = true) (ar_artifacts s)).
Proof.
  rewrite <-length_map_to_list. rewrite (NoDup_Permutation (map_to_list (filter _ _))
    (filter (λ ka, is_expired t now ka.1 ka.2.1 = true) (map_to_list (ar_artifacts s)))).
  2: apply NoDup_map_to_list. 2: apply NoDup_filter, NoDup_map_to_list.
  2: { intros [k x]. rewrite list_elem_of_filter, !elem_of_map_to_list, map_lookup_filter_Some. tauto. }
  unfold expired_of, is_expired.
  induction (map_to_list (ar_artifacts s)) as [|ka l IH]; [done|]. cbn [omap list_omap]. rewrite filter_cons.
  destruct (_ && _) eqn:Hc; [rewrite decide_True by done; cbn [length]; by f_equal|by rewrite decide_False by done].
Qed.

Section Worker.
Context (sha256_hex : string → string) (audit_text : json → string) (uuid_at : nat → uuid).

Lemma audit_purged fault f action a subject decision s s' :
  run_proc (audit sha256_hex audit_text uuid_at fault f action a subject decision) s = (Ok tt, s') → purged (λ _ _ _, false) s s'.
Proof.
  unfold audit, known_uuid. rewrite run_atomically. unfold modify. rewrite run_pm_bind. destruct (parse_uuid _) as [t|]; [|done].
  unfold pm_ret, atomically. cbn [run_proc]. unfold ar_on_admin. destruct (audited_alone _ _ _ _ _ _ _ _ _ _ _ _ _) as [[[]|e] d];
    cbn [fst snd]; [|done]. intros [= <-]. split; [done|]. intros t' id. exact (proj2 (purged_none s) t' id).
Qed.

Lemma purge_each_run f (t : uuid) rows s s' : 0 ≤ t < 2 ^ 128 → Forall (λ r : uuid * Artifact, 0 ≤ r.1 < 2 ^ 128) rows →
  run_proc (purge_each sha256_hex audit_text uuid_at f (uuid_text t) ((λ r, artifact_from_row t r.1 r.2) <$> rows)) s = (Ok tt, s') →
  purged (λ t' id _, bool_decide (t' = t ∧ id ∈ rows.*1)) s s'.
Proof.
  intros Ht Hrows. revert s. induction Hrows as [|[id a] rows Hid _ IH]; intros s.
  - cbn [fmap list_fmap purge_each pm_ret run_proc]. intros [= <-]. eapply purged_ext; [apply purged_none|]. intros t' id a c _.
    symmetry. apply bool_decide_eq_false. by intros [_ ?%elem_of_nil].
  - cbn [fmap list_fmap purge_each]. rewrite run_pm_bind.
    cbn [fst snd artifact_from_row af_artifact_id] in *. destruct (run_proc (store_delete _ _ _) s) as [[[]|] s1] eqn:Hd; [|done].
    rewrite run_pm_bind. destruct (run_proc (audit _ _ _ _ _ _ _ _ _) s1) as [[[]|] s2] eqn:Ha; [|done]. intros Hrest.
    eapply purged_ext; [eapply purged_trans; [eapply store_delete_run; [| |exact Hd]; assumption|eapply purged_trans; [by eapply audit_purged|by eapply IH]]|].
    intros t' id' a' c _. cbv beta. apply eq_bool_prop_intro. rewrite !orb_True, !bool_decide_spec, elem_of_cons.
    clear. simpl. tauto.
Qed.

Lemma purge_run fault f now (t : uuid) s n s' : 0 ≤ t < 2 ^ 128 →
  (∀ t' id x, ar_artifacts s !! (t', id) = Some x → 0 ≤ id < 2 ^ 128) →
  run_proc (purge sha256_hex audit_text uuid_at fault f now (uuid_text t)) s = (Ok n, s') →
  purged (λ t' _ a, bool_decide (t' = t) && (af_expires_at a <=? now)) s s' ∧
  Z.of_nat (size (ar_artifacts s)) = Z.of_nat (size (ar_artifacts s')) + n.
Proof.
  intros Ht Hids. unfold purge, list_expired. rewrite run_pm_bind, run_pm_bind, known_uuid_text by done. unfold atomically at 1. cbn [run_proc].
  unfold transaction, gets. destruct fault; cbn [fst snd]; [|done..]. rewrite run_pm_bind, expired_rows_of.
  destruct (run_proc (purge_each _ _ _ _ _ _) s) as [[[]|] s1] eqn:Hp; [|done]. cbn [pm_ret run_proc]. intros [= <- <-].
  apply purge_each_run in Hp; [|done|].
  2: { apply Forall_forall. intros [id a] Hin. cbn [fst]. assert (id ∈ (expired_of t now s).*1) as (a' & c & Hrow & _)%expired_of_spec
         by (apply list_elem_of_fmap; by exists (id, a)). by eapply Hids. }
  assert (purged (λ t' _ a, bool_decide (t' = t) && (af_expires_at a <=? now)) s s1) as Hpurged.
  { eapply purged_ext; [exact Hp|]. intros t' id a c Ha. cbv beta. apply eq_bool_prop_intro.
    rewrite andb_True, !bool_decide_spec, expired_of_spec, Is_true_true, Z.leb_le. naive_solver. }
  split; [done|]. rewrite length_fmap, expired_of_length. destruct Hpurged as [_ Hrows].
  assert (ar_artifacts s1 = filter (λ ka, ¬ is_expired t now ka.1 ka.2.1 = true) (ar_artifacts s)) as ->.
  { apply map_eq. intros [t' id]. rewrite Hrows, map_lookup_filter. destruct (ar_artifacts s !! (t', id)) as [[a c]|]; [|done]. simpl.
    unfold is_expired. simpl. destruct (_ && _) eqn:Hc; [by rewrite option_guard_False by auto|by rewrite option_guard_True by congruence]. }
  rewrite <-(map_filter_union_complement (λ ka, is_expired t now ka.1 ka.2.1 = true) (ar_artifacts s)) at 1.
  rewrite map_size_disj_union by apply map_disjoint_filter_complement. lia.
Qed.

Lemma purge_tenants_run f g now tenants s deleted n s' : (∀ k, fa_stamp (f k) = now) → Forall (λ t : uuid, 0 ≤ t < 2 ^ 128) tenants →
  (∀ t' id x, ar_artifacts s !! (t', id) = Some x → 0 ≤ id < 2 ^ 128) →
  run_proc (purge_tenants sha256_hex audit_text uuid_at f g tenants deleted) s = (Ok n, s') →
  purged (λ t _ a, bool_decide (t ∈ tenants) && negb (held t (ar_lc s)) && (af_expires_at a <=? now)) s s' ∧
  Z.of_nat (size (ar_artifacts s)) + deleted = Z.of_nat (size (ar_artifacts s')) + n.
Proof.
  intros Hclock Hten. revert s deleted. induction Hten as [|t tenants Ht _ IH]; intros s deleted Hids.
  - cbn [purge_tenants pm_ret run_proc]. intros [= <- <-]. split; [|lia]. eapply purged_ext; [apply purged_none|]. intros t id a c _.
    by rewrite bool_decide_eq_false_2 by apply not_elem_of_nil.
  - cbn [purge_tenants]. rewrite run_atomically. unfold transaction, gets. destruct (fa_first _); [|done..].
    destruct (held t (ar_lc s)) eqn:Hheld.
    + intros Hrun. apply IH in Hrun as [Hp Hn]; [|done]. split; [|done]. eapply purged_ext; [exact Hp|]. intros t' id a c _. cbv beta.
      f_equal. destruct (decide (t' = t)) as [->|Hne]; [by rewrite Hheld, !andb_false_r|]. f_equal.
      apply bool_decide_ext. set_solver.
    + rewrite run_pm_bind. destruct (run_proc (purge _ _ _ _ _ _ _) s) as [[m|] s1] eqn:Hp; [|done]. intros Hrun.
      rewrite Hclock in Hp. apply purge_run in Hp as [Hp Hm]; [|done..]. pose proof Hp as [Hholds Hrows].
      apply IH in Hrun as [Hp' Hn].
      2: { intros t' id x Hx. rewrite Hrows in Hx. destruct (ar_artifacts s !! (t', id)) as [[a c]|] eqn:He; [|done]. by eapply Hids. }
      split; [|lia]. eapply purged_ext; [eapply purged_trans; [exact Hp|exact Hp']|]. intros t' id a c _. cbv beta. rewrite Hholds.
      destruct (decide (t' = t)) as [->|Hne].
      * rewrite Hheld, (bool_decide_eq_true_2 (t = t)), (bool_decide_eq_true_2 (t ∈ t :: _)) by (done || left). cbn [negb andb].
        destruct (_ <=? now); [done|]. by rewrite !andb_false_r.
      * rewrite (bool_decide_eq_false_2 (t' = t)) by done. cbn [andb orb]. f_equal. f_equal. apply bool_decide_ext. set_solver.
Qed.

(** C19: The worker deletes what has expired, and nothing else.  A round that ends, with no
    other change in between, leaves exactly the artifacts that have not expired, those of a
    tenant under Legal Hold, and those of a tenant that the platform does not list; the
    number it returns is the number of artifacts it deleted. *)
Theorem lifecycle_deletes_what_expired fault f g now s n s' : (∀ k, fa_stamp (f k) = now) →
  (∀ t, t ∈ ad_tenants (lc_admin (ar_lc s)) → 0 ≤ t < 2 ^ 128) →
  (∀ t id x, ar_artifacts s !! (t, id) = Some x → 0 ≤ id < 2 ^ 128) →
  run_proc (lifecycle_run_once sha256_hex audit_text uuid_at fault f g) s = (Ok n, s') →
  (∀ t id a content, ar_artifacts s' !! (t, id) = Some (a, content) ↔
     ar_artifacts s !! (t, id) = Some (a, content) ∧
     (t ∉ ad_tenants (lc_admin (ar_lc s)) ∨ held t (ar_lc s) = true ∨ now < af_expires_at a)) ∧
  n = Z.of_nat (size (ar_artifacts s)) - Z.of_nat (size (ar_artifacts s')).
Proof.
  intros Hclock Hten Hids. unfold lifecycle_run_once. rewrite run_atomically. unfold transaction, gets. destruct fault; [|done..].
  intros Hrun. apply (purge_tenants_run _ _ now) in Hrun as [[_ Hrows] Hn]; [|done| |done].
  2: { apply Forall_forall. intros t Ht. by apply Hten, elem_of_elements. }
  split; [|lia]. intros t id a content. rewrite Hrows. destruct (ar_artifacts s !! (t, id)) as [[a' c']|]; [|naive_solver].
  destruct (decide (t ∈ ad_tenants (lc_admin (ar_lc s)))) as [Hin|Hin].
  - rewrite bool_decide_eq_true_2 by by apply elem_of_elements. cbn [andb]. destruct (held t (ar_lc s)); cbn [negb andb]; [naive_solver|].
    destruct (Z.leb_spec (af_expires_at a') now); naive_solver lia.
  - rewrite bool_decide_eq_false_2 by by rewrite elem_of_elements. cbn [andb]. naive_solver.
Qed.
End Worker.

(** ** A note

    A subject stores a note, gets a token and reads it; the worker deletes it when it has
    expired.  The codec stands for JSON, and the digest of a key and a text for their
    message code. *)
Definition af_tenant : uuid := 7.
Definition af_sha (s : string) : string := s.
Definition af_mac (key message : string) : list Z := byte_values key ++ [Z.of_nat (String.length message) mod 256].
Definition af_dumps (j : json) : string := String.string_of_list_byte (sample_dumps j).
Definition af_loads (s : string) : option json := sample_loads (String.list_byte_of_string s).
Definition af_text (_ : json) : string := "{}".
Definition af_ids (n : nat) : uuid := Z.of_nat n + 100.
Definition af_key : string := "0123456789abcdef".
Lemma af_codec c : af_loads (af_dumps (claims_json c)) = Some (claims_json c).
Proof. unfold af_loads, af_dumps. by rewrite String.list_byte_of_string_of_list_byte, sample_codec. Qed.

Definition af_empty : ArtifactDb :=
  {| ar_lc := {| lc_admin := {| ad_tenants := {[af_tenant]}; ad_members := []; ad_idempotency := ∅;
                                ad_audit := {| au_events := []; au_chain := ∅; au_outbox := []; au_manifests := []; au_worm := [];
                                               au_next_id := 0 |} |};
                 lc_policies := ∅; lc_changes := ∅; lc_holds := ∅; lc_requests := ∅; lc_proofs := ∅; lc_next_id := 0 |};
     ar_artifacts := ∅; ar_events := []; ar_next_id := 0 |}.
Definition no_faults (at_ : instant) : Faults :=
  {| fa_first := NoFault; fa_second := NoFault; fa_third := NoFault; fa_fourth := NoFault; fa_stamp := at_; fa_recorded := at_ |}.
Definition seconds (n : Z) : instant := n * 1000000.
Definition create_note (f : Faults) : AP Artifact :=
  create af_sha af_text af_ids f 0 (uuid_text af_tenant) "anna" "exec-1" "note.txt" "text/plain" "hello" INTERNAL None.
Definition noted : ArtifactDb := (run_proc (create_note (no_faults 0)) af_empty).2.
Definition issue_note : AP string :=
  issue_access_token af_sha af_mac af_dumps af_text af_ids af_key (no_faults (seconds 1)) (seconds 1) (seconds 1) (uuid_text af_tenant) (uuid_text 100) "anna".
Definition note_token : string := match (run_proc issue_note noted).1 with Ok token => token | Raise _ => "" end.
Definition issued : ArtifactDb := (run_proc issue_note noted).2.
Definition read_note (subject token : string) : AP string :=
  download af_sha af_mac af_loads af_text af_ids af_key (no_faults (seconds 2)) (seconds 2) (seconds 2) (uuid_text af_tenant) (uuid_text 100) subject token.

Example note_runs :
  is_Some (ar_artifacts noted !! (af_tenant, 100 : uuid)) ∧ (run_proc (read_note "anna" note_token) issued).1 = Ok "hello" ∧
  (run_proc (read_note "bert" note_token) issued).1 = Raise (ArtifactAccessError "ARTIFACT_SUBJECT_FORBIDDEN") ∧
  (run_proc (read_note "anna" "x.y") issued).1 = Raise (ArtifactAccessError "ARTIFACT_ACCESS_TOKEN_INVALID") ∧
  length (ar_events (run_proc (read_note "anna" "x.y") issued).2) = 3%nat.
Proof. split_and!; [vm_compute; by eexists|vm_compute; reflexivity..]. Qed.

Definition note_row : Artifact := new_artifact af_sha 0 (days 30) 100 (uuid_text af_tenant) "anna" "exec-1" "note.txt" "text/plain" "hello" INTERNAL.
Definition note_claims : Claims :=
  {| cl_artifact_id := uuid_text 100; cl_expires_at := 901; cl_subject_id := "anna"; cl_tenant_id := uuid_text af_tenant |}.
Lemma grants_are_exact_witness :
  note_token = sign af_mac af_dumps af_key note_claims ∧
  verify af_mac af_loads af_key (seconds 2) note_token note_row "anna" = Ok tt ∧
  verify af_mac af_loads af_key (seconds 902) note_token note_row "anna" ≠ Ok tt.
Proof.
  assert (note_token = sign af_mac af_dumps af_key note_claims) as -> by (vm_compute; reflexivity). split; [reflexivity|].
  pose proof (λ now, grants_are_exact af_mac af_dumps af_loads af_key af_codec now note_claims note_row "anna") as Hg. split.
  - apply (proj2 (Hg (seconds 2))). vm_compute. repeat split; congruence.
  - intros (_ & _ & _ & H & _)%Hg. vm_compute in H. by apply H.
Defined.

(** The states that a program finds when nothing else runs. *)
Fixpoint seen_alone {S R} (p : proc S R) (s : S) : list S :=
  match p with Done _ => [] | Step next effect => s :: seen_alone (next s) (effect s) end.
Lemma runs_alone {S R} (p : proc S R) s : runs p (seen_alone p s) (run_proc p s).1.
Proof. revert s. induction p as [r|next IH effect]; intros s; simpl; constructor. apply IH. Qed.

Lemma downloads_need_a_grant_witness :
  (run_proc (read_note "anna" note_token) issued).1 = Ok "hello" ∧
  ∃ s row, s ∈ seen_alone (read_note "anna" note_token) issued ∧
    ar_artifacts s !! (af_tenant, 100 : uuid) = Some (row, "hello") ∧ af_subject_id row = "anna".
Proof.
  assert ((run_proc (read_note "anna" note_token) issued).1 = Ok "hello") as Hrun by (vm_compute; reflexivity). split; [exact Hrun|].
  pose proof (runs_alone (read_note "anna" note_token) issued) as Hr. rewrite Hrun in Hr.
  destruct (downloads_need_a_grant af_sha af_mac af_loads af_text af_ids af_key (no_faults (seconds 2)) (seconds 2) (seconds 2)
      (uuid_text af_tenant) (uuid_text 100) "anna" note_token (seen_alone (read_note "anna" note_token) issued) "hello" Hr)
    as (t & id & s & row & Hs & _ & Ht & Hid & Hrow & Hsub & _).
  assert (parse_uuid (uuid_text af_tenant) = Some af_tenant) as Ht' by (vm_compute; reflexivity).
  assert (parse_uuid (uuid_text 100) = Some (100 : uuid)) as Hid' by (vm_compute; reflexivity).
  rewrite Ht' in Ht. rewrite Hid' in Hid. injection Ht as <-. injection Hid as <-. exists s, row. split; [exact Hs|]. split; [exact Hrow|exact Hsub].
Defined.

Definition read_at_last : AP string :=
  download af_sha af_mac af_loads af_text af_ids af_key (no_faults (seconds 901)) (seconds 900) (seconds 901) (uuid_text af_tenant)
    (uuid_text 100) "anna" note_token.
Lemma issued_grants_open_their_artifact_witness : (run_proc read_at_last issued).1 = Ok "hello".
Proof.
  assert (run_proc issue_note noted = (Ok note_token, issued)) as Hissue by (vm_compute; reflexivity).
  assert (ar_artifacts noted !! (af_tenant, 100 : uuid) = Some (note_row, "hello")) as H1 by (vm_compute; reflexivity).
  assert (ar_artifacts issued !! (af_tenant, 100 : uuid) = Some (note_row, "hello")) as H2 by (vm_compute; reflexivity).
  assert ((run_proc read_at_last issued).1 = Ok "hello" ∨ ∃ e, (run_proc read_at_last issued).1 = Raise (ArtifactAudit e)) as [H|[e H]].
  - refine (issued_grants_open_their_artifact af_sha af_mac af_dumps af_loads af_text af_ids af_key af_codec _ _ _ _ _ _ _ _ _
      af_tenant 100 note_row "hello" Hissue _ _ _ H1 issued (no_faults (seconds 901)) (seconds 900) (seconds 901) _ H2 _ _ _);
      vm_compute; try reflexivity; repeat split; congruence.
  - exact H.
  - exfalso. vm_compute in H. discriminate H.
Defined.

Abbreviation af_step := (artifact_step af_sha af_mac af_dumps af_loads af_text af_ids af_key).
(** A pool whose only program runs to its end. *)
Lemma pool_runs (p : proc ArtifactDb unit) s : rtc af_step (s, [p]) ((run_proc p s).2, [Done tt]).
Proof.
  revert s. induction p as [[]|next IH effect]; intros s; [done|]. cbn [run_proc]. eapply rtc_l; [|apply IH].
  apply (step_run _ _ _ _ _ _ _ s [] next effect []).
Qed.
Definition note_call : artifact_call :=
  CallCreate (no_faults 0) 0 (uuid_text af_tenant) "anna" "exec-1" "note.txt" "text/plain" "hello" INTERNAL None.
Lemma stored_artifacts_are_screened_witness : screened note_row "hello" ∧ af_size_bytes note_row = 5.
Proof.
  set (served := serve af_sha af_mac af_dumps af_loads af_text af_ids af_key note_call).
  assert (rtc af_step (af_empty, []) ((run_proc served af_empty).2, [Done tt])) as Hsteps.
  { eapply rtc_l; [exact (step_call _ _ _ _ _ _ _ af_empty [] note_call)|apply pool_runs]. }
  assert (ar_artifacts (run_proc served af_empty).2 !! (af_tenant, 100 : uuid) = Some (note_row, "hello")) as Hrow by (vm_compute; reflexivity).
  destruct (stored_artifacts_are_screened af_sha af_mac af_dumps af_loads af_text af_ids af_key af_empty _ _ eq_refl Hsteps) as [H _].
  destruct (H _ _ _ _ Hrow) as (Hscr & Hsize & _). split; [exact Hscr|exact Hsize].
Defined.

Definition worker_round (now : instant) : AP Z :=
  lifecycle_run_once af_sha af_text af_ids NoFault (λ _, no_faults now) (λ _ _, no_faults now).
Lemma lifecycle_deletes_what_expired_witness :
  (run_proc (worker_round (days 31)) noted).1 = Ok 1 ∧ ar_artifacts (run_proc (worker_round (days 31)) noted).2 !! (af_tenant, 100 : uuid) = None.
Proof.
  assert ((run_proc (worker_round (days 31)) noted).1 = Ok 1) as Hrun by (vm_compute; reflexivity). split; [exact Hrun|].
  assert (ar_artifacts noted = {[(af_tenant, 100) := (note_row, "hello")]}) as Hart by (vm_compute; reflexivity).
  assert (ad_tenants (lc_admin (ar_lc noted)) = {[af_tenant]}) as Hten by (vm_compute; reflexivity).
  assert (held af_tenant (ar_lc noted) = false) as Hheld by (vm_compute; reflexivity).
  assert ((days 31 <? af_expires_at note_row) = false) as Hexp by (vm_compute; reflexivity).
  generalize dependent noted. intros s Hrun Hart Hten Hheld. destruct (run_proc (worker_round (days 31)) s) as [r s'] eqn:He.
  cbn [fst] in Hrun. subst r. cbn [snd].
  destruct (lifecycle_deletes_what_expired af_sha af_text af_ids NoFault (λ _, no_faults (days 31)) (λ _ _, no_faults (days 31)) (days 31) s 1 s')
    as [H _]; [reflexivity| | |exact He|].
  { intros t. rewrite Hten. intros ->%elem_of_singleton. done. }
  { intros t id x. rewrite Hart. intros [[= <- <-] _]%lookup_singleton_Some. done. }
  destruct (ar_artifacts s' !! (af_tenant, 100 : uuid)) as [[a c]|] eqn:Hs; [|reflexivity]. exfalso.
  apply H in Hs as [Hrow Hcase]. rewrite Hart, lookup_singleton_eq in Hrow. injection Hrow as <- _. rewrite Hten, Hheld in Hcase.
  apply Z.ltb_ge in Hexp. destruct Hcase as [Hc|[Hc|Hc]]; [by apply Hc, elem_of_singleton|discriminate Hc|lia].
Defined.

(** ** Runs that the contract does not foresee *)

(** A name that is the parent directory passes the test for plain names, and a dot at the
    end hides the suffix of an executable file. *)
Example names_that_pass :
  validate_attachment ".." "text/plain" "hello" INTERNAL = Ok INTERNAL ∧
  validate_attachment "setup.exe" "text/plain" "hello" INTERNAL = Raise (AttachmentRejected "ATTACHMENT_EXECUTABLE_FORBIDDEN") ∧
  validate_attachment "setup.exe." "text/plain" "hello" INTERNAL = Ok INTERNAL.
Proof. split_and!; vm_compute; reflexivity. Qed.

(** An insert whose acknowledgement is lost leaves an artifact that no audit event names:
    the deletion covers a failure of the audit only.  So does a process that stops between the two. *)
Definition put_unacknowledged : Faults :=
  {| fa_first := NoFault; fa_second := LostAfterCommit; fa_third := NoFault; fa_fourth := NoFault; fa_stamp := 0; fa_recorded := 0 |}.
Definition audit_rows (s : ArtifactDb) : list AuditEvent := au_events (ad_audit (lc_admin (ar_lc s))).
Example unaudited_artifacts :
  (run_proc (create_note put_unacknowledged) af_empty).1 = Raise ArtifactSql ∧
  (is_Some (ar_artifacts (run_proc (create_note put_unacknowledged) af_empty).2 !! (af_tenant, 100 : uuid)) ∧
   audit_rows (run_proc (create_note put_unacknowledged) af_empty).2 = []) ∧
  is_Some (ar_artifacts (run_steps 3 (create_note (no_faults 0)) af_empty) !! (af_tenant, 100 : uuid)) ∧
  audit_rows (run_steps 3 (create_note (no_faults 0)) af_empty) = [].
Proof. split_and!; vm_compute; by try eexists. Qed.

(** The program that is left after [n] steps alone. *)
Fixpoint rest_steps {S R} (n : nat) (p : proc S R) (s : S) : proc S R :=
  match n, p with
  | Datatypes.S n', Step next effect => rest_steps n' (next s) (effect s)
  | _, _ => p
  end.
(** A Legal Hold that becomes active after the worker has looked for one does not stop it. *)
Definition active_hold : HoldRow :=
  {| hd_reason := "case"; hd_status := HD_ACTIVE; hd_initiator := "alice"; hd_approver := Some "bob"; hd_created_at := 0;
     hd_activated_at := Some 0; hd_released_at := None |}.
Definition put_on_hold (s : ArtifactDb) : ArtifactDb :=
  set_ar_lc {| lc_admin := lc_admin (ar_lc s); lc_policies := lc_policies (ar_lc s); lc_changes := lc_changes (ar_lc s);
               lc_holds := <[(af_tenant, 900 : uuid) := active_hold]> (lc_holds (ar_lc s)); lc_requests := lc_requests (ar_lc s);
               lc_proofs := lc_proofs (ar_lc s); lc_next_id := lc_next_id (ar_lc s) |} s.
Definition on_hold : ArtifactDb := put_on_hold (run_steps 2 (worker_round (days 31)) noted).
Example holds_come_too_late :
  held af_tenant (ar_lc on_hold) = true ∧ is_Some (ar_artifacts on_hold !! (af_tenant, 100 : uuid)) ∧
  ar_artifacts (run_proc (rest_steps 2 (worker_round (days 31)) noted) on_hold).2 !! (af_tenant, 100 : uuid) = None.
Proof. split_and!; vm_compute; by try eexists. Qed.
