(* ===== verification/Identity.v ===== *)
(** * Identities (admin_api/app.py, auth.py, roles.py, tenant_members.py, im_subjects.py)

    Sessions and the roles behind them, tenants and tenant groups, platform users with their
    roles, members of tenants with theirs, and verified associations of IM subjects.  Each
    database transaction is one step; other requests run between any two.  The checks of
    tenant_access.py are one step with the audit row of a refusal.  Session tokens and the
    OIDC exchange are libraries: a decoder of tokens and the claims of a login are
    parameters. *)

From stdpp Require Import sorting.
From S2P Require Import Prelude PyNum Uuids ExecutionBus ToolRegistry AuditChain AdminAccess Interleave Pagination LlmGateway GatewayAdapters AgentDrafts Projections PyRegex.
Open Scope string_scope.
Open Scope list_scope.
Open Scope Z_scope.

(** ** Tables *)
Record TenantRow := {
  tn_slug : string; tn_name : string; tn_status : string; tn_version : Z;
  tn_created_at : instant; tn_updated_at : instant;
}.
Record GroupRow := { gp_name : string; gp_version : Z }.
Record UserRow := {
  us_issuer : string; us_subject : string; us_email : option string; us_display_name : string; us_version : Z;
}.
(** A row of [tenant.member], by tenant and user. *)
Record MemberRow := { me_id : uuid; me_version : Z }.
(** A row of [tenant.im_subject_association], by tenant and the two subjects. *)
Record AssociationRow := {
  as_verification_reference : string; as_verified_by : string; as_verified_at : instant; as_version : Z;
}.

(** [idb_bindings] is the channel type of each row of [tenant.channel_binding]. *)
Record IdentityDb := {
  idb_admin : AdminDb;
  idb_tenants : gmap uuid TenantRow;
  idb_groups : gmap uuid GroupRow;
  idb_group_members : gset (uuid * uuid);
  idb_users : gmap uuid UserRow;
  idb_roles : gset (uuid * string);
  idb_members : gmap (uuid * uuid) MemberRow;
  idb_bindings : gmap (uuid * uuid) string;
  idb_associations : gmap (uuid * string * string) AssociationRow;
  idb_next_id : nat;
}.
Definition set_idb_admin (a : AdminDb) (s : IdentityDb) : IdentityDb :=
  {| idb_admin := a; idb_tenants := idb_tenants s; idb_groups := idb_groups s; idb_group_members := idb_group_members s;
     idb_users := idb_users s; idb_roles := idb_roles s; idb_members := idb_members s; idb_bindings := idb_bindings s;
     idb_associations := idb_associations s; idb_next_id := idb_next_id s |}.
(** A tenant, also among those that the shared checks look up. *)
Definition add_tenant (t : uuid) (r : TenantRow) (s : IdentityDb) : IdentityDb :=
  let a := idb_admin s in
  {| idb_admin := {| ad_tenants := {[t]} ∪ ad_tenants a; ad_members := ad_members a; ad_idempotency := ad_idempotency a; ad_audit := ad_audit a |};
     idb_tenants := <[t := r]> (idb_tenants s); idb_groups := idb_groups s; idb_group_members := idb_group_members s;
     idb_users := idb_users s; idb_roles := idb_roles s; idb_members := idb_members s; idb_bindings := idb_bindings s;
     idb_associations := idb_associations s; idb_next_id := idb_next_id s |}.
Definition add_group (g : uuid) (r : GroupRow) (tenants : list uuid) (s : IdentityDb) : IdentityDb :=
  {| idb_admin := idb_admin s; idb_tenants := idb_tenants s; idb_groups := <[g := r]> (idb_groups s);
     idb_group_members := list_to_set (pair g <$> tenants) ∪ idb_group_members s; idb_users := idb_users s; idb_roles := idb_roles s;
     idb_members := idb_members s; idb_bindings := idb_bindings s; idb_associations := idb_associations s; idb_next_id := idb_next_id s |}.
Definition put_user (u : uuid) (r : UserRow) (s : IdentityDb) : IdentityDb :=
  {| idb_admin := idb_admin s; idb_tenants := idb_tenants s; idb_groups := idb_groups s; idb_group_members := idb_group_members s;
     idb_users := <[u := r]> (idb_users s); idb_roles := idb_roles s; idb_members := idb_members s; idb_bindings := idb_bindings s;
     idb_associations := idb_associations s; idb_next_id := idb_next_id s |}.
Definition add_role (u : uuid) (role : string) (s : IdentityDb) : IdentityDb :=
  {| idb_admin := idb_admin s; idb_tenants := idb_tenants s; idb_groups := idb_groups s; idb_group_members := idb_group_members s;
     idb_users := idb_users s; idb_roles := {[(u, role)]} ∪ idb_roles s; idb_members := idb_members s; idb_bindings := idb_bindings s;
     idb_associations := idb_associations s; idb_next_id := idb_next_id s |}.
Definition put_member (t u : uuid) (r : MemberRow) (s : IdentityDb) : IdentityDb :=
  {| idb_admin := idb_admin s; idb_tenants := idb_tenants s; idb_groups := idb_groups s; idb_group_members := idb_group_members s;
     idb_users := idb_users s; idb_roles := idb_roles s; idb_members := <[(t, u) := r]> (idb_members s); idb_bindings := idb_bindings s;
     idb_associations := idb_associations s; idb_next_id := idb_next_id s |}.
Definition add_member_role (m : MemberRole) (s : IdentityDb) : IdentityDb :=
  let a := idb_admin s in
  set_idb_admin {| ad_tenants := ad_tenants a; ad_members := ad_members a ++ [m]; ad_idempotency := ad_idempotency a; ad_audit := ad_audit a |} s.
Definition set_associations (m : gmap (uuid * string * string) AssociationRow) (s : IdentityDb) : IdentityDb :=
  {| idb_admin := idb_admin s; idb_tenants := idb_tenants s; idb_groups := idb_groups s; idb_group_members := idb_group_members s;
     idb_users := idb_users s; idb_roles := idb_roles s; idb_members := idb_members s; idb_bindings := idb_bindings s;
     idb_associations := m; idb_next_id := idb_next_id s |}.
Definition set_idb_next_id (n : nat) (s : IdentityDb) : IdentityDb :=
  {| idb_admin := idb_admin s; idb_tenants := idb_tenants s; idb_groups := idb_groups s; idb_group_members := idb_group_members s;
     idb_users := idb_users s; idb_roles := idb_roles s; idb_members := idb_members s; idb_bindings := idb_bindings s;
     idb_associations := idb_associations s; idb_next_id := n |}.
#[export] Instance identity_ids : HasIds IdentityDb := {| next_id := idb_next_id; set_next_id := set_idb_next_id |}.
Abbreviation IDM := (ST IdentityDb AdminError).
Abbreviation IDP A := (PM IdentityDb AdminError A).

(** ** Requests *)
Record TenantCreate := { tc_slug : string; tc_name : string }.
Record TenantGroupCreate := { gc_name : string; gc_tenant_ids : list uuid }.
Record PlatformUserCreate := { uc_issuer : string; uc_subject : string; uc_email : option string; uc_display_name : string }.
Definition PLATFORM_ROLE_NAMES : list string := ["PLATFORM_ADMIN"; "PLATFORM_AUDITOR"].
Definition TENANT_ROLE_NAMES : list string := ["TENANT_ADMIN"; "AGENT_DEVELOPER"; "TENANT_AUDITOR"].
(** Claims of an ID token that the provider signed for this client. *)
Record OidcClaims := {
  oc_sub : string; oc_email : option string; oc_name : option string; oc_preferred_username : option string;
}.
(** [a or b] *)
Definition or_else (o : option string) (rest : string) : string :=
  match o with Some s => if bool_decide (s = "") then rest else s | None => rest end.
Definition display_name (c : OidcClaims) : string := or_else (oc_name c) (or_else (oc_preferred_username c) (oc_sub c)).

(** ** Responses, as the ledger keeps them: [json.dumps(..., default=str)] *)
Fixpoint spaced (s : string) : string :=
  match s with
  | EmptyString => EmptyString
  | String c rest => if is_char 84 c then String (Ascii.ascii_of_nat 32) rest else String c (spaced rest)
  end.
Definition str_moment (i : instant) : json := JStr (spaced (isoformat i)).
Definition tenant_json (t : uuid) (r : TenantRow) : json :=
  JObj (obj [("id", identifier t); ("slug", JStr (tn_slug r)); ("name", JStr (tn_name r)); ("status", JStr (tn_status r));
    ("version", JNum (tn_version r)); ("created_at", str_moment (tn_created_at r)); ("updated_at", str_moment (tn_updated_at r))]).
Definition group_json (g : uuid) (r : GroupRow) (tenants : list uuid) : json :=
  JObj (obj [("id", identifier g); ("name", JStr (gp_name r)); ("version", JNum (gp_version r));
    ("tenant_ids", JArr (identifier <$> tenants))]).
Definition user_json (u : uuid) (r : UserRow) (roles : list string) : json :=
  JObj (obj [("id", identifier u); ("issuer", JStr (us_issuer r)); ("subject", JStr (us_subject r)); ("email", nullable JStr (us_email r));
    ("display_name", JStr (us_display_name r)); ("version", JNum (us_version r)); ("roles", texts roles)]).
Definition member_json (t u : uuid) (r : MemberRow) (user : UserRow) (roles : list string) : json :=
  JObj (obj [("tenant_id", identifier t); ("member_id", identifier (me_id r)); ("user_id", identifier u);
    ("display_name", JStr (us_display_name user)); ("email", nullable JStr (us_email user)); ("roles", texts roles);
    ("version", JNum (me_version r))]).
Definition association_json (t : uuid) (first second : string) (r : AssociationRow) : json :=
  JObj (obj [("tenant_id", identifier t); ("subject_id", JStr first); ("related_subject_id", JStr second);
    ("verification_reference", JStr (as_verification_reference r)); ("verified_by", JStr (as_verified_by r));
    ("verified_at", moment (as_verified_at r)); ("version", JNum (as_version r))]).

(** An [integer] column takes no larger value. *)
Definition MAX_INTEGER : Z := 2 ^ 31 - 1.
Definition increment (v : Z) : IDM Z := _ ← ensure (v <? MAX_INTEGER) DataError; mret (v + 1).

Section Service.
(** [decode_session]: the principal of a token with a valid signature, and
    [verify_emergency_password] of the configured administrator. *)
Context (sha256_hex : string → string) (dumps : json → string) (uuid_at : nat → uuid)
  (decode_session : string → option AdminPrincipal) (emergency_username : string) (password_ok : string → string → bool)
  (issuer : string) (collates : string → string → bool).

Definition id_on_admin {A} (m : ADM A) : IDM A := λ s, let '(r, d) := m (idb_admin s) in (r, set_idb_admin d s).
Definition id_audited (now : instant) (p : AdminPrincipal) (action : string) (target_type target_id : string)
    (tenant_id : option uuid) (details : jobject) : IDM unit :=
  id_on_admin (audited sha256_hex dumps uuid_at now (Some p) action "ALLOW" (Some target_type) (Some target_id) tenant_id details).
Definition write_audit_step (fault : txn_fault) (now : instant) (p : option AdminPrincipal) (action decision : string)
    (target_type target_id : option string) (details : jobject) : IDP unit :=
  atomically (id_on_admin (audited_alone sha256_hex dumps uuid_at fault now p action decision target_type target_id None details)).
(** [replay_for], the body, and [remember] in one transaction. *)
Definition id_command (fault : txn_fault) (p : AdminPrincipal) (key operation : string) (payload : jobject) (body : IDM json)
    : IDP json :=
  atomically (transaction fault ConnectionLost (
    replayed ← id_on_admin (replay_for sha256_hex dumps (ap_subject p) key operation payload);
    match replayed with
    | Some response => mret response
    | None =>
        r ← body;
        _ ← id_on_admin (remember sha256_hex dumps (ap_subject p) key operation payload r);
        mret r
    end)).
(** [except IntegrityError] *)
Definition on_integrity_error {A} (status : Z) (detail : string) (p : IDP A) : IDP A :=
  pm_catch p (λ e, match e with IntegrityError => pm_raise (Http status detail) | _ => pm_raise e end).

(** ** Sessions *)
Definition emergency_principal : AdminPrincipal :=
  {| ap_subject := "emergency:" +:+ emergency_username; ap_auth_method := "emergency"; ap_roles := ["PLATFORM_ADMIN"] |}.
Definition emergency_login (fault : txn_fault) (now : instant) (username password : string) : IDP AdminPrincipal :=
  if negb (password_ok username password) then
    _ <-- write_audit_step fault now None "auth.emergency.login" "DENY" None None {["username" := JStr username]};
    pm_raise (Http 401 "invalid credentials")
  else
    _ <-- write_audit_step fault now (Some emergency_principal) "auth.emergency.login" "ALLOW" None None ∅;
    pm_ret emergency_principal.

Definition user_roles (u : uuid) (s : IdentityDb) : list string :=
  snd <$> filter (λ ur : uuid * string, ur.1 = u) (elements (idb_roles s)).
Definition identity_of (iss sub : string) (s : IdentityDb) : option (uuid * UserRow) :=
  head (filter (λ ur : uuid * UserRow, us_issuer ur.2 = iss ∧ us_subject ur.2 = sub) (map_to_list (idb_users s))).
Definition upsert_user (claims : OidcClaims) : IDM uuid :=
  id ← draw_id uuid_at;
  found ← gets (identity_of issuer (oc_sub claims));
  match found with
  | Some (u, r) =>
      v ← increment (us_version r);
      _ ← modify (put_user u {| us_issuer := us_issuer r; us_subject := us_subject r; us_email := oc_email claims;
                                us_display_name := display_name claims; us_version := v |});
      mret u
  | None =>
      free ← gets (λ s, bool_decide (idb_users s !! id = None));
      _ ← ensure free IntegrityError;
      _ ← modify (put_user id {| us_issuer := issuer; us_subject := oc_sub claims; us_email := oc_email claims;
                                 us_display_name := display_name claims; us_version := 1 |});
      mret id
  end.
(** [oidc_callback], once the provider has answered. *)
Definition oidc_callback (f1 f2 : txn_fault) (now : instant) (claims : OidcClaims) : IDP AdminPrincipal :=
  p <-- atomically (transaction f1 ConnectionLost (
    u ← upsert_user claims;
    roles ← gets (user_roles u);
    mret {| ap_subject := uuid_text u; ap_auth_method := "oidc"; ap_roles := roles |}));
  _ <-- write_audit_step f2 now (Some p) "auth.oidc.login" "ALLOW" (Some "platform_user") (Some (ap_subject p)) ∅;
  pm_ret p.

(** [principal_from_request]: the roles of an OIDC session are those of the user now. *)
Definition principal_from_request (fault : txn_fault) (token : option string) : IDP AdminPrincipal :=
  if bool_decide (default "" token = "") then pm_raise (Http 401 "authentication required") else
  match decode_session (default "" token) with
  | None => pm_raise (Http 401 "invalid session")
  | Some p =>
      if bool_decide (ap_auth_method p = "oidc") then
        match parse_uuid (ap_subject p) with
        | None => pm_raise (Http 401 "invalid session")
        | Some u =>
            found <-- atomically (transaction fault ConnectionLost (gets (λ s, (bool_decide (is_Some (idb_users s !! u)), user_roles u s))));
            if negb found.1 then pm_raise (Http 401 "invalid session")
            else pm_ret {| ap_subject := ap_subject p; ap_auth_method := ap_auth_method p; ap_roles := found.2 |}
        end
      else pm_ret p
  end.
(** [require_role] *)
Definition require_role (p : AdminPrincipal) (roles : list string) : IDP unit :=
  if meets (ap_roles p) roles then pm_ret tt else pm_raise (Http 403 "insufficient role").

(** ** Tenants, groups and users *)
Definition slug_taken (slug : string) (s : IdentityDb) : bool :=
  existsb (λ kr : uuid * TenantRow, bool_decide (tn_slug kr.2 = slug)) (map_to_list (idb_tenants s)).
Definition create_tenant (fault : txn_fault) (now : instant) (p : AdminPrincipal) (payload : TenantCreate) (key : string) : IDP json :=
  _ <-- require_role p ["PLATFORM_ADMIN"];
  t <-- atomically (draw_id uuid_at);
  on_integrity_error 409 "tenant slug already exists" (id_command fault p key "tenant.create"
    (obj [("slug", JStr (tc_slug payload)); ("name", JStr (tc_name payload))]) (
    let row := {| tn_slug := tc_slug payload; tn_name := tc_name payload; tn_status := "ACTIVE"; tn_version := 1;
                  tn_created_at := now; tn_updated_at := now |} in
    ok ← gets (λ s, is_slug (tc_slug payload) && text_between 1 200 (tc_name payload)
                    && bool_decide (idb_tenants s !! t = None) && negb (slug_taken (tc_slug payload) s));
    _ ← ensure ok IntegrityError;
    _ ← modify (add_tenant t row);
    _ ← id_audited now p "tenant.create" "tenant" (uuid_text t) (Some t) ∅;
    mret (tenant_json t row))).

Definition group_name_taken (name : string) (s : IdentityDb) : bool :=
  existsb (λ kr : uuid * GroupRow, bool_decide (gp_name kr.2 = name)) (map_to_list (idb_groups s)).
Definition create_group (fault : txn_fault) (now : instant) (p : AdminPrincipal) (payload : TenantGroupCreate) (key : string) : IDP json :=
  _ <-- require_role p ["PLATFORM_ADMIN"];
  g <-- atomically (draw_id uuid_at);
  on_integrity_error 409 "tenant group conflicts with existing data" (id_command fault p key "tenant_group.create"
    (obj [("name", JStr (gc_name payload)); ("tenant_ids", JArr (identifier <$> gc_tenant_ids payload))]) (
    let row := {| gp_name := gc_name payload; gp_version := 1 |} in
    ok ← gets (λ s, text_between 1 200 (gc_name payload) && bool_decide (idb_groups s !! g = None)
                    && negb (group_name_taken (gc_name payload) s)
                    && bool_decide (NoDup (gc_tenant_ids payload))
                    && forallb (λ t, bool_decide (is_Some (idb_tenants s !! t))) (gc_tenant_ids payload));
    _ ← ensure ok IntegrityError;
    _ ← modify (add_group g row (gc_tenant_ids payload));
    _ ← id_audited now p "tenant_group.create" "tenant_group" (uuid_text g) None ∅;
    mret (group_json g row (gc_tenant_ids payload)))).

Definition create_user (fault : txn_fault) (now : instant) (p : AdminPrincipal) (payload : PlatformUserCreate) (key : string) : IDP json :=
  _ <-- require_role p ["PLATFORM_ADMIN"];
  u <-- atomically (draw_id uuid_at);
  on_integrity_error 409 "platform identity already exists" (id_command fault p key "platform_user.create"
    (obj [("issuer", JStr (uc_issuer payload)); ("subject", JStr (uc_subject payload)); ("email", nullable JStr (uc_email payload));
          ("display_name", JStr (uc_display_name payload))]) (
    let row := {| us_issuer := uc_issuer payload; us_subject := uc_subject payload; us_email := uc_email payload;
                  us_display_name := uc_display_name payload; us_version := 1 |} in
    ok ← gets (λ s, bool_decide (idb_users s !! u = None)
                    && bool_decide (identity_of (uc_issuer payload) (uc_subject payload) s = None));
    _ ← ensure ok IntegrityError;
    _ ← modify (put_user u row);
    _ ← id_audited now p "platform_user.create" "platform_user" (uuid_text u) None ∅;
    mret (user_json u row []))).

(** ** Roles *)
Definition with_version (v : Z) (r : UserRow) : UserRow :=
  {| us_issuer := us_issuer r; us_subject := us_subject r; us_email := us_email r; us_display_name := us_display_name r; us_version := v |}.
(** [assign_platform_role] with the answers of its endpoint. *)
Definition assign_platform_role (now : instant) (p : AdminPrincipal) (u : uuid) (role : string) (expected_version : Z) : IDM json :=
  found ← gets (λ s, idb_users s !! u);
  r ← get_or_raise found (Http 404 "platform user not found");
  _ ← ensure (us_version r =? expected_version) (Http 412 "platform user version changed");
  assigned ← gets (λ s, bool_decide ((u, role) ∈ idb_roles s));
  if (assigned : bool) then mret (JObj (obj [("version", JNum expected_version)])) else
  v ← increment (us_version r);
  _ ← modify (put_user u (with_version v r));
  _ ← modify (add_role u role);
  _ ← id_audited now p "platform_role.assign" "platform_user" (uuid_text u) None {["role" := JStr role]};
  mret (JObj (obj [("version", JNum v)])).
Definition assign_role (fault : txn_fault) (now : instant) (p : AdminPrincipal) (u : uuid) (role key if_match : string) : IDP json :=
  if negb (bool_decide (role ∈ PLATFORM_ROLE_NAMES)) then pm_raise (Http 422 "") else
  _ <-- require_role p ["PLATFORM_ADMIN"];
  match parse_if_match if_match with
  | inl e => pm_raise (Http 400 e)
  | inr expected_version =>
      on_integrity_error 404 "platform user not found" (id_command fault p key "platform_role.assign"
        (obj [("user_id", identifier u); ("role", JStr role); ("version", JNum expected_version)])
        (assign_platform_role now p u role expected_version))
  end.

(** [INSERT ... ON CONFLICT (tenant_id,user_id)]: the member, made if need be. *)
Definition ensure_member (t u : uuid) : IDM MemberRow :=
  id ← draw_id uuid_at;
  found ← gets (λ s, idb_members s !! (t, u));
  match found with
  | Some m => mret m
  | None =>
      ok ← gets (λ s, bool_decide (t ∈ ad_tenants (idb_admin s)) && bool_decide (is_Some (idb_users s !! u))
                      && forallb (λ km : (uuid * uuid) * MemberRow, negb (bool_decide (km.1.1 = t ∧ me_id km.2 = id))) (map_to_list (idb_members s)));
      _ ← ensure ok IntegrityError;
      let m := {| me_id := id; me_version := 1 |} in
      _ ← modify (put_member t u m);
      mret m
  end.
Definition grant_member_role (now : instant) (p : AdminPrincipal) (t u : uuid) (role : string) : IDM json :=
  found ← gets (λ s, idb_users s !! u);
  user ← get_or_raise found (Http 404 "platform user not found");
  m ← ensure_member t u;
  held ← gets (λ s, bool_decide (role ∈ member_roles t u (idb_admin s)));
  m ← (if (held : bool) then mret m else
    _ ← modify (add_member_role {| mr_tenant_id := t; mr_user_id := u; mr_role := role |});
    v ← increment (me_version m);
    let m := {| me_id := me_id m; me_version := v |} in
    _ ← modify (put_member t u m);
    _ ← id_audited now p "tenant_member.role.assign" "tenant_member" (uuid_text (me_id m)) (Some t)
          (obj [("user_id", identifier u); ("role", JStr role)]);
    mret m);
  roles ← gets (λ s, merge_sort String.le (member_roles t u (idb_admin s)));
  mret (member_json t u m user roles).
Definition assign_member_role (f1 f2 : txn_fault) (now : instant) (p : AdminPrincipal) (t u : uuid) (role key : string) : IDP json :=
  if negb (bool_decide (role ∈ TENANT_ROLE_NAMES)) then pm_raise (Http 422 "") else
  _ <-- atomically (id_on_admin (require_tenant_admin sha256_hex dumps uuid_at f1 now p t "tenant_member.role.assign" "platform_user"
          (Some (uuid_text u))));
  id_command f2 p key "tenant_member.role.assign" (obj [("tenant_id", identifier t); ("user_id", identifier u); ("role", JStr role)])
    (grant_member_role now p t u role).

(** [list_tenants]: all of them for readers of the platform, otherwise those with a membership. *)
Definition platform_reader (p : AdminPrincipal) : bool := meets (ap_roles p) ["PLATFORM_ADMIN"; "PLATFORM_AUDITOR"].
Definition is_member (p : AdminPrincipal) (t : uuid) (s : IdentityDb) : bool :=
  match principal_user p with Some u => bool_decide (is_Some (idb_members s !! (t, u))) | None => false end.
Definition visible_tenants (p : AdminPrincipal) (s : IdentityDb) : list (uuid * TenantRow) :=
  filter (λ tr : uuid * TenantRow, platform_reader p || is_member p tr.1 s = true) (map_to_list (idb_tenants s)).
Definition list_tenants (fault : txn_fault) (p : AdminPrincipal) (limit : Z) (cursor : option string) : IDP json :=
  if negb ((1 <=? limit) && (limit <=? 100)) then pm_raise (Http 422 "") else
  cursor_id <-- match cursor with
                | None => pm_ret None
                | Some c => match decode_cursor c with Some u => pm_ret (Some u) | None => pm_raise (Http 400 "invalid cursor") end
                end;
  if negb (platform_reader p) && negb (bool_decide (ap_auth_method p = "oidc")) then pm_raise (Http 403 "insufficient role") else
  if bool_decide (ap_auth_method p = "oidc") && negb (bool_decide (is_Some (parse_uuid (ap_subject p)))) then pm_raise AdminAssert else
  atomically (transaction fault ConnectionLost (gets (λ s,
    let '(page, next) := page_of fst cursor_id (Z.to_nat limit) (visible_tenants p s) in
    JObj (obj [("items", JArr ((λ r : uuid * TenantRow, tenant_json r.1 r.2) <$> page)); ("next_cursor", nullable JStr next)])))).

(** ** Associations of IM subjects *)

(** The part before the first colon, and the rest. *)
Fixpoint cut_colon (s : string) : option (string * string) :=
  match s with
  | EmptyString => None
  | String c rest => if is_char 58 c then Some (EmptyString, rest)
                     else (λ p : string * string, (String c p.1, p.2)) <$> cut_colon rest
  end.
(** [subject_id.split(":", 3)] of a subject that the pattern accepts. *)
Definition split_subject (s : string) : option (string * string * string * string) :=
  '(prefix, rest) ← cut_colon s; '(channel, rest) ← cut_colon rest; '(binding, user) ← cut_colon rest;
  Some (prefix, channel, binding, user).
Definition im_subject_ok (s : string) : bool :=
  match split_subject s with
  | Some (prefix, channel, binding, user) =>
      bool_decide (prefix = "im") && bool_decide (channel ∈ ["FAKE"; "WECOM"; "FEISHU"]) && text_between 1 64 binding
      && text_between 1 128 user && negb (existsb (is_char 10) (String.list_ascii_of_string user)) && text_between 0 256 s
  | None => false
  end.
Record SubjectAssociationRequest := { sa_subject_id : string; sa_related_subject_id : string; sa_verification_reference : string }.
Definition association_request_ok (r : SubjectAssociationRequest) : bool :=
  im_subject_ok (sa_subject_id r) && im_subject_ok (sa_related_subject_id r) && text_between 1 256 (sa_verification_reference r)
  && negb (bool_decide (sa_subject_id r = sa_related_subject_id r)).
(** Python sorts by code points, which is the order of the bytes in UTF-8. *)
Definition canonical_pair (a b : string) : string * string := if bool_decide (String.le a b) then (a, b) else (b, a).
Definition association_audit_id (a b : string) : string :=
  let '(first, second) := canonical_pair a b in sha256_hex (first +:+ String (Ascii.ascii_of_nat 10) second).

(** [_verify_subject_bindings], for one subject. *)
Definition verify_binding (t : uuid) (subject : string) : IDM unit :=
  parts ← get_or_raise (split_subject subject) AdminAssert;
  let '(_, channel, binding, _) := parts in
  b ← get_or_raise (parse_uuid binding) (Http 422 "IM_SUBJECT_ASSOCIATION_INVALID");
  found ← gets (λ s, bool_decide (idb_bindings s !! (t, b) = Some channel));
  ensure found (Http 422 "IM_SUBJECT_ASSOCIATION_INVALID").
(** The checks of a row; the order of texts is that of the database. *)
Definition association_check (first second : string) (r : AssociationRow) : bool :=
  text_between 1 256 (as_verified_by r) && collates first second.

Definition associate (now : instant) (p : AdminPrincipal) (t : uuid) (first second reference audit_id : string) (if_match : option string) : IDM json :=
  _ ← verify_binding t first;
  _ ← verify_binding t second;
  found ← gets (λ s, idb_associations s !! (t, first, second));
  let row v := {| as_verification_reference := reference; as_verified_by := ap_subject p; as_verified_at := now; as_version := v |} in
  r ← match if_match with
      | None =>
          _ ← ensure (association_check first second (row 1)) IntegrityError;
          _ ← ensure (bool_decide (found = None)) (Http 428 "If-Match required for update");
          known ← gets (λ s, bool_decide (t ∈ ad_tenants (idb_admin s)));
          _ ← ensure known IntegrityError;
          mret (row 1)
      | Some etag =>
          match parse_if_match etag with
          | inl e => raise (Http 400 e)
          | inr expected =>
              match found with
              | None => raise (Http 404 "IM_SUBJECT_ASSOCIATION_NOT_FOUND")
              | Some old =>
                  _ ← ensure (as_version old =? expected) (Http 412 "association version mismatch");
                  v ← increment (as_version old);
                  _ ← ensure (association_check first second (row v)) IntegrityError;
                  mret (row v)
              end
          end
      end;
  _ ← modify (λ s, set_associations (<[(t, first, second) := r]> (idb_associations s)) s);
  _ ← id_audited now p "im_subject.associate" "im_subject_association" audit_id (Some t)
        (obj [("subject_id", JStr first); ("related_subject_id", JStr second); ("verification_reference", JStr reference);
              ("version", JNum (as_version r))]);
  mret (association_json t first second r).
Definition verify_association (f1 f2 : txn_fault) (now : instant) (p : AdminPrincipal) (t : uuid) (payload : SubjectAssociationRequest)
    (key : string) (if_match : option string) : IDP json :=
  if negb (association_request_ok payload) then pm_raise (Http 422 "") else
  let audit_id := association_audit_id (sa_subject_id payload) (sa_related_subject_id payload) in
  _ <-- atomically (id_on_admin (require_tenant_admin sha256_hex dumps uuid_at f1 now p t "im_subject.associate" "im_subject_association"
          (Some audit_id)));
  let '(first, second) := canonical_pair (sa_subject_id payload) (sa_related_subject_id payload) in
  id_command f2 p key "im_subject.associate"
    (obj [("tenant_id", identifier t); ("subject_id", JStr first); ("related_subject_id", JStr second);
          ("verification_reference", JStr (sa_verification_reference payload)); ("if_match", nullable JStr if_match)])
    (associate now p t first second (sa_verification_reference payload) audit_id if_match).

Definition revoke (now : instant) (p : AdminPrincipal) (t : uuid) (first second audit_id : string) (expected : Z) : IDM json :=
  found ← gets (λ s, idb_associations s !! (t, first, second));
  old ← get_or_raise found (Http 404 "IM_SUBJECT_ASSOCIATION_NOT_FOUND");
  _ ← ensure (as_version old =? expected) (Http 412 "association version mismatch");
  _ ← modify (λ s, set_associations (delete (t, first, second) (idb_associations s)) s);
  _ ← id_audited now p "im_subject.revoke" "im_subject_association" audit_id (Some t)
        (obj [("subject_id", JStr first); ("related_subject_id", JStr second)]);
  mret (JObj {["deleted" := JBool true]}).
Definition revoke_association (f1 f2 : txn_fault) (now : instant) (p : AdminPrincipal) (t : uuid) (subject related key if_match : string)
    : IDP json :=
  if negb (im_subject_ok subject && im_subject_ok related) then pm_raise (Http 422 "") else
  if bool_decide (subject = related) then pm_raise (Http 422 "IM_SUBJECT_ASSOCIATION_INVALID") else
  let audit_id := association_audit_id subject related in
  _ <-- atomically (id_on_admin (require_tenant_admin sha256_hex dumps uuid_at f1 now p t "im_subject.revoke" "im_subject_association"
          (Some audit_id)));
  let '(first, second) := canonical_pair subject related in
  match parse_if_match if_match with
  | inl e => pm_raise (Http 400 e)
  | inr expected =>
      id_command f2 p key "im_subject.revoke"
        (obj [("tenant_id", identifier t); ("subject_id", JStr first); ("related_subject_id", JStr second); ("expected_version", JNum expected)])
        (revoke now p t first second audit_id expected)
  end.
End Service.
