(* ===== verification/IdentityTheorems.v ===== *)
(** * Theorems on identities

    Every platform role and every role in a tenant was granted, with an audit row, by
    somebody who could, and so on back to the emergency administrator, in every
    interleaving of requests with crashes; the tables stay consistent; grants compare
    versions; a listing of tenants shows what the caller may see; associations are
    symmetric and confirmed on their bindings. *)

From stdpp Require Import sorting.
From S2P Require Import Prelude PyNum Uuids ExecutionBus ToolRegistry AuditChain AuditTheorems AdminAccess Interleave Pagination LlmGateway GatewayAdapters AgentDrafts Projections PyRegex Identity.
Open Scope string_scope.
Open Scope list_scope.
Open Scope Z_scope.
#[local] Set Default Proof Using "Type*".

Abbreviation events s := (au_events (ad_audit (idb_admin s))).

(** ** Grants in the audit trail *)
Definition platform_grant (e : AuditEvent) (u : uuid) (role : string) : Prop :=
  ae_action e = "platform_role.assign" ∧ ae_decision e = "ALLOW" ∧ ae_target_id e = Some (uuid_text u) ∧
  ae_details e !! "role" = Some (JStr role).
Definition tenant_grant (e : AuditEvent) (t u : uuid) (role : string) : Prop :=
  ae_action e = "tenant_member.role.assign" ∧ ae_decision e = "ALLOW" ∧ ae_tenant_id e = Some t ∧
  ae_details e !! "user_id" = Some (identifier u) ∧ ae_details e !! "role" = Some (JStr role).

Section Trust.
Context (emergency : string) (trail : list AuditEvent).

(** An administrator of the platform: the emergency administrator, and a user whom the
    trail shows to be made one by an administrator.  [method] and [subject] are those of a
    session. *)
Inductive platform_admin : string → string → Prop :=
  | emergency_admin : platform_admin "emergency" emergency
  | granted_admin e u subject :
      e ∈ trail → platform_grant e u "PLATFORM_ADMIN" → parse_uuid subject = Some u →
      platform_admin (ae_auth_method e) (ae_actor e) → platform_admin "oidc" subject.

(** An administrator of a tenant, likewise. *)
Inductive tenant_admin (t : uuid) : string → string → Prop :=
  | platform_tenant_admin method subject : platform_admin method subject → tenant_admin t method subject
  | granted_tenant_admin e u subject :
      e ∈ trail → tenant_grant e t u "TENANT_ADMIN" → parse_uuid subject = Some u →
      tenant_admin t (ae_auth_method e) (ae_actor e) → tenant_admin t "oidc" subject.
End Trust.

Lemma platform_admin_mono emergency trail trail' method subject : trail ⊆ trail' →
  platform_admin emergency trail method subject → platform_admin emergency trail' method subject.
Proof. intros Hsub. induction 1; econstructor; eauto. Qed.
Lemma tenant_admin_mono emergency trail trail' t method subject : trail ⊆ trail' →
  tenant_admin emergency trail t method subject → tenant_admin emergency trail' t method subject.
Proof. intros Hsub. induction 1; [constructor; by eapply platform_admin_mono|]. eapply granted_tenant_admin; eauto. Qed.

(** ** What the tables say *)

(** The tables that the invariant is about. *)
Record Tables := {
  tb_tenants : gset uuid; tb_members : list MemberRole; tb_tenant_rows : gmap uuid TenantRow; tb_groups : gmap uuid GroupRow;
  tb_group_members : gset (uuid * uuid); tb_users : gmap uuid UserRow; tb_roles : gset (uuid * string);
  tb_member_rows : gmap (uuid * uuid) MemberRow; tb_associations : gmap (uuid * string * string) AssociationRow;
}.
Definition tables (s : IdentityDb) : Tables :=
  {| tb_tenants := ad_tenants (idb_admin s); tb_members := ad_members (idb_admin s); tb_tenant_rows := idb_tenants s;
     tb_groups := idb_groups s; tb_group_members := idb_group_members s; tb_users := idb_users s; tb_roles := idb_roles s;
     tb_member_rows := idb_members s; tb_associations := idb_associations s |}.

(** A step that only adds to the audit trail and to the ledger. *)
Definition calm (s s' : IdentityDb) : Prop := tables s' = tables s ∧ events s `prefix_of` events s'.
Lemma calm_refl s : calm s s.
Proof. done. Qed.
Lemma calm_trans s1 s2 s3 : calm s1 s2 → calm s2 s3 → calm s1 s3.
Proof. intros [H1 E1] [H2 E2]. split; [congruence|]. by transitivity (events s2). Qed.

(** ** Runs of the shared operations *)
Section Shared.
Context (sha256_hex : string → string) (dumps : json → string) (uuid_at : nat → uuid).

Lemma insert_audit_run tenant_exists now p action decision tt tid tenant details trace au u au' :
  insert_audit sha256_hex dumps uuid_at tenant_exists now p action decision tt tid tenant details trace au = (Ok u, au') →
  ∃ e, au_events au' = au_events au ++ [e] ∧ ae_actor e = default "anonymous" (pr_subject <$> p) ∧
    ae_auth_method e = default "anonymous" (pr_auth_method <$> p) ∧ ae_action e = action ∧ ae_decision e = decision ∧
    ae_target_id e = tid ∧ ae_tenant_id e = tenant ∧ ae_details e = details.
Proof.
  unfold insert_audit, draw_id. intros Hrun. run_inv.
  match goal with H : insert_event_row _ _ = _ |- _ => apply insert_event_row_run in H as -> end. cbn [set_au_events au_events].
  match goal with |- ∃ e, au_events ?x ++ [?row] = _ ∧ _ => assert (au_events x = au_events au) as -> end.
  { destruct tenant as [t|]; run_inv; [|done].
    match goal with H : append_to_chain _ _ _ _ _ _ = _ |- _ => apply append_to_chain_run in H as [_ ->] end. done. }
  eexists. split; [reflexivity|done].
Qed.
Lemma id_audited_run now p action ty tid tenant details s u s' :
  id_audited sha256_hex dumps uuid_at now p action ty tid tenant details s = (Ok u, s') →
  tables s' = tables s ∧ ∃ e, events s' = events s ++ [e] ∧ ae_actor e = ap_subject p ∧ ae_auth_method e = ap_auth_method p ∧
    ae_action e = action ∧ ae_decision e = "ALLOW" ∧ ae_target_id e = Some tid ∧ ae_tenant_id e = tenant ∧ ae_details e = details.
Proof.
  unfold id_audited, id_on_admin, audited, on_audit. destruct (insert_audit _ _ _ _ _ _ _ _ _ _ _ _ _ _) as [[[]|e] au] eqn:Hi; [|done].
  intros [= _ <-]. split; [done|]. by apply insert_audit_run in Hi.
Qed.
Lemma audited_alone_calm fault now p action decision tt tid tenant details s :
  calm s (id_on_admin (audited_alone sha256_hex dumps uuid_at fault now p action decision tt tid tenant details) s).2.
Proof.
  unfold id_on_admin, audited_alone, on_audit, write_audit, transaction.
  destruct (insert_audit _ _ _ _ _ _ _ _ _ _ _ _ _ _) as [[[]|e] au] eqn:Hi; [|done].
  apply insert_audit_run in Hi as (e & He & _). assert (au_events (ad_audit (idb_admin s)) `prefix_of` au_events au) by (rewrite He; by eexists).
  by destruct fault.
Qed.
Lemma require_tenant_admin_calm fault now p t action ty tid s :
  calm s (id_on_admin (require_tenant_admin sha256_hex dumps uuid_at fault now p t action ty tid) s).2.
Proof.
  unfold id_on_admin, require_tenant_admin, mbind, ST_mbind, gets, mret, ST_mret, raise. case_bool_decide; [done|].
  destruct (match principal_user p with Some u => _ | None => _ end); [done|].
  pose proof (audited_alone_calm fault now (Some p) action "DENY" (Some ty) tid
    (if bool_decide (t ∈ ad_tenants (idb_admin s)) then Some t else None) {["reason" := JStr "tenant_admin_required"]} s) as Hc.
  unfold id_on_admin in Hc. by destruct (audited_alone _ _ _ _ _ _ _ _ _ _ _ _ _) as [[]].
Qed.
(** Who passes the check administers the tenant. *)
Lemma require_tenant_admin_run fault now p t action ty tid s s' :
  id_on_admin (require_tenant_admin sha256_hex dumps uuid_at fault now p t action ty tid) s = (Ok tt, s') →
  s' = s ∧ ("PLATFORM_ADMIN" ∈ ap_roles p ∨
    ∃ u, principal_user p = Some u ∧ "TENANT_ADMIN" ∈ member_roles t u (idb_admin s)).
Proof.
  unfold id_on_admin, require_tenant_admin, mbind, ST_mbind, gets, mret, ST_mret, raise.
  assert (set_idb_admin (idb_admin s) s = s) as Hs by by destruct s.
  case_bool_decide; [intros [= <-]; rewrite Hs; by eauto|]. destruct (principal_user p) as [u|].
  - case_bool_decide; [intros [= <-]; rewrite Hs; by eauto|]. by destruct (audited_alone _ _ _ _ _ _ _ _ _ _ _ _ _) as [[]].
  - by destruct (audited_alone _ _ _ _ _ _ _ _ _ _ _ _ _) as [[]].
Qed.
Lemma replay_run actor key operation payload s r s' :
  id_on_admin (replay_for sha256_hex dumps actor key operation payload) s = (Ok r, s') → s' = s.
Proof.
  unfold id_on_admin, replay_for, mbind, ST_mbind, gets, mret, ST_mret. destruct (ad_idempotency _ !! _) as [x|].
  - unfold ensure. destruct (_ && _); [|done]. intros [= _ <-]. by destruct s.
  - intros [= _ <-]. by destruct s.
Qed.
Lemma remember_run actor key operation payload response s u s' :
  id_on_admin (remember sha256_hex dumps actor key operation payload response) s = (Ok u, s') → calm s s'.
Proof.
  unfold id_on_admin, remember, mbind, ST_mbind, gets, modify, ensure. destruct (negb _); [|done]. by intros [= _ <-].
Qed.
(** A command keeps what its body keeps. *)
Lemma id_command_run p key operation payload body s r s' (I : IdentityDb → Prop) (G : IdentityDb → IdentityDb → Prop) :
  (∀ s, G s s) → (∀ s s' , I s → calm s s' → I s') → (∀ s1 s2 s3, G s1 s2 → calm s2 s3 → G s1 s3) →
  (∀ s r s', I s → body s = (Ok r, s') → I s' ∧ G s s') → I s →
  (replayed ← id_on_admin (replay_for sha256_hex dumps (ap_subject p) key operation payload);
   match replayed with
   | Some response => mret response
   | None => r ← body; _ ← id_on_admin (remember sha256_hex dumps (ap_subject p) key operation payload r); mret r
   end) s = (Ok r, s') → I s' ∧ G s s'.
Proof.
  intros Hrefl Hi Hg Hbody HI Hrun. run_inv. match goal with H : id_on_admin (replay_for _ _ _ _ _ _) _ = _ |- _ => apply replay_run in H as -> end.
  case_match; run_inv; [done|]. match goal with H : body _ = _ |- _ => apply Hbody in H as [HI' HG']; [|done] end.
  match goal with H : id_on_admin (remember _ _ _ _ _ _ _) _ = _ |- _ => apply remember_run in H end. eauto.
Qed.
End Shared.

(** ** Growth *)
(** What a step of anyone leaves: the trail is extended, roles and memberships stay. *)
Definition grows (s s' : IdentityDb) : Prop :=
  events s `prefix_of` events s' ∧ idb_roles s ⊆ idb_roles s' ∧ ad_members (idb_admin s) ⊆ ad_members (idb_admin s').

Lemma growth_refl s : grows s s.
Proof. done. Qed.
Lemma calm_grows s s' : calm s s' → grows s s'.
Proof. intros [Ht He]. unfold tables in Ht. injection Ht as ????????? . split; [done|]. split; congruence || set_solver. Qed.
Lemma growth_trans s1 s2 s3 : grows s1 s2 → grows s2 s3 → grows s1 s3.
Proof. intros (E1 & R1 & M1) (E2 & R2 & M2). split; [by transitivity (events s2)|]. split; set_solver. Qed.
Lemma grows_calm s1 s2 s3 : grows s1 s2 → calm s2 s3 → grows s1 s3.
Proof. intros H1 H2%calm_grows. by eapply growth_trans. Qed.
Lemma prefix_sub {A} (l l' : list A) : l `prefix_of` l' → l ⊆ l'.
Proof. intros [k ->] x Hx. apply elem_of_app. by left. Qed.

Lemma member_roles_spec t u role d : role ∈ member_roles t u d ↔
  {| mr_tenant_id := t; mr_user_id := u; mr_role := role |} ∈ ad_members d.
Proof.
  unfold member_roles. rewrite list_elem_of_fmap. split.
  - intros ([t' u' r] & -> & [[Ht Hu] Hin]%list_elem_of_filter). simpl in *. by subst.
  - intros Hin. eexists. split; [|apply list_elem_of_filter; split; [|exact Hin]]; done.
Qed.

(** ** The invariant *)
Section Service.
Context (sha256_hex : string → string) (dumps : json → string) (uuid_at : nat → uuid)
  (decode_session : string → option AdminPrincipal) (emergency_username : string) (password_ok : string → string → bool)
  (issuer : string) (collates : string → string → bool).
Abbreviation emergency := ("emergency:" +:+ emergency_username).

Definition member_count (t u : uuid) (l : list MemberRole) : Z :=
  Z.of_nat (length (filter (λ m, mr_tenant_id m = t ∧ mr_user_id m = u) l)).

(** Roles come from grants in the trail; keys refer to rows that exist; names are unique;
    the version of a member counts its roles. *)
Record IdentityInv (s : IdentityDb) : Prop := {
  ii_roles u role : (u, role) ∈ idb_roles s →
    is_Some (idb_users s !! u) ∧ role ∈ PLATFORM_ROLE_NAMES ∧
    ∃ e, e ∈ events s ∧ platform_grant e u role ∧ platform_admin emergency (events s) (ae_auth_method e) (ae_actor e);
  ii_members m : m ∈ ad_members (idb_admin s) →
    is_Some (idb_members s !! (mr_tenant_id m, mr_user_id m)) ∧ mr_role m ∈ TENANT_ROLE_NAMES ∧
    ∃ e, e ∈ events s ∧ tenant_grant e (mr_tenant_id m) (mr_user_id m) (mr_role m) ∧
      tenant_admin emergency (events s) (mr_tenant_id m) (ae_auth_method e) (ae_actor e);
  ii_members_once : NoDup (ad_members (idb_admin s));
  ii_member_rows t u r : idb_members s !! (t, u) = Some r →
    is_Some (idb_tenants s !! t) ∧ is_Some (idb_users s !! u) ∧ me_version r = 1 + member_count t u (ad_members (idb_admin s));
  ii_tenants : ad_tenants (idb_admin s) = dom (idb_tenants s);
  ii_slugs t t' r r' : idb_tenants s !! t = Some r → idb_tenants s !! t' = Some r' → tn_slug r = tn_slug r' → t = t';
  ii_identities u u' r r' : idb_users s !! u = Some r → idb_users s !! u' = Some r' →
    us_issuer r = us_issuer r' → us_subject r = us_subject r' → u = u';
  ii_groups g t : (g, t) ∈ idb_group_members s → is_Some (idb_groups s !! g) ∧ is_Some (idb_tenants s !! t);
  ii_associations t a b r : idb_associations s !! (t, a, b) = Some r →
    is_Some (idb_tenants s !! t) ∧ String.le a b ∧ a ≠ b ∧ collates a b = true;
}.
Lemma inv_calm s s' : IdentityInv s → calm s s' → IdentityInv s'.
Proof.
  intros Hi [Ht He]. unfold tables in Ht. injection Ht as Ht1 Ht2 Ht3 Ht4 Ht5 Ht6 Ht7 Ht8 Ht9. apply prefix_sub in He.
  split; rewrite ?Ht1, ?Ht2, ?Ht3, ?Ht4, ?Ht5, ?Ht6, ?Ht7, ?Ht8, ?Ht9.
  - intros u role Hr. destruct (ii_roles _ Hi _ _ Hr) as (Hu & Hn & e & Hin & Hg & Ha). split_and!; [done..|]. exists e.
    split_and!; [by apply He|done|by eapply platform_admin_mono].
  - intros m Hm. destruct (ii_members _ Hi _ Hm) as (Hu & Hn & e & Hin & Hg & Ha). split_and!; [done..|]. exists e.
    split_and!; [by apply He|done|by eapply tenant_admin_mono].
  - apply Hi.
  - apply Hi.
  - apply Hi.
  - apply Hi.
  - apply Hi.
  - apply Hi.
  - apply Hi.
Qed.

(** ** Who calls *)

(** A principal that the session check produced. *)
Definition authentic (p : AdminPrincipal) (s : IdentityDb) : Prop :=
  p = emergency_principal emergency_username ∨
  ap_auth_method p = "oidc" ∧ ∃ u, parse_uuid (ap_subject p) = Some u ∧ ∀ role, role ∈ ap_roles p → (u, role) ∈ idb_roles s.
Lemma authentic_stable p : stable IdentityInv grows (authentic p).
Proof.
  intros s s' _ _ (_ & Hr & _) [->|(Hm & u & Hu & Hroles)]; [by left|]. right. split; [done|]. exists u. split; [done|].
  intros role Hrole. by apply Hr, Hroles.
Qed.
Lemma admin_trusted p s : IdentityInv s → authentic p s → "PLATFORM_ADMIN" ∈ ap_roles p →
  platform_admin emergency (events s) (ap_auth_method p) (ap_subject p).
Proof.
  intros Hi [->|(-> & u & Hu & Hroles)] Hp; [constructor|]. destruct (ii_roles _ Hi _ _ (Hroles _ Hp)) as (_ & _ & e & He & Hg & Ha).
  by eapply granted_admin.
Qed.
(** Somebody who may administer the tenant. *)
Definition administers (t : uuid) (p : AdminPrincipal) (s : IdentityDb) : Prop :=
  authentic p s ∧ ("PLATFORM_ADMIN" ∈ ap_roles p ∨
    ∃ u, principal_user p = Some u ∧ "TENANT_ADMIN" ∈ member_roles t u (idb_admin s)).
Lemma administers_stable t p : stable IdentityInv grows (administers t p).
Proof.
  intros s s' Hi Hi' Hg [Ha Hc]. split; [by apply (authentic_stable p s s')|]. destruct Hc as [?|(u & Hu & Hm)]; [by left|]. right. exists u.
  split; [done|]. apply member_roles_spec. apply Hg. by apply member_roles_spec.
Qed.
Lemma administers_trusted t p s : IdentityInv s → administers t p s →
  tenant_admin emergency (events s) t (ap_auth_method p) (ap_subject p).
Proof.
  intros Hi [Ha [Hp|(u & Hu & Hm)]]; [constructor; by apply admin_trusted|]. apply member_roles_spec in Hm.
  destruct (ii_members _ Hi _ Hm) as (_ & _ & e & He & Hg & Hb). simpl in *. unfold principal_user in Hu. case_bool_decide as Hoidc; [|done].
  rewrite Hoidc. by eapply granted_tenant_admin.
Qed.

(** ** Writes *)
Lemma inv_put_user s u r : IdentityInv s →
  (∀ u' r', idb_users s !! u' = Some r' → us_issuer r' = us_issuer r → us_subject r' = us_subject r → u' = u) →
  IdentityInv (put_user u r s).
Proof.
  intros Hi Hone. assert (∀ v, is_Some (idb_users s !! v) → is_Some (<[u := r]> (idb_users s) !! v)) as Hsome.
  { intros v Hv. rewrite lookup_insert_is_Some. destruct (decide (u = v)); [by left|by right]. }
  split; cbn [put_user idb_users idb_roles idb_admin idb_members idb_tenants idb_groups idb_group_members idb_associations]; try apply Hi.
  - intros v role Hr. destruct (ii_roles _ Hi _ _ Hr) as (Hv & Hrest). split; [by apply Hsome|exact Hrest].
  - intros t v m Hm. destruct (ii_member_rows _ Hi _ _ _ Hm) as (Ht & Hv & Hver). split_and!; [done|by apply Hsome|done].
  - intros v v' x x' [[<- <-]|[_ Hx]]%lookup_insert_Some [[<- <-]|[_ Hx']]%lookup_insert_Some H1 H2; [done| | |].
    + symmetry. by eapply Hone.
    + by eapply Hone.
    + by eapply ii_identities.
Qed.
Lemma inv_add_tenant s t r : IdentityInv s → idb_tenants s !! t = None →
  (∀ t' r', idb_tenants s !! t' = Some r' → tn_slug r' ≠ tn_slug r) → IdentityInv (add_tenant t r s).
Proof.
  intros Hi Hnone Hslug. assert (∀ v, is_Some (idb_tenants s !! v) → is_Some (<[t := r]> (idb_tenants s) !! v)) as Hsome.
  { intros v Hv. rewrite lookup_insert_is_Some. destruct (decide (t = v)); [by left|by right]. }
  split; cbn [add_tenant idb_users idb_roles idb_admin idb_members idb_tenants idb_groups idb_group_members idb_associations
    ad_tenants ad_members ad_audit]; try apply Hi.
  - intros t' u m Hm. destruct (ii_member_rows _ Hi _ _ _ Hm) as (Ht & Hrest). split; [by apply Hsome|exact Hrest].
  - by rewrite dom_insert_L, (ii_tenants _ Hi).
  - intros t1 t2 r1 r2 [[<- <-]|[_ H1]]%lookup_insert_Some [[<- <-]|[_ H2]]%lookup_insert_Some Heq; [done| | |by eapply ii_slugs].
    + by destruct (Hslug _ _ H2).
    + by destruct (Hslug _ _ H1).
  - intros g t' Hg. destruct (ii_groups _ Hi _ _ Hg) as [H1 H2]. split; [done|by apply Hsome].
  - intros t' a b x Hx. destruct (ii_associations _ Hi _ _ _ _ Hx) as (H1 & H2). split; [by apply Hsome|done].
Qed.
Lemma inv_add_group s g r l : IdentityInv s → Forall (λ t, is_Some (idb_tenants s !! t)) l → IdentityInv (add_group g r l s).
Proof.
  intros Hi Hl. split; cbn [add_group idb_users idb_roles idb_admin idb_members idb_tenants idb_groups idb_group_members idb_associations];
    try apply Hi.
  intros g' t [Hin|Hin]%elem_of_union.
  - apply elem_of_list_to_set, list_elem_of_fmap in Hin as (t' & [= -> ->] & Hin). split; [by rewrite lookup_insert_eq|].
    rewrite Forall_forall in Hl. by apply Hl.
  - destruct (ii_groups _ Hi _ _ Hin) as [H1 H2]. split; [|done]. rewrite lookup_insert_is_Some. destruct (decide (g = g')); [by left|by right].
Qed.
Lemma inv_set_associations s m : IdentityInv s →
  (∀ t a b r, m !! (t, a, b) = Some r → is_Some (idb_tenants s !! t) ∧ String.le a b ∧ a ≠ b ∧ collates a b = true) →
  IdentityInv (set_associations m s).
Proof.
  intros Hi Hm. split; cbn [set_associations idb_users idb_roles idb_admin idb_members idb_tenants idb_groups idb_group_members idb_associations];
    try apply Hi. exact Hm.
Qed.

(** A role with the event that grants it. *)
Lemma inv_grant_role s s' u role e : IdentityInv s → is_Some (idb_users s !! u) → role ∈ PLATFORM_ROLE_NAMES →
  platform_grant e u role → platform_admin emergency (events s) (ae_auth_method e) (ae_actor e) →
  tables s' = tables (add_role u role s) → events s' = events s ++ [e] → IdentityInv s' ∧ grows s s'.
Proof.
  intros Hi Hu Hrole Hg Ha Ht He. set (s1 := add_role u role s). assert (events s ⊆ events s') as Hsub by (rewrite He; by apply prefix_sub; eexists).
  unfold tables in Ht. injection Ht as Ht1 Ht2 Ht3 Ht4 Ht5 Ht6 Ht7 Ht8 Ht9.
  cbn [add_role idb_admin idb_tenants idb_groups idb_group_members idb_users idb_roles idb_members idb_associations] in *.
  assert (∀ u' role', (u', role') ∈ idb_roles s → is_Some (idb_users s !! u') ∧ role' ∈ PLATFORM_ROLE_NAMES ∧
    ∃ e, e ∈ events s' ∧ platform_grant e u' role' ∧ platform_admin emergency (events s') (ae_auth_method e) (ae_actor e)) as Hold.
  { intros u' role' Hr. destruct (ii_roles _ Hi _ _ Hr) as (Hu' & Hn & e' & Hin & Hg' & Ha'). split_and!; [done..|]. exists e'.
    split_and!; [by apply Hsub|done|by eapply platform_admin_mono]. }
  split.
  - split; rewrite ?Ht1, ?Ht2, ?Ht3, ?Ht4, ?Ht5, ?Ht6, ?Ht7, ?Ht8, ?Ht9; try apply Hi.
    + intros u' role' [[= -> ->]%elem_of_singleton|Hr]%elem_of_union; [|by apply Hold]. split_and!; [done..|]. exists e.
      split_and!; [rewrite He; apply elem_of_app; right; by left|done|by eapply platform_admin_mono].
    + intros m Hm. destruct (ii_members _ Hi _ Hm) as (Hm' & Hn & e' & Hin & Hg' & Ha'). split_and!; [done..|]. exists e'.
      split_and!; [by apply Hsub|done|by eapply tenant_admin_mono].
  - split; [rewrite He; by eexists|]. rewrite Ht2, Ht7. split; [apply union_subseteq_r|done].
Qed.

Lemma member_count_snoc t u m l : member_count t u (l ++ [m]) =
  member_count t u l + (if bool_decide (mr_tenant_id m = t ∧ mr_user_id m = u) then 1 else 0).
Proof.
  unfold member_count. rewrite filter_app, length_app, Nat2Z.inj_add. f_equal. rewrite filter_cons, filter_nil.
  case_decide as Hd; [by rewrite bool_decide_eq_true_2|by rewrite bool_decide_eq_false_2].
Qed.
Lemma inv_grant_member s s' t u role r e : IdentityInv s → idb_members s !! (t, u) = Some r →
  {| mr_tenant_id := t; mr_user_id := u; mr_role := role |} ∉ ad_members (idb_admin s) → role ∈ TENANT_ROLE_NAMES →
  tenant_grant e t u role → tenant_admin emergency (events s) t (ae_auth_method e) (ae_actor e) →
  tables s' = tables (put_member t u {| me_id := me_id r; me_version := me_version r + 1 |}
    (add_member_role {| mr_tenant_id := t; mr_user_id := u; mr_role := role |} s)) →
  events s' = events s ++ [e] → IdentityInv s' ∧ grows s s'.
Proof.
  intros Hi Hrow Hnew Hrole Hg Ha Ht He. assert (events s ⊆ events s') as Hsub by (rewrite He; by apply prefix_sub; eexists).
  unfold tables in Ht. injection Ht as Ht1 Ht2 Ht3 Ht4 Ht5 Ht6 Ht7 Ht8 Ht9.
  cbn [put_member add_member_role set_idb_admin idb_admin idb_tenants idb_groups idb_group_members idb_users idb_roles idb_members idb_associations
    ad_tenants ad_members] in *. destruct (ii_member_rows _ Hi _ _ _ Hrow) as (Hten & Husr & Hver).
  assert (∀ k, is_Some (idb_members s !! k) → is_Some (idb_members s' !! k)) as Hsome.
  { intros k Hk. rewrite Ht8, lookup_insert_is_Some. destruct (decide ((t, u) = k)); [by left|by right]. }
  split.
  - split; rewrite ?Ht1, ?Ht2, ?Ht3, ?Ht4, ?Ht5, ?Ht6, ?Ht7, ?Ht9; try apply Hi.
    + intros u' role' Hr. destruct (ii_roles _ Hi _ _ Hr) as (Hu' & Hn & e' & Hin & Hg' & Ha'). split_and!; [done..|]. exists e'.
      split_and!; [by apply Hsub|done|by eapply platform_admin_mono].
    + intros m [Hm|Hm]%elem_of_app.
      * destruct (ii_members _ Hi _ Hm) as (Hm' & Hn & e' & Hin & Hg' & Ha'). split_and!; [by apply Hsome|done|]. exists e'.
        split_and!; [by apply Hsub|done|by eapply tenant_admin_mono].
      * apply list_elem_of_singleton in Hm as ->. cbn [mr_tenant_id mr_user_id mr_role]. split_and!; [apply Hsome; by rewrite Hrow|done|].
        exists e. split_and!; [rewrite He; apply elem_of_app; right; by left|done|by eapply tenant_admin_mono].
    + apply NoDup_app. split_and!; [apply Hi| |apply NoDup_singleton]. intros m Hm ->%list_elem_of_singleton. by apply Hnew.
    + intros t' u' r'. rewrite Ht8, member_count_snoc. cbn [mr_tenant_id mr_user_id]. intros [[[= <- <-] <-]|[Hne Hr]]%lookup_insert_Some.
      * split_and!; [done..|]. rewrite bool_decide_eq_true_2 by done. cbn [me_version]. lia.
      * destruct (ii_member_rows _ Hi _ _ _ Hr) as (? & ? & ->). split_and!; [done..|]. rewrite bool_decide_eq_false_2 by (intros [<- <-]; by apply Hne). lia.
  - split; [rewrite He; by eexists|]. rewrite Ht2, Ht7. split; [done|]. apply prefix_sub. by eexists.
Qed.

(** ** Bodies of the commands *)
Definition keeps_inv {A} (J : IdentityDb → Prop) (m : IDM A) : Prop :=
  ∀ s a s', IdentityInv s → J s → m s = (Ok a, s') → IdentityInv s' ∧ grows s s'.

Lemma draw_run s a s' : (draw_id uuid_at : IDM uuid) s = (Ok a, s') → calm s s'.
Proof. unfold draw_id. intros Hrun. run_inv. done. Qed.
Lemma increment_run v s w s' : increment v s = (Ok w, s') → s' = s ∧ w = v + 1.
Proof. unfold increment. intros Hrun. run_inv. done. Qed.
Lemma identity_of_spec iss sub s o : identity_of iss sub s = o →
  match o with
  | Some (u, r) => idb_users s !! u = Some r ∧ us_issuer r = iss ∧ us_subject r = sub
  | None => ∀ u r, idb_users s !! u = Some r → us_issuer r = iss → us_subject r = sub → False
  end.
Proof.
  unfold identity_of. destruct (filter _ _) as [|[u r] l] eqn:Hf; simpl; intros <-.
  - intros u r Hr H1 H2. assert ((u, r) ∈ (filter (λ ur : uuid * UserRow, us_issuer ur.2 = iss ∧ us_subject ur.2 = sub) (map_to_list (idb_users s))))
      as Hin by (apply list_elem_of_filter; split; [done|by apply elem_of_map_to_list]). rewrite Hf in Hin. by apply elem_of_nil in Hin.
  - assert ((u, r) ∈ filter (λ ur : uuid * UserRow, us_issuer ur.2 = iss ∧ us_subject ur.2 = sub) (map_to_list (idb_users s))) as Hin
      by (rewrite Hf; by left). apply list_elem_of_filter in Hin as [[H1 H2] Hin]. by apply elem_of_map_to_list in Hin.
Qed.
Lemma put_user_grows u r s : grows s (put_user u r s).
Proof. done. Qed.

Lemma upsert_user_keeps claims : keeps_inv (λ _, True) (upsert_user uuid_at issuer claims).
Proof.
  intros s a s' Hi _ Hrun. unfold upsert_user in Hrun. run_inv. match goal with H : draw_id _ _ = _ |- _ => apply draw_run in H as Hc end.
  pose proof (inv_calm _ _ Hi Hc) as Hi1. apply calm_grows in Hc.
  destruct (identity_of _ _ _) as [[u r]|] eqn:Hid; apply identity_of_spec in Hid; run_inv.
  - destruct Hid as (Hr & H1 & H2). match goal with H : increment _ _ = _ |- _ => apply increment_run in H as [-> ->] end. split; [|by eapply growth_trans].
    apply inv_put_user; [done|]. intros u' r' Hr' E1 E2. by eapply ii_identities.
  - split; [|by eapply growth_trans]. apply inv_put_user; [done|]. intros u' r' Hr' E1 E2. by destruct (Hid u' r' Hr').
Qed.

(** What a body does before its audit row. *)
Lemma audit_keeps now p action ty tid tenant details s s1 a s' : IdentityInv s1 → grows s s1 →
  id_audited sha256_hex dumps uuid_at now p action ty tid tenant details s1 = (Ok a, s') → IdentityInv s' ∧ grows s s'.
Proof.
  intros Hi Hg Hrun. assert (calm s1 s') as Hc.
  { apply id_audited_run in Hrun as [Ht (e & He & _)]. split; [done|]. rewrite He. by eexists. }
  split; [by eapply inv_calm|by eapply grows_calm].
Qed.

Lemma assign_platform_role_keeps now p u role expected : role ∈ PLATFORM_ROLE_NAMES →
  keeps_inv (λ s, authentic p s ∧ "PLATFORM_ADMIN" ∈ ap_roles p) (assign_platform_role sha256_hex dumps uuid_at now p u role expected).
Proof.
  intros Hrole s a s' Hi [Ha Hp] Hrun. unfold assign_platform_role in Hrun. run_inv.
  match goal with H : _ !! u = Some ?x |- _ => rename x into r; rename H into Hr end. destruct (bool_decide _); run_inv; [by split|].
  match goal with H : increment _ _ = _ |- _ => apply increment_run in H as [-> ->] end.
  match goal with H : id_audited _ _ _ _ _ _ _ _ _ _ _ = _ |- _ => apply id_audited_run in H as [Ht (e & He & E1 & E2 & E3 & E4 & E5 & _ & E7)] end.
  assert (IdentityInv (put_user u (with_version (us_version r + 1) r) s)) as Hi1.
  { apply inv_put_user; [done|]. intros u' r' Hr' H1 H2. by eapply ii_identities. }
  edestruct inv_grant_role as [Hi' Hg]; [exact Hi1| |exact Hrole| | |exact Ht|exact He|].
  - cbn [put_user idb_users]. by rewrite lookup_insert_eq.
  - split_and!; [done..|]. by rewrite E7.
  - rewrite E1, E2. by apply admin_trusted.
  - split; [done|]. by eapply growth_trans.
Qed.

Lemma member_count_absent s t u : IdentityInv s → idb_members s !! (t, u) = None → member_count t u (ad_members (idb_admin s)) = 0.
Proof.
  intros Hi Hn. unfold member_count. destruct (filter _ _) as [|m l] eqn:Hf; [done|]. assert (m ∈ m :: l) as Hm by by left.
  rewrite <-Hf in Hm. apply list_elem_of_filter in Hm as [[<- <-] Hm]. destruct (ii_members _ Hi _ Hm) as ([r Hr] & _). congruence.
Qed.
Lemma ensure_member_run t u s m s' : IdentityInv s → ensure_member uuid_at t u s = (Ok m, s') →
  IdentityInv s' ∧ grows s s' ∧ idb_members s' !! (t, u) = Some m ∧ events s' = events s ∧ ad_members (idb_admin s') = ad_members (idb_admin s) ∧
  idb_users s' = idb_users s.
Proof.
  intros Hi Hrun. unfold ensure_member, draw_id in Hrun. run_inv. cbn [idb_members set_next_id identity_ids set_idb_next_id next_id] in Hrun.
  set (s1 := set_idb_next_id (S (idb_next_id s)) s) in Hrun. assert (calm s s1) as Hc by done. pose proof (inv_calm _ _ Hi Hc) as Hi1.
  destruct (idb_members s !! (t, u)) as [r|] eqn:Hr; run_inv; [split_and!; done|].
  match goal with H : _ && _ = true |- _ => rewrite !andb_true_iff, !bool_decide_eq_true in H; destruct H as [[Hten Hu] _] end.
  rewrite (ii_tenants _ Hi1) in Hten. apply elem_of_dom in Hten.
  split_and!; [|done|cbn [put_member idb_members]; by rewrite lookup_insert_eq|done|done|done].
  split; cbn [put_member idb_users idb_roles idb_admin idb_members idb_tenants idb_groups idb_group_members idb_associations]; try apply Hi1.
  - intros m Hm. destruct (ii_members _ Hi1 _ Hm) as (Hm' & Hrest). split; [|exact Hrest]. rewrite lookup_insert_is_Some.
    destruct (decide ((t, u) = (mr_tenant_id m, mr_user_id m))); [by left|by right].
  - intros t' u' r' [[[= <- <-] <-]|[_ Hr']]%lookup_insert_Some; [|by apply (ii_member_rows _ Hi1)]. split_and!; [done..|].
    cbn [me_version]. by rewrite (member_count_absent s1 t u).
Qed.
Lemma grant_member_role_keeps now p t u role : role ∈ TENANT_ROLE_NAMES →
  keeps_inv (administers t p) (grant_member_role sha256_hex dumps uuid_at now p t u role).
Proof.
  intros Hrole s a s' Hi Had Hrun. unfold grant_member_role in Hrun. run_inv.
  match goal with H : ensure_member _ _ _ _ = _ |- _ => destruct (ensure_member_run _ _ _ _ _ Hi H) as (Hi1 & Hg1 & Hm & He1 & Hl1 & _) end.
  match goal with H : (if bool_decide ?P then _ else _) _ = _ |- _ => rename H into Hif; destruct (decide P) as [Hheld|Hnew] end.
  - rewrite bool_decide_eq_true_2 in Hif by done. by run_inv.
  - rewrite bool_decide_eq_false_2 in Hif by done. run_inv.
    match goal with H : increment _ _ = _ |- _ => apply increment_run in H as [-> ->] end.
    match goal with H : id_audited _ _ _ _ _ _ _ _ _ _ _ = _ |- _ => apply id_audited_run in H as [Ht (e & He & E1 & E2 & E3 & E4 & _ & E6 & E7)] end.
    pose proof (administers_stable t p _ _ Hi Hi1 Hg1 Had) as Had1.
    edestruct inv_grant_member as [Hi' Hg']; [exact Hi1|exact Hm| |exact Hrole| | |exact Ht|exact He|].
    + by rewrite <-member_roles_spec.
    + split_and!; [done..| |]; by rewrite E7.
    + rewrite E1, E2. by apply administers_trusted.
    + split; [done|]. by eapply growth_trans.
Qed.

(** ** Requests *)
Abbreviation safe J p := (proc_safe IdentityInv grows grows (returns (λ _ _, True)) J p).

Lemma canonical_pair_ok a b f g : canonical_pair a b = (f, g) → a ≠ b → String.le f g ∧ f ≠ g.
Proof.
  unfold canonical_pair. case_bool_decide as Hle; intros [= <- <-] Hne; [done|]. split; [|done].
  by destruct (total String.le a b).
Qed.
Lemma verify_binding_run t x s u s' : verify_binding t x s = (Ok u, s') → s' = s ∧ ∃ prefix channel binding user b,
  split_subject x = Some (prefix, channel, binding, user) ∧ parse_uuid binding = Some b ∧ idb_bindings s !! (t, b) = Some channel.
Proof.
  unfold verify_binding. intros Hrun. run_inv. match goal with x : string * string * string * string |- _ => destruct x as [[[pre ch] b'] us] end.
  run_inv. split; [done|]. match goal with H : bool_decide _ = true |- _ => apply bool_decide_eq_true in H end. eauto 10.
Qed.
(** The row that an association stores. *)
Lemma associate_run now p t f g reference audit_id if_match s a s' :
  associate sha256_hex dumps uuid_at collates now p t f g reference audit_id if_match s = (Ok a, s') →
  ∃ r, collates f g = true ∧ (t ∈ ad_tenants (idb_admin s) ∨ is_Some (idb_associations s !! (t, f, g))) ∧
    calm (set_associations (<[(t, f, g) := r]> (idb_associations s)) s) s' ∧
    a = association_json t f g r ∧ as_verified_by r = ap_subject p ∧
    (∃ u, verify_binding t f s = (Ok u, s)) ∧ (∃ u, verify_binding t g s = (Ok u, s)) ∧
    as_version r = match idb_associations s !! (t, f, g) with Some old => as_version old + 1 | None => 1 end.
Proof.
  unfold associate. intros Hrun. run_inv.
  repeat match goal with H : verify_binding _ _ _ = (Ok ?u, _) |- _ =>
    let H' := fresh in pose proof (proj1 (verify_binding_run _ _ _ _ _ H)) as H'; subst; apply (ex_intro (λ u, verify_binding _ _ _ = (Ok u, _))) in H end.
  match goal with H : id_audited _ _ _ _ _ _ _ _ _ _ _ = _ |- _ => apply id_audited_run in H as [Ht (e & He & _)] end.
  match goal with H : match if_match with _ => _ end _ = (Ok ?r, _) |- _ => rename H into Hif; exists r end.
  assert (text_between 1 256 (ap_subject p) && collates f g = true → collates f g = true) as Hcol by by intros [_ ?]%andb_true_iff.
  destruct if_match as [etag|]; [destruct (parse_if_match etag) as [err|expected]; [done|]; destruct (idb_associations s !! (t, f, g)) as [old|] eqn:Hold; [|done]|];
    run_inv; repeat match goal with H : increment _ _ = _ |- _ => apply increment_run in H as [-> ->] end.
  - split_and!; [by apply Hcol|by right|split; [done|by rewrite He; eexists]|done..].
  - match goal with H : bool_decide (_ = None) = true |- _ => apply bool_decide_eq_true in H; rewrite H end.
    split_and!; [by apply Hcol|left; by eapply bool_decide_eq_true|split; [done|by rewrite He; eexists]|done..].
Qed.
Lemma associate_keeps now p t f g reference audit_id if_match : String.le f g → f ≠ g →
  keeps_inv (λ _, True) (associate sha256_hex dumps uuid_at collates now p t f g reference audit_id if_match).
Proof.
  intros Hle Hne s a s' Hi _ (r & Hcol & Hten & Hc & _)%associate_run.
  assert (IdentityInv (set_associations (<[(t, f, g) := r]> (idb_associations s)) s)) as Hi1.
  { apply inv_set_associations; [done|]. intros t' a' b' r' [[[= <- <- <-] <-]|[_ Hr]]%lookup_insert_Some; [|by apply (ii_associations _ Hi _ _ _ _ Hr)].
    split_and!; [|done..]. destruct Hten as [Hten|[old Hold]]; [|by apply (ii_associations _ Hi _ _ _ _ Hold)].
    rewrite (ii_tenants _ Hi) in Hten. by apply elem_of_dom. }
  split; [by eapply inv_calm|]. eapply grows_calm; [|exact Hc]. done.
Qed.
Lemma revoke_keeps now p t f g audit_id expected : keeps_inv (λ _, True) (revoke sha256_hex dumps uuid_at now p t f g audit_id expected).
Proof.
  intros s a s' Hi _ Hrun. unfold revoke in Hrun. run_inv. match goal with H : id_audited _ _ _ _ _ _ _ _ _ _ _ = _ |- _ => eapply audit_keeps; [| |exact H]; [|done] end.
  apply inv_set_associations; [done|]. intros t' a' b' r' [_ Hr]%lookup_delete_Some. by apply (ii_associations _ Hi _ _ _ _ Hr).
Qed.

Lemma good_keeps {A} (J : IdentityDb → Prop) fault lost (m : IDM A) : keeps_inv J m → good_step IdentityInv grows J (transaction fault lost m).
Proof. intros Hm. apply good_transaction; [apply growth_refl|]. intros s a s' Hi Hj. by apply Hm. Qed.
Lemma safe_step_keeps {A} (J : IdentityDb → Prop) fault lost (m : IDM A) : keeps_inv J m → safe J (atomically (transaction fault lost m)).
Proof. intros Hm. apply returns_step; [by apply good_keeps|done|done]. Qed.
Lemma command_safe (J : IdentityDb → Prop) fault p key operation payload body : stable IdentityInv grows J → keeps_inv J body →
  safe J (id_command sha256_hex dumps fault p key operation payload body).
Proof.
  intros HJ Hbody. unfold id_command. apply safe_step_keeps. intros s a s' Hi Hj Hrun.
  eapply (id_command_run sha256_hex dumps p key operation payload body s a s' (λ s, IdentityInv s ∧ J s) grows) in Hrun as [[Hi' _] Hg]; [by split|..].
  - apply growth_refl.
  - intros x x' [Hx Hjx] Hc. pose proof (inv_calm _ _ Hx Hc). split; [done|]. by apply (HJ x x' Hx); [|apply calm_grows|].
  - apply grows_calm.
  - intros x r x' [Hx Hjx] Hr. destruct (Hbody x r x' Hx Hjx Hr) as [Hx' Hg]. split; [|done]. split; [done|]. by apply (HJ x x').
  - by split.
Qed.
Lemma safe_calm {A} (J : IdentityDb → Prop) (m : IDM A) : (∀ s, calm s (m s).2) → safe J (atomically m).
Proof.
  intros Hm. apply returns_step; [|done|done]. intros s Hi _. split; [by eapply inv_calm; [|apply Hm]|]. apply calm_grows, Hm.
Qed.
Lemma integrity_safe {A} (J : IdentityDb → Prop) status detail (p : IDP A) : safe J p → safe J (on_integrity_error status detail p).
Proof. intros Hp. apply returns_catch; [done|]. intros []; apply returns_raise. Qed.
Lemma audit_step_safe (J : IdentityDb → Prop) fault now p action decision ty tid details :
  safe J (write_audit_step sha256_hex dumps uuid_at fault now p action decision ty tid details).
Proof. apply safe_calm. intros s. apply audited_alone_calm. Qed.
Lemma safe_bind_any {A B} (J : IdentityDb → Prop) (p : IDP A) (k : A → IDP B) : safe J p → (∀ a, safe (λ _, True) (k a)) → safe J (pm_bind p k).
Proof. intros Hp Hk. by eapply returns_bind. Qed.

(** A fact of the caller is kept over a step that draws an identifier. *)
Lemma safe_draw {B} (J : IdentityDb → Prop) (k : uuid → IDP B) : stable IdentityInv grows J → (∀ t, safe J (k t)) →
  safe J (pm_bind (atomically (draw_id uuid_at)) k).
Proof.
  intros HJ Hk. eapply (returns_bind _ _ _ _ _ _ (λ _, J)); [|done]. apply returns_step; [|intros s a s' Hi Hj Hrun|done].
  - intros s Hi _. assert (calm s (draw_id (E:=AdminError) uuid_at s).2) as Hc by done. split; [by eapply inv_calm|by apply calm_grows].
  - apply draw_run in Hrun. by apply (HJ s s' Hi); [eapply inv_calm|apply calm_grows|].
Qed.
Lemma safe_admin_only {B} p (k : unit → IDP B) : safe (λ s, authentic p s ∧ "PLATFORM_ADMIN" ∈ ap_roles p) (k tt) →
  safe (authentic p) (pm_bind (require_role p ["PLATFORM_ADMIN"]) k).
Proof.
  intros Hk. eapply (returns_bind _ _ _ _ _ _ (λ _ s, authentic p s ∧ "PLATFORM_ADMIN" ∈ ap_roles p)); [|by intros []].
  unfold require_role. destruct (meets _ _) eqn:Hm; [|apply returns_raise]. apply returns_ret. intros s _ Ha. split; [done|].
  unfold meets in Hm. apply existsb_exists in Hm as (x & Hx & Heq%bool_decide_eq_true). apply list_elem_of_singleton in Heq as ->.
  by apply list_elem_of_In.
Qed.
Lemma admin_stable p : stable IdentityInv grows (λ s, authentic p s ∧ "PLATFORM_ADMIN" ∈ ap_roles p).
Proof. intros s s' Hi Hi' Hg [Ha Hp]. split; [by apply (authentic_stable p s s')|done]. Qed.

(** ** Endpoints *)
Lemma slug_free slug s : slug_taken slug s = false → ∀ t r, idb_tenants s !! t = Some r → tn_slug r ≠ slug.
Proof.
  intros Hf t r Hr <-. assert (slug_taken (tn_slug r) s = true); [|congruence]. apply existsb_exists. exists (t, r).
  split; [by apply list_elem_of_In, elem_of_map_to_list|by apply bool_decide_eq_true].
Qed.
Lemma create_tenant_safe fault now p payload key :
  safe (authentic p) (create_tenant sha256_hex dumps uuid_at fault now p payload key).
Proof.
  apply safe_admin_only, safe_draw; [apply admin_stable|]. intros t. apply integrity_safe, command_safe; [apply admin_stable|].
  intros s a s' Hi _ Hrun. cbv zeta in Hrun. run_inv.
  match goal with H : _ && _ = true |- _ => rewrite !andb_true_iff, bool_decide_eq_true, negb_true_iff in H; destruct H as [[_ Hnone] Hslug] end.
  match goal with H : id_audited _ _ _ _ _ _ _ _ _ _ _ = _ |- _ => eapply audit_keeps; [| |exact H]; [|done] end.
  apply inv_add_tenant; [done..|]. by apply slug_free.
Qed.
Lemma create_group_safe fault now p payload key :
  safe (authentic p) (create_group sha256_hex dumps uuid_at fault now p payload key).
Proof.
  apply safe_admin_only, safe_draw; [apply admin_stable|]. intros g. apply integrity_safe, command_safe; [apply admin_stable|].
  intros s a s' Hi _ Hrun. cbv zeta in Hrun. run_inv.
  match goal with H : _ && _ = true |- _ => apply andb_true_iff in H as [_ Hall] end.
  match goal with H : id_audited _ _ _ _ _ _ _ _ _ _ _ = _ |- _ => eapply audit_keeps; [| |exact H]; [|done] end.
  apply inv_add_group; [done|]. rewrite forallb_forall in Hall. apply Forall_forall. intros t Ht. by eapply bool_decide_eq_true, Hall, list_elem_of_In.
Qed.
Lemma create_user_safe fault now p payload key :
  safe (authentic p) (create_user sha256_hex dumps uuid_at fault now p payload key).
Proof.
  apply safe_admin_only, safe_draw; [apply admin_stable|]. intros u. apply integrity_safe, command_safe; [apply admin_stable|].
  intros s a s' Hi _ Hrun. cbv zeta in Hrun. run_inv.
  match goal with H : _ && _ = true |- _ => rewrite !andb_true_iff, !bool_decide_eq_true in H; destruct H as [_ Hfree] end.
  match goal with H : id_audited _ _ _ _ _ _ _ _ _ _ _ = _ |- _ => eapply audit_keeps; [| |exact H]; [|done] end.
  apply identity_of_spec in Hfree. apply inv_put_user; [done|]. intros u' r' Hr' E1 E2. by destruct (Hfree u' r').
Qed.
Lemma assign_role_safe fault now p u role key if_match :
  safe (authentic p) (assign_role sha256_hex dumps uuid_at fault now p u role key if_match).
Proof.
  unfold assign_role. case_bool_decide as Hrole; cbn [negb]; [|apply returns_raise]. apply safe_admin_only.
  destruct (parse_if_match if_match) as [e|expected]; [apply returns_raise|].
  apply integrity_safe, command_safe; [apply admin_stable|by apply assign_platform_role_keeps].
Qed.
(** The check of [tenant_access.py], and what follows for those who pass. *)
Lemma safe_tenant_admin {B} fault now p t action ty tid (k : unit → IDP B) : safe (administers t p) (k tt) →
  safe (authentic p) (pm_bind (atomically (id_on_admin (require_tenant_admin sha256_hex dumps uuid_at fault now p t action ty tid))) k).
Proof.
  intros Hk. eapply (returns_bind _ _ _ _ _ _ (λ _, administers t p)); [|by intros []]. apply returns_step.
  - intros s Hi _. pose proof (require_tenant_admin_calm sha256_hex dumps uuid_at fault now p t action ty tid s) as Hc.
    split; [by eapply inv_calm|by apply calm_grows].
  - intros s [] s' Hi Ha Hrun. by apply require_tenant_admin_run in Hrun as [-> Hcase].
  - intros _. apply administers_stable.
Qed.
Lemma assign_member_role_safe f1 f2 now p t u role key :
  safe (authentic p) (assign_member_role sha256_hex dumps uuid_at f1 f2 now p t u role key).
Proof.
  unfold assign_member_role. case_bool_decide as Hrole; cbn [negb]; [|apply returns_raise].
  apply safe_tenant_admin, command_safe; [apply administers_stable|by apply grant_member_role_keeps].
Qed.
Lemma keeps_inv_weaken {A} (J : IdentityDb → Prop) (m : IDM A) : keeps_inv (λ _, True) m → keeps_inv J m.
Proof. intros Hm s a s' Hi _. by apply Hm. Qed.
Lemma verify_association_safe f1 f2 now p t payload key if_match :
  safe (authentic p) (verify_association sha256_hex dumps uuid_at collates f1 f2 now p t payload key if_match).
Proof.
  unfold verify_association, association_request_ok. destruct (_ && _ && _ && _) eqn:Hok; cbn [negb]; [|apply returns_raise].
  apply andb_true_iff in Hok as [_ Hne%negb_true_iff%bool_decide_eq_false]. cbv zeta. apply safe_tenant_admin.
  destruct (canonical_pair _ _) as [f g] eqn:Hc. destruct (canonical_pair_ok _ _ _ _ Hc Hne).
  apply command_safe; [apply administers_stable|]. by apply keeps_inv_weaken, associate_keeps.
Qed.
Lemma revoke_association_safe f1 f2 now p t subject related key if_match :
  safe (authentic p) (revoke_association sha256_hex dumps uuid_at f1 f2 now p t subject related key if_match).
Proof.
  unfold revoke_association. destruct (negb _); [apply returns_raise|]. case_bool_decide; [apply returns_raise|]. cbv zeta. apply safe_tenant_admin.
  destruct (canonical_pair _ _) as [f g]. destruct (parse_if_match _); [apply returns_raise|].
  apply command_safe; [apply administers_stable|]. apply keeps_inv_weaken, revoke_keeps.
Qed.
Lemma list_tenants_safe J fault p limit cursor : safe J (list_tenants fault p limit cursor).
Proof.
  unfold list_tenants. destruct (negb _); [apply returns_raise|]. apply safe_bind_any.
  - destruct cursor as [c|]; [destruct (decode_cursor c); [|apply returns_raise]|]; by apply returns_ret.
  - intros o. destruct (_ && _); [apply returns_raise|]. destruct (_ && _); [apply returns_raise|]. apply safe_step_keeps.
    intros s a s' Hi _ [-> ->]%gets_Ok. by split.
Qed.

(** Sessions are those that the service signed: one of the emergency administrator is as
    [emergency_login] made it. *)
Context (sessions_are_issued : ∀ token p, decode_session token = Some p → ap_auth_method p = "oidc" ∨ p = emergency_principal emergency_username).

Lemma principal_safe fault token : proc_safe IdentityInv grows grows (returns authentic) (λ _, True) (principal_from_request decode_session fault token).
Proof.
  unfold principal_from_request. case_bool_decide; [apply returns_raise|]. destruct (decode_session _) as [p|] eqn:Hp; [|apply returns_raise].
  apply sessions_are_issued in Hp as [Hoidc| ->].
  - rewrite bool_decide_eq_true_2 by done. destruct (parse_uuid _) as [u|] eqn:Hu; [|apply returns_raise].
    eapply (returns_bind _ _ _ _ _ _ (λ found s, ∀ role, role ∈ found.2 → (u, role) ∈ idb_roles s)).
    + apply returns_step; [apply good_keeps; intros s a s' Hi _ [-> ->]%gets_Ok; by split| |].
      * intros s a s' Hi _ Hrun. unfold transaction, gets in Hrun. destruct fault; simplify_eq. cbn [snd]. intros role Hr.
        unfold user_roles in Hr. apply list_elem_of_fmap in Hr as ([u' r'] & -> & [Hu' Hin]%list_elem_of_filter). simpl in *. subst u'.
        by apply elem_of_elements.
      * intros found s s' _ _ (_ & Hr & _) Hj role Hrole. by apply Hr, Hj.
    + intros [exists_ roles]. destruct exists_; cbn [negb fst snd]; [|apply returns_raise]. apply returns_ret. intros s _ Hj. right. cbn [ap_auth_method ap_subject ap_roles].
      split; [done|]. by exists u.
  - apply returns_ret. intros s _ _. by left.
Qed.

(** ** Every interleaving *)
Inductive identity_request :=
  | EmergencyLogin (fault : txn_fault) (now : instant) (username password : string)
  | OidcLogin (f1 f2 : txn_fault) (now : instant) (claims : OidcClaims)
  | CreateTenant (fault : txn_fault) (now : instant) (payload : TenantCreate) (key : string)
  | CreateGroup (fault : txn_fault) (now : instant) (payload : TenantGroupCreate) (key : string)
  | CreateUser (fault : txn_fault) (now : instant) (payload : PlatformUserCreate) (key : string)
  | AssignRole (fault : txn_fault) (now : instant) (u : uuid) (role key if_match : string)
  | AssignMemberRole (f1 f2 : txn_fault) (now : instant) (t u : uuid) (role key : string)
  | ListTenants (fault : txn_fault) (limit : Z) (cursor : option string)
  | VerifyAssociation (f1 f2 : txn_fault) (now : instant) (t : uuid) (payload : SubjectAssociationRequest) (key : string) (if_match : option string)
  | RevokeAssociation (f1 f2 : txn_fault) (now : instant) (t : uuid) (subject related key if_match : string).
Definition endpoint (c : identity_request) (p : AdminPrincipal) : IDP json :=
  match c with
  | EmergencyLogin _ _ _ _ | OidcLogin _ _ _ _ => pm_ret JNull
  | CreateTenant fault now payload key => create_tenant sha256_hex dumps uuid_at fault now p payload key
  | CreateGroup fault now payload key => create_group sha256_hex dumps uuid_at fault now p payload key
  | CreateUser fault now payload key => create_user sha256_hex dumps uuid_at fault now p payload key
  | AssignRole fault now u role key if_match => assign_role sha256_hex dumps uuid_at fault now p u role key if_match
  | AssignMemberRole f1 f2 now t u role key => assign_member_role sha256_hex dumps uuid_at f1 f2 now p t u role key
  | ListTenants fault limit cursor => list_tenants fault p limit cursor
  | VerifyAssociation f1 f2 now t payload key if_match => verify_association sha256_hex dumps uuid_at collates f1 f2 now p t payload key if_match
  | RevokeAssociation f1 f2 now t subject related key if_match =>
      revoke_association sha256_hex dumps uuid_at f1 f2 now p t subject related key if_match
  end.
Definition answered {A} (p : IDP A) : proc IdentityDb unit := proc_bind p (λ _, Done tt).
(** A request with its session token; logins need none. *)
Definition serve (token : option string) (f : txn_fault) (c : identity_request) : proc IdentityDb unit :=
  match c with
  | EmergencyLogin fault now username password =>
      answered (emergency_login sha256_hex dumps uuid_at emergency_username password_ok fault now username password)
  | OidcLogin f1 f2 now claims => answered (oidc_callback sha256_hex dumps uuid_at issuer f1 f2 now claims)
  | _ => answered (p <-- principal_from_request decode_session f token; endpoint c p)
  end.

(** Requests start at any time, take their steps in any order and may stop between two;
    the rest of the system writes audit rows, ledger rows and channel bindings. *)
Inductive identity_step : IdentityDb * list (proc IdentityDb unit) → IdentityDb * list (proc IdentityDb unit) → Prop :=
  | identity_request_step s l token f c : identity_step (s, l) (s, serve token f c :: l)
  | identity_run_step s l1 next effect l2 : identity_step (s, l1 ++ Step next effect :: l2) (effect s, l1 ++ next s :: l2)
  | identity_crash_step s l1 p l2 : identity_step (s, l1 ++ p :: l2) (s, l1 ++ l2)
  | identity_other_step s l s' : calm s s' → identity_step (s, l) (s', l).

Lemma serve_safe token f c : proc_safe IdentityInv grows grows (λ _ _, True) (λ _, True) (serve token f c).
Proof.
  assert (∀ A (p : IDP A), safe (λ _, True) p → proc_safe IdentityInv grows grows (λ _ _, True) (λ _, True) (answered p)) as Hans.
  { intros A p Hp. eapply safe_bind; [exact Hp|]. intros r. by constructor. }
  assert (∀ c, (∀ p, safe (authentic p) (endpoint c p)) → proc_safe IdentityInv grows grows (λ _ _, True) (λ _, True)
    (answered (p <-- principal_from_request decode_session f token; endpoint c p))) as Hreq.
  { intros c' Hc'. apply Hans. eapply returns_bind; [apply principal_safe|exact Hc']. }
  destruct c; cbn [serve]; [apply Hans..| | | | | | | |].
  - unfold emergency_login. destruct (negb _); (apply safe_bind_any; [apply audit_step_safe|]); intros _; [apply returns_raise|by apply returns_ret].
  - unfold oidc_callback. apply safe_bind_any.
    + apply safe_step_keeps. intros s p s' Hi _ Hrun. run_inv. by eapply upsert_user_keeps.
    + intros p. apply safe_bind_any; [apply audit_step_safe|]. intros _. by apply returns_ret.
  - apply Hreq. intros p. apply create_tenant_safe.
  - apply Hreq. intros p. apply create_group_safe.
  - apply Hreq. intros p. apply create_user_safe.
  - apply Hreq. intros p. apply assign_role_safe.
  - apply Hreq. intros p. apply assign_member_role_safe.
  - apply Hreq. intros p. apply list_tenants_safe.
  - apply Hreq. intros p. apply verify_association_safe.
  - apply Hreq. intros p. apply revoke_association_safe.
Qed.

Abbreviation safe_requests s l := (Forall (runs_safely IdentityInv grows grows s) l).
Lemma identity_step_ok s l s' l' : identity_step (s, l) (s', l') → IdentityInv s → safe_requests s l →
  IdentityInv s' ∧ safe_requests s' l' ∧ grows s s'.
Proof.
  assert (∀ s s' (l : list (proc IdentityDb unit)), IdentityInv s → IdentityInv s' → grows s s' → safe_requests s l → safe_requests s' l) as Hothers.
  { intros x x' k Hx Hx' Hk Hl'. eapply Forall_impl; [exact Hl'|]. intros p. by apply runs_safely_interference. }
  intros Hstep Hs Hl. inversion Hstep as [? ? token f c|? l1 next effect l2|? l1 p l2|? ? ? Hc]; subst.
  - split_and!; [done| |apply growth_refl]. constructor; [|done]. exists (λ _, True), (λ _ _, True). split_and!; [done..|apply serve_safe].
  - apply Forall_app in Hl as [Hl1 Hl2]. apply Forall_cons in Hl2 as [Hp Hl2].
    destruct (runs_safely_step _ _ _ _ _ _ Hs Hp) as (Hs' & Hk & Hp'). split_and!; [done| |done].
    apply Forall_app. split; [by apply (Hothers s)|]. constructor; [done|by apply (Hothers s)].
  - split_and!; [done| |apply growth_refl]. apply Forall_app in Hl as [Hl1 Hl2]. apply Forall_app. split; [done|by inversion Hl2].
  - pose proof (inv_calm _ _ Hs Hc). apply calm_grows in Hc. split_and!; [done|by apply (Hothers s)|done].
Qed.
Lemma identity_steps_ok s l s' l' : rtc identity_step (s, l) (s', l') → IdentityInv s → safe_requests s l →
  IdentityInv s' ∧ safe_requests s' l' ∧ grows s s'.
Proof.
  intros H. remember (s, l) as x eqn:Hx. remember (s', l') as y eqn:Hy. revert s l Hx.
  induction H as [x|x [s1 l1] z Hstep _ IH]; intros s l -> Hs Hl; [injection Hy as <- <-; by split_and!|].
  destruct (identity_step_ok _ _ _ _ Hstep Hs Hl) as (Hs1 & Hl1 & Hg). destruct (IH Hy s1 l1 eq_refl Hs1 Hl1) as (? & ? & Hg'). split_and!; [done..|].
  by eapply growth_trans.
Qed.

(** A platform nobody has used. *)
Definition fresh_platform (s : IdentityDb) : Prop :=
  events s = [] ∧ tables s = {| tb_tenants := ∅; tb_members := []; tb_tenant_rows := ∅; tb_groups := ∅; tb_group_members := ∅; tb_users := ∅;
    tb_roles := ∅; tb_member_rows := ∅; tb_associations := ∅ |}.
Lemma fresh_inv s : fresh_platform s → IdentityInv s.
Proof.
  intros [He Ht]. unfold tables in Ht. injection Ht as Ht1 Ht2 Ht3 Ht4 Ht5 Ht6 Ht7 Ht8 Ht9.
  split; rewrite ?Ht1, ?Ht2, ?Ht3, ?Ht4, ?Ht5, ?Ht6, ?Ht7, ?Ht8, ?Ht9.
  - intros u role Hr. by apply elem_of_empty in Hr.
  - intros m Hm. by apply elem_of_nil in Hm.
  - constructor.
  - intros t u r. by rewrite lookup_empty.
  - by rewrite dom_empty_L.
  - intros t t' r r'. by rewrite lookup_empty.
  - intros t t' r r'. by rewrite lookup_empty.
  - intros g t Hg. by apply elem_of_empty in Hg.
  - intros t a b r. by rewrite lookup_empty.
Qed.

(** C4: Privileges trace back to the emergency administrator.  Whatever requests run, in
    whatever order, with any OIDC sessions: a user with a platform role got it in a grant
    that the audit trail records, from somebody who was an administrator of the platform by
    the same rule; a member with a role in a tenant got it from somebody who was an
    administrator of this tenant or of the platform by the same rule; and no grant is
    lost. *)
Theorem privileges_trace_back s0 s l : fresh_platform s0 → rtc identity_step (s0, []) (s, l) →
  (∀ u role, (u, role) ∈ idb_roles s →
     ∃ e, e ∈ events s ∧ platform_grant e u role ∧ platform_admin emergency (events s) (ae_auth_method e) (ae_actor e)) ∧
  (∀ t u role, role ∈ member_roles t u (idb_admin s) →
     ∃ e, e ∈ events s ∧ tenant_grant e t u role ∧ tenant_admin emergency (events s) t (ae_auth_method e) (ae_actor e)) ∧
  ∀ s' l', rtc identity_step (s, l) (s', l') → grows s s'.
Proof.
  intros H0 Hsteps. destruct (identity_steps_ok _ _ _ _ Hsteps (fresh_inv s0 H0)) as (Hi & Hl & _); [done|]. split_and!.
  - intros u role Hr. by destruct (ii_roles _ Hi _ _ Hr) as (_ & _ & ?).
  - intros t u role Hr%member_roles_spec. by destruct (ii_members _ Hi _ Hr) as (_ & _ & ?).
  - intros s' l' Hs'. by destruct (identity_steps_ok _ _ _ _ Hs' Hi Hl) as (_ & _ & ?).
Qed.

(** C10: Identities are unique and references hold.  Whatever requests run: no two tenants
    share a slug and no two users an identity of the provider; roles, memberships, groups and
    associations name users and tenants that exist; a membership holds each role once and
    its version counts them; an association is stored once, for two different subjects in
    their order. *)
Theorem identity_tables_agree s0 s l : fresh_platform s0 → rtc identity_step (s0, []) (s, l) →
  (∀ t t' r r', idb_tenants s !! t = Some r → idb_tenants s !! t' = Some r' → tn_slug r = tn_slug r' → t = t') ∧
  (∀ u u' r r', idb_users s !! u = Some r → idb_users s !! u' = Some r' → us_issuer r = us_issuer r' → us_subject r = us_subject r' → u = u') ∧
  ad_tenants (idb_admin s) = dom (idb_tenants s) ∧
  (∀ u role, (u, role) ∈ idb_roles s → is_Some (idb_users s !! u) ∧ role ∈ PLATFORM_ROLE_NAMES) ∧
  (∀ g t, (g, t) ∈ idb_group_members s → is_Some (idb_groups s !! g) ∧ is_Some (idb_tenants s !! t)) ∧
  (∀ t u role, role ∈ member_roles t u (idb_admin s) → role ∈ TENANT_ROLE_NAMES ∧ is_Some (idb_members s !! (t, u))) ∧
  (∀ t u m, idb_members s !! (t, u) = Some m → is_Some (idb_tenants s !! t) ∧ is_Some (idb_users s !! u) ∧
     NoDup (member_roles t u (idb_admin s)) ∧ me_version m = 1 + Z.of_nat (length (member_roles t u (idb_admin s)))) ∧
  (∀ t a b r, idb_associations s !! (t, a, b) = Some r →
     is_Some (idb_tenants s !! t) ∧ a ≠ b ∧ canonical_pair a b = (a, b) ∧ idb_associations s !! (t, b, a) = None).
Proof.
  intros H0 Hsteps. destruct (identity_steps_ok _ _ _ _ Hsteps (fresh_inv s0 H0)) as (Hi & _ & _); [done|].
  split_and!; [apply Hi..| | | | |].
  - intros u role Hr. by destruct (ii_roles _ Hi _ _ Hr) as (? & ? & _).
  - apply Hi.
  - intros t u role Hr%member_roles_spec. by destruct (ii_members _ Hi _ Hr) as (? & ? & _).
  - intros t u m Hm. destruct (ii_member_rows _ Hi _ _ _ Hm) as (Ht & Hu & Hver). split_and!; [done|done| |].
    + unfold member_roles. apply NoDup_fmap_2_strong; [|apply NoDup_filter, Hi].
      intros [t1 u1 r1] [t2 u2 r2] [[H1 H2] _]%list_elem_of_filter [[H3 H4] _]%list_elem_of_filter H5. simpl in *. congruence.
    + unfold member_roles. by rewrite length_fmap.
  - intros t a b r Hr. destruct (ii_associations _ Hi _ _ _ _ Hr) as (Ht & Hle & Hne & _). split_and!; [done|done| |].
    + unfold canonical_pair. by rewrite bool_decide_eq_true_2.
    + destruct (idb_associations s !! (t, b, a)) as [r'|] eqn:Hr'; [|done]. destruct (ii_associations _ Hi _ _ _ _ Hr') as (_ & Hle' & _).
      destruct Hne. by apply (anti_symm String.le).
Qed.
End Service.

(** ** Grants compare versions *)
Section Grants.
Context (sha256_hex : string → string) (dumps : json → string) (uuid_at : nat → uuid).

(** A command with a new key, and its error answers. *)
Lemma command_alone p key operation payload body status detail s : ad_idempotency (idb_admin s) !! (ap_subject p, key) = None →
  run_proc (on_integrity_error status detail (id_command sha256_hex dumps NoFault p key operation payload body)) s =
  match body s with
  | (Raise e, _) => (Raise (match e with IntegrityError => Http status detail | _ => e end), s)
  | (Ok r, s1) =>
      match id_on_admin (remember sha256_hex dumps (ap_subject p) key operation payload r) s1 with
      | (Raise e, _) => (Raise (match e with IntegrityError => Http status detail | _ => e end), s)
      | (Ok _, s2) => (Ok r, s2)
      end
  end.
Proof.
  intros Hkey. assert (id_on_admin (replay_for sha256_hex dumps (ap_subject p) key operation payload) s = (Ok None, s)) as Hreplay.
  { unfold id_on_admin, replay_for, mbind, ST_mbind, gets. rewrite Hkey. unfold mret, ST_mret. by destruct s. }
  unfold on_integrity_error, pm_catch. rewrite run_proc_bind. unfold id_command. set (m := transaction _ _ _).
  assert (m s = match body s with
    | (Raise e, _) => (Raise e, s)
    | (Ok r, s1) =>
        match id_on_admin (remember sha256_hex dumps (ap_subject p) key operation payload r) s1 with
        | (Raise e, _) => (Raise e, s)
        | (Ok _, s2) => (Ok r, s2)
        end
    end) as Hm.
  { unfold m, transaction, mbind, ST_mbind. rewrite Hreplay. destruct (body s) as [[r|e] s1]; [|done].
    by destruct (id_on_admin (remember _ _ _ _ _ _ _) s1) as [[[]|e] s2]. }
  unfold atomically. cbn [run_proc fst snd]. rewrite Hm. destruct (body s) as [[r|e] s1]; [|by destruct e].
  destruct (id_on_admin (remember _ _ _ _ _ _ _) s1) as [[[]|e] s2]; [done|by destruct e].
Qed.
Lemma remember_new actor key operation payload r s : ad_idempotency (idb_admin s) !! (actor, key) = None →
  ∃ s', id_on_admin (remember sha256_hex dumps actor key operation payload r) s = (Ok tt, s') ∧ tables s' = tables s ∧ events s' = events s.
Proof. intros Hkey. unfold id_on_admin, remember, mbind, ST_mbind, gets, ensure, modify. rewrite Hkey. by eexists. Qed.
Lemma remember_events actor key operation payload r s u s' :
  id_on_admin (remember sha256_hex dumps actor key operation payload r) s = (Ok u, s') → events s' = events s.
Proof. unfold id_on_admin, remember, mbind, ST_mbind, gets, modify, ensure. destruct (negb _); [|done]. by intros [= _ <-]. Qed.
Lemma require_role_ok {B} p (k : unit → IDP B) s : "PLATFORM_ADMIN" ∈ ap_roles p →
  run_proc (pm_bind (require_role p ["PLATFORM_ADMIN"]) k) s = run_proc (k tt) s.
Proof.
  intros Hp. unfold require_role. replace (meets (ap_roles p) ["PLATFORM_ADMIN"]) with true; [done|]. symmetry.
  apply existsb_exists. exists "PLATFORM_ADMIN". split; [by apply list_elem_of_In|]. apply bool_decide_eq_true. by left.
Qed.

End Grants.

(** ** Associations *)
Lemma canonical_pair_comm a b : canonical_pair a b = canonical_pair b a.
Proof.
  unfold canonical_pair. repeat case_bool_decide; try done.
  - by rewrite (anti_symm String.le a b).
  - by destruct (total String.le a b).
Qed.
(** Associations have no direction.  A request to verify or to revoke the association of
    two subjects is, step by step, the request that names them the other way around: the same
    checks, the same row, the same key of the ledger and the same audit row. *)
Theorem associations_have_no_direction sha256_hex dumps uuid_at collates f1 f2 now p t a b reference key :
  (∀ if_match, verify_association sha256_hex dumps uuid_at collates f1 f2 now p t
     {| sa_subject_id := a; sa_related_subject_id := b; sa_verification_reference := reference |} key if_match =
   verify_association sha256_hex dumps uuid_at collates f1 f2 now p t
     {| sa_subject_id := b; sa_related_subject_id := a; sa_verification_reference := reference |} key if_match) ∧
  ∀ if_match, revoke_association sha256_hex dumps uuid_at f1 f2 now p t a b key if_match =
              revoke_association sha256_hex dumps uuid_at f1 f2 now p t b a key if_match.
Proof.
  assert (bool_decide (a = b) = bool_decide (b = a)) as Heq by by apply bool_decide_ext.
  split; intros if_match.
  - unfold verify_association, association_request_ok, association_audit_id. cbn [sa_subject_id sa_related_subject_id sa_verification_reference].
    by rewrite (canonical_pair_comm a b), Heq, (andb_comm (im_subject_ok a)).
  - unfold revoke_association, association_audit_id. by rewrite (canonical_pair_comm a b), Heq, (andb_comm (im_subject_ok a)).
Qed.

(** ** A platform

    The emergency administrator makes a user an administrator of the platform, who creates a
    tenant and makes another user its administrator. *)
Definition id_sha (s : string) : string := s.
Definition id_text (_ : json) : string := "{}".
Definition id_ids (n : nat) : uuid := Z.of_nat n + 100.
Definition id_session (token : string) : option AdminPrincipal :=
  if bool_decide (token = "root") then Some (emergency_principal "root")
  else Some {| ap_subject := token; ap_auth_method := "oidc"; ap_roles := [] |}.
Definition id_password (username password : string) : bool := bool_decide (password = "secret").
Definition id_collates (a b : string) : bool := bool_decide (String.le a b).
Lemma id_sessions token p : id_session token = Some p → ap_auth_method p = "oidc" ∨ p = emergency_principal "root".
Proof. unfold id_session. case_bool_decide; intros [= <-]; eauto. Qed.
Definition id_empty : IdentityDb :=
  {| idb_admin := {| ad_tenants := ∅; ad_members := []; ad_idempotency := ∅;
                     ad_audit := {| au_events := []; au_chain := ∅; au_outbox := []; au_manifests := []; au_worm := []; au_next_id := 0 |} |};
     idb_tenants := ∅; idb_groups := ∅; idb_group_members := ∅; idb_users := ∅; idb_roles := ∅; idb_members := ∅; idb_bindings := ∅;
     idb_associations := ∅; idb_next_id := 0 |}.
Definition one_quoted : string := quoted "1".
Definition claims_of (name : string) : OidcClaims := {| oc_sub := name; oc_email := None; oc_name := Some name; oc_preferred_username := None |}.
Definition script : list (option string * identity_request) :=
  [(None, OidcLogin NoFault NoFault 0 (claims_of "anna"));
   (Some "root", AssignRole NoFault 0 100 "PLATFORM_ADMIN" "k1" one_quoted);
   (Some (uuid_text 100), CreateTenant NoFault 0 {| tc_slug := "acme"; tc_name := "Acme" |} "k2");
   (None, OidcLogin NoFault NoFault 0 (claims_of "bert"));
   (Some (uuid_text 100), AssignMemberRole NoFault NoFault 0 101 102 "TENANT_ADMIN" "k3")].
Definition id_serve (token : option string) (c : identity_request) : proc IdentityDb unit :=
  serve id_sha id_text id_ids id_session "root" id_password "idp" id_collates token NoFault c.
Definition after_requests (l : list (option string * identity_request)) (s : IdentityDb) : IdentityDb :=
  fold_left (λ s tc, (run_proc (id_serve tc.1 tc.2) s).2) l s.
Definition platform : IdentityDb := after_requests script id_empty.

Abbreviation id_step := (identity_step id_sha id_text id_ids id_session "root" id_password "idp" id_collates).
Lemma request_runs (p : proc IdentityDb unit) s : rtc id_step (s, [p]) ((run_proc p s).2, []).
Proof.
  revert s. induction p as [[]|next IH effect]; intros s.
  - apply rtc_once. exact (identity_crash_step _ _ _ _ _ _ _ _ s [] (Done tt) []).
  - cbn [run_proc]. eapply rtc_l; [|apply IH]. exact (identity_run_step _ _ _ _ _ _ _ _ s [] next effect []).
Qed.
Lemma requests_run l s : rtc id_step (s, []) (after_requests l s, []).
Proof.
  revert s. induction l as [|[token c] l IH]; intros s; [done|]. eapply rtc_l; [exact (identity_request_step _ _ _ _ _ _ _ _ s [] token NoFault c)|].
  etransitivity; [apply request_runs|]. apply IH.
Qed.
Lemma id_fresh : fresh_platform id_empty.
Proof. done. Qed.

Lemma privileges_trace_back_witness :
  (100 : uuid, "PLATFORM_ADMIN") ∈ idb_roles platform ∧
  ∃ e, e ∈ events platform ∧ platform_grant e 100 "PLATFORM_ADMIN" ∧
    platform_admin "emergency:root" (events platform) (ae_auth_method e) (ae_actor e).
Proof.
  assert ((100 : uuid, "PLATFORM_ADMIN") ∈ idb_roles platform) as Hr by (apply (bool_decide_unpack _); vm_compute; exact I).
  split; [exact Hr|]. destruct (privileges_trace_back id_sha id_text id_ids id_session "root" id_password "idp" id_collates id_sessions
    id_empty platform [] id_fresh (requests_run script id_empty)) as [H _]. exact (H _ _ Hr).
Defined.
Lemma identity_tables_agree_witness :
  member_roles 101 102 (idb_admin platform) = ["TENANT_ADMIN"] ∧ is_Some (idb_members platform !! (101 : uuid, 102 : uuid)).
Proof.
  assert (member_roles 101 102 (idb_admin platform) = ["TENANT_ADMIN"]) as Hr by (vm_compute; reflexivity). split; [exact Hr|].
  destruct (identity_tables_agree id_sha id_text id_ids id_session "root" id_password "idp" id_collates id_sessions
    id_empty platform [] id_fresh (requests_run script id_empty)) as (_ & _ & _ & _ & _ & H & _).
  refine (proj2 (H 101 102 "TENANT_ADMIN" _)). rewrite Hr. left.
Defined.
Definition grant_again (if_match : string) : IDP json :=
  assign_role id_sha id_text id_ids NoFault 5 (emergency_principal "root") 100 "PLATFORM_AUDITOR" "k9" if_match.

(** ** Runs that the contract does not foresee *)

(** A name that the table refuses is answered as a slug that exists. *)
Example short_slug_exists :
  (run_proc (create_tenant id_sha id_text id_ids NoFault 5 (emergency_principal "root") {| tc_slug := "A"; tc_name := "A" |} "k8") platform).1
    = Raise (Http 409 "tenant slug already exists") ∧ slug_taken "A" platform = false.
Proof. split; vm_compute; reflexivity. Qed.
(** A role in a tenant that does not exist is a constraint violation that nothing handles. *)
Example role_in_no_tenant :
  (run_proc (assign_member_role id_sha id_text id_ids NoFault NoFault 5 (emergency_principal "root") 999 102 "TENANT_ADMIN" "k8") platform).1
    = Raise IntegrityError.
Proof. vm_compute. reflexivity. Qed.
(** The order of the table is that of the database's collation; where it differs from the
    order of code points, no row can be stored. *)
Definition im_subject (user : string) : string := "im:WECOM:" +:+ uuid_text 500 +:+ ":" +:+ user.
Definition bound_platform : IdentityDb :=
  {| idb_admin := idb_admin platform; idb_tenants := idb_tenants platform; idb_groups := idb_groups platform;
     idb_group_members := idb_group_members platform; idb_users := idb_users platform; idb_roles := idb_roles platform;
     idb_members := idb_members platform; idb_bindings := {[(101 : uuid, 500 : uuid) := "WECOM"]}; idb_associations := ∅;
     idb_next_id := idb_next_id platform |}.
Definition associate_two (collates : string → string → bool) : outcome AdminError json :=
  (run_proc (verify_association id_sha id_text id_ids collates NoFault NoFault 5 (emergency_principal "root") 101
    {| sa_subject_id := im_subject "B"; sa_related_subject_id := im_subject "a"; sa_verification_reference := "ticket" |} "k8" None) bound_platform).1.
Example collation_decides :
  (∃ j, associate_two id_collates = Ok j) ∧ associate_two (λ a b, id_collates b a) = Raise IntegrityError.
Proof. split; [vm_compute; by eexists|vm_compute; reflexivity]. Qed.
